(* ===== verification/_CoqProject ===== *)
-Q . S2P
Prelude.v
Codec.v
Crc32c.v
OndiskFormat.v
OndiskFormatProofs.v
DirectoryEntry.v
OndiskJournal.v
OndiskJournalProofs.v
RingReservation.v
Disk.v
JournalStore.v
JournalImage.v
CrashLogic.v
JournalStates.v
RecoveryProofs.v
TransactionImages.v
TransactionProofs.v
JournalExample.v
JournalTheorems.v
DurableStages.v
BitmapAllocator.v
RequestLedger.v
RequestLedgerProofs.v
FormatTheorems.v
RequestFingerprint.v
ImageReader.v
ImageReaderProofs.v
ReaderTheorems.v
LedgerStore.v
RpcQueue.v
FileMutation.v
ConsistentImage.v
PlanProofs.v
FileMutationProofs.v
FileMutationPublish.v
FileContents.v
Publication.v
FilePlans.v
FileTheorems.v
NewObject.v
ObjectPublish.v
NewObjectProofs.v
RootPlans.v
ObjectPlans.v
NewObjectPlans.v
FileSystem.v
PlanTheorems.v
ObjectBackend.v
BackendProofs.v
LedgerFiles.v
IdempotentProofs.v
StoreRefinement.v
StoreTheorems.v
Mkfs.v
MkfsBitmaps.v
MkfsFormat.v
MkfsImage.v
MkfsTheorems.v
EmptyFileCreate.v
FuseMount.v
FuseProofs.v
FuseReads.v
FuseRefinement.v
FuseTheorems.v
CheckReport.v
CheckerGraph.v
Checker.v
CheckerPointers.v
CheckerDirectories.v
CheckerScan.v
CheckerQueue.v
CheckerConclusions.v
CheckerSpec.v
CheckerLedger.v
CheckerTheorems.v
ObjectService.v
ServiceProofs.v
ServiceTheorems.v
Eufsck.v
Programs.v
