(* ===== verification/Prelude.v ===== *)
(** * EUFS: a verification library

    EUFS (src/src) is a small file system in one image file, with a physical
    redo journal. An image is served either by a FUSE mount or by an object
    store behind an RPC service. This library models the program's own logic
    and proves what makes it correct: that formats, planners and allocators
    compute what they mean to, that the journal makes every change atomic under
    crashes, and that the mount and the object store, as whole systems with
    failing system calls, crashes and restarts, behave like an abstract file
    system and an abstract store.

    ** How the parts work together

    An image is a row of 4 KiB blocks: a superblock, an inode bitmap, a block
    bitmap, an inode table, a journal (two control blocks and a ring) and data
    blocks. [ImageReader] opens it, validates it and answers reads. A planner
    turns a request into a plan: the old content of every block to be changed
    (before-images) and the new content (ordered data and metadata), computed
    without writing anything. [ExecuteJournalTransaction] writes the data, then
    descriptor and body into the ring, exposes them in the control block,
    writes COMMIT, writes the blocks home and checkpoints. After a crash
    [StartupRecovery] classifies what the ring holds and replays or discards
    it. The object backend and the mount run plan, transaction and re-opening
    of the reader under one lock; when a transaction fails half-way they close
    themselves. The backend can store a record of each identified request in a
    ledger file, in the same transaction as its effect. The RPC service admits
    calls under a byte budget, queues them for its workers and maps what the
    backend did to a status. mkfs makes images, and eufsck checks them offline,
    with code of its own. The programs wrap these parts in command lines.

    ** Which file models which code

    Each component has a file (or a few) of definitions and files of proofs;
    the files named [...Theorems] state the guarantees. Paths are under src/src.
    - Prelude, Codec: results, machine words, lists; byte fields at offsets.
    - Crc32c, OndiskFormat, DirectoryEntry with OndiskFormatProofs:
      metadata/ondisk_format; FormatTheorems.
    - OndiskJournal(Proofs): journal/ondisk_journal; RingReservation:
      journal/ring_reservation.
    - Disk: the image file and its system calls. JournalStore:
      journal/journal_control_store, journal_transaction_executor,
      mounted_image_session, journal_recovery and the recovery of
      fuse/mount_state. DurableStages: journal/durable_stage_failpoint.
    - CrashLogic, JournalImage, JournalStates, RecoveryProofs,
      TransactionImages, TransactionProofs, JournalTheorems: crash semantics,
      a program logic for the store, and the journal's guarantees.
    - BitmapAllocator: storage/bitmap_allocator. ImageReader(Proofs),
      ReaderTheorems: storage/image_reader.
    - FileMutation, NewObject, EmptyFileCreate: the planners
      metadata/file_mutation_plan, file_write_plan, object_replace_plan,
      new_object_plan, empty_file_create_plan.
      ConsistentImage, PlanProofs, FileMutationProofs, FileMutationPublish,
      FileContents, FilePlans, ObjectPublish, NewObjectProofs, RootPlans,
      ObjectPlans, NewObjectPlans: their proofs. Publication, FileSystem: the
      abstract file system and the contract between a plan and the journal.
      FileTheorems, PlanTheorems: their guarantees.
    - RequestLedger(Proofs), LedgerStore, RequestFingerprint:
      object/request_ledger_format, _index, _plan, object/request_fingerprint.
    - ObjectBackend, with BackendProofs, LedgerFiles, IdempotentProofs:
      object/object_backend. StoreRefinement, StoreTheorems: the store as a
      whole.
    - RpcQueue: rpc/inflight_byte_limiter, rpc/bounded_task_queue.
      ObjectService, with ServiceProofs, ServiceTheorems:
      rpc/object_service_impl, object_service_metrics, object_service.proto.
    - Mkfs, with MkfsBitmaps, MkfsFormat, MkfsImage, MkfsTheorems: storage/mkfs.
    - FuseMount, with FuseProofs, FuseReads, FuseRefinement, FuseTheorems:
      fuse/mount_state, fuse/operations.
    - CheckReport, CheckerGraph, Checker: checker/consistency_checker and the
      verdict of consistency_report; CheckerPointers, CheckerDirectories,
      CheckerScan, CheckerQueue, CheckerConclusions, CheckerSpec, CheckerLedger,
      CheckerTheorems: what it finds. Eufsck: the texts of consistency_report,
      and checker/eufsck_command.
    - Programs: the programs of app.
    - JournalExample: a concrete image; each file of theorems evaluates its
      theorems on such an image.

    ** How state and operations correspond to the code

    A C++ class is a [Record] with the fields that carry its state; a method is
    a function that passes the record and the environment along. Output
    parameters are return values and a negative errno is [Err]; texts in
    [detail] strings are left out below the service and the programs. Integers are [Z] with wrap-around written
    out where the code computes at a fixed width; bytes are lists of [Z].
    Blocks are a finite map [image]. Mutexes are held for a whole operation in
    the backend and the mount, so an operation is one step. Where threads meet,
    in the RPC service and in the load client, the threads are explicit and move
    one action on shared state at a time, in any order.
    System calls take their answers from a script of responses (success, short
    transfer, interruption, error), which theorems quantify over; the empty
    script is a system without failures ("calm"). They leave a trace of writes,
    syncs and durable stages.

    ** Crashes

    From a trace follow the durable content and the pending writes. A crash
    keeps for every block the durable content or any pending write of it, or the
    remains of a torn write. About torn writes two things are assumed, through
    [torn_block]: the remains are a block of bytes, and inside the journal they
    do not pass the checks of a control block or of a COMMIT (which carry CRC32C
    checksums; that CRC32C finds every change within 32 consecutive bits is proved
    in FormatTheorems). For the same reason the theorems on transactions
    ask that no after-image is itself a valid COMMIT record
    ([no_commit_block]): a ring slot would otherwise hold a record nobody wrote.
    [crash_outcome] adds any number of recoveries that are themselves
    interrupted. mkfs has a crash model of its own, of a host file whose length
    and name can be lost as well.

    ** What the theorems show

    - Formats: encoders and decoders are inverse, decoders accept nothing else,
      corruption is found, a valid superblock tiles the image.
    - Journal: transactions are atomic under a crash at any point and repeated
      crashes in recovery; success means durable; recovery always completes, on
      any state a crash leaves; without failures a valid transaction succeeds.
    - Reader: an image opens exactly if it is consistent; listings, paths and
      contents are exact, and failures never change an answer.
    - Planners: for every request on a consistent image, which error or plan is
      answered; a plan changes exactly what was asked for and leads to a
      consistent image again.
    - Object store: refinement of an abstract store ([shown_step], over files and
      recorded requests) by runs of requests, failures, crashes and restarts;
      identified requests are executed at most once and their records are kept;
      the store reopens after every crash. The runs are those
      that leave the ledger file alone (see the hypotheses below).
    - mkfs: a formatted image opens as an empty store (a new file always, an
      overwritten one if its old ring holds no COMMIT); a crash never leaves a
      superblock over an incomplete body.
    - FUSE: the same refinement for a mount ([view_step]), whose abstract state is the files
      it shows or, after a failure half-way, nothing until it is mounted again;
      directory reading over several buffers; reading back what was written.
    - RPC: each task is completed exactly once, in every interleaving, and the
      byte budget is kept; the service answers every call once and truthfully,
      comes to rest, does nothing after Shutdown, and what it did is a run of the
      abstract store, under the hypotheses on requests below.
    - Checker: an image is called healthy exactly if it is consistent, with a
      tidy tree, exact link counts and a ledger that loads; on every image with a
      readable superblock and journal the scan ends with a report (but for one
      with 4294967295 inodes, over which its 32-bit loops run for ever); what
      mkfs makes with fewer inodes is healthy. eufsck: the exit codes mean that, and its JSON is read
      back.
    - Programs: command lines are accepted exactly in their documented forms and
      a refused one touches nothing; client and service agree on what a valid
      request is; the load client makes every request once.

    Hypotheses on requests ([admissible], [fuse_admissible]) say that data are
    bytes, numbers fit their types, timestamps come from the clock, and that
    [no_commit_block] holds for the plan. The theorems on runs of the store and of
    the service also assume that no request replaces the file of the ledger in
    use ([spares_ledger], in [orderly] of the service): the code takes
    .eufs.request-ledger for an object like any other, and a replacement of it,
    also by PutObject, destroys the records and can make the image impossible to
    open ([ledger_file_unprotected]). Runs of the service are covered as long as
    the backend stays open. A format over an existing file is assumed to find no
    COMMIT record in the new ring ([ring_fresh]). System calls of the checker and
    of eufsck may fail in any way but with EUCLEAN, which they take for damage
    ([plain_script]).

    Parameters that stand for foreign code: SHA-256 in RequestFingerprint and
    ObjectService, of which [openssl_sha256] states what OpenSSL documents; the
    directory buffer of libfuse ([DirectoryBuffer]); in Programs also the event
    loop of libfuse and the remote calls of brpc.

    ** Recursion and fuel

    Loops that are not structural run on a measure as fuel, chosen so that it
    never runs out: directory scans ([scan_records], [insert_records]) take the
    block length, as each record has a positive length; [read_rounds] takes the
    number of bytes, as each round reads at least one, and [touched] of Mkfs the
    number of blocks the data can span. The checker's queue of inodes takes the
    number of inodes, as each is queued once, and its graph searches the number
    of edges and nodes; [read_json] takes the length of the text. Retried transfers recurse
    over the script of responses: when it is used up, the rest of the transfer
    succeeds at once. The loops of the checker over all inodes count in 32 bits and
    take the last number as fuel; [inode_loop_never] shows that where it does not
    suffice no fuel does, and the check then has the outcome [None]. The theorems
    are about the results, so fuel that ran out would show as a missing result.

    ** Not modelled

    Explanations that functions below the programs leave in [detail] strings,
    log output, the lifetime of descriptors and advisory locks, latencies and
    the names under which metrics are exposed, and Init of the FUSE table, which
    only sets cache options of libfuse. getopt, gflags, brpc, protobuf and
    OpenSSL are foreign code: what the program gets from them is an input. *)
From stdpp Require Export prelude list gmap sorting strings.
From Stdlib Require Export ZArith Lia Bool.

#[export] Set Default Goal Selector "!".
Open Scope Z_scope.

(** * Error results

    Every fallible routine of the code base reports failure through its return
    value: the codecs return [false] and fill a message, the stateful code
    returns a negative errno. Both are values of [result]. *)
Inductive result (E A : Type) : Type :=
| Ok (a : A)
| Err (e : E).
Arguments Ok {E A} a.
Arguments Err {E A} e.

Lemma Ok_inj {E A} (x y : A) : Ok (E:=E) x = Ok y -> x = y.
Proof. congruence. Qed.

(** [ok_inv H] turns [H : Ok x = Ok y] into a substitution without reducing
    the (large) terms involved. *)
Ltac ok_inv H := apply Ok_inj in H; subst.

Definition is_ok {E A} (r : result E A) : bool :=
  match r with Ok _ => true | Err _ => false end.

(** The errno values the code returns (always negated in the source). *)
Inductive errno : Set :=
| EPERM | ENOENT | EINTR | EIO | E2BIG | EACCES | EBUSY | EEXIST | ENOTDIR
| EISDIR | EINVAL | EFBIG | ENOSPC | EALREADY | EOVERFLOW | ESTALE | EUCLEAN
| EOPNOTSUPP | ENOMEM | ENAMETOOLONG
| EOTHER (code : Z).

#[global] Instance errno_eq_dec : EqDecision errno.
Proof. solve_decision. Defined.

(** * Machine words *)
Definition u8 (z : Z) : Prop := 0 <= z < 256.
Definition u16 (z : Z) : Prop := 0 <= z < 65536.
Definition u32 (z : Z) : Prop := 0 <= z < 4294967296.
Definition u64 (z : Z) : Prop := 0 <= z < 18446744073709551616.

Definition wrap32 (z : Z) : Z := z mod 4294967296.
Definition wrap64 (z : Z) : Z := z mod 18446744073709551616.

Lemma wrap32_u32 z : u32 (wrap32 z).
Proof. unfold u32, wrap32. apply Z.mod_pos_bound. lia. Qed.

Lemma wrap64_u64 z : u64 (wrap64 z).
Proof. unfold u64, wrap64. apply Z.mod_pos_bound. lia. Qed.

Lemma wrap32_small z : u32 z -> wrap32 z = z.
Proof. intros H. apply Z.mod_small. exact H. Qed.

Lemma wrap64_small z : u64 z -> wrap64 z = z.
Proof. intros H. apply Z.mod_small. exact H. Qed.

Create HintDb eufs.
#[export] Hint Resolve wrap32_u32 wrap64_u64 : eufs.

(** [word] closes range goals about words after unfolding them. *)
Ltac word := unfold u8, u16, u32, u64 in *; lia.

(** Splits syntactic conjunctions only (range predicates stay folded). *)
Ltac conj_split := repeat match goal with |- _ /\ _ => split end.

(** Case analysis on the boolean guards that mirror the code's conditions. *)
Ltac bool_to_prop :=
  repeat match goal with
  | H : _ && _ = true |- _ => apply andb_prop in H as [? ?]
  | H : _ || _ = false |- _ => apply orb_false_elim in H as [? ?]
  | H : negb _ = false |- _ => apply negb_false_iff in H
  | H : negb _ = true |- _ => apply negb_true_iff in H
  | H : (_ =? _) = true |- _ => apply Z.eqb_eq in H
  | H : (_ =? _) = false |- _ => apply Z.eqb_neq in H
  | H : (_ <? _) = true |- _ => apply Z.ltb_lt in H
  | H : (_ <? _) = false |- _ => apply Z.ltb_ge in H
  | H : (_ <=? _) = true |- _ => apply Z.leb_le in H
  | H : (_ <=? _) = false |- _ => apply Z.leb_gt in H
  | H : bool_decide _ = true |- _ => apply bool_decide_eq_true in H
  | H : bool_decide _ = false |- _ => apply bool_decide_eq_false in H
  end.

(** [guards H] walks down the chain of guards of a definition that has been
    unfolded in [H], keeping only the branches that can return the result in
    [H]. *)
Ltac guard_step H :=
  match type of H with
  | context [if ?c then _ else _] =>
      let E := fresh "Hg" in destruct c eqn:E; try discriminate H
  | context [match ?c with Ok _ => _ | Err _ => _ end] =>
      let E := fresh "Hm" in destruct c eqn:E; try discriminate H
  end.
Ltac guards H := repeat guard_step H; bool_to_prop.

Lemma if_true {A} (b : bool) (x y : A) : b = true -> (if b then x else y) = x.
Proof. by intros ->. Qed.
Lemma if_false {A} (b : bool) (x y : A) : b = false -> (if b then x else y) = y.
Proof. by intros ->. Qed.

(** * Byte sequences *)
Abbreviation bytes := (list Z).
Definition bytes_ok (b : bytes) : Prop := Forall u8 b.

(** [slice off n b] is the byte range [[off, off+n)] of [b]. *)
Definition slice (off n : nat) (b : bytes) : bytes := take n (drop off b).

(** [splice off new b] overwrites the bytes of [b] from [off] on with [new]
    ([std::copy] into a buffer, or a positioned write). *)
Definition splice (off : nat) (new b : bytes) : bytes :=
  take off b ++ new ++ drop (off + length new) b.

Definition zeros (n : nat) : bytes := replicate n 0.

(** All bytes of the range are zero ([BytesAreZero], [IsZeroRange]). *)
Definition all_zero (b : bytes) : bool := forallb (fun z => z =? 0) b.

Section bytes.
Local Open Scope nat_scope.
Implicit Types (b new : bytes) (off n m : nat).

Lemma length_slice off n b : off + n <= length b -> length (slice off n b) = n.
Proof. intros. unfold slice. rewrite length_take, length_drop. lia. Qed.

Lemma length_splice off new b :
  off + length new <= length b -> length (splice off new b) = length b.
Proof.
  intros. unfold splice. rewrite !length_app, length_take, length_drop. lia.
Qed.

Lemma slice_app_r off n b1 b2 :
  length b1 <= off -> slice off n (b1 ++ b2) = slice (off - length b1) n b2.
Proof. intros. unfold slice. by rewrite drop_app_ge. Qed.

Lemma slice_app_l off n b1 b2 :
  off + n <= length b1 -> slice off n (b1 ++ b2) = slice off n b1.
Proof.
  intros. unfold slice. rewrite drop_app_le by lia.
  rewrite take_app_le; [done|]. rewrite length_drop. lia.
Qed.

Lemma slice_all b : slice 0 (length b) b = b.
Proof. unfold slice. rewrite drop_0. by apply take_ge. Qed.

Lemma slice_splice_eq off new b :
  off + length new <= length b ->
  slice off (length new) (splice off new b) = new.
Proof.
  intros. unfold splice. rewrite slice_app_r; rewrite length_take; [|lia].
  rewrite Nat.min_l, Nat.sub_diag by lia.
  rewrite slice_app_l by lia. apply slice_all.
Qed.

Lemma slice_splice_same off n new b :
  length new = n -> off + n <= length b -> slice off n (splice off new b) = new.
Proof. intros <-. apply slice_splice_eq. Qed.

Lemma slice_splice_ne off off' n new b :
  off + length new <= length b ->
  off' + n <= off \/ off + length new <= off' ->
  slice off' n (splice off new b) = slice off' n b.
Proof.
  intros Hl [H|H]; unfold splice.
  - rewrite slice_app_l by (rewrite length_take; lia).
    unfold slice. rewrite <- (take_drop off b) at 2.
    rewrite drop_app_le by (rewrite length_take; lia).
    rewrite take_app_le; [done|]. rewrite length_drop, length_take. lia.
  - rewrite slice_app_r; rewrite length_take; [|lia].
    rewrite slice_app_r by lia. unfold slice. rewrite drop_drop.
    f_equal. f_equal. lia.
Qed.

Lemma splice_app off new1 new2 b :
  off + length new1 + length new2 <= length b ->
  splice off (new1 ++ new2) b = splice (off + length new1) new2 (splice off new1 b).
Proof.
  intros Hl. unfold splice. rewrite length_app.
  rewrite (take_app_ge (take off b)) by (rewrite length_take; lia).
  rewrite length_take, Nat.min_l by lia.
  replace (off + length new1 - off) with (length new1) by lia.
  rewrite take_app_length.
  rewrite drop_app_ge by (rewrite length_take; lia).
  rewrite length_take, Nat.min_l by lia.
  rewrite drop_app_ge by lia. rewrite drop_drop, <- !app_assoc.
  do 4 f_equal. lia.
Qed.

Lemma splice_slice off n b :
  off + n <= length b -> splice off (slice off n b) b = b.
Proof.
  intros. unfold splice. rewrite length_slice by lia. unfold slice.
  rewrite <- drop_drop, take_drop. apply take_drop.
Qed.

Lemma splice_splice off new new' b :
  length new = length new' -> off + length new <= length b ->
  splice off new (splice off new' b) = splice off new b.
Proof.
  intros Hn Hl. unfold splice.
  rewrite take_app_le by (rewrite length_take; lia).
  rewrite take_take, Nat.min_l by lia. f_equal. f_equal.
  rewrite drop_app_ge by (rewrite length_take; lia).
  rewrite length_take, Nat.min_l by lia.
  rewrite drop_app_ge by lia. rewrite drop_drop. f_equal. lia.
Qed.

Lemma slice_slice off n off' n' b :
  off' + n' <= n -> slice off' n' (slice off n b) = slice (off + off') n' b.
Proof.
  intros. unfold slice. rewrite skipn_firstn_comm, take_take, drop_drop.
  f_equal. lia.
Qed.

Lemma slice_add off n m b : slice off (n + m) b = slice off n b ++ slice (off + n) m b.
Proof. unfold slice. by rewrite <- (drop_drop b), take_take_drop. Qed.

Lemma slice_zeros off n m : off + n <= m -> slice off n (zeros m) = zeros n.
Proof.
  intros. unfold slice, zeros. rewrite drop_replicate, take_replicate.
  f_equal. lia.
Qed.

Lemma bytes_ok_slice off n b : bytes_ok b -> bytes_ok (slice off n b).
Proof. intros H. unfold slice. apply Forall_take, Forall_drop, H. Qed.

Lemma bytes_ok_splice off new b :
  bytes_ok new -> bytes_ok b -> bytes_ok (splice off new b).
Proof.
  intros Hn Hb. unfold splice.
  apply Forall_app; split; [by apply Forall_take|].
  apply Forall_app; split; [done|by apply Forall_drop].
Qed.

Lemma bytes_ok_zeros n : bytes_ok (zeros n).
Proof. apply Forall_replicate. unfold u8. lia. Qed.

Lemma all_zero_spec b : all_zero b = true <-> b = zeros (length b).
Proof.
  unfold all_zero, zeros. induction b as [|x b IH]; simpl; [done|].
  rewrite andb_true_iff, IH, Z.eqb_eq. split.
  - intros [-> Hb]. by rewrite <- Hb.
  - intros [= -> Hb]. done.
Qed.

Lemma all_zero_zeros n : all_zero (zeros n) = true.
Proof. apply all_zero_spec. unfold zeros. by rewrite length_replicate. Qed.

(** Consecutive segments [off_0, off_1), [off_1, off_2), ... that tile
    [[from, to)]. *)
Fixpoint tiles (from : nat) (segs : list (nat * nat)) (to : nat) : bool :=
  match segs with
  | [] => from =? to
  | (off, len) :: rest => (off =? from) && tiles (off + len) rest to
  end.

(** Two buffers that agree on every segment of a tiling are equal. *)
Lemma tiles_ext from segs to b b' :
  tiles from segs to = true ->
  length b = to -> length b' = to ->
  Forall (fun s => slice (fst s) (snd s) b = slice (fst s) (snd s) b') segs ->
  drop from b = drop from b'.
Proof.
  revert from. induction segs as [|[off len] segs IH]; intros from Ht Hb Hb' Hs.
  - simpl in Ht. apply Nat.eqb_eq in Ht. rewrite !drop_ge by lia. done.
  - simpl in Ht. apply andb_prop in Ht as [Ho Ht].
    apply Nat.eqb_eq in Ho as ->. inversion Hs as [|? ? Hh Hs']; subst.
    simpl in Hh. rewrite <- (take_drop len (drop from b)).
    rewrite <- (take_drop len (drop from b')). rewrite !drop_drop.
    f_equal; [exact Hh|]. by apply IH.
Qed.
End bytes.

#[export] Hint Resolve bytes_ok_slice bytes_ok_splice bytes_ok_zeros : eufs.

(** * Association lists in key order

    [std::map<K, V>] is a [gmap]; a range-for over it visits the entries in
    ascending key order, which [sorted_entries] reproduces. *)
Definition key_le {A} : relation (Z * A) := fun p q => fst p <= fst q.
#[global] Instance key_le_dec {A} : RelDecision (@key_le A).
Proof. intros p q. unfold key_le. apply _. Defined.
#[global] Instance key_le_total {A} : Total (@key_le A).
Proof. intros p q. unfold key_le. lia. Qed.
#[global] Instance key_le_trans {A} : Transitive (@key_le A).
Proof. intros p q r. unfold key_le. lia. Qed.

Definition sorted_entries {A} (m : gmap Z A) : list (Z * A) :=
  merge_sort key_le (map_to_list m).

Section sorted_entries.
Context {A : Type}.
Implicit Types m : gmap Z A.

Lemma sorted_entries_perm m : sorted_entries m ≡ₚ map_to_list m.
Proof. apply merge_sort_Permutation. Qed.

Lemma elem_of_sorted_entries m k v :
  (k, v) ∈ sorted_entries m <-> m !! k = Some v.
Proof. rewrite sorted_entries_perm. apply elem_of_map_to_list. Qed.

Lemma length_sorted_entries m : length (sorted_entries m) = size m.
Proof. by rewrite sorted_entries_perm, length_map_to_list. Qed.

Lemma NoDup_sorted_keys m : NoDup (fst <$> sorted_entries m).
Proof. rewrite sorted_entries_perm. apply NoDup_fst_map_to_list. Qed.

Lemma list_to_map_sorted_entries m : list_to_map (sorted_entries m) = m.
Proof.
  rewrite <- (list_to_map_to_list m) at 2.
  apply list_to_map_proper; [apply NoDup_sorted_keys|apply sorted_entries_perm].
Qed.

Lemma Sorted_sorted_entries m : Sorted key_le (sorted_entries m).
Proof. apply Sorted_merge_sort. apply _. Qed.
End sorted_entries.

(** Sequential insertion of a list of bindings (later bindings win). *)
Definition insert_all {A} (l : list (Z * A)) (m : gmap Z A) : gmap Z A :=
  foldl (fun m p => <[fst p := snd p]> m) m l.

Section insert_all.
Context {A : Type}.
Implicit Types (m : gmap Z A) (l : list (Z * A)).

Lemma insert_all_app l1 l2 m :
  insert_all (l1 ++ l2) m = insert_all l2 (insert_all l1 m).
Proof. apply foldl_app. Qed.

Lemma lookup_insert_all_ne l m k :
  k ∉ (fst <$> l) -> insert_all l m !! k = m !! k.
Proof.
  revert m. induction l as [|[k' v] l IH]; intros m Hk; [done|].
  apply not_elem_of_cons in Hk as [Hne Hk]. simpl.
  rewrite IH by done. by apply lookup_insert_ne.
Qed.

Lemma lookup_insert_all_in l m k v :
  NoDup (fst <$> l) -> (k, v) ∈ l -> insert_all l m !! k = Some v.
Proof.
  revert m. induction l as [|[k' v'] l IH]; intros m Hnd Hin; [by inversion Hin|].
  inversion Hnd as [|? ? Hk' Hnd']; subst. simpl.
  apply elem_of_cons in Hin as [[= -> ->]|Hin]; [|by apply IH].
  rewrite lookup_insert_all_ne by done. apply lookup_insert_eq.
Qed.

Lemma insert_all_sorted (m1 m2 : gmap Z A) :
  insert_all (sorted_entries m1) m2 = m1 ∪ m2.
Proof.
  apply map_eq. intros k. destruct (m1 !! k) as [v|] eqn:E.
  - rewrite (lookup_union_Some_l _ _ _ _ E).
    apply lookup_insert_all_in; [apply NoDup_sorted_keys|].
    by apply elem_of_sorted_entries.
  - rewrite lookup_union_r by done. apply lookup_insert_all_ne.
    intros ([k' v] & -> & Hv)%list_elem_of_fmap.
    apply elem_of_sorted_entries in Hv. simpl in E. congruence.
Qed.
End insert_all.

(** * Texts *)
(** The bytes of a message. *)
Definition text (s : string) : bytes := map (fun c => Z.of_N (Ascii.N_of_ascii c)) (String.list_ascii_of_string s).
Arguments text _%_string.
