(* ===== verification/Codec.v ===== *)
(** Little-endian field access on byte buffers, and the generic theory of
    fixed-offset record layouts that all on-disk codecs share. *)
From S2P Require Import Prelude.
Open Scope Z_scope.

(** [PutLe16]/[PutLe32]/[PutLe64]: [output[i] = (uint8_t)(value >> (8*i))]. *)
Definition le_bytes (n : nat) (value : Z) : bytes :=
  map (fun i => Z.land (Z.shiftr value (Z.of_nat i * 8)) 255) (seq 0 n).

(** [GetLe16]/[GetLe32]/[GetLe64]: [value |= input[i] << (8*i)]. *)
Definition get_le (n : nat) (input : bytes) : Z :=
  foldl (fun value i => Z.lor value (Z.shiftl (nth i input 0) (Z.of_nat i * 8)))
        0 (seq 0 n).

Definition PutLe16 (off : nat) (value : Z) (b : bytes) : bytes :=
  splice off (le_bytes 2 value) b.
Definition PutLe32 (off : nat) (value : Z) (b : bytes) : bytes :=
  splice off (le_bytes 4 value) b.
Definition PutLe64 (off : nat) (value : Z) (b : bytes) : bytes :=
  splice off (le_bytes 8 value) b.

Definition GetLe16 (b : bytes) (off : nat) : Z := get_le 2 (slice off 2 b).
Definition GetLe32 (b : bytes) (off : nat) : Z := get_le 4 (slice off 4 b).
Definition GetLe64 (b : bytes) (off : nat) : Z := get_le 8 (slice off 8 b).

#[global] Arguments le_bytes : simpl never.
#[global] Arguments get_le : simpl never.

(** ** Round trips of the little-endian encoding *)
Lemma length_le_bytes n v : length (le_bytes n v) = n.
Proof. unfold le_bytes. by rewrite length_map, length_seq. Qed.

Lemma le_bytes_cons n v : le_bytes (S n) v = Z.land v 255 :: le_bytes n (Z.shiftr v 8).
Proof.
  unfold le_bytes. cbn [seq map]. rewrite Z.shiftr_0_r. f_equal.
  rewrite <- seq_shift, map_map. apply map_ext. intros i.
  rewrite Z.shiftr_shiftr by lia. do 2 f_equal. lia.
Qed.

Lemma le_bytes_ok n v : bytes_ok (le_bytes n v).
Proof.
  unfold bytes_ok, le_bytes. apply Forall_forall. intros x Hx.
  apply list_elem_of_In, in_map_iff in Hx as (i & <- & _).
  change 255 with (Z.ones 8). rewrite Z.land_ones by lia.
  unfold u8. change 256 with (2 ^ 8). apply Z.mod_pos_bound. lia.
Qed.

(** Horner form of the accumulating loop. *)
Lemma get_le_shift n input :
  get_le (S n) input =
  Z.lor (nth 0 input 0) (Z.shiftl (get_le n (drop 1 input)) 8).
Proof.
  unfold get_le. cbn [seq foldl].
  rewrite Z.shiftl_0_r, Z.lor_0_l. rewrite <- seq_shift.
  generalize (nth 0 input 0) as acc. intros acc.
  assert (forall l acc',
    foldl (fun value i => Z.lor value (Z.shiftl (nth i input 0) (Z.of_nat i * 8)))
      (Z.lor acc (Z.shiftl acc' 8)) (map S l) =
    Z.lor acc (Z.shiftl
      (foldl (fun value i => Z.lor value
         (Z.shiftl (nth i (drop 1 input) 0) (Z.of_nat i * 8))) acc' l) 8)) as H.
  { intros l. induction l as [|i l IH]; intros acc'; [done|].
    cbn [map foldl]. rewrite <- IH. f_equal.
    rewrite Z.shiftl_lor, Z.lor_assoc. f_equal.
    rewrite Z.shiftl_shiftl by lia. f_equal; [|lia].
    destruct input as [|x input]; [by destruct i|]. cbn. by rewrite drop_0. }
  specialize (H (seq 0 n) 0). rewrite Z.shiftl_0_l, Z.lor_0_r in H. exact H.
Qed.

Lemma u8_testbit_high x i : u8 x -> 8 <= i -> Z.testbit x i = false.
Proof.
  intros Hx Hi. rewrite <- (Z.mod_small x (2 ^ 8)) by exact Hx.
  apply Z.mod_pow2_bits_high. lia.
Qed.

Lemma lor_shiftl_add x y : u8 x -> Z.lor x (Z.shiftl y 8) = x + y * 256.
Proof.
  intros Hx. assert (Z.land x (Z.shiftl y 8) = 0) as Hd.
  { apply Z.bits_inj'. intros i Hi. rewrite Z.land_spec, Z.bits_0.
    destruct (Z.lt_ge_cases i 8).
    - rewrite (Z.shiftl_spec_low y) by lia. apply andb_false_r.
    - by rewrite u8_testbit_high. }
  rewrite <- Z.lxor_lor, <- Z.add_nocarry_lxor by done.
  by rewrite Z.shiftl_mul_pow2.
Qed.

Lemma land_255 v : Z.land v 255 = v mod 256.
Proof. change 255 with (Z.ones 8). by rewrite Z.land_ones. Qed.

Lemma u8_mod v : u8 (v mod 256).
Proof. apply Z.mod_pos_bound. lia. Qed.

(** Reading back what was written gives the value modulo the field width. *)
Lemma get_le_bytes n v : get_le n (le_bytes n v) = v mod 2 ^ (8 * Z.of_nat n).
Proof.
  revert v. induction n as [|n IH]; intros v.
  - by rewrite Z.mod_1_r.
  - rewrite get_le_shift, le_bytes_cons. cbn [nth drop]. rewrite drop_0, IH, land_255.
    rewrite lor_shiftl_add by apply u8_mod.
    rewrite Z.shiftr_div_pow2 by lia. change (2 ^ 8) with 256.
    replace (8 * Z.of_nat (S n)) with (8 + 8 * Z.of_nat n) by lia.
    rewrite Z.pow_add_r by lia. change (2 ^ 8) with 256.
    rewrite Z.rem_mul_r by lia. lia.
Qed.

Lemma get_le_bound n b : bytes_ok b -> 0 <= get_le n b < 2 ^ (8 * Z.of_nat n).
Proof.
  revert b. induction n as [|n IH]; intros b Hb; [by compute|].
  assert (u8 (nth 0 b 0)) as H0.
  { destruct b as [|x b]; [unfold u8; simpl; lia|]. by inversion Hb. }
  rewrite get_le_shift, lor_shiftl_add by done.
  specialize (IH (drop 1 b) (Forall_drop _ _ _ Hb)).
  replace (8 * Z.of_nat (S n)) with (8 + 8 * Z.of_nat n) by lia.
  rewrite Z.pow_add_r by lia. change (2 ^ 8) with 256. unfold u8 in H0. lia.
Qed.

(** Writing back what was read restores the bytes. *)
Lemma le_bytes_get b : bytes_ok b -> le_bytes (length b) (get_le (length b) b) = b.
Proof.
  induction b as [|x b IH]; intros Hb; [done|].
  inversion Hb as [|? ? Hx Hb']; subst. cbn [length].
  rewrite le_bytes_cons, get_le_shift. cbn [nth drop]. rewrite drop_0.
  rewrite lor_shiftl_add by done. rewrite land_255.
  rewrite Z.shiftr_div_pow2 by lia. change (2 ^ 8) with 256.
  unfold u8 in Hx. rewrite Z.mod_add, Z.mod_small by lia.
  rewrite Z.div_add, Z.div_small, Z.add_0_l by lia. f_equal. by apply IH.
Qed.

Lemma le_bytes_0 n : le_bytes n 0 = zeros n.
Proof.
  induction n as [|n IH]; [done|].
  rewrite le_bytes_cons, Z.shiftr_0_l, IH. done.
Qed.

Lemma le_bytes_get_slice n off b :
  bytes_ok b -> (off + n <= length b)%nat ->
  le_bytes n (get_le n (slice off n b)) = slice off n b.
Proof.
  intros Hb Hl. pose proof (length_slice off n b Hl) as Hn.
  rewrite <- Hn at 1 2. apply le_bytes_get. by apply bytes_ok_slice.
Qed.

Lemma get_le2 v : u16 v -> get_le 2 (le_bytes 2 v) = v.
Proof. intros. rewrite get_le_bytes. apply Z.mod_small. exact H. Qed.
Lemma get_le4 v : u32 v -> get_le 4 (le_bytes 4 v) = v.
Proof. intros. rewrite get_le_bytes. apply Z.mod_small. exact H. Qed.
Lemma get_le8 v : u64 v -> get_le 8 (le_bytes 8 v) = v.
Proof. intros. rewrite get_le_bytes. apply Z.mod_small. exact H. Qed.

Lemma GetLe16_u16 b off : bytes_ok b -> u16 (GetLe16 b off).
Proof. intros. apply (get_le_bound 2), bytes_ok_slice, H. Qed.
Lemma GetLe32_u32 b off : bytes_ok b -> u32 (GetLe32 b off).
Proof. intros. apply (get_le_bound 4), bytes_ok_slice, H. Qed.
Lemma GetLe64_u64 b off : bytes_ok b -> u64 (GetLe64 b off).
Proof. intros. apply (get_le_bound 8), bytes_ok_slice, H. Qed.

#[export] Hint Resolve le_bytes_ok GetLe16_u16 GetLe32_u32 GetLe64_u64 : eufs.

(** [len] normalises lengths of spliced buffers and closes the goal. *)
Ltac len :=
  rewrite ?length_app, ?length_le_bytes;
  repeat (rewrite length_splice by len); rewrite ?length_app, ?length_le_bytes; lia.

(** * Record layouts

    An encoder fills a zeroed buffer with fields at fixed offsets. [puts]
    performs the writes of a field table; a table whose fields do not overlap
    can be read back field by field. *)
Record field := Field { f_off : nat; f_len : nat; f_val : bytes }.

Definition puts (fs : list field) (b : bytes) : bytes :=
  foldl (fun b f => splice (f_off f) (f_val f) b) b fs.

Definition field_sized (f : field) : Prop := length (f_val f) = f_len f.

(** [off, off+len) does not meet any field of the table. *)
Definition clear_of (off len : nat) (fs : list field) : bool :=
  forallb (fun f => (off + len <=? f_off f)%nat || (f_off f + f_len f <=? off)%nat) fs.

(** Fields are pairwise disjoint and end before [size]. *)
Fixpoint layout_ok (size : nat) (fs : list field) : bool :=
  match fs with
  | [] => true
  | f :: rest => (f_off f + f_len f <=? size)%nat
                 && clear_of (f_off f) (f_len f) rest && layout_ok size rest
  end.

Section layout.
Local Open Scope nat_scope.
Implicit Types (fs : list field) (b : bytes).

Lemma length_puts size fs b :
  layout_ok size fs = true -> Forall field_sized fs ->
  length b = size -> length (puts fs b) = size.
Proof.
  revert b. induction fs as [|f fs IH]; intros b Hl Hs Hb; [done|].
  inversion Hs as [|? ? Hf Hs']; subst. simpl in Hl.
  apply andb_prop in Hl as [[Hl1 Hl2]%andb_prop Hl3]. apply Nat.leb_le in Hl1.
  unfold field_sized in Hf. simpl. apply IH; [done..|].
  rewrite length_splice; lia.
Qed.

Lemma slice_puts_clear size fs b off len :
  layout_ok size fs = true -> Forall field_sized fs -> length b = size ->
  clear_of off len fs = true ->
  slice off len (puts fs b) = slice off len b.
Proof.
  revert b. induction fs as [|f fs IH]; intros b Hl Hs Hb Hc; [done|].
  inversion Hs as [|? ? Hf Hs']; subst. simpl in Hl, Hc.
  apply andb_prop in Hl as [[Hl1 Hl2]%andb_prop Hl3]. apply Nat.leb_le in Hl1.
  apply andb_prop in Hc as [Hc1 Hc2]. apply orb_prop in Hc1.
  unfold field_sized in Hf. simpl.
  rewrite IH; [|done|done|rewrite length_splice; lia|done].
  apply slice_splice_ne; [lia|]. rewrite !Nat.leb_le in Hc1. lia.
Qed.

Lemma slice_puts_in size fs b off len v :
  layout_ok size fs = true -> Forall field_sized fs -> length b = size ->
  In (Field off len v) fs -> slice off len (puts fs b) = v.
Proof.
  revert b. induction fs as [|f fs IH]; intros b Hl Hs Hb Hin; [done|].
  inversion Hs as [|? ? Hf Hs']; subst. simpl in Hl.
  apply andb_prop in Hl as [[Hl1 Hl2]%andb_prop Hl3]. apply Nat.leb_le in Hl1.
  unfold field_sized in Hf. simpl.
  assert (length (splice (f_off f) (f_val f) b) = length b) as Hlen
    by (rewrite length_splice; lia).
  destruct Hin as [->|Hin]; [|by apply IH].
  simpl in *. rewrite (slice_puts_clear (length b)) by done.
  rewrite <- Hf. apply slice_splice_eq. lia.
Qed.

Lemma bytes_ok_puts fs b :
  Forall (fun f => bytes_ok (f_val f)) fs -> bytes_ok b -> bytes_ok (puts fs b).
Proof.
  revert b. induction fs as [|f fs IH]; intros b Hf Hb; [done|].
  inversion Hf; subst. simpl. apply IH; [done|]. by apply bytes_ok_splice.
Qed.

Definition field_holds b (f : field) : Prop := slice (f_off f) (f_len f) b = f_val f.
Definition gap_holds b (g : nat * nat) : Prop := slice (fst g) (snd g) b = zeros (snd g).
Definition same_range (r : nat * nat) (off len : nat) : bool :=
  (fst r =? off) && (snd r =? len).

(** [segs] tiles the record and each of its ranges is a field or a gap. *)
Definition cover_ok (size : nat) fs (gaps segs : list (nat * nat)) : bool :=
  tiles 0 segs size &&
  forallb (fun s => existsb (fun f => same_range s (f_off f) (f_len f)) fs ||
                    (existsb (fun g => same_range s (fst g) (snd g)) gaps &&
                     clear_of (fst s) (snd s) fs && (fst s + snd s <=? size))) segs.

Lemma same_range_eq r off len : same_range r off len = true -> r = (off, len).
Proof.
  destruct r as [o l]. unfold same_range. rewrite andb_true_iff, !Nat.eqb_eq.
  simpl. by intros [-> ->].
Qed.

(** A range of the record is a field, or a zero range no field meets. *)
Definition covered (size : nat) fs b (s : nat * nat) : Prop :=
  (exists v, In (Field (fst s) (snd s) v) fs) \/
  (clear_of (fst s) (snd s) fs = true /\ fst s + snd s <= size /\ gap_holds b s).

(** A buffer of the right size whose field ranges hold the table's values and
    whose remaining ranges are zero is the one the encoder produces. *)
Lemma puts_canonical_segs size fs segs b :
  layout_ok size fs = true -> Forall field_sized fs -> length b = size ->
  tiles 0 segs size = true -> Forall (covered size fs b) segs ->
  Forall (field_holds b) fs -> b = puts fs (zeros size).
Proof.
  intros Hl Hs Hb Ht Hcov Hf. rewrite Forall_forall in Hf.
  assert (length (zeros size) = size) as Hz by apply length_replicate.
  rewrite <- (drop_0 b), <- (drop_0 (puts _ _)).
  eapply tiles_ext; [exact Ht|done|by apply length_puts|].
  eapply Forall_impl; [exact Hcov|]. intros [off len]; simpl. intros [[v Hin]|(Hc & Hle & Hzero)].
  - pose proof (Hf _ (proj2 (list_elem_of_In _ _) Hin)) as Hv.
    unfold field_holds in Hv. simpl in Hv. rewrite Hv.
    symmetry. by apply (slice_puts_in size).
  - unfold gap_holds in Hzero. simpl in *. rewrite Hzero.
    rewrite (slice_puts_clear size) by done. by rewrite slice_zeros.
Qed.

Lemma puts_canonical size fs gaps segs b :
  layout_ok size fs = true -> Forall field_sized fs -> length b = size ->
  cover_ok size fs gaps segs = true ->
  Forall (field_holds b) fs -> Forall (gap_holds b) gaps ->
  b = puts fs (zeros size).
Proof.
  intros Hl Hs Hb Hcov Hf Hg. apply andb_prop in Hcov as [Ht Hcov].
  eapply puts_canonical_segs; [done..| |done].
  rewrite forallb_forall in Hcov. rewrite Forall_forall in Hg.
  apply Forall_forall. intros s Hin%list_elem_of_In.
  specialize (Hcov _ Hin). apply orb_prop in Hcov as [Hcov|Hcov].
  - left. apply existsb_exists in Hcov as (f & Hf' & ->%same_range_eq).
    exists (f_val f). by destruct f.
  - right. apply andb_prop in Hcov as [[Hcov Hc]%andb_prop Hle%Nat.leb_le].
    apply existsb_exists in Hcov as ([o l] & Hg' & ->%same_range_eq).
    split; [done|split; [done|]]. apply Hg. by apply list_elem_of_In.
Qed.
End layout.

(** Typed field reads on an encoded record. *)
Section field_reads.
Context (size : nat) (fs : list field) (b : bytes).
Context (Hl : layout_ok size fs = true) (Hs : Forall field_sized fs).
Context (Hb : length b = size).

Lemma slice_field off len v :
  In (Field off len v) fs -> slice off len (puts fs b) = v.
Proof. by apply (slice_puts_in size). Qed.

Lemma GetLe16_field off v :
  In (Field off 2 (le_bytes 2 v)) fs -> u16 v -> GetLe16 (puts fs b) off = v.
Proof.
  intros Hin Hv. unfold GetLe16. rewrite (slice_field _ _ _ Hin). by apply get_le2.
Qed.

Lemma GetLe32_field off v :
  In (Field off 4 (le_bytes 4 v)) fs -> u32 v -> GetLe32 (puts fs b) off = v.
Proof.
  intros Hin Hv. unfold GetLe32. rewrite (slice_field _ _ _ Hin). by apply get_le4.
Qed.

Lemma GetLe64_field off v :
  In (Field off 8 (le_bytes 8 v)) fs -> u64 v -> GetLe64 (puts fs b) off = v.
Proof.
  intros Hin Hv. unfold GetLe64. rewrite (slice_field _ _ _ Hin). by apply get_le8.
Qed.

Lemma slice_gap off len :
  b = zeros size -> clear_of off len fs = true -> (off + len <= size)%nat ->
  slice off len (puts fs b) = zeros len.
Proof.
  intros -> Hc Hle. rewrite (slice_puts_clear size) by done. by apply slice_zeros.
Qed.
End field_reads.

(** Searching a literal field table. *)
Ltac in_fields := simpl; repeat first [left; reflexivity | right].

(** ** Checksum fields

    Encoders compute the checksum while its field is still zero and then store
    it; decoders zero the field again before recomputing. *)
Lemma clear_stored_checksum off c b :
  (off + 4 <= length b)%nat -> slice off 4 b = zeros 4 ->
  PutLe32 off 0 (PutLe32 off c b) = b.
Proof.
  intros Hl Hz. unfold PutLe32.
  rewrite splice_splice by (rewrite !length_le_bytes; lia).
  rewrite le_bytes_0, <- Hz. apply splice_slice. lia.
Qed.

Lemma stored_checksum_read off c b :
  (off + 4 <= length b)%nat -> u32 c -> GetLe32 (PutLe32 off c b) off = c.
Proof.
  intros Hl Hc. unfold GetLe32, PutLe32.
  rewrite slice_splice_same by (apply length_le_bytes || lia). by apply get_le4.
Qed.

(** A buffer is determined by its content with the field cleared and the value
    stored in the field. *)
Lemma restore_stored_checksum off b :
  (off + 4 <= length b)%nat -> bytes_ok b ->
  PutLe32 off (GetLe32 b off) (PutLe32 off 0 b) = b.
Proof.
  intros Hl Hb. unfold PutLe32, GetLe32.
  rewrite splice_splice by (rewrite !length_le_bytes; lia).
  rewrite le_bytes_get_slice by (done || lia). apply splice_slice. lia.
Qed.

Lemma length_PutLe32 off v b :
  (off + 4 <= length b)%nat -> length (PutLe32 off v b) = length b.
Proof. intros. unfold PutLe32. apply length_splice. rewrite length_le_bytes. lia. Qed.

Lemma slice_PutLe32_ne off off' n v b :
  (off + 4 <= length b)%nat -> (off' + n <= off \/ off + 4 <= off')%nat ->
  slice off' n (PutLe32 off v b) = slice off' n b.
Proof.
  intros Hl Hd. unfold PutLe32. apply slice_splice_ne; rewrite length_le_bytes; lia.
Qed.

Lemma bytes_ok_PutLe32 off v b : bytes_ok b -> bytes_ok (PutLe32 off v b).
Proof. intros. apply bytes_ok_splice; [apply le_bytes_ok|done]. Qed.
#[export] Hint Resolve bytes_ok_PutLe32 : eufs.

Lemma PutLe32_puts off v fs b :
  PutLe32 off v (puts fs b) = puts (fs ++ [Field off 4 (le_bytes 4 v)]) b.
Proof. unfold puts. by rewrite foldl_app. Qed.

(** A sealed record: the base fields followed by the stored checksum. *)
Definition sealed (fs : list field) (off : nat) (c : Z) : list field :=
  fs ++ [Field off 4 (le_bytes 4 c)].

Section sealed.
Context (size : nat) (fs : list field) (off : nat).

Lemma layout_sealed_inv c :
  layout_ok size (sealed fs off c) = true ->
  layout_ok size fs = true /\ clear_of off 4 fs = true /\ (off + 4 <= size)%nat.
Proof.
  unfold sealed. induction fs as [|f l IH]; simpl.
  - rewrite !andb_true_iff, Nat.leb_le. tauto.
  - unfold clear_of. rewrite !andb_true_iff, !forallb_app. simpl.
    rewrite !andb_true_iff, !orb_true_iff, !Nat.leb_le.
    intros [[H1 [H2 [H3 _]]] H4]. apply IH in H4 as (H5 & H6 & H7).
    unfold clear_of in H6. repeat split; try done. lia.
Qed.

Context (Hl : forall c, layout_ok size (sealed fs off c) = true).
Context (Hs : Forall field_sized fs).

Lemma sealed_sized c : Forall field_sized (sealed fs off c).
Proof. apply Forall_app. split; [done|]. repeat constructor. Qed.

Lemma length_sealed_base : length (puts fs (zeros size)) = size.
Proof.
  destruct (layout_sealed_inv 0 (Hl 0)) as (? & _).
  apply length_puts; [done..|apply length_replicate].
Qed.

Lemma length_sealed c : length (puts (sealed fs off c) (zeros size)) = size.
Proof. apply length_puts; [apply Hl|apply sealed_sized|apply length_replicate]. Qed.

Lemma sealed_clear c :
  PutLe32 off 0 (puts (sealed fs off c) (zeros size)) = puts fs (zeros size).
Proof.
  destruct (layout_sealed_inv 0 (Hl 0)) as (Hl' & Hc & Ho).
  unfold sealed. rewrite <- PutLe32_puts. apply clear_stored_checksum.
  - rewrite length_sealed_base. lia.
  - apply (slice_gap size); [done|done|apply length_replicate|done..].
Qed.

Lemma clear_unsealed :
  PutLe32 off 0 (puts fs (zeros size)) = puts fs (zeros size).
Proof.
  destruct (layout_sealed_inv 0 (Hl 0)) as (Hl' & Hc & Ho). unfold PutLe32.
  rewrite le_bytes_0. rewrite <- (slice_gap size fs (zeros size) Hl' Hs) with (off := off);
    [|apply length_replicate|done..].
  apply splice_slice. rewrite length_sealed_base. lia.
Qed.

(** A buffer that is the sealed record for its own stored checksum is the
    encoder's output as soon as the checksum verifies. *)
Lemma sealed_verified (crc : bytes -> Z) b :
  b = puts (sealed fs off (GetLe32 b off)) (zeros size) ->
  crc (PutLe32 off 0 b) = GetLe32 b off ->
  puts (sealed fs off (crc (puts fs (zeros size)))) (zeros size) = b.
Proof.
  intros Hb Hc. pose proof (sealed_clear (GetLe32 b off)) as Hcl.
  rewrite <- Hb in Hcl. by rewrite <- Hcl, Hc, <- Hb.
Qed.

Lemma seal c : PutLe32 off c (puts fs (zeros size)) = puts (sealed fs off c) (zeros size).
Proof. apply PutLe32_puts. Qed.
End sealed.

(** Rewrites every field read of an encoded record, given the layout facts. *)
Ltac field_side := first [in_fields; fail | eassumption | split; vm_compute; congruence].
Ltac read_fields Hl Hs Hb :=
  repeat match goal with
  | |- context [GetLe32 (puts ?fs ?b) ?o] =>
      erewrite (GetLe32_field _ fs b Hl Hs Hb o) by field_side
  | |- context [GetLe64 (puts ?fs ?b) ?o] =>
      erewrite (GetLe64_field _ fs b Hl Hs Hb o) by field_side
  | |- context [GetLe16 (puts ?fs ?b) ?o] =>
      erewrite (GetLe16_field _ fs b Hl Hs Hb o) by field_side
  end.

(** Proves that a decoded buffer holds the fields of the record read from it. *)
Ltac holds_step Hok Hlen :=
  unfold field_holds; cbn [f_off f_len f_val];
  first
  [ eassumption
  | symmetry; apply le_bytes_get_slice; [exact Hok|rewrite Hlen; vm_compute; lia]
  | match goal with
    | H : GetLe32 ?b ?o = ?k |- slice ?o 4 ?b = le_bytes 4 ?k =>
        rewrite <- H; symmetry; apply le_bytes_get_slice;
        [exact Hok|rewrite Hlen; vm_compute; lia]
    | H : GetLe64 ?b ?o = ?k |- slice ?o 8 ?b = le_bytes 8 ?k =>
        rewrite <- H; symmetry; apply le_bytes_get_slice;
        [exact Hok|rewrite Hlen; vm_compute; lia]
    | H : GetLe16 ?b ?o = ?k |- slice ?o 2 ?b = le_bytes 2 ?k =>
        rewrite <- H; symmetry; apply le_bytes_get_slice;
        [exact Hok|rewrite Hlen; vm_compute; lia]
    | |- slice _ _ _ = ?rhs =>
        lazymatch rhs with le_bytes _ _ => fail | _ => reflexivity end
    end ].
Ltac solve_holds Hok Hlen :=
  repeat (apply Forall_cons_2; [holds_step Hok Hlen|]); apply Forall_nil_2.

Lemma all_zero_gap off n b :
  (off + n <= length b)%nat -> all_zero (slice off n b) = true -> gap_holds b (off, n).
Proof.
  intros Hl Hz%all_zero_spec. unfold gap_holds. simpl. rewrite length_slice in Hz by lia.
  exact Hz.
Qed.

(** Proves the ranges of a record decoded from a well-formed buffer. *)
Ltac solve_typed Hok :=
  conj_split;
  lazymatch goal with
  | |- u32 _ => apply GetLe32_u32; exact Hok
  | |- u64 _ => apply GetLe64_u64; exact Hok
  | |- u16 _ => apply GetLe16_u16; exact Hok
  | |- bytes_ok _ => apply bytes_ok_slice; exact Hok
  | |- _ => assumption
  end.

Lemma drop_slice off b : drop off b = slice off (length b - off) b.
Proof. unfold slice. rewrite take_ge; [done|]. rewrite length_drop. lia. Qed.
