(* ===== verification/Crc32c.v ===== *)
(** CRC32C (src/metadata/ondisk_format.cpp, [Crc32c]) and the error detection
    it provides: the register update is injective and linear, so a change confined
    to 32 consecutive bits always changes the checksum. *)
From S2P Require Import Prelude Codec.
Open Scope Z_scope.

(** One round of the inner loop:
    [mask = 0U - (crc & 1U); crc = (crc >> 1U) ^ (0x82F63B78U & mask)]. *)
Definition crc_bit (crc : Z) : Z :=
  let mask := wrap32 (0 - Z.land crc 1) in
  Z.lxor (Z.shiftr crc 1) (Z.land 0x82F63B78 mask).

(** One iteration of the outer loop: [crc ^= data[index]], then eight rounds. *)
Definition crc_byte (crc : Z) (b : Z) : Z := Nat.iter 8 crc_bit (Z.lxor crc b).

Definition Crc32c (data : bytes) : Z :=
  Z.lxor (foldl crc_byte 0xFFFFFFFF data) 0xFFFFFFFF.

(** The check value of the CRC-32C catalogue, for the ASCII string 123456789. *)
Example crc32c_check_value :
  Crc32c [49; 50; 51; 52; 53; 54; 55; 56; 57] = 0xE3069283.
Proof. vm_compute. reflexivity. Qed.

(** ** Range *)
Lemma u32_testbit_high x i : u32 x -> 32 <= i -> Z.testbit x i = false.
Proof.
  intros Hx Hi. rewrite <- (Z.mod_small x (2 ^ 32)) by exact Hx.
  apply Z.mod_pow2_bits_high. lia.
Qed.

Lemma u32_of_bits x : 0 <= x -> (forall i, 32 <= i -> Z.testbit x i = false) -> u32 x.
Proof.
  intros H0 Hb. change (0 <= x < 2 ^ 32).
  assert (x = x mod 2 ^ 32) as ->; [|apply Z.mod_pos_bound; lia].
  apply Z.bits_inj'. intros i Hi. destruct (Z.lt_ge_cases i 32).
  - by rewrite Z.mod_pow2_bits_low.
  - rewrite Z.mod_pow2_bits_high by lia. by apply Hb.
Qed.

Lemma u32_lxor x y : u32 x -> u32 y -> u32 (Z.lxor x y).
Proof.
  intros Hx Hy. apply u32_of_bits.
  - apply Z.lxor_nonneg. word.
  - intros i Hi. rewrite Z.lxor_spec, !u32_testbit_high by done. done.
Qed.

Lemma u32_shiftr x : u32 x -> u32 (Z.shiftr x 1).
Proof. intros Hx. rewrite Z.shiftr_div_pow2 by lia. change (2 ^ 1) with 2. unfold u32 in *.
  pose proof (Z.div_pos x 2). pose proof (Z.div_le_upper_bound x 2 x). lia. Qed.

Lemma land_1_mod x : Z.land x 1 = x mod 2.
Proof. apply (Z.land_ones x 1). lia. Qed.

Lemma land_1_cases x : Z.land x 1 = 0 \/ Z.land x 1 = 1.
Proof. rewrite land_1_mod. pose proof (Z.mod_pos_bound x 2). lia. Qed.

Lemma crc_mask_cases x :
  (Z.land x 1 = 0 /\ crc_bit x = Z.shiftr x 1) \/
  (Z.land x 1 = 1 /\ crc_bit x = Z.lxor (Z.shiftr x 1) 0x82F63B78).
Proof.
  unfold crc_bit. destruct (land_1_cases x) as [->| ->]; [left|right]; split; try done.
  cbn. apply Z.lxor_0_r.
Qed.

Lemma crc_bit_u32 x : u32 x -> u32 (crc_bit x).
Proof.
  intros Hx. destruct (crc_mask_cases x) as [[_ ->]|[_ ->]].
  - by apply u32_shiftr.
  - apply u32_lxor; [by apply u32_shiftr|word].
Qed.

Lemma crc_iter_u32 n x : u32 x -> u32 (Nat.iter n crc_bit x).
Proof. intros Hx. induction n; [done|]. by apply crc_bit_u32. Qed.

Lemma u8_u32 x : u8 x -> u32 x.
Proof. word. Qed.

Lemma crc_byte_u32 x b : u32 x -> u8 b -> u32 (crc_byte x b).
Proof. intros Hx Hb. apply crc_iter_u32, u32_lxor; [done|word]. Qed.

Lemma crc_fold_u32 l x : u32 x -> bytes_ok l -> u32 (foldl crc_byte x l).
Proof.
  revert x. induction l as [|b l IH]; intros x Hx Hl; [done|].
  inversion Hl; subst. apply IH; [by apply crc_byte_u32|done].
Qed.

Lemma Crc32c_u32 l : bytes_ok l -> u32 (Crc32c l).
Proof. intros. apply u32_lxor; [apply crc_fold_u32; [word|done]|word]. Qed.
#[export] Hint Resolve Crc32c_u32 : eufs.

(** ** Injectivity of the register update *)

(** The polynomial has its top bit set, so bit 31 of the new register reveals
    the bit that was shifted out. *)
Lemma crc_bit_top x : u32 x -> Z.testbit (crc_bit x) 31 = Z.odd x.
Proof.
  intros Hx. rewrite <- Z.bit0_odd.
  assert (Z.testbit (Z.shiftr x 1) 31 = false) as Hs.
  { rewrite Z.shiftr_spec by lia. by apply u32_testbit_high. }
  assert (Z.b2z (Z.testbit x 0) = Z.land x 1) as Hb.
  { by rewrite Z.bit0_mod, land_1_mod. }
  destruct (crc_mask_cases x) as [[Hl ->]|[Hl ->]]; rewrite Hl in Hb.
  - rewrite Hs. by destruct (Z.testbit x 0).
  - rewrite Z.lxor_spec, Hs. by destruct (Z.testbit x 0).
Qed.

Lemma crc_bit_inj x y : u32 x -> u32 y -> crc_bit x = crc_bit y -> x = y.
Proof.
  intros Hx Hy Heq.
  assert (Z.odd x = Z.odd y) as Hodd by (rewrite <- !crc_bit_top, Heq; done).
  assert (Z.land x 1 = Z.land y 1) as Hl.
  { by rewrite !land_1_mod, !Zmod_odd, Hodd. }
  assert (Z.shiftr x 1 = Z.shiftr y 1) as Hs.
  { unfold crc_bit in Heq. rewrite Hl in Heq.
    apply (f_equal (fun z => Z.lxor z
      (Z.land 2197175160 (wrap32 (0 - Z.land y 1))))) in Heq.
    by rewrite !Z.lxor_assoc, !Z.lxor_nilpotent, !Z.lxor_0_r in Heq. }
  rewrite !Z.shiftr_div_pow2 in Hs by lia. change (2 ^ 1) with 2 in Hs.
  rewrite (Z.div_mod x 2), (Z.div_mod y 2), Hs, !Zmod_odd, Hodd by lia. done.
Qed.

Lemma crc_iter_inj n x y :
  u32 x -> u32 y -> Nat.iter n crc_bit x = Nat.iter n crc_bit y -> x = y.
Proof.
  intros Hx Hy. induction n as [|n IH]; [done|]. simpl. intros H. apply IH.
  apply crc_bit_inj in H; [done|by apply crc_iter_u32..].
Qed.

Lemma lxor_cancel_l a b c : Z.lxor a b = Z.lxor a c -> b = c.
Proof.
  intros H. apply (f_equal (Z.lxor a)) in H.
  by rewrite <- !Z.lxor_assoc, !Z.lxor_nilpotent, !Z.lxor_0_l in H.
Qed.

(** ** Linearity: several bytes enter the register at once *)
Lemma crc_bit_lxor x y : crc_bit (Z.lxor x y) = Z.lxor (crc_bit x) (crc_bit y).
Proof.
  assert (Z.land (Z.lxor x y) 1 = Z.lxor (Z.land x 1) (Z.land y 1)) as Hl.
  { apply Z.bits_inj'. intros i Hi. rewrite !Z.lxor_spec, !Z.land_spec, Z.lxor_spec.
    by destruct (Z.testbit x i), (Z.testbit y i), (Z.testbit 1 i). }
  destruct (crc_mask_cases x) as [[Hx ->]|[Hx ->]],
    (crc_mask_cases y) as [[Hy ->]|[Hy ->]], (crc_mask_cases (Z.lxor x y))
      as [[Hxy ->]|[Hxy ->]]; rewrite Hx, Hy, Hxy in Hl; try discriminate Hl;
    rewrite Z.shiftr_lxor; apply Z.bits_inj'; intros i Hi; rewrite !Z.lxor_spec;
    destruct (Z.testbit (Z.shiftr x 1) i), (Z.testbit (Z.shiftr y 1) i),
      (Z.testbit 2197175160 i); done.
Qed.

Lemma crc_iter_lxor n x y :
  Nat.iter n crc_bit (Z.lxor x y) = Z.lxor (Nat.iter n crc_bit x) (Nat.iter n crc_bit y).
Proof. induction n as [|n IH]; [done|]. simpl. by rewrite IH, crc_bit_lxor. Qed.

(** Eight rounds on a value with no low byte are a plain shift. *)
Lemma crc_bit_even x : crc_bit (Z.shiftl x 1) = x.
Proof.
  destruct (crc_mask_cases (Z.shiftl x 1)) as [[_ ->]|[H _]].
  - rewrite Z.shiftr_shiftl_l by lia. apply Z.shiftl_0_r.
  - rewrite land_1_mod, Z.shiftl_mul_pow2 in H by lia. change (2 ^ 1) with 2 in H.
    rewrite Z.mod_mul in H by lia. done.
Qed.

Lemma crc_iter_shiftl n x : Nat.iter n crc_bit (Z.shiftl x (Z.of_nat n)) = x.
Proof.
  induction n as [|n IH]; [apply Z.shiftl_0_r|].
  rewrite Nat.iter_succ_r.
  replace (Z.of_nat (S n)) with (Z.of_nat n + 1) by lia.
  rewrite <- Z.shiftl_shiftl by lia. by rewrite crc_bit_even.
Qed.

(** Feeding [n] bytes is feeding their little-endian value at once. *)
Lemma crc_fold_value l x :
  bytes_ok l ->
  foldl crc_byte x l = Nat.iter (8 * length l) crc_bit (Z.lxor x (get_le (length l) l)).
Proof.
  revert x. induction l as [|b l IH]; intros x Hl.
  - cbn. by rewrite Z.lxor_0_r.
  - inversion Hl as [|? ? Hb Hl']; subst. cbn [foldl length].
    rewrite IH by done. rewrite get_le_shift. cbn [nth drop]. rewrite drop_0.
    replace (8 * S (length l))%nat with (8 * length l + 8)%nat by lia.
    rewrite Nat.iter_add. f_equal. unfold crc_byte.
    rewrite lor_shiftl_add by done. rewrite <- lor_shiftl_add by done.
    assert (Z.lor b (Z.shiftl (get_le (length l) l) 8) =
            Z.lxor b (Z.shiftl (get_le (length l) l) 8)) as ->.
    { symmetry. apply Z.lxor_lor. apply Z.bits_inj'. intros i Hi.
      rewrite Z.land_spec, Z.bits_0. destruct (Z.lt_ge_cases i 8).
      - rewrite (Z.shiftl_spec_low (get_le _ _)) by lia. apply andb_false_r.
      - by rewrite u8_testbit_high. }
    rewrite <- Z.lxor_assoc, (crc_iter_lxor 8 (Z.lxor x b)).
    pose proof (crc_iter_shiftl 8 (get_le (length l) l)) as Hsh.
    change (Z.of_nat 8) with 8 in Hsh. by rewrite Hsh.
Qed.

(** ** Bursts *)
(** Bit [i] of a byte string, from the lowest bit of its first byte on, which is
    the order in which the register takes them in. *)
Definition bit_at (b : bytes) (i : Z) : bool := Z.testbit (nth (Z.to_nat (i / 8)) b 0) (i mod 8).

(** The strings differ at most in the 32 bits from bit [k] on. *)
Definition differ_within (k : Z) (b b' : bytes) : Prop :=
  length b' = length b /\ forall i, 0 <= i -> i < k \/ k + 32 <= i -> bit_at b' i = bit_at b i.

Lemma bit_at_value b : bytes_ok b -> forall i, 0 <= i -> Z.testbit (get_le (length b) b) i = bit_at b i.
Proof.
  unfold bit_at. induction 1 as [|x b Hx Hb IH]; intros i Hi.
  - cbn [length]. rewrite Z.testbit_0_l. destruct (Z.to_nat (i / 8)); by rewrite Z.testbit_0_l.
  - cbn [length]. rewrite get_le_shift, Z.lor_spec. cbn [nth drop]. rewrite drop_0. destruct (Z.lt_ge_cases i 8).
    + rewrite Z.shiftl_spec_low, orb_false_r, Z.div_small, Z.mod_small by lia. done.
    + rewrite u8_testbit_high, Z.shiftl_spec, IH by (done || lia). cbn [orb].
      replace i with (i - 8 + 1 * 8) at 3 4 by lia. rewrite Z.div_add, Z.mod_add, Z2Nat.inj_add by (lia || apply Z.div_pos; lia).
      by rewrite Nat.add_comm.
Qed.

Lemma value_inj b b' : bytes_ok b -> bytes_ok b' -> length b' = length b -> get_le (length b) b = get_le (length b') b' -> b = b'.
Proof. intros H H' Hl E. rewrite <- (le_bytes_get b), <- (le_bytes_get b') by done. by rewrite E, Hl. Qed.

Lemma crc_iter_zero n : Nat.iter n crc_bit 0 = 0.
Proof. induction n as [|n IH]; [done|]. change (Nat.iter (S n) crc_bit 0) with (crc_bit (Nat.iter n crc_bit 0)). by rewrite IH. Qed.

(** What a burst does to the value of a string. *)
Lemma burst_value k b b' : 0 <= k -> bytes_ok b -> bytes_ok b' -> differ_within k b b' ->
  exists delta, u32 delta /\ Z.lxor (get_le (length b) b) (get_le (length b') b') = Z.shiftl delta k.
Proof.
  intros Hk Hb Hb' [Hl Hd]. set (x := Z.lxor _ _).
  assert (forall i, 0 <= i -> i < k \/ k + 32 <= i -> Z.testbit x i = false) as Hx.
  { intros i Hi Hor. unfold x. rewrite Z.lxor_spec, !bit_at_value, Hd by done. apply xorb_nilpotent. }
  exists (Z.shiftr x k). split.
  - apply u32_of_bits.
    + apply Z.shiftr_nonneg, Z.lxor_nonneg. pose proof (get_le_bound (length b) b Hb). pose proof (get_le_bound (length b') b' Hb'). lia.
    + intros i Hi. rewrite Z.shiftr_spec by lia. apply Hx; lia.
  - apply Z.bits_inj'. intros i Hi. destruct (Z.lt_ge_cases i k).
    + rewrite Z.shiftl_spec_low by lia. apply Hx; lia.
    + rewrite Z.shiftl_spec, Z.shiftr_spec by lia. f_equal. lia.
Qed.

(** The position of a bit that is set lies in the string. *)
Lemma burst_inside k delta b b' : 0 <= k -> 0 <= delta -> bytes_ok b -> bytes_ok b' -> length b' = length b -> delta <> 0 ->
  Z.lxor (get_le (length b) b) (get_le (length b') b') = Z.shiftl delta k -> k <= 8 * Z.of_nat (length b).
Proof.
  intros Hk H0 Hb Hb' Hl Hd E. apply Z.nlt_ge. intros Hlt. apply Hd, Z.bits_inj'. intros i Hi.
  assert (forall l j, bytes_ok l -> 8 * Z.of_nat (length l) <= j -> Z.testbit (get_le (length l) l) j = false) as Hhigh.
  { intros l j Hlok Hj. rewrite <- (Z.mod_small _ _ (get_le_bound (length l) l Hlok)). by apply Z.mod_pow2_bits_high; lia. }
  rewrite Z.bits_0. replace i with (i + k - k) by lia. rewrite <- Z.shiftl_spec, <- E, Z.lxor_spec by lia.
  rewrite !Hhigh by (done || lia). done.
Qed.

(** A burst of at most 32 bits always changes the checksum. *)
Lemma Crc32c_burst k b b' : 0 <= k -> bytes_ok b -> bytes_ok b' -> differ_within k b b' -> Crc32c b = Crc32c b' -> b = b'.
Proof.
  intros Hk Hb Hb' Hd Heq. pose proof Hd as [Hl _]. destruct (burst_value k b b' Hk Hb Hb' Hd) as (delta & Hu & E).
  unfold Crc32c in Heq. rewrite !(Z.lxor_comm _ 4294967295) in Heq. apply lxor_cancel_l in Heq. rewrite !crc_fold_value, Hl in Heq by done.
  rewrite !crc_iter_lxor in Heq. apply lxor_cancel_l in Heq.
  assert (Nat.iter (8 * length b) crc_bit (Z.shiftl delta k) = 0) as Hz by (rewrite <- E, crc_iter_lxor, Hl, Heq; apply Z.lxor_nilpotent).
  destruct (Z.eq_dec delta 0) as [->|Hne].
  - rewrite Z.shiftl_0_l in E. apply Z.lxor_eq in E. by apply value_inj.
  - exfalso. pose proof (burst_inside k delta b b' Hk ltac:(word) Hb Hb' Hl Hne E) as Hin.
    replace (8 * length b)%nat with ((8 * length b - Z.to_nat k) + Z.to_nat k)%nat in Hz by lia.
    rewrite Nat.iter_add in Hz. replace k with (Z.of_nat (Z.to_nat k)) in Hz at 3 by lia. rewrite crc_iter_shiftl in Hz.
    apply Hne, (crc_iter_inj (8 * length b - Z.to_nat k)); [done|word|]. by rewrite crc_iter_zero.
Qed.
