(* ===== verification/OndiskFormat.v ===== *)
(** The persistent format of an image
    (src/metadata/ondisk_format.h, src/metadata/ondisk_format.cpp):
    superblock, inode record and directory entry, with their encoders and
    decoders. Null output pointers are not modelled: every routine returns its
    output. A [bool]-returning routine returns [Ok v] for [true] and
    [Err message] for [false]. *)
From S2P Require Import Prelude Codec Crc32c.
Open Scope Z_scope.

(** * Constants of the v1 ABI *)
Definition kFormatVersion : Z := 1.
Definition kFeatureIncompatRequestLedger : Z := 1.
Definition kSupportedFeatureIncompat : Z := kFeatureIncompatRequestLedger.
Definition kBlockSize : Z := 4096.
Definition kJournalControlBlockCount : Z := 2.
Definition kMinimumJournalRingBlocks : Z := 3.
Definition kMinimumJournalBlocks : Z :=
  kJournalControlBlockCount + kMinimumJournalRingBlocks.
Definition kSuperblockHeaderSize : Z := 256.
Definition kInodeRecordSize : Z := 128.
Definition kDirectBlockCount : Z := 12.
Definition kDirectoryEntryHeaderSize : Z := 8.
Definition kMaxNameLength : Z := 255.
Definition kMaxFileSize : Z := (kDirectBlockCount + kBlockSize / 4) * kBlockSize.

(** [Block] is [std::array<std::uint8_t, kBlockSize>]. *)
Definition BlockLen : nat := Z.to_nat kBlockSize.
Abbreviation zero_block := (zeros BlockLen).
Definition block_wf (b : bytes) : Prop := length b = BlockLen /\ bytes_ok b.

Definition InodeLen : nat := 128.

(** * Data *)
Record Region := mkRegion { start_block : Z; block_count : Z }.

Record Superblock := mkSuperblock {
  total_blocks : Z;
  total_inodes : Z;
  root_inode : Z;
  inode_bitmap : Region;
  block_bitmap : Region;
  inode_table : Region;
  journal : Region;
  data : Region;
  sb_feature_compat : Z;
  sb_feature_ro_compat : Z;
  sb_feature_incompat : Z;
  sb_filesystem_uuid : bytes;
  created_time_ns : Z
}.

Record InodeRecord := mkInode {
  inode_number : Z;
  mode : Z;
  uid : Z;
  gid : Z;
  link_count : Z;
  i_size : Z;
  atime_ns : Z;
  mtime_ns : Z;
  ctime_ns : Z;
  flags : Z;
  generation : Z;
  direct_blocks : list Z;
  indirect_block : Z
}.

(** An 8-bit enumeration; [kOtherType] is a byte outside the enumerators, which
    a [static_cast] of an on-disk byte can produce. *)
Inductive DirectoryFileType :=
| kUnknown | kRegular | kDirectory | kOtherType (code : Z).

Record DirectoryEntry := mkDirectoryEntry {
  de_inode : Z;
  file_type : DirectoryFileType;
  name : bytes;
  record_length : Z
}.

#[global] Instance Region_eq_dec : EqDecision Region.
Proof. solve_decision. Defined.
#[global] Instance Superblock_eq_dec : EqDecision Superblock.
Proof. solve_decision. Defined.
#[global] Instance InodeRecord_eq_dec : EqDecision InodeRecord.
Proof. solve_decision. Defined.
#[global] Instance DirectoryFileType_eq_dec : EqDecision DirectoryFileType.
Proof. solve_decision. Defined.
#[global] Instance DirectoryEntry_eq_dec : EqDecision DirectoryEntry.
Proof. solve_decision. Defined.

(** The value ranges the C++ field types impose. *)
Definition region_typed (r : Region) : Prop := u32 (start_block r) /\ u32 (block_count r).
Definition superblock_typed (s : Superblock) : Prop :=
  u32 (total_blocks s) /\ u32 (total_inodes s) /\ u32 (root_inode s) /\
  region_typed (inode_bitmap s) /\ region_typed (block_bitmap s) /\
  region_typed (inode_table s) /\ region_typed (journal s) /\ region_typed (data s) /\
  u64 (sb_feature_compat s) /\ u64 (sb_feature_ro_compat s) /\
  u64 (sb_feature_incompat s) /\
  (length (sb_filesystem_uuid s) = 16%nat /\ bytes_ok (sb_filesystem_uuid s)) /\
  u64 (created_time_ns s).
Definition inode_typed (i : InodeRecord) : Prop :=
  u32 (inode_number i) /\ u32 (mode i) /\ u32 (uid i) /\ u32 (gid i) /\
  u32 (link_count i) /\ u64 (i_size i) /\ u64 (atime_ns i) /\ u64 (mtime_ns i) /\
  u64 (ctime_ns i) /\ u32 (flags i) /\ u64 (generation i) /\
  (length (direct_blocks i) = 12%nat /\ Forall u32 (direct_blocks i)) /\
  u32 (indirect_block i).

(** * Helpers *)
Definition kMagic : bytes := [69; 85; 70; 83; 73; 77; 71; 49]. (* EUFSIMG1 *)
Definition kSuperblockChecksumOffset : nat := 128.
Definition kInodeChecksumOffset : nat := 124.

Definition CeilDivide (numerator denominator : Z) : Z :=
  wrap32 (wrap64 (wrap64 (numerator + denominator) - 1) / denominator).

Definition RegionEndsAt (region : Region) (expected_end : Z) : bool :=
  start_block region + block_count region =? expected_end.

(** [BytesAreZero(input + off, n)]. *)
Definition BytesAreZero (b : bytes) (off n : nat) : bool := all_zero (slice off n b).

Definition u32_max : Z := 4294967295.

Definition ValidateSuperblock (value : Superblock) : result string unit :=
  if total_blocks value <? 8 then Err "total_blocks is too small"%string
  else if (total_inodes value =? 0) || (root_inode value =? 0) ||
          (total_inodes value <? root_inode value)
  then Err "root inode is outside the inode range"%string
  else
  let required_inode_bitmap := CeilDivide (total_inodes value) (kBlockSize * 8) in
  let required_block_bitmap := CeilDivide (total_blocks value) (kBlockSize * 8) in
  let required_inode_table :=
    CeilDivide (wrap64 (total_inodes value * kInodeRecordSize)) kBlockSize in
  if negb (start_block (inode_bitmap value) =? 1) ||
     negb (block_count (inode_bitmap value) =? required_inode_bitmap)
  then Err "inode bitmap does not match the v1 layout formula"%string
  else if negb (start_block (block_bitmap value) =?
                wrap32 (start_block (inode_bitmap value) +
                        block_count (inode_bitmap value))) ||
          negb (block_count (block_bitmap value) =? required_block_bitmap)
  then Err "block bitmap does not match the v1 layout formula"%string
  else if negb (start_block (inode_table value) =?
                wrap32 (start_block (block_bitmap value) +
                        block_count (block_bitmap value))) ||
          negb (block_count (inode_table value) =? required_inode_table)
  then Err "inode table does not match the v1 layout formula"%string
  else
  let journal_start := start_block (inode_table value) + block_count (inode_table value) in
  if (u32_max <? journal_start) ||
     negb (start_block (journal value) =? journal_start) ||
     (block_count (journal value) <? kMinimumJournalBlocks)
  then Err "journal must follow the inode table and reserve two controls plus at least three ring blocks"%string
  else
  let data_start := start_block (journal value) + block_count (journal value) in
  if (u32_max <? data_start) ||
     negb (start_block (data value) =? data_start) ||
     (block_count (data value) =? 0) ||
     (total_blocks value <=? start_block (data value)) ||
     negb (RegionEndsAt (data value) (total_blocks value))
  then Err "data region does not consume the remaining image blocks"%string
  else Ok tt.

Definition S_IFMT : Z := 0xF000.
Definition S_IFREG : Z := 0x8000.
Definition S_IFDIR : Z := 0x4000.
Definition S_ISREG (m : Z) : bool := Z.land m S_IFMT =? S_IFREG.
Definition S_ISDIR (m : Z) : bool := Z.land m S_IFMT =? S_IFDIR.

Definition IsKnownMode (m : Z) : bool :=
  let type := Z.land m S_IFMT in (type =? S_IFREG) || (type =? S_IFDIR).

Definition IsKnownDirectoryFileType (t : DirectoryFileType) : bool :=
  match t with kRegular | kDirectory => true | _ => false end.

(** Names are byte strings; 46 is the dot, 47 the slash. *)
Definition IsValidName (n : bytes) : bool :=
  negb (bool_decide (n = [])) && negb (bool_decide (n = [46])) &&
  negb (bool_decide (n = [46; 46])) &&
  (Z.of_nat (length n) <=? kMaxNameLength) &&
  negb (existsb (fun c => c =? 47) n) && negb (existsb (fun c => c =? 0) n).

Definition file_type_of_byte (z : Z) : DirectoryFileType :=
  if z =? 0 then kUnknown else if z =? 1 then kRegular
  else if z =? 2 then kDirectory else kOtherType z.
Definition byte_of_file_type (t : DirectoryFileType) : Z :=
  match t with kUnknown => 0 | kRegular => 1 | kDirectory => 2 | kOtherType z => z end.

(** * Layout of a new image *)
Definition BuildSuperblockLayout (total_blocks total_inodes journal_blocks : Z)
    : result string Superblock :=
  if (total_inodes =? 0) || (journal_blocks <? kMinimumJournalBlocks)
  then Err "inode count or journal size is invalid"%string
  else
  let inode_bitmap := mkRegion 1 (CeilDivide total_inodes (kBlockSize * 8)) in
  let block_bitmap := mkRegion
    (wrap32 (start_block inode_bitmap + block_count inode_bitmap))
    (CeilDivide total_blocks (kBlockSize * 8)) in
  let inode_table := mkRegion
    (wrap32 (start_block block_bitmap + block_count block_bitmap))
    (CeilDivide (wrap64 (total_inodes * kInodeRecordSize)) kBlockSize) in
  let journal_start := start_block inode_table + block_count inode_table in
  let data_start := journal_start + journal_blocks in
  if (u32_max <? journal_start) || (total_blocks <=? data_start)
  then Err "image is too small for the requested metadata layout"%string
  else
  let value := mkSuperblock total_blocks total_inodes 1 inode_bitmap block_bitmap
    inode_table (mkRegion (wrap32 journal_start) journal_blocks)
    (mkRegion (wrap32 data_start) (wrap32 (total_blocks - wrap32 data_start)))
    0 0 0 (zeros 16) 0 in
  match ValidateSuperblock value with
  | Err e => Err e
  | Ok _ => Ok value
  end.

(** * Superblock codec *)
Definition EncodeSuperblock (value : Superblock) : result string bytes :=
  match ValidateSuperblock value with
  | Err e => Err e
  | Ok _ =>
    let output := zero_block in
    let output := splice 0 kMagic output in
    let output := PutLe32 8 kFormatVersion output in
    let output := PutLe32 12 kSuperblockHeaderSize output in
    let output := PutLe32 16 kBlockSize output in
    let output := PutLe32 20 kInodeRecordSize output in
    let output := PutLe32 24 (total_blocks value) output in
    let output := PutLe32 28 (total_inodes value) output in
    let output := PutLe32 32 (root_inode value) output in
    let output := PutLe32 40 (start_block (inode_bitmap value)) output in
    let output := PutLe32 44 (block_count (inode_bitmap value)) output in
    let output := PutLe32 48 (start_block (block_bitmap value)) output in
    let output := PutLe32 52 (block_count (block_bitmap value)) output in
    let output := PutLe32 56 (start_block (inode_table value)) output in
    let output := PutLe32 60 (block_count (inode_table value)) output in
    let output := PutLe32 64 (start_block (journal value)) output in
    let output := PutLe32 68 (block_count (journal value)) output in
    let output := PutLe32 72 (start_block (data value)) output in
    let output := PutLe32 76 (block_count (data value)) output in
    let output := PutLe64 80 (sb_feature_compat value) output in
    let output := PutLe64 88 (sb_feature_ro_compat value) output in
    let output := PutLe64 96 (sb_feature_incompat value) output in
    let output := splice 104 (sb_filesystem_uuid value) output in
    let output := PutLe64 120 (created_time_ns value) output in
    let output := PutLe32 132 kDirectBlockCount output in
    let output := PutLe32 136 1 output in
    let output := PutLe32 140 kMaxNameLength output in
    Ok (PutLe32 kSuperblockChecksumOffset (Crc32c (slice 0 256 output)) output)
  end.

Definition DecodeSuperblock (input : bytes) : result string Superblock :=
  if negb (bool_decide (slice 0 8 input = kMagic))
  then Err "superblock magic mismatch"%string
  else if negb (GetLe32 input 8 =? kFormatVersion) ||
          negb (GetLe32 input 12 =? kSuperblockHeaderSize) ||
          negb (GetLe32 input 16 =? kBlockSize) ||
          negb (GetLe32 input 20 =? kInodeRecordSize) ||
          negb (GetLe32 input 132 =? kDirectBlockCount) ||
          negb (GetLe32 input 136 =? 1) ||
          negb (GetLe32 input 140 =? kMaxNameLength)
  then Err "unsupported superblock format parameters"%string
  else if negb (BytesAreZero input 36 4) ||
          negb (BytesAreZero input 144 112) ||
          negb (BytesAreZero input 256 (BlockLen - 256))
  then Err "superblock reserved bytes are not zero"%string
  else
  let stored_checksum := GetLe32 input kSuperblockChecksumOffset in
  let checksum_input := PutLe32 kSuperblockChecksumOffset 0 input in
  if negb (Crc32c (slice 0 256 checksum_input) =? stored_checksum)
  then Err "superblock checksum mismatch"%string
  else
  let output := mkSuperblock
    (GetLe32 input 24) (GetLe32 input 28) (GetLe32 input 32)
    (mkRegion (GetLe32 input 40) (GetLe32 input 44))
    (mkRegion (GetLe32 input 48) (GetLe32 input 52))
    (mkRegion (GetLe32 input 56) (GetLe32 input 60))
    (mkRegion (GetLe32 input 64) (GetLe32 input 68))
    (mkRegion (GetLe32 input 72) (GetLe32 input 76))
    (GetLe64 input 80) (GetLe64 input 88) (GetLe64 input 96)
    (slice 104 16 input) (GetLe64 input 120) in
  match ValidateSuperblock output with
  | Err e => Err e
  | Ok _ => Ok output
  end.

(** * Inode codec *)
(** The loop that stores the twelve direct pointers at [64 + 4 * index]. *)
Fixpoint put_words (off : nat) (ws : list Z) (output : bytes) : bytes :=
  match ws with
  | [] => output
  | w :: rest => put_words (off + 4) rest (PutLe32 off w output)
  end.

Definition get_words (b : bytes) (off count : nat) : list Z :=
  map (fun index => GetLe32 b (off + index * 4)) (seq 0 count).

Definition EncodeInode (value : InodeRecord) : result string bytes :=
  if (inode_number value =? 0) || negb (IsKnownMode (mode value))
  then Err "inode mode has an unsupported file type"%string
  else if kMaxFileSize <? i_size value
  then Err "inode size exceeds the v1 direct/indirect limit"%string
  else
  let output := zeros InodeLen in
  let output := PutLe32 0 (mode value) output in
  let output := PutLe32 4 (uid value) output in
  let output := PutLe32 8 (gid value) output in
  let output := PutLe32 12 (link_count value) output in
  let output := PutLe64 16 (i_size value) output in
  let output := PutLe64 24 (atime_ns value) output in
  let output := PutLe64 32 (mtime_ns value) output in
  let output := PutLe64 40 (ctime_ns value) output in
  let output := PutLe32 48 (flags value) output in
  let output := PutLe32 52 (inode_number value) output in
  let output := PutLe64 56 (generation value) output in
  let output := put_words 64 (direct_blocks value) output in
  let output := PutLe32 112 (indirect_block value) output in
  Ok (PutLe32 kInodeChecksumOffset (Crc32c output) output).

Definition DecodeInode (input : bytes) (expected_inode_number : Z)
    : result string InodeRecord :=
  let stored_checksum := GetLe32 input kInodeChecksumOffset in
  let checksum_input := PutLe32 kInodeChecksumOffset 0 input in
  if negb (Crc32c checksum_input =? stored_checksum)
  then Err "inode checksum mismatch"%string
  else if negb (BytesAreZero input 116 8)
  then Err "inode reserved bytes are not zero"%string
  else
  let output := mkInode
    (GetLe32 input 52) (GetLe32 input 0) (GetLe32 input 4) (GetLe32 input 8)
    (GetLe32 input 12) (GetLe64 input 16) (GetLe64 input 24) (GetLe64 input 32)
    (GetLe64 input 40) (GetLe32 input 48) (GetLe64 input 56)
    (get_words input 64 12) (GetLe32 input 112) in
  if (expected_inode_number =? 0) ||
     negb (inode_number output =? expected_inode_number)
  then Err "inode number does not match its table slot"%string
  else if negb (IsKnownMode (mode output))
  then Err "inode mode has an unsupported file type"%string
  else if kMaxFileSize <? i_size output
  then Err "inode size exceeds the v1 direct/indirect limit"%string
  else Ok output.

(** * Directory entry codec *)
Definition MinimumDirectoryRecordLength (name_length : Z) : Z :=
  let unaligned := kDirectoryEntryHeaderSize + name_length in
  Z.land (unaligned + 3) (Z.lnot 3).

(** [output] is the buffer of [output_size] bytes at which the record starts;
    the result is the whole buffer. *)
Definition EncodeDirectoryEntry (value : DirectoryEntry) (rec_len : Z) (output : bytes)
    : result string bytes :=
  if (de_inode value =? 0) || negb (IsKnownDirectoryFileType (file_type value)) ||
     negb (IsValidName (name value))
  then Err "directory entry fields are invalid"%string
  else
  let minimum := MinimumDirectoryRecordLength (Z.of_nat (length (name value))) in
  if (rec_len <? minimum) || (Z.of_nat (length output) <? rec_len) ||
     (kBlockSize <? rec_len) || negb (rec_len mod 4 =? 0)
  then Err "directory record length is invalid"%string
  else
  let output := splice 0 (zeros (Z.to_nat rec_len)) output in
  let output := PutLe32 0 (de_inode value) output in
  let output := PutLe16 4 rec_len output in
  let output := splice 6 [Z.of_nat (length (name value)) mod 256] output in
  let output := splice 7 [byte_of_file_type (file_type value)] output in
  Ok (splice 8 (name value) output).

Definition DecodeDirectoryEntry (input : bytes) : result string DirectoryEntry :=
  if Z.of_nat (length input) <? kDirectoryEntryHeaderSize
  then Err "directory entry input is too small"%string
  else
  let rec_len := GetLe16 input 4 in
  let name_length := nth 6 input 0 in
  let ftype := file_type_of_byte (nth 7 input 0) in
  if (rec_len <? kDirectoryEntryHeaderSize) ||
     (Z.of_nat (length input) <? rec_len) || (kBlockSize <? rec_len) ||
     negb (rec_len mod 4 =? 0) ||
     (rec_len - kDirectoryEntryHeaderSize <? name_length)
  then Err "directory record boundaries are invalid"%string
  else
  let inode := GetLe32 input 0 in
  if inode =? 0 then
    if negb (name_length =? 0) || negb (bool_decide (ftype = kUnknown))
    then Err "free directory record contains active fields"%string
    else if negb (BytesAreZero input 8 (Z.to_nat (rec_len - kDirectoryEntryHeaderSize)))
    then Err "free directory record contains non-zero payload"%string
    else Ok (mkDirectoryEntry 0 kUnknown [] rec_len)
  else
  let nm := slice 8 (Z.to_nat name_length) input in
  if negb (IsKnownDirectoryFileType ftype) || negb (IsValidName nm)
  then Err "active directory record contains invalid fields"%string
  else
  let name_end := kDirectoryEntryHeaderSize + name_length in
  if negb (BytesAreZero input (Z.to_nat name_end) (Z.to_nat (rec_len - name_end)))
  then Err "directory record padding is not zero"%string
  else Ok (mkDirectoryEntry inode ftype nm rec_len).
