(* ===== verification/OndiskFormatProofs.v ===== *)
(** Correctness of the superblock, inode and directory entry codecs. *)
From S2P Require Import Prelude Codec Crc32c OndiskFormat.
Open Scope Z_scope.

Lemma BlockLen_Z : Z.of_nat BlockLen = 4096.
Proof. reflexivity. Qed.

Lemma zero_block_wf : block_wf zero_block.
Proof. split; [apply length_replicate|apply bytes_ok_zeros]. Qed.

Module SuperblockCodec.

Definition fields (v : Superblock) : list field :=
  [ Field 0 8 kMagic;
    Field 8 4 (le_bytes 4 kFormatVersion);
    Field 12 4 (le_bytes 4 kSuperblockHeaderSize);
    Field 16 4 (le_bytes 4 kBlockSize);
    Field 20 4 (le_bytes 4 kInodeRecordSize);
    Field 24 4 (le_bytes 4 (total_blocks v));
    Field 28 4 (le_bytes 4 (total_inodes v));
    Field 32 4 (le_bytes 4 (root_inode v));
    Field 40 4 (le_bytes 4 (start_block (inode_bitmap v)));
    Field 44 4 (le_bytes 4 (block_count (inode_bitmap v)));
    Field 48 4 (le_bytes 4 (start_block (block_bitmap v)));
    Field 52 4 (le_bytes 4 (block_count (block_bitmap v)));
    Field 56 4 (le_bytes 4 (start_block (inode_table v)));
    Field 60 4 (le_bytes 4 (block_count (inode_table v)));
    Field 64 4 (le_bytes 4 (start_block (journal v)));
    Field 68 4 (le_bytes 4 (block_count (journal v)));
    Field 72 4 (le_bytes 4 (start_block (data v)));
    Field 76 4 (le_bytes 4 (block_count (data v)));
    Field 80 8 (le_bytes 8 (sb_feature_compat v));
    Field 88 8 (le_bytes 8 (sb_feature_ro_compat v));
    Field 96 8 (le_bytes 8 (sb_feature_incompat v));
    Field 104 16 (sb_filesystem_uuid v);
    Field 120 8 (le_bytes 8 (created_time_ns v));
    Field 132 4 (le_bytes 4 kDirectBlockCount);
    Field 136 4 (le_bytes 4 1);
    Field 140 4 (le_bytes 4 kMaxNameLength) ].

Lemma superblock_encode_puts v :
  EncodeSuperblock v =
  match ValidateSuperblock v with
  | Err e => Err e
  | Ok _ => Ok (PutLe32 128 (Crc32c (slice 0 256 (puts (fields v) zero_block)))
                  (puts (fields v) zero_block))
  end.
Proof.
  unfold EncodeSuperblock, fields, puts, kSuperblockChecksumOffset.
  cbn [foldl f_off f_val]. unfold PutLe32, PutLe64. reflexivity.
Qed.

Lemma superblock_fields_layout v c : layout_ok BlockLen (sealed (fields v) 128 c) = true.
Proof. vm_compute. reflexivity. Qed.

Lemma superblock_fields_sized v :
  length (sb_filesystem_uuid v) = 16%nat -> Forall field_sized (fields v).
Proof. intros Hu. repeat (constructor; [first [exact Hu | reflexivity]|]). constructor. Qed.

Lemma superblock_eta v :
  mkSuperblock (total_blocks v) (total_inodes v) (root_inode v)
    (mkRegion (start_block (inode_bitmap v)) (block_count (inode_bitmap v)))
    (mkRegion (start_block (block_bitmap v)) (block_count (block_bitmap v)))
    (mkRegion (start_block (inode_table v)) (block_count (inode_table v)))
    (mkRegion (start_block (journal v)) (block_count (journal v)))
    (mkRegion (start_block (data v)) (block_count (data v)))
    (sb_feature_compat v) (sb_feature_ro_compat v) (sb_feature_incompat v)
    (sb_filesystem_uuid v) (created_time_ns v) = v.
Proof. by destruct v as [? ? ? [] [] [] [] [] ? ? ? ? ?]. Qed.

Lemma superblock_base_bytes_ok v :
  bytes_ok (sb_filesystem_uuid v) -> bytes_ok (puts (fields v) zero_block).
Proof.
  intros Hu. apply bytes_ok_puts; [|apply bytes_ok_zeros].
  repeat (constructor; [first [exact Hu | apply le_bytes_ok |
    repeat (constructor; [split; vm_compute; congruence|]); constructor]|]).
  constructor.
Qed.

Lemma encode_validated v b : EncodeSuperblock v = Ok b -> ValidateSuperblock v = Ok tt.
Proof. rewrite superblock_encode_puts. by destruct (ValidateSuperblock v) as [[]|]. Qed.

Lemma superblock_decode_encode v b :
  superblock_typed v -> EncodeSuperblock v = Ok b -> DecodeSuperblock b = Ok v.
Proof.
  intros (H1 & H2 & H3 & [H4 H5] & [H6 H7] & [H8 H9] & [H10 H11] & [H12 H13] &
          H14 & H15 & H16 & [Hu Huo] & H17) He.
  rewrite superblock_encode_puts in He. destruct (ValidateSuperblock v) as [[]|] eqn:Hval; [|done].
  ok_inv He. set (c := Crc32c (slice 0 256 (puts (fields v) zero_block))).
  pose proof (superblock_fields_layout v c) as Hl. pose proof (superblock_fields_sized v Hu) as Hsz.
  pose proof (sealed_sized _ 128 Hsz c) as Hs.
  pose proof (proj1 zero_block_wf) as Hzl.
  assert (u32 c) as Hc by (apply Crc32c_u32, bytes_ok_slice, superblock_base_bytes_ok, Huo).
  rewrite seal.
  unfold DecodeSuperblock, BytesAreZero, kSuperblockChecksumOffset.
  rewrite (slice_field _ _ _ Hl Hs Hzl 0 8 kMagic) by in_fields.
  rewrite (slice_field _ _ _ Hl Hs Hzl 104 16 (sb_filesystem_uuid v)) by in_fields.
  rewrite !(slice_gap _ _ _ Hl Hs Hzl) by (reflexivity || (vm_compute; lia)).
  rewrite (sealed_clear BlockLen _ _ (superblock_fields_layout v) Hsz). read_fields Hl Hs Hzl.
  fold c. rewrite bool_decide_true, !all_zero_zeros, !Z.eqb_refl, superblock_eta, Hval by done.
  reflexivity.
Qed.

Definition gaps : list (nat * nat) := [(36, 4); (144, 112); (256, BlockLen - 256)]%nat.
Definition segs : list (nat * nat) :=
  [(0,8); (8,4); (12,4); (16,4); (20,4); (24,4); (28,4); (32,4); (36,4); (40,4);
   (44,4); (48,4); (52,4); (56,4); (60,4); (64,4); (68,4); (72,4); (76,4); (80,8);
   (88,8); (96,8); (104,16); (120,8); (128,4); (132,4); (136,4); (140,4);
   (144,112); (256, BlockLen - 256)]%nat.

Lemma superblock_fields_cover v c : cover_ok BlockLen (sealed (fields v) 128 c) gaps segs = true.
Proof. vm_compute. reflexivity. Qed.

Lemma superblock_encode_decode b v :
  block_wf b -> DecodeSuperblock b = Ok v ->
  superblock_typed v /\ EncodeSuperblock v = Ok b.
Proof.
  intros [Hlen Hok] Hd. unfold DecodeSuperblock, BytesAreZero in Hd.
  set (v0 := mkSuperblock _ _ _ _ _ _ _ _ _ _ _ _ _) in Hd. guards Hd. ok_inv Hd.
  assert (length (slice 104 16 b) = 16%nat) as Hu
    by (apply length_slice; rewrite Hlen; vm_compute; lia).
  assert (superblock_typed v0) as Hty.
  { unfold superblock_typed, region_typed. solve_typed Hok. }
  split; [exact Hty|]. rewrite superblock_encode_puts, Hm.
  assert (b = puts (sealed (fields v0) 128 (GetLe32 b 128)) zero_block) as Hb.
  { eapply puts_canonical.
    - apply superblock_fields_layout.
    - apply sealed_sized, superblock_fields_sized, Hu.
    - exact Hlen.
    - apply superblock_fields_cover.
    - unfold sealed, fields; cbn [app]. solve_holds Hok Hlen.
    - unfold gaps. repeat (apply Forall_cons_2;
        [apply all_zero_gap; [rewrite Hlen; vm_compute; lia|assumption]|]).
      apply Forall_nil_2. }
  rewrite seal. f_equal.
  apply (sealed_verified BlockLen (fields v0) 128 (superblock_fields_layout v0)
           (superblock_fields_sized v0 Hu) (fun d => Crc32c (slice 0 256 d))); assumption.
Qed.

End SuperblockCodec.

Module InodeCodec.

Fixpoint word_fields (off : nat) (ws : list Z) : list field :=
  match ws with
  | [] => []
  | w :: rest => Field off 4 (le_bytes 4 w) :: word_fields (off + 4) rest
  end.

Lemma put_words_puts off ws fs b :
  put_words off ws (puts fs b) = puts (fs ++ word_fields off ws) b.
Proof.
  revert off fs. induction ws as [|w ws IH]; intros off fs; simpl.
  - by rewrite app_nil_r.
  - rewrite PutLe32_puts, IH. by rewrite <- app_assoc.
Qed.

Definition head_fields (v : InodeRecord) : list field :=
  [ Field 0 4 (le_bytes 4 (mode v)); Field 4 4 (le_bytes 4 (uid v));
    Field 8 4 (le_bytes 4 (gid v)); Field 12 4 (le_bytes 4 (link_count v));
    Field 16 8 (le_bytes 8 (i_size v)); Field 24 8 (le_bytes 8 (atime_ns v));
    Field 32 8 (le_bytes 8 (mtime_ns v)); Field 40 8 (le_bytes 8 (ctime_ns v));
    Field 48 4 (le_bytes 4 (flags v)); Field 52 4 (le_bytes 4 (inode_number v));
    Field 56 8 (le_bytes 8 (generation v)) ].

Definition fields (v : InodeRecord) : list field :=
  (head_fields v ++ word_fields 64 (direct_blocks v)) ++
  [Field 112 4 (le_bytes 4 (indirect_block v))].

Definition accepted (v : InodeRecord) : bool :=
  negb (inode_number v =? 0) && IsKnownMode (mode v) && (i_size v <=? kMaxFileSize).

Lemma inode_encode_puts v :
  accepted v = true ->
  EncodeInode v = Ok (puts (sealed (fields v) 124 (Crc32c (puts (fields v) (zeros InodeLen))))
                        (zeros InodeLen)).
Proof.
  unfold accepted, EncodeInode. intros H. bool_to_prop.
  rewrite (proj2 (Z.eqb_neq _ _) H), H1. rewrite if_false by done.
  rewrite if_false by (by apply Z.ltb_ge).
  rewrite <- seal. unfold fields. rewrite <- PutLe32_puts, <- put_words_puts.
  reflexivity.
Qed.

Lemma inode_encode_accepted v b : EncodeInode v = Ok b -> accepted v = true.
Proof.
  intros H. unfold EncodeInode in H. guards H. unfold accepted.
  rewrite (proj2 (Z.eqb_neq _ _) H0), H1. by apply Z.leb_le.
Qed.

Lemma direct_cases (l : list Z) :
  length l = 12%nat -> exists d0 d1 d2 d3 d4 d5 d6 d7 d8 d9 d10 d11,
  l = [d0; d1; d2; d3; d4; d5; d6; d7; d8; d9; d10; d11].
Proof.
  intros H. do 12 (destruct l as [|? l]; [discriminate H|]).
  destruct l; [|discriminate H]. by repeat eexists.
Qed.

Lemma inode_fields_layout v c :
  length (direct_blocks v) = 12%nat -> layout_ok InodeLen (sealed (fields v) 124 c) = true.
Proof.
  intros (d0 & d1 & d2 & d3 & d4 & d5 & d6 & d7 & d8 & d9 & d10 & d11 & Hd)%direct_cases.
  unfold fields. rewrite Hd. vm_compute. reflexivity.
Qed.

Lemma inode_fields_sized v : Forall field_sized (fields v).
Proof.
  unfold fields. rewrite !Forall_app. conj_split.
  - repeat (constructor; [reflexivity|]). constructor.
  - generalize 64%nat. induction (direct_blocks v); intros off; constructor; [reflexivity|].
    by apply IHl.
  - repeat constructor.
Qed.

Lemma inode_base_bytes_ok v : bytes_ok (puts (fields v) (zeros InodeLen)).
Proof.
  apply bytes_ok_puts; [|apply bytes_ok_zeros]. unfold fields. rewrite !Forall_app. conj_split.
  - repeat (constructor; [apply le_bytes_ok|]). constructor.
  - generalize 64%nat. induction (direct_blocks v); intros off; constructor.
    + apply le_bytes_ok.
    + by apply IHl.
  - constructor; [apply le_bytes_ok|constructor].
Qed.

Lemma inode_decode_encode v b :
  inode_typed v -> EncodeInode v = Ok b -> DecodeInode b (inode_number v) = Ok v.
Proof.
  intros (H1 & H2 & H3 & H4 & H5 & H6 & H7 & H8 & H9 & H10 & H11 & [Hd Hdt] & H12) He.
  pose proof (inode_encode_accepted v b He) as Hacc. rewrite inode_encode_puts in He by done.
  ok_inv He. set (c := Crc32c (puts (fields v) (zeros InodeLen))).
  pose proof (inode_fields_layout v c Hd) as Hl. pose proof (inode_fields_sized v) as Hsz.
  pose proof (sealed_sized _ 124 Hsz c) as Hs.
  assert (length (zeros InodeLen) = InodeLen) as Hzl by apply length_replicate.
  assert (u32 c) as Hc by apply Crc32c_u32, inode_base_bytes_ok.
  unfold DecodeInode, BytesAreZero, kInodeChecksumOffset, get_words. cbn [seq map Nat.add Nat.mul].
  rewrite (sealed_clear InodeLen _ _ (fun c => inode_fields_layout v c Hd) Hsz). fold c.
  assert (clear_of 116 8 (sealed (fields v) 124 c) = true) as Hclr.
  { destruct (direct_cases _ Hd) as (? & ? & ? & ? & ? & ? & ? & ? & ? & ? & ? & ? & E).
    unfold fields. rewrite E. reflexivity. }
  rewrite (slice_gap _ _ _ Hl Hs Hzl 116 8) by (done || (vm_compute; lia)).
  destruct (direct_cases _ Hd) as (d0 & d1 & d2 & d3 & d4 & d5 & d6 & d7 & d8 & d9 & d10 & d11 & E).
  assert (Forall u32 [d0; d1; d2; d3; d4; d5; d6; d7; d8; d9; d10; d11]) as Hdw
    by (by rewrite <- E).
  clear Hclr Hdt. unfold fields in *. rewrite E in *.
  rewrite !Forall_cons in Hdw.
  destruct Hdw as (? & ? & ? & ? & ? & ? & ? & ? & ? & ? & ? & ? & _).
  read_fields Hl Hs Hzl. rewrite all_zero_zeros, !Z.eqb_refl.
  apply andb_prop in Hacc as [[Hn%negb_true_iff Hmode]%andb_prop Hsize%Z.leb_le].
  cbn [inode_number mode i_size]. rewrite Hn, Hmode, (proj2 (Z.ltb_ge _ _) Hsize), <- E.
  by destruct v.
Qed.

Definition segs : list (nat * nat) :=
  [(0,4); (4,4); (8,4); (12,4); (16,8); (24,8); (32,8); (40,8); (48,4); (52,4);
   (56,8); (64,4); (68,4); (72,4); (76,4); (80,4); (84,4); (88,4); (92,4); (96,4);
   (100,4); (104,4); (108,4); (112,4); (116,8); (124,4)]%nat.

Lemma inode_encode_decode b n v :
  length b = InodeLen -> bytes_ok b -> DecodeInode b n = Ok v ->
  inode_typed v /\ inode_number v = n /\ EncodeInode v = Ok b.
Proof.
  intros Hlen Hok Hd. unfold DecodeInode, BytesAreZero in Hd.
  set (v0 := mkInode _ _ _ _ _ _ _ _ _ _ _ _ _) in Hd. guards Hd. ok_inv Hd.
  assert (accepted v0 = true) as Hacc.
  { unfold accepted. rewrite !andb_true_iff, negb_true_iff, Z.eqb_neq, Z.leb_le. auto. }
  split; [|split; [reflexivity|]].
  - assert (Forall u32 (direct_blocks v0)) as Hdw.
    { apply Forall_forall. intros w Hw. apply list_elem_of_In, in_map_iff in Hw as (i & <- & _).
      by apply GetLe32_u32. }
    assert (length (direct_blocks v0) = 12%nat) as Hd12 by reflexivity.
    unfold inode_typed. solve_typed Hok.
  - rewrite inode_encode_puts by done. f_equal.
    apply (sealed_verified InodeLen (fields v0) 124 (fun c => inode_fields_layout v0 c eq_refl)
             (inode_fields_sized v0) Crc32c); [|assumption].
    eapply (puts_canonical InodeLen _ [(116, 8)%nat] segs).
    + by apply inode_fields_layout.
    + apply sealed_sized, inode_fields_sized.
    + exact Hlen.
    + vm_compute. reflexivity.
    + unfold sealed, fields, head_fields, v0, get_words;
        cbn [app word_fields map seq Nat.add Nat.mul direct_blocks]. solve_holds Hok Hlen.
    + apply Forall_cons_2; [|apply Forall_nil_2].
      apply all_zero_gap; [rewrite Hlen; vm_compute; lia|assumption].
Qed.

End InodeCodec.
