(* ===== verification/DirectoryEntry.v ===== *)
(** Directory records (src/metadata/ondisk_format.cpp): encoding into a buffer
    and strict decoding are inverse. *)
From S2P Require Import Prelude Codec OndiskFormat.
Open Scope Z_scope.

Definition dir_fields (v : DirectoryEntry) (rec_len : Z) : list field :=
  [ Field 0 4 (le_bytes 4 (de_inode v));
    Field 4 2 (le_bytes 2 rec_len);
    Field 6 1 [Z.of_nat (length (name v)) mod 256];
    Field 7 1 [byte_of_file_type (file_type v)];
    Field 8 (length (name v)) (name v) ].

Definition cleared (rec_len : Z) (output : bytes) : bytes :=
  splice 0 (zeros (Z.to_nat rec_len)) output.

(** The conditions under which a record is encoded. *)
Definition dir_accepted (v : DirectoryEntry) (rec_len : Z) (size : nat) : Prop :=
  de_inode v <> 0 /\ IsKnownDirectoryFileType (file_type v) = true /\ IsValidName (name v) = true /\
  MinimumDirectoryRecordLength (Z.of_nat (length (name v))) <= rec_len /\
  rec_len <= Z.of_nat size /\ rec_len <= kBlockSize /\ rec_len mod 4 = 0.

Lemma encode_directory_entry v rec_len output b :
  EncodeDirectoryEntry v rec_len output = Ok b <->
  dir_accepted v rec_len (length output) /\ b = puts (dir_fields v rec_len) (cleared rec_len output).
Proof.
  unfold EncodeDirectoryEntry, dir_accepted. split.
  - intros H. guards H. ok_inv H. split; [tauto|reflexivity].
  - intros [(H1 & H2 & H3 & H4 & H5 & H6 & H7) ->].
    rewrite (proj2 (Z.eqb_neq _ _) H1), H2, H3, (proj2 (Z.ltb_ge _ _) H4),
      (proj2 (Z.ltb_ge _ _) H5), (proj2 (Z.ltb_ge _ _) H6), (proj2 (Z.eqb_eq _ _) H7). reflexivity.
Qed.

(** Rounding up to a multiple of four. *)
Lemma round4 n : Z.land (n + 3) (Z.lnot 3) = (n + 3) / 4 * 4.
Proof.
  change 3 with (Z.ones 2) at 2. rewrite <- Z.ldiff_land, Z.ldiff_ones_r by lia.
  by rewrite Z.shiftl_mul_pow2, Z.shiftr_div_pow2 by lia.
Qed.

Lemma minimum_spec n rec_len :
  rec_len mod 4 = 0 -> MinimumDirectoryRecordLength n <= rec_len <-> 8 + n <= rec_len.
Proof.
  intros Hr. unfold MinimumDirectoryRecordLength, kDirectoryEntryHeaderSize. cbv zeta. rewrite round4.
  pose proof (Z.div_mod rec_len 4 ltac:(lia)). pose proof (Z.div_mod (8 + n + 3) 4 ltac:(lia)).
  pose proof (Z.mod_pos_bound (8 + n + 3) 4 ltac:(lia)). lia.
Qed.

Lemma nth_slice1 n b x : slice n 1 b = [x] -> nth n b 0 = x.
Proof.
  unfold slice. intros H. rewrite <- (Nat.add_0_r n), <- nth_skipn.
  destruct (drop n b); [done|]. by injection H.
Qed.

Lemma slice1_nth n b : (n < length b)%nat -> slice n 1 b = [nth n b 0].
Proof.
  intros H. unfold slice. rewrite <- (Nat.add_0_r n) at 2. rewrite <- nth_skipn.
  destruct (drop n b) eqn:E; [|done]. apply (f_equal length) in E. rewrite length_drop in E. simpl in E. lia.
Qed.

Lemma name_length_bound n : IsValidName n = true -> (1 <= length n <= 255)%nat.
Proof.
  unfold IsValidName, kMaxNameLength. intros H. bool_to_prop. destruct n; [done|]. simpl in *. lia.
Qed.

Lemma type_byte t : IsKnownDirectoryFileType t = true -> file_type_of_byte (byte_of_file_type t) = t.
Proof. by destruct t. Qed.

Section record.
Context (v : DirectoryEntry) (rec_len : Z) (output : bytes).
Context (Hacc : dir_accepted v rec_len (length output)).

Abbreviation nl := (length (name v)).
Abbreviation fs := (dir_fields v rec_len).
Abbreviation base := (cleared rec_len output).
Abbreviation b := (puts fs base).

Lemma record_bounds :
  (1 <= nl <= 255)%nat /\ 8 + Z.of_nat nl <= rec_len <= 4096 /\
  (Z.to_nat rec_len <= length output)%nat.
Proof.
  destruct Hacc as (_ & _ & Hn%name_length_bound & Hm & Hs & Hb & H4).
  apply minimum_spec in Hm; [|done]. unfold kBlockSize in *. lia.
Qed.

Lemma length_base : length base = length output.
Proof. apply length_splice. unfold zeros. rewrite length_replicate. apply record_bounds. Qed.

Lemma dir_layout : layout_ok (length output) fs = true.
Proof.
  pose proof record_bounds. unfold dir_fields.
  cbn [layout_ok f_off f_len clear_of forallb]. rewrite !andb_true_iff, !Nat.leb_le.
  conj_split; try lia; apply orb_true_iff; rewrite !Nat.leb_le; lia.
Qed.

Lemma dir_sized : Forall field_sized fs.
Proof. repeat constructor. Qed.

Lemma dir_field off len x : In (Field off len x) fs -> slice off len b = x.
Proof. apply (slice_puts_in (length output)); [apply dir_layout|apply dir_sized|apply length_base]. Qed.

Lemma dir_padding : slice (8 + nl) (Z.to_nat rec_len - (8 + nl)) b = zeros (Z.to_nat rec_len - (8 + nl)).
Proof.
  pose proof record_bounds as (H1 & H2 & H3).
  rewrite (slice_puts_clear (length output));
    [|apply dir_layout|apply dir_sized|apply length_base|].
  - unfold cleared.
    rewrite <- (Nat.add_0_l (8 + nl)), <- (slice_slice 0 (Z.to_nat rec_len)) by lia.
    rewrite (slice_splice_same 0 (Z.to_nat rec_len)); [|apply length_replicate|lia].
    apply slice_zeros. lia.
  - unfold dir_fields. cbn [clear_of forallb f_off f_len]. rewrite !andb_true_iff, !orb_true_iff, !Nat.leb_le.
    conj_split; lia.
Qed.

Lemma dir_tail : slice (Z.to_nat rec_len) (length output - Z.to_nat rec_len) b =
  slice (Z.to_nat rec_len) (length output - Z.to_nat rec_len) output.
Proof.
  pose proof record_bounds as (H1 & H2 & H3).
  rewrite (slice_puts_clear (length output));
    [|apply dir_layout|apply dir_sized|apply length_base|].
  - unfold cleared. apply slice_splice_ne; unfold zeros; rewrite length_replicate; lia.
  - unfold dir_fields. cbn [clear_of forallb f_off f_len]. rewrite !andb_true_iff, !orb_true_iff, !Nat.leb_le.
    conj_split; lia.
Qed.

Lemma decode_record :
  u32 (de_inode v) ->
  DecodeDirectoryEntry b = Ok (mkDirectoryEntry (de_inode v) (file_type v) (name v) rec_len).
Proof.
  intros Hu. pose proof record_bounds as (H1 & H2 & H3).
  destruct Hacc as (Hi & Hk & Hn & _ & _ & _ & H4).
  assert (length b = length output) as Hlb
    by (apply length_puts; [apply dir_layout|apply dir_sized|apply length_base]).
  assert (GetLe16 b 4 = rec_len) as E4.
  { unfold GetLe16. rewrite (dir_field 4 2 (le_bytes 2 rec_len)) by in_fields. apply get_le2. word. }
  assert (GetLe32 b 0 = de_inode v) as E0.
  { unfold GetLe32. rewrite (dir_field 0 4 (le_bytes 4 (de_inode v))) by in_fields. by apply get_le4. }
  assert (nth 6 b 0 = Z.of_nat nl) as E6.
  { apply nth_slice1. rewrite (dir_field 6 1 [Z.of_nat nl mod 256]) by in_fields.
    f_equal. apply Z.mod_small. lia. }
  assert (nth 7 b 0 = byte_of_file_type (file_type v)) as E7
    by (apply nth_slice1, dir_field; in_fields).
  unfold DecodeDirectoryEntry, BytesAreZero. rewrite Hlb, E4, E6, E7, E0, type_byte by done.
  unfold kDirectoryEntryHeaderSize, kBlockSize. cbv zeta.
  rewrite (proj2 (Z.ltb_ge _ _)), (proj2 (Z.ltb_ge rec_len 8)), (proj2 (Z.ltb_ge _ rec_len)),
    (proj2 (Z.ltb_ge 4096 rec_len)), (proj2 (Z.eqb_eq _ _) H4), (proj2 (Z.ltb_ge (rec_len - 8) _)),
    (proj2 (Z.eqb_neq _ _) Hi) by lia.
  cbn [orb negb]. rewrite Nat2Z.id, (dir_field 8 nl (name v)) by in_fields.
  rewrite Hk, Hn. cbn [orb negb].
  replace (Z.to_nat (8 + Z.of_nat nl)) with (8 + nl)%nat by lia.
  replace (Z.to_nat (rec_len - (8 + Z.of_nat nl))) with (Z.to_nat rec_len - (8 + nl))%nat by lia.
  by rewrite dir_padding, all_zero_zeros.
Qed.
End record.

(** A record that decodes as active is the encoding of what it decodes to. *)
Section reencode.
Context (b : bytes) (v : DirectoryEntry).
Context (Hok : bytes_ok b) (Hd : DecodeDirectoryEntry b = Ok v) (Hne : de_inode v <> 0).

Lemma decoded_fields :
  v = mkDirectoryEntry (GetLe32 b 0) (file_type_of_byte (nth 7 b 0))
        (slice 8 (Z.to_nat (nth 6 b 0)) b) (GetLe16 b 4) /\
  IsKnownDirectoryFileType (file_type_of_byte (nth 7 b 0)) = true /\
  IsValidName (slice 8 (Z.to_nat (nth 6 b 0)) b) = true /\
  8 + nth 6 b 0 <= GetLe16 b 4 /\ GetLe16 b 4 <= Z.of_nat (length b) /\
  GetLe16 b 4 <= 4096 /\ GetLe16 b 4 mod 4 = 0 /\
  all_zero (slice (Z.to_nat (8 + nth 6 b 0)) (Z.to_nat (GetLe16 b 4 - (8 + nth 6 b 0))) b) = true.
Proof.
  pose proof Hd as H. unfold DecodeDirectoryEntry, BytesAreZero, kDirectoryEntryHeaderSize, kBlockSize in H.
  cbv zeta in H. destruct (Z.eqb_spec (GetLe32 b 0) 0) as [E0|E0].
  - exfalso. guards H; ok_inv H; by apply Hne.
  - guards H. ok_inv H. conj_split; try done; lia.
Qed.

Lemma nth_u8 n : u8 (nth n b 0).
Proof.
  destruct (nth_in_or_default n b 0) as [Hin| ->]; [|word].
  by apply list_elem_of_In, (proj1 (Forall_forall _ _) Hok) in Hin.
Qed.

Lemma known_byte z : IsKnownDirectoryFileType (file_type_of_byte z) = true ->
  byte_of_file_type (file_type_of_byte z) = z.
Proof.
  unfold file_type_of_byte. destruct (Z.eqb_spec z 0); [by subst|].
  destruct (Z.eqb_spec z 1); [by subst|]. by destruct (Z.eqb_spec z 2); [subst|].
Qed.

Lemma decoded_accepted : dir_accepted v (record_length v) (length b).
Proof.
  destruct decoded_fields as (Hv & Hk & Hn & H1 & H2 & H3 & H4 & _). pose proof (nth_u8 6) as H6.
  rewrite Hv in *. unfold dir_accepted. cbn [de_inode file_type name record_length] in *.
  conj_split; try done. apply minimum_spec; [done|]. rewrite length_slice by word. word.
Qed.

Lemma reencode_record : EncodeDirectoryEntry v (record_length v) b = Ok b.
Proof.
  apply encode_directory_entry. split; [apply decoded_accepted|]. pose proof decoded_accepted as Hacc.
  destruct decoded_fields as (Hv & Hk & Hn & H1 & H2 & H3 & H4 & Hz). pose proof (nth_u8 6) as H6.
  assert (length (name v) = Z.to_nat (nth 6 b 0)) as Hl.
  { rewrite Hv. apply length_slice. word. }
  assert (record_length v = GetLe16 b 4) as Hr by (by rewrite Hv).
  set (r := Z.to_nat (GetLe16 b 4)) in *. set (n := Z.to_nat (nth 6 b 0)) in *.
  set (b' := puts _ _). assert (length b' = length b) as Hlb
    by (apply length_puts; [by apply dir_layout|apply dir_sized|by apply (length_base v)]).
  rewrite <- (drop_0 b), <- (drop_0 b').
  apply (tiles_ext 0 [(0, 4); (4, 2); (6, 1); (7, 1); (8, n); (8 + n, r - (8 + n)); (r, length b - r)]%nat
    (length b)); [|done|done|].
  - cbn [tiles]. rewrite !andb_true_iff, !Nat.eqb_eq. conj_split; try done; word.
  - subst b'. pose proof (dir_field v _ b Hacc) as Hf. unfold dir_fields in Hf at 1.
    repeat (apply Forall_cons_2; [cbn [fst snd]; symmetry|]); [..|constructor].
    + rewrite (Hf 0%nat 4%nat (le_bytes 4 (de_inode v))) by in_fields.
      rewrite Hv. cbn [de_inode]. apply le_bytes_get_slice; [done|word].
    + rewrite (Hf 4%nat 2%nat (le_bytes 2 (record_length v))) by in_fields.
      rewrite Hr. apply le_bytes_get_slice; [done|word].
    + rewrite (Hf 6%nat 1%nat [Z.of_nat (length (name v)) mod 256]) by in_fields.
      rewrite slice1_nth by word. f_equal. rewrite Hl. unfold n. rewrite Z2Nat.id by word.
      apply Z.mod_small. word.
    + rewrite (Hf 7%nat 1%nat [byte_of_file_type (file_type v)]) by in_fields.
      rewrite slice1_nth by word. f_equal. rewrite Hv. by apply known_byte.
    + rewrite <- Hl at 1. rewrite (Hf 8%nat (length (name v)) (name v)) by in_fields. by rewrite Hv.
    + pose proof (dir_padding v _ b Hacc) as Hp. rewrite Hl, Hr in Hp. fold r in Hp. rewrite Hr, Hp.
      symmetry. apply all_zero_spec in Hz.
      replace (Z.to_nat (8 + nth 6 b 0)) with (8 + n)%nat in Hz by (unfold n; word).
      replace (Z.to_nat (GetLe16 b 4 - (8 + nth 6 b 0))) with (r - (8 + n))%nat in Hz by (unfold r, n; word).
      rewrite length_slice in Hz; [exact Hz|]. unfold r, n. word.
    + pose proof (dir_tail v _ b Hacc) as Hp. rewrite Hr in *. exact Hp.
Qed.
End reencode.
