(* ===== verification/OndiskJournal.v ===== *)
(** The persistent format of the journal
    (src/journal/ondisk_journal.h, src/journal/ondisk_journal.cpp):
    A/B control blocks, descriptor and COMMIT records, the wrapping generation
    order and the selection of the current control. *)
From S2P Require Import Prelude Codec Crc32c OndiskFormat.
Open Scope Z_scope.

Definition kJournalFormatVersion : Z := 1.
Definition kJournalControlHeaderSize : Z := 128.
Definition kJournalRecordHeaderSize : Z := 64.
Definition kDescriptorEntrySize : Z := 16.
Definition kMaxDescriptorEntries : Z :=
  (kBlockSize - kJournalRecordHeaderSize) / kDescriptorEntrySize.

(** [RecordType]: the tag stored in descriptor and COMMIT headers. *)
Inductive RecordType := kDescriptor | kCommitRecord.
Definition record_type_code (t : RecordType) : Z :=
  match t with kDescriptor => 1 | kCommitRecord => 2 end.

Inductive ControlCopy := kA | kB.
Inductive GenerationComparison := kEqual | kFirstNewer | kSecondNewer | kAmbiguous.

Record JournalControl := mkControl {
  ring_blocks : Z;
  jc_filesystem_uuid : bytes;
  jc_generation : Z;
  head : Z;
  tail : Z;
  used_blocks : Z;
  state_flags : Z;
  next_transaction_id : Z;
  jc_feature_compat : Z;
  jc_feature_ro_compat : Z;
  jc_feature_incompat : Z;
  jc_checksum : Z
}.

Record DescriptorEntry := mkEntry {
  home_block : Z;
  payload_ring_index : Z;
  payload_crc32c : Z;
  entry_flags : Z
}.

Record DescriptorRecord := mkDescriptor {
  dr_transaction_id : Z;
  dr_filesystem_uuid : bytes;
  dr_transaction_block_count : Z;
  dr_flags : Z;
  dr_checksum : Z;
  entries : list DescriptorEntry
}.

Record CommitRecord := mkCommit {
  cr_transaction_id : Z;
  cr_filesystem_uuid : bytes;
  entry_count : Z;
  cr_transaction_block_count : Z;
  cr_descriptor_ring_index : Z;
  cr_descriptor_crc32c : Z;
  cr_checksum : Z
}.

#[global] Instance ControlCopy_eq_dec : EqDecision ControlCopy.
Proof. solve_decision. Defined.
#[global] Instance JournalControl_eq_dec : EqDecision JournalControl.
Proof. solve_decision. Defined.
#[global] Instance DescriptorEntry_eq_dec : EqDecision DescriptorEntry.
Proof. solve_decision. Defined.

Definition uuid_typed (u : bytes) : Prop := length u = 16%nat /\ bytes_ok u.
Definition control_typed (c : JournalControl) : Prop :=
  u32 (ring_blocks c) /\ uuid_typed (jc_filesystem_uuid c) /\ u64 (jc_generation c) /\
  u32 (head c) /\ u32 (tail c) /\ u32 (used_blocks c) /\ u32 (state_flags c) /\
  u64 (next_transaction_id c) /\ u64 (jc_feature_compat c) /\
  u64 (jc_feature_ro_compat c) /\ u64 (jc_feature_incompat c).
Definition entry_typed (e : DescriptorEntry) : Prop :=
  u32 (home_block e) /\ u32 (payload_ring_index e) /\ u32 (payload_crc32c e) /\
  u32 (entry_flags e).
Definition descriptor_typed (d : DescriptorRecord) : Prop :=
  u64 (dr_transaction_id d) /\ uuid_typed (dr_filesystem_uuid d) /\
  u32 (dr_transaction_block_count d) /\ u32 (dr_flags d) /\ Forall entry_typed (entries d).
Definition commit_typed (c : CommitRecord) : Prop :=
  u64 (cr_transaction_id c) /\ uuid_typed (cr_filesystem_uuid c) /\ u32 (entry_count c) /\
  u32 (cr_transaction_block_count c) /\ u32 (cr_descriptor_ring_index c) /\
  u32 (cr_descriptor_crc32c c).

(** The magics EUFSJDS1, EUFSJCM1 and EUFSJCT1. *)
Definition kDescriptorMagic : bytes := [69; 85; 70; 83; 74; 68; 83; 49].
Definition kCommitMagic : bytes := [69; 85; 70; 83; 74; 67; 77; 49].
Definition kControlMagic : bytes := [69; 85; 70; 83; 74; 67; 84; 49].
Definition kRecordChecksumOffset : nat := 60.
Definition kControlChecksumOffset : nat := 124.

(** All bytes from [begin] to the end of the block are zero. *)
Definition IsZeroRange (block : bytes) (begin : nat) : bool := all_zero (drop begin block).

Definition ComputeBlockChecksum (block : bytes) (checksum_offset : nat) : Z :=
  Crc32c (PutLe32 checksum_offset 0 block).

Definition ValidateControlFields (value : JournalControl) : result string unit :=
  if (ring_blocks value <? kMinimumJournalRingBlocks) ||
     (ring_blocks value <=? head value) ||
     (ring_blocks value <=? tail value) ||
     (ring_blocks value <? used_blocks value) ||
     (negb (used_blocks value =? 0) &&
      (used_blocks value <? kMinimumJournalRingBlocks)) ||
     (next_transaction_id value =? 0)
  then Err "journal control positions or counters are invalid"%string
  else
  let expected_head := (tail value + used_blocks value) mod ring_blocks value in
  if negb (head value =? expected_head)
  then Err "journal control head, tail, and used count disagree"%string
  else if negb (state_flags value =? 0) || negb (jc_feature_compat value =? 0) ||
          negb (jc_feature_ro_compat value =? 0) || negb (jc_feature_incompat value =? 0)
  then Err "journal control requires unsupported v1 flags"%string
  else Ok tt.

Definition ControlsEquivalent (first second : JournalControl) : bool :=
  (ring_blocks first =? ring_blocks second) &&
  bool_decide (jc_filesystem_uuid first = jc_filesystem_uuid second) &&
  (jc_generation first =? jc_generation second) && (head first =? head second) &&
  (tail first =? tail second) && (used_blocks first =? used_blocks second) &&
  (state_flags first =? state_flags second) &&
  (next_transaction_id first =? next_transaction_id second) &&
  (jc_feature_compat first =? jc_feature_compat second) &&
  (jc_feature_ro_compat first =? jc_feature_ro_compat second) &&
  (jc_feature_incompat first =? jc_feature_incompat second).

(** The loop over the entries, with the two sets of values already seen. *)
Fixpoint validate_entries_loop (home_blocks payload_positions : gset Z)
    (l : list DescriptorEntry) : result string unit :=
  match l with
  | [] => Ok tt
  | entry :: rest =>
    if (home_block entry =? 0) || negb (entry_flags entry =? 0)
    then Err "descriptor entry has an invalid home block or flags"%string
    else if bool_decide (home_block entry ∈ home_blocks)
    then Err "descriptor contains a duplicate home block"%string
    else if bool_decide (payload_ring_index entry ∈ payload_positions)
    then Err "descriptor contains a duplicate payload position"%string
    else validate_entries_loop ({[home_block entry]} ∪ home_blocks)
           ({[payload_ring_index entry]} ∪ payload_positions) rest
  end.

Definition ValidateDescriptorEntries (l : list DescriptorEntry) : result string unit :=
  if bool_decide (l = []) || (kMaxDescriptorEntries <? Z.of_nat (length l))
  then Err "descriptor entry count is outside the v1 range"%string
  else validate_entries_loop ∅ ∅ l.

(** * Control codec: the encoded block and its checksum *)
Definition EncodeControl (value : JournalControl) : result string (bytes * Z) :=
  match ValidateControlFields value with
  | Err e => Err e
  | Ok _ =>
    let output := zero_block in
    let output := splice 0 kControlMagic output in
    let output := PutLe32 8 kJournalFormatVersion output in
    let output := PutLe32 12 kJournalControlHeaderSize output in
    let output := PutLe32 16 kBlockSize output in
    let output := PutLe32 20 (ring_blocks value) output in
    let output := splice 24 (jc_filesystem_uuid value) output in
    let output := PutLe64 40 (jc_generation value) output in
    let output := PutLe32 48 (head value) output in
    let output := PutLe32 52 (tail value) output in
    let output := PutLe32 56 (used_blocks value) output in
    let output := PutLe32 60 (state_flags value) output in
    let output := PutLe64 64 (next_transaction_id value) output in
    let output := PutLe64 72 (jc_feature_compat value) output in
    let output := PutLe64 80 (jc_feature_ro_compat value) output in
    let output := PutLe64 88 (jc_feature_incompat value) output in
    let computed := ComputeBlockChecksum output kControlChecksumOffset in
    Ok (PutLe32 kControlChecksumOffset computed output, computed)
  end.

Definition DecodeControl (input : bytes) : result string JournalControl :=
  if negb (bool_decide (slice 0 8 input = kControlMagic)) ||
     negb (GetLe32 input 8 =? kJournalFormatVersion) ||
     negb (GetLe32 input 12 =? kJournalControlHeaderSize) ||
     negb (GetLe32 input 16 =? kBlockSize)
  then Err "journal control header does not match the v1 format"%string
  else
  let stored_checksum := GetLe32 input kControlChecksumOffset in
  if negb (stored_checksum =? ComputeBlockChecksum input kControlChecksumOffset)
  then Err "journal control checksum mismatch"%string
  else if negb (all_zero (slice 96 28 input)) || negb (IsZeroRange input 128)
  then Err "journal control reserved bytes are not zero"%string
  else
  let decoded := mkControl
    (GetLe32 input 20) (slice 24 16 input) (GetLe64 input 40) (GetLe32 input 48)
    (GetLe32 input 52) (GetLe32 input 56) (GetLe32 input 60) (GetLe64 input 64)
    (GetLe64 input 72) (GetLe64 input 80) (GetLe64 input 88) stored_checksum in
  match ValidateControlFields decoded with
  | Err e => Err e
  | Ok _ => Ok decoded
  end.

(** * Generation order and control selection *)
Definition CompareGenerations (first second : Z) : GenerationComparison :=
  if first =? second then kEqual
  else
  let kHalfRange := Z.shiftl 1 63 in
  let difference := wrap64 (first - second) in
  if difference =? kHalfRange then kAmbiguous
  else if difference <? kHalfRange then kFirstNewer else kSecondNewer.

Definition SelectControl (control_a control_b : bytes) (expected_uuid : bytes)
    (expected_ring_blocks : Z) : result string (JournalControl * ControlCopy) :=
  if expected_ring_blocks <? kMinimumJournalRingBlocks
  then Err "journal control selection arguments are invalid"%string
  else
  let usable (r : result string JournalControl) : option JournalControl :=
    match r with
    | Ok decoded =>
        if bool_decide (jc_filesystem_uuid decoded = expected_uuid) &&
           (ring_blocks decoded =? expected_ring_blocks)
        then Some decoded else None
    | Err _ => None
    end in
  match usable (DecodeControl control_a), usable (DecodeControl control_b) with
  | None, None => Err "both journal control copies are invalid"%string
  | Some decoded_a, None => Ok (decoded_a, kA)
  | None, Some decoded_b => Ok (decoded_b, kB)
  | Some decoded_a, Some decoded_b =>
    match CompareGenerations (jc_generation decoded_a) (jc_generation decoded_b) with
    | kAmbiguous => Err "journal control generations are half-range ambiguous"%string
    | kEqual =>
        if negb (ControlsEquivalent decoded_a decoded_b)
        then Err "equal journal generations contain different states"%string
        else Ok (decoded_a, kA)
    | kFirstNewer => Ok (decoded_a, kA)
    | kSecondNewer => Ok (decoded_b, kB)
    end
  end.

(** * Descriptor codec *)
(** The loop that stores entry [index] at [64 + 16 * index]. *)
Fixpoint put_entries (off : nat) (l : list DescriptorEntry) (output : bytes) : bytes :=
  match l with
  | [] => output
  | entry :: rest =>
    let output := PutLe32 off (home_block entry) output in
    let output := PutLe32 (off + 4) (payload_ring_index entry) output in
    let output := PutLe32 (off + 8) (payload_crc32c entry) output in
    let output := PutLe32 (off + 12) (entry_flags entry) output in
    put_entries (off + 16) rest output
  end.

Definition get_entry (input : bytes) (index : nat) : DescriptorEntry :=
  let encoded := (64 + index * 16)%nat in
  mkEntry (GetLe32 input encoded) (GetLe32 input (encoded + 4))
          (GetLe32 input (encoded + 8)) (GetLe32 input (encoded + 12)).

Definition EncodeDescriptor (value : DescriptorRecord) : result string (bytes * Z) :=
  if (dr_transaction_id value =? 0) || negb (dr_flags value =? 0)
  then Err ""%string
  else
  match ValidateDescriptorEntries (entries value) with
  | Err e => Err e
  | Ok _ =>
  let expected_blocks := wrap32 (Z.of_nat (length (entries value)) + 2) in
  if negb (dr_transaction_block_count value =? expected_blocks)
  then Err "descriptor transaction block count is inconsistent"%string
  else
    let output := zero_block in
    let output := splice 0 kDescriptorMagic output in
    let output := PutLe32 8 kJournalFormatVersion output in
    let output := PutLe32 12 kJournalRecordHeaderSize output in
    let output := PutLe32 16 (record_type_code kDescriptor) output in
    let output := PutLe32 20 (wrap32 (Z.of_nat (length (entries value)))) output in
    let output := PutLe64 24 (dr_transaction_id value) output in
    let output := splice 32 (dr_filesystem_uuid value) output in
    let output := PutLe32 48 (dr_transaction_block_count value) output in
    let output := PutLe32 52 kJournalRecordHeaderSize output in
    let output := PutLe32 56 (dr_flags value) output in
    let output := put_entries 64 (entries value) output in
    let computed := ComputeBlockChecksum output kRecordChecksumOffset in
    Ok (PutLe32 kRecordChecksumOffset computed output, computed)
  end.

Definition DecodeDescriptor (input : bytes) : result string DescriptorRecord :=
  if negb (bool_decide (slice 0 8 input = kDescriptorMagic)) ||
     negb (GetLe32 input 8 =? kJournalFormatVersion) ||
     negb (GetLe32 input 12 =? kJournalRecordHeaderSize) ||
     negb (GetLe32 input 16 =? record_type_code kDescriptor) ||
     negb (GetLe32 input 52 =? kJournalRecordHeaderSize)
  then Err "descriptor header does not match the v1 format"%string
  else
  let stored_checksum := GetLe32 input kRecordChecksumOffset in
  if negb (stored_checksum =? ComputeBlockChecksum input kRecordChecksumOffset)
  then Err "descriptor checksum mismatch"%string
  else
  let count := GetLe32 input 20 in
  if (count =? 0) || (kMaxDescriptorEntries <? count)
  then Err "descriptor entry count is outside the v1 range"%string
  else
  let transaction_id := GetLe64 input 24 in
  if transaction_id =? 0 then Err "descriptor transaction id is invalid"%string
  else
  let block_count := GetLe32 input 48 in
  let fl := GetLe32 input 56 in
  if negb (fl =? 0) || negb (block_count =? wrap32 (count + 2))
  then Err "descriptor flags or block count are invalid"%string
  else
  let decoded_entries := map (get_entry input) (seq 0 (Z.to_nat count)) in
  let used := (64 + Z.to_nat count * 16)%nat in
  if negb (IsZeroRange input used)
  then Err "descriptor reserved bytes are not zero"%string
  else
  match ValidateDescriptorEntries decoded_entries with
  | Err e => Err e
  | Ok _ => Ok (mkDescriptor transaction_id (slice 32 16 input) block_count fl
                  stored_checksum decoded_entries)
  end.

(** * COMMIT codec *)
Definition EncodeCommit (value : CommitRecord) : result string bytes :=
  if (cr_transaction_id value =? 0) || (entry_count value =? 0) ||
     (kMaxDescriptorEntries <? entry_count value) ||
     negb (cr_transaction_block_count value =? wrap32 (entry_count value + 2))
  then Err "commit fields do not describe a valid v1 transaction"%string
  else
    let output := zero_block in
    let output := splice 0 kCommitMagic output in
    let output := PutLe32 8 kJournalFormatVersion output in
    let output := PutLe32 12 kJournalRecordHeaderSize output in
    let output := PutLe32 16 (record_type_code kCommitRecord) output in
    let output := PutLe32 20 (entry_count value) output in
    let output := PutLe64 24 (cr_transaction_id value) output in
    let output := splice 32 (cr_filesystem_uuid value) output in
    let output := PutLe32 48 (cr_transaction_block_count value) output in
    let output := PutLe32 52 (cr_descriptor_ring_index value) output in
    let output := PutLe32 56 (cr_descriptor_crc32c value) output in
    let computed := ComputeBlockChecksum output kRecordChecksumOffset in
    Ok (PutLe32 kRecordChecksumOffset computed output).

Definition DecodeCommit (input : bytes) : result string CommitRecord :=
  if negb (bool_decide (slice 0 8 input = kCommitMagic)) ||
     negb (GetLe32 input 8 =? kJournalFormatVersion) ||
     negb (GetLe32 input 12 =? kJournalRecordHeaderSize) ||
     negb (GetLe32 input 16 =? record_type_code kCommitRecord)
  then Err "commit header does not match the v1 format"%string
  else
  let stored_checksum := GetLe32 input kRecordChecksumOffset in
  if negb (stored_checksum =? ComputeBlockChecksum input kRecordChecksumOffset)
  then Err "commit checksum mismatch"%string
  else if negb (IsZeroRange input 64)
  then Err "commit reserved bytes are not zero"%string
  else
  let decoded := mkCommit
    (GetLe64 input 24) (slice 32 16 input) (GetLe32 input 20) (GetLe32 input 48)
    (GetLe32 input 52) (GetLe32 input 56) stored_checksum in
  if (cr_transaction_id decoded =? 0) || (entry_count decoded =? 0) ||
     (kMaxDescriptorEntries <? entry_count decoded) ||
     negb (cr_transaction_block_count decoded =? wrap32 (entry_count decoded + 2))
  then Err "commit fields do not describe a valid v1 transaction"%string
  else Ok decoded.

Definition CommitMatchesDescriptor (descriptor : DescriptorRecord)
    (descriptor_ring_index : Z) (commit : CommitRecord) : bool :=
  negb (negb (dr_transaction_id descriptor =? cr_transaction_id commit) ||
        negb (bool_decide (dr_filesystem_uuid descriptor = cr_filesystem_uuid commit)) ||
        negb (Z.of_nat (length (entries descriptor)) =? entry_count commit) ||
        negb (dr_transaction_block_count descriptor =? cr_transaction_block_count commit) ||
        negb (descriptor_ring_index =? cr_descriptor_ring_index commit) ||
        negb (dr_checksum descriptor =? cr_descriptor_crc32c commit)).
