(* ===== verification/OndiskJournalProofs.v ===== *)
(** Correctness of the journal codecs: what an encoder writes is what the
    decoder reads back, and a decoder accepts nothing but encoder output. *)
From S2P Require Import Prelude Codec Crc32c OndiskFormat OndiskFormatProofs OndiskJournal.
Open Scope Z_scope.

Definition with_checksum (v : JournalControl) (c : Z) : JournalControl :=
  mkControl (ring_blocks v) (jc_filesystem_uuid v) (jc_generation v) (head v) (tail v)
    (used_blocks v) (state_flags v) (next_transaction_id v) (jc_feature_compat v)
    (jc_feature_ro_compat v) (jc_feature_incompat v) c.

Module ControlCodec.

Definition fields (v : JournalControl) : list field :=
  [ Field 0 8 kControlMagic;
    Field 8 4 (le_bytes 4 kJournalFormatVersion);
    Field 12 4 (le_bytes 4 kJournalControlHeaderSize);
    Field 16 4 (le_bytes 4 kBlockSize);
    Field 20 4 (le_bytes 4 (ring_blocks v));
    Field 24 16 (jc_filesystem_uuid v);
    Field 40 8 (le_bytes 8 (jc_generation v));
    Field 48 4 (le_bytes 4 (head v));
    Field 52 4 (le_bytes 4 (tail v));
    Field 56 4 (le_bytes 4 (used_blocks v));
    Field 60 4 (le_bytes 4 (state_flags v));
    Field 64 8 (le_bytes 8 (next_transaction_id v));
    Field 72 8 (le_bytes 8 (jc_feature_compat v));
    Field 80 8 (le_bytes 8 (jc_feature_ro_compat v));
    Field 88 8 (le_bytes 8 (jc_feature_incompat v)) ].

Definition gaps : list (nat * nat) := [(96, 28); (128, BlockLen - 128)]%nat.
Definition segs : list (nat * nat) :=
  [(0,8); (8,4); (12,4); (16,4); (20,4); (24,16); (40,8); (48,4); (52,4); (56,4);
   (60,4); (64,8); (72,8); (80,8); (88,8); (96,28); (124,4); (128, BlockLen - 128)]%nat.

Lemma control_fields_layout v c : layout_ok BlockLen (sealed (fields v) 124 c) = true.
Proof. vm_compute. reflexivity. Qed.

Lemma control_fields_cover v c : cover_ok BlockLen (sealed (fields v) 124 c) gaps segs = true.
Proof. vm_compute. reflexivity. Qed.

Lemma control_fields_sized v :
  length (jc_filesystem_uuid v) = 16%nat -> Forall field_sized (fields v).
Proof. intros Hu. repeat (constructor; [first [exact Hu | reflexivity]|]). constructor. Qed.

Lemma control_base_bytes_ok v :
  bytes_ok (jc_filesystem_uuid v) -> bytes_ok (puts (fields v) zero_block).
Proof.
  intros Hu. apply bytes_ok_puts; [|apply bytes_ok_zeros].
  repeat (constructor; [first [exact Hu | apply le_bytes_ok |
    repeat (constructor; [split; vm_compute; congruence|]); constructor]|]).
  constructor.
Qed.

Definition crc (v : JournalControl) : Z := Crc32c (puts (fields v) zero_block).
Definition image (v : JournalControl) : bytes := puts (sealed (fields v) 124 (crc v)) zero_block.

Lemma control_encode_eq v :
  length (jc_filesystem_uuid v) = 16%nat ->
  EncodeControl v =
  match ValidateControlFields v with Err e => Err e | Ok _ => Ok (image v, crc v) end.
Proof.
  intros Hu. unfold image. rewrite <- seal.
  assert (crc v = Crc32c (PutLe32 124 0 (puts (fields v) zero_block))) as ->.
  { by rewrite (clear_unsealed BlockLen _ _ (control_fields_layout v) (control_fields_sized v Hu)). }
  unfold EncodeControl, ComputeBlockChecksum, kControlChecksumOffset, fields, puts.
  cbn [foldl f_off f_val]. unfold PutLe32, PutLe64. reflexivity.
Qed.

Lemma control_image_wf v : uuid_typed (jc_filesystem_uuid v) -> block_wf (image v).
Proof.
  intros [Hu Huo]. split.
  - apply length_sealed; [apply control_fields_layout|by apply control_fields_sized].
  - unfold image. rewrite <- seal. by apply bytes_ok_PutLe32, control_base_bytes_ok.
Qed.

Lemma control_decode_image v :
  control_typed v -> ValidateControlFields v = Ok tt ->
  DecodeControl (image v) = Ok (with_checksum v (crc v)).
Proof.
  intros (H1 & [Hu Huo] & H2 & H3 & H4 & H5 & H6 & H7 & H8 & H9 & H10) Hval.
  unfold image. set (c := crc v).
  pose proof (control_fields_layout v c) as Hl. pose proof (control_fields_sized v Hu) as Hsz.
  pose proof (sealed_sized _ 124 Hsz c) as Hs. pose proof (proj1 zero_block_wf) as Hzl.
  assert (u32 c) as Hc by (apply Crc32c_u32, control_base_bytes_ok, Huo).
  unfold DecodeControl, IsZeroRange, ComputeBlockChecksum, kControlChecksumOffset.
  rewrite drop_slice, (length_sealed BlockLen _ _ (control_fields_layout v) Hsz).
  rewrite (slice_field _ _ _ Hl Hs Hzl 0 8 kControlMagic) by in_fields.
  rewrite (slice_field _ _ _ Hl Hs Hzl 24 16 (jc_filesystem_uuid v)) by in_fields.
  rewrite !(slice_gap _ _ _ Hl Hs Hzl) by (reflexivity || (vm_compute; lia)).
  rewrite (sealed_clear BlockLen _ _ (control_fields_layout v) Hsz). read_fields Hl Hs Hzl.
  fold (crc v). fold c. fold (with_checksum v c).
  rewrite bool_decide_true, !all_zero_zeros, !Z.eqb_refl by done.
  replace (ValidateControlFields (with_checksum v c)) with (ValidateControlFields v) by done.
  by rewrite Hval.
Qed.

Lemma control_encode_decode b v :
  block_wf b -> DecodeControl b = Ok v ->
  control_typed v /\ ValidateControlFields v = Ok tt /\ b = image v /\ jc_checksum v = crc v.
Proof.
  intros [Hlen Hok] Hd. unfold DecodeControl, IsZeroRange, ComputeBlockChecksum in Hd.
  rewrite drop_slice, Hlen in Hd. set (v0 := mkControl _ _ _ _ _ _ _ _ _ _ _ _) in Hd.
  guards Hd. ok_inv Hd. rename Hg0 into Hcrc. unfold kControlChecksumOffset in Hcrc.
  assert (length (slice 24 16 b) = 16%nat) as Hu
    by (apply length_slice; rewrite Hlen; vm_compute; lia).
  assert (b = puts (sealed (fields v0) 124 (GetLe32 b 124)) zero_block) as Hb.
  { eapply puts_canonical.
    - apply control_fields_layout.
    - apply sealed_sized, control_fields_sized, Hu.
    - exact Hlen.
    - apply control_fields_cover.
    - unfold sealed, fields; cbn [app]. solve_holds Hok Hlen.
    - unfold gaps. repeat (apply Forall_cons_2;
        [apply all_zero_gap; [rewrite Hlen; vm_compute; lia|assumption]|]).
      apply Forall_nil_2. }
  assert (image v0 = b) as Himg.
  { apply (sealed_verified BlockLen (fields v0) 124 (control_fields_layout v0)
             (control_fields_sized v0 Hu) Crc32c); [assumption|by symmetry]. }
  split; [|split; [by destruct a|split; [done|]]].
  - unfold control_typed, uuid_typed. solve_typed Hok.
  - change (jc_checksum v0) with (GetLe32 b 124). rewrite Hcrc. unfold crc. f_equal.
    pose proof (sealed_clear BlockLen _ _ (control_fields_layout v0) (control_fields_sized v0 Hu) (crc v0)) as Hcl.
    unfold image in Himg. by rewrite Himg in Hcl.
Qed.

End ControlCodec.

Module CommitCodec.

Definition fields (v : CommitRecord) : list field :=
  [ Field 0 8 kCommitMagic;
    Field 8 4 (le_bytes 4 kJournalFormatVersion);
    Field 12 4 (le_bytes 4 kJournalRecordHeaderSize);
    Field 16 4 (le_bytes 4 (record_type_code kCommitRecord));
    Field 20 4 (le_bytes 4 (entry_count v));
    Field 24 8 (le_bytes 8 (cr_transaction_id v));
    Field 32 16 (cr_filesystem_uuid v);
    Field 48 4 (le_bytes 4 (cr_transaction_block_count v));
    Field 52 4 (le_bytes 4 (cr_descriptor_ring_index v));
    Field 56 4 (le_bytes 4 (cr_descriptor_crc32c v)) ].

Definition gaps : list (nat * nat) := [(64, BlockLen - 64)]%nat.
Definition segs : list (nat * nat) :=
  [(0,8); (8,4); (12,4); (16,4); (20,4); (24,8); (32,16); (48,4); (52,4); (56,4);
   (60,4); (64, BlockLen - 64)]%nat.

(** The condition under which a COMMIT record is encoded and decoded. *)
Definition accepted (v : CommitRecord) : bool :=
  negb (cr_transaction_id v =? 0) && negb (entry_count v =? 0) &&
  (entry_count v <=? kMaxDescriptorEntries) &&
  (cr_transaction_block_count v =? wrap32 (entry_count v + 2)).

Definition with_commit_checksum (v : CommitRecord) (c : Z) : CommitRecord :=
  mkCommit (cr_transaction_id v) (cr_filesystem_uuid v) (entry_count v)
    (cr_transaction_block_count v) (cr_descriptor_ring_index v) (cr_descriptor_crc32c v) c.

Lemma reject_accepted v :
  ((cr_transaction_id v =? 0) || (entry_count v =? 0) ||
   (kMaxDescriptorEntries <? entry_count v) ||
   negb (cr_transaction_block_count v =? wrap32 (entry_count v + 2))) = negb (accepted v).
Proof.
  unfold accepted. rewrite Z.ltb_antisym.
  by destruct (_ =? 0), (_ =? 0), (_ <=? _), (_ =? _).
Qed.

Lemma commit_fields_layout v c : layout_ok BlockLen (sealed (fields v) 60 c) = true.
Proof. vm_compute. reflexivity. Qed.

Lemma commit_fields_cover v c : cover_ok BlockLen (sealed (fields v) 60 c) gaps segs = true.
Proof. vm_compute. reflexivity. Qed.

Lemma commit_fields_sized v :
  length (cr_filesystem_uuid v) = 16%nat -> Forall field_sized (fields v).
Proof. intros Hu. repeat (constructor; [first [exact Hu | reflexivity]|]). constructor. Qed.

Lemma commit_base_bytes_ok v :
  bytes_ok (cr_filesystem_uuid v) -> bytes_ok (puts (fields v) zero_block).
Proof.
  intros Hu. apply bytes_ok_puts; [|apply bytes_ok_zeros].
  repeat (constructor; [first [exact Hu | apply le_bytes_ok |
    repeat (constructor; [split; vm_compute; congruence|]); constructor]|]).
  constructor.
Qed.

Definition crc (v : CommitRecord) : Z := Crc32c (puts (fields v) zero_block).
Definition image (v : CommitRecord) : bytes := puts (sealed (fields v) 60 (crc v)) zero_block.

Lemma commit_encode_eq v :
  length (cr_filesystem_uuid v) = 16%nat -> accepted v = true ->
  EncodeCommit v = Ok (image v).
Proof.
  intros Hu Hacc. unfold image. rewrite <- seal.
  assert (crc v = Crc32c (PutLe32 60 0 (puts (fields v) zero_block))) as ->.
  { by rewrite (clear_unsealed BlockLen _ _ (commit_fields_layout v) (commit_fields_sized v Hu)). }
  unfold EncodeCommit. rewrite reject_accepted, Hacc. cbn [negb].
  unfold ComputeBlockChecksum, kRecordChecksumOffset, fields, puts.
  cbn [foldl f_off f_val]. unfold PutLe32, PutLe64. reflexivity.
Qed.

Lemma commit_encode_accepted v b : EncodeCommit v = Ok b -> accepted v = true.
Proof. unfold EncodeCommit. rewrite reject_accepted. by destruct (accepted v). Qed.

Lemma commit_image_wf v : uuid_typed (cr_filesystem_uuid v) -> block_wf (image v).
Proof.
  intros [Hu Huo]. split.
  - apply length_sealed; [apply commit_fields_layout|by apply commit_fields_sized].
  - unfold image. rewrite <- seal. by apply bytes_ok_PutLe32, commit_base_bytes_ok.
Qed.

Lemma commit_decode_image v :
  commit_typed v -> accepted v = true ->
  DecodeCommit (image v) = Ok (with_commit_checksum v (crc v)).
Proof.
  intros (H1 & [Hu Huo] & H2 & H3 & H4 & H5) Hval.
  unfold image. set (c := crc v).
  pose proof (commit_fields_layout v c) as Hl. pose proof (commit_fields_sized v Hu) as Hsz.
  pose proof (sealed_sized _ 60 Hsz c) as Hs. pose proof (proj1 zero_block_wf) as Hzl.
  assert (u32 c) as Hc by (apply Crc32c_u32, commit_base_bytes_ok, Huo).
  unfold DecodeCommit, IsZeroRange, ComputeBlockChecksum, kRecordChecksumOffset.
  rewrite drop_slice, (length_sealed BlockLen _ _ (commit_fields_layout v) Hsz).
  rewrite (slice_field _ _ _ Hl Hs Hzl 0 8 kCommitMagic) by in_fields.
  rewrite (slice_field _ _ _ Hl Hs Hzl 32 16 (cr_filesystem_uuid v)) by in_fields.
  rewrite !(slice_gap _ _ _ Hl Hs Hzl) by (reflexivity || (vm_compute; lia)).
  rewrite (sealed_clear BlockLen _ _ (commit_fields_layout v) Hsz). read_fields Hl Hs Hzl.
  fold (crc v). fold c. fold (with_commit_checksum v c).
  rewrite reject_accepted.
  rewrite bool_decide_true, !all_zero_zeros, !Z.eqb_refl by done.
  replace (accepted (with_commit_checksum v c)) with (accepted v) by done.
  by rewrite Hval.
Qed.

Lemma commit_encode_decode b v :
  block_wf b -> DecodeCommit b = Ok v ->
  commit_typed v /\ accepted v = true /\ b = image v.
Proof.
  intros [Hlen Hok] Hd. unfold DecodeCommit, IsZeroRange, ComputeBlockChecksum in Hd.
  rewrite drop_slice, Hlen in Hd. set (v0 := mkCommit _ _ _ _ _ _ _) in Hd.
  rewrite reject_accepted in Hd.
  guards Hd. ok_inv Hd. rename Hg0 into Hcrc. unfold kRecordChecksumOffset in Hcrc.
  assert (length (slice 32 16 b) = 16%nat) as Hu
    by (apply length_slice; rewrite Hlen; vm_compute; lia).
  assert (b = puts (sealed (fields v0) 60 (GetLe32 b 60)) zero_block) as Hb.
  { eapply puts_canonical.
    - apply commit_fields_layout.
    - apply sealed_sized, commit_fields_sized, Hu.
    - exact Hlen.
    - apply commit_fields_cover.
    - unfold sealed, fields; cbn [app]. solve_holds Hok Hlen.
    - unfold gaps. repeat (apply Forall_cons_2;
        [apply all_zero_gap; [rewrite Hlen; vm_compute; lia|assumption]|]).
      apply Forall_nil_2. }
  split; [|split; [done|]].
  - unfold commit_typed, uuid_typed. solve_typed Hok.
  - symmetry. apply (sealed_verified BlockLen (fields v0) 60 (commit_fields_layout v0)
             (commit_fields_sized v0 Hu) Crc32c); [assumption|by symmetry].
Qed.

End CommitCodec.

Module DescriptorCodec.

Definition entry_bytes (e : DescriptorEntry) : bytes :=
  le_bytes 4 (home_block e) ++ le_bytes 4 (payload_ring_index e) ++
  le_bytes 4 (payload_crc32c e) ++ le_bytes 4 (entry_flags e).
Definition table_bytes (l : list DescriptorEntry) : bytes := concat (map entry_bytes l).

Lemma table_cons e l : table_bytes (e :: l) = entry_bytes e ++ table_bytes l.
Proof. reflexivity. Qed.

Lemma length_entry e : length (entry_bytes e) = 16%nat.
Proof. unfold entry_bytes. by rewrite !length_app, !length_le_bytes. Qed.

Lemma length_table l : length (table_bytes l) = (length l * 16)%nat.
Proof.
  induction l as [|e l IH]; [done|]. rewrite table_cons, length_app, length_entry, IH.
  simpl. lia.
Qed.

Lemma table_bytes_ok l : bytes_ok (table_bytes l).
Proof.
  induction l as [|e l IH]; [constructor|]. rewrite table_cons.
  apply Forall_app; split; [|exact IH]. unfold entry_bytes.
  repeat (apply Forall_app; split); apply le_bytes_ok.
Qed.

Lemma put_entry_splice off e b :
  (off + 16 <= length b)%nat ->
  PutLe32 (off + 12) (entry_flags e) (PutLe32 (off + 8) (payload_crc32c e)
    (PutLe32 (off + 4) (payload_ring_index e) (PutLe32 off (home_block e) b))) =
  splice off (entry_bytes e) b.
Proof.
  intros Hb. unfold PutLe32, entry_bytes.
  rewrite !splice_app by len. rewrite !length_le_bytes. by rewrite <- !Nat.add_assoc.
Qed.

Lemma put_entries_splice off l b :
  (off + length l * 16 <= length b)%nat -> put_entries off l b = splice off (table_bytes l) b.
Proof.
  revert off b. induction l as [|e l IH]; intros off b Hb.
  - unfold splice. simpl. by rewrite Nat.add_0_r, take_drop.
  - cbn [put_entries length] in *. rewrite put_entry_splice by lia.
    rewrite IH by (rewrite length_splice; rewrite ?length_entry; lia).
    rewrite table_cons, splice_app by (rewrite length_entry, length_table; lia).
    by rewrite length_entry.
Qed.

(** Reading entry [i] out of the table. *)
Lemma slice_table l i e :
  l !! i = Some e -> slice (i * 16) 16 (table_bytes l) = entry_bytes e.
Proof.
  revert i. induction l as [|e' l IH]; intros i Hi; [done|]. rewrite table_cons.
  destruct i as [|i]; simpl in Hi.
  - injection Hi as ->. rewrite slice_app_l by (rewrite length_entry; lia).
    rewrite <- (length_entry e). apply slice_all.
  - rewrite slice_app_r by (rewrite length_entry; lia). rewrite length_entry.
    rewrite <- (IH i Hi). f_equal. lia.
Qed.

Lemma get_entry_table b l i e :
  slice 64 (length l * 16) b = table_bytes l -> l !! i = Some e -> entry_typed e ->
  get_entry b i = e.
Proof.
  intros Ht Hi (H1 & H2 & H3 & H4). pose proof (lookup_lt_Some _ _ _ Hi) as Hlt.
  assert (slice (64 + i * 16) 16 b = entry_bytes e) as He.
  { rewrite <- (slice_table l i e Hi), <- Ht, slice_slice by lia. done. }
  assert (forall k, (k + 4 <= 16)%nat ->
    GetLe32 b (64 + i * 16 + k) = get_le 4 (slice k 4 (entry_bytes e))) as Hk.
  { intros k Hk. unfold GetLe32. rewrite <- He, slice_slice by lia. done. }
  assert (slice 0 4 (entry_bytes e) = le_bytes 4 (home_block e) /\
          slice 4 4 (entry_bytes e) = le_bytes 4 (payload_ring_index e) /\
          slice 8 4 (entry_bytes e) = le_bytes 4 (payload_crc32c e) /\
          slice 12 4 (entry_bytes e) = le_bytes 4 (entry_flags e)) as (E1 & E2 & E3 & E4)
    by (by conj_split).
  unfold get_entry. rewrite <- (Nat.add_0_r (64 + i * 16)) at 1.
  rewrite !Hk, E1, E2, E3, E4, !get_le4 by (done || lia). by destruct e.
Qed.

Lemma get_entries_table b l :
  slice 64 (length l * 16) b = table_bytes l -> Forall entry_typed l ->
  map (get_entry b) (seq 0 (length l)) = l.
Proof.
  intros Ht Hty. apply list_eq. intros i. rewrite list_lookup_fmap.
  destruct (l !! i) as [e|] eqn:Hi.
  - pose proof (lookup_lt_Some _ _ _ Hi) as Hlt.
    rewrite lookup_seq_lt by done. simpl. f_equal.
    eapply get_entry_table; [done..|]. by eapply Forall_lookup_1.
  - apply lookup_ge_None in Hi. by rewrite lookup_seq_ge.
Qed.

(** The table rebuilt from entries that were read is the table that was there. *)
Lemma entry_bytes_get b i :
  bytes_ok b -> (64 + i * 16 + 16 <= length b)%nat ->
  entry_bytes (get_entry b i) = slice (64 + i * 16) 16 b.
Proof.
  intros Hok Hl. unfold entry_bytes, get_entry; cbn [home_block payload_ring_index
    payload_crc32c entry_flags]. unfold GetLe32.
  rewrite !le_bytes_get_slice by (done || lia).
  rewrite (slice_add _ 4 12 b), (slice_add _ 4 8 b), (slice_add _ 4 4 b).
  by rewrite <- !Nat.add_assoc.
Qed.

Lemma table_bytes_get b s n :
  bytes_ok b -> (64 + (s + n) * 16 <= length b)%nat ->
  table_bytes (map (get_entry b) (seq s n)) = slice (64 + s * 16) (n * 16) b.
Proof.
  intros Hok. revert s. induction n as [|n IH]; intros s Hl; [done|].
  cbn [seq map]. rewrite table_cons, IH, entry_bytes_get by (done || lia).
  replace (S n * 16)%nat with (16 + n * 16)%nat by lia.
  rewrite slice_add. do 2 f_equal. lia.
Qed.

Definition head_fields (v : DescriptorRecord) : list field :=
  [ Field 0 8 kDescriptorMagic;
    Field 8 4 (le_bytes 4 kJournalFormatVersion);
    Field 12 4 (le_bytes 4 kJournalRecordHeaderSize);
    Field 16 4 (le_bytes 4 (record_type_code kDescriptor));
    Field 20 4 (le_bytes 4 (wrap32 (Z.of_nat (length (entries v)))));
    Field 24 8 (le_bytes 8 (dr_transaction_id v));
    Field 32 16 (dr_filesystem_uuid v);
    Field 48 4 (le_bytes 4 (dr_transaction_block_count v));
    Field 52 4 (le_bytes 4 kJournalRecordHeaderSize);
    Field 56 4 (le_bytes 4 (dr_flags v)) ].

Definition fields (v : DescriptorRecord) : list field :=
  head_fields v ++ [Field 64 (length (entries v) * 16) (table_bytes (entries v))].

Definition few (v : DescriptorRecord) : Prop := (length (entries v) <= 252)%nat.

Lemma BlockLen_bound n : (n <= 252)%nat -> (64 + n * 16 <= BlockLen)%nat.
Proof. pose proof BlockLen_Z. lia. Qed.

Lemma descriptor_fields_layout v : few v -> forall c, layout_ok BlockLen (sealed (fields v) 60 c) = true.
Proof.
  intros Hf c. pose proof (BlockLen_bound _ Hf) as Hb%Nat.leb_le.
  unfold sealed, fields, head_fields. cbn [app layout_ok f_off f_len].
  rewrite Hb. reflexivity.
Qed.

Lemma descriptor_fields_sized v :
  length (dr_filesystem_uuid v) = 16%nat -> Forall field_sized (fields v).
Proof.
  intros Hu. repeat (constructor; [first [exact Hu | apply length_table | reflexivity]|]).
  constructor.
Qed.

Lemma descriptor_base_bytes_ok v :
  bytes_ok (dr_filesystem_uuid v) -> bytes_ok (puts (fields v) zero_block).
Proof.
  intros Hu. apply bytes_ok_puts; [|apply bytes_ok_zeros].
  repeat (constructor; [first [exact Hu | apply le_bytes_ok | apply table_bytes_ok |
    repeat (constructor; [split; vm_compute; congruence|]); constructor]|]).
  constructor.
Qed.

Definition crc (v : DescriptorRecord) : Z := Crc32c (puts (fields v) zero_block).
Definition image (v : DescriptorRecord) : bytes :=
  puts (sealed (fields v) 60 (crc v)) zero_block.

(** What both codec directions require of a descriptor. *)
Definition accepted (v : DescriptorRecord) : Prop :=
  dr_transaction_id v <> 0 /\ dr_flags v = 0 /\
  ValidateDescriptorEntries (entries v) = Ok tt /\
  dr_transaction_block_count v = wrap32 (Z.of_nat (length (entries v)) + 2).

Lemma valid_entries_count l :
  ValidateDescriptorEntries l = Ok tt -> (1 <= length l <= 252)%nat.
Proof.
  unfold ValidateDescriptorEntries. intros H. guards H.
  change kMaxDescriptorEntries with 252 in *. destruct l; [done|]. simpl in *. lia.
Qed.

Lemma descriptor_encode_eq v :
  length (dr_filesystem_uuid v) = 16%nat -> accepted v ->
  EncodeDescriptor v = Ok (image v, crc v).
Proof.
  intros Hu (Hid & Hfl & Hval & Hcnt). unfold image. rewrite <- seal.
  pose proof (proj2 (valid_entries_count _ Hval)) as Hfew.
  assert (crc v = Crc32c (PutLe32 60 0 (puts (fields v) zero_block))) as ->.
  { by rewrite (clear_unsealed BlockLen _ _ (descriptor_fields_layout v Hfew) (descriptor_fields_sized v Hu)). }
  assert (length (puts (head_fields v) zero_block) = BlockLen) as Hh.
  { apply length_puts; [vm_compute; reflexivity| |apply length_replicate].
    exact (proj1 (proj1 (Forall_app _ _ _) (descriptor_fields_sized v Hu))). }
  pose proof (BlockLen_bound _ Hfew) as Hbl.
  unfold EncodeDescriptor.
  rewrite (proj2 (Z.eqb_neq _ _) Hid), Hval, <- Hcnt, Hfl, !Z.eqb_refl. cbn [negb orb].
  rewrite put_entries_splice.
  - unfold ComputeBlockChecksum, kRecordChecksumOffset, fields, head_fields, puts.
    cbn [foldl f_off f_val app]. unfold PutLe32, PutLe64. rewrite Hfl. reflexivity.
  - match goal with |- (_ <= length ?b)%nat => replace (length b) with BlockLen end; [done|].
    transitivity (length (puts (head_fields v) zero_block)); [by rewrite Hh|].
    unfold head_fields, puts. cbn [foldl f_off f_val].
    unfold PutLe32, PutLe64. rewrite Hfl. reflexivity.
Qed.

Lemma descriptor_encode_accepted v b c : EncodeDescriptor v = Ok (b, c) -> accepted v /\ few v.
Proof.
  unfold EncodeDescriptor. intros H. guards H.
  assert (ValidateDescriptorEntries (entries v) = Ok tt) as Hv by (by destruct a).
  split; [by conj_split|]. by apply valid_entries_count.
Qed.

Lemma descriptor_image_wf v : few v -> uuid_typed (dr_filesystem_uuid v) -> block_wf (image v).
Proof.
  intros Hf [Hu Huo]. split.
  - apply length_sealed; [by apply descriptor_fields_layout|by apply descriptor_fields_sized].
  - unfold image. rewrite <- seal. by apply bytes_ok_PutLe32, descriptor_base_bytes_ok.
Qed.

Definition with_descriptor_checksum (v : DescriptorRecord) (c : Z) : DescriptorRecord :=
  mkDescriptor (dr_transaction_id v) (dr_filesystem_uuid v) (dr_transaction_block_count v)
    (dr_flags v) c (entries v).

Lemma descriptor_decode_image v :
  descriptor_typed v -> accepted v ->
  DecodeDescriptor (image v) = Ok (with_descriptor_checksum v (crc v)).
Proof.
  intros (H1 & [Hu Huo] & H2 & H3 & Hent) (Hid & Hfl & Hval & Hcnt).
  pose proof (valid_entries_count _ Hval) as [Hpos Hfew].
  unfold image. set (c := crc v).
  pose proof (descriptor_fields_layout v Hfew c) as Hl. pose proof (descriptor_fields_sized v Hu) as Hsz.
  pose proof (sealed_sized _ 60 Hsz c) as Hs. pose proof (proj1 zero_block_wf) as Hzl.
  assert (u32 c) as Hc by (apply Crc32c_u32, descriptor_base_bytes_ok, Huo).
  set (n := Z.of_nat (length (entries v))) in *.
  assert (u32 (wrap32 n)) as Hn by apply wrap32_u32.
  assert (wrap32 n = n) as Hnw by (apply wrap32_small; unfold n; word).
  pose proof (BlockLen_bound _ Hfew) as Hbl.
  unfold DecodeDescriptor, IsZeroRange, ComputeBlockChecksum, kRecordChecksumOffset.
  rewrite (drop_slice _ (puts _ _)), (length_sealed BlockLen _ _ (descriptor_fields_layout v Hfew) Hsz).
  rewrite (slice_field _ _ _ Hl Hs Hzl 0 8 kDescriptorMagic) by in_fields.
  rewrite (slice_field _ _ _ Hl Hs Hzl 32 16 (dr_filesystem_uuid v)) by in_fields.
  rewrite (sealed_clear BlockLen _ _ (descriptor_fields_layout v Hfew) Hsz). read_fields Hl Hs Hzl.
  fold (crc v). fold c. fold n. rewrite Hnw.
  replace (Z.to_nat n) with (length (entries v)) by (unfold n; lia).
  rewrite (slice_gap _ _ _ Hl Hs Hzl); [|done| |lia].
  2:{ unfold sealed, fields, head_fields. cbn [app clear_of forallb f_off f_len].
      rewrite Nat.leb_refl, !orb_true_r. reflexivity. }
  rewrite get_entries_table; [|by apply (slice_field _ _ _ Hl Hs Hzl); in_fields|done].
  rewrite bool_decide_true, all_zero_zeros, Hfl, Hval, Hcnt, !Z.eqb_refl by done.
  rewrite (proj2 (Z.eqb_neq _ _) Hid).
  rewrite (proj2 (Z.eqb_neq n 0)) by (unfold n; lia).
  rewrite (proj2 (Z.ltb_ge _ n)) by (change kMaxDescriptorEntries with 252; unfold n; lia).
  cbn [negb orb]. unfold with_descriptor_checksum. by rewrite Hfl, Hcnt.
Qed.

Definition gap v : nat * nat :=
  (64 + length (entries v) * 16, BlockLen - (64 + length (entries v) * 16))%nat.
Definition segs v : list (nat * nat) :=
  [(0,8); (8,4); (12,4); (16,4); (20,4); (24,8); (32,16); (48,4); (52,4); (56,4);
   (60,4); (64, length (entries v) * 16); gap v]%nat.

Lemma segs_tile v : few v -> tiles 0 (segs v) BlockLen = true.
Proof.
  intros Hf. pose proof (BlockLen_bound _ Hf) as Hb.
  unfold segs, gap. cbn [tiles]. rewrite !andb_true_iff, !Nat.eqb_eq. conj_split; lia.
Qed.

Lemma gap_clear v c : clear_of (gap v).1 (gap v).2 (sealed (fields v) 60 c) = true.
Proof.
  unfold sealed, fields, head_fields. cbn [app clear_of forallb f_off f_len gap fst snd].
  rewrite Nat.leb_refl, !orb_true_r. reflexivity.
Qed.

Lemma segs_covered v c b :
  few v -> gap_holds b (gap v) -> Forall (covered BlockLen (sealed (fields v) 60 c) b) (segs v).
Proof.
  intros Hf Hg. pose proof (BlockLen_bound _ Hf) as Hb. unfold segs.
  repeat (apply Forall_cons_2; [first
    [ left; eexists; unfold sealed, fields, head_fields, fst, snd; in_fields; fail
    | right; split; [apply gap_clear|split; [unfold gap; cbn [fst snd]; lia|done]]]|]).
  apply Forall_nil_2.
Qed.

Lemma descriptor_encode_decode b v :
  block_wf b -> DecodeDescriptor b = Ok v ->
  descriptor_typed v /\ accepted v /\ b = image v /\ dr_checksum v = crc v.
Proof.
  intros [Hlen Hok] Hd. unfold DecodeDescriptor, IsZeroRange, ComputeBlockChecksum in Hd.
  set (n := Z.to_nat (GetLe32 b 20)) in Hd. set (l := map (get_entry b) (seq 0 n)) in Hd.
  rewrite (drop_slice _ b), Hlen in Hd. set (v0 := mkDescriptor _ _ _ _ _ _) in Hd.
  guards Hd. ok_inv Hd. rename Hg0 into Hcrc. unfold kRecordChecksumOffset in Hcrc.
  assert (length (entries v0) = n) as Hln.
  { change (length (map (get_entry b) (seq 0 n)) = n). by rewrite length_map, length_seq. }
  pose proof (GetLe32_u32 b 20 Hok) as Hcu.
  change kMaxDescriptorEntries with 252 in *.
  assert (Z.of_nat n = GetLe32 b 20) as Hnz by (unfold n; rewrite Z2Nat.id; word).
  assert (few v0) as Hfew by (unfold few; rewrite Hln; lia).
  pose proof (BlockLen_bound _ Hfew) as Hbl. rewrite Hln in Hbl.
  assert (length (slice 32 16 b) = 16%nat) as Hu
    by (apply length_slice; rewrite Hlen; vm_compute; lia).
  assert (wrap32 (Z.of_nat (length (entries v0))) = GetLe32 b 20) as Hcount
    by (rewrite Hln, Hnz; by apply wrap32_small).
  assert (b = puts (sealed (fields v0) 60 (GetLe32 b 60)) zero_block) as Hb.
  { eapply (puts_canonical_segs _ _ (segs v0)).
    - by apply descriptor_fields_layout.
    - apply sealed_sized, descriptor_fields_sized, Hu.
    - exact Hlen.
    - by apply segs_tile.
    - apply segs_covered; [done|]. unfold gap. rewrite Hln.
      apply all_zero_gap; [rewrite Hlen; lia|assumption].
    - unfold sealed, fields, head_fields. cbn [app]. rewrite Hcount, Hln.
      assert (slice 64 (n * 16) b = table_bytes (entries v0)) as Htab.
      { symmetry. apply (table_bytes_get b 0 n); [done|]. rewrite Hlen. lia. }
      solve_holds Hok Hlen. }
  split; [|split; [|split]].
  - unfold descriptor_typed, uuid_typed.
    assert (Forall entry_typed (entries v0)) as Hent.
    { apply Forall_forall. intros e He. apply list_elem_of_In, in_map_iff in He as (i & <- & _).
      unfold entry_typed. solve_typed Hok. }
    solve_typed Hok.
  - unfold accepted. destruct a. rewrite Hln, Hnz. by conj_split.
  - symmetry. apply (sealed_verified BlockLen (fields v0) 60 (descriptor_fields_layout v0 Hfew)
             (descriptor_fields_sized v0 Hu) Crc32c); [assumption|by symmetry].
  - change (dr_checksum v0) with (GetLe32 b 60). rewrite Hcrc. unfold crc. f_equal.
    pose proof (sealed_clear BlockLen _ _ (descriptor_fields_layout v0 Hfew) (descriptor_fields_sized v0 Hu)
                  (GetLe32 b 60)) as Hcl. by rewrite <- Hb in Hcl.
Qed.

End DescriptorCodec.

(** A descriptor block is never taken for a COMMIT. *)
Lemma descriptor_not_commit v :
  length (dr_filesystem_uuid v) = 16%nat -> DescriptorCodec.few v ->
  is_ok (DecodeCommit (DescriptorCodec.image v)) = false.
Proof.
  intros Hu Hf. unfold DecodeCommit, DescriptorCodec.image.
  rewrite (slice_field _ _ _ (DescriptorCodec.descriptor_fields_layout v Hf (DescriptorCodec.crc v))
             (sealed_sized _ _ (DescriptorCodec.descriptor_fields_sized v Hu) _)
             (proj1 zero_block_wf) 0 8 kDescriptorMagic) by in_fields.
  by rewrite bool_decide_false.
Qed.

Module ControlSelection.

(** ** The wrapping generation order *)
Lemma wrap64_sub_cases a b :
  u64 a -> u64 b ->
  wrap64 (a - b) = if b <=? a then a - b else a - b + 18446744073709551616.
Proof.
  intros Ha Hb. unfold wrap64, u64 in *. destruct (Z.leb_spec b a).
  - apply Z.mod_small. lia.
  - rewrite <- (Z.mod_add (a - b) 1) by lia. apply Z.mod_small. lia.
Qed.

Lemma half_range : Z.shiftl 1 63 = 9223372036854775808.
Proof. reflexivity. Qed.

(** The order is antisymmetric: swapping the arguments swaps the verdict. *)
Lemma compare_swap a b :
  u64 a -> u64 b ->
  CompareGenerations b a =
  match CompareGenerations a b with
  | kFirstNewer => kSecondNewer | kSecondNewer => kFirstNewer | r => r
  end.
Proof.
  intros Ha Hb. unfold CompareGenerations. rewrite half_range.
  rewrite !wrap64_sub_cases by done. rewrite (Z.eqb_sym b a).
  unfold u64 in *.
  destruct (Z.eqb_spec a b); [done|].
  destruct (Z.leb_spec a b), (Z.leb_spec b a); try lia;
    repeat match goal with
    | |- context [?x =? ?y] => destruct (Z.eqb_spec x y); try lia
    | |- context [?x <? ?y] => destruct (Z.ltb_spec x y); try lia
    end; done.
Qed.

(** Any generation reached by fewer than half the range of increments is newer,
    through the wrap-around of the 64-bit counter. *)
Lemma compare_ahead g k :
  u64 g -> 0 < k < 9223372036854775808 ->
  CompareGenerations (wrap64 (g + k)) g = kFirstNewer.
Proof.
  intros Hg Hk. unfold CompareGenerations. rewrite half_range.
  assert (wrap64 (wrap64 (g + k) - g) = k) as Hd.
  { unfold wrap64, u64 in *. rewrite Zminus_mod_idemp_l.
    replace (g + k - g) with k by lia. apply Z.mod_small. lia. }
  rewrite Hd. destruct (Z.eqb_spec (wrap64 (g + k)) g) as [He|He].
  - rewrite He, Z.sub_diag in Hd. change (wrap64 0) with 0 in Hd. lia.
  - rewrite (proj2 (Z.eqb_neq k _)) by lia. by rewrite (proj2 (Z.ltb_lt k _)) by lia.
Qed.

Lemma compare_succ g : u64 g -> CompareGenerations (wrap64 (g + 1)) g = kFirstNewer.
Proof. intros. apply compare_ahead; [done|lia]. Qed.

Lemma compare_succ_r g : u64 g -> CompareGenerations g (wrap64 (g + 1)) = kSecondNewer.
Proof.
  intros Hg. rewrite compare_swap by (done || apply wrap64_u64). by rewrite compare_succ.
Qed.

(** ** Selection *)
Definition other (c : ControlCopy) : ControlCopy :=
  match c with kA => kB | kB => kA end.

(** The pair of control blocks as a function of the copy. *)
Definition select (blocks : ControlCopy -> bytes) (uuid : bytes) (n : Z) :=
  SelectControl (blocks kA) (blocks kB) uuid n.

Definition set_copy (blocks : ControlCopy -> bytes) (c : ControlCopy) (b : bytes) :
    ControlCopy -> bytes :=
  fun c' => match c, c' with kA, kA | kB, kB => b | _, _ => blocks c' end.

Definition matches (v : JournalControl) (uuid : bytes) (n : Z) : bool :=
  bool_decide (jc_filesystem_uuid v = uuid) && (ring_blocks v =? n).

Ltac case_decode := repeat match goal with
  | H : context [match DecodeControl ?b with _ => _ end] |- _ =>
      let E := fresh "E" in destruct (DecodeControl b) eqn:E
  | H : context [if ?c then _ else _] |- _ => let E := fresh "E" in destruct c eqn:E
  | H : context [match CompareGenerations ?x ?y with _ => _ end] |- _ =>
      let E := fresh "E" in destruct (CompareGenerations x y) eqn:E
  end.

(** What is selected is a copy that decodes and belongs to this image. *)
Lemma select_sound blocks uuid n v c :
  select blocks uuid n = Ok (v, c) ->
  DecodeControl (blocks c) = Ok v /\ matches v uuid n = true /\
  kMinimumJournalRingBlocks <= n.
Proof.
  unfold select, SelectControl, matches. intros H. case_decode; try discriminate H;
    injection H as <- <-; (split; [assumption|split; [assumption|]]); by apply Z.ltb_ge.
Qed.

(** Damaging the copy that is not selected does not change the selection. *)
Lemma select_other_invalid blocks uuid n v c b :
  select blocks uuid n = Ok (v, c) -> is_ok (DecodeControl b) = false ->
  select (set_copy blocks (other c) b) uuid n = Ok (v, c).
Proof.
  intros Hs Hb. pose proof (select_sound _ _ _ _ _ Hs) as (Hd & Hm & Hn).
  unfold select, SelectControl, matches, set_copy in *.
  rewrite (proj2 (Z.ltb_ge _ _) Hn).
  destruct (DecodeControl b) as [x|e] eqn:Eb; [discriminate Hb|].
  destruct c; cbn [other];
    rewrite Hd, Hm, Eb; done.
Qed.

(** A valid exact successor in the other copy becomes the selection. *)
Lemma select_successor blocks uuid n v c b v' :
  select blocks uuid n = Ok (v, c) -> u64 (jc_generation v) ->
  DecodeControl b = Ok v' -> matches v' uuid n = true ->
  jc_generation v' = wrap64 (jc_generation v + 1) ->
  select (set_copy blocks (other c) b) uuid n = Ok (v', other c).
Proof.
  intros Hs Hu Hb Hm' Hg. pose proof (select_sound _ _ _ _ _ Hs) as (Hd & Hm & Hn).
  unfold select, SelectControl, matches, set_copy in *.
  rewrite (proj2 (Z.ltb_ge _ _) Hn).
  destruct c; cbn [other];
    rewrite Hd, Hm, Hb, Hm', Hg.
  - by rewrite compare_succ_r.
  - by rewrite compare_succ.
Qed.

End ControlSelection.
