(* ===== verification/RingReservation.v ===== *)
(** Reservation of ring positions for one transaction
    (src/journal/ring_reservation.h, src/journal/ring_reservation.cpp). *)
From S2P Require Import Prelude Codec OndiskFormat OndiskJournal OndiskJournalProofs.
Open Scope Z_scope.

Record RingReservationPlan := mkReservation {
  rr_transaction_id : Z;
  descriptor_ring_index : Z;
  payload_ring_indices : list Z;
  commit_ring_index : Z;
  exposed_control : JournalControl
}.

Definition Advance (start distance ring : Z) : Z := wrap32 (wrap64 (start + distance) mod ring).

Definition uint64_max : Z := 18446744073709551615.

(** The control that exposes the reserved range. *)
Definition expose (current : JournalControl) (transaction_blocks : Z) : JournalControl :=
  mkControl (ring_blocks current) (jc_filesystem_uuid current)
    (wrap64 (jc_generation current + 1))
    (Advance (head current) transaction_blocks (ring_blocks current))
    (tail current) (wrap32 transaction_blocks) (state_flags current)
    (wrap64 (next_transaction_id current + 1)) (jc_feature_compat current)
    (jc_feature_ro_compat current) (jc_feature_incompat current) 0.

Definition PlanRingReservation (current : JournalControl) (metadata_payload_count : nat)
    : result errno RingReservationPlan :=
  match EncodeControl current with
  | Err _ => Err EINVAL
  | Ok _ =>
  let count := Z.of_nat metadata_payload_count in
  if negb (used_blocks current =? 0) then Err EBUSY
  else if count =? 0 then Err EINVAL
  else if kMaxDescriptorEntries <? count then Err E2BIG
  else
  let transaction_blocks := count + 2 in
  if ring_blocks current <? transaction_blocks then Err ENOSPC
  else if next_transaction_id current =? uint64_max then Err EOVERFLOW
  else
  let candidate := mkReservation (next_transaction_id current) (head current)
    (map (fun index => Advance (head current) (Z.of_nat index + 1) (ring_blocks current))
         (seq 0 metadata_payload_count))
    (Advance (head current) (count + 1) (ring_blocks current))
    (expose current transaction_blocks) in
  match EncodeControl (exposed_control candidate) with
  | Err _ => Err EINVAL
  | Ok _ => Ok candidate
  end
  end.

(** * Properties *)
Lemma encode_control_ok v : is_ok (EncodeControl v) = true <-> ValidateControlFields v = Ok tt.
Proof.
  unfold EncodeControl. destruct (ValidateControlFields v) as [[]|]; simpl; split; done.
Qed.

(** A control accepted by the validator, spelled out. *)
Lemma validate_control_spec v :
  ValidateControlFields v = Ok tt <->
  kMinimumJournalRingBlocks <= ring_blocks v /\ head v < ring_blocks v /\
  tail v < ring_blocks v /\ used_blocks v <= ring_blocks v /\
  (used_blocks v = 0 \/ kMinimumJournalRingBlocks <= used_blocks v) /\
  next_transaction_id v <> 0 /\
  head v = (tail v + used_blocks v) mod ring_blocks v /\
  state_flags v = 0 /\ jc_feature_compat v = 0 /\ jc_feature_ro_compat v = 0 /\
  jc_feature_incompat v = 0.
Proof.
  unfold ValidateControlFields, kMinimumJournalRingBlocks.
  destruct (Z.ltb_spec (ring_blocks v) 3); cbn [orb]; [split; [done|lia]|].
  destruct (Z.leb_spec (ring_blocks v) (head v)); cbn [orb]; [split; [done|lia]|].
  destruct (Z.leb_spec (ring_blocks v) (tail v)); cbn [orb]; [split; [done|lia]|].
  destruct (Z.ltb_spec (ring_blocks v) (used_blocks v)); cbn [orb]; [split; [done|lia]|].
  destruct (Z.eqb_spec (used_blocks v) 0); cbn [negb andb orb].
  all: destruct (Z.ltb_spec (used_blocks v) 3); cbn [andb orb];
    try (split; [done|lia]); destruct (Z.eqb_spec (next_transaction_id v) 0); try (split; [done|lia]).
  all: destruct (Z.eqb_spec (head v) ((tail v + used_blocks v) mod ring_blocks v));
    cbn [negb]; try (split; [done|tauto]).
  all: destruct (Z.eqb_spec (state_flags v) 0), (Z.eqb_spec (jc_feature_compat v) 0),
    (Z.eqb_spec (jc_feature_ro_compat v) 0), (Z.eqb_spec (jc_feature_incompat v) 0);
    cbn [negb orb]; split; try done; try tauto; intros; conj_split; try done; tauto.
Qed.

Section reservation.
Context (current : JournalControl) (Htyped : control_typed current).

Lemma Advance_mod start k ring :
  u32 start -> u32 ring -> 0 < ring -> 0 <= k <= ring ->
  Advance start k ring = (start + k) mod ring.
Proof.
  intros Hs Hr Hpos Hk. unfold Advance. rewrite wrap64_small by word.
  apply wrap32_small. pose proof (Z.mod_pos_bound (start + k) ring). word.
Qed.

(** Ring position number [i] of the transaction that starts at the head. *)
Definition ring_position (i : nat) : Z := (head current + Z.of_nat i) mod ring_blocks current.

(** What a successful reservation guarantees. *)
Lemma plan_inv n plan :
  PlanRingReservation current n = Ok plan ->
  ValidateControlFields current = Ok tt /\ used_blocks current = 0 /\
  (1 <= n <= 252)%nat /\ Z.of_nat n + 2 <= ring_blocks current /\
  next_transaction_id current < uint64_max /\
  rr_transaction_id plan = next_transaction_id current /\
  descriptor_ring_index plan = ring_position 0 /\
  payload_ring_indices plan = map ring_position (seq 1 n) /\
  commit_ring_index plan = ring_position (n + 1) /\
  exposed_control plan = expose current (Z.of_nat n + 2) /\
  ValidateControlFields (exposed_control plan) = Ok tt.
Proof.
  destruct Htyped as (Hr & _ & _ & Hh & _ & _ & _ & Hnext & _).
  intros H. unfold PlanRingReservation in H.
  destruct (EncodeControl current) eqn:Ec; [|done].
  assert (ValidateControlFields current = Ok tt) as Hv by (apply encode_control_ok; by rewrite Ec).
  pose proof (proj1 (validate_control_spec _) Hv) as (Hring & Hhead & _).
  unfold kMinimumJournalRingBlocks in Hring.
  guards H. ok_inv H. cbn [rr_transaction_id descriptor_ring_index payload_ring_indices
    commit_ring_index exposed_control] in *.
  change kMaxDescriptorEntries with 252 in *. unfold uint64_max in *.
  assert (forall k, 0 <= k <= ring_blocks current ->
    Advance (head current) k (ring_blocks current) =
    (head current + k) mod ring_blocks current) as Hadv
    by (intros; apply Advance_mod; (done || lia)).
  conj_split; try done; try lia; try word.
  - unfold ring_position. rewrite Z.add_0_r, Z.mod_small; [done|word].
  - rewrite <- seq_shift, map_map. apply map_ext_in. intros i Hi%in_seq.
    rewrite Hadv by lia. unfold ring_position. do 2 f_equal. lia.
  - rewrite Hadv by lia. unfold ring_position. do 2 f_equal. lia.
  - apply encode_control_ok. by rewrite Hg4.
Qed.

Lemma ring_position_bound i :
  0 < ring_blocks current -> 0 <= ring_position i < ring_blocks current.
Proof. intros. by apply Z.mod_pos_bound. Qed.

Lemma ring_position_inj i j :
  Z.of_nat i < ring_blocks current -> Z.of_nat j < ring_blocks current ->
  ring_position i = ring_position j -> i = j.
Proof.
  unfold ring_position. intros Hi Hj He.
  pose proof (Z.div_mod (head current + Z.of_nat i) (ring_blocks current)) as D1.
  pose proof (Z.div_mod (head current + Z.of_nat j) (ring_blocks current)) as D2.
  rewrite He in D1. apply Nat2Z.inj.
  set (q1 := (head current + Z.of_nat i) / _) in *.
  set (q2 := (head current + Z.of_nat j) / _) in *.
  assert (ring_blocks current * (q1 - q2) = Z.of_nat i - Z.of_nat j) by lia.
  assert (q1 - q2 = 0) by nia. lia.
Qed.

Lemma expose_typed n : control_typed (expose current n).
Proof.
  destruct Htyped as (H1 & H2 & H3 & H4 & H5 & H6 & H7 & H8 & H9 & H10 & H11).
  unfold expose, control_typed. cbn -[u32 u64 Advance wrap32 wrap64].
  conj_split; try done; first [apply wrap64_u64 | apply wrap32_u32].
Qed.

Lemma expose_valid n :
  ValidateControlFields current = Ok tt -> used_blocks current = 0 ->
  (1 <= n)%nat -> Z.of_nat n + 2 <= ring_blocks current ->
  next_transaction_id current < uint64_max ->
  ValidateControlFields (expose current (Z.of_nat n + 2)) = Ok tt.
Proof.
  intros Hv Hu Hn Hfit Hmax.
  apply validate_control_spec in Hv as (H1 & H2 & H3 & _ & _ & H6 & H7 & H8).
  destruct Htyped as (Hr & _ & _ & Hh & Ht & _ & _ & Hx & _).
  unfold kMinimumJournalRingBlocks, uint64_max in *.
  rewrite Hu, Z.add_0_r, Z.mod_small in H7 by word.
  apply validate_control_spec. unfold expose, kMinimumJournalRingBlocks. cbn -[Advance wrap32 wrap64].
  rewrite Advance_mod, (wrap32_small (_ + 2)), wrap64_small by word.
  pose proof (Z.mod_pos_bound (head current + (Z.of_nat n + 2)) (ring_blocks current)).
  rewrite <- H7. conj_split; try tauto; word.
Qed.

Lemma plan_complete n :
  ValidateControlFields current = Ok tt -> used_blocks current = 0 ->
  (1 <= n <= 252)%nat -> Z.of_nat n + 2 <= ring_blocks current ->
  next_transaction_id current < uint64_max ->
  is_ok (PlanRingReservation current n) = true.
Proof.
  intros Hv Hu Hn Hfit Hmax. unfold PlanRingReservation.
  destruct (EncodeControl current) eqn:Ec;
    [|pose proof (proj2 (encode_control_ok current) Hv) as E; by rewrite Ec in E].
  rewrite Hu. change kMaxDescriptorEntries with 252. cbn [Z.eqb negb].
  rewrite (proj2 (Z.eqb_neq _ _)), (proj2 (Z.ltb_ge _ _)), (proj2 (Z.ltb_ge _ _)),
    (proj2 (Z.eqb_neq _ _)) by lia.
  cbn [exposed_control].
  destruct (EncodeControl (expose _ _)) eqn:Ee; [done|].
  pose proof (proj2 (encode_control_ok _) (expose_valid n Hv Hu (proj1 Hn) Hfit Hmax)) as E.
  by rewrite Ee in E.
Qed.
End reservation.
