(* ===== verification/Disk.v ===== *)
(** The image file and the system calls on it.

    The file is a finite map from block numbers to 4 KiB blocks: every transfer
    of the journal code is one whole block at a block-aligned offset. System
    calls answer from a finite script of responses (short transfers, EINTR,
    errors); once the script is used up every call succeeds in full. Writes and
    completed [fdatasync] calls are recorded in a trace, from which the possible
    contents of the file after a crash are derived.

    [PreadAll], [PwriteAll]: src/journal/journal_control_store.cpp and the same
    helpers in src/journal/journal_recovery.cpp. *)
From S2P Require Import Prelude OndiskFormat.
Open Scope Z_scope.

Abbreviation image := (gmap Z bytes).

(** The durability boundaries of src/journal/journal_control_store.h. *)
Inductive DurableStage :=
| kOrderedData | kJournalBody | kControlExposure | kCommit | kHomeBlocks | kCheckpoint.
#[global] Instance DurableStage_eq_dec : EqDecision DurableStage.
Proof. solve_decision. Defined.

(** The answer of one system call: a return value, or -1 with an errno. *)
Inductive sysret := SysRet (n : Z) | SysErr (e : errno).

Inductive event :=
| EWrite (block : Z) (content : bytes)   (* a block completely handed to pwrite *)
| EPartial (block : Z)                   (* a block write that failed on the way *)
| ESync                                  (* fdatasync returned 0 *)
| EStage (stage : DurableStage).         (* the stage observer was called *)

Record env := mkEnv {
  disk : image;
  st_size : Z;
  responses : list sysret;
  trace : list event
}.

Definition set_disk (e : env) (d : image) : env := mkEnv d (st_size e) (responses e) (trace e).
Definition set_responses (e : env) (r : list sysret) : env :=
  mkEnv (disk e) (st_size e) r (trace e).
Definition log_event (e : env) (ev : event) : env :=
  mkEnv (disk e) (st_size e) (responses e) (trace e ++ [ev]).

(** * Transfer loops *)
(** The read loop; [completed] counts the bytes already received. *)
Fixpoint pread_loop (size completed : Z) (script : list sysret)
    : list sysret * result errno unit :=
  if size <=? completed then (script, Ok tt)
  else match script with
  | [] => ([], Ok tt)
  | SysErr EINTR :: rest => pread_loop size completed rest
  | SysErr e :: rest => (rest, Err e)
  | SysRet n :: rest =>
      if n <=? 0 then (rest, Err EIO) else pread_loop size (completed + n) rest
  end.

(** The write loop; returns the number of bytes handed over. *)
Fixpoint pwrite_loop (size completed : Z) (script : list sysret)
    : list sysret * Z * result errno unit :=
  if size <=? completed then (script, completed, Ok tt)
  else match script with
  | [] => ([], size, Ok tt)
  | SysErr EINTR :: rest => pwrite_loop size completed rest
  | SysErr e :: rest => (rest, completed, Err e)
  | SysRet n :: rest =>
      if n <=? 0 then (rest, completed, Err EIO)
      else if size - completed <? n then (rest, completed, Err EIO)
      else pwrite_loop size (completed + n) rest
  end.

Definition io (A : Type) : Type := env -> env * result errno A.

Definition io_bind {A B} (m : io A) (k : A -> io B) : io B := fun e =>
  let '(e', r) := m e in match r with Ok a => k a e' | Err er => (e', Err er) end.
Definition io_fail {A} (er : errno) : io A := fun e => (e, Err er).
Definition io_ret {A} (a : A) : io A := fun e => (e, Ok a).

(** A block at byte offset [offset]; reading at or past the end of the file
    makes [pread] return 0, which is reported as EIO. *)
Definition PreadAll (offset : Z) : io bytes := fun e =>
  let '(rest, r) := pread_loop kBlockSize 0 (responses e) in
  match r with
  | Err er => (set_responses e rest, Err er)
  | Ok _ =>
    match disk e !! (offset / kBlockSize) with
    | Some b => (set_responses e rest, Ok b)
    | None => (set_responses e rest, Err EIO)
    end
  end.

(** A failed write leaves a prefix of the new bytes in front of the old ones. *)
Definition PwriteAll (input : bytes) (offset : Z) : io unit := fun e =>
  let block := offset / kBlockSize in
  let old := default zero_block (disk e !! block) in
  let '(rest, completed, r) := pwrite_loop (Z.of_nat (length input)) 0 (responses e) in
  let e := set_responses e rest in
  match r with
  | Ok _ => (log_event (set_disk e (<[block := input]> (disk e))) (EWrite block input), Ok tt)
  | Err er =>
      let mixed := take (Z.to_nat completed) input ++ drop (Z.to_nat completed) old in
      (log_event (set_disk e (<[block := mixed]> (disk e))) (EPartial block), Err er)
  end.

(** A call that answers with an error number or succeeds ([fstat], [fcntl]). *)
Definition Syscall : io unit := fun e =>
  match responses e with
  | SysErr er :: rest => (set_responses e rest, Err er)
  | _ :: rest => (set_responses e rest, Ok tt)
  | [] => (e, Ok tt)
  end.

(** [fdatasync]: a nonzero return without errno is reported as EIO. *)
Definition Fdatasync : io unit := fun e =>
  match responses e with
  | SysErr er :: rest => (set_responses e rest, Err er)
  | SysRet n :: rest =>
      if n =? 0 then (log_event (set_responses e rest) ESync, Ok tt)
      else (set_responses e rest, Err EIO)
  | [] => (log_event e ESync, Ok tt)
  end.

Definition OnDurableStage (s : DurableStage) : io unit := fun e => (log_event e (EStage s), Ok tt).

(** * The mounted session (src/storage/mounted_image_session.cpp) *)
(** [flock(LOCK_EX | LOCK_NB)]: a held lock is reported as EBUSY ([EWOULDBLOCK] is 11). *)
Definition Flock : io unit := fun e =>
  match Syscall e with
  | (e', Err (EOTHER 11)) => (e', Err EBUSY)
  | r => r
  end.

(** [open(O_RDWR)] and the exclusive lock, held for the life of the session. *)
Definition SessionOpen : io unit := io_bind Syscall (fun _ => Flock).

(** [fcntl(F_DUPFD_CLOEXEC)]: a descriptor that shares the lock. *)
Definition DuplicateFd : io unit := Syscall.
