(* ===== verification/JournalStore.v ===== *)
(** The journal control store: opening an image, and the four steps of an
    online transaction (src/journal/journal_control_store.h/.cpp), composed by
    [ExecuteJournalTransaction] (src/journal/journal_transaction_executor.cpp).
    Diagnostic texts are not modelled here; error numbers are. *)
From S2P Require Import Prelude Codec Crc32c OndiskFormat OndiskJournal RingReservation Disk.
Open Scope Z_scope.

Record DurableJournalBody := mkBody {
  reservation : RingReservationPlan;
  body_entry_count : Z;
  descriptor_crc32c : Z
}.

Record ValidatedTransaction := mkValidated {
  vt_transaction_id : Z;
  vt_descriptor_ring_index : Z;
  vt_commit_ring_index : Z;
  vt_metadata_after_images : image
}.

Record JournalControlStore := mkStore {
  superblock_ : Superblock;
  current_ : JournalControl;
  current_copy_ : ControlCopy;
  durable_body_ : option DurableJournalBody;
  metadata_after_images_ : image;
  validated_transaction_ : option ValidatedTransaction;
  commit_durable_ : bool;
  checkpointed_ : bool;
  reload_required_ : bool
}.

(** * The store's state and error monad: effects survive an error return *)
Definition M (A : Type) : Type :=
  JournalControlStore * env -> (JournalControlStore * env) * result errno A.

Definition ret {A} (a : A) : M A := fun s => (s, Ok a).
Definition fail {A} (e : errno) : M A := fun s => (s, Err e).
Definition bind {A B} (m : M A) (k : A -> M B) : M B := fun s =>
  let '(s', r) := m s in
  match r with Ok a => k a s' | Err e => (s', Err e) end.
Definition get : M JournalControlStore := fun s => (s, Ok (fst s)).
Definition modify (f : JournalControlStore -> JournalControlStore) : M unit :=
  fun s => ((f (fst s), snd s), Ok tt).
Definition lift {A} (m : io A) : M A := fun s =>
  let '(e', r) := m (snd s) in ((fst s, e'), r).
Definition of_result {A} (r : result errno A) : M A := fun s => (s, r).

Declare Scope store_scope.
Delimit Scope store_scope with store.
Notation "x <- m ;; k" := (bind m (fun x => k))
  (at level 100, m at next level, right associativity) : store_scope.
Notation "m ;; k" := (bind m (fun _ => k)) (at level 100, right associativity) : store_scope.
Open Scope store_scope.

Definition check (bad : bool) (e : errno) : M unit := if bad then fail e else ret tt.

Fixpoint for_each {A} (f : A -> M unit) (l : list A) : M unit :=
  match l with
  | [] => ret tt
  | x :: rest => f x ;; for_each f rest
  end.

Definition set_reload (s : JournalControlStore) : JournalControlStore :=
  mkStore (superblock_ s) (current_ s) (current_copy_ s) (durable_body_ s)
    (metadata_after_images_ s) (validated_transaction_ s) (commit_durable_ s)
    (checkpointed_ s) true.
Definition set_current (s : JournalControlStore) (c : JournalControl) (k : ControlCopy) :=
  mkStore (superblock_ s) c k (durable_body_ s) (metadata_after_images_ s)
    (validated_transaction_ s) (commit_durable_ s) (checkpointed_ s) (reload_required_ s).
Definition set_body (s : JournalControlStore) (b : DurableJournalBody) (m : image) :=
  mkStore (superblock_ s) (current_ s) (current_copy_ s) (Some b) m
    (validated_transaction_ s) (commit_durable_ s) (checkpointed_ s) (reload_required_ s).
Definition set_validated (s : JournalControlStore) (v : option ValidatedTransaction) :=
  mkStore (superblock_ s) (current_ s) (current_copy_ s) (durable_body_ s)
    (metadata_after_images_ s) v (commit_durable_ s) (checkpointed_ s) (reload_required_ s).
Definition set_commit_durable (s : JournalControlStore) :=
  mkStore (superblock_ s) (current_ s) (current_copy_ s) (durable_body_ s)
    (metadata_after_images_ s) (validated_transaction_ s) true (checkpointed_ s)
    (reload_required_ s).
Definition set_checkpointed (s : JournalControlStore) :=
  mkStore (superblock_ s) (current_ s) (current_copy_ s) (durable_body_ s)
    (metadata_after_images_ s) (validated_transaction_ s) (commit_durable_ s) true
    (reload_required_ s).

(** [if (result != 0) { reload_required_ = true; return result; }] *)
Definition latch {A} (m : M A) : M A := fun s =>
  let '(s', r) := m s in
  match r with
  | Ok a => (s', Ok a)
  | Err e => ((set_reload (fst s'), snd s'), Err e)
  end.

(** * Comparisons *)
Definition HasSameIdentity (first second : JournalControl) : bool :=
  (ring_blocks first =? ring_blocks second) &&
  bool_decide (jc_filesystem_uuid first = jc_filesystem_uuid second) &&
  (state_flags first =? state_flags second) &&
  (jc_feature_compat first =? jc_feature_compat second) &&
  (jc_feature_ro_compat first =? jc_feature_ro_compat second) &&
  (jc_feature_incompat first =? jc_feature_incompat second).

Definition SameControlState (first second : JournalControl) : bool :=
  HasSameIdentity first second &&
  bool_decide (jc_filesystem_uuid first = jc_filesystem_uuid second) &&
  (jc_generation first =? jc_generation second) && (head first =? head second) &&
  (tail first =? tail second) && (used_blocks first =? used_blocks second) &&
  (next_transaction_id first =? next_transaction_id second).

Definition SameReservation (first second : RingReservationPlan) : bool :=
  (rr_transaction_id first =? rr_transaction_id second) &&
  (descriptor_ring_index first =? descriptor_ring_index second) &&
  bool_decide (payload_ring_indices first = payload_ring_indices second) &&
  (commit_ring_index first =? commit_ring_index second) &&
  SameControlState (exposed_control first) (exposed_control second).

Definition BlockIsInRegion (block : Z) (region : Region) : bool :=
  (start_block region <=? block) && (block <? start_block region + block_count region).

Definition IsValidMetadataTarget (sb : Superblock) (block : Z) : bool :=
  negb (block =? 0) && (block <? total_blocks sb) &&
  negb (BlockIsInRegion block (journal sb)).

(** The byte offset of ring position [ring_index]. *)
Definition RingOffset (sb : Superblock) (ring_index : Z) : option Z :=
  let ring := wrap32 (block_count (journal sb) - kJournalControlBlockCount) in
  if ring <=? ring_index then None
  else
  let physical_block := start_block (journal sb) + kJournalControlBlockCount + ring_index in
  let journal_end := start_block (journal sb) + block_count (journal sb) in
  if (journal_end <=? physical_block) || (total_blocks sb <=? physical_block) then None
  else Some (physical_block * kBlockSize).

(** * Opening *)
Definition LoadControlStateFromFd : io (Superblock * JournalControl * ControlCopy) :=
  io_bind Syscall (fun _ e =>
  let size := st_size e in
  if (size <? kBlockSize) || negb (size mod kBlockSize =? 0) then io_fail EUCLEAN e
  else io_bind (PreadAll 0) (fun superblock_bytes =>
  match DecodeSuperblock superblock_bytes with
  | Err _ => io_fail EUCLEAN
  | Ok superblock =>
    if negb (Z.land (sb_feature_incompat superblock)
               (Z.lnot kSupportedFeatureIncompat) =? 0) then io_fail EOPNOTSUPP
    else if negb (total_blocks superblock * kBlockSize =? size) then io_fail EUCLEAN
    else
    let control_a_offset := start_block (journal superblock) * kBlockSize in
    io_bind (PreadAll control_a_offset) (fun control_a =>
    io_bind (PreadAll (control_a_offset + kBlockSize)) (fun control_b =>
    let expected_ring_blocks :=
      wrap32 (block_count (journal superblock) - kJournalControlBlockCount) in
    match SelectControl control_a control_b (sb_filesystem_uuid superblock)
            expected_ring_blocks with
    | Err _ => io_fail EUCLEAN
    | Ok (current, copy) => io_ret (superblock, current, copy)
    end))
  end) e).

Definition new_store (sb : Superblock) (current : JournalControl) (copy : ControlCopy) :=
  mkStore sb current copy None ∅ None false false false.

(** Takes over a descriptor that is already open and locked; [writable] is the
    access mode [fcntl(F_GETFL)] reports. *)
Definition AdoptLockedFd (writable : bool) : io JournalControlStore :=
  io_bind Syscall (fun _ =>
  if negb writable then io_fail EACCES
  else io_bind LoadControlStateFromFd (fun '(sb, current, copy) =>
       io_ret (new_store sb current copy))).

Definition Open : io JournalControlStore :=
  io_bind Syscall (fun _ =>
  io_bind Flock (fun _ =>
  io_bind LoadControlStateFromFd (fun '(sb, current, copy) =>
  io_ret (new_store sb current copy)))).

(** * Publishing a control *)
(** Writes [next] into the copy that is not current and syncs it; only then
    does the in-memory control advance. *)
Definition PersistNext (next : JournalControl) : M unit :=
  s <- get ;;
  check (reload_required_ s) EIO ;;
  check (negb (HasSameIdentity (current_ s) next) ||
         negb (bool_decide (jc_filesystem_uuid next = sb_filesystem_uuid (superblock_ s))) ||
         negb (ring_blocks next =?
               wrap32 (block_count (journal (superblock_ s)) - kJournalControlBlockCount)))
        EINVAL ;;
  check (negb (jc_generation next =? wrap64 (jc_generation (current_ s) + 1))) EINVAL ;;
  match EncodeControl next with
  | Err _ => fail EINVAL
  | Ok (encoded, checksum) =>
    let target_copy := match current_copy_ s with kA => kB | kB => kA end in
    let relative_block := match target_copy with kA => 0 | kB => 1 end in
    let target_offset :=
      wrap32 (start_block (journal (superblock_ s)) + relative_block) * kBlockSize in
    latch (lift (PwriteAll encoded target_offset)) ;;
    latch (lift Fdatasync) ;;
    modify (fun s => set_current s
      (mkControl (ring_blocks next) (jc_filesystem_uuid next) (jc_generation next)
         (head next) (tail next) (used_blocks next) (state_flags next)
         (next_transaction_id next) (jc_feature_compat next) (jc_feature_ro_compat next)
         (jc_feature_incompat next) checksum) target_copy)
  end.

(** The successor control that releases the exposed range. *)
Definition clean_control (c : JournalControl) : JournalControl :=
  mkControl (ring_blocks c) (jc_filesystem_uuid c) (wrap64 (jc_generation c + 1))
    (head c) (head c) 0 (state_flags c) (next_transaction_id c) (jc_feature_compat c)
    (jc_feature_ro_compat c) (jc_feature_incompat c) 0.

(** * Step 1: ordered data and the unexposed journal body *)
(** The loop that builds the descriptor entries, in key order. *)
Fixpoint build_entries (sb : Superblock) (l : list (Z * bytes)) (positions : list Z)
    : option (list DescriptorEntry) :=
  match l with
  | [] => Some []
  | (home, payload) :: rest =>
    if IsValidMetadataTarget sb home then
      match build_entries sb rest (List.tl positions) with
      | Some more => Some (mkEntry home (List.hd 0 positions) (Crc32c payload) 0 :: more)
      | None => None
      end
    else None
  end.

(** The loop that writes the payload blocks to their ring positions. *)
Fixpoint write_payloads (sb : Superblock) (l : list (Z * bytes)) (positions : list Z) : M unit :=
  match l with
  | [] => ret tt
  | (_, payload) :: rest =>
    match RingOffset sb (List.hd 0 positions) with
    | None => latch (fail EINVAL)
    | Some payload_offset => latch (lift (PwriteAll payload payload_offset))
    end ;;
    write_payloads sb rest (List.tl positions)
  end.

Definition WriteUnexposedBody (rsv : RingReservationPlan) (metadata : image)
    : M DurableJournalBody :=
  s <- get ;;
  check (reload_required_ s) EIO ;;
  check (negb (used_blocks (current_ s) =? 0) ||
         bool_decide (is_Some (durable_body_ s))) EBUSY ;;
  expected <- of_result (PlanRingReservation (current_ s) (size metadata)) ;;
  check (negb (SameReservation rsv expected)) ESTALE ;;
  match build_entries (superblock_ s) (sorted_entries metadata) (payload_ring_indices rsv) with
  | None => fail EINVAL
  | Some ents =>
    let descriptor := mkDescriptor (rr_transaction_id rsv)
      (sb_filesystem_uuid (superblock_ s)) (wrap32 (Z.of_nat (size metadata) + 2)) 0 0 ents in
    match EncodeDescriptor descriptor with
    | Err _ => fail EINVAL
    | Ok (descriptor_bytes, descriptor_checksum) =>
      match RingOffset (superblock_ s) (descriptor_ring_index rsv) with
      | None => fail EINVAL
      | Some descriptor_offset =>
        latch (lift (PwriteAll descriptor_bytes descriptor_offset)) ;;
        write_payloads (superblock_ s) (sorted_entries metadata) (payload_ring_indices rsv) ;;
        latch (lift Fdatasync) ;;
        lift (OnDurableStage kJournalBody) ;;
        let candidate := mkBody rsv (wrap32 (Z.of_nat (size metadata))) descriptor_checksum in
        modify (fun s => set_body s candidate metadata) ;;
        ret candidate
      end
    end
  end.

(** The loop that compares every before-image with the home block. *)
Definition verify_before (sb : Superblock) (p : Z * bytes) : M unit :=
  check (total_blocks sb <=? fst p) EINVAL ;;
  current <- lift (PreadAll (fst p * kBlockSize)) ;;
  check (negb (bool_decide (current = snd p))) ESTALE.

Definition WriteOrderedDataAndUnexposedBody (expected_total_blocks : Z)
    (expected_filesystem_uuid : bytes) (before ordered metadata : image)
    : M DurableJournalBody :=
  check (bool_decide (metadata = ∅)) EINVAL ;;
  s <- get ;;
  check (reload_required_ s) EIO ;;
  check (negb (used_blocks (current_ s) =? 0) ||
         bool_decide (is_Some (durable_body_ s))) EBUSY ;;
  let sb := superblock_ s in
  check (negb (expected_total_blocks =? total_blocks sb) ||
         negb (bool_decide (expected_filesystem_uuid = sb_filesystem_uuid sb))) ESTALE ;;
  for_each (fun p => check (negb (BlockIsInRegion (fst p) (data sb)) ||
                            bool_decide (before !! fst p = None) ||
                            bool_decide (is_Some (metadata !! fst p))) EINVAL)
    (sorted_entries ordered) ;;
  for_each (fun p => check (negb (IsValidMetadataTarget sb (fst p)) ||
                            bool_decide (before !! fst p = None)) EINVAL)
    (sorted_entries metadata) ;;
  let expected_before_blocks : gset Z := dom ordered ∪ dom metadata in
  check (negb (bool_decide (size before = size expected_before_blocks))) EINVAL ;;
  for_each (fun p => check (bool_decide (fst p ∉ expected_before_blocks)) EINVAL)
    (sorted_entries before) ;;
  rsv <- of_result (PlanRingReservation (current_ s) (size metadata)) ;;
  for_each (verify_before sb) (sorted_entries before) ;;
  (if bool_decide (ordered = ∅) then ret tt
   else
     for_each (fun p => latch (lift (PwriteAll (snd p) (fst p * kBlockSize))))
       (sorted_entries ordered) ;;
     latch (lift Fdatasync) ;;
     lift (OnDurableStage kOrderedData)) ;;
  WriteUnexposedBody rsv metadata.

(** * Step 2: expose the body through the next control *)
Definition ExposeDurableBody : M unit :=
  s <- get ;;
  check (reload_required_ s) EIO ;;
  check (negb (used_blocks (current_ s) =? 0)) EBUSY ;;
  match durable_body_ s with
  | None => fail EPERM
  | Some body =>
    PersistNext (exposed_control (reservation body)) ;;
    lift (OnDurableStage kControlExposure)
  end.

(** * Step 3: COMMIT *)
Definition WriteCommit : M unit :=
  s <- get ;;
  check (reload_required_ s) EIO ;;
  match durable_body_ s with
  | None => fail EPERM
  | Some body =>
    check (commit_durable_ s) EALREADY ;;
    check (negb (SameControlState (current_ s) (exposed_control (reservation body)))) EPERM ;;
    let commit := mkCommit (rr_transaction_id (reservation body))
      (sb_filesystem_uuid (superblock_ s)) (body_entry_count body)
      (wrap32 (body_entry_count body + 2)) (descriptor_ring_index (reservation body))
      (descriptor_crc32c body) 0 in
    match EncodeCommit commit with
    | Err _ => fail EINVAL
    | Ok encoded =>
      match RingOffset (superblock_ s) (commit_ring_index (reservation body)) with
      | None => fail EINVAL
      | Some commit_offset =>
        latch (lift (PwriteAll encoded commit_offset)) ;;
        latch (lift Fdatasync) ;;
        lift (OnDurableStage kCommit) ;;
        modify set_commit_durable
      end
    end
  end.

(** * Step 4: replay to the home blocks and checkpoint *)
Definition CompleteCommittedTransaction : M unit :=
  s <- get ;;
  check (reload_required_ s) EIO ;;
  check (bool_decide (durable_body_ s = None) || negb (commit_durable_ s) ||
         bool_decide (metadata_after_images_ s = ∅)) EPERM ;;
  check (checkpointed_ s) EALREADY ;;
  for_each (fun p =>
      check (negb (IsValidMetadataTarget (superblock_ s) (fst p))) EUCLEAN ;;
      latch (lift (PwriteAll (snd p) (fst p * kBlockSize))))
    (sorted_entries (metadata_after_images_ s)) ;;
  latch (lift Fdatasync) ;;
  lift (OnDurableStage kHomeBlocks) ;;
  PersistNext (clean_control (current_ s)) ;;
  lift (OnDurableStage kCheckpoint) ;;
  modify set_checkpointed.

(** * The executor: the result and whether a failure requires fail-closed *)
Definition transaction_steps (before ordered metadata : image) (total : Z) (uuid : bytes)
    : M unit :=
  WriteOrderedDataAndUnexposedBody total uuid before ordered metadata ;;
  ExposeDurableBody ;;
  WriteCommit ;;
  CompleteCommittedTransaction.

Definition ExecuteJournalTransaction (writable : bool) (before ordered metadata : image)
    (total : Z) (uuid : bytes) (e : env) : env * (result errno unit * bool) :=
  match DuplicateFd e with
  | (e, Err er) => (e, (Err er, false))
  | (e, Ok _) =>
    match AdoptLockedFd writable e with
    | (e, Err er) => (e, (Err er, true))
    | (e, Ok store) =>
      let '((_, e), r) := transaction_steps before ordered metadata total uuid (store, e) in
      match r with
      | Ok _ => (e, (Ok tt, false))
      | Err er => (e, (Err er, true))
      end
    end
  end.

(** Start-up recovery (src/journal/journal_recovery.cpp): the read-only
    classification of the exposed range, and its resolution. *)
Inductive RecoveryState := kEmpty | kUncommitted | kCommitted.
Inductive RecoveryAction := kNoAction | kDiscarded | kReplayedAndCheckpointed.

#[global] Instance RecoveryState_eq_dec : EqDecision RecoveryState.
Proof. solve_decision. Defined.
#[global] Instance RecoveryAction_eq_dec : EqDecision RecoveryAction.
Proof. solve_decision. Defined.

(** Reads one ring block; a position outside the ring or the image is corrupt. *)
Definition ReadRingBlock (sb : Superblock) (ring_index : Z) : M bytes :=
  let ring := wrap32 (block_count (journal sb) - kJournalControlBlockCount) in
  check (ring <=? ring_index) EUCLEAN ;;
  let physical_block := start_block (journal sb) + kJournalControlBlockCount + ring_index in
  let journal_end := start_block (journal sb) + block_count (journal sb) in
  check ((journal_end <=? physical_block) || (total_blocks sb <=? physical_block)) EUCLEAN ;;
  lift (PreadAll (physical_block * kBlockSize)).

(** The loop that checks payload positions and targets of the entries, where
    [index] is the number of entries already checked. *)
Fixpoint check_entries (sb : Superblock) (current : JournalControl) (index : Z)
    (l : list DescriptorEntry) : M unit :=
  match l with
  | [] => ret tt
  | entry :: rest =>
    let expected_position := Advance (tail current) (index + 1) (ring_blocks current) in
    check (negb (payload_ring_index entry =? expected_position)) EUCLEAN ;;
    check (negb (IsValidMetadataTarget sb (home_block entry))) EUCLEAN ;;
    check_entries sb current (index + 1) rest
  end.

(** The loop that reads and verifies the payloads; [emplace] keeps the first
    binding of a home block. *)
Fixpoint read_payloads (sb : Superblock) (l : list DescriptorEntry) (acc : image) : M image :=
  match l with
  | [] => ret acc
  | entry :: rest =>
    payload <- ReadRingBlock sb (payload_ring_index entry) ;;
    check (negb (Crc32c payload =? payload_crc32c entry)) EUCLEAN ;;
    read_payloads sb rest
      (match acc !! home_block entry with
       | Some _ => acc
       | None => <[home_block entry := payload]> acc
       end)
  end.

Definition ClassifyRecovery : M RecoveryState :=
  modify (fun s => set_validated s None) ;;
  s <- get ;;
  check (reload_required_ s) EIO ;;
  let current := current_ s in
  let sb := superblock_ s in
  if used_blocks current =? 0 then ret kEmpty
  else
  check (next_transaction_id current <=? 1) EUCLEAN ;;
  descriptor_bytes <- ReadRingBlock sb (tail current) ;;
  match DecodeDescriptor descriptor_bytes with
  | Err _ => fail EUCLEAN
  | Ok descriptor =>
    let expected_transaction_id := wrap64 (next_transaction_id current - 1) in
    check (negb (bool_decide (dr_filesystem_uuid descriptor = sb_filesystem_uuid sb))) EUCLEAN ;;
    check (negb (dr_transaction_id descriptor =? expected_transaction_id)) EUCLEAN ;;
    let payload_count := Z.of_nat (length (entries descriptor)) in
    check (negb (dr_transaction_block_count descriptor =? used_blocks current)) EUCLEAN ;;
    check_entries sb current 0 (entries descriptor) ;;
    let commit_index := Advance (tail current) (payload_count + 1) (ring_blocks current) in
    let derived_head := Advance (tail current) (payload_count + 2) (ring_blocks current) in
    check (negb (derived_head =? head current)) EUCLEAN ;;
    after_images <- read_payloads sb (entries descriptor) ∅ ;;
    let candidate := mkValidated (dr_transaction_id descriptor) (tail current) commit_index
                       after_images in
    commit_bytes <- ReadRingBlock sb commit_index ;;
    match DecodeCommit commit_bytes with
    | Err _ => ret kUncommitted
    | Ok commit =>
      if negb (cr_transaction_id commit =? dr_transaction_id descriptor) then ret kUncommitted
      else
      check (negb (CommitMatchesDescriptor descriptor (tail current) commit)) EUCLEAN ;;
      modify (fun s => set_validated s (Some candidate)) ;;
      ret kCommitted
    end
  end.

Definition ResolveRecovery : M RecoveryAction :=
  s <- get ;;
  check (reload_required_ s) EIO ;;
  check (bool_decide (is_Some (durable_body_ s)) || commit_durable_ s) EBUSY ;;
  state <- ClassifyRecovery ;;
  s <- get ;;
  let clean := clean_control (current_ s) in
  match state with
  | kEmpty => ret kNoAction
  | kUncommitted =>
    PersistNext clean ;;
    modify (fun s => set_validated s None) ;;
    ret kDiscarded
  | kCommitted =>
    match validated_transaction_ s with
    | None => fail EUCLEAN
    | Some validated =>
      for_each (fun p =>
          check (negb (IsValidMetadataTarget (superblock_ s) (fst p))) EUCLEAN ;;
          latch (lift (PwriteAll (snd p) (fst p * kBlockSize))))
        (sorted_entries (vt_metadata_after_images validated)) ;;
      latch (lift Fdatasync) ;;
      PersistNext clean ;;
      modify (fun s => set_validated s None) ;;
      ret kReplayedAndCheckpointed
    end
  end.

(** Start-up, as [OpenFuseMountState] and [ObjectBackend::Open] run it before any
    reader is created: lock the image, adopt a duplicate descriptor, resolve. *)
Definition StartupRecovery : io RecoveryAction :=
  io_bind SessionOpen (fun _ =>
  io_bind DuplicateFd (fun _ =>
  io_bind (AdoptLockedFd true) (fun store e =>
  let '((_, e), r) := ResolveRecovery (store, e) in (e, r)))).
