(* ===== verification/JournalImage.v ===== *)
(** The journal's view of an image: geometry, the current control, the ring,
    and the effect of the store's primitive steps on them. *)
From S2P Require Import Prelude Codec Crc32c OndiskFormat OndiskFormatProofs OndiskJournal OndiskJournalProofs.
From S2P Require Import RingReservation Disk JournalStore.
Import ControlSelection.
Open Scope Z_scope.

(** * Geometry of a valid superblock *)
Definition js (sb : Superblock) : Z := start_block (journal sb).
Definition ring_size (sb : Superblock) : Z := block_count (journal sb) - 2.
Definition control_block (sb : Superblock) (c : ControlCopy) : Z :=
  js sb + match c with kA => 0 | kB => 1 end.
Definition ring_block (sb : Superblock) (i : Z) : Z := js sb + 2 + i.
Definition in_journal (sb : Superblock) (blk : Z) : Prop :=
  js sb <= blk < js sb + block_count (journal sb).

Record geometry (sb : Superblock) : Prop := {
  geo_typed : superblock_typed sb;
  geo_js : 1 <= js sb;
  geo_count : 5 <= block_count (journal sb);
  geo_data : start_block (data sb) = js sb + block_count (journal sb);
  geo_total : start_block (data sb) + block_count (data sb) = total_blocks sb
}.

Lemma validated_geometry sb :
  superblock_typed sb -> ValidateSuperblock sb = Ok tt -> geometry sb.
Proof.
  intros Hty Hv. pose proof Hty as (H1 & H2 & _ & _ & _ & [Hit _] & _).
  unfold ValidateSuperblock in Hv. guards Hv.
  unfold RegionEndsAt in *. bool_to_prop. unfold kMinimumJournalBlocks, js in *.
  change (kJournalControlBlockCount + kMinimumJournalRingBlocks) with 5 in *.
  assert (1 <= CeilDivide (wrap64 (total_inodes sb * kInodeRecordSize)) kBlockSize).
  { unfold kInodeRecordSize, kBlockSize. rewrite wrap64_small by word.
    unfold CeilDivide. rewrite (wrap64_small (_ + _)) by word. rewrite wrap64_small by word.
    assert (1 <= (total_inodes sb * 128 + 4096 - 1) / 4096)
      by (apply Z.div_le_lower_bound; word).
    assert ((total_inodes sb * 128 + 4096 - 1) / 4096 < 4294967296)
      by (apply Z.div_lt_upper_bound; word).
    rewrite wrap32_small by word. lia. }
  constructor; unfold js; try done; word.
Qed.

Section geometry.
Context (sb : Superblock) (G : geometry sb).

Lemma geo_bounds :
  u32 (js sb) /\ u32 (block_count (journal sb)) /\ u32 (total_blocks sb) /\
  js sb + block_count (journal sb) <= total_blocks sb.
Proof.
  destruct G as [(H1 & _ & _ & _ & _ & _ & [H2 H3] & [_ H4] & _) Hj Hc Hd Ht].
  split; [done|split; [done|split; [done|]]]. rewrite <- Ht, Hd. word.
Qed.

Lemma ring_size_eq :
  wrap32 (block_count (journal sb) - kJournalControlBlockCount) = ring_size sb.
Proof.
  destruct geo_bounds as (_ & Hc & _). pose proof (geo_count sb G).
  apply wrap32_small. unfold ring_size. word.
Qed.

Lemma ring_size_bounds : 3 <= ring_size sb /\ u32 (ring_size sb).
Proof. destruct geo_bounds as (_ & Hc & _). pose proof (geo_count sb G). unfold ring_size. split; word. Qed.

Lemma control_in_journal c : in_journal sb (control_block sb c).
Proof. pose proof (geo_count sb G). unfold in_journal, control_block. destruct c; lia. Qed.

Lemma ring_in_journal i : 0 <= i < ring_size sb -> in_journal sb (ring_block sb i).
Proof. unfold in_journal, ring_block, ring_size. lia. Qed.

Lemma in_journal_image blk : in_journal sb blk -> 0 < blk < total_blocks sb.
Proof. destruct geo_bounds as (_ & _ & _ & H). pose proof (geo_js sb G). unfold in_journal. lia. Qed.

Lemma control_not_ring c i : 0 <= i -> control_block sb c <> ring_block sb i.
Proof. unfold control_block, ring_block. destruct c; lia. Qed.

Lemma control_other_ne c : control_block sb (other c) <> control_block sb c.
Proof. unfold control_block. destruct c; simpl; lia. Qed.

Lemma target_not_journal blk :
  IsValidMetadataTarget sb blk = true -> ~ in_journal sb blk /\ blk <> 0 /\ blk < total_blocks sb.
Proof.
  unfold IsValidMetadataTarget, BlockIsInRegion, in_journal, js. intros H.
  apply andb_prop in H as [[H1 H2]%andb_prop H3]. bool_to_prop.
  apply andb_false_iff in H3. rewrite Z.leb_gt, Z.ltb_ge in H3. lia.
Qed.

Lemma data_not_journal blk : BlockIsInRegion blk (data sb) = true ->
  ~ in_journal sb blk /\ blk <> 0 /\ blk < total_blocks sb.
Proof.
  unfold BlockIsInRegion, in_journal. intros H. bool_to_prop.
  destruct G as [_ Hj Hc Hd Ht]. unfold js in *. lia.
Qed.

Lemma RingOffset_eq i :
  0 <= i < ring_size sb -> RingOffset sb i = Some (ring_block sb i * kBlockSize).
Proof.
  intros Hi. unfold RingOffset. rewrite ring_size_eq. unfold kJournalControlBlockCount.
  rewrite (proj2 (Z.leb_gt _ _)) by lia.
  destruct geo_bounds as (_ & _ & _ & Hb). unfold ring_size, js in *.
  rewrite (proj2 (Z.leb_gt _ _)) by lia. rewrite (proj2 (Z.leb_gt _ _)) by lia. done.
Qed.
End geometry.

Lemma offset_block blk : blk * kBlockSize / kBlockSize = blk.
Proof. apply Z.div_mul. done. Qed.

(** * The image *)
Record image_ok (sb : Superblock) (size : Z) (d : image) : Prop := {
  img_super : exists b, d !! 0 = Some b /\ DecodeSuperblock b = Ok sb;
  img_geometry : geometry sb;
  img_features : Z.land (sb_feature_incompat sb) (Z.lnot kSupportedFeatureIncompat) = 0;
  img_size : size = total_blocks sb * kBlockSize;
  img_blocks : forall blk, 0 <= blk < total_blocks sb -> exists b, d !! blk = Some b /\ block_wf b
}.

Definition block_of (d : image) (blk : Z) : bytes := default zero_block (d !! blk).

Definition controls (sb : Superblock) (d : image) (c : ControlCopy) : bytes :=
  block_of d (control_block sb c).

(** The control that opening the image selects. *)
Definition selected (sb : Superblock) (d : image) : result string (JournalControl * ControlCopy) :=
  select (controls sb d) (sb_filesystem_uuid sb) (ring_size sb).

(** Images that agree outside a set of blocks. *)
Definition agree_outside (P : Z -> Prop) (d d' : image) : Prop :=
  forall blk, ~ P blk -> d' !! blk = d !! blk.

Section image.
Context (sb : Superblock) (size : Z).

Lemma block_of_lookup d blk b : d !! blk = Some b -> block_of d blk = b.
Proof. unfold block_of. by intros ->. Qed.

Lemma img_lookup d blk :
  image_ok sb size d -> 0 <= blk < total_blocks sb -> d !! blk = Some (block_of d blk).
Proof. intros H Hb. destruct (img_blocks _ _ _ H blk Hb) as (b & E & _). by rewrite (block_of_lookup _ _ _ E). Qed.

Lemma img_block_wf d blk :
  image_ok sb size d -> 0 <= blk < total_blocks sb -> block_wf (block_of d blk).
Proof. intros H Hb. destruct (img_blocks _ _ _ H blk Hb) as (b & E & ?). by rewrite (block_of_lookup _ _ _ E). Qed.

(** A change that keeps block 0 and stores whole blocks keeps the image valid. *)
Lemma image_ok_change d d' :
  image_ok sb size d -> d' !! 0 = d !! 0 ->
  (forall blk, 0 <= blk < total_blocks sb ->
     d' !! blk = d !! blk \/ exists b, d' !! blk = Some b /\ block_wf b) ->
  image_ok sb size d'.
Proof.
  intros [Hs Hg Hf Hz Hb] H0 Hch. constructor; try done.
  - by rewrite H0.
  - intros blk Hblk. destruct (Hch blk Hblk) as [->|?]; [by apply Hb|done].
Qed.

Lemma selected_change d d' :
  (forall c, d' !! control_block sb c = d !! control_block sb c) -> selected sb d' = selected sb d.
Proof.
  intros H. unfold selected, select, controls, block_of. by rewrite !H.
Qed.

(** Replacing one control block. *)
Lemma selected_insert d c b :
  selected sb (<[control_block sb c := b]> d) =
  select (set_copy (controls sb d) c b) (sb_filesystem_uuid sb) (ring_size sb).
Proof.
  unfold selected, select, controls, block_of, set_copy.
  destruct c; rewrite lookup_insert_eq, lookup_insert_ne;
    try done; unfold control_block; lia.
Qed.

Lemma selected_inv d v c :
  image_ok sb size d -> selected sb d = Ok (v, c) ->
  control_typed v /\ ValidateControlFields v = Ok tt /\
  controls sb d c = ControlCodec.image v /\
  jc_filesystem_uuid v = sb_filesystem_uuid sb /\ ring_blocks v = ring_size sb.
Proof.
  intros Hi Hs. pose proof (img_geometry _ _ _ Hi) as G.
  apply select_sound in Hs as (Hd & Hm & _).
  assert (block_wf (controls sb d c)) as Hw.
  { apply img_block_wf; [done|].
    pose proof (in_journal_image sb G _ (control_in_journal sb G c)). lia. }
  apply ControlCodec.control_encode_decode in Hd as (Ht & Hv & Hb & _); [|done].
  unfold matches in Hm. bool_to_prop. done.
Qed.
End image.
