(* ===== verification/CrashLogic.v ===== *)
(** Crash semantics of the image and a program logic for the journal code.

    A trace determines which content is durable and which writes are pending;
    a crash keeps, block by block, the durable content, any pending write, or
    the remains of a torn write. [runs] is a total-correctness judgement for
    store programs that also tracks, after every event, what holds of every
    image a crash at that point can leave behind. *)
From S2P Require Import Prelude Codec OndiskFormat OndiskJournal Disk JournalStore JournalImage.
Open Scope Z_scope.

(** * Durability *)
Record durability := mkView {
  durable : image;
  pending : list (Z * option bytes);
  stages : list DurableStage
}.

Definition write_out (d : image) (w : Z * option bytes) : image :=
  match w with (blk, Some b) => <[blk := b]> d | (_, None) => d end.

(** [fdatasync] makes complete writes durable; a partial one stays unknown. *)
Definition settle (v : durability) (ev : event) : durability :=
  match ev with
  | EWrite blk b => mkView (durable v) (pending v ++ [(blk, Some b)]) (stages v)
  | EPartial blk => mkView (durable v) (pending v ++ [(blk, None)]) (stages v)
  | ESync => mkView (foldl write_out (durable v) (pending v))
               (filter (fun w => w.2 = None) (pending v)) (stages v)
  | EStage s => mkView (durable v) (pending v) (stages v ++ [s])
  end.

Definition durability_of (d0 : image) (t : list event) : durability :=
  foldl settle (mkView d0 [] []) t.

(** What a torn write can leave in a block: a block of bytes that, inside the
    journal, the checks of the control and COMMIT formats do not accept. *)
Definition torn_block (sb : Superblock) (blk : Z) (b : bytes) : Prop :=
  block_wf b /\
  (in_journal sb blk -> is_ok (DecodeControl b) = false /\ is_ok (DecodeCommit b) = false).

Definition crash_image (sb : Superblock) (v : durability) (c : image) : Prop :=
  forall blk,
    c !! blk = durable v !! blk \/
    (exists b, (blk, Some b) ∈ pending v /\ c !! blk = Some b) \/
    (exists o b, (blk, o) ∈ pending v /\ c !! blk = Some b /\ torn_block sb blk b).

(** Everything written so far survives a crash. *)
Definition synced (d : image) (e : env) : Prop :=
  durable (durability_of d (trace e)) = disk e /\ pending (durability_of d (trace e)) = [].

(** * Complete writes *)
Abbreviation writes := insert_all (only parsing).

(** A crash while the writes [l] are pending on top of [d]. *)
Definition smeared (sb : Superblock) (d : image) (l : list (Z * bytes)) (c : image) : Prop :=
  forall blk,
    c !! blk = d !! blk \/
    exists b, (blk, b) ∈ l /\
      (c !! blk = Some b \/ exists b', c !! blk = Some b' /\ torn_block sb blk b').

Definition issued (l : list (Z * bytes)) : list (Z * option bytes) :=
  map (fun p => (p.1, Some p.2)) l.

Lemma writes_snoc l blk b (d : image) :
  writes (l ++ [(blk, b)]) d = <[blk := b]> (writes l d).
Proof. by rewrite insert_all_app. Qed.

Lemma foldl_issued l (d : image) : foldl write_out d (issued l) = writes l d.
Proof. revert d. induction l as [|[k b] l IH]; intros d; [done|]. apply IH. Qed.

Lemma issued_snoc l blk b : issued (l ++ [(blk, b)]) = issued l ++ [(blk, Some b)].
Proof. unfold issued. by rewrite map_app. Qed.

Lemma filter_issued l : filter (fun w : Z * option bytes => w.2 = None) (issued l) = [].
Proof. induction l as [|[k b] l IH]; [done|]. cbn [issued map]. by rewrite filter_cons_False. Qed.

Lemma elem_of_issued l blk o : (blk, o) ∈ issued l -> exists b, o = Some b /\ (blk, b) ∈ l.
Proof.
  unfold issued. rewrite list_elem_of_fmap. intros ([k b] & [= -> ->] & H). eauto.
Qed.

Lemma lookup_writes_in l (d : image) blk :
  blk ∈ l.*1 -> exists b, (blk, b) ∈ l /\ writes l d !! blk = Some b.
Proof.
  induction l as [|[k b] l IH] using rev_ind; [intros []%not_elem_of_nil|].
  rewrite writes_snoc, fmap_app, elem_of_app. cbn [fmap list_fmap fst]. intros H.
  destruct (decide (k = blk)) as [->|Hne].
  - exists b. rewrite lookup_insert_eq. split; [|done]. apply elem_of_app. right. by left.
  - destruct H as [H|H%list_elem_of_singleton]; [|congruence].
    destruct (IH H) as (b' & Hb & E). exists b'.
    rewrite lookup_insert_ne by done. split; [|done]. apply elem_of_app. by left.
Qed.

Section smeared.
Context (sb : Superblock).

Lemma smeared_nil d c : smeared sb d [] c -> c = d.
Proof.
  intros H. apply map_eq. intros blk. destruct (H blk) as [?|(b & Hb & _)]; [done|].
  by apply not_elem_of_nil in Hb.
Qed.

Lemma smeared_writes d l : smeared sb d l (writes l d).
Proof.
  intros blk. destruct (decide (blk ∈ l.*1)) as [Hin|Hout].
  - right. destruct (lookup_writes_in l d blk Hin) as (b & Hb & E). eauto.
  - left. by apply lookup_insert_all_ne.
Qed.

Lemma smeared_union (d m : image) : smeared sb d (sorted_entries m) (m ∪ d).
Proof. rewrite <- insert_all_sorted. apply smeared_writes. Qed.

Lemma smeared_mono d l l' c : l ⊆ l' -> smeared sb d l c -> smeared sb d l' c.
Proof. intros Hs H blk. destruct (H blk) as [?|(b & Hb & ?)]; [by left|right; eauto]. Qed.

Lemma smeared_refl d l : smeared sb d l d.
Proof. intros blk. by left. Qed.

Lemma crash_issued d l s c : crash_image sb (mkView d (issued l) s) c -> smeared sb d l c.
Proof.
  intros H blk. destruct (H blk) as [?|[(b & Hb & E)|(o & b & Hb & E & Ht)]]; [by left|..];
    apply elem_of_issued in Hb as (b1 & Hb1 & ?); right.
  - injection Hb1 as <-. eauto.
  - exists b1. eauto.
Qed.

Lemma crash_partial d l s blk b c :
  crash_image sb (mkView d (issued l ++ [(blk, None)]) s) c ->
  smeared sb d (l ++ [(blk, b)]) c.
Proof.
  intros H k. destruct (H k) as [?|[(b1 & Hb & E)|(o & b1 & Hb & E & Ht)]]; [by left|..];
    apply elem_of_app in Hb as [Hb|Hb%list_elem_of_singleton]; right.
  - apply elem_of_issued in Hb as (b2 & [= <-] & ?). exists b1.
    split; [apply elem_of_app; by left|by left].
  - done.
  - apply elem_of_issued in Hb as (b2 & -> & ?). exists b2.
    split; [apply elem_of_app; by left|eauto].
  - injection Hb as -> ->. exists b.
    split; [apply elem_of_app; right; by left|eauto].
Qed.
End smeared.

(** * The judgement *)
Record view := V { vd : image; vl : list (Z * bytes); vs : list DurableStage }.

Section logic.
(** The image at the start, its size, whether success is owed when no system
    call fails, and the crash invariant. *)
Context (sb : Superblock) (d0 : image) (size : Z) (F : Prop).
Context (I : list DurableStage -> image -> Prop).

Definition at_view (v : view) (e : env) : Prop :=
  durability_of d0 (trace e) = mkView (vd v) (issued (vl v)) (vs v) /\
  disk e = writes (vl v) (vd v) /\ st_size e = size.

(** Every crash during the trace leaves an image that satisfies [I]. *)
Definition safe (t : list event) : Prop :=
  forall p c, p `prefix_of` t -> crash_image sb (durability_of d0 p) c ->
    I (stages (durability_of d0 p)) c.

Definition outcome {A} (e e' : env) (r : result errno A) (Q : A -> Prop) : Prop :=
  safe (trace e') /\
  (F -> responses e = [] -> responses e' = [] /\ is_ok r = true) /\
  match r with Ok a => Q a | Err _ => True end.

Definition runs_io {A} (m : io A) (v : view) (Q : A -> view -> Prop) : Prop :=
  forall e, at_view v e -> safe (trace e) ->
    let '(e', r) := m e in outcome e e' r (fun a => exists v', at_view v' e' /\ Q a v').

Definition runs {A} (m : M A) (s : JournalControlStore) (v : view)
    (Q : A -> JournalControlStore -> view -> Prop) : Prop :=
  forall e, at_view v e -> safe (trace e) ->
    let '((s', e'), r) := m (s, e) in
    outcome e e' r (fun a => exists v', at_view v' e' /\ Q a s' v').

Lemma safe_snoc t ev :
  safe t ->
  (forall c, crash_image sb (durability_of d0 (t ++ [ev])) c ->
     I (stages (durability_of d0 (t ++ [ev]))) c) ->
  safe (t ++ [ev]).
Proof.
  intros Ht Hev p c [k Hk]. destruct k as [|x k _] using rev_ind.
  - rewrite app_nil_r in Hk. subst. apply Hev.
  - rewrite app_assoc in Hk. apply app_inj_tail in Hk as [-> _]. apply Ht. by exists k.
Qed.

Lemma durability_snoc t ev : durability_of d0 (t ++ [ev]) = settle (durability_of d0 t) ev.
Proof. unfold durability_of. by rewrite foldl_app. Qed.

(** ** Structural rules *)
Lemma outcome_same {A} e r rest (Q : A -> Prop) :
  safe (trace e) -> (F -> responses e = [] -> rest = [] /\ is_ok r = true) ->
  (forall a, r = Ok a -> Q a) -> outcome e (set_responses e rest) r Q.
Proof. intros Hs Hf HQ. split; [done|]. split; [done|]. destruct r; [by apply HQ|done]. Qed.

Lemma runs_io_bind {A B} (m : io A) (k : A -> io B) v Q :
  runs_io m v (fun a v' => runs_io (k a) v' Q) -> runs_io (io_bind m k) v Q.
Proof.
  intros H e Hv Hs. specialize (H e Hv Hs). unfold io_bind.
  destruct (m e) as [e1 [a|er]]; destruct H as (H1 & H2 & H3); [|done].
  destruct H3 as (v1 & Hv1 & H3). specialize (H3 e1 Hv1 H1).
  destruct (k a e1) as [e2 r]. destruct H3 as (H4 & H5 & H6). split; [done|]. split; [|done].
  intros HF Hr. destruct (H2 HF Hr) as [Hr1 _]. by apply H5.
Qed.

Lemma runs_io_ret {A} (a : A) v (Q : A -> view -> Prop) : Q a v -> runs_io (io_ret a) v Q.
Proof. intros HQ e Hv Hs. split; [done|]. split; [done|]. eauto. Qed.

Lemma runs_io_fail {A} er v (Q : A -> view -> Prop) : ~ F -> runs_io (io_fail er) v Q.
Proof. intros HF e Hv Hs. split; [done|]. split; done. Qed.

Lemma runs_bind {A B} (m : M A) (k : A -> M B) s v Q :
  runs m s v (fun a s' v' => runs (k a) s' v' Q) -> runs (bind m k) s v Q.
Proof.
  intros H e Hv Hs. specialize (H e Hv Hs). unfold bind.
  destruct (m (s, e)) as [[s1 e1] [a|er]]; destruct H as (H1 & H2 & H3); [|done].
  destruct H3 as (v1 & Hv1 & H3). specialize (H3 e1 Hv1 H1).
  destruct (k a (s1, e1)) as [[s2 e2] r]. destruct H3 as (H4 & H5 & H6).
  split; [done|]. split; [|done].
  intros HF Hr. destruct (H2 HF Hr) as [Hr1 _]. by apply H5.
Qed.

Lemma runs_mono {A} (m : M A) s v (Q Q' : A -> JournalControlStore -> view -> Prop) :
  runs m s v Q -> (forall a s' v', Q a s' v' -> Q' a s' v') -> runs m s v Q'.
Proof.
  intros H HQ e Hv Hs. specialize (H e Hv Hs). destruct (m (s, e)) as [[s' e'] r].
  destruct H as (H1 & H2 & H3). split; [done|]. split; [done|]. destruct r; [|done].
  destruct H3 as (v' & ? & ?). eauto.
Qed.

Lemma runs_ret {A} (a : A) s v (Q : A -> JournalControlStore -> view -> Prop) :
  Q a s v -> runs (ret a) s v Q.
Proof. intros HQ e Hv Hs. split; [done|]. split; [done|]. eauto. Qed.

Lemma runs_fail {A} er s v (Q : A -> JournalControlStore -> view -> Prop) :
  ~ F -> runs (fail er) s v Q.
Proof. intros HF e Hv Hs. split; [done|]. split; done. Qed.

Lemma runs_get s v (Q : JournalControlStore -> JournalControlStore -> view -> Prop) :
  Q s s v -> runs get s v Q.
Proof. intros HQ e Hv Hs. split; [done|]. split; [done|]. eauto. Qed.

Lemma runs_modify f s v (Q : unit -> JournalControlStore -> view -> Prop) :
  Q tt (f s) v -> runs (modify f) s v Q.
Proof. intros HQ e Hv Hs. split; [done|]. split; [done|]. eauto. Qed.

Lemma runs_check bad er s v (Q : unit -> JournalControlStore -> view -> Prop) :
  (bad = true -> ~ F) -> (bad = false -> Q tt s v) -> runs (check bad er) s v Q.
Proof.
  intros Hb HQ. unfold check. destruct bad; [by apply runs_fail, Hb|by apply runs_ret, HQ].
Qed.

Lemma runs_of_result {A} (r : result errno A) s v (Q : A -> JournalControlStore -> view -> Prop) :
  (is_ok r = false -> ~ F) -> (forall a, r = Ok a -> Q a s v) -> runs (of_result r) s v Q.
Proof.
  intros Hf HQ. destruct r as [a|er].
  - apply (runs_ret a). by apply HQ.
  - apply (runs_fail er). by apply Hf.
Qed.

Lemma runs_latch {A} (m : M A) s v Q : runs m s v Q -> runs (latch m) s v Q.
Proof.
  intros H e Hv Hs. specialize (H e Hv Hs). unfold latch.
  destruct (m (s, e)) as [[s' e'] [a|er]]; done.
Qed.

Lemma runs_lift {A} (m : io A) s v (Q : A -> JournalControlStore -> view -> Prop) :
  runs_io m v (fun a v' => Q a s v') -> runs (lift m) s v Q.
Proof.
  intros H e Hv Hs. specialize (H e Hv Hs). unfold lift. cbn [snd fst].
  destruct (m e) as [e' r]. done.
Qed.

(** A loop whose body keeps [J] on the part of the list already visited. *)
Lemma runs_for_each {A} (f : A -> M unit) l s (J : list A -> view) Q :
  (forall done_ x rest, l = done_ ++ x :: rest ->
     runs (f x) s (J done_) (fun _ s' v' => s' = s /\ v' = J (done_ ++ [x]))) ->
  Q tt s (J l) -> runs (for_each f l) s (J []) Q.
Proof.
  intros Hf HQ. cut (forall done_ rest, l = done_ ++ rest -> runs (for_each f rest) s (J done_) Q).
  { intros H. by apply H. }
  intros done_ rest. revert done_. induction rest as [|x rest IH]; intros done_ Hl; cbn [for_each].
  - rewrite app_nil_r in Hl. subst. by apply runs_ret.
  - apply runs_bind. eapply runs_mono; [by apply (Hf done_ x rest)|].
    intros _ s' v' [-> ->]. apply IH. by rewrite <- app_assoc.
Qed.

(** A loop that only checks. *)
Lemma runs_checks {A} (f : A -> M unit) (P : A -> Prop) l s v Q :
  (forall x, x ∈ l -> runs (f x) s v (fun _ s' v' => s' = s /\ v' = v /\ P x)) ->
  (Forall P l -> Q tt s v) -> runs (for_each f l) s v Q.
Proof.
  revert Q. induction l as [|x l IH]; intros Q Hf HQ; cbn [for_each].
  - by apply runs_ret, HQ.
  - apply runs_bind. eapply runs_mono; [apply Hf; by left|].
    intros _ s' v' (-> & -> & HP). apply IH; [intros; apply Hf; by right|].
    intros HPl. apply HQ. by constructor.
Qed.

(** ** System calls *)
Lemma at_view_responses v e rest : at_view v e -> at_view v (set_responses e rest).
Proof. done. Qed.

Lemma runs_syscall v (Q : unit -> view -> Prop) : Q tt v -> runs_io Syscall v Q.
Proof.
  intros HQ e Hv Hs. unfold Syscall. destruct (responses e) as [|[n|er] rest] eqn:Er.
  - split; [done|]. split; [|eauto]. done.
  - split; [done|]. split; [by rewrite Er|]. exists v. done.
  - split; [done|]. split; [by rewrite Er|done].
Qed.

Lemma pread_loop_nil n : pread_loop n 0 [] = ([], Ok tt).
Proof. unfold pread_loop. by destruct (n <=? 0). Qed.

Lemma runs_pread v blk b (Q : bytes -> view -> Prop) :
  writes (vl v) (vd v) !! blk = Some b -> Q b v ->
  runs_io (PreadAll (blk * kBlockSize)) v Q.
Proof.
  intros Hb HQ e Hv Hs. pose proof Hv as (_ & Hd & _). unfold PreadAll.
  rewrite offset_block, Hd, Hb.
  destruct (pread_loop kBlockSize 0 (responses e)) as [rest [[]|er]] eqn:Ep.
  - apply outcome_same; [done| |].
    + intros _ Hr. rewrite Hr, pread_loop_nil in Ep. by injection Ep as <-.
    + intros a Ha. ok_inv Ha. exists v. done.
  - apply outcome_same; [done| |done].
    intros _ Hr. rewrite Hr, pread_loop_nil in Ep. done.
Qed.

Lemma pwrite_loop_nil n : exists k, pwrite_loop n 0 [] = ([], k, Ok tt).
Proof. unfold pwrite_loop. destruct (n <=? 0); eauto. Qed.

Lemma runs_pwrite d l s blk b (Q : unit -> view -> Prop) :
  (forall c, smeared sb d (l ++ [(blk, b)]) c -> I s c) ->
  Q tt (V d (l ++ [(blk, b)]) s) ->
  runs_io (PwriteAll b (blk * kBlockSize)) (V d l s) Q.
Proof.
  intros HI HQ e (Hv & Hd & Hz) Hs. unfold PwriteAll. rewrite offset_block. cbv zeta.
  cbn [vd vl vs] in *.
  destruct (pwrite_loop _ 0 (responses e)) as [[rest k] r] eqn:Ep.
  assert (responses e = [] -> rest = [] /\ r = Ok tt) as Hr.
  { intros Hr. rewrite Hr in Ep. destruct (pwrite_loop_nil (Z.of_nat (length b))) as [k' E].
    rewrite E in Ep. by injection Ep as <- _ <-. }
  destruct r as [[]|er].
  - split; [|split].
    + cbn [log_event trace]. apply safe_snoc; [done|]. cbn [set_responses set_disk trace].
      rewrite durability_snoc, Hv. cbn [settle durable pending stages]. rewrite <- issued_snoc.
      intros c Hc. by apply HI, (crash_issued sb d _ s).
    + intros _ Hn. destruct (Hr Hn) as [-> _]. done.
    + exists (V d (l ++ [(blk, b)]) s). split; [|done]. split; [|split].
      * cbn [log_event trace set_disk set_responses]. rewrite durability_snoc, Hv.
        cbn [settle durable pending stages vd vl vs]. by rewrite issued_snoc.
      * cbn [log_event disk set_disk set_responses vd vl]. by rewrite Hd, writes_snoc.
      * done.
  - split; [|split].
    + cbn [log_event trace]. apply safe_snoc; [done|]. cbn [set_responses set_disk trace].
      rewrite durability_snoc, Hv. cbn [settle durable pending stages].
      intros c Hc. by apply HI, (crash_partial sb d l s).
    + intros _ Hn. by destruct (Hr Hn).
    + done.
Qed.

Lemma runs_fdatasync d l s (Q : unit -> view -> Prop) :
  I s (writes l d) -> Q tt (V (writes l d) [] s) -> runs_io Fdatasync (V d l s) Q.
Proof.
  intros HI HQ.
  cut (forall e rest, at_view (V d l s) e -> safe (trace e) ->
         (responses e = [] -> rest = []) ->
         outcome e (log_event (set_responses e rest) ESync) (Ok tt)
           (fun a => exists v', at_view v' (log_event (set_responses e rest) ESync) /\ Q a v')).
  { intros H e Hv Hs. unfold Fdatasync. destruct (responses e) as [|[n|er] rest] eqn:Er.
    - specialize (H e [] Hv Hs (fun _ => eq_refl)). unfold set_responses in H.
      destruct e as [x1 x2 x3 x4]. cbn [responses] in Er. subst x3. exact H.
    - destruct (n =? 0).
      + apply H; [done..|]. by rewrite Er.
      + split; [done|]. split; [by rewrite Er|done].
    - split; [done|]. split; [by rewrite Er|done]. }
  intros e rest (Hv & Hd & Hz) Hs Hr.
  assert (durability_of d0 (trace e ++ [ESync]) = mkView (writes l d) [] s) as Hd'.
  { rewrite durability_snoc, Hv. cbn [settle durable pending stages vd vl vs].
    by rewrite foldl_issued, filter_issued. }
  split; [|split].
  - cbn [log_event set_responses trace]. apply safe_snoc; [done|]. rewrite Hd'.
    intros c Hc. apply (crash_issued sb _ [] s), smeared_nil in Hc. by subst.
  - intros _ Hn. split; [|done]. cbn [log_event set_responses responses]. by apply Hr.
  - exists (V (writes l d) [] s). split; [|done]. split; [|split; [|done]].
    + cbn [log_event set_responses trace]. exact Hd'.
    + exact Hd.
Qed.

Lemma runs_stage d s st (Q : unit -> view -> Prop) :
  I (s ++ [st]) d -> Q tt (V d [] (s ++ [st])) -> runs_io (OnDurableStage st) (V d [] s) Q.
Proof.
  intros HI HQ e (Hv & Hd & Hz) Hs.
  assert (durability_of d0 (trace e ++ [EStage st]) = mkView d [] (s ++ [st])) as Hd'.
  { by rewrite durability_snoc, Hv. }
  unfold OnDurableStage. split; [|split].
  - cbn [log_event trace]. apply safe_snoc; [done|]. rewrite Hd'.
    intros c Hc. apply (crash_issued sb _ [] _), smeared_nil in Hc. by subst.
  - done.
  - exists (V d [] (s ++ [st])). split; [|done]. split; [exact Hd'|done].
Qed.

(** A phase: a list of block writes. *)
Lemma runs_writes {A} (f : A -> M unit) (w : A -> Z * bytes) l s d st Q :
  (forall x, x ∈ l -> forall v (R : unit -> JournalControlStore -> view -> Prop),
     runs_io (PwriteAll (w x).2 ((w x).1 * kBlockSize)) v (fun a v' => R a s v') ->
     runs (f x) s v R) ->
  (forall c, smeared sb d (map w l) c -> I st c) ->
  Q tt s (V d (map w l) st) -> runs (for_each f l) s (V d [] st) Q.
Proof.
  intros Hf HI HQ. apply (runs_for_each f l s (fun k => V d (map w k) st)); [|done].
  intros k x rest ->. apply Hf; [apply elem_of_app; right; by left|].
  apply runs_pwrite; rewrite <- surjective_pairing.
  - intros c Hc. apply HI. eapply smeared_mono; [|exact Hc].
    rewrite map_app. cbn [map]. intros y [Hy|Hy%list_elem_of_singleton]%elem_of_app;
      apply elem_of_app; [by left|right]. subst. by left.
  - by rewrite map_app.
Qed.
End logic.
