(* ===== verification/JournalStates.v ===== *)
(** The states of an image between journal steps: clean, holding an exposed
    but uncommitted body, or holding a committed one. [recoverable d T] says
    that recovery of [d] is meant to end with the home blocks of [T]. *)
From S2P Require Import Prelude Codec Crc32c OndiskFormat OndiskFormatProofs OndiskJournal OndiskJournalProofs.
From S2P Require Import RingReservation Disk JournalStore JournalImage CrashLogic.
Import ControlSelection.
Open Scope Z_scope.

Definition ring_at (sb : Superblock) (d : image) (i : Z) : bytes := block_of d (ring_block sb i).

(** Ring position number [i] of the transaction that starts at the tail. *)
Definition tx_position (v : JournalControl) (i : nat) : Z :=
  (tail v + Z.of_nat i) mod ring_blocks v.

(** Every COMMIT record in the ring is older than transaction [n]. *)
Definition ring_fresh (sb : Superblock) (d : image) (n : Z) : Prop :=
  forall i cm, 0 <= i < ring_size sb -> DecodeCommit (ring_at sb d i) = Ok cm ->
    cr_transaction_id cm < n.

Record ready (sb : Superblock) (size : Z) (d : image) (v : JournalControl) (c : ControlCopy)
    : Prop := {
  rdy_image : image_ok sb size d;
  rdy_selected : selected sb d = Ok (v, c);
  rdy_fresh : ring_fresh sb d (next_transaction_id v)
}.

(** The range exposed by [v] holds the body of a transaction on [meta]. *)
Record exposed (sb : Superblock) (d : image) (v : JournalControl) (desc : DescriptorRecord)
    (meta : image) : Prop := {
  exp_count : (1 <= size meta)%nat /\ used_blocks v = Z.of_nat (size meta) + 2;
  exp_descriptor : DecodeDescriptor (ring_at sb d (tail v)) = Ok desc;
  exp_uuid : dr_filesystem_uuid desc = sb_filesystem_uuid sb;
  exp_id : dr_transaction_id desc + 1 = next_transaction_id v;
  exp_blocks : dr_transaction_block_count desc = used_blocks v;
  exp_entries : build_entries sb (sorted_entries meta)
                  (map (tx_position v) (seq 1 (size meta))) = Some (entries desc);
  exp_payloads : forall i p, sorted_entries meta !! i = Some p ->
                   ring_at sb d (tx_position v (S i)) = p.2
}.

Definition commit_block (sb : Superblock) (d : image) (v : JournalControl) (meta : image) : bytes :=
  ring_at sb d (tx_position v (size meta + 1)).

Definition uncommitted (sb : Superblock) (d : image) (v : JournalControl)
    (desc : DescriptorRecord) (meta : image) : Prop :=
  forall cm, DecodeCommit (commit_block sb d v meta) = Ok cm ->
    cr_transaction_id cm <> dr_transaction_id desc.

Definition committed (sb : Superblock) (d : image) (v : JournalControl)
    (desc : DescriptorRecord) (meta : image) : Prop :=
  exists cm, DecodeCommit (commit_block sb d v meta) = Ok cm /\
    CommitMatchesDescriptor desc (tail v) cm = true.

(** Equal outside the journal. *)
Definition home_eq (sb : Superblock) (d T : image) : Prop :=
  forall blk, ~ in_journal sb blk -> d !! blk = T !! blk.

(** Replaying [meta] again on an image that already has the target blocks. *)
Lemma home_eq_again sb (meta x y T : image) :
  home_eq sb (meta ∪ y) T -> home_eq sb x T -> home_eq sb (meta ∪ x) T.
Proof.
  intros Hy Hx blk Hb. destruct (meta !! blk) as [b|] eqn:E.
  - rewrite <- Hy by done. by rewrite !(lookup_union_Some_l _ _ _ _ E).
  - rewrite lookup_union_r by done. by apply Hx.
Qed.

Inductive recoverable (sb : Superblock) (size : Z) (d T : image) : Prop :=
| rec_clean v c :
    ready sb size d v c -> used_blocks v = 0 -> home_eq sb d T -> recoverable sb size d T
| rec_discard v c desc meta :
    ready sb size d v c -> exposed sb d v desc meta -> uncommitted sb d v desc meta ->
    home_eq sb d T -> recoverable sb size d T
| rec_replay v c desc meta :
    ready sb size d v c -> exposed sb d v desc meta -> committed sb d v desc meta ->
    map_Forall (fun _ b => block_wf b) meta ->
    home_eq sb (meta ∪ d) T -> recoverable sb size d T.

(** A clean image with exactly these home blocks. *)
Definition settled (sb : Superblock) (size : Z) (d T : image) : Prop :=
  exists v c, ready sb size d v c /\ used_blocks v = 0 /\ home_eq sb d T.

(** * What the predicates depend on *)
Definition same_ring (sb : Superblock) (d d' : image) : Prop :=
  forall i, 0 <= i < ring_size sb -> d' !! ring_block sb i = d !! ring_block sb i.

Lemma same_ring_at sb d d' i :
  same_ring sb d d' -> 0 <= i < ring_size sb -> ring_at sb d' i = ring_at sb d i.
Proof. intros H Hi. unfold ring_at, block_of. by rewrite H. Qed.

Lemma ring_fresh_same sb d d' n : same_ring sb d d' -> ring_fresh sb d n -> ring_fresh sb d' n.
Proof. intros Hs H i cm Hi. rewrite (same_ring_at _ _ _ _ Hs Hi). by apply H. Qed.

Section states.
Context (sb : Superblock) (sz : Z).

Lemma ready_control d v c :
  ready sb sz d v c ->
  control_typed v /\ ValidateControlFields v = Ok tt /\
  jc_filesystem_uuid v = sb_filesystem_uuid sb /\ ring_blocks v = ring_size sb /\
  3 <= ring_blocks v.
Proof.
  intros [Hi Hs _]. destruct (selected_inv sb sz d v c Hi Hs) as (H1 & H2 & _ & H3 & H4).
  pose proof (ring_size_bounds sb (img_geometry _ _ _ Hi)). rewrite H4. tauto.
Qed.

Lemma tx_position_bound v i : 3 <= ring_blocks v -> ring_blocks v = ring_size sb ->
  0 <= tx_position v i < ring_size sb.
Proof. intros H <-. apply Z.mod_pos_bound. lia. Qed.

Lemma tail_position v : ring_blocks v = ring_size sb -> ValidateControlFields v = Ok tt ->
  control_typed v -> tail v = tx_position v 0 /\ 0 <= tail v < ring_size sb.
Proof.
  intros <- Hv (_ & _ & _ & _ & Ht & _). apply validate_control_spec in Hv as (_ & _ & H & _).
  unfold tx_position. rewrite Z.add_0_r, Z.mod_small; word.
Qed.

Lemma exposed_same d d' v c desc meta :
  ready sb sz d v c -> same_ring sb d d' ->
  exposed sb d v desc meta -> exposed sb d' v desc meta.
Proof.
  intros Hr Hs He. destruct (ready_control _ _ _ Hr) as (Ht & Hv & _ & Hn & H3).
  destruct (tail_position v Hn Hv Ht) as [_ Htl]. destruct He. constructor; try done.
  - by rewrite (same_ring_at _ _ _ _ Hs Htl).
  - intros i p Hp. rewrite (same_ring_at sb d d'); [by apply exp_payloads0|done|].
    by apply tx_position_bound.
Qed.

Lemma commit_block_same d d' v c meta :
  ready sb sz d v c -> same_ring sb d d' -> commit_block sb d' v meta = commit_block sb d v meta.
Proof.
  intros Hr Hs. destruct (ready_control _ _ _ Hr) as (_ & _ & _ & Hn & H3).
  apply same_ring_at; [done|]. by apply tx_position_bound.
Qed.

(** A change of home blocks only. *)
Lemma ready_home d d' v c :
  ready sb sz d v c -> (forall blk, in_journal sb blk -> d' !! blk = d !! blk) ->
  image_ok sb sz d' -> ready sb sz d' v c /\ same_ring sb d d'.
Proof.
  intros [Hi Hs Hf] Hj Hi'. pose proof (img_geometry _ _ _ Hi) as G.
  assert (same_ring sb d d') as Hr by (intros i ?; apply Hj, ring_in_journal; done).
  split; [|done]. constructor; [done| |by eapply ring_fresh_same].
  rewrite <- Hs. apply selected_change. intros k. by apply Hj, control_in_journal.
Qed.

(** A change of the other control block that does not get selected. *)
Lemma ready_control_change d d' v c :
  ready sb sz d v c -> (forall blk, blk <> control_block sb (other c) -> d' !! blk = d !! blk) ->
  image_ok sb sz d' -> selected sb d' = Ok (v, c) -> ready sb sz d' v c /\ same_ring sb d d'.
Proof.
  intros [Hi Hs Hf] Hj Hi' Hs'.
  assert (same_ring sb d d') as Hr.
  { intros i [? _]. apply Hj. by apply not_eq_sym, control_not_ring. }
  split; [|done]. constructor; [done|done|by eapply ring_fresh_same].
Qed.

(** ** Publishing a control *)
Section publish.
Context (d : image) (v : JournalControl) (c : ControlCopy) (next : JournalControl).
Context (Hi : image_ok sb sz d) (Hsel : selected sb d = Ok (v, c)).
Context (Hty : control_typed next) (Hval : ValidateControlFields next = Ok tt).
Context (Hgen : jc_generation next = wrap64 (jc_generation v + 1)).
Context (Huuid : jc_filesystem_uuid next = sb_filesystem_uuid sb).
Context (Hring : ring_blocks next = ring_size sb).

Let target := control_block sb (other c).
Definition published : JournalControl := with_checksum next (ControlCodec.crc next).

Lemma target_bounds : 0 < target < total_blocks sb.
Proof. apply in_journal_image; [eapply img_geometry; eauto|]. apply control_in_journal. eapply img_geometry; eauto. Qed.

Lemma image_ok_target b : block_wf b -> image_ok sb sz (<[target := b]> d).
Proof.
  intros Hb. pose proof target_bounds. apply (image_ok_change sb sz d); [done| |].
  - by rewrite lookup_insert_ne by lia.
  - intros blk _. destruct (decide (blk = target)) as [->|].
    + right. exists b. by rewrite lookup_insert_eq.
    + left. by rewrite lookup_insert_ne.
Qed.

Lemma publish_new :
  image_ok sb sz (<[target := ControlCodec.image next]> d) /\
  selected sb (<[target := ControlCodec.image next]> d) = Ok (published, other c).
Proof.
  split.
  - apply image_ok_target, ControlCodec.control_image_wf. apply Hty.
  - unfold target. rewrite selected_insert. apply select_successor with (v := v).
    + exact Hsel.
    + by destruct (selected_inv sb sz d v c Hi Hsel) as ((_ & _ & ? & _) & _).
    + by apply ControlCodec.control_decode_image.
    + unfold matches, published. cbn [with_checksum jc_filesystem_uuid ring_blocks].
      by rewrite Huuid, Hring, bool_decide_eq_true_2, Z.eqb_refl.
    + done.
Qed.

Lemma publish_smeared d' :
  smeared sb d [(target, ControlCodec.image next)] d' ->
  (forall blk, blk <> target -> d' !! blk = d !! blk) /\ image_ok sb sz d' /\
  (selected sb d' = Ok (v, c) \/ d' = <[target := ControlCodec.image next]> d).
Proof.
  intros Hsm.
  assert (forall blk, blk <> target -> d' !! blk = d !! blk) as Hout.
  { intros blk Hne. destruct (Hsm blk) as [?|(b & Hb%list_elem_of_singleton & _)]; congruence. }
  split; [exact Hout|].
  destruct (d' !! target) as [b|] eqn:Eb.
  2:{ destruct (img_blocks _ _ _ Hi target) as (b & E & _); [pose proof target_bounds; lia|].
      exfalso. destruct (Hsm target) as [?|(b' & _ & [?|(b'' & ? & _)])]; congruence. }
  assert (d' = <[target := b]> d) as ->.
  { apply map_eq. intros blk. destruct (decide (blk = target)) as [->|].
    - by rewrite lookup_insert_eq.
    - rewrite lookup_insert_ne by done. by apply Hout. }
  destruct (Hsm target) as [E|(b' & Hb'%list_elem_of_singleton & [E|(b'' & E & Hw & Hj)])].
  - rewrite Eb in E. rewrite insert_id by done. eauto.
  - rewrite Eb in E. injection E as ->. injection Hb' as ->.
    split; [apply publish_new|by right].
  - rewrite Eb in E. injection E as <-. split; [by apply image_ok_target|]. left.
    unfold target. rewrite selected_insert. apply select_other_invalid; [exact Hsel|].
    apply Hj, control_in_journal. eapply img_geometry; eauto.
Qed.
End publish.
End states.
