(* ===== verification/RecoveryProofs.v ===== *)
(** Recovery: opening, classifying and resolving an image in any state a crash
    can leave behind ([recoverable]), under arbitrary system-call failures and
    with crash invariants tracked throughout. *)
From S2P Require Import Prelude Codec Crc32c OndiskFormat OndiskFormatProofs OndiskJournal OndiskJournalProofs.
From S2P Require Import RingReservation Disk JournalStore JournalImage CrashLogic JournalStates.
Import ControlSelection.
Open Scope Z_scope.
Open Scope store_scope.

(** * The clean successor *)
Lemma clean_control_typed v : control_typed v -> control_typed (clean_control v).
Proof.
  intros (H1 & H2 & H3 & H4 & H5 & H6 & H7 & H8 & H9 & H10 & H11). unfold clean_control, control_typed.
  cbn -[u32 u64]. conj_split; try done. apply wrap64_u64.
Qed.

Lemma clean_control_valid v :
  control_typed v -> ValidateControlFields v = Ok tt -> ValidateControlFields (clean_control v) = Ok tt.
Proof.
  intros Ht Hv. apply validate_control_spec in Hv as (H1 & H2 & H3 & H4 & H5 & H6 & H7 & H8).
  destruct Ht as (_ & _ & _ & Hh & _). apply validate_control_spec. cbn.
  unfold kMinimumJournalRingBlocks in *. conj_split; try tauto; try word.
  rewrite Z.add_0_r, Z.mod_small; word.
Qed.

(** * Descriptor entries built from a sorted map *)
Section entries.
Context (sb : Superblock) (v : JournalControl).

(** The entries and the list they are built from, position by position. *)
Lemma build_entries_cons p l k n es :
  build_entries sb (p :: l) (map (tx_position v) (seq k (S n))) = Some es ->
  exists rest, es = mkEntry p.1 (tx_position v k) (Crc32c p.2) 0 :: rest /\
    IsValidMetadataTarget sb p.1 = true /\
    build_entries sb l (map (tx_position v) (seq (S k) n)) = Some rest.
Proof.
  destruct p as [home payload]. cbn [build_entries seq map List.hd List.tl fst snd].
  destruct (IsValidMetadataTarget sb home) eqn:E; [|done].
  destruct (build_entries sb l _) as [rest|] eqn:Eb; [|done].
  intros [= <-]. exists rest. done.
Qed.

Lemma build_entries_targets l k es :
  build_entries sb l (map (tx_position v) (seq k (length l))) = Some es ->
  length es = length l /\ Forall (fun p => IsValidMetadataTarget sb p.1 = true) l.
Proof.
  revert k es. induction l as [|p l IH]; intros k es H.
  - injection H as <-. done.
  - apply build_entries_cons in H as (rest & -> & Hp & H).
    destruct (IH _ _ H) as [Hl Hf]. simpl. split; [by rewrite Hl|by constructor].
Qed.
End entries.

Section recovery.
Context (sb : Superblock) (d0 : image) (sz : Z) (F : Prop).
Context (I : list DurableStage -> image -> Prop).

Abbreviation Runs := (runs sb d0 sz F I).

Ltac step := apply runs_bind.

(** ** Opening *)
Lemma runs_load d v c st (Q : Superblock * JournalControl * ControlCopy -> view -> Prop) :
  ready sb sz d v c -> Q (sb, v, c) (V d [] st) ->
  runs_io sb d0 sz F I LoadControlStateFromFd (V d [] st) Q.
Proof.
  intros [Hi Hs _] HQ. pose proof (img_geometry _ _ _ Hi) as G.
  destruct (geo_bounds sb G) as (_ & _ & Ht & _).
  apply runs_io_bind, runs_syscall. intros e Hv Hsafe.
  pose proof Hv as (_ & _ & Hz). cbv zeta. rewrite Hz.
  pose proof (in_journal_image sb G _ (control_in_journal sb G kA)) as HA.
  pose proof (in_journal_image sb G _ (control_in_journal sb G kB)) as HB.
  assert ((sz <? kBlockSize) || negb (sz mod kBlockSize =? 0) = false) as ->.
  { rewrite (img_size _ _ _ Hi), Z.mod_mul by done. cbn [Z.eqb negb]. rewrite orb_false_r.
    apply Z.ltb_ge. unfold kBlockSize in *. lia. }
  match goal with |- context [io_bind (PreadAll 0) ?k e] =>
    apply (fun H : runs_io sb d0 sz F I (io_bind (PreadAll 0) k) (V d [] st) Q => H e Hv Hsafe)
  end. clear e Hv Hsafe Hz.
  destruct (img_super _ _ _ Hi) as (b0 & E0 & Hd0).
  apply runs_io_bind. change 0 with (0 * kBlockSize). apply (runs_pread _ _ _ _ _ _ _ b0); [exact E0|].
  rewrite Hd0, (img_features _ _ _ Hi). cbn [Z.eqb negb].
  rewrite <- (img_size _ _ _ Hi), Z.eqb_refl. cbn [negb].
  apply runs_io_bind. apply (runs_pread _ _ _ _ _ _ _ (controls sb d kA)).
  { cbn [vl vd]. unfold controls. rewrite <- img_lookup with (sb := sb) (size := sz); [|done|lia].
    unfold control_block, js. by rewrite Z.add_0_r. }
  apply runs_io_bind.
  replace (start_block (journal sb) * kBlockSize + kBlockSize)
    with (control_block sb kB * kBlockSize) by (unfold control_block, js; lia).
  apply (runs_pread _ _ _ _ _ _ _ (controls sb d kB)).
  { cbn [vl vd]. apply (img_lookup sb sz); [done|lia]. }
  rewrite (ring_size_eq sb G). unfold selected, select in Hs. rewrite Hs.
  by apply runs_io_ret.
Qed.

(** ** Publishing a control *)
Lemma runs_persist d v c st s next Q :
  superblock_ s = sb -> current_ s = v -> current_copy_ s = c -> reload_required_ s = false ->
  image_ok sb sz d -> selected sb d = Ok (v, c) ->
  control_typed next -> ValidateControlFields next = Ok tt ->
  jc_generation next = wrap64 (jc_generation v + 1) -> HasSameIdentity v next = true ->
  (forall d', smeared sb d [(control_block sb (other c), ControlCodec.image next)] d' -> I st d') ->
  Q tt (set_current s (published next) (other c))
    (V (<[control_block sb (other c) := ControlCodec.image next]> d) [] st) ->
  Runs (PersistNext next) s (V d [] st) Q.
Proof.
  intros Hsb Hcur Hcopy Hrel Hi Hsel Hty Hval Hgen Hid HI HQ.
  pose proof (img_geometry _ _ _ Hi) as G.
  destruct (selected_inv sb sz d v c Hi Hsel) as (_ & _ & _ & Hu & Hr).
  unfold PersistNext. step. apply runs_get. rewrite Hsb, Hcur, Hcopy, Hrel, Hid, Hgen.
  apply runs_bind, runs_check; [done|intros _].
  assert (ring_blocks next = ring_size sb /\ jc_filesystem_uuid next = sb_filesystem_uuid sb)
    as [Hr' Hu'].
  { unfold HasSameIdentity in Hid. bool_to_prop. split; congruence. }
  rewrite (ring_size_eq sb G), Hr', Hu', Z.eqb_refl, bool_decide_eq_true_2 by done.
  apply runs_bind, runs_check; [done|intros _]. rewrite Z.eqb_refl.
  apply runs_bind, runs_check; [done|intros _].
  rewrite ControlCodec.control_encode_eq, Hval by apply Hty.
  assert (wrap32 (start_block (journal sb) +
            match match c with kA => kB | kB => kA end with kA => 0 | kB => 1 end)
          = control_block sb (other c)) as ->.
  { pose proof (in_journal_image sb G _ (control_in_journal sb G (other c))) as Hb.
    destruct (geo_bounds sb G) as (_ & _ & Ht & _). unfold control_block, js in *.
    rewrite wrap32_small; destruct c; simpl in *; (done || word). }
  step. apply runs_latch, runs_lift. apply runs_pwrite; [exact HI|]. cbn [app].
  step. apply runs_latch, runs_lift. apply runs_fdatasync; [|].
  { apply HI, (smeared_writes sb d [(_, _)]). }
  apply runs_modify. unfold published, with_checksum in HQ.
  rewrite Hr', Hu', Hgen in HQ. exact HQ.
Qed.

(** ** Reading the ring *)
Lemma runs_ring_block d s i st (Q : bytes -> JournalControlStore -> view -> Prop) :
  image_ok sb sz d -> 0 <= i < ring_size sb -> Q (ring_at sb d i) s (V d [] st) ->
  Runs (ReadRingBlock sb i) s (V d [] st) Q.
Proof.
  intros Hi Hb HQ. pose proof (img_geometry _ _ _ Hi) as G.
  pose proof (in_journal_image sb G _ (ring_in_journal sb i Hb)) as Hr.
  unfold ReadRingBlock. rewrite (ring_size_eq sb G).
  apply runs_bind, runs_check; [intros H; bool_to_prop; lia|intros _].
  apply runs_bind, runs_check.
  { intros H. exfalso. unfold kJournalControlBlockCount, ring_block, ring_size, js in *.
    apply orb_prop in H as [H|H]; bool_to_prop; lia. }
  intros _. apply runs_lift, (runs_pread _ _ _ _ _ _ _ (ring_at sb d i)); [|exact HQ].
  apply (img_lookup sb sz); [done|]. unfold kJournalControlBlockCount, ring_block, js in *. lia.
Qed.

Section classify.
Context (d : image) (v : JournalControl) (c : ControlCopy).
Context (Hready : ready sb sz d v c).

Lemma position_in_ring i : 0 <= tx_position v i < ring_size sb.
Proof. destruct (ready_control sb sz d v c Hready) as (_ & _ & _ & ? & ?). by apply tx_position_bound. Qed.

Lemma advance_position k : 0 <= k <= ring_blocks v ->
  Advance (tail v) k (ring_blocks v) = tx_position v (Z.to_nat k).
Proof.
  intros Hk. destruct (ready_control sb sz d v c Hready) as ((Hr & _ & _ & _ & Ht & _) & _ & _ & _ & H3).
  rewrite Advance_mod by (done || lia). unfold tx_position. by rewrite Z2Nat.id by lia.
Qed.

Lemma runs_check_entries l es k s st (Q : unit -> JournalControlStore -> view -> Prop) :
  build_entries sb l (map (tx_position v) (seq (S k) (length l))) = Some es ->
  Z.of_nat (k + length l) <= ring_blocks v -> Q tt s (V d [] st) ->
  Runs (check_entries sb v (Z.of_nat k) es) s (V d [] st) Q.
Proof.
  revert es k. induction l as [|p l IH]; intros es k Hb Hk HQ.
  - injection Hb as <-. by apply runs_ret.
  - apply build_entries_cons in Hb as (rest & -> & Hp & Hb). cbn [length] in Hk.
    cbn [check_entries payload_ring_index home_block].
    rewrite advance_position by lia.
    replace (Z.to_nat (Z.of_nat k + 1)) with (S k) by lia. rewrite Z.eqb_refl, Hp.
    apply runs_bind, runs_check; [done|intros _].
    apply runs_bind, runs_check; [done|intros _].
    replace (Z.of_nat k + 1) with (Z.of_nat (S k)) by lia.
    apply IH; [done|lia|done].
Qed.

Lemma runs_read_payloads l es k acc s st (Q : image -> JournalControlStore -> view -> Prop) :
  build_entries sb l (map (tx_position v) (seq k (length l))) = Some es ->
  (forall i p, l !! i = Some p -> ring_at sb d (tx_position v (k + i)) = p.2) ->
  NoDup l.*1 -> (forall p, p ∈ l -> acc !! p.1 = None) ->
  Q (insert_all l acc) s (V d [] st) ->
  Runs (read_payloads sb es acc) s (V d [] st) Q.
Proof.
  revert es k acc. induction l as [|p l IH]; intros es k acc Hb Hp Hnd Hacc HQ.
  - injection Hb as <-. by apply runs_ret.
  - apply build_entries_cons in Hb as (rest & -> & _ & Hb).
    inversion Hnd as [|? ? Hn1 Hn2]; subst.
    cbn [read_payloads payload_ring_index home_block payload_crc32c].
    step. apply runs_ring_block; [apply (rdy_image _ _ _ _ _ Hready)|apply position_in_ring|].
    pose proof (Hp 0%nat p eq_refl) as Hp0. rewrite Nat.add_0_r in Hp0. rewrite Hp0, Z.eqb_refl.
    apply runs_bind, runs_check; [done|intros _].
    rewrite (Hacc p) by left. apply (IH rest (S k)); [done| |done| |exact HQ].
    + intros i q Hi. rewrite <- (Hp (S i) q Hi). do 2 f_equal. lia.
    + intros q Hq. rewrite lookup_insert_ne; [apply Hacc; by right|].
      intros E. apply Hn1. rewrite E. apply list_elem_of_fmap. eauto.
Qed.

(** ** Classification *)
Context (s : JournalControlStore) (st : list DurableStage).
Context (Hsb : superblock_ s = sb) (Hcur : current_ s = v) (Hrel : reload_required_ s = false).

Lemma runs_classify_clean (Q : RecoveryState -> JournalControlStore -> view -> Prop) :
  used_blocks v = 0 -> Q kEmpty (set_validated s None) (V d [] st) ->
  Runs ClassifyRecovery s (V d [] st) Q.
Proof.
  intros Hu HQ. unfold ClassifyRecovery. step. apply runs_modify. step. apply runs_get.
  apply runs_bind, runs_check; [cbn; congruence|intros _]. cbn. rewrite Hcur, Hu.
  by apply runs_ret.
Qed.

Context (desc : DescriptorRecord) (meta : image) (Hexp : exposed sb d v desc meta).

Definition validated : ValidatedTransaction :=
  mkValidated (dr_transaction_id desc) (tail v) (tx_position v (size meta + 1)) meta.

Lemma exposed_facts :
  u64 (next_transaction_id v) /\ 1 < next_transaction_id v /\ length (entries desc) = size meta /\
  Z.of_nat (size meta) + 2 <= ring_blocks v /\ used_blocks v <> 0 /\
  head v = tx_position v (size meta + 2) /\ 0 <= tail v < ring_size sb.
Proof.
  destruct (ready_control sb sz d v c Hready) as (Ht & Hv & _ & Hn & H3).
  destruct (tail_position sb v Hn Hv Ht) as [_ Htl].
  destruct Hexp as [[Hc1 Hc] Hd _ Hid _ He _].
  rewrite <- (length_sorted_entries meta) in He.
  apply build_entries_targets in He as [He' _]. rewrite length_sorted_entries in He'.
  apply validate_control_spec in Hv as (_ & _ & _ & Hu & _ & _ & Hh & _).
  destruct Ht as (_ & _ & _ & _ & _ & _ & _ & Hnx & _).
  apply DescriptorCodec.descriptor_encode_decode in Hd as (Hdt & Hda & _).
  2:{ destruct (rdy_image _ _ _ _ _ Hready) as [_ G _ _ _].
      apply (img_block_wf sb sz); [apply (rdy_image _ _ _ _ _ Hready)|].
      pose proof (in_journal_image sb G _ (ring_in_journal sb _ Htl)). lia. }
  destruct Hdt as (Hdid & _). destruct Hda as (Hd0 & _).
  conj_split; try done; try word.
  rewrite Hh, Hc. unfold tx_position. do 2 f_equal. lia.
Qed.

Lemma runs_classify_exposed (Q : RecoveryState -> JournalControlStore -> view -> Prop) :
  (uncommitted sb d v desc meta -> Q kUncommitted (set_validated s None) (V d [] st)) ->
  (committed sb d v desc meta ->
     Q kCommitted (set_validated s (Some validated)) (V d [] st)) ->
  (F -> uncommitted sb d v desc meta \/ committed sb d v desc meta) ->
  Runs ClassifyRecovery s (V d [] st) Q.
Proof.
  intros HQu HQc Hor. pose proof (rdy_image _ _ _ _ _ Hready) as Hi.
  destruct exposed_facts as (Hnx & Hn1 & Hlen & Hfit & Hused & Hh & Htl).
  destruct Hexp as [[Hc1 Hc] Hd Hu Hid Hb He Hp].
  unfold ClassifyRecovery. step. apply runs_modify. step. apply runs_get.
  apply runs_bind, runs_check; [cbn; congruence|intros _].
  cbn [current_ superblock_ set_validated]. rewrite Hcur, Hsb.
  rewrite (proj2 (Z.eqb_neq _ _) Hused).
  apply runs_bind, runs_check; [intros ?; bool_to_prop; lia|intros _].
  step. apply runs_ring_block; [done|done|]. rewrite Hd, Hu, Hb.
  rewrite bool_decide_eq_true_2 by done. rewrite wrap64_small by word.
  replace (next_transaction_id v - 1) with (dr_transaction_id desc) by lia.
  rewrite !Z.eqb_refl.
  do 3 (apply runs_bind, runs_check; [done|intros _]).
  rewrite <- (length_sorted_entries meta) in He.
  step. apply (runs_check_entries _ _ 0 _ _ _ He); [rewrite length_sorted_entries; lia|].
  rewrite Hlen, !advance_position by lia.
  replace (Z.to_nat (Z.of_nat (size meta) + 2)) with (size meta + 2)%nat by lia.
  rewrite <- Hh, Z.eqb_refl. apply runs_bind, runs_check; [done|intros _].
  step. apply (runs_read_payloads _ _ 1 _ _ _ _ He).
  { intros i p Hip. by apply Hp. }
  { apply NoDup_sorted_keys. }
  { intros p _. apply lookup_empty. }
  rewrite insert_all_sorted, (right_id_L ∅ (∪)).
  replace (Z.to_nat (Z.of_nat (size meta) + 1)) with (size meta + 1)%nat by lia.
  step. apply runs_ring_block; [done|apply position_in_ring|].
  fold (commit_block sb d v meta).
  unfold uncommitted, committed in HQu, HQc, Hor.
  destruct (DecodeCommit (commit_block sb d v meta)) as [cm|] eqn:Ecm.
  2:{ apply runs_ret, HQu. done. }
  destruct (Z.eqb_spec (cr_transaction_id cm) (dr_transaction_id desc)) as [Ei|Ei]; cbn [negb].
  - destruct (CommitMatchesDescriptor desc (tail v) cm) eqn:Hm; cbn [negb]; apply runs_bind, runs_check.
    + done.
    + intros _. step. apply runs_modify, runs_ret. apply HQc. eauto.
    + intros _ HF. destruct (Hor HF) as [Hor'|(cm' & E & Hm')]; [by destruct (Hor' cm eq_refl)|]. ok_inv E. congruence.
    + done.
  - apply runs_ret, HQu. intros cm' E. by ok_inv E.
Qed.
End classify.
End recovery.

(** * The states a recovery step leads to *)
Section transitions.
Context (sb : Superblock) (sz : Z).

Lemma settled_recoverable d T : settled sb sz d T -> recoverable sb sz d T.
Proof. intros (v & c & ? & ? & ?). by eapply rec_clean. Qed.

Lemma other_control_home c d T b :
  geometry sb -> home_eq sb d T -> home_eq sb (<[control_block sb c := b]> d) T.
Proof.
  intros G H blk Hb. rewrite lookup_insert_ne; [by apply H|].
  intros <-. by apply Hb, control_in_journal.
Qed.

Lemma control_change_home c d d' T :
  geometry sb -> (forall blk, blk <> control_block sb c -> d' !! blk = d !! blk) ->
  home_eq sb d T -> home_eq sb d' T.
Proof.
  intros G Hc H blk Hb. rewrite Hc; [by apply H|]. intros ->. by apply Hb, control_in_journal.
Qed.

(** The published control is the one a later start selects. *)
Lemma ready_published d v c next :
  ready sb sz d v c -> control_typed next -> ValidateControlFields next = Ok tt ->
  jc_generation next = wrap64 (jc_generation v + 1) ->
  jc_filesystem_uuid next = sb_filesystem_uuid sb -> ring_blocks next = ring_size sb ->
  next_transaction_id v <= next_transaction_id next ->
  ready sb sz (<[control_block sb (other c) := ControlCodec.image next]> d) (published next) (other c) /\
  same_ring sb d (<[control_block sb (other c) := ControlCodec.image next]> d).
Proof.
  intros [Hi Hs Hf] Hty Hval Hg Hu Hr Hn.
  destruct (publish_new sb sz d v c next Hi Hs Hty Hval Hg Hu Hr) as [Hi' Hs'].
  assert (same_ring sb d (<[control_block sb (other c) := ControlCodec.image next]> d)) as Hring.
  { intros i [? _]. apply lookup_insert_ne. by apply control_not_ring. }
  split; [|done]. constructor; [done|done|].
  intros i cm Hb E. rewrite (same_ring_at _ _ _ _ Hring Hb) in E.
  pose proof (Hf i cm Hb E). cbn. lia.
Qed.

Lemma same_identity_clean v : HasSameIdentity v (clean_control v) = true.
Proof. unfold HasSameIdentity. cbn. by rewrite !Z.eqb_refl, bool_decide_eq_true_2. Qed.

(** Releasing the exposed range: the old state, or the clean one. *)
Lemma release_settled d T v c :
  ready sb sz d v c -> home_eq sb d T ->
  settled sb sz (<[control_block sb (other c) := ControlCodec.image (clean_control v)]> d) T.
Proof.
  intros Hr HT. pose proof (img_geometry _ _ _ (rdy_image _ _ _ _ _ Hr)) as G.
  destruct (ready_control sb sz d v c Hr) as (Ht & Hv & Hu & Hn & _).
  destruct (ready_published d v c (clean_control v) Hr) as [Hr' _]; try done.
  - by apply clean_control_typed.
  - by apply clean_control_valid.
  - exists (published (clean_control v)), (other c). split; [done|]. split; [done|].
    by apply other_control_home.
Qed.

Lemma release_smeared d d' T v c :
  ready sb sz d v c -> home_eq sb d T ->
  smeared sb d [(control_block sb (other c), ControlCodec.image (clean_control v))] d' ->
  (ready sb sz d' v c /\ same_ring sb d d' /\ home_eq sb d' T) \/ settled sb sz d' T.
Proof.
  intros Hr HT Hsm. pose proof (rdy_image _ _ _ _ _ Hr) as Hi.
  destruct (ready_control sb sz d v c Hr) as (Ht & Hv & Hu & Hn & _).
  destruct (publish_smeared sb sz d v c (clean_control v) Hi (rdy_selected _ _ _ _ _ Hr))
    with (d' := d') as (Hout & Hi' & [Hs| ->]); try done.
  - by apply clean_control_typed.
  - by apply clean_control_valid.
  - left. destruct (ready_control_change sb sz d d' v c Hr Hout Hi' Hs) as [? ?].
    split; [done|]. split; [done|].
    eapply control_change_home; [apply (img_geometry _ _ _ Hi)|exact Hout|done].
  - right. by apply release_settled.
Qed.

(** Replaying: rewriting home blocks keeps the committed body. *)
Lemma replay_smeared d d' T v c desc meta :
  ready sb sz d v c -> exposed sb d v desc meta -> committed sb d v desc meta ->
  map_Forall (fun _ b => block_wf b) meta -> home_eq sb (meta ∪ d) T ->
  smeared sb d (sorted_entries meta) d' ->
  ready sb sz d' v c /\ exposed sb d' v desc meta /\ committed sb d' v desc meta /\
  home_eq sb (meta ∪ d') T.
Proof.
  intros Hr He Hc Hw HT Hsm. pose proof (rdy_image _ _ _ _ _ Hr) as Hi.
  pose proof (img_geometry _ _ _ Hi) as G.
  assert (forall blk, meta !! blk = None -> d' !! blk = d !! blk) as Hout.
  { intros blk Hb. destruct (Hsm blk) as [?|(b & Hin%elem_of_sorted_entries & _)]; [done|congruence]. }
  pose proof (exp_entries _ _ _ _ _ He) as Hent. rewrite <- (length_sorted_entries meta) in Hent.
  apply build_entries_targets in Hent as [_ Htgt].
  assert (forall blk, in_journal sb blk \/ blk = 0 -> meta !! blk = None) as Hj.
  { intros blk Hb. destruct (meta !! blk) as [b|] eqn:E; [|done]. exfalso.
    apply elem_of_sorted_entries in E. rewrite Forall_forall in Htgt.
    destruct (target_not_journal sb (blk, b).1) as (Hnj & Hn0 & _); [by apply Htgt|].
    destruct Hb as [Hb|Hb]; [by apply Hnj|]. by cbn in Hn0. }
  assert (image_ok sb sz d') as Hi'.
  { apply (image_ok_change sb sz d); [done|apply Hout, Hj; by right|].
    intros blk _. destruct (Hsm blk) as [?|(b & Hin%elem_of_sorted_entries & [E|(b' & E & Hb' & _)])];
      [by left|right..].
    - exists b. split; [done|]. by apply (Hw blk).
    - eauto. }
  destruct (ready_home sb sz d d' v c Hr) as [Hr' Hring]; [intros; apply Hout, Hj; by left|done|].
  split; [done|]. split; [by apply (exposed_same sb sz d d' v c)|]. split.
  - destruct Hc as (cm & E & Hm). exists cm. split; [|done].
    by rewrite (commit_block_same sb sz d d' v c meta Hr Hring).
  - intros blk Hb. rewrite <- HT by done. destruct (meta !! blk) as [b|] eqn:E.
    + by rewrite !(lookup_union_Some_l _ _ _ _ E).
    + rewrite !lookup_union_r by done. by apply Hout.
Qed.

Lemma same_ring_exposed d d' v c desc meta T :
  ready sb sz d v c -> ready sb sz d' v c -> same_ring sb d d' ->
  exposed sb d v desc meta ->
  (uncommitted sb d v desc meta /\ home_eq sb d' T) \/
  (committed sb d v desc meta /\ map_Forall (fun _ b => block_wf b) meta /\
   home_eq sb (meta ∪ d') T) ->
  recoverable sb sz d' T.
Proof.
  intros Hr Hr' Hs He H.
  pose proof (commit_block_same sb sz d d' v c meta Hr Hs) as Hcb.
  pose proof (exposed_same sb sz d d' v c desc meta Hr Hs He) as He'.
  destruct H as [[Hu HT]|((cm & E & Hm) & Hw & HT)].
  - eapply rec_discard; [exact Hr'|exact He'| |done]. intros cm. rewrite Hcb. apply Hu.
  - eapply rec_replay; [exact Hr'|exact He'| |done|done]. exists cm. by rewrite Hcb.
Qed.
End transitions.

(** * Resolution *)
Section resolve.
Context (sb : Superblock) (d0 : image) (sz : Z) (T : image) (F : Prop).

Definition recovering (_ : list DurableStage) (c : image) : Prop := recoverable sb sz c T.

Abbreviation Runs := (runs sb d0 sz F recovering).

(** Publishing the clean control from a state in which a crash that keeps the
    old control is still recoverable. *)
Lemma runs_release d v c st s (Q : RecoveryAction -> JournalControlStore -> view -> Prop) a :
  superblock_ s = sb -> current_ s = v -> current_copy_ s = c -> reload_required_ s = false ->
  ready sb sz d v c -> home_eq sb d T ->
  (forall d', ready sb sz d' v c -> same_ring sb d d' -> home_eq sb d' T -> recoverable sb sz d' T) ->
  (forall s' d', settled sb sz d' T -> Q a s' (V d' [] st)) ->
  Runs (PersistNext (clean_control v) ;; modify (fun s => set_validated s None) ;; ret a)
    s (V d [] st) Q.
Proof.
  intros Hsb Hcur Hcopy Hrel Hr HT Hold HQ.
  destruct (ready_control sb sz d v c Hr) as (Hty & Hval & _).
  apply runs_bind, (runs_persist sb d0 sz F recovering d v c); try done.
  - apply Hr.
  - apply Hr.
  - by apply clean_control_typed.
  - by apply clean_control_valid.
  - apply same_identity_clean.
  - intros d' Hsm. destruct (release_smeared sb sz d d' T v c Hr HT Hsm) as [(Hr' & Hs & HT')|Hset].
    + by apply Hold.
    + by apply settled_recoverable.
  - apply runs_bind, runs_modify, runs_ret, HQ. by apply release_settled.
Qed.

Definition resolved (_ : RecoveryAction) (_ : JournalControlStore) (v' : view) : Prop :=
  vl v' = [] /\ settled sb sz (vd v') T.

Lemma matches_id desc t cm :
  CommitMatchesDescriptor desc t cm = true -> cr_transaction_id cm = dr_transaction_id desc.
Proof. unfold CommitMatchesDescriptor. intros Hm. bool_to_prop. done. Qed.

Lemma not_both d v desc meta :
  uncommitted sb d v desc meta -> committed sb d v desc meta -> False.
Proof. intros Hu (cm & E & Hm). by apply (Hu cm E), (matches_id desc (tail v)). Qed.

Lemma runs_discard d v c desc meta st :
  ready sb sz d v c -> exposed sb d v desc meta -> uncommitted sb d v desc meta ->
  home_eq sb d T -> Runs ResolveRecovery (new_store sb v c) (V d [] st) resolved.
Proof.
  intros Hr He Hun HT. unfold ResolveRecovery. apply runs_bind, runs_get.
  do 2 (apply runs_bind, runs_check; [done|intros _]). apply runs_bind.
  apply (runs_classify_exposed sb d0 sz F recovering d v c Hr) with (desc := desc) (meta := meta);
    try done; [|intros; by edestruct not_both|by left].
  intros _. apply runs_bind, runs_get. apply (runs_release d v c); try done.
  intros d' Hr' Hs HT'. eapply same_ring_exposed; [exact Hr|exact Hr'|exact Hs|exact He|by left].
Qed.

Lemma runs_replay d v c desc meta st :
  ready sb sz d v c -> exposed sb d v desc meta -> committed sb d v desc meta ->
  map_Forall (fun _ b => block_wf b) meta -> home_eq sb (meta ∪ d) T ->
  Runs ResolveRecovery (new_store sb v c) (V d [] st) resolved.
Proof.
  intros Hr He Hco Hw HT. unfold ResolveRecovery. apply runs_bind, runs_get.
  do 2 (apply runs_bind, runs_check; [done|intros _]). apply runs_bind.
  apply (runs_classify_exposed sb d0 sz F recovering d v c Hr) with (desc := desc) (meta := meta);
    try done; [intros; by edestruct not_both| |by right].
  intros _. apply runs_bind, runs_get. cbn [set_validated validated_transaction_].
  pose proof (exp_entries _ _ _ _ _ He) as Hent. rewrite <- (length_sorted_entries meta) in Hent.
  apply build_entries_targets in Hent as [_ Htgt]. rewrite Forall_forall in Htgt.
  apply runs_bind, (runs_writes sb d0 sz F recovering _ id).
  { intros x Hx v' R HR. apply runs_bind, runs_check; [by rewrite Htgt|intros _].
    by apply runs_latch, runs_lift. }
  { rewrite map_id. intros d' Hsm.
    destruct (replay_smeared sb sz d d' T v c desc meta) as (? & ? & ? & ?); try done.
    by eapply rec_replay. }
  rewrite map_id.
  destruct (replay_smeared sb sz d (meta ∪ d) T v c desc meta) as (Hr1 & He1 & Hco1 & HT1);
    try done; [apply smeared_union|].
  apply runs_bind, runs_latch, runs_lift, runs_fdatasync; cbn [validated vt_metadata_after_images];
    rewrite insert_all_sorted; [by eapply rec_replay|].
  apply (runs_release _ v c); try done.
  intros d' Hr' Hs HT'. eapply same_ring_exposed; [exact Hr1|exact Hr'|exact Hs|exact He1|right].
  split; [done|]. split; [done|]. by eapply home_eq_again.
Qed.

Lemma runs_resolve d v c st :
  recoverable sb sz d T -> selected sb d = Ok (v, c) ->
  Runs ResolveRecovery (new_store sb v c) (V d [] st) resolved.
Proof.
  intros Hrec Hsel.
  assert (forall v' c', ready sb sz d v' c' -> v' = v /\ c' = c) as Hv.
  { intros v' c' Hr. pose proof (rdy_selected _ _ _ _ _ Hr) as E. rewrite Hsel in E.
    by injection E. }
  destruct Hrec as [v0 c0 Hr Hu HT|v0 c0 desc meta Hr He Hun HT|v0 c0 desc meta Hr He Hco Hw HT];
    destruct (Hv _ _ Hr) as [-> ->].
  - unfold ResolveRecovery. apply runs_bind, runs_get.
    do 2 (apply runs_bind, runs_check; [done|intros _]). apply runs_bind.
    apply (runs_classify_clean sb d0 sz F recovering d v); [done..|].
    apply runs_bind, runs_get, runs_ret. split; [done|]. by exists v, c.
  - by eapply runs_discard.
  - by eapply runs_replay.
Qed.
End resolve.

(** * The whole recovery run *)
Section recover.
Context (sb : Superblock) (sz : Z).

Lemma runs_flock d0 F I v (Q : unit -> view -> Prop) :
  Q tt v -> runs_io sb d0 sz F I Flock v Q.
Proof.
  intros HQ e Hv Hs. unfold Flock, Syscall. destruct (responses e) as [|[n|er] rest] eqn:Er.
  - split; [done|]. split; [by rewrite Er|eauto].
  - split; [done|]. split; [by rewrite Er|]. exists v. done.
  - assert (forall er', outcome sb d0 F I e (set_responses e rest) (Err (A:=unit) er')
      (fun a => exists v', at_view d0 sz v' (set_responses e rest) /\ Q a v')) as H.
    { intros er'. split; [done|]. split; [by rewrite Er|done]. }
    destruct er; try apply H. repeat case_match; simplify_eq; apply H.
Qed.

Lemma runs_startup_open d0 F I v (Q : unit -> view -> Prop) :
  Q tt v -> runs_io sb d0 sz F I SessionOpen v Q.
Proof. intros HQ. apply runs_io_bind, runs_syscall. by apply runs_flock. Qed.

Lemma recoverable_ready d T :
  recoverable sb sz d T -> exists v c, ready sb sz d v c.
Proof. intros []; eauto. Qed.

(** Under any system-call behaviour: every crash image stays recoverable,
    and a recovery that returns has settled the image; without failures it
    does return. *)
Lemma runs_startup d T d0 F :
  recoverable sb sz d T ->
  runs_io sb d0 sz F (recovering sb sz T) StartupRecovery (V d [] [])
    (fun _ v' => vl v' = [] /\ settled sb sz (vd v') T).
Proof.
  intros Hrec. destruct (recoverable_ready d T Hrec) as (v & c & Hr).
  apply runs_io_bind, runs_startup_open, runs_io_bind, runs_syscall, runs_io_bind.
  apply runs_io_bind, runs_syscall.
  apply runs_io_bind, (runs_load sb d0 sz F _ d v c); [done|]. apply runs_io_ret.
  intros e Hv Hs.
  pose proof (runs_resolve sb d0 sz T F d v c [] Hrec (rdy_selected _ _ _ _ _ Hr) e Hv Hs) as H.
  destruct (ResolveRecovery (new_store sb v c, e)) as [[s' e'] r]. exact H.
Qed.

Lemma recover_outcome d T e :
  recoverable sb sz d T -> disk e = d -> st_size e = sz -> trace e = [] ->
  let '(e', r) := StartupRecovery e in
  safe sb d (recovering sb sz T) (trace e') /\
  (responses e = [] -> is_ok r = true /\ responses e' = []) /\
  (is_ok r = true -> settled sb sz (disk e') T /\ st_size e' = sz /\ synced d e').
Proof.
  intros Hrec Hd Hz Ht.
  assert (at_view d sz (V d [] []) e) as Hv by (split; [by rewrite Ht|done]).
  assert (safe sb d (recovering sb sz T) (trace e)) as Hs.
  { rewrite Ht. intros p x Hp%prefix_nil_inv Hx. subst p.
    apply (crash_issued sb d [] []), smeared_nil in Hx. by subst. }
  pose proof (runs_startup d T d True Hrec e Hv Hs) as H.
  destruct (StartupRecovery e) as [e' r]. destruct H as (Hs' & HF & HQ).
  split; [done|]. split; [intros Hn; by destruct (HF Logic.I Hn)|].
  destruct r as [a|er]; [intros _|done]. destruct HQ as (v2 & (Hv2 & Hd2 & Hz2) & Hl & Hset).
  unfold synced. rewrite Hv2, Hd2, Hl. done.
Qed.
End recover.
