(* ===== verification/TransactionImages.v ===== *)
(** The images a transaction passes through: ordered data, the unexposed body,
    the exposing control, COMMIT. Each lemma says what recovery will make of any
    image a crash in that phase can leave behind. *)
From S2P Require Import Prelude Codec Crc32c OndiskFormat OndiskFormatProofs OndiskJournal OndiskJournalProofs.
From S2P Require Import RingReservation Disk JournalStore JournalImage CrashLogic JournalStates RecoveryProofs.
Import ControlSelection.
Open Scope Z_scope.

(** Block maps as the caller passes them: 32-bit block numbers, whole blocks. *)
Definition blocks_typed (m : image) : Prop := map_Forall (fun k b => u32 k /\ block_wf b) m.

(** The payload writes of the body, from ring position [k] on. *)
Fixpoint payload_writes (sb : Superblock) (v : JournalControl) (l : list (Z * bytes)) (k : nat)
    : list (Z * bytes) :=
  match l with
  | [] => []
  | p :: l => (ring_block sb (tx_position v k), p.2) :: payload_writes sb v l (S k)
  end.

Lemma payload_writes_lookup sb v l k i :
  payload_writes sb v l k !! i =
  (fun p => (ring_block sb (tx_position v (k + i)), p.2)) <$> l !! i.
Proof.
  revert k i. induction l as [|p l IH]; intros k i; [done|]. destruct i as [|i].
  - cbn. by rewrite Nat.add_0_r.
  - cbn [payload_writes lookup list_lookup]. rewrite IH. by rewrite Nat.add_succ_r.
Qed.

(** Entries with distinct homes and positions pass the validator. *)
Lemma validate_entries_distinct l H P :
  Forall (fun e => home_block e <> 0 /\ entry_flags e = 0) l ->
  NoDup (home_block <$> l) -> NoDup (payload_ring_index <$> l) ->
  (forall e, e ∈ l -> home_block e ∉ H) -> (forall e, e ∈ l -> payload_ring_index e ∉ P) ->
  validate_entries_loop H P l = Ok tt.
Proof.
  revert H P. induction l as [|e l IH]; intros H P Hf Hh Hp HH HP; [done|].
  inversion Hf as [|? ? [He1 He2] Hf']; subst. inversion Hh as [|? ? Hh1 Hh2]; subst.
  inversion Hp as [|? ? Hp1 Hp2]; subst. cbn [validate_entries_loop].
  rewrite (proj2 (Z.eqb_neq _ _)), (proj2 (Z.eqb_eq _ _)) by done. cbn [negb orb].
  rewrite !bool_decide_eq_false_2 by (first [apply HH | apply HP]; by left).
  apply IH; try done.
  - intros e' He'. apply not_elem_of_union. split; [|apply HH; by right].
    intros E%elem_of_singleton. apply Hh1. rewrite <- E. apply list_elem_of_fmap. eauto.
  - intros e' He'. apply not_elem_of_union. split; [|apply HP; by right].
    intros E%elem_of_singleton. apply Hp1. rewrite <- E. apply list_elem_of_fmap. eauto.
Qed.

(** Writing blocks into the ring that are no COMMIT of a future transaction
    keeps the control selection and the home blocks. *)
Lemma ring_smeared sb sz d v c l d' :
  ready sb sz d v c ->
  (forall blk b, (blk, b) ∈ l -> (exists i, 0 <= i < ring_size sb /\ blk = ring_block sb i) /\
     block_wf b /\
     (forall cm, DecodeCommit b = Ok cm -> cr_transaction_id cm < next_transaction_id v)) ->
  smeared sb d l d' -> ready sb sz d' v c /\ home_eq sb d' d.
Proof.
  intros Hready Hl Hsm. pose proof (rdy_image _ _ _ _ _ Hready) as Hi.
  pose proof (img_geometry _ _ _ Hi) as G.
  assert (forall blk, (forall i, 0 <= i < ring_size sb -> blk <> ring_block sb i) ->
            d' !! blk = d !! blk) as Hout.
  { intros blk Hb. destruct (Hsm blk) as [?|(b & Hin & _)]; [done|].
    destruct (Hl _ _ Hin) as ((i & Hi' & ->) & _). by destruct (Hb i Hi'). }
  assert (home_eq sb d' d) as Hh.
  { intros blk Hb. apply Hout. intros i Hr ->. by apply Hb, ring_in_journal. }
  split; [|done]. constructor.
  - apply (image_ok_change sb sz d); [done| |].
    + apply Hh. intros H0. pose proof (in_journal_image sb G _ H0). lia.
    + intros blk _. destruct (Hsm blk) as [?|(b & Hin & [E|(b' & E & Hw & _)])]; [by left|right..].
      * destruct (Hl _ _ Hin) as (_ & Hw & _). eauto.
      * eauto.
  - rewrite <- (rdy_selected _ _ _ _ _ Hready). apply selected_change. intros k.
    apply Hout. intros i [Hr _]. by apply control_not_ring.
  - intros i cm Hr. unfold ring_at, block_of.
    destruct (Hsm (ring_block sb i)) as [E|(b & Hin & [E|(b' & E & _ & Hj)])]; rewrite E.
    + by apply (rdy_fresh _ _ _ _ _ Hready).
    + apply (Hl _ _ Hin).
    + cbn. destruct (Hj (ring_in_journal sb i Hr)) as [_ Hn]. intros E'. by rewrite E' in Hn.
Qed.

(** A transaction on [meta] about to be written to the clean image [d]. *)
Record prepared (sb : Superblock) (sz : Z) (d : image) (v : JournalControl) (c : ControlCopy)
    (meta : image) (plan : RingReservationPlan) : Prop := {
  prep_ready : ready sb sz d v c;
  prep_used : used_blocks v = 0;
  prep_typed : blocks_typed meta;
  (* payload blocks are not themselves COMMIT records *)
  prep_plain : map_Forall (fun _ b => is_ok (DecodeCommit b) = false) meta;
  prep_target : map_Forall (fun k _ => IsValidMetadataTarget sb k = true) meta;
  prep_plan : PlanRingReservation v (size meta) = Ok plan
}.

Section transaction.
Context (sb : Superblock) (sz : Z) (d : image) (v : JournalControl) (c : ControlCopy).
Context (meta : image) (plan : RingReservationPlan).
Context (P : prepared sb sz d v c meta plan).

Let Hready := prep_ready _ _ _ _ _ _ _ P.
Let Hused := prep_used _ _ _ _ _ _ _ P.
Let Htyped := prep_typed _ _ _ _ _ _ _ P.
Let Hplain := prep_plain _ _ _ _ _ _ _ P.
Let Htarget := prep_target _ _ _ _ _ _ _ P.
Let Hplan := prep_plan _ _ _ _ _ _ _ P.

Abbreviation n := (size meta).

Lemma control_facts :
  control_typed v /\ ValidateControlFields v = Ok tt /\
  jc_filesystem_uuid v = sb_filesystem_uuid sb /\ ring_blocks v = ring_size sb /\
  3 <= ring_blocks v /\ geometry sb.
Proof.
  destruct (ready_control sb sz d v c Hready) as (? & ? & ? & ? & ?).
  pose proof (img_geometry _ _ _ (rdy_image _ _ _ _ _ Hready)). done.
Qed.

Lemma head_tail : head v = tail v.
Proof.
  destruct control_facts as ((_ & _ & _ & _ & Ht & _) & Hv & _).
  apply validate_control_spec in Hv as (_ & _ & H & _ & _ & _ & Hh & _).
  rewrite Hh, Hused, Z.add_0_r. apply Z.mod_small. word.
Qed.

Lemma position_eq i : ring_position v i = tx_position v i.
Proof. unfold ring_position, tx_position. by rewrite head_tail. Qed.

Lemma position_bound i : 0 <= tx_position v i < ring_size sb.
Proof. destruct control_facts as (_ & _ & _ & ? & ? & _). by apply tx_position_bound. Qed.

Lemma plan_facts :
  (1 <= n <= 252)%nat /\ Z.of_nat n + 2 <= ring_blocks v /\
  0 < next_transaction_id v < uint64_max /\
  rr_transaction_id plan = next_transaction_id v /\
  descriptor_ring_index plan = tail v /\
  payload_ring_indices plan = map (tx_position v) (seq 1 n) /\
  commit_ring_index plan = tx_position v (n + 1) /\
  exposed_control plan = expose v (Z.of_nat n + 2).
Proof.
  destruct control_facts as (Hty & Hv & _).
  destruct (plan_inv v Hty n plan Hplan) as (_ & _ & H1 & H2 & H3 & H4 & H5 & H6 & H7 & H8 & _).
  apply validate_control_spec in Hv as Hv'. destruct Hv' as (_ & _ & Htl & _ & _ & Hx & _).
  destruct Hty as (_ & _ & _ & _ & Ht & _ & _ & Hnx & _).
  conj_split; try done; try word.
  - rewrite H5, position_eq. unfold tx_position. rewrite Z.add_0_r. apply Z.mod_small. word.
  - rewrite H6. apply map_ext. apply position_eq.
  - by rewrite H7, position_eq.
Qed.

(** Positions of one transaction are distinct. *)
Lemma position_inj i j :
  (i <= n + 1)%nat -> (j <= n + 1)%nat -> tx_position v i = tx_position v j -> i = j.
Proof.
  intros Hi Hj. rewrite <- !position_eq. destruct plan_facts as (_ & Hf & _).
  apply ring_position_inj; lia.
Qed.

(** ** The descriptor *)
Lemma entries_built l k :
  Forall (fun p => IsValidMetadataTarget sb p.1 = true) l ->
  build_entries sb l (map (tx_position v) (seq k (length l))) =
  Some (imap (fun i p => mkEntry p.1 (tx_position v (k + i)) (Crc32c p.2) 0) l).
Proof.
  revert k. induction l as [|[h b] l IH]; intros k Hf; [done|].
  inversion Hf as [|? ? Hp Hf']; subst. cbn [build_entries length seq map List.tl List.hd].
  cbn [fst] in Hp. rewrite Hp, IH by done. cbn [imap]. rewrite Nat.add_0_r. do 2 f_equal.
  apply imap_ext. intros i x _. cbn. by rewrite Nat.add_succ_r.
Qed.

Definition tx_entries : list DescriptorEntry :=
  imap (fun i p => mkEntry p.1 (tx_position v (1 + i)) (Crc32c p.2) 0) (sorted_entries meta).

Lemma meta_in p : p ∈ sorted_entries meta -> meta !! p.1 = Some p.2.
Proof. destruct p. by intros ?%elem_of_sorted_entries. Qed.

Lemma tx_entries_built :
  build_entries sb (sorted_entries meta) (map (tx_position v) (seq 1 n)) = Some tx_entries.
Proof.
  rewrite <- (length_sorted_entries meta). apply entries_built.
  apply Forall_forall. intros p Hp. apply (Htarget _ _ (meta_in p Hp)).
Qed.

Lemma length_tx_entries : length tx_entries = n.
Proof. unfold tx_entries. by rewrite length_imap, length_sorted_entries. Qed.

Lemma tx_entry i e : tx_entries !! i = Some e ->
  exists p, sorted_entries meta !! i = Some p /\ meta !! p.1 = Some p.2 /\ (i < n)%nat /\
    e = mkEntry p.1 (tx_position v (1 + i)) (Crc32c p.2) 0.
Proof.
  unfold tx_entries. rewrite list_lookup_imap. destruct (sorted_entries meta !! i) as [p|] eqn:E; [|done].
  intros [= <-]. exists p. split; [done|]. split; [by apply meta_in, (list_elem_of_lookup_2 _ i)|].
  split; [|done]. apply lookup_lt_Some in E. by rewrite length_sorted_entries in E.
Qed.

Lemma tx_entries_typed : Forall entry_typed tx_entries.
Proof.
  apply Forall_lookup. intros i e (p & _ & Hp & _ & ->)%tx_entry.
  destruct (Htyped _ _ Hp) as [Hk [_ Hbytes]]. pose proof (position_bound (1 + i)) as Hb.
  destruct control_facts as ((Hr & _) & _ & _ & Hrs & _).
  unfold entry_typed. cbn [home_block payload_ring_index payload_crc32c entry_flags].
  split; [done|]. split; [word|]. split; [by apply Crc32c_u32|done].
Qed.

Lemma tx_entries_valid : ValidateDescriptorEntries tx_entries = Ok tt.
Proof.
  destruct plan_facts as ((H1 & H2) & _). unfold ValidateDescriptorEntries.
  rewrite bool_decide_eq_false_2 by (intros E; pose proof length_tx_entries; rewrite E in *; simpl in *; lia).
  rewrite length_tx_entries. change kMaxDescriptorEntries with 252.
  rewrite (proj2 (Z.ltb_ge _ _)) by lia. cbn [orb].
  apply validate_entries_distinct; [..|set_solver|set_solver].
  - apply Forall_lookup. intros i e (p & _ & Hp & _ & ->)%tx_entry.
    destruct (target_not_journal sb p.1 (Htarget _ _ Hp)) as (_ & ? & _). done.
  - assert (home_block <$> tx_entries = (sorted_entries meta).*1) as ->.
    { apply list_eq. intros i. unfold tx_entries.
      rewrite !list_lookup_fmap, list_lookup_imap. by destruct (sorted_entries meta !! i). }
    apply NoDup_sorted_keys.
  - apply NoDup_alt. intros i j x. rewrite !list_lookup_fmap.
    destruct (tx_entries !! i) as [e|] eqn:Ei; [|done].
    destruct (tx_entries !! j) as [e'|] eqn:Ej; [|done].
    apply tx_entry in Ei as (p & _ & _ & Hi & ->). apply tx_entry in Ej as (p' & _ & _ & Hj & ->).
    intros [= <-] [= E]. apply position_inj in E; lia.
Qed.

Definition tx_descriptor : DescriptorRecord :=
  mkDescriptor (next_transaction_id v) (sb_filesystem_uuid sb) (wrap32 (Z.of_nat n + 2)) 0 0 tx_entries.

Lemma tx_descriptor_ok : descriptor_typed tx_descriptor /\ DescriptorCodec.accepted tx_descriptor.
Proof.
  destruct control_facts as (Hty & _ & Hu & _ & _ & _). destruct plan_facts as (_ & _ & Hn & _).
  destruct Hty as (_ & Hty & _ & _ & _ & _ & _ & Hx & _). split.
  - unfold descriptor_typed. cbn -[u32 u64 wrap32]. rewrite <- Hu.
    conj_split; try done; [apply wrap32_u32|apply tx_entries_typed].
  - unfold DescriptorCodec.accepted. cbn -[wrap32]. rewrite length_tx_entries.
    conj_split; try done; [lia|apply tx_entries_valid].
Qed.

Definition tx_descriptor_block : bytes := DescriptorCodec.image tx_descriptor.
Definition tx_record : DescriptorRecord :=
  DescriptorCodec.with_descriptor_checksum tx_descriptor (DescriptorCodec.crc tx_descriptor).

Lemma tx_descriptor_decodes : DecodeDescriptor tx_descriptor_block = Ok tx_record.
Proof. apply DescriptorCodec.descriptor_decode_image; apply tx_descriptor_ok. Qed.

Lemma uuid_ok : uuid_typed (sb_filesystem_uuid sb).
Proof. destruct control_facts as ((_ & H & _) & _ & Hu & _). by rewrite <- Hu. Qed.

Lemma tx_few : DescriptorCodec.few tx_descriptor.
Proof. unfold DescriptorCodec.few. cbn. rewrite length_tx_entries. apply plan_facts. Qed.

Lemma tx_descriptor_plain :
  block_wf tx_descriptor_block /\ is_ok (DecodeCommit tx_descriptor_block) = false.
Proof.
  split.
  - apply DescriptorCodec.descriptor_image_wf; [apply tx_few|apply uuid_ok].
  - apply descriptor_not_commit; [apply uuid_ok|apply tx_few].
Qed.

(** ** The body *)
Definition tx_body : list (Z * bytes) :=
  (ring_block sb (tail v), tx_descriptor_block) :: payload_writes sb v (sorted_entries meta) 1.

Lemma tx_body_plain blk b :
  (blk, b) ∈ tx_body -> (exists i, 0 <= i < ring_size sb /\ blk = ring_block sb i) /\
     block_wf b /\ is_ok (DecodeCommit b) = false.
Proof.
  unfold tx_body. intros [[= -> ->]|H]%elem_of_cons.
  - split; [|apply tx_descriptor_plain]. exists (tail v). split; [|done].
    destruct control_facts as (? & ? & _ & ? & _). by apply tail_position.
  - apply list_elem_of_lookup in H as [i H]. rewrite payload_writes_lookup in H.
    destruct (sorted_entries meta !! i) as [p|] eqn:E; [|done]. injection H as <- <-.
    apply list_elem_of_lookup_2, meta_in in E. split; [|split].
    + eexists. split; [apply position_bound|done].
    + apply (Htyped _ _ E).
    + apply (Hplain _ _ E).
Qed.

Lemma tx_body_smeared d' :
  smeared sb d tx_body d' -> ready sb sz d' v c /\ home_eq sb d' d.
Proof.
  apply ring_smeared; [done|]. intros blk b Hb. destruct (tx_body_plain blk b Hb) as (H1 & H2 & H3).
  split; [done|]. split; [done|]. intros cm E. by rewrite E in H3.
Qed.

(** The image once the body is durable. *)
Definition d_body : image := writes tx_body d.

Lemma body_ready : ready sb sz d_body v c /\ home_eq sb d_body d.
Proof. apply tx_body_smeared, smeared_writes. Qed.

Lemma tx_body_keys : tx_body.*1 = (fun i => ring_block sb (tx_position v i)) <$> seq 0 (S n).
Proof.
  destruct control_facts as (Hty & Hv & _ & Hr & _).
  destruct (tail_position sb v Hr Hv Hty) as [Ht _].
  unfold tx_body. cbn [fmap list_fmap seq fst]. rewrite Ht at 1. f_equal.
  apply list_eq. intros i. rewrite !list_lookup_fmap, payload_writes_lookup.
  destruct (sorted_entries meta !! i) as [p|] eqn:E.
  - pose proof (lookup_lt_Some _ _ _ E) as Hlt. rewrite length_sorted_entries in Hlt.
    by rewrite lookup_seq_lt.
  - apply lookup_ge_None in E. rewrite length_sorted_entries in E.
    by rewrite (proj2 (lookup_ge_None (seq 1 n) i)) by (by rewrite length_seq).
Qed.

Lemma ring_block_inj i j : ring_block sb i = ring_block sb j -> i = j.
Proof. unfold ring_block. lia. Qed.

Lemma tx_body_nodup : NoDup tx_body.*1.
Proof.
  rewrite tx_body_keys. apply NoDup_fmap_2_strong; [|apply NoDup_seq].
  intros i j Hi%elem_of_seq Hj%elem_of_seq E%ring_block_inj. apply position_inj in E; lia.
Qed.

Lemma body_written blk b : (blk, b) ∈ tx_body -> block_of d_body blk = b.
Proof.
  intros H. apply block_of_lookup. by apply lookup_insert_all_in; [apply tx_body_nodup|].
Qed.

Lemma body_commit_kept : ring_at sb d_body (tx_position v (n + 1)) = ring_at sb d (tx_position v (n + 1)).
Proof.
  unfold ring_at, block_of, d_body. rewrite lookup_insert_all_ne; [done|].
  rewrite tx_body_keys, list_elem_of_fmap. intros (i & E%ring_block_inj & Hi%elem_of_seq).
  apply position_inj in E; lia.
Qed.

(** ** Exposure *)
Definition tx_next : JournalControl := expose v (Z.of_nat n + 2).
Definition tx_current : JournalControl := published tx_next.
Definition d_exposed : image :=
  <[control_block sb (other c) := ControlCodec.image tx_next]> d_body.

Lemma tx_next_ok :
  control_typed tx_next /\ ValidateControlFields tx_next = Ok tt /\
  jc_generation tx_next = wrap64 (jc_generation v + 1) /\
  jc_filesystem_uuid tx_next = sb_filesystem_uuid sb /\ ring_blocks tx_next = ring_size sb /\
  next_transaction_id tx_next = next_transaction_id v + 1 /\
  used_blocks tx_next = Z.of_nat n + 2 /\ HasSameIdentity v tx_next = true.
Proof.
  destruct control_facts as (Hty & Hv & Hu & Hr & _).
  destruct plan_facts as (H1 & H2 & H3 & _).
  split; [by apply expose_typed|]. split; [apply expose_valid; (done || lia)|].
  unfold uint64_max in *.
  split; [done|]. split; [done|]. split; [done|].
  split; [apply wrap64_small; word|]. split; [apply wrap32_small; word|].
  unfold HasSameIdentity. cbn. by rewrite !Z.eqb_refl, bool_decide_eq_true_2.
Qed.

Lemma exposed_ready : ready sb sz d_exposed tx_current (other c) /\ same_ring sb d_body d_exposed.
Proof.
  destruct tx_next_ok as (? & ? & ? & ? & ? & Hn & _).
  apply (ready_published sb sz d_body v c tx_next); try done; [apply body_ready|lia].
Qed.

Lemma tx_position_current i : tx_position tx_current i = tx_position v i.
Proof. done. Qed.

Lemma body_exposed : exposed sb d_exposed tx_current tx_record meta.
Proof.
  destruct tx_next_ok as (_ & _ & _ & _ & _ & Hn & Hu & _).
  destruct plan_facts as ((H1 & _) & _ & _ & _). destruct exposed_ready as [_ Hs].
  destruct control_facts as (Hty & Hv & _ & Hr & _).
  destruct (tail_position sb v Hr Hv Hty) as [_ Ht].
  constructor.
  - split; [done|]. exact Hu.
  - change (tail tx_current) with (tail v). rewrite (same_ring_at sb _ _ _ Hs Ht). unfold ring_at.
    rewrite (body_written _ tx_descriptor_block) by (by left). apply tx_descriptor_decodes.
  - done.
  - symmetry. exact Hn.
  - exact (eq_sym eq_refl).
  - apply tx_entries_built.
  - intros i p Hp. rewrite tx_position_current.
    rewrite (same_ring_at sb _ _ _ Hs (position_bound _)). apply body_written.
    right. apply (list_elem_of_lookup_2 _ i). by rewrite payload_writes_lookup, Hp.
Qed.

Lemma body_uncommitted : uncommitted sb d_exposed tx_current tx_record meta.
Proof.
  destruct exposed_ready as [_ Hs]. intros cm. unfold commit_block. rewrite tx_position_current.
  rewrite (same_ring_at sb _ _ _ Hs (position_bound _)), body_commit_kept. intros E.
  apply (rdy_fresh _ _ _ _ _ Hready) in E; [|apply position_bound]. cbn. lia.
Qed.

Lemma d_exposed_home : home_eq sb d_exposed d.
Proof. destruct control_facts as (_ & _ & _ & _ & _ & G). apply other_control_home, body_ready; done. Qed.

Lemma exposure_smeared d' :
  smeared sb d_body [(control_block sb (other c), ControlCodec.image tx_next)] d' ->
  recoverable sb sz d' d.
Proof.
  intros Hsm. destruct body_ready as [Hr Hh]. destruct tx_next_ok as (? & ? & ? & ? & ? & _).
  destruct control_facts as (_ & _ & _ & _ & _ & G).
  destruct (publish_smeared sb sz d_body v c tx_next (rdy_image _ _ _ _ _ Hr)
    (rdy_selected _ _ _ _ _ Hr)) with (d' := d') as (Hout & Hi' & [Hs| ->]); try done.
  - destruct (ready_control_change sb sz _ d' v c Hr Hout Hi' Hs) as [Hr' _].
    eapply rec_clean; [exact Hr'|done|]. by eapply control_change_home.
  - eapply rec_discard; [apply exposed_ready|apply body_exposed|apply body_uncommitted|].
    apply d_exposed_home.
Qed.

(** ** COMMIT *)
Definition tx_commit : CommitRecord :=
  mkCommit (next_transaction_id v) (sb_filesystem_uuid sb) (Z.of_nat n)
    (wrap32 (Z.of_nat n + 2)) (tail v) (DescriptorCodec.crc tx_descriptor) 0.
Definition tx_commit_write : Z * bytes :=
  (ring_block sb (tx_position v (n + 1)), CommitCodec.image tx_commit).
Definition d_committed : image := <[tx_commit_write.1 := tx_commit_write.2]> d_exposed.

Lemma tx_commit_ok : commit_typed tx_commit /\ CommitCodec.accepted tx_commit = true.
Proof.
  destruct control_facts as ((_ & _ & _ & _ & Ht & _ & _ & Hx & _) & _).
  destruct plan_facts as (H1 & _ & H3 & _). split.
  - unfold commit_typed. cbn -[u32 u64 wrap32]. pose proof uuid_ok.
    conj_split; try done; [word|apply wrap32_u32|].
    apply Crc32c_u32, DescriptorCodec.descriptor_base_bytes_ok, uuid_ok.
  - unfold CommitCodec.accepted. cbn -[wrap32 Z.leb Z.eqb].
    rewrite (proj2 (Z.eqb_neq _ 0)), (proj2 (Z.eqb_neq _ 0)) by lia. rewrite Z.eqb_refl.
    change kMaxDescriptorEntries with 252. by rewrite (proj2 (Z.leb_le _ _)) by lia.
Qed.

Lemma tx_commit_decodes : exists cm, DecodeCommit tx_commit_write.2 = Ok cm /\
  cr_transaction_id cm = next_transaction_id v /\
  CommitMatchesDescriptor tx_record (tail tx_current) cm = true.
Proof.
  destruct tx_commit_ok as [Ht Ha]. eexists.
  split; [by apply CommitCodec.commit_decode_image|]. split; [done|].
  unfold CommitMatchesDescriptor. cbn -[wrap32]. rewrite length_tx_entries.
  by rewrite !Z.eqb_refl, bool_decide_eq_true_2.
Qed.

Lemma commit_write_ok blk b : (blk, b) ∈ [tx_commit_write] ->
  (exists i, 0 <= i < ring_size sb /\ blk = ring_block sb i) /\ block_wf b /\
  (forall cm, DecodeCommit b = Ok cm -> cr_transaction_id cm < next_transaction_id tx_current).
Proof.
  intros H%list_elem_of_singleton. injection H as -> ->. split; [|split].
  - eexists. split; [apply position_bound|done].
  - apply CommitCodec.commit_image_wf, uuid_ok.
  - intros cm E. destruct tx_commit_decodes as (cm' & E' & Hid & _).
    cbn [tx_commit_write snd] in E'. rewrite E in E'. ok_inv E'.
    destruct tx_next_ok as (_ & _ & _ & _ & _ & Hn & _).
    change (next_transaction_id tx_current) with (next_transaction_id tx_next). lia.
Qed.

(** Outside the commit position the ring is as exposed. *)
Lemma commit_exposed d' :
  smeared sb d_exposed [tx_commit_write] d' -> exposed sb d' tx_current tx_record meta.
Proof.
  intros Hsm. destruct body_exposed as [H1 H2 H3 H4 H5 H6 H7].
  assert (forall i, (i <= n)%nat -> ring_at sb d' (tx_position v i) = ring_at sb d_exposed (tx_position v i)) as Hk.
  { intros i Hi. unfold ring_at, block_of.
    destruct (Hsm (ring_block sb (tx_position v i))) as [->|(b & Hb%list_elem_of_singleton & _)]; [done|].
    injection Hb as E%ring_block_inj _. apply position_inj in E; lia. }
  destruct control_facts as (Hty & Hv & _ & Hr & _).
  destruct (tail_position sb v Hr Hv Hty) as [Ht _].
  constructor; try done.
  - change (tail tx_current) with (tail v) in *. rewrite Ht, Hk, <- Ht by lia. exact H2.
  - intros i p Hp. rewrite <- (H7 i p Hp). apply Hk.
    apply lookup_lt_Some in Hp. rewrite length_sorted_entries in Hp. lia.
Qed.

Lemma meta_blocks : map_Forall (fun _ b => block_wf b) meta.
Proof. intros k b E. apply (Htyped k b E). Qed.

Lemma commit_smeared d' :
  smeared sb d_exposed [tx_commit_write] d' ->
  ready sb sz d' tx_current (other c) /\ home_eq sb d' d /\
  (uncommitted sb d' tx_current tx_record meta \/ committed sb d' tx_current tx_record meta).
Proof.
  intros Hsm. destruct exposed_ready as [Hr _].
  destruct (ring_smeared sb sz d_exposed _ _ _ d' Hr commit_write_ok Hsm) as [Hr' Hh].
  split; [done|]. split; [intros blk Hb; rewrite Hh by done; by apply d_exposed_home|].
  pose proof body_uncommitted as Hun. unfold uncommitted, committed, commit_block, ring_at, block_of in *.
  rewrite tx_position_current in *.
  destruct (Hsm (ring_block sb (tx_position v (n + 1)))) as [E|(b & Hb%list_elem_of_singleton & [E|(b' & E & _ & Hj)])];
    rewrite E.
  - left. exact Hun.
  - right. injection Hb as ->. destruct tx_commit_decodes as (cm & Ed & _ & Hm). eauto.
  - left. intros cm Ed. cbn in Ed. destruct (Hj (ring_in_journal sb _ (position_bound _))) as [_ Hn].
    by rewrite Ed in Hn.
Qed.

Lemma commit_durable : committed sb d_committed tx_current tx_record meta.
Proof.
  destruct tx_commit_decodes as (cm & E & _ & Hm). exists cm. split; [|done].
  unfold commit_block, ring_at, block_of, d_committed. rewrite tx_position_current.
  cbn [tx_commit_write fst]. rewrite lookup_insert_eq. exact E.
Qed.
End transaction.
