(* ===== verification/TransactionProofs.v ===== *)
(** The online transaction: the four steps of the control store as the executor
    runs them, from a clean image, under any system-call behaviour. *)
From S2P Require Import Prelude Codec Crc32c OndiskFormat OndiskFormatProofs OndiskJournal OndiskJournalProofs.
From S2P Require Import RingReservation Disk JournalStore JournalImage CrashLogic JournalStates RecoveryProofs.
From S2P Require Import TransactionImages.
Import ControlSelection.
Open Scope Z_scope.
Open Scope store_scope.

(** The transaction the executor is handed is one it accepts on image [d]. *)
Record valid_transaction (sb : Superblock) (d : image) (v : JournalControl)
    (before ordered meta : image) (total : Z) (uuid : bytes) : Prop := {
  vt_total : total = total_blocks sb;
  vt_uuid : uuid = sb_filesystem_uuid sb;
  vt_nonempty : meta <> ∅;
  vt_ordered : map_Forall (fun k _ => BlockIsInRegion k (data sb) = true /\ meta !! k = None) ordered;
  vt_meta : map_Forall (fun k _ => IsValidMetadataTarget sb k = true) meta;
  vt_before : dom before =@{gset Z} dom ordered ∪ dom meta;
  vt_current : map_Forall (fun k b => d !! k = Some b) before;
  vt_fits : (size meta <= 252)%nat /\ Z.of_nat (size meta) + 2 <= ring_blocks v;
  vt_ids : next_transaction_id v < uint64_max
}.

(** The home blocks before and after the transaction; blocks of freshly
    allocated data may change early. *)
Definition old_state (sb : Superblock) (d ordered T : image) : Prop :=
  forall blk, ~ in_journal sb blk -> ordered !! blk = None -> T !! blk = d !! blk.
Definition new_state (sb : Superblock) (d ordered meta T : image) : Prop :=
  home_eq sb T (meta ∪ (ordered ∪ d)).

Lemma not_elem_of_snoc {A} (x y : A) l : x ∉ l -> x <> y -> x ∉ l ++ [y].
Proof. intros Hl Hn [?|?%list_elem_of_singleton]%elem_of_app; done. Qed.

Lemma elem_of_snoc {A} (x : A) l : x ∈ l ++ [x].
Proof. apply elem_of_app. right. by left. Qed.

Section transaction.
Context (sb : Superblock) (sz : Z) (d : image) (v : JournalControl) (c : ControlCopy).
Context (Hready : ready sb sz d v c) (Hused : used_blocks v = 0).
Context (before ordered meta : image).
Context (Hto : blocks_typed ordered) (Htm : blocks_typed meta).
Context (Hplain : map_Forall (fun _ b => is_ok (DecodeCommit b) = false) meta).
Context (total : Z) (uuid : bytes) (F : Prop).
Context (HF : F -> valid_transaction sb d v before ordered meta total uuid).

(** What holds of every crash image, given the stages already reported. *)
Definition txn_inv (st : list DurableStage) (x : image) : Prop :=
  exists T, recoverable sb sz x T /\
    ((old_state sb d ordered T /\ kCommit ∉ st) \/
     (new_state sb d ordered meta T /\ kControlExposure ∈ st)).

Abbreviation Runs := (runs sb d sz F txn_inv).
Abbreviation s0 := (new_store sb v c).

Lemma txn_old st x T :
  recoverable sb sz x T -> old_state sb d ordered T -> kCommit ∉ st -> txn_inv st x.
Proof. intros. exists T. eauto. Qed.

Lemma txn_new st x T :
  recoverable sb sz x T -> new_state sb d ordered meta T -> kControlExposure ∈ st -> txn_inv st x.
Proof. intros. exists T. eauto. Qed.

(** ** Ordered data *)
Lemma ordered_smeared d' :
  map_Forall (fun k _ => BlockIsInRegion k (data sb) = true) ordered ->
  smeared sb d (sorted_entries ordered) d' ->
  ready sb sz d' v c /\ old_state sb d ordered d'.
Proof.
  intros Hreg Hsm. pose proof (rdy_image _ _ _ _ _ Hready) as Hi.
  pose proof (img_geometry _ _ _ Hi) as G.
  assert (forall blk, ordered !! blk = None -> d' !! blk = d !! blk) as Hout.
  { intros blk Hb. destruct (Hsm blk) as [?|(b & Hin%elem_of_sorted_entries & _)]; [done|congruence]. }
  assert (forall blk, in_journal sb blk \/ blk = 0 -> ordered !! blk = None) as Hj.
  { intros blk Hb. destruct (ordered !! blk) as [b|] eqn:E; [|done]. exfalso.
    destruct (data_not_journal sb G blk (Hreg _ _ E)) as (? & ? & _). by destruct Hb. }
  split; [|intros blk _; apply Hout].
  apply (ready_home sb sz d d' v c Hready); [intros; apply Hout, Hj; by left|].
  apply (image_ok_change sb sz d); [done|apply Hout, Hj; by right|].
  intros blk _. destruct (Hsm blk) as [?|(b & Hin%elem_of_sorted_entries & [E|(b' & E & Hw & _)])];
    [by left|right..].
  - exists b. split; [done|]. apply (Hto _ _ Hin).
  - eauto.
Qed.

Lemma runs_ordered st (Q : unit -> JournalControlStore -> view -> Prop) :
  map_Forall (fun k _ => BlockIsInRegion k (data sb) = true) ordered -> kCommit ∉ st ->
  (forall st', kCommit ∉ st' -> Q tt s0 (V (ordered ∪ d) [] st')) ->
  Runs (if bool_decide (ordered = ∅) then ret tt
        else
          (for_each (fun p => latch (lift (PwriteAll (snd p) (fst p * kBlockSize))))
            (sorted_entries ordered) ;;
          latch (lift Fdatasync) ;;
          lift (OnDurableStage kOrderedData))) s0 (V d [] st) Q.
Proof.
  intros Hreg Hst HQ.
  assert (forall d' st', smeared sb d (sorted_entries ordered) d' -> kCommit ∉ st' -> txn_inv st' d') as HI.
  { intros d' st' Hsm Hst'. destruct (ordered_smeared d' Hreg Hsm) as [Hr Ho].
    eapply txn_old; [by eapply rec_clean|done|done]. }
  destruct (bool_decide (ordered = ∅)) eqn:E.
  - apply bool_decide_eq_true_1 in E. specialize (HQ st Hst). rewrite E, (left_id_L ∅ (∪)) in HQ.
    by apply runs_ret.
  - apply runs_bind, (runs_writes sb d sz F txn_inv _ id).
    { intros x _ v' R HR. by apply runs_latch, runs_lift. }
    { rewrite map_id. intros d' Hsm. by apply HI. }
    rewrite map_id. pose proof (smeared_writes sb d (sorted_entries ordered)) as Hsm.
    apply runs_bind, runs_latch, runs_lift, runs_fdatasync; [by apply HI|].
    rewrite insert_all_sorted in *.
    assert (kCommit ∉ st ++ [kOrderedData]) by (by apply not_elem_of_snoc).
    apply runs_lift, runs_stage; [by apply HI|by apply HQ].
Qed.

(** ** The body, exposure, COMMIT and completion, after the checks *)
Section checked.
Context (Hreg : map_Forall (fun k _ => BlockIsInRegion k (data sb) = true) ordered).
Context (Htarget : map_Forall (fun k _ => IsValidMetadataTarget sb k = true) meta).
Context (plan : RingReservationPlan) (Hplan : PlanRingReservation v (size meta) = Ok plan).

Abbreviation d1 := (ordered ∪ d).

Lemma d1_ready : ready sb sz d1 v c /\ old_state sb d ordered d1.
Proof. apply ordered_smeared; [done|]. apply smeared_union. Qed.

Lemma prepared1 : prepared sb sz d1 v c meta plan.
Proof. constructor; try done. apply d1_ready. Qed.

Let P := prepared1.
Abbreviation dB := (d_body sb d1 v meta).
Abbreviation dE := (d_exposed sb d1 v c meta).
Abbreviation dC := (d_committed sb d1 v c meta).
Abbreviation vE := (tx_current v meta).
Abbreviation descriptor := (tx_descriptor sb v meta).

Definition tx_store_body : DurableJournalBody :=
  mkBody plan (wrap32 (Z.of_nat (size meta))) (DescriptorCodec.crc descriptor).
Abbreviation sB := (set_body s0 tx_store_body meta).
Abbreviation sE := (set_current sB vE (other c)).
Abbreviation sC := (set_commit_durable sE).

Lemma SameReservation_refl p : SameReservation p p = true.
Proof.
  unfold SameReservation, SameControlState, HasSameIdentity.
  by rewrite !Z.eqb_refl, !bool_decide_eq_true_2.
Qed.

Lemma runs_write_payloads l k L st (Q : unit -> JournalControlStore -> view -> Prop) :
  (forall d', smeared sb d1 (L ++ payload_writes sb v l k) d' -> txn_inv st d') ->
  Q tt s0 (V d1 (L ++ payload_writes sb v l k) st) ->
  Runs (write_payloads sb l (map (tx_position v) (seq k (length l)))) s0 (V d1 L st) Q.
Proof.
  destruct (control_facts _ _ _ _ _ _ _ P) as (_ & _ & _ & _ & _ & G).
  revert k L. induction l as [|p l IH]; intros k L HI HQ.
  - cbn [payload_writes] in HQ. rewrite app_nil_r in HQ. by apply runs_ret.
  - destruct p as [home payload]. cbn [write_payloads length seq map List.hd List.tl].
    cbn [payload_writes snd] in HI, HQ.
    rewrite (RingOffset_eq sb G) by apply (position_bound _ _ _ _ _ _ _ P).
    apply runs_bind, runs_latch, runs_lift, runs_pwrite.
    + intros d' Hsm. apply HI. eapply smeared_mono; [|exact Hsm].
      intros x [?|Hx]%elem_of_app; apply elem_of_app; [by left|right].
      apply list_elem_of_singleton in Hx. subst. by left.
    + apply IH; rewrite <- app_assoc; done.
Qed.

Lemma body_inv st d' :
  kCommit ∉ st -> smeared sb d1 (tx_body sb v meta) d' -> txn_inv st d'.
Proof.
  intros Hst Hsm. destruct d1_ready as [_ Ho].
  destruct (tx_body_smeared _ _ _ _ _ _ _ P d' Hsm) as [Hr' Hh].
  by eapply txn_old; [by eapply (rec_clean sb sz d' d1)|..].
Qed.

Lemma runs_unexposed_body st (Q : DurableJournalBody -> JournalControlStore -> view -> Prop) :
  kCommit ∉ st ->
  (forall st', kCommit ∉ st' -> Q tx_store_body sB (V dB [] st')) ->
  Runs (WriteUnexposedBody plan meta) s0 (V d1 [] st) Q.
Proof.
  intros Hst HQ.
  destruct (plan_facts _ _ _ _ _ _ _ P) as (Hn & _ & _ & H1 & H2 & H3 & _).
  destruct (tx_descriptor_ok _ _ _ _ _ _ _ P) as [Hdt Hda].
  destruct (control_facts _ _ _ _ _ _ _ P) as (Hty & Hv & _ & Hrs & _ & G).
  destruct (tail_position sb v Hrs Hv Hty) as [_ Htl].
  unfold WriteUnexposedBody. apply runs_bind, runs_get. cbn [new_store superblock_ current_].
  apply runs_bind, runs_check; [done|intros _].
  apply runs_bind, runs_check; [cbn; by rewrite Hused|intros _].
  rewrite Hplan. apply runs_bind, runs_of_result; [done|]. intros p [= <-].
  rewrite SameReservation_refl. apply runs_bind, runs_check; [done|intros _].
  rewrite H3, (tx_entries_built _ _ _ _ _ _ _ P), H1, H2.
  fold descriptor. rewrite DescriptorCodec.descriptor_encode_eq by (done || apply Hdt).
  rewrite (RingOffset_eq sb G) by done.
  apply runs_bind, runs_latch, runs_lift, runs_pwrite.
  { intros d' Hsm. apply body_inv; [done|]. eapply smeared_mono; [|exact Hsm].
    intros x Hx%list_elem_of_singleton. subst. by left. }
  apply runs_bind. rewrite <- (length_sorted_entries meta).
  apply runs_write_payloads; [intros d' Hsm; by apply body_inv|]. cbn [app].
  change ((_, DescriptorCodec.image _) :: _) with (tx_body sb v meta).
  pose proof (smeared_writes sb d1 (tx_body sb v meta)) as Hsm.
  apply runs_bind, runs_latch, runs_lift, runs_fdatasync; [by apply body_inv|].
  assert (kCommit ∉ st ++ [kJournalBody]) by (by apply not_elem_of_snoc).
  apply runs_bind, runs_lift, runs_stage; [by apply body_inv|].
  apply runs_bind, runs_modify, runs_ret. rewrite length_sorted_entries. by apply HQ.
Qed.

Lemma runs_expose st (Q : unit -> JournalControlStore -> view -> Prop) :
  kCommit ∉ st ->
  (forall st', kCommit ∉ st' -> kControlExposure ∈ st' -> Q tt sE (V dE [] st')) ->
  Runs ExposeDurableBody sB (V dB [] st) Q.
Proof.
  intros Hst HQ. destruct d1_ready as [_ Ho].
  destruct (tx_next_ok _ _ _ _ _ _ _ P) as (H1 & H2 & H3 & _ & _ & _ & _ & H4).
  destruct (plan_facts _ _ _ _ _ _ _ P) as (_ & _ & _ & _ & _ & _ & _ & He).
  destruct (body_ready _ _ _ _ _ _ _ P) as [Hr _].
  assert (forall st' d', kCommit ∉ st' ->
            smeared sb dB [(control_block sb (other c), ControlCodec.image (tx_next v meta))] d' ->
            txn_inv st' d') as HI.
  { intros st' d' Hst' Hsm. eapply txn_old; [|exact Ho|done].
    by apply (exposure_smeared _ _ _ _ _ _ _ P). }
  unfold ExposeDurableBody. apply runs_bind, runs_get.
  apply runs_bind, runs_check; [done|intros _].
  apply runs_bind, runs_check; [cbn; by rewrite Hused|intros _].
  cbn [set_body durable_body_ tx_store_body reservation]. rewrite He.
  change (expose v (Z.of_nat (size meta) + 2)) with (tx_next v meta).
  apply runs_bind, (runs_persist sb d sz F txn_inv _ v c); try done.
  - apply Hr.
  - apply Hr.
  - intros d' Hsm. by apply HI.
  - assert (kCommit ∉ st ++ [kControlExposure]) by (by apply not_elem_of_snoc).
    apply runs_lift, runs_stage; [apply HI; [done|]|apply HQ; [done|apply elem_of_snoc]].
    exact (smeared_writes sb dB [(control_block sb (other c), ControlCodec.image (tx_next v meta))]).
Qed.

(** The home blocks once the transaction has been applied. *)
Abbreviation dN := (meta ∪ d1).

Lemma dN_new : new_state sb d ordered meta dN.
Proof. done. Qed.

Lemma union_home x : home_eq sb x d1 -> home_eq sb (meta ∪ x) dN.
Proof.
  intros H blk Hb. destruct (meta !! blk) as [b|] eqn:E.
  - by rewrite !(lookup_union_Some_l _ _ _ _ E).
  - rewrite !lookup_union_r by done. by apply H.
Qed.

Lemma commit_inv st d' :
  kCommit ∉ st -> kControlExposure ∈ st ->
  smeared sb dE [tx_commit_write sb v meta] d' -> txn_inv st d'.
Proof.
  intros Hst Hex Hsm. destruct d1_ready as [_ Ho].
  destruct (commit_smeared _ _ _ _ _ _ _ P d' Hsm) as (Hr & Hh & Hor).
  pose proof (commit_exposed _ _ _ _ _ _ _ P d' Hsm) as He. destruct Hor as [Hu|Hc].
  - eapply txn_old; [eapply rec_discard; [exact Hr|exact He|exact Hu|exact Hh]|done|done].
  - eapply txn_new; [eapply rec_replay; [exact Hr|exact He|exact Hc|..]|apply dN_new|done].
    + apply (meta_blocks _ _ _ _ _ _ _ P).
    + by apply union_home.
Qed.

Lemma committed_state :
  ready sb sz dC vE (other c) /\ home_eq sb dC d1 /\
  exposed sb dC vE (tx_record sb v meta) meta /\
  committed sb dC vE (tx_record sb v meta) meta.
Proof.
  assert (smeared sb dE [tx_commit_write sb v meta] dC) as Hsm by apply (smeared_writes sb dE [_]).
  destruct (commit_smeared _ _ _ _ _ _ _ P _ Hsm) as (Hr & Hh & _).
  split; [done|]. split; [done|]. split.
  - by apply (commit_exposed _ _ _ _ _ _ _ P).
  - apply (commit_durable _ _ _ _ _ _ _ P).
Qed.

Lemma SameControlState_published : SameControlState vE (tx_next v meta) = true.
Proof.
  unfold SameControlState, HasSameIdentity. cbn.
  by rewrite !Z.eqb_refl, !bool_decide_eq_true_2.
Qed.

Lemma replay_inv st x :
  kControlExposure ∈ st -> smeared sb dC (sorted_entries meta) x ->
  txn_inv st x /\ ready sb sz x vE (other c) /\ exposed sb x vE (tx_record sb v meta) meta /\
  committed sb x vE (tx_record sb v meta) meta.
Proof.
  intros Hex Hsm. destruct committed_state as (Hr & Hh & He & Hc).
  pose proof (meta_blocks _ _ _ _ _ _ _ P) as Hw.
  destruct (replay_smeared sb sz dC x dN vE (other c) (tx_record sb v meta) meta)
    as (Hr' & He' & Hc' & Hh'); try done; [by apply union_home|].
  split; [|done]. eapply txn_new; [by eapply rec_replay|apply dN_new|done].
Qed.

Lemma runs_commit st (Q : unit -> JournalControlStore -> view -> Prop) :
  kCommit ∉ st -> kControlExposure ∈ st ->
  (forall st', kControlExposure ∈ st' -> Q tt sC (V dC [] st')) ->
  Runs WriteCommit sE (V dE [] st) Q.
Proof.
  intros Hst Hex HQ.
  destruct (plan_facts _ _ _ _ _ _ _ P) as (Hn & _ & _ & H1 & H2 & _ & H3 & He).
  destruct (control_facts _ _ _ _ _ _ _ P) as (_ & _ & _ & _ & _ & G).
  destruct (tx_commit_ok _ _ _ _ _ _ _ P) as [Hct Hca].
  unfold WriteCommit. apply runs_bind, runs_get.
  apply runs_bind, runs_check; [done|intros _].
  cbn [set_current set_body durable_body_ superblock_ current_ new_store commit_durable_ tx_store_body
    reservation body_entry_count descriptor_crc32c].
  apply runs_bind, runs_check; [done|intros _].
  rewrite He. change (expose v (Z.of_nat (size meta) + 2)) with (tx_next v meta).
  rewrite SameControlState_published. apply runs_bind, runs_check; [done|intros _].
  rewrite H1, H2, H3, (wrap32_small (Z.of_nat (size meta))) by word.
  fold (tx_commit sb v meta). rewrite CommitCodec.commit_encode_eq by (done || apply Hct).
  rewrite (RingOffset_eq sb G) by apply (position_bound _ _ _ _ _ _ _ P).
  apply runs_bind, runs_latch, runs_lift, runs_pwrite; [intros d' Hsm; by apply commit_inv|].
  assert (smeared sb dE [tx_commit_write sb v meta] dC) as Hsm by apply (smeared_writes sb dE [_]).
  apply runs_bind, runs_latch, runs_lift, runs_fdatasync; [by apply commit_inv|].
  assert (kControlExposure ∈ st ++ [kCommit]) as Hex' by (apply elem_of_app; by left).
  apply runs_bind, runs_lift, runs_stage.
  - apply replay_inv; [done|]. apply smeared_refl.
  - apply runs_modify. by apply HQ.
Qed.

Lemma checkpoint_inv st x :
  kControlExposure ∈ st ->
  smeared sb (meta ∪ dC) [(control_block sb (other (other c)),
                           ControlCodec.image (clean_control vE))] x -> txn_inv st x.
Proof.
  intros Hex Hx. destruct committed_state as (_ & Hh & _).
  destruct (replay_inv st _ Hex (smeared_union sb dC meta)) as (HI & Hr1 & He1 & Hc1).
  pose proof (union_home dC Hh) as HT. eapply txn_new; [|apply dN_new|done].
  destruct (release_smeared sb sz _ x dN vE (other c) Hr1 HT Hx) as [(Hr2 & Hs & HT2)|Hset].
  - eapply same_ring_exposed; [exact Hr1|exact Hr2|exact Hs|exact He1|right].
    split; [done|]. split; [apply (meta_blocks _ _ _ _ _ _ _ P)|]. by eapply home_eq_again.
  - by apply settled_recoverable.
Qed.

Lemma runs_complete st (Q : unit -> JournalControlStore -> view -> Prop) :
  meta <> ∅ -> kControlExposure ∈ st ->
  (forall s' x st', settled sb sz x dN -> Q tt s' (V x [] st')) ->
  Runs CompleteCommittedTransaction sC (V dC [] st) Q.
Proof.
  intros Hne Hex HQ. destruct committed_state as (Hr & Hh & He & Hc).
  pose proof (smeared_union sb dC meta) as Hsm.
  destruct (replay_inv st _ Hex Hsm) as (HI & Hr1 & He1 & Hc1).
  unfold CompleteCommittedTransaction. apply runs_bind, runs_get.
  apply runs_bind, runs_check; [done|intros _].
  apply runs_bind, runs_check.
  { cbn. by rewrite ?bool_decide_eq_false_2 by done. }
  intros _. apply runs_bind, runs_check; [done|intros _].
  apply runs_bind, (runs_writes sb d sz F txn_inv _ id).
  { intros x Hx v' R HR. apply runs_bind, runs_check.
    - cbn. by rewrite (Htarget x.1 x.2 (meta_in _ _ Hx)).
    - intros _. by apply runs_latch, runs_lift. }
  { rewrite map_id. intros x Hx. by apply replay_inv. }
  rewrite map_id. apply runs_bind, runs_latch, runs_lift, runs_fdatasync.
  { cbn [metadata_after_images_ set_commit_durable set_current set_body]. by rewrite insert_all_sorted. }
  cbn [metadata_after_images_ set_commit_durable set_current set_body]. rewrite insert_all_sorted.
  assert (kControlExposure ∈ st ++ [kHomeBlocks]) as Hex' by (apply elem_of_app; by left).
  apply runs_bind, runs_lift, runs_stage; [by apply replay_inv|].
  pose proof (union_home dC Hh) as HT.
  destruct (ready_control _ _ _ _ _ Hr1) as (Hty & Hv & _).
  apply runs_bind, (runs_persist sb d sz F txn_inv _ vE (other c));
    [reflexivity..|apply Hr1|apply Hr1|by apply clean_control_typed|by apply clean_control_valid
    |reflexivity|apply same_identity_clean|intros x Hx; by apply checkpoint_inv|].
  pose proof (release_settled sb sz _ dN vE (other c) Hr1 HT) as Hset.
  apply runs_bind, runs_lift, runs_stage; [|by apply runs_modify, HQ].
  eapply txn_new; [by apply settled_recoverable|apply dN_new|apply elem_of_app; by left].
Qed.
End checked.

(** ** The checks in front of the first write *)
Context (Hkeys : map_Forall (fun k _ => u32 k) before).

Lemma valid_before_key k b :
  F -> before !! k = Some b -> k < total_blocks sb /\ d !! k = Some b.
Proof.
  intros HFt E. destruct (HF HFt) as [_ _ _ Hvo Hvm Hvb Hvc _ _]. split; [|by apply Hvc].
  pose proof (img_geometry _ _ _ (rdy_image _ _ _ _ _ Hready)) as G.
  assert (k ∈ dom before) as Hk by (by apply elem_of_dom_2 in E).
  rewrite Hvb in Hk. apply elem_of_union in Hk as [[x Hx]%elem_of_dom|[x Hx]%elem_of_dom].
  - apply (data_not_journal sb G), (Hvo _ _ Hx).
  - apply (target_not_journal sb), (Hvm _ _ Hx).
Qed.

Lemma runs_verify_before st (Q : unit -> JournalControlStore -> view -> Prop) :
  Q tt s0 (V d [] st) ->
  Runs (for_each (verify_before sb) (sorted_entries before)) s0 (V d [] st) Q.
Proof.
  intros HQ. apply (runs_checks sb d sz F txn_inv _ (fun _ => True)); [|done].
  intros [k b] Hin%elem_of_sorted_entries. unfold verify_before. cbn [fst snd].
  apply runs_bind, runs_check.
  - intros Hb%Z.leb_le HFt. destruct (valid_before_key k b HFt Hin). lia.
  - intros Hb%Z.leb_gt. apply runs_bind, runs_lift.
    pose proof (Hkeys _ _ Hin) as Hk.
    apply (runs_pread _ _ _ _ _ _ _ (block_of d k)).
    { apply (img_lookup sb sz); [apply Hready|word]. }
    apply runs_check; [|done]. intros Hne%negb_true_iff%bool_decide_eq_false_1 HFt.
    destruct (valid_before_key k b HFt Hin) as [_ E]. apply Hne. by rewrite (block_of_lookup _ _ _ E).
Qed.

Lemma valid_plan : F -> is_ok (PlanRingReservation v (size meta)) = true.
Proof.
  intros HFt. destruct (HF HFt) as [_ _ Hne _ _ _ _ [Hf1 Hf2] Hid].
  destruct (ready_control sb sz d v c Hready) as (Hty & Hv & _).
  apply plan_complete; try done. split; [|done].
  pose proof (map_size_non_empty_iff meta) as [_ Hs]. specialize (Hs Hne). lia.
Qed.

Lemma before_has k : F -> k ∈ dom ordered ∪ dom meta -> exists b, before !! k = Some b.
Proof.
  intros HFt Hk. apply elem_of_dom. by rewrite (vt_before _ _ _ _ _ _ _ _ (HF HFt)).
Qed.

Lemma runs_check_ordered st (Q : unit -> JournalControlStore -> view -> Prop) :
  (map_Forall (fun k _ => BlockIsInRegion k (data sb) = true) ordered -> Q tt s0 (V d [] st)) ->
  Runs (for_each (fun p => check (negb (BlockIsInRegion (fst p) (data sb)) ||
                                  bool_decide (before !! fst p = None) ||
                                  bool_decide (is_Some (meta !! fst p))) EINVAL)
         (sorted_entries ordered)) s0 (V d [] st) Q.
Proof.
  intros HQ. apply (runs_checks sb d sz F txn_inv _
    (fun p => BlockIsInRegion p.1 (data sb) = true)).
  - intros [k b] Hin%elem_of_sorted_entries. cbn [fst]. apply runs_check.
    + intros Hb HFt. destruct (vt_ordered _ _ _ _ _ _ _ _ (HF HFt) _ _ Hin) as [H1 H2].
      destruct (before_has k HFt) as [x Hx]; [apply elem_of_union_l, elem_of_dom; eauto|].
      rewrite H1, H2, Hx in Hb. by rewrite bool_decide_eq_false_2 in Hb.
    + intros Hb. bool_to_prop. done.
  - rewrite Forall_forall. intros H. apply HQ. intros k b E. apply (H (k, b)).
    by apply elem_of_sorted_entries.
Qed.

Lemma runs_check_metadata st (Q : unit -> JournalControlStore -> view -> Prop) :
  (map_Forall (fun k _ => IsValidMetadataTarget sb k = true) meta -> Q tt s0 (V d [] st)) ->
  Runs (for_each (fun p => check (negb (IsValidMetadataTarget sb (fst p)) ||
                                  bool_decide (before !! fst p = None)) EINVAL)
         (sorted_entries meta)) s0 (V d [] st) Q.
Proof.
  intros HQ. apply (runs_checks sb d sz F txn_inv _
    (fun p => IsValidMetadataTarget sb p.1 = true)).
  - intros [k b] Hin%elem_of_sorted_entries. cbn [fst]. apply runs_check.
    + intros Hb HFt. destruct (before_has k HFt) as [x Hx]; [apply elem_of_union_r, elem_of_dom; eauto|].
      rewrite (vt_meta _ _ _ _ _ _ _ _ (HF HFt) _ _ Hin), Hx in Hb.
      by rewrite bool_decide_eq_false_2 in Hb.
    + intros Hb. bool_to_prop. done.
  - rewrite Forall_forall. intros H. apply HQ. intros k b E. apply (H (k, b)).
    by apply elem_of_sorted_entries.
Qed.

Lemma runs_first_step (Q : DurableJournalBody -> JournalControlStore -> view -> Prop) :
  (meta <> ∅ -> map_Forall (fun k _ => BlockIsInRegion k (data sb) = true) ordered ->
   map_Forall (fun k _ => IsValidMetadataTarget sb k = true) meta ->
   forall plan st, PlanRingReservation v (size meta) = Ok plan -> kCommit ∉ st ->
   Q (tx_store_body plan) (set_body s0 (tx_store_body plan) meta)
     (V (d_body sb (ordered ∪ d) v meta) [] st)) ->
  Runs (WriteOrderedDataAndUnexposedBody total uuid before ordered meta) s0 (V d [] []) Q.
Proof.
  intros HQ. unfold WriteOrderedDataAndUnexposedBody.
  apply runs_bind, runs_check.
  { intros E%bool_decide_eq_true_1 HFt. by destruct (HF HFt). }
  intros Hne%bool_decide_eq_false_1. apply runs_bind, runs_get. cbn [new_store superblock_ current_].
  apply runs_bind, runs_check; [done|intros _].
  apply runs_bind, runs_check; [cbn; by rewrite Hused|intros _].
  apply runs_bind, runs_check.
  { intros Hb HFt. destruct (HF HFt) as [-> -> _ _ _ _ _ _ _].
    by rewrite Z.eqb_refl, bool_decide_eq_true_2 in Hb. }
  intros _. apply runs_bind, runs_check_ordered. intros Hreg.
  apply runs_bind, runs_check_metadata. intros Htgt. apply runs_bind, runs_check.
  { intros Hb HFt. destruct (HF HFt) as [_ _ _ _ _ Hvb _ _ _].
    rewrite <- Hvb, size_dom, bool_decide_eq_true_2 in Hb; done. }
  intros _. apply runs_bind, (runs_checks sb d sz F txn_inv _ (fun _ => True)).
  { intros [k b] Hin%elem_of_sorted_entries. cbn [fst]. apply runs_check; [|done].
    intros Hb%bool_decide_eq_true_1 HFt. destruct (HF HFt) as [_ _ _ _ _ Hvb _ _ _].
    rewrite <- Hvb in Hb. apply Hb. by apply elem_of_dom_2 in Hin. }
  intros _. apply runs_bind, runs_of_result; [intros Hb HFt; by rewrite (valid_plan HFt) in Hb|].
  intros plan Hplan. apply runs_bind, runs_verify_before.
  apply runs_bind, runs_ordered; [done|apply not_elem_of_nil|].
  intros st' Hst'. by apply runs_unexposed_body; [..|intros; apply HQ].
Qed.

Lemma runs_steps :
  Runs (transaction_steps before ordered meta total uuid) s0 (V d [] [])
    (fun _ _ v' => vl v' = [] /\ settled sb sz (vd v') (meta ∪ (ordered ∪ d))).
Proof.
  unfold transaction_steps. apply runs_bind, runs_first_step.
  intros Hne Hreg Htgt plan st Hplan Hst. apply runs_bind.
  apply (runs_expose Hreg Htgt plan Hplan); [done|]. intros st1 Hst1 Hex1.
  apply runs_bind, (runs_commit Hreg Htgt plan Hplan); [done..|]. intros st2 Hex2.
  by apply (runs_complete Hreg Htgt plan Hplan).
Qed.
End transaction.

(** * The executor *)
Section execute.
Context (sb : Superblock) (sz : Z) (d : image) (v : JournalControl) (c : ControlCopy).
Context (Hready : ready sb sz d v c) (Hused : used_blocks v = 0).
Context (before ordered meta : image) (total : Z) (uuid : bytes) (writable : bool).
Context (Hkeys : map_Forall (fun k _ => u32 k) before).
Context (Hto : blocks_typed ordered) (Htm : blocks_typed meta).
Context (Hplain : map_Forall (fun _ b => is_ok (DecodeCommit b) = false) meta).

Definition accepted_transaction : Prop :=
  writable = true /\ valid_transaction sb d v before ordered meta total uuid.

Abbreviation inv := (txn_inv sb sz d ordered meta).

Lemma runs_adopt (Q : JournalControlStore -> view -> Prop) :
  Q (new_store sb v c) (V d [] []) ->
  runs_io sb d sz accepted_transaction inv (AdoptLockedFd writable) (V d [] []) Q.
Proof.
  intros HQ. apply runs_io_bind, runs_syscall. destruct (negb writable) eqn:E.
  - apply runs_io_fail. intros [-> _]. done.
  - apply runs_io_bind, (runs_load sb d sz _ inv d v c); [done|]. by apply runs_io_ret.
Qed.

Lemma initial_safe : safe sb d inv [].
Proof.
  intros p x Hp%prefix_nil_inv Hx. subst p.
  apply (crash_issued sb d [] []), smeared_nil in Hx. subst.
  exists d. split; [by eapply rec_clean|]. left. split; [done|apply not_elem_of_nil].
Qed.

Lemma execute_outcome e :
  disk e = d -> st_size e = sz -> trace e = [] ->
  let '(e', (r, _)) := ExecuteJournalTransaction writable before ordered meta total uuid e in
  safe sb d inv (trace e') /\
  (accepted_transaction -> responses e = [] -> is_ok r = true /\ responses e' = []) /\
  (is_ok r = true -> settled sb sz (disk e') (meta ∪ (ordered ∪ d)) /\
     durable (durability_of d (trace e')) = disk e' /\ pending (durability_of d (trace e')) = [] /\ st_size e' = sz).
Proof.
  intros Hd Hz Ht.
  assert (at_view d sz (V d [] []) e) as Hv by (split; [by rewrite Ht|done]).
  assert (safe sb d inv (trace e)) as Hs by (rewrite Ht; apply initial_safe).
  unfold ExecuteJournalTransaction, DuplicateFd.
  pose proof (runs_syscall sb d sz accepted_transaction inv _ (fun _ v' => v' = V d [] []) eq_refl e Hv Hs) as H1.
  destruct (Syscall e) as [e1 [[]|er]]; destruct H1 as (Hs1 & HF1 & H1).
  2:{ split; [done|]. split; [|done]. intros HF Hn. by destruct (HF1 HF Hn). }
  destruct H1 as (v1 & Hv1 & ->).
  pose proof (runs_adopt (fun s v' => s = new_store sb v c /\ v' = V d [] []) (conj eq_refl eq_refl)
    e1 Hv1 Hs1) as H2.
  destruct (AdoptLockedFd writable e1) as [e2 [s|er]]; destruct H2 as (Hs2 & HF2 & H2).
  2:{ split; [done|]. split; [|done]. intros HF Hn. destruct (HF1 HF Hn) as [Hn1 _].
      by destruct (HF2 HF Hn1). }
  destruct H2 as (v2 & Hv2 & -> & ->).
  pose proof (runs_steps sb sz d v c Hready Hused before ordered meta Hto Htm Hplain total uuid
    accepted_transaction (fun H => proj2 H) Hkeys e2 Hv2 Hs2) as H3.
  destruct (transaction_steps before ordered meta total uuid (new_store sb v c, e2)) as [[s3 e3] r].
  destruct H3 as (Hs3 & HF3 & H3).
  assert (accepted_transaction -> responses e = [] -> is_ok r = true /\ responses e3 = []) as HF.
  { intros HF Hn. destruct (HF1 HF Hn) as [Hn1 _]. destruct (HF2 HF Hn1) as [Hn2 _].
    by destruct (HF3 HF Hn2). }
  destruct r as [[]|er]; (split; [done|split; [done|]]); [intros _|done].
  destruct H3 as (v3 & (Hv3 & Hd3 & Hz3) & Hl & Hset). rewrite Hv3, Hd3, Hl. done.
Qed.
End execute.
