(* ===== verification/JournalExample.v ===== *)
(** A concrete 24-block image with a 6-block ring, and a one-block transaction
    on it. The journal theorems are instantiated here. *)
From S2P Require Import Prelude Codec Crc32c OndiskFormat OndiskFormatProofs OndiskJournal OndiskJournalProofs.
From S2P Require Import RingReservation Disk JournalStore JournalImage CrashLogic JournalStates TransactionImages.
From S2P Require Import TransactionProofs.
Open Scope Z_scope.

Definition from_ok {E A} (d : A) (r : result E A) : A := match r with Ok a => a | Err _ => d end.

Definition no_superblock : Superblock :=
  mkSuperblock 0 0 0 (mkRegion 0 0) (mkRegion 0 0) (mkRegion 0 0) (mkRegion 0 0) (mkRegion 0 0)
    0 0 0 [] 0.
Definition sb0 : Superblock := Eval vm_compute in from_ok no_superblock (BuildSuperblockLayout 24 16 8).
Definition control0 : JournalControl := mkControl 6 (zeros 16) 0 0 0 0 0 1 0 0 0 0.
Definition control0_block : bytes := fst (from_ok ([], 0) (EncodeControl control0)).
Definition current0 : JournalControl :=
  with_checksum control0 (snd (from_ok ([], 0) (EncodeControl control0))).

Definition img0 : image :=
  <[0 := from_ok [] (EncodeSuperblock sb0)]>
  (<[4 := control0_block]>
  (<[5 := control0_block]>
   (list_to_map (map (fun i => (Z.of_nat i, zero_block)) (seq 0 24))))).
Definition size0 : Z := 24 * kBlockSize.
Definition env0 (d : image) (script : list sysret) : env := mkEnv d size0 script [].

Definition filled (z : Z) : bytes := z :: zeros (BlockLen - 1).
Definition before0 : image := {[ 14 := zero_block; 3 := zero_block ]}.
Definition ordered0 : image := {[ 14 := filled 7 ]}.
Definition meta0 : image := {[ 3 := filled 9 ]}.

(** ** An executable check of [ready] *)
Definition bytes_okb (b : bytes) : bool := forallb (fun x => (0 <=? x) && (x <? 256)) b.
Definition block_wfb (b : bytes) : bool := bool_decide (length b = BlockLen) && bytes_okb b.

Definition blocks_okb (total : Z) (d : image) : bool :=
  forallb (fun i => match d !! Z.of_nat i with Some b => block_wfb b | None => false end)
    (seq 0 (Z.to_nat total)).

(** No ring block is a COMMIT record. *)
Definition ring_emptyb (sb : Superblock) (d : image) : bool :=
  forallb (fun i => negb (is_ok (DecodeCommit (ring_at sb d (Z.of_nat i)))))
    (seq 0 (Z.to_nat (ring_size sb))).

Lemma bytes_okb_ok b : bytes_okb b = true -> bytes_ok b.
Proof.
  unfold bytes_okb. rewrite forallb_forall. intros H. apply Forall_forall. intros x Hx%list_elem_of_In.
  specialize (H x Hx). bool_to_prop. word.
Qed.

Lemma block_wfb_ok b : block_wfb b = true -> block_wf b.
Proof.
  unfold block_wfb. intros [H1%bool_decide_eq_true_1 H2]%andb_prop. split; [done|].
  by apply bytes_okb_ok.
Qed.

Lemma ready_check sb size d v c b :
  d !! 0 = Some b -> DecodeSuperblock b = Ok sb -> block_wfb b = true ->
  Z.land (sb_feature_incompat sb) (Z.lnot kSupportedFeatureIncompat) = 0 ->
  size = total_blocks sb * kBlockSize -> blocks_okb (total_blocks sb) d = true ->
  selected sb d = Ok (v, c) -> ring_emptyb sb d = true -> ready sb size d v c.
Proof.
  intros H0 Hd Hb Hf Hz Hw Hs Hr. constructor; [|done|].
  - apply block_wfb_ok in Hb.
    destruct (SuperblockCodec.superblock_encode_decode b sb Hb Hd) as [Hty Hv%SuperblockCodec.encode_validated].
    constructor; [by exists b|by apply validated_geometry|done|done|].
    intros blk Hblk. unfold blocks_okb in Hw. rewrite forallb_forall in Hw.
    specialize (Hw (Z.to_nat blk)). rewrite in_seq, Z2Nat.id in Hw by lia.
    specialize (Hw ltac:(lia)). destruct (d !! blk) as [b'|]; [|done].
    exists b'. split; [done|]. by apply block_wfb_ok.
  - intros i cm Hi E. unfold ring_emptyb in Hr. rewrite forallb_forall in Hr.
    specialize (Hr (Z.to_nat i)). rewrite in_seq, Z2Nat.id in Hr by lia.
    specialize (Hr ltac:(lia)). by rewrite E in Hr.
Qed.

Lemma example_ready : ready sb0 size0 img0 current0 kA.
Proof.
  apply (ready_check _ _ _ _ _ (from_ok [] (EncodeSuperblock sb0))); vm_compute; reflexivity.
Qed.

Lemma filled_wf z : u8 z -> block_wf (filled z).
Proof.
  intros Hz. split; [vm_compute; reflexivity|].
  constructor; [exact Hz|apply bytes_ok_zeros].
Qed.

Lemma example_typed : blocks_typed ordered0 /\ blocks_typed meta0.
Proof.
  split; apply map_Forall_singleton; (split; [vm_compute; split; congruence|]);
    apply filled_wf; vm_compute; split; congruence.
Qed.

Lemma example_plain : map_Forall (fun _ b => is_ok (DecodeCommit b) = false) meta0.
Proof. apply map_Forall_singleton. vm_compute. reflexivity. Qed.

Lemma example_keys : map_Forall (fun k (_ : bytes) => u32 k) before0.
Proof.
  apply map_Forall_insert_2; [vm_compute; split; congruence|].
  apply map_Forall_singleton. vm_compute; split; congruence.
Qed.

Lemma example_valid :
  valid_transaction sb0 img0 current0 before0 ordered0 meta0 24 (zeros 16).
Proof.
  constructor; try (vm_compute; reflexivity).
  - intros H. apply (f_equal (fun m : image => m !! 3)) in H. discriminate H.
  - apply map_Forall_singleton. split; vm_compute; reflexivity.
  - apply map_Forall_singleton. vm_compute; reflexivity.
  - apply map_Forall_insert_2; [vm_compute; reflexivity|].
    apply map_Forall_singleton. vm_compute; reflexivity.
  - split; vm_compute; [lia|congruence].
Qed.
