(* ===== verification/JournalTheorems.v ===== *)
(** The journal's guarantees, end to end: a transaction is atomic under crashes
    at any point and repeated crashes during recovery, success means durable,
    failures close the store, and recovery completes. *)
From S2P Require Import Prelude Codec Crc32c OndiskFormat OndiskFormatProofs OndiskJournal OndiskJournalProofs.
From S2P Require Import RingReservation Disk JournalStore JournalImage CrashLogic JournalStates RecoveryProofs.
From S2P Require Import TransactionImages TransactionProofs JournalExample.
Open Scope Z_scope.

(** The images reachable from an image by starting up and crashing during
    recovery, any number of times, under any system-call behaviour. *)
Inductive interrupted_recovery (sb : Superblock) (size : Z) : image -> image -> Prop :=
| ir_refl x : interrupted_recovery sb size x x
| ir_crash x e p y z :
    disk e = x -> st_size e = size -> trace e = [] ->
    p `prefix_of` trace (StartupRecovery e).1 ->
    crash_image sb (durability_of x p) y ->
    interrupted_recovery sb size y z -> interrupted_recovery sb size x z.

Definition clean_image (sb : Superblock) (size : Z) (d : image) : Prop :=
  exists v c, ready sb size d v c /\ used_blocks v = 0.

(** A start-up without system-call failures. *)
Definition fresh_start (size : Z) (d : image) : env := mkEnv d size [] [].

Lemma interrupted_recoverable sb size x y T :
  interrupted_recovery sb size x y -> recoverable sb size x T -> recoverable sb size y T.
Proof.
  induction 1 as [|x e p y z Hd Hz Ht Hp Hc _ IH]; [done|]. intros Hr. apply IH.
  pose proof (recover_outcome sb size x T e Hr Hd Hz Ht) as H.
  destruct (StartupRecovery e) as [e' r]. destruct H as (Hs & _). by apply (Hs p y).
Qed.

Lemma startup_completes sb size d T :
  recoverable sb size d T ->
  exists e a, StartupRecovery (fresh_start size d) = (e, Ok a) /\ settled sb size (disk e) T /\
    responses e = [] /\ st_size e = size /\ synced d e.
Proof.
  intros Hr. pose proof (recover_outcome sb size d T (fresh_start size d) Hr) as H.
  destruct (StartupRecovery (fresh_start size d)) as [e' r].
  destruct H as (_ & H2 & H3); [done..|]. destruct (H2 eq_refl) as [Hok Hn]. destruct r as [a|]; [|done].
  destruct (H3 eq_refl) as (Hs & Hz & Hp). exists e', a. done.
Qed.

Lemma startup_settles sb size d T :
  recoverable sb size d T ->
  exists e a, StartupRecovery (fresh_start size d) = (e, Ok a) /\ settled sb size (disk e) T.
Proof. intros Hr. destruct (startup_completes sb size d T Hr) as (e & a & E & Hs & _). by exists e, a. Qed.

Lemma stages_in d p s : s ∈ stages (durability_of d p) -> EStage s ∈ p.
Proof.
  induction p as [|ev p IH] using rev_ind; [by intros ?%not_elem_of_nil|].
  rewrite durability_snoc, elem_of_app. destruct ev; cbn [settle stages]; try (intros; left; by apply IH).
  intros [?|E%list_elem_of_singleton]%elem_of_app; [left; by apply IH|right; subst; by left].
Qed.

Lemma stages_complete d p s : EStage s ∈ p -> s ∈ stages (durability_of d p).
Proof.
  induction p as [|ev p IH] using rev_ind; [by intros ?%not_elem_of_nil|].
  rewrite durability_snoc, elem_of_app, list_elem_of_singleton. intros [H|<-].
  - destruct ev; cbn [settle stages]; try (by apply IH). apply elem_of_app. left. by apply IH.
  - cbn [settle stages]. apply elem_of_app. right. by left.
Qed.

Lemma settled_old sb size d ordered x T :
  settled sb size x T -> old_state sb d ordered T ->
  clean_image sb size x /\ old_state sb d ordered x.
Proof.
  intros (v & c & Hr & Hu & Hh) Ho. split; [by exists v, c|].
  intros blk Hb Hn. rewrite Hh by done. by apply Ho.
Qed.

Lemma settled_new sb size d ordered meta x T :
  settled sb size x T -> new_state sb d ordered meta T ->
  clean_image sb size x /\ new_state sb d ordered meta x.
Proof.
  intros (v & c & Hr & Hu & Hh) Hn. split; [by exists v, c|].
  intros blk Hb. rewrite Hh by done. by apply Hn.
Qed.

(** C4. Crash atomicity. Whatever the system calls answer during a transaction
    on a clean image, wherever a crash cuts it off, and however often recovery
    is itself cut off by a crash, the next undisturbed start-up succeeds and
    leaves a clean image whose home blocks are those before the transaction
    (apart from the newly written data blocks) or exactly those after it; the
    former only if the crash precedes the COMMIT stage report, the latter only
    if the control was exposed. *)
Theorem transaction_crash_atomic sb size d v c before ordered meta total uuid writable e p x y :
  ready sb size d v c -> used_blocks v = 0 ->
  map_Forall (fun k _ => u32 k) before -> blocks_typed ordered -> blocks_typed meta ->
  map_Forall (fun _ b => is_ok (DecodeCommit b) = false) meta ->
  disk e = d -> st_size e = size -> trace e = [] ->
  p `prefix_of` trace (ExecuteJournalTransaction writable before ordered meta total uuid e).1 ->
  crash_image sb (durability_of d p) x -> interrupted_recovery sb size x y ->
  exists e' action, StartupRecovery (fresh_start size y) = (e', Ok action) /\
    clean_image sb size (disk e') /\
    ((old_state sb d ordered (disk e') /\ EStage kCommit ∉ p) \/
     (new_state sb d ordered meta (disk e') /\ EStage kControlExposure ∈ p)).
Proof.
  intros Hr Hu Hk Hto Htm Hpl Hd Hz Ht Hp Hx Hy.
  pose proof (execute_outcome sb size d v c Hr Hu before ordered meta total uuid writable Hk Hto Htm
    Hpl e Hd Hz Ht) as H.
  destruct (ExecuteJournalTransaction _ _ _ _ _ _ e) as [e1 [r fc]]. destruct H as (Hs & _).
  destruct (Hs p x Hp Hx) as (T & HT & Hor).
  destruct (startup_settles sb size y T) as (e2 & a & E & Hset); [by eapply interrupted_recoverable|].
  exists e2, a. split; [done|]. destruct Hor as [[Ho Hn]|[Hn Hin]].
  - destruct (settled_old _ _ _ _ _ _ Hset Ho). split; [done|]. left. split; [done|].
    intros Hc. by apply Hn, stages_complete.
  - destruct (settled_new _ _ _ _ _ _ _ Hset Hn). split; [done|]. right. split; [done|].
    by eapply stages_in.
Qed.

(** The example transaction, cut off after its last event. *)
Lemma transaction_crash_atomic_witness :
  let run := ExecuteJournalTransaction true before0 ordered0 meta0 24 (zeros 16) (env0 img0 []) in
  let x := durable (durability_of img0 (trace run.1)) in
  exists e' action, StartupRecovery (fresh_start size0 x) = (e', Ok action) /\
    clean_image sb0 size0 (disk e') /\
    ((old_state sb0 img0 ordered0 (disk e') /\ EStage kCommit ∉ trace run.1) \/
     (new_state sb0 img0 ordered0 meta0 (disk e') /\ EStage kControlExposure ∈ trace run.1)).
Proof.
  intros run x.
  apply (transaction_crash_atomic sb0 size0 img0 current0 kA before0 ordered0 meta0 24 (zeros 16) true
    (env0 img0 []) (trace run.1) x x).
  - apply example_ready.
  - reflexivity.
  - apply example_keys.
  - apply example_typed.
  - apply example_typed.
  - apply example_plain.
  - reflexivity.
  - reflexivity.
  - reflexivity.
  - reflexivity.
  - intros blk. left. reflexivity.
  - apply ir_refl.
Defined.

(** C35. A transaction the store accepts, on a clean image and without
    system-call failures, succeeds. *)
Theorem transaction_completes sb size d v c before ordered meta total uuid :
  ready sb size d v c -> used_blocks v = 0 ->
  map_Forall (fun k _ => u32 k) before -> blocks_typed ordered -> blocks_typed meta ->
  map_Forall (fun _ b => is_ok (DecodeCommit b) = false) meta ->
  valid_transaction sb d v before ordered meta total uuid ->
  (ExecuteJournalTransaction true before ordered meta total uuid (fresh_start size d)).2 =
  (Ok tt, false).
Proof.
  intros Hr Hu Hk Hto Htm Hpl Hval.
  pose proof (execute_outcome sb size d v c Hr Hu before ordered meta total uuid true Hk Hto Htm
    Hpl (fresh_start size d) eq_refl eq_refl eq_refl) as H.
  unfold ExecuteJournalTransaction in *.
  destruct (DuplicateFd _) as [e1 [[]|]]; [|by destruct H as (_ & H & _); destruct (H (conj eq_refl Hval) eq_refl)].
  destruct (AdoptLockedFd true e1) as [e2 [s|]];
    [|by destruct H as (_ & H & _); destruct (H (conj eq_refl Hval) eq_refl)].
  destruct (transaction_steps _ _ _ _ _ _) as [[s3 e3] [[]|]]; [done|].
  destruct H as (_ & H & _). by destruct (H (conj eq_refl Hval) eq_refl).
Qed.

Lemma transaction_completes_witness :
  (ExecuteJournalTransaction true before0 ordered0 meta0 24 (zeros 16) (fresh_start size0 img0)).2 =
  (Ok tt, false).
Proof.
  apply (transaction_completes sb0 size0 img0 current0 kA).
  - apply example_ready.
  - reflexivity.
  - apply example_keys.
  - apply example_typed.
  - apply example_typed.
  - apply example_plain.
  - apply example_valid.
Defined.

(** Success is durable. Under any system-call behaviour, when a transaction
    returns 0 nothing is pending any more, and what is durable is a clean image
    with all ordered and metadata blocks in place. *)
Theorem transaction_success_durable sb size d v c before ordered meta total uuid writable e fc :
  ready sb size d v c -> used_blocks v = 0 ->
  map_Forall (fun k _ => u32 k) before -> blocks_typed ordered -> blocks_typed meta ->
  map_Forall (fun _ b => is_ok (DecodeCommit b) = false) meta ->
  disk e = d -> st_size e = size -> trace e = [] ->
  (ExecuteJournalTransaction writable before ordered meta total uuid e).2 = (Ok tt, fc) ->
  let e' := (ExecuteJournalTransaction writable before ordered meta total uuid e).1 in
  pending (durability_of d (trace e')) = [] /\ durable (durability_of d (trace e')) = disk e' /\
  clean_image sb size (disk e') /\ new_state sb d ordered meta (disk e').
Proof.
  intros Hr Hu Hk Hto Htm Hpl Hd Hz Ht.
  pose proof (execute_outcome sb size d v c Hr Hu before ordered meta total uuid writable Hk Hto Htm
    Hpl e Hd Hz Ht) as H.
  destruct (ExecuteJournalTransaction _ _ _ _ _ _ e) as [e' [r fc']]. cbn [fst snd].
  destruct H as (_ & _ & H). intros [= -> ->]. destruct (H eq_refl) as (Hset & Hdur & Hpend & _).
  split; [done|]. split; [done|]. by eapply settled_new.
Qed.

Lemma transaction_success_durable_witness :
  let e' := (ExecuteJournalTransaction true before0 ordered0 meta0 24 (zeros 16) (fresh_start size0 img0)).1 in
  pending (durability_of img0 (trace e')) = [] /\ durable (durability_of img0 (trace e')) = disk e' /\
  clean_image sb0 size0 (disk e') /\ new_state sb0 img0 ordered0 meta0 (disk e').
Proof.
  apply (transaction_success_durable sb0 size0 img0 current0 kA before0 ordered0 meta0 24 (zeros 16)
    true (fresh_start size0 img0) false).
  - apply example_ready.
  - reflexivity.
  - apply example_keys.
  - apply example_typed.
  - apply example_typed.
  - apply example_plain.
  - reflexivity.
  - reflexivity.
  - reflexivity.
  - vm_compute. reflexivity.
Defined.

(** C36. Recovery completes and is idempotent. From an image recovery is meant to
    bring to the home blocks of [T], any number of interrupted recoveries
    followed by an undisturbed one succeeds with exactly those home blocks and
    a clean journal; recovering again then changes no home block. *)
Theorem recovery_idempotent sb size d T y :
  recoverable sb size d T -> interrupted_recovery sb size d y ->
  exists e1 a1 e2 a2,
    StartupRecovery (fresh_start size y) = (e1, Ok a1) /\
    clean_image sb size (disk e1) /\ home_eq sb (disk e1) T /\
    StartupRecovery (fresh_start size (disk e1)) = (e2, Ok a2) /\
    clean_image sb size (disk e2) /\ home_eq sb (disk e2) T.
Proof.
  intros Hr Hi. pose proof (interrupted_recoverable _ _ _ _ _ Hi Hr) as Hy.
  destruct (startup_settles sb size y T Hy) as (e1 & a1 & E1 & Hs1).
  destruct (startup_settles sb size (disk e1) T) as (e2 & a2 & E2 & Hs2); [by apply settled_recoverable|].
  exists e1, a1, e2, a2. destruct Hs1 as (v1 & c1 & ? & ? & ?), Hs2 as (v2 & c2 & ? & ? & ?).
  conj_split; try done; [by exists v1, c1|by exists v2, c2].
Qed.

Lemma recovery_idempotent_witness :
  recoverable sb0 size0 img0 img0 /\
  exists e1 a1 e2 a2,
    StartupRecovery (fresh_start size0 img0) = (e1, Ok a1) /\
    clean_image sb0 size0 (disk e1) /\ home_eq sb0 (disk e1) img0 /\
    StartupRecovery (fresh_start size0 (disk e1)) = (e2, Ok a2) /\
    clean_image sb0 size0 (disk e2) /\ home_eq sb0 (disk e2) img0.
Proof.
  assert (recoverable sb0 size0 img0 img0) as Hr.
  { apply (rec_clean _ _ _ _ current0 kA); [apply example_ready|reflexivity|intros blk _; reflexivity]. }
  split; [exact Hr|]. apply (recovery_idempotent sb0 size0 img0 img0 img0); [exact Hr|apply ir_refl].
Defined.

(** A failure that does not ask the caller to close the backend has not
    touched the image. *)
Theorem execute_fail_closed writable before ordered meta total uuid e er :
  (ExecuteJournalTransaction writable before ordered meta total uuid e).2 = (Err er, false) ->
  let e' := (ExecuteJournalTransaction writable before ordered meta total uuid e).1 in
  disk e' = disk e /\ trace e' = trace e.
Proof.
  unfold ExecuteJournalTransaction, DuplicateFd, Syscall.
  destruct (responses e) as [|[n|er'] rest] eqn:Er; [..|done];
    destruct (AdoptLockedFd _ _) as [e1 [s|]]; try done;
    destruct (transaction_steps _ _ _ _ _ _) as [[s2 e2] [[]|]]; done.
Qed.

Lemma execute_fail_closed_witness :
  let e' := (ExecuteJournalTransaction true before0 ordered0 meta0 24 (zeros 16)
               (env0 img0 [SysErr (EOTHER 24)])).1 in
  disk e' = disk (env0 img0 []) /\ trace e' = [].
Proof.
  apply (execute_fail_closed true before0 ordered0 meta0 24 (zeros 16) (env0 img0 [SysErr (EOTHER 24)])
    (EOTHER 24)). reflexivity.
Defined.

(** Fail-stop. Once a write or sync has failed ([reload_required_]), every
    operation of the store refuses with EIO and changes neither the store nor
    the image; only the recovery classification forgets its candidate. *)
Theorem reload_required_refuses s e next rsv meta :
  reload_required_ s = true ->
  PersistNext next (s, e) = ((s, e), Err EIO) /\
  WriteUnexposedBody rsv meta (s, e) = ((s, e), Err EIO) /\
  ExposeDurableBody (s, e) = ((s, e), Err EIO) /\
  WriteCommit (s, e) = ((s, e), Err EIO) /\
  CompleteCommittedTransaction (s, e) = ((s, e), Err EIO) /\
  ResolveRecovery (s, e) = ((s, e), Err EIO) /\
  ClassifyRecovery (s, e) = ((set_validated s None, e), Err EIO).
Proof.
  intros H.
  assert (forall A (k : JournalControlStore -> M A) bad, bad = true ->
    bind get (fun s => bind (check bad EIO) (fun _ => k s)) (s, e) = ((s, e), Err EIO)) as Hg
    by (intros A k bad ->; reflexivity).
  unfold PersistNext, WriteUnexposedBody, ExposeDurableBody, WriteCommit,
    CompleteCommittedTransaction, ResolveRecovery, ClassifyRecovery, bind, get, check, modify.
  cbn [fst snd set_validated reload_required_]. rewrite H. done.
Qed.

Lemma reload_required_refuses_witness :
  let s := set_reload (new_store sb0 current0 kA) in
  PersistNext (clean_control current0) (s, env0 img0 []) = ((s, env0 img0 []), Err EIO).
Proof.
  apply (reload_required_refuses (set_reload (new_store sb0 current0 kA)) (env0 img0 [])
    (clean_control current0) (mkReservation 0 0 [] 0 current0) meta0). reflexivity.
Defined.

(** Running a reading step on an undisturbed image. *)
Lemma run_undisturbed {A} sb size d (m : M A) s Q :
  runs sb d size True (fun _ _ => True) m s (V d [] []) Q ->
  exists s' e' a v', m (s, fresh_start size d) = ((s', e'), Ok a) /\ Q a s' v'.
Proof.
  intros H. specialize (H (fresh_start size d)). destruct (m (s, fresh_start size d)) as [[s' e'] r].
  destruct H as (_ & HF & HQ); [done|done|].
  destruct (HF Logic.I eq_refl) as [_ Hok]. destruct r as [a|]; [|done].
  destruct HQ as (v' & _ & HQ). exists s', e', a, v'. done.
Qed.

(** Classification. Reading an image whose control exposes the body of a
    transaction, recovery reports exactly whether a matching COMMIT is present,
    and in that case hands over exactly the transaction's after-images; an
    image whose control exposes nothing is reported empty. *)
Theorem classification_correct sb size d v c s :
  ready sb size d v c ->
  superblock_ s = sb -> current_ s = v -> reload_required_ s = false ->
  let '((s', _), r) := ClassifyRecovery (s, fresh_start size d) in
  (used_blocks v = 0 -> r = Ok kEmpty) /\
  (forall desc meta, exposed sb d v desc meta ->
     (uncommitted sb d v desc meta -> r = Ok kUncommitted /\ validated_transaction_ s' = None) /\
     (committed sb d v desc meta ->
        r = Ok kCommitted /\ validated_transaction_ s' = Some (validated v desc meta))).
Proof.
  intros Hr Hsb Hcur Hrel. set (I := fun (_ : list DurableStage) (_ : image) => True).
  destruct (ClassifyRecovery (s, fresh_start size d)) as [[s' e'] r] eqn:E. split.
  - intros Hu. destruct (run_undisturbed sb size d ClassifyRecovery s (fun a _ _ => a = kEmpty))
      as (s1 & e1 & a & v1 & E1 & ->); [by eapply runs_classify_clean|].
    rewrite E in E1. by injection E1.
  - intros desc meta Hexp. split; intros Hc.
    + destruct (run_undisturbed sb size d ClassifyRecovery s
        (fun a s1 _ => a = kUncommitted /\ validated_transaction_ s1 = None))
        as (s1 & e1 & a & v1 & E1 & -> & Hv).
      { eapply runs_classify_exposed with (desc := desc) (meta := meta); eauto.
        intros Hc'. exfalso. by eapply not_both. }
      rewrite E in E1. by injection E1 as -> _ ->.
    + destruct (run_undisturbed sb size d ClassifyRecovery s
        (fun a s1 _ => a = kCommitted /\ validated_transaction_ s1 = Some (validated v desc meta)))
        as (s1 & e1 & a & v1 & E1 & -> & Hv).
      { eapply runs_classify_exposed with (desc := desc) (meta := meta); eauto.
        intros Hc'. exfalso. by eapply not_both. }
      rewrite E in E1. by injection E1 as -> _ ->.
Qed.

Lemma classification_correct_witness :
  let '((s', _), r) := ClassifyRecovery (new_store sb0 current0 kA, fresh_start size0 img0) in
  (used_blocks current0 = 0 -> r = Ok kEmpty) /\
  (forall desc meta, exposed sb0 img0 current0 desc meta ->
     (uncommitted sb0 img0 current0 desc meta -> r = Ok kUncommitted /\ validated_transaction_ s' = None) /\
     (committed sb0 img0 current0 desc meta ->
        r = Ok kCommitted /\ validated_transaction_ s' = Some (validated current0 desc meta))).
Proof.
  apply (classification_correct sb0 size0 img0 current0 kA);
    [apply example_ready|reflexivity|reflexivity|reflexivity].
Defined.

(** ** Operations that only read *)
Definition reads_only {A} (m : M A) : Prop :=
  forall s e, disk (m (s, e)).1.2 = disk e /\ trace (m (s, e)).1.2 = trace e.

Lemma reads_bind {A B} (m : M A) (k : A -> M B) :
  reads_only m -> (forall a, reads_only (k a)) -> reads_only (bind m k).
Proof.
  intros Hm Hk s e. unfold bind. specialize (Hm s e).
  destruct (m (s, e)) as [[s1 e1] [a|er]]; [|done]. destruct Hm as [<- <-]. apply Hk.
Qed.

Lemma reads_check bad er : reads_only (check bad er).
Proof. unfold check. by destruct bad. Qed.

Lemma reads_pread off : reads_only (lift (PreadAll off)).
Proof.
  intros s e. unfold lift, PreadAll. cbn [snd fst].
  destruct (pread_loop _ _ _) as [rest [[]|]]; [|done]. by destruct (disk e !! _).
Qed.

Lemma reads_ring sb i : reads_only (ReadRingBlock sb i).
Proof.
  unfold ReadRingBlock. repeat (apply reads_bind; [apply reads_check|intros _]). apply reads_pread.
Qed.

Lemma reads_entries sb current k l : reads_only (check_entries sb current k l).
Proof.
  revert k. induction l as [|x l IH]; intros k; [done|]. cbn [check_entries].
  repeat (apply reads_bind; [apply reads_check|intros _]). apply IH.
Qed.

Lemma reads_payloads sb l acc : reads_only (read_payloads sb l acc).
Proof.
  revert acc. induction l as [|x l IH]; intros acc; [done|]. cbn [read_payloads].
  apply reads_bind; [apply reads_ring|intros b].
  apply reads_bind; [apply reads_check|intros _]. apply IH.
Qed.

(** Classification never writes, whatever it reads and however it ends. *)
Theorem classification_read_only s e :
  disk (ClassifyRecovery (s, e)).1.2 = disk e /\ trace (ClassifyRecovery (s, e)).1.2 = trace e.
Proof.
  revert s e. change (reads_only ClassifyRecovery). unfold ClassifyRecovery.
  apply reads_bind; [done|intros _]. apply reads_bind; [done|intros s].
  apply reads_bind; [apply reads_check|intros _]. destruct (_ =? 0); [done|].
  apply reads_bind; [apply reads_check|intros _]. apply reads_bind; [apply reads_ring|intros b].
  destruct (DecodeDescriptor b); [|done].
  repeat (apply reads_bind; [apply reads_check|intros _]).
  apply reads_bind; [apply reads_entries|intros _]. apply reads_bind; [apply reads_check|intros _].
  apply reads_bind; [apply reads_payloads|intros m]. apply reads_bind; [apply reads_ring|intros b'].
  destruct (DecodeCommit b'); [|done]. destruct (negb _); [done|].
  apply reads_bind; [apply reads_check|intros _]. by apply reads_bind.
Qed.
