(* ===== verification/DurableStages.v ===== *)
(** Durable-stage reports and the crash failpoints built on them
    (src/journal/durable_stage_failpoint.cpp): which stages a transaction
    reports, in which order, and that a report is made only when everything
    written before it is durable, on any image and under any system-call
    behaviour. *)
From Stdlib Require Import String.
From S2P Require Import Prelude OndiskFormat OndiskJournal RingReservation Disk JournalStore JournalImage CrashLogic.
From S2P Require Import JournalExample JournalTheorems.
Open Scope Z_scope.

(** * The failpoint *)
Definition DurableStageName (stage : DurableStage) : string :=
  match stage with
  | kOrderedData => "ordered-data"
  | kJournalBody => "journal-body"
  | kControlExposure => "control-exposure"
  | kCommit => "commit"
  | kHomeBlocks => "home-blocks"
  | kCheckpoint => "checkpoint"
  end.

Definition all_stages : list DurableStage :=
  [kOrderedData; kJournalBody; kControlExposure; kCommit; kHomeBlocks; kCheckpoint].

Definition ParseDurableStage (value : string) : option DurableStage :=
  find (fun stage => String.eqb value (DurableStageName stage)) all_stages.

(** What [ProcessCrashObserver] makes of a run: the process exits with code 200
    inside the first report of the target stage. *)
Fixpoint ProcessCrashObserver (target : DurableStage) (t : list event) : list event * option Z :=
  match t with
  | [] => ([], None)
  | EStage s :: rest =>
      if bool_decide (s = target) then ([EStage s], Some 200)
      else let '(seen, code) := ProcessCrashObserver target rest in (EStage s :: seen, code)
  | ev :: rest =>
      let '(seen, code) := ProcessCrashObserver target rest in (ev :: seen, code)
  end.

(** * Traces in which reports follow a completed sync *)
Fixpoint stages_in_trace (t : list event) : list DurableStage :=
  match t with
  | [] => []
  | EStage s :: rest => s :: stages_in_trace rest
  | _ :: rest => stages_in_trace rest
  end.

Definition no_partial (t : list event) : Prop := Forall (fun ev => forall b, ev <> EPartial b) t.

Definition disciplined (t : list event) : Prop :=
  forall p s q, t = p ++ EStage s :: q -> last p = Some ESync /\ no_partial p.

Lemma stages_in_app t u : stages_in_trace (t ++ u) = stages_in_trace t ++ stages_in_trace u.
Proof. induction t as [|[] t IH]; cbn; [done|done..|]. by rewrite IH. Qed.

Lemma disciplined_app t u : disciplined t -> no_partial t -> disciplined u -> disciplined (t ++ u).
Proof.
  intros Ht Hp Hu p s q E. apply app_eq_inv in E as [(k & -> & E)|(k & -> & E)].
  - destruct k as [|ev k]; cbn in E.
    + destruct (Hu [] s q (eq_sym E)) as [H _]. done.
    + injection E as <- ->. apply (Ht _ _ _ eq_refl).
  - destruct (Hu _ _ _ E) as [H1 H2]. split.
    + rewrite last_app. by rewrite H1.
    + by apply Forall_app.
Qed.

Lemma disciplined_quiet t : stages_in_trace t = [] -> disciplined t.
Proof. intros H p s q ->. rewrite stages_in_app in H. by destruct (stages_in_trace p). Qed.

Lemma disciplined_report t s : disciplined t -> no_partial t -> last t = Some ESync ->
  disciplined (t ++ [EStage s]).
Proof.
  intros Ht Hp Hl p s' q E. apply app_eq_inv in E as [(k & -> & E)|(k & -> & E)].
  - destruct k as [|ev k]; cbn in E; [by rewrite app_nil_r in *|].
    injection E as <- ->. apply (Ht _ _ _ eq_refl).
  - destruct k as [|ev k]; [by rewrite app_nil_r|]. by destruct k.
Qed.

(** Nothing is pending right after a sync, if no write failed. *)
Lemma no_partial_pending d t : no_partial t ->
  Forall (fun w => is_Some w.2) (pending (durability_of d t)).
Proof.
  induction t as [|ev t IH] using rev_ind; [constructor|].
  intros [Ht Hev]%Forall_app. rewrite durability_snoc. apply Forall_cons in Hev as [Hev _].
  destruct ev; cbn [settle pending]; try by apply IH.
  - apply Forall_app. split; [by apply IH|]. by repeat constructor.
  - by destruct (Hev block).
  - specialize (IH Ht). induction IH as [|w l [b Hw] _ IHl]; [constructor|].
    rewrite filter_cons_False; [done|]. by rewrite Hw.
Qed.

Lemma synced_pending d t : last t = Some ESync -> no_partial t -> pending (durability_of d t) = [].
Proof.
  intros Hl. destruct t as [|ev t _] using rev_ind; [done|]. rewrite last_snoc in Hl. injection Hl as ->.
  intros [Ht _]%Forall_app. rewrite durability_snoc. cbn [settle pending].
  pose proof (no_partial_pending d t Ht) as H. clear -H.
  induction H as [|w l [b Hw] _ IH]; [done|]. rewrite filter_cons_False; [done|]. by rewrite Hw.
Qed.

(** * A trace logic for store programs

    [emits L synced m]: the events [m] adds are disciplined; when it succeeds it
    has reported exactly [L] (ending in a sync if [synced]), otherwise a prefix
    of [L]. *)
Definition emits {A} (L : list DurableStage) (synced : bool) (m : M A) : Prop :=
  forall s e, exists t,
    trace (m (s, e)).1.2 = trace e ++ t /\ disciplined t /\
    match (m (s, e)).2 with
    | Ok _ => stages_in_trace t = L /\ no_partial t /\ (synced = true -> last t = Some ESync)
    | Err _ => stages_in_trace t `prefix_of` L
    end.

Definition quiet {A} (m : M A) : Prop := forall s e, trace (m (s, e)).1.2 = trace e.

Lemma disciplined_nil : disciplined [].
Proof. by apply disciplined_quiet. Qed.

Lemma emits_quiet {A} (m : M A) : quiet m -> emits [] false m.
Proof.
  intros H s e. exists []. rewrite app_nil_r. split; [apply H|]. split; [apply disciplined_nil|].
  destruct (m (s, e)).2; [by repeat constructor|done].
Qed.

Lemma emits_fail {A} L b er : emits L b (fail (A:=A) er).
Proof.
  intros s e. exists []. rewrite app_nil_r. split; [done|]. split; [apply disciplined_nil|].
  apply prefix_nil.
Qed.

Lemma quiet_check bad er : quiet (check bad er).
Proof. intros s e. unfold check. by destruct bad. Qed.

Lemma emits_bind {A B} L1 L2 b1 b2 (m : M A) (k : A -> M B) :
  emits L1 b1 m -> (forall a, emits L2 b2 (k a)) -> emits (L1 ++ L2) b2 (bind m k).
Proof.
  intros Hm Hk s e. destruct (Hm s e) as (t & Ht & Hd & Hr). unfold bind.
  destruct (m (s, e)) as [[s1 e1] [a|er]]; cbn [fst snd] in *.
  - destruct Hr as (Hs & Hn & _). destruct (Hk a s1 e1) as (u & Hu & Hdu & Hru).
    exists (t ++ u). rewrite Hu, Ht, app_assoc, stages_in_app, Hs.
    split; [done|]. split; [by apply disciplined_app|].
    destruct (k a (s1, e1)).2.
    + destruct Hru as (-> & Hnu & Hl). split; [done|]. split; [by apply Forall_app|].
      intros Hb. rewrite last_app. by rewrite (Hl Hb).
    + by apply prefix_app.
  - exists t. split; [done|]. split; [done|]. by apply prefix_app_r.
Qed.

Lemma emits_quiet_bind {A B} L b (m : M A) (k : A -> M B) :
  quiet m -> (forall a, emits L b (k a)) -> emits L b (bind m k).
Proof. intros Hm%emits_quiet Hk. by apply (emits_bind [] L false b). Qed.

(** A trailing silent step keeps the sync at the end. *)
Lemma emits_then_quiet {A B} L b (m : M A) (k : A -> M B) :
  emits L b m -> (forall a, quiet (k a)) -> emits L b (bind m k).
Proof.
  intros Hm Hk s e. destruct (Hm s e) as (t & Ht & Hd & Hr). exists t. unfold bind.
  destruct (m (s, e)) as [[s1 e1] [a|er]]; cbn [fst snd] in *; [|done].
  rewrite (Hk a s1 e1). split; [done|]. split; [done|]. destruct (k a (s1, e1)).2; [done|].
  destruct Hr as (-> & _). done.
Qed.

(** A report after a step that ended in a sync. *)
Lemma emits_report {A B} L1 L2 b st (m : M A) (k : unit -> M B) :
  emits L1 true m -> (forall u, emits L2 b (k u)) ->
  emits (L1 ++ st :: L2) b (bind m (fun _ => bind (lift (OnDurableStage st)) k)).
Proof.
  intros Hm Hk. replace (L1 ++ st :: L2) with ((L1 ++ [st]) ++ L2) by (by rewrite <- app_assoc).
  assert (emits (L1 ++ [st]) false (bind m (fun _ => lift (OnDurableStage st)))) as H.
  { intros s e. destruct (Hm s e) as (t & Ht & Hd & Hr). unfold bind.
    destruct (m (s, e)) as [[s1 e1] [a|er]]; cbn [fst snd] in *.
    - destruct Hr as (Hs & Hn & Hl). specialize (Hl eq_refl). exists (t ++ [EStage st]).
      unfold lift, OnDurableStage. cbn [fst snd log_event trace]. rewrite Ht, <- app_assoc.
      split; [done|]. split; [by apply disciplined_report|].
      rewrite stages_in_app, Hs. split; [done|]. split; [|done].
      apply Forall_app. split; [done|]. by repeat constructor.
    - exists t. split; [done|]. split; [done|]. by apply prefix_app_r. }
  intros s e. destruct (emits_bind _ L2 _ b _ k H Hk s e) as (t & Ht). exists t.
  revert Ht. unfold bind. by destruct (m (s, e)) as [[s1 e1] [a|er]].
Qed.

(** * The steps of a transaction *)
Lemma emits_sync : emits [] true (latch (lift Fdatasync)).
Proof.
  intros s e. unfold latch, lift, Fdatasync. cbn [fst snd].
  assert (disciplined [ESync]) as Hd by (by apply disciplined_quiet).
  destruct (responses e) as [|[n|er] rest]; [|destruct (n =? 0)|]; cbn [fst snd log_event trace set_responses].
  1,2: exists [ESync]; split; [done|]; split; [done|]; by repeat constructor.
  all: exists []; rewrite app_nil_r; split; [done|]; split; [apply disciplined_nil|done].
Qed.

Lemma emits_write b off : emits [] false (latch (lift (PwriteAll b off))).
Proof.
  intros s e. unfold latch, lift, PwriteAll. cbn [fst snd].
  destruct (pwrite_loop _ _ _) as [[rest n] [[]|er]]; cbn [fst snd log_event trace set_responses set_disk].
  all: eexists; split; [done|]; split; [by apply disciplined_quiet|]; try done.
  split; [done|]. split; [|done]. by repeat constructor.
Qed.

Lemma emits_each {A} (f : A -> M unit) l :
  (forall x, emits [] false (f x)) -> emits [] false (for_each f l).
Proof.
  intros Hf. induction l as [|x l IH]; cbn [for_each]; [by apply emits_quiet|].
  by apply (emits_bind [] [] false).
Qed.

Ltac silent := apply emits_quiet_bind; [first [done | apply quiet_check]|intros ?].

Lemma emits_persist next : emits [] true (PersistNext next).
Proof.
  unfold PersistNext. silent. do 3 silent. destruct (EncodeControl next) as [[b c]|]; [|apply emits_fail].
  apply (emits_bind [] [] false); [apply emits_write|intros _].
  apply emits_then_quiet; [apply emits_sync|done].
Qed.

Lemma emits_payloads sb l : forall ps, emits [] false (write_payloads sb l ps).
Proof.
  induction l as [|[k b] l IH]; intros ps; cbn [write_payloads]; [by apply emits_quiet|].
  apply (emits_bind [] [] false); [|intros _; apply IH].
  destruct (RingOffset sb _); [apply emits_write|by apply emits_quiet].
Qed.

Lemma emits_body rsv meta : emits [kJournalBody] false (WriteUnexposedBody rsv meta).
Proof.
  unfold WriteUnexposedBody. do 5 silent. destruct (build_entries _ _ _); [|apply emits_fail].
  destruct (EncodeDescriptor _) as [[b c]|]; [|apply emits_fail].
  destruct (RingOffset _ _); [|apply emits_fail].
  apply (emits_bind [] _ false); [apply emits_write|intros _].
  apply (emits_bind [] _ false); [apply emits_payloads|intros _].
  apply (emits_report [] []); [apply emits_sync|intros _]. by apply emits_quiet.
Qed.

(** The stages a transaction with these data blocks reports. *)
Definition expected_stages (ordered : image) : list DurableStage :=
  (if bool_decide (ordered = ∅) then [] else [kOrderedData]) ++
  [kJournalBody; kControlExposure; kCommit; kHomeBlocks; kCheckpoint].

Lemma quiet_each {A} (f : A -> M unit) l : (forall x, quiet (f x)) -> quiet (for_each f l).
Proof.
  intros Hf. induction l as [|x l IH]; intros s e; [done|]. cbn [for_each]. unfold bind.
  pose proof (Hf x s e) as H. destruct (f x (s, e)) as [[s1 e1] [[]|]]; cbn [fst snd] in *; [|done].
  by rewrite IH.
Qed.

Lemma quiet_verify sb p : quiet (verify_before sb p).
Proof.
  intros s e. unfold verify_before, bind, check. destruct (_ <=? _); [done|]. cbn [ret].
  pose proof (reads_pread (p.1 * kBlockSize) s e) as [_ H].
  destruct (lift (PreadAll _) (s, e)) as [[s1 e1] [b|]]; cbn [fst snd] in *; [|done].
  by destruct (negb _).
Qed.

Lemma emits_first total uuid before ordered meta :
  emits ((if bool_decide (ordered = ∅) then [] else [kOrderedData]) ++ [kJournalBody]) false
    (WriteOrderedDataAndUnexposedBody total uuid before ordered meta).
Proof.
  unfold WriteOrderedDataAndUnexposedBody. do 5 silent.
  do 2 (apply emits_quiet_bind; [apply quiet_each; intros; apply quiet_check|intros ?]).
  silent. apply emits_quiet_bind; [apply quiet_each; intros; apply quiet_check|intros ?].
  silent. apply emits_quiet_bind; [apply quiet_each; apply quiet_verify|intros ?].
  apply (emits_bind _ _ false); [|intros _; apply emits_body].
  case_bool_decide; [by apply emits_quiet|].
  apply (emits_bind [] _ false); [apply emits_each; intros; apply emits_write|intros _].
  intros s e.
  destruct (emits_report [] [] false kOrderedData _ (fun _ => ret tt) emits_sync
              (fun _ => emits_quiet (ret tt) (fun _ _ => eq_refl)) s e) as (t & Ht).
  exists t. revert Ht. unfold bind. by destruct (latch _ _) as [[s1 e1] [[]|]].
Qed.

Lemma emits_expose : emits [kControlExposure] false ExposeDurableBody.
Proof.
  unfold ExposeDurableBody. do 3 silent. destruct (durable_body_ a) as [body|]; [|apply emits_fail].
  intros s e.
  destruct (emits_report [] [] false kControlExposure _ (fun _ => ret tt)
              (emits_persist (exposed_control (reservation body)))
              (fun _ => emits_quiet (ret tt) (fun _ _ => eq_refl)) s e) as (t & Ht).
  exists t. revert Ht. unfold bind. by destruct (PersistNext _ _) as [[s1 e1] [[]|]].
Qed.

Lemma emits_commit : emits [kCommit] false WriteCommit.
Proof.
  unfold WriteCommit. do 2 silent. destruct (durable_body_ a) as [body|]; [|apply emits_fail].
  do 2 silent. destruct (EncodeCommit _) as [b|]; [|apply emits_fail].
  destruct (RingOffset _ _); [|apply emits_fail].
  apply (emits_bind [] _ false); [apply emits_write|intros _].
  apply (emits_report [] []); [apply emits_sync|intros _]. by apply emits_quiet.
Qed.

Lemma emits_complete : emits [kHomeBlocks; kCheckpoint] false CompleteCommittedTransaction.
Proof.
  unfold CompleteCommittedTransaction. do 4 silent.
  apply (emits_bind [] _ false).
  { apply emits_each. intros p. silent. apply emits_write. }
  intros _. apply (emits_report [] [kCheckpoint]); [apply emits_sync|intros _].
  apply (emits_report [] []); [apply emits_persist|intros _]. by apply emits_quiet.
Qed.

Lemma emits_transaction before ordered meta total uuid :
  emits (expected_stages ordered) false (transaction_steps before ordered meta total uuid).
Proof.
  unfold transaction_steps, expected_stages.
  change [kJournalBody; kControlExposure; kCommit; kHomeBlocks; kCheckpoint] with
    ([kJournalBody] ++ [kControlExposure; kCommit; kHomeBlocks; kCheckpoint]). rewrite app_assoc.
  apply (emits_bind _ _ false); [apply emits_first|intros _].
  apply (emits_bind [kControlExposure] _ false); [apply emits_expose|intros _].
  apply (emits_bind [kCommit] _ false); [apply emits_commit|intros _]. apply emits_complete.
Qed.

(** Adopting the descriptor only reads. *)
Definition quiet_io {A} (m : io A) : Prop := forall e, trace (m e).1 = trace e.

Lemma quiet_io_bind {A B} (m : io A) (k : A -> io B) :
  quiet_io m -> (forall a, quiet_io (k a)) -> quiet_io (io_bind m k).
Proof.
  intros Hm Hk e. unfold io_bind. specialize (Hm e). destruct (m e) as [e1 [a|er]]; cbn [fst] in *; [|done].
  by rewrite Hk.
Qed.

Lemma quiet_syscall : quiet_io Syscall.
Proof. intros e. unfold Syscall. by destruct (responses e) as [|[] ?]. Qed.

Lemma quiet_pread off : quiet_io (PreadAll off).
Proof.
  intros e. unfold PreadAll. destruct (pread_loop _ _ _) as [rest [[]|]]; [|done].
  by destruct (disk e !! _).
Qed.

Lemma quiet_adopt writable : quiet_io (AdoptLockedFd writable).
Proof.
  apply quiet_io_bind; [apply quiet_syscall|intros _]. destruct (negb writable); [done|].
  apply quiet_io_bind; [|intros [[? ?] ?]; done]. apply quiet_io_bind; [apply quiet_syscall|intros _ e].
  cbv beta zeta. destruct (_ || _); [done|]. refine (quiet_io_bind _ _ (quiet_pread 0) _ e). intros b.
  destruct (DecodeSuperblock b) as [sb|]; [|done]. destruct (negb _); [done|]. destruct (negb _); [done|].
  apply quiet_io_bind; [apply quiet_pread|intros ca]. apply quiet_io_bind; [apply quiet_pread|intros cb].
  by destruct (SelectControl _ _ _ _) as [[]|].
Qed.

Lemma emits_execute before ordered meta total uuid writable e :
  exists t,
    trace (ExecuteJournalTransaction writable before ordered meta total uuid e).1 = trace e ++ t /\
    disciplined t /\ stages_in_trace t `prefix_of` expected_stages ordered /\
    (is_ok (ExecuteJournalTransaction writable before ordered meta total uuid e).2.1 = true ->
     stages_in_trace t = expected_stages ordered).
Proof.
  assert (forall e', trace e' = trace e -> exists t, trace e' = trace e ++ t /\
            disciplined t /\ stages_in_trace t `prefix_of` expected_stages ordered) as Hquiet.
  { intros e' ->. exists []. rewrite app_nil_r. conj_split; [done|apply disciplined_nil|apply prefix_nil]. }
  unfold ExecuteJournalTransaction, DuplicateFd. pose proof (quiet_syscall e) as Hs.
  destruct (Syscall e) as [e1 [[]|]]; cbn [fst snd] in *.
  2: { destruct (Hquiet e1 Hs) as (t & ? & ? & ?). by exists t. }
  pose proof (quiet_adopt writable e1) as Ha. rewrite Hs in Ha.
  destruct (AdoptLockedFd writable e1) as [e2 [store|]]; cbn [fst snd] in *.
  2: { destruct (Hquiet e2 Ha) as (t & ? & ? & ?). by exists t. }
  destruct (emits_transaction before ordered meta total uuid store e2) as (t & Ht & Hd & Hr).
  exists t. destruct (transaction_steps _ _ _ _ _ _) as [[s3 e3] [[]|]]; cbn [fst snd is_ok] in *.
  - destruct Hr as (-> & _). rewrite Ht, Ha. done.
  - rewrite Ht, Ha. done.
Qed.

(** A stage report is a durability guarantee. On any image and under any
    system-call behaviour, a transaction reports its stages in the documented
    order (all of them when it returns 0, the data stage only when there are
    data blocks), and at each report every block written so far is durable:
    nothing is pending, so a crash there cannot lose any of them. *)
Theorem stage_reports_durable before ordered meta total uuid writable e d :
  exists t,
    trace (ExecuteJournalTransaction writable before ordered meta total uuid e).1 = trace e ++ t /\
    stages_in_trace t `prefix_of` expected_stages ordered /\
    (is_ok (ExecuteJournalTransaction writable before ordered meta total uuid e).2.1 = true ->
     stages_in_trace t = expected_stages ordered) /\
    (forall p s q, t = p ++ EStage s :: q -> pending (durability_of d p) = []).
Proof.
  destruct (emits_execute before ordered meta total uuid writable e) as (t & Ht & Hd & Hp & Hok).
  exists t. conj_split; try done. intros p s q E. destruct (Hd p s q E) as [Hl Hn].
  by apply synced_pending.
Qed.

Lemma stage_reports_durable_witness :
  exists t,
    trace (ExecuteJournalTransaction true before0 ordered0 meta0 24 (zeros 16) (env0 img0 [])).1 = [] ++ t /\
    stages_in_trace t `prefix_of` expected_stages ordered0 /\
    (is_ok (ExecuteJournalTransaction true before0 ordered0 meta0 24 (zeros 16) (env0 img0 [])).2.1 = true ->
     stages_in_trace t = expected_stages ordered0) /\
    (forall p s q, t = p ++ EStage s :: q -> pending (durability_of img0 p) = []).
Proof. exact (stage_reports_durable before0 ordered0 meta0 24 (zeros 16) true (env0 img0 []) img0). Defined.

(** ** Failpoints *)
Lemma parse_name s : ParseDurableStage (DurableStageName s) = Some s.
Proof. by destruct s. Qed.

Lemma parse_inv v s : ParseDurableStage v = Some s -> v = DurableStageName s.
Proof. intros [_ H]%List.find_some. by apply String.eqb_eq in H. Qed.

Lemma observer_stops target t :
  let '(seen, code) := ProcessCrashObserver target t in
  match code with
  | Some c => c = 200 /\ exists p q, seen = p ++ [EStage target] /\ t = seen ++ q /\
                                     target ∉ stages_in_trace p
  | None => seen = t /\ target ∉ stages_in_trace t
  end.
Proof.
  induction t as [|ev t IH]; cbn [ProcessCrashObserver]; [split; [done|apply not_elem_of_nil]|].
  destruct (ProcessCrashObserver target t) as [seen [c|]];
    [destruct IH as (-> & p & q & -> & -> & Hn)|destruct IH as [-> Hn]].
  - destruct ev as [blk b|blk| |s]; [..|case_bool_decide as Hs; [subst s|]].
    4: { split; [done|]. exists [], ((p ++ [EStage target]) ++ q). split; [done|]. split; [done|apply not_elem_of_nil]. }
    all: split; [done|]; eexists (_ :: p), q; split; [reflexivity|]; split; [reflexivity|]; cbn; try done.
    apply not_elem_of_cons. done.
  - destruct ev as [blk b|blk| |s]; [..|case_bool_decide as Hs; [subst s|]]; try done.
    + split; [done|]. exists [], t. split; [done|]. split; [done|apply not_elem_of_nil].
    + split; [done|]. cbn. apply not_elem_of_cons. done.
Qed.

(** Crash failpoints. [ParseDurableStage] accepts exactly the six stage
    names. A process whose observer targets a named stage exits with code 200
    exactly when the transaction reports that stage; it has then reported
    precisely the stages that come before, every write it made is durable, and
    a stage the transaction never reports leaves the run undisturbed. *)
Theorem failpoint_crash_point (value : string) (target : DurableStage)
    before ordered meta total uuid writable e d :
  ParseDurableStage value = Some target -> trace e = [] ->
  let t := trace (ExecuteJournalTransaction writable before ordered meta total uuid e).1 in
  value = DurableStageName target /\
  match ProcessCrashObserver target t with
  | (seen, Some code) =>
      code = 200 /\ exists p, seen = p ++ [EStage target] /\ seen `prefix_of` t /\
      pending (durability_of d p) = [] /\
      stages_in_trace p ++ [target] `prefix_of` expected_stages ordered
  | (seen, None) => seen = t /\ target ∉ stages_in_trace t
  end.
Proof.
  intros Hv%parse_inv He t. split; [done|].
  destruct (emits_execute before ordered meta total uuid writable e) as (t' & Ht & Hd & Hp & _).
  rewrite He in Ht. cbn [app] in Ht. fold t in Ht. subst t'.
  pose proof (observer_stops target t) as H. destruct (ProcessCrashObserver target t) as [seen [c|]]; [|done].
  destruct H as (-> & p & q & -> & E & _). split; [done|]. exists p. split; [done|]. split; [by exists q|].
  rewrite <- app_assoc in E. destruct (Hd p target q E) as [Hl Hn]. split; [by apply synced_pending|].
  rewrite E, stages_in_app in Hp. cbn [stages_in_trace app] in Hp. etrans; [|exact Hp].
  exists (stages_in_trace q). by rewrite <- app_assoc.
Qed.

Lemma failpoint_crash_point_witness :
  "commit"%string = DurableStageName kCommit /\
  match ProcessCrashObserver kCommit
          (trace (ExecuteJournalTransaction true before0 ordered0 meta0 24 (zeros 16) (env0 img0 [])).1) with
  | (seen, Some code) =>
      code = 200 /\ exists p, seen = p ++ [EStage kCommit] /\
      seen `prefix_of` trace (ExecuteJournalTransaction true before0 ordered0 meta0 24 (zeros 16) (env0 img0 [])).1 /\
      pending (durability_of img0 p) = [] /\
      stages_in_trace p ++ [kCommit] `prefix_of` expected_stages ordered0
  | (seen, None) =>
      seen = trace (ExecuteJournalTransaction true before0 ordered0 meta0 24 (zeros 16) (env0 img0 [])).1 /\
      kCommit ∉ stages_in_trace (trace (ExecuteJournalTransaction true before0 ordered0 meta0 24 (zeros 16) (env0 img0 [])).1)
  end.
Proof.
  refine (failpoint_crash_point "commit"%string kCommit before0 ordered0 meta0 24 (zeros 16) true
            (env0 img0 []) img0 _ _); reflexivity.
Defined.
