(* ===== verification/BitmapAllocator.v ===== *)
(** The bitmap allocator (src/storage/bitmap_allocator.h/.cpp): first-fit
    reservation on an in-memory bitmap, with reservations that roll back unless
    they are kept. The allocator's mutex makes every operation atomic. *)
From S2P Require Import Prelude.
Open Scope Z_scope.

Record BitmapAllocator := mkAllocator {
  bitmap_ : bytes;
  valid_bits_ : Z;
  first_allocatable_bit_ : Z
}.

Definition set_bitmap (a : BitmapAllocator) (b : bytes) : BitmapAllocator :=
  mkAllocator b (valid_bits_ a) (first_allocatable_bit_ a).

(** [bitmap[i]], and its update; the code only indexes inside the vector. *)
Definition byte_at (b : bytes) (i : Z) : Z := nth (Z.to_nat i) b 0.
Definition put_byte (b : bytes) (i v : Z) : bytes := <[Z.to_nat i := v]> b.

Definition bit_mask (bit : Z) : Z := Z.shiftl 1 (bit mod 8) mod 256.

Definition TestBit (bitmap : bytes) (bit : Z) : bool :=
  negb (Z.land (byte_at bitmap (bit / 8)) (bit_mask bit) =? 0).

Definition SetBit (bitmap : bytes) (bit : Z) : bytes :=
  put_byte bitmap (bit / 8) (Z.lor (byte_at bitmap (bit / 8)) (bit_mask bit)).

(** [~mask] truncated to a byte. *)
Definition ClearBit (bitmap : bytes) (bit : Z) : bytes :=
  put_byte bitmap (bit / 8) (Z.land (byte_at bitmap (bit / 8)) (Z.lnot (bit_mask bit) mod 256)).

Definition capacity_bits (a : BitmapAllocator) : Z := Z.of_nat (length (bitmap_ a)) * 8.

(** The loops over [from, from + n). *)
Fixpoint all_set (bitmap : bytes) (from : Z) (n : nat) : bool :=
  match n with
  | O => true
  | S n => TestBit bitmap from && all_set bitmap (from + 1) n
  end.

Fixpoint first_free (bitmap : bytes) (from : Z) (n : nat) : option Z :=
  match n with
  | O => None
  | S n => if TestBit bitmap from then first_free bitmap (from + 1) n else Some from
  end.

Definition Validate (a : BitmapAllocator) : result string unit :=
  if (valid_bits_ a =? 0) || (valid_bits_ a <? first_allocatable_bit_ a)
  then Err "bitmap allocator geometry is invalid"%string
  else if capacity_bits a <? valid_bits_ a
  then Err "bitmap storage is smaller than its valid range"%string
  else if negb (all_set (bitmap_ a) 0 (Z.to_nat (first_allocatable_bit_ a)))
  then Err "reserved bitmap prefix contains a free bit"%string
  else if negb (all_set (bitmap_ a) (valid_bits_ a) (Z.to_nat (capacity_bits a - valid_bits_ a)))
  then Err "bitmap tail contains an allocatable bit"%string
  else Ok tt.

Definition bad_geometry (a : BitmapAllocator) : bool :=
  (capacity_bits a <? valid_bits_ a) || (valid_bits_ a <? first_allocatable_bit_ a).

(** A reservation is inactive ([None]) or owns the bit it rolls back. *)
Abbreviation BitmapReservation := (option Z).

Definition Reserve (a : BitmapAllocator) (reservation : BitmapReservation)
    : BitmapAllocator * BitmapReservation * result errno unit :=
  match reservation with
  | Some _ => (a, reservation, Err EINVAL)
  | None =>
    if bad_geometry a then (a, None, Err EINVAL)
    else match first_free (bitmap_ a) (first_allocatable_bit_ a)
                 (Z.to_nat (valid_bits_ a - first_allocatable_bit_ a)) with
         | Some bit => (set_bitmap a (SetBit (bitmap_ a) bit), Some bit, Ok tt)
         | None => (a, None, Err ENOSPC)
         end
  end.

Definition ReleaseAllocated (a : BitmapAllocator) (bit : Z)
    : BitmapAllocator * result errno unit :=
  if bad_geometry a || (bit <? first_allocatable_bit_ a) || (valid_bits_ a <=? bit)
  then (a, Err EINVAL)
  else if negb (TestBit (bitmap_ a) bit) then (a, Err EUCLEAN)
  else (set_bitmap a (ClearBit (bitmap_ a) bit), Ok tt).

Definition IsAllocated (a : BitmapAllocator) (bit : Z) : bool :=
  (bit <? valid_bits_ a) && TestBit (bitmap_ a) bit.

Definition Snapshot (a : BitmapAllocator) : bytes := bitmap_ a.

Definition RollbackReservation (a : BitmapAllocator) (bit : Z) : BitmapAllocator :=
  if (first_allocatable_bit_ a <=? bit) && (bit <? valid_bits_ a) && TestBit (bitmap_ a) bit
  then set_bitmap a (ClearBit (bitmap_ a) bit) else a.

(** The reservation's destructor, and giving up the right to roll back. *)
Definition RollbackIfActive (a : BitmapAllocator) (r : BitmapReservation)
    : BitmapAllocator * BitmapReservation :=
  match r with Some bit => (RollbackReservation a bit, None) | None => (a, None) end.
Definition KeepReserved (r : BitmapReservation) : BitmapReservation := None.

(** Move assignment first rolls the target back, then takes over the source,
    which becomes inactive: (allocator, target, source). *)
Definition MoveAssign (a : BitmapAllocator) (target source : BitmapReservation)
    : BitmapAllocator * BitmapReservation * BitmapReservation :=
  (fst (RollbackIfActive a target), source, None).

(** * Bits *)
Definition in_bitmap (b : bytes) (bit : Z) : Prop := 0 <= bit < Z.of_nat (length b) * 8.

Section bits.
Implicit Types b : bytes.

Lemma bit_mask_eq bit : bit_mask bit = Z.shiftl 1 (bit mod 8).
Proof.
  unfold bit_mask. apply Z.mod_small. rewrite Z.shiftl_1_l.
  pose proof (Z.mod_pos_bound bit 8 ltac:(lia)). split; [apply Z.pow_nonneg; lia|].
  change 256 with (2 ^ 8). apply Z.pow_lt_mono_r; lia.
Qed.

Lemma mask_testbit bit i : 0 <= i -> Z.testbit (bit_mask bit) i = (i =? bit mod 8).
Proof.
  intros Hi. rewrite bit_mask_eq, Z.shiftl_1_l.
  pose proof (Z.mod_pos_bound bit 8 ltac:(lia)).
  rewrite Z.pow2_bits_eqb by lia. apply Z.eqb_sym.
Qed.

(** [TestBit] reads one bit of the byte. *)
Lemma TestBit_spec b bit : 0 <= bit -> TestBit b bit = Z.testbit (byte_at b (bit / 8)) (bit mod 8).
Proof.
  intros H. unfold TestBit. pose proof (Z.mod_pos_bound bit 8 ltac:(lia)).
  destruct (Z.testbit (byte_at b (bit / 8)) (bit mod 8)) eqn:E.
  - apply negb_true_iff, Z.eqb_neq. intros Z0. apply (f_equal (fun z => Z.testbit z (bit mod 8))) in Z0.
    rewrite Z.land_spec, E, mask_testbit, Z.eqb_refl, Z.bits_0 in Z0 by lia. done.
  - apply negb_false_iff, Z.eqb_eq, Z.bits_inj'. intros i Hi.
    rewrite Z.land_spec, mask_testbit, Z.bits_0 by lia.
    destruct (Z.eqb_spec i (bit mod 8)) as [->|]; [by rewrite E|apply andb_false_r].
Qed.

Lemma byte_at_put b i j v :
  0 <= i < Z.of_nat (length b) -> 0 <= j ->
  byte_at (put_byte b i v) j = if j =? i then v else byte_at b j.
Proof.
  intros Hi Hj. unfold byte_at, put_byte. rewrite !nth_lookup.
  destruct (Z.eqb_spec j i) as [->|Hne].
  - rewrite list_lookup_insert_eq by lia. done.
  - rewrite list_lookup_insert_ne by lia. done.
Qed.

Lemma same_byte bit bit' : bit' / 8 = bit / 8 -> bit' mod 8 = bit mod 8 -> bit' = bit.
Proof. intros H1 H2. rewrite (Z.div_mod bit 8), (Z.div_mod bit' 8) by lia. lia. Qed.

Lemma index_bound b bit : in_bitmap b bit -> 0 <= bit / 8 < Z.of_nat (length b).
Proof. intros H. unfold in_bitmap in H. split; [apply Z.div_pos|apply Z.div_lt_upper_bound]; lia. Qed.

Lemma TestBit_SetBit b bit bit' :
  in_bitmap b bit -> 0 <= bit' ->
  TestBit (SetBit b bit) bit' = (bit' =? bit) || TestBit b bit'.
Proof.
  intros Hb Hb'. pose proof (index_bound b bit Hb). pose proof (Z.div_pos bit' 8 Hb' ltac:(lia)).
  pose proof (Z.mod_pos_bound bit' 8 ltac:(lia)).
  rewrite !TestBit_spec by done. unfold SetBit. rewrite byte_at_put by lia.
  destruct (Z.eqb_spec (bit' / 8) (bit / 8)) as [E|Hne].
  - rewrite Z.lor_spec, mask_testbit, E, orb_comm by lia. f_equal.
    destruct (Z.eqb_spec (bit' mod 8) (bit mod 8)), (Z.eqb_spec bit' bit); subst; try done.
    exfalso. by apply n, same_byte.
  - destruct (Z.eqb_spec bit' bit) as [->|]; done.
Qed.

Lemma TestBit_ClearBit b bit bit' :
  in_bitmap b bit -> bytes_ok b -> 0 <= bit' ->
  TestBit (ClearBit b bit) bit' = negb (bit' =? bit) && TestBit b bit'.
Proof.
  intros Hb Hok Hb'. pose proof (index_bound b bit Hb). pose proof (Z.div_pos bit' 8 Hb' ltac:(lia)).
  pose proof (Z.mod_pos_bound bit' 8 ltac:(lia)).
  rewrite !TestBit_spec by done. unfold ClearBit. rewrite byte_at_put by lia.
  destruct (Z.eqb_spec (bit' / 8) (bit / 8)) as [E|Hne].
  - rewrite Z.land_spec, E, andb_comm. f_equal.
    change 256 with (2 ^ 8). rewrite Z.mod_pow2_bits_low by lia.
    rewrite Z.lnot_spec, mask_testbit by lia. f_equal.
    destruct (Z.eqb_spec (bit' mod 8) (bit mod 8)), (Z.eqb_spec bit' bit); subst; try done.
    exfalso. by apply n, same_byte.
  - destruct (Z.eqb_spec bit' bit) as [->|]; done.
Qed.

Lemma length_SetBit b bit : length (SetBit b bit) = length b.
Proof. apply length_insert. Qed.
Lemma length_ClearBit b bit : length (ClearBit b bit) = length b.
Proof. apply length_insert. Qed.
End bits.

(** * The allocator *)
Definition alloc_ok (a : BitmapAllocator) : Prop :=
  bytes_ok (bitmap_ a) /\ 0 <= first_allocatable_bit_ a <= valid_bits_ a /\
  valid_bits_ a <= capacity_bits a.

Lemma all_set_spec b from n :
  all_set b from n = true <-> forall k, from <= k < from + Z.of_nat n -> TestBit b k = true.
Proof.
  revert from. induction n as [|n IH]; intros from; cbn [all_set]; [split; [intros _ k ?; lia|done]|].
  rewrite andb_true_iff, IH. split.
  - intros [H0 Hr] k Hk. destruct (decide (k = from)) as [->|]; [done|]. apply Hr. lia.
  - intros H. split; [apply H; lia|]. intros k Hk. apply H. lia.
Qed.

Lemma first_free_some b from n k :
  first_free b from n = Some k ->
  from <= k < from + Z.of_nat n /\ TestBit b k = false /\
  forall j, from <= j < k -> TestBit b j = true.
Proof.
  revert from. induction n as [|n IH]; intros from; cbn [first_free]; [done|].
  destruct (TestBit b from) eqn:E.
  - intros H. destruct (IH _ H) as (H1 & H2 & H3). split; [lia|]. split; [done|].
    intros j Hj. destruct (decide (j = from)) as [->|]; [done|]. apply H3. lia.
  - intros [= <-]. split; [lia|]. split; [done|]. intros j Hj. lia.
Qed.

Lemma first_free_none b from n :
  first_free b from n = None <-> forall j, from <= j < from + Z.of_nat n -> TestBit b j = true.
Proof.
  rewrite <- all_set_spec. revert from. induction n as [|n IH]; intros from; cbn [first_free all_set]; [done|].
  destruct (TestBit b from); [apply IH|done].
Qed.

Lemma bytes_ok_put b i v : bytes_ok b -> u8 v -> bytes_ok (put_byte b i v).
Proof. intros Hb Hv. by apply Forall_insert. Qed.

Lemma byte_at_u8 b i : bytes_ok b -> u8 (byte_at b i).
Proof.
  intros Hb. unfold byte_at. destruct (nth_in_or_default (Z.to_nat i) b 0) as [Hin| ->]; [|word].
  by apply list_elem_of_In, (proj1 (Forall_forall _ _) Hb) in Hin.
Qed.

Lemma u8_of_bits z : 0 <= z -> (forall i, 8 <= i -> Z.testbit z i = false) -> u8 z.
Proof.
  intros Hz Hb. assert (z = z mod 2 ^ 8) as ->.
  { apply Z.bits_inj'. intros i Hi. destruct (Z.ltb_spec i 8).
    - by rewrite Z.mod_pow2_bits_low.
    - rewrite Z.mod_pow2_bits_high by lia. by apply Hb. }
  apply Z.mod_pos_bound. lia.
Qed.

Lemma u8_high z i : u8 z -> 8 <= i -> Z.testbit z i = false.
Proof.
  intros Hz Hi. rewrite <- (Z.mod_small z (2 ^ 8)) by exact Hz. apply Z.mod_pow2_bits_high. lia.
Qed.

Lemma mask_u8 bit : u8 (bit_mask bit).
Proof. apply Z.mod_pos_bound. lia. Qed.

Lemma bytes_ok_SetBit b bit : bytes_ok b -> bytes_ok (SetBit b bit).
Proof.
  intros Hb. apply bytes_ok_put; [done|]. pose proof (byte_at_u8 b (bit / 8) Hb) as H1.
  pose proof (mask_u8 bit) as H2. apply u8_of_bits; [apply Z.lor_nonneg; word|].
  intros i Hi. rewrite Z.lor_spec, !u8_high by done. done.
Qed.

Lemma bytes_ok_ClearBit b bit : bytes_ok b -> bytes_ok (ClearBit b bit).
Proof.
  intros Hb. apply bytes_ok_put; [done|]. pose proof (byte_at_u8 b (bit / 8) Hb) as H1.
  apply u8_of_bits; [apply Z.land_nonneg; left; word|].
  intros i Hi. by rewrite Z.land_spec, u8_high by done.
Qed.

(** Two bitmaps of bytes with the same bits are equal. *)
Lemma bitmap_ext b b' :
  bytes_ok b -> bytes_ok b' -> length b = length b' ->
  (forall bit, in_bitmap b bit -> TestBit b bit = TestBit b' bit) -> b = b'.
Proof.
  intros Hb Hb' Hl H. apply (nth_ext b b' 0 0 Hl). intros i Hi.
  pose proof (byte_at_u8 b (Z.of_nat i) Hb) as H1. pose proof (byte_at_u8 b' (Z.of_nat i) Hb') as H2.
  unfold byte_at in H1, H2. rewrite Nat2Z.id in H1, H2.
  apply Z.bits_inj'. intros k Hk. destruct (Z.ltb_spec k 8) as [Hlt|Hge]; [|by rewrite !u8_high].
  specialize (H (Z.of_nat i * 8 + k)). rewrite !TestBit_spec in H by lia.
  assert ((Z.of_nat i * 8 + k) / 8 = Z.of_nat i) as E1
    by (rewrite Z.div_add_l, Z.div_small; lia).
  assert ((Z.of_nat i * 8 + k) mod 8 = k) as E2
    by (rewrite Z.add_comm, Z.mod_add, Z.mod_small; lia).
  unfold byte_at in H. rewrite E1, E2, !Nat2Z.id in H. apply H. unfold in_bitmap. lia.
Qed.

Lemma clear_set b bit :
  bytes_ok b -> in_bitmap b bit -> TestBit b bit = false -> ClearBit (SetBit b bit) bit = b.
Proof.
  intros Hb Hin Hf.
  assert (in_bitmap (SetBit b bit) bit) as Hin' by (unfold in_bitmap; by rewrite length_SetBit).
  apply bitmap_ext; [by apply bytes_ok_ClearBit, bytes_ok_SetBit|done| |].
  - by rewrite length_ClearBit, length_SetBit.
  - intros k Hk. unfold in_bitmap in Hk. rewrite length_ClearBit, length_SetBit in Hk.
    rewrite TestBit_ClearBit, TestBit_SetBit by (done || lia || by apply bytes_ok_SetBit).
    destruct (Z.eqb_spec k bit) as [->|]; [by rewrite Hf|done].
Qed.

Section allocator.
Context (a : BitmapAllocator) (Hok : alloc_ok a).

Lemma geometry_good : bad_geometry a = false.
Proof.
  destruct Hok as (_ & H1 & H2). unfold bad_geometry.
  by rewrite (proj2 (Z.ltb_ge _ _)), (proj2 (Z.ltb_ge _ _)) by lia.
Qed.

Lemma valid_in_bitmap bit : 0 <= bit < valid_bits_ a -> in_bitmap (bitmap_ a) bit.
Proof. destruct Hok as (_ & _ & H). unfold in_bitmap, capacity_bits in *. lia. Qed.

(** What a successful reservation found. *)
Lemma reserve_inv a' r res :
  Reserve a None = (a', r, res) ->
  (exists bit, res = Ok tt /\ r = Some bit /\ a' = set_bitmap a (SetBit (bitmap_ a) bit) /\
     first_allocatable_bit_ a <= bit < valid_bits_ a /\ TestBit (bitmap_ a) bit = false /\
     forall j, first_allocatable_bit_ a <= j < bit -> TestBit (bitmap_ a) j = true) \/
  (res = Err ENOSPC /\ r = None /\ a' = a /\
     forall j, first_allocatable_bit_ a <= j < valid_bits_ a -> TestBit (bitmap_ a) j = true).
Proof.
  destruct Hok as (_ & H1 & H2). unfold Reserve. rewrite geometry_good.
  destruct (first_free _ _ _) as [bit|] eqn:E; intros [= <- <- <-].
  - left. destruct (first_free_some _ _ _ _ E) as (H3 & H4 & H5).
    exists bit. conj_split; try done; lia.
  - right. conj_split; try done. rewrite first_free_none in E. intros j Hj. apply E. lia.
Qed.

Lemma alloc_ok_set b : bytes_ok b -> length b = length (bitmap_ a) -> alloc_ok (set_bitmap a b).
Proof. intros Hb Hl. destruct Hok as (_ & H1 & H2). unfold alloc_ok, capacity_bits in *. cbn. by rewrite Hl. Qed.
End allocator.

(** First fit. On a well-formed allocator a reservation takes the lowest
    free bit of the allocatable range and changes no other bit, or finds the
    range full, reports ENOSPC and changes nothing; an active reservation is
    never overwritten. *)
Theorem reserve_first_fit a :
  alloc_ok a ->
  let '(a', r, res) := Reserve a None in
  alloc_ok a' /\
  match r with
  | Some bit =>
      res = Ok tt /\ first_allocatable_bit_ a <= bit < valid_bits_ a /\
      IsAllocated a bit = false /\
      (forall j, first_allocatable_bit_ a <= j < bit -> IsAllocated a j = true) /\
      (forall j, 0 <= j -> IsAllocated a' j = (j =? bit) || IsAllocated a j)
  | None =>
      res = Err ENOSPC /\ a' = a /\
      (forall j, first_allocatable_bit_ a <= j < valid_bits_ a -> IsAllocated a j = true)
  end /\
  (forall bit, Reserve a (Some bit) = (a, Some bit, Err EINVAL)).
Proof.
  intros Hok. pose proof Hok as (Hb & H1 & _).
  destruct (Reserve a None) as [[a' r] res] eqn:E.
  destruct (reserve_inv a Hok a' r res E) as [(bit & -> & -> & -> & Hr & Hf & Hl)|(-> & -> & -> & Hall)].
  - assert (in_bitmap (bitmap_ a) bit) as Hin by (apply valid_in_bitmap; [done|lia]).
    split; [apply alloc_ok_set; [done|by apply bytes_ok_SetBit|apply length_SetBit]|].
    split; [|done]. unfold IsAllocated. cbn.
    split; [done|]. split; [done|]. split; [by rewrite Hf, andb_false_r|]. split.
    + intros j Hj. rewrite Hl, (proj2 (Z.ltb_lt _ _)) by lia. done.
    + intros j Hj. rewrite TestBit_SetBit by done.
      destruct (Z.eqb_spec j bit) as [->|]; [|done]. by rewrite (proj2 (Z.ltb_lt _ _)) by lia.
  - split; [done|]. split; [|done]. split; [done|]. split; [done|].
    intros j Hj. unfold IsAllocated. rewrite Hall, (proj2 (Z.ltb_lt _ _)) by lia. done.
Qed.

Definition allocator0 : BitmapAllocator := mkAllocator [7; 240] 12 2.

Lemma allocator0_ok : alloc_ok allocator0.
Proof. split; [repeat constructor; lia|]. unfold capacity_bits. cbn. lia. Qed.

Lemma reserve_first_fit_witness :
  let '(a', r, res) := Reserve allocator0 None in
  alloc_ok a' /\
  match r with
  | Some bit =>
      res = Ok tt /\ first_allocatable_bit_ allocator0 <= bit < valid_bits_ allocator0 /\
      IsAllocated allocator0 bit = false /\
      (forall j, first_allocatable_bit_ allocator0 <= j < bit -> IsAllocated allocator0 j = true) /\
      (forall j, 0 <= j -> IsAllocated a' j = (j =? bit) || IsAllocated allocator0 j)
  | None =>
      res = Err ENOSPC /\ a' = allocator0 /\
      (forall j, first_allocatable_bit_ allocator0 <= j < valid_bits_ allocator0 ->
         IsAllocated allocator0 j = true)
  end /\
  (forall bit, Reserve allocator0 (Some bit) = (allocator0, Some bit, Err EINVAL)).
Proof. exact (reserve_first_fit allocator0 allocator0_ok). Defined.

(** Reservations roll back exactly. Destroying an active reservation
    restores the allocator as it was before, bit for bit; a kept or moved-from
    reservation changes nothing when destroyed. *)
Theorem reservation_rolls_back a a' bit :
  alloc_ok a -> Reserve a None = (a', Some bit, Ok tt) ->
  RollbackIfActive a' (Some bit) = (a, None) /\
  RollbackIfActive a' (KeepReserved (Some bit)) = (a', None) /\
  MoveAssign a' None (Some bit) = (a', Some bit, None) /\
  MoveAssign a' (Some bit) None = (a, None, None).
Proof.
  intros Hok E. pose proof Hok as (Hb & H1 & _).
  destruct (reserve_inv a Hok _ _ _ E) as [(bit' & _ & [= <-] & -> & Hr & Hf & _)|(_ & ? & _)]; [|done].
  assert (in_bitmap (bitmap_ a) bit) as Hin by (apply valid_in_bitmap; [done|lia]).
  assert (RollbackIfActive (set_bitmap a (SetBit (bitmap_ a) bit)) (Some bit) = (a, None)) as Hroll.
  { cbn. unfold RollbackReservation. cbn [set_bitmap bitmap_ valid_bits_ first_allocatable_bit_].
    rewrite (proj2 (Z.leb_le _ _)), (proj2 (Z.ltb_lt _ _)) by lia.
    rewrite TestBit_SetBit, Z.eqb_refl by (done || lia). cbn [orb andb].
    unfold set_bitmap. cbn. rewrite clear_set by done. by destruct a. }
  unfold MoveAssign. rewrite Hroll. done.
Qed.

Lemma reservation_rolls_back_witness :
  RollbackIfActive (mkAllocator [15; 240] 12 2) (Some 3) = (allocator0, None).
Proof. apply (reservation_rolls_back allocator0); [apply allocator0_ok|reflexivity]. Defined.

(** Release. A bit outside the allocatable range is refused with EINVAL, a
    free bit with EUCLEAN, an allocated bit is cleared and nothing else; a
    second release of the same bit is refused. *)
Theorem release_allocated a bit :
  alloc_ok a -> 0 <= bit ->
  let '(a', res) := ReleaseAllocated a bit in
  (res = Err EINVAL /\ a' = a <-> bit < first_allocatable_bit_ a \/ valid_bits_ a <= bit) /\
  (res = Ok tt -> IsAllocated a bit = true /\ alloc_ok a' /\
     (forall j, 0 <= j -> IsAllocated a' j = negb (j =? bit) && IsAllocated a j) /\
     ReleaseAllocated a' bit = (a', Err EUCLEAN)) /\
  (res = Err EUCLEAN -> IsAllocated a bit = false /\ a' = a).
Proof.
  intros Hok Hbit. pose proof Hok as (Hb & H1 & H2). unfold ReleaseAllocated at 1.
  rewrite (geometry_good a Hok). cbn [orb].
  destruct (Z.ltb_spec bit (first_allocatable_bit_ a)); cbn [orb].
  { split; [split; [by left|done]|]. split; done. }
  destruct (Z.leb_spec (valid_bits_ a) bit).
  { split; [split; [by right|done]|]. split; done. }
  assert (in_bitmap (bitmap_ a) bit) as Hin by (apply valid_in_bitmap; [done|lia]).
  destruct (TestBit (bitmap_ a) bit) eqn:E; cbn [negb].
  - split; [split; [intros [? _]; done|lia]|]. split; [|done]. intros _.
    assert (alloc_ok (set_bitmap a (ClearBit (bitmap_ a) bit))) as Hok'
      by (apply alloc_ok_set; [done|by apply bytes_ok_ClearBit|apply length_ClearBit]).
    unfold IsAllocated. cbn [set_bitmap bitmap_ valid_bits_].
    split; [by rewrite E, (proj2 (Z.ltb_lt _ _)) by lia|]. split; [done|]. split.
    + intros j Hj. rewrite TestBit_ClearBit by done. by destruct (j <? _), (j =? bit).
    + unfold ReleaseAllocated. rewrite (geometry_good _ Hok').
      cbn [set_bitmap bitmap_ valid_bits_ first_allocatable_bit_ orb].
      rewrite (proj2 (Z.ltb_ge _ _)), (proj2 (Z.leb_gt _ _)) by lia. cbn [orb].
      by rewrite TestBit_ClearBit, Z.eqb_refl by (done || lia).
  - split; [split; [intros [? _]; done|lia]|]. split; [done|]. intros _. split; [|done].
    unfold IsAllocated. by rewrite E, andb_false_r.
Qed.

Lemma release_allocated_witness :
  let '(a', res) := ReleaseAllocated allocator0 2 in
  (res = Err EINVAL /\ a' = allocator0 <-> 2 < 2 \/ 12 <= 2) /\
  (res = Ok tt -> IsAllocated allocator0 2 = true /\ alloc_ok a' /\
     (forall j, 0 <= j -> IsAllocated a' j = negb (j =? 2) && IsAllocated allocator0 j) /\
     ReleaseAllocated a' 2 = (a', Err EUCLEAN)) /\
  (res = Err EUCLEAN -> IsAllocated allocator0 2 = false /\ a' = allocator0).
Proof. exact (release_allocated allocator0 2 allocator0_ok ltac:(lia)). Defined.

(** The allocator's structural check is an invariant. If the reserved
    prefix and the padding tail are all ones, they stay so under every
    reservation, release and rollback. *)
Theorem validate_preserved a bit :
  alloc_ok a -> 0 <= bit -> Validate a = Ok tt ->
  Validate (fst (fst (Reserve a None))) = Ok tt /\
  Validate (fst (ReleaseAllocated a bit)) = Ok tt /\
  Validate (RollbackReservation a bit) = Ok tt.
Proof.
  intros Hok Hbit Hv. pose proof Hok as (Hb & H1 & H2).
  assert (forall b, length b = length (bitmap_ a) ->
    (forall j, 0 <= j -> j < first_allocatable_bit_ a \/ valid_bits_ a <= j ->
       TestBit (bitmap_ a) j = true -> TestBit b j = true) ->
    Validate (set_bitmap a b) = Ok tt) as Hkeep.
  { intros b Hl Hbits. unfold Validate in *. unfold capacity_bits in *.
    cbn [set_bitmap bitmap_ valid_bits_ first_allocatable_bit_]. rewrite Hl.
    destruct ((valid_bits_ a =? 0) || _); [done|]. destruct (_ <? valid_bits_ a); [done|].
    destruct (negb (all_set (bitmap_ a) 0 _)) eqn:Ep; [done|].
    destruct (negb (all_set (bitmap_ a) (valid_bits_ a) _)) eqn:Et; [done|].
    apply negb_false_iff in Ep, Et. rewrite all_set_spec in Ep, Et.
    rewrite (proj2 (all_set_spec b 0 _)), (proj2 (all_set_spec b (valid_bits_ a) _)); [done|..].
    - intros k Hk. apply Hbits; [lia|lia|by apply Et].
    - intros k Hk. apply Hbits; [lia|lia|by apply Ep]. }
  conj_split.
  - destruct (Reserve a None) as [[a' r] res] eqn:E. cbn [fst].
    destruct (reserve_inv a Hok _ _ _ E) as [(b' & _ & _ & -> & Hr & _)|(_ & _ & -> & _)]; [|done].
    apply Hkeep; [apply length_SetBit|]. intros j Hj _ Ht.
    rewrite TestBit_SetBit by first [done | apply valid_in_bitmap; [done|lia]]. by rewrite Ht, orb_true_r.
  - unfold ReleaseAllocated. destruct (_ || _) eqn:Eg; [done|]. bool_to_prop.
    destruct (negb _); [done|]. cbn [fst]. apply Hkeep; [apply length_ClearBit|]. intros j Hj Hor Ht.
    rewrite TestBit_ClearBit by first [done | apply valid_in_bitmap; [done|lia]].
    rewrite Ht, (proj2 (Z.eqb_neq _ _)) by lia. done.
  - unfold RollbackReservation. destruct (_ && _) eqn:Eg; [|done]. bool_to_prop.
    apply Hkeep; [apply length_ClearBit|]. intros j Hj Hor Ht.
    rewrite TestBit_ClearBit by first [done | apply valid_in_bitmap; [done|lia]].
    rewrite Ht, (proj2 (Z.eqb_neq _ _)) by lia. done.
Qed.

Lemma validate_preserved_witness :
  Validate (fst (fst (Reserve allocator0 None))) = Ok tt /\
  Validate (fst (ReleaseAllocated allocator0 2)) = Ok tt /\
  Validate (RollbackReservation allocator0 2) = Ok tt.
Proof. apply (validate_preserved allocator0 2 allocator0_ok); [lia|reflexivity]. Defined.
