(* ===== verification/RequestLedger.v ===== *)
(** The persistent request ledger: the 128-byte record format
    (src/object/request_ledger_format.cpp), the in-memory index and the slot scan
    (src/object/request_ledger_index.cpp), and the block-level append plan with
    its merge into a transaction (src/object/request_ledger_plan.cpp). *)
From S2P Require Import Prelude Codec Crc32c OndiskFormat Disk DirectoryEntry.
Open Scope Z_scope.

(** Enumerations with a fixed underlying type; a [static_cast] of an on-disk
    value can produce a code outside the enumerators. *)
Inductive MutationOperation := kCreateIfAbsent | kReplaceIfVersion | kOtherOperation (code : Z).
Inductive LedgerResultKind := kCommittedResult | kNotApplied | kOtherKind (code : Z).
Inductive LedgerResultCode :=
| kOk | kAlreadyExists | kVersionMismatch | kNotFound | kOtherCode (code : Z).

#[global] Instance MutationOperation_eq_dec : EqDecision MutationOperation.
Proof. solve_decision. Defined.
#[global] Instance LedgerResultKind_eq_dec : EqDecision LedgerResultKind.
Proof. solve_decision. Defined.
#[global] Instance LedgerResultCode_eq_dec : EqDecision LedgerResultCode.
Proof. solve_decision. Defined.

Definition operation_code (o : MutationOperation) : Z :=
  match o with kCreateIfAbsent => 1 | kReplaceIfVersion => 2 | kOtherOperation z => z end.
Definition operation_of (z : Z) : MutationOperation :=
  if z =? 1 then kCreateIfAbsent else if z =? 2 then kReplaceIfVersion else kOtherOperation z.
Definition kind_code (k : LedgerResultKind) : Z :=
  match k with kCommittedResult => 1 | kNotApplied => 2 | kOtherKind z => z end.
Definition kind_of (z : Z) : LedgerResultKind :=
  if z =? 1 then kCommittedResult else if z =? 2 then kNotApplied else kOtherKind z.
Definition result_code_code (c : LedgerResultCode) : Z :=
  match c with kOk => 1 | kAlreadyExists => 2 | kVersionMismatch => 3 | kNotFound => 4
             | kOtherCode z => z end.
Definition result_code_of (z : Z) : LedgerResultCode :=
  if z =? 1 then kOk else if z =? 2 then kAlreadyExists
  else if z =? 3 then kVersionMismatch else if z =? 4 then kNotFound else kOtherCode z.

Record RequestLedgerRecord := mkLedger {
  operation : MutationOperation;
  result_kind : LedgerResultKind;
  request_id : bytes;
  fingerprint : bytes;
  result_code : LedgerResultCode;
  committed_inode : Z;
  committed_generation : Z;
  current_inode : Z;
  current_generation : Z;
  sequence : Z
}.

Definition kRequestLedgerRecordSize : Z := 128.
Definition LedgerLen : nat := 128.
Definition kRequestLedgerFormatVersion : Z := 1.
Definition kLedgerMagic : bytes := [69; 85; 76; 71]. (* EULG *)
Definition kLedgerChecksumOffset : nat := 92.
Definition kReservedOffset : nat := 96.
Definition kEntriesPerBlock : Z := kBlockSize / kRequestLedgerRecordSize.

Definition ledger_typed (v : RequestLedgerRecord) : Prop :=
  length (request_id v) = 16%nat /\ bytes_ok (request_id v) /\
  length (fingerprint v) = 32%nat /\ bytes_ok (fingerprint v) /\
  u32 (committed_inode v) /\ u64 (committed_generation v) /\ u32 (current_inode v) /\
  u64 (current_generation v) /\ u64 (sequence v).

(** * Records *)
Definition HasNonzeroRequestId (id : bytes) : bool := existsb (fun z => negb (z =? 0)) id.

Definition ValidateRecord (value : RequestLedgerRecord) : result string unit :=
  let create := bool_decide (operation value = kCreateIfAbsent) in
  let replace := bool_decide (operation value = kReplaceIfVersion) in
  if (negb create && negb replace) || negb (HasNonzeroRequestId (request_id value)) ||
     (sequence value =? 0)
  then Err "ledger operation, request id, or sequence is invalid"%string
  else
  let committed := bool_decide (result_kind value = kCommittedResult) in
  let not_applied := bool_decide (result_kind value = kNotApplied) in
  if negb committed && negb not_applied then Err "ledger result kind is invalid"%string
  else
  let has_committed_version :=
    negb (committed_inode value =? 0) && negb (committed_generation value =? 0) in
  let has_current_version :=
    negb (current_inode value =? 0) && negb (current_generation value =? 0) in
  let committed_version_empty :=
    (committed_inode value =? 0) && (committed_generation value =? 0) in
  let current_version_empty :=
    (current_inode value =? 0) && (current_generation value =? 0) in
  if committed then
    if negb (bool_decide (result_code value = kOk)) || negb has_committed_version ||
       negb current_version_empty
    then Err "committed ledger result has inconsistent versions"%string
    else Ok tt
  else
  let expected_rejection :=
    (create && bool_decide (result_code value = kAlreadyExists)) ||
    (replace && (bool_decide (result_code value = kVersionMismatch) ||
                 bool_decide (result_code value = kNotFound))) in
  if negb expected_rejection || negb committed_version_empty
  then Err "not-applied ledger result is inconsistent"%string
  else if bool_decide (result_code value = kNotFound) then
    if negb current_version_empty
    then Err "not-found ledger result must not contain a version"%string else Ok tt
  else if negb has_current_version
  then Err "rejected ledger result is missing the current version"%string else Ok tt.

Definition ComputeChecksum (b : bytes) : Z := Crc32c (PutLe32 kLedgerChecksumOffset 0 b).

Definition EncodeRequestLedgerRecord (value : RequestLedgerRecord) : result string bytes :=
  match ValidateRecord value with
  | Err e => Err e
  | Ok _ =>
    let encoded := zeros LedgerLen in
    let encoded := splice 0 kLedgerMagic encoded in
    let encoded := PutLe16 4 kRequestLedgerFormatVersion encoded in
    let encoded := splice 6 [operation_code (operation value)] encoded in
    let encoded := splice 7 [kind_code (result_kind value)] encoded in
    let encoded := splice 8 (request_id value) encoded in
    let encoded := splice 24 (fingerprint value) encoded in
    let encoded := PutLe32 56 (result_code_code (result_code value)) encoded in
    let encoded := PutLe32 60 (committed_inode value) encoded in
    let encoded := PutLe64 64 (committed_generation value) encoded in
    let encoded := PutLe32 72 (current_inode value) encoded in
    let encoded := PutLe64 76 (current_generation value) encoded in
    let encoded := PutLe64 84 (sequence value) encoded in
    Ok (PutLe32 kLedgerChecksumOffset (ComputeChecksum encoded) encoded)
  end.

Inductive LedgerDecode := kEmptySlot | kRecord (r : RequestLedgerRecord) | kCorrupt (why : string).

Definition DecodeRequestLedgerRecord (input : bytes) (expected_sequence : Z) : LedgerDecode :=
  if expected_sequence =? 0 then kCorrupt "ledger decode arguments are invalid"%string
  else if all_zero input then kEmptySlot
  else if negb (bool_decide (slice 0 4 input = kLedgerMagic)) ||
          negb (GetLe16 input 4 =? kRequestLedgerFormatVersion)
  then kCorrupt "ledger header does not match the v1 format"%string
  else if negb (GetLe32 input kLedgerChecksumOffset =? ComputeChecksum input)
  then kCorrupt "ledger checksum mismatch"%string
  else if negb (all_zero (drop kReservedOffset input))
  then kCorrupt "ledger reserved bytes are not zero"%string
  else
  let decoded := mkLedger (operation_of (nth 6 input 0)) (kind_of (nth 7 input 0))
    (slice 8 16 input) (slice 24 32 input) (result_code_of (GetLe32 input 56))
    (GetLe32 input 60) (GetLe64 input 64) (GetLe32 input 72) (GetLe64 input 76)
    (GetLe64 input 84) in
  if negb (sequence decoded =? expected_sequence)
  then kCorrupt "ledger sequence does not match its slot"%string
  else match ValidateRecord decoded with
       | Err e => kCorrupt e
       | Ok _ => kRecord decoded
       end.

(** * The index *)
Record RequestLedgerIndex := mkIndex {
  capacity_ : Z;
  next_sequence_ : Z;
  records_ : gmap bytes RequestLedgerRecord
}.

Definition full (i : RequestLedgerIndex) : bool := Z.of_nat (size (records_ i)) =? capacity_ i.

Definition Find (i : RequestLedgerIndex) (id : bytes) : option RequestLedgerRecord :=
  records_ i !! id.

(** [oom] says whether the map insertion runs out of memory. *)
Definition AppendCommitted (i : RequestLedgerIndex) (record : RequestLedgerRecord) (oom : bool)
    : RequestLedgerIndex * result errno unit :=
  if full i then (i, Err ENOSPC)
  else if negb (sequence record =? next_sequence_ i) then (i, Err EUCLEAN)
  else match EncodeRequestLedgerRecord record with
  | Err _ => (i, Err EUCLEAN)
  | Ok _ =>
    if oom then (i, Err ENOMEM)
    else match records_ i !! request_id record with
    | Some _ => (i, Err EEXIST)
    | None => (mkIndex (capacity_ i) (wrap64 (next_sequence_ i + 1))
                 (<[request_id record := record]> (records_ i)), Ok tt)
    end
  end.

(** The scan over the slots of the ledger file in order: the state is whether an
    empty slot was seen, the next sequence number and the records so far. *)
Fixpoint scan_slots (slots : list bytes) (saw_empty : bool) (seq : Z)
    (records : gmap bytes RequestLedgerRecord) : result errno (gmap bytes RequestLedgerRecord) :=
  match slots with
  | [] => Ok records
  | slot :: rest =>
    match DecodeRequestLedgerRecord slot seq with
    | kCorrupt _ => Err EUCLEAN
    | kEmptySlot => scan_slots rest true (wrap64 (seq + 1)) records
    | kRecord record =>
      if saw_empty then Err EUCLEAN
      else match records !! request_id record with
      | Some _ => Err EUCLEAN
      | None => scan_slots rest false (wrap64 (seq + 1)) (<[request_id record := record]> records)
      end
    end
  end.

(** The slots of one block, and of the whole file given its blocks. *)
Definition block_slots (block : bytes) : list bytes :=
  map (fun local => slice (local * LedgerLen) LedgerLen block)
      (seq 0 (Z.to_nat kEntriesPerBlock)).

(** The part of [ScanRequestLedger] after the ledger's blocks have been located
    and read. *)
Definition ScanBlocks (blocks : list bytes) : result errno RequestLedgerIndex :=
  match scan_slots (concat (map block_slots blocks)) false 1 ∅ with
  | Err e => Err e
  | Ok records =>
      Ok (mkIndex (Z.of_nat (length blocks) * kEntriesPerBlock)
            (wrap64 (Z.of_nat (size records) + 1)) records)
  end.

(** * The append plan *)
Record RequestLedgerAppendPlan := mkAppend {
  ap_sequence : Z;
  ap_logical_block : Z;
  ap_physical_block : Z;
  ap_total_blocks : Z;
  ap_filesystem_uuid : bytes;
  ap_record : RequestLedgerRecord;
  ap_before_image : bytes;
  ap_after_image : bytes
}.

Definition IsZeroSlot (block : bytes) (offset : nat) : bool := all_zero (slice offset LedgerLen block).

Definition slot_offset (slot_index : Z) : nat :=
  Z.to_nat ((slot_index mod kEntriesPerBlock) * kRequestLedgerRecordSize).

Definition ValidateAppendPlan (plan : RequestLedgerAppendPlan) : result errno unit :=
  if (ap_sequence plan =? 0) || negb (sequence (ap_record plan) =? ap_sequence plan) ||
     (ap_total_blocks plan =? 0) || (ap_total_blocks plan <=? ap_physical_block plan)
  then Err EINVAL
  else
  let slot_index := wrap64 (ap_sequence plan - 1) in
  let expected_logical := slot_index / kEntriesPerBlock in
  if (u32_max <? expected_logical) || negb (ap_logical_block plan =? expected_logical)
  then Err EINVAL
  else
  let inside := slot_offset slot_index in
  if negb (IsZeroSlot (ap_before_image plan) inside) then Err EINVAL
  else match EncodeRequestLedgerRecord (ap_record plan) with
  | Err _ => Err EINVAL
  | Ok encoded =>
      if bool_decide (splice inside encoded (ap_before_image plan) = ap_after_image plan)
      then Ok tt else Err EINVAL
  end.

(** Adds the ledger block to the before-images and the metadata of a
    transaction: (before, ordered, metadata). *)
Definition MergeRequestLedgerAppend (ledger : RequestLedgerAppendPlan) (total : Z) (uuid : bytes)
    (before ordered metadata : image) : result errno (image * image * image) :=
  match ValidateAppendPlan ledger with
  | Err e => Err e
  | Ok _ =>
    if negb (ap_total_blocks ledger =? total) ||
       negb (bool_decide (ap_filesystem_uuid ledger = uuid))
    then Err EINVAL
    else
    let block := ap_physical_block ledger in
    if bool_decide (is_Some (before !! block)) || bool_decide (is_Some (ordered !! block)) ||
       bool_decide (is_Some (metadata !! block))
    then Err EINVAL
    else Ok (<[block := ap_before_image ledger]> before, ordered,
             <[block := ap_after_image ledger]> metadata)
  end.
