(* ===== verification/RequestLedgerProofs.v ===== *)
(** The request ledger: record codec, the scan as a partial inverse of writing
    records in order, appending in memory and on disk in step, and merging a
    ledger block into a transaction. *)
From S2P Require Import Prelude Codec Crc32c OndiskFormat OndiskFormatProofs Disk DirectoryEntry.
From S2P Require Import JournalExample RequestLedger.
Open Scope Z_scope.

Module LedgerCodec.

Definition fields (v : RequestLedgerRecord) : list field :=
  [ Field 0 4 kLedgerMagic;
    Field 4 2 (le_bytes 2 kRequestLedgerFormatVersion);
    Field 6 1 [operation_code (operation v)];
    Field 7 1 [kind_code (result_kind v)];
    Field 8 16 (request_id v);
    Field 24 32 (fingerprint v);
    Field 56 4 (le_bytes 4 (result_code_code (result_code v)));
    Field 60 4 (le_bytes 4 (committed_inode v));
    Field 64 8 (le_bytes 8 (committed_generation v));
    Field 72 4 (le_bytes 4 (current_inode v));
    Field 76 8 (le_bytes 8 (current_generation v));
    Field 84 8 (le_bytes 8 (sequence v)) ].

Definition segs : list (nat * nat) :=
  [(0,4); (4,2); (6,1); (7,1); (8,16); (24,32); (56,4); (60,4); (64,8); (72,4); (76,8); (84,8);
   (92,4); (96,32)]%nat.

Lemma ledger_fields_layout v c : layout_ok LedgerLen (sealed (fields v) 92 c) = true.
Proof. vm_compute. reflexivity. Qed.

Lemma ledger_fields_sized v :
  length (request_id v) = 16%nat -> length (fingerprint v) = 32%nat -> Forall field_sized (fields v).
Proof.
  intros H1 H2. repeat (constructor; [first [exact H1 | exact H2 | reflexivity]|]). constructor.
Qed.

(** The enumerators of a valid record are the named ones. *)
Lemma valid_codes v :
  ValidateRecord v = Ok tt ->
  (operation v = kCreateIfAbsent \/ operation v = kReplaceIfVersion) /\
  (result_kind v = kCommittedResult \/ result_kind v = kNotApplied) /\
  (result_code v = kOk \/ result_code v = kAlreadyExists \/ result_code v = kVersionMismatch \/
   result_code v = kNotFound) /\ sequence v <> 0.
Proof.
  intros H. unfold ValidateRecord in H. cbv zeta in H.
  destruct (sequence v =? 0) eqn:Es; [by rewrite orb_true_r in H|]. apply Z.eqb_neq in Es.
  destruct v as [op kind id fp code i1 g1 i2 g2 sq]. cbn [operation result_kind result_code] in *.
  conj_split; try done.
  - destruct op; [by left|by right|]. by cbn in H.
  - destruct kind; [by left|by right|]. destruct (_ || _) in H; by cbn in H.
  - destruct code; [tauto..|]. exfalso. destruct (_ || _) in H; [done|].
    destruct op, kind; cbn in H; repeat case_match; done.
Qed.

Definition base (v : RequestLedgerRecord) : bytes := puts (fields v) (zeros LedgerLen).
Definition image (v : RequestLedgerRecord) : bytes :=
  puts (sealed (fields v) 92 (Crc32c (base v))) (zeros LedgerLen).

Lemma ledger_encode_eq v :
  ledger_typed v -> ValidateRecord v = Ok tt -> EncodeRequestLedgerRecord v = Ok (image v).
Proof.
  intros (H1 & _ & H2 & _) Hv. unfold image, base. rewrite <- seal.
  rewrite <- (clear_unsealed LedgerLen _ _ (ledger_fields_layout v) (ledger_fields_sized v H1 H2)) at 1.
  unfold EncodeRequestLedgerRecord. rewrite Hv. reflexivity.
Qed.

Lemma encode_inv v b :
  ledger_typed v -> EncodeRequestLedgerRecord v = Ok b -> ValidateRecord v = Ok tt /\ b = image v.
Proof.
  intros Ht He. destruct (ValidateRecord v) as [[]|] eqn:E.
  - rewrite (ledger_encode_eq v Ht E) in He. ok_inv He. done.
  - unfold EncodeRequestLedgerRecord in He. by rewrite E in He.
Qed.

Lemma ledger_base_bytes_ok v :
  ledger_typed v -> ValidateRecord v = Ok tt -> bytes_ok (base v).
Proof.
  intros (_ & H1 & _ & H2 & _) (Ho & Hk & _)%valid_codes. apply bytes_ok_puts; [|apply bytes_ok_zeros].
  repeat (constructor; [first [exact H1 | exact H2 | apply le_bytes_ok |
    apply bytes_okb_ok; reflexivity |
    apply bytes_okb_ok; destruct Ho as [-> | ->]; reflexivity |
    apply bytes_okb_ok; destruct Hk as [-> | ->]; reflexivity ]|]). constructor.
Qed.

Lemma image_length v : ledger_typed v -> length (image v) = LedgerLen.
Proof. intros (H1 & _ & H2 & _). apply length_sealed; [apply ledger_fields_layout|by apply ledger_fields_sized]. Qed.

Lemma image_magic v : ledger_typed v -> slice 0 4 (image v) = kLedgerMagic.
Proof.
  intros (H1 & _ & H2 & _). pose proof (ledger_fields_sized v H1 H2) as Hsz.
  apply (slice_field LedgerLen _ _ (ledger_fields_layout v _) (sealed_sized _ 92 Hsz _)); [apply length_replicate|in_fields].
Qed.

Lemma image_ok v :
  ledger_typed v -> ValidateRecord v = Ok tt ->
  length (image v) = LedgerLen /\ bytes_ok (image v) /\ all_zero (image v) = false.
Proof.
  intros Ht Hv. pose proof (image_length v Ht) as Hlen. conj_split.
  - done.
  - unfold image. rewrite <- seal. by apply bytes_ok_PutLe32, ledger_base_bytes_ok.
  - apply not_true_iff_false. intros Hz. apply all_zero_spec in Hz.
    pose proof (image_magic v Ht) as E. rewrite Hz, slice_zeros in E; [discriminate E|].
    rewrite Hlen. apply Nat.leb_le. reflexivity.
Qed.

Lemma code_roundtrips v : ValidateRecord v = Ok tt ->
  operation_of (operation_code (operation v)) = operation v /\
  kind_of (kind_code (result_kind v)) = result_kind v /\
  result_code_of (result_code_code (result_code v)) = result_code v /\
  u32 (result_code_code (result_code v)).
Proof.
  intros (Ho & Hk & Hc & _)%valid_codes.
  split; [by destruct Ho as [-> | ->]|]. split; [by destruct Hk as [-> | ->]|].
  destruct Hc as [-> | [-> | [-> | ->]]]; (split; [done|split; vm_compute; congruence]).
Qed.

Lemma ledger_decode_image v :
  ledger_typed v -> ValidateRecord v = Ok tt ->
  DecodeRequestLedgerRecord (image v) (sequence v) = kRecord v.
Proof.
  intros Ht Hv. destruct (image_ok v Ht Hv) as (_ & _ & Hnz).
  pose proof Ht as (H1 & _ & H2 & _ & H3 & H4 & H5 & H6 & H7).
  destruct (code_roundtrips v Hv) as (Ho & Hk & Hc & Hcu).
  destruct (valid_codes v Hv) as (_ & _ & _ & Hs).
  pose proof (ledger_fields_sized v H1 H2) as Hsz.
  assert (u32 (Crc32c (base v))) as Hcrc by (by apply Crc32c_u32, ledger_base_bytes_ok).
  unfold DecodeRequestLedgerRecord. rewrite (proj2 (Z.eqb_neq _ _) Hs), Hnz.
  unfold ComputeChecksum, kLedgerChecksumOffset, kReservedOffset. unfold image in *.
  pose proof (length_sealed LedgerLen _ _ (ledger_fields_layout v) Hsz (Crc32c (base v))) as Hlen.
  rewrite (drop_slice 96), Hlen.
  rewrite (sealed_clear LedgerLen _ _ (ledger_fields_layout v) Hsz). fold (base v).
  set (c := Crc32c (base v)) in *.
  pose proof (ledger_fields_layout v c) as Hl. pose proof (sealed_sized _ 92 Hsz c) as Hsz'.
  assert (length (zeros LedgerLen) = LedgerLen) as Hzl by apply length_replicate.
  rewrite (slice_gap _ _ _ Hl Hsz' Hzl 96) by (done || (apply Nat.leb_le; reflexivity)).
  rewrite (slice_field _ _ _ Hl Hsz' Hzl 0 4 kLedgerMagic) by in_fields.
  rewrite (slice_field _ _ _ Hl Hsz' Hzl 8 16 (request_id v)) by in_fields.
  rewrite (slice_field _ _ _ Hl Hsz' Hzl 24 32 (fingerprint v)) by in_fields.
  rewrite (nth_slice1 6 _ (operation_code (operation v)))
    by (apply (slice_field _ _ _ Hl Hsz' Hzl); in_fields).
  rewrite (nth_slice1 7 _ (kind_code (result_kind v)))
    by (apply (slice_field _ _ _ Hl Hsz' Hzl); in_fields).
  read_fields Hl Hsz' Hzl. rewrite all_zero_zeros, Z.eqb_refl, Ho, Hk, Hc.
  rewrite bool_decide_eq_true_2 by done. cbn [negb orb sequence]. rewrite Z.eqb_refl. cbn [negb Z.eqb].
  assert (mkLedger (operation v) (result_kind v) (request_id v) (fingerprint v) (result_code v)
    (committed_inode v) (committed_generation v) (current_inode v) (current_generation v) (sequence v) = v)
    as E by (by destruct v).
  rewrite E, Hv, Z.eqb_refl. reflexivity.
Qed.

Lemma operation_code_of z : operation_code (operation_of z) = z.
Proof. unfold operation_of. destruct (Z.eqb_spec z 1); [by subst|]. by destruct (Z.eqb_spec z 2); [subst|]. Qed.
Lemma kind_code_of z : kind_code (kind_of z) = z.
Proof. unfold kind_of. destruct (Z.eqb_spec z 1); [by subst|]. by destruct (Z.eqb_spec z 2); [subst|]. Qed.
Lemma result_code_code_of z : result_code_code (result_code_of z) = z.
Proof.
  unfold result_code_of. destruct (Z.eqb_spec z 1); [by subst|]. destruct (Z.eqb_spec z 2); [by subst|].
  destruct (Z.eqb_spec z 3); [by subst|]. by destruct (Z.eqb_spec z 4); [subst|].
Qed.

Lemma ledger_encode_decode b s v :
  length b = LedgerLen -> bytes_ok b -> DecodeRequestLedgerRecord b s = kRecord v ->
  ledger_typed v /\ ValidateRecord v = Ok tt /\ sequence v = s /\ b = image v.
Proof.
  intros Hlen Hok Hd. unfold DecodeRequestLedgerRecord in Hd.
  rewrite (drop_slice kReservedOffset), Hlen in Hd. set (v0 := mkLedger _ _ _ _ _ _ _ _ _ _) in Hd.
  destruct (s =? 0); [done|]. destruct (all_zero b); [done|].
  destruct (_ || _) eqn:E1 in Hd; [done|]. destruct (negb _) eqn:E2 in Hd; [done|].
  destruct (negb (all_zero _)) eqn:E3 in Hd; [done|]. destruct (negb (_ =? s)) eqn:E4 in Hd; [done|].
  destruct (ValidateRecord v0) as [[]|] eqn:Hv; [|done]. injection Hd as <-. bool_to_prop.
  assert (ledger_typed v0) as Hty.
  { unfold ledger_typed, v0. cbn -[u32 u64].
    split; [apply length_slice; rewrite Hlen; apply Nat.leb_le; reflexivity|].
    split; [by apply bytes_ok_slice|].
    split; [apply length_slice; rewrite Hlen; apply Nat.leb_le; reflexivity|]. solve_typed Hok. }
  split; [done|]. split; [done|]. split; [done|].
  assert (slice 6 1 b = [operation_code (operation v0)]) as H6
    by (rewrite slice1_nth by (rewrite Hlen; apply Nat.ltb_lt; reflexivity); f_equal; symmetry; apply operation_code_of).
  assert (slice 7 1 b = [kind_code (result_kind v0)]) as H7
    by (rewrite slice1_nth by (rewrite Hlen; apply Nat.ltb_lt; reflexivity); f_equal; symmetry; apply kind_code_of).
  assert (GetLe32 b 56 = result_code_code (result_code v0)) as H56 by (symmetry; apply result_code_code_of).
  symmetry. apply (sealed_verified LedgerLen (fields v0) 92 (ledger_fields_layout v0)
           (ledger_fields_sized v0 (proj1 Hty) (proj1 (proj2 (proj2 Hty)))) Crc32c); [|done].
  eapply (puts_canonical LedgerLen _ [(96, 32)%nat] segs).
  - apply ledger_fields_layout.
  - apply sealed_sized, ledger_fields_sized; apply Hty.
  - exact Hlen.
  - vm_compute. reflexivity.
  - unfold sealed, fields. cbn [app]. solve_holds Hok Hlen.
  - apply Forall_cons_2; [|apply Forall_nil_2].
    apply all_zero_gap; [rewrite Hlen; apply Nat.leb_le; reflexivity|assumption].
Qed.

End LedgerCodec.

(** * The slot scan *)
Definition zero_slot : bytes := zeros LedgerLen.
Definition slot_wf (b : bytes) : Prop := length b = LedgerLen /\ bytes_ok b.

(** Records in slot order, the first with sequence number [s]. *)
Definition legal (s : Z) (rs : list RequestLedgerRecord) : Prop :=
  forall i r, rs !! i = Some r ->
    ledger_typed r /\ ValidateRecord r = Ok tt /\ sequence r = s + Z.of_nat i.

Definition index_of (rs : list RequestLedgerRecord) : gmap bytes RequestLedgerRecord :=
  list_to_map (map (fun r => (request_id r, r)) rs).

(** The slots hold the records [rs], then [k] empty slots. *)
Definition ledger_slots (rs : list RequestLedgerRecord) (k : nat) : list bytes :=
  map LedgerCodec.image rs ++ replicate k zero_slot.

Lemma legal_cons s r rs :
  legal s (r :: rs) <->
  (ledger_typed r /\ ValidateRecord r = Ok tt /\ sequence r = s) /\ legal (s + 1) rs.
Proof.
  split.
  - intros H. split; [destruct (H 0%nat r eq_refl) as (? & ? & ?); rewrite Z.add_0_r in *; done|].
    intros i x Hx. destruct (H (S i) x Hx) as (? & ? & ?). conj_split; try done. lia.
  - intros [(H1 & H2 & H3) H] i x Hx. destruct i as [|i].
    + injection Hx as <-. conj_split; try done. lia.
    + destruct (H i x Hx) as (? & ? & ?). conj_split; try done. lia.
Qed.

Lemma decode_zero s : s <> 0 -> DecodeRequestLedgerRecord zero_slot s = kEmptySlot.
Proof.
  intros Hs. unfold DecodeRequestLedgerRecord. rewrite (proj2 (Z.eqb_neq _ _) Hs).
  unfold zero_slot. by rewrite all_zero_zeros.
Qed.

Lemma decode_empty b s : slot_wf b -> DecodeRequestLedgerRecord b s = kEmptySlot -> b = zero_slot.
Proof.
  intros [Hl _]. unfold DecodeRequestLedgerRecord. destruct (s =? 0); [done|].
  destruct (all_zero b) eqn:E; [|by repeat case_match]. intros _.
  apply all_zero_spec in E. by rewrite Hl in E.
Qed.

Section scan.
Implicit Types (m : gmap bytes RequestLedgerRecord) (slots : list bytes).

Lemma next_seq s n : 1 <= s -> s + Z.of_nat (S n) < 18446744073709551616 -> wrap64 (s + 1) = s + 1.
Proof. intros. apply wrap64_small. word. Qed.

(** After an empty slot only empty slots may follow. *)
Lemma scan_empties slots s m m' :
  Forall slot_wf slots -> 1 <= s -> s + Z.of_nat (length slots) < 18446744073709551616 ->
  scan_slots slots true s m = Ok m' <-> m' = m /\ slots = replicate (length slots) zero_slot.
Proof.
  revert s. induction slots as [|b slots IH]; intros s Hw Hs Hb; cbn [scan_slots length replicate].
  - split; [intros E; by ok_inv E|by intros [-> _]].
  - inversion Hw as [|? ? Hb' Hw']; subst. cbn [length] in Hb.
    rewrite (next_seq s (length slots)) by lia. split.
    + destruct (DecodeRequestLedgerRecord b s) eqn:E; [|done..]. intros H.
      apply IH in H as [-> Hsl]; [|done|lia|lia]. split; [done|].
      by rewrite (decode_empty b s Hb' E), <- Hsl.
    + intros [-> [= -> Hsl]]. rewrite decode_zero by lia. apply IH; [done|lia|lia|done].
Qed.

Lemma index_of_nil : index_of [] = ∅.
Proof. done. Qed.

Lemma index_of_cons r rs : index_of (r :: rs) = <[request_id r := r]> (index_of rs).
Proof. done. Qed.

Lemma index_of_push r rs m :
  (forall x, x ∈ rs -> request_id x <> request_id r) ->
  index_of (r :: rs) ∪ m = index_of rs ∪ <[request_id r := r]> m.
Proof.
  intros H. rewrite index_of_cons, <- insert_union_l, insert_union_r; [done|].
  unfold index_of. apply not_elem_of_list_to_map_1. rewrite <- list_fmap_compose.
  intros (x & Hx & Hin)%list_elem_of_fmap. by apply (H x Hin).
Qed.

Lemma scan_sound slots s m m' :
  Forall slot_wf slots -> 1 <= s -> s + Z.of_nat (length slots) < 18446744073709551616 ->
  scan_slots slots false s m = Ok m' ->
  exists rs k, slots = ledger_slots rs k /\ legal s rs /\ NoDup (request_id <$> rs) /\
    (forall r, r ∈ rs -> m !! request_id r = None) /\ m' = index_of rs ∪ m.
Proof.
  revert s m. induction slots as [|b slots IH]; intros s m Hw Hs Hb Hscan.
  - ok_inv Hscan. exists [], 0%nat. conj_split; try done; [constructor|by intros r ?%not_elem_of_nil|].
    by rewrite index_of_nil, (left_id_L ∅ (∪)).
  - inversion Hw as [|? ? Hb' Hw']; subst. cbn [scan_slots length] in Hscan, Hb.
    rewrite (next_seq s (length slots)) in Hscan by lia.
    destruct (DecodeRequestLedgerRecord b s) as [|r|] eqn:E; [..|done].
    + apply scan_empties in Hscan as [-> Hsl]; [|done|lia|lia].
      exists [], (S (length slots)). conj_split; try done; [|constructor|by intros r ?%not_elem_of_nil|].
      * unfold ledger_slots. cbn [map app replicate]. by rewrite (decode_empty b s Hb' E), <- Hsl.
      * by rewrite index_of_nil, (left_id_L ∅ (∪)).
    + destruct (m !! request_id r) eqn:Em; [done|].
      destruct (LedgerCodec.ledger_encode_decode b s r) as (Ht & Hv & Hsq & ->); [apply Hb'|apply Hb'|done|].
      apply IH in Hscan as (rs & k & -> & Hl & Hnd & Hfresh & ->); [|done|lia|lia].
      exists (r :: rs), k. conj_split; try done.
      * by apply legal_cons.
      * constructor; [|done]. intros (x & Hx & Hin)%list_elem_of_fmap.
        specialize (Hfresh x Hin). by rewrite <- Hx, lookup_insert_eq in Hfresh.
      * intros x [->|Hx]%elem_of_cons; [done|]. specialize (Hfresh x Hx).
        by apply lookup_insert_None in Hfresh as [? _].
      * rewrite index_of_push; [done|]. intros x Hin Hx. specialize (Hfresh x Hin).
        by rewrite Hx, lookup_insert_eq in Hfresh.
Qed.

Lemma scan_complete rs k s m :
  legal s rs -> NoDup (request_id <$> rs) -> (forall r, r ∈ rs -> m !! request_id r = None) ->
  1 <= s -> s + Z.of_nat (length rs + k) < 18446744073709551616 ->
  scan_slots (ledger_slots rs k) false s m = Ok (index_of rs ∪ m).
Proof.
  revert s m. induction rs as [|r rs IH]; intros s m Hl Hnd Hfresh Hs Hb.
  - rewrite index_of_nil, (left_id_L ∅ (∪)). unfold ledger_slots. cbn [map app].
    destruct k as [|k]; [done|]. cbn [replicate scan_slots]. rewrite decode_zero by lia.
    rewrite (next_seq s k) by (cbn [length] in Hb; lia).
    apply scan_empties; [|lia|rewrite length_replicate; cbn [length] in Hb; lia|by rewrite length_replicate].
    apply Forall_replicate. split; [apply length_replicate|apply bytes_ok_zeros].
  - apply legal_cons in Hl as [(Ht & Hv & <-) Hl]. inversion Hnd as [|? ? Hn1 Hn2]; subst.
    unfold ledger_slots. cbn [map app scan_slots length] in *.
    rewrite (LedgerCodec.ledger_decode_image r Ht Hv), (Hfresh r) by left.
    rewrite (next_seq _ (length rs + k)) by lia.
    fold (ledger_slots rs k). rewrite IH; [|done|done| |lia|lia].
    + rewrite index_of_push; [done|]. intros x Hin Hx. apply Hn1.
      rewrite <- Hx. apply list_elem_of_fmap. eauto.
    + intros x Hx. rewrite lookup_insert_ne; [apply Hfresh; by right|].
      intros E. apply Hn1. rewrite E. apply list_elem_of_fmap. eauto.
Qed.
End scan.

(** * Guarantees *)
(** Ledger records. Encoding and decoding are inverse, and an encoded
    record is never taken for an empty slot. *)
Theorem ledger_codec v b :
  ledger_typed v -> slot_wf b ->
  (EncodeRequestLedgerRecord v = Ok b <->
   DecodeRequestLedgerRecord b (sequence v) = kRecord v) /\
  (EncodeRequestLedgerRecord v = Ok b -> b <> zero_slot).
Proof.
  intros Ht [Hl Hb]. conj_split; [split|].
  - intros (Hv & ->)%LedgerCodec.encode_inv; [|done]. by apply LedgerCodec.ledger_decode_image.
  - intros (_ & Hv & _ & ->)%LedgerCodec.ledger_encode_decode; [|done..]. by apply LedgerCodec.ledger_encode_eq.
  - intros (Hv & ->)%LedgerCodec.encode_inv; [|done]. intros E.
    destruct (LedgerCodec.image_ok v Ht Hv) as (_ & _ & Hz). rewrite E in Hz.
    unfold zero_slot in Hz. by rewrite all_zero_zeros in Hz.
Qed.

Definition record0 (s : Z) : RequestLedgerRecord :=
  mkLedger kCreateIfAbsent kCommittedResult (s :: zeros 15) (zeros 32) kOk 7 1 0 0 s.
Definition slot0 (s : Z) : bytes := from_ok [] (EncodeRequestLedgerRecord (record0 s)).

Lemma record0_typed s : 1 <= s < 100 -> ledger_typed (record0 s).
Proof.
  intros Hs. unfold ledger_typed, record0. cbn -[u32 u64 zeros]. conj_split; try (unfold u32, u64; lia).
  - reflexivity.
  - constructor; [word|apply bytes_ok_zeros].
  - reflexivity.
  - apply bytes_ok_zeros.
Qed.

Lemma ledger_codec_witness :
  (EncodeRequestLedgerRecord (record0 1) = Ok (slot0 1) <->
   DecodeRequestLedgerRecord (slot0 1) 1 = kRecord (record0 1)) /\
  (EncodeRequestLedgerRecord (record0 1) = Ok (slot0 1) -> slot0 1 <> zero_slot).
Proof.
  apply (ledger_codec (record0 1) (slot0 1)).
  - by apply record0_typed.
  - split; [vm_compute; reflexivity|]. apply bytes_okb_ok. vm_compute. reflexivity.
Defined.

(** The start-up scan accepts exactly a prefix of valid records with the
    sequence numbers 1, 2, ... and distinct request ids followed by empty
    slots, and indexes exactly these records. *)
Theorem scan_exact slots m :
  Forall slot_wf slots -> Z.of_nat (length slots) < 18446744073709551615 ->
  scan_slots slots false 1 ∅ = Ok m <->
  exists rs k, slots = ledger_slots rs k /\ legal 1 rs /\ NoDup (request_id <$> rs) /\ m = index_of rs.
Proof.
  intros Hw Hl. split.
  - intros H. apply scan_sound in H as (rs & k & -> & H1 & H2 & _ & ->); [|done|lia|lia].
    exists rs, k. by rewrite (right_id_L ∅ (∪)).
  - intros (rs & k & -> & H1 & H2 & ->).
    rewrite <- (right_id_L ∅ (∪) (index_of rs)). apply scan_complete; try done.
    unfold ledger_slots in Hl. rewrite length_app, length_map, length_replicate in Hl. lia.
Qed.

Lemma scan_exact_witness :
  scan_slots [slot0 1; slot0 2; zero_slot] false 1 ∅ = Ok (index_of [record0 1; record0 2]).
Proof.
  apply (scan_exact [slot0 1; slot0 2; zero_slot] (index_of [record0 1; record0 2])).
  - repeat (apply Forall_cons_2;
      [split; [vm_compute; reflexivity|apply bytes_okb_ok; vm_compute; reflexivity]|]). constructor.
  - cbn. lia.
  - exists [record0 1; record0 2], 1%nat. conj_split.
    + vm_compute. reflexivity.
    + intros i r Hi. destruct i as [|[|i]]; [injection Hi as <-..|done];
        (split; [by apply record0_typed|]); split; reflexivity.
    + apply (bool_decide_unpack _). vm_compute. exact I.
    + reflexivity.
Defined.

Lemma size_index_of rs : NoDup (request_id <$> rs) -> size (index_of rs) = length rs.
Proof.
  intros Hnd. unfold index_of.
  rewrite <- (length_map (fun r => (request_id r, r))), map_size_list_to_map; [done|].
  rewrite <- list_fmap_compose. exact Hnd.
Qed.

Lemma ledger_slots_append rs k r :
  <[length rs := LedgerCodec.image r]> (ledger_slots rs (S k)) = ledger_slots (rs ++ [r]) k.
Proof.
  unfold ledger_slots. rewrite map_app, <- app_assoc. cbn [map app replicate].
  rewrite <- (length_map LedgerCodec.image rs) at 1. rewrite <- (Nat.add_0_r (length _)).
  by rewrite insert_app_r.
Qed.

Lemma index_of_snoc rs r :
  index_of rs !! request_id r = None -> index_of (rs ++ [r]) = <[request_id r := r]> (index_of rs).
Proof.
  intros Hr. unfold index_of in *. rewrite map_app, list_to_map_app. cbn [map].
  rewrite list_to_map_cons, list_to_map_nil, <- insert_union_r by done.
  by rewrite (right_id_L ∅ (∪)).
Qed.

(** Writing an accepted record into the first empty slot. *)
Lemma rescan_after_append slots m r i' :
  Forall slot_wf slots -> Z.of_nat (length slots) < 18446744073709551615 -> ledger_typed r ->
  scan_slots slots false 1 ∅ = Ok m ->
  AppendCommitted (mkIndex (Z.of_nat (length slots)) (Z.of_nat (size m) + 1) m) r false = (i', Ok tt) ->
  exists encoded, EncodeRequestLedgerRecord r = Ok encoded /\
    slots !! size m = Some zero_slot /\
    scan_slots (<[size m := encoded]> slots) false 1 ∅ = Ok (records_ i') /\
    next_sequence_ i' = Z.of_nat (size (records_ i')) + 1 /\
    capacity_ i' = Z.of_nat (length slots).
Proof.
  intros Hw Hl Ht Hscan Happ.
  apply scan_sound in Hscan as (rs & k & -> & Hleg & Hnd & _ & ->); [|done|lia|lia].
  rewrite (right_id_L ∅ (∪)) in *.
  assert (length (ledger_slots rs k) = (length rs + k)%nat) as Elen
    by (unfold ledger_slots; by rewrite length_app, length_map, length_replicate).
  pose proof (size_index_of rs Hnd) as Esz.
  unfold AppendCommitted in Happ. cbn [sequence next_sequence_ records_ capacity_] in Happ.
  destruct (full _) eqn:Ef; [done|]. unfold full in Ef. cbn [records_ capacity_] in Ef.
  destruct (Z.eqb_spec (sequence r) (Z.of_nat (size (index_of rs)) + 1)) as [Es|]; [|done].
  cbn [negb] in Happ. destruct (EncodeRequestLedgerRecord r) as [b|] eqn:Eb; [|done].
  destruct (index_of rs !! request_id r) eqn:Er; [done|]. injection Happ as <-. cbn [records_ next_sequence_ capacity_].
  apply LedgerCodec.encode_inv in Eb as [Hv ->]; [|done].
  apply Z.eqb_neq in Ef. rewrite Esz, Elen in *. destruct k as [|k]; [lia|].
  exists (LedgerCodec.image r). split; [done|].
  rewrite ledger_slots_append.
  assert (forall x, x ∈ rs -> request_id x <> request_id r) as Hfresh.
  { intros x Hx E. apply not_elem_of_list_to_map_2 in Er. apply Er.
    rewrite <- list_fmap_compose. apply list_elem_of_fmap. eauto. }
  assert (NoDup (request_id <$> rs ++ [r])) as Hnd'.
  { rewrite fmap_app. apply NoDup_app. split; [done|]. split; [|apply NoDup_singleton].
    intros y (x & -> & Hx)%list_elem_of_fmap Hy%list_elem_of_singleton. by apply (Hfresh x). }
  conj_split.
  - unfold ledger_slots. rewrite lookup_app_r by (rewrite length_map; lia).
    by rewrite length_map, Nat.sub_diag.
  - rewrite <- index_of_snoc by done.
    rewrite <- (right_id_L ∅ (∪) (index_of _)). apply scan_complete; try done.
    + intros i x Hi. destruct (decide (i < length rs)%nat) as [Hlt|Hge].
      * rewrite lookup_app_l in Hi by done. by apply Hleg.
      * rewrite lookup_app_r in Hi by lia. destruct (i - length rs)%nat eqn:Ei; [|done].
        injection Hi as <-. conj_split; try done. rewrite Es. lia.
    + rewrite length_app. cbn [length]. lia.
  - rewrite map_size_insert_None by done. rewrite Esz, wrap64_small by word. lia.
  - lia.
Qed.

(** Memory and disk stay in step. When the index built by the scan takes
    up a record, writing that record into the first empty slot makes the next
    scan find exactly the new index. *)
Theorem append_matches_rescan slots m r i' :
  Forall slot_wf slots -> Z.of_nat (length slots) < 18446744073709551615 -> ledger_typed r ->
  scan_slots slots false 1 ∅ = Ok m ->
  AppendCommitted (mkIndex (Z.of_nat (length slots)) (Z.of_nat (size m) + 1) m) r false = (i', Ok tt) ->
  exists encoded, EncodeRequestLedgerRecord r = Ok encoded /\
    slots !! size m = Some zero_slot /\
    scan_slots (<[size m := encoded]> slots) false 1 ∅ = Ok (records_ i') /\
    next_sequence_ i' = Z.of_nat (size (records_ i')) + 1 /\
    capacity_ i' = Z.of_nat (length slots).
Proof. apply rescan_after_append. Qed.

Definition slots1 : list bytes := [slot0 1; zero_slot; zero_slot].
Definition index1 : RequestLedgerIndex := mkIndex 3 2 (index_of [record0 1]).
Definition index2 : RequestLedgerIndex := fst (AppendCommitted index1 (record0 2) false).

Lemma append_matches_rescan_witness :
  exists encoded, EncodeRequestLedgerRecord (record0 2) = Ok encoded /\
    slots1 !! size (index_of [record0 1]) = Some zero_slot /\
    scan_slots (<[size (index_of [record0 1]) := encoded]> slots1) false 1 ∅ = Ok (records_ index2) /\
    next_sequence_ index2 = Z.of_nat (size (records_ index2)) + 1 /\ capacity_ index2 = 3.
Proof.
  apply (append_matches_rescan slots1 (index_of [record0 1]) (record0 2) index2).
  - repeat (apply Forall_cons_2;
      [split; [vm_compute; reflexivity|apply bytes_okb_ok; vm_compute; reflexivity]|]). constructor.
  - cbn. lia.
  - by apply record0_typed.
  - vm_compute. reflexivity.
  - apply injective_projections; [reflexivity|vm_compute; reflexivity].
Defined.

(** Index errors. Appending never changes the index on failure, refuses a
    full index, a sequence gap, an invalid record and a request id that is
    already present, and otherwise makes exactly that id findable. *)
Theorem append_committed i r :
  u64 (next_sequence_ i) -> next_sequence_ i < 18446744073709551615 ->
  let '(i', res) := AppendCommitted i r false in
  match res with
  | Err e => i' = i /\
      ((e = ENOSPC /\ full i = true) \/
       (e = EUCLEAN /\ (sequence r <> next_sequence_ i \/ ValidateRecord r <> Ok tt)) \/
       (e = EEXIST /\ is_Some (Find i (request_id r))))
  | Ok _ =>
      full i = false /\ sequence r = next_sequence_ i /\ ValidateRecord r = Ok tt /\
      Find i (request_id r) = None /\ next_sequence_ i' = next_sequence_ i + 1 /\
      capacity_ i' = capacity_ i /\
      forall id, Find i' id = if decide (id = request_id r) then Some r else Find i id
  end.
Proof.
  intros Hu Hmax. unfold AppendCommitted, Find. destruct (full i) eqn:Ef; [by split; [|left]|].
  destruct (Z.eqb_spec (sequence r) (next_sequence_ i)) as [Es|Es]; cbn [negb];
    [|split; [done|]; right; left; split; [done|by left]].
  unfold EncodeRequestLedgerRecord. destruct (ValidateRecord r) as [[]|] eqn:Ev;
    [|split; [done|]; right; left; split; [done|by right]].
  destruct (records_ i !! request_id r) as [x|] eqn:Er; [split; [done|]; right; right; by split|].
  conj_split; try done.
  - apply wrap64_small. word.
  - intros id. cbn [records_]. destruct (decide (id = request_id r)) as [->|Hne].
    + apply lookup_insert_eq.
    + by apply lookup_insert_ne.
Qed.

Lemma append_committed_witness :
  let '(i', res) := AppendCommitted index1 (record0 1) false in
  match res with
  | Err e => i' = index1 /\
      ((e = ENOSPC /\ full index1 = true) \/
       (e = EUCLEAN /\ (sequence (record0 1) <> next_sequence_ index1 \/
                        ValidateRecord (record0 1) <> Ok tt)) \/
       (e = EEXIST /\ is_Some (Find index1 (request_id (record0 1)))))
  | Ok _ =>
      full index1 = false /\ sequence (record0 1) = next_sequence_ index1 /\
      ValidateRecord (record0 1) = Ok tt /\ Find index1 (request_id (record0 1)) = None /\
      next_sequence_ i' = next_sequence_ index1 + 1 /\ capacity_ i' = capacity_ index1 /\
      forall id, Find i' id = if decide (id = request_id (record0 1)) then Some (record0 1)
                              else Find index1 id
  end.
Proof. apply (append_committed index1 (record0 1)); [split; cbn; lia|cbn; lia]. Defined.

(** Merging a ledger append into a transaction adds exactly one block to
    the before-images and to the journalled metadata, never to the ordered
    data, never replaces a block of the transaction, and the after-image
    differs from the before-image only in the record's slot, which was empty
    and now decodes to the record. *)
Theorem merge_adds_one_block plan total uuid before ordered metadata before' ordered' metadata' :
  ledger_typed (ap_record plan) -> block_wf (ap_before_image plan) -> u64 (ap_sequence plan) ->
  MergeRequestLedgerAppend plan total uuid before ordered metadata =
    Ok (before', ordered', metadata') ->
  let block := ap_physical_block plan in
  let inside := slot_offset (ap_sequence plan - 1) in
  ordered' = ordered /\
  before !! block = None /\ ordered !! block = None /\ metadata !! block = None /\
  before' = <[block := ap_before_image plan]> before /\
  metadata' = <[block := ap_after_image plan]> metadata /\
  (inside + LedgerLen <= BlockLen)%nat /\
  slice inside LedgerLen (ap_before_image plan) = zero_slot /\
  DecodeRequestLedgerRecord (slice inside LedgerLen (ap_after_image plan)) (ap_sequence plan) =
    kRecord (ap_record plan) /\
  (forall off n, (off + n <= inside \/ inside + LedgerLen <= off)%nat ->
     slice off n (ap_after_image plan) = slice off n (ap_before_image plan)).
Proof.
  intros Ht [Hbl _] Hu H. unfold MergeRequestLedgerAppend, ValidateAppendPlan in H. cbv zeta in H.
  destruct (_ || _) eqn:E1 in H; [done|]. bool_to_prop.
  rewrite (wrap64_small (ap_sequence plan - 1)) in H by word.
  destruct (_ || _) eqn:E2 in H; [done|]. destruct (negb _) eqn:E3 in H; [done|].
  destruct (EncodeRequestLedgerRecord _) as [b|] eqn:Eb in H; [|done].
  destruct (bool_decide _) eqn:E4 in H; [|done]. apply bool_decide_eq_true_1 in E4.
  destruct (_ || _) eqn:E5 in H; [done|]. destruct (_ || _) eqn:E6 in H; [done|].
  injection H as <- <- <-. apply orb_false_elim in E6 as [[Eb1 Eo1]%orb_false_elim Em1].
  apply bool_decide_eq_false_1, eq_None_not_Some in Eb1, Eo1, Em1.
  apply negb_false_iff in E3. unfold IsZeroSlot in E3. apply all_zero_spec in E3.
  destruct (LedgerCodec.encode_inv _ _ Ht Eb) as [Hv ->].
  destruct (LedgerCodec.image_ok _ Ht Hv) as (Hil & _ & _).
  set (inside := slot_offset (ap_sequence plan - 1)) in *.
  assert (inside + LedgerLen <= BlockLen)%nat as Hin.
  { unfold inside, slot_offset. change kEntriesPerBlock with 32. unfold kRequestLedgerRecordSize.
    pose proof (Z.mod_pos_bound (ap_sequence plan - 1) 32 ltac:(lia)). pose proof BlockLen_Z.
    change LedgerLen with 128%nat. lia. }
  rewrite length_slice in E3 by lia. cbv zeta.
  conj_split; try done.
  - rewrite <- E4, slice_splice_same by (done || lia).
    match goal with H : sequence _ = ap_sequence plan |- _ => rewrite <- H end.
    by apply LedgerCodec.ledger_decode_image.
  - intros off n Hor. rewrite <- E4. apply slice_splice_ne; rewrite Hil; lia.
Qed.

Definition append0 : RequestLedgerAppendPlan :=
  mkAppend 1 0 9 24 (zeros 16) (record0 1) zero_block (splice 0 (slot0 1) zero_block).

Lemma merge_adds_one_block_witness :
  ({[9 := zero_block]} : image) !! 9 = Some zero_block /\
  DecodeRequestLedgerRecord (slice 0 LedgerLen (ap_after_image append0)) 1 = kRecord (record0 1).
Proof.
  destruct (merge_adds_one_block append0 24 (zeros 16) ∅ ∅ ∅
    {[9 := zero_block]} ∅ {[9 := ap_after_image append0]}) as (_ & _ & _ & _ & H & _ & _ & _ & Hd & _).
  - by apply record0_typed.
  - apply zero_block_wf.
  - vm_compute. split; congruence.
  - vm_compute. reflexivity.
  - split; [rewrite H; reflexivity|exact Hd].
Defined.
