(* ===== verification/FormatTheorems.v ===== *)
(** The on-disk formats, as guarantees: encoders and decoders are inverse and
    decoding is canonical, corruption confined to 32 consecutive bits is
    always detected, a valid superblock tiles the image, the wrapping
    generation order is antisymmetric, and control selection is stable. *)
From S2P Require Import Prelude Codec Crc32c OndiskFormat OndiskFormatProofs DirectoryEntry.
From S2P Require Import OndiskJournal OndiskJournalProofs RingReservation JournalExample RequestLedger.
Import ControlSelection.
Open Scope Z_scope.

(** * Round trips *)

(** C37. Superblock codec. Encoding and decoding are inverse: a typed superblock
    encodes to a block exactly if that block decodes to it. *)
Theorem superblock_codec v b :
  superblock_typed v -> block_wf b ->
  EncodeSuperblock v = Ok b <-> DecodeSuperblock b = Ok v.
Proof.
  intros Hv Hb. split.
  - by apply SuperblockCodec.superblock_decode_encode.
  - intros Hd. by apply SuperblockCodec.superblock_encode_decode.
Qed.

Lemma superblock_codec_witness :
  let b := from_ok [] (EncodeSuperblock sb0) in
  EncodeSuperblock sb0 = Ok b <-> DecodeSuperblock b = Ok sb0.
Proof.
  intros b. apply (superblock_codec sb0 b).
  - vm_compute. repeat split; try congruence. repeat constructor; congruence.
  - apply block_wfb_ok. vm_compute. reflexivity.
Defined.

(** Inode codec. The same for 128-byte inode slots, where the expected
    inode number is part of the decoder's check. *)
Theorem inode_codec v b :
  inode_typed v -> length b = InodeLen -> bytes_ok b ->
  EncodeInode v = Ok b <-> DecodeInode b (inode_number v) = Ok v.
Proof.
  intros Hv Hl Hb. split.
  - by apply InodeCodec.inode_decode_encode.
  - intros Hd. by apply (InodeCodec.inode_encode_decode b (inode_number v) v Hl Hb).
Qed.

Definition inode0 : InodeRecord :=
  mkInode 2 33188 0 0 1 5 10 11 12 0 1 [13; 0; 0; 0; 0; 0; 0; 0; 0; 0; 0; 0] 0.

Lemma inode_codec_witness :
  let b := from_ok [] (EncodeInode inode0) in
  EncodeInode inode0 = Ok b <-> DecodeInode b 2 = Ok inode0.
Proof.
  intros b. apply (inode_codec inode0 b).
  - unfold inode_typed, inode0. cbn. unfold u32, u64. conj_split; try lia. repeat constructor; lia.
  - vm_compute. reflexivity.
  - apply bytes_okb_ok. vm_compute. reflexivity.
Defined.

(** Directory records. An encoded record decodes to the entry it was made
    from, whatever the buffer held before, and bytes after the record are
    kept; an active record that decodes is exactly what encoding its decoded
    form over it produces. *)
Theorem directory_entry_codec v rec_len output b :
  u32 (de_inode v) -> bytes_ok output ->
  (EncodeDirectoryEntry v rec_len output = Ok b ->
   DecodeDirectoryEntry b = Ok (mkDirectoryEntry (de_inode v) (file_type v) (name v) rec_len) /\
   slice (Z.to_nat rec_len) (length output - Z.to_nat rec_len) b =
   slice (Z.to_nat rec_len) (length output - Z.to_nat rec_len) output) /\
  (DecodeDirectoryEntry output = Ok v -> de_inode v <> 0 ->
   EncodeDirectoryEntry v (record_length v) output = Ok output).
Proof.
  intros Hi Hok. split.
  - intros [Hacc ->]%encode_directory_entry. split; [by apply decode_record|by apply dir_tail].
  - by apply reencode_record.
Qed.

Definition entry0 : DirectoryEntry := mkDirectoryEntry 7 kRegular [97; 98] 12.

Lemma directory_entry_codec_witness :
  let b := from_ok [] (EncodeDirectoryEntry entry0 12 (repeat 255 16)) in
  EncodeDirectoryEntry entry0 12 (repeat 255 16) = Ok b /\ DecodeDirectoryEntry b = Ok entry0.
Proof.
  intros b. assert (EncodeDirectoryEntry entry0 12 (repeat 255 16) = Ok b) as E by reflexivity.
  split; [exact E|]. apply (directory_entry_codec entry0 12 (repeat 255 16) b).
  - vm_compute. split; congruence.
  - apply bytes_okb_ok. reflexivity.
  - exact E.
Defined.

(** Control codec. A control that encodes decodes to itself with the stored
    checksum filled in; a block that decodes is exactly the encoding of its
    decoded form. *)
Theorem control_codec v b :
  control_typed v -> block_wf b ->
  (forall crc, EncodeControl v = Ok (b, crc) -> DecodeControl b = Ok (with_checksum v crc)) /\
  (DecodeControl b = Ok v -> EncodeControl v = Ok (b, jc_checksum v)).
Proof.
  intros Hv Hb. split.
  - intros crc He. rewrite ControlCodec.control_encode_eq in He by apply Hv.
    destruct (ValidateControlFields v) as [[]|] eqn:E; [|done]. ok_inv He. injection He as <- <-.
    by apply ControlCodec.control_decode_image.
  - intros Hd. destruct (ControlCodec.control_encode_decode b v Hb Hd) as (_ & Hval & -> & ->).
    by rewrite ControlCodec.control_encode_eq, Hval by apply Hv.
Qed.

Lemma control_codec_witness :
  DecodeControl control0_block = Ok current0.
Proof.
  apply (control_codec control0 control0_block).
  - vm_compute. repeat split; try congruence. repeat constructor; congruence.
  - apply block_wfb_ok. vm_compute. reflexivity.
  - vm_compute. reflexivity.
Defined.

(** Transaction records. Descriptors and COMMIT records round-trip in the
    same way, and no descriptor block can be read as a COMMIT record. *)
Theorem record_codecs (v : DescriptorRecord) (w : CommitRecord) b :
  descriptor_typed v -> commit_typed w -> block_wf b ->
  (forall crc, EncodeDescriptor v = Ok (b, crc) ->
     DecodeDescriptor b = Ok (DescriptorCodec.with_descriptor_checksum v crc) /\
     is_ok (DecodeCommit b) = false) /\
  (DecodeDescriptor b = Ok v -> EncodeDescriptor v = Ok (b, dr_checksum v)) /\
  (EncodeCommit w = Ok b -> exists crc, DecodeCommit b = Ok (CommitCodec.with_commit_checksum w crc)) /\
  (DecodeCommit b = Ok w -> EncodeCommit w = Ok b).
Proof.
  intros Hv Hw Hb. conj_split.
  - intros crc He. destruct (DescriptorCodec.descriptor_encode_accepted v b crc He) as [Hacc Hfew].
    rewrite DescriptorCodec.descriptor_encode_eq in He by (done || apply Hv). ok_inv He. injection He as <- <-.
    split; [by apply DescriptorCodec.descriptor_decode_image|by apply descriptor_not_commit; [apply Hv|]].
  - intros Hd. destruct (DescriptorCodec.descriptor_encode_decode b v Hb Hd) as (_ & Hval & -> & ->).
    by rewrite DescriptorCodec.descriptor_encode_eq by (done || apply Hv).
  - intros He. pose proof (CommitCodec.commit_encode_accepted w b He) as Hacc.
    rewrite CommitCodec.commit_encode_eq in He by (done || apply Hw). ok_inv He.
    eexists. by apply CommitCodec.commit_decode_image.
  - intros Hd. destruct (CommitCodec.commit_encode_decode b w Hb Hd) as (_ & Hacc & ->).
    by rewrite CommitCodec.commit_encode_eq by (done || apply Hw).
Qed.

Definition descriptor0 : DescriptorRecord :=
  mkDescriptor 1 (zeros 16) 3 0 0 [mkEntry 3 1 5 0].
Definition commit0 : CommitRecord := mkCommit 1 (zeros 16) 1 3 0 5 0.

Lemma record_codecs_witness :
  let b := fst (from_ok ([], 0) (EncodeDescriptor descriptor0)) in
  let crc := snd (from_ok ([], 0) (EncodeDescriptor descriptor0)) in
  DecodeDescriptor b = Ok (DescriptorCodec.with_descriptor_checksum descriptor0 crc) /\
  is_ok (DecodeCommit b) = false.
Proof.
  intros b crc. apply (record_codecs descriptor0 commit0 b).
  - unfold descriptor_typed, descriptor0. cbn. unfold u32, u64.
    conj_split; try lia; [split; [done|by apply bytes_okb_ok]|].
    repeat constructor; cbn; lia.
  - unfold commit_typed, commit0. cbn. unfold u32, u64.
    conj_split; try lia. split; [done|by apply bytes_okb_ok].
  - apply block_wfb_ok. vm_compute. reflexivity.
  - vm_compute. reflexivity.
Defined.

(** * Corruption *)
(** ** Bursts *)
(** The stored checksum is the same in both. *)
Definition same_checksum (off : nat) (b b' : bytes) : Prop := slice off 4 b' = slice off 4 b.

Lemma nth_spliced off new b j : (off + length new <= length b)%nat ->
  nth j (splice off new b) 0 = if (off <=? j)%nat && (j <? off + length new)%nat then nth (j - off) new 0 else nth j b 0.
Proof.
  intros Hl. unfold splice. destruct (Nat.leb_spec off j) as [H1|H1]; cbn [andb].
  - rewrite app_nth2 by (rewrite length_take; lia). rewrite length_take, Nat.min_l by lia. destruct (Nat.ltb_spec j (off + length new)) as [H2|H2].
    + by rewrite app_nth1 by lia.
    + rewrite app_nth2 by lia. rewrite nth_skipn. f_equal. lia.
  - rewrite app_nth1 by (rewrite length_take; lia). rewrite <- (firstn_skipn off b) at 2. by rewrite app_nth1 by (rewrite length_firstn; lia).
Qed.

(** Clearing the checksum keeps a burst in its place. *)
Lemma differ_cleared k off b b' : (off + 4 <= length b)%nat -> differ_within k b b' -> differ_within k (PutLe32 off 0 b) (PutLe32 off 0 b').
Proof.
  intros Ho [Hl Hd]. unfold PutLe32. split; [rewrite !length_splice; rewrite ?length_le_bytes; lia|]. intros i Hi Hor. specialize (Hd i Hi Hor).
  unfold bit_at in *. rewrite !nth_spliced by (rewrite length_le_bytes; lia). by destruct (_ && _).
Qed.

Lemma differ_front k n b b' : differ_within k b b' -> differ_within k (slice 0 n b) (slice 0 n b').
Proof.
  intros [Hl Hd]. unfold slice. rewrite !drop_0. split; [by rewrite !length_take, Hl|]. intros i Hi Hor. specialize (Hd i Hi Hor). unfold bit_at in *.
  assert (forall l j, nth j (take n l) 0 = if (j <? n)%nat then nth j l 0 else 0) as Hn.
  { intros l j. destruct (Nat.ltb_spec j n) as [H|H]; [by rewrite nth_firstn, (proj2 (Nat.ltb_lt _ _) H)|]. apply nth_overflow. rewrite length_take. lia. }
  rewrite !Hn. by destruct (_ <? n)%nat.
Qed.

Lemma cleared_inj off b b' : (off + 4 <= length b)%nat -> length b' = length b -> same_checksum off b b' -> PutLe32 off 0 b = PutLe32 off 0 b' -> b' = b.
Proof.
  intros Ho Hl Hs E. unfold PutLe32 in E.
  assert (forall l, length l = length b -> splice off (slice off 4 l) (splice off (le_bytes 4 0) l) = l) as Hback.
  { intros l Hll. rewrite splice_splice, splice_slice; [done|lia|rewrite length_slice, length_le_bytes; lia|rewrite length_slice; lia]. }
  rewrite <- (Hback b' Hl), Hs, <- E. by apply Hback.
Qed.

(** A record whose checksum covers all of it. *)
Lemma burst_checksum off k b b' : 0 <= k -> bytes_ok b -> bytes_ok b' -> (off + 4 <= length b)%nat -> differ_within k b b' -> same_checksum off b b' ->
  GetLe32 b off = ComputeBlockChecksum b off -> GetLe32 b' off = ComputeBlockChecksum b' off -> b' = b.
Proof.
  intros Hk Hb Hb' Ho Hd Hs Hc Hc'. assert (GetLe32 b' off = GetLe32 b off) as Hg by (unfold GetLe32; by rewrite Hs).
  unfold ComputeBlockChecksum in *. apply (cleared_inj off); [done|apply Hd|done|].
  apply (Crc32c_burst k); [done|by apply bytes_ok_PutLe32..|by apply differ_cleared|congruence].
Qed.

Lemma control_checked b : is_ok (DecodeControl b) = true -> GetLe32 b 124 = ComputeBlockChecksum b 124.
Proof. unfold DecodeControl. destruct (_ || _); [done|]. destruct (negb _) eqn:E; [done|]. intros _. by bool_to_prop. Qed.

Lemma descriptor_checked b : is_ok (DecodeDescriptor b) = true -> GetLe32 b 60 = ComputeBlockChecksum b 60.
Proof. unfold DecodeDescriptor. destruct (_ || _); [done|]. destruct (negb _) eqn:E; [done|]. intros _. by bool_to_prop. Qed.

Lemma commit_checked b : is_ok (DecodeCommit b) = true -> GetLe32 b 60 = ComputeBlockChecksum b 60.
Proof. unfold DecodeCommit. destruct (_ || _); [done|]. destruct (negb _) eqn:E; [done|]. intros _. by bool_to_prop. Qed.

Lemma inode_checked b n : is_ok (DecodeInode b n) = true -> GetLe32 b kInodeChecksumOffset = ComputeBlockChecksum b kInodeChecksumOffset.
Proof. unfold DecodeInode. destruct (negb _) eqn:E; [done|]. intros _. by bool_to_prop. Qed.

(** The checksum of the superblock covers its first 256 bytes, the rest is zero. *)
Lemma superblock_checked b : is_ok (DecodeSuperblock b) = true ->
  GetLe32 b kSuperblockChecksumOffset = Crc32c (slice 0 256 (PutLe32 kSuperblockChecksumOffset 0 b)) /\ slice 256 (BlockLen - 256) b = zeros (length (slice 256 (BlockLen - 256) b)).
Proof.
  unfold DecodeSuperblock. cbv zeta. do 2 (match goal with |- is_ok (if ?c then _ else _) = true -> _ => destruct c; [done|] end).
  match goal with |- is_ok (if ?c then _ else _) = true -> _ => destruct c eqn:Ez; [done|] end.
  match goal with |- is_ok (if ?c then _ else _) = true -> _ => destruct c eqn:E; [done|] end.
  intros _. apply orb_false_iff in Ez as [_ Ez]. apply negb_false_iff in Ez, E. apply Z.eqb_eq in E. split; [by symmetry|]. by apply all_zero_spec.
Qed.

Lemma burst_superblock k b b' : 0 <= k -> bytes_ok b -> bytes_ok b' -> length b = BlockLen -> differ_within k b b' -> same_checksum kSuperblockChecksumOffset b b' ->
  is_ok (DecodeSuperblock b) = true -> is_ok (DecodeSuperblock b') = true -> b' = b.
Proof.
  intros Hk Hb Hb' Hl Hd Hs [Hc Hz]%superblock_checked [Hc' Hz']%superblock_checked. pose proof (proj1 Hd) as Hl'. pose proof BlockLen_Z as HB.
  assert (256 <= BlockLen)%nat as Hlen by lia. unfold kSuperblockChecksumOffset in *.
  assert (GetLe32 b' 128 = GetLe32 b 128) as Hg by (unfold GetLe32; by rewrite Hs).
  apply (cleared_inj 128); [lia|done|done|].
  assert (forall l, length l = BlockLen -> slice 256 (BlockLen - 256) (PutLe32 128 0 l) = slice 256 (BlockLen - 256) l) as Hrest.
  { intros l Hll. unfold PutLe32. apply slice_splice_ne; rewrite ?length_le_bytes; lia. }
  assert (forall l, length l = BlockLen -> PutLe32 128 0 l = slice 0 256 (PutLe32 128 0 l) ++ slice 256 (BlockLen - 256) l) as Hsplit.
  { intros l Hll. rewrite <- Hrest, <- slice_add by done. replace (256 + (BlockLen - 256))%nat with (length (PutLe32 128 0 l)); [by rewrite slice_all|].
    unfold PutLe32. rewrite length_splice; rewrite ?length_le_bytes; lia. }
  rewrite (Hsplit b Hl), (Hsplit b' ltac:(lia)), Hz, Hz', !length_slice by lia. f_equal.
  apply (Crc32c_burst k); [done|by apply bytes_ok_slice, bytes_ok_PutLe32..|by apply differ_front, differ_cleared; [lia|]|congruence].
Qed.

Lemma record_checked b sequence record : DecodeRequestLedgerRecord b sequence = kRecord record ->
  GetLe32 b kLedgerChecksumOffset = ComputeBlockChecksum b kLedgerChecksumOffset /\ slice 0 4 b = kLedgerMagic /\ GetLe16 b 4 = 1.
Proof.
  unfold DecodeRequestLedgerRecord. do 2 (match goal with |- (if ?c then _ else _) = _ -> _ => destruct c; [done|] end).
  match goal with |- (if ?c then _ else _) = _ -> _ => destruct c eqn:Em; [done|] end.
  match goal with |- (if ?c then _ else _) = _ -> _ => destruct c eqn:E; [done|] end. intros _.
  apply orb_false_iff in Em as [E1 E2]. apply negb_false_iff in E, E1, E2. apply Z.eqb_eq in E, E2. by apply bool_decide_eq_true in E1.
Qed.

(** The first bit of the magic number and that of the version are set, and no
    burst reaches both. *)
Lemma record_not_empty k b b' sequence record : differ_within k b b' -> bytes_ok b -> (6 <= length b)%nat -> DecodeRequestLedgerRecord b sequence = kRecord record -> all_zero b' = false.
Proof.
  intros [Hl Hd] Hb Hlen (_ & Hm & Hv)%record_checked. apply not_true_iff_false. intros Hz%all_zero_spec.
  assert (forall j, nth j b' 0 = 0) as H0.
  { intros j. rewrite Hz, nth_lookup. unfold zeros. destruct (replicate _ 0 !! j) eqn:E; [by apply lookup_replicate in E as [-> _]|done]. }
  destruct b as [|x0 [|x1 [|x2 [|x3 [|x4 [|x5 b]]]]]]; try (cbn in Hlen; lia). injection Hm as -> -> -> ->.
  assert (bit_at (69 :: 85 :: 76 :: 71 :: x4 :: x5 :: b) 0 = true) as B0 by reflexivity.
  assert (bit_at (69 :: 85 :: 76 :: 71 :: x4 :: x5 :: b) 32 = true) as B1.
  { unfold bit_at. change (Z.to_nat (32 / 8)) with 4%nat. cbn [nth]. change (32 mod 8) with 0. unfold GetLe16 in Hv.
    change (slice 4 2 _) with [x4; x5] in Hv. rewrite get_le_shift in Hv. apply (f_equal (fun v => Z.testbit v 0)) in Hv.
    rewrite Z.lor_spec, (Z.shiftl_spec_low _ 8 0), orb_false_r in Hv by lia. exact Hv. }
  assert (forall i, bit_at b' i = false) as Hb0 by (intros i; unfold bit_at; by rewrite H0, Z.testbit_0_l).
  destruct (Z.lt_ge_cases 0 k); [specialize (Hd 0 ltac:(lia) ltac:(lia))|specialize (Hd 32 ltac:(lia) ltac:(lia))]; rewrite Hb0 in Hd; congruence.
Qed.

(** C38. Bursts are detected. A record that decodes no longer does after a change
    that is confined to 32 consecutive bits and leaves its checksum field alone:
    superblocks, inode records, journal controls, descriptors and COMMIT blocks, and
    ledger records, which are then reported as corrupt and not as empty slots. The
    bits of a record are numbered from the lowest bit of its first byte on; four
    consecutive bytes are one such range. *)
Theorem burst_corruption_detected k b b' :
  0 <= k -> bytes_ok b -> bytes_ok b' -> b' <> b -> differ_within k b b' ->
  (length b = BlockLen ->
    (same_checksum kSuperblockChecksumOffset b b' -> is_ok (DecodeSuperblock b) = true -> is_ok (DecodeSuperblock b') = false) /\
    (same_checksum 124 b b' -> is_ok (DecodeControl b) = true -> is_ok (DecodeControl b') = false) /\
    (same_checksum 60 b b' -> is_ok (DecodeDescriptor b) = true -> is_ok (DecodeDescriptor b') = false) /\
    (same_checksum 60 b b' -> is_ok (DecodeCommit b) = true -> is_ok (DecodeCommit b') = false)) /\
  (length b = InodeLen -> same_checksum kInodeChecksumOffset b b' ->
    forall n, is_ok (DecodeInode b n) = true -> is_ok (DecodeInode b' n) = false) /\
  (length b = LedgerLen -> same_checksum kLedgerChecksumOffset b b' ->
    forall sequence record, DecodeRequestLedgerRecord b sequence = kRecord record -> exists why, DecodeRequestLedgerRecord b' sequence = kCorrupt why).
Proof.
  intros Hk Hb Hb' Hne Hd. pose proof BlockLen_Z. split; [|split].
  - intros Hl. conj_split; intros Hs Hok; apply not_true_iff_false; intros Hok'; apply Hne.
    + by apply (burst_superblock k).
    + apply (burst_checksum 124 k); try done; [lia|by apply control_checked..].
    + apply (burst_checksum 60 k); try done; [lia|by apply descriptor_checked..].
    + apply (burst_checksum 60 k); try done; [lia|by apply commit_checked..].
  - intros Hl Hs n Hok. apply not_true_iff_false. intros Hok'. apply Hne. unfold InodeLen, kInodeChecksumOffset in *.
    apply (burst_checksum 124 k); try done; [lia|by eapply inode_checked..].
  - intros Hl Hs sequence record Hok. unfold LedgerLen, kLedgerChecksumOffset in *. destruct (DecodeRequestLedgerRecord b' sequence) as [|record'|why] eqn:E.
    + pose proof (record_not_empty k b b' sequence record Hd Hb ltac:(lia) Hok) as Hz. unfold DecodeRequestLedgerRecord in E. rewrite Hz in E. by repeat case_match.
    + exfalso. apply Hne, (burst_checksum 92 k); try done; [lia|by eapply record_checked..].
    + by exists why.
Qed.

(** A burst over five bytes of a control block. *)
Lemma burst_corruption_detected_witness :
  is_ok (DecodeControl (splice 40 [240; 1; 2; 3; 15] control0_block)) = false.
Proof.
  refine (proj1 (proj2 (proj1 (burst_corruption_detected 324 control0_block (splice 40 [240; 1; 2; 3; 15] control0_block) _ _ _ _ _) _)) _ _).
  - lia.
  - apply bytes_okb_ok. vm_compute. reflexivity.
  - apply bytes_okb_ok. vm_compute. reflexivity.
  - intros E. apply (f_equal (fun b => nth 41 b 0 =? 1)) in E. revert E. vm_compute. congruence.
  - split; [vm_compute; reflexivity|]. intros i Hi Hor. unfold bit_at. rewrite nth_spliced by (vm_compute; lia).
    change (length [240; 1; 2; 3; 15]) with 5%nat.
    destruct (Nat.leb_spec 40 (Z.to_nat (i / 8))) as [H1|H1]; [|reflexivity]. destruct (Nat.ltb_spec (Z.to_nat (i / 8)) (40 + 5)) as [H2|H2]; [|reflexivity].
    assert (exists j, 0 <= j < 40 /\ i = 320 + j) as (j & Hj & ->) by (exists (i - 320); pose proof (Z.div_mod i 8 ltac:(lia)); pose proof (Z.mod_pos_bound i 8 ltac:(lia)); lia).
    assert (j = 0 \/ j = 1 \/ j = 2 \/ j = 3 \/ j = 36 \/ j = 37 \/ j = 38 \/ j = 39) as Hcases by lia.
    assert (nth 40 control0_block 0 = 0 /\ nth 44 control0_block 0 = 0) as [E1 E2] by (vm_compute; split; reflexivity).
    destruct Hcases as [->|[->|[->|[->|[->|[->|[->| ->]]]]]]];
      match goal with |- context [Z.to_nat ?z] => let n := eval vm_compute in (Z.to_nat z) in change (Z.to_nat z) with n end;
      rewrite ?E1, ?E2; reflexivity.
  - vm_compute. reflexivity.
  - vm_compute. reflexivity.
  - vm_compute. reflexivity.
Defined.

(** * Layout *)
Lemma CeilDivide_spec n d :
  0 <= n -> 0 < d -> n + d < 18446744073709551616 -> (n + d - 1) / d < 4294967296 ->
  CeilDivide n d = (n + d - 1) / d /\ n <= d * CeilDivide n d /\ d * CeilDivide n d < n + d.
Proof.
  intros Hn Hd H64 H32. unfold CeilDivide.
  rewrite (wrap64_small (n + d)), wrap64_small by word.
  assert (0 <= (n + d - 1) / d) by (apply Z.div_pos; lia).
  rewrite wrap32_small by word.
  pose proof (Z.div_mod (n + d - 1) d ltac:(lia)). pose proof (Z.mod_pos_bound (n + d - 1) d Hd). lia.
Qed.

Lemma ceil_bits n : u32 n ->
  n <= 32768 * CeilDivide n (kBlockSize * 8) < n + 32768.
Proof.
  intros Hn. change (kBlockSize * 8) with 32768.
  destruct (CeilDivide_spec n 32768) as (_ & ? & ?); try word.
  apply Z.div_lt_upper_bound; word.
Qed.

Lemma ceil_inodes n : u32 n ->
  n * 128 <= 4096 * CeilDivide (wrap64 (n * kInodeRecordSize)) kBlockSize < n * 128 + 4096.
Proof.
  intros Hn. unfold kInodeRecordSize, kBlockSize. rewrite wrap64_small by word.
  destruct (CeilDivide_spec (n * 128) 4096) as (_ & ? & ?); try word.
  apply Z.div_lt_upper_bound; word.
Qed.

(** The regions follow one another and fill the image; the bitmaps and the
    inode table are just large enough. *)
Definition tiled (sb : Superblock) : Prop :=
  let fits (r : Region) (per_block n : Z) :=
    n <= per_block * block_count r < n + per_block in
  start_block (inode_bitmap sb) = 1 /\
  start_block (block_bitmap sb) = start_block (inode_bitmap sb) + block_count (inode_bitmap sb) /\
  start_block (inode_table sb) = start_block (block_bitmap sb) + block_count (block_bitmap sb) /\
  start_block (journal sb) = start_block (inode_table sb) + block_count (inode_table sb) /\
  start_block (data sb) = start_block (journal sb) + block_count (journal sb) /\
  start_block (data sb) + block_count (data sb) = total_blocks sb /\
  1 <= block_count (data sb) /\ 5 <= block_count (journal sb) /\
  fits (inode_bitmap sb) 32768 (total_inodes sb) /\
  fits (block_bitmap sb) 32768 (total_blocks sb) /\
  fits (inode_table sb) 32 (total_inodes sb).

Lemma validated_tiled sb :
  superblock_typed sb -> ValidateSuperblock sb = Ok tt -> tiled sb.
Proof.
  intros Hty Hv. destruct Hty as (H1 & H2 & _ & _ & _ & _ & [_ Hj] & [_ Hdc] & _).
  unfold ValidateSuperblock in Hv. guards Hv. unfold RegionEndsAt in *. bool_to_prop.
  unfold kMinimumJournalBlocks in *.
  change (kJournalControlBlockCount + kMinimumJournalRingBlocks) with 5 in *.
  pose proof (ceil_bits _ H1) as Cb. pose proof (ceil_bits _ H2) as Ci.
  pose proof (ceil_inodes _ H2) as Ct. unfold tiled. cbv zeta.
  set (ib := CeilDivide (total_inodes sb) _) in *. set (bb := CeilDivide (total_blocks sb) _) in *.
  set (it := CeilDivide (wrap64 _) _) in *.
  assert (wrap32 (start_block (inode_bitmap sb) + block_count (inode_bitmap sb)) = 1 + ib) as E1.
  { rewrite wrap32_small by word. lia. }
  assert (wrap32 (start_block (block_bitmap sb) + block_count (block_bitmap sb)) = 1 + ib + bb) as E2.
  { rewrite wrap32_small by word. lia. }
  conj_split; try lia; word.
Qed.

(** Layout. For 32-bit arguments, a layout that is built has the requested
    block, inode and journal counts, its regions are adjacent and fill the
    image, the bitmaps and the inode table are exactly large enough, and it
    encodes to a block that decodes to it. *)
Theorem built_layout blocks inodes journal_blocks sb :
  u32 blocks -> u32 inodes -> u32 journal_blocks ->
  BuildSuperblockLayout blocks inodes journal_blocks = Ok sb ->
  total_blocks sb = blocks /\ total_inodes sb = inodes /\ block_count (journal sb) = journal_blocks /\
  tiled sb /\ exists b, EncodeSuperblock sb = Ok b /\ DecodeSuperblock b = Ok sb.
Proof.
  intros Hb Hi Hj H. unfold BuildSuperblockLayout in H. cbv zeta in H. guards H. ok_inv H.
  match goal with Hm : ValidateSuperblock ?s = _ |- _ => set (sb := s) in * end.
  assert (superblock_typed sb) as Hty.
  { unfold superblock_typed, region_typed, sb. cbn -[u32 u64 wrap32 CeilDivide zeros].
    conj_split; try done; try apply wrap32_u32; try word. by apply bytes_okb_ok. }
  assert (ValidateSuperblock sb = Ok tt) as Hv by (by destruct a).
  conj_split; try done; [by apply validated_tiled|].
  destruct (EncodeSuperblock sb) as [b|er] eqn:E.
  - exists b. split; [done|]. by apply SuperblockCodec.superblock_decode_encode.
  - unfold EncodeSuperblock in E. by rewrite Hv in E.
Qed.

Lemma built_layout_witness :
  total_blocks sb0 = 24 /\ total_inodes sb0 = 16 /\ block_count (journal sb0) = 8 /\ tiled sb0 /\
  exists b, EncodeSuperblock sb0 = Ok b /\ DecodeSuperblock b = Ok sb0.
Proof.
  apply (built_layout 24 16 8 sb0); [unfold u32; lia..|]. vm_compute. reflexivity.
Defined.

(** * Generations and selection *)
(** The generation order on 64-bit counters. A counter that is ahead by
    less than half the range wins across the wrap-around, swapping the
    arguments swaps the verdict, and only exact half-range distance is
    ambiguous. *)
Theorem generation_order a b k :
  u64 a -> u64 b -> 0 < k < 9223372036854775808 ->
  CompareGenerations (wrap64 (a + k)) a = kFirstNewer /\
  CompareGenerations a (wrap64 (a + k)) = kSecondNewer /\
  (CompareGenerations a b = kEqual <-> a = b) /\
  (CompareGenerations a b = kAmbiguous <-> b = wrap64 (a + 9223372036854775808)) /\
  (CompareGenerations b a = kFirstNewer <-> CompareGenerations a b = kSecondNewer).
Proof.
  intros Ha Hb Hk. conj_split.
  - by apply compare_ahead.
  - rewrite compare_swap by (done || apply wrap64_u64). by rewrite compare_ahead.
  - unfold CompareGenerations. rewrite half_range. destruct (Z.eqb_spec a b); [by subst|].
    split; [|done]. by repeat case_match.
  - unfold CompareGenerations. rewrite half_range. destruct (Z.eqb_spec a b) as [->|Hne].
    + split; [done|]. unfold wrap64, u64 in *. intros E. exfalso.
      destruct (Z_lt_le_dec (b + 9223372036854775808) 18446744073709551616).
      * rewrite Z.mod_small in E; lia.
      * rewrite <- (Z.mod_add _ (-1)), Z.mod_small in E; lia.
    + assert (wrap64 (a - b) = 9223372036854775808 <-> b = wrap64 (a + 9223372036854775808)) as Hiff.
      { rewrite wrap64_sub_cases by done. unfold wrap64, u64 in *.
        destruct (Z_lt_le_dec (a + 9223372036854775808) 18446744073709551616).
        - rewrite (Z.mod_small (a + _)) by lia. destruct (Z.leb_spec b a); lia.
        - rewrite <- (Z.mod_add (a + _) (-1)), (Z.mod_small (a + _ + _)) by lia.
          destruct (Z.leb_spec b a); lia. }
      rewrite <- Hiff. destruct (Z.eqb_spec (wrap64 (a - b)) 9223372036854775808); [done|].
      split; [|done]. by case_match.
  - rewrite compare_swap by done. by destruct (CompareGenerations a b).
Qed.

Lemma generation_order_witness :
  CompareGenerations (wrap64 (18446744073709551615 + 1)) 18446744073709551615 = kFirstNewer.
Proof.
  refine (proj1 (generation_order 18446744073709551615 0 1 _ _ _)); unfold u64; lia.
Defined.

(** A/B selection. While a control is current, overwriting the other copy
    with a block that does not decode keeps it selected, and overwriting it
    with the next generation switches to that one; nothing else is needed to
    publish or to survive a torn publication. *)
Theorem selection_publishes blocks uuid n v c b v' torn :
  select blocks uuid n = Ok (v, c) -> u64 (jc_generation v) ->
  is_ok (DecodeControl torn) = false ->
  DecodeControl b = Ok v' -> jc_filesystem_uuid v' = uuid -> ring_blocks v' = n ->
  jc_generation v' = wrap64 (jc_generation v + 1) ->
  select (set_copy blocks (other c) torn) uuid n = Ok (v, c) /\
  select (set_copy blocks (other c) b) uuid n = Ok (v', other c).
Proof.
  intros Hs Hu Ht Hb Hu' Hn Hg. split; [by apply select_other_invalid|].
  eapply select_successor; try done. unfold matches. by rewrite Hu', Hn, bool_decide_eq_true_2, Z.eqb_refl.
Qed.

Definition control1 : JournalControl := mkControl 6 (zeros 16) 1 0 0 0 0 1 0 0 0 0.
Definition control1_block : bytes := fst (from_ok ([], 0) (EncodeControl control1)).

Lemma selection_publishes_witness :
  let blocks (_ : ControlCopy) := control0_block in
  select (set_copy blocks kB zero_block) (zeros 16) 6 = Ok (current0, kA) /\
  select (set_copy blocks kB control1_block) (zeros 16) 6 =
    Ok (with_checksum control1 (snd (from_ok ([], 0) (EncodeControl control1))), kB).
Proof.
  intros blocks. apply (selection_publishes blocks (zeros 16) 6 current0 kA); vm_compute; try reflexivity.
  split; congruence.
Defined.

(** * Ring reservation *)
(** The ring positions a control declares in use, from the tail on. *)
Definition exposed_positions (c : JournalControl) : list Z :=
  map (fun i => (tail c + Z.of_nat i) mod ring_blocks c) (seq 0 (Z.to_nat (used_blocks c))).

(** C39. A reservation for [n] payload blocks takes the [n + 2] ring positions from
    the head on, one after the other and around the end of the ring: the descriptor,
    the payload in its order, the COMMIT. They are distinct positions of the ring, the
    control it exposes declares exactly them as in use, and the new head comes right
    after them. *)
Theorem reservation_positions current n plan :
  control_typed current -> PlanRingReservation current n = Ok plan ->
  let positions := descriptor_ring_index plan :: payload_ring_indices plan ++ [commit_ring_index plan] in
  positions = map (fun i => (head current + Z.of_nat i) mod ring_blocks current) (seq 0 (n + 2)) /\
  exposed_positions (exposed_control plan) = positions /\ NoDup positions /\
  Forall (fun i => 0 <= i < ring_blocks current) positions /\
  descriptor_ring_index plan = head current /\
  head (exposed_control plan) = (commit_ring_index plan + 1) mod ring_blocks current /\
  tail (exposed_control plan) = head current /\
  used_blocks (exposed_control plan) = Z.of_nat (n + 2) /\
  next_transaction_id (exposed_control plan) = rr_transaction_id plan + 1.
Proof.
  intros Hty Hp. destruct (plan_inv current Hty n plan Hp) as
    (Hv & Hu & Hn & Hfit & Hmax & Hid & Hd & Hpay & Hc & He & _).
  apply validate_control_spec in Hv as (Hring & Hhd & Htl & _ & _ & Hnz & Hht & _).
  destruct Hty as (Hr & _ & _ & Hh & Ht & _ & _ & Hx & _). unfold kMinimumJournalRingBlocks in Hring.
  assert (descriptor_ring_index plan :: payload_ring_indices plan ++ [commit_ring_index plan] =
          map (ring_position current) (seq 0 (n + 2))) as Epos.
  { rewrite Hd, Hpay, Hc. replace (n + 2)%nat with (S (n + 1)) by lia. cbn [seq map]. f_equal.
    rewrite seq_app, map_app. cbn [seq map]. do 3 f_equal. lia. }
  assert (wrap32 (Z.of_nat n + 2) = Z.of_nat (n + 2)) as Hused by (rewrite wrap32_small by word; lia).
  assert (tail current = head current) as Htail by (rewrite Hht, Hu, Z.add_0_r; symmetry; apply Z.mod_small; word).
  cbv zeta. rewrite Epos, He, Hid. unfold exposed_positions, expose, uint64_max in *. cbn [head tail used_blocks ring_blocks next_transaction_id].
  conj_split.
  - reflexivity.
  - rewrite Hused, Nat2Z.id, Htail. reflexivity.
  - apply NoDup_fmap_2_strong; [|apply NoDup_seq].
    intros i j Hi%elem_of_seq Hj%elem_of_seq E. apply ring_position_inj in E; lia.
  - apply Forall_forall. intros x Hx'%list_elem_of_In%in_map_iff. destruct Hx' as (i & <- & _).
    apply ring_position_bound. lia.
  - rewrite Hd. unfold ring_position. rewrite Z.add_0_r. apply Z.mod_small. word.
  - rewrite Hc, Advance_mod by word. unfold ring_position. rewrite Zplus_mod_idemp_l. f_equal. lia.
  - exact Htail.
  - exact Hused.
  - apply wrap64_small. word.
Qed.

Lemma reservation_positions_witness :
  exists plan, PlanRingReservation current0 1 = Ok plan /\
    descriptor_ring_index plan :: payload_ring_indices plan ++ [commit_ring_index plan] = [0; 1; 2].
Proof.
  destruct (PlanRingReservation current0 1) as [plan|] eqn:E; [|vm_compute in E; discriminate E].
  exists plan. split; [reflexivity|]. refine (proj1 (reservation_positions current0 1 plan _ E)).
  vm_compute. repeat split; try congruence. repeat constructor; congruence.
Defined.

(** Reservation errors. Exactly one diagnosis per situation, and a
    reservation succeeds exactly if the control is valid and idle, the payload
    count is between 1 and 252, the ring is large enough and the transaction
    identifiers are not used up. *)
Theorem reservation_errors current n :
  control_typed current -> ValidateControlFields current = Ok tt ->
  PlanRingReservation current n =
    if negb (used_blocks current =? 0) then Err EBUSY
    else if (n =? 0)%nat then Err EINVAL
    else if (252 <? n)%nat then Err E2BIG
    else if ring_blocks current <? Z.of_nat n + 2 then Err ENOSPC
    else if next_transaction_id current =? uint64_max then Err EOVERFLOW
    else Ok (mkReservation (next_transaction_id current) (head current)
               (map (ring_position current) (seq 1 n)) (ring_position current (n + 1))
               (expose current (Z.of_nat n + 2))).
Proof.
  intros Hty Hv. destruct (negb (used_blocks current =? 0)) eqn:E1.
  { unfold PlanRingReservation. destruct (EncodeControl current) eqn:Ec; [by rewrite E1|].
    pose proof (proj2 (encode_control_ok current) Hv) as E. by rewrite Ec in E. }
  pose proof Hty as (_ & _ & _ & _ & _ & _ & _ & Hx & _).
  apply negb_false_iff, Z.eqb_eq in E1.
  destruct (PlanRingReservation current n) as [plan|er] eqn:Hp.
  - destruct (plan_inv current Hty n plan Hp) as (_ & _ & Hn & Hfit & Hmax & Hid & Hd & Hpay & Hc & He & _).
    rewrite (proj2 (Nat.eqb_neq _ _)), (proj2 (Nat.ltb_ge _ _)), (proj2 (Z.ltb_ge _ _)),
      (proj2 (Z.eqb_neq _ _)) by lia.
    f_equal. destruct plan as [i1 i2 i3 i4 i5]. cbn in *. subst. f_equal.
    unfold ring_position. rewrite Z.add_0_r.
    apply validate_control_spec in Hv as (_ & Hhd & _). destruct Hty as (Hr & _ & _ & Hh & _).
    apply Z.mod_small. word.
  - pose proof Hp as Hp0. unfold PlanRingReservation in Hp.
    destruct (EncodeControl current) eqn:Ec;
      [|pose proof (proj2 (encode_control_ok current) Hv) as E; by rewrite Ec in E].
    rewrite E1 in Hp. change kMaxDescriptorEntries with 252 in Hp. cbn [Z.eqb negb] in Hp.
    destruct (Nat.eqb_spec n 0) as [->|Hn0]; [by injection Hp as <-|].
    rewrite (proj2 (Z.eqb_neq _ _)) in Hp by lia.
    destruct (Nat.ltb_spec 252 n); [rewrite (proj2 (Z.ltb_lt _ _)) in Hp by lia; by injection Hp as <-|].
    rewrite (proj2 (Z.ltb_ge _ _)) in Hp by lia.
    destruct (_ <? _) eqn:E2; [by injection Hp as <-|].
    destruct (_ =? uint64_max) eqn:E3; [by injection Hp as <-|].
    apply Z.ltb_ge in E2. apply Z.eqb_neq in E3.
    pose proof (plan_complete current Hty n Hv E1 ltac:(lia) E2) as Hok.
    rewrite Hp0 in Hok. discriminate Hok. unfold uint64_max in *. word.
Qed.

Lemma reservation_errors_witness :
  PlanRingReservation current0 5 = Err ENOSPC /\ PlanRingReservation current0 0 = Err EINVAL /\
  PlanRingReservation current0 300 = Err E2BIG.
Proof.
  assert (control_typed current0) as Ht
    by (vm_compute; repeat split; try congruence; repeat constructor; congruence).
  assert (ValidateControlFields current0 = Ok tt) as Hv by reflexivity.
  conj_split; rewrite (reservation_errors current0 _ Ht Hv); reflexivity.
Defined.
