(* ===== verification/RequestFingerprint.v ===== *)
(** Request fingerprints (src/object/request_fingerprint.cpp): the canonical
    encoding of a mutation's identity and its digest. The digest itself
    ([EVP_Digest] with SHA-256) is OpenSSL code, a parameter here. *)
From S2P Require Import Prelude Codec OndiskFormat RequestLedger.
Open Scope Z_scope.

Record MutationIdentityInput := mkIdentity {
  m_operation : MutationOperation;
  m_key : bytes;
  m_payload_size : Z;
  m_payload_sha256 : bytes;
  m_timestamp_ns : Z;
  m_expected_inode : Z;
  m_expected_generation : Z
}.

(** The ranges of the member types. *)
Definition identity_typed (i : MutationIdentityInput) : Prop :=
  u64 (m_payload_size i) /\ length (m_payload_sha256 i) = 32%nat /\ u64 (m_timestamp_ns i) /\
  u32 (m_expected_inode i) /\ u64 (m_expected_generation i).

Definition kFingerprintFormatVersion : Z := 2.

Definition is_create (i : MutationIdentityInput) : bool :=
  bool_decide (m_operation i = kCreateIfAbsent).
Definition is_replace (i : MutationIdentityInput) : bool :=
  bool_decide (m_operation i = kReplaceIfVersion).

(** The bytes appended to [canonical], in order. *)
Definition canonical (i : MutationIdentityInput) : bytes :=
  [kFingerprintFormatVersion; operation_code (m_operation i)] ++
  le_bytes 2 (Z.of_nat (length (m_key i))) ++ m_key i ++
  le_bytes 8 (m_payload_size i) ++ m_payload_sha256 i ++
  le_bytes 8 (m_timestamp_ns i) ++ [if is_create i then 1 else 2] ++
  le_bytes 4 (m_expected_inode i) ++ le_bytes 8 (m_expected_generation i).

Section fingerprint.
(** [EVP_Digest] with [EVP_sha256]: [None] when it reports failure. *)
Context (EVP_Digest : bytes -> option bytes).

Definition BuildRequestFingerprint (input : MutationIdentityInput) : result errno bytes :=
  let n := Z.of_nat (length (m_key input)) in
  if (n =? 0) || (kMaxNameLength <? n) || (65535 <? n) || (kMaxFileSize <? m_payload_size input)
  then Err EINVAL
  else if (negb (is_create input) && negb (is_replace input)) ||
          (is_create input && (negb (m_expected_inode input =? 0) ||
                               negb (m_expected_generation input =? 0))) ||
          (is_replace input && ((m_expected_inode input =? 0) ||
                                (m_expected_generation input =? 0)))
  then Err EINVAL
  else match EVP_Digest (canonical input) with
       | None => Err EIO
       | Some d => if (length d =? 32)%nat then Ok d else Err EIO
       end.

(** What an accepted request satisfies. *)
Definition identity_accepted (i : MutationIdentityInput) : Prop :=
  (1 <= length (m_key i) <= 255)%nat /\ m_payload_size i <= kMaxFileSize /\
  ((m_operation i = kCreateIfAbsent /\ m_expected_inode i = 0 /\ m_expected_generation i = 0) \/
   (m_operation i = kReplaceIfVersion /\ m_expected_inode i <> 0 /\ m_expected_generation i <> 0)).

Lemma build_accepts i f : BuildRequestFingerprint i = Ok f -> identity_accepted i.
Proof.
  unfold BuildRequestFingerprint, identity_accepted, is_create, is_replace, kMaxNameLength.
  destruct (_ || _ || _ || _) eqn:E1; [done|]. apply orb_false_iff in E1 as [E1 E4].
  apply orb_false_iff in E1 as [E1 E3]. apply orb_false_iff in E1 as [E1 E2].
  apply Z.eqb_neq in E1. apply Z.ltb_ge in E2, E3, E4.
  destruct (m_operation i) eqn:Eo; cbn [bool_decide]; try done;
    repeat case_bool_decide; try done; cbn [negb andb orb];
    destruct (Z.eqb_spec (m_expected_inode i) 0), (Z.eqb_spec (m_expected_generation i) 0);
    cbn [negb orb andb]; try done; intros _; split; [lia|split; [done|]| lia|split; [done|]];
    [left|right]; done.
Qed.

Lemma build_digest i f : BuildRequestFingerprint i = Ok f -> EVP_Digest (canonical i) = Some f.
Proof.
  unfold BuildRequestFingerprint. destruct (_ || _ || _ || _); [done|]. destruct (_ || _); [done|].
  destruct (EVP_Digest _) as [d|]; [|done]. destruct (_ =? _)%nat; [|done]. by intros [= ->].
Qed.
End fingerprint.

Lemma le_bytes_inj n v w : 0 <= v < 2 ^ (8 * Z.of_nat n) -> 0 <= w < 2 ^ (8 * Z.of_nat n) ->
  le_bytes n v = le_bytes n w -> v = w.
Proof.
  intros Hv Hw H. apply (f_equal (get_le n)) in H. rewrite !get_le_bytes in H.
  by rewrite !Z.mod_small in H.
Qed.

(** Two fields of the same width at the front of equal strings. *)
Lemma peel_le n v w (r s : bytes) : 0 <= v < 2 ^ (8 * Z.of_nat n) -> 0 <= w < 2 ^ (8 * Z.of_nat n) ->
  le_bytes n v ++ r = le_bytes n w ++ s -> v = w /\ r = s.
Proof.
  intros Hv Hw H. apply app_inj_1 in H as [H ->]; [|by rewrite !length_le_bytes].
  split; [|done]. by eapply le_bytes_inj.
Qed.

Lemma operation_code_inj i j EVP f g :
  BuildRequestFingerprint EVP i = Ok f -> BuildRequestFingerprint EVP j = Ok g ->
  operation_code (m_operation i) = operation_code (m_operation j) -> m_operation i = m_operation j.
Proof.
  intros Hi%build_accepts Hj%build_accepts. destruct Hi as (_ & _ & [(-> & _)|(-> & _)]);
    destruct Hj as (_ & _ & [(-> & _)|(-> & _)]); done.
Qed.

(** The canonical encoding is injective on typed identities with keys of at
    most 255 bytes: every variable-length part is preceded by its length. *)
Lemma canonical_inj i j :
  identity_typed i -> identity_typed j ->
  (length (m_key i) <= 255)%nat -> (length (m_key j) <= 255)%nat ->
  canonical i = canonical j ->
  operation_code (m_operation i) = operation_code (m_operation j) /\
  m_key i = m_key j /\ m_payload_size i = m_payload_size j /\
  m_payload_sha256 i = m_payload_sha256 j /\ m_timestamp_ns i = m_timestamp_ns j /\
  m_expected_inode i = m_expected_inode j /\ m_expected_generation i = m_expected_generation j.
Proof.
  intros (Hs & Hl & Ht & Hi & Hg) (Hs' & Hl' & Ht' & Hi' & Hg') Hk Hk' H.
  apply app_inj_1 in H as [Ho H]; [|done]. injection Ho as Ho.
  apply peel_le in H as [Hn H]; [|cbn; lia..]. apply app_inj_1 in H as [Hkey H]; [|lia].
  apply peel_le in H as [Hsz H]; [|done..]. apply app_inj_1 in H as [Hsha H]; [|lia].
  apply peel_le in H as [Hts H]; [|done..]. apply app_inj_1 in H as [_ H]; [|done].
  apply peel_le in H as [Hin H]; [|done..]. apply le_bytes_inj in H; done.
Qed.

(** A fingerprint identifies the request: two requests that
    [BuildRequestFingerprint] accepts with the same fingerprint are the same
    request in every field that matters (operation, key, payload size and
    digest, timestamp, expected version), unless the underlying SHA-256 maps
    two distinct canonical encodings to one digest. Accepted requests have a
    non-empty key of at most 255 bytes, a payload within the file-size limit,
    and an expected version exactly when they replace. *)
Theorem fingerprint_identifies (EVP_Digest : bytes -> option bytes) (i j : MutationIdentityInput) f :
  identity_typed i -> identity_typed j ->
  BuildRequestFingerprint EVP_Digest i = Ok f -> BuildRequestFingerprint EVP_Digest j = Ok f ->
  identity_accepted i /\
  (i = j \/ (canonical i <> canonical j /\ EVP_Digest (canonical i) = EVP_Digest (canonical j))).
Proof.
  intros Hi Hj Ei Ej. pose proof (build_accepts _ _ _ Ei) as Ha. pose proof (build_accepts _ _ _ Ej) as Hb.
  split; [done|]. destruct (decide (canonical i = canonical j)) as [H|H].
  - left. destruct (canonical_inj i j Hi Hj (proj2 (proj1 Ha)) (proj2 (proj1 Hb)) H)
      as (Ho & H2 & H3 & H4 & H5 & H6 & H7).
    apply (operation_code_inj i j _ _ _ Ei Ej) in Ho. destruct i, j. cbn in *. by subst.
  - right. split; [done|]. by rewrite (build_digest _ _ _ Ei), (build_digest _ _ _ Ej).
Qed.

(** A digest of the right size that keeps the last 32 bytes. *)
Definition tail_digest (b : bytes) : option bytes := Some (drop (length b - 32) b).

Lemma fingerprint_identifies_witness :
  let i := mkIdentity kReplaceIfVersion [97; 98] 5 (replicate 32 7) 9 3 1 in
  identity_accepted i /\ (i = i \/ (canonical i <> canonical i /\
    tail_digest (canonical i) = tail_digest (canonical i))).
Proof.
  set (i := mkIdentity _ _ _ _ _ _ _).
  refine (fingerprint_identifies tail_digest i i (drop (length (canonical i) - 32) (canonical i)) _ _ _ _).
  1,2: unfold identity_typed, i; cbn; conj_split; first [reflexivity|word].
  all: reflexivity.
Defined.
