(* ===== verification/ImageReader.v ===== *)
(** The image reader (src/storage/image_reader.h/.cpp): a validated, read-only
    view of an image that maps inodes to blocks, lists directories, resolves
    paths and reads files. Reads go through the system-call scripts of [Disk];
    the reader's own state never changes after it is opened. *)
From S2P Require Import Prelude Codec OndiskFormat OndiskJournal Disk BitmapAllocator.
Open Scope Z_scope.

(** What is computed when the image is opened; the descriptor is the [env]. *)
Record ImageReader := mkReader {
  image_size_ : Z;
  rd_superblock : Superblock;
  rd_journal_control : JournalControl;
  rd_journal_control_copy : ControlCopy;
  inode_bitmap_ : bytes;
  block_bitmap_ : bytes
}.

(** * Byte ranges of the image *)
Fixpoint blocks_from (d : image) (first : Z) (count : nat) : option bytes :=
  match count with
  | O => Some []
  | S count =>
    match d !! first, blocks_from d (first + 1) count with
    | Some b, Some rest => Some (b ++ rest)
    | _, _ => None
    end
  end.

Definition read_range (d : image) (offset size : Z) : option bytes :=
  let inside := offset mod kBlockSize in
  let count := (inside + size + kBlockSize - 1) / kBlockSize in
  match blocks_from d (offset / kBlockSize) (Z.to_nat count) with
  | Some b => Some (slice (Z.to_nat inside) (Z.to_nat size) b)
  | None => None
  end.

(** The read loop over a range; past the end of the file [pread] returns 0,
    which is reported as EIO. The region reads of [AdoptLockedFd] and the
    member [ReadExact] contain the same loop. *)
Definition ReadExactAt (offset size : Z) : io bytes := fun e =>
  let '(rest, r) := pread_loop size 0 (responses e) in
  match r with
  | Err er => (set_responses e rest, Err er)
  | Ok _ =>
    match read_range (disk e) offset size with
    | Some b => (set_responses e rest, Ok b)
    | None => (set_responses e rest, Err EIO)
    end
  end.

Definition IsDirectoryType (type : DirectoryFileType) (mode : Z) : bool :=
  match type with
  | kRegular => S_ISREG mode
  | kDirectory => S_ISDIR mode
  | _ => false
  end.

(** * Queries on an open reader *)
Section reader.
Context (r : ImageReader).
Abbreviation sb := (rd_superblock r).

Definition IsInodeAllocated (inode_number : Z) : bool :=
  (1 <=? inode_number) && (inode_number <=? total_inodes sb) &&
  TestBit (inode_bitmap_ r) (inode_number - 1).

Definition IsBlockAllocated (block_number : Z) : bool :=
  (block_number <? total_blocks sb) && TestBit (block_bitmap_ r) block_number.

Definition ReadExact (offset size : Z) : io bytes :=
  if (image_size_ r <? offset) || (image_size_ r - offset <? size) then io_fail EUCLEAN
  else ReadExactAt offset size.

Definition ReadBlock (block_number : Z) : io bytes :=
  if total_blocks sb <=? block_number then io_fail EINVAL
  else ReadExact (block_number * kBlockSize) kBlockSize.

Definition ValidateAllocatedDataBlock (block_number : Z) : io unit :=
  if (block_number <? start_block (data sb)) || (total_blocks sb <=? block_number) ||
     negb (IsBlockAllocated block_number)
  then io_fail EUCLEAN else io_ret tt.

Definition kIndirectEntries : Z := kBlockSize / 4.

Definition MapLogicalBlock (inode : InodeRecord) (logical_block : Z) : io Z :=
  io_bind
    (if logical_block <? kDirectBlockCount
     then io_ret (nth (Z.to_nat logical_block) (direct_blocks inode) 0)
     else
       let indirect_index := logical_block - kDirectBlockCount in
       if (kIndirectEntries <=? indirect_index) || (indirect_block inode =? 0)
       then io_fail EUCLEAN
       else
         io_bind (ValidateAllocatedDataBlock (indirect_block inode)) (fun _ =>
         io_bind (ReadExact (indirect_block inode * kBlockSize) kBlockSize) (fun indirect =>
         io_ret (GetLe32 indirect (Z.to_nat indirect_index * 4)))))
    (fun physical_block =>
       if physical_block =? 0 then io_fail EUCLEAN
       else io_bind (ValidateAllocatedDataBlock physical_block) (fun _ => io_ret physical_block)).

(** The loops of [ReadInode] over the direct and the indirect pointers: those
    below [required] must be allocated, the others zero. *)
Fixpoint check_pointers (required : Z) (index : Z) (pointers : list Z) : io unit :=
  match pointers with
  | [] => io_ret tt
  | p :: rest =>
    io_bind
      (if index <? required
       then if p =? 0 then io_fail EUCLEAN else ValidateAllocatedDataBlock p
       else if negb (p =? 0) then io_fail EUCLEAN else io_ret tt)
      (fun _ => check_pointers required (index + 1) rest)
  end.

Definition required_blocks (inode : InodeRecord) : Z :=
  wrap32 (wrap64 (i_size inode + kBlockSize - 1) / kBlockSize).

Definition ReadInode (inode_number : Z) : io InodeRecord :=
  if (inode_number =? 0) || (total_inodes sb <? inode_number) then io_fail EINVAL
  else if negb (IsInodeAllocated inode_number) then io_fail ENOENT
  else
  let index := inode_number - 1 in
  let offset := start_block (inode_table sb) * kBlockSize + index * kInodeRecordSize in
  io_bind (ReadExact offset kInodeRecordSize) (fun bytes =>
  match DecodeInode bytes inode_number with
  | Err _ => io_fail EUCLEAN
  | Ok output =>
    let required := required_blocks output in
    if S_ISDIR (mode output) && negb (i_size output mod kBlockSize =? 0) then io_fail EUCLEAN
    else
    io_bind (check_pointers (Z.min required kDirectBlockCount) 0 (direct_blocks output)) (fun _ =>
    if required <=? kDirectBlockCount
    then if negb (indirect_block output =? 0) then io_fail EUCLEAN else io_ret output
    else if indirect_block output =? 0 then io_fail EUCLEAN
    else
      io_bind (ValidateAllocatedDataBlock (indirect_block output)) (fun _ =>
      io_bind (ReadExact (indirect_block output * kBlockSize) kBlockSize) (fun indirect =>
      io_bind (check_pointers (required - kDirectBlockCount) 0
                 (get_words indirect 0 (Z.to_nat kIndirectEntries))) (fun _ =>
      io_ret output))))
  end).

(** * Directories *)
Definition listing : Type := gset bytes * list DirectoryEntry.

(** The [while] loop over the records of one block; [rest] is what the offset
    has not passed yet. Every record advances it, so [length rest] steps are
    enough (see [scan_records_fuel]). *)
Fixpoint scan_records (fuel : nat) (rest : bytes) (acc : listing) : io listing :=
  match fuel with
  | O => io_fail (EOTHER 0)
  | S fuel =>
    if (length rest =? 0)%nat then io_ret acc
    else match DecodeDirectoryEntry rest with
    | Err _ => io_fail EUCLEAN
    | Ok entry =>
      if record_length entry =? 0 then io_fail EUCLEAN
      else
      let rest := drop (Z.to_nat (record_length entry)) rest in
      if de_inode entry =? 0 then scan_records fuel rest acc
      else if bool_decide (name entry ∈ fst acc) then io_fail EUCLEAN
      else
      io_bind (fun e => match ReadInode (de_inode entry) e with
                        | (e, Err ENOENT) => (e, Err EUCLEAN)
                        | x => x
                        end) (fun child =>
      if negb (IsDirectoryType (file_type entry) (mode child)) then io_fail EUCLEAN
      else scan_records fuel rest ({[name entry]} ∪ fst acc, snd acc ++ [entry]))
    end
  end.

Fixpoint scan_directory (directory : InodeRecord) (logicals : list Z) (acc : listing)
    : io listing :=
  match logicals with
  | [] => io_ret acc
  | logical :: rest =>
    io_bind (MapLogicalBlock directory logical) (fun physical =>
    io_bind (ReadExact (physical * kBlockSize) kBlockSize) (fun block =>
    io_bind (scan_records (S (length block)) block acc) (fun acc =>
    scan_directory directory rest acc)))
  end.

(** [0, 1, ..., n - 1] *)
Definition counting (n : Z) : list Z := map Z.of_nat (seq 0 (Z.to_nat n)).

Definition ListDirectory (inode_number : Z) : io (list DirectoryEntry) :=
  io_bind (ReadInode inode_number) (fun directory =>
  if negb (S_ISDIR (mode directory)) then io_fail ENOTDIR
  else
  let block_count := wrap32 (i_size directory / kBlockSize) in
  io_bind (scan_directory directory (counting block_count) (∅, [])) (fun acc =>
  io_ret (snd acc))).

(** * Paths *)
Definition slash : Z := 47.
Definition dot : Z := 46.

(** The components between slashes. *)
Fixpoint split_path (path : bytes) : list bytes :=
  match path with
  | [] => [[]]
  | c :: rest =>
    if c =? slash then [] :: split_path rest
    else match split_path rest with
         | [] => [[c]]
         | first :: more => (c :: first) :: more
         end
  end.

Fixpoint resolve_components (current : Z) (components : list bytes) : io Z :=
  match components with
  | [] => io_ret current
  | component :: rest =>
    if bool_decide (component = []) || bool_decide (component = [dot]) ||
       bool_decide (component = [dot; dot])
    then io_fail EINVAL
    else
    io_bind (ListDirectory current) (fun entries =>
    match find (fun entry => bool_decide (name entry = component)) entries with
    | None => io_fail ENOENT
    | Some found => resolve_components (de_inode found) rest
    end)
  end.

Definition ResolvePath (path : bytes) : io (Z * InodeRecord) :=
  match path with
  | [] => io_fail EINVAL
  | c :: rest =>
    if negb (c =? slash) then io_fail EINVAL
    else
    let finish current := io_bind (ReadInode current) (fun inode => io_ret (current, inode)) in
    if bool_decide (rest = []) then finish (root_inode sb)
    else if bool_decide (last rest = Some slash) then io_fail EINVAL
    else io_bind (resolve_components (root_inode sb) (split_path rest)) finish
  end.

(** * File contents *)
(** The [while] loop of [ReadFile]; [total - length output] bytes are left. Every
    round but the last reaches a block boundary, so one round per touched block
    is enough (see [read_rounds_enough]). *)
Fixpoint read_rounds (fuel : nat) (inode : InodeRecord) (offset total : Z) (output : bytes)
    : io bytes :=
  let bytes_read := Z.of_nat (length output) in
  if total <=? bytes_read then io_ret output
  else match fuel with
  | O => io_fail (EOTHER 0)
  | S fuel =>
    let current_offset := offset + bytes_read in
    let logical := wrap32 (current_offset / kBlockSize) in
    let inside := current_offset mod kBlockSize in
    io_bind (MapLogicalBlock inode logical) (fun physical =>
    io_bind (ReadExact (physical * kBlockSize) kBlockSize) (fun block =>
    let chunk := Z.min (total - bytes_read) (kBlockSize - inside) in
    read_rounds fuel inode offset total
      (output ++ slice (Z.to_nat inside) (Z.to_nat chunk) block)))
  end.

Definition ReadFile (inode_number offset requested : Z) : io bytes :=
  io_bind (ReadInode inode_number) (fun inode =>
  if negb (S_ISREG (mode inode)) then io_fail EISDIR
  else if (i_size inode <=? offset) || (requested =? 0) then io_ret []
  else
  let total := Z.min requested (i_size inode - offset) in
  read_rounds (Z.to_nat (total / kBlockSize + 2)) inode offset total []).
End reader.

(** * Opening *)
(** [readable]: the access mode is not write-only. *)
Definition ReaderAdoptLockedFd (readable : bool) : io ImageReader :=
  io_bind Syscall (fun _ =>
  if negb readable then io_fail EACCES
  else io_bind Syscall (fun _ e =>
  let st_size := st_size e in
  (if (st_size <? kBlockSize) || negb (st_size mod kBlockSize =? 0) then io_fail EUCLEAN
  else io_bind (ReadExactAt 0 kBlockSize) (fun superblock_bytes =>
  match DecodeSuperblock superblock_bytes with
  | Err _ => io_fail EUCLEAN
  | Ok superblock =>
    if negb (Z.land (sb_feature_incompat superblock)
               (Z.lnot kSupportedFeatureIncompat) =? 0) then io_fail EOPNOTSUPP
    else
    let expected_size := total_blocks superblock * kBlockSize in
    if negb (expected_size =? st_size) then io_fail EUCLEAN
    else
    let control_a_offset := start_block (journal superblock) * kBlockSize in
    io_bind (ReadExactAt control_a_offset kBlockSize) (fun control_a =>
    io_bind (ReadExactAt (control_a_offset + kBlockSize) kBlockSize) (fun control_b =>
    let expected_ring_blocks :=
      wrap32 (block_count (journal superblock) - kJournalControlBlockCount) in
    match SelectControl control_a control_b (sb_filesystem_uuid superblock)
            expected_ring_blocks with
    | Err _ => io_fail EUCLEAN
    | Ok (journal_control, journal_control_copy) =>
      let read_region region := ReadExactAt (start_block region * kBlockSize)
                                            (block_count region * kBlockSize) in
      io_bind (read_region (OndiskFormat.inode_bitmap superblock)) (fun inode_bitmap =>
      io_bind (read_region (OndiskFormat.block_bitmap superblock)) (fun block_bitmap =>
      if negb (TestBit inode_bitmap (root_inode superblock - 1)) then io_fail EUCLEAN
      else if negb (all_set block_bitmap 0 (Z.to_nat (start_block (data superblock))))
      then io_fail EUCLEAN
      else if negb (all_set inode_bitmap (total_inodes superblock)
                 (Z.to_nat (Z.of_nat (length inode_bitmap) * 8 - total_inodes superblock)))
      then io_fail EUCLEAN
      else if negb (all_set block_bitmap (total_blocks superblock)
                 (Z.to_nat (Z.of_nat (length block_bitmap) * 8 - total_blocks superblock)))
      then io_fail EUCLEAN
      else
      let reader := mkReader expected_size superblock journal_control journal_control_copy
                      inode_bitmap block_bitmap in
      io_bind (fun e => match ReadInode reader (root_inode superblock) e with
                        | (e, Err ENOENT) => (e, Err EUCLEAN)
                        | x => x
                        end) (fun root =>
      if negb (S_ISDIR (mode root)) then io_fail EUCLEAN else io_ret reader)))
    end))
  end)) e)).

(** [open(O_RDONLY)] and a shared lock. *)
Definition ReaderOpen : io ImageReader :=
  io_bind Syscall (fun _ => io_bind Syscall (fun _ => ReaderAdoptLockedFd true)).
