(* ===== verification/ImageReaderProofs.v ===== *)
(** Properties of the image reader: what a successful answer means, that faults
    of the system calls never change an answer, and that validated inodes are
    readable throughout. *)
From S2P Require Import Prelude Codec OndiskFormat OndiskFormatProofs OndiskJournal Disk BitmapAllocator ImageReader.
Open Scope Z_scope.

(** * Reads under system-call faults

    [calm e] is the same image with system calls that succeed at once. A read
    leaves the image alone, and an answer it gives under faults is the answer
    of the undisturbed run. *)
Definition calm (e : env) : env := mkEnv (disk e) (st_size e) [] (trace e).

Class Reading {A} (m : io A) : Prop := reading : forall e size t,
  calm (m e).1 = calm e /\
  (m (mkEnv (disk e) size [] t)).1 = mkEnv (disk e) size [] t /\
  (forall a, (m e).2 = Ok a -> (m (mkEnv (disk e) size [] t)).2 = Ok a).

#[export] Instance reading_ret {A} (a : A) : Reading (io_ret a).
Proof. intros e size t. done. Qed.
#[export] Instance reading_fail {A} er : Reading (io_fail (A:=A) er).
Proof. intros e size t. done. Qed.

Lemma calm_disk e e' : calm e = calm e' -> disk e = disk e'.
Proof. by intros [= ?]. Qed.

#[export] Instance reading_bind {A B} (m : io A) (k : A -> io B) :
  Reading m -> (forall a, Reading (k a)) -> Reading (io_bind m k).
Proof.
  intros Hm Hk e size t. destruct (Hm e size t) as (H1 & H2 & H3). unfold io_bind.
  destruct (m e) as [e1 [a|er]]; destruct (m (mkEnv (disk e) size [] t)) as [e2 [b|er2]];
    cbn [fst snd] in *; subst e2.
  - specialize (H3 a eq_refl). injection H3 as ->. destruct (Hk a e1 size t) as (K1 & K2 & K3).
    rewrite H1 in K1. rewrite (calm_disk _ _ H1) in K2, K3. done.
  - by specialize (H3 a eq_refl).
  - destruct (Hk b e size t) as (_ & K2 & _). conj_split; done.
  - done.
Qed.

#[export] Instance reading_if {A} (b : bool) (m n : io A) :
  Reading m -> Reading n -> Reading (if b then m else n).
Proof. by destruct b. Qed.

#[export] Instance reading_result {E A B} (x : result E A) (k : A -> io B) (h : E -> io B) :
  (forall a, Reading (k a)) -> (forall er, Reading (h er)) ->
  Reading (match x with Ok a => k a | Err er => h er end).
Proof. by destruct x. Qed.

#[export] Instance reading_option {A B} (x : option A) (k : A -> io B) (h : io B) :
  (forall a, Reading (k a)) -> Reading h -> Reading (match x with Some a => k a | None => h end).
Proof. by destruct x. Qed.

Lemma pread_calm size : pread_loop size 0 [] = ([], Ok tt).
Proof. cbn. by destruct (size <=? 0). Qed.

#[export] Instance reading_exact_at offset size : Reading (ReadExactAt offset size).
Proof.
  intros e s t. unfold ReadExactAt. cbn [responses disk]. rewrite pread_calm.
  destruct (pread_loop size 0 (responses e)) as [rest [[]|er]]; destruct (read_range _ _ _); done.
Qed.

#[export] Instance reading_syscall : Reading Syscall.
Proof. intros e s t. unfold Syscall. by destruct (responses e) as [|[] ?]. Qed.

(** Reporting a missing inode as corruption. *)
#[export] Instance reading_remap {A} (m : io A) : Reading m ->
  Reading (fun e => match m e with (e, Err ENOENT) => (e, Err EUCLEAN) | x => x end).
Proof.
  intros Hm e s t. destruct (Hm e s t) as (H1 & H2 & H3).
  destruct (m e) as [e1 [a|er]]; destruct (m (mkEnv (disk e) s [] t)) as [e2 [b|er2]];
    cbn [fst snd] in *; subst;
    try (destruct er); try (destruct er2); conj_split; try done; intros a'; try done; intros E;
    by specialize (H3 _ E).
Qed.

Section reader.
Context (r : ImageReader).

#[export] Instance reading_exact offset size : Reading (ReadExact r offset size).
Proof. unfold ReadExact. apply _. Qed.
#[export] Instance reading_block n : Reading (ReadBlock r n).
Proof. unfold ReadBlock. apply _. Qed.
#[export] Instance reading_validate n : Reading (ValidateAllocatedDataBlock r n).
Proof. unfold ValidateAllocatedDataBlock. apply _. Qed.
#[export] Instance reading_map inode n : Reading (MapLogicalBlock r inode n).
Proof. unfold MapLogicalBlock. apply _. Qed.

#[export] Instance reading_pointers required index ps : Reading (check_pointers r required index ps).
Proof. revert index. induction ps; intros; cbn [check_pointers]; apply _. Qed.

#[export] Instance reading_inode n : Reading (ReadInode r n).
Proof. unfold ReadInode. apply _. Qed.

#[export] Instance reading_records fuel rest acc : Reading (scan_records r fuel rest acc).
Proof.
  revert rest acc. induction fuel; intros; cbn [scan_records]; [apply _|].
  apply reading_if; [apply _|]. apply reading_result; [intros entry|apply _].
  repeat (apply reading_if; [apply _|]). apply reading_bind; [|intros child; apply _].
  apply reading_remap, _.
Qed.

#[export] Instance reading_directory inode ls acc : Reading (scan_directory r inode ls acc).
Proof. revert acc. induction ls; intros; cbn [scan_directory]; apply _. Qed.

#[export] Instance reading_list n : Reading (ListDirectory r n).
Proof. unfold ListDirectory. apply _. Qed.

#[export] Instance reading_components cur cs : Reading (resolve_components r cur cs).
Proof. revert cur. induction cs; intros; cbn [resolve_components]; apply _. Qed.

#[export] Instance reading_path path : Reading (ResolvePath r path).
Proof. destruct path; cbn [ResolvePath]; apply _. Qed.

#[export] Instance reading_rounds fuel inode offset total output :
  Reading (read_rounds r fuel inode offset total output).
Proof. revert output. induction fuel; intros; cbn [read_rounds]; apply _. Qed.

#[export] Instance reading_file n offset requested : Reading (ReadFile r n offset requested).
Proof. unfold ReadFile. apply _. Qed.
End reader.

(** * Undisturbed answers *)
Definition answer {A} (d : image) (m : io A) : result errno A := (m (mkEnv d 0 [] [])).2.

Lemma answer_bind {A B} d (m : io A) (k : A -> io B) : Reading m ->
  answer d (io_bind m k) = match answer d m with Ok a => answer d (k a) | Err er => Err er end.
Proof.
  intros Hm. destruct (Hm (mkEnv d 0 [] []) 0 []) as (_ & H & _). cbn [disk] in H.
  unfold answer, io_bind. destruct (m (mkEnv d 0 [] [])) as [e1 [a|er]]; cbn [fst snd] in *; by subst.
Qed.

(** The answer of a run under any system-call behaviour. *)
Lemma answer_run {A} (m : io A) e : Reading m ->
  disk (m e).1 = disk e /\ (forall a, (m e).2 = Ok a -> answer (disk e) m = Ok a) /\
  (responses e = [] -> forall a, answer (disk e) m = Ok a -> (m e).2 = Ok a).
Proof.
  intros Hm. destruct (Hm e 0 []) as (H1 & _ & H3). conj_split.
  - by apply calm_disk in H1.
  - exact H3.
  - intros Hr a Ha. destruct (Hm (mkEnv (disk e) 0 [] []) (st_size e) (trace e)) as (_ & _ & H).
    specialize (H a Ha). cbn [disk] in H. destruct e as [d s rs t]. cbn in *. by subst.
Qed.

Lemma answer_if {A} d (b : bool) (m n : io A) :
  answer d (if b then m else n) = if b then answer d m else answer d n.
Proof. by destruct b. Qed.

Lemma answer_bind_ok {A B} d (m : io A) (k : A -> io B) a : Reading m ->
  answer d m = Ok a -> answer d (io_bind m k) = answer d (k a).
Proof. intros Hm E. by rewrite answer_bind, E. Qed.

Lemma answer_bind_inv {A B} d (m : io A) (k : A -> io B) b : Reading m ->
  answer d (io_bind m k) = Ok b -> exists a, answer d m = Ok a /\ answer d (k a) = Ok b.
Proof. intros Hm. rewrite answer_bind by done. destruct (answer d m) as [a|]; [eauto|done]. Qed.

(** * Readers of a complete image *)
Record view_ok (r : ImageReader) (d : image) : Prop := {
  vo_size : image_size_ r = total_blocks (rd_superblock r) * kBlockSize;
  vo_data : 0 < start_block (data (rd_superblock r));
  vo_blocks : forall n, 0 <= n < total_blocks (rd_superblock r) ->
                exists b, d !! n = Some b /\ block_wf b;
  vo_wf : forall n b, d !! n = Some b -> block_wf b
}.

Definition block_at (d : image) (n : Z) : bytes := default [] (d !! n).

(** The block may hold data: in the data region and allocated. *)
Definition data_block (r : ImageReader) (n : Z) : Prop :=
  start_block (data (rd_superblock r)) <= n < total_blocks (rd_superblock r) /\
  TestBit (block_bitmap_ r) n = true.

(** The pointers a file of this size uses, in logical order. *)
Definition pointers (d : image) (inode : InodeRecord) : list Z :=
  direct_blocks inode ++
  (if required_blocks inode <=? kDirectBlockCount then []
   else get_words (block_at d (indirect_block inode)) 0 (Z.to_nat kIndirectEntries)).
Definition pointer (d : image) (inode : InodeRecord) (logical : Z) : Z :=
  nth (Z.to_nat logical) (pointers d inode) 0.

(** What [ReadInode] has checked of an inode it returns. *)
Record inode_valid (r : ImageReader) (d : image) (inode : InodeRecord) : Prop := {
  iv_size : 0 <= i_size inode <= kMaxFileSize;
  iv_mode : IsKnownMode (mode inode) = true;
  iv_whole : S_ISDIR (mode inode) = true -> i_size inode mod kBlockSize = 0;
  iv_direct : length (direct_blocks inode) = 12%nat;
  iv_used : forall l, 0 <= l < required_blocks inode ->
              pointer d inode l <> 0 /\ data_block r (pointer d inode l);
  iv_unused : forall l, required_blocks inode <= l ->
              pointer d inode l = 0;
  iv_indirect : if required_blocks inode <=? kDirectBlockCount then indirect_block inode = 0
                else indirect_block inode <> 0 /\ data_block r (indirect_block inode)
}.

Lemma required_spec inode : 0 <= i_size inode <= kMaxFileSize ->
  required_blocks inode = (i_size inode + 4095) / 4096 /\ 0 <= required_blocks inode <= 1036.
Proof.
  change kMaxFileSize with 4243456. intros H. unfold required_blocks, kBlockSize.
  rewrite wrap64_small by word. replace (i_size inode + 4096 - 1) with (i_size inode + 4095) by lia.
  assert (0 <= (i_size inode + 4095) / 4096 < 1037) by (split; [apply Z.div_pos; lia|apply Z.div_lt_upper_bound; lia]).
  rewrite wrap32_small by word. lia.
Qed.

Section answers.
Context (r : ImageReader) (d : image) (Hv : view_ok r d).

Lemma answer_block n : 0 <= n < total_blocks (rd_superblock r) ->
  answer d (ReadExact r (n * kBlockSize) kBlockSize) = Ok (block_at d n) /\ block_wf (block_at d n).
Proof.
  intros Hn. destruct (vo_blocks _ _ Hv n Hn) as (b & Hb & Hwf). unfold ReadExact, kBlockSize.
  rewrite (vo_size _ _ Hv). unfold kBlockSize.
  rewrite (proj2 (orb_false_iff _ _)) by (split; apply Z.ltb_ge; lia).
  unfold answer, ReadExactAt. rewrite pread_calm. cbn [disk]. unfold read_range, kBlockSize.
  rewrite Z.mod_mul, Z.div_mul by lia. change (Z.to_nat ((0 + 4096 + 4096 - 1) / 4096)) with 1%nat.
  cbn [blocks_from]. rewrite Hb, app_nil_r. cbn [snd].
  assert (block_at d n = b) as Hat by (unfold block_at; by rewrite Hb). rewrite Hat.
  destruct Hwf as [Hl Hok]. split; [|done]. do 2 f_equal. change (Z.to_nat 0) with 0%nat.
  change (Z.to_nat 4096) with BlockLen. rewrite <- Hl. apply slice_all.
Qed.

Lemma answer_validate n :
  answer d (ValidateAllocatedDataBlock r n) = Ok tt <-> data_block r n.
Proof.
  unfold ValidateAllocatedDataBlock, data_block, IsBlockAllocated. rewrite answer_if.
  destruct (Z.ltb_spec n (start_block (data (rd_superblock r)))); cbn [orb]; [split; [done|lia]|].
  destruct (Z.leb_spec (total_blocks (rd_superblock r)) n); cbn [orb]; [split; [done|lia]|].
  rewrite (proj2 (Z.ltb_lt n _)) by lia. cbn [andb].
  destruct (TestBit _ n); cbn [negb]; split; try done. by intros [_ ?].
Qed.

Lemma data_block_pos n : data_block r n -> 0 <= n < total_blocks (rd_superblock r).
Proof. intros [? _]. pose proof (vo_data _ _ Hv). lia. Qed.

Lemma answer_pointers required ps : forall index,
  answer d (check_pointers r required index ps) = Ok tt ->
  forall i p, ps !! i = Some p ->
    if index + Z.of_nat i <? required then p <> 0 /\ data_block r p else p = 0.
Proof.
  induction ps as [|q ps IH]; intros index E i p Hi; [done|]. cbn [check_pointers] in E.
  apply answer_bind_inv in E as ([] & E1 & E2); [|apply _]. destruct i as [|i]; cbn in Hi.
  - injection Hi as ->. rewrite Z.add_0_r. rewrite answer_if in E1. destruct (index <? required).
    + rewrite answer_if in E1. destruct (Z.eqb_spec p 0); [done|]. by rewrite answer_validate in E1.
    + rewrite answer_if in E1. by destruct (Z.eqb_spec p 0).
  - specialize (IH _ E2 i p Hi). by replace (index + Z.of_nat (S i)) with (index + 1 + Z.of_nat i) by lia.
Qed.

Lemma length_get_words b off n : length (get_words b off n) = n.
Proof. unfold get_words. by rewrite length_map, length_seq. Qed.

Lemma blocks_from_wf n : forall k b, blocks_from d k n = Some b ->
  length b = (n * BlockLen)%nat /\ bytes_ok b.
Proof.
  induction n as [|n IH]; intros k b E; cbn [blocks_from] in E; [injection E as <-; by repeat constructor|].
  destruct (d !! k) as [b0|] eqn:E0; [|done]. destruct (blocks_from d (k + 1) n) as [b1|] eqn:E1; [|done].
  injection E as <-. destruct (IH _ _ E1) as [H1 H2]. destruct (vo_wf _ _ Hv _ _ E0) as [H3 H4].
  split; [rewrite length_app; lia|]. by apply Forall_app.
Qed.

Lemma read_range_wf off n b : 0 <= n -> read_range d off n = Some b ->
  length b = Z.to_nat n /\ bytes_ok b.
Proof.
  intros Hn. unfold read_range. destruct (blocks_from _ _ _) as [b0|] eqn:E; [|done]. intros [= <-].
  apply blocks_from_wf in E as [Hl Hok]. split; [|by apply bytes_ok_slice]. apply length_slice.
  rewrite Hl. pose proof BlockLen_Z as HB. unfold kBlockSize in *.
  pose proof (Z.mod_pos_bound off 4096 ltac:(lia)) as Hm.
  set (q := (off mod 4096 + n + 4096 - 1) / 4096) in *.
  assert (off mod 4096 + n + 4096 - 1 < 4096 * q + 4096).
  { unfold q. pose proof (Z.div_mod (off mod 4096 + n + 4096 - 1) 4096 ltac:(lia)).
    pose proof (Z.mod_pos_bound (off mod 4096 + n + 4096 - 1) 4096 ltac:(lia)). lia. }
  assert (0 <= q) by (apply Z.div_pos; lia). nia.
Qed.

Lemma answer_exact off n b : 0 <= n -> answer d (ReadExact r off n) = Ok b ->
  length b = Z.to_nat n /\ bytes_ok b.
Proof.
  intros Hn. unfold ReadExact. rewrite answer_if. destruct (_ || _); [done|].
  unfold answer, ReadExactAt. rewrite pread_calm. cbn [disk].
  destruct (read_range d off n) as [b'|] eqn:E; [|done]. cbn [snd]. intros [= <-].
  by apply (read_range_wf off).
Qed.

Lemma decoded_inode b n inode : length b = InodeLen -> bytes_ok b -> DecodeInode b n = Ok inode ->
  inode_typed inode /\ i_size inode <= kMaxFileSize /\ IsKnownMode (mode inode) = true /\ inode_number inode = n.
Proof.
  intros Hl Hb E. destruct (InodeCodec.inode_encode_decode b n inode Hl Hb E) as [Hty _].
  split; [done|]. unfold DecodeInode in E. guards E. ok_inv E. bool_to_prop. cbn in *. conj_split; try done; lia.
Qed.

Lemma checked_nth required ps l : answer d (check_pointers r required 0 ps) = Ok tt -> 0 <= l ->
  (l < required -> l < Z.of_nat (length ps) ->
     nth (Z.to_nat l) ps 0 <> 0 /\ data_block r (nth (Z.to_nat l) ps 0)) /\
  (required <= l -> nth (Z.to_nat l) ps 0 = 0).
Proof.
  intros E Hl. rewrite nth_lookup. destruct (ps !! Z.to_nat l) as [p|] eqn:Ep; cbn [default].
  - pose proof (answer_pointers required ps 0 E _ _ Ep) as H. rewrite Z2Nat.id, Z.add_0_l in H by done.
    destruct (Z.ltb_spec l required); split; try done; lia.
  - apply lookup_ge_None in Ep. split; [lia|done].
Qed.

Lemma pointer_direct inode l : length (direct_blocks inode) = 12%nat -> 0 <= l < 12 ->
  pointer d inode l = nth (Z.to_nat l) (direct_blocks inode) 0.
Proof. intros Hd Hl. unfold pointer, pointers. rewrite app_nth1 by lia. done. Qed.

Lemma pointer_indirect inode l : length (direct_blocks inode) = 12%nat -> 12 <= l ->
  pointer d inode l =
  if required_blocks inode <=? 12 then 0
  else nth (Z.to_nat (l - 12)) (get_words (block_at d (indirect_block inode)) 0 1024) 0.
Proof.
  intros Hd Hl. unfold pointer, pointers. rewrite app_nth2 by lia. rewrite Hd.
  change kDirectBlockCount with 12. change (Z.to_nat kIndirectEntries) with 1024%nat.
  replace (Z.to_nat l - 12)%nat with (Z.to_nat (l - 12)) by lia.
  destruct (_ <=? _); [|done]. by destruct (Z.to_nat (l - 12)).
Qed.

(** The pointer checks cover every logical block. *)
Lemma checked_pointers inode :
  length (direct_blocks inode) = 12%nat -> 0 <= required_blocks inode <= 1036 ->
  answer d (check_pointers r (Z.min (required_blocks inode) 12) 0 (direct_blocks inode)) = Ok tt ->
  (12 < required_blocks inode ->
     answer d (check_pointers r (required_blocks inode - 12) 0
                 (get_words (block_at d (indirect_block inode)) 0 1024)) = Ok tt) ->
  (forall l, 0 <= l < required_blocks inode ->
     pointer d inode l <> 0 /\ data_block r (pointer d inode l)) /\
  (forall l, required_blocks inode <= l -> pointer d inode l = 0).
Proof.
  intros Hd Hr E1 E2. split; intros l Hl; destruct (Z_lt_le_dec l 12) as [Hs|Hs].
  - rewrite pointer_direct by (done || lia). apply (checked_nth _ _ l E1); lia.
  - rewrite pointer_indirect by done. rewrite (proj2 (Z.leb_gt _ _)) by lia.
    apply (checked_nth _ _ (l - 12) (E2 ltac:(lia))); rewrite ?length_get_words; lia.
  - rewrite pointer_direct by (done || lia). apply (checked_nth _ _ l E1); lia.
  - rewrite pointer_indirect by done. destruct (Z.leb_spec (required_blocks inode) 12); [done|].
    apply (checked_nth _ _ (l - 12) (E2 ltac:(lia))); lia.
Qed.

(** [ReadInode] returns only valid inodes. *)
Lemma read_inode_valid n inode : answer d (ReadInode r n) = Ok inode ->
  inode_valid r d inode /\ inode_number inode = n /\ IsInodeAllocated r n = true /\ n <> 0.
Proof.
  unfold ReadInode. rewrite answer_if. destruct (_ || _) eqn:E0; [done|]. rewrite answer_if.
  destruct (IsInodeAllocated r n) eqn:Ea; cbn [negb]; [|done]. intros E.
  apply answer_bind_inv in E as (b & Eb & E); [|apply _]. apply answer_exact in Eb as [Hl Hb]; [|done].
  destruct (DecodeInode b n) as [inode'|] eqn:Ed; [|done].
  destruct (decoded_inode b n inode' Hl Hb Ed) as (Hty & Hsz & Hk & Hn). cbv zeta in E.
  rewrite answer_if in E. destruct (S_ISDIR (mode inode') && _) eqn:Ew; [done|].
  apply answer_bind_inv in E as ([] & Ep & E); [|apply _].
  change kDirectBlockCount with 12 in *. change (Z.to_nat kIndirectEntries) with 1024%nat in E.
  assert (length (direct_blocks inode') = 12%nat) as Hd by apply Hty.
  assert (0 <= i_size inode' <= kMaxFileSize) as Hrange by (destruct Hty as (_ & _ & _ & _ & _ & ? & _); word).
  destruct (required_spec inode' Hrange) as [_ Hreq].
  assert (S_ISDIR (mode inode') = true -> i_size inode' mod kBlockSize = 0) as Hwhole
    by (intros Hdir; rewrite Hdir in Ew; cbn [andb] in Ew; bool_to_prop; exact Ew).
  assert (n <> 0) as Hn0 by (by bool_to_prop).
  rewrite answer_if in E. destruct (Z.leb_spec (required_blocks inode') 12) as [Hsm|Hlg].
  - rewrite answer_if in E. destruct (Z.eqb_spec (indirect_block inode') 0) as [Hi|]; [|done].
    cbn [negb] in E. injection E as <-.
    destruct (checked_pointers inode' Hd Hreq Ep ltac:(lia)) as [Hu Hz].
    split; [|done]. constructor; try done. change kDirectBlockCount with 12.
    by rewrite (proj2 (Z.leb_le _ _)).
  - rewrite answer_if in E. destruct (Z.eqb_spec (indirect_block inode') 0) as [|Hi]; [done|].
    apply answer_bind_inv in E as ([] & Ev%answer_validate & E); [|apply _].
    destruct (answer_block _ (data_block_pos _ Ev)) as [Hblk _].
    rewrite (answer_bind_ok _ _ _ _ _ Hblk) in E.
    apply answer_bind_inv in E as ([] & Ec & E); [|apply _]. injection E as <-.
    destruct (checked_pointers inode' Hd Hreq Ep (fun _ => Ec)) as [Hu Hz].
    split; [|done]. constructor; try done. change kDirectBlockCount with 12.
    by rewrite (proj2 (Z.leb_gt _ _)).
Qed.

(** Validated files have no holes: every logical block below the end maps. *)
Lemma map_valid inode l : inode_valid r d inode -> 0 <= l < required_blocks inode ->
  answer d (MapLogicalBlock r inode l) = Ok (pointer d inode l) /\
  0 <= pointer d inode l < total_blocks (rd_superblock r).
Proof.
  intros Hi Hl. destruct (iv_used _ _ _ Hi l Hl) as [Hnz Hdb].
  split; [|by apply data_block_pos]. destruct (required_spec inode (iv_size _ _ _ Hi)) as [_ Hreq].
  pose proof (proj2 (answer_validate _) Hdb) as Hval.
  unfold MapLogicalBlock. change kDirectBlockCount with 12. change kIndirectEntries with 1024.
  assert (forall m : io Z, Reading m -> answer d m = Ok (pointer d inode l) ->
    answer d (io_bind m (fun p => if p =? 0 then io_fail EUCLEAN
      else io_bind (ValidateAllocatedDataBlock r p) (fun _ => io_ret p))) = Ok (pointer d inode l)) as Hfin.
  { intros m Hm E. rewrite (answer_bind_ok _ _ _ _ _ E), answer_if, (proj2 (Z.eqb_neq _ _)) by done.
    by rewrite (answer_bind_ok _ _ _ _ _ Hval). }
  apply Hfin; [apply _|]. rewrite answer_if. destruct (Z.ltb_spec l 12).
  - rewrite pointer_direct; [done|apply (iv_direct _ _ _ Hi)|lia].
  - pose proof (iv_indirect _ _ _ Hi) as Hind. change kDirectBlockCount with 12 in Hind.
    rewrite (proj2 (Z.leb_gt _ _)) in Hind by lia. destruct Hind as [Hi0 Hib].
    rewrite answer_if, (proj2 (orb_false_iff _ _)) by (split; [apply Z.leb_gt; lia|by apply Z.eqb_neq]).
    rewrite (answer_bind_ok _ _ _ _ _ (proj2 (answer_validate _) Hib)).
    destruct (answer_block _ (data_block_pos _ Hib)) as [Hblk _].
    rewrite (answer_bind_ok _ _ _ _ _ Hblk).
    rewrite pointer_indirect by (apply (iv_direct _ _ _ Hi) || lia). rewrite (proj2 (Z.leb_gt _ _)) by lia.
    unfold answer, io_ret. cbn [snd]. f_equal. unfold get_words.
    rewrite (nth_indep _ 0 (GetLe32 (block_at d (indirect_block inode)) (0 + 0 * 4)))
      by (rewrite length_map, length_seq; lia).
    rewrite (map_nth (fun i => GetLe32 (block_at d (indirect_block inode)) (0 + i * 4))), seq_nth by lia.
    done.
Qed.

(** ** File contents *)
Definition file_blocks (inode : InodeRecord) : list bytes :=
  map (fun l => block_at d (pointer d inode l)) (counting (required_blocks inode)).

(** The bytes of a file: its blocks in logical order, cut at its size. *)
Definition file_bytes (inode : InodeRecord) : bytes :=
  take (Z.to_nat (i_size inode)) (concat (file_blocks inode)).

Lemma nth_counting n k x : (k < Z.to_nat n)%nat -> nth k (counting n) x = Z.of_nat k.
Proof.
  intros H. unfold counting. rewrite (nth_indep _ x (Z.of_nat 0)) by (rewrite length_map, length_seq; lia).
  by rewrite map_nth, seq_nth.
Qed.

Lemma length_counting n : length (counting n) = Z.to_nat n.
Proof. unfold counting. by rewrite length_map, length_seq. Qed.

Lemma elem_counting n l : l ∈ counting n <-> 0 <= l < n.
Proof.
  unfold counting. rewrite list_elem_of_fmap. split.
  - intros (k & -> & Hk%elem_of_seq). lia.
  - intros Hl. exists (Z.to_nat l). rewrite elem_of_seq. lia.
Qed.

Lemma concat_slice B (L : list bytes) k inside n :
  Forall (fun b => length b = B) L -> (k < length L)%nat -> (inside + n <= B)%nat ->
  slice (k * B + inside) n (concat L) = slice inside n (nth k L []).
Proof.
  revert k. induction L as [|b L IH]; intros k HL Hk Hn; [cbn in Hk; lia|].
  apply Forall_cons in HL as [Hb HL]. cbn [concat]. destruct k as [|k]; cbn [nth].
  - apply slice_app_l. lia.
  - rewrite slice_app_r by lia. replace (S k * B + inside - length b)%nat with (k * B + inside)%nat by lia.
    apply IH; try done. cbn in Hk. lia.
Qed.

Lemma length_concat_same B (L : list bytes) :
  Forall (fun b => length b = B) L -> length (concat L) = (length L * B)%nat.
Proof.
  induction 1 as [|b L Hb _ IH]; [done|]. cbn [concat length]. rewrite length_app. lia.
Qed.

Lemma file_blocks_wf inode : inode_valid r d inode ->
  Forall (fun b => length b = BlockLen) (file_blocks inode).
Proof.
  intros Hi. apply Forall_forall. intros b Hb. unfold file_blocks in Hb.
  apply list_elem_of_fmap in Hb as (l & -> & Hl%elem_counting).
  destruct (map_valid inode l Hi Hl) as [_ Hp]. destruct (answer_block _ Hp) as [_ [H _]]. exact H.
Qed.

Lemma length_file_blocks inode : length (file_blocks inode) = Z.to_nat (required_blocks inode).
Proof. unfold file_blocks. by rewrite length_map, length_counting. Qed.

Lemma file_covers inode : inode_valid r d inode ->
  i_size inode <= Z.of_nat (length (concat (file_blocks inode))).
Proof.
  intros Hi. rewrite (length_concat_same BlockLen) by (by apply file_blocks_wf). rewrite length_file_blocks.
  destruct (required_spec inode (iv_size _ _ _ Hi)) as [Hreq Hb]. pose proof (iv_size _ _ _ Hi).
  pose proof BlockLen_Z. unfold kBlockSize in *.
  assert (i_size inode <= required_blocks inode * 4096).
  { rewrite Hreq. pose proof (Z.div_mod (i_size inode + 4095) 4096 ltac:(lia)).
    pose proof (Z.mod_pos_bound (i_size inode + 4095) 4096 ltac:(lia)). lia. }
  nia.
Qed.

Lemma length_file_bytes inode : inode_valid r d inode ->
  Z.of_nat (length (file_bytes inode)) = i_size inode.
Proof.
  intros Hi. pose proof (file_covers inode Hi). pose proof (iv_size _ _ _ Hi).
  unfold file_bytes. rewrite length_take. lia.
Qed.

Lemma slice_file inode off n : inode_valid r d inode -> (off + n <= Z.to_nat (i_size inode))%nat ->
  slice off n (file_bytes inode) = slice off n (concat (file_blocks inode)).
Proof.
  intros Hi H. pose proof (file_covers inode Hi). unfold file_bytes.
  rewrite <- (take_drop (Z.to_nat (i_size inode)) (concat (file_blocks inode))) at 2.
  symmetry. apply slice_app_l. rewrite length_take. lia.
Qed.

(** One round of the read loop copies the next piece of the contents. *)
Lemma round_piece inode cur n : inode_valid r d inode -> 0 <= cur ->
  0 <= n -> cur mod 4096 + n <= 4096 -> cur < i_size inode ->
  exists p b, answer d (MapLogicalBlock r inode (wrap32 (cur / kBlockSize))) = Ok p /\
    answer d (ReadExact r (p * kBlockSize) kBlockSize) = Ok b /\
    slice (Z.to_nat (cur mod kBlockSize)) (Z.to_nat n) b =
    slice (Z.to_nat cur) (Z.to_nat n) (concat (file_blocks inode)).
Proof.
  intros Hi Hc Hn Hin Hlt. unfold kBlockSize.
  destruct (required_spec inode (iv_size _ _ _ Hi)) as [Hreq Hrb].
  pose proof (Z.div_mod cur 4096 ltac:(lia)) as Hdm. pose proof (Z.mod_pos_bound cur 4096 ltac:(lia)) as Hm.
  assert (0 <= cur / 4096 < required_blocks inode) as Hl.
  { split; [by apply Z.div_pos|]. rewrite Hreq.
    pose proof (Z.div_mod (i_size inode + 4095) 4096 ltac:(lia)).
    pose proof (Z.mod_pos_bound (i_size inode + 4095) 4096 ltac:(lia)). lia. }
  rewrite wrap32_small by word. destruct (map_valid inode _ Hi Hl) as [Hmap Hp].
  destruct (answer_block _ Hp) as [Hrd _]. eexists _, _. split; [exact Hmap|]. split; [exact Hrd|].
  pose proof BlockLen_Z as HB. unfold kBlockSize in HB.
  replace (Z.to_nat cur) with (Z.to_nat (cur / 4096) * BlockLen + Z.to_nat (cur mod 4096))%nat by lia.
  rewrite (concat_slice BlockLen); [|by apply file_blocks_wf|rewrite length_file_blocks; lia|lia].
  f_equal. unfold file_blocks.
  rewrite (nth_indep _ [] (block_at d (pointer d inode 0))) by (rewrite length_map, length_counting; lia).
  rewrite (map_nth (fun l => block_at d (pointer d inode l)) _ 0), nth_counting by lia.
  do 2 f_equal. lia.
Qed.

(** The loop copies [total] bytes; one round per touched block is enough. *)
Lemma read_rounds_enough inode offset total : inode_valid r d inode ->
  0 <= offset -> offset + total <= i_size inode ->
  forall fuel output,
    output = slice (Z.to_nat offset) (length output) (concat (file_blocks inode)) ->
    Z.of_nat (length output) <= total ->
    (Z.of_nat (length output) < total ->
       (offset + total + 4095) / 4096 - (offset + Z.of_nat (length output)) / 4096 <= Z.of_nat fuel) ->
    answer d (read_rounds r fuel inode offset total output) =
    Ok (slice (Z.to_nat offset) (Z.to_nat total) (concat (file_blocks inode))).
Proof.
  intros Hi Ho Ht. induction fuel as [|fuel IH]; intros output Eo Hle Hf; cbn [read_rounds];
    set (m := Z.of_nat (length output)) in *;
    (destruct (Z.leb_spec total m) as [Hd|Hlt];
     [unfold answer, io_ret; cbn [snd]; rewrite Eo; do 2 f_equal; lia|]).
  - exfalso. specialize (Hf Hlt).
    assert ((offset + m) / 4096 < (offset + total + 4095) / 4096); [|lia].
    apply Z.div_lt_upper_bound; [lia|].
    pose proof (Z.div_mod (offset + total + 4095) 4096 ltac:(lia)).
    pose proof (Z.mod_pos_bound (offset + total + 4095) 4096 ltac:(lia)). lia.
  - specialize (Hf Hlt). set (cur := offset + m) in *.
    pose proof (Z.mod_pos_bound cur 4096 ltac:(lia)) as Hm. pose proof (Z.div_mod cur 4096 ltac:(lia)) as Hdm.
    set (chunk := Z.min (total - m) (kBlockSize - cur mod kBlockSize)).
    assert (0 < chunk <= total - m /\ chunk <= 4096 - cur mod 4096) as Hck
      by (unfold chunk, kBlockSize; lia).
    destruct (round_piece inode cur chunk Hi) as (p & b & E1 & E2 & E3); try lia.
    rewrite (answer_bind_ok _ _ _ _ _ E1), (answer_bind_ok _ _ _ _ _ E2). rewrite E3.
    assert (length (slice (Z.to_nat cur) (Z.to_nat chunk) (concat (file_blocks inode))) = Z.to_nat chunk) as Hlen.
    { apply length_slice. pose proof (file_covers inode Hi). lia. }
    apply IH.
    + rewrite length_app, Hlen. rewrite Eo at 1. rewrite slice_add. do 2 f_equal. lia.
    + rewrite length_app, Hlen. lia.
    + rewrite length_app, Hlen. intros Hmore.
      replace (offset + Z.of_nat (length output + Z.to_nat chunk)) with (cur + chunk) by lia.
      assert (chunk = 4096 - cur mod 4096) as Hb by (unfold chunk, kBlockSize in *; lia).
      replace (cur + chunk) with ((cur / 4096 + 1) * 4096) by lia. rewrite Z.div_mul by lia. lia.
Qed.

Lemma read_file_answer n inode offset requested :
  answer d (ReadInode r n) = Ok inode -> S_ISREG (mode inode) = true ->
  0 <= offset -> 0 <= requested ->
  answer d (ReadFile r n offset requested) =
  Ok (slice (Z.to_nat offset) (Z.to_nat requested) (file_bytes inode)).
Proof.
  intros Hri Hreg Ho Hq. destruct (read_inode_valid n inode Hri) as (Hi & _).
  unfold ReadFile. rewrite (answer_bind_ok _ _ _ _ _ Hri), answer_if, Hreg. cbn [negb]. rewrite answer_if.
  pose proof (length_file_bytes inode Hi) as Hlen. pose proof (iv_size _ _ _ Hi) as Hs.
  destruct (Z.leb_spec (i_size inode) offset) as [Hout|Hin]; cbn [orb].
  { unfold answer, io_ret. cbn [snd]. unfold slice. rewrite drop_ge by lia. by rewrite take_nil. }
  destruct (Z.eqb_spec requested 0) as [->|Hnz]; cbn [orb]; [done|].
  set (total := Z.min requested (i_size inode - offset)).
  rewrite read_rounds_enough; try done; try lia.
  - f_equal. rewrite <- slice_file by (done || lia). unfold slice, total.
    destruct (Z.le_ge_cases requested (i_size inode - offset)).
    + do 2 f_equal. lia.
    + rewrite !take_ge by (rewrite length_drop; lia). done.
  - cbn [length]. lia.
  - intros _. cbn [length]. change (Z.of_nat 0) with 0.
    rewrite Z.add_0_r, Z2Nat.id by (pose proof (Z.div_pos total 4096); unfold kBlockSize; lia).
    unfold kBlockSize. assert (offset + total + 4095 = offset + (total + 4095)) as -> by lia.
    pose proof (Z.div_mod (offset + (total + 4095)) 4096 ltac:(lia)).
    pose proof (Z.mod_pos_bound (offset + (total + 4095)) 4096 ltac:(lia)).
    pose proof (Z.div_mod offset 4096 ltac:(lia)). pose proof (Z.mod_pos_bound offset 4096 ltac:(lia)).
    pose proof (Z.div_mod total 4096 ltac:(lia)). pose proof (Z.mod_pos_bound total 4096 ltac:(lia)). lia.
Qed.
(** ** Directories *)
(** A block is cut into records, each decoded where the previous one ends. *)
Inductive record_tiling : bytes -> list DirectoryEntry -> Prop :=
| tile_nil : record_tiling [] []
| tile_cons rest e es :
    rest <> [] -> DecodeDirectoryEntry rest = Ok e ->
    record_tiling (drop (Z.to_nat (record_length e)) rest) es ->
    record_tiling rest (e :: es).

Definition active_entry (e : DirectoryEntry) : Prop := de_inode e <> 0.
#[local] Instance active_entry_dec e : Decision (active_entry e).
Proof. unfold active_entry. apply _. Defined.

(** The entry names an allocated inode of the recorded type. *)
Definition child_ok (e : DirectoryEntry) : Prop :=
  exists child, answer d (ReadInode r (de_inode e)) = Ok child /\
    IsDirectoryType (file_type e) (mode child) = true.

Lemma decoded_length rest e : DecodeDirectoryEntry rest = Ok e ->
  8 <= record_length e <= Z.of_nat (length rest).
Proof.
  intros E. unfold DecodeDirectoryEntry, kDirectoryEntryHeaderSize in E. guards E; ok_inv E; cbn; lia.
Qed.

Lemma decoded_active rest e : DecodeDirectoryEntry rest = Ok e -> active_entry e ->
  IsValidName (name e) = true /\ IsKnownDirectoryFileType (file_type e) = true.
Proof.
  intros E. unfold DecodeDirectoryEntry in E. unfold active_entry. guards E; ok_inv E; cbn; done.
Qed.

Lemma answer_child e (k : InodeRecord -> io listing) x :
  answer d (io_bind (fun e0 => match ReadInode r (de_inode e) e0 with
                      | (e1, Err ENOENT) => (e1, Err EUCLEAN) | y => y end) k) = Ok x <->
  exists child, answer d (ReadInode r (de_inode e)) = Ok child /\ answer d (k child) = Ok x.
Proof.
  rewrite answer_bind by apply _. unfold answer at 1. unfold answer at 2.
  destruct (ReadInode r (de_inode e) (mkEnv d 0 [] [])) as [e1 [child|er]]; cbn [snd].
  - split; [eauto|]. by intros (c & [= ->] & ?).
  - split; [|by intros (c & ? & ?)]. by destruct er.
Qed.

Lemma tiling_nil es : record_tiling [] es -> es = [].
Proof. by inversion 1. Qed.

Lemma tiling_inv rest e es : rest <> [] -> DecodeDirectoryEntry rest = Ok e -> record_tiling rest es ->
  exists es', es = e :: es' /\ record_tiling (drop (Z.to_nat (record_length e)) rest) es'.
Proof.
  intros Hne E H. destruct H as [|rest e' es _ E' H]; [done|]. rewrite E in E'. injection E' as <-. eauto.
Qed.

(** What the record loop makes of the entries of a block. *)
Definition accepts (es : list DirectoryEntry) (acc acc' : listing) : Prop :=
  NoDup (name <$> filter active_entry es) /\
  Forall (fun e => (name e ∉ fst acc) /\ child_ok e) (filter active_entry es) /\
  acc' = (list_to_set (name <$> filter active_entry es) ∪ fst acc,
          snd acc ++ filter active_entry es).

Lemma accepts_skip e es acc acc' : ~ active_entry e ->
  (accepts (e :: es) acc acc' <-> accepts es acc acc').
Proof. intros H. unfold accepts. by rewrite filter_cons_False. Qed.

Lemma accepts_step e es acc acc' : active_entry e ->
  (accepts (e :: es) acc acc' <->
   (name e ∉ fst acc) /\ child_ok e /\
   accepts es ({[name e]} ∪ fst acc, snd acc ++ [e]) acc').
Proof.
  intros H. unfold accepts. rewrite filter_cons_True by done. cbn [fmap list_fmap fst snd].
  rewrite NoDup_cons, Forall_cons, <- app_assoc. cbn [app list_to_set].
  set (act := filter active_entry es).
  assert (list_to_set (name <$> act) ∪ ({[name e]} ∪ acc.1) =
          ({[name e]} ∪ list_to_set (name <$> act) ∪ acc.1 : gset bytes)) as <-
    by (rewrite (assoc_L (∪)), (comm_L (∪) (list_to_set _) {[_]}); done).
  assert (Forall (fun x => (name x ∉ acc.1) /\ child_ok x) act /\ name e ∉ (name <$> act) <->
          Forall (fun x => (name x ∉ {[name e]} ∪ acc.1) /\ child_ok x) act) as Hf.
  { rewrite !Forall_forall. split.
    - intros [Hx Hn] x Hin. destruct (Hx x Hin) as [H1 H2]. split; [|done].
      rewrite elem_of_union, elem_of_singleton. intros [E|?]; [|done].
      apply Hn. rewrite <- E. by apply list_elem_of_fmap_2.
    - intros Hx. split.
      + intros x Hin. destruct (Hx x Hin) as [H1 H2]. split; [|done]. intros ?. apply H1. apply elem_of_union. by right.
      + intros (x & E & Hin)%list_elem_of_fmap. destruct (Hx x Hin) as [H1 _]. apply H1.
        apply elem_of_union. left. by apply elem_of_singleton. }
  rewrite <- Hf. tauto.
Qed.

(** The answers of the record loop, in terms of the tiling of the block. *)
Lemma scan_records_iff fuel : forall rest acc acc', (length rest < fuel)%nat ->
  (answer d (scan_records r fuel rest acc) = Ok acc' <->
   exists es, record_tiling rest es /\ accepts es acc acc').
Proof.
  induction fuel as [|fuel IH]; intros rest acc acc' Hf; [lia|]. cbn [scan_records].
  destruct (Nat.eqb_spec (length rest) 0) as [H0|Hne].
  { apply length_zero_iff_nil in H0 as ->. split.
    - intros [= <-]. exists []. split; [constructor|]. unfold accepts. cbn.
      rewrite (left_id_L ∅ (∪)), app_nil_r. destruct acc. by repeat constructor.
    - intros (es & ->%tiling_nil & _ & _ & ->). cbn.
      rewrite (left_id_L ∅ (∪)), app_nil_r. by destruct acc. }
  assert (rest <> []) as Hnn by (by intros ->).
  destruct (DecodeDirectoryEntry rest) as [e|] eqn:Ed.
  2: { split; [done|]. intros (es & H & _). destruct H; [done|]. by rewrite Ed in *. }
  pose proof (decoded_length rest e Ed) as Hl. rewrite answer_if, (proj2 (Z.eqb_neq _ _)) by lia.
  cbv zeta. set (rest' := drop (Z.to_nat (record_length e)) rest).
  assert (length rest' < fuel)%nat as Hf' by (unfold rest'; rewrite length_drop; lia).
  assert (forall P : list DirectoryEntry -> Prop,
    (exists es, record_tiling rest es /\ P es) <->
    (exists es, record_tiling rest' es /\ P (e :: es))) as Hsplit.
  { intros P. split.
    - intros (es & Ht & HP). destruct (tiling_inv rest e es Hnn Ed Ht) as (es' & -> & Ht'). eauto.
    - intros (es & Ht & HP). exists (e :: es). split; [by apply tile_cons|done]. }
  rewrite Hsplit, answer_if. destruct (Z.eqb_spec (de_inode e) 0) as [Hz|Hact].
  { rewrite IH by done. assert (~ active_entry e) as Hi by (unfold active_entry; tauto).
    split; intros (es & Ht & Ha); exists es; (split; [done|]); by apply (accepts_skip e). }
  setoid_rewrite accepts_step; [|done]. rewrite answer_if. case_bool_decide as Hin.
  { split; [done|]. by intros (es & _ & ? & _). }
  rewrite answer_child. split.
  - intros (child & Hc & E). rewrite answer_if in E. destruct (IsDirectoryType _ _) eqn:Et; [|done].
    cbn [negb] in E. apply IH in E as (es & Ht & Ha); [|done]. exists es. conj_split; try done. by exists child.
  - intros (es & Ht & _ & (child & Hc & Et) & Ha). exists child. split; [done|].
    rewrite answer_if, Et. cbn [negb]. apply IH; eauto.
Qed.
Lemma accepts_nil acc acc' : accepts [] acc acc' <-> acc' = acc.
Proof.
  unfold accepts. cbn. rewrite (left_id_L ∅ (∪)), app_nil_r. destruct acc.
  split; [by intros (_ & _ & ->)|intros ->]. by repeat constructor.
Qed.

Lemma accepts_app es1 es2 : forall acc acc',
  accepts (es1 ++ es2) acc acc' <-> exists mid, accepts es1 acc mid /\ accepts es2 mid acc'.
Proof.
  induction es1 as [|e es1 IH]; intros acc acc'; cbn [app].
  - setoid_rewrite accepts_nil. split; [eauto|]. by intros (mid & -> & ?).
  - destruct (decide (active_entry e)) as [Ha|Hi].
    + rewrite accepts_step, IH by done. setoid_rewrite accepts_step; [|done].
      split; [intros (Hn & Hc & mid & H1 & H2)|intros (mid & (Hn & Hc & H1) & H2)]; eauto 6.
    + rewrite accepts_skip, IH by done. setoid_rewrite accepts_skip; [|done]. done.
Qed.

Lemma scan_directory_iff inode ls : inode_valid r d inode ->
  Forall (fun l => 0 <= l < required_blocks inode) ls -> forall acc acc',
  answer d (scan_directory r inode ls acc) = Ok acc' <->
  exists ess, Forall2 (fun l es => record_tiling (block_at d (pointer d inode l)) es) ls ess /\
              accepts (concat ess) acc acc'.
Proof.
  intros Hi Hls. induction Hls as [|l ls Hl _ IH]; intros acc acc'; cbn [scan_directory].
  - split.
    + intros [= <-]. exists []. split; [constructor|]. by apply accepts_nil.
    + intros (ess & H & Ha). inversion H; subst. apply accepts_nil in Ha as ->. done.
  - destruct (map_valid inode l Hi Hl) as [Hm Hp]. destruct (answer_block _ Hp) as [Hb _].
    rewrite (answer_bind_ok _ _ _ _ _ Hm), (answer_bind_ok _ _ _ _ _ Hb). split.
    + intros E. apply answer_bind_inv in E as (mid & E1 & E2); [|apply _].
      apply scan_records_iff in E1 as (es & Ht & Ha); [|lia]. apply IH in E2 as (ess & Hts & Has).
      exists (es :: ess). split; [by constructor|]. cbn [concat]. apply accepts_app. eauto.
    + intros (ess & H & Ha). inversion H as [|? es ? ess' Ht Hts]; subst. cbn [concat] in Ha.
      apply accepts_app in Ha as (mid & Ha1 & Ha2).
      rewrite (answer_bind_ok d _ _ mid _); [by apply IH; eauto|]. apply scan_records_iff; [lia|eauto].
Qed.

(** The contract of a directory listing. *)
Definition directory_lists (n : Z) (es : list DirectoryEntry) : Prop :=
  exists inode ess, answer d (ReadInode r n) = Ok inode /\ S_ISDIR (mode inode) = true /\
    Forall2 record_tiling (file_blocks inode) ess /\
    es = filter active_entry (concat ess) /\ NoDup (name <$> es) /\ Forall child_ok es.

Lemma list_directory_iff n es : answer d (ListDirectory r n) = Ok es <-> directory_lists n es.
Proof.
  unfold ListDirectory, directory_lists.
  destruct (answer d (ReadInode r n)) as [inode|] eqn:Hri.
  2: { rewrite answer_bind, Hri by apply _. split; [done|]. by intros (? & ? & ? & _). }
  rewrite (answer_bind_ok _ _ _ _ _ Hri), answer_if.
  destruct (read_inode_valid n inode Hri) as (Hi & _).
  destruct (S_ISDIR (mode inode)) eqn:Hdir; cbn [negb].
  2: { split; [done|]. intros (i & ? & [= <-] & ? & _). congruence. }
  destruct (required_spec inode (iv_size _ _ _ Hi)) as [Hreq Hrb].
  pose proof (iv_whole _ _ _ Hi Hdir) as Hw. pose proof (iv_size _ _ _ Hi) as Hsz. unfold kBlockSize in *.
  assert (wrap32 (i_size inode / 4096) = required_blocks inode) as ->.
  { pose proof (Z.div_mod (i_size inode) 4096 ltac:(lia)) as Hdm. rewrite Hw, Z.add_0_r in Hdm.
    assert (required_blocks inode = i_size inode / 4096) as Heq.
    { rewrite Hreq, Hdm at 1. rewrite (Z.mul_comm 4096), Z.add_comm, Z.div_add, Z.div_small by lia. lia. }
    rewrite <- Heq. apply wrap32_small. word. }
  assert (Forall (fun l => 0 <= l < required_blocks inode) (counting (required_blocks inode))) as Hls
    by (apply Forall_forall; intros l; apply elem_counting).
  assert (forall ess, Forall2 record_tiling (file_blocks inode) ess <->
    Forall2 (fun l es => record_tiling (block_at d (pointer d inode l)) es) (counting (required_blocks inode)) ess)
    as Hmap by (intros ess; apply Forall2_fmap_l).
  split.
  - intros E. apply answer_bind_inv in E as (acc & E1 & E2); [|apply _]. injection E2 as <-.
    apply (scan_directory_iff inode _ Hi Hls) in E1 as (ess & Ht & Hnd & Hf & ->).
    exists inode, ess. rewrite Hmap. conj_split; try done. eapply Forall_impl; [exact Hf|]. by intros x [_ ?].
  - intros (inode' & ess & [= <-] & _ & Ht & -> & Hnd & Hf). rewrite Hmap in Ht.
    assert (exists acc, answer d (scan_directory r inode (counting (required_blocks inode)) (∅, [])) = Ok acc /\
      snd acc = filter active_entry (concat ess)) as (acc & Hacc & <-).
    { eexists. split; [apply (scan_directory_iff inode _ Hi Hls)|].
      - exists ess. split; [done|]. split; [done|]. split; [|reflexivity].
        eapply Forall_impl; [exact Hf|]. intros x ?. split; [apply not_elem_of_empty|done].
      - done. }
    by rewrite (answer_bind_ok _ _ _ _ _ Hacc).
Qed.
Lemma tiling_names b es : record_tiling b es ->
  Forall (fun e => IsValidName (name e) = true) (filter active_entry es).
Proof.
  induction 1 as [|rest e es _ E _ IH]; [constructor|]. destruct (decide (active_entry e)) as [Ha|Hi].
  - rewrite filter_cons_True by done. constructor; [|done]. by apply (decoded_active rest).
  - by rewrite filter_cons_False.
Qed.

Lemma listed_names n es : directory_lists n es -> Forall (fun e => IsValidName (name e) = true) es.
Proof.
  intros (inode & ess & _ & _ & Ht & -> & _). induction Ht as [|b es bs ess Hb _ IH]; [constructor|].
  cbn [concat]. rewrite filter_app. apply Forall_app. split; [by apply (tiling_names b)|done].
Qed.

(** ** Paths *)
(** Following component names from a directory, through the listings. *)
Inductive walk : Z -> list bytes -> Z -> Prop :=
| walk_here n : walk n [] n
| walk_down n component rest es e m :
    directory_lists n es -> e ∈ es -> name e = component ->
    walk (de_inode e) rest m -> walk n (component :: rest) m.

Lemma find_unique es e component : NoDup (name <$> es) -> e ∈ es -> name e = component ->
  find (fun entry => bool_decide (name entry = component)) es = Some e.
Proof.
  intros Hnd He Hc. destruct (find _ es) as [e'|] eqn:E.
  - apply find_some in E as [He' Hn']. apply bool_decide_eq_true in Hn'. apply list_elem_of_In in He'.
    apply list_elem_of_lookup in He as [i Hi]. apply list_elem_of_lookup in He' as [j Hj].
    assert (i = j) as ->; [|congruence].
    eapply (NoDup_lookup (name <$> es)); [done|rewrite list_lookup_fmap, Hi; reflexivity|].
    rewrite list_lookup_fmap, Hj. cbn. congruence.
  - apply list_elem_of_In in He. apply (find_none _ _ E) in He. rewrite bool_decide_eq_false in He. done.
Qed.

Definition plain_name (c : bytes) : Prop := c <> [] /\ c <> [dot] /\ c <> [dot; dot] /\ slash ∉ c.

Lemma resolve_components_iff cs : Forall plain_name cs -> forall cur n,
  answer d (resolve_components r cur cs) = Ok n <-> walk cur cs n.
Proof.
  induction 1 as [|c cs (H1 & H2 & H3 & _) _ IH]; intros cur n; cbn [resolve_components].
  - split; [intros [= <-]; constructor|]. by inversion 1.
  - rewrite !bool_decide_eq_false_2 by done. cbn [orb]. split.
    + intros E. apply answer_bind_inv in E as (es & El & E); [|apply _].
      destruct (find _ es) as [e|] eqn:Ef; [|done]. apply find_some in Ef as [He Hc].
      apply list_elem_of_In in He. apply bool_decide_eq_true in Hc.
      apply (walk_down _ _ _ es e); [by apply list_directory_iff|done|done|by apply IH].
    + inversion 1 as [|? ? ? es e ? Hl He Hc Hw]; subst. pose proof Hl as (_ & _ & _ & _ & _ & _ & Hnd & _).
      rewrite (answer_bind_ok d _ _ es _ (proj2 (list_directory_iff _ _) Hl)).
      rewrite (find_unique es e) by done. by apply IH.
Qed.

Definition path_tail (cs : list bytes) : bytes := concat (map (cons slash) cs).
Definition path_of (cs : list bytes) : bytes := match cs with [] => [slash] | _ => path_tail cs end.

Lemma split_component c cs : slash ∉ c -> split_path (c ++ path_tail cs) =
  match cs with [] => [c] | c' :: cs' => c :: split_path (c' ++ path_tail cs') end.
Proof.
  induction c as [|z c IH]; intros Hc.
  - destruct cs as [|c' cs]; [done|]. unfold path_tail at 1. cbn [app map concat split_path].
    by rewrite Z.eqb_refl.
  - apply not_elem_of_cons in Hc as [Hz Hc]. cbn [app split_path].
    rewrite (proj2 (Z.eqb_neq z slash)) by done. rewrite (IH Hc). by destruct cs.
Qed.

Lemma split_join c cs : Forall plain_name (c :: cs) -> split_path (c ++ path_tail cs) = c :: cs.
Proof.
  revert c. induction cs as [|c' cs IH]; intros c [(_ & _ & _ & Hc) Hcs]%Forall_cons;
    rewrite split_component by done; [done|]. by rewrite IH.
Qed.

Lemma last_component c cs : Forall plain_name (c :: cs) ->
  exists z, last (c ++ path_tail cs) = Some z /\ z <> slash.
Proof.
  revert c. induction cs as [|c' cs IH]; intros c [(Hne & _ & _ & Hc) Hcs]%Forall_cons.
  - unfold path_tail. cbn [map concat]. rewrite app_nil_r. destruct c as [|z c _] using rev_ind; [done|].
    exists z. rewrite last_snoc. split; [done|]. intros ->. apply Hc, elem_of_app. right. by apply list_elem_of_singleton.
  - destruct (IH c' Hcs) as (z & Hz & Hne'). exists z. split; [|done].
    unfold path_tail. cbn [map concat]. fold (path_tail cs). cbn [app].
    change (c ++ slash :: c' ++ path_tail cs) with (c ++ [slash] ++ (c' ++ path_tail cs)).
    by rewrite (app_assoc c [slash]), last_app, Hz.
Qed.

Lemma resolve_path_iff cs n inode : Forall plain_name cs ->
  answer d (ResolvePath r (path_of cs)) = Ok (n, inode) <->
  walk (root_inode (rd_superblock r)) cs n /\ answer d (ReadInode r n) = Ok inode.
Proof.
  intros Hcs. assert (forall cur, answer d (io_bind (ReadInode r cur) (fun i => io_ret (cur, i))) = Ok (n, inode) <->
    cur = n /\ answer d (ReadInode r n) = Ok inode) as Hfin.
  { intros cur. rewrite answer_bind by apply _. destruct (answer d (ReadInode r cur)) as [i|] eqn:E.
    - unfold answer at 1, io_ret. cbn [snd]. split; [intros [= -> ->]; done|]. intros [-> E']. congruence.
    - split; [done|]. intros [-> E']. congruence. }
  destruct cs as [|c cs].
  - cbn [path_of ResolvePath]. rewrite Z.eqb_refl. cbn [negb]. rewrite bool_decide_eq_true_2 by done.
    rewrite Hfin. split; intros [H1 H2]; (split; [|done]); [subst; constructor|by inversion H1].
  - assert (path_of (c :: cs) = slash :: (c ++ path_tail cs)) as -> by done. cbn [ResolvePath].
    rewrite Z.eqb_refl. cbn [negb]. destruct (last_component c cs Hcs) as (z & Hz & Hns).
    rewrite bool_decide_eq_false_2 by (intros E; by rewrite E in Hz).
    rewrite bool_decide_eq_false_2 by congruence. rewrite split_join by done.
    rewrite answer_bind by apply _. rewrite <- resolve_components_iff by done.
    destruct (answer d (resolve_components r _ (c :: cs))) as [cur|]; [|split; [done|by intros [? _]]].
    rewrite Hfin. split; intros [H1 H2]; (split; [|done]); congruence.
Qed.
End answers.
