(* ===== verification/ReaderTheorems.v ===== *)
(** The guarantees of the image reader: an image that opens is consistent, file
    reads return exactly the file's bytes, listings are exact and paths resolve
    by following them. System-call faults never change an answer. *)
From S2P Require Import Prelude Codec Crc32c OndiskFormat OndiskFormatProofs OndiskJournal OndiskJournalProofs Disk.
From S2P Require Import JournalStore JournalImage JournalStates JournalExample BitmapAllocator ImageReader.
From S2P Require Import ImageReaderProofs.
Import ControlSelection.
Open Scope Z_scope.

(** * Opening *)
(** The file has all its blocks, each of them 4096 bytes. *)
Definition complete_image (e : env) : Prop :=
  (forall n, 0 <= n < st_size e / kBlockSize -> is_Some (disk e !! n)) /\
  (forall n b, disk e !! n = Some b -> block_wf b).

Lemma bind_run {A B} (m : io A) (k : A -> io B) e e' b :
  io_bind m k e = (e', Ok b) -> exists a e1, m e = (e1, Ok a) /\ k a e1 = (e', Ok b).
Proof. unfold io_bind. destruct (m e) as [e1 [a|er]]; [eauto|done]. Qed.

Lemma reading_run {A} (m : io A) e e1 a : Reading m -> m e = (e1, Ok a) ->
  disk e1 = disk e /\ st_size e1 = st_size e /\ answer (disk e) m = Ok a.
Proof.
  intros Hm E. destruct (Hm e 0 []) as (H1 & _ & H3). rewrite E in *. cbn [fst snd] in *.
  injection H1 as H1 H2 _. conj_split; try done. by apply H3.
Qed.

(** Inverts one read of an opening sequence. *)
Ltac run_step H :=
  let a := fresh "a" in let e1 := fresh "e" in let E := fresh "E" in
  let Hd := fresh "Hd" in let Hs := fresh "Hs" in let Ha := fresh "Ha" in
  apply bind_run in H as (a & e1 & E & H); apply reading_run in E as (Hd & Hs & Ha); [|apply _].

(** What an opened reader knows about its image. *)
Record opened (r : ImageReader) (d : image) : Prop := {
  op_view : view_ok r d;
  op_image : image_ok (rd_superblock r) (image_size_ r) d;
  op_control : selected (rd_superblock r) d = Ok (rd_journal_control r, rd_journal_control_copy r);
  op_inode_bitmap : read_range d (start_block (inode_bitmap (rd_superblock r)) * kBlockSize)
    (block_count (inode_bitmap (rd_superblock r)) * kBlockSize) = Some (inode_bitmap_ r);
  op_block_bitmap : read_range d (start_block (block_bitmap (rd_superblock r)) * kBlockSize)
    (block_count (block_bitmap (rd_superblock r)) * kBlockSize) = Some (block_bitmap_ r);
  op_metadata : forall n, 0 <= n < start_block (data (rd_superblock r)) ->
    TestBit (block_bitmap_ r) n = true;
  op_inode_tail : forall n,
    total_inodes (rd_superblock r) <= n < Z.of_nat (length (inode_bitmap_ r)) * 8 ->
    TestBit (inode_bitmap_ r) n = true;
  op_block_tail : forall n,
    total_blocks (rd_superblock r) <= n < Z.of_nat (length (block_bitmap_ r)) * 8 ->
    TestBit (block_bitmap_ r) n = true;
  op_root : exists root, answer d (ReadInode r (root_inode (rd_superblock r))) = Ok root /\
    S_ISDIR (mode root) = true
}.

Lemma exact_at_range d off n b : answer d (ReadExactAt off n) = Ok b -> read_range d off n = Some b.
Proof.
  unfold answer, ReadExactAt. cbn [responses disk]. rewrite pread_calm.
  destruct (read_range d off n); [|done]. by intros [= ->].
Qed.

Lemma read_range_block d n : forall b, read_range d (n * kBlockSize) kBlockSize = Some b ->
  (forall b', d !! n = Some b' -> block_wf b') -> d !! n = Some b.
Proof.
  intros b. unfold read_range, kBlockSize. rewrite Z.mod_mul, Z.div_mul by lia.
  change (Z.to_nat ((0 + 4096 + 4096 - 1) / 4096)) with 1%nat. cbn [blocks_from].
  destruct (d !! n) as [b'|]; [|done]. intros [= <-] Hwf. destruct (Hwf b' eq_refl) as [Hl _]. f_equal.
  rewrite app_nil_r. change (Z.to_nat 0) with 0%nat. change (Z.to_nat 4096) with BlockLen.
  rewrite <- Hl. symmetry. apply slice_all.
Qed.

Lemma remap_ok {A} (m : io A) e e' a :
  (match m e with (e1, Err ENOENT) => (e1, Err EUCLEAN) | x => x end) = (e', Ok a) -> m e = (e', Ok a).
Proof. destruct (m e) as [e1 [|[]]]; done. Qed.

Lemma adopt_opened readable e e' r :
  complete_image e -> ReaderAdoptLockedFd readable e = (e', Ok r) ->
  disk e' = disk e /\ opened r (disk e).
Proof.
  intros [Hall Hwf] H. unfold ReaderAdoptLockedFd in H. run_step H. destruct (negb readable); [done|].
  run_step H. cbv beta zeta in H. rewrite Hs0, Hs in H.
  destruct (_ || _) eqn:Esz; [done|]. run_step H.
  destruct (DecodeSuperblock a1) as [sb|] eqn:Esb; [|done]. cbv beta zeta in H.
  destruct (negb _) eqn:Ef in H; [done|]. destruct (negb _) eqn:Et in H; [done|].
  run_step H. run_step H. destruct (SelectControl _ _ _ _) as [[jc jcc]|] eqn:Ec; [|done].
  run_step H. run_step H.
  destruct (negb (TestBit _ _)) eqn:Eroot in H; [done|].
  destruct (negb (all_set a5 0 _)) eqn:Em in H; [done|].
  destruct (negb (all_set a4 _ _)) eqn:Eit in H; [done|].
  destruct (negb (all_set a5 _ _)) eqn:Ebt in H; [done|].
  set (r0 := mkReader _ _ _ _ _ _) in H.
  apply bind_run in H as (root & e7 & Er%remap_ok & H). apply reading_run in Er as (Hd6 & _ & Hr); [|apply _].
  destruct (S_ISDIR (mode root)) eqn:Edir; cbn [negb] in H; [|done]. injection H as <- <-.
  assert (disk e7 = disk e) as Hde by congruence. split; [done|].
  rewrite Hd5, Hd4, Hd3, Hd2, Hd1, Hd0, Hd in *. apply exact_at_range in Ha1, Ha2, Ha3, Ha4, Ha5.
  bool_to_prop. apply (read_range_block _ 0) in Ha1; [|apply Hwf].
  destruct (SuperblockCodec.superblock_encode_decode a1 sb (Hwf _ _ Ha1) Esb) as
    [Hty Hv%SuperblockCodec.encode_validated].
  pose proof (validated_geometry sb Hty Hv) as Hg.
  assert (forall n, 0 <= n < total_blocks sb -> exists b, disk e !! n = Some b /\ block_wf b) as Hblk.
  { intros n Hn. destruct (Hall n) as [b Hb]; [rewrite <- Et, Z.div_mul by done; lia|]. eauto. }
  apply read_range_block in Ha2; [|apply Hwf].
  replace (start_block (journal sb) * kBlockSize + kBlockSize) with
    ((start_block (journal sb) + 1) * kBlockSize) in Ha3 by lia.
  apply read_range_block in Ha3; [|apply Hwf].
  constructor; cbn [rd_superblock image_size_ inode_bitmap_ block_bitmap_ rd_journal_control
    rd_journal_control_copy r0]; try done.
  - constructor; try done. cbn [rd_superblock r0]. rewrite (geo_data sb Hg). pose proof (geo_js sb Hg).
    pose proof (geo_count sb Hg). lia.
  - constructor; try done. by eexists.
  - unfold selected, select, controls, block_of, control_block, js. rewrite Z.add_0_r, Ha2, Ha3. cbn [default].
    rewrite <- (ring_size_eq sb Hg). exact Ec.
  - intros n Hn. apply (proj1 (all_set_spec a5 0 _) Em). lia.
  - intros n Hn. apply (proj1 (all_set_spec a4 _ _) Eit). lia.
  - intros n Hn. apply (proj1 (all_set_spec a5 _ _) Ebt). lia.
  - by exists root.
Qed.

(** ** Opening succeeds on every consistent image *)
Lemma bind_go {A B} (m : io A) (k : A -> io B) e a : m e = (e, Ok a) -> io_bind m k e = k a e.
Proof. intros E. unfold io_bind. by rewrite E. Qed.

Lemma exact_at_go e off n b : responses e = [] -> read_range (disk e) off n = Some b ->
  ReadExactAt off n e = (e, Ok b).
Proof.
  intros Hr E. unfold ReadExactAt. rewrite Hr, pread_calm, E. destruct e as [d s rs t]. cbn in *. by subst.
Qed.

Lemma syscall_go e : responses e = [] -> Syscall e = (e, Ok tt).
Proof. intros E. unfold Syscall. by rewrite E. Qed.

Lemma reading_go {A} (m : io A) e a : Reading m -> responses e = [] -> answer (disk e) m = Ok a -> m e = (e, Ok a).
Proof.
  intros Hm Hr Ha. destruct (answer_run m e Hm) as (_ & _ & H). specialize (H Hr a Ha).
  destruct (Hm e (st_size e) (trace e)) as (_ & H2 & _).
  destruct e as [d s rs t]. cbn [responses disk st_size trace] in *. subst rs.
  destruct (m _) as [e1 x]. cbn [fst snd] in *. by subst.
Qed.

Lemma block_range d n b : d !! n = Some b -> block_wf b -> read_range d (n * kBlockSize) kBlockSize = Some b.
Proof.
  intros Hb [Hl _]. unfold read_range, kBlockSize. rewrite Z.mod_mul, Z.div_mul by lia.
  change (Z.to_nat ((0 + 4096 + 4096 - 1) / 4096)) with 1%nat. cbn [blocks_from]. rewrite Hb, app_nil_r.
  change (Z.to_nat 0) with 0%nat. change (Z.to_nat 4096) with BlockLen. rewrite <- Hl. f_equal. apply slice_all.
Qed.

Lemma block_of_range r d n : opened r d -> 0 <= n < total_blocks (rd_superblock r) ->
  read_range d (n * kBlockSize) kBlockSize = Some (block_of d n).
Proof.
  intros Ho Hn. destruct (img_blocks _ _ _ (op_image _ _ Ho) n Hn) as (b & Hb & Hwf).
  unfold block_of. rewrite Hb. by apply block_range.
Qed.

Lemma adopt_complete e r :
  responses e = [] -> st_size e = image_size_ r -> opened r (disk e) ->
  ReaderAdoptLockedFd true e = (e, Ok r).
Proof.
  intros Hr Hsz Ho. pose proof (op_image _ _ Ho) as Hi. pose proof (img_geometry _ _ _ Hi) as Hg.
  pose proof (img_size _ _ _ Hi) as Htot. pose proof (geo_bounds _ Hg) as (_ & _ & _ & Hjt).
  pose proof (geo_js _ Hg) as Hjs. pose proof (geo_count _ Hg) as Hjc. unfold js in *.
  destruct (img_super _ _ _ Hi) as (b0 & Hb0 & Esb). destruct (op_root _ _ Ho) as (root & Hroot & Hdir).
  destruct (read_inode_valid _ _ (op_view _ _ Ho) _ _ Hroot) as (_ & _ & Halloc & _).
  unfold IsInodeAllocated in Halloc. apply andb_prop in Halloc as [_ Hbit].
  unfold ReaderAdoptLockedFd. rewrite (bind_go _ _ _ tt (syscall_go e Hr)). cbn [negb].
  rewrite (bind_go _ _ _ tt (syscall_go e Hr)). cbv beta zeta. rewrite Hsz, Htot.
  rewrite Z.mod_mul, (proj2 (Z.ltb_ge _ _)) by (unfold kBlockSize; lia). cbn [Z.eqb negb orb].
  assert (0 <= 0 < total_blocks (rd_superblock r)) as H00 by lia.
  pose proof (block_of_range _ _ 0 Ho H00) as Hrb. unfold block_of in Hrb. rewrite Hb0 in Hrb. change (0 * kBlockSize) with 0 in Hrb.
  change (default zero_block (Some b0)) with b0 in Hrb.
  rewrite (bind_go _ _ _ _ (exact_at_go _ _ _ _ Hr Hrb)). cbv beta. rewrite Esb. cbv beta zeta.
  rewrite (img_features _ _ _ Hi), !Z.eqb_refl. cbn [negb].
  assert (0 <= start_block (journal (rd_superblock r)) < total_blocks (rd_superblock r)) as Hja by lia.
  assert (0 <= start_block (journal (rd_superblock r)) + 1 < total_blocks (rd_superblock r)) as Hjb by lia.
  rewrite (bind_go _ _ _ _ (exact_at_go _ _ _ _ Hr (block_of_range _ _ _ Ho Hja))).
  replace (start_block (journal (rd_superblock r)) * kBlockSize + kBlockSize) with
    ((start_block (journal (rd_superblock r)) + 1) * kBlockSize) by lia.
  rewrite (bind_go _ _ _ _ (exact_at_go _ _ _ _ Hr (block_of_range _ _ _ Ho Hjb))).
  rewrite (ring_size_eq _ Hg). pose proof (op_control _ _ Ho) as Hc.
  unfold selected, select, controls, control_block, js in Hc. rewrite Z.add_0_r in Hc. rewrite Hc.
  rewrite (bind_go _ _ _ _ (exact_at_go _ _ _ _ Hr (op_inode_bitmap _ _ Ho))).
  rewrite (bind_go _ _ _ _ (exact_at_go _ _ _ _ Hr (op_block_bitmap _ _ Ho))).
  rewrite Hbit. rewrite !(proj2 (all_set_spec _ _ _)).
  2: { intros k Hk. apply (op_block_tail _ _ Ho). lia. }
  2: { intros k Hk. apply (op_inode_tail _ _ Ho). lia. }
  2: { intros k Hk. apply (op_metadata _ _ Ho). lia. }
  cbn [negb]. rewrite <- Htot.
  replace (mkReader _ _ _ _ _ _) with r by (by destruct r).
  rewrite (bind_go _ _ _ root); [by rewrite Hdir|].
  by rewrite (reading_go _ _ _ _ Hr Hroot).
Qed.

(** * A small image with one file *)
Definition root1 : InodeRecord :=
  mkInode 1 16877 0 0 2 4096 1 1 1 0 1 [12; 0; 0; 0; 0; 0; 0; 0; 0; 0; 0; 0] 0.
Definition file1 : InodeRecord :=
  mkInode 2 33188 0 0 1 4099 1 1 1 0 1 [13; 14; 0; 0; 0; 0; 0; 0; 0; 0; 0; 0] 0.
Definition entry1 : DirectoryEntry := mkDirectoryEntry 2 kRegular [102] 4096.

(** The contents: block 12 is the root directory, 13 and 14 hold the file [f]. *)
Definition img1 : image :=
  <[1 := [3; 0] ++ repeat 255 4094]>
  (<[2 := [255; 127; 0] ++ repeat 255 4093]>
  (<[3 := from_ok [] (EncodeInode root1) ++ from_ok [] (EncodeInode file1) ++ zeros 3840]>
  (<[12 := from_ok [] (EncodeDirectoryEntry entry1 4096 zero_block)]>
  (<[13 := filled 7]> (<[14 := [8; 9; 10] ++ zeros 4093]> img0))))).

Definition env1 : env := mkEnv img1 size0 [] [].
Definition reader1 : ImageReader :=
  mkReader size0 sb0 current0 kA ([3; 0] ++ repeat 255 4094) ([255; 127; 0] ++ repeat 255 4093).

Lemma complete_check e :
  forallb (fun i => bool_decide (is_Some (disk e !! Z.of_nat i))) (seq 0 (Z.to_nat (st_size e / kBlockSize))) = true ->
  forallb (fun p => block_wfb (snd p)) (map_to_list (disk e)) = true -> complete_image e.
Proof.
  rewrite !forallb_forall. intros H1 H2. split.
  - intros n Hn. specialize (H1 (Z.to_nat n)). rewrite in_seq, bool_decide_eq_true, Z2Nat.id in H1 by lia.
    apply H1. lia.
  - intros n b Hb. apply block_wfb_ok. apply (H2 (n, b)). by apply list_elem_of_In, elem_of_map_to_list.
Qed.

Lemma complete1 : complete_image env1.
Proof. apply complete_check; vm_compute; reflexivity. Qed.

(** Bits in the padding of a bitmap. *)
Lemma padding_bit pre n k : 8 * Z.of_nat (length pre) <= k < 8 * (Z.of_nat (length pre) + Z.of_nat n) ->
  TestBit (pre ++ repeat 255 n) k = true.
Proof.
  intros Hk. assert (Z.of_nat (length pre) <= k / 8 < Z.of_nat (length pre) + Z.of_nat n) as Hq
    by (split; [apply Z.div_le_lower_bound|apply Z.div_lt_upper_bound]; lia).
  assert (nth (Z.to_nat (k / 8)) (pre ++ repeat 255 n) 0 = 255) as Hb.
  { rewrite app_nth2 by lia. apply (repeat_spec n 255). apply nth_In. rewrite repeat_length. lia. }
  unfold TestBit, byte_at, bit_mask. rewrite Hb.
  pose proof (Z.mod_pos_bound k 8 ltac:(lia)) as Hm. set (j := k mod 8) in *.
  assert (j = 0 \/ j = 1 \/ j = 2 \/ j = 3 \/ j = 4 \/ j = 5 \/ j = 6 \/ j = 7) as Hj by lia.
  destruct Hj as [->|[->|[->|[->|[->|[->|[->| ->]]]]]]]; reflexivity.
Qed.

Lemma ready1 : ready sb0 size0 img1 current0 kA.
Proof.
  apply (ready_check _ _ _ _ _ (from_ok [] (EncodeSuperblock sb0))); vm_compute; reflexivity.
Qed.

Lemma opened1 : opened reader1 img1.
Proof.
  destruct complete1 as [_ Hwf]. pose proof (rdy_image _ _ _ _ _ ready1) as Hi.
  assert (forall (pre : bytes) n, Z.of_nat (length (pre ++ repeat 255 n)) * 8 =
            8 * (Z.of_nat (length pre) + Z.of_nat n)) as Hlen
    by (intros; rewrite length_app, repeat_length; lia).
  constructor; cbn [rd_superblock reader1 image_size_ inode_bitmap_ block_bitmap_
    rd_journal_control rd_journal_control_copy].
  - constructor; [reflexivity|reflexivity|apply (img_blocks _ _ _ Hi)|exact Hwf].
  - exact Hi.
  - apply (rdy_selected _ _ _ _ _ ready1).
  - vm_compute. reflexivity.
  - vm_compute. reflexivity.
  - change (start_block (data sb0)) with 12. apply (proj1 (all_set_spec _ 0 12)). vm_compute. reflexivity.
  - intros n Hn. apply padding_bit. rewrite Hlen in Hn. change (total_inodes sb0) with 16 in Hn. cbn [length] in *. lia.
  - intros n Hn. apply padding_bit. rewrite Hlen in Hn. change (total_blocks sb0) with 24 in Hn. cbn [length] in *. lia.
  - exists root1. split; vm_compute; reflexivity.
Qed.

Lemma inode1 : answer img1 (ReadInode reader1 2) = Ok file1.
Proof. vm_compute. reflexivity. Qed.

(** Opening. An image that opens, under any system-call behaviour, is
    consistent: its superblock, geometry and journal control are valid, the
    cached bitmaps are those on disk, every metadata block and every bit
    outside the image is marked used, and the root inode is a directory that
    reads back; opening has written nothing. Conversely every such image opens
    when the system calls succeed. *)
Theorem reader_opens (r : ImageReader) (e : env) :
  complete_image e ->
  (forall e', ReaderAdoptLockedFd true e = (e', Ok r) -> disk e' = disk e /\ opened r (disk e)) /\
  (responses e = [] -> st_size e = image_size_ r -> opened r (disk e) ->
   ReaderAdoptLockedFd true e = (e, Ok r)).
Proof. intros Hc. split; [intros e'; by apply adopt_opened|by apply adopt_complete]. Qed.

Lemma reader_opens_witness : ReaderAdoptLockedFd true env1 = (env1, Ok reader1).
Proof.
  refine (proj2 (reader_opens reader1 env1 _) _ _ _).
  - exact complete1.
  - reflexivity.
  - reflexivity.
  - exact opened1.
Defined.

(** C40. Reading files. For every inode the reader returns, [ReadFile] of any
    range succeeds and delivers exactly that range of the file's bytes, the
    blocks its pointers name in logical order cut at its size; it is short only
    at the end of the file. Under system-call faults it returns the same bytes
    or an error, and leaves the image alone. *)
Theorem read_file_correct r e n inode offset requested :
  view_ok r (disk e) -> answer (disk e) (ReadInode r n) = Ok inode -> S_ISREG (mode inode) = true ->
  0 <= offset -> 0 <= requested ->
  let out := slice (Z.to_nat offset) (Z.to_nat requested) (file_bytes (disk e) inode) in
  Z.of_nat (length (file_bytes (disk e) inode)) = i_size inode /\
  (responses e = [] -> (ReadFile r n offset requested e).2 = Ok out) /\
  (forall b, (ReadFile r n offset requested e).2 = Ok b -> b = out) /\
  disk (ReadFile r n offset requested e).1 = disk e.
Proof.
  intros Hv Hi Hreg Ho Hq out. pose proof (read_file_answer r _ Hv n inode offset requested Hi Hreg Ho Hq) as Ha.
  destruct (answer_run (ReadFile r n offset requested) e _) as (Hd & H1 & H2). conj_split.
  - apply (length_file_bytes r _ Hv). apply (read_inode_valid r _ Hv n inode Hi).
  - intros Hr. by apply H2.
  - intros b Hb. apply H1 in Hb. rewrite Ha in Hb. by injection Hb.
  - exact Hd.
Qed.

Lemma read_file_correct_witness :
  (ReadFile reader1 2 4095 100 env1).2 =
  Ok (slice (Z.to_nat 4095) (Z.to_nat 100) (file_bytes img1 file1)).
Proof.
  refine (proj1 (proj2 (read_file_correct reader1 env1 2 file1 4095 100 _ _ _ _ _)) _).
  - exact (op_view _ _ opened1).
  - exact inode1.
  - reflexivity.
  - lia.
  - lia.
  - reflexivity.
Defined.

(** Listing directories. [ListDirectory] answers with [es] exactly when the
    inode reads as a directory whose blocks are tiled by records, [es] are the
    active ones in order, their names are distinct and each names an allocated
    inode of the recorded type; in particular the record loop always reaches
    the end of a block. Listed names are valid, and faults change no answer. *)
Theorem listing_exact r e n es :
  view_ok r (disk e) ->
  (answer (disk e) (ListDirectory r n) = Ok es <-> directory_lists r (disk e) n es) /\
  (directory_lists r (disk e) n es -> Forall (fun x => IsValidName (name x) = true) es) /\
  ((ListDirectory r n e).2 = Ok es -> directory_lists r (disk e) n es) /\
  (responses e = [] -> directory_lists r (disk e) n es -> (ListDirectory r n e).2 = Ok es).
Proof.
  intros Hv. pose proof (list_directory_iff r _ Hv n es) as Hiff.
  destruct (answer_run (ListDirectory r n) e _) as (_ & H1 & H2). conj_split.
  - exact Hiff.
  - apply listed_names.
  - intros H. by apply Hiff, H1.
  - intros Hr H. apply H2; [done|]. by apply Hiff.
Qed.

Lemma listing_exact_witness : directory_lists reader1 img1 1 [entry1].
Proof.
  refine (proj1 (proj2 (proj2 (listing_exact reader1 env1 1 [entry1] _))) _).
  - exact (op_view _ _ opened1).
  - vm_compute. reflexivity.
Defined.

(** Resolving paths. The path with the given component names resolves to
    [(n, inode)] exactly when following the names from the root through the
    directory listings leads to [n] and [n] reads as [inode]; faults change no
    answer. *)
Theorem path_resolution r e cs n inode :
  view_ok r (disk e) -> Forall plain_name cs ->
  (answer (disk e) (ResolvePath r (path_of cs)) = Ok (n, inode) <->
   walk r (disk e) (root_inode (rd_superblock r)) cs n /\ answer (disk e) (ReadInode r n) = Ok inode) /\
  ((ResolvePath r (path_of cs) e).2 = Ok (n, inode) ->
   walk r (disk e) (root_inode (rd_superblock r)) cs n).
Proof.
  intros Hv Hcs. pose proof (resolve_path_iff r _ Hv cs n inode Hcs) as Hiff. split; [exact Hiff|].
  destruct (answer_run (ResolvePath r (path_of cs)) e _) as (_ & H1 & _). intros H. by apply Hiff, H1.
Qed.

Lemma path_resolution_witness : walk reader1 img1 1 [[102]] 2.
Proof.
  refine (proj2 (path_resolution reader1 env1 [[102]] 2 file1 _ _) _).
  - exact (op_view _ _ opened1).
  - constructor; [|constructor]. unfold plain_name. conj_split; try discriminate.
    intros [H|H]%elem_of_cons; [discriminate H|by apply not_elem_of_nil in H].
  - vm_compute. reflexivity.
Defined.
