(* ===== verification/LedgerStore.v ===== *)
(** The request ledger on an image: the start-up scan
    (src/object/request_ledger_index.cpp, [ScanRequestLedger]) and the planning
    of an append (src/object/request_ledger_plan.cpp,
    [PrepareRequestLedgerAppend]), both through the image reader. *)
From S2P Require Import Prelude Codec Crc32c OndiskFormat OndiskFormatProofs OndiskJournal Disk BitmapAllocator.
From S2P Require Import JournalImage JournalExample ImageReader ImageReaderProofs ReaderTheorems.
From S2P Require Import RequestLedger RequestLedgerProofs.
Open Scope Z_scope.

(** ".eufs.request-ledger" *)
Definition kRequestLedgerName : bytes :=
  [46; 101; 117; 102; 115; 46; 114; 101; 113; 117; 101; 115; 116; 45; 108; 101; 100; 103; 101; 114].
Definition kRequestLedgerInodeNumber : Z := 2.

(** The state of the slot loop: whether an empty slot was seen, the sequence
    number of the next slot, and the records so far. *)
Definition scan_state : Type := bool * Z * gmap bytes RequestLedgerRecord.

Fixpoint scan_block (slots : list bytes) (st : scan_state) : result errno scan_state :=
  match slots with
  | [] => Ok st
  | slot :: rest =>
    let '(saw_empty, sequence, records) := st in
    match DecodeRequestLedgerRecord slot sequence with
    | kCorrupt _ => Err EUCLEAN
    | kEmptySlot => scan_block rest (true, wrap64 (sequence + 1), records)
    | kRecord record =>
      if saw_empty then Err EUCLEAN
      else match records !! request_id record with
      | Some _ => Err EUCLEAN
      | None => scan_block rest (false, wrap64 (sequence + 1), <[request_id record := record]> records)
      end
    end
  end.

Section ledger.
Context (r : ImageReader).
Abbreviation sb := (rd_superblock r).

Definition ledger_path : bytes := slash :: kRequestLedgerName.

(** [ResolvePath] of the ledger, a missing path being corruption. *)
Definition resolve_ledger : io (Z * InodeRecord) := fun e =>
  match ResolvePath r ledger_path e with
  | (e, Err ENOENT) => (e, Err EUCLEAN)
  | x => x
  end.

Definition bad_ledger (inode_number : Z) (inode : InodeRecord) : bool :=
  negb (inode_number =? kRequestLedgerInodeNumber) || negb (S_ISREG (mode inode)) ||
  negb (link_count inode =? 1) || (i_size inode =? 0) ||
  negb (i_size inode mod kBlockSize =? 0) || negb (i_size inode mod kRequestLedgerRecordSize =? 0).

Fixpoint scan_ledger (inode : InodeRecord) (logicals : list Z) (st : scan_state) : io scan_state :=
  match logicals with
  | [] => io_ret st
  | logical :: rest =>
    io_bind (MapLogicalBlock r inode logical) (fun physical =>
    io_bind (ReadBlock r physical) (fun block =>
    match scan_block (block_slots block) st with
    | Err er => io_fail er
    | Ok st => scan_ledger inode rest st
    end))
  end.

Definition ScanRequestLedger : io RequestLedgerIndex :=
  if Z.land (sb_feature_incompat sb) kFeatureIncompatRequestLedger =? 0 then io_fail EOPNOTSUPP
  else if negb (Z.land (sb_feature_incompat sb) (Z.lnot kSupportedFeatureIncompat) =? 0)
  then io_fail EOPNOTSUPP
  else
  io_bind resolve_ledger (fun '(inode_number, inode) =>
  if bad_ledger inode_number inode then io_fail EUCLEAN
  else
  let capacity := i_size inode / kRequestLedgerRecordSize in
  let block_count := wrap32 (i_size inode / kBlockSize) in
  io_bind (scan_ledger inode (counting block_count) (false, 1, ∅)) (fun '(_, _, records) =>
  io_ret (mkIndex capacity (wrap64 (Z.of_nat (size records) + 1)) records))).

Definition set_sequence (v : RequestLedgerRecord) (s : Z) : RequestLedgerRecord :=
  mkLedger (operation v) (result_kind v) (request_id v) (fingerprint v) (result_code v)
    (committed_inode v) (committed_generation v) (current_inode v) (current_generation v) s.

Definition PrepareRequestLedgerAppend (index : RequestLedgerIndex)
    (record_without_sequence : RequestLedgerRecord) : io RequestLedgerAppendPlan :=
  if full index then io_fail ENOSPC
  else if Z.land (sb_feature_incompat sb) kFeatureIncompatRequestLedger =? 0 then io_fail EOPNOTSUPP
  else
  io_bind resolve_ledger (fun '(inode_number, inode) =>
  if bad_ledger inode_number inode ||
     negb (i_size inode / kRequestLedgerRecordSize =? capacity_ index) then io_fail EUCLEAN
  else
  let seq := next_sequence_ index in
  if (seq =? 0) || (capacity_ index <? seq) then io_fail EUCLEAN
  else
  let slot_index := wrap64 (seq - 1) in
  let logical := slot_index / kEntriesPerBlock in
  if u32_max <? logical then io_fail EOVERFLOW
  else
  io_bind (MapLogicalBlock r inode logical) (fun physical =>
  io_bind (ReadBlock r physical) (fun before =>
  let inside := slot_offset slot_index in
  if negb (IsZeroSlot before inside) then io_fail EUCLEAN
  else
  let record := set_sequence record_without_sequence seq in
  match EncodeRequestLedgerRecord record with
  | Err _ => io_fail EINVAL
  | Ok encoded =>
    io_ret (mkAppend seq logical physical (total_blocks sb) (sb_filesystem_uuid sb) record
              before (splice inside encoded before))
  end))).
End ledger.

(** * The scan *)
Lemma scan_block_slots slots : forall b s m,
  scan_slots slots b s m = match scan_block slots (b, s, m) with Ok (_, _, m') => Ok m' | Err er => Err er end.
Proof.
  induction slots as [|slot slots IH]; intros b s m; cbn [scan_slots scan_block]; [done|].
  destruct (DecodeRequestLedgerRecord slot s); [apply IH| |done]. destruct b; [done|].
  destruct (m !! _); [done|apply IH].
Qed.

Lemma scan_block_app l1 l2 : forall st,
  scan_block (l1 ++ l2) st = match scan_block l1 st with Ok st' => scan_block l2 st' | Err er => Err er end.
Proof.
  induction l1 as [|slot l1 IH]; intros [[b s] m]; cbn [app scan_block]; [done|].
  destruct (DecodeRequestLedgerRecord slot s); [apply IH| |done]. destruct b; [done|].
  destruct (m !! _); [done|apply IH].
Qed.

#[export] Instance reading_resolve_ledger r : Reading (resolve_ledger r).
Proof. apply reading_remap, _. Qed.
#[export] Instance reading_scan_ledger r inode ls st : Reading (scan_ledger r inode ls st).
Proof. revert st. induction ls; intros; cbn [scan_ledger]; apply _. Qed.
#[export] Instance reading_scan r : Reading (ScanRequestLedger r).
Proof.
  unfold ScanRequestLedger. do 2 (apply reading_if; [apply _|]). apply reading_bind; [apply _|intros [n inode]].
  apply reading_if; [apply _|]. apply reading_bind; [apply _|]. intros [[b s] m]. apply _.
Qed.
#[export] Instance reading_prepare r index record : Reading (PrepareRequestLedgerAppend r index record).
Proof.
  unfold PrepareRequestLedgerAppend. do 2 (apply reading_if; [apply _|]).
  apply reading_bind; [apply _|intros [n inode]]. apply _.
Qed.

Section store.
Context (r : ImageReader) (d : image) (Hv : view_ok r d).

Lemma answer_read_block n : 0 <= n < total_blocks (rd_superblock r) ->
  answer d (ReadBlock r n) = Ok (block_at d n).
Proof.
  intros Hn. unfold ReadBlock. rewrite answer_if, (proj2 (Z.leb_gt _ _)) by lia. by apply answer_block.
Qed.

Lemma answer_resolve_ledger x :
  answer d (resolve_ledger r) = Ok x <-> answer d (ResolvePath r ledger_path) = Ok x.
Proof.
  unfold answer, resolve_ledger. destruct (ResolvePath r ledger_path _) as [e1 [y|[]]]; done.
Qed.

Lemma scan_ledger_answer inode ls : inode_valid r d inode ->
  Forall (fun l => 0 <= l < required_blocks inode) ls -> forall st,
  answer d (scan_ledger r inode ls st) =
  scan_block (concat (map block_slots (map (fun l => block_at d (pointer d inode l)) ls))) st.
Proof.
  intros Hi Hls. induction Hls as [|l ls Hl _ IH]; intros st; cbn [scan_ledger map concat]; [done|].
  destruct (map_valid r d Hv inode l Hi Hl) as [Hm Hp].
  rewrite (answer_bind_ok _ _ _ _ _ Hm), (answer_bind_ok _ _ _ _ _ (answer_read_block _ Hp)).
  rewrite scan_block_app. destruct (scan_block (block_slots _) st) as [st'|]; [apply IH|done].
Qed.

(** The ledger file of the image. *)
Definition ledger_file (inode : InodeRecord) : Prop :=
  answer d (ResolvePath r ledger_path) = Ok (kRequestLedgerInodeNumber, inode) /\
  bad_ledger kRequestLedgerInodeNumber inode = false.

Lemma resolved_valid path n inode : answer d (ResolvePath r path) = Ok (n, inode) -> inode_valid r d inode.
Proof.
  destruct path as [|c rest]; [done|]. cbn [ResolvePath]. rewrite answer_if. destruct (negb _); [done|].
  assert (forall cur, answer d (io_bind (ReadInode r cur) (fun i => io_ret (cur, i))) = Ok (n, inode) ->
            inode_valid r d inode) as Hfin.
  { intros cur E. apply answer_bind_inv in E as (i & Ei & E); [|apply _]. injection E as _ <-.
    by apply (read_inode_valid r d Hv cur). }
  rewrite answer_if. destruct (bool_decide _); [apply Hfin|]. rewrite answer_if.
  destruct (bool_decide _); [done|]. intros E. apply answer_bind_inv in E as (cur & _ & E); [|apply _].
  by apply (Hfin cur).
Qed.

Lemma ledger_facts inode : ledger_file inode ->
  inode_valid r d inode /\ required_blocks inode = i_size inode / 4096 /\
  i_size inode = required_blocks inode * 4096 /\ 1 <= required_blocks inode <= 1036.
Proof.
  intros [Hr Hb]. pose proof (resolved_valid _ _ _ Hr) as Hi. split; [done|].
  destruct (required_spec inode (iv_size _ _ _ Hi)) as [Hreq Hrb]. pose proof (iv_size _ _ _ Hi) as Hsz.
  unfold bad_ledger in Hb. unfold kBlockSize in Hb. bool_to_prop.
  pose proof (Z.div_mod (i_size inode) 4096 ltac:(lia)) as Hdm.
  assert (required_blocks inode = i_size inode / 4096) as Heq.
  { rewrite Hreq. rewrite Hdm at 1. replace (i_size inode mod 4096) with 0 by lia.
    rewrite Z.add_0_r, (Z.mul_comm 4096), Z.add_comm, Z.div_add, Z.div_small by lia. lia. }
  split; [done|]. lia.
Qed.

Lemma scan_answer index : answer d (ScanRequestLedger r) = Ok index <->
  Z.land (sb_feature_incompat (rd_superblock r)) kFeatureIncompatRequestLedger <> 0 /\
  Z.land (sb_feature_incompat (rd_superblock r)) (Z.lnot kSupportedFeatureIncompat) = 0 /\
  exists inode, ledger_file inode /\ ScanBlocks (file_blocks d inode) = Ok index.
Proof.
  unfold ScanRequestLedger. rewrite !answer_if.
  destruct (Z.eqb_spec (Z.land (sb_feature_incompat (rd_superblock r)) kFeatureIncompatRequestLedger) 0) as [E1|E1];
    [split; [done|by intros []]|].
  destruct (Z.eqb_spec (Z.land (sb_feature_incompat (rd_superblock r)) (Z.lnot kSupportedFeatureIncompat)) 0)
    as [E2|E2]; cbn [negb]; [|split; [done|by intros (_ & ? & _)]].
  assert (forall inode, ledger_file inode ->
    answer d (io_bind (scan_ledger r inode (counting (wrap32 (i_size inode / kBlockSize))) (false, 1, ∅))
      (fun '(_, _, records) => io_ret (mkIndex (i_size inode / kRequestLedgerRecordSize)
         (wrap64 (Z.of_nat (size records) + 1)) records))) = ScanBlocks (file_blocks d inode)) as Hscan.
  { intros inode Hl. destruct (ledger_facts inode Hl) as (Hi & Hreq & Hsz & Hrb).
    unfold kBlockSize. rewrite <- Hreq, wrap32_small by word. rewrite answer_bind by apply _.
    rewrite scan_ledger_answer; [|done|apply Forall_forall; intros l; apply elem_counting].
    unfold ScanBlocks. rewrite scan_block_slots. unfold file_blocks. rewrite length_map, length_counting.
    destruct (scan_block _ _) as [[[b s] m]|]; [|done]. unfold answer, io_ret. cbn [snd]. do 2 f_equal.
    change kRequestLedgerRecordSize with 128. change kEntriesPerBlock with 32. rewrite Hsz, Z2Nat.id by lia.
    replace (required_blocks inode * 4096) with (required_blocks inode * 32 * 128) by lia. by rewrite Z.div_mul. }
  split.
  - intros E. apply answer_bind_inv in E as ([n inode] & Er%answer_resolve_ledger & E); [|apply _].
    rewrite answer_if in E. destruct (bad_ledger n inode) eqn:Eb; [done|].
    assert (n = kRequestLedgerInodeNumber) as ->. { unfold bad_ledger in Eb. by bool_to_prop. }
    assert (ledger_file inode) as Hl by done. cbv zeta in E. rewrite (Hscan inode Hl) in E. eauto.
  - intros (_ & _ & inode & Hl & E). pose proof Hl as [Hr Hb]. apply answer_resolve_ledger in Hr.
    rewrite (answer_bind_ok _ _ _ _ _ Hr), answer_if, Hb. cbv zeta. by rewrite Hscan.
Qed.

(** * Appending *)
Lemma length_block_slots b : length (block_slots b) = 32%nat.
Proof. unfold block_slots. by rewrite length_map, length_seq. Qed.

Lemma block_slots_lookup b i : (i < 32)%nat ->
  block_slots b !! i = Some (slice (i * LedgerLen) LedgerLen b).
Proof.
  intros Hi. unfold block_slots. change (Z.to_nat kEntriesPerBlock) with 32%nat.
  change (map ?f ?l) with (f <$> l). rewrite list_lookup_fmap, lookup_seq_lt by done. done.
Qed.

(** Overwriting one slot of a block. *)
Lemma block_slots_splice b j enc : length b = BlockLen -> (j < 32)%nat -> length enc = LedgerLen ->
  block_slots (splice (j * LedgerLen) enc b) = <[j := enc]> (block_slots b).
Proof.
  intros Hb Hj He. apply list_eq. intros i. destruct (decide (i < 32)%nat) as [Hi|Hi].
  - rewrite block_slots_lookup by done. change BlockLen with 4096%nat in Hb. change LedgerLen with 128%nat in *.
    destruct (decide (i = j)) as [->|Hne].
    + rewrite list_lookup_insert_eq by (rewrite length_block_slots; lia). f_equal.
      apply slice_splice_same; lia.
    + rewrite list_lookup_insert_ne, block_slots_lookup by done. f_equal.
      change LedgerLen with 128%nat. apply slice_splice_ne; lia.
  - rewrite !lookup_ge_None_2; [done|rewrite length_insert, length_block_slots; lia|rewrite length_block_slots; lia].
Qed.

Lemma concat_insert {A} B (L : list (list A)) l j x M :
  Forall (fun y => length y = B) L -> L !! l = Some M -> (j < B)%nat ->
  concat (<[l := <[j := x]> M]> L) = <[(l * B + j)%nat := x]> (concat L).
Proof.
  revert l. induction L as [|y L IH]; intros l HL Hl Hj; [done|]. apply Forall_cons in HL as [Hy HL].
  destruct l as [|l]; cbn in Hl.
  - injection Hl as <-. cbn [concat]. rewrite insert_app_l by lia. done.
  - change (<[S l := <[j := x]> M]> (y :: L)) with (y :: <[l := <[j := x]> M]> L). cbn [concat].
    rewrite (IH l) by done. replace (S l * B + j)%nat with (length y + (l * B + j))%nat by lia.
    by rewrite insert_app_r.
Qed.

(** No block of the file is used twice. *)
Definition distinct_blocks (inode : InodeRecord) : Prop :=
  (forall l l', 0 <= l < required_blocks inode -> 0 <= l' < required_blocks inode ->
     pointer d inode l = pointer d inode l' -> l = l') /\
  (12 < required_blocks inode ->
     forall l, 0 <= l < required_blocks inode -> pointer d inode l <> indirect_block inode).

(** The blocks of the file after one of them has been rewritten. *)
Lemma file_blocks_rewrite inode l b :
  inode_valid r d inode -> distinct_blocks inode -> 0 <= l < required_blocks inode ->
  file_blocks (<[pointer d inode l := b]> d) inode = <[Z.to_nat l := b]> (file_blocks d inode).
Proof.
  intros Hi [Hinj Hind] Hl. set (d' := <[pointer d inode l := b]> d).
  assert (forall l', pointer d' inode l' = pointer d inode l') as Hp.
  { intros l'. unfold pointer, pointers. destruct (Z.leb_spec (required_blocks inode) kDirectBlockCount) as [|Hlg]; [done|].
    unfold block_at, d'. rewrite lookup_insert_ne; [done|]. by apply Hind. }
  apply list_eq. intros i. unfold file_blocks.
  destruct (decide (i < Z.to_nat (required_blocks inode))%nat) as [Hlt|Hge].
  2: { rewrite !lookup_ge_None_2; [done|rewrite length_insert, length_map, length_counting; lia|
         rewrite length_map, length_counting; lia]. }
  assert (counting (required_blocks inode) !! i = Some (Z.of_nat i)) as Hc.
  { unfold counting. change (map ?f ?k) with (f <$> k). rewrite list_lookup_fmap, lookup_seq_lt by done. done. }
  assert (forall f : Z -> bytes, map f (counting (required_blocks inode)) !! i = Some (f (Z.of_nat i))) as Hm.
  { intros f. change (map f ?k) with (f <$> k). by rewrite list_lookup_fmap, Hc. }
  rewrite Hm, Hp. unfold block_at, d'. destruct (decide (i = Z.to_nat l)) as [->|Hne].
  - rewrite Z2Nat.id by lia. rewrite lookup_insert_eq, list_lookup_insert_eq; [done|].
    rewrite length_map, length_counting. lia.
  - rewrite list_lookup_insert_ne by done. rewrite Hm, lookup_insert_ne; [done|].
    intros E. apply Hinj in E; lia.
Qed.

Lemma slots_rewrite inode l j enc : inode_valid r d inode -> 0 <= l < required_blocks inode ->
  (j < 32)%nat -> length enc = LedgerLen ->
  concat (map block_slots (<[Z.to_nat l := splice (j * LedgerLen) enc (block_at d (pointer d inode l))]>
    (file_blocks d inode))) =
  <[(Z.to_nat l * 32 + j)%nat := enc]> (concat (map block_slots (file_blocks d inode))).
Proof.
  intros Hi Hl Hj He. change (map block_slots ?k) with (block_slots <$> k). rewrite list_fmap_insert.
  pose proof (file_blocks_wf r d Hv inode Hi) as Hwf.
  assert (file_blocks d inode !! Z.to_nat l = Some (block_at d (pointer d inode l))) as Hlk.
  { unfold file_blocks, counting. change (map ?f ?k) with (f <$> k).
    rewrite !list_lookup_fmap, lookup_seq_lt by lia. cbn. by rewrite Z2Nat.id by lia. }
  rewrite block_slots_splice; [|by apply (Forall_lookup_1 _ _ _ _ Hwf Hlk)|done|done].
  apply concat_insert; [|by rewrite list_lookup_fmap, Hlk|done].
  apply Forall_fmap, Forall_forall. intros b _. apply length_block_slots.
Qed.

Lemma file_slots_wf inode : inode_valid r d inode ->
  Forall slot_wf (concat (map block_slots (file_blocks d inode))) /\
  length (concat (map block_slots (file_blocks d inode))) = (Z.to_nat (required_blocks inode) * 32)%nat.
Proof.
  intros Hi. split.
  - apply Forall_concat, Forall_fmap, Forall_forall. intros b Hb. cbn.
    unfold file_blocks in Hb. apply list_elem_of_fmap in Hb as (l & -> & Hl%elem_counting).
    destruct (map_valid r d Hv inode l Hi Hl) as [_ Hp]. destruct (answer_block r d Hv _ Hp) as [_ [Hlen Hok]].
    apply Forall_forall. intros x Hx. unfold block_slots in Hx. apply list_elem_of_fmap in Hx as (j & -> & Hj%elem_of_seq).
    split; [|by apply bytes_ok_slice]. apply length_slice. rewrite Hlen.
    change (Z.to_nat kEntriesPerBlock) with 32%nat in Hj. change BlockLen with 4096%nat. change LedgerLen with 128%nat. lia.
  - rewrite <- (length_file_blocks d inode). induction (file_blocks d inode) as [|b bs IH]; [done|].
    cbn [map concat length]. rewrite length_app, length_block_slots, IH. lia.
Qed.

(** What a prepared append looks like. *)
Lemma prepare_inv index record plan :
  0 <= next_sequence_ index ->
  answer d (PrepareRequestLedgerAppend r index record) = Ok plan ->
  exists inode encoded, ledger_file inode /\
    capacity_ index = required_blocks inode * 32 /\ full index = false /\
    1 <= next_sequence_ index <= capacity_ index /\
    let seq := next_sequence_ index in let logical := (seq - 1) / 32 in
    let before := block_at d (pointer d inode logical) in
    0 <= logical < required_blocks inode /\
    IsZeroSlot before (slot_offset (seq - 1)) = true /\
    EncodeRequestLedgerRecord (set_sequence record seq) = Ok encoded /\
    plan = mkAppend seq logical (pointer d inode logical) (total_blocks (rd_superblock r))
      (sb_filesystem_uuid (rd_superblock r)) (set_sequence record seq) before
      (splice (slot_offset (seq - 1)) encoded before).
Proof.
  intros Hseq. unfold PrepareRequestLedgerAppend. rewrite !answer_if. destruct (full index) eqn:Ef; [done|].
  destruct (_ =? 0); [done|]. intros E.
  apply answer_bind_inv in E as ([n inode] & Er%answer_resolve_ledger & E); [|apply _].
  rewrite answer_if in E. destruct (_ || _) eqn:Eb in E; [done|]. apply orb_false_elim in Eb as [Eb Ec].
  assert (n = kRequestLedgerInodeNumber) as ->. { unfold bad_ledger in Eb. by bool_to_prop. }
  assert (ledger_file inode) as Hl by done. destruct (ledger_facts inode Hl) as (Hi & Hreq & Hsz & Hrb).
  change kRequestLedgerRecordSize with 128 in Ec. change kEntriesPerBlock with 32 in E.
  apply negb_false_iff, Z.eqb_eq in Ec. rewrite Hsz in Ec.
  replace (required_blocks inode * 4096) with (required_blocks inode * 32 * 128) in Ec by lia.
  rewrite Z.div_mul in Ec by lia. cbv zeta in E. rewrite answer_if in E. destruct (_ || _) eqn:Es in E; [done|].
  bool_to_prop. rewrite wrap64_small in E by word.
  assert (0 <= (next_sequence_ index - 1) / 32 < required_blocks inode) as Hlog
    by (split; [apply Z.div_pos|apply Z.div_lt_upper_bound]; lia).
  rewrite answer_if, (proj2 (Z.ltb_ge u32_max _)) in E by (unfold u32_max; lia).
  destruct (map_valid r d Hv inode _ Hi Hlog) as [Hm Hp].
  rewrite (answer_bind_ok _ _ _ _ _ Hm), (answer_bind_ok _ _ _ _ _ (answer_read_block _ Hp)) in E.
  rewrite answer_if in E. destruct (IsZeroSlot _ _) eqn:Ez; cbn [negb] in E; [|done].
  destruct (EncodeRequestLedgerRecord _) as [encoded|] eqn:Een; [|done]. injection E as <-.
  exists inode, encoded. conj_split; try done; lia.
Qed.

Lemma typed_set_sequence v q : ledger_typed v -> u64 q -> ledger_typed (set_sequence v q).
Proof. intros (H1 & H2 & H3 & H4 & H5). unfold ledger_typed. cbn. tauto. Qed.

Lemma prepared_validates index record plan :
  0 <= next_sequence_ index -> 0 < total_blocks (rd_superblock r) ->
  answer d (PrepareRequestLedgerAppend r index record) = Ok plan ->
  ValidateAppendPlan plan = Ok tt /\ data_block r (ap_physical_block plan) /\
  ap_before_image plan = block_at d (ap_physical_block plan).
Proof.
  intros Hseq Ht H. destruct (prepare_inv index record plan Hseq H) as
    (inode & encoded & Hl & Hcap & Hf & Hrange & Hlog & Hz & He & ->).
  destruct (ledger_facts inode Hl) as (Hi & _ & _ & Hrb).
  destruct (iv_used _ _ _ Hi _ Hlog) as [_ Hdb]. split; [|done].
  destruct (data_block_pos r d Hv _ Hdb) as [Hp0 Hp1].
  unfold ValidateAppendPlan. cbn [ap_sequence ap_record ap_total_blocks ap_physical_block ap_logical_block
    ap_before_image ap_after_image sequence set_sequence].
  change kEntriesPerBlock with 32. rewrite wrap64_small by word.
  rewrite Z.eqb_refl, (proj2 (Z.eqb_neq _ 0)), (proj2 (Z.eqb_neq _ 0)), (proj2 (Z.leb_gt _ _)) by lia.
  cbn [negb orb]. rewrite (proj2 (Z.ltb_ge _ _)), Z.eqb_refl by (unfold u32_max; lia). cbn [negb orb].
  rewrite Hz. cbn [negb]. rewrite He. by rewrite bool_decide_eq_true_2.
Qed.

(** The scanned index, the prepared record and the rewritten block agree. *)
Lemma prepared_rescans index record plan inode :
  answer d (ScanRequestLedger r) = Ok index -> ledger_typed record -> Find index (request_id record) = None ->
  answer d (PrepareRequestLedgerAppend r index record) = Ok plan ->
  ledger_file inode -> distinct_blocks inode ->
  exists index', AppendCommitted index (ap_record plan) false = (index', Ok tt) /\
    ScanBlocks (file_blocks (<[ap_physical_block plan := ap_after_image plan]> d) inode) = Ok index'.
Proof.
  intros Hscan Hty Hfind Hprep Hlf Hdist.
  apply scan_answer in Hscan as (_ & _ & inode1 & Hlf1 & Hscan).
  assert (inode1 = inode) as ->. { destruct Hlf as [E _], Hlf1 as [E1 _]. congruence. }
  destruct (ledger_facts inode Hlf) as (Hi & _ & _ & Hrb). destruct (file_slots_wf inode Hi) as [Hsw Hsl].
  pose proof Hscan as Hs0. unfold ScanBlocks in Hs0. set (slots := concat (map block_slots (file_blocks d inode))) in *.
  destruct (scan_slots slots false 1 ∅) as [m|] eqn:Em; [|done]. injection Hs0 as Hidx.
  pose proof (length_file_blocks d inode) as Hnb. change kEntriesPerBlock with 32 in Hidx.
  assert (Z.of_nat (size m) <= Z.of_nat (length slots)) as Hsm.
  { destruct (scan_sound slots 1 ∅ m Hsw ltac:(lia) ltac:(lia) Em) as (rs & k & Hs & _ & Hnd & _ & ->).
    rewrite (right_id_L ∅ (∪)), size_index_of, Hs by done. unfold ledger_slots.
    rewrite length_app, length_map. lia. }
  rewrite wrap64_small in Hidx by word. rewrite Hnb, Z2Nat.id in Hidx by lia.
  replace (required_blocks inode * 32) with (Z.of_nat (length slots)) in Hidx by lia. subst index.
  match type of Hprep with context [PrepareRequestLedgerAppend r ?i _] =>
    assert (0 <= next_sequence_ i) as Hnn by (cbn; lia) end.
  destruct (prepare_inv _ record plan Hnn Hprep) as
    (inode2 & encoded & Hlf2 & Hcap & Hf & Hrange & Hlog & Hz & He & ->).
  assert (inode2 = inode) as ->. { destruct Hlf as [E _], Hlf2 as [E2 _]. congruence. }
  cbn [next_sequence_ capacity_ records_ ap_record ap_physical_block ap_after_image] in *. unfold Find in Hfind.
  cbn [records_] in Hfind. set (seq := Z.of_nat (size m) + 1) in *.
  set (rec := set_sequence record seq) in *.
  assert (ledger_typed rec) as Htr by (apply typed_set_sequence; [done|unfold seq; word]).
  set (index' := mkIndex (Z.of_nat (length slots)) (wrap64 (seq + 1)) (<[request_id record := rec]> m)).
  assert (AppendCommitted (mkIndex (Z.of_nat (length slots)) seq m) rec false = (index', Ok tt)) as Happ.
  { unfold AppendCommitted. rewrite Hf. cbn [next_sequence_ records_ capacity_].
    change (sequence rec) with seq. rewrite Z.eqb_refl. cbn [negb]. rewrite He.
    change (request_id rec) with (request_id record). by rewrite Hfind. }
  exists index'. split; [exact Happ|].
  destruct (rescan_after_append slots m rec index' Hsw ltac:(lia) Htr Em Happ) as
    (encoded' & He' & _ & Hre & Hnext & _). rewrite He in He'. injection He' as <-.
  rewrite (file_blocks_rewrite inode _ _ Hi Hdist Hlog).
  destruct (LedgerCodec.encode_inv rec encoded Htr He) as [Hvr ->].
  destruct (LedgerCodec.image_ok rec Htr Hvr) as (Hlen & _).
  pose proof (Z.div_mod (seq - 1) 32 ltac:(lia)) as Hdm. pose proof (Z.mod_pos_bound (seq - 1) 32 ltac:(lia)) as Hmb.
  assert (slot_offset (seq - 1) = (Z.to_nat ((seq - 1) mod 32) * LedgerLen)%nat) as ->.
  { unfold slot_offset. change kEntriesPerBlock with 32. change kRequestLedgerRecordSize with 128.
    change LedgerLen with 128%nat. lia. }
  unfold ScanBlocks. rewrite slots_rewrite by (done || lia). fold slots.
  replace (Z.to_nat ((seq - 1) / 32) * 32 + Z.to_nat ((seq - 1) mod 32))%nat with (size m) by (unfold seq in *; lia).
  rewrite Hre, length_insert, Hnb. unfold index' in *. cbn [records_ next_sequence_] in *.
  change kEntriesPerBlock with 32. f_equal. f_equal; [lia|]. rewrite <- Hnext. unfold wrap64. apply Z.mod_mod. lia.
Qed.
End store.

(** * An image with an empty ledger *)
Definition sb2 : Superblock :=
  mkSuperblock (total_blocks sb0) (total_inodes sb0) (root_inode sb0) (inode_bitmap sb0) (block_bitmap sb0)
    (inode_table sb0) (journal sb0) (data sb0) 0 0 1 (sb_filesystem_uuid sb0) 0.
Definition ledger2 : InodeRecord :=
  mkInode 2 33152 0 0 1 4096 1 1 1 0 1 [13; 0; 0; 0; 0; 0; 0; 0; 0; 0; 0; 0] 0.
Definition entry2 : DirectoryEntry := mkDirectoryEntry 2 kRegular kRequestLedgerName 4096.
Definition img2 : image :=
  <[0 := from_ok [] (EncodeSuperblock sb2)]>
  (<[3 := from_ok [] (EncodeInode root1) ++ from_ok [] (EncodeInode ledger2) ++ zeros 3840]>
  (<[12 := from_ok [] (EncodeDirectoryEntry entry2 4096 zero_block)]>
  (<[13 := zero_block]> img1))).
Definition env2 : env := mkEnv img2 size0 [] [].
Definition reader2 : ImageReader :=
  mkReader size0 sb2 current0 kA (inode_bitmap_ reader1) (block_bitmap_ reader1).
Definition index2 : RequestLedgerIndex := mkIndex 32 1 ∅.

Lemma view2 : view_ok reader2 img2.
Proof.
  assert (complete_image env2) as [Hall Hwf] by (apply complete_check; vm_compute; reflexivity).
  constructor; [reflexivity|reflexivity| |exact Hwf].
  intros n Hn. change (total_blocks (rd_superblock reader2)) with 24 in Hn.
  destruct (Hall n) as [b Hb]; [change (st_size env2 / kBlockSize) with 24; lia|].
  exists b. split; [exact Hb|]. by apply (Hwf n).
Qed.

Lemma scanned2 : answer img2 (ScanRequestLedger reader2) = Ok index2.
Proof. vm_compute. reflexivity. Qed.

Lemma ledger_file2 : ledger_file reader2 img2 ledger2.
Proof. split; vm_compute; reflexivity. Qed.

Lemma distinct2 : distinct_blocks img2 ledger2.
Proof.
  split; change (required_blocks ledger2) with 1; [|lia]. intros l l' Hl Hl' _. lia.
Qed.

(** The start-up scan. [ScanRequestLedger] answers with an index exactly
    when the image declares the ledger feature and nothing unknown, the ledger
    path leads to inode 2, a regular file of whole blocks with one link, and the
    slots of the file's blocks in order scan to that index (see [scan_exact]);
    under system-call faults it gives the same index or an error. *)
Theorem ledger_scan_exact r e index :
  view_ok r (disk e) ->
  (answer (disk e) (ScanRequestLedger r) = Ok index <->
   Z.land (sb_feature_incompat (rd_superblock r)) kFeatureIncompatRequestLedger <> 0 /\
   Z.land (sb_feature_incompat (rd_superblock r)) (Z.lnot kSupportedFeatureIncompat) = 0 /\
   exists inode, ledger_file r (disk e) inode /\ ScanBlocks (file_blocks (disk e) inode) = Ok index) /\
  (forall index', (ScanRequestLedger r e).2 = Ok index' ->
   answer (disk e) (ScanRequestLedger r) = Ok index').
Proof.
  intros Hv. split; [by apply scan_answer|].
  destruct (answer_run (ScanRequestLedger r) e _) as (_ & H & _). exact H.
Qed.

Lemma ledger_scan_exact_witness :
  exists inode, ledger_file reader2 img2 inode /\ ScanBlocks (file_blocks img2 inode) = Ok index2.
Proof.
  refine (proj2 (proj2 (proj1 (proj1 (ledger_scan_exact reader2 env2 index2 _)) _))).
  - exact view2.
  - exact scanned2.
Defined.

(** Planning an append. A plan prepared for the index the scan found passes
    the plan validation, targets an allocated data block and carries its current
    contents. If the request is new and no block of the ledger file is used
    twice, then rewriting that block as planned makes the next scan find
    exactly the index that [AppendCommitted] computes in memory. *)
Theorem ledger_append_plan r d index record plan :
  view_ok r d -> 0 < total_blocks (rd_superblock r) -> ledger_typed record ->
  answer d (ScanRequestLedger r) = Ok index -> 0 <= next_sequence_ index ->
  answer d (PrepareRequestLedgerAppend r index record) = Ok plan ->
  ValidateAppendPlan plan = Ok tt /\ data_block r (ap_physical_block plan) /\
  ap_before_image plan = block_at d (ap_physical_block plan) /\
  (forall inode, Find index (request_id record) = None -> ledger_file r d inode ->
   distinct_blocks d inode ->
   exists index', AppendCommitted index (ap_record plan) false = (index', Ok tt) /\
     ScanBlocks (file_blocks (<[ap_physical_block plan := ap_after_image plan]> d) inode) = Ok index').
Proof.
  intros Hv Ht Hty Hs Hn Hp. destruct (prepared_validates r d Hv index record plan Hn Ht Hp) as (H1 & H2 & H3).
  conj_split; try done. intros inode Hf Hl Hd. by apply (prepared_rescans r d Hv index record plan inode).
Qed.

Definition plan2 : RequestLedgerAppendPlan :=
  mkAppend 1 0 13 24 (sb_filesystem_uuid sb0) (record0 1) zero_block (splice 0 (slot0 1) zero_block).

Lemma ledger_append_plan_witness :
  exists index', AppendCommitted index2 (record0 1) false = (index', Ok tt) /\
    ScanBlocks (file_blocks (<[13 := splice 0 (slot0 1) zero_block]> img2) ledger2) = Ok index'.
Proof.
  refine (proj2 (proj2 (proj2 (ledger_append_plan reader2 img2 index2 (record0 1) plan2 _ _ _ _ _ _))) ledger2 _ _ _).
  - exact view2.
  - reflexivity.
  - apply record0_typed. lia.
  - exact scanned2.
  - cbn. lia.
  - vm_compute. reflexivity.
  - reflexivity.
  - exact ledger_file2.
  - exact distinct2.
Defined.
