(* ===== verification/RpcQueue.v ===== *)
(** Admission control of the RPC service: the in-flight byte limiter
    (src/rpc/inflight_byte_limiter.cpp) and the bounded task queue with its
    tasks (src/rpc/bounded_task_queue.cpp). Every operation holds one mutex, so
    an interleaving of threads is a sequence of the steps below. *)
From S2P Require Import Prelude.
Open Scope Z_scope.

(** * The limiter *)
Record LimiterState := mkLimiter { limit_bytes : Z; used_bytes : Z }.

(** A lease is empty ([state_ == nullptr]) or holds its number of bytes. *)
Abbreviation Lease := (option Z).

Definition TryAcquire (s : LimiterState) (n : Z) : LimiterState * Lease :=
  if wrap64 (limit_bytes s - used_bytes s) <? n then (s, None)
  else (mkLimiter (limit_bytes s) (wrap64 (used_bytes s + n)), Some n).

Definition LeaseReset (s : LimiterState) (l : Lease) : LimiterState :=
  match l with
  | None => s
  | Some n => mkLimiter (limit_bytes s) (wrap64 (used_bytes s - n))
  end.

(** * Tasks *)
(** The callbacks of a task are known by the task's number; running one appends
    the number and whether it was the execute callback to the log. *)
Record QueuedTask := mkTask { t_id : nat; byte_lease : Lease; active : bool }.
Definition empty_task : QueuedTask := mkTask 0 None false.

Definition completion : Type := nat * bool.

(** The constructor with a lease; [execute] and [cancel] say whether the
    callbacks are callable. *)
Definition MakeTask (id : nat) (lease : Lease) (execute cancel : bool) : QueuedTask :=
  mkTask id lease (match lease with Some _ => true | None => false end && execute && cancel).

(** The constructor of tasks that hold no bytes. *)
Definition MakeFreeTask (id : nat) (execute cancel : bool) : QueuedTask := mkTask id None (execute && cancel).

(** [Finish] takes no lock: the task belongs to its thread, but other threads
    run between the selection of the callback and the release of the lease, so
    the two halves are separate. *)
Definition FinishBegin (run : bool) (t : QueuedTask) (log : list completion)
    : QueuedTask * list completion * bool :=
  if active t then (mkTask (t_id t) (byte_lease t) false, log ++ [(t_id t, run)], true)
  else (t, log, false).

Definition FinishEnd (t : QueuedTask) (s : LimiterState) : QueuedTask * LimiterState :=
  (mkTask (t_id t) None (active t), LeaseReset s (byte_lease t)).

Definition Finish (run : bool) (t : QueuedTask) (s : LimiterState) (log : list completion)
    : QueuedTask * LimiterState * list completion * bool :=
  let '(t, log, selected) := FinishBegin run t log in
  if selected then let '(t, s) := FinishEnd t s in (t, s, log, true) else (t, s, log, false).

Definition Run := Finish true.
Definition Cancel := Finish false.

(** The destructor: cancel, then the members' destructors release the lease. *)
Definition Destroy (t : QueuedTask) (s : LimiterState) (log : list completion)
    : LimiterState * list completion :=
  let '(t, s, log, _) := Cancel t s log in (LeaseReset s (byte_lease t), log).

(** What a move leaves behind. *)
Definition moved_from (t : QueuedTask) : QueuedTask := mkTask (t_id t) None false.

(** * The queue *)
Inductive EnqueueResult := kAccepted | kFull | kStopped | kResourceExhausted | kInvalid.

Record BoundedTaskQueue := mkQueue { capacity_ : nat; tasks_ : list QueuedTask; stopped_ : bool }.

(** [oom] says whether the allocation in [push_back] fails. *)
Definition TryEnqueue (q : BoundedTaskQueue) (task : QueuedTask) (oom : bool)
    : BoundedTaskQueue * QueuedTask * EnqueueResult :=
  if negb (active task) then (q, task, kInvalid)
  else if stopped_ q then (q, task, kStopped)
  else if (capacity_ q <=? length (tasks_ q))%nat then (q, task, kFull)
  else if oom then (q, task, kResourceExhausted)
  else (mkQueue (capacity_ q) (tasks_ q ++ [task]) (stopped_ q), moved_from task, kAccepted).

(** Whether a waiting thread may proceed, and what it then does; the result is
    the popped task, or [None] when the queue is stopped and empty. *)
Definition pop_ready (q : BoundedTaskQueue) : bool :=
  stopped_ q || negb (bool_decide (tasks_ q = [])).
Definition WaitPop (q : BoundedTaskQueue) : BoundedTaskQueue * option QueuedTask :=
  match tasks_ q with
  | [] => (q, None)
  | t :: rest => (mkQueue (capacity_ q) rest (stopped_ q), Some t)
  end.

Definition StopAndTakePending (q : BoundedTaskQueue) : BoundedTaskQueue * list QueuedTask :=
  (mkQueue (capacity_ q) [] true, tasks_ q).

(** * The service: limiter, queue, the tasks threads hold, the completions so
    far, and the number of tasks that have been made runnable. *)
Record service := mkService {
  limiter : LimiterState;
  queue : BoundedTaskQueue;
  held : list QueuedTask;
  completed : list completion;
  issued : nat
}.

Inductive step : service -> service -> Prop :=
| step_admit l q h log n bytes l' lease :
    0 <= bytes < 18446744073709551616 -> TryAcquire l bytes = (l', Some lease) ->
    step (mkService l q h log n)
         (mkService l' q (h ++ [MakeTask n (Some lease) true true]) log (S n))
| step_reject l q h log n bytes l' :
    TryAcquire l bytes = (l', None) ->
    step (mkService l q h log n) (mkService l' q h log n)
| step_enqueue l q h log n i t oom q' t' r :
    h !! i = Some t -> TryEnqueue q t oom = (q', t', r) ->
    step (mkService l q h log n) (mkService l q' (<[i := t']> h) log n)
| step_pop l q h log n i old q' t :
    (* [*output = std::move(front)] first cancels what the output holds *)
    h !! i = Some old -> active old = false -> byte_lease old = None ->
    pop_ready q = true -> WaitPop q = (q', Some t) ->
    step (mkService l q h log n) (mkService l q' (<[i := t]> h) log n)
| step_begin l q h log n i t run t' log' b :
    h !! i = Some t -> FinishBegin run t log = (t', log', b) ->
    step (mkService l q h log n) (mkService l q (<[i := t']> h) log' n)
| step_end l q h log n i t t' l' :
    (* the second half of [Finish], or the lease's destructor *)
    h !! i = Some t -> active t = false -> FinishEnd t l = (t', l') ->
    step (mkService l q h log n) (mkService l' q (<[i := t']> h) log n)
| step_stop l q h log n q' pending :
    StopAndTakePending q = (q', pending) ->
    step (mkService l q h log n) (mkService l q' (h ++ pending) log n).

Definition initial (limit : Z) (capacity : nat) : service :=
  mkService (mkLimiter limit 0) (mkQueue capacity [] false) [] [] 0.

(** * Sums over tasks *)
Fixpoint sum_of (f : QueuedTask -> Z) (l : list QueuedTask) : Z :=
  match l with [] => 0 | t :: l => f t + sum_of f l end.

Lemma sum_app f l l' : sum_of f (l ++ l') = sum_of f l + sum_of f l'.
Proof. induction l as [|t l IH]; cbn; [done|]. rewrite IH. lia. Qed.

Lemma sum_update f l i t t' :
  l !! i = Some t -> sum_of f (<[i := t']> l) = sum_of f l - f t + f t'.
Proof.
  revert i. induction l as [|x l IH]; intros i H; [done|]. destruct i as [|i].
  - injection H as ->. cbn. lia.
  - cbn in *. rewrite IH by done. lia.
Qed.

Lemma sum_nonneg f l : (forall t, 0 <= f t) -> 0 <= sum_of f l.
Proof. intros Hf. induction l as [|t l IH]; cbn; [lia|]. pose proof (Hf t). lia. Qed.

(** The bytes a task holds, and whether it is the runnable task number [x]. *)
Definition lease_of (t : QueuedTask) : Z := default 0 (byte_lease t).
Definition is_live (x : nat) (t : QueuedTask) : Z :=
  if active t && (t_id t =? x)%nat then 1 else 0.
Fixpoint completions (x : nat) (log : list completion) : Z :=
  match log with
  | [] => 0
  | (id, _) :: log => (if (id =? x)%nat then 1 else 0) + completions x log
  end.

Lemma completions_snoc x log id b :
  completions x (log ++ [(id, b)]) = completions x log + (if (id =? x)%nat then 1 else 0).
Proof. induction log as [|[id' b'] log IH]; cbn; [lia|]. rewrite IH. lia. Qed.

(** * The invariant *)
Definition task_ok (t : QueuedTask) : Prop := 0 <= lease_of t /\ (active t = true -> is_Some (byte_lease t)).

Record service_ok (limit : Z) (capacity : nat) (s : service) : Prop := {
  ok_limit : limit_bytes (limiter s) = limit;
  ok_capacity : capacity_ (queue s) = capacity;
  ok_bounded : (length (tasks_ (queue s)) <= capacity)%nat;
  ok_stopped : stopped_ (queue s) = true -> tasks_ (queue s) = [];
  ok_queued : Forall (fun t => active t = true) (tasks_ (queue s));
  ok_tasks : Forall task_ok (held s ++ tasks_ (queue s));
  ok_used : used_bytes (limiter s) = sum_of lease_of (held s) + sum_of lease_of (tasks_ (queue s));
  ok_within : used_bytes (limiter s) <= limit;
  ok_once : forall x, completions x (completed s) + sum_of (is_live x) (held s) +
                      sum_of (is_live x) (tasks_ (queue s)) = if (x <? issued s)%nat then 1 else 0
}.

Lemma is_live_range x t : 0 <= is_live x t <= 1.
Proof. unfold is_live. destruct (_ && _); lia. Qed.

Lemma lease_bound l i t : Forall task_ok l -> l !! i = Some t -> 0 <= lease_of t <= sum_of lease_of l.
Proof.
  revert i. induction l as [|x l IH]; intros i Hf Hi; [done|]. inversion Hf as [|? ? [Hx _] Hl]; subst.
  assert (0 <= sum_of lease_of l) as Hs.
  { clear -Hl. induction Hl as [|y l [Hy _] _ IHl]; cbn; lia. }
  destruct i as [|i]; cbn in *; [injection Hi as <-; lia|]. specialize (IH i Hl Hi). lia.
Qed.

Section invariant.
Context (limit : Z) (capacity : nat) (Hlimit : u64 limit).

Lemma initial_ok : service_ok limit capacity (initial limit capacity).
Proof.
  constructor; cbn; try done; try lia; try constructor. word.
Qed.

Lemma release_used l n : u64 (used_bytes l) -> 0 <= n <= used_bytes l ->
  LeaseReset l (Some n) = mkLimiter (limit_bytes l) (used_bytes l - n).
Proof. intros Hu Hn. unfold LeaseReset. f_equal. apply wrap64_small. word. Qed.

(** Releasing what a task holds. *)
Lemma release_task l t : u64 (used_bytes l) -> 0 <= lease_of t <= used_bytes l ->
  LeaseReset l (byte_lease t) = mkLimiter (limit_bytes l) (used_bytes l - lease_of t).
Proof.
  intros Hu Hn. unfold lease_of in *. destruct (byte_lease t) as [n|]; cbn [default] in *.
  - by apply release_used.
  - destruct l. cbn. f_equal. lia.
Qed.

Lemma Forall_update {A} (P : A -> Prop) l i x : Forall P l -> P x -> Forall P (<[i := x]> l).
Proof. intros Hl Hx. by apply Forall_insert. Qed.

Lemma empty_ok t : active t = false -> byte_lease t = None -> task_ok t.
Proof. intros Ha Hb. split; [unfold lease_of; rewrite Hb; cbn; lia|by rewrite Ha]. Qed.

Lemma acquire_inv l n l' lease :
  u64 (used_bytes l) -> used_bytes l <= limit_bytes l -> limit_bytes l = limit -> 0 <= n < 18446744073709551616 ->
  TryAcquire l n = (l', Some lease) ->
  lease = n /\ l' = mkLimiter limit (used_bytes l + n) /\ used_bytes l + n <= limit.
Proof.
  intros Hu Hle Hl Hn. unfold TryAcquire. rewrite wrap64_small by word.
  destruct (Z.ltb_spec (limit_bytes l - used_bytes l) n); [done|]. intros [= <- <-].
  rewrite wrap64_small by word. rewrite Hl in *. conj_split; try done. lia.
Qed.

Lemma ok_u64 s : service_ok limit capacity s -> u64 (used_bytes (limiter s)).
Proof.
  intros [Hl Hc Hb Hst Hq Ht Hu Hw Ho]. rewrite Forall_app in Ht. destruct Ht as [Hh Hq'].
  assert (forall l, Forall task_ok l -> 0 <= sum_of lease_of l) as H.
  { intros l Hf. induction Hf as [|y l [Hy _] _ IHl]; cbn; lia. }
  pose proof (H _ Hh). pose proof (H _ Hq'). word.
Qed.

Lemma ok_held s i t : service_ok limit capacity s -> held s !! i = Some t ->
  task_ok t /\ 0 <= lease_of t <= used_bytes (limiter s).
Proof.
  intros [Hl Hc Hb Hst Hq Ht Hu Hw Ho] Hi. pose proof Ht as [Hh Hq']%Forall_app.
  assert (0 <= sum_of lease_of (tasks_ (queue s))) as H.
  { clear -Hq'. induction Hq' as [|y l [Hy _] _ IHl]; cbn; lia. }
  pose proof (lease_bound _ _ _ Hh Hi). split; [by apply (Forall_lookup_1 _ _ _ _ Hh Hi)|lia].
Qed.

(** One held task is replaced, with its lease and completion accounted for. *)
Lemma update_ok l q h log n i t t' l' log' :
  service_ok limit capacity (mkService l q h log n) -> h !! i = Some t -> task_ok t' ->
  limit_bytes l' = limit_bytes l -> used_bytes l' = used_bytes l - lease_of t + lease_of t' ->
  lease_of t' <= lease_of t ->
  (forall x, completions x log' + is_live x t' = completions x log + is_live x t) ->
  service_ok limit capacity (mkService l' q (<[i := t']> h) log' n).
Proof.
  intros [Hl Hc Hb Hst Hq Ht Hu Hw Ho] Hi Hok Hlim Hus Hle Hcomp. cbn in *.
  apply Forall_app in Ht as [Hh Hq']. constructor; cbn; try done.
  - congruence.
  - apply Forall_app. split; [by apply Forall_update|done].
  - rewrite (sum_update _ _ _ _ _ Hi). lia.
  - lia.
  - intros x. rewrite (sum_update _ _ _ _ _ Hi), <- (Ho x). specialize (Hcomp x). lia.
Qed.

Lemma admit_ok l q h log n bytes l' lease :
  service_ok limit capacity (mkService l q h log n) ->
  0 <= bytes < 18446744073709551616 -> TryAcquire l bytes = (l', Some lease) ->
  service_ok limit capacity (mkService l' q (h ++ [MakeTask n (Some lease) true true]) log (S n)).
Proof.
  intros Hok Hn E. pose proof (ok_u64 _ Hok) as Hu64. destruct Hok as [Hl Hc Hb Hst Hq Ht Hu Hw Ho].
  cbn [limiter queue held completed issued] in *.
  destruct (acquire_inv l bytes l' lease) as (-> & -> & Hle); try done; [lia|].
  constructor; cbn [limiter queue held completed issued limit_bytes used_bytes]; try done.
  - rewrite <- app_assoc. apply Forall_app in Ht as [Hh Hq'].
    apply Forall_app. split; [done|]. constructor; [|done]. split; [cbn; lia|by eexists].
  - rewrite sum_app. cbn. lia.
  - intros x. rewrite sum_app. cbn [sum_of].
    change (is_live x (MakeTask n (Some bytes) true true)) with (if (n =? x)%nat then 1 else 0).
    specialize (Ho x). revert Ho. destruct (Nat.ltb_spec x n), (Nat.ltb_spec x (S n)), (Nat.eqb_spec n x); intros; lia.
Qed.

Lemma enqueue_ok l q h log n i t oom q' t' r :
  service_ok limit capacity (mkService l q h log n) -> h !! i = Some t ->
  TryEnqueue q t oom = (q', t', r) ->
  service_ok limit capacity (mkService l q' (<[i := t']> h) log n).
Proof.
  intros Hok Hi E. pose proof (ok_held _ i t Hok Hi) as [Htok _].
  assert (service_ok limit capacity (mkService l q (<[i := t]> h) log n)) as Hsame
    by (by rewrite list_insert_id).
  unfold TryEnqueue in E.
  destruct (active t) eqn:Ea; cbn [negb] in E; [|by injection E as <- <- <-].
  destruct (stopped_ q) eqn:Es; [by injection E as <- <- <-|].
  destruct (Nat.leb_spec (capacity_ q) (length (tasks_ q))) as [|Hcap]; [by injection E as <- <- <-|].
  destruct oom; [by injection E as <- <- <-|]. injection E as <- <- <-.
  destruct Hok as [Hl Hc Hb Hst Hq Ht Hu Hw Ho]. cbn in *.
  apply Forall_app in Ht as [Hh Hq']. constructor; cbn; try done.
  - rewrite length_app. cbn. lia.
  - apply Forall_app. split; [done|]. by constructor.
  - apply Forall_app. split; [apply Forall_update; [done|by apply empty_ok]|].
    apply Forall_app. split; [done|]. by constructor.
  - rewrite sum_app, (sum_update _ _ _ _ _ Hi). cbn. lia.
  - intros x. rewrite sum_app, (sum_update _ _ _ _ _ Hi), <- (Ho x). cbn [sum_of].
    change (is_live x (moved_from t)) with 0. lia.
Qed.

Lemma pop_ok l q h log n i old q' t :
  service_ok limit capacity (mkService l q h log n) ->
  h !! i = Some old -> active old = false -> byte_lease old = None ->
  WaitPop q = (q', Some t) ->
  service_ok limit capacity (mkService l q' (<[i := t]> h) log n).
Proof.
  intros [Hl Hc Hb Hst Hq Ht Hu Hw Ho] Hi Ha Hle E. cbn in *. unfold WaitPop in E.
  assert (lease_of old = 0) as Hz by (unfold lease_of; by rewrite Hle).
  destruct (tasks_ q) as [|x rest] eqn:Eq; [done|]. injection E as <- <-.
  apply Forall_app in Ht as [Hh [Hx Hq']%Forall_cons]. apply Forall_cons in Hq as [_ Hq].
  constructor; cbn in *; try done.
  - lia.
  - intros H. by specialize (Hst H).
  - apply Forall_app. split; [by apply Forall_update|done].
  - rewrite (sum_update _ _ _ _ _ Hi). lia.
  - intros y. rewrite (sum_update _ _ _ _ _ Hi), <- (Ho y).
    assert (is_live y old = 0) as -> by (unfold is_live; by rewrite Ha). lia.
Qed.

Lemma step_ok s s' : service_ok limit capacity s -> step s s' -> service_ok limit capacity s'.
Proof.
  intros Hok Hstep. pose proof (ok_u64 _ Hok) as Hu. destruct Hstep as
    [l q h log n bytes l' lease Hn E|l q h log n bytes l' E|l q h log n i t oom q' t' r Hi E
    |l q h log n i old q' t Hi Ha Hb Hrdy E|l q h log n i t run t' log' b Hi E
    |l q h log n i t t' l' Hi Ha E|l q h log n q' pending E].
  - exact (admit_ok _ _ _ _ _ _ _ _ Hok Hn E).
  - unfold TryAcquire in E. destruct (_ <? bytes); [by injection E as <-|done].
  - by eapply enqueue_ok.
  - by eapply pop_ok.
  - destruct (ok_held _ i t Hok Hi) as [[Ht Hs] Hle]. unfold FinishBegin in E.
    destruct (active t) eqn:Ea; injection E as <- <- <-; [|by rewrite list_insert_id].
    assert (forall b, lease_of (mkTask (t_id t) (byte_lease t) b) = lease_of t) as Hsame by done.
    apply (update_ok l q h log n i t); try done; rewrite ?Hsame; try lia.
    intros x. rewrite completions_snoc. unfold is_live. rewrite Ea. cbn. lia.
  - destruct (ok_held _ i t Hok Hi) as [Ht Hle]. unfold FinishEnd in E.
    rewrite Ha, release_task in E by done. injection E as <- <-.
    apply (update_ok l q h log n i t); try done; cbn; try lia.
    intros x. unfold is_live. rewrite Ha. cbn. lia.
  - unfold StopAndTakePending in E. injection E as <- <-.
    destruct Hok as [Hl Hc Hb Hst Hq Ht Hus Hw Ho]. constructor; cbn in *; try done.
    + lia.
    + by rewrite app_nil_r.
    + rewrite sum_app. lia.
    + intros x. rewrite sum_app, <- (Ho x). lia.
Qed.

Lemma steps_ok s s' : rtc step s s' -> service_ok limit capacity s -> service_ok limit capacity s'.
Proof.
  intros Hr. induction Hr as [|s1 s2 s3 H12 _ IH]; intros H0; [done|]. apply IH. by eapply step_ok.
Qed.

Lemma reachable_ok s : rtc step (initial limit capacity) s -> service_ok limit capacity s.
Proof. intros H. eapply steps_ok; [done|apply initial_ok]. Qed.
End invariant.

(** * Properties *)
Lemma live_exists x l : 0 < sum_of (is_live x) l ->
  exists t, t ∈ l /\ active t = true /\ t_id t = x.
Proof.
  induction l as [|t l IH]; cbn; [lia|]. intros H. unfold is_live in H at 1.
  destruct (active t) eqn:Ea, (Nat.eqb_spec (t_id t) x) as [Hx|Hx]; cbn in H.
  1: { exists t. split; [apply list_elem_of_here|done]. }
  all: destruct IH as (t' & Ht & Hr); [lia|]; exists t'; split; [by apply list_elem_of_further|done].
Qed.

Lemma live_none x l : Forall (fun t => active t = false) l -> sum_of (is_live x) l = 0.
Proof. induction 1 as [|t l Ha _ IH]; cbn; [done|]. unfold is_live at 1. by rewrite Ha. Qed.

Lemma live_nonneg x l : 0 <= sum_of (is_live x) l.
Proof. apply sum_nonneg. intros t. pose proof (is_live_range x t). lia. Qed.

Lemma completions_nonneg x log : 0 <= completions x log.
Proof. induction log as [|[id b] log IH]; cbn; [lia|]. destruct (_ =? _)%nat; lia. Qed.

(** Exactly-once completion: in every state any interleaving of admission,
    queueing, popping, running, cancelling, destruction and shutdown reaches,
    an admitted task has had at most one of its two callbacks invoked; it has
    had none exactly while one runnable copy of it is held by a thread or
    queued; a number that was never admitted has no completion; and once no
    runnable task is left, each admitted task has completed exactly once. *)
Theorem completed_exactly_once (limit : Z) (capacity : nat) (s : service) :
  u64 limit -> rtc step (initial limit capacity) s ->
  forall x,
    (completions x (completed s) <= 1) /\
    ((x < issued s)%nat -> completions x (completed s) = 0 ->
      exists t, t ∈ held s ++ tasks_ (queue s) /\ active t = true /\ t_id t = x) /\
    ((issued s <= x)%nat -> completions x (completed s) = 0) /\
    ((x < issued s)%nat -> Forall (fun t => active t = false) (held s ++ tasks_ (queue s)) ->
      completions x (completed s) = 1).
Proof.
  intros Hl Hr x. apply reachable_ok in Hr as [_ _ _ _ _ _ _ _ Ho]; [|done]. specialize (Ho x).
  pose proof (completions_nonneg x (completed s)).
  pose proof (live_nonneg x (held s)). pose proof (live_nonneg x (tasks_ (queue s))).
  rewrite <- Z.add_assoc, <- sum_app in Ho.
  pose proof (live_nonneg x (held s ++ tasks_ (queue s))).
  destruct (Nat.ltb_spec x (issued s)); conj_split; try lia.
  - intros _ Hz. apply live_exists. lia.
  - intros _ Hf. rewrite (live_none _ _ Hf) in Ho. lia.
Qed.

(** One task goes through the queue and runs; a second one is taken out by the
    shutdown and cancelled. *)
Definition example_run : list service :=
  let l0 := mkLimiter 10 0 in
  let t0 := mkTask 0 (Some 4) true in let t1 := mkTask 1 (Some 6) true in
  let off i := mkTask i None false in
  let q l := mkQueue 2 l false in let stop := mkQueue 2 [] true in
  [ mkService l0 (q []) [] [] 0;
    mkService (mkLimiter 10 4) (q []) [t0] [] 1;
    mkService (mkLimiter 10 4) (q [t0]) [off 0%nat] [] 1;
    mkService (mkLimiter 10 10) (q [t0]) [off 0%nat; t1] [] 2;
    mkService (mkLimiter 10 10) (q [t0; t1]) [off 0%nat; off 1%nat] [] 2;
    mkService (mkLimiter 10 10) (q [t1]) [t0; off 1%nat] [] 2;
    mkService (mkLimiter 10 10) stop [t0; off 1%nat; t1] [] 2;
    mkService (mkLimiter 10 10) stop [mkTask 0 (Some 4) false; off 1%nat; t1] [(0%nat, true)] 2;
    mkService (mkLimiter 10 6) stop [off 0%nat; off 1%nat; t1] [(0%nat, true)] 2;
    mkService (mkLimiter 10 6) stop [off 0%nat; off 1%nat; mkTask 1 (Some 6) false]
      [(0%nat, true); (1%nat, false)] 2;
    mkService (mkLimiter 10 0) stop [off 0%nat; off 1%nat; off 1%nat]
      [(0%nat, true); (1%nat, false)] 2 ].

Lemma step_to s s1 s2 : step s s1 -> s1 = s2 -> step s s2.
Proof. by intros H <-. Qed.

Lemma example_steps : rtc step (initial 10 2) (List.last example_run (initial 10 2)).
Proof.
  assert (forall s l, (forall i a b, (s :: l) !! i = Some a -> l !! i = Some b -> step a b) ->
            rtc step s (List.last (s :: l) (initial 10 2))) as H.
  { intros s l. revert s. induction l as [|s' l IH]; intros s Hs; [apply rtc_refl|].
    eapply rtc_l; [exact (Hs 0%nat s s' eq_refl eq_refl)|].
    apply IH. intros i a b Ha Hb. exact (Hs (S i) a b Ha Hb). }
  apply H. intros i a b Ha Hb.
  destruct i as [|[|[|[|[|[|[|[|[|[|i]]]]]]]]]]; [injection Ha as <-; injection Hb as <-..|done].
  - eapply step_to; [eapply (step_admit _ _ _ _ _ 4); [lia|reflexivity]|reflexivity].
  - eapply step_to; [eapply (step_enqueue _ _ _ _ _ 0%nat _ false); reflexivity|reflexivity].
  - eapply step_to; [eapply (step_admit _ _ _ _ _ 6); [lia|reflexivity]|reflexivity].
  - eapply step_to; [eapply (step_enqueue _ _ _ _ _ 1%nat _ false); reflexivity|reflexivity].
  - eapply step_to; [eapply (step_pop _ _ _ _ _ 0%nat); reflexivity|reflexivity].
  - eapply step_to; [eapply step_stop; reflexivity|reflexivity].
  - eapply step_to; [eapply (step_begin _ _ _ _ _ 0%nat _ true); reflexivity|reflexivity].
  - eapply step_to; [eapply (step_end _ _ _ _ _ 0%nat); reflexivity|reflexivity].
  - eapply step_to; [eapply (step_begin _ _ _ _ _ 2%nat _ false); reflexivity|reflexivity].
  - eapply step_to; [eapply (step_end _ _ _ _ _ 2%nat); reflexivity|reflexivity].
Qed.

Lemma completed_exactly_once_witness :
  completions 1 (completed (List.last example_run (initial 10 2))) = 1.
Proof.
  refine (proj2 (proj2 (proj2 (completed_exactly_once 10 2 _ _ example_steps 1%nat))) _ _).
  - word.
  - cbn. lia.
  - repeat constructor.
Defined.

(** The byte budget: in every reachable state the limiter's counter is
    exactly the sum of the leases held by live, running or queued tasks and
    never exceeds the limit; admission succeeds precisely when the request fits
    in the remainder (no wrap-around at any 64-bit size) and a refusal leaves
    the limiter unchanged; and with no lease outstanding the counter is zero. *)
Theorem budget_respected (limit : Z) (capacity : nat) (s : service) :
  u64 limit -> rtc step (initial limit capacity) s ->
  used_bytes (limiter s) = sum_of lease_of (held s ++ tasks_ (queue s)) /\
  0 <= used_bytes (limiter s) <= limit /\
  (forall n, u64 n ->
    TryAcquire (limiter s) n =
      if used_bytes (limiter s) + n <=? limit
      then (mkLimiter limit (used_bytes (limiter s) + n), Some n) else (limiter s, None)) /\
  (Forall (fun t => byte_lease t = None) (held s ++ tasks_ (queue s)) -> used_bytes (limiter s) = 0).
Proof.
  intros Hl Hr. apply reachable_ok in Hr; [|done]. pose proof (ok_u64 _ _ Hl _ Hr) as Hu.
  destruct Hr as [Hlim _ _ _ _ _ Hus Hw _]. rewrite <- sum_app in Hus. conj_split; try word.
  - intros n Hn. unfold TryAcquire. rewrite wrap64_small by word.
    destruct (Z.ltb_spec (limit_bytes (limiter s) - used_bytes (limiter s)) n),
      (Z.leb_spec (used_bytes (limiter s) + n) limit); try lia; [done|].
    rewrite wrap64_small by word. by rewrite Hlim.
  - intros Hf. rewrite Hus. clear -Hf. induction Hf as [|t l Ht _ IH]; cbn; [done|].
    unfold lease_of at 1. by rewrite Ht.
Qed.

Lemma budget_respected_witness :
  used_bytes (limiter (List.last example_run (initial 10 2))) = 0.
Proof.
  refine (proj2 (proj2 (proj2 (budget_respected 10 2 _ _ example_steps))) _).
  - word.
  - repeat constructor.
Defined.

(** Enqueueing a list of tasks one after the other; [None] unless all are accepted. *)
Fixpoint enqueue_all (q : BoundedTaskQueue) (ts : list QueuedTask) : option BoundedTaskQueue :=
  match ts with
  | [] => Some q
  | t :: ts => match TryEnqueue q t false with
               | (q, _, kAccepted) => enqueue_all q ts
               | _ => None
               end
  end.

(** Popping [n] times. *)
Fixpoint pop_all (n : nat) (q : BoundedTaskQueue) : list (option QueuedTask) * BoundedTaskQueue :=
  match n with
  | O => ([], q)
  | S n => let '(q, t) := WaitPop q in let '(l, q) := pop_all n q in (t :: l, q)
  end.

Lemma enqueue_all_spec ts : forall q,
  stopped_ q = false -> Forall (fun t => active t = true) ts ->
  (length (tasks_ q) + length ts <= capacity_ q)%nat ->
  enqueue_all q ts = Some (mkQueue (capacity_ q) (tasks_ q ++ ts) false).
Proof.
  induction ts as [|t ts IH]; intros q Hs Hf Hn; cbn in *.
  - rewrite app_nil_r. destruct q; cbn in *. by subst.
  - apply Forall_cons in Hf as [Ht Hf]. unfold TryEnqueue. rewrite Ht, Hs. cbn [negb].
    destruct (Nat.leb_spec (capacity_ q) (length (tasks_ q))); [lia|].
    rewrite IH; cbn; [by rewrite <- app_assoc|done|done|rewrite length_app; cbn; lia].
Qed.

Lemma pop_all_spec ts : forall q, tasks_ q = ts ->
  pop_all (length ts) q = (Some <$> ts, mkQueue (capacity_ q) [] (stopped_ q)).
Proof.
  induction ts as [|t ts IH]; intros q Hq; cbn.
  - destruct q; cbn in *. by subst.
  - unfold WaitPop. rewrite Hq. cbn. by rewrite (IH (mkQueue _ ts _)) by done.
Qed.

(** The queue is a bounded FIFO: runnable tasks that fit are all accepted
    and come out in the order they went in, after those already queued; a task
    is accepted only when the queue is open, below capacity and could allocate,
    every other outcome leaving both the queue and the caller's task as they
    were; and a stopped queue hands out exactly what was pending, refuses every
    task and never blocks a waiting thread. *)
Theorem queue_fifo (q : BoundedTaskQueue) (ts : list QueuedTask) (t : QueuedTask) (oom : bool) :
  stopped_ q = false -> Forall (fun t => active t = true) ts ->
  (length (tasks_ q) + length ts <= capacity_ q)%nat ->
  (exists q', enqueue_all q ts = Some q' /\
     pop_all (length (tasks_ q) + length ts) q' =
       (Some <$> (tasks_ q ++ ts), mkQueue (capacity_ q) [] false)) /\
  (let '(q', t', r) := TryEnqueue q t oom in
    (r = kAccepted <-> active t = true /\ (length (tasks_ q) < capacity_ q)%nat /\ oom = false) /\
    (r <> kAccepted -> q' = q /\ t' = t)) /\
  (let '(q', pending) := StopAndTakePending q in
    pending = tasks_ q /\ pop_ready q' = true /\ WaitPop q' = (q', None) /\
    (active t = true -> TryEnqueue q' t oom = (q', t, kStopped))).
Proof.
  intros Hs Hf Hn. conj_split.
  - eexists. split; [by apply enqueue_all_spec|]. rewrite <- length_app. by rewrite pop_all_spec.
  - unfold TryEnqueue. rewrite Hs. destruct (active t); cbn [negb]; [|by split; [split; [|intros (? & _)]|]].
    destruct (Nat.leb_spec (capacity_ q) (length (tasks_ q))).
    { split; [|done]. split; [done|]. intros (_ & ? & _). lia. }
    destruct oom; [split; [|done]; split; [done|by intros (_ & _ & ?)]|]. by split.
  - cbn. conj_split; try done. unfold TryEnqueue. by intros ->.
Qed.

Lemma queue_fifo_witness :
  exists q', enqueue_all (mkQueue 2 [] false) [mkTask 0 (Some 4) true; mkTask 1 (Some 6) true] = Some q' /\
    pop_all 2 q' = ([Some (mkTask 0 (Some 4) true); Some (mkTask 1 (Some 6) true)], mkQueue 2 [] false).
Proof.
  refine (proj1 (queue_fifo (mkQueue 2 [] false) [mkTask 0 (Some 4) true; mkTask 1 (Some 6) true]
                   empty_task false _ _ _)).
  - reflexivity.
  - repeat constructor.
  - cbn. lia.
Defined.
