(* ===== verification/FileMutation.v ===== *)
(** What the planners of src/metadata share (src/metadata/file_mutation_plan.cpp
    and src/metadata/new_object_plan.cpp): loading a bitmap region, locating an
    inode in its table, reserving blocks in an in-memory allocator.

    A planner only reads the image. Its allocators and their bitmaps are locals
    of the call: when a planner fails, the destructors of the reservations roll
    back bits of a bitmap that is dropped with them, so a failed call is just an
    error value here. Error texts are not modelled except where the code
    branches on them. *)
From S2P Require Import Prelude Codec OndiskFormat Disk BitmapAllocator ImageReader.
Open Scope Z_scope.

Declare Scope io_scope.
Notation "'let*' x := m 'in' k" := (io_bind m (fun x => k))
  (at level 10, x pattern, m at level 200, k at level 200) : io_scope.
Open Scope io_scope.

Definition io_of {A} (x : result errno A) : io A :=
  match x with Ok a => io_ret a | Err er => io_fail er end.

Definition uint64_limit : Z := 18446744073709551615.

Definition RequiredBlocks (size : Z) : Z :=
  if size =? 0 then 0 else wrap32 ((size - 1) / kBlockSize + 1).

(** One 4096-byte home block of a bitmap. *)
Definition BitmapBlock (bitmap : bytes) (local_block : Z) : bytes :=
  slice (Z.to_nat (local_block * kBlockSize)) BlockLen bitmap.

Definition InodeTableBlock (superblock : Superblock) (inode_number : Z) : Z :=
  let byte_index := wrap32 (inode_number - 1) * kInodeRecordSize in
  wrap32 (start_block (inode_table superblock) + wrap32 (byte_index / kBlockSize)).

Definition InodeOffsetInBlock (inode_number : Z) : Z :=
  let byte_index := wrap32 (inode_number - 1) * kInodeRecordSize in
  byte_index mod kBlockSize.

(** The bit of a fresh reservation. *)
Definition ReserveBlock (allocator : BitmapAllocator) : result errno (BitmapAllocator * Z) :=
  match Reserve allocator None with
  | (_, _, Err er) => Err er
  | (allocator, reservation, Ok _) => Ok (allocator, default 0 reservation)
  end.

Section image.
Context (r : ImageReader).

(** The loop of [LoadRegion]: block [index] of the region is copied to
    [index * kBlockSize]. *)
Fixpoint load_blocks (region : Region) (indices : list Z) (output : bytes) : io bytes :=
  match indices with
  | [] => io_ret output
  | index :: rest =>
    let* block := ReadBlock r (wrap32 (start_block region + index)) in
    load_blocks region rest (splice (Z.to_nat (index * kBlockSize)) block output)
  end.

Definition LoadRegion (region : Region) : io bytes :=
  load_blocks region (counting (block_count region))
    (zeros (Z.to_nat (block_count region * kBlockSize))).

Fixpoint load_mapping (inode : InodeRecord) (logicals : list Z) : io (list Z) :=
  match logicals with
  | [] => io_ret []
  | logical :: rest =>
    let* physical := MapLogicalBlock r inode logical in
    let* mapping := load_mapping inode rest in
    io_ret (physical :: mapping)
  end.

Definition LoadMapping (inode : InodeRecord) : io (list Z) :=
  load_mapping inode (counting (RequiredBlocks (i_size inode))).
End image.

(** The elements of a [std::set] in the order of its iterator. *)
Definition sorted_elements (s : gset Z) : list Z := merge_sort Z.le (elements s).

(** An inode record written into its slot of a table block. *)
Definition put_inode (inode_number : Z) (encoded block : bytes) : bytes :=
  splice (Z.to_nat (InodeOffsetInBlock inode_number)) encoded block.

(** [PutLe32] at four times each index from 0: the words of an indirect block. *)
Definition indirect_image (pointers : list Z) (block : bytes) : bytes :=
  put_words 0 pointers block.

(** Changing the contents of an existing file
    (src/metadata/file_mutation_plan.h/.cpp, file_write_plan.cpp,
    object_replace_plan.cpp): the plan of a copy-on-write transaction. New data
    goes to freshly reserved blocks; the bitmap, the indirect block and the
    inode are the metadata that publishes it. *)
Record FileMutationPlan := mkFilePlan {
  fp_inode_number : Z;
  fp_old_generation : Z;
  fp_new_generation : Z;
  fp_old_size : Z;
  fp_new_size : Z;
  fp_old_data_blocks : list Z;
  fp_new_data_blocks : list Z;
  fp_old_indirect_block : Z;
  fp_new_indirect_block : Z;
  fp_total_blocks : Z;
  fp_filesystem_uuid : bytes;
  fp_before_images : image;
  fp_ordered_data_after_images : image;
  fp_metadata_after_images : image
}.

Inductive FileMutationMode := kWriteRange | kReplaceAll.
#[global] Instance FileMutationMode_eq_dec : EqDecision FileMutationMode.
Proof. solve_decision. Defined.

Record FileMutationRequest := mkFileRequest {
  fq_mode : FileMutationMode;
  fq_offset : Z;
  fq_data : bytes;
  fq_timestamp_ns : Z;
  fq_expected_generation : Z
}.

Definition ZeroRange (begin_ end_ block_begin : Z) (block : bytes) : bytes :=
  let overlap_begin := Z.max begin_ block_begin in
  let overlap_end := Z.min end_ (block_begin + kBlockSize) in
  if overlap_begin <? overlap_end
  then splice (Z.to_nat (overlap_begin - block_begin))
         (zeros (Z.to_nat (overlap_end - overlap_begin))) block
  else block.

Definition OverlayData (write_begin write_end block_begin : Z) (data block : bytes) : bytes :=
  let overlap_begin := Z.max write_begin block_begin in
  let overlap_end := Z.min write_end (block_begin + kBlockSize) in
  if overlap_end <=? overlap_begin then block
  else
  let source := overlap_begin - write_begin in
  let destination := overlap_begin - block_begin in
  let count := overlap_end - overlap_begin in
  splice (Z.to_nat destination) (slice (Z.to_nat source) (Z.to_nat count) data) block.

(** The images collected so far, as the candidate plan holds them. *)
Record images := mkImages {
  im_before : image;
  im_ordered : image;
  im_metadata : image
}.

(** The variables the mutation loops change. *)
Record mutation := mkMutation {
  mu_allocator : BitmapAllocator;
  mu_images : images;
  mu_mapping : list Z;
  mu_released : gset Z
}.

Definition add_metadata (home : Z) (before after : bytes) (im : images) : images :=
  mkImages (<[home := before]> (im_before im)) (im_ordered im)
           (<[home := after]> (im_metadata im)).

Section image.
Context (r : ImageReader).
Abbreviation sb := (rd_superblock r).

Definition AddOrderedBlock (after : bytes) (allocator : BitmapAllocator) (im : images)
    : io (BitmapAllocator * images * Z) :=
  let* (allocator, physical) := io_of (ReserveBlock allocator) in
  let* before := ReadBlock r physical in
  io_ret (allocator,
          mkImages (<[physical := before]> (im_before im))
                   (<[physical := after]> (im_ordered im)) (im_metadata im),
          physical).

(** The block is added and becomes logical block [logical] of the new mapping. *)
Definition place_block (logical : Z) (after : bytes) (released : gset Z) (m : mutation)
    : io mutation :=
  let* (allocator, im, physical) := AddOrderedBlock after (mu_allocator m) (mu_images m) in
  io_ret (mkMutation allocator im (<[Z.to_nat logical := physical]> (mu_mapping m)) released).

(** The loop of a full replacement. *)
Fixpoint replace_blocks (data : bytes) (logicals : list Z) (m : mutation) : io mutation :=
  match logicals with
  | [] => io_ret m
  | logical :: rest =>
    let source := logical * kBlockSize in
    let count := Z.min kBlockSize (Z.of_nat (length data) - source) in
    let after := splice 0 (slice (Z.to_nat source) (Z.to_nat count) data) zero_block in
    let* m := place_block logical after (mu_released m) m in
    replace_blocks data rest m
  end.

(** The loop of a range write over the changed logical blocks. *)
Fixpoint write_blocks (old_size : Z) (old_mapping : list Z) (offset write_end : Z) (data : bytes)
    (logicals : list Z) (m : mutation) : io mutation :=
  match logicals with
  | [] => io_ret m
  | logical :: rest =>
    let block_begin := logical * kBlockSize in
    let covers_whole := (offset <=? block_begin) && (block_begin + kBlockSize <=? write_end) in
    let old_physical := nth (Z.to_nat logical) old_mapping 0 in
    let existing := logical <? RequiredBlocks old_size in
    let* after :=
      (if existing && negb covers_whole then ReadBlock r old_physical else io_ret zero_block) in
    let released := if existing then {[old_physical]} ∪ mu_released m else mu_released m in
    let after := if old_size <? offset then ZeroRange old_size offset block_begin after
                 else after in
    let after := OverlayData offset write_end block_begin data after in
    let* m := place_block logical after released m in
    write_blocks old_size old_mapping offset write_end data rest m
  end.

Fixpoint release_blocks (blocks : list Z) (allocator : BitmapAllocator)
    : result errno BitmapAllocator :=
  match blocks with
  | [] => Ok allocator
  | block :: rest =>
    match ReleaseAllocated allocator block with
    | (_, Err er) => Err er
    | (allocator, Ok _) => release_blocks rest allocator
    end
  end.

(** The bitmap blocks that differ become metadata images. *)
Fixpoint diff_bitmap (region : Region) (before after : bytes) (locals : list Z) (im : images)
    : images :=
  match locals with
  | [] => im
  | local :: rest =>
    let b := BitmapBlock before local in
    let a := BitmapBlock after local in
    let im := if bool_decide (b = a) then im
              else add_metadata (wrap32 (start_block region + local)) b a im in
    diff_bitmap region before after rest im
  end.

Definition set_contents (inode : InodeRecord) (new_size timestamp_ns new_generation : Z)
    (direct : list Z) (indirect : Z) : InodeRecord :=
  mkInode (inode_number inode) (mode inode) (uid inode) (gid inode) (link_count inode)
    new_size (atime_ns inode) timestamp_ns timestamp_ns (flags inode) new_generation
    direct indirect.

(** The part after the data blocks have been placed: the indirect block, the
    release of what is no longer used, the bitmap and the inode. *)
Definition finish_mutation (number : Z) (inode : InodeRecord) (replace_all : bool) (old_mapping : list Z)
    (block_bitmap_before : bytes) (timestamp_ns new_size last_changed : Z) (m : mutation)
    : io FileMutationPlan :=
  let new_count := RequiredBlocks new_size in
  let new_generation := generation inode + 1 in
  let changes_indirect :=
    (kDirectBlockCount <? new_count) &&
    (replace_all || (indirect_block inode =? 0) || (kDirectBlockCount <=? last_changed)) in
  let new_indirect := if replace_all then 0 else indirect_block inode in
  let* (allocator, new_indirect) :=
    (if changes_indirect then io_of (ReserveBlock (mu_allocator m))
     else io_ret (mu_allocator m, new_indirect)) in
  let released :=
    if negb (indirect_block inode =? 0) && (replace_all || changes_indirect)
    then {[indirect_block inode]} ∪ mu_released m else mu_released m in
  let* allocator := io_of (release_blocks (sorted_elements released) allocator) in
  let im := diff_bitmap (block_bitmap sb) block_bitmap_before (Snapshot allocator)
              (counting (block_count (block_bitmap sb))) (mu_images m) in
  let* im :=
    (if changes_indirect
     then let* indirect_before := ReadBlock r new_indirect in
          let indirect_after := indirect_image (drop 12 (mu_mapping m)) zero_block in
          io_ret (add_metadata new_indirect indirect_before indirect_after im)
     else io_ret im) in
  let inode_table := InodeTableBlock sb number in
  let* inode_before := ReadBlock r inode_table in
  let indirect := if kDirectBlockCount <? new_count then new_indirect else 0 in
  let inode_after := set_contents inode new_size timestamp_ns new_generation
                       (resize 12 0 (take (Z.to_nat new_count) (mu_mapping m))) indirect in
  match EncodeInode inode_after with
  | Err _ => io_fail EUCLEAN
  | Ok encoded =>
    let im := add_metadata inode_table inode_before
                (put_inode number encoded inode_before) im in
    io_ret (mkFilePlan number (generation inode) new_generation
              (i_size inode) new_size old_mapping (mu_mapping m)
              (indirect_block inode) indirect (total_blocks sb) (sb_filesystem_uuid sb)
              (im_before im) (im_ordered im) (im_metadata im))
  end.

Definition is_replace (request : FileMutationRequest) : bool :=
  bool_decide (fq_mode request = kReplaceAll).

Definition PrepareFileMutation (inode_number : Z) (request : FileMutationRequest)
    : io FileMutationPlan :=
  let offset := fq_offset request in
  let data := fq_data request in
  let data_size := Z.of_nat (length data) in
  let replace_all := is_replace request in
  if inode_number =? 0 then io_fail EINVAL
  else if negb replace_all && bool_decide (data = []) then io_fail EINVAL
  else if (kMaxFileSize <? offset) || (kMaxFileSize - offset <? data_size) then io_fail EFBIG
  else
  let* inode := ReadInode r inode_number in
  if negb (S_ISREG (mode inode))
  then io_fail (if S_ISDIR (mode inode) then EISDIR else EINVAL)
  else if replace_all && negb (generation inode =? fq_expected_generation request)
  then io_fail ESTALE
  else if generation inode =? uint64_limit then io_fail EOVERFLOW
  else
  let* old_mapping := LoadMapping r inode in
  let old_owned : gset Z := list_to_set old_mapping in
  if negb (size old_owned =? length old_mapping)%nat ||
     (negb (indirect_block inode =? 0) && bool_decide (indirect_block inode ∈ old_owned))
  then io_fail EUCLEAN
  else
  let* block_bitmap := LoadRegion r (block_bitmap sb) in
  let allocator := mkAllocator block_bitmap (total_blocks sb) (start_block (OndiskFormat.data sb)) in
  match Validate allocator with
  | Err _ => io_fail EUCLEAN
  | Ok _ =>
    let write_end := offset + data_size in
    let new_size := if replace_all then data_size else Z.max (i_size inode) write_end in
    let new_count := RequiredBlocks new_size in
    let no_images := mkImages ∅ ∅ ∅ in
    if replace_all then
      let* m := replace_blocks data (counting new_count)
                  (mkMutation allocator no_images (replicate (Z.to_nat new_count) 0) ∅) in
      let m := mkMutation (mu_allocator m) (mu_images m) (mu_mapping m) old_owned in
      finish_mutation inode_number inode true old_mapping block_bitmap (fq_timestamp_ns request) new_size
        (if new_count =? 0 then 0 else new_count - 1) m
    else
      let first_changed := Z.min (i_size inode) offset / kBlockSize in
      let last_changed := (write_end - 1) / kBlockSize in
      let* m := write_blocks (i_size inode) old_mapping offset write_end data
                  (map (Z.add first_changed) (counting (last_changed - first_changed + 1)))
                  (mkMutation allocator no_images
                     (resize (Z.to_nat new_count) 0 old_mapping) ∅) in
      finish_mutation inode_number inode false old_mapping block_bitmap (fq_timestamp_ns request) new_size
        last_changed m
  end.

(** Write of a byte range that keeps everything it does not cover. *)
Definition PrepareFileWrite (inode_number offset : Z) (data : bytes) (timestamp_ns : Z)
    : io FileMutationPlan :=
  if bool_decide (data = []) then io_fail EINVAL
  else PrepareFileMutation inode_number (mkFileRequest kWriteRange offset data timestamp_ns 0).

(** Replacement of the whole contents, on condition of the generation. *)
Definition PrepareObjectReplace (inode_number expected_generation : Z) (data : bytes)
    (timestamp_ns : Z) : io FileMutationPlan :=
  PrepareFileMutation inode_number
    (mkFileRequest kReplaceAll 0 data timestamp_ns expected_generation).
End image.
