(* ===== verification/ConsistentImage.v ===== *)
(** Consistent images: every allocated inode reads back, and no block belongs to
    two files or twice to one. The invariant that the planners preserve, and the
    frame rule that says which files a change of some blocks leaves alone. *)
From S2P Require Import Prelude Codec OndiskFormat OndiskFormatProofs OndiskJournal Disk JournalImage JournalStates.
From S2P Require Import BitmapAllocator ImageReader ImageReaderProofs ReaderTheorems LedgerStore FileMutation.
Open Scope Z_scope.

(** * The regions of a valid superblock *)
Record layout (sb : Superblock) : Prop := {
  lay_geo : geometry sb;
  lay_ib : start_block (inode_bitmap sb) = 1;
  lay_bb : start_block (block_bitmap sb) = 1 + block_count (inode_bitmap sb);
  lay_it : start_block (inode_table sb) =
             start_block (block_bitmap sb) + block_count (block_bitmap sb);
  lay_js : js sb = start_block (inode_table sb) + block_count (inode_table sb);
  lay_ib_size : 0 < block_count (inode_bitmap sb) /\
                total_inodes sb <= block_count (inode_bitmap sb) * 32768;
  lay_bb_size : 0 < block_count (block_bitmap sb) /\
                total_blocks sb <= block_count (block_bitmap sb) * 32768;
  lay_it_size : total_inodes sb * 128 <= block_count (inode_table sb) * 4096;
  lay_root : 1 <= root_inode sb <= total_inodes sb
}.

Lemma ceil_bounds n m : 0 <= n < 2 ^ 40 -> 8 <= m <= 32768 -> n < m * 4294967295 ->
  CeilDivide n m = (n + m - 1) / m /\ n <= CeilDivide n m * m /\ 0 <= CeilDivide n m /\
  (0 < n -> 0 < CeilDivide n m).
Proof.
  intros Hn Hm Hb. unfold CeilDivide. rewrite (wrap64_small (n + m)) by word.
  rewrite wrap64_small by word.
  pose proof (Z.div_mod (n + m - 1) m ltac:(lia)). pose proof (Z.mod_pos_bound (n + m - 1) m ltac:(lia)).
  rewrite wrap32_small.
  - split; [done|]. split; [nia|]. split; [apply Z.div_pos; lia|]. intros. apply Z.div_str_pos. lia.
  - split; [apply Z.div_pos; lia|]. apply Z.div_lt_upper_bound; lia.
Qed.

Lemma validated_layout sb :
  superblock_typed sb -> ValidateSuperblock sb = Ok tt -> layout sb.
Proof.
  intros Hty Hval. pose proof (validated_geometry sb Hty Hval) as G.
  destruct Hty as (Htb & Hti & Hri & Hib & Hbb & Hit & Hj & Hd & _).
  unfold ValidateSuperblock in Hval. cbv zeta in Hval. guards Hval. clear Hval.
  unfold kBlockSize, kInodeRecordSize, region_typed in *.
  destruct (ceil_bounds (total_inodes sb) (4096 * 8)) as (E1 & L1 & P1 & N1); [word..|].
  destruct (ceil_bounds (total_blocks sb) (4096 * 8)) as (E2 & L2 & P2 & N2); [word..|].
  rewrite wrap64_small in * by word.
  destruct (ceil_bounds (total_inodes sb * 128) 4096) as (E3 & L3 & P3 & N3); [word..|].
  assert (CeilDivide (total_inodes sb) (4096 * 8) <= 131073) by (rewrite E1; apply Z.div_le_upper_bound; word).
  assert (CeilDivide (total_blocks sb) (4096 * 8) <= 131073) by (rewrite E2; apply Z.div_le_upper_bound; word).
  repeat match goal with H : start_block _ = wrap32 _ |- _ => rewrite wrap32_small in H by word end.
  split; unfold js; try assumption; try word.
Qed.

Lemma opened_layout r d : opened r d -> layout (rd_superblock r).
Proof.
  intros Ho. destruct (op_image _ _ Ho) as [(b & Hb & Hdec) G _ _ _].
  apply validated_layout; [apply G|].
  apply (SuperblockCodec.encode_validated _ b), SuperblockCodec.superblock_encode_decode; [|done].
  apply (vo_wf _ _ (op_view _ _ Ho) _ _ Hb).
Qed.

(** * Inode slots *)
Section slots.
Context (sb : Superblock) (Hlay : layout sb).

Lemma inode_position n : 1 <= n <= total_inodes sb ->
  InodeTableBlock sb n = start_block (inode_table sb) + (n - 1) / 32 /\
  InodeOffsetInBlock n = (n - 1) mod 32 * 128 /\
  start_block (inode_table sb) <= InodeTableBlock sb n < js sb.
Proof.
  intros Hn. destruct (lay_geo _ Hlay) as [(Htb & Hti & _ & _ & _ & [Hs Hc] & _) _ _ _ _].
  pose proof (lay_js _ Hlay). pose proof (lay_it_size _ Hlay). pose proof (geo_bounds _ (lay_geo _ Hlay)).
  unfold InodeTableBlock, InodeOffsetInBlock, kInodeRecordSize, kBlockSize. cbv zeta.
  rewrite (wrap32_small (n - 1)) by word.
  change 4096 with (32 * 128). rewrite Z.mul_mod_distr_r, Z.div_mul_cancel_r by lia.
  assert (0 <= (n - 1) / 32 < block_count (inode_table sb)).
  { split; [apply Z.div_pos; lia|]. apply Z.div_lt_upper_bound; lia. }
  rewrite (wrap32_small ((n - 1) / 32)) by word. rewrite wrap32_small by word. lia.
Qed.

Definition slot (d : image) (n : Z) : bytes :=
  slice (Z.to_nat (InodeOffsetInBlock n)) InodeLen (block_at d (InodeTableBlock sb n)).

Lemma offset_in_block n : (Z.to_nat (InodeOffsetInBlock n) + InodeLen <= BlockLen)%nat.
Proof.
  unfold InodeOffsetInBlock, kInodeRecordSize, kBlockSize, InodeLen, BlockLen.
  change 4096 with (32 * 128). cbv zeta. rewrite Z.mul_mod_distr_r by lia.
  pose proof (Z.mod_pos_bound (wrap32 (n - 1)) 32 ltac:(lia)). change (Z.to_nat kBlockSize) with 4096%nat. lia.
Qed.

(** Two inodes in one table block have disjoint slots. *)
Lemma slots_apart n k : 1 <= n <= total_inodes sb -> 1 <= k <= total_inodes sb -> n <> k ->
  InodeTableBlock sb n = InodeTableBlock sb k ->
  (Z.to_nat (InodeOffsetInBlock n) + InodeLen <= Z.to_nat (InodeOffsetInBlock k) \/
   Z.to_nat (InodeOffsetInBlock k) + InodeLen <= Z.to_nat (InodeOffsetInBlock n))%nat.
Proof.
  intros Hn Hk Hne Hb. destruct (inode_position n Hn) as (E1 & -> & _). destruct (inode_position k Hk) as (E2 & -> & _).
  rewrite E1, E2 in Hb. pose proof (Z.div_mod (n - 1) 32 ltac:(lia)). pose proof (Z.div_mod (k - 1) 32 ltac:(lia)).
  pose proof (Z.mod_pos_bound (n - 1) 32 ltac:(lia)). pose proof (Z.mod_pos_bound (k - 1) 32 ltac:(lia)).
  unfold InodeLen. lia.
Qed.

(** The slot is what [ReadInode] reads. *)
Lemma slot_range d n : 1 <= n <= total_inodes sb ->
  (forall k, 0 <= k < total_blocks sb -> exists b, d !! k = Some b /\ block_wf b) ->
  read_range d (start_block (inode_table sb) * kBlockSize + (n - 1) * kInodeRecordSize) kInodeRecordSize =
  Some (slot d n).
Proof.
  intros Hn Hd. destruct (inode_position n Hn) as (E1 & E2 & Hb).
  pose proof (geo_bounds _ (lay_geo _ Hlay)) as (_ & _ & _ & Hjt). pose proof (geo_count _ (lay_geo _ Hlay)).
  assert (0 <= InodeTableBlock sb n) as Hpos
    by (destruct (lay_geo _ Hlay) as [(_ & _ & _ & _ & _ & [Hs Hc] & _) _ _ _ _]; word).
  destruct (Hd (InodeTableBlock sb n) ltac:(lia)) as (b & Hb1 & Hl & _).
  unfold read_range, slot, block_at. rewrite Hb1, E2. change (default [] (Some b)) with b.
  unfold kBlockSize, kInodeRecordSize, InodeLen.
  replace (start_block (inode_table sb) * 4096 + (n - 1) * 128) with
    ((start_block (inode_table sb) * 32 + (n - 1)) * 128) by lia.
  change 4096 with (32 * 128). rewrite Z.mul_mod_distr_r, Z.div_mul_cancel_r by lia.
  rewrite Z.add_comm, Z.mod_add, Z.div_add by lia. rewrite (Z.add_comm ((n - 1) / 32)), <- E1.
  pose proof (Z.mod_pos_bound (n - 1) 32 ltac:(lia)).
  replace (((n - 1) mod 32 * 128 + 128 + 32 * 128 - 1) / (32 * 128)) with 1
    by (apply Z.div_unique with ((n - 1) mod 32 * 128 + 127); lia).
  change (Z.to_nat 1) with 1%nat. cbn [blocks_from]. by rewrite Hb1, app_nil_r.
Qed.

(** Writing one slot of a table block. *)
Lemma slot_put d n encoded : length encoded = InodeLen -> length (block_at d (InodeTableBlock sb n)) = BlockLen ->
  slot (<[InodeTableBlock sb n := put_inode n encoded (block_at d (InodeTableBlock sb n))]> d) n = encoded.
Proof.
  intros He Hl. unfold slot, put_inode, block_at at 1. rewrite lookup_insert_eq. change (default [] (Some ?b)) with b.
  rewrite slice_splice_same; [done|done|]. rewrite Hl. apply offset_in_block.
Qed.
End slots.

(** * What [ReadInode] answers *)
Section inodes.
Context (r : ImageReader) (d : image) (Hv : view_ok r d) (Hlay : layout (rd_superblock r)).

Lemma pointers_checked required ps : forall index,
  (forall i p, ps !! i = Some p ->
    if index + Z.of_nat i <? required then p <> 0 /\ data_block r p else p = 0) ->
  answer d (check_pointers r required index ps) = Ok tt.
Proof.
  induction ps as [|q ps IH]; intros index H; [done|]. cbn [check_pointers].
  rewrite (answer_bind_ok _ _ _ tt); [|apply _|].
  - apply IH. intros i p Hi. specialize (H (S i) p Hi).
    by replace (index + 1 + Z.of_nat i) with (index + Z.of_nat (S i)) by lia.
  - pose proof (H O q eq_refl) as Hq. rewrite Z.add_0_r in Hq. rewrite answer_if.
    destruct (index <? required).
    + destruct Hq as [Hnz Hdb]. rewrite answer_if, (proj2 (Z.eqb_neq _ _) Hnz). by apply answer_validate.
    + by rewrite answer_if, Hq, Z.eqb_refl.
Qed.

Lemma answer_read_exact off n b : 0 <= off -> 0 <= n -> off + n <= image_size_ r ->
  read_range d off n = Some b -> answer d (ReadExact r off n) = Ok b.
Proof.
  intros Ho Hn Hs E. unfold ReadExact. rewrite answer_if, (proj2 (Z.ltb_ge _ _)), (proj2 (Z.ltb_ge _ _)) by lia.
  unfold answer, ReadExactAt. rewrite pread_calm. cbn. by rewrite E.
Qed.

(** The pointers of a valid inode pass the checks. *)
Lemma valid_pointers inode : inode_valid r d inode ->
  answer d (check_pointers r (Z.min (required_blocks inode) 12) 0 (direct_blocks inode)) = Ok tt /\
  (12 < required_blocks inode ->
   answer d (check_pointers r (required_blocks inode - 12) 0
               (get_words (block_at d (indirect_block inode)) 0 1024)) = Ok tt).
Proof.
  intros Hi. pose proof (iv_direct _ _ _ Hi) as H12.
  destruct (required_spec inode (iv_size _ _ _ Hi)) as [_ Hreq].
  split; [|intros Hlg]; apply pointers_checked; intros i p Hp; rewrite Z.add_0_l;
    apply nth_lookup_Some with (d := 0) in Hp as Hn; apply lookup_lt_Some in Hp.
  - rewrite <- (Nat2Z.id i), <- (pointer_direct d) in Hn by lia. subst p.
    destruct (Z.ltb_spec (Z.of_nat i) (Z.min (required_blocks inode) 12)).
    + apply (iv_used _ _ _ Hi). lia.
    + apply (iv_unused _ _ _ Hi). lia.
  - rewrite length_get_words in Hp.
    assert (pointer d inode (Z.of_nat i + 12) = p) as <-.
    { rewrite (pointer_indirect d) by (done || lia). rewrite (proj2 (Z.leb_gt _ _)) by lia.
      rewrite <- Hn. f_equal. lia. }
    destruct (Z.ltb_spec (Z.of_nat i) (required_blocks inode - 12)).
    + apply (iv_used _ _ _ Hi). lia.
    + apply (iv_unused _ _ _ Hi). lia.
Qed.

Lemma slot_answer n : 1 <= n <= total_inodes (rd_superblock r) ->
  answer d (ReadExact r (start_block (inode_table (rd_superblock r)) * kBlockSize + (n - 1) * kInodeRecordSize)
              kInodeRecordSize) = Ok (slot (rd_superblock r) d n).
Proof.
  intros Hn. pose proof (slot_range _ Hlay d n Hn (vo_blocks _ _ Hv)) as E.
  destruct (inode_position _ Hlay n Hn) as (E1 & E2 & Hb).
  destruct (lay_geo _ Hlay) as [(_ & _ & _ & _ & _ & [Hs Hc] & _) _ _ _ _].
  pose proof (geo_bounds _ (lay_geo _ Hlay)) as (_ & _ & _ & Hjt). pose proof (geo_count _ (lay_geo _ Hlay)).
  pose proof (lay_it_size _ Hlay). pose proof (lay_js _ Hlay).
  apply answer_read_exact; [..|done]; rewrite ?(vo_size _ _ Hv); unfold kBlockSize, kInodeRecordSize; word.
Qed.

(** [ReadInode] succeeds exactly on the allocated inodes whose slot decodes and
    whose pointers are valid. *)
Lemma read_inode_iff n inode :
  answer d (ReadInode r n) = Ok inode <->
  1 <= n <= total_inodes (rd_superblock r) /\ TestBit (inode_bitmap_ r) (n - 1) = true /\
  DecodeInode (slot (rd_superblock r) d n) n = Ok inode /\ inode_valid r d inode.
Proof.
  split.
  - intros E. destruct (read_inode_valid r d Hv n inode E) as (Hval & Hn & Ha & Hn0).
    unfold IsInodeAllocated in Ha. bool_to_prop. split; [lia|]. split; [done|]. split; [|done].
    unfold ReadInode in E. rewrite answer_if in E. destruct (_ || _); [done|].
    rewrite answer_if in E. destruct (negb _); [done|]. cbv zeta in E.
    rewrite (answer_bind_ok _ _ _ _ _ (slot_answer n ltac:(lia))) in E.
    destruct (DecodeInode _ n) as [inode'|]; [|done]. f_equal.
    rewrite answer_if in E. destruct (_ && _); [done|].
    apply answer_bind_inv in E as ([] & _ & E); [|apply _]. rewrite answer_if in E.
    destruct (_ <=? _).
    + rewrite answer_if in E. destruct (negb _); [done|]. by injection E.
    + rewrite answer_if in E. destruct (_ =? 0); [done|].
      do 3 (apply answer_bind_inv in E as (? & _ & E); [|apply _]). by injection E.
  - intros (Hn & Ht & Hdec & Hval). destruct (valid_pointers inode Hval) as [Hp1 Hp2].
    unfold ReadInode. rewrite answer_if, (proj2 (Z.eqb_neq n 0)), (proj2 (Z.ltb_ge _ _)) by lia. cbn [orb].
    unfold IsInodeAllocated. rewrite (proj2 (Z.leb_le 1 n)), (proj2 (Z.leb_le n _)), Ht by lia. cbn [andb negb].
    cbv zeta. rewrite (answer_bind_ok _ _ _ _ _ (slot_answer n Hn)), Hdec.
    rewrite answer_if. destruct (S_ISDIR (mode inode)) eqn:Ed; cbn [andb].
    1: rewrite (iv_whole _ _ _ Hval Ed); cbn [negb Z.eqb].
    all: change kDirectBlockCount with 12; change (Z.to_nat kIndirectEntries) with 1024%nat.
    all: rewrite (answer_bind_ok _ _ _ _ _ Hp1), answer_if.
    all: pose proof (iv_indirect _ _ _ Hval) as Hind; change kDirectBlockCount with 12 in Hind.
    all: destruct (Z.leb_spec (required_blocks inode) 12).
    all: try by rewrite answer_if, Hind.
    all: destruct Hind as [Hnz Hdb]; rewrite answer_if, (proj2 (Z.eqb_neq _ _) Hnz).
    all: rewrite (answer_bind_ok _ _ _ tt); [|apply _|by apply answer_validate].
    all: destruct (answer_block r d Hv _ (data_block_pos r d Hv _ Hdb)) as [Hblk _].
    all: rewrite (answer_bind_ok _ _ _ _ _ Hblk), (answer_bind_ok _ _ _ tt); [done|apply _|by apply Hp2].
Qed.
End inodes.

(** * Ownership *)
(** The data blocks of a file in logical order, then its indirect block. *)
Definition file_pointers (d : image) (inode : InodeRecord) : list Z :=
  map (pointer d inode) (counting (required_blocks inode)).
Definition owned (d : image) (inode : InodeRecord) : list Z :=
  file_pointers d inode ++ (if indirect_block inode =? 0 then [] else [indirect_block inode]).

Lemma file_blocks_pointers d inode : file_blocks d inode = map (block_at d) (file_pointers d inode).
Proof. unfold file_blocks, file_pointers. by rewrite map_map. Qed.

(** Every allocated inode reads back and owns its blocks alone. *)
Record consistent (r : ImageReader) (d : image) : Prop := {
  co_opened : opened r d;
  co_inodes : forall n, IsInodeAllocated r n = true -> exists inode, answer d (ReadInode r n) = Ok inode;
  co_alone : forall n inode, answer d (ReadInode r n) = Ok inode -> NoDup (owned d inode);
  co_apart : forall n n' inode inode', n <> n' ->
    answer d (ReadInode r n) = Ok inode -> answer d (ReadInode r n') = Ok inode' ->
    forall b, b ∈ owned d inode -> b ∉ owned d inode'
}.

Lemma elem_owned_pointer d inode l : 0 <= l < required_blocks inode -> pointer d inode l ∈ owned d inode.
Proof.
  intros Hl. apply elem_of_app. left. apply list_elem_of_fmap. exists l. split; [done|by apply elem_counting].
Qed.

Lemma elem_owned_indirect d inode : indirect_block inode <> 0 -> indirect_block inode ∈ owned d inode.
Proof. intros H. apply elem_of_app. right. rewrite (proj2 (Z.eqb_neq _ _) H). by apply list_elem_of_singleton. Qed.

Lemma elem_owned d inode b : b ∈ owned d inode ->
  (exists l, 0 <= l < required_blocks inode /\ b = pointer d inode l) \/
  (indirect_block inode <> 0 /\ b = indirect_block inode).
Proof.
  intros [(l & -> & Hl%elem_counting)%list_elem_of_fmap|H]%elem_of_app; [by left; exists l|].
  right. destruct (Z.eqb_spec (indirect_block inode) 0); [by apply elem_of_nil in H|].
  by apply list_elem_of_singleton in H.
Qed.

Lemma owned_data_block r d inode b : inode_valid r d inode -> b ∈ owned d inode -> data_block r b.
Proof.
  intros Hv [(l & Hl & ->)|[Hnz ->]]%elem_owned; [by apply (iv_used _ _ _ Hv)|].
  pose proof (iv_indirect _ _ _ Hv) as H. by destruct (_ <=? _); [|apply H].
Qed.

(** ** The frame rule *)
Section frame.
Context (r r' : ImageReader) (d d' : image).
Context (Hsb : rd_superblock r' = rd_superblock r).

Lemma pointer_frame inode : inode_valid r d inode ->
  (forall b, b ∈ owned d inode -> d' !! b = d !! b) ->
  forall l, pointer d' inode l = pointer d inode l.
Proof.
  intros Hi Hsame l. unfold pointer, pointers. pose proof (iv_indirect _ _ _ Hi) as Hind.
  destruct (_ <=? _); [done|]. destruct Hind as [Hnz _].
  unfold block_at. by rewrite (Hsame _ (elem_owned_indirect d inode Hnz)).
Qed.

(** A file whose blocks are untouched and stay allocated is untouched. *)
Lemma frame_valid inode : inode_valid r d inode ->
  (forall b, b ∈ owned d inode -> d' !! b = d !! b /\ TestBit (block_bitmap_ r') b = true) ->
  inode_valid r' d' inode /\ owned d' inode = owned d inode /\ file_blocks d' inode = file_blocks d inode.
Proof.
  intros Hi Hsame. assert (forall l, pointer d' inode l = pointer d inode l) as Hp
    by (apply pointer_frame; [done|]; intros b Hb; by apply Hsame).
  assert (forall b, b ∈ owned d inode -> data_block r' b) as Hdb.
  { intros b Hb. destruct (owned_data_block _ _ _ _ Hi Hb) as [Hr _]. split; [by rewrite Hsb|by apply Hsame]. }
  split; [|split].
  - destruct Hi. constructor; try done.
    + intros l Hl. rewrite Hp. split; [by apply iv_used|by apply Hdb, elem_owned_pointer].
    + intros l Hl. rewrite Hp. by apply iv_unused.
    + destruct (_ <=? _); [done|]. destruct iv_indirect. split; [done|by apply Hdb, elem_owned_indirect].
  - unfold owned, file_pointers. f_equal. apply map_ext. apply Hp.
  - apply list_eq_same_length with (length (file_blocks d inode)); [done|by rewrite !length_file_blocks|].
    unfold file_blocks. intros i x y Hlt Hx Hy. rewrite list_lookup_fmap in Hx, Hy.
    destruct (counting (required_blocks inode) !! i) as [l|] eqn:El; [|done]. injection Hx as <-. injection Hy as <-.
    apply list_elem_of_lookup_2, elem_counting in El. rewrite Hp. unfold block_at.
    by rewrite (proj1 (Hsame _ (elem_owned_pointer d inode l El))).
Qed.

Context (Hv : view_ok r d) (Hv' : view_ok r' d') (Hlay : layout (rd_superblock r)).

Lemma frame_inode n inode : answer d (ReadInode r n) = Ok inode ->
  slot (rd_superblock r) d' n = slot (rd_superblock r) d n ->
  TestBit (inode_bitmap_ r') (n - 1) = true ->
  (forall b, b ∈ owned d inode -> d' !! b = d !! b /\ TestBit (block_bitmap_ r') b = true) ->
  answer d' (ReadInode r' n) = Ok inode /\ owned d' inode = owned d inode /\
  file_blocks d' inode = file_blocks d inode.
Proof.
  intros E Hs Ht Hsame. apply (read_inode_iff r d Hv Hlay) in E as (Hn & _ & Hdec & Hval).
  destruct (frame_valid inode Hval Hsame) as (Hval' & Ho & Hf). split; [|done].
  rewrite (read_inode_iff r' d' Hv') by (rewrite Hsb; done). rewrite Hsb, Hs. done.
Qed.
End frame.

(** * Regions *)
(** The bytes of consecutive blocks. *)
Definition region_bytes (d : image) (start count : Z) : bytes :=
  concat (map (fun i => block_at d (start + i)) (counting count)).

Section regions.
Context (d : image) (start count : Z).
Context (Hd : forall i, 0 <= i < count -> exists b, d !! (start + i) = Some b /\ length b = BlockLen).

Lemma region_blocks_len : Forall (fun b => length b = BlockLen) (map (fun i => block_at d (start + i)) (counting count)).
Proof.
  apply Forall_fmap, Forall_forall. intros i Hi%elem_counting. destruct (Hd i Hi) as (b & E & Hl).
  cbn. unfold block_at. by rewrite E.
Qed.

Lemma length_region : 0 <= count -> Z.of_nat (length (region_bytes d start count)) = count * 4096.
Proof.
  intros Hc. unfold region_bytes. rewrite (length_concat_same BlockLen), length_map, length_counting by apply region_blocks_len.
  pose proof BlockLen_Z. lia.
Qed.

Lemma region_block i : 0 <= i < count -> BitmapBlock (region_bytes d start count) i = block_at d (start + i).
Proof.
  intros Hi. unfold BitmapBlock, region_bytes.
  replace (Z.to_nat (i * kBlockSize)) with (Z.to_nat i * BlockLen + 0)%nat by (pose proof BlockLen_Z; unfold kBlockSize; lia).
  rewrite concat_slice; [|apply region_blocks_len|rewrite length_map, length_counting; lia|lia].
  rewrite (nth_indep _ [] (block_at d (start + 0))) by (rewrite length_map, length_counting; lia).
  rewrite (map_nth (fun i => block_at d (start + i))), nth_counting by lia. rewrite Z2Nat.id by lia.
  destruct (Hd i Hi) as (b & E & Hl). unfold block_at. rewrite E. change (default [] (Some b)) with b.
  rewrite <- Hl. apply slice_all.
Qed.
End regions.

Lemma counting_seq n : counting (Z.of_nat n) = map Z.of_nat (seq 0 n).
Proof. unfold counting. by rewrite Nat2Z.id. Qed.

Lemma blocks_from_region d n : forall start,
  (forall i, 0 <= i < Z.of_nat n -> is_Some (d !! (start + i))) ->
  blocks_from d start n = Some (region_bytes d start (Z.of_nat n)).
Proof.
  induction n as [|n IH]; intros start Hd; [done|]. cbn [blocks_from].
  destruct (Hd 0 ltac:(lia)) as [b Eb]. rewrite Z.add_0_r in Eb. rewrite Eb, (IH (start + 1)).
  - unfold region_bytes. rewrite !counting_seq. cbn [seq map concat]. rewrite Z.add_0_r. unfold block_at at 2.
    rewrite Eb. change (default [] (Some b)) with b. do 3 f_equal. rewrite <- seq_shift, !map_map. apply map_ext. intros i. f_equal. lia.
  - intros i Hi. replace (start + 1 + i) with (start + (i + 1)) by lia. apply Hd. lia.
Qed.

Lemma read_region d start count : 0 <= start -> 0 <= count ->
  (forall i, 0 <= i < count -> exists b, d !! (start + i) = Some b /\ length b = BlockLen) ->
  read_range d (start * kBlockSize) (count * kBlockSize) = Some (region_bytes d start count).
Proof.
  intros Hs Hc Hd. unfold read_range. rewrite Z.mod_mul, Z.div_mul by done.
  replace ((0 + count * kBlockSize + kBlockSize - 1) / kBlockSize) with count
    by (apply Z.div_unique with (kBlockSize - 1); unfold kBlockSize; lia).
  rewrite blocks_from_region; rewrite Z2Nat.id by done.
  - f_equal. pose proof (length_region d start count Hd Hc) as Hl.
    replace (Z.to_nat (count * kBlockSize)) with (length (region_bytes d start count)) by (unfold kBlockSize; lia).
    apply slice_all.
  - intros i Hi. destruct (Hd i Hi) as (b & -> & _). done.
Qed.

(** A buffer is the concatenation of its blocks. *)
Lemma concat_blocks b count : Z.of_nat (length b) = count * 4096 ->
  concat (map (BitmapBlock b) (counting count)) = b.
Proof.
  intros Hl. unfold counting. rewrite map_map.
  remember (Z.to_nat count) as n eqn:En. assert (length b = n * BlockLen)%nat as Hn by (pose proof BlockLen_Z; lia).
  clear Hl En count. revert b Hn. induction n as [|n IH]; intros b Hn; [by destruct b|].
  cbn [seq map concat]. rewrite <- seq_shift, map_map.
  transitivity (take BlockLen b ++ drop BlockLen b); [|apply take_drop].
  rewrite <- (IH (drop BlockLen b)) by (rewrite length_drop; lia). f_equal. f_equal. apply map_ext. intros i.
  unfold BitmapBlock, slice. rewrite drop_drop. do 2 f_equal. unfold kBlockSize. pose proof BlockLen_Z. lia.
Qed.

Lemma region_bytes_of d start count b :
  Z.of_nat (length b) = count * 4096 ->
  (forall i, 0 <= i < count -> block_at d (start + i) = BitmapBlock b i) ->
  region_bytes d start count = b.
Proof.
  intros Hl H. rewrite <- (concat_blocks b count Hl). unfold region_bytes. f_equal. apply map_ext_in.
  intros i Hi. apply H. apply elem_counting. by apply list_elem_of_In.
Qed.
