(* ===== verification/PlanProofs.v ===== *)
(** Lemmas the planners share: their reads, reservations in the block bitmap,
    and what an image needs to be opened after a change. *)
From S2P Require Import Prelude Codec OndiskFormat OndiskFormatProofs OndiskJournal Disk JournalImage JournalStates.
From S2P Require Import BitmapAllocator ImageReader ImageReaderProofs ReaderTheorems LedgerStore FileMutation.
From S2P Require Import ConsistentImage.
Open Scope Z_scope.

(** * Reads *)
#[export] Instance reading_pair {A B C} (p : A * B) (k : A -> B -> io C) :
  (forall a b, Reading (k a b)) -> Reading (let '(a, b) := p in k a b).
Proof. destruct p. auto. Qed.

#[export] Instance reading_io_of {A} (x : result errno A) : Reading (io_of x).
Proof. unfold io_of. apply _. Qed.

Lemma answer_of {A} d (x : result errno A) : answer d (io_of x) = x.
Proof. by destruct x. Qed.

Lemma answer_of_bind {A B} d (x : result errno A) (k : A -> io B) :
  answer d (io_bind (io_of x) k) = match x with Ok a => answer d (k a) | Err er => Err er end.
Proof. rewrite answer_bind by apply _. by destruct x. Qed.

#[export] Instance reading_load_blocks r region ls : forall b, Reading (load_blocks r region ls b).
Proof. induction ls; intros b; cbn [load_blocks]; apply _. Qed.
#[export] Instance reading_load_region r region : Reading (LoadRegion r region).
Proof. unfold LoadRegion. apply _. Qed.
#[export] Instance reading_load_mapping r inode ls : Reading (load_mapping r inode ls).
Proof. induction ls; cbn [load_mapping]; apply _. Qed.
#[export] Instance reading_mapping r inode : Reading (LoadMapping r inode).
Proof. unfold LoadMapping. apply _. Qed.

Lemma required_agree inode : 0 <= i_size inode <= kMaxFileSize ->
  RequiredBlocks (i_size inode) = required_blocks inode.
Proof.
  intros H. destruct (required_spec inode H) as [-> Hb]. unfold RequiredBlocks, kBlockSize.
  destruct (Z.eqb_spec (i_size inode) 0) as [->|]; [done|].
  rewrite <- Z.div_add by lia. replace (i_size inode - 1 + 1 * 4096) with (i_size inode + 4095) by lia.
  apply wrap32_small. destruct (required_spec inode H) as [E _]. word.
Qed.

Lemma RequiredBlocks_spec n : 0 <= n <= kMaxFileSize ->
  RequiredBlocks n = (n + 4095) / 4096 /\ 0 <= RequiredBlocks n <= 1036.
Proof.
  intros H. pose proof (required_agree (mkInode 0 0 0 0 0 n 0 0 0 0 0 [] 0) H) as E.
  destruct (required_spec (mkInode 0 0 0 0 0 n 0 0 0 0 0 [] 0) H) as [E2 B]. cbn [i_size] in *. rewrite E. done.
Qed.

Section reads.
Context (r : ImageReader) (d : image) (Hv : view_ok r d).

Lemma view_region start count : 0 <= start -> start + count <= total_blocks (rd_superblock r) ->
  forall i, 0 <= i < count -> exists b, d !! (start + i) = Some b /\ length b = BlockLen.
Proof. intros Hs Hc i Hi. destruct (vo_blocks _ _ Hv (start + i) ltac:(lia)) as (b & E & Hl & _). eauto. Qed.

Lemma block_at_length n : 0 <= n < total_blocks (rd_superblock r) -> length (block_at d n) = BlockLen.
Proof. intros Hn. destruct (vo_blocks _ _ Hv n Hn) as (b & E & Hl & _). unfold block_at. by rewrite E. Qed.

Lemma load_blocks_answer region : 
  0 <= start_block region -> start_block region + block_count region <= total_blocks (rd_superblock r) ->
  u32 (total_blocks (rd_superblock r)) ->
  forall n k, Z.of_nat (k + n) <= block_count region ->
  forall pre, length pre = (k * BlockLen)%nat ->
  answer d (load_blocks r region (map Z.of_nat (seq k n)) (pre ++ zeros (n * BlockLen))) =
  Ok (pre ++ concat (map (fun i => block_at d (start_block region + Z.of_nat i)) (seq k n))).
Proof.
  intros H0 H1 Ht. induction n as [|n IH]; intros k Hk pre Hpre; [done|].
  cbn [seq map load_blocks concat]. rewrite wrap32_small by word.
  rewrite (answer_bind_ok _ _ _ (block_at d (start_block region + Z.of_nat k))); [|apply _|].
  2: { apply (answer_read_block r d Hv). lia. }
  pose proof (block_at_length (start_block region + Z.of_nat k) ltac:(lia)) as Hlen.
  replace (splice _ _ _) with ((pre ++ block_at d (start_block region + Z.of_nat k)) ++ zeros (n * BlockLen)).
  - rewrite IH; [by rewrite <- app_assoc|lia|rewrite length_app; lia].
  - unfold splice. replace (Z.to_nat (Z.of_nat k * kBlockSize)) with (length pre)
      by (rewrite Hpre; pose proof BlockLen_Z; unfold kBlockSize; lia).
    rewrite take_app_length, drop_app_ge, Hlen, <- app_assoc by lia. do 2 f_equal.
    unfold zeros. rewrite drop_replicate. f_equal. lia.
Qed.

Lemma load_region_answer region :
  0 <= start_block region -> 0 <= block_count region ->
  start_block region + block_count region <= total_blocks (rd_superblock r) ->
  u32 (total_blocks (rd_superblock r)) ->
  answer d (LoadRegion r region) = Ok (region_bytes d (start_block region) (block_count region)).
Proof.
  intros H0 Hc H1 Ht. unfold LoadRegion.
  pose proof (load_blocks_answer region H0 H1 Ht (Z.to_nat (block_count region)) 0 ltac:(lia) [] eq_refl) as E.
  cbn [app] in E. replace (Z.to_nat (block_count region * kBlockSize)) with (Z.to_nat (block_count region) * BlockLen)%nat
    by (pose proof BlockLen_Z; unfold kBlockSize; lia).
  unfold counting. rewrite E. unfold region_bytes, counting. by rewrite map_map.
Qed.

Lemma load_mapping_answer inode ls : inode_valid r d inode ->
  Forall (fun l => 0 <= l < required_blocks inode) ls ->
  answer d (load_mapping r inode ls) = Ok (map (pointer d inode) ls).
Proof.
  intros Hi. induction ls as [|l ls IH]; intros Hls; [done|].
  apply Forall_cons in Hls as [Hl Hls]. cbn [load_mapping map].
  rewrite (answer_bind_ok _ _ _ _ _ (proj1 (map_valid r d Hv inode l Hi Hl))).
  by rewrite (answer_bind_ok _ _ _ _ _ (IH Hls)).
Qed.

Lemma mapping_answer inode : inode_valid r d inode -> answer d (LoadMapping r inode) = Ok (file_pointers d inode).
Proof.
  intros Hi. unfold LoadMapping. rewrite required_agree by apply (iv_size _ _ _ Hi).
  apply load_mapping_answer; [done|]. apply Forall_forall. intros l Hl%elem_counting. done.
Qed.
End reads.

(** * Opening an image after a change *)
Definition with_bitmaps (r : ImageReader) (inode_bitmap block_bitmap : bytes) : ImageReader :=
  mkReader (image_size_ r) (rd_superblock r) (rd_journal_control r) (rd_journal_control_copy r)
    inode_bitmap block_bitmap.

Section opened.
Context (r : ImageReader) (d : image) (Ho : opened r d).
Abbreviation sb := (rd_superblock r).

Lemma region_bounds :
  layout sb /\ u32 (total_blocks sb) /\
  0 <= block_count (inode_bitmap sb) /\ 0 <= block_count (block_bitmap sb) /\ 0 <= block_count (inode_table sb) /\
  start_block (inode_table sb) + block_count (inode_table sb) < start_block (data sb) < total_blocks sb.
Proof.
  pose proof (opened_layout _ _ Ho) as L. split; [done|].
  destruct (lay_geo _ L) as [(Htb & _ & _ & [_ H1] & [_ H2] & [_ H3] & _ & [Hd1 Hd2] & _) Hjs Hc Hd Ht].
  pose proof (lay_js _ L). pose proof (geo_bounds _ (lay_geo _ L)).
  split; [done|]. split; [word|]. split; [word|]. split; [word|].
  assert (0 < block_count (data sb)).
  { destruct (op_image _ _ Ho) as [(b & Hb & Hdec) _ _ _ _].
    destruct (SuperblockCodec.superblock_encode_decode b _ (vo_wf _ _ (op_view _ _ Ho) _ _ Hb) Hdec) as [_ He].
    apply SuperblockCodec.encode_validated in He. unfold ValidateSuperblock in He. cbv zeta in He. guards He. word. }
  lia.
Qed.

Lemma block_bitmap_bytes :
  block_bitmap_ r = region_bytes d (start_block (block_bitmap sb)) (block_count (block_bitmap sb)) /\
  bytes_ok (block_bitmap_ r) /\ Z.of_nat (length (block_bitmap_ r)) = block_count (block_bitmap sb) * 4096.
Proof.
  destruct region_bounds as (L & Ht & H1 & H2 & H3 & H4). pose proof (lay_bb _ L). pose proof (lay_it _ L).
  pose proof (op_block_bitmap _ _ Ho) as E.
  pose proof E as E0. apply (read_range_wf r d (op_view _ _ Ho)) in E0 as [Hl Hb]; [|unfold kBlockSize; lia].
  rewrite read_region in E; [|lia|lia|apply (view_region r d (op_view _ _ Ho)); lia].
  injection E as E. split; [done|]. split; [done|]. unfold kBlockSize in Hl. lia.
Qed.

Lemma inode_bitmap_bytes :
  inode_bitmap_ r = region_bytes d (start_block (inode_bitmap sb)) (block_count (inode_bitmap sb)) /\
  bytes_ok (inode_bitmap_ r) /\ Z.of_nat (length (inode_bitmap_ r)) = block_count (inode_bitmap sb) * 4096.
Proof.
  destruct region_bounds as (L & Ht & H1 & H2 & H3 & H4). pose proof (lay_ib _ L). pose proof (lay_bb _ L). pose proof (lay_it _ L).
  pose proof (op_inode_bitmap _ _ Ho) as E.
  pose proof E as E0. apply (read_range_wf r d (op_view _ _ Ho)) in E0 as [Hl Hb]; [|unfold kBlockSize; lia].
  rewrite read_region in E; [|lia|lia|apply (view_region r d (op_view _ _ Ho)); lia].
  injection E as E. split; [done|]. split; [done|]. unfold kBlockSize in Hl. lia.
Qed.

(** A change of home blocks other than the superblock. *)
Record home_change (d' : image) : Prop := {
  hc_super : d' !! 0 = d !! 0;
  hc_journal : forall blk, in_journal sb blk -> d' !! blk = d !! blk;
  hc_blocks : forall n, 0 <= n < total_blocks sb -> is_Some (d' !! n);
  hc_wf : forall n b, d' !! n = Some b -> block_wf b
}.

Context (d' : image) (ibm bm : bytes) (Hc : home_change d').
Abbreviation r' := (with_bitmaps r ibm bm).

Lemma view_change : view_ok r' d'.
Proof.
  destruct (op_view _ _ Ho) as [H1 H2 _ _]. constructor; [done|done| |apply Hc].
  intros n Hn. destruct (hc_blocks _ Hc n Hn) as [b E]. exists b. split; [done|by apply (hc_wf _ Hc n)].
Qed.

Lemma opened_change :
  region_bytes d' (start_block (inode_bitmap sb)) (block_count (inode_bitmap sb)) = ibm ->
  region_bytes d' (start_block (block_bitmap sb)) (block_count (block_bitmap sb)) = bm ->
  (forall n, 0 <= n < start_block (data sb) -> TestBit bm n = true) ->
  (forall n, total_inodes sb <= n < Z.of_nat (length ibm) * 8 -> TestBit ibm n = true) ->
  (forall n, total_blocks sb <= n < Z.of_nat (length bm) * 8 -> TestBit bm n = true) ->
  (exists root, answer d' (ReadInode r' (root_inode sb)) = Ok root /\ S_ISDIR (mode root) = true) ->
  opened r' d'.
Proof.
  intros Hib Hbb Hm Hit Hbt Hroot. destruct region_bounds as (L & Ht & H1 & H2 & H3 & H4).
  pose proof (lay_ib _ L). pose proof (lay_bb _ L). pose proof (lay_it _ L).
  pose proof (view_region r' d' view_change) as Hreg. cbn [rd_superblock with_bitmaps] in Hreg.
  destruct (op_image _ _ Ho) as [(b & Hb & Hdec) G Hf Hs Hbl].
  constructor; cbn [rd_superblock with_bitmaps image_size_ inode_bitmap_ block_bitmap_ rd_journal_control rd_journal_control_copy];
    try done.
  - apply view_change.
  - constructor; try done.
    + exists b. split; [by rewrite (hc_super _ Hc)|done].
    + intros blk Hblk. destruct (hc_blocks _ Hc blk Hblk) as [b' E']. exists b'. split; [done|by apply (hc_wf _ Hc blk)].
  - rewrite <- (op_control _ _ Ho). apply selected_change. intros c. apply (hc_journal _ Hc).
    by apply control_in_journal.
  - rewrite read_region; [by rewrite Hib|lia|lia|apply Hreg; lia].
  - rewrite read_region; [by rewrite Hbb|lia|lia|apply Hreg; lia].
Qed.
End opened.

(** * Reserving and releasing blocks *)
(** The reservations of a planner, one after the other. *)
Fixpoint reserve_n (n : nat) (a : BitmapAllocator) : result errno (BitmapAllocator * list Z) :=
  match n with
  | O => Ok (a, [])
  | S n =>
    match ReserveBlock a with
    | Err er => Err er
    | Ok (a, b) =>
      match reserve_n n a with
      | Err er => Err er
      | Ok (a, bs) => Ok (a, b :: bs)
      end
    end
  end.

(** The bits that can still be reserved. *)
Definition free_bits (a : BitmapAllocator) : gset Z :=
  list_to_set (filter (fun j => TestBit (bitmap_ a) j = false)
    (seqZ (first_allocatable_bit_ a) (valid_bits_ a - first_allocatable_bit_ a))).

Lemma elem_free_bits a j :
  j ∈ free_bits a <-> first_allocatable_bit_ a <= j < valid_bits_ a /\ TestBit (bitmap_ a) j = false.
Proof.
  unfold free_bits. rewrite elem_of_list_to_set, list_elem_of_filter, elem_of_seqZ.
  split; intros [? ?]; split; (done || lia).
Qed.

(** [a'] is [a] with the bits [bs], all free in [a], set. *)
Record takes (a : BitmapAllocator) (bs : list Z) (a' : BitmapAllocator) : Prop := {
  tk_ok : alloc_ok a';
  tk_range : valid_bits_ a' = valid_bits_ a /\ first_allocatable_bit_ a' = first_allocatable_bit_ a;
  tk_length : length (bitmap_ a') = length (bitmap_ a);
  tk_nodup : NoDup bs;
  tk_free : forall b, b ∈ bs -> first_allocatable_bit_ a <= b < valid_bits_ a /\ TestBit (bitmap_ a) b = false;
  tk_bits : forall j, 0 <= j -> TestBit (bitmap_ a') j = bool_decide (j ∈ bs) || TestBit (bitmap_ a) j
}.

Lemma takes_nil a : alloc_ok a -> takes a [] a.
Proof.
  intros H. constructor; try done; [constructor|intros b Hb; by apply elem_of_nil in Hb].
Qed.

Lemma takes_cons a b a1 bs a' :
  alloc_ok a -> takes a [b] a1 -> takes a1 bs a' -> takes a (b :: bs) a'.
Proof.
  intros Hok T1 T2. pose proof (tk_free _ _ _ T1 b ltac:(by left)) as [Hb Hf].
  destruct (tk_range _ _ _ T1) as [V1 F1]. destruct (tk_range _ _ _ T2) as [V2 F2].
  destruct Hok as (_ & Hr & _).
  assert (forall j, 0 <= j -> TestBit (bitmap_ a1) j = bool_decide (j = b) || TestBit (bitmap_ a) j) as B1.
  { intros j Hj. rewrite (tk_bits _ _ _ T1 j Hj). f_equal. apply bool_decide_ext. apply list_elem_of_singleton. }
  constructor.
  - apply T2.
  - by rewrite V2, F2.
  - by rewrite (tk_length _ _ _ T2), (tk_length _ _ _ T1).
  - constructor; [|apply T2]. intros Hin. destruct (tk_free _ _ _ T2 b Hin) as [_ H].
    rewrite B1, bool_decide_eq_true_2 in H by (done || lia). done.
  - intros x [->|Hx]%elem_of_cons; [done|]. destruct (tk_free _ _ _ T2 x Hx) as [Hxr H].
    rewrite V1, F1 in Hxr. split; [done|]. rewrite B1 in H by lia. by destruct (bool_decide _), (TestBit _ _).
  - intros j Hj. rewrite (tk_bits _ _ _ T2 j Hj), B1 by done.
    destruct (decide (j = b)) as [->|Hne].
    + rewrite (bool_decide_eq_true_2 (b = b)), (bool_decide_eq_true_2 (b ∈ b :: bs)) by (done || by left).
      by rewrite orb_true_r.
    + rewrite (bool_decide_eq_false_2 (j = b)) by done. cbn [orb]. f_equal. apply bool_decide_ext.
      rewrite elem_of_cons. split; [by right|by intros [?|?]].
Qed.

Lemma reserve_one a : alloc_ok a ->
  match ReserveBlock a with
  | Ok (a', b) => takes a [b] a'
  | Err er => er = ENOSPC /\ free_bits a = ∅
  end.
Proof.
  intros Hok. unfold ReserveBlock. destruct (Reserve a None) as [[a' r] res] eqn:E.
  destruct (reserve_inv a Hok a' r res E) as [(bit & -> & -> & -> & Hr & Hf & _)|(-> & -> & -> & Hall)].
  - cbn [default]. pose proof Hok as (Hb & H1 & _).
    assert (in_bitmap (bitmap_ a) bit) as Hin by (apply valid_in_bitmap; [done|lia]).
    constructor; try done.
    + apply alloc_ok_set; [done|by apply bytes_ok_SetBit|apply length_SetBit].
    + cbn. apply length_SetBit.
    + apply NoDup_singleton.
    + by intros b ->%list_elem_of_singleton.
    + intros j Hj. cbn. rewrite TestBit_SetBit by done. f_equal.
      destruct (Z.eqb_spec j bit) as [->|]; [by rewrite bool_decide_eq_true_2 by by left|].
      rewrite bool_decide_eq_false_2; [done|]. by intros ->%list_elem_of_singleton.
  - split; [done|]. apply set_eq. intros j. rewrite elem_free_bits. split; [|set_solver].
    intros [Hr Hf]. rewrite Hall in Hf by done. done.
Qed.

Lemma takes_free a bs a' : alloc_ok a -> takes a bs a' -> free_bits a' = free_bits a ∖ list_to_set bs.
Proof.
  intros Hok T. destruct (tk_range _ _ _ T) as [V F]. destruct Hok as (_ & Hr & _). apply set_eq. intros j.
  rewrite elem_of_difference, elem_of_list_to_set, !elem_free_bits, V, F. split.
  - intros [Hj Hf]. rewrite (tk_bits _ _ _ T) in Hf by lia. apply orb_false_elim in Hf as [Hn Hf].
    by apply bool_decide_eq_false in Hn.
  - intros [[Hj Hf] Hn]. split; [done|]. rewrite (tk_bits _ _ _ T) by lia. by rewrite bool_decide_eq_false_2.
Qed.

Lemma takes_count a bs a' : alloc_ok a -> takes a bs a' ->
  (size (free_bits a') + length bs = size (free_bits a))%nat.
Proof.
  intros Hok T. rewrite (takes_free a bs a' Hok T).
  assert ((list_to_set bs : gset Z) ⊆ free_bits a) as Hs.
  { intros b Hb%elem_of_list_to_set. apply elem_free_bits. by apply (tk_free _ _ _ T). }
  rewrite size_difference by done. rewrite (size_list_to_set bs) by apply (tk_nodup _ _ _ T).
  apply subseteq_size in Hs. rewrite (size_list_to_set bs) in Hs by apply (tk_nodup _ _ _ T). lia.
Qed.

(** Reserving [n] blocks succeeds exactly when that many are free. *)
Lemma reserve_n_spec n : forall a, alloc_ok a ->
  match reserve_n n a with
  | Ok (a', bs) => takes a bs a' /\ length bs = n /\ (n <= size (free_bits a))%nat
  | Err er => er = ENOSPC /\ (size (free_bits a) < n)%nat
  end.
Proof.
  induction n as [|n IH]; intros a Hok; cbn [reserve_n].
  { split; [by apply takes_nil|]. split; [done|lia]. }
  pose proof (reserve_one a Hok) as H1. destruct (ReserveBlock a) as [[a1 b]|er].
  - pose proof (IH a1 (tk_ok _ _ _ H1)) as H2. pose proof (takes_count _ _ _ Hok H1) as Hc. cbn [length] in Hc.
    destruct (reserve_n n a1) as [[a' bs]|er].
    + destruct H2 as (T & Hl & Hle). split; [by eapply takes_cons|]. cbn [length]. lia.
    + destruct H2 as [-> H2]. split; [done|lia].
  - destruct H1 as [-> ->]. split; [done|]. rewrite size_empty. lia.
Qed.

Lemma elem_sorted_elements s x : x ∈ sorted_elements s <-> x ∈ s.
Proof. unfold sorted_elements. rewrite merge_sort_Permutation. apply elem_of_elements. Qed.

Lemma NoDup_sorted_elements s : NoDup (sorted_elements s).
Proof. unfold sorted_elements. rewrite merge_sort_Permutation. apply NoDup_elements. Qed.

(** * Publishing an inode

    One inode slot is rewritten, the blocks [F] are taken and the blocks [R] of
    its old version are given back. Every other file keeps its inode and its
    contents, and the image stays consistent. *)
Section republish.
Context (r : ImageReader) (d : image) (Hc : consistent r d).
Abbreviation sb := (rd_superblock r).
Context (n : Z) (Hn : 1 <= n <= total_inodes sb).
Context (old_owned F : list Z) (R : gset Z).
Context (Hold : if IsInodeAllocated r n
                then exists J, answer d (ReadInode r n) = Ok J /\ old_owned = owned d J
                else old_owned = []).
Context (HF : forall b, b ∈ F -> start_block (data sb) <= b < total_blocks sb /\ TestBit (block_bitmap_ r) b = false).
Context (HR : forall b, b ∈ R -> b ∈ old_owned).
Context (d' : image) (ibm bm : bytes) (Hch : home_change r d d').
Context (Hib : region_bytes d' (start_block (inode_bitmap sb)) (block_count (inode_bitmap sb)) = ibm).
Context (Hbb : region_bytes d' (start_block (block_bitmap sb)) (block_count (block_bitmap sb)) = bm).
Context (Hlen : length ibm = length (inode_bitmap_ r) /\ length bm = length (block_bitmap_ r)).
Context (Hibits : forall j, 0 <= j -> TestBit ibm j = (j =? n - 1) || TestBit (inode_bitmap_ r) j).
Context (Hbits : forall j, 0 <= j ->
  TestBit bm j = (bool_decide (j ∈ F) || TestBit (block_bitmap_ r) j) && negb (bool_decide (j ∈ R))).
Context (Hslots : forall k, 1 <= k <= total_inodes sb -> k <> n -> slot sb d' k = slot sb d k).
Context (Hkeep : forall b, start_block (data sb) <= b < total_blocks sb -> b ∉ F -> b ∉ old_owned -> d' !! b = d !! b).
Abbreviation r' := (with_bitmaps r ibm bm).
Context (I' : InodeRecord) (Hdec : DecodeInode (slot sb d' n) n = Ok I').
Context (Hval : inode_valid r' d' I') (Hnodup : NoDup (owned d' I')).
Context (Hfrom : forall b, b ∈ owned d' I' -> (b ∈ F) \/ (b ∈ old_owned)).
Context (Hroot : n = root_inode sb -> S_ISDIR (mode I') = true).

Let Ho := co_opened _ _ Hc.
Let Hlay := opened_layout _ _ Ho.
Let Hv := op_view _ _ Ho.
Let Hv' := view_change r d Ho d' ibm bm Hch.

Lemma old_owned_data b : b ∈ old_owned -> data_block r b.
Proof.
  destruct (IsInodeAllocated r n); [|rewrite Hold; by intros ?%elem_of_nil].
  destruct Hold as (J & EJ & ->). intros Hb.
  by apply (read_inode_valid r d Hv) in EJ as (HJ & _); apply (owned_data_block r d J).
Qed.

Lemma others_apart k J b : k <> n -> answer d (ReadInode r k) = Ok J -> b ∈ owned d J ->
  data_block r b /\ (b ∉ F) /\ (b ∉ old_owned).
Proof.
  intros Hk EJ Hb. pose proof EJ as EJ0. apply (read_inode_valid r d Hv) in EJ0 as (HJ & _).
  destruct (owned_data_block _ _ _ _ HJ Hb) as [Hr Ht]. split; [done|]. split.
  - intros HinF. destruct (HF b HinF) as [_ H]. congruence.
  - destruct (IsInodeAllocated r n); [|rewrite Hold; apply not_elem_of_nil].
    destruct Hold as (J0 & EJ0 & ->). by apply (co_apart _ _ Hc k n J J0).
Qed.

Lemma published_inode : answer d' (ReadInode r' n) = Ok I'.
Proof.
  apply (read_inode_iff r' d' Hv'); [exact Hlay|]. cbn [rd_superblock with_bitmaps inode_bitmap_].
  split; [done|]. split; [|done]. rewrite Hibits, Z.eqb_refl by lia. done.
Qed.

Lemma others_kept k J : k <> n -> answer d (ReadInode r k) = Ok J ->
  answer d' (ReadInode r' k) = Ok J /\ owned d' J = owned d J /\ file_blocks d' J = file_blocks d J.
Proof.
  intros Hk EJ. pose proof EJ as EJ0. apply (read_inode_iff r d Hv Hlay) in EJ0 as (Hkr & Hkt & _).
  apply (frame_inode r r' d d' eq_refl Hv Hv' Hlay); [done|by apply Hslots| |].
  - cbn. rewrite Hibits, Hkt by lia. apply orb_true_r.
  - intros b Hb. destruct (others_apart k J b Hk EJ Hb) as ([Hr Ht] & HnF & Hno).
    split; [by apply Hkeep|]. pose proof (vo_data _ _ Hv). cbn. rewrite Hbits, Ht, orb_true_r by lia.
    rewrite bool_decide_eq_false_2; [done|]. intros HbR. by apply Hno, HR.
Qed.

Lemma others_reflected k J : k <> n -> answer d' (ReadInode r' k) = Ok J -> answer d (ReadInode r k) = Ok J.
Proof.
  intros Hk EJ. pose proof EJ as EJ0. apply (read_inode_iff r' d' Hv') in EJ0 as (Hkr & Hkt & _); [|exact Hlay].
  cbn [rd_superblock with_bitmaps inode_bitmap_] in *. rewrite Hibits in Hkt by lia.
  rewrite (proj2 (Z.eqb_neq _ _)) in Hkt by lia. cbn [orb] in Hkt.
  destruct (co_inodes _ _ Hc k) as [J0 EJ1].
  { unfold IsInodeAllocated. rewrite Hkt, (proj2 (Z.leb_le _ _)), (proj2 (Z.leb_le _ _)) by lia. done. }
  destruct (others_kept k J0 Hk EJ1) as [E _]. rewrite EJ in E. injection E as ->. done.
Qed.

Lemma republish_consistent : consistent r' d'.
Proof.
  constructor.
  - apply (opened_change r d Ho d' ibm bm Hch Hib Hbb).
    + intros j Hj. rewrite Hbits, (op_metadata _ _ Ho j Hj), orb_true_r by lia.
      rewrite bool_decide_eq_false_2; [done|]. intros HjR. destruct (old_owned_data j (HR j HjR)) as [H _]. lia.
    + intros j Hj. destruct Hlen as [Hl _]. rewrite Hl in Hj.
      rewrite Hibits, (op_inode_tail _ _ Ho j Hj); [apply orb_true_r|]. lia.
    + intros j Hj. destruct Hlen as [_ Hl]. rewrite Hl in Hj. pose proof (region_bounds r d Ho) as (_ & Htb & _).
      rewrite Hbits, (op_block_tail _ _ Ho j Hj), orb_true_r by word.
      rewrite bool_decide_eq_false_2; [done|]. intros HjR. destruct (old_owned_data j (HR j HjR)) as [H _]. lia.
    + destruct (op_root _ _ Ho) as (root & E & Hd). destruct (decide (root_inode sb = n)) as [Heq|Hne].
      * exists I'. rewrite Heq. split; [apply published_inode|by apply Hroot].
      * exists root. split; [by apply others_kept|done].
  - intros k Hk. destruct (decide (k = n)) as [->|Hne]; [exists I'; apply published_inode|].
    unfold IsInodeAllocated in Hk. cbn [rd_superblock with_bitmaps inode_bitmap_] in Hk. bool_to_prop.
    destruct (co_inodes _ _ Hc k) as [J EJ]; [|exists J; by apply others_kept].
    rewrite Hibits, (proj2 (Z.eqb_neq _ _)) in H0 by lia. cbn [orb] in H0.
    unfold IsInodeAllocated. by rewrite H0, (proj2 (Z.leb_le _ _)), (proj2 (Z.leb_le _ _)) by lia.
  - intros k J EJ. destruct (decide (k = n)) as [->|Hne].
    + rewrite published_inode in EJ. by injection EJ as <-.
    + apply others_reflected in EJ; [|done]. destruct (others_kept k J Hne EJ) as (_ & -> & _).
      by apply (co_alone _ _ Hc k).
  - assert (forall k J b, k <> n -> answer d (ReadInode r k) = Ok J -> b ∈ owned d' I' -> b ∉ owned d J) as Hx.
    { intros k J b Hk EJ Hb HbJ. destruct (others_apart k J b Hk EJ HbJ) as (_ & H1 & H2).
      by destruct (Hfrom b Hb). }
    intros k k' J J' Hkk EJ EJ' b Hb Hb'.
    destruct (decide (k = n)) as [->|Hk]; [|destruct (decide (k' = n)) as [->|Hk']].
    + rewrite published_inode in EJ. injection EJ as <-. apply others_reflected in EJ'; [|done].
      destruct (others_kept k' J' ltac:(done) EJ') as (_ & E & _). rewrite E in Hb'.
      by apply (Hx k' J' b).
    + rewrite published_inode in EJ'. injection EJ' as <-. apply others_reflected in EJ; [|done].
      destruct (others_kept k J Hk EJ) as (_ & E & _). rewrite E in Hb. by apply (Hx k J b).
    + apply others_reflected in EJ; [|done]. apply others_reflected in EJ'; [|done].
      destruct (others_kept k J Hk EJ) as (_ & E & _). destruct (others_kept k' J' Hk' EJ') as (_ & E' & _).
      rewrite E in Hb. rewrite E' in Hb'. exact (co_apart _ _ Hc k k' J J' Hkk EJ EJ' b Hb Hb').
Qed.
End republish.

(** * Words of an indirect block *)
Section words.
Local Open Scope nat_scope.

Lemma GetLe32_zero o : GetLe32 zero_block o = 0%Z.
Proof.
  unfold GetLe32, get_le. cbn [seq foldl].
  assert (forall i, nth i (slice o 4 zero_block) 0%Z = 0%Z) as H.
  { intros i. unfold slice, zeros. rewrite drop_replicate, take_replicate. generalize (4 `min` (BlockLen - o)).
    intros n. revert i. induction n; intros [|i]; cbn; auto. }
  by rewrite !H.
Qed.

Lemma length_put_words ws : forall off b, off + 4 * length ws <= length b -> length (put_words off ws b) = length b.
Proof.
  induction ws as [|w ws IH]; intros off b H; [done|]. cbn [put_words length] in *. unfold PutLe32.
  rewrite IH; rewrite length_splice; rewrite ?length_le_bytes; lia.
Qed.

Lemma bytes_ok_put_words ws : forall off b, bytes_ok b -> bytes_ok (put_words off ws b).
Proof.
  induction ws as [|w ws IH]; intros off b H; [done|]. cbn [put_words]. apply IH, bytes_ok_splice; [apply le_bytes_ok|done].
Qed.

Lemma put_words_before ws : forall off b o, off + 4 * length ws <= length b -> o + 4 <= off ->
  GetLe32 (put_words off ws b) o = GetLe32 b o.
Proof.
  induction ws as [|w ws IH]; intros off b o H Ho; [done|]. cbn [put_words length] in *.
  assert (length (PutLe32 off w b) = length b) as Hl by (unfold PutLe32; apply length_splice; rewrite length_le_bytes; lia).
  rewrite IH by lia. unfold GetLe32, PutLe32. f_equal. apply slice_splice_ne; rewrite ?length_le_bytes; lia.
Qed.

Lemma get_put_words ws : forall off b i, Forall u32 ws -> off + 4 * length ws <= length b ->
  GetLe32 (put_words off ws b) (off + 4 * i) =
  if i <? length ws then nth i ws 0%Z else GetLe32 b (off + 4 * i).
Proof.
  induction ws as [|w ws IH]; intros off b i Hw H; [done|]. apply Forall_cons in Hw as [Hw Hws].
  cbn [put_words length] in *.
  assert (length (PutLe32 off w b) = length b) as Hl by (unfold PutLe32; apply length_splice; rewrite length_le_bytes; lia).
  destruct i as [|i].
  - rewrite Nat.mul_0_r, Nat.add_0_r. rewrite put_words_before by lia. cbn. unfold GetLe32, PutLe32.
    rewrite slice_splice_same by (rewrite ?length_le_bytes; lia). by apply get_le4.
  - replace (off + 4 * S i) with (off + 4 + 4 * i) by lia. rewrite IH by (done || lia).
    change (S i <? S (length ws)) with (i <? length ws). destruct (Nat.ltb_spec i (length ws)); [done|].
    unfold GetLe32, PutLe32. f_equal. apply slice_splice_ne; rewrite ?length_le_bytes; lia.
Qed.

(** Reading back the words of an indirect block. *)
Lemma indirect_words ws i : Forall u32 ws -> length ws <= 1024 -> i < 1024 ->
  nth i (get_words (indirect_image ws zero_block) 0 1024) 0%Z = nth i ws 0%Z.
Proof.
  intros Hw Hl Hi. unfold get_words, indirect_image.
  rewrite (nth_indep _ 0%Z (GetLe32 (put_words 0 ws zero_block) (0 + 0 * 4))) by (rewrite length_map, length_seq; lia).
  rewrite (map_nth (fun index => GetLe32 (put_words 0 ws zero_block) (0 + index * 4))), seq_nth by lia.
  replace (0 + (0 + i) * 4) with (0 + 4 * i) by lia.
  rewrite get_put_words; [|done|unfold zeros; rewrite length_replicate; pose proof BlockLen_Z; lia].
  destruct (Nat.ltb_spec i (length ws)); [done|]. rewrite GetLe32_zero. by rewrite nth_overflow.
Qed.
End words.

Lemma indirect_image_wf ws : (length ws <= 1024)%nat -> block_wf (indirect_image ws zero_block).
Proof.
  intros H. unfold indirect_image. destruct zero_block_wf as [Hl Hb]. split; [|by apply bytes_ok_put_words].
  rewrite length_put_words; [done|]. rewrite Hl. pose proof BlockLen_Z. lia.
Qed.

Lemma takes_app a bs a1 bs' a' : alloc_ok a -> takes a bs a1 -> takes a1 bs' a' -> takes a (bs ++ bs') a'.
Proof.
  intros Hok T1 T2. destruct (tk_range _ _ _ T1) as [V1 F1]. destruct (tk_range _ _ _ T2) as [V2 F2].
  destruct Hok as (_ & Hr & _). constructor.
  - apply T2.
  - by rewrite V2, F2.
  - by rewrite (tk_length _ _ _ T2), (tk_length _ _ _ T1).
  - apply NoDup_app. split; [apply T1|]. split; [|apply T2]. intros x Hx Hx'.
    destruct (tk_free _ _ _ T2 x Hx') as [Hxr H]. rewrite F1, V1 in Hxr.
    rewrite (tk_bits _ _ _ T1), bool_decide_eq_true_2 in H by (done || lia). done.
  - intros x [Hx|Hx]%elem_of_app; [by apply T1|]. destruct (tk_free _ _ _ T2 x Hx) as [Hxr H].
    rewrite F1, V1 in Hxr. split; [done|]. rewrite (tk_bits _ _ _ T1) in H by lia. by apply orb_false_elim in H as [_ ?].
  - intros j Hj. rewrite (tk_bits _ _ _ T2), (tk_bits _ _ _ T1) by done. rewrite orb_assoc. f_equal.
    rewrite orb_comm, <- bool_decide_or. apply bool_decide_ext. by rewrite elem_of_app.
Qed.

Lemma inode_encode_wf v b : inode_typed v -> EncodeInode v = Ok b -> length b = InodeLen /\ bytes_ok b.
Proof.
  intros Hty He. assert (length (direct_blocks v) = 12%nat) as Hd by apply Hty.
  pose proof (InodeCodec.inode_encode_accepted v b He) as Hacc. rewrite InodeCodec.inode_encode_puts in He by done. ok_inv He.
  split; [apply (length_sealed InodeLen (InodeCodec.fields v) 124 (fun c => InodeCodec.inode_fields_layout v c Hd)
                   (InodeCodec.inode_fields_sized v))|].
  unfold sealed. rewrite <- PutLe32_puts. apply bytes_ok_splice; [apply le_bytes_ok|apply InodeCodec.inode_base_bytes_ok].
Qed.

Lemma max_file_size : kMaxFileSize = 4243456.
Proof. reflexivity. Qed.
