(* ===== verification/FileMutationProofs.v ===== *)
(** The file mutation planner on a consistent image: what its loops compute and
    what the planned images make of the file. *)
From S2P Require Import Prelude Codec OndiskFormat OndiskFormatProofs OndiskJournal Disk JournalImage JournalStates.
From S2P Require Import BitmapAllocator ImageReader ImageReaderProofs ReaderTheorems LedgerStore FileMutation.
From S2P Require Import ConsistentImage PlanProofs.
Open Scope Z_scope.
Open Scope io_scope.

(** * Bytes of spliced buffers *)
Section nth.
Local Open Scope nat_scope.

Lemma nth_slice (b : bytes) off n i : i < n -> nth i (slice off n b) 0%Z = nth (off + i) b 0%Z.
Proof. intros H. unfold slice. rewrite nth_firstn. destruct (Nat.ltb_spec i n); [|lia]. apply nth_skipn. Qed.

Lemma nth_splice (b new : bytes) off i : off + length new <= length b ->
  nth i (splice off new b) 0%Z =
  if (off <=? i) && (i <? off + length new) then nth (i - off) new 0%Z else nth i b 0%Z.
Proof.
  intros H. unfold splice. destruct (Nat.leb_spec off i); cbn [andb].
  - rewrite app_nth2; rewrite length_take; [|lia]. rewrite Nat.min_l by lia.
    destruct (Nat.ltb_spec i (off + length new)).
    + rewrite app_nth1 by lia. done.
    + rewrite app_nth2 by lia. rewrite nth_skipn. f_equal. lia.
  - rewrite app_nth1 by (rewrite length_take; lia). rewrite nth_firstn. destruct (Nat.ltb_spec i off); [done|lia].
Qed.

Lemma nth_zeros n i : nth i (zeros n) 0%Z = 0%Z.
Proof. unfold zeros. revert i. induction n; intros [|i]; cbn; auto. Qed.

Lemma nth_concat B (L : list bytes) k j : Forall (fun b => length b = B) L -> j < B -> k < length L ->
  nth (k * B + j) (concat L) 0%Z = nth j (nth k L []) 0%Z.
Proof.
  intros HL. revert k. induction HL as [|b L Hb HL IH]; intros k Hj Hk; cbn [length] in Hk; [lia|].
  destruct k as [|k]; cbn [concat nth]; [rewrite app_nth1 by lia; done|].
  rewrite app_nth2 by lia. rewrite <- IH by lia. f_equal. lia.
Qed.
End nth.

Lemma block_split p : 0 <= p -> Z.to_nat p = (Z.to_nat (p / 4096) * BlockLen + Z.to_nat (p mod 4096))%nat.
Proof.
  intros Hp. pose proof (Z.div_mod p 4096 ltac:(lia)). pose proof (Z.mod_pos_bound p 4096 ltac:(lia)).
  pose proof (Z.div_pos p 4096 Hp ltac:(lia)). pose proof BlockLen_Z. lia.
Qed.

(** Two byte strings of the same length are equal when their blocks agree. *)
Lemma bytes_ext (x y : bytes) : length x = length y ->
  (forall p, 0 <= p < Z.of_nat (length x) -> nth (Z.to_nat p) x 0 = nth (Z.to_nat p) y 0) -> x = y.
Proof.
  intros Hl H. apply (nth_ext x y 0 0 Hl). intros i Hi. specialize (H (Z.of_nat i) ltac:(lia)).
  by rewrite Nat2Z.id in H.
Qed.

(** * Reads *)
#[export] Instance reading_add_ordered r after a im : Reading (AddOrderedBlock r after a im).
Proof. unfold AddOrderedBlock. apply _. Qed.
#[export] Instance reading_place r l after rel m : Reading (place_block r l after rel m).
Proof. unfold place_block. apply _. Qed.
#[export] Instance reading_replace r data ls : forall m, Reading (replace_blocks r data ls m).
Proof. induction ls; intros m; cbn [replace_blocks]; apply _. Qed.
#[export] Instance reading_write r sz old off we data ls : forall m, Reading (write_blocks r sz old off we data ls m).
Proof. induction ls; intros m; cbn [write_blocks]; apply _. Qed.
#[export] Instance reading_finish r n inode all old bm ts sz last m :
  Reading (finish_mutation r n inode all old bm ts sz last m).
Proof. unfold finish_mutation. apply _. Qed.
#[export] Instance reading_mutation r n q : Reading (PrepareFileMutation r n q).
Proof. unfold PrepareFileMutation. apply _. Qed.
#[export] Instance reading_write_plan r n off data ts : Reading (PrepareFileWrite r n off data ts).
Proof. unfold PrepareFileWrite. apply _. Qed.
#[export] Instance reading_replace_plan r n g data ts : Reading (PrepareObjectReplace r n g data ts).
Proof. unfold PrepareObjectReplace. apply _. Qed.

(** * The loops *)
(** The state after the blocks [bs] with contents [afters] have become the
    logical blocks from [first] on. *)
Definition placed (d : image) (a : BitmapAllocator) (bs : list Z) (afters : list bytes)
    (first : nat) (released : gset Z) (m : mutation) : mutation :=
  mkMutation a
    (mkImages (insert_all (zip bs (block_at d <$> bs)) (im_before (mu_images m)))
              (insert_all (zip bs afters) (im_ordered (mu_images m)))
              (im_metadata (mu_images m)))
    (list_inserts first bs (mu_mapping m)) released.

Definition replace_after (data : bytes) (l : nat) : bytes :=
  splice 0 (slice (l * BlockLen) (Z.to_nat (Z.min 4096 (Z.of_nat (length data) - Z.of_nat l * 4096))) data) zero_block.

(** The new contents of a logical block under a range write. *)
Definition write_after (d : image) (old_size : Z) (old : list Z) (off write_end : Z) (data : bytes) (l : nat) : bytes :=
  let begin_ := Z.of_nat l * 4096 in
  let covers := (off <=? begin_) && (begin_ + 4096 <=? write_end) in
  let base := if (Z.of_nat l <? RequiredBlocks old_size) && negb covers then block_at d (nth l old 0) else zero_block in
  OverlayData off write_end begin_ data (if old_size <? off then ZeroRange old_size off begin_ base else base).

Definition write_released (old_size : Z) (old : list Z) (ls : list nat) (released : gset Z) : gset Z :=
  foldl (fun s l => if Z.of_nat l <? RequiredBlocks old_size then {[nth l old 0]} ∪ s else s) released ls.

Section loops.
Context (r : ImageReader) (d : image) (Hv : view_ok r d).
Abbreviation sb := (rd_superblock r).

Definition plan_alloc (a : BitmapAllocator) : Prop :=
  alloc_ok a /\ valid_bits_ a = total_blocks sb /\ first_allocatable_bit_ a = start_block (data sb).

Lemma plan_alloc_takes a bs a' : plan_alloc a -> takes a bs a' -> plan_alloc a'.
Proof. intros (H & H1 & H2) T. destruct (tk_range _ _ _ T) as [V E]. unfold plan_alloc. rewrite V, E. split; [apply T|done]. Qed.

Lemma place_answer l after released m : plan_alloc (mu_allocator m) ->
  answer d (place_block r l after released m) =
  match ReserveBlock (mu_allocator m) with
  | Ok (a, b) => Ok (placed d a [b] [after] (Z.to_nat l) released m)
  | Err er => Err er
  end.
Proof.
  intros (Hok & Hval & Hfst). unfold place_block, AddOrderedBlock. rewrite answer_bind, answer_of_bind by apply _.
  pose proof (reserve_one _ Hok) as H1. destruct (ReserveBlock (mu_allocator m)) as [[a b]|er]; [|done].
  destruct (tk_free _ _ _ H1 b ltac:(by left)) as [Hb _]. pose proof (vo_data _ _ Hv).
  rewrite (answer_bind_ok _ _ _ (block_at d b)); [done|apply _|]. apply (answer_read_block r d Hv). lia.
Qed.

Lemma placed_more a b a' bs after afters first released released' m :
  placed d a' bs afters (S first) released' (placed d a [b] [after] first released m) =
  placed d a' (b :: bs) (after :: afters) first released' m.
Proof.
  unfold placed. cbn [mu_images mu_mapping im_before im_ordered im_metadata]. f_equal.
  cbn [list_inserts fmap list_fmap zip zip_with insert_all foldl]. by rewrite list_insert_inserts_lt by lia.
Qed.

Lemma placed_none a first m : placed d a [] [] first (mu_released m) m = mkMutation a (mu_images m) (mu_mapping m) (mu_released m).
Proof. unfold placed. cbn. by destruct m as [? [] ? ?]. Qed.

Lemma replace_answer data n : forall k m, plan_alloc (mu_allocator m) ->
  answer d (replace_blocks r data (map Z.of_nat (seq k n)) m) =
  match reserve_n n (mu_allocator m) with
  | Ok (a, bs) => Ok (placed d a bs (map (replace_after data) (seq k n)) k (mu_released m) m)
  | Err er => Err er
  end.
Proof.
  induction n as [|n IH]; intros k m Ha; cbn [seq map replace_blocks reserve_n].
  { rewrite placed_none. by destruct m. }
  rewrite answer_bind, place_answer by (apply _ || done). pose proof Ha as (Hok & _). pose proof (reserve_one _ Hok) as H1.
  destruct (ReserveBlock (mu_allocator m)) as [[a b]|er]; [|done]. rewrite Nat2Z.id.
  rewrite IH by (eapply plan_alloc_takes; [apply Ha|apply H1]). cbn [placed mu_allocator mu_released].
  destruct (reserve_n n a) as [[a' bs]|er]; [|done]. f_equal.
  change (mkMutation a _ _ _) with (placed d a [b] [splice 0 (slice (Z.to_nat (Z.of_nat k * kBlockSize))
     (Z.to_nat (kBlockSize `min` (length data - Z.of_nat k * kBlockSize))) data) zero_block] k (mu_released m) m).
  rewrite placed_more. do 3 f_equal. unfold replace_after, kBlockSize. f_equal. f_equal. pose proof BlockLen_Z. lia.
Qed.

Lemma write_answer old_size old off we data n : forall k m, plan_alloc (mu_allocator m) ->
  (forall l, (l < k + n)%nat -> Z.of_nat l < RequiredBlocks old_size -> 0 <= nth l old 0 < total_blocks sb) ->
  answer d (write_blocks r old_size old off we data (map Z.of_nat (seq k n)) m) =
  match reserve_n n (mu_allocator m) with
  | Ok (a, bs) => Ok (placed d a bs (map (write_after d old_size old off we data) (seq k n)) k
                        (write_released old_size old (seq k n) (mu_released m)) m)
  | Err er => Err er
  end.
Proof.
  induction n as [|n IH]; intros k m Ha Hold; cbn [seq map write_blocks reserve_n].
  { unfold write_released. cbn [foldl]. rewrite placed_none. by destruct m. }
  rewrite Nat2Z.id.
  rewrite (answer_bind_ok _ _ _ (if (Z.of_nat k <? RequiredBlocks old_size) &&
     negb ((off <=? Z.of_nat k * 4096) && (Z.of_nat k * 4096 + 4096 <=? we)) then block_at d (nth k old 0) else zero_block));
    [|apply _|].
  2: { unfold kBlockSize. rewrite answer_if. destruct (Z.ltb_spec (Z.of_nat k) (RequiredBlocks old_size)); [|done].
       destruct (negb _); [|done]. apply (answer_read_block r d Hv), Hold; lia. }
  rewrite answer_bind, place_answer by (apply _ || done). pose proof Ha as (Hok & _). pose proof (reserve_one _ Hok) as H1.
  destruct (ReserveBlock (mu_allocator m)) as [[a b]|er]; [|done]. rewrite Nat2Z.id.
  rewrite IH; [|eapply plan_alloc_takes; [apply Ha|apply H1]|intros l Hl; apply Hold; lia].
  cbn [placed mu_allocator mu_released].
  destruct (reserve_n n a) as [[a' bs]|er]; [|done]. f_equal. apply placed_more.
Qed.
End loops.

(** * Releasing *)
Record gives (a : BitmapAllocator) (R : gset Z) (a' : BitmapAllocator) : Prop := {
  gv_ok : alloc_ok a';
  gv_range : valid_bits_ a' = valid_bits_ a /\ first_allocatable_bit_ a' = first_allocatable_bit_ a;
  gv_length : length (bitmap_ a') = length (bitmap_ a);
  gv_bits : forall j, 0 <= j -> TestBit (bitmap_ a') j = negb (bool_decide (j ∈ R)) && TestBit (bitmap_ a) j
}.

Lemma release_one a b : alloc_ok a -> first_allocatable_bit_ a <= b < valid_bits_ a ->
  TestBit (bitmap_ a) b = true ->
  exists a', ReleaseAllocated a b = (a', Ok tt) /\ gives a {[b]} a'.
Proof.
  intros Hok Hb Ht. pose proof Hok as (Hbytes & H1 & _). eexists. unfold ReleaseAllocated.
  rewrite (geometry_good a Hok), (proj2 (Z.ltb_ge _ _)), (proj2 (Z.leb_gt _ _)), Ht by lia. cbn [orb negb].
  split; [done|]. assert (in_bitmap (bitmap_ a) b) as Hin by (apply valid_in_bitmap; [done|lia]).
  constructor; try done.
  - apply alloc_ok_set; [done|by apply bytes_ok_ClearBit|apply length_ClearBit].
  - cbn. apply length_ClearBit.
  - intros j Hj. cbn. rewrite TestBit_ClearBit by done. f_equal. f_equal.
    destruct (Z.eqb_spec j b) as [->|]; symmetry; [apply bool_decide_eq_true_2|apply bool_decide_eq_false_2]; set_solver.
Qed.

Lemma release_blocks_ok bs : forall a, alloc_ok a -> NoDup bs ->
  (forall b, b ∈ bs -> first_allocatable_bit_ a <= b < valid_bits_ a /\ TestBit (bitmap_ a) b = true) ->
  exists a', release_blocks bs a = Ok a' /\ gives a (list_to_set bs) a'.
Proof.
  induction bs as [|b bs IH]; intros a Hok Hnd Hin; cbn [release_blocks].
  { exists a. split; [done|]. by constructor. }
  inversion Hnd as [|? ? Hb Hnd']; subst. destruct (Hin b ltac:(by left)) as [Hr Ht].
  destruct (release_one a b Hok Hr Ht) as (a1 & E1 & G1). rewrite E1.
  destruct (gv_range _ _ _ G1) as [V1 F1]. destruct Hok as (_ & H0 & _).
  destruct (IH a1) as (a' & E2 & G2); [apply G1|done| |].
  - intros x Hx. destruct (Hin x ltac:(by right)) as [Hxr Hxt]. rewrite V1, F1. split; [done|].
    rewrite (gv_bits _ _ _ G1), Hxt by lia. rewrite bool_decide_eq_false_2; [done|].
    intros ->%elem_of_singleton. done.
  - exists a'. split; [done|]. destruct (gv_range _ _ _ G2) as [V2 F2]. constructor.
    + apply G2.
    + by rewrite V2, F2.
    + by rewrite (gv_length _ _ _ G2), (gv_length _ _ _ G1).
    + intros j Hj. rewrite (gv_bits _ _ _ G2), (gv_bits _ _ _ G1) by done. rewrite andb_assoc, <- negb_orb. f_equal. f_equal.
      rewrite <- bool_decide_or. apply bool_decide_ext. rewrite list_to_set_cons, elem_of_union. tauto.
Qed.

Lemma release_set R a : alloc_ok a ->
  (forall b, b ∈ R -> first_allocatable_bit_ a <= b < valid_bits_ a /\ TestBit (bitmap_ a) b = true) ->
  exists a', release_blocks (sorted_elements R) a = Ok a' /\ gives a R a'.
Proof.
  intros Hok Hin. destruct (release_blocks_ok (sorted_elements R) a Hok) as (a' & E & G).
  - apply NoDup_sorted_elements.
  - intros b Hb%elem_sorted_elements. by apply Hin.
  - exists a'. split; [done|]. replace R with (list_to_set (sorted_elements R) : gset Z); [done|].
    apply set_eq. intros x. by rewrite elem_of_list_to_set, elem_sorted_elements.
Qed.

(** * The bitmap images *)
Section diff.
Context (region : Region) (before after : bytes).

Definition changed_block (locals : list Z) (blk : Z) : Prop :=
  blk - start_block region ∈ locals /\
  BitmapBlock before (blk - start_block region) <> BitmapBlock after (blk - start_block region).

Lemma changed_block_em locals blk : changed_block locals blk \/ ~ changed_block locals blk.
Proof.
  unfold changed_block. generalize (blk - start_block region). intros l.
  destruct (decide (l ∈ locals)); [|right; by intros []].
  destruct (decide (BitmapBlock before l = BitmapBlock after l)); [right; by intros []|by left].
Qed.

(** The images of the bitmap blocks that differ, on top of [im]. *)
Definition diff_spec (locals : list Z) (im im' : images) : Prop :=
  im_ordered im' = im_ordered im /\
  forall blk,
    (changed_block locals blk ->
       im_metadata im' !! blk = Some (BitmapBlock after (blk - start_block region)) /\
       im_before im' !! blk = Some (BitmapBlock before (blk - start_block region))) /\
    (~ changed_block locals blk ->
       im_metadata im' !! blk = im_metadata im !! blk /\ im_before im' !! blk = im_before im !! blk).

Lemma diff_bitmap_lookup locals : forall im,
  (forall l, l ∈ locals -> u32 (start_block region + l)) ->
  diff_spec locals im (diff_bitmap region before after locals im).
Proof.
  induction locals as [|l ls IH]; intros im Hr; cbn [diff_bitmap].
  { split; [done|]. intros blk. split; [|done]. intros [H _]. by apply elem_of_nil in H. }
  rewrite wrap32_small by (apply Hr; by left).
  assert (forall blk, changed_block (l :: ls) blk <-> changed_block ls blk \/
     (blk = start_block region + l /\ BitmapBlock before l <> BitmapBlock after l)) as Hch.
  { intros blk. unfold changed_block. rewrite elem_of_cons. split.
    - intros [[<-|H] Hd]; [right; split; [lia|done]|by left].
    - intros [[H Hd]|[-> Hd]]; [split; [by right|done]|].
      replace (start_block region + l - start_block region) with l by lia. split; [by left|done]. }
  case_bool_decide as E.
  - destruct (IH im) as [H1 H2]; [intros x Hx; apply Hr; by right|]. split; [done|]. intros blk. rewrite Hch.
    destruct (H2 blk) as [H3 H4]. split; [intros [Hc|[_ Hd]]; [by apply H3|done]|intros Hn; apply H4; intros Hc; apply Hn; by left].
  - destruct (IH (add_metadata (start_block region + l) (BitmapBlock before l) (BitmapBlock after l) im)) as [H1 H2];
      [intros x Hx; apply Hr; by right|]. split; [done|]. intros blk. rewrite Hch. destruct (H2 blk) as [H3 H4].
    destruct (changed_block_em ls blk) as [Hc|Hc].
    + split; [intros _; by apply H3|intros Hn; destruct Hn; by left].
    + destruct (H4 Hc) as [-> ->]. cbn. split.
      * intros [?|[-> _]]; [done|]. rewrite !lookup_insert_eq.
        by replace (start_block region + l - start_block region) with l by lia.
      * intros Hn. rewrite !lookup_insert_ne by (intros <-; apply Hn; by right). done.
Qed.
End diff.

(** * The last part of the plan *)
Definition encoded_inode (i : InodeRecord) : bytes :=
  match EncodeInode i with Ok b => b | Err _ => [] end.

Section finish.
Context (r : ImageReader) (d : image) (Hv : view_ok r d) (Hlay : layout (rd_superblock r)).
Abbreviation sb := (rd_superblock r).
Context (n : Z) (inode : InodeRecord) (replace_all : bool) (old : list Z) (bm : bytes).
Context (ts new_size last : Z) (m : mutation).

Definition changes_indirect : bool :=
  (12 <? RequiredBlocks new_size) && (replace_all || (indirect_block inode =? 0) || (12 <=? last)).

Definition all_released : gset Z :=
  if negb (indirect_block inode =? 0) && (replace_all || changes_indirect)
  then {[indirect_block inode]} ∪ mu_released m else mu_released m.

Definition new_inode (ni : Z) : InodeRecord :=
  set_contents inode new_size ts (generation inode + 1)
    (resize 12 0 (take (Z.to_nat (RequiredBlocks new_size)) (mu_mapping m)))
    (if 12 <? RequiredBlocks new_size then ni else 0).

Definition bitmap_images (a : BitmapAllocator) : images :=
  diff_bitmap (block_bitmap sb) bm (bitmap_ a) (counting (block_count (block_bitmap sb))) (mu_images m).

Definition indirect_images (a : BitmapAllocator) (ni : Z) : images :=
  if changes_indirect
  then add_metadata ni (block_at d ni) (indirect_image (drop 12 (mu_mapping m)) zero_block) (bitmap_images a)
  else bitmap_images a.

Definition final_images (a : BitmapAllocator) (ni : Z) : images :=
  add_metadata (InodeTableBlock sb n) (block_at d (InodeTableBlock sb n))
    (put_inode n (encoded_inode (new_inode ni)) (block_at d (InodeTableBlock sb n))) (indirect_images a ni).

Definition finished (a : BitmapAllocator) (ni : Z) : FileMutationPlan :=
  let im := final_images a ni in
  mkFilePlan n (generation inode) (generation inode + 1) (i_size inode) new_size old (mu_mapping m)
    (indirect_block inode) (indirect_block (new_inode ni)) (total_blocks sb) (sb_filesystem_uuid sb)
    (im_before im) (im_ordered im) (im_metadata im).

(** The block of the new indirect pointers. *)
Definition indirect_reservation : result errno (BitmapAllocator * Z) :=
  if changes_indirect then ReserveBlock (mu_allocator m)
  else Ok (mu_allocator m, if replace_all then 0 else indirect_block inode).

Context (Halloc : plan_alloc r (mu_allocator m)) (Hn : 1 <= n <= total_inodes sb).
Context (Hnum : inode_number inode <> 0) (Hmode : IsKnownMode (mode inode) = true).
Context (Hsize : 0 <= new_size <= kMaxFileSize).
Context (Hrel : forall b, b ∈ all_released ->
  start_block (data sb) <= b < total_blocks sb /\ TestBit (bitmap_ (mu_allocator m)) b = true).

Lemma new_inode_encodes ni : EncodeInode (new_inode ni) = Ok (encoded_inode (new_inode ni)).
Proof.
  unfold encoded_inode. rewrite (InodeCodec.inode_encode_puts (new_inode ni)); [done|].
  unfold InodeCodec.accepted. cbn. by rewrite (proj2 (Z.eqb_neq _ _) Hnum), Hmode, (proj2 (Z.leb_le _ _)) by lia.
Qed.

Lemma finish_answer :
  match indirect_reservation with
  | Err er => answer d (finish_mutation r n inode replace_all old bm ts new_size last m) = Err er
  | Ok (a, ni) => exists a', gives a all_released a' /\
      answer d (finish_mutation r n inode replace_all old bm ts new_size last m) = Ok (finished a' ni)
  end.
Proof.
  pose proof Halloc as (Hok & Hval & Hfst). unfold finish_mutation, indirect_reservation.
  change kDirectBlockCount with 12. cbv zeta. fold changes_indirect. fold all_released.
  assert (forall a ni, takes (mu_allocator m) (if changes_indirect then [ni] else []) a ->
    exists a', gives a all_released a' /\
      answer d (let* allocator := io_of (release_blocks (sorted_elements all_released) a) in
        let* im := (if changes_indirect then let* indirect_before := ReadBlock r ni in
              io_ret (add_metadata ni indirect_before (indirect_image (drop 12 (mu_mapping m)) zero_block) (bitmap_images allocator))
            else io_ret (bitmap_images allocator)) in
        let* inode_before := ReadBlock r (InodeTableBlock sb n) in
        match EncodeInode (new_inode ni) with
        | Err _ => io_fail EUCLEAN
        | Ok encoded => let im := add_metadata (InodeTableBlock sb n) inode_before (put_inode n encoded inode_before) im in
          io_ret (mkFilePlan n (generation inode) (generation inode + 1) (i_size inode) new_size old (mu_mapping m)
            (indirect_block inode) (if 12 <? RequiredBlocks new_size then ni else 0) (total_blocks sb) (sb_filesystem_uuid sb)
            (im_before im) (im_ordered im) (im_metadata im))
        end) = Ok (finished a' ni)) as Hrest.
  { intros a ni T. destruct (tk_range _ _ _ T) as [V F].
    destruct (release_set all_released a (tk_ok _ _ _ T)) as (a' & E & G).
    { intros b Hb. destruct (Hrel b Hb) as [Hr Ht]. pose proof (vo_data _ _ Hv). rewrite V, F, Hval, Hfst. split; [done|].
      rewrite (tk_bits _ _ _ T), Ht by lia. apply orb_true_r. }
    exists a'. split; [done|]. rewrite E, answer_of_bind.
    rewrite (answer_bind_ok _ _ _ (indirect_images a' ni)); [|apply _|].
    - destruct (inode_position sb Hlay n Hn) as (_ & _ & Hp). pose proof (geo_bounds _ (lay_geo _ Hlay)) as (Hjs & _ & _ & Hjt).
      destruct (lay_geo _ Hlay) as [(_ & _ & _ & _ & _ & [Hs _] & _) _ Hjc _ _].
      rewrite (answer_bind_ok _ _ _ (block_at d (InodeTableBlock sb n))); [|apply _|apply (answer_read_block r d Hv); word].
      by rewrite new_inode_encodes.
    - unfold indirect_images. destruct changes_indirect; [|done].
      destruct (tk_free _ _ _ T ni ltac:(by left)) as [Hr _]. pose proof (vo_data _ _ Hv).
      rewrite (answer_bind_ok _ _ _ (block_at d ni)); [done|apply _|]. apply (answer_read_block r d Hv). lia. }
  destruct changes_indirect eqn:Eci.
  - pose proof (reserve_one _ Hok) as H1. rewrite answer_of_bind.
    destruct (ReserveBlock (mu_allocator m)) as [[a ni]|er]; [|done].
    destruct (Hrest a ni H1) as (a' & G & E). exists a'. split; [done|]. exact E.
  - destruct (Hrest (mu_allocator m) (if replace_all then 0 else indirect_block inode) (takes_nil _ Hok)) as (a' & G & E).
    exists a'. split; [done|]. exact E.
Qed.
End finish.
