(* ===== verification/FileMutationPublish.v ===== *)
(** The image after a file mutation has been applied: the new inode reads back
    with the new mapping, every other file is untouched, and the image stays
    consistent. *)
From S2P Require Import Prelude Codec OndiskFormat OndiskFormatProofs OndiskJournal Disk JournalStore JournalImage.
From S2P Require Import JournalStates BitmapAllocator ImageReader ImageReaderProofs ReaderTheorems LedgerStore.
From S2P Require Import FileMutation ConsistentImage PlanProofs FileMutationProofs.
Open Scope Z_scope.

(** The home blocks once the images of a plan are in place. *)
Definition applied (ordered meta d : image) : image := meta ∪ (ordered ∪ d).

Lemma lookup_applied ordered meta d blk :
  applied ordered meta d !! blk =
  match meta !! blk with Some b => Some b | None => match ordered !! blk with Some b => Some b | None => d !! blk end end.
Proof.
  unfold applied. rewrite lookup_union. destruct (meta !! blk); [by rewrite union_Some_l|]. rewrite lookup_union.
  destruct (ordered !! blk); [by rewrite union_Some_l|]. by destruct (d !! blk).
Qed.

Lemma insert_all_lookup {A} (ks : list Z) (vs : list A) (i : nat) k v :
  NoDup ks -> length vs = length ks -> ks !! i = Some k -> vs !! i = Some v ->
  insert_all (zip ks vs) ∅ !! k = Some v.
Proof.
  intros Hnd Hl Hk Hv. apply lookup_insert_all_in.
  - change (NoDup (zip ks vs).*1). by rewrite fst_zip by lia.
  - apply list_elem_of_lookup. exists i. rewrite lookup_zip_with, Hk, Hv. done.
Qed.

Lemma insert_all_none {A} (ks : list Z) (vs : list A) k : length vs = length ks -> k ∉ ks ->
  insert_all (zip ks vs) ∅ !! k = None.
Proof.
  intros Hl Hk. rewrite lookup_insert_all_ne; [apply lookup_empty|].
  change (k ∉ (zip ks vs).*1). by rewrite fst_zip by lia.
Qed.

Definition block_allocator (r : ImageReader) : BitmapAllocator :=
  mkAllocator (block_bitmap_ r) (total_blocks (rd_superblock r)) (start_block (data (rd_superblock r))).

Lemma block_allocator_ok r d : opened r d -> plan_alloc r (block_allocator r).
Proof.
  intros Ho. destruct (region_bounds r d Ho) as (L & Htb & _ & _ & H3 & H4).
  destruct (block_bitmap_bytes r d Ho) as (_ & Hb & Hl). pose proof (lay_bb_size _ L).
  pose proof (vo_data _ _ (op_view _ _ Ho)).
  split; [|done]. split; [done|]. unfold capacity_bits. cbn. word.
Qed.

Lemma allocator_valid r d : opened r d -> Validate (block_allocator r) = Ok tt.
Proof.
  intros Ho. destruct (block_allocator_ok r d Ho) as ((_ & H1 & H2) & _). destruct (region_bounds r d Ho) as (L & Htb & _ & _ & _ & H4).
  unfold Validate. cbn [block_allocator valid_bits_ first_allocatable_bit_ bitmap_] in *.
  rewrite (proj2 (Z.eqb_neq _ _)), (proj2 (Z.ltb_ge _ _)), (proj2 (Z.ltb_ge _ _)) by lia. cbn [orb].
  rewrite (proj2 (all_set_spec _ _ _)), (proj2 (all_set_spec _ _ _)); [done|..].
  - intros k Hk. apply (op_block_tail _ _ Ho). unfold capacity_bits in Hk. cbn in Hk. lia.
  - intros k Hk. apply (op_metadata _ _ Ho). lia.
Qed.

Lemma insert_all_values {A} (ks : list Z) (vs : list A) k v :
  insert_all (zip ks vs) ∅ !! k = Some v -> v ∈ vs.
Proof.
  assert (forall (m : gmap Z A), insert_all (zip ks vs) m !! k = Some v -> (v ∈ vs) \/ m !! k = Some v) as H.
  { revert vs. induction ks as [|k0 ks IH]; intros [|v0 vs] m H; [by right..|]. cbn in H.
    apply IH in H as [H|H]; [left; by right|]. destruct (decide (k = k0)) as [->|Hne].
    - rewrite lookup_insert_eq in H. injection H as ->. left. by left.
    - rewrite lookup_insert_ne in H by done. by right. }
  intros E. destruct (H ∅ E) as [|H0]; [done|]. by rewrite lookup_empty in H0.
Qed.

Lemma nth_resize (l : list Z) i : (i < 12)%nat -> nth i (resize 12 0 l) 0 = nth i l 0.
Proof.
  intros Hi. destruct (Nat.lt_ge_cases i (length l)) as [H|H].
  - rewrite !nth_lookup, lookup_resize by lia. done.
  - rewrite (nth_overflow l) by lia. rewrite nth_lookup, lookup_resize_new by lia. done.
Qed.

Lemma counting_nth (l : list Z) : map (fun i => nth (Z.to_nat i) l 0) (counting (Z.of_nat (length l))) = l.
Proof.
  rewrite counting_seq, map_map. apply (nth_ext _ _ 0 0); [by rewrite length_map, length_seq|].
  intros i Hi. rewrite length_map, length_seq in Hi.
  rewrite (nth_indep _ 0 (nth (Z.to_nat (Z.of_nat 0)) l 0)) by (rewrite length_map, length_seq; lia).
  rewrite (map_nth (fun x => nth (Z.to_nat (Z.of_nat x)) l 0)), seq_nth by lia. f_equal. lia.
Qed.

Lemma read_facts r d (Ho : opened r d) n inode : answer d (ReadInode r n) = Ok inode ->
  1 <= n <= total_inodes (rd_superblock r) /\ inode_valid r d inode /\ inode_number inode = n /\ inode_typed inode.
Proof.
  intros Hread. pose proof (op_view _ _ Ho) as Hv. pose proof (opened_layout _ _ Ho) as Hlay.
  destruct (proj1 (read_inode_iff r d Hv Hlay n inode) Hread) as (H1 & H2 & H3 & H4). split; [done|]. split; [done|].
  destruct (inode_position _ Hlay n H1) as (_ & _ & Hp). destruct (region_bounds r d Ho) as (_ & Htb & _ & _ & _ & H5).
  assert (0 <= InodeTableBlock (rd_superblock r) n < total_blocks (rd_superblock r)) as Hb.
  { destruct (lay_geo _ Hlay) as [(_ & _ & _ & _ & _ & [Hs _] & _) _ _ _ _]. pose proof (lay_js _ Hlay). word. }
  destruct (vo_blocks _ _ Hv _ Hb) as (b & Eb & Hl & Hbb).
  destruct (InodeCodec.inode_encode_decode (slot (rd_superblock r) d n) n inode) as (Hty & Hn & _); [..|done|done].
  - unfold slot, block_at. rewrite Eb. apply length_slice. change (default [] (Some b)) with b. rewrite Hl. apply offset_in_block.
  - unfold slot, block_at. rewrite Eb. by apply bytes_ok_slice.
Qed.

Lemma BitmapBlock_wf b i : bytes_ok b -> 0 <= i -> (i + 1) * 4096 <= Z.of_nat (length b) -> block_wf (BitmapBlock b i).
Proof.
  intros Hb Hi Hl. split; [|by apply bytes_ok_slice]. apply length_slice. pose proof BlockLen_Z. unfold kBlockSize. lia.
Qed.

Section publish.
Context (r : ImageReader) (d : image) (Hc : consistent r d).
Abbreviation sb := (rd_superblock r).
Context (n : Z) (inode : InodeRecord) (Hread : answer d (ReadInode r n) = Ok inode).
Context (replace_all : bool) (ts new_size last : Z).
Context (bs : list Z) (afters : list bytes) (first : nat) (R0 : gset Z) (mp0 : list Z) (a1 : BitmapAllocator).
Abbreviation m0 := (mkMutation (block_allocator r) (mkImages ∅ ∅ ∅) mp0 ∅).
Abbreviation m := (placed d a1 bs afters first R0 m0).
Abbreviation nm := (list_inserts first bs mp0).
Abbreviation ci := (changes_indirect inode replace_all new_size last).
Abbreviation R := (all_released inode replace_all new_size last m).
Context (a2 a3 : BitmapAllocator) (ni : Z).
Context (T1 : takes (block_allocator r) bs a1).
Context (T2 : takes a1 (if ci then [ni] else []) a2) (G : gives a2 R a3).
Context (Hafters : length afters = length bs) (Hwf : Forall block_wf afters).
Abbreviation plan := (finished r d n inode replace_all (file_pointers d inode) (block_bitmap_ r) ts new_size last m a3 ni).
Abbreviation d' := (applied (fp_ordered_data_after_images plan) (fp_metadata_after_images plan) d).
Abbreviation I' := (new_inode inode ts new_size m ni).
Abbreviation r' := (with_bitmaps r (inode_bitmap_ r) (bitmap_ a3)).
Abbreviation cnt := (RequiredBlocks new_size).

Context (Hsize : 0 <= new_size <= kMaxFileSize) (Hts : u64 ts) (Hgen : generation inode < uint64_limit).
(** The new mapping: fresh blocks and blocks kept from the old one. *)
Context (Hnm_len : length nm = Z.to_nat cnt) (Hnm_nodup : NoDup nm).
Context (Hnm : forall b, b ∈ nm -> (b ∈ bs) \/ ((b ∈ file_pointers d inode) /\ b ∉ R)).
Context (HR : forall b, b ∈ R -> b ∈ owned d inode).
Context (Hkeep_ind : ci = false -> 12 < cnt ->
  ni = indirect_block inode /\ ni <> 0 /\ (ni ∉ R) /\ cnt = required_blocks inode /\
  forall l, 12 <= l < cnt -> nth (Z.to_nat l) nm 0 = pointer d inode l).
Context (Hdir : S_ISREG (mode inode) = true).

Let Ho := co_opened _ _ Hc.
Let Hv := op_view _ _ Ho.
Let Hlay := opened_layout _ _ Ho.
Abbreviation F := (bs ++ (if ci then [ni] else [])).
Abbreviation tb := (InodeTableBlock sb n).

Lemma inode_facts : 1 <= n <= total_inodes sb /\ inode_valid r d inode /\ inode_number inode = n /\ inode_typed inode.
Proof. exact (read_facts r d Ho n inode Hread). Qed.

Lemma F_takes : takes (block_allocator r) F a2.
Proof. destruct (block_allocator_ok r d Ho) as (Hok & _). by apply (takes_app _ _ a1). Qed.

Lemma F_fresh b : b ∈ F -> start_block (data sb) <= b < total_blocks sb /\ TestBit (block_bitmap_ r) b = false.
Proof. intros Hb. by apply (tk_free _ _ _ F_takes b). Qed.

Lemma final_bits j : 0 <= j ->
  TestBit (bitmap_ a3) j = (bool_decide (j ∈ F) || TestBit (block_bitmap_ r) j) && negb (bool_decide (j ∈ R)).
Proof. intros Hj. rewrite (gv_bits _ _ _ G), (tk_bits _ _ _ F_takes), andb_comm by done. done. Qed.

Lemma final_bitmap : bytes_ok (bitmap_ a3) /\ length (bitmap_ a3) = length (block_bitmap_ r).
Proof.
  split; [apply (gv_ok _ _ _ G)|]. rewrite (gv_length _ _ _ G), (tk_length _ _ _ F_takes). done.
Qed.

(** ** The planned images *)
Abbreviation bstart := (start_block (block_bitmap sb)).
Abbreviation bcount := (block_count (block_bitmap sb)).

Lemma places : 1 < bstart + bcount <= start_block (inode_table sb) /\ 1 < bstart /\ 0 < bcount /\
  start_block (inode_table sb) <= tb < js sb /\ js sb < start_block (data sb) < total_blocks sb /\ u32 (total_blocks sb) /\
  start_block (data sb) = js sb + block_count (journal sb).
Proof.
  destruct (region_bounds r d Ho) as (L & Htb & H1 & H2 & H3 & H4). destruct inode_facts as (Hn & _).
  destruct (inode_position sb Hlay n Hn) as (_ & _ & Hp). pose proof (lay_bb _ L). pose proof (lay_it _ L).
  pose proof (lay_ib_size _ L). pose proof (lay_bb_size _ L). pose proof (lay_js _ L).
  pose proof (geo_data _ (lay_geo _ L)). pose proof (geo_count _ (lay_geo _ L)). word.
Qed.

Abbreviation bmeta := (im_metadata (bitmap_images r (block_bitmap_ r) m a3)).

Lemma bitmap_spec : diff_spec (block_bitmap sb) (block_bitmap_ r) (bitmap_ a3) (counting bcount) (mu_images m)
  (bitmap_images r (block_bitmap_ r) m a3).
Proof.
  apply diff_bitmap_lookup. intros l Hl%elem_counting. pose proof places. word.
Qed.

Lemma bmeta_outside blk : blk < bstart \/ bstart + bcount <= blk -> bmeta !! blk = None.
Proof.
  intros Hb. destruct bitmap_spec as [_ H]. destruct (H blk) as [_ H2].
  destruct H2 as [-> _]; [|apply lookup_empty]. intros [Hin%elem_counting _]. lia.
Qed.

Lemma old_bitmap_block i : 0 <= i < bcount -> BitmapBlock (block_bitmap_ r) i = block_at d (bstart + i).
Proof.
  intros Hi. destruct (block_bitmap_bytes r d Ho) as (-> & _). pose proof places. apply region_block; [|done].
  apply (view_region r d Hv); lia.
Qed.

Lemma ordered_is : fp_ordered_data_after_images plan = insert_all (zip bs afters) ∅.
Proof.
  unfold finished. cbn [fp_ordered_data_after_images final_images add_metadata im_ordered].
  unfold indirect_images. destruct bitmap_spec as [H _]. by destruct ci.
Qed.

Lemma ordered_outside blk : blk ∉ bs -> fp_ordered_data_after_images plan !! blk = None.
Proof. intros H. rewrite ordered_is. by apply insert_all_none. Qed.

Lemma meta_lookup blk : fp_metadata_after_images plan !! blk =
  if decide (blk = tb) then Some (put_inode n (encoded_inode I') (block_at d tb))
  else if ci && bool_decide (blk = ni) then Some (indirect_image (drop 12 nm) zero_block)
  else bmeta !! blk.
Proof.
  unfold finished. cbn [fp_metadata_after_images final_images add_metadata im_metadata].
  destruct (decide (blk = tb)) as [->|Hne]; [by rewrite lookup_insert_eq|].
  rewrite lookup_insert_ne by done. unfold indirect_images. destruct ci; cbn [andb]; [|done].
  cbn [add_metadata im_metadata]. case_bool_decide as Hb; [subst; by rewrite lookup_insert_eq|].
  by rewrite lookup_insert_ne.
Qed.

Lemma data_not_meta blk : start_block (data sb) <= blk -> (ci = true -> blk <> ni) ->
  fp_metadata_after_images plan !! blk = None.
Proof.
  intros Hb Hni. pose proof places. rewrite meta_lookup, decide_False by lia.
  destruct ci; cbn [andb]; [rewrite bool_decide_eq_false_2 by auto|]; apply bmeta_outside; lia.
Qed.

Lemma after_table : d' !! tb = Some (put_inode n (encoded_inode I') (block_at d tb)).
Proof. rewrite lookup_applied, meta_lookup. by rewrite decide_True. Qed.

Lemma after_indirect : ci = true -> d' !! ni = Some (indirect_image (drop 12 nm) zero_block).
Proof.
  intros E. rewrite lookup_applied, meta_lookup. pose proof places.
  destruct (F_fresh ni) as [Hni _]; [apply elem_of_app; right; rewrite E; by left|].
  rewrite decide_False by lia. rewrite E, bool_decide_eq_true_2 by done. done.
Qed.

Lemma after_data (i : nat) b x : bs !! i = Some b -> afters !! i = Some x -> d' !! b = Some x.
Proof.
  intros Hb Hx. pose proof F_takes as T. assert (b ∈ bs) as Hin by (by apply list_elem_of_lookup_2 in Hb).
  destruct (F_fresh b) as [Hr _]; [apply elem_of_app; by left|]. rewrite lookup_applied, data_not_meta; [|lia|].
  - rewrite ordered_is, (insert_all_lookup bs afters i b x); [done|apply T1|done..].
  - intros E ->. apply (tk_nodup _ _ _) in T. rewrite E in T. apply NoDup_app in T as (_ & H & _).
    apply (H ni Hin). by left.
Qed.

Lemma after_bitmap i : 0 <= i < bcount -> block_at d' (bstart + i) = BitmapBlock (bitmap_ a3) i.
Proof.
  intros Hi. pose proof places. unfold block_at. rewrite lookup_applied, meta_lookup, decide_False by lia.
  assert (ci && bool_decide (bstart + i = ni) = false) as ->.
  { apply not_true_is_false. intros [E Heq%bool_decide_eq_true]%andb_prop.
    destruct (F_fresh ni) as [Hni _]; [apply elem_of_app; right; rewrite E; by left|]. lia. }
  destruct bitmap_spec as [_ H1]. destruct (H1 (bstart + i)) as [H2 H3].
  replace (bstart + i - bstart) with i in * by lia.
  destruct (changed_block_em (block_bitmap sb) (block_bitmap_ r) (bitmap_ a3) (counting bcount) (bstart + i)) as [Hch|Hch].
  - destruct (H2 Hch) as [-> _]. done.
  - destruct (H3 Hch) as [-> _]. cbn [mu_images placed im_metadata]. rewrite lookup_empty.
    rewrite ordered_outside.
    2: { intros Hin. destruct (F_fresh (bstart + i)) as [Hr _]; [apply elem_of_app; by left|]. lia. }
    fold (block_at d (bstart + i)). rewrite <- old_bitmap_block by done.
    destruct (decide (BitmapBlock (block_bitmap_ r) i = BitmapBlock (bitmap_ a3) i)) as [|Hne]; [done|].
    destruct Hch. unfold changed_block. replace (bstart + i - bstart) with i by lia. split; [by apply elem_counting|done].
Qed.

Lemma after_other blk : blk <> tb -> blk < bstart \/ bstart + bcount <= blk -> blk ∉ F -> d' !! blk = d !! blk.
Proof.
  intros Ht Hb HF. rewrite not_elem_of_app in HF. destruct HF as [H1 H2].
  rewrite lookup_applied, meta_lookup, decide_False by done.
  assert (ci && bool_decide (blk = ni) = false) as ->.
  { destruct ci; [|done]. cbn. apply bool_decide_eq_false. intros ->. apply H2. by left. }
  rewrite bmeta_outside by done. by rewrite ordered_outside.
Qed.

Lemma new_inode_typed : inode_typed I'.
Proof.
  destruct inode_facts as (_ & Hval & _ & Hty). pose proof places as (_ & _ & _ & _ & _ & Htot & _).
  destruct Hty as (H1 & H2 & H3 & H4 & H5 & H6 & H7 & H8 & H9 & H10 & H11 & H12 & H13).
  assert (forall b, b ∈ F -> u32 b) as HF by (intros b Hb; destruct (F_fresh b Hb); pose proof (vo_data _ _ Hv); word).
  assert (forall b, b ∈ owned d inode -> u32 b) as Hown.
  { intros b Hb. destruct (owned_data_block _ _ _ _ Hval Hb) as [Hr _]. pose proof (vo_data _ _ Hv). word. }
  unfold new_inode, set_contents, inode_typed.
  cbn [inode_number mode uid gid link_count i_size atime_ns mtime_ns ctime_ns flags generation direct_blocks indirect_block].
  assert (u64 new_size) as Hns by (pose proof max_file_size; word).
  assert (u64 (generation inode + 1)) as Hg by (unfold uint64_limit in Hgen; word).
  conj_split; try assumption.
  - apply length_resize.
  - apply Forall_resize; [word|]. apply Forall_take, Forall_forall. intros b Hb.
    destruct (Hnm b Hb) as [Hb'|[Hb' _]]; [apply HF, elem_of_app; by left|]. apply Hown, elem_of_app. by left.
  - destruct (Z.ltb_spec 12 cnt); [|word]. destruct (sumbool_of_bool ci) as [E|E].
    + apply HF, elem_of_app. right. rewrite E. by left.
    + destruct (Hkeep_ind E ltac:(done)) as (-> & Hnz & _). by apply Hown, elem_owned_indirect.
Qed.

Lemma after_change : home_change r d d'.
Proof.
  pose proof places as (P1 & P2 & P3 & P4 & P5 & P6 & P7). destruct inode_facts as (Hn & Hval & Hnum & _).
  assert (forall b, b ∈ F -> start_block (data sb) <= b) as HFd by (intros b Hb; destruct (F_fresh b Hb); lia).
  constructor.
  - apply after_other; [lia|lia|]. intros Hb%HFd. lia.
  - intros blk Hb. unfold in_journal in Hb. apply after_other; [lia|lia|]. intros Hf%HFd. lia.
  - intros k Hk. rewrite lookup_applied. destruct (_ !! k); [done|]. destruct (_ !! k); [done|].
    destruct (vo_blocks _ _ Hv k Hk) as (b & -> & _). done.
  - intros k b E. rewrite lookup_applied in E. destruct (fp_metadata_after_images plan !! k) as [x|] eqn:Em.
    + injection E as ->. rewrite meta_lookup in Em. destruct (decide (k = tb)).
      * injection Em as <-. destruct (vo_blocks _ _ Hv tb ltac:(lia)) as (x & Ex & Hl & Hx).
        unfold put_inode, block_at. rewrite Ex. change (default [] (Some x)) with x.
        pose proof (new_inode_encodes inode ts new_size m ltac:(lia) ltac:(apply Hval) Hsize ni) as He.
        destruct (inode_encode_wf _ _ new_inode_typed He) as [Hel Hbl].
        split; [rewrite length_splice; [done|]; rewrite Hel, Hl; apply offset_in_block|by apply bytes_ok_splice].
      * destruct (ci && _).
        -- injection Em as <-. apply indirect_image_wf. rewrite length_drop, Hnm_len.
           destruct (RequiredBlocks_spec new_size Hsize). lia.
        -- destruct bitmap_spec as [_ H]. destruct (H k) as [H1 H2].
           destruct (changed_block_em (block_bitmap sb) (block_bitmap_ r) (bitmap_ a3) (counting bcount) k) as [Hch|Hch].
           ++ destruct (H1 Hch) as [E1 _]. rewrite E1 in Em. injection Em as <-.
              destruct Hch as [Hin%elem_counting _]. destruct final_bitmap as [Hb3 Hl3].
              destruct (block_bitmap_bytes r d Ho) as (_ & _ & Hl). apply BitmapBlock_wf; [done|lia|lia].
           ++ destruct (H2 Hch) as [E1 _]. rewrite E1 in Em. cbn [placed mu_images im_metadata] in Em. by rewrite lookup_empty in Em.
    + destruct (fp_ordered_data_after_images plan !! k) as [x|] eqn:Eo; [|by apply (vo_wf _ _ Hv k)].
      injection E as ->. rewrite ordered_is in Eo. apply insert_all_values in Eo. by apply (proj1 (Forall_forall _ _) Hwf).
Qed.

(** ** The new inode *)
Lemma new_slot : slot sb d' n = encoded_inode I'.
Proof.
  unfold slot, block_at. rewrite after_table. change (default [] (Some ?x)) with x.
  destruct inode_facts as (Hn & Hval & Hnum & _). pose proof places as (P1 & P2 & P3 & P4 & P5 & P6 & P7).
  pose proof (new_inode_encodes inode ts new_size m ltac:(lia) ltac:(apply Hval) Hsize ni) as He.
  destruct (inode_encode_wf _ _ new_inode_typed He) as [Hel _].
  unfold put_inode. apply slice_splice_same; [done|]. rewrite (block_at_length r d Hv) by lia. apply offset_in_block.
Qed.

Lemma other_slots k : 1 <= k <= total_inodes sb -> k <> n -> slot sb d' k = slot sb d k.
Proof.
  intros Hk Hne. destruct inode_facts as (Hn & Hval & Hnum & _). pose proof places as (P1 & P2 & P3 & P4 & P5 & P6 & P7).
  destruct (inode_position sb Hlay k Hk) as (_ & _ & Hp). unfold slot.
  destruct (decide (InodeTableBlock sb k = tb)) as [E|E].
  - rewrite E. unfold block_at at 1. rewrite after_table. change (default [] (Some ?x)) with x.
    pose proof (new_inode_encodes inode ts new_size m ltac:(lia) ltac:(apply Hval) Hsize ni) as He.
    destruct (inode_encode_wf _ _ new_inode_typed He) as [Hel _].
    unfold put_inode. apply slice_splice_ne; rewrite Hel.
    + rewrite (block_at_length r d Hv) by lia. apply offset_in_block.
    + destruct (slots_apart sb Hlay k n Hk Hn Hne E); lia.
  - unfold block_at. rewrite after_other; [done|done|lia|].
    intros Hb. destruct (F_fresh _ Hb) as [Hr _]. lia.
Qed.

Lemma owned_not_fresh b : b ∈ owned d inode -> b ∉ F.
Proof.
  intros Hb Hf. destruct inode_facts as (_ & Hval & _). destruct (owned_data_block _ _ _ _ Hval Hb) as [_ Ht].
  destruct (F_fresh b Hf) as [_ Hfree]. congruence.
Qed.

Lemma new_required : required_blocks I' = cnt.
Proof. symmetry. exact (required_agree I' Hsize). Qed.

Lemma cnt_bounds : 0 <= cnt <= 1036 /\ Z.of_nat (length nm) = cnt.
Proof. destruct (RequiredBlocks_spec new_size Hsize) as [_ H]. lia. Qed.

Lemma new_pointer l : 0 <= l -> pointer d' I' l = nth (Z.to_nat l) nm 0.
Proof.
  intros Hl. destruct inode_facts as (_ & Hval & _). pose proof cnt_bounds as [Hcb Hlen].
  assert (length (direct_blocks I') = 12%nat) as H12 by apply length_resize.
  destruct (Z.lt_ge_cases l 12).
  - rewrite (pointer_direct d' I' l H12) by lia. cbn [new_inode set_contents direct_blocks].
    rewrite nth_resize by lia. by rewrite take_ge by (cbn [placed mu_mapping]; lia).
  - rewrite (pointer_indirect d' I' l H12) by lia. rewrite new_required.
    destruct (Z.leb_spec cnt 12); [by rewrite nth_overflow by lia|].
    assert (indirect_block I' = ni) as -> by (cbn; by rewrite (proj2 (Z.ltb_lt _ _)) by lia).
    destruct (Z.lt_ge_cases l 1036).
    2: { rewrite nth_overflow by (rewrite length_get_words; lia). by rewrite nth_overflow by lia. }
    destruct (sumbool_of_bool ci) as [E|E].
    + unfold block_at. rewrite (after_indirect E). change (default [] (Some ?x)) with x.
      assert (Forall u32 nm) as Hu.
      { pose proof places as (_ & _ & _ & _ & P5 & P6 & _). pose proof (vo_data _ _ Hv).
        apply Forall_forall. intros b Hb. destruct (Hnm b Hb) as [Hb'|[Hb' _]].
        - destruct (F_fresh b) as [Hr _]; [apply elem_of_app; by left|]. word.
        - destruct (owned_data_block r d inode b Hval) as [Hr _]; [apply elem_of_app; by left|]. word. }
      rewrite indirect_words; [|by apply Forall_drop|rewrite length_drop; lia|lia].
      rewrite nth_skipn. f_equal. lia.
    + destruct (Hkeep_ind E ltac:(lia)) as (Hni & Hnz & HnR & Hcnt & Hsame).
      assert (d' !! ni = d !! ni) as Hd.
      { pose proof places as (P1 & P2 & P3 & P4 & P5 & P6 & P7).
        assert (ni ∈ owned d inode) as Hin by (rewrite Hni; apply elem_owned_indirect; congruence).
        destruct (owned_data_block r d inode ni Hval Hin) as [Hr _].
        apply after_other; [lia|lia|by apply owned_not_fresh]. }
      assert (nth (Z.to_nat (l - 12)) (get_words (block_at d ni) 0 1024) 0 = pointer d inode l) as Hp.
      { rewrite (pointer_indirect d inode l (iv_direct _ _ _ Hval)) by lia.
        rewrite (proj2 (Z.leb_gt _ _)) by lia. by rewrite Hni. }
      unfold block_at at 1. rewrite Hd. fold (block_at d ni). rewrite Hp.
      destruct (Z.lt_ge_cases l cnt); [symmetry; apply Hsame; lia|].
      rewrite (iv_unused _ _ _ Hval) by lia. by rewrite nth_overflow by lia.
Qed.

Lemma new_file_pointers : file_pointers d' I' = nm.
Proof.
  unfold file_pointers. rewrite new_required. pose proof cnt_bounds as [_ <-]. rewrite <- (counting_nth nm) at 2.
  apply map_ext_in. intros l Hl%list_elem_of_In%elem_counting. apply new_pointer. lia.
Qed.

Lemma new_data_block b : (b ∈ F) \/ ((b ∈ owned d inode) /\ b ∉ R) -> data_block r' b.
Proof.
  intros H. destruct inode_facts as (_ & Hval & _). pose proof (vo_data _ _ Hv). unfold data_block.
  cbn [with_bitmaps rd_superblock block_bitmap_]. destruct H as [Hb|[Hb Hn]].
  - destruct (F_fresh b Hb) as [Hr Hf]. split; [done|]. rewrite final_bits by lia.
    rewrite bool_decide_eq_true_2 by done. cbn. apply negb_true_iff, bool_decide_eq_false. intros HbR.
    by apply (owned_not_fresh b), Hb; apply HR.
  - destruct (owned_data_block _ _ _ _ Hval Hb) as [Hr Ht]. split; [done|]. rewrite final_bits by lia.
    rewrite Ht, orb_true_r, bool_decide_eq_false_2 by done. done.
Qed.

Lemma new_indirect_from : 12 < cnt -> (ni ∈ F) \/ ((ni ∈ owned d inode) /\ ni ∉ R).
Proof.
  intros H. destruct (sumbool_of_bool ci) as [E|E].
  - left. apply elem_of_app. right. rewrite E. by left.
  - right. destruct (Hkeep_ind E H) as (Hni & Hnz & HnR & _). split; [|done].
    rewrite Hni. apply elem_owned_indirect. congruence.
Qed.

Lemma nm_from b : b ∈ nm -> (b ∈ F) \/ ((b ∈ owned d inode) /\ b ∉ R).
Proof.
  intros Hb. destruct (Hnm b Hb) as [H|[H1 H2]]; [left; apply elem_of_app; by left|right].
  split; [apply elem_of_app; by left|done].
Qed.

Lemma new_valid : inode_valid r' d' I'.
Proof.
  destruct inode_facts as (_ & Hval & _). pose proof cnt_bounds as [Hcb Hlen]. pose proof (vo_data _ _ Hv).
  assert (forall b, data_block r' b -> b <> 0) as Hnz by (intros b [Hr _]; cbn in Hr; lia).
  constructor.
  - exact Hsize.
  - apply Hval.
  - intros Hd. cbn in Hd. unfold S_ISREG, S_ISDIR in *. apply Z.eqb_eq in Hdir, Hd. rewrite Hdir in Hd. done.
  - apply length_resize.
  - intros l Hl. rewrite new_required in Hl. rewrite new_pointer by lia.
    assert (data_block r' (nth (Z.to_nat l) nm 0)) as Hdb.
    { apply new_data_block, nm_from, list_elem_of_In, nth_In. lia. }
    split; [by apply Hnz|done].
  - intros l Hl. rewrite new_required in Hl. rewrite new_pointer by lia. by rewrite nth_overflow by lia.
  - rewrite new_required. change kDirectBlockCount with 12. cbn [new_inode set_contents indirect_block].
    destruct (Z.leb_spec cnt 12).
    + by rewrite (proj2 (Z.ltb_ge _ _)) by lia.
    + rewrite (proj2 (Z.ltb_lt _ _)) by lia.
      assert (data_block r' ni) by (by apply new_data_block, new_indirect_from). split; [by apply Hnz|done].
Qed.

Lemma new_owned : owned d' I' = nm ++ (if 12 <? cnt then [ni] else []).
Proof.
  unfold owned. rewrite new_file_pointers. f_equal. cbn [new_inode set_contents indirect_block].
  destruct (Z.ltb_spec 12 cnt) as [H|H]; [|done].
  destruct (new_data_block ni (new_indirect_from H)) as [Hr _]. pose proof (vo_data _ _ Hv). cbn in Hr.
  by rewrite (proj2 (Z.eqb_neq _ _)) by lia.
Qed.

Lemma new_owned_from b : b ∈ owned d' I' -> (b ∈ F) \/ (b ∈ owned d inode).
Proof.
  rewrite new_owned. intros [Hb|Hb]%elem_of_app.
  - destruct (nm_from b Hb) as [|[? _]]; [by left|by right].
  - destruct (Z.ltb_spec 12 cnt) as [H|H]; [|by apply elem_of_nil in Hb]. apply list_elem_of_singleton in Hb as ->.
    destruct (new_indirect_from H) as [|[? _]]; [by left|by right].
Qed.

Lemma new_nodup : NoDup (owned d' I').
Proof.
  rewrite new_owned. apply NoDup_app. split; [done|]. split; [|destruct (12 <? cnt); [apply NoDup_singleton|constructor]].
  intros b Hb Hb2. destruct (Z.ltb_spec 12 cnt) as [H|H]; [|by apply elem_of_nil in Hb2].
  apply list_elem_of_singleton in Hb2 as ->.
  pose proof (tk_nodup _ _ _ F_takes) as Hnd. apply NoDup_app in Hnd as (_ & Hnd & _).
  pose proof (co_alone _ _ Hc n inode Hread) as Hal. unfold owned in Hal. apply NoDup_app in Hal as (_ & Hal & _).
  destruct (sumbool_of_bool ci) as [E|E].
  - assert (ni ∈ F) as HF by (apply elem_of_app; right; rewrite E; by left).
    destruct (Hnm ni Hb) as [Hin|[Hin _]].
    + apply (Hnd ni Hin). rewrite E. by left.
    + apply (owned_not_fresh ni); [apply elem_of_app; by left|done].
  - destruct (Hkeep_ind E H) as (Hni & Hnz & _). destruct (Hnm ni Hb) as [Hin|[Hin _]].
    + apply (owned_not_fresh ni); [rewrite Hni; apply elem_owned_indirect; congruence|apply elem_of_app; by left].
    + apply (Hal ni Hin). rewrite <- Hni, (proj2 (Z.eqb_neq _ _) Hnz). by left.
Qed.

Lemma after_inode_bitmap :
  region_bytes d' (start_block (inode_bitmap sb)) (block_count (inode_bitmap sb)) = inode_bitmap_ r.
Proof.
  destruct (inode_bitmap_bytes r d Ho) as (-> & _). unfold region_bytes. f_equal. apply map_ext_in.
  intros i Hi%list_elem_of_In%elem_counting. unfold block_at. pose proof places as (P1 & P2 & P3 & P4 & P5 & P6 & P7).
  pose proof (lay_ib _ Hlay). pose proof (lay_bb _ Hlay). rewrite after_other; [done|lia|lia|].
  intros Hb. destruct (F_fresh _ Hb) as [Hr _]. lia.
Qed.

Lemma after_block_bitmap : region_bytes d' bstart bcount = bitmap_ a3.
Proof.
  destruct final_bitmap as [_ Hl]. destruct (block_bitmap_bytes r d Ho) as (_ & _ & Hbl).
  apply region_bytes_of; [lia|]. apply after_bitmap.
Qed.

(** The applied plan: the new version of the file reads back with the planned
    mapping, everything else is as before. *)
Lemma mutation_published :
  consistent r' d' /\ answer d' (ReadInode r' n) = Ok I' /\ file_pointers d' I' = nm /\
  (forall k J, k <> n -> answer d (ReadInode r k) = Ok J ->
     answer d' (ReadInode r' k) = Ok J /\ owned d' J = owned d J /\ file_blocks d' J = file_blocks d J).
Proof.
  destruct inode_facts as (Hn & Hval & Hnum & _). destruct final_bitmap as [_ Hl].
  assert (IsInodeAllocated r n = true) as Hall by apply (read_inode_valid r d Hv n inode Hread).
  assert (if IsInodeAllocated r n then exists J, answer d (ReadInode r n) = Ok J /\ owned d inode = owned d J
          else owned d inode = []) as Hold by (rewrite Hall; by exists inode).
  assert (forall j, 0 <= j -> TestBit (inode_bitmap_ r) j = (j =? n - 1) || TestBit (inode_bitmap_ r) j) as Hib.
  { intros j Hj. destruct (Z.eqb_spec j (n - 1)) as [->|]; [|done]. unfold IsInodeAllocated in Hall. by bool_to_prop. }
  assert (DecodeInode (slot sb d' n) n = Ok I') as Hdec.
  { pose proof (new_inode_encodes inode ts new_size m ltac:(lia) ltac:(apply Hval) Hsize ni) as He.
    pose proof (InodeCodec.inode_decode_encode I' _ new_inode_typed He) as Hd0.
    assert (inode_number I' = n) as Hin by exact Hnum. rewrite Hin in Hd0. by rewrite new_slot. }
  assert (forall b, start_block (data sb) <= b < total_blocks sb -> b ∉ F -> b ∉ owned d inode -> d' !! b = d !! b) as Hkeep.
  { intros b Hb HbF _. pose proof places as (P1 & P2 & P3 & P4 & P5 & P6 & P7). apply after_other; [lia|lia|done]. }
  assert (n = root_inode sb -> S_ISDIR (mode I') = true) as Hroot.
  { intros Hr. destruct (op_root _ _ Ho) as (root & Er & Hd). rewrite <- Hr, Hread in Er. injection Er as <-. done. }
  conj_split.
  - exact (republish_consistent r d Hc n Hn (owned d inode) F R Hold F_fresh HR d' _ _ after_change after_inode_bitmap
             after_block_bitmap (conj eq_refl Hl) Hib final_bits other_slots Hkeep I' Hdec new_valid new_nodup new_owned_from Hroot).
  - exact (published_inode r d Hc n Hn d' _ _ after_change (conj eq_refl Hl) Hib I' Hdec new_valid).
  - apply new_file_pointers.
  - intros k J Hk EJ.
    destruct (others_kept r d Hc n (owned d inode) F R Hold F_fresh HR d' _ _ after_change (conj eq_refl Hl) Hib final_bits other_slots Hkeep I'
                new_owned_from k J Hk EJ)
      as (E1 & E2 & E3). done.
Qed.

(** ** The plan as a transaction *)
Lemma before_spec blk b : fp_before_images plan !! blk = Some b -> d !! blk = Some b.
Proof.
  pose proof places as (P1 & P2 & P3 & P4 & P5 & P6 & P7).
  assert (forall k, 0 <= k < total_blocks sb -> d !! k = Some (block_at d k)) as Hd.
  { intros k Hk. destruct (vo_blocks _ _ Hv k Hk) as (x & E & _). unfold block_at. by rewrite E. }
  unfold finished. cbn [fp_before_images final_images add_metadata im_before].
  destruct (decide (blk = tb)) as [->|Hne]; [rewrite lookup_insert_eq; intros [= <-]; apply Hd; lia|].
  rewrite lookup_insert_ne by done. intros E.
  assert (im_before (bitmap_images r (block_bitmap_ r) m a3) !! blk = Some b -> d !! blk = Some b) as Hb.
  { destruct bitmap_spec as [_ H]. destruct (H blk) as [H1 H2].
    destruct (changed_block_em (block_bitmap sb) (block_bitmap_ r) (bitmap_ a3) (counting bcount) blk) as [Hch|Hch].
    - destruct (H1 Hch) as [_ ->]. intros [= <-]. destruct Hch as [Hin%elem_counting _].
      rewrite old_bitmap_block by done. replace (bstart + (blk - bstart)) with blk by lia. apply Hd. lia.
    - destruct (H2 Hch) as [_ ->]. cbn [placed mu_images im_before]. intros E'.
      destruct (decide (blk ∈ bs)) as [Hin|Hin].
      + apply list_elem_of_lookup in Hin as [i Hi]. pose proof Hi as Hi'. apply (list_lookup_fmap_Some_2 (block_at d)) in Hi'.
        rewrite (insert_all_lookup bs (block_at d <$> bs) i blk (block_at d blk)) in E'; [|apply T1|by rewrite length_fmap|done|done].
        injection E' as <-. destruct (F_fresh blk) as [Hr _]; [apply elem_of_app; left; by apply list_elem_of_lookup_2 in Hi|].
        apply Hd. lia.
      + by rewrite insert_all_none in E' by (rewrite ?length_fmap; done). }
  unfold indirect_images in E. destruct (sumbool_of_bool ci) as [Eci|Eci]; rewrite Eci in E; [|by apply Hb].
  cbn [add_metadata im_before] in E. destruct (decide (blk = ni)) as [->|Hni]; [|rewrite lookup_insert_ne in E by done; by apply Hb].
  rewrite lookup_insert_eq in E. injection E as <-.
  destruct (F_fresh ni) as [Hr _]; [apply elem_of_app; right; rewrite Eci; by left|]. apply Hd. lia.
Qed.

Lemma before_some blk : is_Some (fp_before_images plan !! blk) <->
  is_Some (fp_ordered_data_after_images plan !! blk) \/ is_Some (fp_metadata_after_images plan !! blk).
Proof.
  rewrite meta_lookup, ordered_is. unfold finished. cbn [fp_before_images final_images add_metadata im_before].
  destruct (decide (blk = tb)) as [->|Hne]; [rewrite lookup_insert_eq; split; [by right|done]|].
  rewrite lookup_insert_ne by done.
  assert (is_Some (im_before (bitmap_images r (block_bitmap_ r) m a3) !! blk) <->
    is_Some (insert_all (zip bs afters) ∅ !! blk) \/ is_Some (bmeta !! blk)) as Hb.
  { destruct bitmap_spec as [_ H]. destruct (H blk) as [H1 H2].
    destruct (changed_block_em (block_bitmap sb) (block_bitmap_ r) (bitmap_ a3) (counting bcount) blk) as [Hch|Hch].
    - destruct (H1 Hch) as [-> ->]. split; intros _; [right|]; eexists; reflexivity.
    - destruct (H2 Hch) as [-> ->]. cbn [placed mu_images im_before im_metadata]. rewrite lookup_empty.
      destruct (decide (blk ∈ bs)) as [Hin|Hin].
      + apply list_elem_of_lookup in Hin as [i Hi]. destruct (lookup_lt_is_Some_2 afters i) as [x Hx];
          [rewrite Hafters; by eapply lookup_lt_Some|].
        rewrite (insert_all_lookup bs (block_at d <$> bs) i blk (block_at d blk));
          [|apply T1|by rewrite length_fmap|done|by apply list_lookup_fmap_Some_2].
        rewrite (insert_all_lookup bs afters i blk x); [|apply T1|done|done|done]. split; [by left|done].
      + rewrite !insert_all_none by (rewrite ?length_fmap; done). split; [by right|by intros [|]]. }
  unfold indirect_images. destruct (sumbool_of_bool ci) as [Eci|Eci]; rewrite Eci; cbn [andb]; [|done].
  cbn [add_metadata im_before]. case_bool_decide as Hni.
  - subst blk. rewrite lookup_insert_eq. split; [by right|done].
  - by rewrite lookup_insert_ne by done.
Qed.

Lemma ordered_targets blk x : fp_ordered_data_after_images plan !! blk = Some x ->
  BlockIsInRegion blk (data sb) = true /\ fp_metadata_after_images plan !! blk = None /\
  TestBit (block_bitmap_ r) blk = false.
Proof.
  intros E. pose proof places as (P1 & P2 & P3 & P4 & P5 & P6 & P7).
  destruct (decide (blk ∈ bs)) as [Hin|Hin]; [|by rewrite ordered_outside in E].
  destruct (F_fresh blk) as [Hr Hf]; [apply elem_of_app; by left|].
  pose proof (geo_total _ (lay_geo _ Hlay)). split.
  - unfold BlockIsInRegion. rewrite (proj2 (Z.leb_le _ _)), (proj2 (Z.ltb_lt _ _)) by lia. done.
  - split; [|done]. apply data_not_meta; [lia|]. intros Eci ->. pose proof (tk_nodup _ _ _ F_takes) as Hnd. rewrite Eci in Hnd.
    apply NoDup_app in Hnd as (_ & Hx & _). apply (Hx ni Hin). by left.
Qed.

Lemma meta_targets blk x : fp_metadata_after_images plan !! blk = Some x ->
  u32 blk /\ IsValidMetadataTarget sb blk = true.
Proof.
  intros E. pose proof places as (P1 & P2 & P3 & P4 & P5 & P6 & P7).
  assert (0 < blk < total_blocks sb /\ (blk < js sb \/ start_block (data sb) <= blk)) as [H1 H2].
  { rewrite meta_lookup in E. destruct (decide (blk = tb)) as [->|]; [lia|].
    destruct (ci && bool_decide (blk = ni)) eqn:Eb.
    - apply andb_prop in Eb as [Eci Hb%bool_decide_eq_true]. subst blk.
      destruct (F_fresh ni) as [Hr _]; [apply elem_of_app; right; rewrite Eci; by left|]. lia.
    - destruct (Z.lt_ge_cases blk bstart) as [|H1]; [by rewrite bmeta_outside in E by lia|].
      destruct (Z.lt_ge_cases blk (bstart + bcount)) as [|H2]; [|by rewrite bmeta_outside in E by lia]. lia. }
  split; [word|]. unfold IsValidMetadataTarget, BlockIsInRegion. change (start_block (journal sb)) with (js sb).
  rewrite (proj2 (Z.eqb_neq _ _)), (proj2 (Z.ltb_lt _ _)) by lia. cbn [negb andb].
  apply negb_true_iff, andb_false_iff. rewrite Z.leb_gt, Z.ltb_ge. lia.
Qed.

(** A plan journals its inode block, at most one block of pointers and the
    bitmap blocks it changed. *)
Lemma meta_size : (size (fp_metadata_after_images plan) <= Z.to_nat bcount + 2)%nat.
Proof.
  rewrite <- size_dom.
  transitivity (size (list_to_set (tb :: ni :: seqZ bstart bcount) : gset Z)).
  - apply subseteq_size. intros blk [x E]%elem_of_dom. rewrite elem_of_list_to_set, !elem_of_cons, elem_of_seqZ.
    rewrite meta_lookup in E. destruct (decide (blk = tb)) as [->|]; [by left|]. right.
    destruct (ci && bool_decide (blk = ni)) eqn:Eb; [apply andb_prop in Eb as [_ Hb%bool_decide_eq_true]; by left|]. right.
    destruct (Z.lt_ge_cases blk bstart) as [|H1]; [by rewrite bmeta_outside in E by lia|].
    destruct (Z.lt_ge_cases blk (bstart + bcount)) as [|H2]; [|by rewrite bmeta_outside in E by lia]. lia.
  - cbn [list_to_set]. rewrite !size_union_alt. etransitivity.
    + apply Nat.add_le_mono; [rewrite size_singleton; reflexivity|]. apply subseteq_size, subseteq_difference_l. reflexivity.
    + rewrite size_union_alt. rewrite size_singleton.
      assert (size (list_to_set (seqZ bstart bcount) ∖ {[ni]} : gset Z) <= Z.to_nat bcount)%nat; [|lia].
      etransitivity; [apply subseteq_size, subseteq_difference_l; reflexivity|].
      rewrite size_list_to_set by apply NoDup_seqZ. by rewrite length_seqZ.
Qed.
End publish.
