(* ===== verification/FileContents.v ===== *)
(** What a file mutation makes of the file: a replacement holds exactly the new
    data, a range write the old bytes with the new ones laid over them. *)
From S2P Require Import Prelude Codec OndiskFormat OndiskFormatProofs OndiskJournal Disk JournalStore JournalImage.
From S2P Require Import JournalStates BitmapAllocator ImageReader ImageReaderProofs ReaderTheorems LedgerStore.
From S2P Require Import FileMutation ConsistentImage PlanProofs FileMutationProofs FileMutationPublish.
Open Scope Z_scope.

(** The contents after [data] has been written at [offset]: the old bytes around
    it, zeros in a gap behind the old end. *)
Definition written (old : bytes) (offset : Z) (new : bytes) : bytes :=
  let off := Z.to_nat offset in
  take off old ++ zeros (off - length old) ++ new ++ drop (off + length new) old.

Lemma length_written old offset new : 0 <= offset ->
  Z.of_nat (length (written old offset new)) = Z.max (Z.of_nat (length old)) (offset + Z.of_nat (length new)).
Proof.
  intros H. unfold written, zeros. rewrite !length_app, length_take, length_drop, length_replicate. lia.
Qed.

Lemma nth_written old offset new p : 0 <= offset -> 0 <= p < Z.max (Z.of_nat (length old)) (offset + Z.of_nat (length new)) ->
  nth (Z.to_nat p) (written old offset new) 0 =
  if (offset <=? p) && (p <? offset + Z.of_nat (length new)) then nth (Z.to_nat (p - offset)) new 0
  else if p <? Z.of_nat (length old) then nth (Z.to_nat p) old 0 else 0.
Proof.
  intros Ho Hp. unfold written. cbv zeta. destruct (Z.leb_spec offset p); cbn [andb].
  - rewrite app_nth2; rewrite length_take; [|lia]. rewrite app_nth2; unfold zeros; rewrite length_replicate; [|lia].
    destruct (Z.ltb_spec p (offset + Z.of_nat (length new))).
    + rewrite app_nth1 by lia. f_equal. lia.
    + rewrite app_nth2 by lia. rewrite nth_skipn. destruct (Z.ltb_spec p (Z.of_nat (length old))); [|lia]. f_equal. lia.
  - destruct (Z.ltb_spec p (Z.of_nat (length old))).
    + rewrite app_nth1 by (rewrite length_take; lia). rewrite nth_firstn. destruct (Nat.ltb_spec (Z.to_nat p) (Z.to_nat offset)); [done|lia].
    + rewrite app_nth2; rewrite length_take; [|lia]. rewrite app_nth1 by (unfold zeros; rewrite length_replicate; lia).
      apply nth_zeros.
Qed.

(** ** Blocks of the new contents *)
Section blocks.
Context (data : bytes).
Abbreviation L := (Z.of_nat (length data)).

Lemma nth_replace_after l j : (j < BlockLen)%nat -> Z.of_nat l * 4096 + Z.of_nat j < L ->
  nth j (replace_after data l) 0 = nth (l * BlockLen + j) data 0.
Proof.
  intros Hj Hp. pose proof BlockLen_Z. unfold replace_after.
  assert (length (slice (l * BlockLen) (Z.to_nat (4096 `min` (L - Z.of_nat l * 4096))) data) =
    Z.to_nat (4096 `min` (L - Z.of_nat l * 4096))) as Hl by (apply length_slice; lia).
  rewrite nth_splice; rewrite Hl; [|unfold zeros; rewrite length_replicate; lia].
  assert ((0 <=? j)%nat && (j <? 0 + Z.to_nat (Z.min 4096 (L - Z.of_nat l * 4096)))%nat = true) as ->.
  { apply andb_true_iff. rewrite Nat.leb_le, Nat.ltb_lt. clear Hl. lia. }
  rewrite nth_slice by (clear Hl; lia). f_equal. lia.
Qed.

Lemma replace_after_wf l : bytes_ok data -> Z.of_nat l * 4096 < L -> block_wf (replace_after data l).
Proof.
  intros Hb Hl. pose proof BlockLen_Z. unfold replace_after. split.
  - rewrite length_splice; [apply length_replicate|]. unfold zeros. rewrite length_replicate, length_slice by lia. lia.
  - apply bytes_ok_splice; [by apply bytes_ok_slice|apply bytes_ok_zeros].
Qed.

Lemma replace_contents : L <= kMaxFileSize -> bytes_ok data ->
  take (Z.to_nat L) (concat (map (replace_after data) (seq 0 (Z.to_nat (RequiredBlocks L))))) = data.
Proof.
  intros HL Hb. destruct (RequiredBlocks_spec L ltac:(lia)) as [E Hc]. pose proof BlockLen_Z.
  pose proof (Z.div_mod (L + 4095) 4096 ltac:(lia)). pose proof (Z.mod_pos_bound (L + 4095) 4096 ltac:(lia)).
  assert (Forall (fun b => length b = BlockLen) (map (replace_after data) (seq 0 (Z.to_nat (RequiredBlocks L))))) as Hblk.
  { apply Forall_fmap, Forall_forall. intros l [_ Hl]%elem_of_seq. apply replace_after_wf; [done|]. lia. }
  assert (length (concat (map (replace_after data) (seq 0 (Z.to_nat (RequiredBlocks L))))) =
    (Z.to_nat (RequiredBlocks L) * BlockLen)%nat) as Hcl
    by (rewrite (length_concat_same BlockLen) by done; by rewrite length_map, length_seq).
  apply bytes_ext; [rewrite length_take, Hcl; lia|]. intros p Hp. rewrite length_take, Hcl in Hp.
  pose proof (Z.div_mod p 4096 ltac:(lia)). pose proof (Z.mod_pos_bound p 4096 ltac:(lia)). pose proof (Z.div_pos p 4096 ltac:(lia) ltac:(lia)).
  rewrite nth_firstn. destruct (Nat.ltb_spec (Z.to_nat p) (Z.to_nat L)); [|lia].
  rewrite (block_split p) by lia. rewrite nth_concat; [|done|lia|rewrite length_map, length_seq; nia].
  rewrite (nth_indep _ [] (replace_after data 0)) by (rewrite length_map, length_seq; nia).
  rewrite map_nth, seq_nth by nia. rewrite nth_replace_after by lia. done.
Qed.
End blocks.

Lemma overlay_block off write_end begin_ data block : length block = BlockLen -> 0 <= begin_ -> 0 <= off ->
  write_end = off + Z.of_nat (length data) ->
  length (OverlayData off write_end begin_ data block) = BlockLen /\
  (bytes_ok data -> bytes_ok block -> bytes_ok (OverlayData off write_end begin_ data block)) /\
  forall j, (j < BlockLen)%nat -> nth j (OverlayData off write_end begin_ data block) 0 =
    if (off <=? begin_ + Z.of_nat j) && (begin_ + Z.of_nat j <? write_end)
    then nth (Z.to_nat (begin_ + Z.of_nat j - off)) data 0 else nth j block 0.
Proof.
  intros Hl Hb Ho ->. pose proof BlockLen_Z. unfold OverlayData, kBlockSize. cbv zeta.
  set (lo := Z.max off begin_). set (hi := Z.min (off + Z.of_nat (length data)) (begin_ + 4096)).
  destruct (Z.leb_spec hi lo) as [Hn|Hs].
  - split; [done|]. split; [done|]. intros j Hj.
    destruct (Z.leb_spec off (begin_ + Z.of_nat j)), (Z.ltb_spec (begin_ + Z.of_nat j) (off + Z.of_nat (length data)));
      cbn [andb]; try done. lia.
  - assert (length (slice (Z.to_nat (lo - off)) (Z.to_nat (hi - lo)) data) = Z.to_nat (hi - lo)) as Hsl
      by (apply length_slice; lia).
    split; [rewrite length_splice; [done|]; rewrite Hsl; lia|].
    split; [intros; apply bytes_ok_splice; [by apply bytes_ok_slice|done]|].
    intros j Hj. rewrite nth_splice by (rewrite Hsl; lia). rewrite Hsl.
    destruct (Z.leb_spec off (begin_ + Z.of_nat j)), (Z.ltb_spec (begin_ + Z.of_nat j) (off + Z.of_nat (length data))),
      (Nat.leb_spec (Z.to_nat (lo - begin_)) j), (Nat.ltb_spec j (Z.to_nat (lo - begin_) + Z.to_nat (hi - lo)));
      cbn [andb]; try done; try lia. rewrite nth_slice by lia. f_equal. lia.
Qed.

Lemma zero_range_block lo hi begin_ block : length block = BlockLen -> 0 <= begin_ ->
  length (ZeroRange lo hi begin_ block) = BlockLen /\
  (bytes_ok block -> bytes_ok (ZeroRange lo hi begin_ block)) /\
  forall j, (j < BlockLen)%nat -> nth j (ZeroRange lo hi begin_ block) 0 =
    if (lo <=? begin_ + Z.of_nat j) && (begin_ + Z.of_nat j <? hi) then 0 else nth j block 0.
Proof.
  intros Hl Hb. pose proof BlockLen_Z. unfold ZeroRange, kBlockSize. cbv zeta.
  set (lo' := Z.max lo begin_). set (hi' := Z.min hi (begin_ + 4096)).
  destruct (Z.ltb_spec lo' hi') as [Hs|Hn].
  - assert (length (zeros (Z.to_nat (hi' - lo'))) = Z.to_nat (hi' - lo')) as Hz by apply length_replicate.
    split; [rewrite length_splice; [done|]; rewrite Hz; lia|].
    split; [intros; apply bytes_ok_splice; [apply bytes_ok_zeros|done]|].
    intros j Hj. rewrite nth_splice by (rewrite Hz; lia). rewrite Hz, nth_zeros.
    destruct (Z.leb_spec lo (begin_ + Z.of_nat j)), (Z.ltb_spec (begin_ + Z.of_nat j) hi),
      (Nat.leb_spec (Z.to_nat (lo' - begin_)) j), (Nat.ltb_spec j (Z.to_nat (lo' - begin_) + Z.to_nat (hi' - lo')));
      cbn [andb]; try done; lia.
  - split; [done|]. split; [done|]. intros j Hj.
    destruct (Z.leb_spec lo (begin_ + Z.of_nat j)), (Z.ltb_spec (begin_ + Z.of_nat j) hi); cbn [andb]; try done. lia.
Qed.

(** ** Range writes *)
Section range.
Context (d : image) (old_size : Z) (old : list Z) (off : Z) (data : bytes).
Context (Hsize : 0 <= old_size <= kMaxFileSize) (Hoff : 0 <= off) (Hend : off + Z.of_nat (length data) <= kMaxFileSize).
Context (Hold_len : length old = Z.to_nat (RequiredBlocks old_size)).
Context (Hold : Forall (fun p => block_wf (block_at d p)) old) (Hne : data <> []).
Abbreviation we := (off + Z.of_nat (length data)).
Abbreviation new_size := (Z.max old_size we).
Abbreviation after := (write_after d old_size old off we data).

Lemma write_after_spec l :
  length (after l) = BlockLen /\ (bytes_ok data -> bytes_ok (after l)) /\
  forall j, (j < BlockLen)%nat -> nth j (after l) 0 =
    let p := Z.of_nat l * 4096 + Z.of_nat j in
    if (off <=? p) && (p <? we) then nth (Z.to_nat (p - off)) data 0
    else if (old_size <=? p) && (p <? off) then 0
    else if Z.of_nat l <? RequiredBlocks old_size then nth j (block_at d (nth l old 0)) 0 else 0.
Proof.
  pose proof BlockLen_Z. unfold write_after. cbv zeta.
  set (covers := (off <=? Z.of_nat l * 4096) && (Z.of_nat l * 4096 + 4096 <=? we)).
  set (base := if (Z.of_nat l <? RequiredBlocks old_size) && negb covers then block_at d (nth l old 0) else zero_block).
  assert (block_wf base) as [Hbl Hbb].
  { unfold base. destruct (Z.ltb_spec (Z.of_nat l) (RequiredBlocks old_size)); cbn [andb]; [|apply zero_block_wf].
    destruct (negb covers); [|apply zero_block_wf]. apply (proj1 (Forall_nth _ 0 _) Hold). lia. }
  set (mid := if old_size <? off then ZeroRange old_size off (Z.of_nat l * 4096) base else base).
  assert (length mid = BlockLen /\ bytes_ok mid /\ forall j, (j < BlockLen)%nat -> nth j mid 0 =
    if (old_size <=? Z.of_nat l * 4096 + Z.of_nat j) && (Z.of_nat l * 4096 + Z.of_nat j <? off) then 0 else nth j base 0)
    as (Hml & Hmb & Hmn).
  { unfold mid. destruct (zero_range_block old_size off (Z.of_nat l * 4096) base Hbl ltac:(lia)) as (Z1 & Z2 & Z3).
    destruct (Z.ltb_spec old_size off); [by split; [|split; [apply Z2|]]|]. split; [done|]. split; [done|]. intros j Hj.
    destruct (Z.leb_spec old_size (Z.of_nat l * 4096 + Z.of_nat j)), (Z.ltb_spec (Z.of_nat l * 4096 + Z.of_nat j) off);
      cbn [andb]; try done. lia. }
  destruct (overlay_block off we (Z.of_nat l * 4096) data mid Hml ltac:(lia) Hoff eq_refl) as (O1 & O2 & O3).
  split; [done|]. split; [intros Hd; by apply O2|]. intros j Hj. rewrite O3, Hmn by done.
  destruct ((off <=? Z.of_nat l * 4096 + Z.of_nat j) && _) eqn:Ein; [done|].
  destruct ((old_size <=? _) && _); [done|]. unfold base.
  destruct (Z.ltb_spec (Z.of_nat l) (RequiredBlocks old_size)); cbn [andb]; [|apply nth_zeros].
  destruct covers eqn:Ec; [|done]. unfold covers in Ec. apply andb_prop in Ec as [E1%Z.leb_le E2%Z.leb_le].
  apply andb_false_iff in Ein as [Ein|Ein]; [apply Z.leb_gt in Ein|apply Z.ltb_ge in Ein]; lia.
Qed.

Definition first_changed : Z := Z.min old_size off / 4096.
Definition last_changed : Z := (we - 1) / 4096.

Lemma data_nonempty : 0 < Z.of_nat (length data).
Proof. destruct data; [done|]. cbn. lia. Qed.

Lemma changed_range : 0 <= first_changed <= last_changed /\ last_changed < RequiredBlocks new_size /\
  RequiredBlocks old_size <= RequiredBlocks new_size /\ RequiredBlocks new_size <= 1036 /\
  (RequiredBlocks old_size < RequiredBlocks new_size ->
   first_changed <= RequiredBlocks old_size /\ RequiredBlocks new_size = last_changed + 1).
Proof.
  pose proof data_nonempty. unfold first_changed, last_changed.
  destruct (RequiredBlocks_spec old_size Hsize) as [-> ?]. destruct (RequiredBlocks_spec new_size ltac:(lia)) as [-> ?].
  pose proof (Z.div_mod (Z.min old_size off) 4096 ltac:(lia)). pose proof (Z.mod_pos_bound (Z.min old_size off) 4096 ltac:(lia)).
  pose proof (Z.div_mod (we - 1) 4096 ltac:(lia)). pose proof (Z.mod_pos_bound (we - 1) 4096 ltac:(lia)).
  pose proof (Z.div_mod (old_size + 4095) 4096 ltac:(lia)). pose proof (Z.mod_pos_bound (old_size + 4095) 4096 ltac:(lia)).
  pose proof (Z.div_mod (new_size + 4095) 4096 ltac:(lia)). pose proof (Z.mod_pos_bound (new_size + 4095) 4096 ltac:(lia)).
  lia.
Qed.

(** The blocks of the new file: rewritten inside the changed range, as before
    outside it. *)
Context (blocks : list bytes) (Hblocks : length blocks = Z.to_nat (RequiredBlocks new_size)).
Context (Hin : forall l, (l < length blocks)%nat -> first_changed <= Z.of_nat l <= last_changed -> nth l blocks [] = after l).
Context (Hout : forall l, (l < length blocks)%nat -> Z.of_nat l < first_changed \/ last_changed < Z.of_nat l ->
  nth l blocks [] = block_at d (nth l old 0)).

Lemma write_contents :
  take (Z.to_nat new_size) (concat blocks) =
  written (take (Z.to_nat old_size) (concat (map (block_at d) old))) off data.
Proof.
  pose proof BlockLen_Z. pose proof changed_range as (C1 & C2 & C3 & C4 & C5). pose proof data_nonempty.
  destruct (RequiredBlocks_spec old_size Hsize) as [Eo Bo]. destruct (RequiredBlocks_spec new_size ltac:(lia)) as [En Bn].
  pose proof (Z.div_mod (old_size + 4095) 4096 ltac:(lia)). pose proof (Z.mod_pos_bound (old_size + 4095) 4096 ltac:(lia)).
  pose proof (Z.div_mod (new_size + 4095) 4096 ltac:(lia)). pose proof (Z.mod_pos_bound (new_size + 4095) 4096 ltac:(lia)).
  assert (Forall (fun b => length b = BlockLen) (map (block_at d) old)) as Hob.
  { apply Forall_fmap. eapply Forall_impl; [exact Hold|]. by intros p [? _]. }
  assert (length (take (Z.to_nat old_size) (concat (map (block_at d) old))) = Z.to_nat old_size) as Hol.
  { rewrite length_take, (length_concat_same BlockLen), length_map by done. lia. }
  assert (Forall (fun b => length b = BlockLen) blocks) as Hnb.
  { apply (proj2 (Forall_nth _ [] _)). intros l Hl. destruct (Z.lt_ge_cases (Z.of_nat l) first_changed) as [Hx|Hx];
      [|destruct (Z.lt_ge_cases last_changed (Z.of_nat l)) as [Hy|Hy]].
    1,2: rewrite Hout by lia; apply (proj1 (Forall_nth _ 0 _) Hold); lia.
    rewrite Hin by lia. apply write_after_spec. }
  assert (Z.of_nat (length (take (Z.to_nat new_size) (concat blocks))) = new_size) as Hnl.
  { rewrite length_take, (length_concat_same BlockLen) by done. lia. }
  apply bytes_ext.
  { apply Nat2Z.inj. rewrite Hnl, length_written, Hol by done. lia. }
  intros p Hp. rewrite Hnl in Hp. rewrite nth_written by (rewrite ?Hol; lia). rewrite Hol.
  rewrite nth_firstn, (proj2 (Nat.ltb_lt _ _)) by (apply Z2Nat.inj_lt; lia). clear Hnl.
  pose proof (Z.div_mod p 4096 ltac:(lia)). pose proof (Z.mod_pos_bound p 4096 ltac:(lia)). pose proof (Z.div_pos p 4096 ltac:(lia) ltac:(lia)).
  rewrite (block_split p) by lia. rewrite nth_concat; [|done|lia|lia].
  set (l := Z.to_nat (p / 4096)). set (j := Z.to_nat (p mod 4096)).
  assert (Z.of_nat l = p / 4096) as Hlz by lia. assert (Z.of_nat l * 4096 + Z.of_nat j = p) as Hpz by lia.
  assert (p < old_size -> nth (l * BlockLen + j) (take (Z.to_nat old_size) (concat (map (block_at d) old))) 0 =
    nth j (block_at d (nth l old 0)) 0) as Holdnth.
  { intros Hpo. rewrite nth_firstn. destruct (Nat.ltb_spec (l * BlockLen + j) (Z.to_nat old_size)); [|lia].
    rewrite nth_concat; [|done|lia|rewrite length_map; lia].
    rewrite (nth_indep _ [] (block_at d 0)) by (rewrite length_map; lia). by rewrite map_nth. }
  rewrite Z2Nat.id by lia.
  destruct (decide (first_changed <= Z.of_nat l <= last_changed)) as [Hr|Hr].
  - rewrite Hin by lia. destruct (write_after_spec l) as (_ & _ & Hn). rewrite Hn by lia. cbv zeta. rewrite Hpz.
    destruct ((off <=? p) && (p <? we)) eqn:E1; [done|].
    destruct (Z.ltb_spec p old_size).
    + destruct (Z.leb_spec old_size p); [lia|]. cbn [andb]. rewrite (proj2 (Z.ltb_lt (Z.of_nat l) _)) by lia.
      by rewrite Holdnth by lia.
    + apply andb_false_iff in E1. rewrite Z.leb_gt, Z.ltb_ge in E1. 
      rewrite (proj2 (Z.leb_le old_size p)), (proj2 (Z.ltb_lt p off)) by lia. done.
  - assert (p < off \/ we <= p) as Hpo.
    { pose proof (Z.div_mod (we - 1) 4096 ltac:(lia)). pose proof (Z.mod_pos_bound (we - 1) 4096 ltac:(lia)).
      pose proof (Z.div_mod (Z.min old_size off) 4096 ltac:(lia)). pose proof (Z.mod_pos_bound (Z.min old_size off) 4096 ltac:(lia)).
      unfold first_changed, last_changed in Hr. lia. }
    assert (p < old_size) as Hps.
    { pose proof (Z.div_mod (Z.min old_size off) 4096 ltac:(lia)). pose proof (Z.mod_pos_bound (Z.min old_size off) 4096 ltac:(lia)).
      pose proof (Z.div_mod (we - 1) 4096 ltac:(lia)). pose proof (Z.mod_pos_bound (we - 1) 4096 ltac:(lia)).
      unfold first_changed, last_changed in *. lia. }
    rewrite Hout by lia. assert ((off <=? p) && (p <? we) = false) as -> by (apply andb_false_iff; rewrite Z.leb_gt, Z.ltb_ge; lia).
    rewrite (proj2 (Z.ltb_lt p old_size)) by lia. by rewrite Holdnth.
Qed.
End range.
