(* ===== verification/Publication.v ===== *)
(** The abstract file system and what a plan promises about it.

    The abstraction of an image is the map from inode numbers to inodes and file
    contents. A [publication] is a set of planned block images that the journal
    accepts and that, once in place, form a consistent image again. Executing one
    moves the abstract file system in a single step: after a crash anywhere and
    the recovery that follows, the image opens and shows the files of before or
    those of after. *)
From S2P Require Import Prelude Codec OndiskFormat OndiskFormatProofs OndiskJournal OndiskJournalProofs.
From S2P Require Import RingReservation Disk JournalStore JournalImage CrashLogic JournalStates TransactionImages.
From S2P Require Import TransactionProofs JournalTheorems BitmapAllocator ImageReader ImageReaderProofs ReaderTheorems.
From S2P Require Import LedgerStore FileMutation ConsistentImage PlanProofs FileMutationPublish.
Open Scope Z_scope.

(** * The abstract file system *)
Definition file_at (r : ImageReader) (d : image) (n : Z) : option (InodeRecord * bytes) :=
  match answer d (ReadInode r n) with
  | Ok inode => Some (inode, file_bytes d inode)
  | Err _ => None
  end.

Lemma file_at_ok r d n inode : answer d (ReadInode r n) = Ok inode -> file_at r d n = Some (inode, file_bytes d inode).
Proof. intros E. unfold file_at. by rewrite E. Qed.

Lemma file_at_none r d n : view_ok r d -> IsInodeAllocated r n = false -> file_at r d n = None.
Proof.
  intros Hv Hn. unfold file_at. destruct (answer d (ReadInode r n)) as [inode|] eqn:E; [|done].
  apply (read_inode_valid r d Hv) in E as (_ & _ & Ha & _). congruence.
Qed.

(** Files are the same when they are the same for the allocated inodes. *)
Lemma file_at_frame r d r' d' n : consistent r d -> view_ok r' d' ->
  IsInodeAllocated r' n = IsInodeAllocated r n ->
  (forall J, answer d (ReadInode r n) = Ok J ->
     answer d' (ReadInode r' n) = Ok J /\ file_blocks d' J = file_blocks d J) ->
  file_at r' d' n = file_at r d n.
Proof.
  intros Hc Hv' Ha Hk. destruct (IsInodeAllocated r n) eqn:E.
  - destruct (co_inodes _ _ Hc n E) as [J EJ]. destruct (Hk J EJ) as [E' Eb].
    rewrite (file_at_ok _ _ _ _ EJ), (file_at_ok _ _ _ _ E'). unfold file_bytes. by rewrite Eb.
  - rewrite !file_at_none; try done. exact (op_view _ _ (co_opened _ _ Hc)).
Qed.

(** The files that are not [changed] keep their inode, their blocks and what the
    blocks hold. *)
Definition keeps (r : ImageReader) (d : image) (r' : ImageReader) (d' : image) (changed : Z -> Prop) : Prop :=
  forall k J, ~ changed k -> answer d (ReadInode r k) = Ok J ->
    answer d' (ReadInode r' k) = Ok J /\ owned d' J = owned d J /\ file_blocks d' J = file_blocks d J.

(** * Opening a recovered image *)
Definition with_control (r : ImageReader) (v : JournalControl) (c : ControlCopy) : ImageReader :=
  mkReader (image_size_ r) (rd_superblock r) v c (inode_bitmap_ r) (block_bitmap_ r).

Section reopen.
Context (r : ImageReader) (d T : image) (Hc : consistent r d) (v : JournalControl) (c : ControlCopy).
Abbreviation sb := (rd_superblock r).
Abbreviation r' := (with_control r v c).
Context (Hr : ready sb (image_size_ r) T v c).
(** Outside the journal the image differs at most in free data blocks. *)
Context (Hsame : forall blk, ~ in_journal sb blk ->
  ~ (start_block (data sb) <= blk < total_blocks sb /\ TestBit (block_bitmap_ r) blk = false) -> T !! blk = d !! blk).

Let Ho := co_opened _ _ Hc.
Let Hv := op_view _ _ Ho.
Let Hlay := opened_layout _ _ Ho.

Lemma reopen_view : view_ok r' T.
Proof.
  destruct Hv as [H1 H2 H3 H4]. pose proof (rdy_image _ _ _ _ _ Hr) as Hi. constructor; [done|done|apply (img_blocks _ _ _ Hi)|].
  intros n b E. destruct (decide (0 <= n < total_blocks sb)) as [Hn|Hn].
  - destruct (img_blocks _ _ _ Hi n Hn) as (b' & E' & Hwf). congruence.
  - rewrite Hsame in E; [by apply (H4 n)| |lia]. unfold in_journal. pose proof (geo_bounds _ (lay_geo _ Hlay)) as (_ & _ & _ & ?).
    pose proof (geo_js _ (lay_geo _ Hlay)). lia.
Qed.

Lemma reopen_front blk : 0 <= blk < js sb -> T !! blk = d !! blk.
Proof.
  intros Hb. apply Hsame; [unfold in_journal; lia|]. pose proof (geo_data _ (lay_geo _ Hlay)).
  pose proof (geo_count _ (lay_geo _ Hlay)). lia.
Qed.

Lemma reopen_owned b : data_block r b -> T !! b = d !! b /\ TestBit (block_bitmap_ r') b = true.
Proof.
  intros [Hb Ht]. split; [|done]. apply Hsame; [|intros [_ ?]; congruence]. unfold in_journal.
  pose proof (geo_data _ (lay_geo _ Hlay)). lia.
Qed.

Lemma reopen_slot n : 1 <= n <= total_inodes sb -> slot sb T n = slot sb d n.
Proof.
  intros Hn. destruct (region_bounds r d Ho) as (L & Htb & H1 & H2 & H3 & H4).
  destruct (inode_position sb Hlay n Hn) as (_ & _ & Hp). pose proof (lay_bb _ L). pose proof (lay_it _ L).
  pose proof (lay_js _ L). pose proof (lay_ib _ L). unfold slot, block_at. rewrite reopen_front; [done|]. lia.
Qed.

Lemma reopen_inode n J : answer d (ReadInode r n) = Ok J ->
  answer T (ReadInode r' n) = Ok J /\ owned T J = owned d J /\ file_blocks T J = file_blocks d J.
Proof.
  intros EJ. pose proof EJ as EJ0. apply (read_inode_iff r d Hv Hlay) in EJ0 as (Hn & Ht & _ & Hval).
  apply (frame_inode r r' d T eq_refl Hv reopen_view Hlay); [done|by apply reopen_slot|done|].
  intros b Hb. by apply reopen_owned, (owned_data_block r d J).
Qed.

Lemma reopen_reflected n J : answer T (ReadInode r' n) = Ok J -> answer d (ReadInode r n) = Ok J.
Proof.
  intros EJ. pose proof EJ as EJ0. apply (read_inode_valid r' T reopen_view) in EJ0 as (_ & _ & Ha & _).
  destruct (co_inodes _ _ Hc n Ha) as [J0 E0]. destruct (reopen_inode n J0 E0) as [E1 _]. congruence.
Qed.

Lemma reopen_region start count : 0 <= start -> start + count <= js sb ->
  region_bytes T start count = region_bytes d start count.
Proof.
  intros Hs He. unfold region_bytes. f_equal. apply map_ext_in. intros i Hi%list_elem_of_In%elem_counting.
  unfold block_at. rewrite reopen_front by lia. done.
Qed.

Lemma reopen_opened : opened r' T.
Proof.
  destruct (region_bounds r d Ho) as (L & Htb & H1 & H2 & H3 & H4).
  pose proof (lay_ib _ L). pose proof (lay_bb _ L). pose proof (lay_it _ L). pose proof (lay_js _ L).
  destruct (inode_bitmap_bytes r d Ho) as (Ei & _). destruct (block_bitmap_bytes r d Ho) as (Eb & _).
  constructor; cbn [rd_superblock with_control image_size_ inode_bitmap_ block_bitmap_ rd_journal_control rd_journal_control_copy].
  - apply reopen_view.
  - apply (rdy_image _ _ _ _ _ Hr).
  - apply (rdy_selected _ _ _ _ _ Hr).
  - rewrite read_region; [|lia|lia|apply (view_region r' T reopen_view); cbn; lia]. rewrite reopen_region by lia. by rewrite Ei.
  - rewrite read_region; [|lia|lia|apply (view_region r' T reopen_view); cbn; lia]. rewrite reopen_region by lia. by rewrite Eb.
  - apply (op_metadata _ _ Ho).
  - apply (op_inode_tail _ _ Ho).
  - apply (op_block_tail _ _ Ho).
  - destruct (op_root _ _ Ho) as (root & E & Hd). exists root. split; [by apply reopen_inode|done].
Qed.

Lemma reopen_consistent : consistent r' T.
Proof.
  constructor.
  - apply reopen_opened.
  - intros n Hn. destruct (co_inodes _ _ Hc n Hn) as [J EJ]. exists J. by apply reopen_inode.
  - intros n J EJ%reopen_reflected. destruct (reopen_inode n J EJ) as (_ & -> & _). by apply (co_alone _ _ Hc n).
  - intros n n' J J' Hne EJ%reopen_reflected EJ'%reopen_reflected. destruct (reopen_inode n J EJ) as (_ & -> & _).
    destruct (reopen_inode n' J' EJ') as (_ & -> & _). by apply (co_apart _ _ Hc n n').
Qed.

Lemma reopen_files n : file_at r' T n = file_at r d n.
Proof.
  apply file_at_frame; [done|apply reopen_view|done|]. intros J EJ. by destruct (reopen_inode n J EJ) as (? & _ & ?).
Qed.
End reopen.

(** * Publications *)
Record publication (r : ImageReader) (d before ordered meta : image) (total : Z) (uuid : bytes) (r' : ImageReader)
    : Prop := {
  pn_geometry : total = total_blocks (rd_superblock r) /\ uuid = sb_filesystem_uuid (rd_superblock r);
  pn_before : forall blk b, before !! blk = Some b -> d !! blk = Some b;
  pn_domain : forall blk, is_Some (before !! blk) <-> is_Some (ordered !! blk) \/ is_Some (meta !! blk);
  pn_ordered : forall blk x, ordered !! blk = Some x ->
    BlockIsInRegion blk (data (rd_superblock r)) = true /\ meta !! blk = None /\
    TestBit (block_bitmap_ r) blk = false;
  pn_metadata : forall blk x, meta !! blk = Some x ->
    u32 blk /\ IsValidMetadataTarget (rd_superblock r) blk = true;
  pn_nonempty : meta <> ∅;
  pn_reader : exists ibm bm, r' = with_bitmaps r ibm bm;
  pn_consistent : consistent r' (applied ordered meta d)
}.

Section publication.
Context (r r' : ImageReader) (d before ordered meta : image) (total : Z) (uuid : bytes).
Context (Hc : consistent r d) (Hp : publication r d before ordered meta total uuid r').
Abbreviation sb := (rd_superblock r).
Abbreviation d' := (applied ordered meta d).

Let Ho := co_opened _ _ Hc.
Let Hv := op_view _ _ Ho.
Let Hlay := opened_layout _ _ Ho.

Lemma ordered_range blk x : ordered !! blk = Some x -> start_block (data sb) <= blk < total_blocks sb.
Proof.
  intros E. destruct (pn_ordered _ _ _ _ _ _ _ _ Hp blk x E) as (Hb & _). unfold BlockIsInRegion in Hb. bool_to_prop.
  pose proof (geo_total _ (lay_geo _ Hlay)). lia.
Qed.

(** Every planned block is a block of the image with 4096 bytes. *)
Lemma publication_typed :
  map_Forall (fun k _ => u32 k) before /\ blocks_typed ordered /\ blocks_typed meta.
Proof.
  destruct (region_bounds r d Ho) as (_ & Htb & _). pose proof (vo_data _ _ Hv).
  assert (forall k b, d' !! k = Some b -> block_wf b) as Hwf
    by apply (vo_wf _ _ (op_view _ _ (co_opened _ _ (pn_consistent _ _ _ _ _ _ _ _ Hp)))).
  assert (blocks_typed ordered) as H1.
  { intros k x E. pose proof (ordered_range k x E). split; [word|]. apply (Hwf k). rewrite lookup_applied.
    destruct (pn_ordered _ _ _ _ _ _ _ _ Hp k x E) as (_ & -> & _). by rewrite E. }
  assert (blocks_typed meta) as H2.
  { intros k x E. destruct (pn_metadata _ _ _ _ _ _ _ _ Hp k x E) as [Hk _]. split; [done|].
    apply (Hwf k). rewrite lookup_applied. by rewrite E. }
  split; [|done]. intros k b E. destruct (proj1 (pn_domain _ _ _ _ _ _ _ _ Hp k) (ex_intro _ _ E)) as [[x Ex]|[x Ex]].
  - by apply (H1 k x).
  - by apply (H2 k x).
Qed.

(** The store accepts the transaction if the ring has room for it. *)
Lemma publication_valid v :
  (size meta <= 252)%nat /\ Z.of_nat (size meta) + 2 <= ring_blocks v -> next_transaction_id v < uint64_max ->
  valid_transaction sb d v before ordered meta total uuid.
Proof.
  intros Hf Hid. destruct (pn_geometry _ _ _ _ _ _ _ _ Hp). constructor; try done.
  - apply (pn_nonempty _ _ _ _ _ _ _ _ Hp).
  - intros k x E. by destruct (pn_ordered _ _ _ _ _ _ _ _ Hp k x E) as (? & ? & _).
  - intros k x E. by destruct (pn_metadata _ _ _ _ _ _ _ _ Hp k x E).
  - apply set_eq. intros k. rewrite elem_of_union, !elem_of_dom. apply (pn_domain _ _ _ _ _ _ _ _ Hp).
  - intros k b E. by apply (pn_before _ _ _ _ _ _ _ _ Hp).
Qed.

(** An image on which the transaction did not happen shows the old files, one on
    which it did the new ones. *)
Lemma old_files T v c : ready sb (image_size_ r) T v c -> old_state sb d ordered T ->
  consistent (with_control r v c) T /\ (forall n, file_at (with_control r v c) T n = file_at r d n).
Proof.
  intros Hr Hold.
  assert (forall blk, ~ in_journal sb blk ->
    ~ (start_block (data sb) <= blk < total_blocks sb /\ TestBit (block_bitmap_ r) blk = false) -> T !! blk = d !! blk) as Hs.
  { intros blk Hj Hn. apply Hold; [done|]. destruct (ordered !! blk) as [x|] eqn:E; [|done]. destruct Hn.
    split; [by eapply ordered_range|]. by apply (pn_ordered _ _ _ _ _ _ _ _ Hp blk x). }
  split; [by apply (reopen_consistent r d T Hc)|by apply reopen_files].
Qed.

Lemma new_files T v c : ready sb (image_size_ r) T v c -> new_state sb d ordered meta T ->
  consistent (with_control r' v c) T /\ (forall n, file_at (with_control r' v c) T n = file_at r' d' n).
Proof.
  intros Hr Hnew. pose proof (pn_consistent _ _ _ _ _ _ _ _ Hp) as Hc'.
  destruct (pn_reader _ _ _ _ _ _ _ _ Hp) as (ibm & bm & E). 
  assert (rd_superblock r' = sb /\ image_size_ r' = image_size_ r) as [Es Ei] by (by rewrite E).
  rewrite <- Es, <- Ei in *.
  assert (forall blk, ~ in_journal (rd_superblock r') blk ->
    ~ (start_block (data (rd_superblock r')) <= blk < total_blocks (rd_superblock r') /\ TestBit (block_bitmap_ r') blk = false) ->
    T !! blk = d' !! blk) as Hs by (intros blk Hj _; by apply Hnew).
  split; [by apply (reopen_consistent r' d' T Hc')|by apply reopen_files].
Qed.
End publication.

(** * Executing a publication *)
(** An image a crash and any number of interrupted recoveries can leave behind. *)
Definition crash_outcome (r : ImageReader) (d : image) (p : list event) (y : image) : Prop :=
  exists x, crash_image (rd_superblock r) (durability_of d p) x /\
            interrupted_recovery (rd_superblock r) (image_size_ r) x y.

(** What was synced may be all that is left. *)
Lemma synced_outcome r d p : crash_outcome r d p (durable (durability_of d p)).
Proof. exists (durable (durability_of d p)). split; [intros blk; by left|constructor]. Qed.

(** The next start-up recovers the image to [disk e] and opens it as [r2]. *)
Record restarted (r : ImageReader) (y : image) (e : env) (r2 : ImageReader) : Prop := {
  rs_recovers : exists action, StartupRecovery (fresh_start (image_size_ r) y) = (e, Ok action);
  rs_durable : synced y e;
  rs_opens : ReaderAdoptLockedFd true e = (e, Ok r2);
  rs_calm : responses e = [] /\ st_size e = image_size_ r;
  rs_consistent : consistent r2 (disk e);
  rs_clean : clean_image (rd_superblock r) (image_size_ r) (disk e);
  rs_same : rd_superblock r2 = rd_superblock r /\ image_size_ r2 = image_size_ r
}.

(** A start-up that shows the files [files]. *)
Definition restarts_with (r : ImageReader) (y : image) (files : Z -> option (InodeRecord * bytes)) : Prop :=
  exists e r2, restarted r y e r2 /\ forall n, file_at r2 (disk e) n = files n.

Lemma restart_opened r y e action r2 : StartupRecovery (fresh_start (image_size_ r) y) = (e, Ok action) ->
  synced y e -> responses e = [] -> st_size e = image_size_ r -> consistent r2 (disk e) ->
  clean_image (rd_superblock r) (image_size_ r) (disk e) -> rd_superblock r2 = rd_superblock r -> image_size_ r2 = image_size_ r ->
  restarted r y e r2.
Proof.
  intros E Hp Hn Hz Hc Hcl Hs Hi. constructor; try done; [by exists action|].
  apply adopt_complete; [done|by rewrite Hi|apply (co_opened _ _ Hc)].
Qed.

Section execution.
Context (r r' : ImageReader) (d before ordered meta : image) (total : Z) (uuid : bytes).
Context (Hc : consistent r d) (Hp : publication r d before ordered meta total uuid r').
Context (v : JournalControl) (c : ControlCopy) (Hr : ready (rd_superblock r) (image_size_ r) d v c) (Hu : used_blocks v = 0).
Context (Hplain : map_Forall (fun _ b => is_ok (DecodeCommit b) = false) meta).
Abbreviation sb := (rd_superblock r).
Abbreviation run := (ExecuteJournalTransaction true before ordered meta total uuid).

Lemma planned_with_control v0 c0 : rd_superblock (with_control r' v0 c0) = sb /\ image_size_ (with_control r' v0 c0) = image_size_ r.
Proof. by destruct (pn_reader _ _ _ _ _ _ _ _ Hp) as (? & ? & ->). Qed.

Lemma publication_atomic e p y :
  disk e = d -> st_size e = image_size_ r -> trace e = [] -> p `prefix_of` trace (run e).1 -> crash_outcome r d p y ->
  (restarts_with r y (file_at r d) /\ EStage kCommit ∉ p) \/
  (restarts_with r y (file_at r' (applied ordered meta d)) /\ EStage kControlExposure ∈ p).
Proof.
  intros Hd Hz Ht Hpre (x & Hx & Hy). destruct (publication_typed r r' d before ordered meta total uuid Hc Hp) as (H1 & H2 & H3).
  pose proof (execute_outcome sb _ d v c Hr Hu before ordered meta total uuid true H1 H2 H3 Hplain e Hd Hz Ht) as H.
  destruct (run e) as [e1 [res fc]]. destruct H as (Hs & _).
  destruct (Hs p x Hpre Hx) as (T & HT & Hor).
  destruct (startup_completes sb (image_size_ r) y T) as (e2 & a & E & (v2 & c2 & Hr2 & Hu2 & Hh) & Hn2 & Hz2 & Hpd);
    [by eapply interrupted_recoverable|].
  assert (clean_image sb (image_size_ r) (disk e2)) as Hclean by (by exists v2, c2).
  destruct Hor as [[Hold Hn]|[Hnew Hin]].
  - left. split; [|intros Hin; by apply Hn, stages_complete].
    destruct (old_files r r' d before ordered meta total uuid Hc Hp (disk e2) v2 c2 Hr2) as (Q1 & Q2).
    { intros blk Hj Hno. rewrite Hh by done. by apply Hold. }
    exists e2, (with_control r v2 c2). split; [|done]. by apply (restart_opened r y e2 a).
  - right. split; [|by eapply stages_in].
    destruct (new_files r r' d before ordered meta total uuid Hc Hp (disk e2) v2 c2 Hr2) as (Q1 & Q2).
    { intros blk Hj. rewrite Hh by done. by apply Hnew. }
    exists e2, (with_control r' v2 c2). split; [|done]. apply (restart_opened r y e2 a); try done; by apply planned_with_control.
Qed.

(** Once the transaction has returned success, every crash later leaves the new
    files. *)
Lemma publication_durable e fc y :
  disk e = d -> st_size e = image_size_ r -> trace e = [] -> (run e).2 = (Ok tt, fc) ->
  crash_outcome r d (trace (run e).1) y -> restarts_with r y (file_at r' (applied ordered meta d)).
Proof.
  intros Hd Hz Ht. destruct (publication_typed r r' d before ordered meta total uuid Hc Hp) as (H1 & H2 & H3).
  pose proof (execute_outcome sb _ d v c Hr Hu before ordered meta total uuid true H1 H2 H3 Hplain e Hd Hz Ht) as H.
  destruct (run e) as [e1 [res fc']]. cbn [fst snd]. destruct H as (_ & _ & H). intros [= -> ->] (x & Hx & Hy).
  destruct (H eq_refl) as ((v1 & c1 & Hr1 & Hu1 & Hh1) & Hdur & Hpend & _).
  assert (x = disk e1) as ->.
  { apply map_eq. intros blk. rewrite <- Hdur.
    destruct (Hx blk) as [|[(b & Hb & _)|(o & b & Hb & _)]]; [done|rewrite Hpend in Hb; by apply not_elem_of_nil in Hb..]. }
  destruct (startup_completes sb (image_size_ r) y (meta ∪ (ordered ∪ d))) as (e2 & a & E & (v2 & c2 & Hr2 & Hu2 & Hh) & Hn2 & Hz2 & Hpd).
  { eapply interrupted_recoverable; [done|]. by eapply rec_clean. }
  destruct (new_files r r' d before ordered meta total uuid Hc Hp (disk e2) v2 c2 Hr2 Hh) as (Q1 & Q2).
  exists e2, (with_control r' v2 c2). split; [|done]. apply (restart_opened r y e2 a); try done; [by exists v2, c2|by apply planned_with_control..].
Qed.

(** Without system-call failures the transaction succeeds. *)
Lemma publication_completes e :
  disk e = d -> st_size e = image_size_ r -> trace e = [] -> responses e = [] ->
  (size meta <= 252)%nat /\ Z.of_nat (size meta) + 2 <= ring_blocks v -> next_transaction_id v < uint64_max ->
  exists e' fc, run e = (e', (Ok tt, fc)) /\ responses e' = [].
Proof.
  intros Hd Hz Ht Hn Hf Hid. destruct (publication_typed r r' d before ordered meta total uuid Hc Hp) as (H1 & H2 & H3).
  pose proof (execute_outcome sb (image_size_ r) d v c Hr Hu before ordered meta total uuid true H1 H2 H3 Hplain e Hd Hz Ht) as H.
  destruct (run e) as [e' [res fc]].
  destruct (proj1 (proj2 H) (conj eq_refl (publication_valid r r' d before ordered meta total uuid Hp v Hf Hid)) Hn) as [Hok Hn'].
  destruct res as [[]|]; [by exists e', fc|done].
Qed.
End execution.
