(* ===== verification/FilePlans.v ===== *)
(** The two planners of file contents on a consistent image: they succeed exactly
    when enough blocks are free, and the planned images publish the new contents
    of the file and nothing else. *)
From S2P Require Import Prelude Codec OndiskFormat OndiskFormatProofs OndiskJournal Disk JournalStore JournalImage.
From S2P Require Import JournalStates BitmapAllocator ImageReader ImageReaderProofs ReaderTheorems LedgerStore.
From S2P Require Import FileMutation ConsistentImage PlanProofs FileMutationProofs FileMutationPublish FileContents.
From S2P Require Import Publication.
Open Scope Z_scope.
Open Scope io_scope.

(** The inode of a file whose contents were rewritten. *)
Record rewritten (old new : InodeRecord) (size timestamp_ns : Z) : Prop := {
  rw_size : i_size new = size;
  rw_generation : generation new = generation old + 1;
  rw_times : mtime_ns new = timestamp_ns /\ ctime_ns new = timestamp_ns /\ atime_ns new = atime_ns old;
  rw_identity : inode_number new = inode_number old /\ mode new = mode old /\ uid new = uid old /\
                gid new = gid old /\ link_count new = link_count old /\ flags new = flags old
}.

Section plans.
Context (r : ImageReader) (d : image) (Hc : consistent r d).
Abbreviation sb := (rd_superblock r).
Context (n : Z) (inode : InodeRecord) (Hread : answer d (ReadInode r n) = Ok inode).
Context (Hreg : S_ISREG (mode inode) = true) (Hgen : generation inode < uint64_limit).

Let Ho := co_opened _ _ Hc.
Let Hv := op_view _ _ Ho.
Let Hlay := opened_layout _ _ Ho.

(** The checks and reads in front of the allocation loops. *)
Lemma prepare_prefix req :
  let data_size := Z.of_nat (length (fq_data req)) in
  (is_replace req = false -> fq_data req <> []) ->
  0 <= fq_offset req -> fq_offset req + data_size <= kMaxFileSize ->
  (is_replace req = true -> generation inode = fq_expected_generation req) ->
  answer d (PrepareFileMutation r n req) =
  let write_end := fq_offset req + data_size in
  let new_size := if is_replace req then data_size else Z.max (i_size inode) write_end in
  let new_count := RequiredBlocks new_size in
  if is_replace req then
    answer d (let* m := replace_blocks r (fq_data req) (counting new_count)
                (mkMutation (block_allocator r) (mkImages ∅ ∅ ∅) (replicate (Z.to_nat new_count) 0) ∅) in
      finish_mutation r n inode true (file_pointers d inode) (block_bitmap_ r) (fq_timestamp_ns req) new_size
        (if new_count =? 0 then 0 else new_count - 1)
        (mkMutation (mu_allocator m) (mu_images m) (mu_mapping m) (list_to_set (file_pointers d inode))))
  else
    answer d (let* m := write_blocks r (i_size inode) (file_pointers d inode) (fq_offset req) write_end (fq_data req)
                (map (Z.add (first_changed (i_size inode) (fq_offset req)))
                   (counting (last_changed (fq_offset req) (fq_data req) - first_changed (i_size inode) (fq_offset req) + 1)))
                (mkMutation (block_allocator r) (mkImages ∅ ∅ ∅)
                   (resize (Z.to_nat new_count) 0 (file_pointers d inode)) ∅) in
      finish_mutation r n inode false (file_pointers d inode) (block_bitmap_ r) (fq_timestamp_ns req) new_size
        (last_changed (fq_offset req) (fq_data req)) m).
Proof.
  intros data_size Hempty Hoff Hmax Hexp. destruct (read_facts r d Ho n inode Hread) as (Hn & Hval & Hnum & Hty).
  destruct (region_bounds r d Ho) as (L & Htot & B1 & B2 & B3 & B4). pose proof (lay_bb _ L). pose proof (lay_it _ L).
  pose proof (co_alone _ _ Hc n inode Hread) as Hnd. apply NoDup_app in Hnd as (Hnd & Hdis & _).
  unfold PrepareFileMutation. fold data_size. rewrite answer_if, (proj2 (Z.eqb_neq n 0)) by lia.
  rewrite answer_if. assert (negb (is_replace req) && bool_decide (fq_data req = []) = false) as ->.
  { destruct (is_replace req); [done|]. cbn. by apply bool_decide_eq_false, Hempty. }
  rewrite answer_if, (proj2 (Z.ltb_ge _ _)), (proj2 (Z.ltb_ge _ _)) by lia. cbn [orb].
  rewrite (answer_bind_ok _ _ _ _ _ Hread), answer_if, Hreg. cbn [negb].
  rewrite answer_if. assert (is_replace req && negb (generation inode =? fq_expected_generation req) = false) as ->.
  { destruct (is_replace req); [|done]. cbn. by rewrite (Hexp eq_refl), Z.eqb_refl. }
  rewrite answer_if, (proj2 (Z.eqb_neq _ uint64_limit)) by lia.
  rewrite (answer_bind_ok _ _ _ _ _ (mapping_answer r d Hv inode Hval)). cbv zeta.
  rewrite answer_if, (size_list_to_set (file_pointers d inode)), Nat.eqb_refl by done. cbn [negb orb].
  assert (negb (indirect_block inode =? 0) &&
    bool_decide (indirect_block inode ∈ (list_to_set (file_pointers d inode) : gset Z)) = false) as ->.
  { destruct (Z.eqb_spec (indirect_block inode) 0) as [|Hnz]; [done|]. cbn. apply bool_decide_eq_false.
    intros Hin%elem_of_list_to_set. apply (Hdis _ Hin). by left. }
  rewrite (answer_bind_ok _ _ _ (block_bitmap_ r)); [|apply _|].
  2: { destruct (block_bitmap_bytes r d Ho) as (-> & _). apply (load_region_answer r d Hv); [lia|lia|lia|done]. }
  fold (block_allocator r). rewrite (allocator_valid r d Ho). rewrite answer_if. done.
Qed.

(** What a plan achieves: a publication after which the file has the new
    contents and the next generation and every other file is as it was. *)
Definition publishes (plan : FileMutationPlan) (new : bytes) (timestamp_ns : Z) : Prop :=
  let ordered := fp_ordered_data_after_images plan in
  let meta := fp_metadata_after_images plan in
  let d' := applied ordered meta d in
  (size meta <= Z.to_nat (block_count (block_bitmap sb)) + 2)%nat /\
  exists r' inode',
    publication r d (fp_before_images plan) ordered meta (fp_total_blocks plan) (fp_filesystem_uuid plan) r' /\
    rewritten inode inode' (Z.of_nat (length new)) timestamp_ns /\
    keeps r d r' d' (fun k => k = n) /\
    forall k, file_at r' d' k = if k =? n then Some (inode', new) else file_at r d k.

Abbreviation a0 := (block_allocator r).
Abbreviation free := (size (free_bits a0)).

(** A finished plan publishes what the blocks of its new mapping hold. *)
Lemma finished_publishes replace_all ts new_size last bs afters first R0 mp0 a1 a2 a3 ni new :
  let m := placed d a1 bs afters first R0 (mkMutation a0 (mkImages ∅ ∅ ∅) mp0 ∅) in
  let ci := changes_indirect inode replace_all new_size last in
  let R := all_released inode replace_all new_size last m in
  let nm := list_inserts first bs mp0 in
  let plan := finished r d n inode replace_all (file_pointers d inode) (block_bitmap_ r) ts new_size last m a3 ni in
  let d' := applied (fp_ordered_data_after_images plan) (fp_metadata_after_images plan) d in
  takes a0 bs a1 -> takes a1 (if ci then [ni] else []) a2 -> gives a2 R a3 ->
  length afters = length bs -> Forall block_wf afters ->
  0 <= new_size <= kMaxFileSize -> u64 ts ->
  length nm = Z.to_nat (RequiredBlocks new_size) -> NoDup nm ->
  (forall b, b ∈ nm -> (b ∈ bs) \/ ((b ∈ file_pointers d inode) /\ b ∉ R)) ->
  (forall b, b ∈ R -> b ∈ owned d inode) ->
  (ci = false -> 12 < RequiredBlocks new_size ->
   ni = indirect_block inode /\ ni <> 0 /\ (ni ∉ R) /\ RequiredBlocks new_size = required_blocks inode /\
   forall l, 12 <= l < RequiredBlocks new_size -> nth (Z.to_nat l) nm 0 = pointer d inode l) ->
  new_size = Z.of_nat (length new) ->
  ((forall i b x, bs !! i = Some b -> afters !! i = Some x -> block_at d' b = x) ->
   (forall b, b ∈ file_pointers d inode -> block_at d' b = block_at d b) ->
   take (Z.to_nat new_size) (concat (map (block_at d') nm)) = new) ->
  publishes plan new ts.
Proof.
  intros m ci R nm plan d' T1 T2 G Hal Hwf Hs Hts Hnl Hnd Hnm HR Hk Hlen Hcont.
  pose proof (mutation_published r d Hc n inode Hread replace_all ts new_size last bs afters first R0 mp0 a1 a2 a3 ni
    T1 T2 G Hal Hwf Hs Hts Hgen Hnl Hnd Hnm HR Hk Hreg) as (H1 & H2 & H3 & H4).
  change (file_pointers d' (new_inode inode ts new_size m ni) = nm) in H3.
  assert (file_bytes d' (new_inode inode ts new_size m ni) = new) as Hbytes.
  { unfold file_bytes. rewrite file_blocks_pointers, H3. apply Hcont.
    - intros i b x Hb Hx. unfold block_at.
      pose proof (after_data r d Hc n inode Hread replace_all ts new_size last bs afters first R0 mp0 a1 a2 a3 ni
        T1 T2 Hal Hnl Hk i b x Hb Hx) as E. change (d' !! b = Some x) in E. by rewrite E.
    - intros b Hb. destruct (read_facts r d Ho n inode Hread) as (Hn & Hval & _).
      assert (b ∈ owned d inode) as Hown by (apply elem_of_app; by left).
      destruct (owned_data_block r d inode b Hval Hown) as [Hr _].
      pose proof (places r d Hc n inode Hread new_size bs afters first mp0 Hal Hnl) as (? & ? & ? & ? & ? & ? & ?).
      pose proof (after_other r d Hc n inode Hread replace_all ts new_size last bs afters first R0 mp0 a1 a2 a3 ni
        T2 Hal Hnl Hk b ltac:(lia) ltac:(lia)
        (owned_not_fresh r d Hc n inode Hread replace_all new_size last bs a1 a2 ni T1 T2 b Hown)) as E.
      change (d' !! b = d !! b) in E. unfold block_at. by rewrite E. }
  split.
  { exact (meta_size r d Hc n inode Hread replace_all ts new_size last bs afters first R0 mp0 a1 a2 a3 ni T2 Hal Hnl Hk). }
  exists (with_bitmaps r (inode_bitmap_ r) (bitmap_ a3)), (new_inode inode ts new_size m ni). split; [constructor|split; [|split]].
  - done.
  - exact (before_spec r d Hc n inode Hread replace_all ts new_size last bs afters first R0 mp0 a1 a2 a3 ni T1 T2 Hal Hnl).
  - exact (before_some r d Hc n inode Hread replace_all ts new_size last bs afters first R0 mp0 a1 a2 a3 ni T1 T2 Hal Hnl Hk).
  - exact (ordered_targets r d Hc n inode Hread replace_all ts new_size last bs afters first R0 mp0 a1 a2 a3 ni
      T1 T2 Hal Hnl Hk).
  - exact (meta_targets r d Hc n inode Hread replace_all ts new_size last bs afters first R0 mp0 a1 a2 a3 ni
      T1 T2 Hal Hnl Hk).
  - intros He. unfold plan in He. cbn [finished fp_metadata_after_images final_images add_metadata im_metadata] in He.
    apply (f_equal (fun z => z !! InodeTableBlock sb n)) in He. rewrite lookup_insert_eq, lookup_empty in He. done.
  - by exists (inode_bitmap_ r), (bitmap_ a3).
  - exact H1.
  - constructor; try done.
  - exact H4.
  - intros k. destruct (Z.eqb_spec k n) as [->|Hkn].
    + etransitivity; [exact (file_at_ok _ _ _ _ H2)|]. do 2 f_equal. exact Hbytes.
    + apply file_at_frame; [done|exact (op_view _ _ (co_opened _ _ H1))|done|]. intros J EJ. by destruct (H4 k J Hkn EJ) as (? & _ & ?).
Qed.

(** The last part of a mutation succeeds exactly when the allocator still has a
    block for the pointers, and then publishes the placed blocks. *)
Lemma finish_publishes replace_all ts new_size last bs afters first R0 mp0 a1 new :
  let m := placed d a1 bs afters first R0 (mkMutation a0 (mkImages ∅ ∅ ∅) mp0 ∅) in
  let ci := changes_indirect inode replace_all new_size last in
  let R := all_released inode replace_all new_size last m in
  let nm := list_inserts first bs mp0 in
  let run := finish_mutation r n inode replace_all (file_pointers d inode) (block_bitmap_ r) ts new_size last m in
  takes a0 bs a1 -> length afters = length bs -> Forall block_wf afters ->
  0 <= new_size <= kMaxFileSize -> u64 ts ->
  length nm = Z.to_nat (RequiredBlocks new_size) -> NoDup nm ->
  (forall b, b ∈ nm -> (b ∈ bs) \/ ((b ∈ file_pointers d inode) /\ b ∉ R)) ->
  (forall b, b ∈ R -> b ∈ owned d inode) ->
  (ci = false -> 12 < RequiredBlocks new_size ->
   replace_all = false /\ indirect_block inode <> 0 /\ (indirect_block inode ∉ R) /\
   RequiredBlocks new_size = required_blocks inode /\
   forall l, 12 <= l < RequiredBlocks new_size -> nth (Z.to_nat l) nm 0 = pointer d inode l) ->
  new_size = Z.of_nat (length new) ->
  (forall d', (forall i b x, bs !! i = Some b -> afters !! i = Some x -> block_at d' b = x) ->
   (forall b, b ∈ file_pointers d inode -> block_at d' b = block_at d b) ->
   take (Z.to_nat new_size) (concat (map (block_at d') nm)) = new) ->
  if Z.of_nat (length bs) + (if ci then 1 else 0) <=? Z.of_nat free
  then exists plan, answer d run = Ok plan /\ publishes plan new ts
  else answer d run = Err ENOSPC.
Proof.
  intros m ci R nm run T1 Hal Hwf Hs Hts Hnl Hnd Hnm HR Hk Hlen Hcont.
  destruct (read_facts r d Ho n inode Hread) as (Hn & Hval & Hnum & Hty).
  pose proof (block_allocator_ok r d Ho) as Ha. pose proof Ha as (Hok & Hval0 & Hfst).
  pose proof (finish_answer r d Hv Hlay n inode replace_all (file_pointers d inode) (block_bitmap_ r) ts new_size last m
    (plan_alloc_takes r a0 bs a1 Ha T1) Hn ltac:(lia) ltac:(apply Hval) ltac:(lia)) as Hfin.
  assert (forall b, b ∈ R ->
    start_block (OndiskFormat.data sb) <= b < total_blocks sb /\ TestBit (bitmap_ (mu_allocator m)) b = true) as Hrel.
  { intros b Hb%HR. destruct (owned_data_block r d inode b Hval Hb) as [Hr Ht]. split; [done|].
    pose proof (vo_data _ _ Hv). cbn [mu_allocator m placed]. rewrite (tk_bits _ _ _ T1) by lia. cbn [bitmap_ block_allocator].
    rewrite Ht. apply orb_true_r. }
  specialize (Hfin Hrel). unfold indirect_reservation in Hfin. cbn [mu_allocator m placed] in Hfin. fold ci in Hfin.
  pose proof (takes_count _ _ _ Hok T1) as Hcount. pose proof (tk_ok _ _ _ T1) as Hok1. pose proof (reserve_one a1 Hok1) as Hone.
  destruct (if ci then ReserveBlock a1 else Ok (a1, if replace_all then 0 else indirect_block inode)) as [[a2 ni]|er] eqn:Er.
  2: { destruct ci; [|done]. rewrite Er in Hone. destruct Hone as [-> Hempty]. rewrite Hempty, size_empty in Hcount.
       rewrite (proj2 (Z.leb_gt _ _)) by lia. exact Hfin. }
  destruct Hfin as (a3 & G & Hans).
  assert (takes a1 (if ci then [ni] else []) a2) as T2.
  { destruct ci; [by rewrite Er in Hone|]. injection Er as <- _. by apply takes_nil. }
  assert (Z.of_nat (length bs) + (if ci then 1 else 0) <= Z.of_nat free) as Hen.
  { pose proof (takes_count _ _ _ Hok1 T2). destruct ci; cbn [length] in *; lia. }
  rewrite (proj2 (Z.leb_le _ _) Hen). eexists. split; [exact Hans|].
  apply (finished_publishes replace_all ts new_size last bs afters first R0 mp0 a1 a2 a3 ni new); try done.
  2: by apply Hcont.
  intros Hci H12. fold ci in Hci. destruct (Hk Hci H12) as (Hra & Hk'). rewrite Hci, Hra in Er. by injection Er as _ <-.
Qed.

(** ** Replacement *)
Section replace.
Context (data : bytes) (ts : Z) (Hdata : bytes_ok data) (Hmax : Z.of_nat (length data) <= kMaxFileSize) (Hts : u64 ts).
Abbreviation L := (Z.of_nat (length data)).
Abbreviation cnt := (RequiredBlocks L).

Definition replace_needs : Z := cnt + (if 12 <? cnt then 1 else 0).

Lemma replace_publishes :
  if replace_needs <=? Z.of_nat free
  then exists plan, answer d (PrepareObjectReplace r n (generation inode) data ts) = Ok plan /\ publishes plan data ts
  else answer d (PrepareObjectReplace r n (generation inode) data ts) = Err ENOSPC.
Proof.
  destruct (RequiredBlocks_spec L ltac:(lia)) as [Ecnt Bcnt].
  unfold PrepareObjectReplace. rewrite prepare_prefix; [|done|done|cbn; lia|done].
  cbn [is_replace fq_data fq_offset fq_timestamp_ns]. change (is_replace _) with true. cbv zeta iota.
  set (m0 := mkMutation a0 (mkImages ∅ ∅ ∅) (replicate (Z.to_nat cnt) 0) ∅).
  pose proof (block_allocator_ok r d Ho) as Ha. pose proof Ha as (Hok & Hval0 & Hfst).
  rewrite answer_bind by apply _. unfold counting. rewrite (replace_answer r d Hv data (Z.to_nat cnt) 0 m0 Ha).
  cbn [mu_allocator m0]. pose proof (reserve_n_spec (Z.to_nat cnt) a0 Hok) as Hres. unfold replace_needs.
  destruct (reserve_n (Z.to_nat cnt) a0) as [[a1 bs]|er].
  2: { destruct Hres as [-> Hfew]. rewrite (proj2 (Z.leb_gt _ _)); [done|]. destruct (12 <? cnt); lia. }
  destruct Hres as (T1 & Hbs & Hfree).
  set (R0 := (list_to_set (file_pointers d inode) : gset Z)).
  set (afters := map (replace_after data) (seq 0 (Z.to_nat cnt))).
  set (last := if cnt =? 0 then 0 else cnt - 1).
  set (m := placed d a1 bs afters 0 R0 m0).
  replace (finish_mutation _ _ _ _ _ _ _ _ _ _) with
    (finish_mutation r n inode true (file_pointers d inode) (block_bitmap_ r) ts L last m) by done.
  assert (changes_indirect inode true L last = (12 <? cnt)) as Eci by (unfold changes_indirect; apply andb_true_r).
  assert (list_inserts 0 bs (replicate (Z.to_nat cnt) 0) = bs) as Enm.
  { rewrite <- (app_nil_r bs) at 1. apply list_inserts_0_l. rewrite length_replicate. lia. }
  rewrite <- Eci. assert (forall z, cnt + z = Z.of_nat (length bs) + z) as -> by (intros; lia).
  apply (finish_publishes true ts L last bs afters 0 R0 (replicate (Z.to_nat cnt) 0) a1 data); try done; try rewrite Enm.
  - unfold afters. rewrite length_map, length_seq. lia.
  - unfold afters. apply Forall_fmap, Forall_forall. intros l [_ Hl]%elem_of_seq. apply replace_after_wf; [done|].
    pose proof (Z.div_mod (L + 4095) 4096 ltac:(lia)). pose proof (Z.mod_pos_bound (L + 4095) 4096 ltac:(lia)). lia.
  - lia.
  - done.
  - apply T1.
  - intros b Hb. by left.
  - intros b. unfold all_released. rewrite andb_true_r. cbn [mu_released placed]. unfold R0, owned.
    destruct (Z.eqb_spec (indirect_block inode) 0); cbn [negb].
    + rewrite elem_of_list_to_set, app_nil_r. done.
    + rewrite elem_of_union, elem_of_singleton, elem_of_list_to_set, elem_of_app, list_elem_of_singleton. tauto.
  - intros Hf H12. rewrite Eci in Hf. apply Z.ltb_ge in Hf. lia.
  - intros d' Hnew _. etransitivity; [|exact (replace_contents data Hmax Hdata)]. f_equal. f_equal.
    apply list_eq_same_length with (Z.to_nat cnt); [rewrite ?length_map, ?length_seq; lia..|].
    intros i x y Hi Hx Hy. rewrite list_lookup_fmap in Hx. destruct (bs !! i) as [b|] eqn:Eb; [|done]. injection Hx as <-.
    by apply (Hnew i b y Eb).
Qed.
End replace.

(** ** Writing a range *)
Lemma elem_write_released os old ls R b : b ∈ write_released os old ls R <->
  (b ∈ R) \/ exists l, (l ∈ ls) /\ Z.of_nat l < RequiredBlocks os /\ b = nth l old 0.
Proof.
  revert R. induction ls as [|l ls IH]; intros R; unfold write_released; cbn [foldl].
  - split; [by left|]. intros [H|(l & H & _)]; [done|by apply not_elem_of_nil in H].
  - etransitivity; [apply IH|]. setoid_rewrite elem_of_cons.
    destruct (Z.ltb_spec (Z.of_nat l) (RequiredBlocks os)).
    + rewrite elem_of_union, elem_of_singleton. split.
      * intros [[->|H1]|(k & Hk & H1)]; [right; exists l; eauto|by left|right; exists k; eauto].
      * intros [H1|(k & [->|Hk] & H1 & H2)]; [by left; right|left; by left|right; exists k; eauto].
    + split; (intros [H1|(k & Hk & H1)]; [by left|right]); [exists k; eauto|].
      destruct Hk as [->|Hk]; [lia|exists k; eauto].
Qed.

Lemma counting_from f k : 0 <= f -> map (Z.add f) (counting k) = map Z.of_nat (seq (Z.to_nat f) (Z.to_nat k)).
Proof.
  intros Hf. unfold counting. rewrite map_map, <- (Nat.add_0_r (Z.to_nat f)), <- fmap_add_seq, <- list_fmap_compose.
  apply map_ext. intros a. cbn. lia.
Qed.

Section write.
Context (off : Z) (data : bytes) (ts : Z) (Hdata : bytes_ok data) (Hne : data <> []) (Hoff : 0 <= off).
Context (Hmax : off + Z.of_nat (length data) <= kMaxFileSize) (Hts : u64 ts).
Abbreviation old := (file_pointers d inode).
Abbreviation os := (i_size inode).
Abbreviation new_size := (Z.max os (off + Z.of_nat (length data))).
Abbreviation first := (first_changed os off).
Abbreviation last := (last_changed off data).
Abbreviation N := (Z.to_nat (RequiredBlocks new_size)).
Abbreviation K := (Z.to_nat first).
Abbreviation len := (Z.to_nat (last - first + 1)).

Definition write_needs : Z :=
  last - first + 1 + (if changes_indirect inode false new_size last then 1 else 0).

Lemma old_facts : 0 <= os <= kMaxFileSize /\ length old = Z.to_nat (RequiredBlocks os) /\ NoDup old /\
  Forall (fun p => block_wf (block_at d p)) old /\ RequiredBlocks os = required_blocks inode.
Proof.
  destruct (read_facts r d Ho n inode Hread) as (Hn & Hval & Hnum & Hty).
  pose proof (iv_size _ _ _ Hval) as Hs. pose proof (required_agree inode Hs) as E. split; [done|]. split.
  { unfold file_pointers, counting. by rewrite !length_map, length_seq, E. }
  split; [by pose proof (co_alone _ _ Hc n inode Hread) as [? _]%NoDup_app|]. split; [|done].
  apply Forall_forall. intros p Hp. apply (answer_block r d Hv).
  destruct (owned_data_block r d inode p Hval) as [Hr _]; [apply elem_of_app; by left|].
  pose proof (vo_data _ _ Hv). lia.
Qed.

Lemma old_at l : Z.of_nat l < RequiredBlocks os -> old !! l = Some (nth l old 0) /\ nth l old 0 ∈ old.
Proof.
  destruct old_facts as (_ & Hl & _). intros H. destruct (nth_lookup_or_length old l 0) as [E|E]; [|lia].
  split; [done|]. by apply list_elem_of_lookup_2 in E.
Qed.

Lemma indirect_apart : indirect_block inode <> 0 -> indirect_block inode ∉ old.
Proof.
  intros Hnz Hin. pose proof (co_alone _ _ Hc n inode Hread) as (_ & Hdis & _)%NoDup_app. apply (Hdis _ Hin).
  rewrite (proj2 (Z.eqb_neq _ _)) by done. by left.
Qed.

(** What a range write gives back. *)
Lemma write_released_spec bs afters a1 b :
  let R0 := write_released os old (seq K len) ∅ in
  let ci := changes_indirect inode false new_size last in
  b ∈ all_released inode false new_size last (placed d a1 bs afters K R0 (mkMutation a0 (mkImages ∅ ∅ ∅) (resize N 0 old) ∅)) ->
  (exists l, first <= Z.of_nat l <= last /\ old !! l = Some b) \/ (ci = true /\ indirect_block inode <> 0 /\ b = indirect_block inode).
Proof.
  intros R0 ci. destruct old_facts as (Hs & Hl & _). destruct (changed_range os old off data Hs Hoff Hmax Hl Hne) as (C1 & _).
  assert (b ∈ R0 -> exists l, first <= Z.of_nat l <= last /\ old !! l = Some b) as HR0.
  { intros [[]%not_elem_of_empty|(l & [Hl1 Hl2]%elem_of_seq & Hlo & ->)]%elem_write_released.
    exists l. split; [lia|]. by apply old_at. }
  unfold all_released. cbn [mu_released placed orb]. fold ci. fold R0.
  destruct (Z.eqb_spec (indirect_block inode) 0); cbn [negb andb]; [by left; apply HR0|].
  destruct ci eqn:E; [|by left; apply HR0]. rewrite elem_of_union, elem_of_singleton. intros [->|H]; [by right|left; by apply HR0].
Qed.

Section mapping.
Context (bs : list Z) (a1 : BitmapAllocator) (T1 : takes a0 bs a1) (Hbs : length bs = len).
Abbreviation nm := (list_inserts K bs (resize N 0 old)).

Lemma mapping_lookup i b : nm !! i = Some b ->
  (i < N)%nat /\ (first <= Z.of_nat i <= last /\ bs !! (i - K)%nat = Some b \/
                  (Z.of_nat i < first \/ last < Z.of_nat i) /\ old !! i = Some b).
Proof.
  destruct old_facts as (Hs & Hl & _). destruct (changed_range os old off data Hs Hoff Hmax Hl Hne) as (C1 & C2 & C3 & C4 & C5).
  intros H. pose proof (lookup_lt_Some _ _ _ H) as Hi. rewrite length_inserts, length_resize in Hi. split; [done|].
  apply list_lookup_inserts_Some in H as [(Hr & H)|(Hr & _ & H)].
  - right. assert (Z.of_nat i < first \/ last < Z.of_nat i) as Hr' by lia. split; [done|].
    rewrite lookup_resize in H; [done..|lia].
  - left. split; [lia|done].
Qed.

Lemma mapping_fresh b : b ∈ bs -> b ∉ owned d inode.
Proof.
  intros Hb Hown. destruct (read_facts r d Ho n inode Hread) as (Hn & Hval & Hnum & Hty).
  destruct (owned_data_block r d inode b Hval Hown) as [_ Ht]. pose proof (tk_free _ _ _ T1 b Hb) as [_ Hf]. cbn [bitmap_ block_allocator] in Hf. congruence.
Qed.

Lemma mapping_nodup : NoDup nm.
Proof.
  destruct old_facts as (Hs & Hl & Hnd & _). apply NoDup_alt. intros i j b Hi Hj.
  apply mapping_lookup in Hi as [_ Hi], Hj as [_ Hj].
  assert (forall k, old !! k = Some b -> b ∈ owned d inode) as Hown
    by (intros k Hk; apply elem_of_app; left; by apply list_elem_of_lookup_2 in Hk).
  destruct Hi as [[Ri Hi]|[Ri Hi]], Hj as [[Rj Hj]|[Rj Hj]].
  - pose proof (NoDup_lookup _ _ _ _ (tk_nodup _ _ _ T1) Hi Hj). lia.
  - destruct (mapping_fresh b); [by apply list_elem_of_lookup_2 in Hi|eauto].
  - destruct (mapping_fresh b); [by apply list_elem_of_lookup_2 in Hj|eauto].
  - exact (NoDup_lookup _ _ _ _ Hnd Hi Hj).
Qed.

Lemma mapping_outside i : (i < N)%nat -> Z.of_nat i < first \/ last < Z.of_nat i -> nm !! i = old !! i /\ (i < length old)%nat.
Proof.
  destruct old_facts as (Hs & Hl & _). destruct (changed_range os old off data Hs Hoff Hmax Hl Hne) as (C1 & C2 & C3 & C4 & C5).
  intros Hi Hr. assert (i < length old)%nat as Ho' by lia. split; [|done].
  rewrite <- (lookup_resize old N 0 i) by done. destruct Hr; [apply list_lookup_inserts_lt|apply list_lookup_inserts_ge]; lia.
Qed.

(** The new blocks hold the written file. *)
Lemma mapping_contents d' :
  (forall i b x, bs !! i = Some b ->
     map (write_after d os old off (off + Z.of_nat (length data)) data) (seq K len) !! i = Some x -> block_at d' b = x) ->
  (forall b, b ∈ old -> block_at d' b = block_at d b) ->
  take (Z.to_nat new_size) (concat (map (block_at d') nm)) = written (file_bytes d inode) off data.
Proof.
  intros Hnew Hkept. destruct old_facts as (Hs & Hl & Hnd & Hwf & Hreq).
  destruct (changed_range os old off data Hs Hoff Hmax Hl Hne) as (C1 & C2 & C3 & C4 & C5).
  assert (length (map (block_at d') nm) = N) as Hlen by (rewrite length_map, length_inserts, length_resize; done).
  assert (forall l b, nm !! l = Some b -> nth l (map (block_at d') nm) [] = block_at d' b) as Hnth.
  { intros l b Hb. apply nth_lookup_Some. by rewrite list_lookup_fmap, Hb. }
  unfold file_bytes. rewrite file_blocks_pointers.
  apply (write_contents d os old off data Hs Hoff Hmax Hl Hwf Hne); [done|..]; rewrite Hlen; intros l Hl' Hr.
  - destruct (lookup_lt_is_Some_2 nm l) as [b Hb]; [rewrite length_inserts, length_resize; done|].
    rewrite (Hnth l b Hb). apply mapping_lookup in Hb as [_ [[_ Hb]|[Hb _]]]; [|lia].
    apply (Hnew (l - K)%nat b); [done|]. rewrite list_lookup_fmap, lookup_seq_lt by lia. cbn. do 2 f_equal. lia.
  - destruct (mapping_outside l Hl' Hr) as [E Ho']. destruct (lookup_lt_is_Some_2 old l Ho') as [b Hb].
    rewrite (Hnth l b) by (by rewrite E). rewrite Hkept by (by apply list_elem_of_lookup_2 in Hb).
    by rewrite (nth_lookup_Some _ _ 0 _ Hb).
Qed.
End mapping.

Lemma write_publishes :
  if write_needs <=? Z.of_nat free
  then exists plan, answer d (PrepareFileWrite r n off data ts) = Ok plan /\
                    publishes plan (written (file_bytes d inode) off data) ts
  else answer d (PrepareFileWrite r n off data ts) = Err ENOSPC.
Proof.
  destruct (read_facts r d Ho n inode Hread) as (_ & Hval & _). destruct old_facts as (Hs & Hl & Hnd & Hwf & Hreq).
  destruct (changed_range os old off data Hs Hoff Hmax Hl Hne) as (C1 & C2 & C3 & C4 & C5).
  unfold PrepareFileWrite. rewrite answer_if, bool_decide_eq_false_2 by done.
  rewrite prepare_prefix; [|done|done|done|done].
  cbn [is_replace fq_data fq_offset fq_timestamp_ns]. change (is_replace _) with false. cbv zeta iota.
  set (m0 := mkMutation a0 (mkImages ∅ ∅ ∅) (resize N 0 old) ∅).
  pose proof (block_allocator_ok r d Ho) as Ha. pose proof Ha as (Hok & Hval0 & Hfst).
  rewrite answer_bind by apply _. rewrite counting_from by lia. rewrite (write_answer r d Hv os old off _ data len K m0 Ha).
  2: { intros l _ [_ Hin]%old_at. destruct (owned_data_block r d inode (nth l old 0) Hval) as [Hr _];
         [apply elem_of_app; by left|]. pose proof (vo_data _ _ Hv). lia. }
  cbn [mu_allocator m0 mu_released]. pose proof (reserve_n_spec len a0 Hok) as Hres. unfold write_needs.
  destruct (reserve_n len a0) as [[a1 bs]|er].
  2: { destruct Hres as [-> Hfew]. rewrite (proj2 (Z.leb_gt _ _)); [done|]. destruct (changes_indirect _ _ _ _); lia. }
  destruct Hres as (T1 & Hbs & Hfree).
  assert (forall z, last - first + 1 + z = Z.of_nat (length bs) + z) as -> by (intros; lia).
  set (R0 := write_released os old (seq K len) ∅).
  set (afters := map (write_after d os old off _ data) (seq K len)).
  apply (finish_publishes false ts new_size last bs afters K R0 (resize N 0 old) a1); try done.
  - unfold afters. rewrite length_map, length_seq. lia.
  - unfold afters. apply Forall_fmap, Forall_forall. intros l _.
    destruct (write_after_spec d os old off data Hoff Hl Hwf l) as (W1 & W2 & _). split; [done|by apply W2].
  - lia.
  - by rewrite length_inserts, length_resize.
  - exact (mapping_nodup bs a1 T1 Hbs).
  - intros b Hb. apply list_elem_of_lookup in Hb as [i Hb]. apply (mapping_lookup bs Hbs) in Hb as [_ [[_ Hb]|[Hr Hb]]].
    + left. by apply list_elem_of_lookup_2 in Hb.
    + right. pose proof (list_elem_of_lookup_2 _ _ _ Hb) as Hin. split; [done|].
      intros [(l & Hl' & El)|(_ & Hnz & ->)]%write_released_spec.
      * pose proof (NoDup_lookup _ _ _ _ Hnd Hb El). lia.
      * by apply indirect_apart.
  - intros b [(l & _ & El)|(_ & Hnz & ->)]%write_released_spec; apply elem_of_app.
    + left. by apply list_elem_of_lookup_2 in El.
    + right. rewrite (proj2 (Z.eqb_neq _ _)) by done. by left.
  - unfold changes_indirect. intros Hci H12. rewrite (proj2 (Z.ltb_lt _ _) H12) in Hci. cbn [andb orb] in Hci.
    apply orb_false_elim in Hci as [Hnz%Z.eqb_neq Hlast%Z.leb_gt]. split; [done|]. split; [done|].
    assert (RequiredBlocks new_size = RequiredBlocks os) as Esame by lia. split; [|split; [lia|]].
    + intros [(l & _ & El)|(Hci & _)]%write_released_spec.
      * by apply indirect_apart, (list_elem_of_lookup_2 _ _ _ El).
      * unfold changes_indirect in Hci. rewrite (proj2 (Z.eqb_neq _ _)), (proj2 (Z.leb_gt _ _)), andb_false_r in Hci by done. done.
    + intros l Hr. destruct (mapping_outside bs Hbs (Z.to_nat l)) as [E _]; [lia|lia|].
      destruct (old_at (Z.to_nat l)) as [E2 _]; [lia|]. rewrite E2 in E. rewrite (nth_lookup_Some _ _ _ _ E).
      unfold file_pointers. rewrite (nth_indep _ 0 (pointer d inode 0)) by (unfold counting; rewrite !length_map, length_seq; lia).
      rewrite map_nth, nth_counting by lia. f_equal. lia.
  - rewrite length_written by done. rewrite (length_file_bytes r d Hv inode Hval). lia.
  - intros d'. exact (mapping_contents bs Hbs d').
Qed.
End write.
End plans.
