(* ===== verification/FileTheorems.v ===== *)
(** A consistent image with one file, on which the theorems about plans are
    evaluated. *)
From S2P Require Import Prelude Codec OndiskFormat OndiskFormatProofs OndiskJournal OndiskJournalProofs.
From S2P Require Import RingReservation Disk JournalStore JournalImage CrashLogic JournalStates TransactionImages.
From S2P Require Import TransactionProofs JournalExample JournalTheorems BitmapAllocator ImageReader ImageReaderProofs.
From S2P Require Import ReaderTheorems LedgerStore FileMutation ConsistentImage PlanProofs FileMutationProofs.
From S2P Require Import FileMutationPublish FileContents Publication FilePlans.
Open Scope Z_scope.

Lemma allocated1 n : IsInodeAllocated reader1 n = true -> n = 1 \/ n = 2.
Proof.
  intros H. assert (1 <= n <= 16) as Hn.
  { unfold IsInodeAllocated in H. apply andb_prop in H as [[H1%Z.leb_le H2%Z.leb_le]%andb_prop _]. change (total_inodes _) with 16 in H2. lia. }
  assert (forallb (fun k => negb (IsInodeAllocated reader1 k) || (k <=? 2)) (map Z.of_nat (seq 1 16)) = true) as Hall by (vm_compute; reflexivity).
  rewrite forallb_forall in Hall. specialize (Hall n). rewrite H in Hall. cbn [negb orb] in Hall.
  assert (n <= 2); [|lia]. apply Z.leb_le, Hall. apply in_map_iff. exists (Z.to_nat n). split; [lia|]. apply in_seq. lia.
Qed.

Lemma reads1 n J : answer img1 (ReadInode reader1 n) = Ok J -> (n = 1 /\ J = root1) \/ (n = 2 /\ J = file1).
Proof.
  intros E. destruct (read_inode_valid reader1 img1 (op_view _ _ opened1) n J E) as (_ & _ & Ha & _).
  destruct (allocated1 n Ha) as [->| ->]; [left|right]; (split; [done|]).
  - assert (answer img1 (ReadInode reader1 1) = Ok root1) as E1 by (vm_compute; reflexivity). congruence.
  - rewrite inode1 in E. congruence.
Qed.

Lemma owned1 : owned img1 root1 = [12] /\ owned img1 file1 = [13; 14].
Proof. split; vm_compute; reflexivity. Qed.

Lemma consistent1 : consistent reader1 img1.
Proof.
  destruct owned1 as [O1 O2]. constructor.
  - apply opened1.
  - intros n [->| ->]%allocated1; [exists root1; vm_compute; reflexivity|exists file1; apply inode1].
  - intros n J [[-> ->]|[-> ->]]%reads1; [rewrite O1|rewrite O2]; apply (bool_decide_unpack _); vm_compute; exact I.
  - intros n n' J J' Hne [[-> ->]|[-> ->]]%reads1 [[-> ->]|[-> ->]]%reads1 b; rewrite ?O1, ?O2; try done; rewrite !elem_of_cons, elem_of_nil; lia.
Qed.

(** The guarantees of file writes and object replacements, end to end: what the
    planners produce, and what is left after executing a plan and crashing
    anywhere. *)
Open Scope io_scope.

(** * Requests *)
(** A regular file that can still be written. *)
Record writable_file (r : ImageReader) (d : image) (n : Z) (inode : InodeRecord) : Prop := {
  wf_image : consistent r d;
  wf_inode : answer d (ReadInode r n) = Ok inode;
  wf_regular : S_ISREG (mode inode) = true;
  wf_generation : generation inode < uint64_limit
}.

(** Byte ranges a file can have. *)
Record write_request (offset : Z) (data : bytes) (timestamp_ns : Z) : Prop := {
  wr_bytes : bytes_ok data;
  wr_range : 0 <= offset /\ offset + Z.of_nat (length data) <= kMaxFileSize;
  wr_time : u64 timestamp_ns
}.

(** Execution of a plan by the journal. *)
Definition execute_plan (plan : FileMutationPlan) : env -> env * (result errno () * bool) :=
  ExecuteJournalTransaction true (fp_before_images plan) (fp_ordered_data_after_images plan)
    (fp_metadata_after_images plan) (fp_total_blocks plan) (fp_filesystem_uuid plan).

(** The journal is clean and has room for [needed] metadata blocks. *)
Record journal_room (r : ImageReader) (d : image) (v : JournalControl) (c : ControlCopy) (needed : Z) : Prop := {
  jr_ready : ready (rd_superblock r) (image_size_ r) d v c;
  jr_clean : used_blocks v = 0;
  jr_ring : needed + 2 <= ring_blocks v;
  jr_descriptor : needed <= 252;
  jr_ids : next_transaction_id v < uint64_max
}.

(** What the plan of one file takes at most: the bitmap, its inode and its
    pointers. *)
Definition file_metadata (r : ImageReader) : Z := block_count (block_bitmap (rd_superblock r)) + 2.

Definition files_with (files : Z -> option (InodeRecord * bytes)) (n : Z) (inode : InodeRecord) (contents : bytes) :
    Z -> option (InodeRecord * bytes) :=
  fun k => if k =? n then Some (inode, contents) else files k.

Lemma restarts_ext r y f g : (forall k, f k = g k) -> restarts_with r y f -> restarts_with r y g.
Proof.
  intros E (e & r2 & H1 & H2). exists e, r2. split; [done|]. intros k. by rewrite H2.
Qed.

(** ** Executing a file plan *)
Section execution.
Context (r : ImageReader) (d : image) (n : Z) (inode : InodeRecord) (plan : FileMutationPlan) (new : bytes) (ts : Z).
Context (v : JournalControl) (c : ControlCopy) (Hc : consistent r d) (Hroom : journal_room r d v c (file_metadata r)).
Context (Hpub : publishes r d n inode plan new ts).
Context (Hplain : map_Forall (fun _ b => is_ok (DecodeCommit b) = false) (fp_metadata_after_images plan)).

Definition happened (y : image) : Prop := exists inode', rewritten inode inode' (Z.of_nat (length new)) ts /\
  restarts_with r y (files_with (file_at r d) n inode' new).

Lemma file_plan_atomic e p y :
  disk e = d -> st_size e = image_size_ r -> trace e = [] -> p `prefix_of` trace (execute_plan plan e).1 ->
  crash_outcome r d p y ->
  (restarts_with r y (file_at r d) /\ EStage kCommit ∉ p) \/ (happened y /\ EStage kControlExposure ∈ p).
Proof.
  intros Hd Hz Ht Hp Hy. destruct Hpub as (_ & r' & inode' & Hpn & Hrw & _ & Hf). destruct Hroom.
  destruct (publication_atomic r r' d _ _ _ _ _ Hc Hpn v c jr_ready0 jr_clean0 Hplain e p y Hd Hz Ht Hp Hy) as [H|[H1 H2]];
    [by left|right]. split; [|done]. exists inode'. split; [done|]. by apply (restarts_ext r y _ _ Hf).
Qed.

Lemma file_plan_completes :
  let e := fresh_start (image_size_ r) d in
  (execute_plan plan e).2.1 = Ok tt /\
  forall y, crash_outcome r d (trace (execute_plan plan e).1) y -> happened y.
Proof.
  destruct Hpub as (Hsz & r' & inode' & Hpn & Hrw & _ & Hf). destruct Hroom. intros e.
  assert ((execute_plan plan e).2.1 = Ok tt) as Hok.
  { destruct (publication_completes r r' d _ _ _ _ _ Hc Hpn v c jr_ready0 jr_clean0 Hplain e) as (e' & fc & E & _); try done.
    - destruct (region_bounds r d (co_opened _ _ Hc)) as (_ & _ & _ & ? & _). unfold file_metadata in *. lia.
    - unfold execute_plan. by rewrite E. }
  split; [done|]. intros y Hy. exists inode'. split; [done|]. apply (restarts_ext r y _ _ Hf).
  apply (publication_durable r r' d (fp_before_images plan) _ _ (fp_total_blocks plan) (fp_filesystem_uuid plan)
    Hc Hpn v c jr_ready0 jr_clean0 Hplain e (execute_plan plan e).2.2); try done.
  change (ExecuteJournalTransaction _ _ _ _ _ _ e) with (execute_plan plan e).
  destruct (execute_plan plan e) as [? [? ?]]. cbn in *. by subst.
Qed.
End execution.

(** ** Plans that were answered *)
Lemma write_plan_publishes r d n inode offset data ts plan :
  writable_file r d n inode -> write_request offset data ts -> data <> [] ->
  answer d (PrepareFileWrite r n offset data ts) = Ok plan ->
  publishes r d n inode plan (written (file_bytes d inode) offset data) ts.
Proof.
  intros [Hc Hi Hreg Hgen] [Hb [H0 Hm] Ht] Hne Hplan.
  pose proof (write_publishes r d Hc n inode Hi Hreg Hgen offset data ts Hb Hne H0 Hm Ht) as Hw.
  destruct (_ <=? _); [|by rewrite Hplan in Hw]. destruct Hw as (plan' & E & Hpub). congruence.
Qed.

Lemma replace_answers r d n inode expected data ts :
  writable_file r d n inode -> write_request 0 data ts ->
  let answer := answer d (PrepareObjectReplace r n expected data ts) in
  if negb (generation inode =? expected) then answer = Err ESTALE
  else if replace_needs data <=? Z.of_nat (size (free_bits (block_allocator r)))
  then exists plan, answer = Ok plan /\ publishes r d n inode plan data ts
  else answer = Err ENOSPC.
Proof.
  intros [Hc Hi Hreg Hgen] [Hb [_ Hm] Ht]. cbv zeta. destruct (Z.eqb_spec (generation inode) expected) as [<-|Hne]; cbn [negb].
  - by apply replace_publishes.
  - destruct (read_facts r d (co_opened _ _ Hc) n inode Hi) as (Hn & _).
    unfold PrepareObjectReplace, PrepareFileMutation. change (is_replace _) with true. cbn [fq_data fq_offset negb andb fq_expected_generation].
    rewrite answer_if, (proj2 (Z.eqb_neq n 0)) by lia. rewrite answer_if.
    rewrite (proj2 (Z.ltb_ge _ _)), (proj2 (Z.ltb_ge _ _)) by lia. cbn [orb].
    rewrite (answer_bind_ok _ _ _ _ _ Hi), answer_if, Hreg. cbn [negb].
    by rewrite answer_if, (proj2 (Z.eqb_neq _ _) Hne).
Qed.

Lemma replace_plan_publishes r d n inode expected data ts plan :
  writable_file r d n inode -> write_request 0 data ts ->
  answer d (PrepareObjectReplace r n expected data ts) = Ok plan ->
  generation inode = expected /\ publishes r d n inode plan data ts.
Proof.
  intros Hw Hr Hplan. pose proof (replace_answers r d n inode expected data ts Hw Hr) as H. cbv zeta in H.
  destruct (Z.eqb_spec (generation inode) expected); cbn [negb] in H; [|congruence]. split; [done|].
  destruct (_ <=? _); [|congruence]. destruct H as (plan' & E & Hpub). congruence.
Qed.

(** * Claims *)
(** * Examples *)
Lemma writable1 : writable_file reader1 img1 2 file1.
Proof. constructor; [exact consistent1|exact inode1|reflexivity|reflexivity]. Qed.

Lemma write_request1 offset data : bytes_okb data = true -> 0 <= offset -> offset + Z.of_nat (length data) <= kMaxFileSize -> write_request offset data 7.
Proof. intros H1 H2 H3. constructor; [by apply bytes_okb_ok|done|word]. Qed.

Lemma room1 : journal_room reader1 img1 current0 kA (file_metadata reader1).
Proof. constructor; [exact ready1|reflexivity|vm_compute; discriminate|vm_compute; discriminate|reflexivity]. Qed.

(** A check of [map_Forall (fun _ b => is_ok (DecodeCommit b) = false)]. *)
Definition plainb (m : image) : bool := forallb (fun p => negb (is_ok (DecodeCommit p.2))) (map_to_list m).

Lemma plainb_ok m : plainb m = true -> map_Forall (fun _ b => is_ok (DecodeCommit b) = false) m.
Proof.
  unfold plainb. rewrite forallb_forall. intros H k b E. apply negb_true_iff, (H (k, b)). by apply list_elem_of_In, elem_of_map_to_list.
Qed.

Definition metadata_of (res : result errno FileMutationPlan) : image :=
  match res with Ok plan => fp_metadata_after_images plan | Err _ => ∅ end.

(** The write of the examples. *)
Definition write1 : result errno FileMutationPlan := answer img1 (PrepareFileWrite reader1 2 4095 [1; 2; 3] 7).

Lemma write1_reduced : write1 =
  answer img1 (let* m := write_blocks reader1 4099 (file_pointers img1 file1) 4095 4098 [1; 2; 3] [0; 1]
      (mkMutation (block_allocator reader1) (mkImages ∅ ∅ ∅) (file_pointers img1 file1) ∅) in
    finish_mutation reader1 2 file1 false (file_pointers img1 file1) (block_bitmap_ reader1) 7 4099 1 m).
Proof.
  unfold write1, PrepareFileWrite. rewrite answer_if.
  change (bool_decide ([1; 2; 3] = [])) with false. cbv iota.
  rewrite (prepare_prefix reader1 img1 consistent1 2 file1 inode1 eq_refl eq_refl (mkFileRequest kWriteRange 4095 [1; 2; 3] 7 0)); try done.
Qed.

Lemma written1 : exists plan, write1 = Ok plan /\ map_Forall (fun _ b => is_ok (DecodeCommit b) = false) (fp_metadata_after_images plan).
Proof.
  rewrite write1_reduced. match goal with |- exists plan, ?w = _ /\ _ =>
    assert (is_ok w && plainb (metadata_of w) = true) as H by (vm_compute; reflexivity); destruct w as [plan|]; [|done] end.
  exists plan. split; [done|by apply plainb_ok].
Qed.

(** * The guarantees *)
(** C12. Range writes. For a regular file of a consistent image [PrepareFileWrite]
    plans the write exactly if enough blocks are free for the blocks it touches
    and for a pointer block if it needs one, and answers ENOSPC otherwise. The
    planned transaction leads to a consistent image in which this file has the
    old bytes with the range overwritten (zeros in a gap), the next generation
    and the new times, and every other file is as it was. *)
Theorem file_write_plan r d n inode offset data ts :
  writable_file r d n inode -> write_request offset data ts -> data <> [] ->
  let answer := answer d (PrepareFileWrite r n offset data ts) in
  if write_needs inode offset data <=? Z.of_nat (size (free_bits (block_allocator r)))
  then exists plan, answer = Ok plan /\ publishes r d n inode plan (written (file_bytes d inode) offset data) ts
  else answer = Err ENOSPC.
Proof. intros [] [? [] ?] ?. by apply write_publishes. Qed.

Lemma file_write_plan_witness : exists plan, answer img1 (PrepareFileWrite reader1 2 4095 [1; 2; 3] 7) = Ok plan /\
  publishes reader1 img1 2 file1 plan (written (file_bytes img1 file1) 4095 [1; 2; 3]) 7.
Proof.
  pose proof (file_write_plan reader1 img1 2 file1 4095 [1; 2; 3] 7 writable1 ltac:(by apply write_request1) ltac:(discriminate)) as H.
  cbv zeta in H. assert ((write_needs file1 4095 [1; 2; 3] <=? Z.of_nat (size (free_bits (block_allocator reader1)))) = true) as E by (vm_compute; reflexivity).
  rewrite E in H. exact H.
Defined.

(** C13. Conditional replacement. [PrepareObjectReplace] refuses with ESTALE unless
    the file still has the expected generation; then it plans the replacement
    exactly if the blocks of the new contents (all fresh, for the old ones stay
    in place until the commit) are free, and answers ENOSPC otherwise. The
    planned transaction leads to a consistent image in which the file has
    exactly the new contents and the next generation, and every other file is
    as it was. *)
Theorem object_replace_plan r d n inode expected data ts :
  writable_file r d n inode -> write_request 0 data ts ->
  let answer := answer d (PrepareObjectReplace r n expected data ts) in
  if negb (generation inode =? expected) then answer = Err ESTALE
  else if replace_needs data <=? Z.of_nat (size (free_bits (block_allocator r)))
  then exists plan, answer = Ok plan /\ publishes r d n inode plan data ts
  else answer = Err ENOSPC.
Proof. apply replace_answers. Qed.

Lemma object_replace_plan_witness : exists plan, answer img1 (PrepareObjectReplace reader1 2 1 [1; 2; 3] 7) = Ok plan /\
  publishes reader1 img1 2 file1 plan [1; 2; 3] 7.
Proof.
  pose proof (object_replace_plan reader1 img1 2 file1 1 [1; 2; 3] 7 writable1 ltac:(by apply write_request1)) as H. cbv zeta in H.
  assert ((replace_needs [1; 2; 3] <=? Z.of_nat (size (free_bits (block_allocator reader1)))) = true) as E by (vm_compute; reflexivity).
  rewrite E in H. exact H.
Defined.

(** C14. Range writes are crash-atomic. Whatever the system calls answer while the
    plan is executed, wherever a crash cuts it off, and however often recovery
    is interrupted: the next start-up shows all files as before, or the file
    with the range overwritten and every other file as before. *)
Theorem file_write_crash_atomic r d n inode offset data ts v c plan e p y :
  writable_file r d n inode -> write_request offset data ts -> data <> [] -> journal_room r d v c (file_metadata r) ->
  answer d (PrepareFileWrite r n offset data ts) = Ok plan ->
  map_Forall (fun _ b => is_ok (DecodeCommit b) = false) (fp_metadata_after_images plan) ->
  disk e = d -> st_size e = image_size_ r -> trace e = [] ->
  p `prefix_of` trace (execute_plan plan e).1 -> crash_outcome r d p y ->
  (restarts_with r y (file_at r d) /\ EStage kCommit ∉ p) \/
  (happened r d n inode (written (file_bytes d inode) offset data) ts y /\ EStage kControlExposure ∈ p).
Proof.
  intros Hw Hr Hne Hroom Hplan Hplain. pose proof (write_plan_publishes r d n inode offset data ts plan Hw Hr Hne Hplan).
  apply (file_plan_atomic r d n inode plan _ ts v c); try done. apply Hw.
Qed.

Lemma file_write_crash_atomic_witness : exists plan, write1 = Ok plan /\
  let t := trace (execute_plan plan env1).1 in
  let y := durable (durability_of img1 t) in
  (restarts_with reader1 y (file_at reader1 img1) /\ EStage kCommit ∉ t) \/
  (happened reader1 img1 2 file1 (written (file_bytes img1 file1) 4095 [1; 2; 3]) 7 y /\ EStage kControlExposure ∈ t).
Proof.
  destruct written1 as (plan & E & Hp). exists plan. split; [exact E|]. cbv zeta.
  refine (file_write_crash_atomic reader1 img1 2 file1 4095 [1; 2; 3] 7 current0 kA plan env1 _ _ _ _ _ _ _ _ _ _ _ _ _).
  - exact writable1.
  - by apply write_request1.
  - discriminate.
  - exact room1.
  - exact E.
  - exact Hp.
  - reflexivity.
  - reflexivity.
  - reflexivity.
  - exact (reflexivity (R := prefix) _).
  - apply synced_outcome.
Defined.

(** Completed writes stay. On a clean image with room in the journal, a planned
    range write succeeds when the system calls do, and every crash after that,
    with any number of interrupted recoveries, restarts with the file
    overwritten and every other file as before. *)
Theorem file_write_durable r d n inode offset data ts v c plan y :
  writable_file r d n inode -> write_request offset data ts -> data <> [] -> journal_room r d v c (file_metadata r) ->
  answer d (PrepareFileWrite r n offset data ts) = Ok plan ->
  map_Forall (fun _ b => is_ok (DecodeCommit b) = false) (fp_metadata_after_images plan) ->
  let e := fresh_start (image_size_ r) d in
  (execute_plan plan e).2.1 = Ok tt /\
  (crash_outcome r d (trace (execute_plan plan e).1) y ->
   happened r d n inode (written (file_bytes d inode) offset data) ts y).
Proof.
  intros Hw Hr Hne Hroom Hplan Hplain. pose proof (write_plan_publishes r d n inode offset data ts plan Hw Hr Hne Hplan) as Hp.
  destruct (file_plan_completes r d n inode plan _ ts v c (wf_image _ _ _ _ Hw) Hroom Hp Hplain) as [H1 H2].
  split; [done|by apply H2].
Qed.

Lemma file_write_durable_witness : exists plan, write1 = Ok plan /\
  (execute_plan plan (fresh_start (image_size_ reader1) img1)).2.1 = Ok tt.
Proof.
  destruct written1 as (plan & E & Hp). exists plan. split; [exact E|].
  refine (proj1 (file_write_durable reader1 img1 2 file1 4095 [1; 2; 3] 7 current0 kA plan img1 _ _ _ _ _ _)).
  - exact writable1.
  - by apply write_request1.
  - discriminate.
  - exact room1.
  - exact E.
  - exact Hp.
Defined.
