(* ===== verification/NewObject.v ===== *)
(** Creating an object in the root directory (src/metadata/new_object_plan.h/.cpp):
    one plan that holds the data of the new file as ordered blocks and its inode,
    its directory entry, the bitmaps and the indirect blocks as metadata. The
    root directory grows by a block when no block of it has room. *)
From S2P Require Import Prelude Codec OndiskFormat DirectoryEntry Disk BitmapAllocator ImageReader ImageReaderProofs.
From S2P Require Import FileMutation.
Open Scope Z_scope.
Open Scope io_scope.

Definition IsValidRootObjectName (name : bytes) : bool :=
  negb (bool_decide (name = [])) && negb (bool_decide (name = [dot])) &&
  negb (bool_decide (name = [dot; dot])) &&
  (Z.of_nat (length name) <=? kMaxNameLength) &&
  negb (existsb (fun c => c =? slash) name) && negb (existsb (fun c => c =? 0) name).

Record NewObjectPlan := mkObjectPlan {
  np_inode_number : Z;
  np_object_size : Z;
  np_directory_block : Z;
  np_directory_grew : bool;
  np_data_blocks : list Z;
  np_file_indirect_block : Z;
  np_root_indirect_block : Z;
  np_total_blocks : Z;
  np_filesystem_uuid : bytes;
  np_before_images : image;
  np_ordered_data_after_images : image;
  np_metadata_after_images : image
}.

(** * Directory blocks *)
(** The [while] loop over the records of a block; [rest] is the block from the
    current offset on. The result is the changed block, nothing when no record
    has room, or the error text that makes the caller give up. Every record
    advances the offset, so [length rest] rounds are enough
    (see [insert_records_spec]). *)
Fixpoint insert_records (fuel : nat) (new_entry : DirectoryEntry) (rest : bytes)
    : result string (option bytes) :=
  match fuel with
  | O => Ok None
  | S fuel =>
    if (length rest =? 0)%nat then Ok None
    else match DecodeDirectoryEntry rest with
    | Err detail => Err detail
    | Ok current =>
      let rec_len := record_length current in
      let new_minimum := MinimumDirectoryRecordLength (Z.of_nat (length (name new_entry))) in
      let next :=
        match insert_records fuel new_entry (drop (Z.to_nat rec_len) rest) with
        | Ok (Some after) => Ok (Some (take (Z.to_nat rec_len) rest ++ after))
        | x => x
        end in
      if rec_len =? 0 then Ok None
      else if de_inode current =? 0 then
        if new_minimum <=? rec_len
        then match EncodeDirectoryEntry new_entry rec_len rest with
             | Ok after => Ok (Some after)
             | Err detail => Err detail
             end
        else next
      else
        let current_minimum := MinimumDirectoryRecordLength (Z.of_nat (length (name current))) in
        if new_minimum <=? wrap64 (rec_len - current_minimum)
        then match EncodeDirectoryEntry current current_minimum rest with
             | Err detail => Err detail
             | Ok rest =>
               let split := Z.to_nat current_minimum in
               match EncodeDirectoryEntry new_entry (rec_len - current_minimum) (drop split rest) with
               | Err detail => Err detail
               | Ok after => Ok (Some (take split rest ++ after))
               end
             end
        else next
    end
  end.

Definition TryInsertDirectoryEntry (new_entry : DirectoryEntry) (block : bytes)
    : result string (option bytes) :=
  insert_records (S (length block)) new_entry block.

Section image.
Context (r : ImageReader).
Abbreviation sb := (rd_superblock r).

(** The after-image of a metadata block, read on first use. *)
Definition MutableMetadataBlock (block_number : Z) (im : images) : io (images * bytes) :=
  match im_metadata im !! block_number with
  | Some block => io_ret (im, block)
  | None =>
    let* before := ReadBlock r block_number in
    io_ret (add_metadata block_number before before im, before)
  end.

(** Assignment through the pointer [MutableMetadataBlock] hands out. *)
Definition set_after (block_number : Z) (block : bytes) (im : images) : images :=
  mkImages (im_before im) (im_ordered im) (<[block_number := block]> (im_metadata im)).

Fixpoint AddBitmapAfterImages (region : Region) (before after : bytes) (locals : list Z) (im : images)
    : io images :=
  match locals with
  | [] => io_ret im
  | local :: rest =>
    let before_block := BitmapBlock before local in
    let after_block := BitmapBlock after local in
    if bool_decide (before_block = after_block) then AddBitmapAfterImages region before after rest im
    else
    let home := wrap32 (start_block region + local) in
    let* physical_before := ReadBlock r home in
    if negb (bool_decide (physical_before = before_block)) then io_fail ESTALE
    else AddBitmapAfterImages region before after rest (add_metadata home before_block after_block im)
  end.

(** The loop over the blocks of the root directory; the block is 0 when none had
    room. *)
Fixpoint insert_into_root (root : InodeRecord) (new_entry : DirectoryEntry) (logicals : list Z) (im : images)
    : io (images * Z) :=
  match logicals with
  | [] => io_ret (im, 0)
  | logical :: rest =>
    let* physical := MapLogicalBlock r root logical in
    let* directory_before := ReadBlock r physical in
    match TryInsertDirectoryEntry new_entry directory_before with
    | Ok (Some directory_after) =>
      io_ret (add_metadata physical directory_before directory_after im, physical)
    | Ok None => insert_into_root root new_entry rest im
    | Err _ => io_fail EUCLEAN
    end
  end.

(** [ReserveBlock] followed by [MutableMetadataBlock] and [fill(0)]. *)
Definition fresh_metadata_block (allocator : BitmapAllocator) (im : images)
    : io (BitmapAllocator * images * Z) :=
  let* (allocator, block) := io_of (ReserveBlock allocator) in
  let* (im, _) := MutableMetadataBlock block im in
  io_ret (allocator, set_after block zero_block im, block).

Definition with_mapping (inode : InodeRecord) (size : Z) (direct : list Z) (indirect : Z) : InodeRecord :=
  mkInode (inode_number inode) (mode inode) (uid inode) (gid inode) (link_count inode) size
    (atime_ns inode) (mtime_ns inode) (ctime_ns inode) (flags inode) (generation inode) direct indirect.

(** A new block at the end of the root directory: the changed root inode, the
    directory block and the new indirect block, 0 if there is none. *)
Definition grow_root (root : InodeRecord) (new_entry : DirectoryEntry) (root_block_count : Z)
    (allocator : BitmapAllocator) (im : images)
    : io (BitmapAllocator * images * InodeRecord * Z * Z) :=
  if kMaxFileSize / kBlockSize <=? root_block_count then io_fail ENOSPC
  else
  let* (allocator, im, directory_block) := fresh_metadata_block allocator im in
  match EncodeDirectoryEntry new_entry kBlockSize zero_block with
  | Err _ => io_fail EINVAL
  | Ok directory_after =>
    let im := set_after directory_block directory_after im in
    if root_block_count <? kDirectBlockCount
    then
      let direct := <[Z.to_nat root_block_count := directory_block]> (direct_blocks root) in
      io_ret (allocator, im,
              with_mapping root (i_size root + kBlockSize) direct (indirect_block root),
              directory_block, 0)
    else
      let* (allocator, im, root_indirect) := fresh_metadata_block allocator im in
      let* indirect :=
        (if indirect_block root =? 0 then io_ret zero_block else ReadBlock r (indirect_block root)) in
      let index := root_block_count - kDirectBlockCount in
      let indirect := PutLe32 (Z.to_nat index * 4) directory_block indirect in
      io_ret (allocator, set_after root_indirect indirect im,
              with_mapping root (i_size root + kBlockSize) (direct_blocks root) root_indirect,
              directory_block, root_indirect)
  end.

(** The loop over the data of the object. *)
Fixpoint place_data (data : bytes) (logicals : list Z) (allocator : BitmapAllocator) (im : images)
    (data_blocks : list Z) : io (BitmapAllocator * images * list Z) :=
  match logicals with
  | [] => io_ret (allocator, im, data_blocks)
  | logical :: rest =>
    let* (allocator, physical) := io_of (ReserveBlock allocator) in
    let* before := ReadBlock r physical in
    let source_offset := logical * kBlockSize in
    let count := Z.min kBlockSize (Z.of_nat (length data) - source_offset) in
    let after := splice 0 (slice (Z.to_nat source_offset) (Z.to_nat count) data) zero_block in
    let im := mkImages (<[physical := before]> (im_before im)) (<[physical := after]> (im_ordered im))
                       (im_metadata im) in
    place_data data rest allocator im (data_blocks ++ [physical])
  end.

(** An encoded inode goes to its slot of the table. *)
Definition write_inode (number : Z) (inode : InodeRecord) (im : images) : io images :=
  let table := InodeTableBlock sb number in
  let* (im, block) := MutableMetadataBlock table im in
  match EncodeInode inode with
  | Err _ => io_fail EUCLEAN
  | Ok encoded => io_ret (set_after table (put_inode number encoded block) im)
  end.

Definition new_file (number permissions user group timestamp_ns size : Z) (direct : list Z) (indirect : Z)
    : InodeRecord :=
  mkInode number (Z.lor S_IFREG (Z.land permissions 511)) user group 1 size
    timestamp_ns timestamp_ns timestamp_ns 0 1 direct indirect.

Definition touched (inode : InodeRecord) (timestamp_ns : Z) : InodeRecord :=
  mkInode (inode_number inode) (mode inode) (uid inode) (gid inode) (link_count inode) (i_size inode)
    (atime_ns inode) timestamp_ns timestamp_ns (flags inode) (generation inode)
    (direct_blocks inode) (indirect_block inode).

(** The part after the directory entry has its place: the data, the inodes and
    the bitmaps. *)
Definition publish_object (data : bytes) (permissions user group timestamp_ns : Z)
    (number : Z) (inode_bitmap block_bitmap : bytes) (inode_allocator block_allocator : BitmapAllocator)
    (old_root_indirect : Z) (root : InodeRecord) (directory_block : Z) (directory_grew : bool)
    (root_indirect : Z) (im : images) : io NewObjectPlan :=
  let size := Z.of_nat (length data) in
  let file_block_count := RequiredBlocks size in
  let* (block_allocator, im, data_blocks) :=
    place_data data (counting file_block_count) block_allocator im [] in
  let* (block_allocator, im, file_indirect) :=
    (if kDirectBlockCount <? file_block_count
     then let* (block_allocator, im, file_indirect) := fresh_metadata_block block_allocator im in
          io_ret (block_allocator,
                  set_after file_indirect (indirect_image (drop 12 data_blocks) zero_block) im, file_indirect)
     else io_ret (block_allocator, im, 0)) in
  let* block_allocator :=
    (if negb (root_indirect =? 0) && negb (old_root_indirect =? 0)
     then io_of (release_blocks [old_root_indirect] block_allocator)
     else io_ret block_allocator) in
  let file := new_file number permissions user group timestamp_ns size
                (resize 12 0 (take 12 data_blocks)) file_indirect in
  let* im := write_inode (root_inode sb) (touched root timestamp_ns) im in
  let* im := write_inode number file im in
  let* im := AddBitmapAfterImages (OndiskFormat.inode_bitmap sb) inode_bitmap (Snapshot inode_allocator)
               (counting (block_count (OndiskFormat.inode_bitmap sb))) im in
  let* im := AddBitmapAfterImages (OndiskFormat.block_bitmap sb) block_bitmap (Snapshot block_allocator)
               (counting (block_count (OndiskFormat.block_bitmap sb))) im in
  io_ret (mkObjectPlan number size directory_block directory_grew data_blocks file_indirect root_indirect
            (total_blocks sb) (sb_filesystem_uuid sb) (im_before im) (im_ordered im) (im_metadata im)).

Definition PrepareNewRootObject (object_name data : bytes) (permissions user group timestamp_ns : Z)
    : io NewObjectPlan :=
  if negb (IsValidRootObjectName object_name) then io_fail EINVAL
  else if kMaxFileSize <? Z.of_nat (length data) then io_fail EFBIG
  else
  let* root := ReadInode r (root_inode sb) in
  if negb (S_ISDIR (mode root)) then io_fail EUCLEAN
  else
  let* existing_entries := ListDirectory r (root_inode sb) in
  if existsb (fun entry => bool_decide (name entry = object_name)) existing_entries then io_fail EEXIST
  else
  let* inode_bitmap := LoadRegion r (OndiskFormat.inode_bitmap sb) in
  let* block_bitmap := LoadRegion r (OndiskFormat.block_bitmap sb) in
  let inode_allocator := mkAllocator inode_bitmap (total_inodes sb) 0 in
  let block_allocator := mkAllocator block_bitmap (total_blocks sb) (start_block (OndiskFormat.data sb)) in
  match Validate inode_allocator, Validate block_allocator with
  | Ok _, Ok _ =>
    let* (inode_allocator, bit) := io_of (ReserveBlock inode_allocator) in
    let number := wrap32 (bit + 1) in
    let new_entry := mkDirectoryEntry number kRegular object_name 0 in
    let root_block_count := wrap32 (i_size root / kBlockSize) in
    let* (im, directory_block) :=
      insert_into_root root new_entry (counting root_block_count) (mkImages ∅ ∅ ∅) in
    if directory_block =? 0 then
      let* (block_allocator, im, root', directory_block, root_indirect) :=
        grow_root root new_entry root_block_count block_allocator im in
      publish_object data permissions user group timestamp_ns number inode_bitmap block_bitmap
        inode_allocator block_allocator (indirect_block root) root' directory_block true root_indirect im
    else
      publish_object data permissions user group timestamp_ns number inode_bitmap block_bitmap
        inode_allocator block_allocator (indirect_block root) root directory_block false 0 im
  | _, _ => io_fail EUCLEAN
  end.
End image.

(** Inserting a record into a directory block (src/metadata/new_object_plan.cpp,
    [TryInsertDirectoryEntry]): on a block that is tiled by records the loop
    never fails; when it finds room, the block is tiled again and lists the old
    entries in their order with the new one among them. *)
(** What an entry says, whatever room its record has. *)
Definition entry_key (e : DirectoryEntry) : Z * DirectoryFileType * bytes := (de_inode e, file_type e, name e).

(** The active entries of a tiled block. *)
Definition block_keys (es : list DirectoryEntry) : list (Z * DirectoryFileType * bytes) :=
  entry_key <$> filter active_entry es.

(** The keys [ks] with [k] put in at some place. *)
Inductive inserted {A} (k : A) : list A -> list A -> Prop :=
| ins_here ks : inserted k ks (k :: ks)
| ins_later x ks ks' : inserted k ks ks' -> inserted k (x :: ks) (x :: ks').

Lemma inserted_perm {A} (k : A) ks ks' : inserted k ks ks' -> ks' ≡ₚ k :: ks.
Proof. induction 1 as [|x ks ks' _ IH]; [done|]. rewrite IH. apply Permutation_swap. Qed.

Lemma inserted_app {A} (k : A) ks ks' l l' : inserted k ks ks' -> inserted k (l ++ ks ++ l') (l ++ ks' ++ l').
Proof. intros H. induction l as [|x l IH]; [|by constructor]. cbn. induction H; cbn; by constructor. Qed.

Lemma block_keys_cons e es : block_keys (e :: es) = (if decide (active_entry e) then [entry_key e] else []) ++ block_keys es.
Proof.
  unfold block_keys. destruct (decide (active_entry e)).
  - by rewrite filter_cons_True.
  - by rewrite filter_cons_False.
Qed.

(** ** Decoding looks only at its record *)
Lemma slice_take (n k m : nat) (b : bytes) : (n + k <= m)%nat -> slice n k (take m b) = slice n k b.
Proof. intros H. unfold slice. rewrite skipn_firstn_comm, firstn_firstn. f_equal. lia. Qed.

Lemma nth_take (n m : nat) (b : bytes) : (n < m)%nat -> nth n (take m b) 0 = nth n b 0.
Proof. intros H. rewrite nth_firstn. by destruct (Nat.ltb_spec n m); [|lia]. Qed.

Lemma decode_prefix b b' e : bytes_ok b ->
  DecodeDirectoryEntry b = Ok e -> (Z.to_nat (record_length e) <= length b')%nat ->
  take (Z.to_nat (record_length e)) b' = take (Z.to_nat (record_length e)) b -> DecodeDirectoryEntry b' = Ok e.
Proof.
  intros Hok E Hl Ht. pose proof (decoded_length b e E) as Hb. pose proof (nth_u8 b Hok 6) as H6.
  set (n := Z.to_nat (record_length e)) in *.
  assert (forall o k, (o + k <= n)%nat -> slice o k b' = slice o k b) as Hs.
  { intros o k Hk. rewrite <- (slice_take o k n b'), <- (slice_take o k n b) by done. by rewrite Ht. }
  assert (forall i, (i < n)%nat -> nth i b' 0 = nth i b 0) as Hn.
  { intros i Hi. rewrite <- (nth_take i n b'), <- (nth_take i n b) by done. by rewrite Ht. }
  unfold DecodeDirectoryEntry, GetLe16, GetLe32, BytesAreZero, kDirectoryEntryHeaderSize in *.
  rewrite (Hs 4%nat 2%nat), (Hs 0%nat 4%nat), !Hn by lia. cbv zeta in *.
  set (rl := get_le 2 (slice 4 2 b)) in *. set (nl := nth 6 b 0) in *.
  rewrite (proj2 (Z.ltb_ge (Z.of_nat (length b')) 8)) by lia.
  rewrite (proj2 (Z.ltb_ge (Z.of_nat (length b)) 8)) in E by lia.
  destruct ((rl <? 8) || _ || _ || _ || _) eqn:Eg in E; [done|]. bool_to_prop.
  assert (rl = record_length e) as Er by (guards E; ok_inv E; done).
  rewrite (proj2 (Z.ltb_ge rl 8)), (proj2 (Z.ltb_ge (Z.of_nat (length b')) rl)), (proj2 (Z.ltb_ge kBlockSize rl)),
    (proj2 (Z.ltb_ge (rl - 8) nl)) by lia.
  match goal with H : rl mod 4 = 0 |- _ => rewrite H end. cbn [orb negb Z.eqb].
  rewrite (Hs 8%nat (Z.to_nat (rl - 8))), (Hs 8%nat (Z.to_nat nl)), (Hs (Z.to_nat (8 + nl)) (Z.to_nat (rl - (8 + nl)))) by word.
  exact E.
Qed.

(** ** One record *)
Lemma decode_ok b e : bytes_ok b -> DecodeDirectoryEntry b = Ok e ->
  record_length e mod 4 = 0 /\ record_length e <= 4096 /\ u32 (de_inode e) /\ bytes_ok (name e) /\
  (active_entry e -> 8 + Z.of_nat (length (name e)) <= record_length e).
Proof.
  intros Hok E. pose proof (nth_u8 b Hok 6) as H6. unfold DecodeDirectoryEntry, kBlockSize, kDirectoryEntryHeaderSize, active_entry in *.
  guards E; ok_inv E; cbn; conj_split; try done; try word; try (by apply Forall_nil); try by apply bytes_ok_slice.
  - by apply GetLe32_u32.
  - intros _. rewrite length_slice by word. word.
Qed.

Lemma minimum_bounds n : 0 <= n -> MinimumDirectoryRecordLength n mod 4 = 0 /\ 8 + n <= MinimumDirectoryRecordLength n.
Proof.
  intros Hn. assert (MinimumDirectoryRecordLength n mod 4 = 0) as E.
  { unfold MinimumDirectoryRecordLength, kDirectoryEntryHeaderSize. cbv zeta. rewrite round4. apply Z.mod_mul. lia. }
  split; [done|]. by apply (minimum_spec n _ E).
Qed.

Lemma encode_suffix v rl out b : EncodeDirectoryEntry v rl out = Ok b -> bytes_ok out -> bytes_ok (name v) -> u32 (de_inode v) ->
  length b = length out /\ bytes_ok b /\ drop (Z.to_nat rl) b = drop (Z.to_nat rl) out /\
  DecodeDirectoryEntry b = Ok (mkDirectoryEntry (de_inode v) (file_type v) (name v) rl).
Proof.
  intros [Hacc ->]%encode_directory_entry Hout Hn Hu.
  assert (length (puts (dir_fields v rl) (cleared rl out)) = length out) as Hl
    by (apply length_puts; [by apply dir_layout|apply dir_sized|by apply (length_base v)]).
  split; [done|]. split; [|split; [|by apply decode_record]].
  - apply bytes_ok_puts; [|by apply bytes_ok_splice; [apply bytes_ok_zeros|]].
    assert (bytes_ok [Z.of_nat (length (name v)) mod 256]) as H6
      by (constructor; [unfold u8; pose proof (Z.mod_pos_bound (Z.of_nat (length (name v))) 256); lia|constructor]).
    assert (bytes_ok [byte_of_file_type (file_type v)]) as H7.
    { destruct Hacc as (_ & Hk & _). constructor; [|constructor]. destruct (file_type v); try done; cbn; word. }
    unfold dir_fields. do 4 (apply Forall_cons_2; [cbn [f_val]; (apply le_bytes_ok || assumption)|]).
    apply Forall_cons_2; [done|constructor].
  - rewrite !drop_slice, Hl. by apply (dir_tail v).
Qed.

(** What is left of a record when its entry is kept. *)
Definition spare (e : DirectoryEntry) : Z :=
  if de_inode e =? 0 then record_length e
  else record_length e - MinimumDirectoryRecordLength (Z.of_nat (length (name e))).

Section insert.
Context (new_entry : DirectoryEntry) (Hi : de_inode new_entry <> 0) (Hu : u32 (de_inode new_entry)).
Context (Ht : IsKnownDirectoryFileType (file_type new_entry) = true).
Context (Hv : IsValidName (name new_entry) = true) (Hb : bytes_ok (name new_entry)).
Abbreviation need := (MinimumDirectoryRecordLength (Z.of_nat (length (name new_entry)))).

Lemma encode_fits v rl out : active_entry v -> IsKnownDirectoryFileType (file_type v) = true -> IsValidName (name v) = true ->
  MinimumDirectoryRecordLength (Z.of_nat (length (name v))) <= rl -> rl <= Z.of_nat (length out) -> rl <= 4096 -> rl mod 4 = 0 ->
  exists b, EncodeDirectoryEntry v rl out = Ok b.
Proof. intros. eexists. apply encode_directory_entry. split; [|reflexivity]. done. Qed.

(** The block after the insertion. *)
Definition insertion (rest : bytes) (es : list DirectoryEntry) (after : bytes) : Prop :=
  length after = length rest /\ bytes_ok after /\
  exists es', record_tiling after es' /\ inserted (entry_key new_entry) (block_keys es) (block_keys es').

Lemma insertion_free rest e es after : bytes_ok rest -> DecodeDirectoryEntry rest = Ok e -> ~ active_entry e ->
  record_tiling (drop (Z.to_nat (record_length e)) rest) es ->
  EncodeDirectoryEntry new_entry (record_length e) rest = Ok after -> insertion rest (e :: es) after.
Proof.
  intros Hr Hd Hina Htl Henc. destruct (encode_suffix _ _ _ _ Henc Hr Hb Hu) as (H1 & H2 & H3 & H4).
  pose proof (decoded_length _ _ Hd). split; [done|]. split; [done|]. eexists. split.
  - apply tile_cons; [|exact H4|cbn [record_length]; rewrite H3; exact Htl]. intros ->. cbn in H1. lia.
  - rewrite !block_keys_cons. rewrite decide_False by done. rewrite decide_True by done. apply ins_here.
Qed.

Lemma insertion_later rest e es after : bytes_ok rest -> DecodeDirectoryEntry rest = Ok e ->
  insertion (drop (Z.to_nat (record_length e)) rest) es after ->
  insertion rest (e :: es) (take (Z.to_nat (record_length e)) rest ++ after).
Proof.
  intros Hr Hd (H1 & H2 & es' & H3 & H4). pose proof (decoded_length _ _ Hd) as Hl. rewrite length_drop in H1.
  assert (length (take (Z.to_nat (record_length e)) rest) = Z.to_nat (record_length e)) as Htk by (rewrite length_take; lia).
  split; [rewrite length_app; lia|]. split.
  { apply Forall_app. split; [by apply Forall_take|done]. }
  exists (e :: es'). split.
  - apply tile_cons.
    + intros E. apply (f_equal length) in E. rewrite length_app in E. cbn in E. lia.
    + apply (decode_prefix rest); [done|done|rewrite length_app; lia|]. by rewrite take_app_length' by done.
    + by rewrite drop_app_length' by done.
  - rewrite !block_keys_cons. rewrite <- (app_nil_r (block_keys es)), <- (app_nil_r (block_keys es')).
    by apply inserted_app.
Qed.

Lemma insertion_split rest e es rest1 after : bytes_ok rest -> DecodeDirectoryEntry rest = Ok e -> active_entry e ->
  let cmin := MinimumDirectoryRecordLength (Z.of_nat (length (name e))) in
  need <= record_length e - cmin -> record_tiling (drop (Z.to_nat (record_length e)) rest) es ->
  EncodeDirectoryEntry e cmin rest = Ok rest1 ->
  EncodeDirectoryEntry new_entry (record_length e - cmin) (drop (Z.to_nat cmin) rest1) = Ok after ->
  insertion rest (e :: es) (take (Z.to_nat cmin) rest1 ++ after).
Proof.
  intros Hr Hd Hact cmin Hroom Htl E1 E2. pose proof (decoded_length _ _ Hd) as Hl.
  destruct (decode_ok _ _ Hr Hd) as (D1 & D2 & D3 & D4 & D5). destruct (minimum_bounds (Z.of_nat (length (name e))) ltac:(lia)) as [_ M1].
  destruct (minimum_bounds (Z.of_nat (length (name new_entry))) ltac:(lia)) as [_ M2]. fold cmin in M1.
  destruct (encode_suffix _ _ _ _ E1 Hr D4 D3) as (A1 & A2 & A3 & A4).
  assert (bytes_ok (drop (Z.to_nat cmin) rest1)) as Hdr by (by apply Forall_drop).
  destruct (encode_suffix _ _ _ _ E2 Hdr Hb Hu) as (B1 & B2 & B3 & B4). rewrite length_drop in B1.
  assert (length (take (Z.to_nat cmin) rest1) = Z.to_nat cmin) as Htk by (rewrite length_take; lia).
  split; [rewrite length_app; lia|]. split; [apply Forall_app; split; [by apply Forall_take|done]|].
  exists (mkDirectoryEntry (de_inode e) (file_type e) (name e) cmin ::
          mkDirectoryEntry (de_inode new_entry) (file_type new_entry) (name new_entry) (record_length e - cmin) :: es).
  split.
  - apply tile_cons.
    + intros E. apply (f_equal length) in E. rewrite length_app in E. cbn in E. lia.
    + apply (decode_prefix rest1); [done|done|cbn; rewrite length_app; lia|]. cbn [record_length]. by rewrite take_app_length' by done.
    + cbn [record_length]. rewrite drop_app_length' by done. apply tile_cons; [|exact B4|].
      * intros ->. cbn in B1. lia.
      * cbn [record_length]. rewrite B3, A3, drop_drop.
        replace (Z.to_nat cmin + Z.to_nat (record_length e - cmin))%nat with (Z.to_nat (record_length e)) by lia. exact Htl.
  - rewrite !block_keys_cons. rewrite !decide_True by done. apply ins_later, ins_here.
Qed.

Lemma insert_records_spec fuel : forall rest es, (length rest < fuel)%nat -> bytes_ok rest -> record_tiling rest es ->
  match insert_records fuel new_entry rest with
  | Err _ => False
  | Ok None => Forall (fun e => spare e < need) es
  | Ok (Some after) => Exists (fun e => need <= spare e) es /\ insertion rest es after
  end.
Proof.
  induction fuel as [|fuel IH]; intros rest es Hf Hr Htl; [lia|]. cbn [insert_records].
  destruct (Nat.eqb_spec (length rest) 0) as [H0|Hne].
  { apply length_zero_iff_nil in H0 as ->. apply tiling_nil in Htl as ->. constructor. }
  destruct Htl as [|rest e es Hnn Hd Htl]; [done|]. rewrite Hd. pose proof (decoded_length _ _ Hd) as Hl.
  destruct (decode_ok _ _ Hr Hd) as (D1 & D2 & D3 & D4 & D5). cbv zeta.
  rewrite (proj2 (Z.eqb_neq (record_length e) 0)) by lia.
  pose proof (minimum_bounds (Z.of_nat (length (name new_entry))) ltac:(lia)) as [M1 M2].
  assert (spare e < need ->
    match match insert_records fuel new_entry (drop (Z.to_nat (record_length e)) rest) with
      | Ok (Some after) => Ok (Some (take (Z.to_nat (record_length e)) rest ++ after)) | x => x end with
    | Err _ => False | Ok None => Forall (fun e => spare e < need) (e :: es) | Ok (Some after) => Exists (fun e => need <= spare e) (e :: es) /\ insertion rest (e :: es) after end) as Hnext.
  { intros Hsp. specialize (IH (drop (Z.to_nat (record_length e)) rest) es). rewrite length_drop in IH.
    specialize (IH ltac:(lia) ltac:(by apply Forall_drop) Htl).
    destruct (insert_records fuel new_entry _) as [[after|]|]; [|by constructor|done].
    destruct IH as [Hex Hins]. split; [by right|]. by apply insertion_later. }
  unfold spare in Hnext at 1. destruct (Z.eqb_spec (de_inode e) 0) as [Hz|Hz].
  - destruct (Z.leb_spec need (record_length e)); [|by apply Hnext].
    destruct (encode_fits new_entry (record_length e) rest) as [b Eb]; [done..|lia|lia|done|]. rewrite Eb.
    split; [left; unfold spare; by rewrite (proj2 (Z.eqb_eq _ _) Hz)|].
    apply insertion_free; try done. unfold active_entry. tauto.
  - destruct (minimum_bounds (Z.of_nat (length (name e))) ltac:(lia)) as [C1 C2].
    set (cmin := MinimumDirectoryRecordLength (Z.of_nat (length (name e)))) in *.
    destruct (decoded_active _ _ Hd Hz) as [Hvn Hkn].
    assert (cmin <= record_length e) as Hcm by (apply minimum_spec; [done|by apply D5]).
    rewrite wrap64_small by word. destruct (Z.leb_spec need (record_length e - cmin)); [|by apply Hnext].
    destruct (encode_fits e cmin rest) as [rest1 E1]; [done|done|done|lia|lia|lia|done|]. rewrite E1.
    destruct (encode_suffix _ _ _ _ E1 Hr D4 D3) as (A1 & A2 & A3 & A4).
    destruct (encode_fits new_entry (record_length e - cmin) (drop (Z.to_nat cmin) rest1)) as [b Eb];
      [done|done|done|lia|rewrite length_drop; lia|lia| |].
    { rewrite Zminus_mod, D1, C1. done. }
    rewrite Eb. split; [left; unfold spare; by rewrite (proj2 (Z.eqb_neq _ _) Hz)|]. by apply (insertion_split rest e es rest1 b).
Qed.
End insert.
