(* ===== verification/ObjectPublish.v ===== *)
(** Publishing a directory change and a new file together: the image is taken
    there in two steps, first the directory with its blocks, then the file, and
    each step republishes one inode. *)
From S2P Require Import Prelude Codec OndiskFormat OndiskFormatProofs OndiskJournal Disk JournalStore JournalImage.
From S2P Require Import JournalStates BitmapAllocator ImageReader ImageReaderProofs ReaderTheorems LedgerStore.
From S2P Require Import FileMutation ConsistentImage PlanProofs FileMutationProofs FileMutationPublish.
Open Scope Z_scope.

(** * Inodes with a known mapping *)
Definition mapped_blocks (inode : InodeRecord) (nm : list Z) : list Z :=
  nm ++ (if 12 <? required_blocks inode then [indirect_block inode] else []).

(** The inode names [nm] in logical order, and its indirect block. *)
Record maps (d : image) (inode : InodeRecord) (nm : list Z) : Prop := {
  mp_size : 0 <= i_size inode <= kMaxFileSize;
  mp_mode : IsKnownMode (mode inode) = true;
  mp_whole : S_ISDIR (mode inode) = true -> i_size inode mod kBlockSize = 0;
  mp_direct : length (direct_blocks inode) = 12%nat;
  mp_length : Z.of_nat (length nm) = required_blocks inode;
  mp_pointer : forall l, 0 <= l -> pointer d inode l = nth (Z.to_nat l) nm 0;
  mp_none : required_blocks inode <= 12 -> indirect_block inode = 0
}.

Section mapped.
Context (r : ImageReader) (d : image) (inode : InodeRecord) (nm : list Z) (Hm : maps d inode nm).

Lemma mapped_pointers : file_pointers d inode = nm.
Proof.
  unfold file_pointers. rewrite <- (mp_length _ _ _ Hm). rewrite <- (counting_nth nm) at 2. apply map_ext_in.
  intros l Hl%list_elem_of_In%elem_counting. apply (mp_pointer _ _ _ Hm). lia.
Qed.

Context (Hdata : 0 < start_block (data (rd_superblock r))).
Context (Hblocks : forall b, b ∈ mapped_blocks inode nm -> data_block r b).

Lemma mapped_indirect : 12 < required_blocks inode -> indirect_block inode <> 0 /\ data_block r (indirect_block inode).
Proof.
  intros H. assert (data_block r (indirect_block inode)) as Hd.
  { apply Hblocks, elem_of_app. right. rewrite (proj2 (Z.ltb_lt _ _) H). by left. }
  split; [|done]. destruct Hd as [Hr _]. lia.
Qed.

Lemma mapped_owned : owned d inode = mapped_blocks inode nm.
Proof.
  unfold owned, mapped_blocks. rewrite mapped_pointers. f_equal.
  destruct (Z.ltb_spec 12 (required_blocks inode)) as [H|H].
  - by rewrite (proj2 (Z.eqb_neq _ _) (proj1 (mapped_indirect H))).
  - by rewrite (mp_none _ _ _ Hm H).
Qed.

Lemma mapped_valid : inode_valid r d inode.
Proof.
  pose proof (mp_length _ _ _ Hm) as Hlen. constructor; try apply Hm.
  - intros l Hl. rewrite (mp_pointer _ _ _ Hm) by lia.
    assert (data_block r (nth (Z.to_nat l) nm 0)) as Hd.
    { apply Hblocks, elem_of_app. left. apply list_elem_of_In, nth_In. lia. }
    split; [|done]. destruct Hd as [Hr _]. lia.
  - intros l Hl. rewrite (mp_pointer _ _ _ Hm) by lia. apply nth_overflow. lia.
  - change kDirectBlockCount with 12. destruct (Z.leb_spec (required_blocks inode) 12) as [H|H].
    + by apply (mp_none _ _ _ Hm).
    + by apply mapped_indirect.
Qed.
End mapped.

(** A file whose pointers were all written by its planner. *)
Lemma fresh_maps d inode nm :
  0 <= i_size inode <= kMaxFileSize -> S_ISREG (mode inode) = true -> IsKnownMode (mode inode) = true ->
  direct_blocks inode = resize 12 0 (take 12 nm) -> Z.of_nat (length nm) = required_blocks inode -> Forall u32 nm ->
  (12 < required_blocks inode -> block_at d (indirect_block inode) = indirect_image (drop 12 nm) zero_block) ->
  (required_blocks inode <= 12 -> indirect_block inode = 0) -> maps d inode nm.
Proof.
  intros Hs Hr Hk Hd Hl Hu Hi H0. assert (length (direct_blocks inode) = 12%nat) as H12 by (rewrite Hd; apply length_resize).
  destruct (required_spec inode Hs) as [_ Hb]. constructor; try done.
  - intros Hdir. unfold S_ISREG, S_ISDIR in *. apply Z.eqb_eq in Hr, Hdir. rewrite Hr in Hdir. done.
  - intros l Hl0. destruct (Z.lt_ge_cases l 12).
    + rewrite (pointer_direct d inode l H12) by lia. rewrite Hd, nth_resize by lia.
      rewrite nth_firstn. by destruct (Nat.ltb_spec (Z.to_nat l) 12); [|lia].
    + rewrite (pointer_indirect d inode l H12) by lia.
      destruct (Z.leb_spec (required_blocks inode) 12); [by rewrite nth_overflow by lia|]. rewrite Hi by done.
      destruct (Z.lt_ge_cases l 1036).
      * rewrite indirect_words; [|by apply Forall_drop|rewrite length_drop; lia|lia]. rewrite nth_skipn. f_equal. lia.
      * rewrite nth_overflow by (rewrite length_get_words; lia). by rewrite nth_overflow by lia.
Qed.

(** * Writing an inode into its slot *)
Lemma table_range r d (Ho : opened r d) k : let sb := rd_superblock r in 1 <= k <= total_inodes sb ->
  start_block (inode_table sb) <= InodeTableBlock sb k < js sb /\ 0 <= InodeTableBlock sb k < total_blocks sb.
Proof.
  intros sb Hk. destruct (inode_position sb (opened_layout _ _ Ho) k Hk) as (_ & _ & Hp). destruct (region_bounds r d Ho) as (L & _ & H1 & H2 & H3 & H4).
  pose proof (lay_it _ L). pose proof (lay_bb _ L). pose proof (lay_js _ L). pose proof (geo_data _ (lay_geo _ L)).
  pose proof (geo_count _ (lay_geo _ L)). subst sb. lia.
Qed.

Section slots.
Context (r : ImageReader) (d d' : image) (Ho : opened r d) (n : Z) (encoded : bytes).
Abbreviation sb := (rd_superblock r).
Context (Hn : 1 <= n <= total_inodes sb) (Henc : length encoded = InodeLen).
Context (Htable : d' !! InodeTableBlock sb n = Some (put_inode n encoded (block_at d (InodeTableBlock sb n)))).
Context (Hother : forall k, 1 <= k <= total_inodes sb -> InodeTableBlock sb k <> InodeTableBlock sb n ->
  d' !! InodeTableBlock sb k = d !! InodeTableBlock sb k).

Let Hlay := opened_layout _ _ Ho.

Lemma slot_written : slot sb d' n = encoded.
Proof.
  unfold slot, block_at. rewrite Htable. change (default [] (Some ?x)) with x. unfold put_inode.
  apply slice_splice_same; [done|]. rewrite (block_at_length r d (op_view _ _ Ho)) by (by apply (table_range r d Ho)). apply offset_in_block.
Qed.

Lemma slot_other k : 1 <= k <= total_inodes sb -> k <> n -> slot sb d' k = slot sb d k.
Proof.
  intros Hk Hne. unfold slot. destruct (decide (InodeTableBlock sb k = InodeTableBlock sb n)) as [E|E].
  - rewrite E. unfold block_at at 1. rewrite Htable. change (default [] (Some ?x)) with x. unfold put_inode.
    apply slice_splice_ne; rewrite Henc.
    + rewrite (block_at_length r d (op_view _ _ Ho)) by (by apply (table_range r d Ho)). apply offset_in_block.
    + destruct (slots_apart sb Hlay k n Hk Hn Hne E); lia.
  - unfold block_at. by rewrite Hother.
Qed.

Lemma table_wf : bytes_ok encoded -> block_wf (put_inode n encoded (block_at d (InodeTableBlock sb n))).
Proof.
  intros Hb. destruct (vo_blocks _ _ (op_view _ _ Ho) (InodeTableBlock sb n)) as (x & Ex & Hl & Hx); [by apply (table_range r d Ho)|].
  unfold put_inode, block_at. rewrite Ex. change (default [] (Some x)) with x.
  split; [rewrite length_splice; [done|]; rewrite Henc, Hl; apply offset_in_block|by apply bytes_ok_splice].
Qed.
End slots.

(** * The two steps *)
Section object.
Context (r : ImageReader) (d : image) (Hc : consistent r d).
Abbreviation sb := (rd_superblock r).
Abbreviation rt := (root_inode sb).
Abbreviation bstart := (start_block (block_bitmap sb)).
Abbreviation bcount := (block_count (block_bitmap sb)).
Abbreviation istart := (start_block (inode_bitmap sb)).
Abbreviation icount := (block_count (inode_bitmap sb)).

(** The directory: its new inode, the blocks [droot] it rewrites, the blocks [F1]
    it takes and the blocks [rel] it gives back. *)
Context (root root' : InodeRecord) (enc1 : bytes) (droot : image) (F1 : list Z) (rel : gset Z) (nm1 : list Z).
Context (a1 a1r : BitmapAllocator).
Context (Hroot : answer d (ReadInode r rt) = Ok root) (Hdir : S_ISDIR (mode root') = true).
Context (Henc1 : EncodeInode root' = Ok enc1) (Hty1 : inode_typed root') (Hnum1 : inode_number root' = rt).
Context (T1 : takes (block_allocator r) F1 a1) (G1 : gives a1 rel a1r) (Hrel : forall b, b ∈ rel -> b ∈ owned d root).
Context (Hdroot : forall k x, droot !! k = Some x -> block_wf x /\ ((k ∈ F1) \/ (k ∈ owned d root))).
Context (Hmaps1 : forall x : image, (forall k v, droot !! k = Some v -> x !! k = Some v) ->
  (forall k, k ∈ owned d root -> droot !! k = None -> x !! k = d !! k) -> maps x root' nm1).
Context (Hown1 : forall b, b ∈ mapped_blocks root' nm1 -> (b ∈ F1) \/ ((b ∈ owned d root) /\ b ∉ rel)).
Context (Hnd1 : NoDup (mapped_blocks root' nm1)).

Let Ho := co_opened _ _ Hc.
Let Hv := op_view _ _ Ho.
Let Hlay := opened_layout _ _ Ho.
Abbreviation table1 := (InodeTableBlock sb rt).

Lemma ranges : istart = 1 /\ 0 < icount /\ bstart = istart + icount /\ 0 < bcount /\
  bstart + bcount = start_block (inode_table sb) /\ js sb < start_block (data sb) < total_blocks sb /\
  start_block (data sb) = js sb + block_count (journal sb) /\ start_block (inode_table sb) <= js sb /\ u32 (total_blocks sb).
Proof.
  destruct (region_bounds r d Ho) as (L & Ht & H1 & H2 & H3 & H4). pose proof (lay_ib _ L). pose proof (lay_bb _ L).
  pose proof (lay_it _ L). pose proof (lay_js _ L). pose proof (lay_ib_size _ L). pose proof (lay_bb_size _ L).
  pose proof (geo_data _ (lay_geo _ L)). pose proof (geo_count _ (lay_geo _ L)). conj_split; try done; lia.
Qed.

Lemma root_facts : 1 <= rt <= total_inodes sb /\ inode_valid r d root /\ inode_number root = rt /\ inode_typed root.
Proof. exact (read_facts r d Ho rt root Hroot). Qed.

Lemma F1_fresh b : b ∈ F1 -> start_block (data sb) <= b < total_blocks sb /\ TestBit (block_bitmap_ r) b = false.
Proof. intros Hb. by apply (tk_free _ _ _ T1 b). Qed.

Lemma root_data b : b ∈ owned d root -> start_block (data sb) <= b < total_blocks sb /\ TestBit (block_bitmap_ r) b = true.
Proof. destruct root_facts as (_ & Hval & _). apply (owned_data_block r d root b Hval). Qed.

Lemma droot_data k x : droot !! k = Some x -> start_block (data sb) <= k < total_blocks sb.
Proof. intros [_ [H|H]]%Hdroot; [by apply F1_fresh|by apply root_data]. Qed.

(** The image after the first step. *)
Abbreviation bm1 := (bitmap_ a1r).
Definition step1 : image :=
  <[table1 := put_inode rt enc1 (block_at d table1)]>
    (insert_all (map (fun i => (bstart + i, BitmapBlock bm1 i)) (counting bcount)) (droot ∪ d)).
Abbreviation r1 := (with_bitmaps r (inode_bitmap_ r) bm1).

Lemma table1_range : start_block (inode_table sb) <= table1 < js sb /\ 0 <= table1 < total_blocks sb.
Proof. destruct root_facts as (Hn & _). by apply (table_range r d Ho). Qed.

Lemma step1_table : step1 !! table1 = Some (put_inode rt enc1 (block_at d table1)).
Proof. apply lookup_insert_eq. Qed.

Lemma step1_bitmap i : 0 <= i < bcount -> step1 !! (bstart + i) = Some (BitmapBlock bm1 i).
Proof.
  intros Hi. pose proof table1_range. pose proof ranges as (R1 & R2 & R3 & R4 & R5 & R6 & R7 & R8 & R9).
  unfold step1. rewrite lookup_insert_ne by lia. apply lookup_insert_all_in.
  - rewrite <- list_fmap_compose. apply (NoDup_fmap_2_strong (fun i => bstart + i)).
    + intros x y _ _ E. lia.
    + unfold counting. apply (NoDup_fmap_2_strong Z.of_nat); [intros; lia|apply NoDup_seq].
  - apply list_elem_of_fmap. exists i. split; [done|]. by apply elem_counting.
Qed.

Lemma step1_else k : k <> table1 -> k < bstart \/ bstart + bcount <= k ->
  step1 !! k = match droot !! k with Some x => Some x | None => d !! k end.
Proof.
  intros Ht Hb. unfold step1. rewrite lookup_insert_ne by done. rewrite lookup_insert_all_ne.
  - rewrite lookup_union. destruct (droot !! k); [by rewrite union_Some_l|]. by destruct (d !! k).
  - intros (x & -> & Hx)%list_elem_of_fmap. apply list_elem_of_fmap in Hx as (i & -> & Hi%elem_counting). cbn in *. lia.
Qed.

Lemma step1_droot k x : droot !! k = Some x -> step1 !! k = Some x.
Proof.
  intros E. pose proof (droot_data k x E). pose proof table1_range. pose proof ranges as (R1 & R2 & R3 & R4 & R5 & R6 & R7 & R8 & R9).
  rewrite step1_else by lia. by rewrite E.
Qed.

Lemma step1_kept k : k <> table1 -> k < bstart \/ bstart + bcount <= k -> droot !! k = None -> step1 !! k = d !! k.
Proof. intros H1 H2 H3. rewrite step1_else by done. by rewrite H3. Qed.

Lemma bm1_facts : bytes_ok bm1 /\ length bm1 = length (block_bitmap_ r) /\ Z.of_nat (length bm1) = bcount * 4096 /\
  (forall j, 0 <= j -> TestBit bm1 j = (bool_decide (j ∈ F1) || TestBit (block_bitmap_ r) j) && negb (bool_decide (j ∈ rel))).
Proof.
  destruct (block_bitmap_bytes r d Ho) as (_ & _ & Hl).
  assert (length bm1 = length (block_bitmap_ r)) as E by (rewrite (gv_length _ _ _ G1), (tk_length _ _ _ T1); done).
  split; [apply (gv_ok _ _ _ G1)|]. split; [done|]. split; [lia|]. intros j Hj.
  rewrite (gv_bits _ _ _ G1), (tk_bits _ _ _ T1), andb_comm by done. done.
Qed.

Lemma enc1_wf : length enc1 = InodeLen /\ bytes_ok enc1.
Proof. exact (inode_encode_wf _ _ Hty1 Henc1). Qed.

Lemma step1_change : home_change r d step1.
Proof.
  pose proof table1_range as [Q1 Q2]. pose proof ranges as (R1 & R2 & R3 & R4 & R5 & R6 & R7 & R8 & R9).
  destruct root_facts as (Hn & _). destruct bm1_facts as (B1 & B2 & B3 & _).
  assert (forall k, k < start_block (data sb) -> droot !! k = None) as Hlow.
  { intros k Hk. destruct (droot !! k) as [x|] eqn:E; [|done]. pose proof (droot_data k x E). lia. }
  constructor.
  - apply step1_kept; [lia|lia|apply Hlow; lia].
  - intros k Hk. unfold in_journal in Hk. apply step1_kept; [lia|lia|apply Hlow; lia].
  - intros k Hk. destruct (decide (k = table1)) as [->|Hne]; [by rewrite step1_table|].
    destruct (decide (bstart <= k < bstart + bcount)) as [Hb|Hb].
    + replace k with (bstart + (k - bstart)) by lia. by rewrite step1_bitmap by lia.
    + rewrite step1_else by lia. destruct (droot !! k); [done|]. destruct (vo_blocks _ _ Hv k Hk) as (x & -> & _). done.
  - intros k b E. destruct (decide (k = table1)) as [->|Hne].
    + rewrite step1_table in E. injection E as <-. by apply (table_wf r d Ho); apply enc1_wf || done.
    + destruct (decide (bstart <= k < bstart + bcount)) as [Hb|Hb].
      * replace k with (bstart + (k - bstart)) in E by lia. rewrite step1_bitmap in E by lia. injection E as <-.
        apply BitmapBlock_wf; [done|lia|lia].
      * rewrite step1_else in E by lia. destruct (droot !! k) as [x|] eqn:Ed; [injection E as <-; by apply (Hdroot k)|].
        by apply (vo_wf _ _ Hv k).
Qed.

Lemma step1_maps : maps step1 root' nm1.
Proof.
  pose proof table1_range as [Q1 Q2]. pose proof ranges as (R1 & R2 & R3 & R4 & R5 & R6 & R7 & R8 & R9).
  apply Hmaps1; [exact step1_droot|]. intros k [Hk _]%root_data Hd. apply step1_kept; [lia|lia|done].
Qed.

Lemma step1_blocks b : b ∈ mapped_blocks root' nm1 -> data_block r1 b.
Proof.
  pose proof (vo_data _ _ Hv). destruct bm1_facts as (_ & _ & _ & Hbits). unfold data_block. cbn [with_bitmaps rd_superblock block_bitmap_].
  intros [Hb|[Hb Hnr]]%Hown1.
  - destruct (F1_fresh b Hb) as [Hr Hf]. split; [done|]. rewrite Hbits by lia. rewrite bool_decide_eq_true_2 by done. cbn.
    apply negb_true_iff, bool_decide_eq_false. intros Hin. destruct (root_data b (Hrel b Hin)). congruence.
  - destruct (root_data b Hb) as [Hr Ht]. split; [done|]. rewrite Hbits by lia. rewrite Ht, orb_true_r, bool_decide_eq_false_2 by done. done.
Qed.

Lemma step1_valid : inode_valid r1 step1 root' /\ owned step1 root' = mapped_blocks root' nm1.
Proof.
  pose proof (vo_data _ _ Hv). split; [apply (mapped_valid r1 step1 root' nm1 step1_maps); [done|exact step1_blocks]|].
  apply (mapped_owned r1 step1 root' nm1 step1_maps); [done|exact step1_blocks].
Qed.

Lemma root_allocated : IsInodeAllocated r rt = true.
Proof. apply (read_inode_valid r d Hv rt root Hroot). Qed.

Lemma step1_root_bit j : 0 <= j -> TestBit (inode_bitmap_ r) j = (j =? rt - 1) || TestBit (inode_bitmap_ r) j.
Proof.
  intros Hj. destruct (Z.eqb_spec j (rt - 1)) as [->|]; [|done]. pose proof root_allocated as Ha.
  unfold IsInodeAllocated in Ha. by bool_to_prop.
Qed.

Lemma step1_inode_bitmap : region_bytes step1 istart icount = inode_bitmap_ r.
Proof.
  destruct (inode_bitmap_bytes r d Ho) as (-> & _). unfold region_bytes. f_equal. apply map_ext_in.
  intros i Hi%list_elem_of_In%elem_counting. unfold block_at. pose proof table1_range as [Q1 Q2].
  pose proof ranges as (R1 & R2 & R3 & R4 & R5 & R6 & R7 & R8 & R9). rewrite step1_kept; [done|lia|lia|].
  destruct (droot !! (istart + i)) as [x|] eqn:E; [|done]. pose proof (droot_data _ x E). lia.
Qed.

Lemma step1_block_bitmap : region_bytes step1 bstart bcount = bm1.
Proof.
  destruct bm1_facts as (_ & _ & Hl & _). apply region_bytes_of; [done|]. intros i Hi.
  unfold block_at. by rewrite step1_bitmap.
Qed.

Lemma step1_slots k : 1 <= k <= total_inodes sb -> k <> rt -> slot sb step1 k = slot sb d k.
Proof.
  intros Hk Hne. destruct root_facts as (Hn & _). destruct enc1_wf as [He _].
  apply (slot_other r d step1 Ho rt enc1 Hn He step1_table); [|done|done].
  intros k' Hk' Hne'. pose proof (table_range r d Ho k' Hk'). pose proof ranges as (R1 & R2 & R3 & R4 & R5 & R6 & R7 & R8 & R9).
  apply step1_kept; [done|lia|]. destruct (droot !! InodeTableBlock sb k') as [x|] eqn:E; [|done]. pose proof (droot_data _ x E). lia.
Qed.

Lemma step1_keep b : start_block (data sb) <= b < total_blocks sb -> b ∉ F1 -> b ∉ owned d root -> step1 !! b = d !! b.
Proof.
  intros Hb HF Hown. pose proof table1_range as [Q1 Q2]. pose proof ranges as (R1 & R2 & R3 & R4 & R5 & R6 & R7 & R8 & R9).
  apply step1_kept; [lia|lia|]. destruct (droot !! b) as [x|] eqn:E; [|done]. by destruct (Hdroot b x E) as [_ [?|?]].
Qed.

Lemma step1_decodes : DecodeInode (slot sb step1 rt) rt = Ok root'.
Proof.
  destruct root_facts as (Hn & _). destruct enc1_wf as [He _]. rewrite (slot_written r d step1 Ho rt enc1 Hn He step1_table).
  rewrite <- Hnum1. exact (InodeCodec.inode_decode_encode root' enc1 Hty1 Henc1).
Qed.

(** After the first step only the directory has changed. *)
Lemma step1_published :
  consistent r1 step1 /\ answer step1 (ReadInode r1 rt) = Ok root' /\
  (forall k J, k <> rt -> answer d (ReadInode r k) = Ok J ->
     answer step1 (ReadInode r1 k) = Ok J /\ owned step1 J = owned d J /\ file_blocks step1 J = file_blocks d J).
Proof.
  destruct root_facts as (Hn & _). destruct bm1_facts as (_ & Hl & _ & Hbits). destruct step1_valid as [Hval Hown].
  assert (if IsInodeAllocated r rt then exists J, answer d (ReadInode r rt) = Ok J /\ owned d root = owned d J
          else owned d root = []) as Hold by (rewrite root_allocated; by exists root).
  assert (NoDup (owned step1 root')) as Hnd by (by rewrite Hown).
  assert (forall b, b ∈ owned step1 root' -> (b ∈ F1) \/ (b ∈ owned d root)) as Hfrom.
  { intros b. rewrite Hown. intros [|[? _]]%Hown1; [by left|by right]. }
  conj_split.
  - exact (republish_consistent r d Hc rt Hn (owned d root) F1 rel Hold F1_fresh Hrel step1 _ _ step1_change step1_inode_bitmap
      step1_block_bitmap (conj eq_refl Hl) step1_root_bit Hbits step1_slots step1_keep root' step1_decodes Hval Hnd Hfrom (fun _ => Hdir)).
  - exact (published_inode r d Hc rt Hn step1 _ _ step1_change (conj eq_refl Hl) step1_root_bit root' step1_decodes Hval).
  - exact (others_kept r d Hc rt (owned d root) F1 rel Hold F1_fresh Hrel step1 _ _ step1_change (conj eq_refl Hl) step1_root_bit Hbits
      step1_slots step1_keep root' Hfrom).
Qed.
End object.

(** * A new file on a consistent image *)
Section create.
Context (r : ImageReader) (d : image) (Hc : consistent r d).
Abbreviation sb := (rd_superblock r).
Abbreviation bstart := (start_block (block_bitmap sb)).
Abbreviation bcount := (block_count (block_bitmap sb)).
Abbreviation istart := (start_block (inode_bitmap sb)).
Abbreviation icount := (block_count (inode_bitmap sb)).

Context (n : Z) (Hn : 1 <= n <= total_inodes sb) (Hnew : TestBit (inode_bitmap_ r) (n - 1) = false).
Context (file : InodeRecord) (enc : bytes) (nm : list Z).
Context (Henc : EncodeInode file = Ok enc) (Hty : inode_typed file) (Hnum : inode_number file = n) (Hreg : S_ISREG (mode file) = true).
Abbreviation F := (mapped_blocks file nm).
Context (HF : forall b, b ∈ F -> start_block (data sb) <= b < total_blocks sb /\ TestBit (block_bitmap_ r) b = false).
Context (Hnd : NoDup F).
Context (ibm bm : bytes) (Hlen : length ibm = length (inode_bitmap_ r) /\ length bm = length (block_bitmap_ r)).
Context (Hibits : forall j, 0 <= j -> TestBit ibm j = (j =? n - 1) || TestBit (inode_bitmap_ r) j).
Context (Hbits : forall j, 0 <= j -> TestBit bm j = bool_decide (j ∈ F) || TestBit (block_bitmap_ r) j).
Abbreviation table := (InodeTableBlock sb n).
Context (d' : image) (Htable : d' !! table = Some (put_inode n enc (block_at d table))).
Context (Hib : forall i, 0 <= i < icount -> block_at d' (istart + i) = BitmapBlock ibm i).
Context (Hbb : forall i, 0 <= i < bcount -> block_at d' (bstart + i) = BitmapBlock bm i).
Context (Hother : forall k, k <> table -> k < istart \/ bstart + bcount <= k -> k ∉ F -> d' !! k = d !! k).
Context (Hall : forall k, 0 <= k < total_blocks sb -> is_Some (d' !! k)) (Hwf : forall k b, d' !! k = Some b -> block_wf b).
Context (Hmaps : maps d' file nm).
Abbreviation r' := (with_bitmaps r ibm bm).

Let Ho := co_opened _ _ Hc.
Let Hv := op_view _ _ Ho.

Lemma create_change : home_change r d d'.
Proof.
  pose proof (table_range r d Ho n Hn) as [Q1 Q2]. pose proof (ranges r d Hc) as (R1 & R2 & R3 & R4 & R5 & R6 & R7 & R8 & R9).
  assert (forall k, k ∈ F -> start_block (data sb) <= k) as Hd by (intros k Hk; by apply HF).
  constructor; try done.
  - apply Hother; [lia|lia|]. intros Hk%Hd. lia.
  - intros k Hk. unfold in_journal in Hk. apply Hother; [lia|lia|]. intros Hk'%Hd. lia.
Qed.

Lemma create_published :
  consistent r' d' /\ answer d' (ReadInode r' n) = Ok file /\ file_pointers d' file = nm /\
  (forall k J, k <> n -> answer d (ReadInode r k) = Ok J ->
     answer d' (ReadInode r' k) = Ok J /\ owned d' J = owned d J /\ file_blocks d' J = file_blocks d J).
Proof.
  pose proof (table_range r d Ho n Hn) as [Q1 Q2]. pose proof (ranges r d Hc) as (R1 & R2 & R3 & R4 & R5 & R6 & R7 & R8 & R9).
  pose proof (vo_data _ _ Hv) as Hdp. destruct (inode_encode_wf _ _ Hty Henc) as [He _].
  destruct (inode_bitmap_bytes r d Ho) as (_ & _ & Hil). destruct (block_bitmap_bytes r d Ho) as (_ & _ & Hbl).
  assert (IsInodeAllocated r n = false) as Hna by (unfold IsInodeAllocated; by rewrite Hnew, andb_false_r).
  assert (if IsInodeAllocated r n then exists J, answer d (ReadInode r n) = Ok J /\ @nil Z = owned d J else @nil Z = []) as Hold
    by (by rewrite Hna).
  assert (forall b, b ∈ (∅ : gset Z) -> b ∈ @nil Z) as HR by (intros b Hb; by apply not_elem_of_empty in Hb).
  assert (region_bytes d' istart icount = ibm) as Eib by (apply region_bytes_of; [lia|done]).
  assert (region_bytes d' bstart bcount = bm) as Ebb by (apply region_bytes_of; [lia|done]).
  assert (forall j, 0 <= j ->
    TestBit bm j = (bool_decide (j ∈ F) || TestBit (block_bitmap_ r) j) && negb (bool_decide (j ∈ (∅ : gset Z)))) as Hbits'.
  { intros j Hj. rewrite (bool_decide_eq_false_2 (j ∈ (∅ : gset Z))) by apply not_elem_of_empty.
    rewrite andb_true_r. by apply Hbits. }
  assert (forall k, 1 <= k <= total_inodes sb -> InodeTableBlock sb k <> table -> d' !! InodeTableBlock sb k = d !! InodeTableBlock sb k) as Htab.
  { intros k Hk Hne. pose proof (table_range r d Ho k Hk). apply Hother; [done|lia|]. intros Hk'. destruct (HF _ Hk'). lia. }
  pose proof (slot_other r d d' Ho n enc Hn He Htable Htab) as Hslots.
  assert (forall b, start_block (data sb) <= b < total_blocks sb -> b ∉ F -> b ∉ @nil Z -> d' !! b = d !! b) as Hkeep
    by (intros b Hb HbF _; apply Hother; [lia|lia|done]).
  assert (DecodeInode (slot sb d' n) n = Ok file) as Hdec.
  { rewrite (slot_written r d d' Ho n enc Hn He Htable). rewrite <- Hnum. exact (InodeCodec.inode_decode_encode file enc Hty Henc). }
  assert (forall b, b ∈ F -> data_block r' b) as Hblk.
  { intros b Hb. destruct (HF b Hb) as [Hr _]. split; [done|]. cbn. rewrite Hbits by lia. by rewrite bool_decide_eq_true_2. }
  pose proof (mapped_valid r' d' file nm Hmaps Hdp Hblk) as Hval. pose proof (mapped_owned r' d' file nm Hmaps Hdp Hblk) as Hown.
  assert (NoDup (owned d' file)) as Hnd' by (by rewrite Hown).
  assert (forall b, b ∈ owned d' file -> (b ∈ F) \/ (b ∈ @nil Z)) as Hfrom by (rewrite Hown; by left).
  assert (n = root_inode sb -> S_ISDIR (mode file) = true) as Hroot.
  { intros Er0. destruct (op_root _ _ Ho) as (root & Er & _). rewrite <- Er0 in Er.
    destruct (read_inode_valid r d Hv n root Er) as (_ & _ & Ha & _). congruence. }
  conj_split.
  - exact (republish_consistent r d Hc n Hn [] F ∅ Hold HF HR d' _ _ create_change Eib Ebb Hlen Hibits Hbits' Hslots Hkeep file Hdec
      Hval Hnd' Hfrom Hroot).
  - exact (published_inode r d Hc n Hn d' _ _ create_change Hlen Hibits file Hdec Hval).
  - exact (mapped_pointers d' file nm Hmaps).
  - exact (others_kept r d Hc n [] F ∅ Hold HF HR d' _ _ create_change Hlen Hibits Hbits' Hslots Hkeep file Hfrom).
Qed.
End create.
