(* ===== verification/NewObjectProofs.v ===== *)
(** The steps of the new-object planner on a consistent image: what each of them
    answers, and the images they collect. *)
From S2P Require Import Prelude Codec OndiskFormat OndiskFormatProofs DirectoryEntry OndiskJournal Disk JournalStore.
From S2P Require Import JournalImage JournalStates BitmapAllocator ImageReader ImageReaderProofs ReaderTheorems.
From S2P Require Import LedgerStore FileMutation ConsistentImage PlanProofs FileMutationProofs FileMutationPublish.
From S2P Require Import NewObject ObjectPublish.
Open Scope Z_scope.
Open Scope io_scope.

#[export] Instance reading_mutable r k im : Reading (MutableMetadataBlock r k im).
Proof. unfold MutableMetadataBlock. apply _. Qed.
#[export] Instance reading_bitmap_images r region b a ls : forall im, Reading (AddBitmapAfterImages r region b a ls im).
Proof. induction ls; intros im; cbn [AddBitmapAfterImages]; apply _. Qed.
#[export] Instance reading_insert r root e ls : forall im, Reading (insert_into_root r root e ls im).
Proof. induction ls; intros im; cbn [insert_into_root]; apply _. Qed.
#[export] Instance reading_fresh r a im : Reading (fresh_metadata_block r a im).
Proof. unfold fresh_metadata_block. apply _. Qed.
#[export] Instance reading_grow r root e k a im : Reading (grow_root r root e k a im).
Proof. unfold grow_root. apply _. Qed.
#[export] Instance reading_place_data r data ls : forall a im bs, Reading (place_data r data ls a im bs).
Proof. induction ls as [|l ls IH]; intros a im bs; cbn [place_data]; apply _. Qed.
#[export] Instance reading_write_inode r n i im : Reading (write_inode r n i im).
Proof. unfold write_inode. apply _. Qed.
#[export] Instance reading_publish r data p u g ts n ib bb ia ba old root db grew ri im :
  Reading (publish_object r data p u g ts n ib bb ia ba old root db grew ri im).
Proof. unfold publish_object. apply _. Qed.
#[export] Instance reading_new_object r name data p u g ts : Reading (PrepareNewRootObject r name data p u g ts).
Proof. unfold PrepareNewRootObject. apply _. Qed.

(** * Collected images *)
Record sound_images (d : image) (im : images) : Prop := {
  si_before : forall k b, im_before im !! k = Some b -> d !! k = Some b;
  si_domain : forall k, is_Some (im_before im !! k) <-> is_Some (im_ordered im !! k) \/ is_Some (im_metadata im !! k)
}.

Lemma is_Some_insert {A} (m : gmap Z A) k k' x : is_Some (<[k := x]> m !! k') <-> k = k' \/ is_Some (m !! k').
Proof.
  destruct (decide (k = k')) as [->|Hne].
  - rewrite lookup_insert_eq. split; [by left|done].
  - rewrite lookup_insert_ne by done. split; [by right|]. by intros [?|?].
Qed.

Section images.
Context (d : image).

Lemma sound_empty : sound_images d (mkImages ∅ ∅ ∅).
Proof. split; cbn; intros k; rewrite !lookup_empty; [done|]. split; [by left|by intros [|]]. Qed.

Lemma sound_add_metadata k before after im : d !! k = Some before -> sound_images d im ->
  sound_images d (add_metadata k before after im).
Proof.
  intros Hb [H1 H2]. split; cbn [add_metadata im_before im_ordered im_metadata].
  - intros k' b. destruct (decide (k = k')) as [->|Hne].
    + rewrite lookup_insert_eq. by intros [= <-].
    + rewrite lookup_insert_ne by done. apply H1.
  - intros k'. rewrite !is_Some_insert, H2. tauto.
Qed.

Lemma sound_set_after k b im : is_Some (im_metadata im !! k) -> sound_images d im -> sound_images d (set_after k b im).
Proof.
  intros Hk [H1 H2]. split; [done|]. intros k'. cbn [set_after im_before im_ordered im_metadata]. rewrite is_Some_insert, H2.
  split; [tauto|]. intros [?|[<-|?]]; tauto.
Qed.

Lemma sound_ordered bs : forall vs im, length vs = length bs -> (forall b, b ∈ bs -> is_Some (d !! b)) -> sound_images d im ->
  sound_images d (mkImages (insert_all (zip bs (block_at d <$> bs)) (im_before im))
                           (insert_all (zip bs vs) (im_ordered im)) (im_metadata im)).
Proof.
  induction bs as [|b bs IH]; intros vs im Hl Hd Hs; [by destruct im|]. destruct vs as [|v vs]; [done|].
  cbn [fmap list_fmap zip zip_with]. 
  apply (IH vs (mkImages (<[b := block_at d b]> (im_before im)) (<[b := v]> (im_ordered im)) (im_metadata im))).
  - cbn in Hl. lia.
  - intros x Hx. apply Hd. by right.
  - destruct Hs as [H1 H2]. split; cbn [im_before im_ordered im_metadata].
    + intros k' x. destruct (decide (b = k')) as [->|Hne].
      * rewrite lookup_insert_eq. intros [= <-]. destruct (Hd k') as [y Ey]; [by left|]. unfold block_at. by rewrite Ey.
      * rewrite lookup_insert_ne by done. apply H1.
    + intros k'. rewrite !is_Some_insert, H2. tauto.
Qed.

(** Unfolding one round, without evaluating the comparison. *)
Lemma diff_bitmap_cons region before after l ls im :
  diff_bitmap region before after (l :: ls) im =
  diff_bitmap region before after ls
    (if bool_decide (BitmapBlock before l = BitmapBlock after l) then im
     else add_metadata (wrap32 (start_block region + l)) (BitmapBlock before l) (BitmapBlock after l) im).
Proof. unfold diff_bitmap. cbv beta iota zeta. reflexivity. Qed.

Lemma sound_diff region before after locals : forall im,
  (forall l, l ∈ locals -> u32 (start_block region + l) /\ d !! (start_block region + l) = Some (BitmapBlock before l)) ->
  sound_images d im -> sound_images d (diff_bitmap region before after locals im).
Proof.
  induction locals as [|l ls IH]; intros im Hl Hs; [exact Hs|]. rewrite diff_bitmap_cons. destruct (Hl l (list_elem_of_here _ _)) as [Hu Hd].
  rewrite wrap32_small by exact Hu. apply IH; [intros x Hx; apply Hl; by right|].
  destruct (bool_decide _); [exact Hs|]. apply sound_add_metadata; [exact Hd|exact Hs].
Qed.
End images.

(** An inode encoded into its table block. *)
Definition put_table (sb : Superblock) (d : image) (number : Z) (encoded : bytes) (im : images) : images :=
  let table := InodeTableBlock sb number in
  match im_metadata im !! table with
  | Some block => set_after table (put_inode number encoded block) im
  | None => add_metadata table (block_at d table) (put_inode number encoded (block_at d table)) im
  end.

Lemma put_table_lookup sb d number encoded im k :
  im_metadata (put_table sb d number encoded im) !! k =
  if decide (k = InodeTableBlock sb number)
  then Some (put_inode number encoded (default (block_at d k) (im_metadata im !! k)))
  else im_metadata im !! k.
Proof.
  unfold put_table. destruct (decide (k = InodeTableBlock sb number)) as [->|Hne].
  - destruct (im_metadata im !! InodeTableBlock sb number); cbn [set_after add_metadata im_metadata]; by rewrite lookup_insert_eq.
  - destruct (im_metadata im !! InodeTableBlock sb number); cbn [set_after add_metadata im_metadata]; by rewrite lookup_insert_ne.
Qed.

Lemma put_table_ordered sb d number encoded im : im_ordered (put_table sb d number encoded im) = im_ordered im.
Proof. unfold put_table. by destruct (_ !! _). Qed.

(** * Answers *)
Section answers.
Context (r : ImageReader) (d : image) (Hc : consistent r d).
Abbreviation sb := (rd_superblock r).
Let Ho := co_opened _ _ Hc.
Let Hv := op_view _ _ Ho.
Let Hlay := opened_layout _ _ Ho.

Lemma disk_block k : 0 <= k < total_blocks sb -> d !! k = Some (block_at d k).
Proof. intros Hk. destruct (vo_blocks _ _ Hv k Hk) as (x & E & _). unfold block_at. by rewrite E. Qed.

Lemma fresh_answer a im : plan_alloc r a -> (forall b, b ∈ free_bits a -> im_metadata im !! b = None) ->
  answer d (fresh_metadata_block r a im) =
  match ReserveBlock a with
  | Ok (a', b) => Ok (a', add_metadata b (block_at d b) zero_block im, b)
  | Err er => Err er
  end.
Proof.
  intros (Hok & Hval & Hfst) Hfree. unfold fresh_metadata_block. rewrite answer_of_bind by apply _.
  pose proof (reserve_one _ Hok) as H1. destruct (ReserveBlock a) as [[a' b]|er]; [|done].
  destruct (tk_free _ _ _ H1 b ltac:(by left)) as [Hb Ht]. pose proof (vo_data _ _ Hv).
  unfold MutableMetadataBlock. rewrite (Hfree b) by (apply elem_free_bits; done).
  rewrite (answer_bind_ok _ _ _ (add_metadata b (block_at d b) (block_at d b) im, block_at d b)); [|apply _|].
  - unfold set_after, add_metadata. cbn [im_before im_ordered im_metadata]. by rewrite insert_insert_eq.
  - rewrite (answer_bind_ok _ _ _ (block_at d b)); [done|apply _|]. apply (answer_read_block r d Hv). lia.
Qed.

Lemma place_data_answer data n : forall k a im ds, plan_alloc r a ->
  answer d (place_data r data (map Z.of_nat (seq k n)) a im ds) =
  match reserve_n n a with
  | Ok (a', bs) =>
    Ok (a', mkImages (insert_all (zip bs (block_at d <$> bs)) (im_before im))
              (insert_all (zip bs (map (replace_after data) (seq k n))) (im_ordered im)) (im_metadata im), ds ++ bs)
  | Err er => Err er
  end.
Proof.
  induction n as [|n IH]; intros k a im ds Ha; cbn [seq map place_data reserve_n].
  { rewrite app_nil_r. by destruct im. }
  pose proof Ha as (Hok & Hval & Hfst). rewrite answer_of_bind by apply _. pose proof (reserve_one _ Hok) as H1.
  destruct (ReserveBlock a) as [[a' b]|er]; [|done].
  destruct (tk_free _ _ _ H1 b ltac:(by left)) as [Hb Ht]. pose proof (vo_data _ _ Hv).
  rewrite (answer_bind_ok _ _ _ (block_at d b)); [|apply _|apply (answer_read_block r d Hv); lia].
  cbv zeta. rewrite IH by (eapply plan_alloc_takes; [apply Ha|apply H1]).
  destruct (reserve_n n a') as [[a2 bs]|er]; [|done].
  replace (Z.to_nat (Z.of_nat k * kBlockSize)) with (k * BlockLen)%nat by (pose proof BlockLen_Z; unfold kBlockSize; lia).
  rewrite <- app_assoc. done.
Qed.

Lemma write_inode_answer number inode encoded im : 1 <= number <= total_inodes sb -> EncodeInode inode = Ok encoded ->
  answer d (write_inode r number inode im) = Ok (put_table sb d number encoded im).
Proof.
  intros Hn He. destruct (table_range r d Ho number Hn) as [_ Ht]. unfold write_inode, MutableMetadataBlock, put_table. cbv zeta.
  destruct (im_metadata im !! InodeTableBlock sb number) as [b|].
  - rewrite (answer_bind_ok _ _ _ (im, b)); [|apply _|done]. by rewrite He.
  - rewrite (answer_bind_ok _ _ _ (add_metadata (InodeTableBlock sb number) (block_at d (InodeTableBlock sb number))
      (block_at d (InodeTableBlock sb number)) im, block_at d (InodeTableBlock sb number))); [|apply _|].
    + rewrite He. unfold set_after, add_metadata. cbn [im_before im_ordered im_metadata]. by rewrite insert_insert_eq.
    + rewrite (answer_bind_ok _ _ _ (block_at d (InodeTableBlock sb number))); [done|apply _|]. by apply (answer_read_block r d Hv).
Qed.

Lemma put_table_sound number encoded im : 1 <= number <= total_inodes sb -> sound_images d im ->
  sound_images d (put_table sb d number encoded im).
Proof.
  intros Hn Hs. destruct (table_range r d Ho number Hn) as [_ Ht]. unfold put_table.
  destruct (im_metadata im !! InodeTableBlock sb number) as [b|] eqn:E.
  - apply sound_set_after; [by rewrite E|done].
  - apply sound_add_metadata; [by apply disk_block|done].
Qed.

Lemma bitmap_images_cons region before after l ls im :
  AddBitmapAfterImages r region before after (l :: ls) im =
  if bool_decide (BitmapBlock before l = BitmapBlock after l) then AddBitmapAfterImages r region before after ls im
  else
  let* physical_before := ReadBlock r (wrap32 (start_block region + l)) in
  if negb (bool_decide (physical_before = BitmapBlock before l)) then io_fail ESTALE
  else AddBitmapAfterImages r region before after ls
         (add_metadata (wrap32 (start_block region + l)) (BitmapBlock before l) (BitmapBlock after l) im).
Proof. unfold AddBitmapAfterImages. cbv beta iota zeta. reflexivity. Qed.

Lemma bitmap_images_answer region before after locals : u32 (total_blocks sb) ->
  (forall l, l ∈ locals -> 0 <= start_block region + l < total_blocks sb /\
     BitmapBlock before l = block_at d (start_block region + l)) -> forall im,
  answer d (AddBitmapAfterImages r region before after locals im) = Ok (diff_bitmap region before after locals im).
Proof.
  intros Htot. induction locals as [|l ls IH]; intros Hl im; [done|]. rewrite diff_bitmap_cons, bitmap_images_cons.
  destruct (Hl l) as [Hr Hb]; [by left|]. rewrite answer_if.
  assert (forall x, x ∈ ls -> 0 <= start_block region + x < total_blocks sb /\
     BitmapBlock before x = block_at d (start_block region + x)) as Hls by (intros x Hx; apply Hl; by right).
  rewrite wrap32_small by word. destruct (bool_decide (BitmapBlock before l = _)); [apply (IH Hls)|].
  rewrite (answer_bind_ok _ _ _ (block_at d (start_block region + l))); [|apply _|by apply (answer_read_block r d Hv)].
  rewrite answer_if, bool_decide_eq_true_2 by (symmetry; exact Hb). cbn [negb]. apply (IH Hls).
Qed.
End answers.
