(* ===== verification/RootPlans.v ===== *)
(** The ways a directory entry gets its place (src/metadata/new_object_plan.cpp):
    in a record with room, or in a new block at the end of the directory, whose
    pointer goes into the inode or into a copied indirect block. *)
From S2P Require Import Prelude Codec OndiskFormat OndiskFormatProofs DirectoryEntry OndiskJournal Disk JournalStore.
From S2P Require Import JournalImage JournalStates BitmapAllocator ImageReader ImageReaderProofs ReaderTheorems.
From S2P Require Import LedgerStore FileMutation ConsistentImage PlanProofs FileMutationProofs FileMutationPublish.
From S2P Require Import NewObject ObjectPublish NewObjectProofs.
Open Scope Z_scope.
Open Scope io_scope.

(** * Words of a copied indirect block *)
Lemma nth_get_words b i : (i < 1024)%nat -> nth i (get_words b 0 1024) 0 = GetLe32 b (i * 4).
Proof.
  intros Hi. unfold get_words. rewrite (nth_indep _ 0 (GetLe32 b (0 + 0 * 4))) by (rewrite length_map, length_seq; lia).
  rewrite (map_nth (fun index => GetLe32 b (0 + index * 4))), seq_nth by lia. f_equal.
Qed.

Lemma put_word b idx v i : length b = BlockLen -> u32 v -> (idx < 1024)%nat -> (i < 1024)%nat ->
  nth i (get_words (PutLe32 (idx * 4) v b) 0 1024) 0 = if (i =? idx)%nat then v else nth i (get_words b 0 1024) 0.
Proof.
  intros Hl Hu Hidx Hi. pose proof BlockLen_Z. rewrite !nth_get_words by done.
  destruct (Nat.eqb_spec i idx) as [->|Hne].
  - unfold GetLe32, PutLe32. rewrite slice_splice_same by (rewrite ?length_le_bytes; lia). by apply get_le4.
  - unfold GetLe32. rewrite slice_PutLe32_ne by lia. done.
Qed.

Lemma put_word_wf b idx v : block_wf b -> (idx < 1024)%nat -> block_wf (PutLe32 (idx * 4) v b).
Proof.
  intros [Hl Hb] Hi. pose proof BlockLen_Z. split; [rewrite length_PutLe32 by lia; done|by apply bytes_ok_PutLe32].
Qed.

Section root.
Context (r : ImageReader) (d : image) (Hc : consistent r d).
Abbreviation sb := (rd_superblock r).
Context (root : InodeRecord) (Hroot : answer d (ReadInode r (root_inode sb)) = Ok root) (Hdir : S_ISDIR (mode root) = true).
Let Ho := co_opened _ _ Hc.
Let Hv := op_view _ _ Ho.
Let Hlay := opened_layout _ _ Ho.
Abbreviation old := (file_pointers d root).
Abbreviation count := (required_blocks root).

(** An image that has the rewritten blocks and the untouched ones. *)
Definition agrees (droot x : image) : Prop :=
  (forall k v, droot !! k = Some v -> x !! k = Some v) /\
  (forall k, k ∈ owned d root -> droot !! k = None -> x !! k = d !! k).

(** A change of the directory that puts the entry [key] in. *)
Record root_plan (key : Z * DirectoryFileType * bytes) (root1 : InodeRecord) (F1 : list Z) (rel : gset Z) (droot : image)
    (nm1 : list Z) : Prop := {
  rp_identity : inode_number root1 = inode_number root /\ mode root1 = mode root;
  rp_typed : inode_typed root1;
  rp_rel : forall b, b ∈ rel -> b ∈ owned d root;
  rp_droot : forall k x, droot !! k = Some x -> block_wf x /\ ((k ∈ F1) \/ (k ∈ owned d root));
  rp_maps : forall x, agrees droot x -> maps x root1 nm1;
  rp_owned : forall b, b ∈ mapped_blocks root1 nm1 -> (b ∈ F1) \/ ((b ∈ owned d root) /\ b ∉ rel);
  rp_nodup : NoDup (mapped_blocks root1 nm1);
  rp_entries : forall x, agrees droot x -> forall ess, Forall2 record_tiling (file_blocks d root) ess ->
    exists ess', Forall2 record_tiling (map (block_at x) nm1) ess' /\
      inserted key (concat (map block_keys ess)) (concat (map block_keys ess'))
}.

Lemma root_valid : inode_valid r d root /\ inode_number root = root_inode sb /\ inode_typed root.
Proof. by destruct (read_facts r d Ho _ root Hroot) as (_ & H). Qed.

Lemma root_count : i_size root = count * 4096 /\ 0 <= count <= 1036 /\ wrap32 (i_size root / kBlockSize) = count /\
  length old = Z.to_nat count.
Proof.
  destruct root_valid as (Hval & _). destruct (required_spec root (iv_size _ _ _ Hval)) as [Hreq Hrb].
  pose proof (iv_whole _ _ _ Hval Hdir) as Hw. unfold kBlockSize in *.
  pose proof (Z.div_mod (i_size root) 4096 ltac:(lia)) as Hdm. rewrite Hw, Z.add_0_r in Hdm.
  assert (count = i_size root / 4096) as Heq.
  { rewrite Hreq. rewrite Hdm at 1. rewrite (Z.mul_comm 4096), Z.add_comm, Z.div_add, Z.div_small by lia. lia. }
  split; [lia|]. split; [done|]. split; [rewrite <- Heq; apply wrap32_small; word|].
  unfold file_pointers. by rewrite length_map, length_counting.
Qed.

Lemma old_nodup : NoDup (owned d root).
Proof. exact (co_alone _ _ Hc _ root Hroot). Qed.

Lemma old_pointer l : 0 <= l -> pointer d root l = nth (Z.to_nat l) old 0.
Proof.
  intros Hl. destruct root_valid as (Hval & _). destruct root_count as (_ & _ & _ & Hlen).
  destruct (Z.lt_ge_cases l count) as [H|H].
  - unfold file_pointers. rewrite (nth_indep _ 0 (pointer d root 0)) by (rewrite length_map, length_counting; lia).
    rewrite map_nth, nth_counting by lia. f_equal. lia.
  - rewrite nth_overflow by lia. by apply (iv_unused _ _ _ Hval).
Qed.

Lemma old_indirect_none : count <= 12 -> indirect_block root = 0.
Proof.
  intros H. destruct root_valid as (Hval & _). pose proof (iv_indirect _ _ _ Hval) as Hi. change kDirectBlockCount with 12 in Hi.
  by rewrite (proj2 (Z.leb_le _ _) H) in Hi.
Qed.

Lemma old_indirect_some : 12 < count -> indirect_block root <> 0 /\ data_block r (indirect_block root).
Proof.
  intros H. destruct root_valid as (Hval & _). pose proof (iv_indirect _ _ _ Hval) as Hi. change kDirectBlockCount with 12 in Hi.
  by rewrite (proj2 (Z.leb_gt _ _) H) in Hi.
Qed.

Lemma old_mapped : owned d root = mapped_blocks root old.
Proof.
  unfold owned, mapped_blocks. f_equal. destruct (Z.ltb_spec 12 count) as [H|H].
  - by rewrite (proj2 (Z.eqb_neq _ _) (proj1 (old_indirect_some H))).
  - by rewrite (old_indirect_none H).
Qed.

Lemma blocks_of_pointers x : map (block_at x) old = map (fun l => block_at x (pointer d root l)) (counting count).
Proof. unfold file_pointers. by rewrite map_map. Qed.

(** ** In place *)
Section in_place.
Context (new_entry : DirectoryEntry) (Hact : active_entry new_entry) (l : Z) (after : bytes) (Hl : 0 <= l < count).
Abbreviation db := (pointer d root l).
Context (Hins : forall es, record_tiling (block_at d db) es -> insertion new_entry (block_at d db) es after).

Lemma in_place_plan : block_wf after -> root_plan (entry_key new_entry) root [] ∅ {[db := after]} old.
Proof.
  intros Hwf. destruct root_valid as (Hval & Hnum & Hty). destruct root_count as (Hsz & Hcb & _ & Hlen).
  assert (db ∈ owned d root) as Hdb by (by apply elem_owned_pointer).
  pose proof old_nodup as Hnd. pose proof Hnd as (Hnd1 & Hdis & _)%NoDup_app.
  assert (old !! Z.to_nat l = Some db) as Hlk.
  { rewrite old_pointer by lia. destruct (nth_lookup_or_length old (Z.to_nat l) 0); [done|lia]. }
  assert (forall k, k <> db -> ({[db := after]} : image) !! k = None) as Hone by (intros k Hk; by apply lookup_singleton_ne).
  assert (forall x, agrees {[db := after]} x -> x !! db = Some after /\ forall b, b ∈ owned d root -> b <> db -> x !! b = d !! b) as Hag.
  { intros x [A1 A2]. split; [apply A1, lookup_singleton_eq|]. intros b Hb Hne. apply A2; [done|by apply Hone]. }
  constructor; try done.
  - intros k x. destruct (decide (k = db)) as [->|Hne]; [|by rewrite Hone].
    rewrite lookup_singleton_eq. intros [= <-]. split; [done|by right].
  - intros x Hx. destruct (Hag x Hx) as [A1 A2]. constructor; try apply Hval.
    + lia.
    + intros k Hk. rewrite <- old_pointer by done. unfold pointer, pointers.
      pose proof (iv_indirect _ _ _ Hval) as Hi. destruct (_ <=? _); [done|]. destruct Hi as [Hnz _]. unfold block_at. rewrite A2; [done|..].
      * by apply elem_owned_indirect.
      * intros E. apply (Hdis db); [by apply list_elem_of_lookup_2 in Hlk|]. rewrite (proj2 (Z.eqb_neq _ _) Hnz), E. by left.
    + apply old_indirect_none.
  - rewrite <- old_mapped. intros b Hb. right. split; [done|apply not_elem_of_empty].
  - by rewrite <- old_mapped.
  - intros x Hx ess Hess. destruct (Hag x Hx) as [A1 A2].
    rewrite (file_blocks_pointers d root) in Hess.
    rewrite <- (take_drop_middle old _ _ Hlk) in Hess |- *. rewrite !map_app in Hess |- *. cbn [map] in Hess |- *.
    apply Forall2_app_inv_l in Hess as (ess1 & ess23 & H1 & H23 & ->).
    apply Forall2_cons_inv_l in H23 as (es & ess3 & Hes & H3 & ->).
    destruct (Hins es Hes) as (_ & _ & es' & Ht & Hi). exists (ess1 ++ es' :: ess3).
    rewrite <- (take_drop_middle old _ _ Hlk) in Hnd1. apply NoDup_app in Hnd1 as (N1 & N2 & N3). apply NoDup_cons in N3 as [N3 _].
    assert (forall b, b ∈ take (Z.to_nat l) old ++ drop (S (Z.to_nat l)) old -> block_at x b = block_at d b) as Hsame.
    { intros b Hb. unfold block_at. rewrite A2; [done|..].
      - apply elem_of_app. left. rewrite <- (take_drop_middle old _ _ Hlk). apply elem_of_app. apply elem_of_app in Hb as [?|?]; [by left|right; by right].
      - intros ->. apply elem_of_app in Hb as [Hb|Hb]; [apply (N2 db Hb); by left|by apply N3]. }
    split.
    + apply Forall2_app; [|constructor].
      * erewrite map_ext_in; [exact H1|]. intros b Hb%list_elem_of_In. apply Hsame, elem_of_app. by left.
      * unfold block_at at 1. rewrite A1. exact Ht.
      * erewrite map_ext_in; [exact H3|]. intros b Hb%list_elem_of_In. apply Hsame, elem_of_app. by right.
    + rewrite !map_app, !concat_app. cbn [map concat]. by apply inserted_app.
Qed.
End in_place.

(** ** At the end *)
Section grow.
Context (new_entry : DirectoryEntry) (Hact : active_entry new_entry) (Hu : u32 (de_inode new_entry)) (Hnb : bytes_ok (name new_entry)).
Context (dirb : bytes) (Hdirb : EncodeDirectoryEntry new_entry kBlockSize zero_block = Ok dirb).
Context (db : Z) (Hdb : start_block (data sb) <= db < total_blocks sb) (Hfree : TestBit (block_bitmap_ r) db = false).

Lemma new_block : block_wf dirb /\ exists e, record_tiling dirb [e] /\ block_keys [e] = [entry_key new_entry].
Proof.
  destruct zero_block_wf as [Hzl Hzb]. destruct (encode_suffix _ _ _ _ Hdirb Hzb Hnb Hu) as (H1 & H2 & H3 & H4).
  split; [by split; [rewrite H1|]|]. eexists. split.
  - apply tile_cons; [|exact H4|].
    + intros ->. rewrite Hzl in H1. pose proof BlockLen_Z. cbn in H1. lia.
    + cbn [record_length]. rewrite H3. rewrite drop_ge by (rewrite Hzl; done). constructor.
  - rewrite block_keys_cons. by rewrite decide_True.
Qed.

Lemma fresh_not_owned b : TestBit (block_bitmap_ r) b = false -> b ∉ owned d root.
Proof.
  intros Hb Hin. destruct root_valid as (Hval & _). destruct (owned_data_block r d root b Hval Hin) as [_ Ht]. congruence.
Qed.

Lemma in_old b : b ∈ old -> b ∈ owned d root.
Proof. intros H. apply elem_of_app. by left. Qed.

(** The directory after a block was appended to it. *)
Lemma appended_entries x : x !! db = Some dirb -> (forall b, b ∈ old -> x !! b = d !! b) ->
  forall ess, Forall2 record_tiling (file_blocks d root) ess ->
  exists ess', Forall2 record_tiling (map (block_at x) (old ++ [db])) ess' /\
    inserted (entry_key new_entry) (concat (map block_keys ess)) (concat (map block_keys ess')).
Proof.
  intros Hx Hs ess Hess. destruct new_block as (_ & e & Ht & Hk). rewrite (file_blocks_pointers d root) in Hess.
  exists (ess ++ [[e]]). rewrite !map_app, concat_app. cbn [map concat]. rewrite Hk. split.
  - apply Forall2_app; [|constructor; [|constructor]].
    + erewrite map_ext_in; [exact Hess|]. intros b Hb%list_elem_of_In. unfold block_at. by rewrite Hs.
    + unfold block_at. rewrite Hx. exact Ht.
  - rewrite <- (app_nil_r (concat (map block_keys ess))) at 1.
    rewrite <- (app_nil_r (@nil (Z * DirectoryFileType * bytes))) at 1. apply inserted_app. apply ins_here.
Qed.

Abbreviation size1 := (i_size root + kBlockSize).
Lemma grown_count direct indirect : count < 1036 ->
  required_blocks (with_mapping root size1 direct indirect) = count + 1 /\ 0 <= size1 <= kMaxFileSize /\ size1 mod kBlockSize = 0.
Proof.
  intros Hlt. destruct root_count as (Hsz & Hcb & _). pose proof max_file_size. unfold kBlockSize in *.
  assert (0 <= size1 <= kMaxFileSize) as Hr by (unfold kBlockSize; lia). unfold kBlockSize in Hr.
  destruct (required_spec (with_mapping root (i_size root + 4096) direct indirect) Hr) as [E _]. cbn [i_size with_mapping] in E.
  split; [|split; [done|]].
  - rewrite E, Hsz. replace (count * 4096 + 4096 + 4095) with (4095 + (count + 1) * 4096) by lia. rewrite Z.div_add, Z.div_small by lia. lia.
  - rewrite Hsz. replace (count * 4096 + 4096) with ((count + 1) * 4096) by lia. apply Z.mod_mul. lia.
Qed.

Lemma typed_grown direct indirect : count < 1036 -> length direct = 12%nat -> Forall u32 direct -> u32 indirect ->
  inode_typed (with_mapping root size1 direct indirect).
Proof.
  intros Hlt H1 H2 H3. destruct root_valid as (_ & _ & (T1 & T2 & T3 & T4 & T5 & T6 & T7 & T8 & T9 & T10 & T11 & T12 & T13)).
  destruct (grown_count direct indirect Hlt) as (_ & Hs & _). pose proof max_file_size. unfold inode_typed.
  cbn [with_mapping inode_number mode uid gid link_count i_size atime_ns mtime_ns ctime_ns flags generation direct_blocks indirect_block].
  assert (u64 size1) as Hu64 by word. conj_split; assumption.
Qed.

Lemma grow_direct_plan : count < 12 ->
  root_plan (entry_key new_entry)
    (with_mapping root size1 (<[Z.to_nat count := db]> (direct_blocks root)) (indirect_block root)) [db] ∅ {[db := dirb]} (old ++ [db]).
Proof.
  intros Hlt. destruct root_valid as (Hval & Hnum & Hty). destruct root_count as (Hsz & Hcb & _ & Hlen).
  pose proof (iv_direct _ _ _ Hval) as H12. destruct new_block as (Hwf & _). pose proof (fresh_not_owned db Hfree) as Hno.
  pose proof (old_indirect_none ltac:(lia)) as Hi0. destruct (region_bounds r d Ho) as (_ & Htot & _). pose proof (vo_data _ _ Hv).
  set (root1 := with_mapping _ _ _ _). destruct (grown_count (<[Z.to_nat count := db]> (direct_blocks root)) (indirect_block root) ltac:(lia)) as (Hreq & Hs & Hw).
  fold root1 in Hreq.
  assert (mapped_blocks root1 (old ++ [db]) = old ++ [db]) as Emb
    by (unfold mapped_blocks; rewrite Hreq, (proj2 (Z.ltb_ge _ _)), app_nil_r by lia; done).
  constructor; try done.
  - apply typed_grown; [lia|by rewrite length_insert|apply Forall_insert; [apply Hty|word]|rewrite Hi0; word].
  - intros k x. destruct (decide (k = db)) as [->|Hne].
    + rewrite lookup_singleton_eq. intros [= <-]. split; [done|left; by left].
    + by rewrite lookup_singleton_ne.
  - intros x _. assert (length (direct_blocks root1) = 12%nat) as H12' by (cbn; by rewrite length_insert).
    constructor; try done.
    + apply Hval.
    + rewrite length_app, Hlen, Hreq. cbn. lia.
    + intros l Hl. destruct (Z.lt_ge_cases l 12).
      * rewrite (pointer_direct x root1 l H12') by lia. cbn [root1 with_mapping direct_blocks].
        destruct (decide (l = count)) as [->|Hne].
        -- rewrite app_nth2 by lia. replace (Z.to_nat count - length old)%nat with 0%nat by lia. cbn [nth].
           apply nth_lookup_Some. apply list_lookup_insert_eq. lia.
        -- rewrite nth_lookup, list_lookup_insert_ne by lia. rewrite <- nth_lookup, <- (pointer_direct d root l H12) by lia.
           rewrite old_pointer by lia. destruct (Z.lt_ge_cases l count).
           ++ by rewrite app_nth1 by lia.
           ++ rewrite !nth_overflow; [done|rewrite length_app; cbn; lia|lia].
      * rewrite (pointer_indirect x root1 l H12') by lia. rewrite Hreq, (proj2 (Z.leb_le _ _)) by lia.
        rewrite nth_overflow; [done|]. rewrite length_app, Hlen. cbn. lia.
  - rewrite Emb. intros b [Hb|Hb%list_elem_of_singleton]%elem_of_app; [right|left; subst; by left].
    split; [by apply in_old|apply not_elem_of_empty].
  - rewrite Emb. apply NoDup_app. split; [by pose proof old_nodup as [? _]%NoDup_app|].
    split; [|apply NoDup_singleton]. intros b Hb ->%list_elem_of_singleton. by apply Hno, in_old.
  - intros x [A1 A2]. apply appended_entries; [apply A1, lookup_singleton_eq|]. intros b Hb. apply A2; [by apply in_old|].
    apply lookup_singleton_ne. intros ->. by apply Hno, in_old.
Qed.

(** The copy of the pointers with the new one added. *)
Definition grown_indirect : bytes :=
  PutLe32 (Z.to_nat (count - 12) * 4) db (if indirect_block root =? 0 then zero_block else block_at d (indirect_block root)).

Lemma grow_indirect_plan ri : 12 <= count < 1036 -> start_block (data sb) <= ri < total_blocks sb ->
  TestBit (block_bitmap_ r) ri = false -> ri <> db ->
  root_plan (entry_key new_entry) (with_mapping root size1 (direct_blocks root) ri) [db; ri]
    (if indirect_block root =? 0 then ∅ else {[indirect_block root]}) (<[ri := grown_indirect]> {[db := dirb]}) (old ++ [db]).
Proof.
  intros Hlt Hri Hrfree Hne. destruct root_valid as (Hval & Hnum & Hty). destruct root_count as (Hsz & Hcb & _ & Hlen).
  pose proof (iv_direct _ _ _ Hval) as H12. destruct new_block as (Hwf & _). pose proof (fresh_not_owned db Hfree) as Hno.
  pose proof (fresh_not_owned ri Hrfree) as Hrno. destruct (region_bounds r d Ho) as (_ & Htot & _). pose proof (vo_data _ _ Hv).
  set (root1 := with_mapping _ _ _ _). destruct (grown_count (direct_blocks root) ri ltac:(lia)) as (Hreq & Hs & Hw).
  fold root1 in Hreq. set (rel := if indirect_block root =? 0 then ∅ else {[indirect_block root]}).
  assert (forall b, b ∈ rel -> indirect_block root <> 0 /\ b = indirect_block root) as Hrel.
  { intros b. unfold rel. destruct (Z.eqb_spec (indirect_block root) 0); [by intros ?%not_elem_of_empty|].
    by intros ->%elem_of_singleton. }
  assert (block_wf (if indirect_block root =? 0 then zero_block else block_at d (indirect_block root))) as Hbase.
  { destruct (Z.eqb_spec (indirect_block root) 0); [apply zero_block_wf|].
    destruct (owned_data_block r d root (indirect_block root) Hval) as [Hr _]; [by apply elem_owned_indirect|].
    apply (answer_block r d Hv). lia. }
  assert (mapped_blocks root1 (old ++ [db]) = (old ++ [db]) ++ [ri]) as Emb
    by (unfold mapped_blocks; rewrite Hreq, (proj2 (Z.ltb_lt _ _)) by lia; done).
  constructor; try done.
  - apply typed_grown; [lia|done|apply Hty|word].
  - intros b [Hnz ->]%Hrel. by apply elem_owned_indirect.
  - intros k x. destruct (decide (k = ri)) as [->|Hk].
    + rewrite lookup_insert_eq. intros [= <-]. split; [apply put_word_wf; [done|lia]|left; right; by left].
    + rewrite lookup_insert_ne by done. destruct (decide (k = db)) as [->|Hk2]; [|by rewrite lookup_singleton_ne].
      rewrite lookup_singleton_eq. intros [= <-]. split; [done|left; by left].
  - intros x [A1 A2]. constructor; try done.
    + apply Hval.
    + rewrite length_app, Hlen, Hreq. cbn. lia.
    + intros l Hl. destruct (Z.lt_ge_cases l 12).
      * rewrite (pointer_direct x root1 l H12) by lia. change (direct_blocks root1) with (direct_blocks root).
        rewrite <- (pointer_direct d root l H12) by lia. rewrite old_pointer, app_nth1 by lia. done.
      * rewrite (pointer_indirect x root1 l H12) by lia. rewrite Hreq, (proj2 (Z.leb_gt _ _)) by lia.
        change (indirect_block root1) with ri. unfold block_at. rewrite (A1 ri grown_indirect) by apply lookup_insert_eq.
        change (default [] (Some ?y)) with y. destruct (Z.lt_ge_cases l 1036) as [H1036|H1036].
        2: { rewrite !nth_overflow; [done|rewrite length_app, Hlen; cbn; lia|rewrite length_get_words; lia]. }
        unfold grown_indirect. destruct Hbase as [Hbl Hbb]. rewrite put_word by (done || word || lia).
        destruct (Nat.eqb_spec (Z.to_nat (l - 12)) (Z.to_nat (count - 12))) as [E|E].
        -- rewrite app_nth2 by lia. by replace (Z.to_nat l - length old)%nat with 0%nat by lia.
        -- assert (nth (Z.to_nat (l - 12)) (get_words (if indirect_block root =? 0 then zero_block
               else block_at d (indirect_block root)) 0 1024) 0 = pointer d root l) as ->.
           { rewrite (pointer_indirect d root l H12) by lia. destruct (Z.leb_spec count 12) as [Hc12|Hc12].
             - rewrite (old_indirect_none Hc12). cbn [Z.eqb]. rewrite nth_get_words by lia. apply GetLe32_zero.
             - by rewrite (proj2 (Z.eqb_neq _ _) (proj1 (old_indirect_some Hc12))). }
           rewrite old_pointer by lia. destruct (Z.lt_ge_cases l count).
           ++ by rewrite app_nth1 by lia.
           ++ rewrite !nth_overflow; [done|rewrite length_app; cbn; lia|lia].
    + rewrite Hreq. lia.
  - rewrite Emb. pose proof old_nodup as (_ & Hdis & _)%NoDup_app.
    intros b [[Hb|Hb%list_elem_of_singleton]%elem_of_app|Hb%list_elem_of_singleton]%elem_of_app;
      [right|left; subst; by left|left; subst; right; by left].
    split; [by apply in_old|]. intros [Hnz ->]%Hrel. apply (Hdis _ Hb). rewrite (proj2 (Z.eqb_neq _ _) Hnz). by left.
  - rewrite Emb. apply NoDup_app. split; [apply NoDup_app; split; [by pose proof old_nodup as [? _]%NoDup_app|]|].
    + split; [|apply NoDup_singleton]. intros b Hb ->%list_elem_of_singleton. by apply Hno, in_old.
    + split; [|apply NoDup_singleton]. intros b Hb ->%list_elem_of_singleton.
      apply elem_of_app in Hb as [Hb|Hb%list_elem_of_singleton]; [by apply Hrno, in_old|done].
  - intros x [A1 A2]. apply appended_entries.
    + apply A1. rewrite lookup_insert_ne by done. apply lookup_singleton_eq.
    + intros b Hb. apply A2; [by apply in_old|]. rewrite lookup_insert_ne, lookup_singleton_ne; [done|..]; intros ->;
        [by apply Hno, in_old|by apply Hrno, in_old].
Qed.
End grow.
End root.
