(* ===== verification/ObjectPlans.v ===== *)
(** The new-object planner on a consistent image: once the entry has its place,
    the remaining steps succeed exactly when the blocks of the file are free, and
    the collected images publish the directory and the file together. *)
From S2P Require Import Prelude Codec OndiskFormat OndiskFormatProofs DirectoryEntry OndiskJournal Disk JournalStore.
From S2P Require Import JournalImage JournalStates BitmapAllocator ImageReader ImageReaderProofs ReaderTheorems.
From S2P Require Import LedgerStore FileMutation ConsistentImage PlanProofs FileMutationProofs FileMutationPublish.
From S2P Require Import FileContents Publication NewObject ObjectPublish NewObjectProofs RootPlans.
Open Scope Z_scope.
Open Scope io_scope.

Lemma regular_mode permissions : let m := Z.lor S_IFREG (Z.land permissions 511) in
  u32 m /\ S_ISREG m = true /\ IsKnownMode m = true.
Proof.
  intros m. assert (Z.land m S_IFMT = S_IFREG) as E.
  { unfold m. rewrite Z.land_lor_distr_l, <- Z.land_assoc. change (Z.land 511 S_IFMT) with 0. by rewrite Z.land_0_r. }
  assert (m = S_IFREG + Z.land permissions 511) as Em.
  { unfold m. rewrite <- Z.lxor_lor; [rewrite <- Z.add_nocarry_lxor; [done|]|];
      rewrite Z.land_comm, <- Z.land_assoc; change (Z.land 511 S_IFREG) with 0; apply Z.land_0_r. }
  assert (0 <= Z.land permissions 511 < 512) as Hb.
  { change 511 with (Z.ones 9). rewrite Z.land_ones by lia. apply Z.mod_pos_bound. lia. }
  split; [unfold S_IFREG in Em; word|]. unfold S_ISREG, IsKnownMode. by rewrite E.
Qed.

Lemma encodes_accepted inode : InodeCodec.accepted inode = true -> EncodeInode inode = Ok (encoded_inode inode).
Proof. intros H. unfold encoded_inode. by rewrite (InodeCodec.inode_encode_puts inode H). Qed.

(** A block of a bitmap after the changed blocks were added. *)
Lemma diff_inside region before after count im im' i :
  diff_spec region before after (counting count) im im' -> 0 <= i < count -> im_metadata im !! (start_block region + i) = None ->
  im_metadata im' !! (start_block region + i) = Some (BitmapBlock after i) \/
  (im_metadata im' !! (start_block region + i) = None /\ BitmapBlock before i = BitmapBlock after i).
Proof.
  intros [_ H] Hi Hn. destruct (H (start_block region + i)) as [H1 H2]. replace (start_block region + i - start_block region) with i in H1 by lia.
  destruct (changed_block_em region before after (counting count) (start_block region + i)) as [Hch|Hch].
  - left. by apply H1.
  - right. destruct (H2 Hch) as [-> _]. split; [done|].
    destruct (decide (BitmapBlock before i = BitmapBlock after i)) as [|Hne]; [done|]. destruct Hch. unfold changed_block.
    replace (start_block region + i - start_block region) with i by lia. split; [by apply elem_counting|done].
Qed.

Lemma diff_outside region before after count im im' k :
  diff_spec region before after (counting count) im im' -> k < start_block region \/ start_block region + count <= k ->
  im_metadata im' !! k = im_metadata im !! k.
Proof. intros [_ H] Hk. destruct (H k) as [_ H2]. apply H2. intros [Hin%elem_counting _]. lia. Qed.

Lemma size_list_to_set_le (l : list Z) : (base.size (list_to_set l : gset Z) <= length l)%nat.
Proof.
  induction l as [|x l IH]; [cbn [list_to_set]; rewrite size_empty; lia|]. rewrite list_to_set_cons, size_union_alt, size_singleton. cbn [length].
  assert (base.size (list_to_set l ∖ {[x]} : gset Z) <= base.size (list_to_set l : gset Z))%nat
    by (apply subseteq_size, subseteq_difference_l; reflexivity). lia.
Qed.

(** The active entries of a whole directory. *)
Lemma directory_keys ess : entry_key <$> filter active_entry (concat ess) = concat (map block_keys ess).
Proof. induction ess as [|es ess IH]; [done|]. cbn [concat map]. rewrite filter_app, fmap_app, IH. done. Qed.

Section object.
Context (r : ImageReader) (d : image) (Hc : consistent r d).
Abbreviation sb := (rd_superblock r).
Abbreviation rt := (root_inode sb).
Abbreviation bstart := (start_block (block_bitmap sb)).
Abbreviation bcount := (block_count (block_bitmap sb)).
Abbreviation istart := (start_block (inode_bitmap sb)).
Abbreviation icount := (block_count (inode_bitmap sb)).
Let Ho := co_opened _ _ Hc.
Let Hv := op_view _ _ Ho.
Let Hlay := opened_layout _ _ Ho.

Context (root : InodeRecord) (Hroot : answer d (ReadInode r rt) = Ok root) (Hdir : S_ISDIR (mode root) = true).
(** The directory change. *)
Context (key : Z * DirectoryFileType * bytes) (root1 : InodeRecord) (F1 : list Z) (rel : gset Z) (nm1 : list Z) (im0 : images).
Context (a1 : BitmapAllocator) (T1 : takes (block_allocator r) F1 a1).
Context (Hplan : root_plan d root key root1 F1 rel (im_metadata im0) nm1).
Context (Him0 : sound_images d im0) (Hord0 : im_ordered im0 = ∅).
(** The new file. *)
Context (data : bytes) (permissions user group ts : Z) (Hdata : bytes_ok data) (Hmax : Z.of_nat (length data) <= kMaxFileSize).
Context (Huser : u32 user) (Hgroup : u32 group) (Hts : u64 ts).
Context (n : Z) (ia : BitmapAllocator) (Hn : 1 <= n <= total_inodes sb).
Definition inode_allocator : BitmapAllocator := mkAllocator (inode_bitmap_ r) (total_inodes sb) 0.
Context (Ti : takes inode_allocator [n - 1] ia).

Abbreviation droot := (im_metadata im0).
Abbreviation size := (Z.of_nat (length data)).
Abbreviation cnt := (RequiredBlocks size).
Abbreviation big := (12 <? cnt).
Abbreviation root' := (touched root1 ts).

Section placed.
Context (bs : list Z) (a2 a3 : BitmapAllocator) (fi : Z) (Hbs : length bs = Z.to_nat cnt) (Hfi : big = false -> fi = 0).
Abbreviation F2 := (bs ++ (if big then [fi] else [])).
Context (T2 : takes a1 F2 a2) (G2 : gives a2 rel a3).
Abbreviation afters := (map (replace_after data) (seq 0 (Z.to_nat cnt))).
Abbreviation file := (new_file n permissions user group ts size (resize 12 0 (take 12 bs)) fi).

(** The collected images. *)
Definition data_images : images :=
  mkImages (insert_all (zip bs (block_at d <$> bs)) (im_before im0)) (insert_all (zip bs afters) (im_ordered im0)) droot.
Definition pointer_images : images :=
  if big then add_metadata fi (block_at d fi) (indirect_image (drop 12 bs) zero_block) data_images else data_images.
Definition inode_images : images :=
  put_table sb d n (encoded_inode file) (put_table sb d rt (encoded_inode root') pointer_images).
Definition object_images : images :=
  diff_bitmap (block_bitmap sb) (block_bitmap_ r) (bitmap_ a3) (counting bcount)
    (diff_bitmap (inode_bitmap sb) (inode_bitmap_ r) (bitmap_ ia) (counting icount) inode_images).
Abbreviation meta := (im_metadata object_images).
Abbreviation d' := (applied (im_ordered object_images) meta d).
Abbreviation r' := (with_bitmaps r (bitmap_ ia) (bitmap_ a3)).

Lemma object_ranges : istart = 1 /\ 0 < icount /\ bstart = istart + icount /\ 0 < bcount /\
  bstart + bcount = start_block (inode_table sb) /\ js sb < start_block (OndiskFormat.data sb) < total_blocks sb /\
  start_block (OndiskFormat.data sb) = js sb + block_count (journal sb) /\ start_block (inode_table sb) <= js sb /\ u32 (total_blocks sb).
Proof. exact (ranges r d Hc). Qed.

Lemma F1_free b : b ∈ F1 -> start_block (OndiskFormat.data sb) <= b < total_blocks sb /\ TestBit (block_bitmap_ r) b = false.
Proof. intros Hb. by apply (tk_free _ _ _ T1 b). Qed.

Lemma F2_free b : b ∈ F2 -> start_block (OndiskFormat.data sb) <= b < total_blocks sb /\ TestBit (block_bitmap_ r) b = false /\
  TestBit (bitmap_ a1) b = false /\ b ∉ F1.
Proof.
  intros Hb. destruct (tk_free _ _ _ T2 b Hb) as [Hr Hf]. destruct (tk_range _ _ _ T1) as [V E]. rewrite V, E in Hr. split; [done|].
  pose proof (vo_data _ _ Hv). cbn in Hr. pose proof Hf as Hf'. rewrite (tk_bits _ _ _ T1) in Hf by lia. apply orb_false_elim in Hf as [Hn1 Hf].
  apply bool_decide_eq_false in Hn1. done.
Qed.

Lemma rel_facts b : b ∈ rel -> start_block (OndiskFormat.data sb) <= b < total_blocks sb /\ TestBit (block_bitmap_ r) b = true /\
  TestBit (bitmap_ a1) b = true.
Proof.
  intros Hb. destruct (root_valid r d Hc root Hroot) as (Hval & _).
  destruct (owned_data_block r d root b Hval (rp_rel _ _ _ _ _ _ _ _ Hplan b Hb)) as [Hr Ht]. split; [done|]. split; [done|].
  pose proof (vo_data _ _ Hv). rewrite (tk_bits _ _ _ T1) by lia. cbn [bitmap_ block_allocator]. rewrite Ht. apply orb_true_r.
Qed.

Lemma droot_range k x : droot !! k = Some x -> start_block (OndiskFormat.data sb) <= k < total_blocks sb /\ k ∉ F2.
Proof.
  intros E. destruct (rp_droot _ _ _ _ _ _ _ _ Hplan k x E) as [_ [H|H]].
  - split; [by apply F1_free|]. intros H2. by destruct (F2_free k H2) as (_ & _ & _ & ?).
  - destruct (root_valid r d Hc root Hroot) as (Hval & _). destruct (owned_data_block r d root k Hval H) as [Hr Ht].
    split; [done|]. intros H2. destruct (F2_free k H2) as (_ & ? & _). congruence.
Qed.

Lemma released_exists : exists a1r, gives a1 rel a1r.
Proof.
  destruct (block_allocator_ok r d Ho) as (Hok & _). destruct (tk_range _ _ _ T1) as [V E].
  destruct (release_set rel a1 (tk_ok _ _ _ T1)) as (a1r & _ & G); [|eauto].
  intros b Hb. rewrite V, E. by destruct (rel_facts b Hb) as (? & _ & ?).
Qed.

Lemma file_required : required_blocks file = cnt /\ 0 <= cnt <= 1036.
Proof.
  pose proof (required_agree file ltac:(cbn; lia)) as E. destruct (RequiredBlocks_spec size ltac:(lia)) as [_ Hb].
  by split.
Qed.

Lemma mapped_file : mapped_blocks file bs = F2.
Proof. unfold mapped_blocks. destruct file_required as [-> _]. done. Qed.

Lemma file_typed : inode_typed file /\ InodeCodec.accepted file = true.
Proof.
  destruct (regular_mode permissions) as (Hm & Hreg & Hk). destruct object_ranges as (_ & _ & _ & _ & _ & R6 & _ & _ & Htot).
  assert (forall b, b ∈ F2 -> u32 b) as Hu by (intros b Hb; destruct (F2_free b Hb) as (? & _); pose proof (vo_data _ _ Hv); word).
  destruct (lay_geo _ Hlay) as [(_ & Hti & _) _ _ _ _]. pose proof max_file_size.
  assert (u32 n) by word. assert (u64 size) by word. split.
  - unfold inode_typed, new_file.
    cbn [inode_number mode uid gid link_count i_size atime_ns mtime_ns ctime_ns flags generation direct_blocks indirect_block].
    conj_split; try assumption; try word.
    + apply length_resize.
    + apply Forall_resize; [word|]. apply Forall_take, Forall_forall. intros b Hb. apply Hu, elem_of_app. by left.
    + destruct (sumbool_of_bool big) as [E|E]; [|rewrite (Hfi E); word]. apply Hu, elem_of_app. right. rewrite E. by left.
  - unfold InodeCodec.accepted. cbn [inode_number mode i_size new_file]. rewrite (proj2 (Z.eqb_neq _ _)) by lia.
    by rewrite Hk, (proj2 (Z.leb_le _ _)) by lia.
Qed.

Lemma root_typed : inode_typed root' /\ InodeCodec.accepted root' = true /\ inode_number root' = rt /\ S_ISDIR (mode root') = true.
Proof.
  destruct (rp_typed _ _ _ _ _ _ _ _ Hplan) as (H1 & H2 & H3 & H4 & H5 & H6 & H7 & H8 & H9 & H10 & H11 & H12 & H13).
  destruct (rp_identity _ _ _ _ _ _ _ _ Hplan) as [En Em]. destruct (root_valid r d Hc root Hroot) as (Hval & Hnum & _).
  assert (maps (droot ∪ d) root1 nm1) as Hm.
  { apply (rp_maps _ _ _ _ _ _ _ _ Hplan). split.
    - intros k v E. rewrite lookup_union, E. by destruct (d !! k).
    - intros k _ E. rewrite lookup_union, E. by destruct (d !! k). }
  destruct (read_facts r d Ho rt root Hroot) as (Hrt & _).
  split; [|split; [|split]].
  - unfold inode_typed, touched.
    cbn [inode_number mode uid gid link_count i_size atime_ns mtime_ns ctime_ns flags generation direct_blocks indirect_block].
    conj_split; assumption || apply H12.
  - unfold InodeCodec.accepted. cbn [inode_number mode i_size touched]. rewrite En, Hnum, Em, (iv_mode _ _ _ Hval).
    rewrite (proj2 (Z.eqb_neq _ _)) by lia. pose proof (mp_size _ _ _ Hm). by rewrite (proj2 (Z.leb_le _ _)) by lia.
  - cbn. congruence.
  - cbn. by rewrite Em.
Qed.

Abbreviation table1 := (InodeTableBlock sb rt).
Abbreviation table2 := (InodeTableBlock sb n).
Abbreviation enc1 := (encoded_inode root').
Abbreviation enc2 := (encoded_inode file).

Lemma tables : (start_block (inode_table sb) <= table1 < js sb /\ 0 <= table1 < total_blocks sb) /\
  (start_block (inode_table sb) <= table2 < js sb /\ 0 <= table2 < total_blocks sb).
Proof.
  destruct (read_facts r d Ho rt root Hroot) as (Hrt & _). split; by apply (table_range r d Ho).
Qed.

Lemma inode_spec : diff_spec (inode_bitmap sb) (inode_bitmap_ r) (bitmap_ ia) (counting icount) inode_images
  (diff_bitmap (inode_bitmap sb) (inode_bitmap_ r) (bitmap_ ia) (counting icount) inode_images).
Proof.
  destruct object_ranges as (R1 & R2 & R3 & R4 & R5 & R6 & R7 & R8 & R9). destruct tables as [Q1 Q2].
  apply diff_bitmap_lookup. intros l Hl%elem_counting. word.
Qed.

Lemma block_spec : diff_spec (block_bitmap sb) (block_bitmap_ r) (bitmap_ a3) (counting bcount)
  (diff_bitmap (inode_bitmap sb) (inode_bitmap_ r) (bitmap_ ia) (counting icount) inode_images) object_images.
Proof.
  destruct object_ranges as (R1 & R2 & R3 & R4 & R5 & R6 & R7 & R8 & R9). destruct tables as [Q1 Q2].
  apply diff_bitmap_lookup. intros l Hl%elem_counting. word.
Qed.

Lemma object_ordered : im_ordered object_images = insert_all (zip bs afters) ∅.
Proof.
  destruct block_spec as [-> _]. destruct inode_spec as [-> _]. unfold inode_images. rewrite !put_table_ordered.
  unfold pointer_images. destruct big; cbn [add_metadata im_ordered data_images]; by rewrite Hord0.
Qed.

Lemma pointer_meta k : im_metadata pointer_images !! k =
  if big && bool_decide (k = fi) then Some (indirect_image (drop 12 bs) zero_block) else droot !! k.
Proof.
  unfold pointer_images. destruct big; cbn [andb add_metadata im_metadata data_images]; [|done].
  case_bool_decide as E; [subst; by rewrite lookup_insert_eq|by rewrite lookup_insert_ne].
Qed.

Lemma pointer_low k : k < start_block (OndiskFormat.data sb) -> im_metadata pointer_images !! k = None.
Proof.
  intros Hk. rewrite pointer_meta. destruct (big && bool_decide (k = fi)) eqn:E.
  - apply andb_prop in E as [Eb Ek%bool_decide_eq_true]. destruct (F2_free fi) as (Hr & _); [|lia].
    apply elem_of_app. right. rewrite Eb. by left.
  - destruct (droot !! k) as [x|] eqn:Ed; [|done]. destruct (droot_range k x Ed). lia.
Qed.

(** The table blocks, and every other metadata block outside the bitmaps. *)
Abbreviation block1 := (put_inode rt enc1 (block_at d table1)).
Lemma inode_meta k : im_metadata inode_images !! k =
  if decide (k = table2) then Some (put_inode n enc2 (if decide (table2 = table1) then block1 else block_at d table2))
  else if decide (k = table1) then Some block1
  else im_metadata pointer_images !! k.
Proof.
  destruct tables as [Q1 Q2]. destruct object_ranges as (R1 & R2 & R3 & R4 & R5 & R6 & R7 & R8 & R9).
  unfold inode_images. rewrite put_table_lookup. destruct (decide (k = table2)) as [->|Hne].
  - rewrite put_table_lookup, (pointer_low table2) by lia. destruct (decide (table2 = table1)) as [E|E]; [|done].
    rewrite E. done.
  - rewrite put_table_lookup. destruct (decide (k = table1)) as [->|Hne1]; [|done]. by rewrite (pointer_low table1) by lia.
Qed.

Lemma meta_outside k : k < istart \/ bstart + bcount <= k -> meta !! k = im_metadata inode_images !! k.
Proof.
  destruct object_ranges as (R1 & R2 & R3 & R4 & R5 & R6 & R7 & R8 & R9). intros Hk.
  rewrite (diff_outside _ _ _ _ _ _ k block_spec) by lia. by rewrite (diff_outside _ _ _ _ _ _ k inode_spec) by lia.
Qed.

Lemma inode_low k : k < start_block (inode_table sb) -> im_metadata inode_images !! k = None.
Proof.
  destruct tables as [Q1 Q2]. destruct object_ranges as (R1 & R2 & R3 & R4 & R5 & R6 & R7 & R8 & R9). intros Hk.
  rewrite inode_meta, !decide_False by lia. apply pointer_low. lia.
Qed.

Lemma ordered_low k : k ∉ bs -> im_ordered object_images !! k = None.
Proof. intros Hk. rewrite object_ordered. apply insert_all_none; [|done]. rewrite length_map, length_seq. lia. Qed.

Lemma not_data k : k < start_block (OndiskFormat.data sb) -> k ∉ bs.
Proof. intros Hk Hin. destruct (F2_free k) as (Hr & _); [apply elem_of_app; by left|]. lia. Qed.

Lemma object_inode_bitmap i : 0 <= i < icount -> block_at d' (istart + i) = BitmapBlock (bitmap_ ia) i.
Proof.
  intros Hi. destruct object_ranges as (R1 & R2 & R3 & R4 & R5 & R6 & R7 & R8 & R9).
  unfold block_at. rewrite lookup_applied. rewrite (diff_outside _ _ _ _ _ _ (istart + i) block_spec) by lia.
  destruct (diff_inside _ _ _ _ _ _ i inode_spec Hi) as [->|[-> E]]; [apply inode_low; lia|done|].
  rewrite ordered_low by (apply not_data; lia). fold (block_at d (istart + i)). rewrite <- E.
  destruct (inode_bitmap_bytes r d Ho) as (-> & _). symmetry. apply region_block; [|done]. apply (view_region r d Hv); lia.
Qed.

Lemma object_block_bitmap i : 0 <= i < bcount -> block_at d' (bstart + i) = BitmapBlock (bitmap_ a3) i.
Proof.
  intros Hi. destruct object_ranges as (R1 & R2 & R3 & R4 & R5 & R6 & R7 & R8 & R9).
  unfold block_at. rewrite lookup_applied.
  destruct (diff_inside _ _ _ _ _ _ i block_spec Hi) as [->|[-> E]]; [|done|].
  { rewrite (diff_outside _ _ _ _ _ _ (bstart + i) inode_spec) by lia. apply inode_low. lia. }
  rewrite ordered_low by (apply not_data; lia). fold (block_at d (bstart + i)). rewrite <- E.
  destruct (block_bitmap_bytes r d Ho) as (-> & _). symmetry. apply region_block; [|done]. apply (view_region r d Hv); lia.
Qed.

Lemma object_data (i : nat) b x : bs !! i = Some b -> afters !! i = Some x -> d' !! b = Some x.
Proof.
  intros Hb Hx. assert (b ∈ bs) as Hin by (by apply list_elem_of_lookup_2 in Hb).
  destruct (F2_free b) as (Hr & _); [apply elem_of_app; by left|]. destruct tables as [Q1 Q2].
  destruct object_ranges as (R1 & R2 & R3 & R4 & R5 & R6 & R7 & R8 & R9).
  rewrite lookup_applied, meta_outside, inode_meta, !decide_False, pointer_meta by lia.
  assert (big && bool_decide (b = fi) = false) as ->.
  { apply not_true_is_false. intros [E Eb%bool_decide_eq_true]%andb_prop. pose proof (tk_nodup _ _ _ T2) as (_ & Hx2 & _)%NoDup_app.
    apply (Hx2 b Hin). rewrite E, Eb. by left. }
  destruct (droot !! b) as [y|] eqn:Ed; [destruct (droot_range b y Ed) as [_ []]; apply elem_of_app; by left|].
  rewrite object_ordered. rewrite (insert_all_lookup bs afters i b x); [done| |rewrite length_map, length_seq; lia|done|done].
  by pose proof (tk_nodup _ _ _ T2) as [? _]%NoDup_app.
Qed.

Lemma object_pointers : big = true -> d' !! fi = Some (indirect_image (drop 12 bs) zero_block).
Proof.
  intros E. destruct (F2_free fi) as (Hr & _); [apply elem_of_app; right; rewrite E; by left|]. destruct tables as [Q1 Q2].
  destruct object_ranges as (R1 & R2 & R3 & R4 & R5 & R6 & R7 & R8 & R9).
  rewrite lookup_applied, meta_outside, inode_meta, !decide_False, pointer_meta by lia. by rewrite E, bool_decide_eq_true_2.
Qed.

(** ** Against the image with only the directory changed *)
Context (a1r : BitmapAllocator) (G1 : gives a1 rel a1r).
Abbreviation middle := (step1 r d enc1 droot a1r).

Lemma root_encodes : EncodeInode root' = Ok enc1.
Proof. apply encodes_accepted. apply root_typed. Qed.
Lemma file_encodes : EncodeInode file = Ok enc2.
Proof. apply encodes_accepted. apply file_typed. Qed.

Lemma object_table : d' !! table2 = Some (put_inode n enc2 (block_at middle table2)).
Proof.
  destruct tables as [Q1 Q2]. destruct object_ranges as (R1 & R2 & R3 & R4 & R5 & R6 & R7 & R8 & R9).
  rewrite lookup_applied, meta_outside, inode_meta, decide_True by (done || lia). do 2 f_equal.
  destruct (decide (table2 = table1)) as [E|E].
  - rewrite E. unfold block_at at 2. by rewrite step1_table.
  - unfold block_at. rewrite step1_kept; [done|done|lia|]. destruct (droot !! table2) as [x|] eqn:Ed; [|done].
    destruct (droot_range _ x Ed). lia.
Qed.

Lemma object_other k : k <> table2 -> k < istart \/ bstart + bcount <= k -> k ∉ F2 -> d' !! k = middle !! k.
Proof.
  intros Hk Hr HF. destruct tables as [Q1 Q2]. destruct object_ranges as (R1 & R2 & R3 & R4 & R5 & R6 & R7 & R8 & R9).
  rewrite not_elem_of_app in HF. destruct HF as [Hb Hf].
  rewrite lookup_applied, meta_outside, inode_meta, decide_False by done.
  destruct (decide (k = table1)) as [->|Hne]; [by rewrite step1_table|]. rewrite step1_else by lia. rewrite pointer_meta.
  assert (big && bool_decide (k = fi) = false) as ->.
  { apply not_true_is_false. intros [E Eb%bool_decide_eq_true]%andb_prop. apply Hf. rewrite E, Eb. by left. }
  rewrite ordered_low by done. by destruct (droot !! k).
Qed.

Lemma object_some k : 0 <= k < total_blocks sb -> is_Some (d' !! k).
Proof.
  intros Hk. rewrite lookup_applied. destruct (meta !! k); [done|]. destruct (im_ordered _ !! k); [done|].
  destruct (vo_blocks _ _ Hv k Hk) as (b & -> & _). done.
Qed.

Lemma block_bits j : 0 <= j -> TestBit (bitmap_ a3) j = bool_decide (j ∈ F2) || TestBit (bitmap_ a1r) j.
Proof.
  intros Hj. rewrite (gv_bits _ _ _ G2), (gv_bits _ _ _ G1), (tk_bits _ _ _ T2) by done.
  destruct (decide (j ∈ F2)) as [HF|HF]; [|by rewrite (bool_decide_eq_false_2 (j ∈ F2)) by done].
  rewrite (bool_decide_eq_true_2 (j ∈ F2)) by done. cbn [orb]. rewrite andb_true_r. apply negb_true_iff, bool_decide_eq_false.
  intros Hr. destruct (rel_facts j Hr) as (_ & _ & H1). destruct (F2_free j HF) as (_ & _ & H2 & _). congruence.
Qed.

Lemma bitmap_lengths : length (bitmap_ ia) = length (inode_bitmap_ r) /\ length (bitmap_ a3) = length (bitmap_ a1r).
Proof.
  split; [exact (tk_length _ _ _ Ti)|]. rewrite (gv_length _ _ _ G2), (tk_length _ _ _ T2), (gv_length _ _ _ G1). done.
Qed.

Lemma bitmap_sizes : Z.of_nat (length (bitmap_ ia)) = icount * 4096 /\ Z.of_nat (length (bitmap_ a3)) = bcount * 4096.
Proof.
  destruct (inode_bitmap_bytes r d Ho) as (_ & _ & Hi). destruct (block_bitmap_bytes r d Ho) as (_ & _ & Hb).
  destruct bitmap_lengths as [E1 E2]. rewrite E1, E2, (gv_length _ _ _ G1), (tk_length _ _ _ T1). done.
Qed.

Lemma inode_free : TestBit (inode_bitmap_ r) (n - 1) = false.
Proof. exact (proj2 (tk_free _ _ _ Ti (n - 1) ltac:(by left))). Qed.

Lemma inode_bits j : 0 <= j -> TestBit (bitmap_ ia) j = (j =? n - 1) || TestBit (inode_bitmap_ r) j.
Proof.
  intros Hj. rewrite (tk_bits _ _ _ Ti) by done. f_equal. destruct (Z.eqb_spec j (n - 1)) as [->|Hne].
  - apply bool_decide_eq_true. by left.
  - apply bool_decide_eq_false. by intros ->%list_elem_of_singleton.
Qed.

Lemma afters_wf : Forall block_wf afters.
Proof.
  apply Forall_fmap, Forall_forall. intros l [_ Hl]%elem_of_seq. apply replace_after_wf; [done|].
  destruct (RequiredBlocks_spec size ltac:(lia)) as [E _].
  pose proof (Z.div_mod (size + 4095) 4096 ltac:(lia)). pose proof (Z.mod_pos_bound (size + 4095) 4096 ltac:(lia)). lia.
Qed.

Lemma diff_wf region before after count im im' k x : diff_spec region before after (counting count) im im' ->
  bytes_ok after -> Z.of_nat (length after) = count * 4096 -> im_metadata im' !! k = Some x ->
  block_wf x \/ im_metadata im !! k = Some x.
Proof.
  intros [_ H] Hb Hl E. destruct (H k) as [H1 H2].
  destruct (changed_block_em region before after (counting count) k) as [Hch|Hch].
  - left. destruct (H1 Hch) as [E1 _]. rewrite E1 in E. injection E as <-. destruct Hch as [Hin%elem_counting _].
    apply BitmapBlock_wf; [done|lia|lia].
  - right. destruct (H2 Hch) as [<- _]. done.
Qed.

Lemma object_wf k b : d' !! k = Some b -> block_wf b.
Proof.
  destruct bitmap_sizes as [Hi Hb]. destruct (read_facts r d Ho rt root Hroot) as (Hrt & _).
  destruct (inode_encode_wf _ _ (proj1 root_typed) root_encodes) as [L1 B1].
  destruct (inode_encode_wf _ _ (proj1 file_typed) file_encodes) as [L2 B2].
  pose proof (table_wf r d Ho rt enc1 Hrt L1 B1) as Hb1. rewrite lookup_applied.
  destruct (meta !! k) as [x|] eqn:Em.
  - intros [= <-]. destruct (diff_wf _ _ _ _ _ _ k x block_spec (proj1 (gv_ok _ _ _ G2)) Hb Em) as [|Em1]; [done|].
    destruct (diff_wf _ _ _ _ _ _ k x inode_spec (proj1 (tk_ok _ _ _ Ti)) Hi Em1) as [|Em2]; [done|].
    rewrite inode_meta in Em2. destruct (decide (k = table2)).
    + injection Em2 as <-. destruct (decide (table2 = table1)) as [E|E].
      * unfold put_inode at 1. destruct Hb1 as [Hl1 Hok1].
        split; [rewrite length_splice; [done|]; rewrite L2, Hl1; apply offset_in_block|by apply bytes_ok_splice].
      * by apply (table_wf r d Ho n enc2 Hn L2 B2).
    + destruct (decide (k = table1)); [by injection Em2 as <-|]. rewrite pointer_meta in Em2. destruct (big && _).
      * injection Em2 as <-. apply indirect_image_wf. rewrite length_drop, Hbs. destruct file_required. lia.
      * by apply (rp_droot _ _ _ _ _ _ _ _ Hplan k x).
  - destruct (im_ordered object_images !! k) as [x|] eqn:Eo; [|apply (vo_wf _ _ Hv k)].
    intros [= <-]. rewrite object_ordered in Eo. apply insert_all_values in Eo. by apply (proj1 (Forall_forall _ _) afters_wf).
Qed.

Lemma object_maps : maps d' file bs.
Proof.
  destruct file_required as [Hreq Hcb]. destruct (regular_mode permissions) as (_ & Hreg & Hk).
  destruct object_ranges as (_ & _ & _ & _ & _ & R6 & _ & _ & R9). pose proof (vo_data _ _ Hv).
  apply fresh_maps; try done.
  - cbn. lia.
  - rewrite Hreq, Hbs. lia.
  - apply Forall_forall. intros b Hb. destruct (F2_free b) as (Hr & _); [apply elem_of_app; by left|]. word.
  - rewrite Hreq. intros H12. cbn [new_file indirect_block]. unfold block_at. rewrite object_pointers; [done|by apply Z.ltb_lt].
  - rewrite Hreq. intros H12. cbn [new_file indirect_block]. apply Hfi. by apply Z.ltb_ge.
Qed.

(** Both inodes are in place and every other file is as it was. *)
Lemma object_published :
  consistent r' d' /\ answer d' (ReadInode r' rt) = Ok root' /\ answer d' (ReadInode r' n) = Ok file /\
  file_pointers d' file = bs /\ file_blocks d' root' = map (block_at d') nm1 /\ agrees d root droot d' /\
  (forall k J, k <> rt -> k <> n -> answer d (ReadInode r k) = Ok J ->
     answer d' (ReadInode r' k) = Ok J /\ owned d' J = owned d J /\ file_blocks d' J = file_blocks d J).
Proof.
  destruct root_typed as (Hty1 & _ & Hnum1 & Hdir1). destruct file_typed as (Hty2 & _).
  destruct tables as [Q1 Q2]. destruct object_ranges as (R1 & R2 & R3 & R4 & R5 & R6 & R7 & R8 & R9).
  assert (forall x, (forall k v, droot !! k = Some v -> x !! k = Some v) ->
    (forall k, k ∈ owned d root -> droot !! k = None -> x !! k = d !! k) -> maps x root' nm1) as Hmaps1.
  { intros x A1 A2. destruct (rp_maps _ _ _ _ _ _ _ _ Hplan x (conj A1 A2)). by constructor. }
  destruct (step1_published r d Hc root root' enc1 droot F1 rel nm1 a1 a1r Hroot Hdir1 root_encodes Hty1 Hnum1 T1 G1
    (rp_rel _ _ _ _ _ _ _ _ Hplan) (rp_droot _ _ _ _ _ _ _ _ Hplan) Hmaps1 (rp_owned _ _ _ _ _ _ _ _ Hplan)
    (rp_nodup _ _ _ _ _ _ _ _ Hplan)) as (Hc1 & Hr1 & Hk1).
  assert (forall b, b ∈ mapped_blocks file bs -> start_block (OndiskFormat.data sb) <= b < total_blocks sb /\ TestBit (bitmap_ a1r) b = false) as HF.
  { rewrite mapped_file. intros b Hb. destruct (F2_free b Hb) as (Hr & _ & Hf & _). split; [done|]. pose proof (vo_data _ _ Hv).
    rewrite (gv_bits _ _ _ G1), Hf by lia. apply andb_false_r. }
  assert (NoDup (mapped_blocks file bs)) as Hnd by (rewrite mapped_file; apply (tk_nodup _ _ _ T2)).
  assert (forall j, 0 <= j -> TestBit (bitmap_ a3) j = bool_decide (j ∈ mapped_blocks file bs) || TestBit (bitmap_ a1r) j) as Hbits
    by (intros j Hj; rewrite mapped_file; by apply block_bits).
  assert (forall k, k <> table2 -> k < istart \/ bstart + bcount <= k -> k ∉ mapped_blocks file bs -> d' !! k = middle !! k) as Hother
    by (rewrite mapped_file; exact object_other).
  destruct (create_published (with_bitmaps r (inode_bitmap_ r) (bitmap_ a1r)) middle Hc1 n Hn inode_free file enc2 bs file_encodes Hty2 eq_refl
    HF Hnd (bitmap_ ia) (bitmap_ a3) bitmap_lengths inode_bits Hbits d' object_table object_inode_bitmap object_block_bitmap
    Hother object_some object_wf object_maps) as (Hc2 & Hf2 & Hp2 & Hk2).
  change (with_bitmaps (with_bitmaps r (inode_bitmap_ r) (bitmap_ a1r)) (bitmap_ ia) (bitmap_ a3)) with r' in *.
  assert (rt <> n) as Hrn.
  { intros E. pose proof (root_allocated r d Hc root Hroot) as Ha. unfold IsInodeAllocated in Ha. rewrite E, inode_free, andb_false_r in Ha. done. }
  destruct (Hk2 rt root' Hrn Hr1) as (Hroot2 & _ & Hb2).
  destruct (root_valid r d Hc root Hroot) as (Hval & _).
  assert (agrees d root droot d') as Hag.
  { split.
    - intros k v E. destruct (droot_range k v E) as [Hr Hn2]. rewrite object_other by (done || lia).
      exact (step1_droot r d Hc root enc1 droot F1 a1 a1r Hroot T1 (rp_droot _ _ _ _ _ _ _ _ Hplan) k v E).
    - intros k Hk E. destruct (owned_data_block r d root k Hval Hk) as [Hr Ht].
      assert (k ∉ F2) as Hn2 by (intros H2; destruct (F2_free k H2) as (_ & ? & _); congruence).
      rewrite object_other by (done || lia). apply step1_kept; [lia|lia|done]. }
  split; [exact Hc2|]. split; [exact Hroot2|]. split; [exact Hf2|]. split; [exact Hp2|]. split; [|split; [exact Hag|]].
  - rewrite (file_blocks_pointers d' root'). f_equal. apply mapped_pointers. by apply Hmaps1; apply Hag.
  - intros k J Hkr Hkn EJ. destruct (Hk1 k J Hkr EJ) as (E1 & O1 & E2). destruct (Hk2 k J Hkn E1) as (E3 & O2 & E4).
    split; [done|]. split; congruence.
Qed.

(** ** The images as a transaction *)
Lemma object_sound : sound_images d object_images.
Proof.
  destruct (read_facts r d Ho rt root Hroot) as (Hrt & _). destruct tables as [Q1 Q2].
  destruct object_ranges as (R1 & R2 & R3 & R4 & R5 & R6 & R7 & R8 & R9).
  assert (forall b, b ∈ F2 -> 0 <= b < total_blocks sb) as HF by (intros b Hb; destruct (F2_free b Hb) as (? & _); pose proof (vo_data _ _ Hv); lia).
  assert (sound_images d data_images) as Hd.
  { apply sound_ordered; [rewrite length_map, length_seq; lia| |done]. intros b Hb.
    destruct (vo_blocks _ _ Hv b) as (x & -> & _); [|done]. apply HF, elem_of_app. by left. }
  assert (sound_images d pointer_images) as Hp.
  { unfold pointer_images. destruct (sumbool_of_bool big) as [E|E]; rewrite E; [|done]. apply sound_add_metadata; [|done].
    apply (disk_block r d Hc), HF, elem_of_app. right. rewrite E. by left. }
  apply sound_diff; [|apply sound_diff; [|by do 2 (apply (put_table_sound r d Hc); [done|])]].
  - intros l Hl%elem_counting. split; [word|]. rewrite (disk_block r d Hc) by lia. f_equal.
    destruct (block_bitmap_bytes r d Ho) as (-> & _). symmetry. apply region_block; [|done]. apply (view_region r d Hv); lia.
  - intros l Hl%elem_counting. split; [word|]. rewrite (disk_block r d Hc) by lia. f_equal.
    destruct (inode_bitmap_bytes r d Ho) as (-> & _). symmetry. apply region_block; [|done]. apply (view_region r d Hv); lia.
Qed.

(** Where the metadata goes. *)
Lemma meta_places k : is_Some (meta !! k) ->
  (istart <= k < bstart + bcount) \/ k = table1 \/ k = table2 \/ (big = true /\ k = fi) \/ is_Some (droot !! k).
Proof.
  intros Hk. destruct (decide (istart <= k < bstart + bcount)) as [|Hn2]; [by left|]. right.
  rewrite meta_outside, inode_meta in Hk by lia. destruct (decide (k = table2)); [by right; left|].
  destruct (decide (k = table1)); [by left|]. right. right. rewrite pointer_meta in Hk.
  destruct (big && bool_decide (k = fi)) eqn:E; [|by right]. left. by apply andb_prop in E as [? ?%bool_decide_eq_true].
Qed.

Lemma object_publication :
  publication r d (im_before object_images) (im_ordered object_images) meta (total_blocks sb) (sb_filesystem_uuid sb) r'.
Proof.
  destruct tables as [Q1 Q2]. destruct object_ranges as (R1 & R2 & R3 & R4 & R5 & R6 & R7 & R8 & R9). pose proof object_sound as [S1 S2].
  constructor.
  - by split.
  - exact S1.
  - exact S2.
  - intros k x E. assert (k ∈ bs) as Hin by (destruct (decide (k ∈ bs)); [done|]; by rewrite ordered_low in E).
    destruct (F2_free k) as (Hr & Hf & _); [apply elem_of_app; by left|]. pose proof (geo_total _ (lay_geo _ Hlay)). split.
    { unfold BlockIsInRegion. rewrite (proj2 (Z.leb_le _ _)), (proj2 (Z.ltb_lt _ _)) by lia. done. }
    split; [|done]. apply eq_None_not_Some. intros [?|[?|[?|[[Eb ->]|[y Hy]]]]]%meta_places; [lia|lia|lia|..].
    + pose proof (tk_nodup _ _ _ T2) as (_ & Hx & _)%NoDup_app. apply (Hx fi Hin). rewrite Eb. by left.
    + destruct (droot_range k y Hy) as [_ []]. apply elem_of_app. by left.
  - intros k x E. assert (0 < k < total_blocks sb /\ (k < js sb \/ start_block (OndiskFormat.data sb) <= k)) as [H1 H2].
    { destruct (meta_places k (ex_intro _ _ E)) as [?|[->|[->|[[Eb ->]|[y Hy]]]]]; [lia|lia|lia|..].
      - destruct (F2_free fi) as (Hr & _); [apply elem_of_app; right; rewrite Eb; by left|]. lia.
      - destruct (droot_range k y Hy) as [Hr _]. lia. }
    split; [word|]. unfold IsValidMetadataTarget, BlockIsInRegion. change (start_block (journal sb)) with (js sb).
    rewrite (proj2 (Z.eqb_neq _ _)), (proj2 (Z.ltb_lt _ _)) by lia. cbn [negb andb].
    apply negb_true_iff, andb_false_iff. rewrite Z.leb_gt, Z.ltb_ge. lia.
  - intros He. apply (f_equal (fun z => z !! table2)) in He. rewrite lookup_empty, meta_outside, inode_meta in He by lia.
    by rewrite decide_True in He.
  - by eexists _, _.
  - apply object_published.
Qed.

Lemma object_meta_size : (base.size droot <= 2)%nat -> (base.size meta <= Z.to_nat (icount + bcount) + 5)%nat.
Proof.
  intros Hd. destruct object_ranges as (R1 & R2 & R3 & R4 & R5 & R6 & R7 & R8 & R9). rewrite <- size_dom. rewrite <- size_dom in Hd.
  transitivity (base.size (list_to_set (table1 :: table2 :: fi :: seqZ istart (icount + bcount)) ∪ dom droot : gset Z)).
  - apply subseteq_size. intros k Hk%elem_of_dom. rewrite elem_of_union, elem_of_list_to_set, !elem_of_cons, elem_of_seqZ, elem_of_dom.
    destruct (meta_places k Hk) as [?|[->|[->|[[_ ->]|?]]]]; [left; right; right; right; lia|tauto|tauto|tauto|by right].
  - rewrite size_union_alt.
    assert (base.size (dom droot ∖ list_to_set (table1 :: table2 :: fi :: seqZ istart (icount + bcount)) : gset Z) <= base.size (dom droot : gset Z))%nat
      by (apply subseteq_size, subseteq_difference_l; reflexivity).
    pose proof (size_list_to_set_le (table1 :: table2 :: fi :: seqZ istart (icount + bcount))) as Hl. cbn [length] in Hl.
    rewrite length_seqZ in Hl. lia.
Qed.
End placed.
End object.
