(* ===== verification/NewObjectPlans.v ===== *)
(** The outcome of [PrepareNewRootObject] on a consistent image, and what its
    plan promises: a new file with the given contents under the given name. *)
From S2P Require Import Prelude Codec OndiskFormat OndiskFormatProofs DirectoryEntry OndiskJournal Disk JournalStore.
From S2P Require Import JournalImage JournalStates BitmapAllocator ImageReader ImageReaderProofs ReaderTheorems.
From S2P Require Import LedgerStore FileMutation ConsistentImage PlanProofs FileMutationProofs FileMutationPublish.
From S2P Require Import FileContents Publication NewObject ObjectPublish NewObjectProofs RootPlans ObjectPlans.
Open Scope Z_scope.
Open Scope io_scope.

(** The inode of a new object. *)
Record created (file : InodeRecord) (n permissions user group timestamp_ns size : Z) : Prop := {
  cr_number : inode_number file = n;
  cr_mode : mode file = Z.lor S_IFREG (Z.land permissions 511);
  cr_owner : uid file = user /\ gid file = group /\ link_count file = 1;
  cr_size : i_size file = size;
  cr_times : atime_ns file = timestamp_ns /\ mtime_ns file = timestamp_ns /\ ctime_ns file = timestamp_ns;
  cr_generation : generation file = 1
}.

(** What the plan of a new object does to the files: inode [n], free before, is
    the object; the root directory lists it beside its old entries; every other
    file is as it was. *)
Definition creates (r : ImageReader) (d : image) (plan : NewObjectPlan) (object_name data : bytes)
    (permissions user group timestamp_ns : Z) : Prop :=
  let sb := rd_superblock r in
  let rt := root_inode sb in
  let n := np_inode_number plan in
  let ordered := np_ordered_data_after_images plan in
  let meta := np_metadata_after_images plan in
  let d' := applied ordered meta d in
  (base.size meta <= Z.to_nat (block_count (inode_bitmap sb) + block_count (block_bitmap sb)) + 5)%nat /\
  exists r' root root' file,
    publication r d (np_before_images plan) ordered meta (np_total_blocks plan) (np_filesystem_uuid plan) r' /\
    n <> rt /\ file_at r d n = None /\ file_at r' d' n = Some (file, data) /\
    created file n permissions user group timestamp_ns (Z.of_nat (length data)) /\
    answer d (ReadInode r rt) = Ok root /\ answer d' (ReadInode r' rt) = Ok root' /\ mode root' = mode root /\
    keeps r d r' d' (fun k => k = rt \/ k = n) /\
    (forall k, k <> rt -> k <> n -> file_at r' d' k = file_at r d k) /\
    (forall es, directory_lists r d rt es ->
     exists es', directory_lists r' d' rt es' /\ inserted (n, kRegular, object_name) (entry_key <$> es) (entry_key <$> es')).

Section listing.
Context (r r' : ImageReader) (d d' : image) (n : Z) (object_name : bytes).
Abbreviation rt := (root_inode (rd_superblock r)).

(** A directory lists what its keys say. *)
Lemma listing_inserted root root' file es ess' :
  rd_superblock r' = rd_superblock r -> IsInodeAllocated r n = false ->
  view_ok r d -> answer d (ReadInode r rt) = Ok root -> answer d' (ReadInode r' rt) = Ok root' -> mode root' = mode root ->
  S_ISDIR (mode root') = true -> answer d' (ReadInode r' n) = Ok file -> S_ISREG (mode file) = true ->
  (forall k J, k <> rt -> k <> n -> answer d (ReadInode r k) = Ok J -> answer d' (ReadInode r' k) = Ok J) ->
  directory_lists r d rt es -> object_name ∉ (name <$> es) ->
  Forall2 record_tiling (file_blocks d' root') ess' ->
  inserted (n, kRegular, object_name) (entry_key <$> es) (concat (map block_keys ess')) ->
  directory_lists r' d' rt (filter active_entry (concat ess')).
Proof.
  intros Hsb Hna Hv Hr Hr' Hm Hdir Hf Hreg Hk (root0 & ess & _ & _ & _ & Ees & Hnd & Hch) Hnew Ht Hins.
  rewrite <- directory_keys in Hins. set (es' := filter active_entry (concat ess')) in *.
  pose proof (inserted_perm _ _ _ Hins) as Hp.
  assert (forall l, name <$> l = snd <$> (entry_key <$> l)) as Hsnd by (intros l; by rewrite <- list_fmap_compose).
  exists root', ess'. conj_split; try done.
  - rewrite (Hsnd es'), Hp. rewrite fmap_cons. apply NoDup_cons. rewrite <- Hsnd. done.
  - apply Forall_forall. intros e He. assert (entry_key e ∈ (n, kRegular, object_name) :: (entry_key <$> es)) as Hin.
    { rewrite <- Hp. by apply list_elem_of_fmap_2. }
    unfold child_ok. apply elem_of_cons in Hin as [E|(e0 & E & He0)%list_elem_of_fmap].
    + injection E as E1 E2 _. rewrite E1, E2. exists file. split; [done|]. exact Hreg.
    + injection E as E1 E2 _. rewrite E1, E2. destruct (proj1 (Forall_forall _ _) Hch e0 He0) as (J & EJ & Hty).
      destruct (decide (de_inode e0 = rt)) as [Ert|Hne].
      * rewrite Ert in *. rewrite Hr in EJ. injection EJ as <-. exists root'. split; [done|]. by rewrite Hm.
      * exists J. split; [|done]. apply Hk; [done| |done]. intros En.
        destruct (read_inode_valid r d Hv _ _ EJ) as (_ & _ & Ha & _). congruence.
Qed.
End listing.

Section object.
Context (r : ImageReader) (d : image) (Hc : consistent r d).
Abbreviation sb := (rd_superblock r).
Abbreviation rt := (root_inode sb).
Let Ho := co_opened _ _ Hc.
Let Hv := op_view _ _ Ho.

Context (root : InodeRecord) (Hroot : answer d (ReadInode r rt) = Ok root) (Hdir : S_ISDIR (mode root) = true).
Context (object_name data : bytes) (permissions user group ts : Z).
Context (Hdata : bytes_ok data) (Hmax : Z.of_nat (length data) <= kMaxFileSize).
Context (Huser : u32 user) (Hgroup : u32 group) (Hts : u64 ts).
Context (n : Z) (ia : BitmapAllocator) (Hn : 1 <= n <= total_inodes sb) (Ti : takes (inode_allocator r) [n - 1] ia).
Context (es : list DirectoryEntry) (Hlist : directory_lists r d rt es) (Hnew : object_name ∉ (name <$> es)).
Abbreviation key := (n, kRegular, object_name).
Abbreviation cnt := (RequiredBlocks (Z.of_nat (length data))).

Definition file_needs : Z := cnt + (if 12 <? cnt then 1 else 0).

Lemma inode_region l : l ∈ counting (block_count (inode_bitmap sb)) -> 0 <= start_block (inode_bitmap sb) + l < total_blocks sb /\
  BitmapBlock (inode_bitmap_ r) l = block_at d (start_block (inode_bitmap sb) + l).
Proof.
  intros Hl%elem_counting. destruct (ranges r d Hc) as (R1 & R2 & R3 & R4 & R5 & R6 & R7 & R8 & R9). split; [lia|].
  destruct (inode_bitmap_bytes r d Ho) as (-> & _). apply region_block; [|done]. apply (view_region r d Hv); lia.
Qed.

Lemma block_region l : l ∈ counting (block_count (block_bitmap sb)) -> 0 <= start_block (block_bitmap sb) + l < total_blocks sb /\
  BitmapBlock (block_bitmap_ r) l = block_at d (start_block (block_bitmap sb) + l).
Proof.
  intros Hl%elem_counting. destruct (ranges r d Hc) as (R1 & R2 & R3 & R4 & R5 & R6 & R7 & R8 & R9). split; [lia|].
  destruct (block_bitmap_bytes r d Ho) as (-> & _). apply region_block; [|done]. apply (view_region r d Hv); lia.
Qed.

Lemma number_free : IsInodeAllocated r n = false.
Proof.
  unfold IsInodeAllocated. rewrite (proj2 (tk_free _ _ _ Ti (n - 1) ltac:(by left)) : TestBit (inode_bitmap_ r) (n - 1) = false).
  apply andb_false_r.
Qed.

(** The plan's promise, from what its images do to the image. *)
Lemma plan_creates plan r' root1 root' file F1 rel droot nm1 :
  let d' := applied (np_ordered_data_after_images plan) (np_metadata_after_images plan) d in
  np_inode_number plan = n ->
  (base.size (np_metadata_after_images plan) <= Z.to_nat (block_count (inode_bitmap sb) + block_count (block_bitmap sb)) + 5)%nat ->
  publication r d (np_before_images plan) (np_ordered_data_after_images plan) (np_metadata_after_images plan)
    (np_total_blocks plan) (np_filesystem_uuid plan) r' ->
  (forall k, k <> n -> IsInodeAllocated r' k = IsInodeAllocated r k) ->
  root_plan d root key root1 F1 rel droot nm1 -> mode root' = mode root ->
  answer d' (ReadInode r' rt) = Ok root' -> answer d' (ReadInode r' n) = Ok file ->
  created file n permissions user group ts (Z.of_nat (length data)) -> file_bytes d' file = data ->
  file_blocks d' root' = map (block_at d') nm1 -> agrees d root droot d' ->
  (forall k J, k <> rt -> k <> n -> answer d (ReadInode r k) = Ok J ->
     answer d' (ReadInode r' k) = Ok J /\ owned d' J = owned d J /\ file_blocks d' J = file_blocks d J) ->
  creates r d plan object_name data permissions user group ts.
Proof.
  intros d' En Hsz Hpn Hal Hplan Hm Hr' Hf Hcr Hbytes Hblocks Hag Hk.
  assert (rd_superblock r' = sb) as Esb by (destruct (pn_reader _ _ _ _ _ _ _ _ Hpn) as (? & ? & ->); done).
  assert (rt <> n) as Hrn.
  { intros E. destruct (read_inode_valid r d Hv rt root Hroot) as (_ & _ & Ha & _). rewrite E, number_free in Ha. done. }
  assert (S_ISREG (mode file) = true) as Hreg by (rewrite (cr_mode _ _ _ _ _ _ _ Hcr); apply (regular_mode permissions)).
  unfold creates. rewrite En. split; [exact Hsz|]. exists r', root, root', file. fold d'.
  split; [exact Hpn|]. split; [done|]. split; [apply (file_at_none r d n Hv number_free)|].
  split; [rewrite (file_at_ok _ _ _ _ Hf), Hbytes; done|]. split; [exact Hcr|]. split; [exact Hroot|]. split; [exact Hr'|]. split; [exact Hm|].
  split; [intros k J Hch EJ; apply Hk; [tauto|tauto|done]|].
  split.
  - intros k Hkr Hkn. apply file_at_frame; [done|exact (op_view _ _ (co_opened _ _ (pn_consistent _ _ _ _ _ _ _ _ Hpn)))|by apply Hal|].
    intros J EJ. by destruct (Hk k J Hkr Hkn EJ) as (? & _ & ?).
  - intros es0 Hl0. assert (es0 = es) as ->.
    { apply (list_directory_iff r d Hv) in Hl0, Hlist. rewrite Hlist in Hl0. by injection Hl0. }
    pose proof Hlist as (root0 & ess & E0 & _ & Ht & Ees & _). rewrite Hroot in E0. injection E0 as <-.
    destruct (rp_entries _ _ _ _ _ _ _ _ Hplan d' Hag ess Ht) as (ess' & Ht' & Hins). rewrite <- Hblocks in Ht'.
    exists (filter active_entry (concat ess')). rewrite directory_keys. rewrite Ees, directory_keys. split; [|exact Hins].
    eapply (listing_inserted r r' d d' n object_name root root' file es ess'); try eassumption.
    + apply number_free.
    + by rewrite Hm.
    + intros k J H1 H2 H3. by destruct (Hk k J H1 H2 H3).
    + rewrite Ees, directory_keys. exact Hins.
Qed.

(** ** After the entry has its place *)
Lemma publish_outcome root1 F1 rel nm1 im0 a1 db grew ri :
  takes (block_allocator r) F1 a1 -> root_plan d root key root1 F1 rel (im_metadata im0) nm1 ->
  sound_images d im0 -> im_ordered im0 = ∅ -> (base.size (im_metadata im0) <= 2)%nat ->
  rel = (if negb (ri =? 0) && negb (indirect_block root =? 0) then {[indirect_block root]} else ∅) ->
  let run := publish_object r data permissions user group ts n (inode_bitmap_ r) (block_bitmap_ r) ia a1
               (indirect_block root) root1 db grew ri im0 in
  if file_needs <=? Z.of_nat (base.size (free_bits a1))
  then exists plan, answer d run = Ok plan /\ creates r d plan object_name data permissions user group ts
  else answer d run = Err ENOSPC.
Proof.
  intros T1 Hplan Hs Hord Hsz Erel run. destruct (RequiredBlocks_spec (Z.of_nat (length data)) ltac:(lia)) as [_ Hcb].
  pose proof (block_allocator_ok r d Ho) as Ha0. pose proof (plan_alloc_takes r _ _ _ Ha0 T1) as Ha1. pose proof Ha1 as (Hok1 & Hv1 & Hf1).
  unfold run, publish_object. rewrite answer_bind by apply _. change (counting cnt) with (map Z.of_nat (seq 0 (Z.to_nat cnt))).
  rewrite (place_data_answer r d Hc data (Z.to_nat cnt) 0 a1 im0 [] Ha1).
  pose proof (reserve_n_spec (Z.to_nat cnt) a1 Hok1) as Hres. unfold file_needs. destruct (reserve_n (Z.to_nat cnt) a1) as [[ab bs]|er].
  2: { destruct Hres as [-> Hfew]. rewrite (proj2 (Z.leb_gt _ _)) by (destruct (12 <? cnt); lia). reflexivity. }
  destruct Hres as (Tb & Hbs & Hfree). cbn [app]. fold (data_images d im0 data bs).
  pose proof (plan_alloc_takes r _ _ _ Ha1 Tb) as Hab. pose proof Hab as (Hokb & _).
  pose proof (takes_count _ _ _ Hok1 Tb) as Hcount. pose proof (reserve_one ab Hokb) as Hone.
  (* The indirect block of the file. *)
  assert (forall b, b ∈ free_bits ab -> im_metadata (data_images d im0 data bs) !! b = None) as Hnone.
  { intros b [Hbr Hbf]%elem_free_bits. destruct (im_metadata (data_images d im0 data bs) !! b) as [x|] eqn:E; [|done].
    pose proof (vo_data _ _ Hv). destruct (rp_droot _ _ _ _ _ _ _ _ Hplan b x E) as [_ Hin]. destruct Hab as (_ & Vb & Fb). rewrite Vb, Fb in Hbr.
    rewrite (tk_bits _ _ _ Tb), (tk_bits _ _ _ T1) in Hbf by lia. apply orb_false_elim in Hbf as [_ [Hb1 Hb2]%orb_false_elim].
    destruct Hin as [Hin|Hin]; [by rewrite bool_decide_eq_true_2 in Hb1|].
    destruct (root_valid r d Hc root Hroot) as (Hval & _). destruct (owned_data_block r d root b Hval Hin) as [_ Ht]. cbn in Hb2. congruence. }
  rewrite answer_bind by apply _. change kDirectBlockCount with 12.
  assert (answer d (if 12 <? cnt
    then let* (block_allocator, im, file_indirect) := fresh_metadata_block r ab (data_images d im0 data bs) in
         io_ret (block_allocator, set_after file_indirect (indirect_image (drop 12 bs) zero_block) im, file_indirect)
    else io_ret (ab, data_images d im0 data bs, 0)) =
    match (if 12 <? cnt then ReserveBlock ab else Ok (ab, 0)) with
    | Ok (a2, fi) => Ok (a2, pointer_images d im0 data bs fi, fi)
    | Err er => Err er
    end) as ->.
  { unfold pointer_images. destruct (12 <? cnt); [|done]. rewrite answer_bind, (fresh_answer r d Hc ab _ Hab Hnone) by apply _.
    destruct (ReserveBlock ab) as [[a2 fi]|er]; [|done]. unfold set_after, add_metadata, answer, io_ret.
    cbn [snd im_before im_ordered im_metadata]. by rewrite insert_insert_eq. }
  destruct (if 12 <? cnt then ReserveBlock ab else Ok (ab, 0)) as [[a2 fi]|er] eqn:Er.
  2: { destruct (12 <? cnt); [|done]. rewrite Er in Hone. destruct Hone as [-> Hempty]. rewrite Hempty, size_empty in Hcount.
       rewrite (proj2 (Z.leb_gt _ _)) by lia. reflexivity. }
  assert (takes ab (if 12 <? cnt then [fi] else []) a2) as Tf.
  { destruct (12 <? cnt); [by rewrite Er in Hone|]. injection Er as <- _. by apply takes_nil. }
  assert ((12 <? cnt) = false -> fi = 0) as Hfi by (intros E; rewrite E in Er; by injection Er as _ <-).
  assert (takes a1 (bs ++ (if 12 <? cnt then [fi] else [])) a2) as T2 by (by apply (takes_app _ _ ab)).
  assert (cnt + (if 12 <? cnt then 1 else 0) <= Z.of_nat (base.size (free_bits a1))) as Hen.
  { pose proof (takes_count _ _ _ Hokb Tf). destruct (12 <? cnt); cbn [length] in *; lia. }
  rewrite (proj2 (Z.leb_le _ _) Hen).
  (* Releasing the old indirect block of the directory. *)
  assert (exists a3, answer d (if negb (ri =? 0) && negb (indirect_block root =? 0)
    then io_of (release_blocks [indirect_block root] a2) else io_ret a2) = Ok a3 /\ gives a2 rel a3) as (a3 & Ha3 & G2).
  { destruct (negb (ri =? 0) && negb (indirect_block root =? 0)) eqn:Eb.
    - destruct (rel_facts r d Hc root Hroot key root1 F1 rel nm1 im0 a1 T1 Hplan data bs Hbs (indirect_block root)) as (Hr & _ & Ht);
        [rewrite Erel; by apply elem_of_singleton|].
      destruct (tk_range _ _ _ T2) as [V2 E2]. pose proof (vo_data _ _ Hv).
      destruct (release_blocks_ok [indirect_block root] a2 (tk_ok _ _ _ T2)) as (a3 & E & G).
      + apply NoDup_singleton.
      + intros b ->%list_elem_of_singleton. rewrite V2, E2, Hv1, Hf1. split; [done|].
        rewrite (tk_bits _ _ _ T2) by lia. rewrite Ht. apply orb_true_r.
      + exists a3. rewrite answer_of. split; [done|]. rewrite Erel. replace ({[indirect_block root]} : gset Z) with
          (list_to_set [indirect_block root] : gset Z); [done|]. cbn. by rewrite union_empty_r_L.
    - exists a2. split; [done|]. rewrite Erel. constructor; [apply T2|done|done|]. intros j Hj.
      rewrite bool_decide_eq_false_2 by apply not_elem_of_empty. done. }
  rewrite (answer_bind_ok _ _ _ _ _ Ha3).
  destruct (released_exists r d Hc root Hroot key root1 F1 rel nm1 im0 a1 T1 Hplan data bs Hbs) as (a1r & G1).
  destruct (read_facts r d Ho rt root Hroot) as (Hrt & _).
  pose proof (root_encodes r d Hc root Hroot Hdir key root1 F1 rel nm1 im0 Hplan data ts Hts bs Hbs) as He1.
  pose proof (file_encodes r d Hc F1 a1 T1 data permissions user group ts Hmax Huser Hgroup Hts n Hn bs a2 fi Hbs Hfi T2) as He2.
  rewrite (answer_bind_ok _ _ _ _ _ (write_inode_answer r d Hc rt _ _ _ Hrt He1)).
  rewrite (answer_bind_ok _ _ _ _ _ (write_inode_answer r d Hc n _ _ _ Hn He2)).
  pose proof (object_published r d Hc root Hroot Hdir key root1 F1 rel nm1 im0 a1 T1 Hplan Hord data permissions user group ts
    Hdata Hmax Huser Hgroup Hts n ia Hn Ti bs a2 a3 fi Hbs Hfi T2 G2 a1r G1) as Hpub.
  pose proof (object_publication r d Hc root Hroot Hdir key root1 F1 rel nm1 im0 a1 T1 Hplan Hs Hord data permissions user group ts
    Hdata Hmax Huser Hgroup Hts n ia Hn Ti bs a2 a3 fi Hbs Hfi T2 G2 a1r G1) as Hpn.
  pose proof (object_meta_size r d Hc root Hroot key root1 F1 rel nm1 im0 a1 T1 Hplan data permissions user group ts n ia Hn
    bs a2 a3 fi Hbs Hfi T2 Hsz) as Hms.
  fold (inode_images r d root1 im0 data permissions user group ts n bs fi).
  destruct (ranges r d Hc) as (R1 & R2 & R3 & R4 & R5 & R6 & R7 & R8 & R9).
  rewrite (answer_bind_ok _ _ _ _ _ (bitmap_images_answer r d Hc (inode_bitmap sb) (inode_bitmap_ r) (Snapshot ia) _ R9 inode_region _)).
  rewrite (answer_bind_ok _ _ _ _ _ (bitmap_images_answer r d Hc (block_bitmap sb) (block_bitmap_ r) (Snapshot a3) _ R9 block_region _)).
  fold (object_images r d root1 im0 data permissions user group ts n ia bs a3 fi).
  eexists. split; [reflexivity|].
  destruct Hpub as (P1 & P2 & P3 & P4 & P5 & P6 & P7).
  apply (plan_creates _ (with_bitmaps r (bitmap_ ia) (bitmap_ a3)) root1 (touched root1 ts)
    (new_file n permissions user group ts (Z.of_nat (length data)) (resize 12 0 (take 12 bs)) fi) F1 rel (im_metadata im0) nm1);
    cbn [np_inode_number np_before_images np_ordered_data_after_images np_metadata_after_images np_total_blocks np_filesystem_uuid].
  - reflexivity.
  - exact Hms.
  - exact Hpn.
  - intros k Hkn. unfold IsInodeAllocated. cbn [with_bitmaps rd_superblock inode_bitmap_].
    destruct (Z.leb_spec 1 k); [|done]. cbn [andb]. destruct (k <=? total_inodes sb); [|done]. cbn [andb].
    rewrite (inode_bits r n ia Ti (k - 1)) by lia. by rewrite (proj2 (Z.eqb_neq _ _)) by lia.
  - exact Hplan.
  - apply (rp_identity _ _ _ _ _ _ _ _ Hplan).
  - exact P2.
  - exact P3.
  - by constructor.
  - unfold file_bytes. rewrite file_blocks_pointers. replace (file_pointers _ _) with bs by (symmetry; exact P4). cbn [i_size new_file].
    etransitivity; [|exact (replace_contents data Hmax Hdata)]. f_equal. f_equal.
    apply list_eq_same_length with (Z.to_nat cnt); [rewrite ?length_map, ?length_seq; lia..|].
    intros i x y Hi Hx Hy. rewrite list_lookup_fmap in Hx. destruct (bs !! i) as [b|] eqn:Eb; [|done]. injection Hx as <-.
    pose proof (object_data r d Hc root Hroot key root1 F1 rel nm1 im0 a1 T1 Hplan Hord data permissions user group ts n ia Hn
      bs a2 a3 fi Hbs Hfi T2 i b y Eb Hy) as Ey.
    unfold block_at. replace (_ !! b) with (Some y) by (symmetry; exact Ey). reflexivity.
  - exact P5.
  - exact P6.
  - exact P7.
Qed.
End object.

(** Every outcome of [PrepareNewRootObject] on a consistent image: refusals, and
    for an accepted request a plan exactly when the inodes and blocks it needs
    are free. *)
Lemma valid_object_name name : IsValidRootObjectName name = IsValidName name.
Proof. reflexivity. Qed.

(** A record of the directory can be split or reused for a name of [len] bytes. *)
Definition has_room (len : Z) (es : list DirectoryEntry) : bool :=
  existsb (fun e => MinimumDirectoryRecordLength len <=? spare e) es.

Lemma has_room_some len es : Exists (fun e => MinimumDirectoryRecordLength len <= spare e) es -> has_room len es = true.
Proof. intros (e & He & Hle)%Exists_exists. apply existsb_exists. exists e. split; [by apply list_elem_of_In|by apply Z.leb_le]. Qed.

Lemma has_room_none len es : Forall (fun e => spare e < MinimumDirectoryRecordLength len) es -> has_room len es = false.
Proof.
  intros H. apply not_true_is_false. intros (e & He & Hle)%existsb_exists. apply list_elem_of_In in He.
  apply (proj1 (Forall_forall _ _) H) in He. apply Z.leb_le in Hle. lia.
Qed.

Section outcome.
Context (r : ImageReader) (d : image) (Hc : consistent r d).
Abbreviation sb := (rd_superblock r).
Abbreviation rt := (root_inode sb).
Let Ho := co_opened _ _ Hc.
Let Hv := op_view _ _ Ho.

Lemma inode_allocator_ok : alloc_ok (inode_allocator r) /\ Validate (inode_allocator r) = Ok tt.
Proof.
  destruct (region_bounds r d Ho) as (L & _). destruct (inode_bitmap_bytes r d Ho) as (_ & Hb & Hl).
  pose proof (lay_ib_size _ L). pose proof (lay_root _ L).
  assert (total_inodes sb <= capacity_bits (inode_allocator r)) as Hcap by (unfold capacity_bits; cbn; lia).
  split; [split; [done|]; cbn [inode_allocator first_allocatable_bit_ valid_bits_]; lia|].
  unfold Validate. cbn [inode_allocator valid_bits_ first_allocatable_bit_ bitmap_].
  rewrite (proj2 (Z.eqb_neq _ _)), (proj2 (Z.ltb_ge _ 0)) by lia. cbn [orb].
  fold (inode_allocator r). rewrite (proj2 (Z.ltb_ge _ _)) by done.
  change (all_set (inode_bitmap_ r) 0 (Z.to_nat 0)) with true. cbn [negb].
  rewrite (proj2 (all_set_spec _ _ _)); [done|]. intros k Hk. apply (op_inode_tail _ _ Ho). unfold capacity_bits in Hk. cbn in Hk. lia.
Qed.

Context (root : InodeRecord) (Hroot : answer d (ReadInode r rt) = Ok root) (Hdir : S_ISDIR (mode root) = true).
Context (new_entry : DirectoryEntry) (Hact : active_entry new_entry) (Hu : u32 (de_inode new_entry)).
Context (Hty : IsKnownDirectoryFileType (file_type new_entry) = true).
Context (Hname : IsValidName (name new_entry) = true) (Hnb : bytes_ok (name new_entry)).
Context (ess : list (list DirectoryEntry)) (Hess : Forall2 record_tiling (file_blocks d root) ess).
Abbreviation room := (has_room (Z.of_nat (length (name new_entry)))).
Abbreviation count := (required_blocks root).

(** ** The loop over the blocks of the directory *)
Lemma insert_root_answer im : forall ls es, Forall2 (fun l e => record_tiling (block_at d (pointer d root l)) e) ls es ->
  Forall (fun l => 0 <= l < count) ls ->
  let run := insert_into_root r root new_entry ls im in
  if room (concat es)
  then exists l after, l ∈ ls /\ block_wf after /\
    answer d run = Ok (add_metadata (pointer d root l) (block_at d (pointer d root l)) after im, pointer d root l) /\
    forall x, record_tiling (block_at d (pointer d root l)) x -> insertion new_entry (block_at d (pointer d root l)) x after
  else answer d run = Ok (im, 0).
Proof.
  destruct (root_valid r d Hc root Hroot) as (Hval & _).
  induction ls as [|l ls IH]; intros es Hes Hls; inversion Hes as [|? e0 ? es' Ht Hes']; subst; [done|].
  apply Forall_cons in Hls as [Hl Hls]. specialize (IH es' Hes' Hls). cbv zeta in IH |- *. cbn [insert_into_root concat].
  destruct (map_valid r d Hv root l Hval Hl) as [Hm Hp]. destruct (answer_block r d Hv _ Hp) as [_ [Hlen Hb]].
  rewrite (answer_bind_ok _ _ _ _ _ Hm), (answer_bind_ok _ _ _ _ _ (answer_read_block r d Hv _ Hp)).
  assert (forall x, record_tiling (block_at d (pointer d root l)) x ->
    match TryInsertDirectoryEntry new_entry (block_at d (pointer d root l)) with
    | Err _ => False
    | Ok None => room x = false
    | Ok (Some after) => room x = true /\ insertion new_entry (block_at d (pointer d root l)) x after
    end) as Hspec.
  { intros x Hx. pose proof (insert_records_spec new_entry Hact Hu Hty Hname Hnb (S (length (block_at d (pointer d root l)))) _ x
      ltac:(apply Nat.lt_succ_diag_r) Hb Hx) as H.
    fold (TryInsertDirectoryEntry new_entry (block_at d (pointer d root l))) in H.
    destruct (TryInsertDirectoryEntry new_entry _) as [[after|]|]; [|by apply has_room_none|done].
    destruct H as [H1 H2]. split; [by apply has_room_some|done]. }
  unfold has_room. rewrite existsb_app. fold (has_room (Z.of_nat (length (name new_entry)))).
  destruct (TryInsertDirectoryEntry new_entry _) as [[after|]|]; [| |by destruct (Hspec _ Ht)].
  - destruct (Hspec _ Ht) as [Hroom (Ha1 & Ha2 & _)]. fold (has_room (Z.of_nat (length (name new_entry))) e0). rewrite Hroom. cbn [orb].
    exists l, after. split; [by left|]. split; [split; [by rewrite Ha1|done]|]. split; [done|]. intros x Hx. by apply Hspec.
  - fold (has_room (Z.of_nat (length (name new_entry))) e0). rewrite (Hspec _ Ht). cbn [orb].
    fold (has_room (Z.of_nat (length (name new_entry))) (concat es')). destruct (has_room _ (concat es')); [|done].
    destruct IH as (l0 & after & H1 & H2). exists l0, after. split; [by right|done].
Qed.

(** ** A new block at the end of the directory *)
Definition grow_needs : Z := if count <? 12 then 1 else 2.
Abbreviation free := (Z.of_nat (base.size (free_bits (block_allocator r)))).
Abbreviation nothing := (mkImages ∅ ∅ ∅).

Lemma new_block_encodes : exists b, EncodeDirectoryEntry new_entry kBlockSize zero_block = Ok b.
Proof.
  apply encode_fits; try done.
  assert (Z.of_nat (length (name new_entry)) <= 255) as H255.
  { unfold IsValidName, kMaxNameLength in Hname. bool_to_prop. lia. }
  apply minimum_spec; [done|]. unfold kBlockSize. lia.
Qed.

(** What the growth of the directory hands to the rest of the plan. *)
Record grown (a1 : BitmapAllocator) (im : images) (root1 : InodeRecord) (ri : Z) : Prop := {
  gr_plan : exists F1 rel nm1, takes (block_allocator r) F1 a1 /\ Z.of_nat (length F1) = grow_needs /\
    root_plan d root (entry_key new_entry) root1 F1 rel (im_metadata im) nm1 /\
    rel = (if negb (ri =? 0) && negb (indirect_block root =? 0) then {[indirect_block root]} else ∅);
  gr_images : sound_images d im /\ im_ordered im = ∅ /\ (base.size (im_metadata im) <= 2)%nat
}.

Lemma reserve_data a : plan_alloc r a ->
  match ReserveBlock a with
  | Ok (a', b) => takes a [b] a' /\ start_block (OndiskFormat.data sb) <= b < total_blocks sb /\ TestBit (bitmap_ a) b = false /\
      d !! b = Some (block_at d b) /\ b <> 0 /\ plan_alloc r a'
  | Err er => er = ENOSPC /\ base.size (free_bits a) = 0%nat
  end.
Proof.
  intros Ha. pose proof Ha as (Hok & Hv1 & Hf1). pose proof (reserve_one a Hok) as H.
  destruct (ReserveBlock a) as [[a' b]|er]; [|destruct H as [-> ->]; split; [done|apply size_empty]].
  destruct (tk_free _ _ _ H b ltac:(by left)) as [Hb Ht]. rewrite Hv1, Hf1 in Hb.
  destruct (ranges r d Hc) as (R1 & R2 & R3 & R4 & R5 & R6 & R7 & R8 & R9).
  split; [done|]. split; [done|]. split; [done|]. split; [apply (disk_block r d Hc); lia|]. split; [lia|].
  by apply (plan_alloc_takes r a [b]).
Qed.

Lemma grow_root_outcome :
  let run := grow_root r root new_entry count (block_allocator r) nothing in
  if (count <? 1036) && (grow_needs <=? free)
  then exists a1 im root1 db ri, answer d run = Ok (a1, im, root1, db, ri) /\ grown a1 im root1 ri
  else answer d run = Err ENOSPC.
Proof.
  cbv zeta. unfold grow_root. change (kMaxFileSize / kBlockSize) with 1036. rewrite answer_if.
  destruct (Z.leb_spec 1036 count) as [Hge|Hlt]; [by rewrite (proj2 (Z.ltb_ge _ _))|]. rewrite (proj2 (Z.ltb_lt _ _)) by done. cbn [andb].
  pose proof (block_allocator_ok r d Ho) as Ha0. pose proof (reserve_data _ Ha0) as H1.
  rewrite answer_bind by apply _. rewrite (fresh_answer r d Hc _ _ Ha0) by (intros b _; apply lookup_empty).
  unfold grow_needs. destruct (ReserveBlock (block_allocator r)) as [[a1 db]|er].
  2: { destruct H1 as [-> H0]. rewrite (proj2 (Z.leb_gt _ _)) by (destruct (count <? 12); lia). done. }
  destruct H1 as (T1 & Hdb & Hfree & Ed & Hnz & Ha1). destruct new_block_encodes as [dirb Henc]. rewrite Henc.
  pose proof (takes_count _ _ _ (proj1 Ha0) T1) as Hcnt. cbn [length] in Hcnt. change kDirectBlockCount with 12. rewrite answer_if.
  assert (set_after db dirb (add_metadata db (block_at d db) zero_block nothing) = add_metadata db (block_at d db) dirb nothing) as ->.
  { unfold set_after, add_metadata. cbn [im_before im_ordered im_metadata]. by rewrite insert_insert_eq. }
  assert (sound_images d (add_metadata db (block_at d db) dirb nothing)) as Hs1 by (apply sound_add_metadata; [done|apply sound_empty]).
  destruct (Z.ltb_spec count 12) as [H12|H12].
  { rewrite (proj2 (Z.leb_le _ _)) by lia. do 5 eexists. split; [reflexivity|]. constructor.
    - exists [db], ∅, (file_pointers d root ++ [db]). split; [done|]. split; [unfold grow_needs; by rewrite (proj2 (Z.ltb_lt _ _))|]. split; [|done].
      by apply (grow_direct_plan r d Hc root Hroot Hdir new_entry Hact Hu Hnb dirb Henc db Hdb Hfree).
    - split; [done|]. split; [done|]. cbn [im_metadata add_metadata]. rewrite map_size_insert_None by apply lookup_empty.
      rewrite map_size_empty. lia. }
  pose proof (reserve_data _ Ha1) as H2.
  rewrite answer_bind by apply _. rewrite (fresh_answer r d Hc _ _ Ha1).
  2: { intros b [_ Hb]%elem_free_bits. cbn [add_metadata im_metadata]. rewrite lookup_insert_ne; [apply lookup_empty|]. intros ->.
       destruct (ranges r d Hc) as (R1 & R2 & R3 & R4 & R5 & R6 & R7 & R8 & R9).
       rewrite (tk_bits _ _ _ T1), bool_decide_eq_true_2 in Hb by (lia || by left). done. }
  destruct (ReserveBlock a1) as [[a2 ri]|er].
  2: { destruct H2 as [-> H0]. rewrite (proj2 (Z.leb_gt _ _)) by lia. done. }
  destruct H2 as (T2 & Hri & Hrf & Er & Hrz & Ha2). pose proof (takes_count _ _ _ (proj1 Ha1) T2) as Hcnt2. cbn [length] in Hcnt2.
  rewrite (proj2 (Z.leb_le _ _)) by lia. destruct (ranges r d Hc) as (R1 & R2 & R3 & R4 & R5 & R6 & R7 & R8 & R9).
  rewrite (tk_bits _ _ _ T1) in Hrf by lia. apply orb_false_elim in Hrf as [Hrd%bool_decide_eq_false Hrf].
  assert (ri <> db) as Hne by (intros ->; apply Hrd; by left).
  rewrite (answer_bind_ok _ _ _ (if indirect_block root =? 0 then zero_block else block_at d (indirect_block root))); [|apply _|].
  2: { rewrite answer_if. destruct (Z.eqb_spec (indirect_block root) 0) as [|Hi]; [done|]. apply (answer_read_block r d Hv).
       destruct (root_valid r d Hc root Hroot) as (Hval & _).
       destruct (owned_data_block r d root (indirect_block root) Hval) as [Hr _]; [by apply elem_owned_indirect|]. lia. }
  do 5 eexists. split; [reflexivity|].
  change (PutLe32 _ _ _) with (grown_indirect d root db).
  assert (set_after ri (grown_indirect d root db) (add_metadata ri (block_at d ri) zero_block (add_metadata db (block_at d db) dirb nothing)) =
    add_metadata ri (block_at d ri) (grown_indirect d root db) (add_metadata db (block_at d db) dirb nothing)) as ->.
  { unfold set_after, add_metadata. cbn [im_before im_ordered im_metadata]. by rewrite insert_insert_eq. }
  constructor.
  - exists [db; ri], (if indirect_block root =? 0 then ∅ else {[indirect_block root]}), (file_pointers d root ++ [db]).
    split; [by apply (takes_cons _ db a1); [apply Ha0|..]|]. split; [unfold grow_needs; by rewrite (proj2 (Z.ltb_ge _ _))|]. split.
    + by apply (grow_indirect_plan r d Hc root Hroot Hdir new_entry Hact Hu Hnb dirb Henc db Hdb Hfree ri).
    + rewrite (proj2 (Z.eqb_neq ri 0) Hrz). cbn [negb andb]. by destruct (indirect_block root =? 0).
  - split; [by apply sound_add_metadata|]. split; [done|]. cbn [im_metadata add_metadata].
    rewrite map_size_insert_None, map_size_insert_None, map_size_empty;
      [lia|apply lookup_empty|rewrite lookup_insert_ne by done; apply lookup_empty].
Qed.
End outcome.

(** * Requests *)
(** The blocks a new object needs: those of its contents and those of the entry. *)
Definition object_needs (root : InodeRecord) (ess : list (list DirectoryEntry)) (object_name data : bytes) : Z :=
  (if has_room (Z.of_nat (length object_name)) (concat ess) then 0 else grow_needs root) + file_needs data.

Definition object_fits (r : ImageReader) (root : InodeRecord) (ess : list (list DirectoryEntry)) (object_name data : bytes) : bool :=
  negb (bool_decide (free_bits (inode_allocator r) = ∅)) &&
  (has_room (Z.of_nat (length object_name)) (concat ess) || (required_blocks root <? 1036)) &&
  (object_needs root ess object_name data <=? Z.of_nat (base.size (free_bits (block_allocator r)))).

Section request.
Context (r : ImageReader) (d : image) (Hc : consistent r d).
Abbreviation sb := (rd_superblock r).
Abbreviation rt := (root_inode sb).
Let Ho := co_opened _ _ Hc.
Let Hv := op_view _ _ Ho.
Context (root : InodeRecord) (Hroot : answer d (ReadInode r rt) = Ok root) (Hdir : S_ISDIR (mode root) = true).
Context (es : list DirectoryEntry) (Hlist : directory_lists r d rt es).
Context (ess : list (list DirectoryEntry)) (Hess : Forall2 record_tiling (file_blocks d root) ess).
Context (object_name data : bytes) (permissions user group ts : Z).
Context (Hnb : bytes_ok object_name) (Hdata : bytes_ok data) (Huser : u32 user) (Hgroup : u32 group) (Hts : u64 ts).
Abbreviation run := (PrepareNewRootObject r object_name data permissions user group ts).

(** The checks and reads in front of the reservation of an inode number. *)
Lemma object_prefix : IsValidRootObjectName object_name = true -> Z.of_nat (length data) <= kMaxFileSize ->
  object_name ∉ (name <$> es) ->
  answer d run = answer d (
    let* (ia, bit) := io_of (ReserveBlock (inode_allocator r)) in
    let number := wrap32 (bit + 1) in
    let new_entry := mkDirectoryEntry number kRegular object_name 0 in
    let root_block_count := wrap32 (i_size root / kBlockSize) in
    let* (im, directory_block) := insert_into_root r root new_entry (counting root_block_count) (mkImages ∅ ∅ ∅) in
    if directory_block =? 0 then
      let* (ba, im, root', directory_block, root_indirect) :=
        grow_root r root new_entry root_block_count (block_allocator r) im in
      publish_object r data permissions user group ts number (inode_bitmap_ r) (block_bitmap_ r)
        ia ba (indirect_block root) root' directory_block true root_indirect im
    else
      publish_object r data permissions user group ts number (inode_bitmap_ r) (block_bitmap_ r)
        ia (block_allocator r) (indirect_block root) root directory_block false 0 im).
Proof.
  intros Hval Hmax Hnew. unfold PrepareNewRootObject. rewrite Hval. cbn [negb]. rewrite (proj2 (Z.ltb_ge _ _)) by done.
  rewrite (answer_bind_ok _ _ _ _ _ Hroot), Hdir. cbn [negb].
  rewrite (answer_bind_ok _ _ _ _ _ (proj2 (list_directory_iff r d Hv _ _) Hlist)).
  assert (existsb (fun entry => bool_decide (name entry = object_name)) es = false) as ->.
  { apply not_true_is_false. intros (e & He & E%bool_decide_eq_true)%existsb_exists. apply list_elem_of_In in He.
    apply Hnew. rewrite <- E. by apply list_elem_of_fmap_2. }
  destruct (ranges r d Hc) as (R1 & R2 & R3 & R4 & R5 & R6 & R7 & R8 & R9). destruct (region_bounds r d Ho) as (_ & _ & B1 & B2 & _).
  rewrite (answer_bind_ok _ _ _ _ _ (load_region_answer r d Hv (OndiskFormat.inode_bitmap sb) ltac:(lia) B1 ltac:(lia) R9)).
  rewrite (answer_bind_ok _ _ _ _ _ (load_region_answer r d Hv (OndiskFormat.block_bitmap sb) ltac:(lia) B2 ltac:(lia) R9)).
  destruct (inode_bitmap_bytes r d Ho) as (<- & _). destruct (block_bitmap_bytes r d Ho) as (<- & _).
  fold (inode_allocator r) (block_allocator r). destruct (inode_allocator_ok r d Hc) as [Hia HVi].
  rewrite HVi, (allocator_valid r d Ho). done.
Qed.

(** After the refusals: an inode number is reserved and the entry gets a place. *)
Lemma accepted_outcome : IsValidRootObjectName object_name = true -> Z.of_nat (length data) <= kMaxFileSize ->
  object_name ∉ (name <$> es) ->
  if object_fits r root ess object_name data
  then exists plan, answer d run = Ok plan /\ creates r d plan object_name data permissions user group ts
  else answer d run = Err ENOSPC.
Proof.
  intros Hval Hmax Hnew. rewrite object_prefix by done. destruct (inode_allocator_ok r d Hc) as [Hia HVi].
  rewrite answer_of_bind by apply _. pose proof (reserve_one _ Hia) as Hone.
  unfold object_fits. destruct (ReserveBlock (inode_allocator r)) as [[ia bit]|er].
  2: { destruct Hone as [-> He]. by rewrite bool_decide_eq_true_2. }
  destruct (tk_free _ _ _ Hone bit ltac:(by left)) as [Hbit Hbf]. cbn [inode_allocator first_allocatable_bit_ valid_bits_] in Hbit.
  rewrite bool_decide_eq_false_2; [cbn [negb andb]|].
  2: { intros E. apply (not_elem_of_empty (C:=gset Z) bit). rewrite <- E. by apply elem_free_bits. }
  assert (u32 (total_inodes sb)) as Hti by (destruct (geo_typed _ (lay_geo _ (opened_layout _ _ Ho))) as (_ & H & _); exact H).
  cbv zeta. rewrite wrap32_small by word. set (n := bit + 1). assert (1 <= n <= total_inodes sb) as Hn by lia.
  assert (takes (inode_allocator r) [n - 1] ia) as Ti by (replace (n - 1) with bit by lia; done).
  destruct (root_count r d Hc root Hroot Hdir) as (_ & Hcb & -> & _).
  set (new_entry := mkDirectoryEntry n kRegular object_name 0).
  assert (active_entry new_entry) as Hact by (cbn; unfold active_entry; cbn; lia).
  assert (u32 (de_inode new_entry)) as Hu by (cbn; word).
  assert (IsValidName (name new_entry) = true) as Hvn by exact Hval.
  assert (Forall2 (fun l e => record_tiling (block_at d (pointer d root l)) e) (counting (required_blocks root)) ess) as Hess'.
  { unfold file_blocks in Hess. pose proof Hess as Hess2. exact (proj1 (Forall2_fmap_l (fun l => block_at d (pointer d root l)) _ _ _) Hess2). }
  pose proof (insert_root_answer r d Hc root Hroot new_entry Hact Hu eq_refl Hvn Hnb (mkImages ∅ ∅ ∅) _ ess Hess'
    ltac:(apply Forall_forall; intros l; apply elem_counting)) as Hins.
  cbv zeta in Hins. unfold object_needs. change (name new_entry) with object_name in Hins.
  pose proof (block_allocator_ok r d Ho) as (Hba & _).
  pose proof (publish_outcome r d Hc root Hroot Hdir object_name data permissions user group ts Hdata Hmax Huser Hgroup Hts
    n ia Hn Ti es Hlist Hnew) as Hpub.
  destruct (has_room _ (concat ess)).
  - (* A record has room. *)
    destruct Hins as (l & after & Hl%elem_counting & Hwf & Ea & Hi). cbn [orb andb]. rewrite (answer_bind_ok _ _ _ _ _ Ea).
    destruct (root_valid r d Hc root Hroot) as (Hiv & _). destruct (iv_used _ _ _ Hiv l Hl) as [Hnz _].
    rewrite (proj2 (Z.eqb_neq _ _) Hnz).
    apply (Hpub root [] ∅ (file_pointers d root) _ (block_allocator r)).
    + by apply takes_nil.
    + cbn [add_metadata im_metadata]. refine (in_place_plan r d Hc root Hroot Hdir new_entry l after Hl Hi Hwf).
    + apply sound_add_metadata; [|apply sound_empty]. apply (disk_block r d Hc), (map_valid r d Hv root l Hiv Hl).
    + done.
    + cbn [add_metadata im_metadata]. rewrite map_size_insert_None by apply lookup_empty. rewrite map_size_empty. lia.
    + done.
  - (* The directory grows. *)
    cbn [orb]. rewrite (answer_bind_ok _ _ _ _ _ Hins). cbn [Z.eqb].
    pose proof (grow_root_outcome r d Hc root Hroot Hdir new_entry Hact Hu eq_refl Hvn Hnb) as Hgr. cbv zeta in Hgr.
    destruct (required_blocks root <? 1036); cbn [andb] in Hgr |- *; [|rewrite answer_bind, Hgr by apply _; done].
    destruct (Z.leb_spec (grow_needs root) (Z.of_nat (base.size (free_bits (block_allocator r))))) as [Hle|Hgt].
    2: { rewrite (proj2 (Z.leb_gt _ _)); [rewrite answer_bind, Hgr by apply _; done|].
         unfold file_needs. destruct (RequiredBlocks_spec (Z.of_nat (length data)) ltac:(lia)) as [_ Hcb2]. destruct (12 <? _); lia. }
    destruct Hgr as (a1 & im & root1 & db & ri & Ea & [(F1 & rel & nm1 & T1 & Hlen & Hplan & Hrel) (I1 & I2 & I3)]).
    rewrite (answer_bind_ok _ _ _ _ _ Ea). pose proof (takes_count _ _ _ Hba T1) as Hcount.
    specialize (Hpub root1 F1 rel nm1 im a1 db true ri T1 Hplan I1 I2 I3 Hrel). cbv zeta in Hpub.
    replace (grow_needs root + file_needs data <=? Z.of_nat (base.size (free_bits (block_allocator r))))
      with (file_needs data <=? Z.of_nat (base.size (free_bits a1))) by (apply Bool.eq_iff_eq_true; rewrite !Z.leb_le; lia).
    exact Hpub.
Qed.
End request.
