(* ===== verification/FileSystem.v ===== *)
(** The abstract file system as the reader shows it: files by inode number,
    directories as lists of entries, names and paths. Listing a directory and
    resolving a path depend on the abstract files only, so two images with the
    same files list and resolve alike. *)
From S2P Require Import Prelude Codec OndiskFormat OndiskFormatProofs DirectoryEntry Disk JournalStates ImageReader.
From S2P Require Import ImageReaderProofs ReaderTheorems LedgerStore ConsistentImage Publication NewObject.
Open Scope Z_scope.

Definition files : Type := Z -> option (InodeRecord * bytes).

#[export] Instance files_equiv : Equiv files := fun fs fs' => forall n, fs n = fs' n.
#[export] Instance files_equivalence : Equivalence (≡@{files}).
Proof. split; [by intros ? ?|by intros ? ? H ?|intros ? ? ? H1 H2 n; by rewrite H1]. Qed.

(** The blocks of a directory. *)
Definition chunks (b : bytes) : list bytes :=
  map (fun k => slice (k * BlockLen) BlockLen b) (seq 0 (length b / BlockLen)).

Lemma chunks_concat (L : list bytes) : Forall (fun b => length b = BlockLen) L -> chunks (concat L) = L.
Proof.
  intros HL. pose proof BlockLen_Z. unfold chunks. rewrite (length_concat_same BlockLen L HL), Nat.div_mul by lia.
  apply list_eq_same_length with (length L); [done|by rewrite length_map, length_seq|].
  intros i x y Hi Hx Hy. rewrite list_lookup_fmap, lookup_seq_lt in Hx by done. injection Hx as <-.
  pose proof (concat_slice BlockLen L i 0 BlockLen HL Hi ltac:(lia)) as E. rewrite Nat.add_0_r in E. cbn [Nat.add].
  rewrite E. rewrite (nth_lookup_Some L i [] y Hy). unfold slice. rewrite drop_0. apply take_ge.
  apply list_elem_of_lookup_2, (proj1 (Forall_forall _ _) HL) in Hy. lia.
Qed.

(** * Directories *)
Section listing.
Context (fs : files).

Definition child_of (e : DirectoryEntry) : Prop :=
  exists child b, fs (de_inode e) = Some (child, b) /\ IsDirectoryType (file_type e) (mode child) = true.

Definition lists (n : Z) (es : list DirectoryEntry) : Prop :=
  exists inode b ess, fs n = Some (inode, b) /\ S_ISDIR (mode inode) = true /\
    Forall2 record_tiling (chunks b) ess /\ es = filter active_entry (concat ess) /\
    NoDup (name <$> es) /\ Forall child_of es.

(** The inode a name of a directory stands for. *)
Definition names (n : Z) (component : bytes) (m : Z) : Prop :=
  exists es e, lists n es /\ e ∈ es /\ name e = component /\ de_inode e = m.

Inductive path_to : Z -> list bytes -> Z -> Prop :=
| path_here n : path_to n [] n
| path_down n component rest m k : names n component m -> path_to m rest k -> path_to n (component :: rest) k.
End listing.

#[export] Instance lists_proper : Proper ((≡) ==> (=) ==> (=) ==> iff) lists.
Proof.
  assert (forall fs fs' : files, fs ≡ fs' -> forall n es, lists fs n es -> lists fs' n es) as H.
  { intros fs fs' E n es (inode & b & ess & H1 & H2 & H3 & H4 & H5 & H6). exists inode, b, ess. rewrite <- E. conj_split; try done.
    eapply Forall_impl; [exact H6|]. intros e (c & cb & Hc & Ht). exists c, cb. by rewrite <- E. }
  intros fs fs' E n ? <- es ? <-. split; by apply H.
Qed.

#[export] Instance names_proper : Proper ((≡) ==> (=) ==> (=) ==> (=) ==> iff) names.
Proof.
  intros fs fs' E n ? <- c ? <- m ? <-. split; intros (es & e & H & He); exists es, e; (split; [|done]); revert H; by rewrite E.
Qed.

#[export] Instance path_to_proper : Proper ((≡) ==> (=) ==> (=) ==> (=) ==> iff) path_to.
Proof.
  assert (forall fs fs' : files, fs ≡ fs' -> forall n cs m, path_to fs n cs m -> path_to fs' n cs m) as H.
  { intros fs fs' E n cs m. induction 1 as [|n c rest m k Hn _ IH]; [constructor|]. rewrite E in Hn. by econstructor. }
  intros fs fs' E n ? <- cs ? <- m ? <-. split; by apply H.
Qed.

Lemma tiling_unique b es es' : record_tiling b es -> record_tiling b es' -> es = es'.
Proof.
  intros H. revert es'. induction H as [|rest e es Hne E _ IH]; intros es' H'.
  - by apply tiling_nil in H'.
  - inversion H' as [|? e' es'' _ E' H'']; subst; [done|]. rewrite E in E'. injection E' as <-. f_equal. by apply IH.
Qed.

Lemma tilings_unique bs : forall ess ess', Forall2 record_tiling bs ess -> Forall2 record_tiling bs ess' -> ess = ess'.
Proof.
  induction bs as [|b bs IH]; intros ess ess' H H'; inversion H; inversion H'; subst; [done|].
  f_equal; [by eapply tiling_unique|by apply IH].
Qed.

Lemma lists_unique fs n es es' : lists fs n es -> lists fs n es' -> es = es'.
Proof.
  intros (i & b & ess & E & _ & H & -> & _) (i' & b' & ess' & E' & _ & H' & -> & _). rewrite E in E'. injection E' as <- <-.
  by rewrite (tilings_unique _ _ _ H H').
Qed.

Lemma names_unique fs n c m m' : names fs n c m -> names fs n c m' -> m = m'.
Proof.
  intros (es & e & H & He & Hn & <-) (es' & e' & H' & He' & Hn' & <-). rewrite <- (lists_unique _ _ _ _ H H') in He'.
  destruct H as (_ & _ & _ & _ & _ & _ & _ & Hnd & _).
  pose proof (find_unique es e c Hnd He Hn) as F. rewrite (find_unique es e' c Hnd He' Hn') in F. by injection F as ->.
Qed.

(** * The reader shows the abstract files *)
Section reader.
Context (r : ImageReader) (d : image) (Hv : view_ok r d).

Lemma directory_chunks n inode : answer d (ReadInode r n) = Ok inode -> S_ISDIR (mode inode) = true ->
  chunks (file_bytes d inode) = file_blocks d inode.
Proof.
  intros Hi Hd. destruct (read_inode_valid r d Hv n inode Hi) as (Hval & _). pose proof (file_blocks_wf r d Hv inode Hval) as HL.
  destruct (required_spec inode (iv_size _ _ _ Hval)) as [Hreq Hb]. pose proof (iv_whole _ _ _ Hval Hd) as Hw. pose proof BlockLen_Z.
  unfold file_bytes. rewrite take_ge; [by apply chunks_concat|]. rewrite (length_concat_same BlockLen _ HL).
  unfold file_blocks. rewrite length_map, length_counting. unfold kBlockSize in *.
  pose proof (Z.div_mod (i_size inode) 4096 ltac:(lia)) as Hdm. rewrite Hw in Hdm.
  assert (required_blocks inode * 4096 = i_size inode); [|nia]. rewrite Hreq, Hdm.
  replace (4096 * (i_size inode / 4096) + 0 + 4095) with (4095 + (i_size inode / 4096) * 4096) by lia.
  rewrite Z.div_add, Z.div_small by lia. lia.
Qed.

Lemma lists_iff n es : directory_lists r d n es <-> lists (file_at r d) n es.
Proof.
  assert (forall e, child_ok r d e <-> child_of (file_at r d) e) as Hch.
  { intros e. unfold child_ok, child_of, file_at. destruct (answer d (ReadInode r (de_inode e))) as [J|].
    - split; [intros (c & [= <-] & H); eauto|intros (c & b & [= <- _] & H); eauto].
    - split; [by intros (? & ? & _)|by intros (? & ? & ? & _)]. }
  unfold directory_lists, lists. split.
  - intros (inode & ess & Hi & Hd & Ht & He & Hn & Hc). exists inode, (file_bytes d inode), ess.
    rewrite (file_at_ok _ _ _ _ Hi), (directory_chunks n inode Hi Hd). conj_split; try done.
    eapply Forall_impl; [exact Hc|]. intros e. apply Hch.
  - intros (inode & b & ess & Hi & Hd & Ht & He & Hn & Hc). unfold file_at in Hi.
    destruct (answer d (ReadInode r n)) as [J|] eqn:EJ; [|done]. injection Hi as -> <-. exists inode, ess.
    rewrite <- (directory_chunks n inode EJ Hd). conj_split; try done.
    eapply Forall_impl; [exact Hc|]. intros e. apply Hch.
Qed.

Lemma list_directory_files n es : answer d (ListDirectory r n) = Ok es <-> lists (file_at r d) n es.
Proof. rewrite (list_directory_iff r d Hv). apply lists_iff. Qed.

Lemma walk_path n cs m : walk r d n cs m <-> path_to (file_at r d) n cs m.
Proof.
  split.
  - induction 1 as [|n c rest es e m Hl He Hn _ IH]; [constructor|]. eapply path_down; [|exact IH]. exists es, e.
    split; [by apply lists_iff|done].
  - induction 1 as [|n c rest m k (es & e & Hl & He & Hn & <-) _ IH]; [constructor|]. apply lists_iff in Hl. by econstructor.
Qed.

(** Resolving a path finds the file the names lead to. *)
Lemma resolve_files cs n inode b : Forall plain_name cs ->
  (answer d (ResolvePath r (path_of cs)) = Ok (n, inode) /\ file_bytes d inode = b) <->
  path_to (file_at r d) (root_inode (rd_superblock r)) cs n /\ file_at r d n = Some (inode, b).
Proof.
  intros Hcs. rewrite (resolve_path_iff r d Hv cs n inode Hcs), walk_path. unfold file_at at 3.
  destruct (answer d (ReadInode r n)) as [J|]; [|by split; intros [[] ?] || intros []].
  split; [intros [[? [= ->]] <-]; done|intros [? [= -> <-]]; done].
Qed.
End reader.

(** * One more name *)
(** A directory that got an entry keeps its names and has the new one. *)
Lemma inserted_names fs fs' rt n ft object_name es es' :
  lists fs rt es -> lists fs' rt es' -> inserted (n, ft, object_name) (entry_key <$> es) (entry_key <$> es') ->
  forall c m, names fs' rt c m <-> (c = object_name /\ m = n) \/ names fs rt c m.
Proof.
  intros Hl Hl' Hins c m. pose proof (inserted_perm _ _ _ Hins) as Hp.
  assert (forall g l, lists g rt l -> names g rt c m <-> exists t, (m, t, c) ∈ (entry_key <$> l)) as Hiff.
  { intros g l Hg. split.
    - intros (l' & e & Hg' & He & <- & <-). rewrite (lists_unique _ _ _ _ Hg Hg'). exists (file_type e).
      exact (list_elem_of_fmap_2 entry_key l' e He).
    - intros (t & (e & E & He)%list_elem_of_fmap). injection E as -> _ ->. by exists l, e. }
  rewrite (Hiff _ _ Hl), (Hiff _ _ Hl'). setoid_rewrite Hp. setoid_rewrite elem_of_cons. split.
  - intros (t & [[= -> -> ->]|H]); [by left|right; eauto].
  - intros [[-> ->]|(t & H)]; [exists ft; by left|exists t; by right].
Qed.
