(* ===== verification/PlanTheorems.v ===== *)
(** The creation of an object, end to end: every outcome of the planner and what
    executing its plan does to the files and names. *)
From S2P Require Import Prelude Codec OndiskFormat OndiskFormatProofs DirectoryEntry OndiskJournal OndiskJournalProofs.
From S2P Require Import Disk JournalStore JournalImage CrashLogic JournalStates TransactionImages TransactionProofs.
From S2P Require Import JournalExample JournalTheorems BitmapAllocator ImageReader ImageReaderProofs ReaderTheorems.
From S2P Require Import LedgerStore FileMutation ConsistentImage PlanProofs FileMutationProofs FileMutationPublish.
From S2P Require Import FileContents Publication FilePlans FileTheorems NewObject ObjectPublish NewObjectProofs.
From S2P Require Import RootPlans ObjectPlans NewObjectPlans FileSystem.
Open Scope Z_scope.
Open Scope io_scope.

(** * Requests *)
Record object_request (object_name data : bytes) (user group timestamp_ns : Z) : Prop := {
  or_name : bytes_ok object_name;
  or_data : bytes_ok data;
  or_owner : u32 user /\ u32 group;
  or_time : u64 timestamp_ns
}.

(** The root directory of a consistent image with its entries, block by block. *)
Record root_directory (r : ImageReader) (d : image) (root : InodeRecord) (es : list DirectoryEntry)
    (ess : list (list DirectoryEntry)) : Prop := {
  rd_image : consistent r d;
  rd_inode : answer d (ReadInode r (root_inode (rd_superblock r))) = Ok root;
  rd_lists : directory_lists r d (root_inode (rd_superblock r)) es;
  rd_records : Forall2 record_tiling (file_blocks d root) ess
}.

Lemma root_is_directory r d root es ess : root_directory r d root es ess -> S_ISDIR (mode root) = true.
Proof. intros [_ Hi (root0 & ess0 & E & Hd & _) _]. congruence. Qed.

(** * What a created object does to the files *)
(** [fs'] is [fs] with a new file [n] that the root directory names. *)
Record adds_object (rt : Z) (fs fs' : files) (n : Z) (object_name data : bytes) (permissions user group timestamp_ns : Z) : Prop := {
  ao_fresh : fs n = None /\ n <> rt;
  ao_file : exists file, fs' n = Some (file, data) /\ created file n permissions user group timestamp_ns (Z.of_nat (length data));
  ao_names : forall c m, names fs' rt c m <-> (c = object_name /\ m = n) \/ names fs rt c m;
  ao_root : forall root b, fs rt = Some (root, b) -> exists root' b', fs' rt = Some (root', b') /\ mode root' = mode root;
  ao_others : forall k, k <> rt -> k <> n -> fs' k = fs k
}.

Lemma creates_adds r d plan object_name data permissions user group ts es :
  consistent r d -> directory_lists r d (root_inode (rd_superblock r)) es ->
  creates r d plan object_name data permissions user group ts ->
  let d' := applied (np_ordered_data_after_images plan) (np_metadata_after_images plan) d in
  exists r', publication r d (np_before_images plan) (np_ordered_data_after_images plan) (np_metadata_after_images plan)
      (np_total_blocks plan) (np_filesystem_uuid plan) r' /\
    adds_object (root_inode (rd_superblock r)) (file_at r d) (file_at r' d') (np_inode_number plan) object_name data
      permissions user group ts.
Proof.
  intros Hc Hl (_ & r' & root & root' & file & Hp & Hne & Hn & Hf & Hcr & Hr & Hr' & Hm & _ & Hk & Hins) d'. exists r'. split; [done|].
  pose proof (op_view _ _ (co_opened _ _ Hc)) as Hv.
  pose proof (op_view _ _ (co_opened _ _ (pn_consistent _ _ _ _ _ _ _ _ Hp))) as Hv'. constructor.
  - done.
  - by exists file.
  - intros c m. destruct (Hins es Hl) as (es' & Hl' & Hi). apply (lists_iff r d Hv) in Hl. apply (lists_iff r' _ Hv') in Hl'.
    by apply (inserted_names _ _ _ _ _ _ es es' Hl Hl' Hi).
  - intros root0 b0. rewrite (file_at_ok _ _ _ _ Hr). intros [= <- _]. eexists _, _. split; [exact (file_at_ok _ _ _ _ Hr')|done].
  - done.
Qed.

(** ** Outcomes *)
Lemma new_object_outcome r d root es ess object_name data permissions user group ts :
  root_directory r d root es ess -> object_request object_name data user group ts ->
  let answer := answer d (PrepareNewRootObject r object_name data permissions user group ts) in
  if negb (IsValidRootObjectName object_name) then answer = Err EINVAL
  else if kMaxFileSize <? Z.of_nat (length data) then answer = Err EFBIG
  else if bool_decide (object_name ∈ (name <$> es)) then answer = Err EEXIST
  else if object_fits r root ess object_name data
  then exists plan, answer = Ok plan /\ creates r d plan object_name data permissions user group ts
  else answer = Err ENOSPC.
Proof.
  intros Hroot [Hn Hd [Hu Hg] Ht]. pose proof (root_is_directory _ _ _ _ _ Hroot) as Hdir. destruct Hroot as [Hc Hi Hl Hr]. cbv zeta.
  destruct (IsValidRootObjectName object_name) eqn:Ev; cbn [negb]; [|unfold PrepareNewRootObject; by rewrite Ev].
  destruct (Z.ltb_spec kMaxFileSize (Z.of_nat (length data))) as [Hbig|Hmax].
  { unfold PrepareNewRootObject. rewrite Ev. cbn [negb]. by rewrite (proj2 (Z.ltb_lt _ _)). }
  destruct (bool_decide (object_name ∈ (name <$> es))) eqn:Ein.
  - apply bool_decide_eq_true, list_elem_of_fmap in Ein as (x & Ex & Hx).
    unfold PrepareNewRootObject. rewrite Ev. cbn [negb]. rewrite (proj2 (Z.ltb_ge _ _)) by done.
    rewrite (answer_bind_ok _ _ _ _ _ Hi), Hdir. cbn [negb].
    pose proof (op_view _ _ (co_opened _ _ Hc)) as Hv.
    rewrite (answer_bind_ok _ _ _ _ _ (proj2 (list_directory_iff r d Hv _ _) Hl)).
    assert (existsb (fun entry => bool_decide (name entry = object_name)) es = true) as ->; [|done].
    apply existsb_exists. exists x. split; [by apply list_elem_of_In|by apply bool_decide_eq_true].
  - apply bool_decide_eq_false in Ein. by apply (accepted_outcome r d Hc root Hi Hdir es).
Qed.

(** A plan that was answered creates its object. *)
Lemma new_object_planned r d object_name data permissions user group ts plan :
  consistent r d -> object_request object_name data user group ts ->
  answer d (PrepareNewRootObject r object_name data permissions user group ts) = Ok plan ->
  exists es, directory_lists r d (root_inode (rd_superblock r)) es /\ (object_name ∉ (name <$> es)) /\
    IsValidRootObjectName object_name = true /\
    creates r d plan object_name data permissions user group ts.
Proof.
  intros Hc Hq E. pose proof E as E0. unfold PrepareNewRootObject in E.
  destruct (IsValidRootObjectName object_name) eqn:Ev; cbn [negb] in E; [|done]. destruct (kMaxFileSize <? _) eqn:Em in E; [done|].
  apply answer_bind_inv in E as (root & Hr & E); [|apply _]. destruct (S_ISDIR (mode root)) eqn:Hd; cbn [negb] in E; [|done].
  apply answer_bind_inv in E as (es & Hl & _); [|apply _].
  apply (list_directory_iff r d (op_view _ _ (co_opened _ _ Hc))) in Hl. pose proof Hl as (root0 & ess & Hr0 & _ & Hess & _).
  rewrite Hr in Hr0. injection Hr0 as <-. assert (root_directory r d root es ess) as Hroot by done.
  pose proof (new_object_outcome r d root es ess object_name data permissions user group ts Hroot Hq) as H. cbv zeta in H.
  rewrite Ev, Em in H. cbn [negb] in H. destruct (bool_decide _) eqn:Ein in H; [congruence|]. apply bool_decide_eq_false in Ein.
  exists es. split; [done|]. split; [done|]. split; [done|].
  destruct (object_fits _ _ _ _ _); [destruct H as (plan' & Ep & H); congruence|congruence].
Qed.

(** What the plans of metadata mutations promise: creation of an object on every
    branch, well-typed transactions, and an insertion loop that ends. *)
(** * Creation *)
(** C11. Creating an object. On a consistent image [PrepareNewRootObject] refuses a
    bad name (EINVAL), an oversized object (EFBIG) and a name the root directory
    has (EEXIST); otherwise it plans the creation exactly if the inode, the
    object's blocks and the directory's growth fit, and reports ENOSPC if not.
    The planned transaction leads to a consistent image that has the old files
    and names and one more regular file with the data, under the new name. *)
Theorem new_object_plan r d root es ess object_name data permissions user group ts :
  root_directory r d root es ess -> object_request object_name data user group ts ->
  let answer := answer d (PrepareNewRootObject r object_name data permissions user group ts) in
  if negb (IsValidRootObjectName object_name) then answer = Err EINVAL
  else if kMaxFileSize <? Z.of_nat (length data) then answer = Err EFBIG
  else if bool_decide (object_name ∈ (name <$> es)) then answer = Err EEXIST
  else if object_fits r root ess object_name data
  then exists plan r', answer = Ok plan /\
    publication r d (np_before_images plan) (np_ordered_data_after_images plan) (np_metadata_after_images plan)
      (np_total_blocks plan) (np_filesystem_uuid plan) r' /\
    adds_object (root_inode (rd_superblock r)) (file_at r d)
      (file_at r' (applied (np_ordered_data_after_images plan) (np_metadata_after_images plan) d))
      (np_inode_number plan) object_name data permissions user group ts
  else answer = Err ENOSPC.
Proof.
  intros Hroot Hq. pose proof (new_object_outcome r d root es ess object_name data permissions user group ts Hroot Hq) as H.
  cbv zeta in *. destruct (negb _); [done|]. destruct (_ <? _); [done|]. destruct (bool_decide _); [done|].
  destruct (object_fits _ _ _ _ _); [|done]. destruct H as (plan & E & Hcr).
  destruct (creates_adds r d plan object_name data _ _ _ ts es (rd_image _ _ _ _ _ Hroot) (rd_lists _ _ _ _ _ Hroot) Hcr) as (r' & Hp & Ha).
  by exists plan, r'.
Qed.

Lemma root_directory1 : root_directory reader1 img1 root1 [entry1] [[entry1]].
Proof.
  pose proof (op_view _ _ opened1) as Hv.
  assert (directory_lists reader1 img1 1 [entry1]) as Hl by (apply (list_directory_iff reader1 img1 Hv); vm_compute; reflexivity).
  constructor; [exact consistent1|vm_compute; reflexivity|exact Hl|].
  destruct Hl as (i & ess & Hi & _ & Ht & Hes & _). assert (answer img1 (ReadInode reader1 1) = Ok root1) as E by (vm_compute; reflexivity).
  rewrite E in Hi. injection Hi as <-. replace [[entry1]] with ess; [done|].
  eapply tilings_unique; [exact Ht|]. constructor; [|constructor].
  econstructor; [vm_compute; discriminate|vm_compute; reflexivity|]. vm_compute. constructor.
Qed.

Lemma request1 : object_request [103] [1; 2; 3] 0 0 7.
Proof. constructor; [apply bytes_okb_ok; reflexivity|apply bytes_okb_ok; reflexivity|split; word|word]. Qed.

Lemma new_object_plan_witness :
  exists plan r', answer img1 (PrepareNewRootObject reader1 [103] [1; 2; 3] 420 0 0 7) = Ok plan /\
    publication reader1 img1 (np_before_images plan) (np_ordered_data_after_images plan) (np_metadata_after_images plan)
      (np_total_blocks plan) (np_filesystem_uuid plan) r' /\
    adds_object 1 (file_at reader1 img1)
      (file_at r' (applied (np_ordered_data_after_images plan) (np_metadata_after_images plan) img1))
      (np_inode_number plan) [103] [1; 2; 3] 420 0 0 7.
Proof.
  pose proof (new_object_plan reader1 img1 root1 [entry1] [[entry1]] [103] [1; 2; 3] 420 0 0 7 root_directory1 request1) as H.
  cbv zeta in H. assert (object_fits reader1 root1 [[entry1]] [103] [1; 2; 3] = true) as E by (vm_compute; reflexivity).
  rewrite E in H. exact H.
Defined.

(** * Well-typed transactions *)
(** The sets of blocks of a transaction are typed: whole blocks under 32-bit
    numbers, the data in free blocks of the data region, the metadata outside the
    journal, and the before-images what the image holds. *)
Definition typed_transaction (r : ImageReader) (d before ordered meta : image) (total : Z) (uuid : bytes) : Prop :=
  (map_Forall (fun blk b => u32 blk /\ block_wf b /\ d !! blk = Some b) before /\ blocks_typed ordered /\ blocks_typed meta) /\
  map_Forall (fun blk _ => BlockIsInRegion blk (data (rd_superblock r)) = true /\ TestBit (block_bitmap_ r) blk = false) ordered /\
  map_Forall (fun blk _ => IsValidMetadataTarget (rd_superblock r) blk = true) meta /\
  ordered ##ₘ meta /\ dom before = dom ordered ∪ dom meta /\ meta <> ∅ /\
  total = total_blocks (rd_superblock r) /\ uuid = sb_filesystem_uuid (rd_superblock r).

Lemma publication_transaction r d before ordered meta total uuid r' : consistent r d ->
  publication r d before ordered meta total uuid r' -> typed_transaction r d before ordered meta total uuid.
Proof.
  intros Hc Hp. destruct (publication_typed r r' d before ordered meta total uuid Hc Hp) as (H1 & H2 & H3).
  destruct Hp as [[Ht Hu] Hb Hdom Ho Hm Hne _ _].
  split; [split; [|by split]|split; [|split; [|split; [|split; [|by split]]]]].
  - intros blk b E. pose proof (Hb blk b E) as Ed. split; [exact (H1 blk b E)|]. split; [|done].
    apply (vo_wf _ _ (op_view _ _ (co_opened _ _ Hc)) blk b Ed).
  - intros blk b E. by destruct (Ho blk b E) as (? & _ & ?).
  - intros blk b E. by destruct (Hm blk b E).
  - apply map_disjoint_spec. intros blk x y Ex Ey. destruct (Ho blk x Ex) as (_ & En & _). congruence.
  - apply set_eq. intros blk. rewrite elem_of_union, !elem_of_dom. apply Hdom.
Qed.

(** C33. Plans are well typed. Whatever a planner answers, for creation, a range
    write or a replacement, its transaction consists of whole blocks of bytes
    under 32-bit block numbers; the new data lies in blocks that are free, the
    metadata outside the journal; no block is in both; the before-images are the
    current contents of exactly these blocks; and it names the image's geometry
    and identity. *)
Theorem plans_typed r d (Hc : consistent r d) :
  (forall object_name data permissions user group ts plan, object_request object_name data user group ts ->
    answer d (PrepareNewRootObject r object_name data permissions user group ts) = Ok plan ->
    typed_transaction r d (np_before_images plan) (np_ordered_data_after_images plan) (np_metadata_after_images plan)
      (np_total_blocks plan) (np_filesystem_uuid plan)) /\
  (forall n inode offset data ts plan, writable_file r d n inode -> write_request offset data ts -> data <> [] ->
    answer d (PrepareFileWrite r n offset data ts) = Ok plan ->
    typed_transaction r d (fp_before_images plan) (fp_ordered_data_after_images plan) (fp_metadata_after_images plan)
      (fp_total_blocks plan) (fp_filesystem_uuid plan)) /\
  (forall n inode expected data ts plan, writable_file r d n inode -> write_request 0 data ts ->
    answer d (PrepareObjectReplace r n expected data ts) = Ok plan ->
    typed_transaction r d (fp_before_images plan) (fp_ordered_data_after_images plan) (fp_metadata_after_images plan)
      (fp_total_blocks plan) (fp_filesystem_uuid plan)).
Proof.
  split; [|split].
  - intros object_name data permissions user group ts plan Hq E.
    destruct (new_object_planned r d object_name data permissions user group ts plan Hc Hq E) as (es & Hl & _ & _ & Hcr).
    destruct Hcr as (_ & r' & _ & _ & _ & Hp & _). by apply (publication_transaction _ _ _ _ _ _ _ r').
  - intros n inode offset data ts plan Hw Hq Hne E. destruct (write_plan_publishes r d n inode offset data ts plan Hw Hq Hne E) as (_ & r' & _ & Hp & _).
    by apply (publication_transaction _ _ _ _ _ _ _ r').
  - intros n inode expected data ts plan Hw Hq E. destruct (replace_plan_publishes r d n inode expected data ts plan Hw Hq E) as (_ & _ & r' & _ & Hp & _).
    by apply (publication_transaction _ _ _ _ _ _ _ r').
Qed.

Lemma plans_typed_witness : exists plan,
  answer img1 (PrepareNewRootObject reader1 [103] [1; 2; 3] 420 0 0 7) = Ok plan /\
  typed_transaction reader1 img1 (np_before_images plan) (np_ordered_data_after_images plan) (np_metadata_after_images plan)
    (np_total_blocks plan) (np_filesystem_uuid plan).
Proof.
  assert (exists plan, answer img1 (PrepareNewRootObject reader1 [103] [1; 2; 3] 420 0 0 7) = Ok plan) as [plan E].
  { pose proof (new_object_outcome reader1 img1 root1 [entry1] [[entry1]] [103] [1; 2; 3] 420 0 0 7 root_directory1 request1) as H. cbv zeta in H.
    assert (object_fits reader1 root1 [[entry1]] [103] [1; 2; 3] = true) as Ef by (vm_compute; reflexivity).
    rewrite Ef in H. cbn in H. destruct H as (plan & E & _). by exists plan. }
  exists plan. split; [exact E|]. exact (proj1 (plans_typed reader1 img1 consistent1) _ _ _ _ _ _ plan request1 E).
Defined.

(** * The insertion loop *)
Lemma insert_records_fuel new_entry : forall f1 f2 rest, (length rest < f1)%nat -> (length rest < f2)%nat -> bytes_ok rest ->
  insert_records f1 new_entry rest = insert_records f2 new_entry rest.
Proof.
  induction f1 as [|f1 IH]; intros [|f2] rest H1 H2 Hb; [lia..|]. cbn [insert_records].
  destruct (Nat.eqb_spec (length rest) 0) as [|Hne]; [done|]. destruct (DecodeDirectoryEntry rest) as [e|] eqn:Ed; [|done].
  pose proof (decoded_length _ _ Ed) as Hl. cbv zeta. destruct (record_length e =? 0) eqn:Ez; [done|].
  rewrite (IH f2); [done|rewrite length_drop; lia..|by apply Forall_drop].
Qed.

(** C34. The search for room in a directory block ends. The loop of
    [TryInsertDirectoryEntry] stops within as many rounds as the block has bytes,
    on any block; and on a block tiled by records it never reports an error: it
    says there is no room exactly if no record can spare it, and otherwise
    returns a block that is tiled again and lists the old entries in their order
    with the new one among them. *)
Theorem directory_insertion_terminates new_entry block es fuel :
  bytes_ok block -> (length block < fuel)%nat ->
  insert_records fuel new_entry block = TryInsertDirectoryEntry new_entry block /\
  (de_inode new_entry <> 0 -> u32 (de_inode new_entry) -> IsKnownDirectoryFileType (file_type new_entry) = true ->
   IsValidName (name new_entry) = true -> bytes_ok (name new_entry) -> record_tiling block es ->
   let need := MinimumDirectoryRecordLength (Z.of_nat (length (name new_entry))) in
   match TryInsertDirectoryEntry new_entry block with
   | Err _ => False
   | Ok None => Forall (fun e => spare e < need) es
   | Ok (Some after) => Exists (fun e => need <= spare e) es /\ insertion new_entry block es after
   end).
Proof.
  intros Hb Hf. unfold TryInsertDirectoryEntry. split; [apply insert_records_fuel; [done|lia|done]|].
  intros Hi Hu Ht Hv Hn Htl. cbv zeta. by apply insert_records_spec; [..|lia|done|].
Qed.

Lemma directory_insertion_terminates_witness :
  let block := from_ok [] (EncodeDirectoryEntry entry1 4096 zero_block) in
  exists after, insert_records 5000 (mkDirectoryEntry 3 kRegular [103] 0) block = Ok (Some after) /\
    TryInsertDirectoryEntry (mkDirectoryEntry 3 kRegular [103] 0) block = Ok (Some after) /\
    insertion (mkDirectoryEntry 3 kRegular [103] 0) block [entry1] after.
Proof.
  intros block. destruct (directory_insertion_terminates (mkDirectoryEntry 3 kRegular [103] 0) block [entry1] 5000) as [Hfuel Hexact].
  - apply bytes_okb_ok. vm_compute. reflexivity.
  - apply Nat.ltb_lt. vm_compute. reflexivity.
  - rewrite Hfuel. assert (record_tiling block [entry1]) as Htl.
    { eapply tile_cons; [vm_compute; discriminate|vm_compute; reflexivity|]. apply (eq_ind_r (fun b => record_tiling b []) tile_nil). vm_compute. reflexivity. }
    specialize (Hexact ltac:(discriminate) ltac:(cbn; word) eq_refl eq_refl ltac:(by apply bytes_okb_ok) Htl). cbv zeta in Hexact.
    destruct (TryInsertDirectoryEntry (mkDirectoryEntry 3 kRegular [103] 0) block) as [[after|]|er] eqn:E.
    + exists after. split; [reflexivity|]. split; [reflexivity|]. exact (proj2 Hexact).
    + exfalso. apply Forall_inv in Hexact. vm_compute in Hexact. discriminate Hexact.
    + destruct Hexact.
Defined.
