(* ===== verification/ObjectBackend.v ===== *)
(** The object store without FUSE or RPC (src/object/object_backend.h/.cpp): the
    state of an open backend, creation and conditional replacement of objects,
    their idempotent forms with the persistent request ledger, and the reads.

    An operation runs under the backend's exclusive lock (reads under the shared
    one), so it is a function from the backend and the system to the backend,
    the system and its answer. The error text of [detail] is left out. *)
From S2P Require Import Prelude Codec OndiskFormat Disk JournalStore BitmapAllocator RequestLedger ImageReader.
From S2P Require Import LedgerStore FileMutation NewObject.
Open Scope Z_scope.

(** * Data *)
Record ObjectBackendOptions := mkOptions { permissions : Z; opt_uid : Z; opt_gid : Z }.

Record ObjectStat := mkStat {
  os_inode_number : Z;
  os_size : Z;
  os_mtime_ns : Z;
  os_generation : Z
}.

Record ObjectVersion := mkVersion { ov_inode_number : Z; ov_generation : Z }.
#[global] Instance ObjectVersion_eq_dec : EqDecision ObjectVersion.
Proof. solve_decision. Defined.
Definition no_version : ObjectVersion := mkVersion 0 0.

Inductive MutationOutcome := kOutcomeNotApplied | kOutcomeCommitted | kOutcomeUnknown.
#[global] Instance MutationOutcome_eq_dec : EqDecision MutationOutcome.
Proof. solve_decision. Defined.

Record MutationResult := mkMutationResult {
  outcome : MutationOutcome;
  committed_version : ObjectVersion;
  current_version : ObjectVersion
}.
Definition no_mutation : MutationResult := mkMutationResult kOutcomeNotApplied no_version no_version.

Record RequestIdentity := mkIdentity { identity_request_id : bytes; identity_fingerprint : bytes }.

Inductive RequestDisposition := kExecuted | kReplayed | kRequestIdConflict | kLedgerFull.

Record IdempotentMutationResult := mkIdempotent {
  mutation_result : MutationResult;
  disposition : RequestDisposition
}.
Definition no_request : IdempotentMutationResult := mkIdempotent no_mutation kExecuted.

(** The session is open as long as the backend lives. *)
Record ObjectBackend := mkBackend {
  options_ : ObjectBackendOptions;
  reader_ : option ImageReader;
  request_ledger_ : option RequestLedgerIndex;
  fatal_error_ : option errno
}.

(** An operation on the backend and the system. *)
Definition op (A : Type) : Type := ObjectBackend * env -> (ObjectBackend * env) * A.

(** A read through the reader, which does not change the backend. *)
Definition reading {A} (m : io A) : op (result errno A) := fun '(b, e) =>
  let '(e, r) := m e in ((b, e), r).

Definition MakeObjectStat (inode_number : Z) (inode : InodeRecord) : ObjectStat :=
  mkStat inode_number (i_size inode) (mtime_ns inode) (generation inode).

Definition MakeCommittedRecord (operation : MutationOperation) (identity : RequestIdentity)
    (version : ObjectVersion) : RequestLedgerRecord :=
  mkLedger operation kCommittedResult (identity_request_id identity) (identity_fingerprint identity) kOk
    (ov_inode_number version) (ov_generation version) 0 0 0.

Definition MakeRejectedRecord (operation : MutationOperation) (identity : RequestIdentity)
    (code : LedgerResultCode) (current : ObjectVersion) : RequestLedgerRecord :=
  mkLedger operation kNotApplied (identity_request_id identity) (identity_fingerprint identity) code
    0 0 (ov_inode_number current) (ov_generation current) 0.

(** * Opening *)
Definition Open (image_path : bytes) (options : ObjectBackendOptions) : io (ObjectBackend * RecoveryAction) :=
  if bool_decide (image_path = []) || negb (Z.land (permissions options) (Z.lnot 511) =? 0) then io_fail EINVAL
  else
  io_bind StartupRecovery (fun action =>
  io_bind DuplicateFd (fun _ =>
  io_bind (ReaderAdoptLockedFd true) (fun reader =>
  io_bind
    (if negb (Z.land (sb_feature_incompat (rd_superblock reader)) kFeatureIncompatRequestLedger =? 0)
     then io_bind (ScanRequestLedger reader) (fun candidate => io_ret (Some candidate))
     else io_ret None) (fun request_ledger =>
  io_ret (mkBackend options (Some reader) request_ledger None, action))))).

(** * Internal steps *)
(** The reader, if the backend may still be used. *)
Definition CheckUsableLocked (b : ObjectBackend) : result errno ImageReader :=
  match fatal_error_ b, reader_ b with
  | None, Some reader => Ok reader
  | _, _ => Err EIO
  end.

Definition FailClosedLocked (error : errno) (b : ObjectBackend) : ObjectBackend :=
  mkBackend (options_ b) None (request_ledger_ b) (Some error).

Definition ReloadReaderLocked : op (result errno unit) := fun '(b, e) =>
  match DuplicateFd e with
  | (e, Err er) => ((FailClosedLocked er b, e), Err er)
  | (e, Ok _) =>
    match ReaderAdoptLockedFd true e with
    | (e, Err er) => ((FailClosedLocked er b, e), Err er)
    | (e, Ok candidate) => ((mkBackend (options_ b) (Some candidate) (request_ledger_ b) (fatal_error_ b), e), Ok tt)
    end
  end.

Definition ResolveRegularLocked (reader : ImageReader) (object_name : bytes) : io (Z * InodeRecord) :=
  if negb (IsValidRootObjectName object_name) then io_fail EINVAL
  else
  io_bind (ResolvePath reader (slash :: object_name)) (fun '(inode_number, inode) =>
  if negb (S_ISREG (mode inode)) then io_fail EISDIR else io_ret (inode_number, inode)).

(** The answer to a request that was seen before, that uses a known id for
    something else, or that the ledger has no room for; the flag is [handled]. *)
Definition CheckRequestLocked (b : ObjectBackend) (identity : RequestIdentity) (operation : MutationOperation)
    : IdempotentMutationResult * bool * result errno unit :=
  if negb (HasNonzeroRequestId (identity_request_id identity)) then (no_request, false, Err EINVAL)
  else match request_ledger_ b with
  | None => (no_request, true, Err EOPNOTSUPP)
  | Some ledger =>
    match Find ledger (identity_request_id identity) with
    | Some existing =>
      if negb (bool_decide (RequestLedger.operation existing = operation)) ||
         negb (bool_decide (fingerprint existing = identity_fingerprint identity))
      then (mkIdempotent no_mutation kRequestIdConflict, true, Err EALREADY)
      else if bool_decide (result_kind existing = kCommittedResult)
      then (mkIdempotent
              (mkMutationResult kOutcomeCommitted
                 (mkVersion (committed_inode existing) (committed_generation existing)) no_version)
              kReplayed, true, Ok tt)
      else
      (mkIdempotent
         (mkMutationResult kOutcomeNotApplied no_version
            (mkVersion (current_inode existing) (current_generation existing)))
         kReplayed, true,
       match result_code existing with
       | kAlreadyExists => Err EEXIST
       | kVersionMismatch => Err ESTALE
       | kNotFound => Err ENOENT
       | _ => Err EUCLEAN
       end)
    | None =>
      if full ledger then (mkIdempotent no_mutation kLedgerFull, true, Err ENOSPC)
      else (no_request, false, Ok tt)
    end
  end.

(** [oom]: the insertion into the index runs out of memory. *)
Definition PublishLedgerRecordLocked (oom : bool) (ledger : RequestLedgerIndex) (record : RequestLedgerRecord)
    : op (result errno unit) := fun '(b, e) =>
  match AppendCommitted ledger record oom with
  | (ledger, Ok _) => ((mkBackend (options_ b) (reader_ b) (Some ledger) (fatal_error_ b), e), Ok tt)
  | (_, Err er) => ((FailClosedLocked er b, e), Err er)
  end.

Definition ApplyLocked (before ordered metadata : image) (total : Z) (uuid : bytes)
    : op (result errno unit * MutationOutcome) := fun '(b, e) =>
  let '(e, (r, failure_requires_fail_closed)) :=
    ExecuteJournalTransaction true before ordered metadata total uuid e in
  match r with
  | Err er =>
    if failure_requires_fail_closed
    then ((FailClosedLocked er b, e), (Err er, kOutcomeUnknown))
    else ((b, e), (Err er, kOutcomeNotApplied))
  | Ok _ => let '(s, r) := ReloadReaderLocked (b, e) in (s, (r, kOutcomeCommitted))
  end.

(** A rejected request leaves only its record. *)
Definition CommitLedgerOnlyLocked (oom : bool) (reader : ImageReader) (index : RequestLedgerIndex)
    (record : RequestLedgerRecord) : op (result errno unit * MutationOutcome) := fun s =>
  match reading (PrepareRequestLedgerAppend reader index record) s with
  | (s, Err er) => (s, (Err er, kOutcomeNotApplied))
  | (s, Ok ledger) =>
    match MergeRequestLedgerAppend ledger (ap_total_blocks ledger) (ap_filesystem_uuid ledger) ∅ ∅ ∅ with
    | Err er => (s, (Err er, kOutcomeNotApplied))
    | Ok (before, ordered, metadata) =>
      let '(s, (r, out)) :=
        ApplyLocked before ordered metadata (ap_total_blocks ledger) (ap_filesystem_uuid ledger) s in
      match r, out with
      | Ok _, kOutcomeCommitted =>
        let '(s, r) := PublishLedgerRecordLocked oom index (ap_record ledger) s in (s, (r, out))
      | _, _ => (s, (r, out))
      end
    end
  end.

(** * Mutations *)
(** What the caller learns after [ApplyLocked]: [version] is the version the
    mutation would give the object, [current] the one read before. *)
Definition after_apply (out : MutationOutcome) (version current : ObjectVersion) : MutationResult :=
  match out with
  | kOutcomeCommitted => mkMutationResult out version version
  | kOutcomeUnknown => mkMutationResult out no_version no_version
  | kOutcomeNotApplied => mkMutationResult out no_version current
  end.

Definition PutIfAbsent (object_name data : bytes) (timestamp_ns : Z) : op (result errno unit * MutationResult) := fun s =>
  match CheckUsableLocked (fst s) with
  | Err er => (s, (Err er, no_mutation))
  | Ok reader =>
    let o := options_ (fst s) in
    match reading (PrepareNewRootObject reader object_name data (permissions o) (opt_uid o) (opt_gid o) timestamp_ns) s with
    | (s, Err EEXIST) =>
      match reading (ResolveRegularLocked reader object_name) s with
      | (s, Ok (inode_number, inode)) =>
        (s, (Err EEXIST, mkMutationResult kOutcomeNotApplied no_version (mkVersion inode_number (generation inode))))
      | (s, Err _) => (s, (Err EEXIST, no_mutation))
      end
    | (s, Err er) => (s, (Err er, no_mutation))
    | (s, Ok plan) =>
      let '(s, (r, out)) :=
        ApplyLocked (np_before_images plan) (np_ordered_data_after_images plan) (np_metadata_after_images plan)
          (np_total_blocks plan) (np_filesystem_uuid plan) s in
      (s, (r, after_apply out (mkVersion (np_inode_number plan) 1) no_version))
    end
  end.

Definition ReplaceIfVersion (object_name : bytes) (expected : ObjectVersion) (data : bytes) (timestamp_ns : Z)
    : op (result errno unit * MutationResult) := fun s =>
  match CheckUsableLocked (fst s) with
  | Err er => (s, (Err er, no_mutation))
  | Ok reader =>
    match reading (ResolveRegularLocked reader object_name) s with
    | (s, Err er) => (s, (Err er, no_mutation))
    | (s, Ok (inode_number, inode)) =>
      let current := mkVersion inode_number (generation inode) in
      let not_applied := mkMutationResult kOutcomeNotApplied no_version current in
      if negb (bool_decide (expected = current)) then (s, (Err ESTALE, not_applied))
      else
      match reading (PrepareObjectReplace reader inode_number (ov_generation expected) data timestamp_ns) s with
      | (s, Err er) => (s, (Err er, not_applied))
      | (s, Ok plan) =>
        let '(s, (r, out)) :=
          ApplyLocked (fp_before_images plan) (fp_ordered_data_after_images plan) (fp_metadata_after_images plan)
            (fp_total_blocks plan) (fp_filesystem_uuid plan) s in
        (s, (r, after_apply out (mkVersion inode_number (fp_new_generation plan)) current))
      end
    end
  end.

(** * Idempotent mutations *)
Section idempotent.
Context (oom : bool).

(** The part both idempotent mutations share once the images of the mutation are
    planned: the record joins the transaction. *)
Definition apply_with_record (reader : ImageReader) (index : RequestLedgerIndex) (record : RequestLedgerRecord)
    (version current : ObjectVersion) (before ordered metadata : image) (total : Z) (uuid : bytes)
    : op (result errno unit * IdempotentMutationResult) := fun s =>
  let not_applied := mkIdempotent (mkMutationResult kOutcomeNotApplied no_version current) kExecuted in
  match reading (PrepareRequestLedgerAppend reader index record) s with
  | (s, Err er) => (s, (Err er, not_applied))
  | (s, Ok ledger) =>
    match MergeRequestLedgerAppend ledger total uuid before ordered metadata with
    | Err er => (s, (Err er, not_applied))
    | Ok (before, ordered, metadata) =>
      let '(s, (r, out)) := ApplyLocked before ordered metadata total uuid s in
      let answer := mkIdempotent (after_apply out version current) kExecuted in
      match r, out with
      | Ok _, kOutcomeCommitted =>
        let '(s, r) := PublishLedgerRecordLocked oom index (ap_record ledger) s in (s, (r, answer))
      | _, _ => (s, (r, answer))
      end
    end
  end.

(** A rejection [er] that is recorded; [current] is the version it reports. *)
Definition reject_with_record (reader : ImageReader) (index : RequestLedgerIndex) (record : RequestLedgerRecord)
    (er : errno) (current : ObjectVersion) : op (result errno unit * IdempotentMutationResult) := fun s =>
  let '(s, (r, out)) := CommitLedgerOnlyLocked oom reader index record s in
  match out with
  | kOutcomeUnknown => (s, (r, mkIdempotent (mkMutationResult kOutcomeUnknown no_version no_version) kExecuted))
  | _ => (s, (match r with Ok _ => Err er | Err er => Err er end,
              mkIdempotent (mkMutationResult kOutcomeNotApplied no_version current) kExecuted))
  end.

Definition PutIfAbsentIdempotent (object_name data : bytes) (timestamp_ns : Z) (identity : RequestIdentity)
    : op (result errno unit * IdempotentMutationResult) := fun s =>
  match CheckUsableLocked (fst s) with
  | Err er => (s, (Err er, no_request))
  | Ok reader =>
    match CheckRequestLocked (fst s) identity kCreateIfAbsent, request_ledger_ (fst s) with
    | (_, false, Ok _), Some index =>
      let o := options_ (fst s) in
      match reading (PrepareNewRootObject reader object_name data (permissions o) (opt_uid o) (opt_gid o) timestamp_ns) s with
      | (s, Err EEXIST) =>
        match reading (ResolveRegularLocked reader object_name) s with
        | (s, Ok (inode_number, inode)) =>
          let current := mkVersion inode_number (generation inode) in
          reject_with_record reader index (MakeRejectedRecord kCreateIfAbsent identity kAlreadyExists current) EEXIST current s
        | (s, Err er) => (s, (Err er, no_request))
        end
      | (s, Err er) => (s, (Err er, no_request))
      | (s, Ok plan) =>
        let version := mkVersion (np_inode_number plan) 1 in
        apply_with_record reader index (MakeCommittedRecord kCreateIfAbsent identity version) version no_version
          (np_before_images plan) (np_ordered_data_after_images plan) (np_metadata_after_images plan)
          (np_total_blocks plan) (np_filesystem_uuid plan) s
      end
    | (candidate, _, r), _ => (s, (r, candidate))
    end
  end.

Definition ReplaceIfVersionIdempotent (object_name : bytes) (expected : ObjectVersion) (data : bytes)
    (timestamp_ns : Z) (identity : RequestIdentity) : op (result errno unit * IdempotentMutationResult) := fun s =>
  match CheckUsableLocked (fst s) with
  | Err er => (s, (Err er, no_request))
  | Ok reader =>
    match CheckRequestLocked (fst s) identity kReplaceIfVersion, request_ledger_ (fst s) with
    | (_, false, Ok _), Some index =>
      match reading (ResolveRegularLocked reader object_name) s with
      | (s, Err ENOENT) =>
        reject_with_record reader index (MakeRejectedRecord kReplaceIfVersion identity kNotFound no_version) ENOENT no_version s
      | (s, Err er) => (s, (Err er, no_request))
      | (s, Ok (inode_number, inode)) =>
        let current := mkVersion inode_number (generation inode) in
        if negb (bool_decide (expected = current))
        then reject_with_record reader index (MakeRejectedRecord kReplaceIfVersion identity kVersionMismatch current)
               ESTALE current s
        else
        match reading (PrepareObjectReplace reader inode_number (ov_generation expected) data timestamp_ns) s with
        | (s, Err er) => (s, (Err er, mkIdempotent (mkMutationResult kOutcomeNotApplied no_version current) kExecuted))
        | (s, Ok plan) =>
          let version := mkVersion inode_number (fp_new_generation plan) in
          apply_with_record reader index (MakeCommittedRecord kReplaceIfVersion identity version) version current
            (fp_before_images plan) (fp_ordered_data_after_images plan) (fp_metadata_after_images plan)
            (fp_total_blocks plan) (fp_filesystem_uuid plan) s
        end
      end
    | (candidate, _, r), _ => (s, (r, candidate))
    end
  end.
End idempotent.

(** * Reads *)
Definition Get (object_name : bytes) : op (result errno (bytes * ObjectStat)) := fun s =>
  match CheckUsableLocked (fst s) with
  | Err er => (s, Err er)
  | Ok reader =>
    reading (io_bind (ResolveRegularLocked reader object_name) (fun '(inode_number, inode) =>
      if uint64_limit <? i_size inode then io_fail EOVERFLOW
      else
      io_bind (if i_size inode =? 0 then io_ret [] else ReadFile reader inode_number 0 (i_size inode)) (fun candidate =>
      if negb (Z.of_nat (length candidate) =? i_size inode) then io_fail EUCLEAN
      else io_ret (candidate, MakeObjectStat inode_number inode)))) s
  end.

Definition Stat (object_name : bytes) : op (result errno ObjectStat) := fun s =>
  match CheckUsableLocked (fst s) with
  | Err er => (s, Err er)
  | Ok reader =>
    reading (io_bind (ResolveRegularLocked reader object_name) (fun '(inode_number, inode) =>
      io_ret (MakeObjectStat inode_number inode))) s
  end.

Definition usable (b : ObjectBackend) : bool :=
  match CheckUsableLocked b with Ok _ => true | Err _ => false end.
