(* ===== verification/BackendProofs.v ===== *)
(** Applying a plan through the backend (src/object/object_backend.cpp,
    [ApplyLocked]): under any system-call behaviour the three outcomes mean what
    they say, and a crash anywhere leaves the old or the new files. *)
From S2P Require Import Prelude Codec OndiskFormat OndiskFormatProofs OndiskJournal OndiskJournalProofs.
From S2P Require Import RingReservation Disk JournalStore JournalImage CrashLogic JournalStates TransactionImages.
From S2P Require Import TransactionProofs JournalTheorems BitmapAllocator RequestLedger ImageReader ImageReaderProofs.
From S2P Require Import ReaderTheorems LedgerStore FileMutation ConsistentImage PlanProofs FileMutationProofs.
From S2P Require Import FileMutationPublish FileContents Publication FilePlans FileTheorems NewObject NewObjectProofs.
From S2P Require Import NewObjectPlans FileSystem PlanTheorems ObjectBackend.
Open Scope Z_scope.

(** * Reads under any system-call behaviour *)
(** A read leaves the file alone, and what it returns is the answer. *)
Definition untouched (e e' : env) : Prop := disk e' = disk e /\ st_size e' = st_size e /\ trace e' = trace e.

#[export] Instance untouched_preorder : PreOrder untouched.
Proof. split; [done|]. intros e1 e2 e3 (H1 & H2 & H3) (H4 & H5 & H6). unfold untouched. by rewrite H4, H5, H6. Qed.

Lemma reads {A} (m : io A) e e' res : Reading m -> m e = (e', res) ->
  untouched e e' /\ forall a, res = Ok a -> answer (disk e) m = Ok a.
Proof.
  intros Hm E. destruct (Hm e 0 []) as (H1 & _ & H3). rewrite E in H1, H3. cbn [fst snd] in *.
  split; [unfold calm in H1; by injection H1|]. intros a ->. by apply H3.
Qed.

Lemma reading_reads {A} (m : io A) s s' res : Reading m -> ObjectBackend.reading m s = (s', res) ->
  fst s' = fst s /\ untouched (snd s) (snd s') /\ forall a, res = Ok a -> answer (disk (snd s)) m = Ok a.
Proof.
  intros Hm E. destruct s as [b e]. cbn in E. destruct (m e) as [e1 r1] eqn:E1. injection E as <- <-. cbn [fst snd].
  split; [done|]. by apply reads.
Qed.

#[export] Instance reading_resolve_regular r n : Reading (ResolveRegularLocked r n).
Proof. unfold ResolveRegularLocked. apply reading_if; [apply _|]. apply reading_bind; [apply _|]. intros [k inode]. apply _. Qed.

#[export] Instance reading_duplicate : Reading DuplicateFd.
Proof. apply reading_syscall. Qed.

(** Opening a reader depends on the size of the file but changes nothing either. *)
Definition quietly {A} (m : io A) : Prop := forall e, untouched e (m e).1.

Lemma quietly_reading {A} (m : io A) : Reading m -> quietly m.
Proof. intros Hm e. destruct (m e) as [e' res] eqn:E. by apply (reads m e e' res). Qed.

Lemma quietly_bind {A B} (m : io A) (k : A -> io B) : quietly m -> (forall a, quietly (k a)) -> quietly (io_bind m k).
Proof.
  intros Hm Hk e. unfold io_bind. pose proof (Hm e) as H1. destruct (m e) as [e1 [a|er]]; [|done].
  etransitivity; [exact H1|apply Hk].
Qed.

Lemma quietly_env {A} (k : env -> io A) : (forall x, quietly (k x)) -> quietly (fun e => k e e).
Proof. intros H e. apply (H e e). Qed.

Lemma adopt_quietly : quietly (ReaderAdoptLockedFd true).
Proof.
  unfold ReaderAdoptLockedFd. apply quietly_bind; [apply quietly_reading, _|intros _]. cbn [negb].
  apply quietly_bind; [apply quietly_reading, _|intros _].
  apply (quietly_env (fun x => _)). intros x. apply quietly_reading. apply reading_if; apply _.
Qed.

(** What an open image shows is determined by the image. *)
Lemma opened_unique r r' d : opened r d -> opened r' d -> r = r'.
Proof.
  intros [_ H2 H3 H4 H5 _ _ _ _] [_ H2' H3' H4' H5' _ _ _ _].
  destruct (img_super _ _ _ H2) as (b & Hb & Hd), (img_super _ _ _ H2') as (b' & Hb' & Hd').
  destruct r as [sz sb jc cc ib bb], r' as [sz' sb' jc' cc' ib' bb'].
  cbn [rd_superblock image_size_ rd_journal_control rd_journal_control_copy inode_bitmap_ block_bitmap_] in *.
  assert (sb' = sb) as -> by congruence. pose proof (img_size _ _ _ H2). pose proof (img_size _ _ _ H2').
  f_equal; congruence.
Qed.

(** * A serving backend *)
(** The reader of the backend shows the image, and the image is one recovery has
    nothing to do for. *)
Record serving (b : ObjectBackend) (e : env) (r : ImageReader) : Prop := {
  sv_reader : CheckUsableLocked b = Ok r;
  sv_consistent : consistent r (disk e);
  sv_clean : clean_image (rd_superblock r) (image_size_ r) (disk e);
  sv_size : st_size e = image_size_ r
}.

Lemma serving_untouched b e e' r : serving b e r -> untouched e e' -> serving b e' r.
Proof. intros [H1 H2 H3 H4] (Hd & Hs & _). constructor; rewrite ?Hd, ?Hs; done. Qed.

Lemma fail_closed_unusable er b : usable (FailClosedLocked er b) = false.
Proof. done. Qed.

(** After a commit that moved the files from [fs] to [fs']. *)
Record now_serves (r : ImageReader) (fs' : files) (b' : ObjectBackend) (e' : env) (ok : bool) : Prop := {
  ns_reader : exists r2, consistent r2 (disk e') /\ clean_image (rd_superblock r2) (image_size_ r2) (disk e') /\
    st_size e' = image_size_ r2 /\ rd_superblock r2 = rd_superblock r /\ image_size_ r2 = image_size_ r /\
    file_at r2 (disk e') ≡ fs' /\
    (if ok then CheckUsableLocked b' = Ok r2 else usable b' = false)
}.

(** What [ApplyLocked] does for a plan that moves the files to [fs']. *)
Record applies (r : ImageReader) (fs' : files) (b : ObjectBackend) (e : env) (b' : ObjectBackend) (e' : env)
    (res : result errno unit) (out : MutationOutcome) : Prop := {
  ap_ledger : options_ b' = options_ b /\ request_ledger_ b' = request_ledger_ b;
  ap_outcome : match out with
    | kOutcomeNotApplied => is_ok res = false /\ b' = b /\ untouched e e'
    | kOutcomeUnknown => is_ok res = false /\ usable b' = false
    | kOutcomeCommitted => now_serves r fs' b' e' (is_ok res)
    end;
  ap_crash : forall p y, p `prefix_of` trace e' -> crash_outcome r (disk e) p y ->
    restarts_with r y (file_at r (disk e)) \/ (out <> kOutcomeNotApplied /\ restarts_with r y fs');
  ap_durable : out = kOutcomeCommitted -> forall y, crash_outcome r (disk e) (trace e') y -> restarts_with r y fs';
  ap_synced : out = kOutcomeCommitted -> synced (disk e) e'
}.

Section apply.
Context (r r' : ImageReader) (b : ObjectBackend) (e : env) (before ordered meta : image) (total : Z) (uuid : bytes).
Context (Hs : serving b e r) (Ht : trace e = []).
Context (Hp : publication r (disk e) before ordered meta total uuid r').
Context (Hplain : map_Forall (fun _ b => is_ok (DecodeCommit b) = false) meta).
Abbreviation d := (disk e).
Abbreviation fs' := (file_at r' (applied ordered meta d)).
Abbreviation run := (ExecuteJournalTransaction true before ordered meta total uuid).

Lemma run_early e1 er : run e = (e1, (Err er, false)) -> untouched e e1.
Proof.
  unfold ExecuteJournalTransaction. destruct (DuplicateFd e) as [e0 [[]|er0]] eqn:E.
  - destruct (AdoptLockedFd true e0) as [e2 [s|]]; [|done]. destruct (transaction_steps _ _ _ _ _ _) as [[s3 e3] [[]|]]; done.
  - intros [= <- <-]. exact (proj1 (reads DuplicateFd e e0 _ _ E)).
Qed.

Lemma run_committed e1 fc : run e = (e1, (Ok tt, fc)) ->
  exists v c, let r2 := with_control r' v c in consistent r2 (disk e1) /\ clean_image (rd_superblock r) (image_size_ r) (disk e1) /\
    st_size e1 = image_size_ r /\ file_at r2 (disk e1) ≡ fs' /\
    synced d e1.
Proof.
  intros E. destruct Hs as [_ Hc (v & c & Hr & Hu) Hz].
  destruct (publication_typed r r' d before ordered meta total uuid Hc Hp) as (H1 & H2 & H3).
  pose proof (execute_outcome (rd_superblock r) (image_size_ r) d v c Hr Hu before ordered meta total uuid true H1 H2 H3 Hplain e eq_refl Hz Ht) as H.
  rewrite E in H. destruct H as (_ & _ & H). destruct (H eq_refl) as ((v1 & c1 & Hr1 & Hu1 & Hh1) & Hd1 & Hp1 & Hz1).
  destruct (new_files r r' d before ordered meta total uuid Hc Hp (disk e1) v1 c1 Hr1 Hh1) as (Q1 & Q2).
  exists v1, c1. split; [done|]. split; [by exists v1, c1|]. done.
Qed.

Lemma planned_reader : rd_superblock r' = rd_superblock r /\ image_size_ r' = image_size_ r.
Proof. by destruct (pn_reader _ _ _ _ _ _ _ _ Hp) as (? & ? & ->). Qed.

Lemma reload_outcome b0 e1 r2 : CheckUsableLocked b0 = Ok r -> consistent r2 (disk e1) -> st_size e1 = image_size_ r2 ->
  let '((b', e'), res) := ReloadReaderLocked (b0, e1) in
  untouched e1 e' /\ options_ b' = options_ b0 /\ request_ledger_ b' = request_ledger_ b0 /\
  (if is_ok res then CheckUsableLocked b' = Ok r2 else usable b' = false).
Proof.
  intros Hu Hc2 Hz. cbn [ReloadReaderLocked]. destruct (DuplicateFd e1) as [e2 [[]|er]] eqn:E1.
  2: { destruct (reads DuplicateFd _ _ _ _ E1) as [U _]. done. }
  destruct (reads DuplicateFd _ _ _ _ E1) as [U1 _]. destruct (ReaderAdoptLockedFd true e2) as [e3 res] eqn:E2.
  assert (untouched e2 e3) as U2 by (pose proof (adopt_quietly e2) as H; by rewrite E2 in H).
  destruct res as [r3|er]; [|split; [by etransitivity|done]]. split; [by etransitivity|]. split; [done|]. split; [done|]. cbn [is_ok].
  pose proof (co_opened _ _ Hc2) as Ho. pose proof U1 as (D1 & Z1 & _).
  assert (complete_image e2) as Hcomp.
  { split.
    - intros n Hn. rewrite D1. rewrite Z1, Hz, (vo_size _ _ (op_view _ _ Ho)), Z.div_mul in Hn by done.
      destruct (vo_blocks _ _ (op_view _ _ Ho) n Hn) as (x & -> & _). done.
    - intros n x. rewrite D1. apply (vo_wf _ _ (op_view _ _ Ho)). }
  destruct (adopt_opened _ _ _ _ Hcomp E2) as [_ Ho3]. rewrite D1 in Ho3.
  unfold CheckUsableLocked in *. cbn [fatal_error_ reader_]. destruct (fatal_error_ b0); [done|].
  by rewrite (opened_unique _ _ _ Ho3 Ho).
Qed.

Lemma apply_outcome :
  let '((b', e'), (res, out)) := ApplyLocked before ordered meta total uuid (b, e) in
  applies r fs' b e b' e' res out.
Proof.
  cbn [ApplyLocked]. pose proof Hs as [Hu Hc Hcl Hz]. pose proof Hcl as (v & c & Hr & Hub).
  assert (forall p y, p `prefix_of` trace (run e).1 -> crash_outcome r d p y ->
    (restarts_with r y (file_at r d) /\ EStage kCommit ∉ p) \/ (restarts_with r y fs' /\ EStage kControlExposure ∈ p)) as Hcrash.
  { intros p y Hpre Hy. by apply (publication_atomic r r' d before ordered meta total uuid Hc Hp v c Hr Hub Hplain e p y). }
  destruct (run e) as [e1 [[[]|er] fc]] eqn:E; cbn [fst] in Hcrash.
  - destruct (run_committed e1 fc E) as (v2 & c2 & Hc2 & Hcl2 & Hz2 & Hfs & Hsync). destruct planned_reader as [Es Ei].
    pose proof (reload_outcome b e1 (with_control r' v2 c2) Hu Hc2) as Hre. cbn [image_size_ with_control] in Hre. rewrite Ei in Hre.
    specialize (Hre Hz2). destruct (ReloadReaderLocked (b, e1)) as [[b' e'] res]. destruct Hre as ((D & Z & T) & O & L & Hok).
    constructor.
    + done.
    + constructor. exists (with_control r' v2 c2). rewrite D, Z. cbn [rd_superblock image_size_ with_control]. rewrite Es, Ei. done.
    + rewrite T. intros p y Hpre Hy. destruct (Hcrash p y Hpre Hy) as [[H _]|[H _]]; [by left|by right].
    + intros _ y. rewrite T. intros Hy. apply (publication_durable r r' d before ordered meta total uuid Hc Hp v c Hr Hub Hplain e fc y); try done.
      * by rewrite E.
      * by rewrite E.
    + intros _. unfold synced. by rewrite D, T.
  - destruct fc.
    + constructor; [done|done| |done|done]. intros p y Hpre Hy. destruct (Hcrash p y Hpre Hy) as [[H _]|[H _]]; [by left|by right].
    + pose proof (run_early e1 er E) as U. constructor; [done|done| |done|done]. pose proof U as (_ & _ & T). rewrite T, Ht in *.
      intros p y Hpre%prefix_nil_inv Hy. destruct (Hcrash p y) as [[H _]|[_ H]]; [by rewrite Hpre|done|by left|].
      rewrite Hpre in H. by apply not_elem_of_nil in H.
Qed.
End apply.

(** Creation and replacement through the backend (src/object/object_backend.cpp,
    [PutIfAbsent], [ReplaceIfVersion]) under any system-call behaviour. *)
(** A payload that cannot be mistaken for the record that ends a transaction. *)
Definition no_commit_block (meta : image) : Prop := map_Forall (fun _ b => is_ok (DecodeCommit b) = false) meta.

(** * Names *)
Lemma valid_plain object_name : IsValidRootObjectName object_name = true -> plain_name object_name.
Proof.
  unfold IsValidRootObjectName, plain_name. intros H. bool_to_prop. repeat split; try done.
  intros Hin%list_elem_of_In. match goal with H : existsb (fun c => c =? slash) _ = false |- _ => rename H into Hs end.
  assert (existsb (fun c => c =? slash) object_name = true); [|congruence].
  apply existsb_exists. exists slash. split; [done|apply Z.eqb_refl].
Qed.

Lemma path_single fs rt c n : path_to fs rt [c] n <-> names fs rt c n.
Proof.
  split.
  - inversion 1 as [|? ? ? m ? Hn Hp]; subst. by inversion Hp; subst.
  - intros H. eapply path_down; [exact H|constructor].
Qed.

Section resolve.
Context (r : ImageReader) (d : image) (Hc : consistent r d).
Let Hv := op_view _ _ (co_opened _ _ Hc).

(** The name stands for a regular file. *)
Definition object_is (fs : files) (rt : Z) (object_name : bytes) (n : Z) (inode : InodeRecord) (data : bytes) : Prop :=
  IsValidRootObjectName object_name = true /\ names fs rt object_name n /\ fs n = Some (inode, data) /\ S_ISREG (mode inode) = true.

Lemma resolve_regular object_name n inode :
  answer d (ResolveRegularLocked r object_name) = Ok (n, inode) <->
  object_is (file_at r d) (root_inode (rd_superblock r)) object_name n inode (file_bytes d inode).
Proof.
  unfold ResolveRegularLocked, object_is. destruct (IsValidRootObjectName object_name) eqn:Ev; cbn [negb]; [|split; [done|by intros []]].
  pose proof (resolve_files r d Hv [object_name] n inode (file_bytes d inode)) as H. rewrite path_single in H.
  change (path_of [object_name]) with (slash :: (object_name ++ [])) in H. rewrite app_nil_r in H.
  specialize (H ltac:(constructor; [by apply valid_plain|constructor])). split.
  - intros E. apply answer_bind_inv in E as ([n0 i0] & E1 & E2); [|apply _]. rewrite answer_if in E2.
    destruct (S_ISREG (mode i0)) eqn:Er; cbn [negb] in E2; [|done]. injection E2 as -> ->.
    destruct (proj1 H (conj E1 eq_refl)) as [H1 H2]. done.
  - intros (_ & H1 & H2 & H3). destruct (proj2 H (conj H1 H2)) as [E _]. rewrite (answer_bind_ok _ _ _ _ _ E), answer_if, H3. done.
Qed.
End resolve.

(** * Answered file plans *)
Lemma prepared_facts r d n req plan : answer d (PrepareFileMutation r n req) = Ok plan ->
  exists inode, answer d (ReadInode r n) = Ok inode /\ S_ISREG (mode inode) = true /\ generation inode <> uint64_limit /\
    (fq_offset req <= kMaxFileSize /\ Z.of_nat (length (fq_data req)) <= kMaxFileSize - fq_offset req) /\
    fp_inode_number plan = n /\ fp_new_generation plan = generation inode + 1.
Proof.
  unfold PrepareFileMutation. destruct (n =? 0); [done|]. destruct (negb (is_replace req) && _); [done|].
  destruct (_ || _) eqn:Esz; [done|]. intros E. apply answer_bind_inv in E as (inode & Hi & E); [|apply _].
  destruct (S_ISREG (mode inode)) eqn:Hreg; cbn [negb] in E; [|done]. destruct (is_replace req && _); [done|].
  destruct (Z.eqb_spec (generation inode) uint64_limit) as [|Hg]; [done|].
  apply answer_bind_inv in E as (om & _ & E); [|apply _]. destruct (_ || _) eqn:Ed in E; [done|].
  apply answer_bind_inv in E as (bb & _ & E); [|apply _]. destruct (Validate _); [|done].
  exists inode. split; [done|]. split; [done|]. split; [done|]. split; [bool_to_prop; lia|].
  assert (forall ra ts ns lc m, answer d (finish_mutation r n inode ra om bb ts ns lc m) = Ok plan ->
    fp_inode_number plan = n /\ fp_new_generation plan = generation inode + 1) as Hfin.
  { intros ra ts ns lc m Ef. unfold finish_mutation in Ef.
    apply answer_bind_inv in Ef as ([a1 ni] & _ & Ef); [|destruct (_ && _); apply _].
    apply answer_bind_inv in Ef as (a2 & _ & Ef); [|apply _].
    apply answer_bind_inv in Ef as (im & _ & Ef); [|destruct (_ && _); apply _].
    apply answer_bind_inv in Ef as (ib & _ & Ef); [|apply _]. destruct (EncodeInode _); [|done]. by injection Ef as <-. }
  destruct (is_replace req); apply answer_bind_inv in E as (m & _ & E); try apply _; by apply Hfin in E.
Qed.

Lemma replace_planned r d n inode expected data ts plan :
  consistent r d -> bytes_ok data -> u64 ts -> answer d (ReadInode r n) = Ok inode ->
  answer d (PrepareObjectReplace r n expected data ts) = Ok plan ->
  generation inode = expected /\ fp_new_generation plan = generation inode + 1 /\ publishes r d n inode plan data ts.
Proof.
  intros Hc Hd Ht Hi E. destruct (prepared_facts _ _ _ _ _ E) as (inode0 & Hi0 & Hreg & Hg & [Hs1 Hs2] & _ & Hng).
  rewrite Hi in Hi0. injection Hi0 as <-. cbn [fq_offset fq_data] in *.
  destruct (read_facts r d (co_opened _ _ Hc) n inode Hi) as (_ & _ & _ & Hty).
  assert (generation inode < uint64_limit) as Hlt.
  { destruct Hty as (_ & _ & _ & _ & _ & _ & _ & _ & _ & _ & Hgt & _). unfold uint64_limit in *. word. }
  destruct (replace_plan_publishes r d n inode expected data ts plan) as [Hge Hpub]; try done.
Qed.

(** * The mutations *)
(** Nothing happened. *)
Definition refused (b : ObjectBackend) (e : env) (b' : ObjectBackend) (e' : env) (res : result errno unit) (out : MutationOutcome) : Prop :=
  is_ok res = false /\ out = kOutcomeNotApplied /\ b' = b /\ untouched e e'.

Lemma applies_untouched r fs' b e0 e b' e' res out : untouched e0 e -> applies r fs' b e b' e' res out -> applies r fs' b e0 b' e' res out.
Proof.
  intros (D & Z & T) [H1 H2 H3 H4 H5]. rewrite D in *. constructor; [done| |done|done|done].
  destruct out; [|done|done]. destruct H2 as (? & ? & U). conj_split; try done. by etransitivity; [|exact U].
Qed.

Section mutations.
Context (b : ObjectBackend) (e : env) (r : ImageReader) (Hs : serving b e r) (Ht : trace e = []).
Abbreviation rt := (root_inode (rd_superblock r)).
Abbreviation fs := (file_at r (disk e)).

(** ** Creation *)
Lemma put_outcome object_name data ts :
  let o := options_ b in
  object_request object_name data (opt_uid o) (opt_gid o) ts ->
  (forall plan, answer (disk e) (PrepareNewRootObject r object_name data (permissions o) (opt_uid o) (opt_gid o) ts) = Ok plan ->
     no_commit_block (np_metadata_after_images plan)) ->
  let '((b', e'), (res, m)) := PutIfAbsent object_name data ts (b, e) in
  refused b e b' e' res (outcome m) \/
  exists n fs', adds_object rt fs fs' n object_name data (permissions o) (opt_uid o) (opt_gid o) ts /\
    m = after_apply (outcome m) (mkVersion n 1) no_version /\ applies r fs' b e b' e' res (outcome m).
Proof.
  intros o Hq Hplain. unfold PutIfAbsent. cbn [fst]. rewrite (sv_reader _ _ _ Hs). fold o.
  destruct (ObjectBackend.reading _ (b, e)) as [[b1 e1] pr] eqn:E. apply reading_reads in E as (Eb & U & Hans); [|apply _]. cbn [fst snd] in *. subst b1.
  destruct pr as [plan|er].
  2: { assert (forall s', snd s' = e1 -> fst s' = b -> refused b e (fst s') (snd s') (Err er) kOutcomeNotApplied) as Href
         by (intros s' -> ->; done).
       destruct er; try (left; by apply (Href (b, e1))).
       destruct (ObjectBackend.reading (ResolveRegularLocked r object_name) (b, e1)) as [[b2 e2] pr2] eqn:E2.
       apply reading_reads in E2 as (Eb2 & U2 & _); [|apply _]. cbn [fst snd] in *. subst b2.
       destruct pr2 as [[n inode]|er]; left; (split; [done|]); (split; [done|]); (split; [done|by etransitivity]). }
  specialize (Hans plan eq_refl). specialize (Hplain plan Hans).
  destruct (new_object_planned r (disk e) object_name data (permissions o) (opt_uid o) (opt_gid o) ts plan (sv_consistent _ _ _ Hs) Hq Hans)
    as (es & Hl & _ & _ & Hcr).
  destruct (creates_adds r (disk e) plan object_name data _ _ _ ts es (sv_consistent _ _ _ Hs) Hl Hcr) as (r' & Hp & Hadd).
  assert (serving b e1 r) as Hs1 by (by apply (serving_untouched b e)). pose proof U as (D & _ & T).
  pose proof (apply_outcome r r' b e1 (np_before_images plan) (np_ordered_data_after_images plan) (np_metadata_after_images plan)
    (np_total_blocks plan) (np_filesystem_uuid plan) Hs1 ltac:(by rewrite T)) as Hap. rewrite D in Hap. specialize (Hap Hp Hplain).
  destruct (ApplyLocked _ _ _ _ _ (b, e1)) as [[b' e'] [res out]]. right.
  exists (np_inode_number plan). eexists. split; [exact Hadd|].
  assert (outcome (after_apply out (mkVersion (np_inode_number plan) 1) no_version) = out) as -> by (by destruct out).
  split; [done|]. by apply (applies_untouched _ _ _ e e1).
Qed.

(** ** Replacement *)
(** [fs'] is [fs] with new contents for the file [n]. *)
Definition replaces (fs fs' : files) (n : Z) (inode : InodeRecord) (data : bytes) (timestamp_ns : Z) : Prop :=
  exists inode', rewritten inode inode' (Z.of_nat (length data)) timestamp_ns /\
    forall k, fs' k = if k =? n then Some (inode', data) else fs k.

(** The three results of a conditional replacement of [n]. *)
Lemma replace_outcome object_name expected data ts :
  bytes_ok data -> u64 ts ->
  (forall n plan, answer (disk e) (PrepareObjectReplace r n (ov_generation expected) data ts) = Ok plan ->
     no_commit_block (fp_metadata_after_images plan)) ->
  let '((b', e'), (res, m)) := ReplaceIfVersion object_name expected data ts (b, e) in
  refused b e b' e' res (outcome m) \/
  exists n inode old fs', object_is fs rt object_name n inode old /\ expected = mkVersion n (generation inode) /\
    replaces fs fs' n inode data ts /\
    m = after_apply (outcome m) (mkVersion n (generation inode + 1)) expected /\ applies r fs' b e b' e' res (outcome m).
Proof.
  intros Hd Hts Hplain. unfold ReplaceIfVersion. cbn [fst]. rewrite (sv_reader _ _ _ Hs). pose proof (sv_consistent _ _ _ Hs) as Hc.
  destruct (ObjectBackend.reading _ (b, e)) as [[b1 e1] pr] eqn:E. apply reading_reads in E as (Eb & U & Hans); [|apply _]. cbn [fst snd] in *. subst b1.
  destruct pr as [[n inode]|er]; [|by left]. specialize (Hans _ eq_refl). apply (resolve_regular r (disk e) Hc) in Hans.
  destruct (decide (expected = mkVersion n (generation inode))) as [Hex|Hex].
  2: { rewrite bool_decide_eq_false_2 by done. by left. }
  rewrite bool_decide_eq_true_2 by done. cbn [negb].
  destruct (ObjectBackend.reading _ (b, e1)) as [[b2 e2] pr2] eqn:E2. apply reading_reads in E2 as (Eb2 & U2 & Hans2); [|apply _]. cbn [fst snd] in *. subst b2.
  assert (untouched e e2) as U3 by (by etransitivity). pose proof U as (D & _ & _). rewrite D in Hans2.
  destruct pr2 as [plan|er]; [|by left]. specialize (Hans2 plan eq_refl). specialize (Hplain n plan Hans2).
  pose proof Hans as (_ & _ & Hfile & _). unfold file_at in Hfile. destruct (answer (disk e) (ReadInode r n)) as [J|] eqn:EJ; [|done].
  injection Hfile as ->. destruct (replace_planned r (disk e) n inode _ data ts plan Hc Hd Hts EJ Hans2) as (Hg & Hng & _ & r' & inode' & Hp & Hrw & _ & Hf).
  assert (serving b e2 r) as Hs2 by (by apply (serving_untouched b e)). pose proof U3 as (D3 & _ & T3).
  pose proof (apply_outcome r r' b e2 (fp_before_images plan) (fp_ordered_data_after_images plan) (fp_metadata_after_images plan)
    (fp_total_blocks plan) (fp_filesystem_uuid plan) Hs2 ltac:(by rewrite T3)) as Hap. rewrite D3 in Hap. specialize (Hap Hp Hplain).
  destruct (ApplyLocked _ _ _ _ _ (b, e2)) as [[b' e'] [res out]]. right.
  exists n, inode, (file_bytes (disk e) inode). eexists. split; [done|]. split; [done|]. split; [by exists inode'|].
  rewrite Hng, Hex. assert (outcome (after_apply out (mkVersion n (generation inode + 1)) (mkVersion n (generation inode))) = out) as -> by (by destruct out).
  split; [done|]. by apply (applies_untouched _ _ _ e e2).
Qed.

(** ** Reads *)
Lemma get_answer object_name data st :
  answer (disk e) (io_bind (ResolveRegularLocked r object_name) (fun '(inode_number, inode) =>
      if uint64_limit <? i_size inode then io_fail EOVERFLOW
      else
      io_bind (if i_size inode =? 0 then io_ret [] else ReadFile r inode_number 0 (i_size inode)) (fun candidate =>
      if negb (Z.of_nat (length candidate) =? i_size inode) then io_fail EUCLEAN
      else io_ret (candidate, MakeObjectStat inode_number inode)))) = Ok (data, st) <->
  exists n inode, object_is fs rt object_name n inode data /\ st = MakeObjectStat n inode.
Proof.
  pose proof (sv_consistent _ _ _ Hs) as Hc. pose proof (op_view _ _ (co_opened _ _ Hc)) as Hv.
  assert (forall n inode b, object_is fs rt object_name n inode b -> b = file_bytes (disk e) inode /\
    answer (disk e) (ReadInode r n) = Ok inode /\ Z.of_nat (length b) = i_size inode /\ 0 <= i_size inode <= kMaxFileSize /\
    answer (disk e) (if i_size inode =? 0 then io_ret [] else ReadFile r n 0 (i_size inode)) = Ok b) as Hfacts.
  { intros n inode b0 (_ & _ & Hf & Hreg). unfold file_at in Hf. destruct (answer (disk e) (ReadInode r n)) as [J|] eqn:EJ; [|done].
    injection Hf as -> <-. destruct (read_inode_valid r _ Hv n inode EJ) as (Hval & _). pose proof (length_file_bytes r _ Hv inode Hval) as Hlen.
    pose proof (iv_size _ _ _ Hval) as Hsz. split; [done|]. split; [done|]. split; [done|]. split; [done|]. rewrite answer_if.
    destruct (Z.eqb_spec (i_size inode) 0) as [H0|H0].
    - rewrite H0 in Hlen. by destruct (file_bytes (disk e) inode).
    - rewrite (read_file_answer r _ Hv n inode 0 (i_size inode) EJ Hreg) by lia. f_equal. unfold slice. rewrite drop_0. apply take_ge. lia. }
  pose proof max_file_size. split.
  - intros E. apply answer_bind_inv in E as ([n inode] & E1%(resolve_regular r (disk e) Hc) & E); [|apply _].
    destruct (Hfacts _ _ _ E1) as (_ & _ & Hlen & Hsz & Hr). rewrite answer_if, (proj2 (Z.ltb_ge _ _)) in E by (unfold uint64_limit; lia).
    rewrite (answer_bind_ok _ _ _ _ _ Hr), answer_if, Hlen, Z.eqb_refl in E. cbn [negb] in E. injection E as <- <-. by exists n, inode.
  - intros (n & inode & Ho & ->). destruct (Hfacts _ _ _ Ho) as (Hb & _ & Hlen & Hsz & Hr). pose proof Ho as Ho2. rewrite Hb in Ho2.
    apply (resolve_regular r (disk e) Hc) in Ho2. rewrite (answer_bind_ok _ _ _ _ _ Ho2). cbv beta iota.
    rewrite answer_if, (proj2 (Z.ltb_ge _ _)) by (unfold uint64_limit; lia).
    rewrite (answer_bind_ok _ _ _ _ _ Hr), answer_if, Hlen, Z.eqb_refl. done.
Qed.

Lemma get_outcome object_name :
  let '((b', e'), res) := Get object_name (b, e) in
  b' = b /\ untouched e e' /\
  (forall data st, res = Ok (data, st) -> exists n inode, object_is fs rt object_name n inode data /\ st = MakeObjectStat n inode) /\
  (responses e = [] -> forall n inode data, object_is fs rt object_name n inode data -> res = Ok (data, MakeObjectStat n inode)).
Proof.
  unfold Get. cbn [fst]. rewrite (sv_reader _ _ _ Hs). match goal with |- context [ObjectBackend.reading ?m (b, e)] => set (io := m) end.
  assert (Reading io) as Hr by (unfold io; apply reading_bind; [apply _|]; intros [n inode]; apply _).
  destruct (ObjectBackend.reading io (b, e)) as [[b' e'] res] eqn:E. pose proof E as E0. apply reading_reads in E0 as (Eb & U & Hans); [|done].
  split; [done|]. split; [done|]. split.
  - intros data st ->. specialize (Hans _ eq_refl). by apply get_answer.
  - intros Hn n inode data Ho. destruct (answer_run io e Hr) as (_ & _ & H1). cbn in E. destruct (io e) as [e1 res1]. injection E as _ _ <-.
    cbn [snd] in H1. apply H1; [done|]. apply get_answer. by exists n, inode.
Qed.
End mutations.
