(* ===== verification/LedgerFiles.v ===== *)
(** The ledger block as part of a transaction (src/object/request_ledger_plan.cpp,
    [MergeRequestLedgerAppend]): overwriting a data block of one file keeps an
    image consistent, and a plan that leaves the ledger alone stays a publication
    when the record joins it. *)
From S2P Require Import Prelude Codec OndiskFormat OndiskFormatProofs OndiskJournal OndiskJournalProofs Disk.
From S2P Require Import JournalStore JournalImage CrashLogic JournalStates JournalTheorems BitmapAllocator.
From S2P Require Import RequestLedger RequestLedgerProofs ImageReader ImageReaderProofs ReaderTheorems LedgerStore.
From S2P Require Import FileMutation ConsistentImage PlanProofs FileMutationPublish Publication FileSystem.
From S2P Require Import ObjectBackend BackendProofs.
Open Scope Z_scope.

(** * Overwriting a data block in place *)
Lemma with_same_bitmaps r : with_bitmaps r (inode_bitmap_ r) (block_bitmap_ r) = r.
Proof. by destruct r. Qed.

Section data_change.
Context (r : ImageReader) (d : image) (Hc : consistent r d).
Context (m : Z) (J : InodeRecord) (HJ : answer d (ReadInode r m) = Ok J).
Context (l : Z) (Hl : 0 <= l < required_blocks J) (b : bytes) (Hb : block_wf b).
Abbreviation sb := (rd_superblock r).
Abbreviation p := (pointer d J l).
Abbreviation d2 := (<[p := b]> d).
Let Ho := co_opened _ _ Hc.
Let Hv := op_view _ _ Ho.
Let Hlay := opened_layout _ _ Ho.

Lemma p_owned : p ∈ owned d J.
Proof. by apply elem_owned_pointer. Qed.

Lemma p_range : start_block (data sb) <= p < total_blocks sb /\ TestBit (block_bitmap_ r) p = true.
Proof. destruct (read_facts r d Ho m J HJ) as (_ & Hval & _). exact (owned_data_block r d J p Hval p_owned). Qed.

Lemma p_not_indirect k I : answer d (ReadInode r k) = Ok I -> indirect_block I <> 0 -> indirect_block I <> p.
Proof.
  intros HI Hnz E. destruct (decide (k = m)) as [->|Hne].
  - rewrite HJ in HI. injection HI as <-. pose proof (co_alone _ _ Hc m J HJ) as (_ & Hx & _)%NoDup_app.
    apply (Hx p); [apply list_elem_of_fmap; exists l; split; [done|by apply elem_counting]|].
    rewrite (proj2 (Z.eqb_neq _ _) Hnz), E. by left.
  - apply (co_apart _ _ Hc k m I J Hne HI HJ p); [rewrite <- E; by apply elem_owned_indirect|apply p_owned].
Qed.

Lemma dc_pointer k I : answer d (ReadInode r k) = Ok I -> forall l', pointer d2 I l' = pointer d I l'.
Proof.
  intros HI l'. destruct (read_facts r d Ho k I HI) as (_ & Hval & _). unfold pointer, pointers.
  pose proof (iv_indirect _ _ _ Hval) as Hi. destruct (_ <=? _); [done|]. destruct Hi as [Hnz _].
  unfold block_at. rewrite lookup_insert_ne; [done|]. intros E. by apply (p_not_indirect k I HI Hnz).
Qed.

Lemma dc_change : home_change r d d2.
Proof.
  destruct p_range as [Hr _]. pose proof (vo_data _ _ Hv). constructor.
  - by rewrite lookup_insert_ne by lia.
  - intros blk Hj. rewrite lookup_insert_ne; [done|]. unfold in_journal in Hj. pose proof (geo_data _ (lay_geo _ Hlay)). lia.
  - intros n Hn. apply lookup_insert_is_Some. destruct (decide (p = n)); [by left|right]. split; [done|].
    destruct (vo_blocks _ _ Hv n Hn) as (x & -> & _). done.
  - intros n x. destruct (decide (p = n)) as [->|Hne]; [rewrite lookup_insert_eq; by intros [= <-]|].
    rewrite lookup_insert_ne by done. apply (vo_wf _ _ Hv).
Qed.

Lemma dc_view : view_ok r d2.
Proof. pose proof (view_change r d Ho d2 (inode_bitmap_ r) (block_bitmap_ r) dc_change) as H. by rewrite with_same_bitmaps in H. Qed.

Lemma dc_inode k I : answer d (ReadInode r k) = Ok I ->
  answer d2 (ReadInode r k) = Ok I /\ owned d2 I = owned d I /\ (k <> m -> file_blocks d2 I = file_blocks d I).
Proof.
  intros HI. pose proof HI as HI0. apply (read_inode_iff r d Hv Hlay) in HI0 as (Hk & Ht & Hdec & Hval).
  pose proof (dc_pointer k I HI) as Hp. split; [|split].
  - apply (read_inode_iff r d2 dc_view Hlay). split; [done|]. split; [done|]. split.
    + destruct p_range as [Hr _]. destruct (inode_position sb Hlay k Hk) as (_ & _ & Hpos). pose proof (lay_js _ Hlay).
      pose proof (geo_data _ (lay_geo _ Hlay)). pose proof (geo_count _ (lay_geo _ Hlay)).
      unfold slot, block_at in *. rewrite lookup_insert_ne by lia. done.
    + destruct Hval. constructor; try done; intros l' Hl'; rewrite Hp; auto.
  - unfold owned, file_pointers. f_equal. apply map_ext. exact Hp.
  - intros Hne. unfold file_blocks. apply map_ext_in. intros l' Hl'%list_elem_of_In%elem_counting. rewrite Hp. unfold block_at.
    rewrite lookup_insert_ne; [done|]. intros E.
    apply (co_apart _ _ Hc k m I J Hne HI HJ p); [rewrite E; by apply elem_owned_pointer|apply p_owned].
Qed.

Lemma dc_reflected k I : answer d2 (ReadInode r k) = Ok I -> answer d (ReadInode r k) = Ok I.
Proof.
  intros E. destruct (read_inode_valid r d2 dc_view k I E) as (_ & _ & Ha & _).
  destruct (co_inodes _ _ Hc k Ha) as [I0 E0]. destruct (dc_inode k I0 E0) as (E1 & _). congruence.
Qed.

Lemma dc_region start count : 0 <= start -> start + count <= js sb -> region_bytes d2 start count = region_bytes d start count.
Proof.
  intros Hs He. destruct p_range as [Hr _]. pose proof (geo_data _ (lay_geo _ Hlay)). pose proof (geo_count _ (lay_geo _ Hlay)).
  unfold region_bytes. f_equal. apply map_ext_in. intros i Hi%list_elem_of_In%elem_counting. unfold block_at.
  rewrite lookup_insert_ne by lia. done.
Qed.

Lemma dc_consistent : consistent r d2.
Proof.
  destruct (region_bounds r d Ho) as (L & Htb & B1 & B2 & B3 & B4). pose proof (lay_ib _ L). pose proof (lay_bb _ L).
  pose proof (lay_it _ L). pose proof (lay_js _ L).
  constructor.
  - rewrite <- (with_same_bitmaps r). destruct (inode_bitmap_bytes r d Ho) as (Ei & _). destruct (block_bitmap_bytes r d Ho) as (Eb & _).
    apply (opened_change r d Ho d2 _ _ dc_change).
    + rewrite dc_region by lia. done.
    + rewrite dc_region by lia. done.
    + apply (op_metadata _ _ Ho).
    + apply (op_inode_tail _ _ Ho).
    + apply (op_block_tail _ _ Ho).
    + destruct (op_root _ _ Ho) as (root & E & Hd). exists root. rewrite with_same_bitmaps. split; [by apply dc_inode|done].
  - intros k Ha. destruct (co_inodes _ _ Hc k Ha) as [I E]. exists I. by apply dc_inode.
  - intros k I E%dc_reflected. destruct (dc_inode k I E) as (_ & -> & _). by apply (co_alone _ _ Hc k).
  - intros k k' I I' Hne E%dc_reflected E'%dc_reflected. destruct (dc_inode k I E) as (_ & -> & _).
    destruct (dc_inode k' I' E') as (_ & -> & _). by apply (co_apart _ _ Hc k k').
Qed.

Lemma dc_distinct : distinct_blocks d J.
Proof.
  pose proof (co_alone _ _ Hc m J HJ) as Hnd. split.
  - pose proof Hnd as (Hp & _)%NoDup_app. intros l1 l2 H1 H2 E.
    assert (forall i, 0 <= i < required_blocks J -> file_pointers d J !! Z.to_nat i = Some (pointer d J i)) as Hlk.
    { intros i Hi. unfold file_pointers, counting. change (map ?f ?k) with (f <$> k).
      rewrite !list_lookup_fmap, lookup_seq_lt by lia. cbn. by rewrite Z2Nat.id by lia. }
    assert (Z.to_nat l1 = Z.to_nat l2); [|lia]. eapply (NoDup_lookup (file_pointers d J)); [done|by apply Hlk|rewrite Hlk by done; congruence].
  - intros H12 l1 H1 E. destruct (read_facts r d Ho m J HJ) as (_ & Hval & _). pose proof (iv_indirect _ _ _ Hval) as Hi.
    change kDirectBlockCount with 12 in Hi. rewrite (proj2 (Z.leb_gt _ _) H12) in Hi. destruct Hi as [Hnz _].
    pose proof Hnd as (_ & Hx & _)%NoDup_app. apply (Hx (pointer d J l1)).
    + apply list_elem_of_fmap. exists l1. split; [done|by apply elem_counting].
    + rewrite (proj2 (Z.eqb_neq _ _) Hnz), E. by left.
Qed.

Lemma dc_blocks : file_blocks d2 J = <[Z.to_nat l := b]> (file_blocks d J).
Proof. destruct (read_facts r d Ho m J HJ) as (_ & Hval & _). by apply (file_blocks_rewrite r d); [|apply dc_distinct|]. Qed.

(** Every other file is as it was. *)
Lemma dc_files k : k <> m -> file_at r d2 k = file_at r d k.
Proof.
  intros Hk. apply file_at_frame; [done|apply dc_view|done|]. intros I E. destruct (dc_inode k I E) as (E1 & _ & E2). auto.
Qed.
End data_change.

(** * A record joins a transaction *)
(** What makes a set of images a publication, apart from having metadata. *)
Record images_of (r : ImageReader) (d before ordered meta : image) (r' : ImageReader) : Prop := {
  io_before : forall blk b, before !! blk = Some b -> d !! blk = Some b;
  io_domain : forall blk, is_Some (before !! blk) <-> is_Some (ordered !! blk) \/ is_Some (meta !! blk);
  io_ordered : forall blk x, ordered !! blk = Some x ->
    BlockIsInRegion blk (data (rd_superblock r)) = true /\ meta !! blk = None /\ TestBit (block_bitmap_ r) blk = false;
  io_metadata : forall blk x, meta !! blk = Some x -> u32 blk /\ IsValidMetadataTarget (rd_superblock r) blk = true;
  io_reader : exists ibm bm, r' = with_bitmaps r ibm bm;
  io_consistent : consistent r' (applied ordered meta d)
}.

Lemma publication_images r d before ordered meta total uuid r' :
  publication r d before ordered meta total uuid r' -> images_of r d before ordered meta r'.
Proof. by intros []. Qed.

Lemma applied_nothing (d : image) : applied ∅ ∅ d = d.
Proof. apply map_eq. intros k. rewrite lookup_applied. by rewrite !lookup_empty. Qed.

Lemma no_images r d : consistent r d -> images_of r d ∅ ∅ ∅ r.
Proof.
  intros Hc. constructor; try (intros ? ?; by rewrite lookup_empty).
  - intros blk. rewrite lookup_empty. split; [by left|by intros [?|?]].
  - exists (inode_bitmap_ r), (block_bitmap_ r). by rewrite with_same_bitmaps.
  - by rewrite applied_nothing.
Qed.

Section merged.
Context (r r' : ImageReader) (d before ordered meta : image) (Hc : consistent r d) (Him : images_of r d before ordered meta r').
Abbreviation sb := (rd_superblock r).
Abbreviation d' := (applied ordered meta d).
Context (m : Z) (J : InodeRecord) (HJ : answer d (ReadInode r m) = Ok J) (HJ' : answer d' (ReadInode r' m) = Ok J).
Context (Hown : owned d' J = owned d J) (Hblk : file_blocks d' J = file_blocks d J).
Context (l : Z) (Hl : 0 <= l < required_blocks J) (after : bytes) (Hafter : block_wf after).
Abbreviation p := (pointer d J l).
Context (Hfree : ordered !! p = None /\ meta !! p = None).

Lemma same_pointer : pointer d' J l = p.
Proof.
  assert (file_pointers d' J = file_pointers d J) as E.
  { unfold owned in Hown. exact (app_inv_tail _ _ _ Hown). }
  unfold file_pointers in E. apply (f_equal (fun z => nth (Z.to_nat l) z 0)) in E.
  rewrite !(nth_indep _ 0 (pointer d' J 0)), !map_nth in E by (rewrite length_map, length_counting; lia).
  rewrite (nth_indep _ (pointer d' J 0) (pointer d J 0)), map_nth in E by (rewrite length_map, length_counting; lia).
  rewrite !nth_counting in E by lia. by rewrite !Z2Nat.id in E by lia.
Qed.

Lemma merged_applied : applied ordered (<[p := after]> meta) d = <[p := after]> d'.
Proof.
  apply map_eq. intros k. rewrite lookup_applied. destruct (decide (p = k)) as [<-|Hne].
  - by rewrite !lookup_insert_eq.
  - rewrite !lookup_insert_ne by done. by rewrite lookup_applied.
Qed.

Lemma merged_publication :
  publication r d (<[p := block_at d p]> before) ordered (<[p := after]> meta) (total_blocks sb) (sb_filesystem_uuid sb) r' /\
  (forall k, k <> m -> file_at r' (applied ordered (<[p := after]> meta) d) k = file_at r' d' k) /\
  answer (applied ordered (<[p := after]> meta) d) (ReadInode r' m) = Ok J /\
  file_blocks (applied ordered (<[p := after]> meta) d) J = <[Z.to_nat l := after]> (file_blocks d J).
Proof.
  pose proof (io_consistent _ _ _ _ _ _ Him) as Hc'. rewrite merged_applied.
  pose proof (dc_consistent r' d' Hc' m J HJ' l Hl after Hafter) as Hc2. rewrite same_pointer in Hc2.
  pose proof (fun k => dc_files r' d' Hc' m J HJ' l Hl after Hafter k) as Hk. rewrite same_pointer in Hk.
  pose proof (dc_inode r' d' Hc' m J HJ' l Hl after Hafter m J HJ') as (Hm & _ & _). rewrite same_pointer in Hm.
  pose proof (dc_blocks r' d' Hc' m J HJ' l Hl after) as Hbl. rewrite same_pointer, Hblk in Hbl.
  destruct (p_range r d Hc m J HJ l Hl) as [Hr Ht]. pose proof (opened_layout _ _ (co_opened _ _ Hc)) as Hlay.
  pose proof (geo_data _ (lay_geo _ Hlay)) as G1. pose proof (geo_count _ (lay_geo _ Hlay)) as G2. pose proof (lay_js _ Hlay) as G3.
  destruct (region_bounds r d (co_opened _ _ Hc)) as (_ & Htb & _ & _ & B3 & _). pose proof (lay_it _ Hlay) as G4. pose proof (lay_bb _ Hlay).
  pose proof (lay_ib _ Hlay). pose proof (lay_ib_size _ Hlay). pose proof (lay_bb_size _ Hlay).
  destruct (vo_blocks _ _ (op_view _ _ (co_opened _ _ Hc)) p ltac:(lia)) as (x0 & Ex0 & _).
  destruct Him as [I1 I2 I3 I4 I5 I6]. destruct Hfree as [F1 F2].
  split; [constructor|split; [exact Hk|split; [exact Hm|exact Hbl]]].
  - done.
  - intros blk b. destruct (decide (p = blk)) as [<-|Hne]; [|rewrite lookup_insert_ne by done; apply I1].
    rewrite lookup_insert_eq. intros [= <-]. unfold block_at. by rewrite Ex0.
  - intros blk. destruct (decide (p = blk)) as [<-|Hne]; [|rewrite !lookup_insert_ne by done; apply I2].
    rewrite !lookup_insert_eq. split; [right; by eexists|by eexists].
  - intros blk x E. destruct (I3 blk x E) as (Q1 & Q2 & Q3). split; [done|]. split; [|done].
    rewrite lookup_insert_ne; [done|]. intros <-. congruence.
  - intros blk x. destruct (decide (p = blk)) as [<-|Hne]; [|rewrite lookup_insert_ne by done; apply I4]. intros _.
    split; [word|]. unfold IsValidMetadataTarget, BlockIsInRegion. change (start_block (journal sb)) with (js sb).
    rewrite (proj2 (Z.eqb_neq _ _)), (proj2 (Z.ltb_lt _ _)) by lia. cbn [negb andb].
    apply negb_true_iff, andb_false_iff. rewrite Z.leb_gt, Z.ltb_ge. lia.
  - intros E. apply (f_equal (fun z => z !! p)) in E. rewrite lookup_insert_eq, lookup_empty in E. done.
  - done.
  - by rewrite merged_applied.
Qed.
End merged.

(** The request ledger as a file of the abstract file system, and mutations that
    carry a record: whatever else the transaction does, its record and its effect
    reach the disk together. *)
Abbreviation ledger_inode := kRequestLedgerInodeNumber.

(** The ledger of the files [fs] holds the records of [index]. *)
Definition ledger_in (sb : Superblock) (fs : files) (index : RequestLedgerIndex) : Prop :=
  Z.land (sb_feature_incompat sb) kFeatureIncompatRequestLedger <> 0 /\
  Z.land (sb_feature_incompat sb) (Z.lnot kSupportedFeatureIncompat) = 0 /\
  names fs (root_inode sb) kRequestLedgerName ledger_inode /\
  exists inode b, fs ledger_inode = Some (inode, b) /\ bad_ledger ledger_inode inode = false /\ ScanBlocks (chunks b) = Ok index.

#[export] Instance ledger_in_proper sb : Proper ((≡) ==> (=) ==> iff) (ledger_in sb).
Proof.
  assert (forall fs fs' : files, fs ≡ fs' -> forall i, ledger_in sb fs i -> ledger_in sb fs' i) as H.
  { intros fs fs' E i (H1 & H2 & H3 & inode & b & H4 & H5). rewrite E in H3. rewrite E in H4. unfold ledger_in. eauto 8. }
  intros fs fs' E i ? <-. split; by apply H.
Qed.

Lemma ledger_unique sb fs i i' : ledger_in sb fs i -> ledger_in sb fs i' -> i = i'.
Proof. intros (_ & _ & _ & inode & b & E & _ & H) (_ & _ & _ & inode' & b' & E' & _ & H'). congruence. Qed.

Lemma ledger_name_plain : plain_name kRequestLedgerName.
Proof. apply valid_plain. reflexivity. Qed.

Section scan.
Context (r : ImageReader) (d : image) (Hc : consistent r d).
Let Hv := op_view _ _ (co_opened _ _ Hc).

Lemma ledger_file_iff inode :
  ledger_file r d inode <->
  names (file_at r d) (root_inode (rd_superblock r)) kRequestLedgerName ledger_inode /\
  answer d (ReadInode r ledger_inode) = Ok inode /\ bad_ledger ledger_inode inode = false.
Proof.
  unfold ledger_file. change ledger_path with (path_of [kRequestLedgerName]).
  rewrite (resolve_path_iff r d Hv) by (constructor; [apply ledger_name_plain|constructor]).
  rewrite (walk_path r d Hv), path_single. tauto.
Qed.

Lemma ledger_chunks inode : ledger_file r d inode -> chunks (file_bytes d inode) = file_blocks d inode.
Proof.
  intros Hl. destruct (ledger_facts r d Hv inode Hl) as (Hval & _ & Hsz & _). pose proof BlockLen_Z.
  pose proof (file_blocks_wf r d Hv inode Hval) as HL. unfold file_bytes. rewrite take_ge; [by apply chunks_concat|].
  rewrite (length_concat_same BlockLen _ HL), length_file_blocks. lia.
Qed.

Lemma scan_files index : answer d (ScanRequestLedger r) = Ok index <-> ledger_in (rd_superblock r) (file_at r d) index.
Proof.
  rewrite (scan_answer r d Hv). unfold ledger_in. split.
  - intros (H1 & H2 & inode & Hl & Hs). split; [done|]. split; [done|]. pose proof (proj1 (ledger_file_iff inode) Hl) as (Hn & Hi & Hb).
    split; [done|]. exists inode, (file_bytes d inode). rewrite (file_at_ok _ _ _ _ Hi), ledger_chunks by done. done.
  - intros (H1 & H2 & Hn & inode & b & Hf & Hb & Hs). split; [done|]. split; [done|]. unfold file_at in Hf.
    destruct (answer d (ReadInode r ledger_inode)) as [J|] eqn:EJ; [|done]. injection Hf as -> <-. exists inode.
    assert (ledger_file r d inode) as Hl by (by apply ledger_file_iff). split; [done|]. by rewrite <- ledger_chunks.
Qed.
End scan.

(** ** Names when only contents change *)
(** The mode of every file is kept, and so is the directory [n]. *)
Lemma lists_congruent (fs fs' : files) n : fs' n = fs n ->
  (forall k inode b, fs k = Some (inode, b) -> exists inode' b', fs' k = Some (inode', b') /\ mode inode' = mode inode) ->
  forall es, lists fs n es -> lists fs' n es.
Proof.
  intros Hn Hm es (inode & b & ess & H1 & H2 & H3 & H4 & H5 & H6). exists inode, b, ess. rewrite Hn. conj_split; try done.
  eapply Forall_impl; [exact H6|]. intros x (c & cb & Hc & Ht). destruct (Hm _ _ _ Hc) as (c' & cb' & E & Em).
  exists c', cb'. by rewrite Em.
Qed.

Lemma names_congruent (fs fs' : files) n : fs' n = fs n ->
  (forall k inode b, fs k = Some (inode, b) -> exists inode' b', fs' k = Some (inode', b') /\ mode inode' = mode inode) ->
  forall c m, names fs n c m -> names fs' n c m.
Proof. intros Hn Hm c m (es & x & H & Hx). exists es, x. split; [|done]. by eapply lists_congruent. Qed.

(** * A record in the ledger *)
(** [fs'] is [fs] with other contents of the ledger file. *)
Definition with_ledger (fs fs' : files) : Prop :=
  (exists inode b b', fs ledger_inode = Some (inode, b) /\ fs' ledger_inode = Some (inode, b')) /\
  forall k, k <> ledger_inode -> fs' k = fs k.

(** The record [rec], with its sequence number, is new in [fs']. *)
Definition records (sb : Superblock) (fs fs' : files) (index index' : RequestLedgerIndex) (rec : RequestLedgerRecord) : Prop :=
  with_ledger fs fs' /\ ledger_in sb fs' index' /\
  AppendCommitted index (set_sequence rec (next_sequence_ index)) false = (index', Ok tt).

Lemma with_ledger_modes fs fs' : with_ledger fs fs' ->
  forall k inode b, fs k = Some (inode, b) -> exists inode' b', fs' k = Some (inode', b') /\ mode inode' = mode inode.
Proof.
  intros [(J & b1 & b2 & E1 & E2) Ho] k inode b E. destruct (decide (k = ledger_inode)) as [->|Hne].
  - rewrite E1 in E. injection E as <- <-. by exists J, b2.
  - rewrite <- Ho in E by done. by exists inode, b.
Qed.

Lemma with_ledger_names fs fs' rt : with_ledger fs fs' -> rt <> ledger_inode -> forall c m, names fs rt c m -> names fs' rt c m.
Proof. intros H Hrt. apply names_congruent; [by apply H|by apply with_ledger_modes]. Qed.

Lemma with_ledger_sym fs fs' : with_ledger fs fs' -> with_ledger fs' fs.
Proof. intros [(J & b1 & b2 & E1 & E2) Ho]. split; [by exists J, b2, b1|]. intros k Hk. by rewrite Ho. Qed.

Lemma ledger_not_directory inode : bad_ledger ledger_inode inode = false -> S_ISREG (mode inode) = true /\ S_ISDIR (mode inode) = false.
Proof.
  unfold bad_ledger. intros H. bool_to_prop. match goal with H : S_ISREG _ = true |- _ => rename H into Hr end. split; [done|].
  unfold S_ISREG, S_ISDIR in *. apply Z.eqb_eq in Hr. by rewrite Hr.
Qed.

Lemma splice_slot_wf b enc i : block_wf b -> length enc = LedgerLen /\ bytes_ok enc -> block_wf (splice (slot_offset i) enc b).
Proof.
  intros [Hl Hb] [He Hok]. split; [|by apply bytes_ok_splice]. rewrite length_splice; [done|]. rewrite He, Hl. unfold slot_offset.
  change kEntriesPerBlock with 32. change kRequestLedgerRecordSize with 128. change LedgerLen with 128%nat.
  pose proof BlockLen_Z. pose proof (Z.mod_pos_bound i 32 ltac:(lia)). lia.
Qed.

Lemma slots_of_blocks blocks : Forall block_wf blocks ->
  Forall slot_wf (concat (map block_slots blocks)) /\ length (concat (map block_slots blocks)) = (length blocks * 32)%nat.
Proof.
  induction 1 as [|x blocks [Hl Hb] _ [IH1 IH2]]; [done|]. cbn [map concat length]. rewrite length_app, length_block_slots, IH2. split; [|lia].
  apply Forall_app. split; [|done]. apply Forall_forall. intros y Hy. unfold block_slots in Hy. apply list_elem_of_fmap in Hy as (j & -> & Hj%elem_of_seq).
  split; [|by apply bytes_ok_slice]. apply length_slice. rewrite Hl.
  change (Z.to_nat kEntriesPerBlock) with 32%nat in Hj. change BlockLen with 4096%nat. change LedgerLen with 128%nat. lia.
Qed.

Lemma first_slot_of blocks : forall l x, blocks !! l = Some x ->
  concat (map block_slots blocks) !! (l * 32)%nat = Some (slice 0 LedgerLen x).
Proof.
  induction blocks as [|y blocks IH]; intros l x Hl; [done|]. cbn [map concat]. destruct l as [|l].
  - injection Hl as ->. rewrite lookup_app_l by (rewrite length_block_slots; lia). by rewrite block_slots_lookup by lia.
  - rewrite lookup_app_r by (rewrite length_block_slots; lia). rewrite length_block_slots.
    replace (S l * 32 - 32)%nat with (l * 32)%nat by lia. by apply IH.
Qed.

(** A block of the ledger never looks like the end of a transaction. *)
Lemma ledger_block_plain blocks index l x : Forall block_wf blocks -> (length blocks <= 1036)%nat -> ScanBlocks blocks = Ok index ->
  blocks !! l = Some x -> is_ok (DecodeCommit x) = false.
Proof.
  intros Hwf Hlen Hs Hl. unfold ScanBlocks in Hs. destruct (scan_slots _ _ _ _) as [m|] eqn:E; [|done].
  set (slots := concat (map block_slots blocks)) in *.
  assert (Forall slot_wf slots /\ length slots = (length blocks * 32)%nat) as [Hsw Hsl] by (by apply slots_of_blocks).
  assert (slots !! (l * 32)%nat = Some (slice 0 LedgerLen x)) as Hx by (by apply first_slot_of).
  destruct (scan_sound slots 1 ∅ m Hsw ltac:(lia) ltac:(lia) E) as (rs & k & Hslots & Hleg & _).
  assert (slice 0 4 x = kLedgerMagic \/ slice 0 4 x = zeros 4) as Hmagic.
  { replace (slice 0 4 x) with (slice 0 4 (slice 0 LedgerLen x)) by (unfold slice; rewrite !drop_0, take_take; done).
    rewrite Hslots in Hx. unfold ledger_slots in Hx. apply lookup_app_Some in Hx as [Hx|[_ Hx]].
    - rewrite list_lookup_fmap in Hx. destruct (rs !! _) as [v|] eqn:Ev; [|done]. injection Hx as <-. left. apply LedgerCodec.image_magic.
      by apply (Hleg _ v Ev).
    - apply lookup_replicate in Hx as [-> _]. by right. }
  unfold DecodeCommit. destruct (bool_decide (slice 0 8 x = kCommitMagic)) eqn:Em; [|done]. apply bool_decide_eq_true in Em.
  assert (slice 0 4 x = take 4 kCommitMagic) as E4 by (rewrite <- Em; unfold slice; rewrite take_take; done).
  rewrite E4 in Hmagic. by destruct Hmagic.
Qed.

Section join.
Context (r r' : ImageReader) (d before ordered meta : image) (Hc : consistent r d) (Him : images_of r d before ordered meta r').
Abbreviation sb := (rd_superblock r).
Abbreviation d' := (applied ordered meta d).
Context (index : RequestLedgerIndex) (Hled : ledger_in sb (file_at r d) index).
Context (Hnames : names (file_at r' d') (root_inode sb) kRequestLedgerName ledger_inode).
Context (Hkeep : forall J, answer d (ReadInode r ledger_inode) = Ok J ->
  answer d' (ReadInode r' ledger_inode) = Ok J /\ owned d' J = owned d J /\ file_blocks d' J = file_blocks d J).
Context (rec : RequestLedgerRecord) (Hty : ledger_typed rec) (Hnew : Find index (request_id rec) = None).
Let Hv := op_view _ _ (co_opened _ _ Hc).

Lemma join_record ledger before2 ordered2 meta2 :
  answer d (PrepareRequestLedgerAppend r index rec) = Ok ledger ->
  MergeRequestLedgerAppend ledger (total_blocks sb) (sb_filesystem_uuid sb) before ordered meta = Ok (before2, ordered2, meta2) ->
  exists index', publication r d before2 ordered2 meta2 (total_blocks sb) (sb_filesystem_uuid sb) r' /\
    ap_record ledger = set_sequence rec (next_sequence_ index) /\
    (no_commit_block meta -> no_commit_block meta2) /\
    records sb (file_at r' d') (file_at r' (applied ordered2 meta2 d)) index index' rec.
Proof.
  intros Hprep Hmerge. pose proof (proj2 (scan_files r d Hc index) Hled) as Hscan.
  pose proof (proj1 (scan_answer r d Hv index) Hscan) as (F1 & F2 & J & Hlf & Hsc).
  pose proof (proj1 (ledger_file_iff r d Hc J) Hlf) as (Hnm & HJ & Hbad). destruct (Hkeep J HJ) as (HJ' & Hown & Hblk).
  assert (0 <= next_sequence_ index) as Hseq.
  { unfold ScanBlocks in Hsc. destruct (scan_slots _ _ _ _); [|done]. injection Hsc as <-. cbn. apply Z.mod_pos_bound. lia. }
  destruct (prepare_inv r d Hv index rec ledger Hseq Hprep) as (J0 & enc & Hlf0 & Hcap & Hfull & Hrange & Hlog & Hz & He & Eled).
  assert (J0 = J) as ->. { destruct Hlf as [E _], Hlf0 as [E0 _]. congruence. }
  set (l := (next_sequence_ index - 1) / 32) in *. cbv zeta in *.
  destruct (prepared_rescans r d Hv index rec ledger J Hscan Hty Hnew Hprep Hlf) as (index' & Happ & Hsc').
  { apply (dc_distinct r d Hc ledger_inode J HJ). }
  unfold MergeRequestLedgerAppend in Hmerge. destruct (ValidateAppendPlan ledger); [|done].
  destruct (_ || _) eqn:Eg in Hmerge; [done|]. destruct (_ || _) eqn:Ef in Hmerge; [done|]. injection Hmerge as <- <- <-.
  apply orb_false_elim in Ef as [[_ Eo%bool_decide_eq_false]%orb_false_elim Em%bool_decide_eq_false].
  subst ledger. cbn [ap_physical_block ap_before_image ap_after_image ap_record] in *.
  set (after := splice _ enc _) in *.
  assert (block_wf after) as Hwf.
  { destruct (map_valid r d Hv J l (proj1 (ledger_facts r d Hv J Hlf)) Hlog) as [_ Hp]. destruct (answer_block r d Hv _ Hp) as [_ Hwb].
    apply splice_slot_wf; [done|]. assert (ledger_typed (set_sequence rec (next_sequence_ index))) as Hty2.
    { apply typed_set_sequence; [done|]. destruct (ledger_facts r d Hv J Hlf) as (_ & _ & _ & Hrb). word. }
    destruct (LedgerCodec.encode_inv _ _ Hty2 He) as [Hval ->]. destruct (LedgerCodec.image_ok _ Hty2 Hval) as (Q1 & Q2 & _). done. }
  destruct (merged_publication r r' d before ordered meta Hc Him ledger_inode J HJ HJ' Hown Hblk l Hlog after Hwf) as (Hpub & Hk & Hm & Hb).
  { split; by apply eq_None_not_Some. }
  exists index'. split; [exact Hpub|]. split; [done|]. split.
  { intros Hpl. apply map_Forall_insert_2; [|exact Hpl]. destruct (ledger_facts r d Hv J Hlf) as (Hval & _ & _ & Hrb).
    rewrite (dc_blocks r d Hc ledger_inode J HJ l Hlog after) in Hsc'.
    apply (ledger_block_plain (<[Z.to_nat l := after]> (file_blocks d J)) index' (Z.to_nat l)); [|..|done|].
    - apply Forall_insert; [|done]. apply Forall_forall. intros x (i & -> & Hx%elem_counting)%list_elem_of_fmap.
      apply (answer_block r d Hv), (map_valid r d Hv J i Hval Hx).
    - rewrite length_insert, length_file_blocks. lia.
    - apply list_lookup_insert_eq. rewrite length_file_blocks. lia. }
  pose proof (pn_consistent _ _ _ _ _ _ _ _ Hpub) as Hc2.
  assert (with_ledger (file_at r' d') (file_at r' (applied ordered (<[pointer d J l := after]> meta) d))) as Hwl.
  { split; [|exact Hk]. eexists J, _, _. split; [exact (file_at_ok _ _ _ _ HJ')|exact (file_at_ok _ _ _ _ Hm)]. }
  split; [exact Hwl|]. split; [|exact Happ].
  assert (rd_superblock r' = sb) as Es by (destruct (io_reader _ _ _ _ _ _ Him) as (? & ? & ->); done).
  set (d2 := applied ordered (<[pointer d J l := after]> meta) d) in *.
  assert (names (file_at r' d2) (root_inode sb) kRequestLedgerName ledger_inode) as Hn2.
  { apply (with_ledger_names _ _ _ Hwl); [|done]. intros E. destruct (op_root _ _ (co_opened _ _ Hc)) as (root & Er & Hd).
    rewrite E, HJ in Er. injection Er as <-. by apply ledger_not_directory in Hbad as [_ ?%not_true_iff_false]. }
  assert (ledger_file r' d2 J) as Hlf2 by (apply (ledger_file_iff r' d2 Hc2); by rewrite Es).
  split; [done|]. split; [done|]. split; [done|]. exists J, (file_bytes d2 J).
  split; [exact (file_at_ok _ _ _ _ Hm)|]. split; [done|]. rewrite (ledger_chunks r' d2 Hc2 J Hlf2).
  replace (file_blocks d2 J) with (<[Z.to_nat l := after]> (file_blocks d J)) by (symmetry; exact Hb).
  by rewrite <- (dc_blocks r d Hc ledger_inode J HJ l Hlog after).
Qed.
End join.
