(* ===== verification/IdempotentProofs.v ===== *)
(** Idempotent mutations (src/object/object_backend.cpp, [PutIfAbsentIdempotent],
    [ReplaceIfVersionIdempotent]): the record of a request and its effect are
    published by one transaction. *)
From S2P Require Import Prelude Codec OndiskFormat OndiskFormatProofs OndiskJournal OndiskJournalProofs Disk.
From S2P Require Import JournalStore JournalImage CrashLogic JournalStates JournalTheorems BitmapAllocator.
From S2P Require Import RequestLedger RequestLedgerProofs ImageReader ImageReaderProofs ReaderTheorems LedgerStore.
From S2P Require Import FileMutation ConsistentImage PlanProofs FileMutationProofs FileMutationPublish Publication.
From S2P Require Import FilePlans FileTheorems NewObject NewObjectProofs NewObjectPlans FileSystem PlanTheorems.
From S2P Require Import ObjectBackend BackendProofs LedgerFiles.
Open Scope Z_scope.

(** A transaction that moves the files to [fs'] and the ledger to [index']. *)
Record settles (r : ImageReader) (fs' : files) (index' : RequestLedgerIndex) (b : ObjectBackend) (e : env)
    (b' : ObjectBackend) (e' : env) (res : result errno unit) (out : MutationOutcome) : Prop := {
  se_options : options_ b' = options_ b;
  se_outcome : match out with
    | kOutcomeNotApplied => is_ok res = false /\ b' = b /\ untouched e e'
    | kOutcomeUnknown => is_ok res = false /\ usable b' = false
    | kOutcomeCommitted => now_serves r fs' b' e' (is_ok res) /\ (is_ok res = true -> request_ledger_ b' = Some index')
    end;
  se_crash : forall p y, p `prefix_of` trace e' -> crash_outcome r (disk e) p y ->
    restarts_with r y (file_at r (disk e)) \/ (out <> kOutcomeNotApplied /\ restarts_with r y fs');
  se_durable : out = kOutcomeCommitted -> forall y, crash_outcome r (disk e) (trace e') y -> restarts_with r y fs';
  se_synced : out = kOutcomeCommitted -> synced (disk e) e'
}.

(** The index follows the commit, or the backend closes. *)
Lemma publish_record oom r fs' index index' rec b e b1 e1 res out :
  applies r fs' b e b1 e1 res out -> AppendCommitted index rec false = (index', Ok tt) ->
  let '((b', e'), res') :=
    match res, out with
    | Ok _, kOutcomeCommitted => PublishLedgerRecordLocked oom index rec (b1, e1)
    | _, _ => ((b1, e1), res)
    end in
  e' = e1 /\ settles r fs' index' b e b' e' res' out.
Proof.
  intros [[O L] H1 H2 H3 H4] Happ. destruct out; [by destruct res| |by destruct res].
  destruct res as [[]|er]; [|split; [done|]; constructor; [done|by split|done|done|done]].
  unfold PublishLedgerRecordLocked. destruct (AppendCommitted index rec oom) as [i2 [[]|er]] eqn:E.
  - assert (i2 = index') as ->.
    { destruct oom; [|congruence]. unfold AppendCommitted in E. destruct (full index); [done|]. destruct (negb _); [done|].
      by destruct (EncodeRequestLedgerRecord rec). }
    split; [done|]. constructor; [done| |done|done|done]. split; [|done]. destruct H1 as [(r2 & Hn)]. constructor. exists r2. exact Hn.
  - split; [done|]. constructor; [done| |done|done|done]. split; [|done]. destruct H1 as [(r2 & N1 & N2 & N3 & N4 & N5 & N6 & _)]. constructor.
    exists r2. done.
Qed.

(** * Effects of identified requests *)
Section effects.
Context (o : ObjectBackendOptions) (sb : Superblock) (fs : files) (index : RequestLedgerIndex).
Abbreviation rt := (root_inode sb).

(** The effect of a creation request: the object with its record, or the record
    of its rejection. *)
Inductive put_effect (object_name data : bytes) (ts : Z) (identity : RequestIdentity) (fs2 : files) (index' : RequestLedgerIndex)
    : RequestLedgerRecord -> Prop :=
| put_creates n fs1 :
    adds_object rt fs fs1 n object_name data (permissions o) (opt_uid o) (opt_gid o) ts ->
    records sb fs1 fs2 index index' (MakeCommittedRecord kCreateIfAbsent identity (mkVersion n 1)) ->
    put_effect object_name data ts identity fs2 index' (MakeCommittedRecord kCreateIfAbsent identity (mkVersion n 1))
| put_rejects n inode old :
    object_is fs rt object_name n inode old ->
    records sb fs fs2 index index' (MakeRejectedRecord kCreateIfAbsent identity kAlreadyExists (mkVersion n (generation inode))) ->
    put_effect object_name data ts identity fs2 index'
      (MakeRejectedRecord kCreateIfAbsent identity kAlreadyExists (mkVersion n (generation inode))).

(** The effect of a replacement request: the contents with the record, or the
    record of its rejection. *)
Inductive replace_effect (object_name : bytes) (expected : ObjectVersion) (data : bytes) (ts : Z) (identity : RequestIdentity) (fs2 : files)
    (index' : RequestLedgerIndex) : RequestLedgerRecord -> Prop :=
| replace_applies n inode old fs1 :
    object_is fs rt object_name n inode old -> expected = mkVersion n (generation inode) -> replaces fs fs1 n inode data ts ->
    records sb fs1 fs2 index index' (MakeCommittedRecord kReplaceIfVersion identity (mkVersion n (generation inode + 1))) ->
    replace_effect object_name expected data ts identity fs2 index'
      (MakeCommittedRecord kReplaceIfVersion identity (mkVersion n (generation inode + 1)))
| replace_mismatch n inode old :
    object_is fs rt object_name n inode old -> expected <> mkVersion n (generation inode) ->
    records sb fs fs2 index index' (MakeRejectedRecord kReplaceIfVersion identity kVersionMismatch (mkVersion n (generation inode))) ->
    replace_effect object_name expected data ts identity fs2 index'
      (MakeRejectedRecord kReplaceIfVersion identity kVersionMismatch (mkVersion n (generation inode)))
| replace_missing :
    records sb fs fs2 index index' (MakeRejectedRecord kReplaceIfVersion identity kNotFound no_version) ->
    replace_effect object_name expected data ts identity fs2 index' (MakeRejectedRecord kReplaceIfVersion identity kNotFound no_version).

End effects.

Section idempotent.
Context (oom : bool) (b : ObjectBackend) (e : env) (r : ImageReader) (Hs : serving b e r) (Ht : trace e = []).
Context (index : RequestLedgerIndex) (Hi : request_ledger_ b = Some index) (Hled : ledger_in (rd_superblock r) (file_at r (disk e)) index).
Abbreviation sb := (rd_superblock r).
Abbreviation rt := (root_inode sb).
Abbreviation d := (disk e).
Abbreviation fs := (file_at r d).

(** Images that leave the ledger and its name alone. *)
Definition ledger_kept (r' : ImageReader) (before ordered meta : image) : Prop :=
  images_of r d before ordered meta r' /\
  names (file_at r' (applied ordered meta d)) rt kRequestLedgerName ledger_inode /\
  forall J, answer d (ReadInode r ledger_inode) = Ok J ->
    answer (applied ordered meta d) (ReadInode r' ledger_inode) = Ok J /\
    owned (applied ordered meta d) J = owned d J /\ file_blocks (applied ordered meta d) J = file_blocks d J.

Lemma nothing_kept : ledger_kept r ∅ ∅ ∅.
Proof.
  split; [by apply no_images, (sv_consistent _ _ _ Hs)|]. rewrite applied_nothing. split; [by apply Hled|done].
Qed.

Lemma merge_shape ledger total uuid before ordered meta before2 ordered2 meta2 :
  MergeRequestLedgerAppend ledger total uuid before ordered meta = Ok (before2, ordered2, meta2) ->
  ap_total_blocks ledger = total /\ ap_filesystem_uuid ledger = uuid /\
  meta2 = <[ap_physical_block ledger := ap_after_image ledger]> meta.
Proof.
  unfold MergeRequestLedgerAppend. destruct (ValidateAppendPlan ledger); [|done].
  destruct (negb (ap_total_blocks ledger =? total) || _) eqn:Eg; [done|]. destruct (_ || bool_decide (is_Some (meta !! _))); [done|]. intros E. injection E as _ _ <-.
  apply orb_false_elim in Eg as [E1%negb_false_iff%Z.eqb_eq E2%negb_false_iff%bool_decide_eq_true]. done.
Qed.

Lemma prepared_geometry rec ledger : answer d (PrepareRequestLedgerAppend r index rec) = Ok ledger ->
  ap_total_blocks ledger = total_blocks sb /\ ap_filesystem_uuid ledger = sb_filesystem_uuid sb.
Proof.
  intros E. unfold PrepareRequestLedgerAppend in E. rewrite !answer_if in E. destruct (full index); [done|]. destruct (_ =? 0); [done|].
  apply answer_bind_inv in E as ([n inode] & _ & E); [|apply _]. rewrite answer_if in E. destruct (_ || _); [done|]. cbv zeta in E.
  rewrite answer_if in E. destruct (_ || _); [done|]. rewrite answer_if in E. destruct (_ <? _); [done|].
  apply answer_bind_inv in E as (phys & _ & E); [|apply _]. apply answer_bind_inv in E as (blk & _ & E); [|apply _].
  rewrite answer_if in E. destruct (negb _); [done|]. destruct (EncodeRequestLedgerRecord _); [|done]. by injection E as <-.
Qed.

(** One transaction for the images and the record. *)
Lemma apply_recorded r' before ordered meta rec ledger e1 before2 ordered2 meta2 :
  untouched e e1 -> ledger_kept r' before ordered meta -> ledger_typed rec -> Find index (request_id rec) = None ->
  answer d (PrepareRequestLedgerAppend r index rec) = Ok ledger ->
  MergeRequestLedgerAppend ledger (total_blocks sb) (sb_filesystem_uuid sb) before ordered meta = Ok (before2, ordered2, meta2) ->
  no_commit_block meta ->
  let '((b1, e2), (res, out)) := ApplyLocked before2 ordered2 meta2 (total_blocks sb) (sb_filesystem_uuid sb) (b, e1) in
  let '((b', e'), res') :=
    match res, out with
    | Ok _, kOutcomeCommitted => PublishLedgerRecordLocked oom index (ap_record ledger) (b1, e2)
    | _, _ => ((b1, e2), res)
    end in
  exists fs2 index', records sb (file_at r' (applied ordered meta d)) fs2 index index' rec /\ settles r fs2 index' b e b' e' res' out.
Proof.
  intros U (Him & Hnm & Hkeep) Hty Hnew Hprep Hmerge Hplain. pose proof (sv_consistent _ _ _ Hs) as Hc.
  destruct (join_record r r' d before ordered meta Hc Him index Hled Hnm Hkeep rec Hty Hnew ledger before2 ordered2 meta2 Hprep Hmerge)
    as (index' & Hpub & Hrec & Hpl & Hr). pose proof U as (D & _ & T).
  assert (serving b e1 r) as Hs1 by (by apply (serving_untouched b e)).
  pose proof (apply_outcome r r' b e1 before2 ordered2 meta2 (total_blocks sb) (sb_filesystem_uuid sb) Hs1 ltac:(by rewrite T)) as Hap.
  rewrite D in Hap. specialize (Hap Hpub (Hpl Hplain)).
  destruct (ApplyLocked before2 ordered2 meta2 _ _ (b, e1)) as [[b1 e2] [res out]].
  apply (applies_untouched _ _ _ e e1) in Hap; [|done]. rewrite Hrec.
  pose proof (publish_record oom r _ index index' _ b e b1 e2 res out Hap (proj2 (proj2 Hr))) as H.
  destruct (match res with Ok _ => _ | Err _ => _ end) as [[b' e'] res']. destruct H as [-> H]. eauto.
Qed.

Lemma apply_with_record_outcome r' before ordered meta rec version current e1 :
  untouched e e1 -> ledger_kept r' before ordered meta -> ledger_typed rec -> Find index (request_id rec) = None -> no_commit_block meta ->
  let '((b', e'), (res, a)) := apply_with_record oom r index rec version current before ordered meta
                                 (total_blocks sb) (sb_filesystem_uuid sb) (b, e1) in
  (is_ok res = false /\ b' = b /\ untouched e e' /\
   a = mkIdempotent (mkMutationResult kOutcomeNotApplied no_version current) kExecuted) \/
  exists fs2 index' out, records sb (file_at r' (applied ordered meta d)) fs2 index index' rec /\
    settles r fs2 index' b e b' e' res out /\ a = mkIdempotent (after_apply out version current) kExecuted.
Proof.
  intros U Hk Hty Hnew Hpl. unfold apply_with_record. pose proof U as (D & _ & _).
  destruct (ObjectBackend.reading _ (b, e1)) as [[b1 e2] pr] eqn:E. apply reading_reads in E as (Eb & U2 & Hans); [|apply _].
  cbn [fst snd] in *. subst b1. assert (untouched e e2) as U3 by (by etransitivity).
  destruct pr as [ledger|er]; [|by left]. specialize (Hans ledger eq_refl). rewrite D in Hans.
  destruct (MergeRequestLedgerAppend _ _ _ _ _ _) as [[[before2 ordered2] meta2]|er] eqn:Em; [|by left].
  pose proof (apply_recorded r' before ordered meta rec ledger e2 before2 ordered2 meta2 U3 Hk Hty Hnew Hans Em Hpl) as H.
  destruct (ApplyLocked _ _ _ _ _ (b, e2)) as [[b1 e3] [res out]].
  destruct res as [[]|er]; [destruct out|]; cbv beta iota in H |- *.
  1, 3, 4: destruct H as (fs2 & index' & Hr & Hset); right; eexists fs2, index', _; (split; [exact Hr|split; [exact Hset|done]]).
  destruct (PublishLedgerRecordLocked _ _ _ _) as [[b' e'] res']. destruct H as (fs2 & index' & Hr & Hset).
  right. exists fs2, index', kOutcomeCommitted. split; [exact Hr|]. split; [exact Hset|done].
Qed.

(** A recorded rejection. *)
Lemma reject_outcome rec er current e1 :
  untouched e e1 -> ledger_typed rec -> Find index (request_id rec) = None ->
  let '((b', e'), (res, a)) := reject_with_record oom r index rec er current (b, e1) in
  is_ok res = false /\ outcome (mutation_result a) <> kOutcomeCommitted /\
  ((b' = b /\ untouched e e') \/
   exists fs2 index' out res', records sb fs fs2 index index' rec /\ settles r fs2 index' b e b' e' res' out /\
     (res' = Ok tt -> res = Err er /\ a = mkIdempotent (mkMutationResult kOutcomeNotApplied no_version current) kExecuted)).
Proof.
  intros U Hty Hnew. unfold reject_with_record, CommitLedgerOnlyLocked. pose proof U as (D & _ & _).
  destruct (ObjectBackend.reading _ (b, e1)) as [[b1 e2] pr] eqn:E. apply reading_reads in E as (Eb & U2 & Hans); [|apply _].
  cbn [fst snd] in *. subst b1. assert (untouched e e2) as U3 by (by etransitivity).
  destruct pr as [ledger|er']; [|split; [done|]; split; [done|]; by left]. specialize (Hans ledger eq_refl). rewrite D in Hans.
  assert (ap_total_blocks ledger = total_blocks sb /\ ap_filesystem_uuid ledger = sb_filesystem_uuid sb) as [-> ->] by (by apply (prepared_geometry rec)).
  destruct (MergeRequestLedgerAppend _ _ _ _ _ _) as [[[before2 ordered2] meta2]|er'] eqn:Em; [|split; [done|]; split; [done|]; by left].
  pose proof (apply_recorded r ∅ ∅ ∅ rec ledger e2 before2 ordered2 meta2 U3 nothing_kept Hty Hnew Hans Em ltac:(apply map_Forall_empty)) as H.
  rewrite applied_nothing in H.
  destruct (ApplyLocked _ _ _ _ _ (b, e2)) as [[b1 e3] [res out]].
  destruct res as [[]|er']; [destruct out|]; cbv beta iota in H |- *.
  2: { destruct (PublishLedgerRecordLocked _ _ _ _) as [[b' e'] res']. destruct H as (fs2 & index' & Hr & Hset).
       split; [by destruct res'|]. split; [done|]. right. exists fs2, index', kOutcomeCommitted, res'.
       split; [exact Hr|]. split; [exact Hset|]. by intros ->. }
  1, 2: destruct H as (fs2 & index' & Hr & Hset); destruct (se_outcome _ _ _ _ _ _ _ _ _ Hset) as [Hno _]; done.
  destruct H as (fs2 & index' & Hr & Hset). destruct out; (split; [done|]; split; [done|]; right).
  all: eexists fs2, index', _, (Err er'); split; [exact Hr|]; split; [exact Hset|done].
Qed.

(** ** The mutations and the ledger *)
Record identity_ok (identity : RequestIdentity) : Prop := {
  ido_request : length (identity_request_id identity) = 16%nat /\ bytes_ok (identity_request_id identity);
  ido_fingerprint : length (identity_fingerprint identity) = 32%nat /\ bytes_ok (identity_fingerprint identity)
}.

Lemma committed_typed op identity n g : identity_ok identity -> u32 n -> u64 g ->
  ledger_typed (MakeCommittedRecord op identity (mkVersion n g)).
Proof. intros [[] []] Hn Hg. unfold ledger_typed. cbn. conj_split; try done; word. Qed.

Lemma rejected_typed op identity code n g : identity_ok identity -> u32 n -> u64 g ->
  ledger_typed (MakeRejectedRecord op identity code (mkVersion n g)).
Proof. intros [[] []] Hn Hg. unfold ledger_typed. cbn. conj_split; try done; word. Qed.

Lemma ledger_readable : exists J, answer d (ReadInode r ledger_inode) = Ok J /\ S_ISREG (mode J) = true /\ ledger_inode <> rt.
Proof.
  destruct Hled as (_ & _ & _ & J & x & Hf & Hb & _). unfold file_at in Hf. destruct (answer d (ReadInode r ledger_inode)) as [J0|] eqn:E; [|done].
  injection Hf as -> _. destruct (ledger_not_directory J Hb) as [Hr Hd]. exists J. split; [done|]. split; [done|]. intros Ert.
  destruct (op_root _ _ (co_opened _ _ (sv_consistent _ _ _ Hs))) as (root & Er & Hdr). rewrite <- Ert, E in Er. injection Er as <-. congruence.
Qed.

Lemma create_kept object_name data ts plan :
  let o := options_ b in
  object_request object_name data (opt_uid o) (opt_gid o) ts ->
  answer d (PrepareNewRootObject r object_name data (permissions o) (opt_uid o) (opt_gid o) ts) = Ok plan ->
  np_total_blocks plan = total_blocks sb /\ np_filesystem_uuid plan = sb_filesystem_uuid sb /\ u32 (np_inode_number plan) /\
  exists r', ledger_kept r' (np_before_images plan) (np_ordered_data_after_images plan) (np_metadata_after_images plan) /\
    adds_object rt fs (file_at r' (applied (np_ordered_data_after_images plan) (np_metadata_after_images plan) d)) (np_inode_number plan)
      object_name data (permissions o) (opt_uid o) (opt_gid o) ts.
Proof.
  intros o Hq Hans. pose proof (sv_consistent _ _ _ Hs) as Hc.
  destruct (new_object_planned r d object_name data (permissions o) (opt_uid o) (opt_gid o) ts plan Hc Hq Hans) as (es & Hl & _ & _ & Hcr).
  pose proof Hcr as (_ & r' & root & root' & file & Hp & Hne & Hn & Hf & _ & _ & _ & _ & Hk & _).
  destruct (creates_adds r d plan object_name data _ _ _ ts es Hc Hl Hcr) as (r2 & Hp2 & Hadd).
  destruct (pn_geometry _ _ _ _ _ _ _ _ Hp) as [-> ->]. split; [done|]. split; [done|]. split.
  { unfold file_at in Hf. set (d' := applied _ _ _) in *. destruct (answer d' (ReadInode r' _)) as [J|] eqn:EJ in Hf; [|done].
    destruct (read_facts r' _ (co_opened _ _ (pn_consistent _ _ _ _ _ _ _ _ Hp)) _ J EJ) as (Hr & _).
    destruct (pn_reader _ _ _ _ _ _ _ _ Hp) as (? & ? & Er). rewrite Er in Hr. cbn [rd_superblock with_bitmaps] in Hr.
    destruct (geo_typed _ (lay_geo _ (opened_layout _ _ (co_opened _ _ Hc)))) as (_ & Hti & _). word. }
  exists r'. destruct ledger_readable as (J & HJ & Hreg & Hnr).
  assert (ledger_inode <> np_inode_number plan) as Hln by (intros E; rewrite <- E in Hn; by rewrite (file_at_ok _ _ _ _ HJ) in Hn).
  assert (r2 = r') as ->.
  { apply (opened_unique _ _ (applied (np_ordered_data_after_images plan) (np_metadata_after_images plan) d)).
    - exact (co_opened _ _ (pn_consistent _ _ _ _ _ _ _ _ Hp2)).
    - exact (co_opened _ _ (pn_consistent _ _ _ _ _ _ _ _ Hp)). }
  split; [|exact Hadd]. split; [by apply (publication_images _ _ _ _ _ _ _ _ Hp)|]. split.
  - apply (ao_names _ _ _ _ _ _ _ _ _ _ Hadd). right. by apply Hled.
  - intros J0 HJ0. apply Hk; [|done]. by intros [?|?].
Qed.

Lemma replace_kept n inode expected data ts plan :
  n <> ledger_inode -> bytes_ok data -> u64 ts -> answer d (ReadInode r n) = Ok inode -> S_ISREG (mode inode) = true ->
  answer d (PrepareObjectReplace r n expected data ts) = Ok plan ->
  fp_total_blocks plan = total_blocks sb /\ fp_filesystem_uuid plan = sb_filesystem_uuid sb /\
  fp_new_generation plan = generation inode + 1 /\ u32 n /\ u64 (generation inode + 1) /\
  exists r', ledger_kept r' (fp_before_images plan) (fp_ordered_data_after_images plan) (fp_metadata_after_images plan) /\
    replaces fs (file_at r' (applied (fp_ordered_data_after_images plan) (fp_metadata_after_images plan) d)) n inode data ts.
Proof.
  intros Hn Hd Hts Hin Hreg Hans. pose proof (sv_consistent _ _ _ Hs) as Hc.
  destruct (replace_planned r d n inode expected data ts plan Hc Hd Hts Hin Hans) as (Hg & Hng & _ & r' & inode' & Hp & Hrw & Hk & Hf).
  destruct (pn_geometry _ _ _ _ _ _ _ _ Hp) as [-> ->]. split; [done|]. split; [done|]. split; [done|].
  destruct (read_facts r d (co_opened _ _ Hc) n inode Hin) as (Hnr & _ & _ & Hty).
  destruct (prepared_facts _ _ _ _ _ Hans) as (i0 & Hi0 & _ & Hgl & _). rewrite Hin in Hi0. injection Hi0 as <-.
  split. { destruct (geo_typed _ (lay_geo _ (opened_layout _ _ (co_opened _ _ Hc)))) as (_ & Hti & _). word. }
  split. { destruct Hty as (_ & _ & _ & _ & _ & _ & _ & _ & _ & _ & Hgt & _). unfold uint64_limit in *. word. }
  exists r'. set (d' := applied (fp_ordered_data_after_images plan) (fp_metadata_after_images plan) d) in *.
  split; [split; [by apply (publication_images _ _ _ _ _ _ _ _ Hp)|split]|by exists inode'].
  - destruct (op_root _ _ (co_opened _ _ Hc)) as (root & Er & Hdr).
    assert (rt <> n) as Hrn. { intros E. rewrite E, Hin in Er. injection Er as <-. unfold S_ISREG, S_ISDIR in *. apply Z.eqb_eq in Hreg. by rewrite Hreg in Hdr. }
    apply (names_congruent fs); [rewrite Hf; by rewrite (proj2 (Z.eqb_neq _ _) Hrn)| |by apply Hled].
    intros k J x E. rewrite Hf. destruct (Z.eqb_spec k n) as [->|Hkn]; [|by exists J, x].
    rewrite (file_at_ok _ _ _ _ Hin) in E. injection E as <- _. exists inode', data. split; [done|]. by apply Hrw.
  - intros J HJ. apply Hk; [|done]. by intros ?.
Qed.

(** ** Requests the ledger answers *)
(** The answer to a request that was recorded. *)
Definition replayed (rec : RequestLedgerRecord) : result errno unit * IdempotentMutationResult :=
  if bool_decide (result_kind rec = kCommittedResult)
  then (Ok tt, mkIdempotent (mkMutationResult kOutcomeCommitted (mkVersion (committed_inode rec) (committed_generation rec)) no_version) kReplayed)
  else (match result_code rec with
        | kAlreadyExists => Err EEXIST | kVersionMismatch => Err ESTALE | kNotFound => Err ENOENT | _ => Err EUCLEAN end,
        mkIdempotent (mkMutationResult kOutcomeNotApplied no_version (mkVersion (current_inode rec) (current_generation rec))) kReplayed).

Lemma check_known identity op rec : HasNonzeroRequestId (identity_request_id identity) = true ->
  Find index (identity_request_id identity) = Some rec -> operation rec = op -> fingerprint rec = identity_fingerprint identity ->
  CheckRequestLocked b identity op = ((replayed rec).2, true, (replayed rec).1).
Proof.
  intros Hn Hf Ho Hp. unfold CheckRequestLocked, replayed. rewrite Hn, Hi, Hf. cbn [negb].
  rewrite !bool_decide_eq_true_2 by done. cbn [negb orb]. by destruct (bool_decide _).
Qed.

Lemma check_fresh identity op a : CheckRequestLocked b identity op = (a, false, Ok tt) -> Find index (identity_request_id identity) = None.
Proof.
  unfold CheckRequestLocked. destruct (negb _); [done|]. rewrite Hi. destruct (Find index _) as [rec|]; [|done].
  destruct (_ || _); [done|]. destruct (bool_decide _); [done|]. by destruct (result_code rec).
Qed.

(** The request is in the ledger and was answered from there. *)
Definition answered_before (identity : RequestIdentity) (op : MutationOperation) (answer : result errno unit * IdempotentMutationResult) : Prop :=
  HasNonzeroRequestId (identity_request_id identity) = true /\
  exists rec, Find index (identity_request_id identity) = Some rec /\ operation rec = op /\
    fingerprint rec = identity_fingerprint identity /\ answer = replayed rec.

Lemma check_answered identity op a : CheckRequestLocked b identity op = (a, true, Ok tt) -> answered_before identity op (Ok tt, a).
Proof.
  unfold CheckRequestLocked, answered_before, replayed. destruct (HasNonzeroRequestId _); [|done]. cbn [negb]. rewrite Hi.
  destruct (Find index _) as [rec|]; [|by destruct (full index)].
  destruct (_ || _) eqn:E; [done|]. apply orb_false_elim in E as [E1%negb_false_iff%bool_decide_eq_true E2%negb_false_iff%bool_decide_eq_true].
  split; [done|]. exists rec. destruct (bool_decide (result_kind rec = kCommittedResult)); [by injection H as <-|]. by destruct (result_code rec).
Qed.

Lemma check_fresh_id identity op a : CheckRequestLocked b identity op = (a, false, Ok tt) -> HasNonzeroRequestId (identity_request_id identity) = true.
Proof. unfold CheckRequestLocked. by destruct (HasNonzeroRequestId _). Qed.

(** The first answer [(res, a)] to a request and the later ones agree. *)
Definition answers_alike (rec : RequestLedgerRecord) (res' res : result errno unit) (a : IdempotentMutationResult) : Prop :=
  (res = Ok tt -> res' = Ok tt) /\
  (res' = Ok tt -> res = (replayed rec).1 /\
     outcome (mutation_result a) = outcome (mutation_result (replayed rec).2) /\
     committed_version (mutation_result a) = committed_version (mutation_result (replayed rec).2)).

Lemma commit_alike op identity version r' fs2 index' b' e' res out current :
  settles r' fs2 index' b e b' e' res out ->
  answers_alike (MakeCommittedRecord op identity version) res res (mkIdempotent (after_apply out version current) kExecuted).
Proof.
  intros Hset. split; [done|]. intros ->. pose proof (se_outcome _ _ _ _ _ _ _ _ _ Hset) as H.
  destruct out; [by destruct H| |by destruct H]. cbn. by destruct version.
Qed.

Lemma object_typed object_name n inode old : object_is fs rt object_name n inode old ->
  answer d (ReadInode r n) = Ok inode /\ old = file_bytes d inode /\ u32 n /\ u64 (generation inode).
Proof.
  intros (_ & _ & Hf & _). pose proof (sv_consistent _ _ _ Hs) as Hc. unfold file_at in Hf.
  destruct (answer d (ReadInode r n)) as [J|] eqn:EJ; [|done]. injection Hf as -> <-.
  destruct (read_facts r d (co_opened _ _ Hc) n inode EJ) as (Hnr & _ & _ & Hty).
  destruct (geo_typed _ (lay_geo _ (opened_layout _ _ (co_opened _ _ Hc)))) as (_ & Hti & _).
  destruct Hty as (_ & _ & _ & _ & _ & _ & _ & _ & _ & _ & Hgt & _). split; [done|]. split; [done|]. split; [word|done].
Qed.

(** The shape both kinds of recorded rejections share. *)
Lemma rejection_effect rec er current e1 (P : files -> RequestLedgerIndex -> RequestLedgerRecord -> Prop)
    (Q : result errno unit * IdempotentMutationResult -> Prop) :
  untouched e e1 -> ledger_typed rec -> Find index (request_id rec) = None ->
  (replayed rec).1 = Err er -> outcome (mutation_result (replayed rec).2) = kOutcomeNotApplied ->
  committed_version (mutation_result (replayed rec).2) = no_version ->
  (forall fs2 index', records sb fs fs2 index index' rec -> P fs2 index' rec) ->
  let '((b', e'), (res, a)) := reject_with_record oom r index rec er current (b, e1) in
  (b' = b /\ untouched e e' /\ (res = Ok tt -> Q (res, a))) \/
  exists fs2 index' rec out res', P fs2 index' rec /\ settles r fs2 index' b e b' e' res' out /\ answers_alike rec res' res a.
Proof.
  intros U Hty Hnew H1 H2 H3 HP. pose proof (reject_outcome rec er current e1 U Hty Hnew) as H.
  destruct (reject_with_record _ _ _ _ _ _ _) as [[b' e'] [res a]].
  destruct H as (Hno & _ & [[-> Ue]|(fs2 & index' & out & res' & Hr & Hset & Ha)]); [left|right].
  { split; [done|]. split; [done|]. by intros ->. }
  exists fs2, index', rec, out, res'. split; [by apply HP|]. split; [done|]. split; [by intros ->|]. intros Hr'. destruct (Ha Hr') as [-> ->].
  by rewrite H1, H2, H3.
Qed.

Lemma put_idempotent_outcome object_name data ts identity :
  let o := options_ b in
  object_request object_name data (opt_uid o) (opt_gid o) ts -> identity_ok identity ->
  (forall plan, answer d (PrepareNewRootObject r object_name data (permissions o) (opt_uid o) (opt_gid o) ts) = Ok plan ->
     no_commit_block (np_metadata_after_images plan)) ->
  let '((b', e'), (res, a)) := PutIfAbsentIdempotent oom object_name data ts identity (b, e) in
  (b' = b /\ untouched e e' /\ (res = Ok tt -> answered_before identity kCreateIfAbsent (res, a))) \/
  exists fs2 index' rec out res',
    (HasNonzeroRequestId (identity_request_id identity) = true /\ Find index (identity_request_id identity) = None /\
     put_effect (options_ b) sb fs index object_name data ts identity fs2 index' rec) /\
    settles r fs2 index' b e b' e' res' out /\ answers_alike rec res' res a.
Proof.
  intros o Hq Hid Hplain. unfold PutIfAbsentIdempotent. cbn [fst]. rewrite (sv_reader _ _ _ Hs), Hi. fold o.
  destruct (CheckRequestLocked b identity kCreateIfAbsent) as [[a h] res] eqn:Ec. destruct h; [left; split; [done|]; split; [done|]; intros ->; by apply check_answered|]. destruct res as [[]|er]; [|by left].
  pose proof (check_fresh _ _ _ Ec) as Hnew. pose proof (check_fresh_id _ _ _ Ec) as Hnz.
  destruct (ObjectBackend.reading _ (b, e)) as [[b1 e1] pr] eqn:E. apply reading_reads in E as (Eb & U & Hans); [|apply _]. cbn [fst snd] in *. subst b1.
  destruct pr as [plan|er].
  - specialize (Hans plan eq_refl). destruct (create_kept object_name data ts plan Hq Hans) as (-> & -> & Hu & r' & Hk & Hadd). assert (u64 1) as Hu1 by word.
    pose proof (apply_with_record_outcome r' _ _ _ (MakeCommittedRecord kCreateIfAbsent identity (mkVersion (np_inode_number plan) 1))
      (mkVersion (np_inode_number plan) 1) no_version e1 U Hk (committed_typed _ _ _ _ Hid Hu Hu1) Hnew (Hplain plan Hans)) as H.
    destruct (apply_with_record _ _ _ _ _ _ _ _ _ _ _ _) as [[b' e'] [res a']].
    destruct H as [(Hno & -> & Ue & _)|(fs2 & index' & out & Hr & Hset & ->)];
      [left; split; [done|]; split; [done|]; by intros ->|right].
    exists fs2, index'. eexists _, out, res. split; [split; [done|split; [done|by eapply put_creates]]|]. split; [done|]. by eapply commit_alike.
  - destruct er; try (left; split; [done|]; split; [exact U|done]).
    destruct (ObjectBackend.reading (ResolveRegularLocked r object_name) (b, e1)) as [[b2 e2] pr2] eqn:E2.
    apply reading_reads in E2 as (Eb2 & U2 & Hans2); [|apply _]. cbn [fst snd] in *. subst b2.
    assert (untouched e e2) as U3 by (by etransitivity). destruct pr2 as [[n inode]|er2]; [|by left].
    specialize (Hans2 _ eq_refl). pose proof U as (D & _ & _). rewrite D in Hans2.
    pose proof (sv_consistent _ _ _ Hs) as Hc. apply (resolve_regular r d Hc) in Hans2.
    destruct (object_typed _ _ _ _ Hans2) as (_ & _ & Hu & Hg).
    apply (rejection_effect _ EEXIST (mkVersion n (generation inode)) e2 (fun fs2 index' rec =>
      HasNonzeroRequestId (identity_request_id identity) = true /\ Find index (identity_request_id identity) = None /\
      put_effect (options_ b) sb fs index object_name data ts identity fs2 index' rec) (answered_before identity kCreateIfAbsent)); try done.
    + by apply rejected_typed.
    + intros fs2 index' Hr. split; [done|]. split; [done|by eapply put_rejects].
Qed.

(** ** Replacement *)
Lemma replace_idempotent_outcome object_name expected data ts identity :
  bytes_ok data -> u64 ts -> identity_ok identity ->
  (forall n inode old, object_is fs rt object_name n inode old -> n <> ledger_inode) ->
  (forall n plan, answer d (PrepareObjectReplace r n (ov_generation expected) data ts) = Ok plan ->
     no_commit_block (fp_metadata_after_images plan)) ->
  let '((b', e'), (res, a)) := ReplaceIfVersionIdempotent oom object_name expected data ts identity (b, e) in
  (b' = b /\ untouched e e' /\ (res = Ok tt -> answered_before identity kReplaceIfVersion (res, a))) \/
  exists fs2 index' rec out res',
    (HasNonzeroRequestId (identity_request_id identity) = true /\ Find index (identity_request_id identity) = None /\
     replace_effect sb fs index object_name expected data ts identity fs2 index' rec) /\
    settles r fs2 index' b e b' e' res' out /\ answers_alike rec res' res a.
Proof.
  intros Hd Hts Hid Hother Hplain. unfold ReplaceIfVersionIdempotent. cbn [fst]. rewrite (sv_reader _ _ _ Hs), Hi.
  destruct (CheckRequestLocked b identity kReplaceIfVersion) as [[a h] res] eqn:Ec. destruct h; [left; split; [done|]; split; [done|]; intros ->; by apply check_answered|]. destruct res as [[]|er]; [|by left].
  pose proof (check_fresh _ _ _ Ec) as Hnew. pose proof (check_fresh_id _ _ _ Ec) as Hnz. pose proof (sv_consistent _ _ _ Hs) as Hc.
  destruct (ObjectBackend.reading _ (b, e)) as [[b1 e1] pr] eqn:E. apply reading_reads in E as (Eb & U & Hans); [|apply _]. cbn [fst snd] in *. subst b1.
  assert (u32 0) as Hu0 by word. assert (u64 0) as Hu1 by word.
  destruct pr as [[n inode]|er].
  2: { destruct er; try (left; split; [done|]; split; [exact U|done]).
       apply (rejection_effect _ ENOENT no_version e1 (fun fs2 index' rec =>
         HasNonzeroRequestId (identity_request_id identity) = true /\ Find index (identity_request_id identity) = None /\
         replace_effect sb fs index object_name expected data ts identity fs2 index' rec) (answered_before identity kReplaceIfVersion)); try done.
       - by apply rejected_typed.
       - intros fs2 index' Hr. split; [done|]. split; [done|by apply replace_missing]. }
  specialize (Hans _ eq_refl). apply (resolve_regular r d Hc) in Hans. destruct (object_typed _ _ _ _ Hans) as (Hin & _ & Hu & Hg).
  destruct (decide (expected = mkVersion n (generation inode))) as [Hex|Hex].
  2: { rewrite bool_decide_eq_false_2 by done. cbn [negb].
       apply (rejection_effect _ ESTALE (mkVersion n (generation inode)) e1 (fun fs2 index' rec =>
         HasNonzeroRequestId (identity_request_id identity) = true /\ Find index (identity_request_id identity) = None /\
         replace_effect sb fs index object_name expected data ts identity fs2 index' rec) (answered_before identity kReplaceIfVersion)); try done.
       - by apply rejected_typed.
       - intros fs2 index' Hr. split; [done|]. split; [done|by eapply replace_mismatch]. }
  rewrite bool_decide_eq_true_2 by done. cbn [negb].
  destruct (ObjectBackend.reading _ (b, e1)) as [[b2 e2] pr2] eqn:E2. apply reading_reads in E2 as (Eb2 & U2 & Hans2); [|apply _]. cbn [fst snd] in *. subst b2.
  assert (untouched e e2) as U3 by (by etransitivity). pose proof U as (D & _ & _). rewrite D in Hans2.
  destruct pr2 as [plan|er]; [|by left]. specialize (Hans2 plan eq_refl).
  destruct (replace_kept n inode _ data ts plan (Hother _ _ _ Hans) Hd Hts Hin ltac:(by apply Hans) Hans2) as (-> & -> & -> & _ & Hg1 & r' & Hk & Hrep).
  pose proof (apply_with_record_outcome r' _ _ _ (MakeCommittedRecord kReplaceIfVersion identity (mkVersion n (generation inode + 1)))
    (mkVersion n (generation inode + 1)) (mkVersion n (generation inode)) e2 U3 Hk (committed_typed _ _ _ _ Hid Hu Hg1) Hnew (Hplain n plan Hans2)) as H.
  destruct (apply_with_record _ _ _ _ _ _ _ _ _ _ _ _) as [[b' e'] [res a']].
  destruct H as [(Hno & -> & Ue & _)|(fs2 & index' & out & Hr & Hset & ->)];
      [left; split; [done|]; split; [done|]; by intros ->|right].
  exists fs2, index'. eexists _, out, res. split; [split; [done|split; [done|by eapply replace_applies]]|]. split; [done|]. by eapply commit_alike.
Qed.
End idempotent.

(** Restarting the backend (src/object/object_backend.cpp, [ObjectBackend::Open])
    after a crash anywhere in a mutation, and what a retried request then gets. *)
(** * Opening *)
(** The image declares a ledger. *)
Definition has_ledger (sb : Superblock) : bool :=
  negb (Z.land (sb_feature_incompat sb) kFeatureIncompatRequestLedger =? 0).

(** The index of the backend, if the image declares a ledger, is what its file
    holds. *)
Definition tracks (b : ObjectBackend) (sb : Superblock) (fs : files) : Prop :=
  match request_ledger_ b with
  | Some index => ledger_in sb fs index
  | None => has_ledger sb = false
  end.

(** An image whose ledger, if it declares one, scans. *)
Definition scannable (sb : Superblock) (fs : files) : Prop := has_ledger sb = true -> exists index, ledger_in sb fs index.

Lemma tracks_scannable b sb fs : tracks b sb fs -> scannable sb fs.
Proof. unfold tracks, scannable. destruct (request_ledger_ b) as [index|]; [by exists index|congruence]. Qed.

Lemma ledger_declared sb fs index : ledger_in sb fs index -> has_ledger sb = true.
Proof. intros (H & _). unfold has_ledger. by rewrite (proj2 (Z.eqb_neq _ _) H). Qed.

Definition options_ok (path : bytes) (options : ObjectBackendOptions) : Prop :=
  path <> [] /\ Z.land (permissions options) (Z.lnot 511) = 0.

Lemma reading_calm {A} (m : io A) e a : Reading m -> responses e = [] -> answer (disk e) m = Ok a -> m e = (e, Ok a).
Proof.
  intros Hm Hn Ha. destruct e as [dk sz rs t]. cbn [responses disk] in *. subst rs. destruct (Hm (mkEnv dk sz [] t) sz t) as (_ & H2 & _).
  destruct (answer_run m (mkEnv dk sz [] t) Hm) as (_ & _ & H3). cbn [disk responses] in *. specialize (H3 eq_refl a Ha).
  destruct (m (mkEnv dk sz [] t)) as [e' res]. cbn in *. by subst.
Qed.

(** A process that serves the files [fs] again. *)
Record reopened (path : bytes) (options : ObjectBackendOptions) (r : ImageReader) (y : image) (fs : files)
    (b2 : ObjectBackend) (e2 : env) (r2 : ImageReader) : Prop := {
  ro_open : exists action, Open path options (fresh_start (image_size_ r) y) = (e2, Ok (b2, action));
  ro_serving : serving b2 e2 r2;
  ro_files : file_at r2 (disk e2) ≡ fs;
  ro_tracks : tracks b2 (rd_superblock r2) (file_at r2 (disk e2));
  ro_same : rd_superblock r2 = rd_superblock r /\ image_size_ r2 = image_size_ r;
  ro_calm : responses e2 = [] /\ synced y e2;
  ro_options : options_ b2 = options
}.

Lemma open_restarted path options r y fs : options_ok path options -> scannable (rd_superblock r) fs -> restarts_with r y fs ->
  exists b2 e2 r2, reopened path options r y fs b2 e2 r2.
Proof.
  intros [Hpath Hperm] Hscan (e & r2 & [(action & E) Hpend Hop [Hn Hz] Hc Hcl [Hs2 Hi2]] & Hfs).
  assert (exists led, (if has_ledger (rd_superblock r2) then io_bind (ScanRequestLedger r2) (fun c => io_ret (Some c)) else io_ret None) e = (e, Ok led) /\
    match led with Some index => ledger_in (rd_superblock r2) (file_at r2 (disk e)) index | None => has_ledger (rd_superblock r2) = false end) as (led & El & Hled).
  { destruct (has_ledger (rd_superblock r2)) eqn:Eh; [|by exists None]. rewrite Hs2 in Eh. destruct (Hscan Eh) as [index Hidx].
    exists (Some index). assert (ledger_in (rd_superblock r2) (file_at r2 (disk e)) index) as Hl.
    { rewrite Hs2. eapply (ledger_in_proper (rd_superblock r) (file_at r2 (disk e)) fs); [exact Hfs|done|done]. }
    split; [|done]. unfold io_bind. by rewrite (reading_calm _ _ _ _ Hn (proj2 (scan_files r2 (disk e) Hc index) Hl)). }
  exists (mkBackend options (Some r2) led None), e, r2. constructor.
  - exists action. unfold Open. rewrite bool_decide_eq_false_2 by done. rewrite Hperm. cbn [orb negb Z.eqb].
    unfold io_bind at 1. rewrite E. unfold io_bind at 1. rewrite (reading_calm DuplicateFd e tt _ Hn ltac:(done)).
    unfold io_bind at 1. rewrite Hop. fold (has_ledger (rd_superblock r2)). unfold io_bind at 1. rewrite El. done.
  - constructor; [done|done|by rewrite Hs2, Hi2|by rewrite Hi2].
  - exact Hfs.
  - unfold tracks. cbn [request_ledger_]. by destruct led.
  - done.
  - done.
  - done.
Qed.

(** * Retries *)
Lemma replayed_sequence rec s : replayed (set_sequence rec s) = replayed rec.
Proof. done. Qed.

Lemma recorded_found sb fs fs' index index' rec : records sb fs fs' index index' rec ->
  Find index' (request_id rec) = Some (set_sequence rec (next_sequence_ index)).
Proof.
  intros (_ & _ & Happ). unfold AppendCommitted in Happ. destruct (full index); [done|]. destruct (negb _); [done|].
  destruct (EncodeRequestLedgerRecord _); [|done]. destruct (records_ index !! _); [done|]. injection Happ as <-.
  unfold Find. cbn [records_]. apply lookup_insert_eq.
Qed.

Section retry.
Context (b2 : ObjectBackend) (e2 : env) (r2 : ImageReader) (Hs : serving b2 e2 r2).
Context (index : RequestLedgerIndex) (Hi : request_ledger_ b2 = Some index).
Context (identity : RequestIdentity) (Hn : HasNonzeroRequestId (identity_request_id identity) = true) (rec : RequestLedgerRecord).
Context (Hf : Find index (identity_request_id identity) = Some rec) (Hp : fingerprint rec = identity_fingerprint identity).

(** A recorded request is answered from its record, whatever else it carries. *)
Lemma put_replays oom object_name data ts : operation rec = kCreateIfAbsent ->
  PutIfAbsentIdempotent oom object_name data ts identity (b2, e2) = ((b2, e2), replayed rec).
Proof.
  intros Ho. unfold PutIfAbsentIdempotent. cbn [fst]. rewrite (sv_reader _ _ _ Hs), (check_known b2 index Hi identity _ rec Hn Hf Ho Hp).
  by destruct (replayed rec).
Qed.

Lemma replace_replays oom object_name expected data ts : operation rec = kReplaceIfVersion ->
  ReplaceIfVersionIdempotent oom object_name expected data ts identity (b2, e2) = ((b2, e2), replayed rec).
Proof.
  intros Ho. unfold ReplaceIfVersionIdempotent. cbn [fst]. rewrite (sv_reader _ _ _ Hs), (check_known b2 index Hi identity _ rec Hn Hf Ho Hp).
  by destruct (replayed rec).
Qed.
End retry.

(** * Crashes *)
Section crash.
Context (b : ObjectBackend) (e : env) (r : ImageReader) (Hs : serving b e r).
Abbreviation sb := (rd_superblock r).
Abbreviation d := (disk e).
Abbreviation fs := (file_at r d).

(** A crash while nothing is written. *)
Lemma idle_restart y : crash_outcome r d [] y -> restarts_with r y fs.
Proof.
  intros (x & Hx & Hy). destruct Hs as [_ Hc (v & c & Hr & Hu) Hz].
  assert (x = d) as ->.
  { apply map_eq. intros blk. destruct (Hx blk) as [|[(w & Hw & _)|(o & w & Hw & _)]]; [done|by apply not_elem_of_nil in Hw..]. }
  destruct (startup_completes sb (image_size_ r) y d) as (e2 & a & E & (v2 & c2 & Hr2 & Hu2 & Hh) & Hn2 & Hz2 & Hpd).
  { eapply interrupted_recoverable; [done|]. by eapply rec_clean. }
  assert (forall blk, ~ in_journal sb blk ->
    ~ (start_block (data sb) <= blk < total_blocks sb /\ TestBit (block_bitmap_ r) blk = false) -> disk e2 !! blk = d !! blk) as Hsame
    by (intros blk Hj _; by apply Hh).
  exists e2, (with_control r v2 c2). split.
  - apply (restart_opened r y e2 a); try done; [by apply (reopen_consistent r d)|by exists v2, c2].
  - by apply (reopen_files r d).
Qed.

Context (path : bytes) (Hpath : options_ok path (options_ b)).

Lemma reopen_with_ledger y fsx i : ledger_in sb fsx i -> restarts_with r y fsx ->
  exists b2 e2 r2, reopened path (options_ b) r y fsx b2 e2 r2 /\ request_ledger_ b2 = Some i.
Proof.
  intros Hl Hre. destruct (open_restarted path (options_ b) r y fsx Hpath) as (b2 & e2 & r2 & Ho); [by exists i|done|].
  exists b2, e2, r2. split; [done|]. pose proof (ro_tracks _ _ _ _ _ _ _ _ Ho) as Htr. unfold tracks in Htr.
  destruct (ro_same _ _ _ _ _ _ _ _ Ho) as [Es _]. rewrite Es in Htr.
  destruct (request_ledger_ b2) as [j|]; [|by rewrite (ledger_declared _ _ _ Hl) in Htr].
  f_equal. eapply ledger_unique; [|exact Hl].
  eapply (ledger_in_proper sb (file_at r2 (disk e2)) fsx); [exact (ro_files _ _ _ _ _ _ _ _ Ho)|done|done].
Qed.

(** ** A mutation with a record *)
(** After a crash the ledger has the record exactly if the files have the effect. *)
Lemma recorded_crash index fs1 fs2 index' rec b' e' res out p y :
  ledger_in sb fs index -> records sb fs1 fs2 index index' rec -> settles r fs2 index' b e b' e' res out ->
  p `prefix_of` trace e' -> crash_outcome r d p y ->
  (exists b2 e2 r2, reopened path (options_ b) r y fs b2 e2 r2 /\ request_ledger_ b2 = Some index) \/
  (exists b2 e2 r2, reopened path (options_ b) r y fs2 b2 e2 r2 /\ request_ledger_ b2 = Some index').
Proof.
  intros Hled (_ & Hl2 & _) Hset Hp Hy. destruct (se_crash _ _ _ _ _ _ _ _ _ Hset p y Hp Hy) as [Hre|[_ Hre]].
  - left. by apply reopen_with_ledger.
  - right. by apply reopen_with_ledger.
Qed.

Lemma recorded_durable index fs1 fs2 index' rec b' e' res out y :
  records sb fs1 fs2 index index' rec -> settles r fs2 index' b e b' e' res out ->
  res = Ok tt -> crash_outcome r d (trace e') y ->
  exists b2 e2 r2, reopened path (options_ b) r y fs2 b2 e2 r2 /\ request_ledger_ b2 = Some index'.
Proof.
  intros (_ & Hl2 & _) Hset -> Hy. pose proof (se_outcome _ _ _ _ _ _ _ _ _ Hset) as Ho. destruct out; [by destruct Ho| |by destruct Ho].
  apply reopen_with_ledger; [done|]. exact (se_durable _ _ _ _ _ _ _ _ _ Hset eq_refl y Hy).
Qed.
End crash.
