(* ===== verification/StoreRefinement.v ===== *)
(** Sessions of the object store, and what is left of an identified request after
    a crash during or after it: nothing, or its effect with its record. *)
From S2P Require Import Prelude Codec OndiskFormat OndiskFormatProofs OndiskJournal OndiskJournalProofs Disk.
From S2P Require Import JournalStore JournalImage CrashLogic JournalStates JournalTheorems BitmapAllocator.
From S2P Require Import RequestLedger RequestLedgerProofs ImageReader ImageReaderProofs ReaderTheorems LedgerStore.
From S2P Require Import FileMutation ConsistentImage PlanProofs FileMutationPublish Publication FilePlans FileTheorems.
From S2P Require Import NewObject NewObjectProofs NewObjectPlans FileSystem PlanTheorems ObjectBackend BackendProofs.
From S2P Require Import LedgerFiles IdempotentProofs.
Open Scope Z_scope.

(** * Sessions *)
(** A backend that can serve requests, between two of them. *)
Record session (b : ObjectBackend) (e : env) (r : ImageReader) : Prop := {
  ss_serving : serving b e r;
  ss_idle : trace e = [];
  ss_tracks : tracks b (rd_superblock r) (file_at r (disk e));
  ss_owner : u32 (opt_uid (options_ b)) /\ u32 (opt_gid (options_ b))
}.

(** Plans whose metadata the journal can carry. *)
Definition put_carried (b : ObjectBackend) (e : env) (r : ImageReader) (object_name data : bytes) (ts : Z) : Prop :=
  let o := options_ b in
  forall plan, answer (disk e) (PrepareNewRootObject r object_name data (permissions o) (opt_uid o) (opt_gid o) ts) = Ok plan ->
    no_commit_block (np_metadata_after_images plan).
Definition replace_carried (e : env) (r : ImageReader) (expected : ObjectVersion) (data : bytes) (ts : Z) : Prop :=
  forall n plan, answer (disk e) (PrepareObjectReplace r n (ov_generation expected) data ts) = Ok plan ->
    no_commit_block (fp_metadata_after_images plan).

Lemma session_request b e r object_name data ts : session b e r -> bytes_ok object_name -> bytes_ok data -> u64 ts ->
  object_request object_name data (opt_uid (options_ b)) (opt_gid (options_ b)) ts.
Proof. intros Hss Hn Hd Ht. constructor; [done|done|apply Hss|done]. Qed.

(** * Exactly once *)
(** What a retry of the request gets: it runs for the first time, or it is answered
    from the record [rec]. *)
Definition retry_replays (identity : RequestIdentity) (op : MutationOperation) (b2 : ObjectBackend) (e2 : env) (rec : RequestLedgerRecord) : Prop :=
  match op with
  | kCreateIfAbsent => forall oom object_name data ts,
      PutIfAbsentIdempotent oom object_name data ts identity (b2, e2) = ((b2, e2), replayed rec)
  | kReplaceIfVersion => forall oom object_name expected data ts,
      ReplaceIfVersionIdempotent oom object_name expected data ts identity (b2, e2) = ((b2, e2), replayed rec)
  | kOtherOperation _ => False
  end.

Lemma found_replays identity op b2 e2 r2 index rec : serving b2 e2 r2 -> request_ledger_ b2 = Some index ->
  HasNonzeroRequestId (identity_request_id identity) = true -> Find index (identity_request_id identity) = Some rec ->
  fingerprint rec = identity_fingerprint identity -> operation rec = op -> op = kCreateIfAbsent \/ op = kReplaceIfVersion ->
  retry_replays identity op b2 e2 rec.
Proof.
  intros Hs Hi Hn Hf Hp Ho [->| ->]; cbn [retry_replays]; intros.
  - by apply (put_replays b2 e2 r2 Hs index).
  - by apply (replace_replays b2 e2 r2 Hs index).
Qed.

Lemma effect_replays identity op sb fs fs' index index' rec b2 e2 r2 : serving b2 e2 r2 -> request_ledger_ b2 = Some index' ->
  HasNonzeroRequestId (identity_request_id identity) = true -> records sb fs fs' index index' rec ->
  request_id rec = identity_request_id identity -> fingerprint rec = identity_fingerprint identity -> operation rec = op ->
  op = kCreateIfAbsent \/ op = kReplaceIfVersion -> retry_replays identity op b2 e2 rec.
Proof.
  intros Hs Hi Hn Hr Hid Hp Ho Hop. apply recorded_found in Hr. rewrite Hid in Hr.
  pose proof (found_replays identity op b2 e2 r2 index' _ Hs Hi Hn Hr Hp Ho Hop) as H. destruct op; exact H.
Qed.

#[local] Instance event_eq_dec : EqDecision event.
Proof. solve_decision. Defined.

(** The state a crash during or after an identified request restarts in. *)
Definition once (op : MutationOperation) (identity : RequestIdentity) (path : bytes) (b : ObjectBackend) (e : env) (r : ImageReader)
    (index : RequestLedgerIndex) (effect : files -> RequestLedgerIndex -> RequestLedgerRecord -> Prop) (y : image)
    (finished : Prop) (answer : IdempotentMutationResult) : Prop :=
  exists b2 e2 r2 fs2, reopened path (options_ b) r y fs2 b2 e2 r2 /\
    ((fs2 = file_at r (disk e) /\ request_ledger_ b2 = Some index) \/
     (exists index' rec, effect fs2 index' rec /\ request_ledger_ b2 = Some index' /\ retry_replays identity op b2 e2 rec)) /\
    (finished -> exists rec, retry_replays identity op b2 e2 rec /\ (replayed rec).1 = Ok tt /\
       committed_version (mutation_result (replayed rec).2) = committed_version (mutation_result answer)).

Lemma exactly_once op identity path b e r index effect b' e' res a p y :
  session b e r -> request_ledger_ b = Some index -> options_ok path (options_ b) -> op = kCreateIfAbsent \/ op = kReplaceIfVersion ->
  (forall fs2 index' rec, effect fs2 index' rec -> exists fs1, records (rd_superblock r) fs1 fs2 index index' rec /\
     request_id rec = identity_request_id identity /\ fingerprint rec = identity_fingerprint identity /\ operation rec = op) ->
  (b' = b /\ untouched e e' /\ (res = Ok tt -> answered_before index identity op (res, a))) \/
  (exists fs2 index' rec out res',
     (HasNonzeroRequestId (identity_request_id identity) = true /\ Find index (identity_request_id identity) = None /\ effect fs2 index' rec) /\
     settles r fs2 index' b e b' e' res' out /\ answers_alike rec res' res a) ->
  p `prefix_of` trace e' -> crash_outcome r (disk e) p y ->
  once op identity path b e r index effect y (p = trace e' /\ res = Ok tt) a.
Proof.
  intros [Hs Ht Htr _] Hi Hpath Hop Hrecs Hrun Hp Hy. unfold tracks in Htr. rewrite Hi in Htr.
  destruct Hrun as [(-> & (_ & _ & T) & Hans)|(fs2 & index' & rec & out & res' & (Hnz & Hnew & Heff) & Hset & Hal)].
  - rewrite T, Ht in *. apply prefix_nil_inv in Hp as ->.
    destruct (reopen_with_ledger b r path Hpath y _ _ Htr (idle_restart b e r Hs y Hy)) as (b2 & e2 & r2 & Ho & Hi2).
    exists b2, e2, r2, (file_at r (disk e)). split; [done|]. split; [by left|]. intros [_ Hok].
    destruct (Hans Hok) as (Hnz & rec & Hf & Hopr & Hfp & Ea). exists rec.
    split; [by apply (found_replays identity op b2 e2 r2 index rec (ro_serving _ _ _ _ _ _ _ _ Ho) Hi2 Hnz Hf Hfp Hopr Hop)|].
    rewrite <- Ea. done.
  - destruct (Hrecs _ _ _ Heff) as (fs1 & Hr & Hid & Hfp & Hopr).
    assert (forall b2 e2 r2, reopened path (options_ b) r y fs2 b2 e2 r2 -> request_ledger_ b2 = Some index' ->
      once op identity path b e r index effect y (p = trace e' /\ res = Ok tt) a) as Hdone.
    { intros b2 e2 r2 Ho Hi2. exists b2, e2, r2, fs2. split; [done|].
      pose proof (effect_replays identity op _ _ _ _ _ rec b2 e2 r2 (ro_serving _ _ _ _ _ _ _ _ Ho) Hi2 Hnz Hr Hid Hfp Hopr Hop) as Hre.
      split; [right; by exists index', rec|]. intros [_ Hok]. exists rec. split; [done|]. destruct Hal as [A1 A2].
      destruct (A2 (A1 Hok)) as (E1 & _ & E2). by rewrite <- E1, E2. }
    destruct (decide (p = trace e' /\ is_ok res = true)) as [[-> Hok]|Hno].
    + destruct res as [[]|]; [|done]. destruct Hal as [A1 _].
      destruct (recorded_durable b e r path Hpath index fs1 fs2 index' rec b' e' res' out y Hr Hset (A1 eq_refl) Hy) as (b2 & e2 & r2 & Ho & Hi2).
      by apply (Hdone b2 e2 r2).
    + destruct (recorded_crash b e r path Hpath index fs1 fs2 index' rec b' e' res' out p y Htr Hr Hset Hp Hy) as [(b2 & e2 & r2 & Ho & Hi2)|(b2 & e2 & r2 & Ho & Hi2)].
      * exists b2, e2, r2, (file_at r (disk e)). split; [done|]. split; [by left|]. intros [E1 E2]. destruct Hno. by rewrite E2.
      * by apply (Hdone b2 e2 r2).
Qed.

(** The object store as a whole: sequences of requests, crashes in the middle of
    a request and restarts, against an abstract store of files and recorded
    requests. The invariant between requests, and the refinement of the abstract
    store by rule induction over the steps. *)
(** * Requests *)
Inductive request :=
| Put (object_name data : bytes) (timestamp_ns : Z)
| Replace (object_name : bytes) (expected : ObjectVersion) (data : bytes) (timestamp_ns : Z)
| PutOnce (object_name data : bytes) (timestamp_ns : Z) (identity : RequestIdentity)
| ReplaceOnce (object_name : bytes) (expected : ObjectVersion) (data : bytes) (timestamp_ns : Z) (identity : RequestIdentity)
| Fetch (object_name : bytes)
| Query (object_name : bytes).

Inductive response :=
| Mutated (res : result errno unit) (m : MutationResult)
| Settled (res : result errno unit) (a : IdempotentMutationResult)
| Contents (res : result errno (bytes * ObjectStat))
| Status (res : result errno ObjectStat).

Definition serve (oom : bool) (q : request) : op response := fun s =>
  match q with
  | Put object_name data ts => let '(s, (res, m)) := PutIfAbsent object_name data ts s in (s, Mutated res m)
  | Replace object_name expected data ts =>
      let '(s, (res, m)) := ReplaceIfVersion object_name expected data ts s in (s, Mutated res m)
  | PutOnce object_name data ts identity =>
      let '(s, (res, a)) := PutIfAbsentIdempotent oom object_name data ts identity s in (s, Settled res a)
  | ReplaceOnce object_name expected data ts identity =>
      let '(s, (res, a)) := ReplaceIfVersionIdempotent oom object_name expected data ts identity s in (s, Settled res a)
  | Fetch object_name => let '(s, res) := Get object_name s in (s, Contents res)
  | Query object_name => let '(s, res) := Stat object_name s in (s, Status res)
  end.

(** * The abstract store *)
(** The files, and the recorded requests if the image keeps a ledger. *)
Definition shown : Type := files * option RequestLedgerIndex.

Definition same_shown (s s' : shown) : Prop := s.1 ≡ s'.1 /\ s.2 = s'.2.

Definition ledger_shown (sb : Superblock) (s : shown) : Prop :=
  match s.2 with Some index => ledger_in sb s.1 index | None => has_ledger sb = false end.

Definition fresh_request (index : RequestLedgerIndex) (identity : RequestIdentity) : Prop :=
  HasNonzeroRequestId (identity_request_id identity) = true /\ Find index (identity_request_id identity) = None.

Section abstract.
Context (o : ObjectBackendOptions) (sb : Superblock).
Abbreviation rt := (root_inode sb).

(** The changes a request can make, with its answer. *)
Inductive transition : request -> shown -> response -> shown -> Prop :=
| put_commits fs fs' l object_name data ts n :
    adds_object rt fs fs' n object_name data (permissions o) (opt_uid o) (opt_gid o) ts ->
    transition (Put object_name data ts) (fs, l)
      (Mutated (Ok tt) (mkMutationResult kOutcomeCommitted (mkVersion n 1) (mkVersion n 1))) (fs', l)
| replace_commits fs fs' l object_name data ts n inode old :
    object_is fs rt object_name n inode old -> replaces fs fs' n inode data ts ->
    let version := mkVersion n (generation inode + 1) in
    transition (Replace object_name (mkVersion n (generation inode)) data ts) (fs, l)
      (Mutated (Ok tt) (mkMutationResult kOutcomeCommitted version version)) (fs', l)
| put_settles fs fs' index index' object_name data ts identity rec res a :
    fresh_request index identity -> put_effect o sb fs index object_name data ts identity fs' index' rec ->
    answers_alike rec (Ok tt) res a ->
    transition (PutOnce object_name data ts identity) (fs, Some index) (Settled res a) (fs', Some index')
| replace_settles fs fs' index index' object_name expected data ts identity rec res a :
    fresh_request index identity -> replace_effect sb fs index object_name expected data ts identity fs' index' rec ->
    answers_alike rec (Ok tt) res a ->
    transition (ReplaceOnce object_name expected data ts identity) (fs, Some index) (Settled res a) (fs', Some index').

(** The answers that go with no change: a refusal, the recorded answer of an
    earlier request, what the object holds. *)
Definition quiet (q : request) (s : shown) (resp : response) : Prop :=
  match q, resp with
  | Put _ _ _, Mutated res m | Replace _ _ _ _, Mutated res m => is_ok res = false /\ outcome m = kOutcomeNotApplied
  | PutOnce _ _ _ identity, Settled res a => res = Ok tt ->
      exists index, s.2 = Some index /\ answered_before index identity kCreateIfAbsent (res, a)
  | ReplaceOnce _ _ _ _ identity, Settled res a => res = Ok tt ->
      exists index, s.2 = Some index /\ answered_before index identity kReplaceIfVersion (res, a)
  | Fetch object_name, Contents res => forall data st, res = Ok (data, st) ->
      exists n inode, object_is s.1 rt object_name n inode data /\ st = MakeObjectStat n inode
  | Query object_name, Status res => forall st, res = Ok st ->
      exists n inode data, object_is s.1 rt object_name n inode data /\ st = MakeObjectStat n inode
  | _, _ => False
  end.

(** ** Files up to equivalence *)
#[local] Lemma adds_object_target fs fs1 fs2 n object_name data p u g ts : fs1 ≡ fs2 ->
  adds_object rt fs fs1 n object_name data p u g ts -> adds_object rt fs fs2 n object_name data p u g ts.
Proof.
  intros E [H1 (f & H2 & H3) H4 H5 H6]. constructor; [done| | | |].
  - exists f. by rewrite <- E.
  - intros c m. by rewrite <- E.
  - intros root b Hr. destruct (H5 root b Hr) as (root' & b' & Hr' & Hm). exists root', b'. by rewrite <- E.
  - intros k Hk Hn. rewrite <- E. by apply H6.
Qed.

#[local] Lemma records_target fs fs1 fs2 index index' rec : fs1 ≡ fs2 -> records sb fs fs1 index index' rec -> records sb fs fs2 index index' rec.
Proof.
  intros E ([(J & b & b' & H1 & H2) H3] & H4 & H5). split; [split|split; [|done]].
  - exists J, b, b'. by rewrite <- E.
  - intros k Hk. rewrite <- E. by apply H3.
  - by rewrite <- E.
Qed.

Lemma transition_target q s resp s1 s2 : same_shown s1 s2 -> transition q s resp s1 -> transition q s resp s2.
Proof.
  destruct s2 as [fs2 l2]. intros [E El] Ht. cbn in E, El. subst l2. destruct Ht; cbn [fst snd] in *.
  - econstructor. by eapply adds_object_target.
  - econstructor; [done|]. match goal with H : replaces _ _ _ _ _ _ |- _ => destruct H as (i' & R1 & R2) end.
    exists i'. split; [done|]. intros k. by rewrite <- E.
  - econstructor; [done| |done]. match goal with H : put_effect _ _ _ _ _ _ _ _ _ _ _ |- _ => destruct H end.
    + eapply put_creates; [done|]. by eapply records_target.
    + eapply put_rejects; [done|]. by eapply records_target.
  - econstructor; [done| |done]. match goal with H : replace_effect _ _ _ _ _ _ _ _ _ _ _ |- _ => destruct H end.
    + eapply replace_applies; [done|done|done|]. by eapply records_target.
    + eapply replace_mismatch; [done|done|]. by eapply records_target.
    + apply replace_missing. by eapply records_target.
Qed.

(** ** The ledger through a change *)
Lemma ledger_not_root fs index : ledger_in sb fs index -> ledger_inode <> rt.
Proof.
  intros (_ & _ & (es & x & (inode & b & ess & E & Hd & _) & _) & J & c & EJ & Hb & _) Hr.
  apply ledger_not_directory in Hb as [_ Hb]. rewrite Hr in EJ. congruence.
Qed.

Lemma ledger_in_adds fs fs' index n object_name data p u g ts : ledger_in sb fs index ->
  adds_object rt fs fs' n object_name data p u g ts -> ledger_in sb fs' index.
Proof.
  intros Hl [[H1 _] _ H4 _ H6]. pose proof (ledger_not_root _ _ Hl) as Hrt. destruct Hl as (A & B & C & J & b & E & D).
  split; [done|]. split; [done|]. split; [apply H4; by right|]. exists J, b. rewrite H6; [done|done|]. intros <-. congruence.
Qed.

Lemma ledger_in_replaces fs fs' index n inode old data ts : ledger_in sb fs index -> n <> ledger_inode ->
  fs n = Some (inode, old) -> S_ISREG (mode inode) = true -> replaces fs fs' n inode data ts -> ledger_in sb fs' index.
Proof.
  intros (A & B & C & J & b & E & D) Hn Hf Hreg (i' & Hrw & Hk). split; [done|]. split; [done|]. split.
  - eapply names_congruent; [| |exact C].
    + rewrite Hk. destruct (Z.eqb_spec rt n) as [Hr|]; [|done]. destruct C as (es & x & (r0 & rb & ess & Er & Hd & _) & _).
      rewrite Hr in Er. assert (r0 = inode) as -> by congruence. unfold S_ISREG, S_ISDIR in *. apply Z.eqb_eq in Hreg. by rewrite Hreg in Hd.
    + intros k ik bk Ek. rewrite Hk. destruct (Z.eqb_spec k n) as [->|]; [|by exists ik, bk].
      exists i', data. split; [done|]. assert (ik = inode) as -> by congruence. apply Hrw.
  - exists J, b. rewrite Hk. by rewrite (proj2 (Z.eqb_neq _ _)) by done.
Qed.

Lemma transition_ledger q s resp s' : ledger_shown sb s -> transition q s resp s' ->
  match q with Replace name _ _ _ => s.2 <> None -> forall n inode old, object_is s.1 rt name n inode old -> n <> ledger_inode | _ => True end ->
  ledger_shown sb s'.
Proof.
  unfold ledger_shown. intros Hl Ht. destruct Ht; cbn [fst snd] in *.
  - destruct l as [index|]; [|done]. intros _. by eapply ledger_in_adds.
  - destruct l as [index|]; [|done]. intros Hn. pose proof H as (_ & _ & Hf & Hreg).
    eapply ledger_in_replaces; [exact Hl| |exact Hf|exact Hreg|done]. by apply (Hn ltac:(done) _ _ _ H).
  - intros _. by destruct H0 as [? ? ? (_ & ? & _)|? ? ? ? (_ & ? & _)].
  - intros _. by destruct H0 as [? ? ? ? ? ? ? (_ & ? & _)|? ? ? ? ? (_ & ? & _)|(_ & ? & _)].
Qed.

(** No recorded request is ever lost. *)
Lemma transition_records q s resp s' index id rec : transition q s resp s' -> s.2 = Some index -> Find index id = Some rec ->
  exists index', s'.2 = Some index' /\ Find index' id = Some rec.
Proof.
  assert (forall fs1 fs' index index' rec0, records sb fs1 fs' index index' rec0 -> Find index id = Some rec -> Find index' id = Some rec) as Hkeep.
  { intros fs1 fs' i i' rec0 (_ & _ & Happ) Hf. unfold AppendCommitted in Happ. destruct (full i); [done|]. destruct (negb _); [done|].
    destruct (EncodeRequestLedgerRecord _); [|done]. destruct (records_ i !! _) eqn:Ei; [done|]. injection Happ as <-. unfold Find in *. cbn [records_].
    rewrite lookup_insert_ne; [done|]. intros Heq. change (request_id (set_sequence rec0 (next_sequence_ i))) with (request_id rec0) in Ei. congruence. }
  intros Ht Hi Hf. destruct Ht; cbn [fst snd] in *; try (by exists index).
  - injection Hi as ->. exists index'. split; [done|]. destruct H0; by eapply Hkeep.
  - injection Hi as ->. exists index'. split; [done|]. destruct H0; by eapply Hkeep.
Qed.
End abstract.

(** * One request *)
(** Requests the store is specified for: typed arguments and plans the journal can
    carry. *)
Definition admissible (b : ObjectBackend) (e : env) (r : ImageReader) (q : request) : Prop :=
  match q with
  | Put object_name data ts => bytes_ok object_name /\ bytes_ok data /\ u64 ts /\ put_carried b e r object_name data ts
  | Replace object_name expected data ts => bytes_ok data /\ u64 ts /\ replace_carried e r expected data ts
  | PutOnce object_name data ts identity =>
      bytes_ok object_name /\ bytes_ok data /\ u64 ts /\ put_carried b e r object_name data ts /\ identity_ok identity
  | ReplaceOnce object_name expected data ts identity =>
      bytes_ok data /\ u64 ts /\ replace_carried e r expected data ts /\ identity_ok identity
  | Fetch _ | Query _ => True
  end.

(** The request does not replace the file of a ledger in use. The code has no such
    guard: it takes the ledger for an object like any other. *)
Definition spares (b : ObjectBackend) (d : image) (r : ImageReader) (q : request) : Prop :=
  match q with
  | Replace object_name _ _ _ | ReplaceOnce object_name _ _ _ _ => request_ledger_ b <> None ->
      forall n inode old, object_is (file_at r d) (root_inode (rd_superblock r)) object_name n inode old -> n <> ledger_inode
  | _ => True
  end.

(** What the backend shows. *)
Abbreviation shown_by b e r := (file_at r (disk e), request_ledger_ b).

(** A request that may have moved the store to [s']. *)
Record moves (r : ImageReader) (q : request) (b : ObjectBackend) (e : env) (b' : ObjectBackend) (e' : env) (resp : response) (s' : shown) : Prop := {
  mv_effect : exists resp', transition (options_ b) (rd_superblock r) q (shown_by b e r) resp' s';
  mv_options : options_ b' = options_ b;
  mv_served : usable b' = true ->
    (b' = b /\ untouched e e' /\ quiet (rd_superblock r) q (shown_by b e r) resp) \/
    (transition (options_ b) (rd_superblock r) q (shown_by b e r) resp s' /\ synced (disk e) e' /\
     exists r2, serving b' e' r2 /\ rd_superblock r2 = rd_superblock r /\ image_size_ r2 = image_size_ r /\
       same_shown s' (shown_by b' e' r2));
  mv_crash : forall p y, p `prefix_of` trace e' -> crash_outcome r (disk e) p y ->
    restarts_with r y (file_at r (disk e)) \/ restarts_with r y s'.1
}.

Lemma now_serves_serving r fs' b' e' : now_serves r fs' b' e' true ->
  exists r2, serving b' e' r2 /\ rd_superblock r2 = rd_superblock r /\ image_size_ r2 = image_size_ r /\ fs' ≡ file_at r2 (disk e').
Proof. intros [(r2 & H1 & H2 & H3 & H4 & H5 & H6 & H7)]. exists r2. by split; [constructor|]. Qed.

(** The shape of a plain mutation. *)
Lemma applies_moves r q b e b' e' res m fs' version current :
  (forall res m, is_ok res = false -> outcome m = kOutcomeNotApplied -> quiet (rd_superblock r) q (shown_by b e r) (Mutated res m)) ->
  transition (options_ b) (rd_superblock r) q (shown_by b e r) (Mutated (Ok tt) (mkMutationResult kOutcomeCommitted version version)) (fs', request_ledger_ b) ->
  m = after_apply (outcome m) version current -> applies r fs' b e b' e' res (outcome m) ->
  moves r q b e b' e' (Mutated res m) (fs', request_ledger_ b).
Proof.
  intros Hq Ht Hm [[O L] H1 H2 H3 H4]. constructor; [by eexists|done| |].
  - intros Hu. destruct (outcome m) eqn:Eo; cbn in Hm.
    + left. destruct H1 as (H1 & -> & H1'). split; [done|]. split; [done|]. by apply Hq.
    + right. destruct res as [[]|er]; cbn [is_ok] in H1; [|destruct H1 as [(r2 & ? & ? & ? & ? & ? & ? & Hno)]; congruence].
      split; [by rewrite Hm|]. split; [by apply H4|]. destruct (now_serves_serving _ _ _ _ H1) as (r2 & A1 & A2 & A3 & A4).
      exists r2. split; [done|]. split; [done|]. split; [done|]. by split.
    + destruct H1. congruence.
  - intros p y Hp Hy. destruct (H2 p y Hp Hy) as [H|[_ H]]; [by left|by right].
Qed.

(** The shape of an identified one. *)
Lemma settles_moves r q b e b' e' res res' a out fs' index' rec :
  (forall res a, answers_alike rec (Ok tt) res a ->
    transition (options_ b) (rd_superblock r) q (shown_by b e r) (Settled res a) (fs', Some index')) ->
  (forall res a, res <> Ok tt -> quiet (rd_superblock r) q (shown_by b e r) (Settled res a)) ->
  settles r fs' index' b e b' e' res' out -> answers_alike rec res' res a ->
  moves r q b e b' e' (Settled res a) (fs', Some index').
Proof.
  intros Ht Hq [O H1 H2 H3 H4] Hal. constructor; [|done| |].
  - exists (Settled (replayed rec).1 (replayed rec).2). by apply Ht.
  - intros Hu. destruct out.
    + left. destruct H1 as (H1 & -> & H1'). split; [done|]. split; [done|]. apply Hq. intros Hr. rewrite (proj1 Hal Hr) in H1. done.
    + right. destruct H1 as [H1 Hi]. destruct res' as [[]|er]; cbn [is_ok] in H1; [|destruct H1 as [(r2 & ? & ? & ? & ? & ? & ? & Hno)]; congruence].
      split; [by apply Ht|]. split; [by apply H4|]. destruct (now_serves_serving _ _ _ _ H1) as (r2 & A1 & A2 & A3 & A4).
      exists r2. split; [done|]. split; [done|]. split; [done|]. split; [done|]. cbn. by rewrite Hi.
    + destruct H1. congruence.
  - intros p y Hp Hy. destruct (H2 p y Hp Hy) as [H|[_ H]]; [by left|by right].
Qed.

(** Without a ledger, identified requests are refused. *)
Lemma check_no_ledger b identity op : request_ledger_ b = None ->
  exists a er, CheckRequestLocked b identity op = (a, negb (negb (HasNonzeroRequestId (identity_request_id identity))), Err er).
Proof. intros H. unfold CheckRequestLocked. destruct (HasNonzeroRequestId _); cbn [negb]; [rewrite H|]; by eexists _, _. Qed.

Lemma stat_outcome b e r object_name : serving b e r ->
  let '((b', e'), res) := Stat object_name (b, e) in
  b' = b /\ untouched e e' /\
  forall st, res = Ok st -> exists n inode data, object_is (file_at r (disk e)) (root_inode (rd_superblock r)) object_name n inode data /\ st = MakeObjectStat n inode.
Proof.
  intros Hs. unfold Stat. cbn [fst]. rewrite (sv_reader _ _ _ Hs). match goal with |- context [ObjectBackend.reading ?m (b, e)] => set (io := m) end.
  assert (Reading io) as Hr by (unfold io; apply reading_bind; [apply _|]; intros [n inode]; apply _).
  destruct (ObjectBackend.reading io (b, e)) as [[b' e'] res] eqn:E. apply reading_reads in E as (Eb & U & Hans); [|done].
  split; [done|]. split; [done|]. intros st ->. specialize (Hans _ eq_refl).
  apply answer_bind_inv in Hans as ([n inode] & E1%(resolve_regular r (disk e) (sv_consistent _ _ _ Hs)) & E2); [|apply _].
  injection E2 as <-. by exists n, inode, (file_bytes (disk e) inode).
Qed.

Lemma serve_outcome oom q b e r : session b e r -> admissible b e r q -> spares b (disk e) r q ->
  let '((b', e'), resp) := serve oom q (b, e) in
  (b' = b /\ untouched e e' /\ quiet (rd_superblock r) q (shown_by b e r) resp) \/
  exists s', moves r q b e b' e' resp s'.
Proof.
  intros Hss Ha Hsp. pose proof Hss as [Hs Ht Htr [Hu Hg]]. unfold tracks in Htr.
  destruct q as [object_name data ts|object_name expected data ts|object_name data ts identity|object_name expected data ts identity|object_name|object_name];
    cbn [serve admissible spares] in *.
  - destruct Ha as (Hn & Hd & Hts & Hcar).
    pose proof (put_outcome b e r Hs Ht object_name data ts (session_request b e r _ _ _ Hss Hn Hd Hts) Hcar) as H.
    destruct (PutIfAbsent object_name data ts (b, e)) as [[b' e'] [res m]].
    destruct H as [(H1 & H2 & H3 & H4)|(n & fs' & Hadd & Hm & Hap)]; [by left|right].
    eexists. eapply applies_moves; [done|by constructor|done|done].
  - destruct Ha as (Hd & Hts & Hcar).
    pose proof (replace_outcome b e r Hs Ht object_name expected data ts Hd Hts Hcar) as H.
    destruct (ReplaceIfVersion object_name expected data ts (b, e)) as [[b' e'] [res m]].
    destruct H as [(H1 & H2 & H3 & H4)|(n & inode & old & fs' & Ho & -> & Hrep & Hm & Hap)]; [by left|right].
    eexists. eapply applies_moves; [done|by econstructor|done|done].
  - destruct Ha as (Hn & Hd & Hts & Hcar & Hid). destruct (request_ledger_ b) as [index|] eqn:Hi.
    + pose proof (put_idempotent_outcome oom b e r Hs Ht index Hi Htr object_name data ts identity (session_request b e r _ _ _ Hss Hn Hd Hts) Hid Hcar) as H.
      destruct (PutIfAbsentIdempotent oom object_name data ts identity (b, e)) as [[b' e'] [res a]].
      destruct H as [(H1 & H2 & H3)|(fs2 & index' & rec & out & res' & (Hnz & Hnew & Heff) & Hset & Hal)].
      * left. split; [done|]. split; [done|]. cbn. intros Hr. exists index. by split; [|apply H3].
      * right. eexists. eapply settles_moves; [|by intros ? ? Hne Hr; destruct (Hne Hr)|exact Hset|exact Hal]. intros res0 a0 Hal0. cbn. rewrite Hi. econstructor; [by split|exact Heff|exact Hal0].
    + unfold PutIfAbsentIdempotent. cbn [fst]. rewrite (sv_reader _ _ _ Hs), Hi.
      destruct (check_no_ledger b identity kCreateIfAbsent Hi) as (a & er & ->). destruct (HasNonzeroRequestId _); by left.
  - destruct Ha as (Hd & Hts & Hcar & Hid). destruct (request_ledger_ b) as [index|] eqn:Hi.
    + pose proof (replace_idempotent_outcome oom b e r Hs Ht index Hi Htr object_name expected data ts identity Hd Hts Hid (Hsp ltac:(done)) Hcar) as H.
      destruct (ReplaceIfVersionIdempotent oom object_name expected data ts identity (b, e)) as [[b' e'] [res a]].
      destruct H as [(H1 & H2 & H3)|(fs2 & index' & rec & out & res' & (Hnz & Hnew & Heff) & Hset & Hal)].
      * left. split; [done|]. split; [done|]. cbn. intros Hr. exists index. by split; [|apply H3].
      * right. eexists. eapply settles_moves; [|by intros ? ? Hne Hr; destruct (Hne Hr)|exact Hset|exact Hal]. intros res0 a0 Hal0. cbn. rewrite Hi. econstructor; [by split|exact Heff|exact Hal0].
    + unfold ReplaceIfVersionIdempotent. cbn [fst]. rewrite (sv_reader _ _ _ Hs), Hi.
      destruct (check_no_ledger b identity kReplaceIfVersion Hi) as (a & er & ->). destruct (HasNonzeroRequestId _); by left.
  - pose proof (get_outcome b e r Hs object_name) as H. destruct (Get object_name (b, e)) as [[b' e'] res].
    left. destruct H as (H1 & H2 & H3 & _). done.
  - pose proof (stat_outcome b e r object_name Hs) as H. destruct (Stat object_name (b, e)) as [[b' e'] res].
    left. destruct H as (H1 & H2 & H3). done.
Qed.

(** * The store *)
(** The backend, the file as the system shows it, and what of it is durable. *)
Record store := mkStore { st_backend : ObjectBackend; st_image : image; st_durability : durability }.

Inductive label := Served (q : request) (resp : response) | Crashed (q : request).

Definition label_request (l : label) : request := match l with Served q _ | Crashed q => q end.

(** The request does not replace the file of the ledger the store works with. *)
Definition spares_ledger (st : store) (q : request) : Prop :=
  forall r, CheckUsableLocked (st_backend st) = Ok r -> spares (st_backend st) (st_image st) r q.

(** What is on the disk after a crash does not depend on the stages passed. *)
Lemma settle_stages t : forall v w, durable v = durable w -> pending v = pending w ->
  durable (foldl settle v t) = durable (foldl settle w t) /\ pending (foldl settle v t) = pending (foldl settle w t).
Proof.
  induction t as [|ev t IH]; intros v w Hd Hp; [done|]. cbn [foldl]. apply IH; destruct ev; cbn; by rewrite ?Hd, ?Hp.
Qed.

Section store.
Context (sb : Superblock) (size : Z) (path : bytes) (o : ObjectBackendOptions).

(** A request is served under any system-call behaviour and the process lives on,
    or the machine stops anywhere in it; recovery may be interrupted any number
    of times before the store is opened again. *)
Inductive store_step : store -> label -> store -> Prop :=
| step_served oom script q b d v b' e' resp :
    (forall r, CheckUsableLocked b = Ok r -> admissible b (mkEnv d size script []) r q) ->
    serve oom q (b, mkEnv d size script []) = ((b', e'), resp) -> usable b' = true ->
    store_step (mkStore b d v) (Served q resp) (mkStore b' (disk e') (foldl settle v (trace e')))
| step_crashed oom script q b d v b' e' resp p x y b2 e2 action :
    (forall r, CheckUsableLocked b = Ok r -> admissible b (mkEnv d size script []) r q) ->
    serve oom q (b, mkEnv d size script []) = ((b', e'), resp) ->
    p `prefix_of` trace e' -> crash_image sb (foldl settle v p) x -> interrupted_recovery sb size x y ->
    Open path (options_ b) (fresh_start size y) = (e2, Ok (b2, action)) ->
    store_step (mkStore b d v) (Crashed q) (mkStore b2 (disk e2) (durability_of y (trace e2))).

(** Runs in which every request is [allowed] where it is made. *)
Inductive store_run (allowed : store -> request -> Prop) : store -> list label -> store -> Prop :=
| run_nil st : store_run allowed st [] st
| run_step st l st' ls st'' :
    allowed st (label_request l) -> store_step st l st' -> store_run allowed st' ls st'' -> store_run allowed st (l :: ls) st''.

(** ** The invariant between requests *)
Record store_ok (st : store) : Prop := {
  so_reader : exists r, serving (st_backend st) (fresh_start size (st_image st)) r /\ rd_superblock r = sb /\ image_size_ r = size /\
    tracks (st_backend st) sb (file_at r (st_image st));
  so_options : options_ (st_backend st) = o;
  so_synced : durable (st_durability st) = st_image st /\ pending (st_durability st) = []
}.

Definition shows (st : store) (s : shown) : Prop :=
  exists r, CheckUsableLocked (st_backend st) = Ok r /\ s = (file_at r (st_image st), request_ledger_ (st_backend st)).

(** ** The abstract store's steps *)
Inductive shown_step : shown -> label -> shown -> Prop :=
| shown_served q s resp s' : transition o sb q s resp s' -> shown_step s (Served q resp) s'
| shown_quiet q s resp : quiet sb q s resp -> shown_step s (Served q resp) s
| shown_lost q s s' : same_shown s s' -> shown_step s (Crashed q) s'
| shown_kept q s resp s' : transition o sb q s resp s' -> shown_step s (Crashed q) s'.

Inductive shown_run : shown -> list label -> shown -> Prop :=
| shown_nil s : shown_run s [] s
| shown_cons s l s' ls s'' : shown_step s l s' -> shown_run s' ls s'' -> shown_run s (l :: ls) s''.

Context (Hpath : options_ok path o) (Howner : u32 (opt_uid o) /\ u32 (opt_gid o)).

Lemma store_ok_shows st : store_ok st -> exists s, shows st s.
Proof. intros [(r & Hs & _) _ _]. eexists. exists r. split; [apply (sv_reader _ _ _ Hs)|done]. Qed.

Lemma store_session b d v script : store_ok (mkStore b d v) ->
  exists r, session b (mkEnv d size script []) r /\ rd_superblock r = sb /\ image_size_ r = size /\ CheckUsableLocked b = Ok r.
Proof.
  intros [(r & Hs & E1 & E2 & Htr) Ho _]. cbn [st_backend st_image] in *. exists r. split; [|split; [done|split; [done|apply (sv_reader _ _ _ Hs)]]].
  constructor; [|done|by rewrite E1|by rewrite Ho]. by apply (serving_untouched b (fresh_start size d)).
Qed.

Lemma crash_of_settled d v p x : durable v = d -> pending v = [] -> crash_image sb (foldl settle v p) x -> crash_image sb (durability_of d p) x.
Proof.
  intros Hd Hp. destruct (settle_stages p v (mkView d [] []) Hd Hp) as [E1 E2]. unfold crash_image, durability_of. by rewrite E1, E2.
Qed.

Lemma shows_unique st s s' : shows st s -> shows st s' -> s = s'.
Proof. intros (r & Hr & ->) (r' & Hr' & ->). by assert (r = r') as -> by congruence. Qed.

(** Opening after a crash that leaves the files of [s]. *)
Lemma reopen_store r b y s b2 e2 action : rd_superblock r = sb -> image_size_ r = size -> options_ b = o ->
  ledger_shown sb s -> restarts_with r y s.1 ->
  Open path (options_ b) (fresh_start size y) = (e2, Ok (b2, action)) ->
  let st := mkStore b2 (disk e2) (durability_of y (trace e2)) in
  store_ok st /\ forall s2, shows st s2 -> same_shown s s2.
Proof.
  intros Es Ez Ho Hl Hre E. destruct (open_restarted path (options_ b) r y s.1) as (b3 & e3 & r3 & Hop); [by rewrite Ho| |done|].
  { rewrite Es. unfold ledger_shown in Hl. intros Hh. destruct s as [fs [index|]]; cbn [fst snd] in *; [by exists index|congruence]. }
  destruct Hop as [(a & E') Hs Hf Htr [E1 E2] [Hn Hsy] Hopt]. rewrite Ez in E'. rewrite E in E'. injection E' as <- <- <-. cbn zeta. split.
  - constructor; cbn [st_backend st_image st_durability]; [|by rewrite Hopt|done].
    exists r3. rewrite E1, Es in Htr. split; [|split; [congruence|split; [congruence|done]]].
    destruct Hs as [S1 S2 S3 S4]. constructor; try done. cbn. congruence.
  - intros s2 (r4 & Hr4 & ->). cbn [st_backend st_image] in *. rewrite (sv_reader _ _ _ Hs) in Hr4. injection Hr4 as <-.
    split; [by symmetry|]. cbn [fst snd]. unfold tracks in Htr. rewrite E1, Es in Htr. unfold ledger_shown in Hl.
    destruct (request_ledger_ b2) as [i|], s as [fs [j|]]; cbn [fst snd] in *; try done.
    + f_equal. eapply (ledger_unique sb fs); [done|]. by rewrite <- Hf.
    + by rewrite (ledger_declared _ _ _ Htr) in Hl.
    + by rewrite (ledger_declared _ _ _ Hl) in Htr.
Qed.

(** A step that shows what the label says. *)
Definition simulated (st : store) (l : label) (st' : store) : Prop :=
  store_ok st' /\ forall s s', shows st s -> shows st' s' -> shown_step s l s'.

(** The request at hand, under the system-call behaviour [script]. *)
Section request.
Context (oom : bool) (script : list sysret) (q : request) (b : ObjectBackend) (d : image) (v : durability).
Context (r : ImageReader) (Hok : store_ok (mkStore b d v)) (Hss : session b (mkEnv d size script []) r).
Context (Es : rd_superblock r = sb) (Ez : image_size_ r = size) (Hadm : admissible b (mkEnv d size script []) r q).
Context (Hspares : spares b d r q).

Lemma shows_reader s : shows (mkStore b d v) s -> s = (file_at r d, request_ledger_ b).
Proof.
  intros (r0 & Hr0 & ->). cbn [st_backend st_image] in *. pose proof (sv_reader _ _ _ (ss_serving _ _ _ Hss)).
  by assert (r0 = r) as -> by congruence.
Qed.

Lemma next_ledger resp s1 : transition o sb q (file_at r d, request_ledger_ b) resp s1 -> ledger_shown sb s1.
Proof.
  intros Ht. pose proof (ss_tracks _ _ _ Hss) as Htr. rewrite Es in Htr. eapply transition_ledger; [|exact Ht|]; [exact Htr|].
  unfold spares in Hspares. rewrite Es in Hspares. by destruct q.
Qed.

Lemma quiet_simulated b' e' resp : b' = b -> untouched (mkEnv d size script []) e' -> quiet sb q (file_at r d, request_ledger_ b) resp ->
  simulated (mkStore b d v) (Served q resp) (mkStore b' (disk e') (foldl settle v (trace e'))).
Proof.
  intros -> (D & _ & T) Hq. cbn [disk trace] in D, T. rewrite D, T. cbn [foldl]. split; [done|]. intros s s' H1 H2.
  rewrite (shows_unique _ _ _ H2 H1), (shows_reader s H1). by apply shown_quiet.
Qed.

Lemma served_simulated b' e' resp : serve oom q (b, mkEnv d size script []) = ((b', e'), resp) -> usable b' = true ->
  simulated (mkStore b d v) (Served q resp) (mkStore b' (disk e') (foldl settle v (trace e'))).
Proof.
  intros E Hu. pose proof (serve_outcome oom q b _ r Hss Hadm Hspares) as H. rewrite E in H. pose proof Hok as [_ Ho [Hdur Hpen]].
  cbn [st_backend st_image st_durability disk] in *. rewrite Es in H.
  destruct H as [(H1 & H2 & H3)|(s1 & [_ Hopt Hserved _])]; [by apply quiet_simulated|]. rewrite Es, Ho in Hserved.
  destruct (Hserved Hu) as [(H1 & H2 & H3)|(Ht & [Y1 Y2] & r2 & Hs2 & E1 & E2 & Hsame)]; [by apply quiet_simulated|].
  pose proof (next_ledger _ _ Ht) as Hl1. cbn [disk] in *. split.
  - constructor; cbn [st_backend st_image st_durability]; [|congruence|].
    + exists r2. split; [|split; [congruence|split; [congruence|]]].
      * destruct Hs2 as [S1 S2 S3 S4]. constructor; try done. cbn. congruence.
      * unfold tracks. unfold ledger_shown in Hl1. destruct Hsame as [Hf Hled]. cbn [fst snd] in *. rewrite <- Hled.
        destruct s1 as [fs1 [i|]]; cbn [fst snd] in *; [|done]. by rewrite <- Hf.
    + destruct (settle_stages (trace e') v (mkView d [] []) Hdur Hpen) as [-> ->]. done.
  - intros s s' H1 (r3 & Hr3 & ->). cbn [st_backend st_image] in *. rewrite (sv_reader _ _ _ Hs2) in Hr3. injection Hr3 as <-.
    rewrite (shows_reader s H1). apply shown_served. by eapply transition_target.
Qed.

(** The store a crash leaves, by the files it restarts with. *)
Lemma crash_restarts b' e' resp p x y : serve oom q (b, mkEnv d size script []) = ((b', e'), resp) ->
  p `prefix_of` trace e' -> crash_image sb (foldl settle v p) x -> interrupted_recovery sb size x y ->
  restarts_with r y (file_at r d) \/ exists resp' s1, transition o sb q (file_at r d, request_ledger_ b) resp' s1 /\ restarts_with r y s1.1.
Proof.
  intros E Hp Hx Hy. pose proof (serve_outcome oom q b _ r Hss Hadm Hspares) as H. rewrite E in H. pose proof Hok as [_ Ho [Hdur Hpen]].
  cbn [st_backend st_image st_durability disk] in *. apply crash_of_settled with (d := d) in Hx; [|done|done].
  assert (crash_outcome r d p y) as Hco by (exists x; rewrite Es, Ez; done).
  destruct H as [(-> & (_ & _ & T) & _)|(s1 & [(resp' & Ht) _ _ Hcrash])].
  - left. cbn [trace] in T. rewrite T in Hp. apply prefix_nil_inv in Hp as ->. exact (idle_restart b _ r (ss_serving _ _ _ Hss) y Hco).
  - cbn [disk] in *. rewrite Es, Ho in Ht. destruct (Hcrash p y Hp Hco) as [Hre|Hre]; [by left|right]. by exists resp', s1.
Qed.

Lemma crashed_simulated b' e' resp p x y b2 e2 action : serve oom q (b, mkEnv d size script []) = ((b', e'), resp) ->
  p `prefix_of` trace e' -> crash_image sb (foldl settle v p) x -> interrupted_recovery sb size x y ->
  Open path (options_ b) (fresh_start size y) = (e2, Ok (b2, action)) ->
  simulated (mkStore b d v) (Crashed q) (mkStore b2 (disk e2) (durability_of y (trace e2))).
Proof.
  intros E Hp Hx Hy Eo. pose proof (so_options _ Hok) as Ho. cbn [st_backend] in Ho.
  destruct (crash_restarts _ _ _ p x y E Hp Hx Hy) as [Hre|(resp' & s1 & Ht & Hre)].
  - pose proof (ss_tracks _ _ _ Hss) as Htr. rewrite Es in Htr.
    destruct (reopen_store r b y (file_at r d, request_ledger_ b) b2 e2 action Es Ez Ho Htr Hre Eo) as [H1 H2].
    split; [done|]. intros s s' Hs1 Hs2. apply shown_lost. rewrite (shows_reader s Hs1). by apply H2.
  - destruct (reopen_store r b y s1 b2 e2 action Es Ez Ho (next_ledger _ _ Ht) Hre Eo) as [H1 H2]. split; [done|].
    intros s s' Hs1 Hs2. eapply shown_kept. rewrite (shows_reader s Hs1). eapply transition_target; [by apply H2|exact Ht].
Qed.
End request.

Lemma store_simulation st l st' : store_ok st -> spares_ledger st (label_request l) -> store_step st l st' -> simulated st l st'.
Proof.
  intros Hok Hsp Hstep. destruct Hstep as [oom script q b d v b' e' resp Ha E Hu|oom script q b d v b' e' resp p x y b2 e2 action Ha E Hp Hx Hy Eo];
    destruct (store_session b d v script Hok) as (r & Hss & Es & Ez & Hr).
  - by apply (served_simulated oom script q b d v r Hok Hss Es Ez (Ha r Hr) (Hsp r Hr)).
  - by apply (crashed_simulated oom script q b d v r Hok Hss Es Ez (Ha r Hr) (Hsp r Hr) b' e' resp p x y b2 e2 action).
Qed.

(** Every crash can be recovered from. *)
Lemma crash_steps st q oom script b' e' resp p x y :
  store_ok st ->
  (forall r, CheckUsableLocked (st_backend st) = Ok r -> admissible (st_backend st) (mkEnv (st_image st) size script []) r q) ->
  spares_ledger st q ->
  serve oom q (st_backend st, mkEnv (st_image st) size script []) = ((b', e'), resp) ->
  p `prefix_of` trace e' -> crash_image sb (foldl settle (st_durability st) p) x -> interrupted_recovery sb size x y ->
  exists b2 e2 action, Open path o (fresh_start size y) = (e2, Ok (b2, action)) /\
    store_step st (Crashed q) (mkStore b2 (disk e2) (durability_of y (trace e2))).
Proof.
  destruct st as [b d v]. cbn [st_backend st_image st_durability]. intros Hok Ha Hsp E Hp Hx Hy.
  destruct (store_session b d v script Hok) as (r & Hss & Es & Ez & Hr). pose proof (so_options _ Hok) as Ho. cbn [st_backend] in Ho.
  assert (exists s, ledger_shown sb s /\ restarts_with r y s.1) as (s & Hl & Hre).
  { destruct (crash_restarts oom script q b d v r Hok Hss Es Ez (Ha r Hr) (Hsp r Hr) _ _ _ p x y E Hp Hx Hy) as [Hre|(resp' & s1 & Ht & Hre)].
    - exists (file_at r d, request_ledger_ b). split; [|done]. pose proof (ss_tracks _ _ _ Hss) as Htr. by rewrite Es in Htr.
    - exists s1. split; [|done]. by apply (next_ledger script q b d r Hss Es (Ha r Hr) (Hsp r Hr) resp' s1). }
  destruct (open_restarted path o r y s.1 Hpath) as (b2 & e2 & r2 & Hop); [|done|].
  { rewrite Es. unfold ledger_shown in Hl. intros Hh. destruct s as [fs [index|]]; cbn [fst snd] in *; [by exists index|congruence]. }
  destruct (ro_open _ _ _ _ _ _ _ _ Hop) as [action Eo]. rewrite Ez in Eo. exists b2, e2, action. split; [done|].
  econstructor; [exact Ha|exact E|exact Hp|exact Hx|exact Hy|by rewrite Ho].
Qed.

Lemma shown_records s l s' index id rec : shown_step s l s' -> s.2 = Some index -> Find index id = Some rec ->
  exists index', s'.2 = Some index' /\ Find index' id = Some rec.
Proof.
  destruct 1 as [q s resp s' Ht|q s resp _|q s s' [_ E]|q s resp s' Ht]; intros Hi Hf; [by eapply transition_records|by exists index| |by eapply transition_records].
  exists index. by rewrite <- E.
Qed.
End store.
