(* ===== verification/StoreTheorems.v ===== *)
(** Two running stores on which the guarantees are evaluated: one without a
    ledger, and one with an empty ledger of 32 slots. *)
From S2P Require Import Prelude Codec OndiskFormat OndiskFormatProofs DirectoryEntry OndiskJournal OndiskJournalProofs.
From S2P Require Import Disk JournalStore JournalImage CrashLogic JournalStates JournalExample JournalTheorems.
From S2P Require Import BitmapAllocator RequestLedger RequestLedgerProofs ImageReader ImageReaderProofs ReaderTheorems.
From S2P Require Import LedgerStore FileMutation ConsistentImage PlanProofs FileMutationPublish Publication FilePlans.
From S2P Require Import FileTheorems NewObject NewObjectProofs NewObjectPlans FileSystem PlanTheorems ObjectBackend.
From S2P Require Import BackendProofs LedgerFiles IdempotentProofs StoreRefinement.
Open Scope Z_scope.

Definition options0 : ObjectBackendOptions := mkOptions 420 0 0.
Definition path0 : bytes := [47; 120].
Definition backend1 : ObjectBackend := mkBackend options0 (Some reader1) None None.
Definition backend2 : ObjectBackend := mkBackend options0 (Some reader2) (Some index2) None.

Lemma options0_ok : options_ok path0 options0 /\ u32 (opt_uid options0) /\ u32 (opt_gid options0).
Proof. split; [split; [discriminate|reflexivity]|cbn; split; word]. Qed.

(** * Without a ledger *)
Lemma serving1 script : serving backend1 (mkEnv img1 size0 script []) reader1.
Proof. constructor; [reflexivity|exact consistent1|exists current0, kA; split; [exact ready1|reflexivity]|reflexivity]. Qed.

Lemma session1 script : session backend1 (mkEnv img1 size0 script []) reader1.
Proof. constructor; [apply serving1|reflexivity|reflexivity|apply options0_ok]. Qed.

Definition store1 : store := mkStore backend1 img1 (mkView img1 [] []).

Lemma store1_ok : store_ok sb0 size0 options0 store1.
Proof. constructor; [|reflexivity|done]. exists reader1. split; [apply serving1|]. done. Qed.

(** * With a ledger *)
Lemma ready2 : ready sb2 size0 img2 current0 kA.
Proof. apply (ready_check _ _ _ _ _ (from_ok [] (EncodeSuperblock sb2))); vm_compute; reflexivity. Qed.

Lemma opened2 : opened reader2 img2.
Proof.
  pose proof (rdy_image _ _ _ _ _ ready2) as Hi. destruct opened1 as [_ _ _ _ _ H6 H7 H8 _].
  constructor; cbn [rd_superblock reader2 image_size_ inode_bitmap_ block_bitmap_ rd_journal_control rd_journal_control_copy].
  - exact view2.
  - exact Hi.
  - apply (rdy_selected _ _ _ _ _ ready2).
  - vm_compute. reflexivity.
  - vm_compute. reflexivity.
  - exact H6.
  - exact H7.
  - exact H8.
  - exists root1. split; vm_compute; reflexivity.
Qed.

Lemma ledger_inode2 : answer img2 (ReadInode reader2 2) = Ok ledger2.
Proof. vm_compute. reflexivity. Qed.

Lemma reads2 n J : answer img2 (ReadInode reader2 n) = Ok J -> (n = 1 /\ J = root1) \/ (n = 2 /\ J = ledger2).
Proof.
  intros E. destruct (read_inode_valid reader2 img2 (op_view _ _ opened2) n J E) as (_ & _ & Ha & _).
  destruct (allocated1 n Ha) as [->| ->]; [left|right]; (split; [done|]).
  - assert (answer img2 (ReadInode reader2 1) = Ok root1) as E1 by (vm_compute; reflexivity). congruence.
  - rewrite ledger_inode2 in E. congruence.
Qed.

Lemma owned2 : owned img2 root1 = [12] /\ owned img2 ledger2 = [13].
Proof. split; vm_compute; reflexivity. Qed.

Lemma consistent2 : consistent reader2 img2.
Proof.
  destruct owned2 as [O1 O2]. constructor.
  - apply opened2.
  - intros n [->| ->]%allocated1; [exists root1; vm_compute; reflexivity|exists ledger2; apply ledger_inode2].
  - intros n J [[-> ->]|[-> ->]]%reads2; [rewrite O1|rewrite O2]; apply (bool_decide_unpack _); vm_compute; exact I.
  - intros n n' J J' Hne [[-> ->]|[-> ->]]%reads2 [[-> ->]|[-> ->]]%reads2 b; rewrite ?O1, ?O2; try done; rewrite !elem_of_cons, elem_of_nil; lia.
Qed.

Lemma ledger2_in : ledger_in sb2 (file_at reader2 img2) index2.
Proof. apply (scan_files reader2 img2 consistent2 index2). exact scanned2. Qed.

Lemma serving2 script : serving backend2 (mkEnv img2 size0 script []) reader2.
Proof. constructor; [reflexivity|exact consistent2|exists current0, kA; split; [exact ready2|reflexivity]|reflexivity]. Qed.

Lemma session2 script : session backend2 (mkEnv img2 size0 script []) reader2.
Proof. constructor; [apply serving2|reflexivity|exact ledger2_in|apply options0_ok]. Qed.

Definition store2 : store := mkStore backend2 img2 (mkView img2 [] []).

Lemma store2_ok : store_ok sb2 size0 options0 store2.
Proof. constructor; [|reflexivity|done]. exists reader2. split; [apply serving2|]. split; [done|]. split; [done|exact ledger2_in]. Qed.

(** ** Plans the journal can carry *)
Definition new_metadata (res : result errno NewObjectPlan) : image :=
  match res with Ok plan => np_metadata_after_images plan | Err _ => ∅ end.

Lemma root_directory2 : directory_lists reader2 img2 1 [entry2].
Proof. apply (list_directory_iff reader2 img2 view2). vm_compute. reflexivity. Qed.

Lemma put_carried2 script : put_carried backend2 (mkEnv img2 size0 script []) reader2 [103] [1; 2; 3] 7.
Proof.
  assert (answer img2 (ReadInode reader2 1) = Ok root1) as Hr by (vm_compute; reflexivity).
  intros plan E. cbn [disk options_ backend2 permissions opt_uid opt_gid options0] in E.
  rewrite (object_prefix reader2 img2 consistent2 root1 Hr eq_refl [entry2] root_directory2 [103] [1; 2; 3] 420 0 0 7) in E.
  - match type of E with ?w = _ => assert (plainb (new_metadata w) = true) as H by (vm_compute; reflexivity) end.
    rewrite E in H. by apply plainb_ok.
  - reflexivity.
  - discriminate.
  - cbn. rewrite list_elem_of_singleton. discriminate.
Qed.

Definition identity2 : RequestIdentity := mkIdentity (repeat 1 16) (repeat 2 32).

Lemma identity2_ok : identity_ok identity2.
Proof. split; split; try reflexivity; apply bytes_okb_ok; reflexivity. Qed.

Definition put2 : request := PutOnce [103] [1; 2; 3] 7 identity2.

Lemma put2_admissible script r : CheckUsableLocked backend2 = Ok r -> admissible backend2 (mkEnv img2 size0 script []) r put2.
Proof.
  intros [= <-]. split; [apply bytes_okb_ok; reflexivity|]. split; [apply bytes_okb_ok; reflexivity|]. split; [word|].
  split; [apply put_carried2|exact identity2_ok].
Qed.

(** * With one recorded request *)
Definition img3 : image := <[13 := splice 0 (slot0 1) zero_block]> img2.
Definition index3 : RequestLedgerIndex := mkIndex 32 2 {[ request_id (record0 1) := record0 1 ]}.
Definition backend3 : ObjectBackend := mkBackend options0 (Some reader2) (Some index3) None.

Lemma consistent3 : consistent reader2 img3.
Proof.
  change img3 with (<[pointer img2 ledger2 0 := splice 0 (slot0 1) zero_block]> img2).
  apply (dc_consistent reader2 img2 consistent2 2 ledger2 ledger_inode2); [change (required_blocks ledger2) with 1; lia|].
  apply block_wfb_ok. vm_compute. reflexivity.
Qed.

Lemma scanned3 : answer img3 (ScanRequestLedger reader2) = Ok index3.
Proof. vm_compute. reflexivity. Qed.

(** A creation that repeats the recorded one. *)
Definition put3 : request := PutOnce [103] [1; 2; 3] 7 (mkIdentity (request_id (record0 1)) (fingerprint (record0 1))).

Lemma put3_admissible script r : CheckUsableLocked backend3 = Ok r -> admissible backend3 (mkEnv img3 size0 script []) r put3.
Proof.
  intros [= <-]. split; [apply bytes_okb_ok; reflexivity|]. split; [apply bytes_okb_ok; reflexivity|]. split; [word|].
  split; [|split; split; try reflexivity; apply bytes_okb_ok; reflexivity].
  assert (answer img3 (ReadInode reader2 1) = Ok root1) as Hr by (vm_compute; reflexivity).
  assert (directory_lists reader2 img3 1 [entry2]) as Hl by (apply (list_directory_iff reader2 img3 (op_view _ _ (co_opened _ _ consistent3))); vm_compute; reflexivity).
  intros plan E. cbn [disk options_ backend3 permissions opt_uid opt_gid options0] in E.
  rewrite (object_prefix reader2 img3 consistent3 root1 Hr eq_refl [entry2] Hl [103] [1; 2; 3] 420 0 0 7) in E.
  - match type of E with ?w = _ => assert (plainb (new_metadata w) = true) as H by (vm_compute; reflexivity) end.
    rewrite E in H. by apply plainb_ok.
  - reflexivity.
  - discriminate.
  - cbn. rewrite list_elem_of_singleton. discriminate.
Qed.

Definition store3 : store := mkStore backend3 img3 (mkView img3 [] []).

Lemma store3_ok : store_ok sb2 size0 options0 store3.
Proof.
  assert (ready sb2 size0 img3 current0 kA) as Hr
    by (apply (ready_check _ _ _ _ _ (from_ok [] (EncodeSuperblock sb2))); vm_compute; reflexivity).
  constructor; [|reflexivity|done]. exists reader2.
  split; [constructor; [reflexivity|exact consistent3|by exists current0, kA|reflexivity]|]. split; [done|]. split; [done|].
  apply (scan_files reader2 img3 consistent3 index3). exact scanned3.
Qed.

(** The file of the ledger is not protected: its name resolves like that of any
    object, replacing it with three bytes is planned as for any file, and the image
    this transaction leaves is consistent but has no ledger a store could open
    with. *)
Theorem ledger_file_unprotected :
  answer img3 (ResolveRegularLocked reader2 kRequestLedgerName) = Ok (2, ledger2) /\
  exists plan, answer img3 (PrepareObjectReplace reader2 2 (generation ledger2) [1; 2; 3] 7) = Ok plan /\
    let d' := applied (fp_ordered_data_after_images plan) (fp_metadata_after_images plan) img3 in
    exists r', consistent r' d' /\ forall index, ~ ledger_in sb2 (file_at r' d') index.
Proof.
  split; [vm_compute; reflexivity|].
  assert (writable_file reader2 img3 2 ledger2) as Hw by (constructor; [exact consistent3|vm_compute; reflexivity|reflexivity|reflexivity]).
  pose proof (replace_answers reader2 img3 2 ledger2 1 [1; 2; 3] 7 Hw ltac:(by apply write_request1)) as H. cbv zeta in H.
  assert ((replace_needs [1; 2; 3] <=? Z.of_nat (size (free_bits (block_allocator reader2)))) = true) as E by (vm_compute; reflexivity).
  rewrite E in H. destruct H as (plan & Ep & _ & r' & inode' & Hpub & Hrew & _ & Hf). exists plan. split; [exact Ep|]. cbv zeta. exists r'.
  split; [apply Hpub|]. intros index (_ & _ & _ & inode & b & Hb & Hbad & _). rewrite Hf in Hb. injection Hb as <- _.
  unfold bad_ledger in Hbad. rewrite (rw_size _ _ _ _ Hrew) in Hbad. cbn in Hbad. by rewrite !orb_true_r in Hbad.
Qed.

(** The guarantees of the object store: what the result of a mutation means, what
    reads return, exactly-once execution of identified requests, and the
    refinement of the abstract store by any sequence of requests, crashes and
    restarts. *)
(** * Results *)
(** C10. The result of a mutation. Under any system-call behaviour [PutIfAbsent] and
    [ReplaceIfVersion] either refuse, with an error, the backend and the image
    as they were; or they have a transaction that adds exactly the new object,
    or gives exactly the expected version of the object its new contents.
    Then "not applied" means nothing happened, "committed" that the change is
    durable and shown (by this process unless it had to close), "unknown" that the
    backend is closed; and wherever a crash falls, the next start-up shows the
    files before or, if the outcome is not "not applied", after the change. *)
Theorem mutation_outcomes b e r object_name data ts (Hss : session b e r) (Hn : bytes_ok object_name) (Hd : bytes_ok data) (Ht : u64 ts) :
  let o := options_ b in
  let fs := file_at r (disk e) in
  let rt := root_inode (rd_superblock r) in
  (put_carried b e r object_name data ts ->
   let '((b', e'), (res, m)) := PutIfAbsent object_name data ts (b, e) in
   refused b e b' e' res (outcome m) \/
   exists n fs', adds_object rt fs fs' n object_name data (permissions o) (opt_uid o) (opt_gid o) ts /\
     m = after_apply (outcome m) (mkVersion n 1) no_version /\ applies r fs' b e b' e' res (outcome m)) /\
  (forall expected, replace_carried e r expected data ts ->
   let '((b', e'), (res, m)) := ReplaceIfVersion object_name expected data ts (b, e) in
   refused b e b' e' res (outcome m) \/
   exists n inode old fs', object_is fs rt object_name n inode old /\ expected = mkVersion n (generation inode) /\
     replaces fs fs' n inode data ts /\
     m = after_apply (outcome m) (mkVersion n (generation inode + 1)) expected /\ applies r fs' b e b' e' res (outcome m)).
Proof.
  pose proof Hss as [Hs Hidle _ _]. split.
  - intros Hc. exact (put_outcome b e r Hs Hidle object_name data ts (session_request b e r _ _ _ Hss Hn Hd Ht) Hc).
  - intros expected Hc. exact (replace_outcome b e r Hs Hidle object_name expected data ts Hd Ht Hc).
Qed.

Lemma mutation_outcomes_witness :
  let '((b', e'), (res, m)) := PutIfAbsent [103] [1; 2; 3] 7 (backend2, env2) in
  refused backend2 env2 b' e' res (outcome m) \/
  exists n fs', adds_object 1 (file_at reader2 img2) fs' n [103] [1; 2; 3] 420 0 0 7 /\
    m = after_apply (outcome m) (mkVersion n 1) no_version /\ applies reader2 fs' backend2 env2 b' e' res (outcome m).
Proof.
  refine (proj1 (mutation_outcomes backend2 env2 reader2 [103] [1; 2; 3] 7 _ _ _ _) _).
  - exact (session2 []).
  - apply bytes_okb_ok. reflexivity.
  - apply bytes_okb_ok. reflexivity.
  - word.
  - exact (put_carried2 []).
Defined.

(** C32. Reads. [Get] changes nothing; what it returns is the contents of the
    regular file the name stands for in the root directory, with its size,
    time and generation; and it returns it whenever the name stands for one and
    the system calls succeed. [Stat] answers the same attributes. *)
Theorem get_exact b e r object_name (Hs : serving b e r) :
  let fs := file_at r (disk e) in
  let rt := root_inode (rd_superblock r) in
  (let '((b', e'), res) := Get object_name (b, e) in
   b' = b /\ untouched e e' /\
   (forall data st, res = Ok (data, st) -> exists n inode, object_is fs rt object_name n inode data /\ st = MakeObjectStat n inode) /\
   (responses e = [] -> forall n inode data, object_is fs rt object_name n inode data -> res = Ok (data, MakeObjectStat n inode))) /\
  (let '((b', e'), res) := Stat object_name (b, e) in
   b' = b /\ untouched e e' /\
   forall st, res = Ok st -> exists n inode data, object_is fs rt object_name n inode data /\ st = MakeObjectStat n inode).
Proof. split; [by apply get_outcome|by apply stat_outcome]. Qed.

Lemma get_exact_witness :
  let '((b', e'), res) := Get [102] (backend1, env1) in
  b' = backend1 /\ untouched env1 e' /\ (object_is (file_at reader1 img1) 1 [102] 2 file1 (file_bytes img1 file1) ->
    res = Ok (file_bytes img1 file1, MakeObjectStat 2 file1)).
Proof.
  pose proof (get_exact backend1 env1 reader1 [102] (serving1 [])) as H. cbv zeta in H. apply proj1 in H.
  destruct (Get [102] (backend1, env1)) as [[b' e'] res]. destruct H as (H1 & H2 & _ & H3).
  split; [exact H1|]. split; [exact H2|]. exact (H3 eq_refl 2 file1 (file_bytes img1 file1)).
Defined.

(** * Exactly once *)
(** C2. Identified creation happens at most once. However a request with an
    identity is interrupted (any system-call behaviour, a crash anywhere in it or
    after it, interrupted recoveries), the store opens again and then either
    nothing of the request is there, neither object nor record, or its whole
    effect is: the object with its record, or the record of its rejection;
    in that case a retry with the same identity is answered from the record and
    changes nothing. If the request had answered success, its record survives
    every crash and retries report the version it committed. *)
Theorem put_exactly_once oom b e r index path object_name data ts identity p y :
  session b e r -> request_ledger_ b = Some index -> options_ok path (options_ b) ->
  bytes_ok object_name -> bytes_ok data -> u64 ts -> identity_ok identity -> put_carried b e r object_name data ts ->
  let run := PutIfAbsentIdempotent oom object_name data ts identity (b, e) in
  p `prefix_of` trace run.1.2 -> crash_outcome r (disk e) p y ->
  once kCreateIfAbsent identity path b e r index (put_effect (options_ b) (rd_superblock r) (file_at r (disk e)) index object_name data ts identity) y
    (p = trace run.1.2 /\ run.2.1 = Ok tt) run.2.2.
Proof.
  intros Hss Hi Hpath Hn Hd Hts Hid Hcar. cbv zeta. pose proof Hss as [Hs Ht Htr _]. unfold tracks in Htr. rewrite Hi in Htr.
  pose proof (put_idempotent_outcome oom b e r Hs Ht index Hi Htr object_name data ts identity (session_request b e r _ _ _ Hss Hn Hd Hts) Hid Hcar) as H.
  destruct (PutIfAbsentIdempotent oom object_name data ts identity (b, e)) as [[b' e'] [res a]]. cbn [fst snd].
  apply (exactly_once _ _ _ _ _ _ _ _ b'); try done; [by left|].
  intros fs2 index' rec [n fs1 Hadd Hr|n inode old Ho Hr]; eexists; (split; [exact Hr|done]).
Qed.

Lemma put_exactly_once_witness :
  let run := PutIfAbsentIdempotent false [103] [1; 2; 3] 7 identity2 (backend2, env2) in
  let y := durable (durability_of img2 (trace run.1.2)) in
  once kCreateIfAbsent identity2 path0 backend2 env2 reader2 index2
    (put_effect options0 sb2 (file_at reader2 img2) index2 [103] [1; 2; 3] 7 identity2) y
    (trace run.1.2 = trace run.1.2 /\ run.2.1 = Ok tt) run.2.2.
Proof.
  refine (put_exactly_once false backend2 env2 reader2 index2 path0 [103] [1; 2; 3] 7 identity2 _ _ _ _ _ _ _ _ _ _ _ _).
  - exact (session2 []).
  - reflexivity.
  - exact (proj1 options0_ok).
  - apply bytes_okb_ok. reflexivity.
  - apply bytes_okb_ok. reflexivity.
  - word.
  - exact identity2_ok.
  - exact (put_carried2 []).
  - exact (reflexivity (R := prefix) _).
  - apply synced_outcome.
Defined.

(** C3. Identified replacement happens at most once. The same for a conditional
    replacement: after any crash the file has its old contents and there is no
    record, or the effect is there with its record (new contents, or a recorded
    version mismatch or missing object), and a retry is answered from the record
    without replacing anything again. *)
Theorem replace_exactly_once oom b e r index path object_name expected data ts identity p y :
  session b e r -> request_ledger_ b = Some index -> options_ok path (options_ b) ->
  bytes_ok data -> u64 ts -> identity_ok identity -> replace_carried e r expected data ts ->
  (forall n inode old, object_is (file_at r (disk e)) (root_inode (rd_superblock r)) object_name n inode old -> n <> ledger_inode) ->
  let run := ReplaceIfVersionIdempotent oom object_name expected data ts identity (b, e) in
  p `prefix_of` trace run.1.2 -> crash_outcome r (disk e) p y ->
  once kReplaceIfVersion identity path b e r index (replace_effect (rd_superblock r) (file_at r (disk e)) index object_name expected data ts identity) y
    (p = trace run.1.2 /\ run.2.1 = Ok tt) run.2.2.
Proof.
  intros Hss Hi Hpath Hd Hts Hid Hcar Hother. cbv zeta. pose proof Hss as [Hs Ht Htr _]. unfold tracks in Htr. rewrite Hi in Htr.
  pose proof (replace_idempotent_outcome oom b e r Hs Ht index Hi Htr object_name expected data ts identity Hd Hts Hid Hother Hcar) as H.
  destruct (ReplaceIfVersionIdempotent oom object_name expected data ts identity (b, e)) as [[b' e'] [res a]]. cbn [fst snd].
  apply (exactly_once _ _ _ _ _ _ _ _ b'); try done; [by right|].
  intros fs2 index' rec [n inode old fs1 Ho Hex Hrep Hr|n inode old Ho Hex Hr|Hr]; eexists; (split; [exact Hr|done]).
Qed.

Lemma no_object2 n inode old : ~ object_is (file_at reader2 img2) 1 [103] n inode old.
Proof.
  intros Ho. pose proof Ho as (_ & _ & Hf & _). unfold file_at in Hf. destruct (answer img2 (ReadInode reader2 n)) as [J|] eqn:EJ; [|done].
  injection Hf as -> <-. apply (resolve_regular reader2 img2 consistent2) in Ho.
  assert (answer img2 (ResolveRegularLocked reader2 [103]) = Err ENOENT) as E by (vm_compute; reflexivity). congruence.
Qed.

Lemma replace_carried2 script : replace_carried (mkEnv img2 size0 script []) reader2 (mkVersion 3 5) [1; 2; 3] 7.
Proof.
  intros n plan E. cbn [disk ov_generation] in E. destruct (prepared_facts _ _ _ _ _ E) as (J & HJ & Hreg & _).
  apply reads2 in HJ as [[-> ->]|[-> ->]]; [discriminate|].
  assert (answer img2 (PrepareObjectReplace reader2 2 5 [1; 2; 3] 7) = Err ESTALE) as E' by (vm_compute; reflexivity). congruence.
Qed.

Lemma replace_exactly_once_witness :
  let run := ReplaceIfVersionIdempotent false [103] (mkVersion 3 5) [1; 2; 3] 7 identity2 (backend2, env2) in
  let y := durable (durability_of img2 (trace run.1.2)) in
  once kReplaceIfVersion identity2 path0 backend2 env2 reader2 index2
    (replace_effect sb2 (file_at reader2 img2) index2 [103] (mkVersion 3 5) [1; 2; 3] 7 identity2) y
    (trace run.1.2 = trace run.1.2 /\ run.2.1 = Ok tt) run.2.2.
Proof.
  refine (replace_exactly_once false backend2 env2 reader2 index2 path0 [103] (mkVersion 3 5) [1; 2; 3] 7 identity2 _ _ _ _ _ _ _ _ _ _ _ _).
  - exact (session2 []).
  - reflexivity.
  - exact (proj1 options0_ok).
  - apply bytes_okb_ok. reflexivity.
  - word.
  - exact identity2_ok.
  - exact (replace_carried2 []).
  - intros n inode old Ho. destruct (no_object2 n inode old Ho).
  - exact (reflexivity (R := prefix) _).
  - apply synced_outcome.
Defined.

(** * Runs *)
(** The store with a ledger, stopped after all of an identified creation. *)
Lemma crash2 : exists st, store_step sb2 size0 path0 store2 (Crashed put2) st.
Proof.
  destruct (serve false put2 (backend2, env2)) as [[b' e'] resp] eqn:E. destruct options0_ok as [H1 H2].
  destruct (crash_steps sb2 size0 path0 options0 H1 H2 store2 put2 false [] b' e' resp [] img2 img2 store2_ok
    (put2_admissible []) (fun _ _ => I) E (prefix_nil _)) as (b2 & e2 & action & _ & H); [intros blk; by left|constructor|by eexists].
Qed.

Lemma crash3 : exists st, store_step sb2 size0 path0 store3 (Crashed (Fetch [103])) st.
Proof.
  destruct (serve false (Fetch [103]) (backend3, mkEnv img3 size0 [] [])) as [[b' e'] resp] eqn:E. destruct options0_ok as [H1 H2].
  destruct (crash_steps sb2 size0 path0 options0 H1 H2 store3 (Fetch [103]) false [] b' e' resp [] img3 img3 store3_ok
    (fun _ _ => I) (fun _ _ => I) E (prefix_nil _)) as (b2 & e2 & action & _ & H); [intros blk; by left|constructor|by eexists].
Qed.

Section guarantees.
Context (sb : Superblock) (size : Z) (path : bytes) (o : ObjectBackendOptions).
Context (Hpath : options_ok path o) (Howner : u32 (opt_uid o) /\ u32 (opt_gid o)).

(** C9. The invariant of the store. Between any two requests, after any sequence of
    requests under any system-call behaviour that leaves the backend open, crashes
    in the middle of a request, interrupted recoveries and restarts: the reader the
    backend holds shows a consistent image, the journal is clean, everything written
    is durable, and the index of recorded requests is the contents of the ledger
    file. The requests are typed ([admissible]) and none replaces the ledger file
    itself ([spares_ledger]): the code accepts such a request, and the index is then
    no longer what the file holds. *)
Theorem store_invariant st ls st' :
  store_ok sb size o st -> store_run sb size path spares_ledger st ls st' -> store_ok sb size o st'.
Proof. intros Hok Hrun. induction Hrun; [done|]. apply IHHrun. by eapply store_simulation. Qed.

(** C1. The store refines the abstract store. Every run of the backend on its image,
    with requests that leave it open, crashes in the middle of a request,
    interrupted recoveries and restarts, is a run of the abstract store of files and
    recorded requests: an answered request makes exactly its change and gives the
    answer that goes with it, or changes nothing and its answer is a refusal, a
    replayed answer or what the object holds; a crash loses the request as a whole
    or keeps it as a whole. The requests are typed ([admissible]), and none replaces
    the file of the ledger itself ([spares_ledger]), which the code would accept. *)
Theorem store_refines st ls st' s s' :
  store_ok sb size o st -> store_run sb size path spares_ledger st ls st' -> shows st s -> shows st' s' -> shown_run sb o s ls s'.
Proof.
  intros Hok Hrun. revert s. induction Hrun as [st|st l st1 ls st' Hsp Hstep _ IH]; intros s Hs Hs'.
  - rewrite (shows_unique _ _ _ Hs Hs'). constructor.
  - destruct (store_simulation _ _ _ _ Hpath Howner _ _ _ Hok Hsp Hstep) as [Hok1 H1].
    destruct (store_ok_shows _ _ _ _ Hok1) as [s1 Hs1]. econstructor; [by apply H1|by apply IH].
Qed.

(** C15. Recorded requests are kept. Whatever requests, crashes and restarts follow
    after a request was recorded, as long as none of the requests replaces the
    ledger file itself ([spares_ledger]; the code accepts one that does, and the
    records are then gone), its record is still in the ledger, unchanged, so that it
    is not executed again. *)
Theorem recorded_requests_kept st ls st' index id rec :
  store_ok sb size o st -> store_run sb size path spares_ledger st ls st' ->
  request_ledger_ (st_backend st) = Some index -> Find index id = Some rec ->
  exists index', request_ledger_ (st_backend st') = Some index' /\ Find index' id = Some rec.
Proof.
  intros Hok Hrun. revert index. induction Hrun as [st|st l st1 ls st' Hsp Hstep _ IH]; intros index Hi Hf; [by exists index|].
  destruct (store_simulation _ _ _ _ Hpath Howner _ _ _ Hok Hsp Hstep) as [Hok1 H1].
  destruct (store_ok_shows _ _ _ _ Hok) as [s Hs], (store_ok_shows _ _ _ _ Hok1) as [s1 Hs1]. pose proof (H1 s s1 Hs Hs1) as Hsh.
  destruct Hs as (r & _ & ->), Hs1 as (r1 & _ & ->).
  destruct (shown_records _ _ _ _ _ index id rec Hsh Hi Hf) as (index1 & Hi1 & Hf1). by apply (IH Hok1 index1).
Qed.

(** C16. The store comes back. Wherever a crash falls in a request that is typed
    ([admissible]) and does not replace the ledger file itself ([spares_ledger];
    after the commit of one that does, opening may fail with EUCLEAN), and however
    often recovery is interrupted, opening the store succeeds when the system calls
    do, and the run goes on from there. *)
Theorem store_reopens st q oom script b' e' resp p x y :
  store_ok sb size o st ->
  (forall r, CheckUsableLocked (st_backend st) = Ok r -> admissible (st_backend st) (mkEnv (st_image st) size script []) r q) ->
  spares_ledger st q ->
  serve oom q (st_backend st, mkEnv (st_image st) size script []) = ((b', e'), resp) ->
  p `prefix_of` trace e' -> crash_image sb (foldl settle (st_durability st) p) x -> interrupted_recovery sb size x y ->
  exists b2 e2 action, Open path o (fresh_start size y) = (e2, Ok (b2, action)) /\
    store_step sb size path st (Crashed q) (mkStore b2 (disk e2) (durability_of y (trace e2))).
Proof. exact (crash_steps sb size path o Hpath Howner st q oom script b' e' resp p x y). Qed.
End guarantees.

Lemma store_invariant_witness : exists st', store_run sb2 size0 path0 spares_ledger store2 [Crashed put2] st' /\ store_ok sb2 size0 options0 st'.
Proof.
  destruct crash2 as [st' H]. assert (store_run sb2 size0 path0 spares_ledger store2 [Crashed put2] st') as Hrun by (econstructor; [exact (fun _ _ => I)|exact H|constructor]).
  exists st'. split; [exact Hrun|]. destruct options0_ok as [H1 H2]. exact (store_invariant sb2 size0 path0 options0 H1 H2 store2 _ st' store2_ok Hrun).
Defined.

Lemma store_refines_witness : exists st' s s', store_run sb2 size0 path0 spares_ledger store2 [Crashed put2] st' /\ shows st' s' /\
  shown_run sb2 options0 s [Crashed put2] s'.
Proof.
  destruct crash2 as [st' H]. assert (store_run sb2 size0 path0 spares_ledger store2 [Crashed put2] st') as Hrun by (econstructor; [exact (fun _ _ => I)|exact H|constructor]).
  destruct options0_ok as [H1 H2]. destruct (store_ok_shows _ _ _ _ store2_ok) as [s Hs].
  destruct (store_simulation sb2 size0 path0 options0 H1 H2 _ (Crashed put2) _ store2_ok (fun _ _ => I) H) as [Hok' _]. destruct (store_ok_shows _ _ _ _ Hok') as [s' Hs'].
  exists st', s, s'. split; [exact Hrun|]. split; [exact Hs'|].
  exact (store_refines sb2 size0 path0 options0 H1 H2 store2 _ st' s s' store2_ok Hrun Hs Hs').
Defined.

Lemma recorded_requests_kept_witness : exists st' index', store_run sb2 size0 path0 spares_ledger store3 [Crashed (Fetch [103])] st' /\
  request_ledger_ (st_backend st') = Some index' /\ Find index' (request_id (record0 1)) = Some (record0 1).
Proof.
  destruct crash3 as [st' H]. assert (store_run sb2 size0 path0 spares_ledger store3 [Crashed (Fetch [103])] st') as Hrun by (econstructor; [exact (fun _ _ => I)|exact H|constructor]).
  destruct options0_ok as [H1 H2].
  destruct (recorded_requests_kept sb2 size0 path0 options0 H1 H2 store3 _ st' index3 (request_id (record0 1)) (record0 1) store3_ok Hrun eq_refl) as (index' & Hi & Hf).
  - vm_compute. reflexivity.
  - exists st', index'. split; [exact Hrun|]. split; [exact Hi|exact Hf].
Defined.

Lemma triple_eta {A B C} (x : A * B * C) : x = ((x.1.1, x.1.2), x.2).
Proof. by destruct x as [[a b] c]. Qed.

Lemma store_reopens_witness :
  let run := serve false put2 (backend2, env2) in
  exists b2 e2 action, Open path0 options0 (fresh_start size0 (durable (durability_of img2 (trace run.1.2)))) = (e2, Ok (b2, action)) /\
    store_step sb2 size0 path0 store2 (Crashed put2) (mkStore b2 (disk e2) (durability_of (durable (durability_of img2 (trace run.1.2))) (trace e2))).
Proof.
  destruct options0_ok as [H1 H2].
  refine (store_reopens sb2 size0 path0 options0 H1 H2 store2 put2 false [] (serve false put2 (backend2, env2)).1.1
    (serve false put2 (backend2, env2)).1.2 (serve false put2 (backend2, env2)).2 (trace (serve false put2 (backend2, env2)).1.2)
    (durable (durability_of img2 (trace (serve false put2 (backend2, env2)).1.2))) _ store2_ok (put2_admissible []) (fun _ _ => I) _ _ _ _).
  - exact (triple_eta (serve false put2 (backend2, env2))).
  - exact (reflexivity (R := prefix) _).
  - intros blk. left. reflexivity.
  - constructor.
Defined.
