(* ===== verification/Mkfs.v ===== *)
(** Formatting an image (src/storage/mkfs.h, src/storage/mkfs.cpp).

    The host file is a path entry that may be absent, a length, the blocks of
    its content and the writes, resizes and syncs it has seen. System calls
    answer from a script, as in Disk.v; random bytes, clock and user ids are
    inputs. An incomplete last block of an existing file reads as padded with
    zeros, which is what enlarging the file makes of it. *)
From S2P Require Import Prelude Codec OndiskFormat OndiskJournal Disk BitmapAllocator ImageReader RequestLedger LedgerStore.
Open Scope Z_scope.

Record MkfsOptions := mkMkfsOptions {
  image_path : bytes;
  image_size_bytes : Z;
  opt_total_inodes : Z;
  opt_journal_blocks : Z;
  request_ledger_entries : Z;
  force : bool
}.

(** What the process gets from the system: random bytes, the time, its owner. *)
Record surroundings := mkSurroundings {
  random_bytes : bytes;
  tv_sec : Z;
  tv_nsec : Z;
  process_uid : Z;
  process_gid : Z
}.

Inductive mkfs_error :=
| Message (text : string)
| SystemError (operation : string) (error_number : errno).

(** * The host file *)
Inductive file_event :=
| FWrite (block : Z) (content : bytes)   (* new content of a block handed to pwrite *)
| FTorn (block : Z)                      (* a block a failed pwrite was to change *)
| FResize (blocks : Z)
| FSync.

Record host_file := mkFile {
  f_linked : bool;
  f_blocks : image;
  f_size : Z;
  f_script : list sysret;
  f_trace : list file_event
}.

Definition set_linked (f : host_file) (l : bool) : host_file :=
  mkFile l (f_blocks f) (f_size f) (f_script f) (f_trace f).
Definition set_script (f : host_file) (s : list sysret) : host_file :=
  mkFile (f_linked f) (f_blocks f) (f_size f) s (f_trace f).
Definition set_content (f : host_file) (d : image) (size : Z) (evs : list file_event) : host_file :=
  mkFile (f_linked f) d size (f_script f) (f_trace f ++ evs).

Definition fio (A : Type) : Type := host_file -> host_file * result mkfs_error A.

Definition fbind {A B} (m : fio A) (k : A -> fio B) : fio B := fun f =>
  let '(f', r) := m f in match r with Ok a => k a f' | Err er => (f', Err er) end.
Definition fret {A} (a : A) : fio A := fun f => (f, Ok a).
Definition ffail {A} (er : mkfs_error) : fio A := fun f => (f, Err er).

Declare Scope mkfs_scope.
Delimit Scope mkfs_scope with mkfs.
Notation "x <- m ;; k" := (fbind m (fun x => k))
  (at level 100, m at next level, right associativity) : mkfs_scope.
Notation "m ;; k" := (fbind m (fun _ => k)) (at level 100, right associativity) : mkfs_scope.
Open Scope mkfs_scope.

(** A call that answers with an error number or succeeds. *)
Definition host_call (operation : string) : fio unit := fun f =>
  match f_script f with
  | SysErr er :: rest => (set_script f rest, Err (SystemError operation er))
  | _ :: rest => (set_script f rest, Ok tt)
  | [] => (f, Ok tt)
  end.

(** [open] with [O_CREAT], and [O_EXCL] unless [force]. *)
Definition open_image (force : bool) : fio unit :=
  host_call "open image" ;;
  fun f =>
    if f_linked f then if force then (f, Ok tt) else (f, Err (SystemError "open image" EEXIST))
    else (mkFile true ∅ 0 (f_script f) (f_trace f), Ok tt).

(** [ftruncate]: new blocks are zero, blocks past the end are gone. *)
Definition resized (blocks : Z) (d : image) : image :=
  list_to_map (map (fun k => (k, default zero_block (d !! k))) (counting blocks)).

Definition ftruncate (size : Z) : fio unit :=
  host_call "ftruncate image" ;;
  fun f => (set_content f (resized (size / kBlockSize) (f_blocks f)) size [FResize (size / kBlockSize)], Ok tt).

Definition fdatasync (operation : string) : fio unit :=
  host_call operation ;; fun f => (set_content f (f_blocks f) (f_size f) [FSync], Ok tt).

(** * [PwriteAll] *)
Fixpoint mkfs_pwrite_loop (size written : Z) (script : list sysret)
    : list sysret * Z * result mkfs_error unit :=
  if size <=? written then (script, written, Ok tt)
  else match script with
  | [] => ([], size, Ok tt)
  | SysErr EINTR :: rest => mkfs_pwrite_loop size written rest
  | SysErr e :: rest => (rest, written, Err (SystemError "pwrite" e))
  | SysRet n :: rest =>
      if n <? 0 then (rest, written, Err (SystemError "pwrite" EIO))
      else if n =? 0 then (rest, written, Err (Message "pwrite made no progress"))
      else mkfs_pwrite_loop size (written + n) rest
  end.

(** The blocks a write of [data] at [offset] touches, with their new content;
    each round finishes one block. *)
Fixpoint touched (fuel : nat) (d : image) (offset : Z) (data : bytes) : list (Z * bytes) :=
  match fuel, data with
  | S fuel, _ :: _ =>
      let block := offset / kBlockSize in
      let within := Z.to_nat (offset mod kBlockSize) in
      let piece := take (BlockLen - within) data in
      (block, splice within piece (default zero_block (d !! block))) ::
      touched fuel d (offset + Z.of_nat (length piece)) (drop (BlockLen - within) data)
  | _, _ => []
  end.
Definition touches (d : image) (offset : Z) (data : bytes) : list (Z * bytes) :=
  touched (length data / BlockLen + 2) d offset data.

Definition MkfsPwriteAll (data : bytes) (offset : Z) : fio unit := fun f =>
  let '(rest, written, r) := mkfs_pwrite_loop (Z.of_nat (length data)) 0 (f_script f) in
  let blocks := touches (f_blocks f) offset (take (Z.to_nat written) data) in
  let torn := match r with
              | Ok _ => []
              | Err _ => map (fun p => FTorn p.1) (touches (f_blocks f) offset data)
              end in
  (set_content (set_script f rest) (insert_all blocks (f_blocks f))
     (Z.max (f_size f) (offset + Z.min written (Z.of_nat (length data))))
     (map (fun p => FWrite p.1 p.2) blocks ++ torn), r).

(** * Bitmaps *)
Definition SetBitmapBit (bitmap : bytes) (bit : Z) : bytes :=
  put_byte bitmap (bit / 8) (Z.lor (byte_at bitmap (bit / 8)) (Z.shiftl 1 (bit mod 8) mod 256)).

(** [std::fill] over the positions from [first] up to [last]. *)
Definition fill (bitmap : bytes) (first last : Z) (value : Z) : bytes :=
  splice (Z.to_nat first) (replicate (Z.to_nat (last - first)) value) bitmap.

Definition SetBitmapPrefix (bitmap : bytes) (used_bits : Z) : bytes :=
  let full_bytes := used_bits / 8 in
  let bitmap := fill bitmap 0 full_bytes 255 in
  let remaining_bits := used_bits mod 8 in
  if negb (remaining_bits =? 0)
  then put_byte bitmap full_bytes ((Z.shiftl 1 remaining_bits - 1) mod 256)
  else bitmap.

Definition ReserveBitmapTail (bitmap : bytes) (valid_bits : Z) : bytes :=
  let first_tail_byte := valid_bits / 8 in
  let valid_bits_in_byte := valid_bits mod 8 in
  let size := Z.of_nat (length bitmap) in
  if negb (valid_bits_in_byte =? 0) then
    let tail_mask := Z.shiftl 255 valid_bits_in_byte mod 256 in
    let bitmap := put_byte bitmap first_tail_byte (Z.lor (byte_at bitmap first_tail_byte) tail_mask) in
    fill bitmap (first_tail_byte + 1) size 255
  else fill bitmap first_tail_byte size 255.

(** * The ledger's place *)
Record RequestLedgerGeometry := mkLedgerGeometry {
  entry_count : Z;
  data_block_count : Z;
  root_directory_block : Z;
  first_data_block : Z;
  lg_indirect_block : Z;
  file_size : Z
}.

Definition enabled (g : RequestLedgerGeometry) : bool := negb (entry_count g =? 0).

Definition kMaximumFileBlocks : Z := kDirectBlockCount + kBlockSize / 4.

Definition BuildRequestLedgerGeometry (superblock : Superblock) (entry_count : Z)
    : result mkfs_error RequestLedgerGeometry :=
  if entry_count =? 0 then Ok (mkLedgerGeometry 0 0 0 0 0 0)
  else if negb (entry_count mod kEntriesPerBlock =? 0)
  then Err (Message "request ledger entry count must fill complete blocks")
  else
  let data_blocks := entry_count / kEntriesPerBlock in
  if (data_blocks =? 0) || (kMaximumFileBlocks <? data_blocks)
  then Err (Message "request ledger exceeds the v1 inode mapping limit")
  else if total_inodes superblock <=? kRequestLedgerInodeNumber
  then Err (Message "request ledger requires at least three inodes")
  else
  let needs_indirect := kDirectBlockCount <? data_blocks in
  let occupied_data_blocks := 1 + data_blocks + (if needs_indirect then 1 else 0) in
  if block_count (data superblock) <=? occupied_data_blocks
  then Err (Message "image data region is too small for request ledger")
  else
  let root_directory_block := start_block (data superblock) in
  let first_data_block := wrap32 (root_directory_block + 1) in
  Ok (mkLedgerGeometry entry_count data_blocks root_directory_block first_data_block
        (if needs_indirect then wrap32 (first_data_block + data_blocks) else 0)
        (entry_count * kRequestLedgerRecordSize)).

(** * Identity *)
Fixpoint getrandom_loop (size filled : Z) (script : list sysret) : list sysret * result mkfs_error unit :=
  if size <=? filled then (script, Ok tt)
  else match script with
  | [] => ([], Ok tt)
  | SysErr EINTR :: rest => getrandom_loop size filled rest
  | SysErr e :: rest => (rest, Err (SystemError "getrandom" e))
  | SysRet n :: rest =>
      if n <? 0 then (rest, Err (SystemError "getrandom" EIO)) else getrandom_loop size (filled + n) rest
  end.

Definition FillRandom (w : surroundings) : fio bytes := fun f =>
  let '(rest, r) := getrandom_loop 16 0 (f_script f) in
  (set_script f rest, match r with Ok _ => Ok (random_bytes w) | Err e => Err e end).

Definition CurrentTimeNs (w : surroundings) : fio Z :=
  host_call "clock_gettime" ;;
  if (tv_sec w <? 0) || ((18446744073709551615 - tv_nsec w) / 1000000000 <? tv_sec w)
  then ffail (Message "current time does not fit the on-disk timestamp")
  else fret (wrap64 (tv_sec w * 1000000000 + tv_nsec w)).

(** The version and variant bits of a random UUID. *)
Definition stamp_uuid (uuid : bytes) : bytes :=
  let uuid := put_byte uuid 6 (Z.lor (Z.land (byte_at uuid 6) 0x0F) 0x40) in
  put_byte uuid 8 (Z.lor (Z.land (byte_at uuid 8) 0x3F) 0x80).

(** * [FormatImage] *)
Definition off_t_max : Z := 9223372036854775807.

Definition check_that (bad : bool) (er : mkfs_error) : fio unit := if bad then ffail er else fret tt.
Definition of_codec {A} (r : result string A) : fio A :=
  match r with Ok a => fret a | Err text => ffail (Message text) end.

(** The geometry checks, and the layout with the feature bit of a ledger. *)
Definition plan_layout (options : MkfsOptions) : result mkfs_error (Superblock * RequestLedgerGeometry) :=
  if bool_decide (image_path options = []) || (image_size_bytes options =? 0) ||
     negb (image_size_bytes options mod kBlockSize =? 0)
  then Err (Message "image path and block-aligned image size are required")
  else
  let total_blocks64 := image_size_bytes options / kBlockSize in
  if (u32_max <? total_blocks64) || (off_t_max <? image_size_bytes options)
  then Err (Message "image exceeds the v1 block-number or host offset limit")
  else
  match BuildSuperblockLayout total_blocks64 (opt_total_inodes options) (opt_journal_blocks options) with
  | Err text => Err (Message text)
  | Ok superblock =>
    match BuildRequestLedgerGeometry superblock (request_ledger_entries options) with
    | Err er => Err er
    | Ok ledger_geometry =>
      let feature_incompat :=
        if enabled ledger_geometry
        then Z.lor (sb_feature_incompat superblock) kFeatureIncompatRequestLedger
        else sb_feature_incompat superblock in
      Ok (mkSuperblock (total_blocks superblock) (total_inodes superblock) (root_inode superblock)
            (inode_bitmap superblock) (block_bitmap superblock) (inode_table superblock)
            (journal superblock) (data superblock) (sb_feature_compat superblock)
            (sb_feature_ro_compat superblock) feature_incompat (sb_filesystem_uuid superblock)
            (created_time_ns superblock), ledger_geometry)
    end
  end.

Definition with_identity (s : Superblock) (uuid : bytes) (time_ns : Z) : Superblock :=
  mkSuperblock (total_blocks s) (total_inodes s) (root_inode s) (inode_bitmap s) (block_bitmap s)
    (inode_table s) (journal s) (data s) (sb_feature_compat s) (sb_feature_ro_compat s)
    (sb_feature_incompat s) uuid time_ns.

Definition region_bytes_size (r : Region) : nat := Z.to_nat (block_count r * kBlockSize).

Definition new_inode_bitmap (superblock : Superblock) (g : RequestLedgerGeometry) : bytes :=
  let bitmap := zeros (region_bytes_size (inode_bitmap superblock)) in
  let bitmap := SetBitmapBit bitmap (wrap32 (root_inode superblock - 1)) in
  let bitmap := if enabled g then SetBitmapBit bitmap (kRequestLedgerInodeNumber - 1) else bitmap in
  ReserveBitmapTail bitmap (total_inodes superblock).

(** The data blocks of the ledger, in logical order. *)
Definition ledger_blocks (g : RequestLedgerGeometry) : list Z :=
  map (fun logical => wrap32 (first_data_block g + logical)) (counting (data_block_count g)).

Definition new_block_bitmap (superblock : Superblock) (g : RequestLedgerGeometry) : bytes :=
  let bitmap := zeros (region_bytes_size (block_bitmap superblock)) in
  let bitmap := SetBitmapPrefix bitmap (start_block (data superblock)) in
  let bitmap :=
    if enabled g then
      let bitmap := SetBitmapBit bitmap (root_directory_block g) in
      let bitmap := foldl SetBitmapBit bitmap (ledger_blocks g) in
      if negb (lg_indirect_block g =? 0) then SetBitmapBit bitmap (lg_indirect_block g) else bitmap
    else bitmap in
  ReserveBitmapTail bitmap (total_blocks superblock).

Definition root_record (superblock : Superblock) (g : RequestLedgerGeometry) (w : surroundings) : InodeRecord :=
  mkInode (root_inode superblock) (Z.lor S_IFDIR 493) (process_uid w) (process_gid w) 2
    (if enabled g then kBlockSize else 0)
    (created_time_ns superblock) (created_time_ns superblock) (created_time_ns superblock) 0 1
    (if enabled g then root_directory_block g :: replicate 11 0 else replicate 12 0) 0.

Definition ledger_record (superblock : Superblock) (g : RequestLedgerGeometry) (w : surroundings) : InodeRecord :=
  let direct_count := Z.to_nat (Z.min (data_block_count g) kDirectBlockCount) in
  mkInode kRequestLedgerInodeNumber (Z.lor S_IFREG 384) (process_uid w) (process_gid w) 1 (file_size g)
    (created_time_ns superblock) (created_time_ns superblock) (created_time_ns superblock) 0 1
    (take direct_count (ledger_blocks g) ++ replicate (12 - direct_count) 0) (lg_indirect_block g).

(** The pointers from logical block 12 on. *)
Definition ledger_indirect_bytes (g : RequestLedgerGeometry) : bytes :=
  put_words 0 (drop (Z.to_nat kDirectBlockCount) (ledger_blocks g)) zero_block.

Definition ledger_entry : DirectoryEntry :=
  mkDirectoryEntry kRequestLedgerInodeNumber kRegular kRequestLedgerName 0.

Definition first_control (superblock : Superblock) : JournalControl :=
  mkControl (wrap32 (block_count (journal superblock) - kJournalControlBlockCount))
    (sb_filesystem_uuid superblock) 0 0 0 0 0 1 0 0 0 0.

Definition at_block (block : Z) : Z := block * kBlockSize.

Fixpoint fio_each {A} (k : A -> fio unit) (l : list A) : fio unit :=
  match l with [] => fret tt | x :: rest => k x ;; fio_each k rest end.

(** Everything but the superblock. *)
Definition write_body (superblock : Superblock) (g : RequestLedgerGeometry)
    (root_bytes control_bytes ledger_bytes root_directory_bytes : bytes) : fio unit :=
  MkfsPwriteAll (new_inode_bitmap superblock g) (at_block (start_block (inode_bitmap superblock))) ;;
  MkfsPwriteAll (new_block_bitmap superblock g) (at_block (start_block (block_bitmap superblock))) ;;
  MkfsPwriteAll root_bytes (at_block (start_block (inode_table superblock))) ;;
  MkfsPwriteAll control_bytes (at_block (start_block (journal superblock))) ;;
  MkfsPwriteAll control_bytes (at_block (wrap32 (start_block (journal superblock) + 1))) ;;
  (if enabled g then
     MkfsPwriteAll ledger_bytes
       (at_block (start_block (inode_table superblock)) + (kRequestLedgerInodeNumber - 1) * kInodeRecordSize) ;;
     MkfsPwriteAll root_directory_bytes (at_block (root_directory_block g)) ;;
     fio_each (fun block => MkfsPwriteAll zero_block (at_block block)) (ledger_blocks g) ;;
     (if negb (lg_indirect_block g =? 0)
      then MkfsPwriteAll (ledger_indirect_bytes g) (at_block (lg_indirect_block g)) else fret tt)
   else fret tt).

(** The steps on the open, locked file. *)
Definition format_open_file (options : MkfsOptions) (w : surroundings) (superblock : Superblock)
    (g : RequestLedgerGeometry) : fio Superblock :=
  host_call "lock image" ;;
  (if force options
   then MkfsPwriteAll zero_block 0 ;; fdatasync "fdatasync invalidated superblock"
   else fret tt) ;;
  ftruncate (image_size_bytes options) ;;
  host_call "posix_fallocate image" ;;
  encodings <-
    (if enabled g then
       directory <- of_codec (EncodeDirectoryEntry ledger_entry kBlockSize zero_block) ;;
       encoded <- of_codec (EncodeInode (ledger_record superblock g w)) ;;
       fret (directory, encoded)
     else fret (zero_block, zeros InodeLen)) ;;
  let '(root_directory_bytes, ledger_bytes) := encodings in
  root_bytes <- of_codec (EncodeInode (root_record superblock g w)) ;;
  control <- of_codec (EncodeControl (first_control superblock)) ;;
  write_body superblock g root_bytes control.1 ledger_bytes root_directory_bytes ;;
  fdatasync "fdatasync filesystem body" ;;
  superblock_bytes <- of_codec (EncodeSuperblock superblock) ;;
  MkfsPwriteAll superblock_bytes 0 ;;
  fdatasync "fdatasync superblock" ;;
  fret superblock.

(** [PartialImageCleanup]: a failed format of a new path unlinks it. *)
Definition with_cleanup {A} (active : bool) (m : fio A) : fio A := fun f =>
  let '(f', r) := m f in
  match r with
  | Ok _ => (f', r)
  | Err _ => (if active then set_linked f' false else f', r)
  end.

Definition FormatImage (options : MkfsOptions) (w : surroundings) : fio Superblock :=
  match plan_layout options with
  | Err er => ffail er
  | Ok (layout, g) =>
    uuid <- FillRandom w ;;
    time_ns <- CurrentTimeNs w ;;
    let superblock := with_identity layout (stamp_uuid uuid) time_ns in
    open_image (force options) ;;
    with_cleanup (negb (force options)) (format_open_file options w superblock g)
  end.
