(* ===== verification/MkfsBitmaps.v ===== *)
(** The bitmaps a format writes: which bits they hold. *)
From S2P Require Import Prelude Codec OndiskFormat OndiskFormatProofs OndiskJournal Disk JournalImage BitmapAllocator.
From S2P Require Import RequestLedger ImageReader ImageReaderProofs LedgerStore FileMutation ConsistentImage.
From S2P Require Import PlanProofs Mkfs.
Open Scope Z_scope.

Section bits.
Implicit Types b : bytes.

Lemma length_put b i v : length (put_byte b i v) = length b.
Proof. apply length_insert. Qed.

Lemma length_fill b first last v : 0 <= first <= last -> last <= Z.of_nat (length b) ->
  length (fill b first last v) = length b.
Proof. intros H1 H2. unfold fill. apply length_splice. rewrite length_replicate. lia. Qed.

Lemma byte_at_fill b first last v j : 0 <= first <= last -> last <= Z.of_nat (length b) -> 0 <= j ->
  byte_at (fill b first last v) j = if (first <=? j) && (j <? last) then v else byte_at b j.
Proof.
  intros H1 H2 H3. unfold byte_at, fill, splice. rewrite !nth_lookup, length_replicate.
  assert (length (take (Z.to_nat first) b) = Z.to_nat first) as Hl by (rewrite length_take; lia).
  destruct (Z.leb_spec first j); cbn [andb].
  - rewrite lookup_app_r by lia. rewrite Hl. destruct (Z.ltb_spec j last).
    + rewrite lookup_app_l by (rewrite length_replicate; lia). by rewrite lookup_replicate_2 by lia.
    + rewrite lookup_app_r by (rewrite length_replicate; lia). rewrite lookup_drop, length_replicate. do 2 f_equal. lia.
  - rewrite lookup_app_l by lia. by rewrite lookup_take_lt by lia.
Qed.

Lemma bytes_ok_fill b first last : bytes_ok b -> bytes_ok (fill b first last 255).
Proof.
  intros H. apply bytes_ok_splice; [|done]. apply Forall_replicate. unfold u8. lia.
Qed.

Lemma ones_testbit i : 0 <= i < 8 -> Z.testbit 255 i = true.
Proof. intros H. change 255 with (Z.ones 8). by apply Z.ones_spec_low. Qed.

Lemma bit_index bit : 0 <= bit -> 0 <= bit / 8 /\ 0 <= bit mod 8 < 8 /\ bit = 8 * (bit / 8) + bit mod 8.
Proof. intros H. split; [apply Z.div_pos; lia|]. split; [apply Z.mod_pos_bound; lia|apply Z.div_mod; lia]. Qed.

Lemma TestBit_zeros n bit : 0 <= bit -> TestBit (zeros n) bit = false.
Proof.
  intros H. rewrite TestBit_spec by done. unfold byte_at, zeros. rewrite nth_lookup.
  destruct (_ !! _) as [x|] eqn:E; [apply lookup_replicate in E as [-> _]|]; apply Z.bits_0.
Qed.

Lemma prefix_mask k i : 0 < k < 8 -> 0 <= i < 8 -> Z.testbit ((Z.shiftl 1 k - 1) mod 256) i = (i <? k).
Proof.
  intros Hk Hi. change 256 with (2 ^ 8). rewrite Z.mod_pow2_bits_low by lia. rewrite Z.shiftl_1_l.
  replace (2 ^ k - 1) with (Z.ones k) by (rewrite Z.ones_equiv; lia). rewrite Z.testbit_ones by lia.
  by rewrite (proj2 (Z.leb_le 0 i)) by lia.
Qed.

Lemma tail_mask k i : 0 < k < 8 -> 0 <= i < 8 -> Z.testbit (Z.shiftl 255 k mod 256) i = (k <=? i).
Proof.
  intros Hk Hi. change 256 with (2 ^ 8). rewrite Z.mod_pow2_bits_low, Z.shiftl_spec by lia.
  destruct (Z.leb_spec k i); [apply ones_testbit; lia|apply Z.testbit_neg_r; lia].
Qed.

Lemma length_SetBitmapPrefix b used : 0 <= used -> used <= Z.of_nat (length b) * 8 ->
  length (SetBitmapPrefix b used) = length b.
Proof.
  intros H0 H. destruct (bit_index used H0) as (A & B & C). unfold SetBitmapPrefix. cbv zeta.
  destruct (negb _); rewrite ?length_put; apply length_fill; lia.
Qed.

Lemma TestBit_prefix n used bit : 0 <= used -> used <= Z.of_nat n * 8 -> 0 <= bit ->
  TestBit (SetBitmapPrefix (zeros n) used) bit = (bit <? used).
Proof.
  intros H0 H Hb. destruct (bit_index used H0) as (A & B & C). destruct (bit_index bit Hb) as (A' & B' & C').
  assert (length (zeros n) = n) as Hl by apply length_replicate.
  pose proof (TestBit_zeros n bit Hb) as Hz. rewrite TestBit_spec in * by done. unfold SetBitmapPrefix. cbv zeta.
  destruct (Z.eqb_spec (used mod 8) 0) as [E|E]; cbn [negb].
  - rewrite byte_at_fill by lia. destruct (Z.leb_spec 0 (bit / 8)); [cbn [andb]|lia].
    destruct (Z.ltb_spec (bit / 8) (used / 8)), (Z.ltb_spec bit used); try lia; [by apply ones_testbit|done].
  - rewrite byte_at_put by (rewrite ?length_fill; lia). destruct (Z.eqb_spec (bit / 8) (used / 8)).
    + rewrite prefix_mask by lia. destruct (Z.ltb_spec (bit mod 8) (used mod 8)), (Z.ltb_spec bit used); lia.
    + rewrite byte_at_fill by lia. destruct (Z.leb_spec 0 (bit / 8)); [cbn [andb]|lia].
      destruct (Z.ltb_spec (bit / 8) (used / 8)), (Z.ltb_spec bit used); try lia; [by apply ones_testbit|done].
Qed.

Lemma length_ReserveBitmapTail b valid : 0 <= valid -> valid <= Z.of_nat (length b) * 8 ->
  length (ReserveBitmapTail b valid) = length b.
Proof.
  intros H0 H. destruct (bit_index valid H0) as (A & B & C). unfold ReserveBitmapTail. cbv zeta.
  destruct (Z.eqb_spec (valid mod 8) 0) as [E|E]; cbn [negb]; rewrite length_fill; rewrite ?length_put; lia.
Qed.

Lemma TestBit_tail b valid bit : 0 <= valid -> valid <= Z.of_nat (length b) * 8 -> in_bitmap b bit ->
  TestBit (ReserveBitmapTail b valid) bit = (valid <=? bit) || TestBit b bit.
Proof.
  intros H0 H Hbit. pose proof Hbit as [Hb Hb2]. pose proof (index_bound b bit Hbit) as Hi.
  destruct (bit_index valid H0) as (A & B & C). destruct (bit_index bit Hb) as (A' & B' & C').
  rewrite !TestBit_spec by done. unfold ReserveBitmapTail. cbv zeta.
  destruct (Z.eqb_spec (valid mod 8) 0) as [E|E]; cbn [negb].
  - rewrite byte_at_fill by lia. rewrite (proj2 (Z.ltb_lt (bit / 8) _)) by lia. rewrite andb_true_r.
    destruct (Z.leb_spec (valid / 8) (bit / 8)), (Z.leb_spec valid bit); try lia; [by apply ones_testbit|done].
  - rewrite byte_at_fill by (rewrite ?length_put; lia). rewrite (proj2 (Z.ltb_lt (bit / 8) _)) by lia. rewrite andb_true_r.
    destruct (Z.leb_spec (valid / 8 + 1) (bit / 8)).
    + rewrite (proj2 (Z.leb_le valid bit)) by lia. by apply ones_testbit.
    + rewrite byte_at_put by lia. destruct (Z.eqb_spec (bit / 8) (valid / 8)) as [E2|].
      * rewrite Z.lor_spec, tail_mask, E2, orb_comm by lia. f_equal.
        destruct (Z.leb_spec (valid mod 8) (bit mod 8)), (Z.leb_spec valid bit); lia.
      * destruct (Z.leb_spec valid bit); [lia|done].
Qed.

Lemma bytes_ok_tail b valid : bytes_ok b -> bytes_ok (ReserveBitmapTail b valid).
Proof.
  intros H. unfold ReserveBitmapTail. cbv zeta. destruct (negb _); apply bytes_ok_fill; [|done]. apply bytes_ok_put; [done|].
  pose proof (byte_at_u8 b (valid / 8) H) as H1. pose proof (u8_mod (Z.shiftl 255 (valid mod 8))) as H2.
  apply u8_of_bits; [apply Z.lor_nonneg; unfold u8 in *; lia|]. intros i Hi. by rewrite Z.lor_spec, !(u8_high _ i) by done.
Qed.

Lemma bytes_ok_prefix b used : bytes_ok b -> bytes_ok (SetBitmapPrefix b used).
Proof.
  intros H. unfold SetBitmapPrefix. cbv zeta. destruct (negb _); [apply bytes_ok_put; [|apply u8_mod]|]; by apply bytes_ok_fill.
Qed.

Lemma set_bitmap_bit b bit : SetBitmapBit b bit = SetBit b bit.
Proof. reflexivity. Qed.

(** Setting a list of bits. *)
Lemma length_set_bits l : forall b, length (foldl SetBitmapBit b l) = length b.
Proof. induction l as [|x l IH]; intros b; [done|]. cbn [foldl]. rewrite IH. apply length_SetBit. Qed.

Lemma bytes_ok_set_bits l : forall b, bytes_ok b -> bytes_ok (foldl SetBitmapBit b l).
Proof. induction l as [|x l IH]; intros b H; [done|]. apply IH. by apply bytes_ok_SetBit. Qed.

Lemma TestBit_set_bits l bit : forall b, Forall (in_bitmap b) l -> 0 <= bit ->
  TestBit (foldl SetBitmapBit b l) bit = bool_decide (bit ∈ l) || TestBit b bit.
Proof.
  induction l as [|x l IH]; intros b Hl Hb; [done|]. apply Forall_cons in Hl as [Hx Hl]. cbn [foldl].
  rewrite IH; [|eapply Forall_impl; [exact Hl|]; intros y; unfold in_bitmap; by rewrite length_SetBit|done].
  rewrite set_bitmap_bit, TestBit_SetBit by done. rewrite orb_assoc. f_equal.
  destruct (Z.eqb_spec bit x) as [->|Hne].
  - rewrite orb_true_r. symmetry. apply bool_decide_eq_true. by left.
  - rewrite orb_false_r. apply bool_decide_ext. rewrite elem_of_cons. tauto.
Qed.
End bits.

(** * Where the ledger goes *)
Record ledger_placed (sb : Superblock) (g : RequestLedgerGeometry) : Prop := {
  lp_count : 1 <= data_block_count g <= 1036;
  lp_entries : entry_count g = data_block_count g * 32;
  lp_inodes : 2 < total_inodes sb;
  lp_root : root_directory_block g = start_block (data sb);
  lp_first : first_data_block g = start_block (data sb) + 1;
  lp_indirect : lg_indirect_block g =
    if 12 <? data_block_count g then start_block (data sb) + 1 + data_block_count g else 0;
  lp_room : start_block (data sb) + 1 + data_block_count g + (if 12 <? data_block_count g then 1 else 0) < total_blocks sb;
  lp_size : file_size g = data_block_count g * 4096
}.

Definition placed (sb : Superblock) (g : RequestLedgerGeometry) : Prop := enabled g = true -> ledger_placed sb g.

Section placement.
Context (sb : Superblock) (Hlay : layout sb).
Abbreviation ds := (start_block (data sb)).

Lemma data_bounds : 0 < ds /\ ds <= total_blocks sb /\ u32 (total_blocks sb) /\ u32 ds /\ ds + block_count (data sb) = total_blocks sb.
Proof.
  destruct (lay_geo _ Hlay) as [Hty G1 G2 G3 G4]. destruct Hty as (T1 & _ & _ & _ & _ & _ & _ & [D1 D2] & _).
  pose proof (geo_bounds _ (lay_geo _ Hlay)). conj_split; try done; lia.
Qed.

Lemma regions_ordered :
  start_block (inode_bitmap sb) = 1 /\ start_block (block_bitmap sb) = 1 + block_count (inode_bitmap sb) /\
  start_block (inode_table sb) = start_block (block_bitmap sb) + block_count (block_bitmap sb) /\ start_block (inode_table sb) < js sb /\ js sb + 5 <= ds /\ ds <= total_blocks sb /\
  0 < block_count (inode_bitmap sb) /\ 0 < block_count (block_bitmap sb) /\ u32 (total_blocks sb).
Proof.
  pose proof data_bounds as DB. destruct Hlay as [G A B C D E F H I]. destruct G as [Hty G1 G2 G3 G4]. destruct DB as (D1 & D2 & D3 & D4 & D5). conj_split; try done; try lia.
Qed.

Lemma geometry_placed entries g : u32 entries -> BuildRequestLedgerGeometry sb entries = Ok g ->
  placed sb g /\ entry_count g = entries.
Proof.
  intros He H. unfold BuildRequestLedgerGeometry in H. cbv zeta in H.
  destruct (Z.eqb_spec entries 0) as [->|Hne]; [injection H as <-; by split|].
  change kEntriesPerBlock with 32 in H. change kMaximumFileBlocks with 1036 in H. change kRequestLedgerInodeNumber with 2 in H.
  change kDirectBlockCount with 12 in H. change kRequestLedgerRecordSize with 128 in H.
  destruct data_bounds as (D1 & D2 & D3 & D4 & D5). pose proof (Z.div_mod entries 32 ltac:(lia)).
  assert (u32 (ds + 1) \/ total_blocks sb <= ds + 1) as Hw by word. guards H. all: injection H as <-; (split; [|done]); intros _.
  all: rewrite (wrap32_small (ds + 1)) by word; constructor.
  all: cbn [data_block_count entry_count root_directory_block first_data_block lg_indirect_block file_size].
  all: try match goal with |- context [12 <? ?n] => destruct (Z.ltb_spec 12 n) end; try lia.
  all: try (rewrite wrap32_small by word; lia).
  all: pose proof (Z.div_pos entries 32 ltac:(word) ltac:(lia)); lia.
Qed.

Context (g : RequestLedgerGeometry) (Hp : placed sb g).

Lemma placed_blocks : enabled g = true -> ledger_blocks g = map (fun l => ds + 1 + l) (counting (data_block_count g)).
Proof.
  intros He. destruct (Hp He) as [P1 _ _ _ P5 _ P7 _]. destruct data_bounds as (D1 & D2 & D3 & D4 & D5).
  unfold ledger_blocks. apply map_ext_in. intros l Hl%list_elem_of_In%elem_counting. rewrite P5. apply wrap32_small.
  destruct (12 <? _) in P7; word.
Qed.

(** ** The inode bitmap *)
Lemma inode_capacity : length (zeros (region_bytes_size (inode_bitmap sb))) = Z.to_nat (block_count (inode_bitmap sb) * 4096) /\
  0 < total_inodes sb <= block_count (inode_bitmap sb) * 32768.
Proof.
  split; [apply length_replicate|]. pose proof (lay_ib_size _ Hlay). pose proof (lay_root _ Hlay). lia.
Qed.

Lemma length_inode_bitmap : Z.of_nat (length (new_inode_bitmap sb g)) = block_count (inode_bitmap sb) * 4096.
Proof.
  destruct inode_capacity as [H1 H2]. unfold new_inode_bitmap. cbv zeta.
  rewrite length_ReserveBitmapTail; destruct (enabled g); rewrite ?length_SetBit, ?H1; lia.
Qed.

Lemma bytes_ok_inode_bitmap : bytes_ok (new_inode_bitmap sb g).
Proof.
  unfold new_inode_bitmap. cbv zeta. apply bytes_ok_tail. destruct (enabled g); rewrite !set_bitmap_bit; repeat apply bytes_ok_SetBit; apply bytes_ok_zeros.
Qed.

Lemma inode_bit bit : root_inode sb = 1 -> 0 <= bit < block_count (inode_bitmap sb) * 32768 ->
  TestBit (new_inode_bitmap sb g) bit = (total_inodes sb <=? bit) || (bit =? 0) || (enabled g && (bit =? 1)).
Proof.
  intros Hr Hb. destruct inode_capacity as [H1 H2]. pose proof (lay_ib_size _ Hlay) as [H3 _].
  unfold new_inode_bitmap. cbv zeta. rewrite Hr. change (wrap32 (1 - 1)) with 0. change (kRequestLedgerInodeNumber - 1) with 1.
  rewrite TestBit_tail; [|lia|destruct (enabled g); rewrite ?length_SetBit, H1; lia|].
  2:{ unfold in_bitmap. destruct (enabled g); rewrite ?length_SetBit, H1; lia. }
  rewrite <- orb_assoc. f_equal. destruct (enabled g); rewrite !set_bitmap_bit; cbn [andb]; repeat rewrite TestBit_SetBit;
    unfold in_bitmap; rewrite ?length_SetBit, ?H1, ?TestBit_zeros; try lia; destruct (bit =? 0), (bit =? 1); done.
Qed.

(** ** The block bitmap *)
(** The blocks the ledger and its directory take. *)
Definition ledger_taken : list Z :=
  if enabled g then ds :: ledger_blocks g ++ (if lg_indirect_block g =? 0 then [] else [lg_indirect_block g]) else [].

Lemma taken_range b : b ∈ ledger_taken -> ds <= b < total_blocks sb.
Proof.
  unfold ledger_taken. destruct (enabled g) eqn:He; [|by intros ?%not_elem_of_nil].
  destruct (Hp He) as [P1 _ _ _ P5 P6 P7 _]. destruct data_bounds as (D1 & D2 & D3 & D4 & D5).
  rewrite placed_blocks by done. rewrite elem_of_cons, elem_of_app, list_elem_of_fmap, P6. destruct (Z.ltb_spec 12 (data_block_count g)).
  - rewrite (proj2 (Z.eqb_neq _ _)) by lia. rewrite list_elem_of_singleton. intros [->|[(l & -> & Hl%elem_counting)| ->]]; lia.
  - rewrite elem_of_nil. intros [->|[(l & -> & Hl%elem_counting)|[]]]; lia.
Qed.

Lemma block_capacity : length (zeros (region_bytes_size (block_bitmap sb))) = Z.to_nat (block_count (block_bitmap sb) * 4096) /\
  total_blocks sb <= block_count (block_bitmap sb) * 32768 /\ 0 < block_count (block_bitmap sb).
Proof. split; [apply length_replicate|]. pose proof (lay_bb_size _ Hlay). lia. Qed.

Lemma new_block_bitmap_eq : new_block_bitmap sb g =
  ReserveBitmapTail (foldl SetBitmapBit (SetBitmapPrefix (zeros (region_bytes_size (block_bitmap sb))) ds) ledger_taken) (total_blocks sb).
Proof.
  unfold new_block_bitmap, ledger_taken. cbv zeta. destruct (enabled g) eqn:He; [|done]. rewrite (lp_root _ _ (Hp He)).
  cbn [foldl]. rewrite foldl_app. by destruct (lg_indirect_block g =? 0).
Qed.

Lemma length_prefix_bits l : length (foldl SetBitmapBit (SetBitmapPrefix (zeros (region_bytes_size (block_bitmap sb))) ds) l) =
  Z.to_nat (block_count (block_bitmap sb) * 4096).
Proof.
  destruct block_capacity as (H1 & H2 & H3). destruct data_bounds as (D1 & D2 & _).
  rewrite length_set_bits, length_SetBitmapPrefix; rewrite ?H1; lia.
Qed.

Lemma length_block_bitmap : Z.of_nat (length (new_block_bitmap sb g)) = block_count (block_bitmap sb) * 4096.
Proof.
  destruct block_capacity as (H1 & H2 & H3). destruct data_bounds as (D1 & D2 & _).
  rewrite new_block_bitmap_eq, length_ReserveBitmapTail; rewrite ?length_prefix_bits; lia.
Qed.

Lemma bytes_ok_block_bitmap : bytes_ok (new_block_bitmap sb g).
Proof. rewrite new_block_bitmap_eq. apply bytes_ok_tail, bytes_ok_set_bits, bytes_ok_prefix, bytes_ok_zeros. Qed.

Lemma block_bit bit : 0 <= bit < block_count (block_bitmap sb) * 32768 ->
  TestBit (new_block_bitmap sb g) bit = (total_blocks sb <=? bit) || bool_decide (bit ∈ ledger_taken) || (bit <? ds).
Proof.
  intros Hb. destruct block_capacity as (H1 & H2 & H3). destruct data_bounds as (D1 & D2 & _).
  rewrite new_block_bitmap_eq, TestBit_tail; unfold in_bitmap; rewrite ?length_prefix_bits; try lia.
  rewrite <- orb_assoc. f_equal. rewrite TestBit_set_bits; [|apply Forall_forall|lia].
  - f_equal. apply TestBit_prefix; unfold region_bytes_size, kBlockSize; lia.
  - intros x Hx%taken_range. unfold in_bitmap. rewrite length_SetBitmapPrefix; rewrite ?H1; lia.
Qed.
End placement.

(** The writes of a format: which blocks a positioned write touches, a judgement
    for sequences of writes, and what a crash can leave of the host file. *)
Open Scope mkfs_scope.

Definition wf_blocks (d : image) : Prop := forall k b, d !! k = Some b -> block_wf b.

Lemma wf_block_of d k : wf_blocks d -> block_wf (block_of d k).
Proof. intros H. unfold block_of. destruct (d !! k) eqn:E; [by eapply H|apply zero_block_wf]. Qed.

Lemma wf_insert_all d l : wf_blocks d -> Forall (fun p => block_wf p.2) l -> wf_blocks (insert_all l d).
Proof.
  intros Hd Hl. revert d Hd. induction Hl as [|[k b] l Hb _ IH]; intros d Hd; [done|]. apply IH. intros k' b'.
  rewrite lookup_insert_Some. intros [[_ <-]|[_ H]]; [done|by eapply Hd].
Qed.

(** * Touched blocks *)
Lemma touches_part d k off b : 0 <= off -> off + Z.of_nat (length b) <= kBlockSize -> b <> [] ->
  touches d (at_block k + off) b = [(k, splice (Z.to_nat off) b (block_of d k))].
Proof.
  intros Ho Hl Hb. unfold touches. rewrite Nat.add_comm. change (2 + ?n)%nat with (S (S n)). destruct b as [|x b]; [done|].
  unfold at_block. cbn [touched]. assert (off < kBlockSize) by (cbn [length] in Hl; lia).
  replace ((k * kBlockSize + off) / kBlockSize) with k by (symmetry; rewrite Z.add_comm, Z.div_add, Z.div_small by (unfold kBlockSize in *; lia); lia).
  replace ((k * kBlockSize + off) mod kBlockSize) with off by (symmetry; rewrite Z.add_comm, Z.mod_add, Z.mod_small by (unfold kBlockSize in *; lia); lia).
  pose proof BlockLen_Z as HB. unfold kBlockSize in Hl.
  rewrite take_ge, drop_ge by lia. done.
Qed.

Lemma touches_block d k b : wf_blocks d -> length b = BlockLen -> touches d (at_block k) b = [(k, b)].
Proof.
  intros Hd Hl. pose proof BlockLen_Z as HB. rewrite <- (Z.add_0_r (at_block k)), touches_part; [|lia|unfold kBlockSize; lia|by intros ->].
  destruct (wf_block_of d k Hd) as [Hlen _]. unfold splice. cbn [Z.to_nat take app]. rewrite Hl, drop_ge, app_nil_r by lia. done.
Qed.

Lemma touched_region d n : wf_blocks d -> forall fuel k b, (n < fuel)%nat -> length b = (n * BlockLen)%nat ->
  touched fuel d (at_block k) b = map (fun i => (k + Z.of_nat i, slice (i * BlockLen) BlockLen b)) (seq 0 n).
Proof.
  intros Hd. pose proof BlockLen_Z as HB. induction n as [|n IH]; intros fuel k b Hf Hl.
  - apply nil_length_inv in Hl as ->. by destruct fuel.
  - destruct fuel as [|fuel]; [lia|]. destruct b as [|x b']; [cbn in Hl; lia|]. remember (x :: b') as b eqn:Eb.
    assert (touched (S fuel) d (at_block k) b =
      (k, take BlockLen b) :: touched fuel d (at_block (k + 1)) (drop BlockLen b)) as ->.
    { rewrite Eb at 1. cbn [touched]. rewrite <- Eb. unfold at_block. rewrite Z.mod_mul, Z.div_mul by done.
      change (Z.to_nat 0) with 0%nat. rewrite Nat.sub_0_r.
      assert (length (take BlockLen b) = BlockLen) as Ht by (rewrite length_take; lia).
      destruct (wf_block_of d k Hd) as [Hlen _]. unfold splice. rewrite Ht. cbn [take app Nat.add].
      fold (block_of d k). rewrite (drop_ge (block_of d k)), app_nil_r by lia. do 2 f_equal. unfold kBlockSize. lia. }
    rewrite (IH fuel (k + 1) (drop BlockLen b)); [|lia|rewrite length_drop; lia]. cbn [seq map]. f_equal.
    + f_equal. lia.
    + rewrite <- seq_shift, map_map. apply map_ext. intros i. f_equal; [lia|]. unfold slice. rewrite drop_drop. do 2 f_equal.
Qed.

(** The writes of a bitmap to its region. *)
Definition region_writes (start count : Z) (b : bytes) : list (Z * bytes) :=
  map (fun i => (start + i, BitmapBlock b i)) (counting count).

Lemma touches_region d start count b : wf_blocks d -> Z.of_nat (length b) = count * 4096 ->
  touches d (at_block start) b = region_writes start count b.
Proof.
  intros Hd Hl. pose proof BlockLen_Z as HB. unfold touches, region_writes, counting.
  rewrite (touched_region d (Z.to_nat count) Hd).
  - rewrite map_map. apply map_ext. intros i. f_equal. unfold BitmapBlock. f_equal. unfold kBlockSize. lia.
  - replace (length b) with (Z.to_nat count * BlockLen)%nat by nia. rewrite Nat.div_mul by lia. lia.
  - nia.
Qed.

Lemma region_writes_wf start count b : Z.of_nat (length b) = count * 4096 -> bytes_ok b ->
  Forall (fun p => block_wf p.2) (region_writes start count b).
Proof.
  intros Hl Hb. apply Forall_fmap, Forall_forall. intros i Hi%elem_counting. cbn. unfold BitmapBlock, block_wf.
  split; [|by apply bytes_ok_slice]. pose proof BlockLen_Z. apply length_slice. unfold kBlockSize. lia.
Qed.

Lemma elem_region_writes start count b k : k ∈ (region_writes start count b).*1 <-> start <= k < start + count.
Proof.
  unfold region_writes. rewrite <- list_fmap_compose, list_elem_of_fmap. split.
  - intros (i & -> & Hi%elem_counting). cbn. lia.
  - intros H. exists (k - start). split; [cbn; lia|]. apply elem_counting. lia.
Qed.

Lemma touched_prefix d fuel : forall fuel' off w b, (fuel <= fuel')%nat ->
  (touched fuel d off (take w b)).*1 `prefix_of` (touched fuel' d off b).*1.
Proof.
  induction fuel as [|fuel IH]; intros fuel' off w b Hf; [apply prefix_nil|].
  destruct fuel' as [|fuel']; [lia|]. destruct w as [|w]; [apply prefix_nil|]. destruct b as [|x b]; [apply prefix_nil|].
  change (take (S w) (x :: b)) with (x :: take w b). cbn [touched]. rewrite !fmap_cons. cbn [fst].
  apply prefix_cons. set (m := (BlockLen - _)%nat). change (x :: take w b) with (take (S w) (x :: b)).
  destruct (decide (S w <= m)%nat) as [Hs|Hb].
  - rewrite (drop_ge (take (S w) (x :: b))) by (rewrite length_take; lia). destruct fuel; apply prefix_nil.
  - replace (length (take m (take (S w) (x :: b)))) with (length (take m (x :: b))) by (rewrite take_take; do 2 f_equal; lia).
    rewrite skipn_firstn_comm. apply IH. lia.
Qed.

Lemma touches_prefix d off w b k : k ∈ (touches d off (take w b)).*1 -> k ∈ (touches d off b).*1.
Proof.
  intros Hk. destruct (touched_prefix d (length (take w b) / BlockLen + 2) (length b / BlockLen + 2) off w b) as [rest E].
  - apply Nat.add_le_mono_r, Nat.Div0.div_le_mono. rewrite length_take. lia.
  - unfold touches in *. rewrite E. apply elem_of_app. by left.
Qed.

(** * Sequences of writes *)
Definition on_blocks (P : Z -> Prop) (ev : file_event) : Prop :=
  match ev with FWrite k _ | FTorn k => P k | FResize _ | FSync => False end.

Definition wrote (l : list (Z * bytes)) : list file_event := map (fun p => FWrite p.1 p.2) l.

(** From content [d] the program writes the blocks [l], or fails having touched
    only blocks of [l]; with well-behaved system calls it does not fail. *)
Definition writes_from {A} (m : fio A) (d : image) (l : list (Z * bytes)) : Prop := forall f, f_blocks f = d ->
  let '(f', r) := m f in
  f_linked f' = f_linked f /\ (f_script f = [] -> is_ok r = true /\ f_script f' = []) /\
  match r with
  | Ok _ => f_blocks f' = insert_all l d /\ f_trace f' = f_trace f ++ wrote l /\
      ((forall k, k ∈ l.*1 -> (k + 1) * kBlockSize <= f_size f) -> f_size f' = f_size f)
  | Err _ => exists t, f_trace f' = f_trace f ++ t /\ Forall (on_blocks (.∈ l.*1)) t
  end.

Lemma wrote_app l1 l2 : wrote (l1 ++ l2) = wrote l1 ++ wrote l2.
Proof. apply map_app. Qed.

Lemma wrote_on l (P : Z -> Prop) : (forall k, k ∈ l.*1 -> P k) -> Forall (on_blocks P) (wrote l).
Proof. intros H. apply Forall_fmap, Forall_forall. intros [k b] Hk. apply H. by apply (list_elem_of_fmap_2 fst) in Hk. Qed.

Lemma on_blocks_mono (P Q : Z -> Prop) t : (forall k, P k -> Q k) -> Forall (on_blocks P) t -> Forall (on_blocks Q) t.
Proof. intros H Ht. eapply Forall_impl; [exact Ht|]. intros [k c|k|n|]; cbn; eauto. Qed.

Lemma writes_ret {A} (a : A) d : writes_from (fret a) d [].
Proof. intros f Hf. cbn. rewrite app_nil_r. done. Qed.

Lemma writes_bind {A B} (m : fio A) (k : A -> fio B) d l1 l2 :
  writes_from m d l1 -> (forall a, writes_from (k a) (insert_all l1 d) l2) -> writes_from (fbind m k) d (l1 ++ l2).
Proof.
  intros H1 H2 f Hf. unfold fbind. specialize (H1 f Hf). destruct (m f) as [f1 [a|er]] eqn:E.
  - destruct H1 as (L1 & S1 & D1 & T1 & Z1). specialize (H2 a f1 D1). destruct (k a f1) as [f2 r].
    destruct H2 as (L2 & S2 & R2). split; [congruence|]. split; [intros Hs; apply S2, S1, Hs|].
    destruct r as [b|er].
    + destruct R2 as (D2 & T2 & Z2). rewrite insert_all_app, wrote_app, fmap_app. split; [done|].
      split; [by rewrite T2, T1, <- app_assoc|]. intros Hk. rewrite Z2, Z1; [done| |].
      * intros x Hx. apply Hk, elem_of_app. by left.
      * intros x Hx. rewrite Z1; [apply Hk, elem_of_app; by right|]. intros y Hy. apply Hk, elem_of_app. by left.
    + destruct R2 as (t & T2 & F2). exists (wrote l1 ++ t). split; [by rewrite T2, T1, <- app_assoc|].
      rewrite fmap_app. apply Forall_app. split; [apply wrote_on; intros x Hx; apply elem_of_app; by left|].
      eapply on_blocks_mono; [|exact F2]. intros x Hx. apply elem_of_app. by right.
  - destruct H1 as (L1 & S1 & t & T1 & F1). split; [done|]. split; [intros Hs; by destruct (S1 Hs)|].
    exists t. split; [done|]. eapply on_blocks_mono; [|exact F1]. intros x Hx. rewrite fmap_app. apply elem_of_app. by left.
Qed.

Lemma writes_seq {A B} (m : fio A) (m' : fio B) d l1 l2 :
  writes_from m d l1 -> writes_from m' (insert_all l1 d) l2 -> writes_from (m ;; m') d (l1 ++ l2).
Proof. intros H1 H2. by apply writes_bind. Qed.

Lemma pwrite_loop_ok script : forall size written rest w r, mkfs_pwrite_loop size written script = (rest, w, r) ->
  (is_ok r = true -> size <= w) /\ (script = [] -> is_ok r = true /\ rest = []).
Proof.
  induction script as [|[n|e] script IH]; intros size written rest w r; cbn [mkfs_pwrite_loop]; destruct (Z.leb_spec size written).
  1-3: intros [= <- <- <-]; split; [intros; lia|done].
  - destruct (n <? 0); [intros [= <- <- <-]; done|]. destruct (n =? 0); [intros [= <- <- <-]; done|].
    intros E%IH. split; [apply E|done].
  - intros [= <- <- <-]. split; [lia|done].
  - destruct e; try (intros [= <- <- <-]; done). intros E%IH. split; [apply E|done].
Qed.

Lemma touched_covers d fuel : forall off b, 0 <= off -> b <> [] ->
  off mod kBlockSize + Z.of_nat (length b) <= Z.of_nat fuel * kBlockSize ->
  exists k, k ∈ (touched fuel d off b).*1 /\ off + Z.of_nat (length b) <= (k + 1) * kBlockSize.
Proof.
  pose proof BlockLen_Z as HB. change kBlockSize with 4096.
  induction fuel as [|fuel IH]; intros off b Ho Hb Hf; pose proof (Z.mod_pos_bound off 4096 ltac:(lia)); pose proof (Z.div_mod off 4096 ltac:(lia)).
  { destruct b; [done|]. cbn [length] in Hf. lia. }
  destruct b as [|x b']; [done|]. cbn [touched]. remember (x :: b') as b eqn:Eb. change kBlockSize with 4096.
  set (m := (BlockLen - Z.to_nat (off mod 4096))%nat). destruct (decide (length b <= m)%nat) as [Hs|Hg].
  - exists (off / 4096). split; [rewrite fmap_cons; by left|]. lia.
  - assert (length (take m b) = m) as Hm by (rewrite length_take; lia). rewrite Hm.
    assert (off + Z.of_nat m = (off / 4096 + 1) * 4096) as Hnext by (unfold m; lia).
    destruct (IH (off + Z.of_nat m) (drop m b)) as (k & Hk & Hle); [lia| | |].
    + intros E%(f_equal length). rewrite length_drop in E. cbn in E. lia.
    + rewrite Hnext, Z.mod_mul by lia. rewrite length_drop. lia.
    + exists k. split; [rewrite fmap_cons; by right|]. rewrite length_drop in Hle. lia.
Qed.

Lemma touches_covers d off b : 0 <= off -> b <> [] ->
  exists k, k ∈ (touches d off b).*1 /\ off + Z.of_nat (length b) <= (k + 1) * kBlockSize.
Proof.
  intros Ho Hb. apply touched_covers; [done|done|]. pose proof BlockLen_Z as HB. change kBlockSize with 4096.
  pose proof (Z.mod_pos_bound off 4096 ltac:(lia)). pose proof (Nat.div_mod_eq (length b) BlockLen).
  pose proof (Nat.mod_upper_bound (length b) BlockLen ltac:(lia)). nia.
Qed.

Lemma writes_pwrite d off b : 0 <= off -> b <> [] -> writes_from (MkfsPwriteAll b off) d (touches d off b).
Proof.
  intros Ho Hb f Hf. unfold MkfsPwriteAll. destruct (mkfs_pwrite_loop _ _ _) as [[rest w] r] eqn:E.
  apply pwrite_loop_ok in E as [E1 E2]. cbn [f_linked f_script f_trace f_blocks f_size set_content set_script]. rewrite Hf.
  split; [done|]. split; [done|]. destruct r as [[]|er].
  - specialize (E1 eq_refl). rewrite take_ge by lia. rewrite app_nil_r. split; [done|]. split; [done|].
    intros Hk. destruct (touches_covers d off b Ho Hb) as (k & Hin & Hle). specialize (Hk k Hin). lia.
  - eexists. split; [done|]. apply Forall_app. split.
    + apply wrote_on. intros k Hk. by apply touches_prefix in Hk.
    + apply Forall_fmap, Forall_forall. intros p Hp. by apply (list_elem_of_fmap_2 fst) in Hp.
Qed.

(** ** The shapes of write a format makes *)
Lemma writes_block d k b : 0 <= k -> wf_blocks d -> length b = BlockLen -> writes_from (MkfsPwriteAll b (at_block k)) d [(k, b)].
Proof.
  intros Hk Hd Hl. rewrite <- (touches_block d k b) by done. apply writes_pwrite; [unfold at_block, kBlockSize; lia|]. by intros ->.
Qed.

Lemma writes_part d k off b : 0 <= k -> 0 <= off -> off + Z.of_nat (length b) <= kBlockSize -> b <> [] ->
  writes_from (MkfsPwriteAll b (at_block k + off)) d [(k, splice (Z.to_nat off) b (block_of d k))].
Proof.
  intros Hk Ho Hl Hb. rewrite <- (touches_part d k off b) by done. apply writes_pwrite; [unfold at_block, kBlockSize; lia|done].
Qed.

Lemma writes_region d start count b : 0 <= start -> 0 < count -> wf_blocks d -> Z.of_nat (length b) = count * 4096 ->
  writes_from (MkfsPwriteAll b (at_block start)) d (region_writes start count b).
Proof.
  intros Hs Hc Hd Hl. rewrite <- (touches_region d start count b) by done.
  apply writes_pwrite; [unfold at_block, kBlockSize; lia|]. intros ->. cbn in Hl. lia.
Qed.

Lemma writes_each d l b : Forall (Z.le 0) l -> wf_blocks d -> block_wf b ->
  writes_from (fio_each (fun k => MkfsPwriteAll b (at_block k)) l) d (map (.,b) l).
Proof.
  intros Hl. revert d. induction Hl as [|k l Hk _ IH]; intros d Hd Hb; [apply writes_ret|]. cbn [fio_each map].
  change ((k, b) :: map (.,b) l) with ([(k, b)] ++ map (.,b) l). apply writes_seq; [apply writes_block; [done..|apply Hb]|].
  apply IH; [|done]. apply wf_insert_all; [done|]. by constructor.
Qed.
