(* ===== verification/MkfsFormat.v ===== *)
(** Formatting as a sequence of durable states: what [FormatImage] leaves on
    success, on failure and after a crash at any point. *)
From S2P Require Import Prelude Codec OndiskFormat OndiskFormatProofs OndiskJournal OndiskJournalProofs Disk.
From S2P Require Import JournalImage BitmapAllocator RequestLedger ImageReader ImageReaderProofs LedgerStore.
From S2P Require Import FileMutation ConsistentImage PlanProofs Mkfs MkfsBitmaps.
Open Scope Z_scope.
Open Scope mkfs_scope.

(** * What a crash can leave *)
(** The content seen through the page cache, the contents each block may have
    after a crash, and the blocks a failed write was to change. A block whose
    write is not yet synced may have any content at all. *)
Record host_view := mkHostView {
  hv_live : image;
  hv_may : Z -> option bytes -> Prop;
  hv_torn : list Z
}.

Definition host_settle (v : host_view) (ev : file_event) : host_view :=
  match ev with
  | FWrite k b => mkHostView (<[k := b]> (hv_live v)) (fun blk x => hv_may v blk x \/ (blk = k /\ is_Some x)) (hv_torn v)
  | FTorn k => mkHostView (hv_live v) (fun blk x => hv_may v blk x \/ (blk = k /\ is_Some x)) (k :: hv_torn v)
  | FResize n => mkHostView (resized n (hv_live v))
      (fun blk x => hv_may v blk x \/ exists y, hv_may v blk y /\
         x = if (0 <=? blk) && (blk <? n) then Some (default zero_block y) else None) (hv_torn v)
  | FSync => mkHostView (hv_live v) (fun blk x => x = hv_live v !! blk \/ (blk ∈ hv_torn v /\ is_Some x)) (hv_torn v)
  end.

Definition host_start (d : image) : host_view := mkHostView d (fun blk x => x = d !! blk) [].
Definition host_state (d : image) (t : list file_event) : host_view := foldl host_settle (host_start d) t.
Definition host_crash (d : image) (t : list file_event) (c : image) : Prop :=
  forall blk, hv_may (host_state d t) blk (c !! blk).

(** Everything written is durable. *)
Definition exactly (v : host_view) (d : image) : Prop :=
  hv_live v = d /\ hv_torn v = [] /\ forall blk x, hv_may v blk x -> x = d !! blk.

Lemma lookup_resized n d blk : resized n d !! blk = if (0 <=? blk) && (blk <? n) then Some (default zero_block (d !! blk)) else None.
Proof.
  unfold resized. destruct (Z.leb_spec 0 blk), (Z.ltb_spec blk n); cbn [andb].
  1: { apply elem_of_list_to_map.
       - rewrite <- list_fmap_compose. change (fst ∘ _) with (fun k : Z => k). rewrite list_fmap_id. unfold counting.
         apply NoDup_fmap_2; [intros ?? ?; lia|apply NoDup_seq].
       - apply list_elem_of_fmap. exists blk. split; [done|]. by apply elem_counting. }
  all: apply not_elem_of_list_to_map; rewrite list_elem_of_fmap; intros ([k b] & -> & Hk);
    apply list_elem_of_fmap in Hk as (i & [= -> ->] & Hi%elem_counting); cbn in *; lia.
Qed.

(** What is seen through the page cache may also be what a crash leaves. *)
Lemma live_may_stay d t : host_crash d t (hv_live (host_state d t)).
Proof.
  unfold host_crash, host_state. induction t as [|ev t IH] using rev_ind; intros blk; [done|]. rewrite foldl_app. cbn [foldl]. specialize (IH blk).
  destruct ev as [k b|k|n|]; cbn [host_settle hv_live hv_may].
  - destruct (decide (blk = k)) as [->|Hne]; [right; rewrite lookup_insert_eq; by split|left; by rewrite lookup_insert_ne].
  - by left.
  - right. eexists. split; [exact IH|]. apply lookup_resized.
  - by left.
Qed.

Lemma settle_away (P : Z -> Prop) t v : Forall (on_blocks P) t -> forall blk, ~ P blk ->
  (forall x, hv_may (foldl host_settle v t) blk x <-> hv_may v blk x) /\
  hv_live (foldl host_settle v t) !! blk = hv_live v !! blk.
Proof.
  intros Ht. revert v. induction Ht as [|ev t Hev _ IH]; intros v blk Hb; [done|]. cbn [foldl].
  destruct (IH (host_settle v ev) blk Hb) as [H1 H2]. destruct ev as [k b|k| |]; cbn in Hev; [| |done|done]; cbn [host_settle hv_may hv_live] in *.
  - assert (blk <> k) by congruence. split; [intros x; rewrite H1; tauto|]. by rewrite H2, lookup_insert_ne.
  - assert (blk <> k) by congruence. split; [intros x; rewrite H1; tauto|done].
Qed.

Lemma settle_wrote l v : hv_live (foldl host_settle v (wrote l)) = insert_all l (hv_live v) /\
  hv_torn (foldl host_settle v (wrote l)) = hv_torn v.
Proof. revert v. induction l as [|[k b] l IH]; intros v; [done|]. cbn [wrote map foldl]. apply (IH (host_settle v (FWrite k b))). Qed.

Lemma prefix_app_cases {A} (p t1 t2 : list A) : p `prefix_of` t1 ++ t2 ->
  p `prefix_of` t1 \/ exists p2, p = t1 ++ p2 /\ p2 `prefix_of` t2.
Proof.
  intros [q E]. symmetry in E. apply app_eq_app in E as (l & [[-> ->]|[-> ->]]).
  - right. exists l. split; [done|]. by exists q.
  - left. by exists l.
Qed.

(** * A judgement with a crash condition *)
Section judgement.
Context (d0 : image) (Safe : host_view -> Prop).

Definition safe_run {A} (m : fio A) (Pre : host_file -> Prop) (Post : A -> host_file -> Prop) : Prop := forall f, Pre f ->
  let '(f', r) := m f in
  f_linked f' = f_linked f /\ (f_script f = [] -> is_ok r = true /\ f_script f' = []) /\
  exists t, f_trace f' = f_trace f ++ t /\
    (forall p, p `prefix_of` t -> p <> [] -> Safe (host_state d0 (f_trace f ++ p))) /\
    match r with Ok a => Post a f' | Err _ => True end.

Lemma safe_ret {A} (a : A) Pre Post : (forall f, Pre f -> Post a f) -> safe_run (fret a) Pre Post.
Proof.
  intros H f Hf. cbn. split; [done|]. split; [done|]. exists []. split; [by rewrite app_nil_r|]. split; [|by apply H].
  intros p Hp Hne. by apply prefix_nil_inv in Hp.
Qed.

Lemma safe_bind {A B} (m : fio A) (k : A -> fio B) Pre Mid Post :
  safe_run m Pre Mid -> (forall a, safe_run (k a) (Mid a) Post) -> safe_run (fbind m k) Pre Post.
Proof.
  intros H1 H2 f Hf. unfold fbind. specialize (H1 f Hf). destruct (m f) as [f1 [a|er]]; [|destruct H1 as (L1 & N1 & H1); split; [done|]; split; [intros Hn; by destruct (N1 Hn)|done]].
  destruct H1 as (L1 & N1 & t1 & T1 & S1 & P1). specialize (H2 a f1 P1). destruct (k a f1) as [f2 r].
  destruct H2 as (L2 & N2 & t2 & T2 & S2 & P2). split; [congruence|]. split; [tauto|]. exists (t1 ++ t2).
  split; [by rewrite T2, T1, app_assoc|]. split; [|done].
  intros p Hp Hne. apply prefix_app_cases in Hp as [Hp|(p2 & -> & Hp2)]; [by apply S1|].
  destruct p2 as [|x p2]; [rewrite app_nil_r in *; by apply S1|]. specialize (S2 (x :: p2) Hp2 ltac:(done)).
  by rewrite T1, <- app_assoc in S2.
Qed.

Lemma safe_pre {A} (m : fio A) (Pre Pre' : host_file -> Prop) Post : (forall f, Pre' f -> Pre f) -> safe_run m Pre Post -> safe_run m Pre' Post.
Proof. intros H Hm f Hf. by apply Hm, H. Qed.

Lemma safe_post {A} (m : fio A) Pre (Post Post' : A -> host_file -> Prop) : (forall a f, Post a f -> Post' a f) -> safe_run m Pre Post -> safe_run m Pre Post'.
Proof.
  intros H Hm f Hf. specialize (Hm f Hf). destruct (m f) as [f' [a|er]]; [|done]. destruct Hm as (L & N & t & T & S & P).
  split; [done|]. split; [done|]. exists t. split; [done|]. split; [done|]. by apply H.
Qed.

(** A step that makes no change to the file. *)
Lemma safe_call op (Pre : host_file -> Prop) : (forall f s, Pre f -> Pre (set_script f s)) -> safe_run (host_call op) Pre (fun _ => Pre).
Proof.
  intros H f Hf. unfold host_call. assert (forall r : result mkfs_error unit, forall f', f' = f \/ (exists s, f' = set_script f s) ->
    (f_script f = [] -> is_ok r = true /\ f_script f' = []) ->
    f_linked f' = f_linked f /\ (f_script f = [] -> is_ok r = true /\ f_script f' = []) /\ exists t, f_trace f' = f_trace f ++ t /\
    (forall p, p `prefix_of` t -> p <> [] -> Safe (host_state d0 (f_trace f ++ p))) /\ match r with Ok _ => Pre f' | Err _ => True end) as Hd.
  { intros r f' Hf' Hs. assert (Pre f' /\ f_trace f' = f_trace f /\ f_linked f' = f_linked f) as (H1 & H2 & H3)
      by (destruct Hf' as [->|[s ->]]; [done|]; split; [by apply H|done]).
    split; [done|]. split; [done|]. exists []. split; [by rewrite app_nil_r|]. split; [intros p Hp Hne; by apply prefix_nil_inv in Hp|by destruct r]. }
  destruct (f_script f) as [|[n|e] rest] eqn:Es;
    [apply (Hd (Ok tt) f)|apply (Hd (Ok tt) (set_script f rest))|apply (Hd (Err (SystemError op e)) (set_script f rest))];
    first [done|by left|right; by exists rest].
Qed.

Lemma safe_codec {A B} (r : result string A) a (k : A -> fio B) Pre Post : r = Ok a ->
  safe_run (k a) Pre Post -> safe_run (fbind (of_codec r) k) Pre Post.
Proof. intros ->. done. Qed.

(** A sequence of writes after which, and during which, [Safe] holds because
    it holds of any state that differs in the written blocks only. *)
Lemma safe_writes {A} (m : fio A) (Pre : host_file -> Prop) (Post : A -> host_file -> Prop) l :
  (forall f, Pre f -> writes_from m (f_blocks f) l) ->
  (forall f t, Pre f -> t <> [] -> Forall (on_blocks (.∈ l.*1)) t -> Safe (foldl host_settle (host_state d0 (f_trace f)) t)) ->
  (forall f f' a, Pre f -> m f = (f', Ok a) -> f_blocks f' = insert_all l (f_blocks f) -> f_trace f' = f_trace f ++ wrote l ->
     ((forall k, k ∈ l.*1 -> (k + 1) * kBlockSize <= f_size f) -> f_size f' = f_size f) -> Post a f') ->
  safe_run m Pre Post.
Proof.
  intros Hw Hs Hp f Hf. specialize (Hw f Hf f eq_refl). destruct (m f) as [f' r] eqn:E. destruct Hw as (L & S & R). split; [done|].
  split; [done|].
  assert (exists t, f_trace f' = f_trace f ++ t /\ Forall (on_blocks (.∈ l.*1)) t /\ match r with Ok a => Post a f' | Err _ => True end) as (t & T & F & P).
  { destruct r as [a|er].
    - destruct R as (D & T & Z). exists (wrote l). split; [done|]. split; [by apply wrote_on|]. by eapply Hp.
    - destruct R as (t & T & F). by exists t. }
  exists t. split; [done|]. split; [|done]. intros p Hpre Hne. unfold host_state. rewrite foldl_app. apply Hs; [done|done|].
  destruct Hpre as [q ->]. by apply Forall_app in F as [F _].
Qed.

(** A single event. *)
Lemma safe_event op (g : host_file -> host_file) ev (Pre : host_file -> Prop) (Post : host_file -> Prop) :
  (forall f, f_trace (g f) = f_trace f ++ [ev] /\ f_linked (g f) = f_linked f /\ f_script (g f) = f_script f) ->
  (forall f s, Pre f -> Pre (set_script f s)) ->
  (forall f, Pre f -> Safe (host_settle (host_state d0 (f_trace f)) ev)) ->
  (forall f, Pre f -> Post (g f)) ->
  safe_run (host_call op ;; fun f => (g f, Ok tt)) Pre (fun _ => Post).
Proof.
  intros Hg Hs Hsafe Hpost. eapply safe_bind; [by apply safe_call|]. intros _ f Hf. destruct (Hg f) as (G1 & G2 & G3).
  split; [done|]. split; [intros ?; split; [done|congruence]|]. exists [ev]. split; [done|]. split; [|by apply Hpost].
  intros p Hp Hne. assert (p = [ev]) as ->.
  { destruct Hp as [q Hq]. destruct p as [|x p]; [done|]. injection Hq as <- Hq. by destruct p. }
  unfold host_state. rewrite foldl_app. by apply Hsafe.
Qed.
End judgement.

(** * The body of a new image *)
Section body.
Context (sb : Superblock) (Hlay : layout sb) (g : RequestLedgerGeometry) (Hp : placed sb g).
Context (root_bytes control_bytes ledger_bytes directory_bytes : bytes).
Context (Hrb : length root_bytes = InodeLen /\ bytes_ok root_bytes) (Hcb : block_wf control_bytes).
Context (Hlb : length ledger_bytes = InodeLen /\ bytes_ok ledger_bytes) (Hdb : block_wf directory_bytes).

Abbreviation it := (start_block (inode_table sb)).
Abbreviation ds := (start_block (data sb)).

(** The first block of the inode table, before and after the ledger's inode. *)
Definition root_table (old : bytes) : bytes := splice 0 root_bytes old.
Definition ledger_table (old : bytes) : bytes := splice 128 ledger_bytes (root_table old).

Definition ledger_writes (old : bytes) : list (Z * bytes) :=
  if enabled g then
    [(it, ledger_table old)] ++ [(ds, directory_bytes)] ++ map (., zero_block) (ledger_blocks g) ++
    (if negb (lg_indirect_block g =? 0) then [(lg_indirect_block g, ledger_indirect_bytes g)] else [])
  else [].

Definition body_writes (old : bytes) : list (Z * bytes) :=
  region_writes (start_block (inode_bitmap sb)) (block_count (inode_bitmap sb)) (new_inode_bitmap sb g) ++
  region_writes (start_block (block_bitmap sb)) (block_count (block_bitmap sb)) (new_block_bitmap sb g) ++
  [(it, root_table old)] ++ [(js sb, control_bytes)] ++ [(js sb + 1, control_bytes)] ++ ledger_writes old.

(** ** Shapes *)
Lemma indirect_wf : enabled g = true -> block_wf (ledger_indirect_bytes g).
Proof.
  intros He. pose proof BlockLen_Z. unfold ledger_indirect_bytes. split; [|apply bytes_ok_put_words, bytes_ok_zeros].
  unfold zeros in *. rewrite length_put_words; rewrite length_replicate; [done|]. unfold ledger_blocks.
  rewrite length_drop, length_map, length_counting. pose proof (lp_count _ _ (Hp He)). change (Z.to_nat kDirectBlockCount) with 12%nat. lia.
Qed.

Lemma tables_wf old : block_wf old -> block_wf (root_table old) /\ block_wf (ledger_table old).
Proof.
  intros [Hl Ho]. pose proof BlockLen_Z. destruct Hrb as [R1 R2], Hlb as [L1 L2].
  assert (block_wf (root_table old)) as [T1 T2].
  { unfold root_table, InodeLen in *. split; [rewrite length_splice; lia|by apply bytes_ok_splice]. }
  split; [done|]. unfold ledger_table, InodeLen in *. split; [rewrite length_splice; lia|by apply bytes_ok_splice].
Qed.

Lemma body_wf old : block_wf old -> Forall (fun p => block_wf p.2) (body_writes old).
Proof.
  intros Hold. destruct (tables_wf old Hold) as [T1 T2]. unfold body_writes, ledger_writes.
  repeat (apply Forall_app; split); try (by apply Forall_singleton).
  - apply region_writes_wf; [by apply length_inode_bitmap|apply bytes_ok_inode_bitmap].
  - apply region_writes_wf; [by apply length_block_bitmap|by apply bytes_ok_block_bitmap].
  - destruct (enabled g) eqn:He; [|constructor]. repeat (apply Forall_app; split); try (by apply Forall_singleton).
    + apply Forall_fmap, Forall_forall. intros k _. apply zero_block_wf.
    + destruct (negb _); [|constructor]. constructor; [by apply indirect_wf|constructor].
Qed.

(** ** Places *)
Lemma ledger_writes_keys old k : k ∈ (ledger_writes old).*1 -> enabled g = true /\ (k = it \/ k ∈ ledger_taken sb g).
Proof.
  clear Hp Hrb Hcb Hlb Hdb Hlay. unfold ledger_writes, ledger_taken. destruct (enabled g) eqn:He; [|by intros ?%not_elem_of_nil]. intros H. split; [done|]. revert H.
  rewrite !fmap_app, !elem_of_app, elem_of_cons, elem_of_app, <- list_fmap_compose, list_fmap_id.
  cbn [fmap list_fmap fst]. rewrite !list_elem_of_singleton. destruct (_ =? 0); cbn [negb fmap list_fmap fst].
  - rewrite elem_of_nil. tauto.
  - rewrite list_elem_of_singleton. tauto.
Qed.

Lemma body_keys old k : k ∈ (body_writes old).*1 -> 1 <= k < total_blocks sb.
Proof.
  destruct (regions_ordered sb Hlay) as (R1 & R2 & R3 & R4 & R5 & R6 & R7 & R8 & R9).
  unfold body_writes. rewrite !fmap_app, !elem_of_app, !elem_region_writes. cbn [fmap list_fmap fst]. rewrite !list_elem_of_singleton.
  intros [H|[H|[->|[->|[->|H]]]]]; try lia. apply ledger_writes_keys in H as [He [->|H%taken_range]]; [lia|lia|done|done].
Qed.

(** ** The program writes them *)
Definition write_ledger : fio unit :=
  if enabled g then
    MkfsPwriteAll ledger_bytes (at_block it + (kRequestLedgerInodeNumber - 1) * kInodeRecordSize) ;;
    MkfsPwriteAll directory_bytes (at_block (root_directory_block g)) ;;
    fio_each (fun block => MkfsPwriteAll zero_block (at_block block)) (ledger_blocks g) ;;
    (if negb (lg_indirect_block g =? 0)
     then MkfsPwriteAll (ledger_indirect_bytes g) (at_block (lg_indirect_block g)) else fret tt)
  else fret tt.

Lemma write_ledger_writes d old : wf_blocks d -> block_wf old -> block_of d it = root_table old -> writes_from write_ledger d (ledger_writes old).
Proof.
  intros Hd Hold E. destruct (regions_ordered sb Hlay) as (R1 & R2 & R3 & R4 & R5 & R6 & R7 & R8 & R9).
  pose proof BlockLen_Z as HB. destruct Hlb as [Ll Lo]. destruct (tables_wf old Hold) as [T1 T2].
  unfold write_ledger, ledger_writes. destruct (enabled g) eqn:He; [|apply writes_ret].
  assert (Forall (Z.le 0) (ledger_blocks g)) as Hlb0.
  { apply Forall_forall. intros k Hk. assert (k ∈ ledger_taken sb g) as Ht%taken_range; [|lia|done|done].
    unfold ledger_taken. rewrite He. right. apply elem_of_app. by left. }
  pose proof (lp_indirect _ _ (Hp He)) as Hind. rewrite (lp_root _ _ (Hp He)).
  apply writes_seq.
  { change ((kRequestLedgerInodeNumber - 1) * kInodeRecordSize) with 128. unfold ledger_table. rewrite <- E.
    unfold InodeLen in Ll. apply writes_part; [lia|lia|unfold kBlockSize; lia|]. by intros ->. }
  set (d1 := insert_all [_] _). assert (wf_blocks d1) as D1 by (apply wf_insert_all; [done|by apply Forall_singleton]).
  apply writes_seq; [apply writes_block; [lia|done|apply Hdb]|].
  set (d2 := insert_all [_] d1). assert (wf_blocks d2) as D2 by (apply wf_insert_all; [done|by apply Forall_singleton]).
  apply writes_seq; [by apply writes_each; [|done|apply zero_block_wf]|].
  destruct (Z.eqb_spec (lg_indirect_block g) 0) as [E0|E0]; cbn [negb]; [apply writes_ret|].
  apply writes_block; [|apply wf_insert_all; [done|]|by apply indirect_wf].
  - pose proof (lp_count _ _ (Hp He)). destruct (12 <? _); lia.
  - apply Forall_fmap, Forall_forall. intros k _. apply zero_block_wf.
Qed.

Lemma write_body_writes d : wf_blocks d ->
  writes_from (write_body sb g root_bytes control_bytes ledger_bytes directory_bytes) d (body_writes (block_of d it)).
Proof.
  intros Hd. destruct (regions_ordered sb Hlay) as (R1 & R2 & R3 & R4 & R5 & R6 & R7 & R8 & R9).
  pose proof BlockLen_Z as HB. destruct Hrb as [Rl Ro], Hlb as [Ll Lo]. unfold InodeLen in *.
  set (old := block_of d it). assert (block_wf old) as Hold by by apply wf_block_of. destruct (tables_wf old Hold) as [T1 T2].
  unfold write_body, body_writes.
  pose proof (region_writes_wf (start_block (inode_bitmap sb)) _ _ (length_inode_bitmap sb Hlay g) (bytes_ok_inode_bitmap sb g)) as W1.
  pose proof (region_writes_wf (start_block (block_bitmap sb)) _ _ (length_block_bitmap sb Hlay g Hp) (bytes_ok_block_bitmap sb g Hp)) as W2.
  set (l1 := region_writes (start_block (inode_bitmap sb)) _ _) in *. set (l2 := region_writes (start_block (block_bitmap sb)) _ _) in *.
  assert (wf_blocks (insert_all l1 d)) as D1 by by apply wf_insert_all.
  assert (wf_blocks (insert_all l2 (insert_all l1 d))) as D2 by by apply wf_insert_all.
  assert (block_of (insert_all l2 (insert_all l1 d)) it = old) as Eold.
  { unfold old, block_of. rewrite !lookup_insert_all_ne; [done|..]; unfold l1, l2; rewrite elem_region_writes; lia. }
  apply writes_seq; [apply writes_region; [lia|done|done|by apply length_inode_bitmap]|].
  apply writes_seq; [apply writes_region; [lia|done|done|by apply length_block_bitmap]|].
  apply writes_seq.
  { rewrite <- (Z.add_0_r (at_block it)). unfold root_table. rewrite <- Eold. apply writes_part; [lia|lia|unfold kBlockSize; lia|]. intros ->. done. }
  set (d3 := insert_all [_] _). assert (wf_blocks d3) as D3 by (apply wf_insert_all; [done|by apply Forall_singleton]).
  apply writes_seq; [apply writes_block; [lia|done|apply Hcb]|].
  replace (wrap32 (start_block (journal sb) + 1)) with (js sb + 1) by (symmetry; apply wrap32_small; unfold js in *; word).
  set (d4 := insert_all [_] d3). assert (wf_blocks d4) as D4 by (apply wf_insert_all; [done|by apply Forall_singleton]).
  apply writes_seq; [apply writes_block; [lia|done|apply Hcb]|].
  set (d5 := insert_all [_] d4). assert (wf_blocks d5) as D5 by (apply wf_insert_all; [done|by apply Forall_singleton]).
  assert (block_of d5 it = root_table old) as E5.
  { unfold block_of, d5, d4, d3. cbn [insert_all foldl fst snd]. rewrite !lookup_insert_ne, lookup_insert_eq by lia. done. }
  by apply write_ledger_writes.
Qed.
End body.

(** * The stages of a format *)
Section stages.
Context (options : MkfsOptions) (w : surroundings) (sb : Superblock) (Hlay : layout sb) (g : RequestLedgerGeometry) (Hp : placed sb g).
Context (Hsize : image_size_bytes options = total_blocks sb * kBlockSize).
Context (root_bytes control_bytes ledger_bytes directory_bytes superblock_bytes : bytes) (checksum : Z).
Context (Eroot : EncodeInode (root_record sb g w) = Ok root_bytes) (Econtrol : EncodeControl (first_control sb) = Ok (control_bytes, checksum)).
Context (Eledger : if enabled g then EncodeInode (ledger_record sb g w) = Ok ledger_bytes /\
                     EncodeDirectoryEntry ledger_entry kBlockSize zero_block = Ok directory_bytes
                   else ledger_bytes = zeros InodeLen /\ directory_bytes = zero_block).
Context (Esuper : EncodeSuperblock sb = Ok superblock_bytes).
Context (Hrb : length root_bytes = InodeLen /\ bytes_ok root_bytes) (Hcb : block_wf control_bytes).
Context (Hlb : length ledger_bytes = InodeLen /\ bytes_ok ledger_bytes) (Hdb : block_wf directory_bytes) (Hsb : block_wf superblock_bytes).
Context (d0 : image) (Hd0 : wf_blocks d0) (Hnew : force options = false -> d0 = ∅).

Definition invalidated : image := if force options then <[0 := zero_block]> d0 else d0.
Definition base_image : image := resized (total_blocks sb) invalidated.
Definition body_image : image :=
  insert_all (body_writes sb g root_bytes control_bytes ledger_bytes directory_bytes (block_of base_image (start_block (inode_table sb)))) base_image.
Definition formatted : image := <[0 := superblock_bytes]> body_image.

(** Nothing but block 0 has changed; block 0 is not a superblock; or all the
    rest is in place. *)
Definition untouched_old (v : host_view) : Prop := force options = true /\ forall blk x, blk <> 0 -> hv_may v blk x -> x = d0 !! blk.
Definition invalid_superblock (v : host_view) : Prop := forall x, hv_may v 0 x -> x = None \/ x = Some zero_block.
Definition body_durable (v : host_view) : Prop := forall blk x, blk <> 0 -> hv_may v blk x -> x = body_image !! blk.
Definition format_safe (v : host_view) : Prop := untouched_old v \/ invalid_superblock v \/ body_durable v.

Abbreviation vw f := (host_state d0 (f_trace f)).

Definition stage_exact (d : image) (f : host_file) : Prop := f_blocks f = d /\ exactly (vw f) d.
Definition stage_body (d : image) (f : host_file) : Prop :=
  f_blocks f = d /\ f_size f = total_blocks sb * kBlockSize /\ hv_live (vw f) = d /\ hv_torn (vw f) = [] /\ invalid_superblock (vw f).
Definition stage_super (f : host_file) : Prop :=
  f_blocks f = formatted /\ f_size f = total_blocks sb * kBlockSize /\ hv_live (vw f) = formatted /\ hv_torn (vw f) = [] /\ body_durable (vw f).

Lemma wf_invalidated : wf_blocks invalidated.
Proof.
  clear Hnew. unfold invalidated. destruct (force options); [|done]. intros k b. rewrite lookup_insert_Some.
  intros [[_ <-]|[_ H]]; [apply zero_block_wf|by eapply Hd0].
Qed.

Lemma wf_base : wf_blocks base_image.
Proof.
  intros k b. unfold base_image. rewrite lookup_resized. destruct (_ && _); [|done]. intros [= <-]. by apply wf_block_of, wf_invalidated.
Qed.

Lemma base_first : base_image !! 0 = Some zero_block.
Proof.
  unfold base_image. rewrite lookup_resized. destruct (data_bounds sb Hlay) as (D1 & D2 & _).
  rewrite (proj2 (Z.leb_le 0 0)), (proj2 (Z.ltb_lt _ _)) by lia. cbn [andb]. f_equal. unfold invalidated.
  destruct (force options); [by rewrite lookup_insert_eq|]. by rewrite Hnew, lookup_empty.
Qed.

Lemma sync_exact v : hv_torn v = [] -> exactly (host_settle v FSync) (hv_live v).
Proof.
  intros Ht. split; [done|]. split; [done|]. cbn. rewrite Ht. intros blk x [H|[H _]]; [done|by apply not_elem_of_nil in H].
Qed.

(** A sync after which everything is durable. *)
Lemma safe_sync op (Pre : host_file -> Prop) (d : image) :
  (forall f s, Pre f -> Pre (set_script f s)) ->
  (forall f, Pre f -> f_blocks f = d /\ hv_live (vw f) = d /\ hv_torn (vw f) = []) ->
  (forall v, exactly v d -> format_safe v) ->
  safe_run d0 format_safe (fdatasync op) Pre (fun _ f => stage_exact d f /\ exists f0, Pre f0 /\ f_size f = f_size f0).
Proof.
  intros Hs Hpre Hsafe. apply safe_event with (ev := FSync) (Post := fun f => stage_exact d f /\ exists f0, Pre f0 /\ f_size f = f_size f0).
  - done.
  - done.
  - intros f Hf. destruct (Hpre f Hf) as (_ & H1 & H2). apply Hsafe. rewrite <- H1. by apply sync_exact.
  - intros f Hf. destruct (Hpre f Hf) as (H0 & H1 & H2). split; [|by exists f]. split; [done|]. cbn [f_trace set_content].
    unfold host_state. rewrite foldl_app. cbn [foldl]. rewrite <- H1. by apply sync_exact.
Qed.

(** ** Making the old superblock unreadable *)
Lemma invalidate_safe :
  safe_run d0 format_safe
    (if force options then MkfsPwriteAll zero_block 0 ;; fdatasync "fdatasync invalidated superblock" else fret tt)
    (stage_exact d0) (fun _ => stage_exact invalidated).
Proof.
  unfold invalidated. destruct (force options) eqn:Ef; [|by apply safe_ret].
  eapply safe_bind with (Mid := fun _ f => f_blocks f = <[0 := zero_block]> d0 /\ hv_live (vw f) = <[0 := zero_block]> d0 /\ hv_torn (vw f) = []).
  - apply (safe_writes _ _ _ _ _ [(0, zero_block)]).
    + intros f [Hf _]. change 0 with (at_block 0) at 1. apply writes_block; [lia|by rewrite Hf|apply zero_block_wf].
    + intros f t [Hf (V1 & V2 & V3)] _ Ht. left. split; [done|]. intros blk x Hb Hx.
      apply V3, (settle_away _ _ (vw f) Ht blk); [|done]. by intros ?%list_elem_of_singleton.
    + intros f f' a [Hf (V1 & V2 & V3)] _ Hb Ht _. rewrite Hb, Ht, Hf. unfold host_state. rewrite foldl_app.
      destruct (settle_wrote [(0, zero_block)] (vw f)) as [E1 E2]. unfold host_state in E1, E2, V1, V2. rewrite E1, E2, V1, V2. done.
  - intros []. eapply safe_post; [|apply safe_sync with (d := <[0 := zero_block]> d0)]; [by intros a f [H _]|done|done|].
    intros v (_ & _ & H). right. left. intros x ->%H. right. by rewrite lookup_insert_eq.
Qed.

Lemma stage_exact_script d f s : stage_exact d f -> stage_exact d (set_script f s).
Proof. done. Qed.

(** ** The new length *)
Lemma resize_safe : safe_run d0 format_safe (ftruncate (image_size_bytes options)) (stage_exact invalidated) (fun _ => stage_body base_image).
Proof.
  assert (forall f, stage_exact invalidated f -> invalid_superblock (host_settle (vw f) (FResize (total_blocks sb)))) as Hinv.
  { intros f (_ & _ & _ & H) x. cbn [host_settle hv_may]. intros Hx. assert (invalidated !! 0 = None \/ invalidated !! 0 = Some zero_block) as H0.
    { unfold invalidated. destruct (force options); [right; by rewrite lookup_insert_eq|left; by rewrite Hnew, lookup_empty]. }
    destruct Hx as [->%H|(y & ->%H & ->)]; [done|]. right. destruct (data_bounds sb Hlay) as (D1 & D2 & _).
    rewrite (proj2 (Z.leb_le 0 0)), (proj2 (Z.ltb_lt _ _)) by lia. cbn [andb]. by destruct H0 as [-> | ->]. }
  unfold ftruncate. rewrite Hsize. replace (total_blocks sb * kBlockSize / kBlockSize) with (total_blocks sb) by (symmetry; by apply Z.div_mul).
  apply safe_event with (ev := FResize (total_blocks sb)) (Post := stage_body base_image); [done|done| |].
  - intros f Hf. right. left. by apply Hinv.
  - intros f Hf. pose proof (Hinv f Hf) as Hi. destruct Hf as (H0 & H1 & H2 & H3). split; [cbn; by rewrite H0|]. split; [done|].
    cbn [f_trace set_content]. unfold host_state in *. rewrite foldl_app. cbn [foldl]. split; [cbn; by rewrite H1|]. by split.
Qed.

(** ** The body, then the superblock *)
Lemma body_write_keys : forall k, k ∈ (body_writes sb g root_bytes control_bytes ledger_bytes directory_bytes (block_of base_image (start_block (inode_table sb)))).*1 ->
  1 <= k < total_blocks sb.
Proof. intros k. by apply body_keys. Qed.

Lemma body_first : body_image !! 0 = Some zero_block.
Proof. unfold body_image. rewrite lookup_insert_all_ne; [apply base_first|]. intros H%body_write_keys. lia. Qed.

Lemma write_body_safe : safe_run d0 format_safe (write_body sb g root_bytes control_bytes ledger_bytes directory_bytes)
  (stage_body base_image) (fun _ => stage_body body_image).
Proof.
  assert (forall f t, stage_body base_image f -> Forall (on_blocks (.∈ (body_writes sb g root_bytes control_bytes ledger_bytes directory_bytes
    (block_of base_image (start_block (inode_table sb)))).*1)) t -> invalid_superblock (foldl host_settle (vw f) t)) as Hinv.
  { intros f t (_ & _ & _ & _ & H) Ht x Hx. apply H, (settle_away _ _ (vw f) Ht 0); [|done]. intros Hk%body_write_keys. lia. }
  eapply safe_writes.
  - intros f (-> & _). apply write_body_writes; try done. apply wf_base.
  - intros f t Hf _ Ht. right. left. by eapply Hinv.
  - intros f f' a Hf _ Hb Ht Hz. assert (invalid_superblock (vw f')) as Hi.
    { rewrite Ht. unfold host_state. rewrite foldl_app. apply (Hinv f); [done|]. by apply wrote_on. }
    destruct Hf as (H0 & H1 & H2 & H3 & _). split; [by rewrite Hb, H0|]. split.
    { rewrite Hz; [done|]. intros k Hk%body_write_keys. rewrite H1. unfold kBlockSize. lia. }
    rewrite Ht. unfold host_state. rewrite foldl_app. destruct (settle_wrote (body_writes sb g root_bytes control_bytes ledger_bytes directory_bytes
      (block_of base_image (start_block (inode_table sb)))) (vw f)) as [E1 E2]. unfold host_state in E1, E2, H2, H3.
    rewrite E1, E2, H2, H3. split; [done|]. split; [done|]. unfold host_state in Hi. by rewrite Ht, foldl_app in Hi.
Qed.

Lemma exact_body v : exactly v body_image -> body_durable v.
Proof. intros (_ & _ & H) blk x _ Hx. by apply H. Qed.

Lemma write_super_safe : safe_run d0 format_safe (MkfsPwriteAll superblock_bytes 0)
  (fun f => stage_exact body_image f /\ f_size f = total_blocks sb * kBlockSize) (fun _ => stage_super).
Proof.
  destruct (data_bounds sb Hlay) as (D1 & D2 & _).
  assert (forall f t, stage_exact body_image f -> Forall (on_blocks (.∈ [(0, superblock_bytes)].*1)) t -> body_durable (foldl host_settle (vw f) t)) as Hbd.
  { intros f t [_ H%exact_body] Ht blk x Hb Hx. apply H; [done|]. apply (settle_away _ _ (vw f) Ht blk); [|done].
    by intros ?%list_elem_of_singleton. }
  apply (safe_writes _ _ _ _ _ [(0, superblock_bytes)]).
  - intros f [[-> _] _]. change 0 with (at_block 0) at 1. apply writes_block; [lia| |apply Hsb].
    apply wf_insert_all; [apply wf_base|]. apply body_wf; try done. apply wf_block_of, wf_base.
  - intros f t [Hf _] _ Ht. right. right. by apply Hbd.
  - intros f f' a [Hf Hz0] _ Hb Ht Hz. assert (body_durable (vw f')) as Hi.
    { rewrite Ht. unfold host_state. rewrite foldl_app. apply (Hbd f); [done|]. by apply wrote_on. }
    destruct Hf as (H0 & H1 & H2 & _). split; [by rewrite Hb, H0|]. split.
    { rewrite Hz; [done|]. intros k ->%list_elem_of_singleton. cbn [fst]. rewrite Hz0. unfold kBlockSize. lia. }
    destruct (settle_wrote [(0, superblock_bytes)] (vw f)) as [E1 E2]. rewrite Ht in *. unfold host_state in *. rewrite foldl_app in *.
    by rewrite E1, E2, H1, H2.
Qed.

(** The whole of it. *)
Lemma format_open_file_safe : safe_run d0 format_safe (format_open_file options w sb g) (stage_exact d0)
  (fun s f => s = sb /\ stage_exact formatted f /\ f_size f = total_blocks sb * kBlockSize).
Proof.
  unfold format_open_file. eapply safe_bind; [by apply safe_call|]. intros [].
  eapply safe_bind; [apply invalidate_safe|]. intros []. eapply safe_bind; [apply resize_safe|]. intros [].
  eapply safe_bind; [by apply safe_call|]. intros [].
  assert (forall k Post, safe_run d0 format_safe (k (directory_bytes, ledger_bytes)) (stage_body base_image) Post ->
    safe_run (A := Superblock) d0 format_safe (fbind (if enabled g then directory <- of_codec (EncodeDirectoryEntry ledger_entry kBlockSize zero_block) ;;
       encoded <- of_codec (EncodeInode (ledger_record sb g w)) ;; fret (directory, encoded)
     else fret (zero_block, zeros InodeLen)) k) (stage_body base_image) Post) as Henc.
  { intros k Post Hk. destruct (enabled g); [|by destruct Eledger as [-> ->] in Hk]. destruct Eledger as [-> ->]. exact Hk. }
  apply Henc. clear Henc. eapply safe_codec; [exact Eroot|]. eapply safe_codec; [exact Econtrol|]. cbn [fst].
  eapply safe_bind; [apply write_body_safe|]. intros [].
  eapply safe_bind with (Mid := fun _ f => stage_exact body_image f /\ f_size f = total_blocks sb * kBlockSize); [eapply safe_post; [|apply safe_sync with (d := body_image) (Pre := stage_body body_image)]|].
  - intros [] f [H1 (f0 & (_ & Hz & _) & E)]. exact (conj H1 (eq_trans E Hz)).
  - done.
  - by intros f (H1 & _ & H2 & H3 & _).
  - intros v Hv. right. right. by apply exact_body.
  - intros []. eapply safe_codec; [exact Esuper|]. eapply safe_bind; [apply write_super_safe|]. intros [].
    eapply safe_bind with (Mid := fun _ f => stage_exact formatted f /\ f_size f = total_blocks sb * kBlockSize); [eapply safe_post; [|apply safe_sync with (d := formatted) (Pre := stage_super)]|].
    + intros [] f [H1 (f0 & (_ & Hz & _) & E)]. exact (conj H1 (eq_trans E Hz)).
    + done.
    + by intros f (H1 & _ & H2 & H3 & _).
    + intros v (_ & _ & H). right. right. intros blk x Hb ->%H. unfold formatted. by rewrite lookup_insert_ne.
    + intros []. apply safe_ret. done.
Qed.
End stages.
