(* ===== verification/MkfsImage.v ===== *)
(** A freshly formatted image: its superblock, controls and inodes encode, and
    the image the body writes make is consistent and holds the expected files. *)
From S2P Require Import Prelude Codec OndiskFormat OndiskFormatProofs DirectoryEntry OndiskJournal OndiskJournalProofs.
From S2P Require Import Disk JournalImage CrashLogic JournalStates JournalExample JournalTheorems BitmapAllocator.
From S2P Require Import RequestLedger RequestLedgerProofs ImageReader ImageReaderProofs ReaderTheorems LedgerStore.
From S2P Require Import FileMutation ConsistentImage PlanProofs Publication NewObject RootPlans FileSystem LedgerFiles.
From S2P Require Import Mkfs MkfsBitmaps MkfsFormat.
Import ControlSelection.
Open Scope Z_scope.

(** * Plans *)
Definition options_typed (o : MkfsOptions) : Prop :=
  u64 (image_size_bytes o) /\ u32 (opt_total_inodes o) /\ u32 (opt_journal_blocks o) /\ u32 (request_ledger_entries o).

Definition surroundings_typed (w : surroundings) : Prop :=
  length (random_bytes w) = 16%nat /\ bytes_ok (random_bytes w) /\ 0 <= tv_nsec w < 1000000000 /\ u32 (process_uid w) /\ u32 (process_gid w).

(** The superblock and the ledger's place of a format that may go ahead. *)
Record planned (o : MkfsOptions) (sb : Superblock) (g : RequestLedgerGeometry) : Prop := {
  pl_typed : superblock_typed sb;
  pl_valid : ValidateSuperblock sb = Ok tt;
  pl_root : root_inode sb = 1;
  pl_features : sb_feature_incompat sb = if enabled g then 1 else 0;
  pl_placed : placed sb g;
  pl_entries : entry_count g = request_ledger_entries o;
  pl_size : image_size_bytes o = total_blocks sb * kBlockSize;
  pl_inodes : total_inodes sb = opt_total_inodes o
}.

Lemma stamp_uuid_typed uuid : length uuid = 16%nat -> bytes_ok uuid -> length (stamp_uuid uuid) = 16%nat /\ bytes_ok (stamp_uuid uuid).
Proof.
  intros Hl Hb. assert (forall z m k, u8 z -> u8 (Z.land z m) -> u8 k -> u8 (Z.lor (Z.land z m) k)) as Hu.
  { intros z m k _ H1 H2. apply u8_of_bits; [apply Z.lor_nonneg; unfold u8 in *; lia|]. intros i Hi. by rewrite Z.lor_spec, !(u8_high _ i) by done. }
  assert (forall z m, u8 z -> 0 <= m -> u8 (Z.land z m)) as Hland.
  { intros z m Hz Hm. apply u8_of_bits; [apply Z.land_nonneg; by right|]. intros i Hi. by rewrite Z.land_spec, (u8_high z i) by done. }
  unfold stamp_uuid. cbv zeta. split; [by rewrite !length_put|].
  assert (forall b i m k, bytes_ok b -> 0 <= m -> u8 k -> bytes_ok (put_byte b i (Z.lor (Z.land (byte_at b i) m) k))) as Hput.
  { intros b i m k Hok Hm Hk. apply bytes_ok_put; [done|]. apply Hu; [by apply byte_at_u8| |done]. apply Hland; [by apply byte_at_u8|done]. }
  apply Hput; [apply Hput; [done|lia|unfold u8; lia]|lia|unfold u8; lia].
Qed.

Lemma plan_planned o l g uuid t : options_typed o -> plan_layout o = Ok (l, g) ->
  length uuid = 16%nat /\ bytes_ok uuid -> u64 t -> planned o (with_identity l uuid t) g.
Proof.
  intros (O1 & O2 & O3 & O4) H Hu Ht. unfold plan_layout in H. cbv zeta in H.
  destruct (_ || _) eqn:E1 in H; [done|]. destruct (_ || _) eqn:E2 in H; [done|]. bool_to_prop.
  destruct (BuildSuperblockLayout _ _ _) as [s|] eqn:Es in H; [|done].
  destruct (BuildRequestLedgerGeometry _ _) as [g'|] eqn:Eg in H; [|done]. injection H as <- <-.
  pose proof (Z.div_mod (image_size_bytes o) kBlockSize ltac:(done)) as Hdm.
  assert (u32 (image_size_bytes o / kBlockSize)) as Hb.
  { unfold u32_max in *. split; [apply Z.div_pos; [word|done]|lia]. }
  unfold BuildSuperblockLayout in Es. cbv zeta in Es. destruct (_ || _) in Es; [done|]. destruct (_ || _) in Es; [done|].
  destruct (ValidateSuperblock _) as [[]|] eqn:Ev in Es; [|done]. injection Es as <-.
  match type of Ev with ValidateSuperblock ?s = _ => set (sb := s) in * end.
  assert (superblock_typed sb) as Hty.
  { unfold superblock_typed, region_typed, sb. cbn -[u32 u64 wrap32 CeilDivide zeros].
    conj_split; try done; try apply wrap32_u32; try word. apply bytes_ok_zeros. }
  assert (layout sb) as Hlay by by apply validated_layout.
  destruct (geometry_placed sb Hlay _ _ O4 Eg) as [Hpl Hen].
  assert (superblock_typed (with_identity (mkSuperblock (total_blocks sb) (total_inodes sb) (root_inode sb) (inode_bitmap sb) (block_bitmap sb)
    (inode_table sb) (journal sb) (data sb) (sb_feature_compat sb) (sb_feature_ro_compat sb)
    (if enabled g' then Z.lor (sb_feature_incompat sb) kFeatureIncompatRequestLedger else sb_feature_incompat sb)
    (sb_filesystem_uuid sb) (created_time_ns sb)) uuid t)) as Hty2.
  { destruct Hty as (T1 & T2 & T3 & T4 & T5 & T6 & T7 & T8 & T9 & T10 & T11 & T12 & T13).
    unfold superblock_typed, with_identity. cbn -[u32 u64]. conj_split; try done; try apply Hu.
    destruct (enabled g'); [change (u64 1)|change (u64 0)]; word. }
  constructor; [done|exact Ev|done|by destruct (enabled g')| |done| |done].
  - intros He. destruct (Hpl He) as [P1 P2 P3 P4 P5 P6 P7 P8]. by constructor.
  - cbn [total_blocks with_identity sb]. lia.
Qed.

(** * Encodings *)
Section encodings.
Context (o : MkfsOptions) (sb : Superblock) (g : RequestLedgerGeometry) (Hpl : planned o sb g).
Context (w : surroundings) (Hw : surroundings_typed w).

Lemma planned_layout : layout sb.
Proof. apply validated_layout; apply Hpl. Qed.

Abbreviation ds := (start_block (data sb)).

Lemma made_root_typed : inode_typed (root_record sb g w) /\ InodeCodec.accepted (root_record sb g w) = true.
Proof.
  destruct Hpl as [Hty _ Hr _ Hp _ _ _]. destruct Hw as (_ & _ & _ & W4 & W5).
  destruct Hty as (_ & _ & T3 & _ & _ & _ & _ & [T8 _] & _ & _ & _ & _ & T13). unfold root_record.
  split; [|unfold InodeCodec.accepted; cbn; rewrite Hr; by destruct (enabled g)].
  unfold inode_typed. cbn -[u32 u64 replicate]. conj_split; try done; try word.
  - destruct (enabled g); unfold kBlockSize; word.
  - destruct (enabled g); done.
  - destruct (enabled g) eqn:He; [|repeat constructor; word]. rewrite (lp_root _ _ (Hp He)). constructor; [done|]. repeat constructor; word.
Qed.

Lemma encoded_shape v b : EncodeInode v = Ok b -> length (direct_blocks v) = 12%nat -> length b = InodeLen /\ bytes_ok b.
Proof.
  intros He Hd. pose proof (InodeCodec.inode_encode_accepted _ _ He) as Ha. rewrite InodeCodec.inode_encode_puts in He by done. ok_inv He.
  split.
  - apply length_sealed; [intros c; by apply InodeCodec.inode_fields_layout|apply InodeCodec.inode_fields_sized].
  - rewrite <- seal. apply bytes_ok_PutLe32, InodeCodec.inode_base_bytes_ok.
Qed.

Lemma encodes v : inode_typed v -> InodeCodec.accepted v = true -> exists b, EncodeInode v = Ok b /\ DecodeInode b (inode_number v) = Ok v /\
  length b = InodeLen /\ bytes_ok b.
Proof.
  intros Ht Ha. pose proof (InodeCodec.inode_encode_puts v Ha) as E. eexists. split; [exact E|].
  split; [by apply InodeCodec.inode_decode_encode|]. apply (encoded_shape v); [exact E|apply Ht].
Qed.
Lemma ledger_pointers : enabled g = true ->
  direct_blocks (ledger_record sb g w) =
    map (fun l => ds + 1 + l) (counting (Z.min (data_block_count g) 12)) ++ replicate (12 - Z.to_nat (Z.min (data_block_count g) 12)) 0.
Proof.
  intros He. unfold ledger_record. cbn [direct_blocks]. cbv zeta. change kDirectBlockCount with 12.
  rewrite (placed_blocks sb planned_layout g (pl_placed _ _ _ Hpl) He). f_equal. rewrite firstn_map. f_equal.
  unfold counting. rewrite firstn_map. f_equal. rewrite take_seq. f_equal. lia.
Qed.

Lemma length_ledger_pointers : enabled g = true -> length (direct_blocks (ledger_record sb g w)) = 12%nat.
Proof.
  intros He. rewrite ledger_pointers by done. rewrite length_app, length_map, length_counting, length_replicate. lia.
Qed.

Lemma ledger_record_typed : enabled g = true -> inode_typed (ledger_record sb g w) /\ InodeCodec.accepted (ledger_record sb g w) = true.
Proof.
  intros He. destruct Hw as (_ & _ & _ & W4 & W5). destruct (pl_placed _ _ _ Hpl He) as [P1 P2 P3 P4 P5 P6 P7 P8].
  destruct (data_bounds sb planned_layout) as (D1 & D2 & D3 & D4 & D5).
  assert (u64 (created_time_ns sb)) by apply (pl_typed _ _ _ Hpl). pose proof (length_ledger_pointers He) as Hlen.
  split.
  - unfold inode_typed. split; [change (u32 2); word|]. split; [change (u32 33152); word|]. split; [done|]. split; [done|]. split; [change (u32 1); word|].
    split; [cbn [i_size ledger_record]; word|]. do 3 (split; [done|]). split; [change (u32 0); word|]. split; [change (u64 1); word|].
    split; [split; [done|]|].
    + rewrite ledger_pointers by done. apply Forall_app. split; [|apply Forall_replicate; word].
      apply Forall_fmap, Forall_forall. intros l Hl%elem_counting. cbn. destruct (12 <? _) in P7; word.
    + cbn [indirect_block ledger_record]. rewrite P6. destruct (12 <? _) in P7 |- *; word.
  - unfold InodeCodec.accepted. cbn [inode_number mode i_size ledger_record]. rewrite P8. change kMaxFileSize with (1036 * 4096).
    rewrite (proj2 (Z.leb_le _ _)) by lia. done.
Qed.

Lemma first_control_ok : control_typed (first_control sb) /\ ValidateControlFields (first_control sb) = Ok tt /\
  ring_blocks (first_control sb) = ring_size sb.
Proof.
  pose proof (lay_geo _ planned_layout) as G. pose proof (ring_size_bounds sb G) as [R1 R2]. pose proof (ring_size_eq sb G) as R3.
  assert (ring_blocks (first_control sb) = ring_size sb) as E by exact R3.
  split; [|split; [|done]].
  - unfold control_typed. rewrite E. cbn -[u32 u64]. destruct (pl_typed _ _ _ Hpl) as (_ & _ & _ & _ & _ & _ & _ & _ & _ & _ & _ & Hu & _).
    conj_split; try done; word.
  - unfold ValidateControlFields. rewrite E. cbn -[ring_size]. unfold kMinimumJournalRingBlocks.
    repeat match goal with |- context [?a <? ?b] => destruct (Z.ltb_spec a b); [lia|] | |- context [?a <=? ?b] => destruct (Z.leb_spec a b); [lia|] end. done.
Qed.

Lemma superblock_shape b : EncodeSuperblock sb = Ok b -> block_wf b.
Proof.
  intros E. rewrite SuperblockCodec.superblock_encode_puts, (pl_valid _ _ _ Hpl) in E. ok_inv E.
  destruct (pl_typed _ _ _ Hpl) as (_ & _ & _ & _ & _ & _ & _ & _ & _ & _ & _ & [Hu Hb] & _). split.
  - rewrite seal. apply length_sealed; [intros c; apply SuperblockCodec.superblock_fields_layout|by apply SuperblockCodec.superblock_fields_sized].
  - by apply bytes_ok_PutLe32, SuperblockCodec.superblock_base_bytes_ok.
Qed.

Lemma encodings_exist : exists root_bytes control_bytes checksum ledger_bytes directory_bytes superblock_bytes,
  (EncodeInode (root_record sb g w) = Ok root_bytes /\ DecodeInode root_bytes 1 = Ok (root_record sb g w) /\ length root_bytes = InodeLen /\ bytes_ok root_bytes) /\
  (EncodeControl (first_control sb) = Ok (control_bytes, checksum) /\ DecodeControl control_bytes = Ok (with_checksum (first_control sb) checksum) /\ block_wf control_bytes) /\
  (if enabled g then EncodeInode (ledger_record sb g w) = Ok ledger_bytes /\ EncodeDirectoryEntry ledger_entry kBlockSize zero_block = Ok directory_bytes
   else ledger_bytes = zeros InodeLen /\ directory_bytes = zero_block) /\
  (enabled g = true -> DecodeInode ledger_bytes 2 = Ok (ledger_record sb g w) /\ DecodeDirectoryEntry directory_bytes = Ok entry2) /\
  (length ledger_bytes = InodeLen /\ bytes_ok ledger_bytes) /\ block_wf directory_bytes /\
  EncodeSuperblock sb = Ok superblock_bytes /\ DecodeSuperblock superblock_bytes = Ok sb /\ block_wf superblock_bytes.
Proof.
  destruct made_root_typed as [R1 R2]. destruct (encodes _ R1 R2) as (rb & E1 & E2 & E3 & E4).
  replace (inode_number (root_record sb g w)) with 1 in E2 by (symmetry; apply (pl_root _ _ _ Hpl)).
  destruct first_control_ok as (C1 & C2 & C3).
  pose proof (ControlCodec.control_encode_eq (first_control sb)) as F1. rewrite C2 in F1. specialize (F1 (proj1 (proj1 (proj2 C1)))).
  pose proof (ControlCodec.control_decode_image _ C1 C2) as F2. pose proof (ControlCodec.control_image_wf _ (proj1 (proj2 C1))) as F3.
  assert (exists sbb, EncodeSuperblock sb = Ok sbb) as [sbb S1].
  { unfold EncodeSuperblock. rewrite (pl_valid _ _ _ Hpl). by eexists. }
  pose proof (SuperblockCodec.superblock_decode_encode _ _ (pl_typed _ _ _ Hpl) S1) as S2. pose proof (superblock_shape _ S1) as S3.
  assert (exists db, EncodeDirectoryEntry ledger_entry kBlockSize zero_block = Ok db /\ DecodeDirectoryEntry db = Ok entry2 /\ block_wf db) as (db & D1 & D2 & D3).
  { eexists. split; [vm_compute; reflexivity|]. split; [vm_compute; reflexivity|]. apply block_wfb_ok. vm_compute. reflexivity. }
  destruct (enabled g) eqn:He.
  - destruct (ledger_record_typed He) as [L1 L2]. destruct (encodes _ L1 L2) as (lb & E5 & E6 & E7 & E8).
    exists rb, (ControlCodec.image (first_control sb)), (ControlCodec.crc (first_control sb)), lb, db, sbb.
    conj_split; try assumption. intros _. by split.
  - exists rb, (ControlCodec.image (first_control sb)), (ControlCodec.crc (first_control sb)), (zeros InodeLen), zero_block, sbb.
    conj_split; try assumption; try apply zero_block_wf; [reflexivity|reflexivity|discriminate|apply length_replicate|apply bytes_ok_zeros].
Qed.
End encodings.

(** * The formatted image *)
Section image.
Context (o : MkfsOptions) (sb : Superblock) (g : RequestLedgerGeometry) (Hpl : planned o sb g).
Context (w : surroundings) (Hw : surroundings_typed w).
Context (root_bytes control_bytes ledger_bytes directory_bytes superblock_bytes : bytes) (checksum : Z).
Context (Droot : DecodeInode root_bytes 1 = Ok (root_record sb g w)) (Hrb : length root_bytes = InodeLen /\ bytes_ok root_bytes).
Context (Dcontrol : DecodeControl control_bytes = Ok (with_checksum (first_control sb) checksum)) (Hcb : block_wf control_bytes).
Context (Dledger : enabled g = true -> DecodeInode ledger_bytes 2 = Ok (ledger_record sb g w) /\ DecodeDirectoryEntry directory_bytes = Ok entry2).
Context (Hlb : length ledger_bytes = InodeLen /\ bytes_ok ledger_bytes) (Hdb : block_wf directory_bytes).
Context (Dsuper : DecodeSuperblock superblock_bytes = Ok sb) (Hsb : block_wf superblock_bytes).
Context (d0 : image) (Hd0 : wf_blocks d0).

Abbreviation Hlay := (planned_layout o sb g Hpl).
Abbreviation it := (start_block (inode_table sb)).
Abbreviation ds := (start_block (data sb)).
Abbreviation base := (base_image o sb d0).
Abbreviation old := (block_of base it).
Abbreviation d := (formatted o sb g root_bytes control_bytes ledger_bytes directory_bytes superblock_bytes d0).

Lemma base_exists k : 0 <= k < total_blocks sb -> exists b, base !! k = Some b /\ block_wf b.
Proof.
  intros Hk. destruct (base !! k) as [b|] eqn:E; [exists b; split; [done|exact (wf_base o sb d0 Hd0 k b E)]|].
  unfold base_image in E. rewrite lookup_resized, (proj2 (Z.leb_le 0 k)), (proj2 (Z.ltb_lt k _)) in E by lia. done.
Qed.

(** ** What is where *)
Lemma image_first : d !! 0 = Some superblock_bytes.
Proof. apply lookup_insert_eq. Qed.

Lemma image_rest k : k <> 0 ->
  d !! k = insert_all (body_writes sb g root_bytes control_bytes ledger_bytes directory_bytes old) base !! k.
Proof. intros Hk. unfold formatted. by rewrite lookup_insert_ne. Qed.

Lemma region_lookup (m : image) start count b k : start <= k < start + count ->
  insert_all (region_writes start count b) m !! k = Some (BitmapBlock b (k - start)).
Proof.
  intros Hk. apply lookup_insert_all_in.
  - unfold region_writes. rewrite <- list_fmap_compose. apply NoDup_fmap_2; [intros x y; cbn; lia|].
    unfold counting. apply NoDup_fmap_2; [intros ?? ?; lia|apply NoDup_seq].
  - apply list_elem_of_fmap. exists (k - start). split; [f_equal; lia|]. apply elem_counting. lia.
Qed.

Lemma skip_ledger (m : image) k : k <> it -> (k < ds \/ enabled g = false) ->
  insert_all (ledger_writes sb g root_bytes ledger_bytes directory_bytes old) m !! k = m !! k.
Proof.
  intros H1 H2. apply lookup_insert_all_ne. intros Hk. pose proof (pl_placed _ _ _ Hpl) as Hp.
  destruct (ledger_writes_keys sb g root_bytes ledger_bytes directory_bytes old k Hk) as [He [?|Ht]]; [done|].
  apply (taken_range sb Hlay g Hp) in Ht. destruct H2 as [?|?]; [lia|congruence].
Qed.

Ltac away := first [rewrite elem_region_writes; lia | cbn [fmap list_fmap fst]; rewrite list_elem_of_singleton; lia].

Lemma image_inode_bitmap i : 0 <= i < block_count (inode_bitmap sb) ->
  d !! (start_block (inode_bitmap sb) + i) = Some (BitmapBlock (new_inode_bitmap sb g) i).
Proof.
  intros Hi. destruct (regions_ordered sb Hlay) as (R1 & R2 & R3 & R4 & R5 & R6 & R7 & R8 & R9). pose proof (pl_placed _ _ _ Hpl) as Hp.
  rewrite image_rest by lia. unfold body_writes. rewrite !insert_all_app.
  rewrite skip_ledger by lia.
  do 4 rewrite lookup_insert_all_ne by away. rewrite region_lookup by lia. do 2 f_equal. lia.
Qed.

Lemma image_block_bitmap i : 0 <= i < block_count (block_bitmap sb) ->
  d !! (start_block (block_bitmap sb) + i) = Some (BitmapBlock (new_block_bitmap sb g) i).
Proof.
  intros Hi. destruct (regions_ordered sb Hlay) as (R1 & R2 & R3 & R4 & R5 & R6 & R7 & R8 & R9). pose proof (pl_placed _ _ _ Hpl) as Hp.
  rewrite image_rest by lia. unfold body_writes. rewrite !insert_all_app.
  rewrite skip_ledger by lia.
  do 3 rewrite lookup_insert_all_ne by away. rewrite region_lookup by lia. do 2 f_equal. lia.
Qed.

Lemma image_control k : k = js sb \/ k = js sb + 1 -> d !! k = Some control_bytes.
Proof.
  intros Hk. destruct (regions_ordered sb Hlay) as (R1 & R2 & R3 & R4 & R5 & R6 & R7 & R8 & R9). pose proof (pl_placed _ _ _ Hpl) as Hp.
  rewrite image_rest by lia. unfold body_writes. rewrite !insert_all_app.
  rewrite skip_ledger by lia.
  cbn [insert_all foldl fst snd]. destruct Hk as [->| ->]; [rewrite lookup_insert_ne by lia|]; by rewrite lookup_insert_eq.
Qed.

Lemma image_table : d !! it = Some (if enabled g then ledger_table root_bytes ledger_bytes old else root_table root_bytes old).
Proof.
  clear Dledger. destruct (regions_ordered sb Hlay) as (R1 & R2 & R3 & R4 & R5 & R6 & R7 & R8 & R9). pose proof (pl_placed _ _ _ Hpl) as Hp.
  rewrite image_rest by lia. unfold body_writes. rewrite !insert_all_app. unfold ledger_writes. destruct (enabled g) eqn:He.
  - rewrite !insert_all_app. rewrite lookup_insert_all_ne.
    2:{ intros H. assert (it ∈ ledger_taken sb g) as Ht%taken_range; [|lia|exact Hlay|done].
        unfold ledger_taken. rewrite He. destruct (_ =? 0); cbn [negb] in H; [by apply not_elem_of_nil in H|].
        apply list_elem_of_singleton in H. right. apply elem_of_app. right. by apply list_elem_of_singleton. }
    rewrite lookup_insert_all_ne.
    2:{ rewrite <- list_fmap_compose, list_fmap_id. intros H. assert (it ∈ ledger_taken sb g) as Ht%taken_range; [|lia|exact Hlay|done].
        unfold ledger_taken. rewrite He. right. apply elem_of_app. by left. }
    rewrite lookup_insert_all_ne by away. apply lookup_insert_eq.
  - cbn [insert_all foldl fst snd]. rewrite !lookup_insert_ne by lia. apply lookup_insert_eq.
Qed.

(** The ledger's data blocks, its directory and its pointers. *)
Lemma image_ledger : enabled g = true ->
  d !! ds = Some directory_bytes /\
  (forall l, 0 <= l < data_block_count g -> d !! (ds + 1 + l) = Some zero_block) /\
  (12 < data_block_count g -> d !! lg_indirect_block g = Some (ledger_indirect_bytes g)).
Proof.
  intros He. destruct (regions_ordered sb Hlay) as (R1 & R2 & R3 & R4 & R5 & R6 & R7 & R8 & R9). pose proof (pl_placed _ _ _ Hpl) as Hp.
  destruct (Hp He) as [P1 P2 P3 P4 P5 P6 P7 P8]. pose proof (placed_blocks sb Hlay g Hp He) as Hlb'.
  assert (forall k, k ∈ (map (., zero_block) (ledger_blocks g)).*1 <-> exists l, k = ds + 1 + l /\ 0 <= l < data_block_count g) as Hzero.
  { intros k. rewrite <- list_fmap_compose, list_fmap_id, Hlb', list_elem_of_fmap. setoid_rewrite elem_counting. done. }
  assert (forall k, k <> lg_indirect_block g -> k ∉ (if negb (lg_indirect_block g =? 0) then [(lg_indirect_block g, ledger_indirect_bytes g)] else []).*1) as Hind.
  { intros k Hk. destruct (negb _); [by intros ?%list_elem_of_singleton|apply not_elem_of_nil]. }
  split; [|split].
  - rewrite image_rest by lia. unfold body_writes, ledger_writes. rewrite He, !insert_all_app.
    rewrite lookup_insert_all_ne by (apply Hind; destruct (12 <? _) in P6; lia).
    rewrite lookup_insert_all_ne by (rewrite Hzero; intros (l & ? & ?); lia). apply lookup_insert_eq.
  - intros l Hl. rewrite image_rest by lia. unfold body_writes, ledger_writes. rewrite He, !insert_all_app.
    rewrite lookup_insert_all_ne by (apply Hind; destruct (12 <? _) in P6; lia). apply lookup_insert_all_in.
    + rewrite <- list_fmap_compose, list_fmap_id, Hlb'. apply NoDup_fmap_2; [intros ?? ?; lia|].
      unfold counting. apply NoDup_fmap_2; [intros ?? ?; lia|apply NoDup_seq].
    + apply list_elem_of_fmap. exists (ds + 1 + l). split; [done|]. rewrite Hlb'. apply list_elem_of_fmap. exists l. split; [done|by apply elem_counting].
  - intros Hn. rewrite (proj2 (Z.ltb_lt _ _) Hn) in P6. rewrite image_rest by lia. unfold body_writes, ledger_writes. rewrite He, !insert_all_app.
    rewrite (proj2 (Z.eqb_neq _ _)) by lia. apply lookup_insert_eq.
Qed.

(** Blocks the format does not write keep what the file had. *)
Lemma image_other k : js sb + 2 <= k < ds \/ (enabled g = false /\ ds <= k) -> d !! k = base !! k.
Proof.
  intros Hk. destruct (regions_ordered sb Hlay) as (R1 & R2 & R3 & R4 & R5 & R6 & R7 & R8 & R9). pose proof (pl_placed _ _ _ Hpl) as Hp.
  rewrite image_rest by lia. unfold body_writes. rewrite !insert_all_app.
  rewrite skip_ledger by (destruct Hk as [?|[? ?]]; [lia|by right || lia]).
  by do 5 rewrite lookup_insert_all_ne by away.
Qed.

Lemma image_blocks k : 0 <= k < total_blocks sb -> exists b, d !! k = Some b /\ block_wf b.
Proof.
  intros Hk. pose proof (pl_placed _ _ _ Hpl) as Hp. destruct (decide (k = 0)) as [->|Hne]; [exists superblock_bytes; split; [apply image_first|done]|].
  rewrite image_rest by done. destruct (insert_all _ _ !! k) as [b|] eqn:E.
  - exists b. split; [done|]. revert E. apply wf_insert_all; [exact (wf_base o sb d0 Hd0)|].
    apply body_wf; try done; [exact Hlay|]. apply wf_block_of, (wf_base o sb d0 Hd0).
  - exfalso. destruct (base_exists k Hk) as (b & Eb & _). revert E.
    destruct (decide (k ∈ (body_writes sb g root_bytes control_bytes ledger_bytes directory_bytes old).*1)) as [Hin|Hout].
    + destruct (lookup_writes_in _ base k Hin) as (b' & _ & E'). by rewrite E'.
    + rewrite lookup_insert_all_ne by done. congruence.
Qed.

Lemma wf_image : wf_blocks d.
Proof.
  pose proof (pl_placed _ _ _ Hpl) as Hp. intros k b. unfold formatted. rewrite lookup_insert_Some. intros [[_ <-]|[_ E]]; [done|].
  revert E. apply wf_insert_all; [exact (wf_base o sb d0 Hd0)|].
  apply body_wf; try done; [exact Hlay|]. apply wf_block_of, (wf_base o sb d0 Hd0).
Qed.

(** ** The reader of the new image *)
Abbreviation root := (root_record sb g w).
Abbreviation ledger := (ledger_record sb g w).
Definition new_reader : ImageReader :=
  mkReader (total_blocks sb * kBlockSize) sb (with_checksum (first_control sb) checksum) kA (new_inode_bitmap sb g) (new_block_bitmap sb g).
Abbreviation r := new_reader.

Lemma new_view : view_ok r d.
Proof.
  destruct (regions_ordered sb Hlay) as (R1 & R2 & R3 & R4 & R5 & R6 & R7 & R8 & R9).
  constructor; cbn [rd_superblock image_size_ new_reader]; [done|lia|apply image_blocks|intros k b; apply wf_image].
Qed.

Lemma new_image_ok : image_ok sb (total_blocks sb * kBlockSize) d.
Proof.
  clear Dledger. constructor; [exists superblock_bytes; split; [apply image_first|done]|apply (lay_geo _ Hlay)| |done|apply image_blocks].
  rewrite (pl_features _ _ _ Hpl). by destruct (enabled g).
Qed.

Lemma new_selected : selected sb d = Ok (with_checksum (first_control sb) checksum, kA).
Proof.
  destruct (first_control_ok o sb g Hpl) as (C1 & C2 & C3). pose proof (ring_size_bounds sb (lay_geo _ Hlay)) as [B1 _].
  unfold selected, select, SelectControl, controls. rewrite !(block_of_lookup d _ control_bytes) by (apply image_control; unfold control_block; lia).
  rewrite Dcontrol, (proj2 (Z.ltb_ge _ _)) by (unfold kMinimumJournalRingBlocks; lia).
  assert (bool_decide (jc_filesystem_uuid (with_checksum (first_control sb) checksum) = sb_filesystem_uuid sb) &&
    (ring_blocks (with_checksum (first_control sb) checksum) =? ring_size sb) = true) as ->.
  { rewrite bool_decide_true by done. cbn [andb]. apply Z.eqb_eq. exact C3. }
  change (CompareGenerations _ _) with kEqual. unfold ControlsEquivalent. by rewrite !Z.eqb_refl, bool_decide_true.
Qed.

Lemma new_bitmaps :
  read_range d (start_block (inode_bitmap sb) * kBlockSize) (block_count (inode_bitmap sb) * kBlockSize) = Some (new_inode_bitmap sb g) /\
  read_range d (start_block (block_bitmap sb) * kBlockSize) (block_count (block_bitmap sb) * kBlockSize) = Some (new_block_bitmap sb g).
Proof.
  destruct (regions_ordered sb Hlay) as (R1 & R2 & R3 & R4 & R5 & R6 & R7 & R8 & R9). pose proof (pl_placed _ _ _ Hpl) as Hp.
  split; (rewrite read_region; [f_equal; apply region_bytes_of|lia|lia|]).
  - by apply length_inode_bitmap; exact Hlay.
  - intros i Hi. unfold block_at. by rewrite image_inode_bitmap.
  - intros i Hi. destruct (image_blocks (start_block (inode_bitmap sb) + i) ltac:(lia)) as (b & E & Hl & _). eauto.
  - by apply length_block_bitmap; first [exact Hlay|exact Hp].
  - intros i Hi. unfold block_at. by rewrite image_block_bitmap.
  - intros i Hi. destruct (image_blocks (start_block (block_bitmap sb) + i) ltac:(lia)) as (b & E & Hl & _). eauto.
Qed.

(** ** Pointers *)
Lemma taken_blocks b : b ∈ ledger_taken sb g -> data_block r b.
Proof.
  intros Hb. pose proof (pl_placed _ _ _ Hpl) as Hp. pose proof (taken_range sb Hlay g Hp b Hb) as Hr.
  destruct (block_capacity sb Hlay) as (_ & H2 & _). destruct (data_bounds sb Hlay) as (D1 & _).
  split; [done|]. cbn [block_bitmap_ new_reader]. rewrite (block_bit sb Hlay g Hp) by lia.
  rewrite (bool_decide_true _ Hb). by rewrite orb_true_r.
Qed.

Lemma root_pointer l : 0 <= l -> pointer d root l = if enabled g && (l =? 0) then ds else 0.
Proof.
  clear Dledger. intros Hl. pose proof (pl_placed _ _ _ Hpl) as Hp.
  assert (pointers d root = direct_blocks root) as Ep.
  { unfold pointers. replace (required_blocks root <=? kDirectBlockCount) with true; [apply app_nil_r|].
    unfold root_record, required_blocks. cbn [i_size]. by destruct (enabled g). }
  unfold pointer. rewrite Ep. unfold root_record. cbn [direct_blocks].
  assert (forall n i, nth i (replicate n 0) 0 = 0) as Hz by (intros n; induction n; intros [|i]; cbn; auto).
  destruct (enabled g) eqn:He; cbn [andb]; [|apply Hz]. rewrite (lp_root _ _ (Hp He)).
  destruct (Z.eqb_spec l 0) as [->|Hne]; [done|]. destruct (Z.to_nat l) as [|i] eqn:Ei; [lia|]. cbn [nth]. apply Hz.
Qed.

Lemma ledger_required : enabled g = true -> required_blocks ledger = data_block_count g.
Proof.
  intros He. destruct (pl_placed _ _ _ Hpl He) as [P1 _ _ _ _ _ _ P8].
  rewrite (proj1 (required_spec ledger ltac:(cbn [i_size ledger_record]; rewrite P8; change kMaxFileSize with (1036 * 4096); lia))).
  cbn [i_size ledger_record]. rewrite P8, Z.add_comm, Z.div_add by lia. change (4095 / 4096) with 0. lia.
Qed.

Lemma ledger_pointer l : enabled g = true -> 0 <= l -> pointer d ledger l = if l <? data_block_count g then ds + 1 + l else 0.
Proof.
  intros He Hl. pose proof (pl_placed _ _ _ Hpl) as Hp. destruct (Hp He) as [P1 P2 P3 P4 P5 P6 P7 P8].
  pose proof (length_ledger_pointers o sb g Hpl w He) as H12. pose proof (ledger_required He) as Hreq.
  pose proof (placed_blocks sb Hlay g Hp He) as Hbl. destruct (data_bounds sb Hlay) as (D1 & D2 & D3 & D4 & D5).
  assert (forall n i, nth i (replicate n 0) 0 = 0) as Hz by (intros n; induction n; intros [|i]; cbn; auto).
  destruct (Z.lt_ge_cases l 12) as [Hlt|Hge].
  - rewrite pointer_direct, (ledger_pointers o sb g Hpl w He) by (done || lia).
    destruct (Z.ltb_spec l (data_block_count g)).
    + rewrite app_nth1 by (rewrite length_map, length_counting; lia).
      rewrite (nth_indep _ 0 (ds + 1 + 0)) by (rewrite length_map, length_counting; lia).
      rewrite (map_nth (fun l => ds + 1 + l)), nth_counting by lia. lia.
    + rewrite app_nth2 by (rewrite length_map, length_counting; lia). apply Hz.
  - rewrite pointer_indirect, Hreq by done. destruct (Z.leb_spec (data_block_count g) 12).
    { rewrite (proj2 (Z.ltb_ge _ _)) by lia. done. }
    destruct (image_ledger He) as (_ & _ & Hind). unfold block_at. cbn [indirect_block ledger_record]. rewrite Hind by lia.
    change (default [] (Some ?b)) with b. unfold ledger_indirect_bytes. change (put_words 0 ?ws zero_block) with (indirect_image ws zero_block).
    destruct (Z.lt_ge_cases l 1036) as [Hl2|Hl2].
    2:{ rewrite nth_overflow by (rewrite length_get_words; lia). by rewrite (proj2 (Z.ltb_ge _ _)) by lia. }
    rewrite indirect_words; [|rewrite Hbl|rewrite length_drop; unfold ledger_blocks; rewrite length_map, length_counting; change (Z.to_nat kDirectBlockCount) with 12%nat; lia|lia].
    + rewrite nth_lookup, lookup_drop, Hbl. change (Z.to_nat kDirectBlockCount) with 12%nat. rewrite <- nth_lookup.
      replace (12 + Z.to_nat (l - 12))%nat with (Z.to_nat l) by lia. destruct (Z.ltb_spec l (data_block_count g)).
      * rewrite (nth_indep _ 0 (ds + 1 + 0)) by (rewrite length_map, length_counting; lia).
        rewrite (map_nth (fun l => ds + 1 + l)), nth_counting by lia. lia.
      * apply nth_overflow. rewrite length_map, length_counting. lia.
    + apply Forall_drop, Forall_fmap, Forall_forall. intros i Hi%elem_counting. cbn. destruct (12 <? _) in P7; word.
Qed.

(** ** Inodes *)
Lemma root_slot : slot sb d 1 = root_bytes.
Proof.
  clear Dledger. destruct Hrb as [Rl _], Hlb as [Ll _]. pose proof BlockLen_Z as HB. unfold InodeLen in *.
  assert (1 <= 1 <= total_inodes sb) as H1 by (pose proof (lay_root _ Hlay); lia).
  destruct (inode_position sb Hlay 1 H1) as (E1 & E2 & _). unfold slot, InodeLen. rewrite E2, E1. change ((1 - 1) / 32) with 0. rewrite Z.add_0_r.
  change (Z.to_nat ((1 - 1) mod 32 * 128)) with 0%nat. unfold block_at. rewrite image_table. change (default [] (Some ?b)) with b.
  destruct (wf_block_of base it (wf_base o sb d0 Hd0)) as [Ho _].
  destruct (enabled g); [unfold ledger_table; rewrite slice_splice_ne by (unfold root_table; rewrite ?length_splice; lia)|];
    unfold root_table; apply slice_splice_same; lia.
Qed.

Lemma ledger_slot : enabled g = true -> slot sb d 2 = ledger_bytes.
Proof.
  intros He. destruct Hrb as [Rl _], Hlb as [Ll _]. pose proof BlockLen_Z as HB. unfold InodeLen in *.
  pose proof (lp_inodes _ _ (pl_placed _ _ _ Hpl He)). destruct (inode_position sb Hlay 2 ltac:(lia)) as (E1 & E2 & _). unfold slot, InodeLen. rewrite E2, E1.
  change ((2 - 1) / 32) with 0. rewrite Z.add_0_r. change (Z.to_nat ((2 - 1) mod 32 * 128)) with 128%nat. unfold block_at. rewrite image_table, He.
  change (default [] (Some ?b)) with b. destruct (wf_block_of base it (wf_base o sb d0 Hd0)) as [Ho _].
  apply slice_splice_same; [done|]. unfold root_table. rewrite length_splice; lia.
Qed.

Lemma new_root_valid : inode_valid r d root.
Proof.
  clear Dledger. pose proof (pl_placed _ _ _ Hpl) as Hp.
  assert (required_blocks root = if enabled g then 1 else 0) as Hreq by (unfold root_record, required_blocks; cbn [i_size]; by destruct (enabled g)).
  constructor; [|done| | | | |].
  - cbn [i_size root_record]. change kMaxFileSize with 4243456. destruct (enabled g); unfold kBlockSize; lia.
  - intros _. cbn [i_size root_record]. by destruct (enabled g).
  - cbn [direct_blocks root_record]. by destruct (enabled g).
  - intros l Hl. rewrite Hreq in Hl. rewrite root_pointer by lia. destruct (enabled g) eqn:He; [|lia]. assert (l = 0) as -> by lia. cbn [andb Z.eqb].
    destruct (data_bounds sb Hlay) as (D1 & _). split; [lia|]. apply taken_blocks. unfold ledger_taken. rewrite He. by left.
  - intros l Hl. rewrite Hreq in Hl. rewrite root_pointer by (destruct (enabled g); lia). destruct (enabled g); [|done].
    destruct (Z.eqb_spec l 0); [lia|done].
  - rewrite Hreq. by destruct (enabled g).
Qed.

Lemma new_ledger_valid : enabled g = true -> inode_valid r d ledger.
Proof.
  intros He. pose proof (pl_placed _ _ _ Hpl) as Hp. destruct (Hp He) as [P1 P2 P3 P4 P5 P6 P7 P8]. pose proof (ledger_required He) as Hreq.
  destruct (data_bounds sb Hlay) as (D1 & _). pose proof (placed_blocks sb Hlay g Hp He) as Hbl.
  assert (forall b, b ∈ ledger_blocks g \/ (12 < data_block_count g /\ b = lg_indirect_block g) -> data_block r b) as Hdata.
  { intros b Hb. apply taken_blocks. unfold ledger_taken. rewrite He. right. apply elem_of_app. destruct Hb as [Hb|[Hn ->]]; [by left|right].
    rewrite (proj2 (Z.ltb_lt _ _) Hn) in P6. rewrite (proj2 (Z.eqb_neq _ _)) by lia. by apply list_elem_of_singleton. }
  constructor; [|done|done|exact (length_ledger_pointers o sb g Hpl w He)| | |].
  - cbn [i_size ledger_record]. change kMaxFileSize with (1036 * 4096). lia.
  - intros l Hl. rewrite Hreq in Hl. rewrite ledger_pointer, (proj2 (Z.ltb_lt _ _)) by (done || lia). split; [lia|]. apply Hdata. left.
    rewrite Hbl. apply list_elem_of_fmap. exists l. split; [done|by apply elem_counting].
  - intros l Hl. rewrite Hreq in Hl. rewrite ledger_pointer, (proj2 (Z.ltb_ge _ _)) by (done || lia). done.
  - rewrite Hreq. change kDirectBlockCount with 12. cbn [indirect_block ledger_record]. rewrite P6. destruct (Z.leb_spec (data_block_count g) 12).
    + by rewrite (proj2 (Z.ltb_ge _ _)) by lia.
    + rewrite (proj2 (Z.ltb_lt _ _)) by lia. split; [lia|]. rewrite (proj2 (Z.ltb_lt _ _)) in P6 by lia. rewrite <- P6. apply Hdata. by right.
Qed.

Lemma new_inode_bit n : 1 <= n <= total_inodes sb -> TestBit (inode_bitmap_ r) (n - 1) = (n =? 1) || (enabled g && (n =? 2)).
Proof.
  intros Hn. pose proof (lay_ib_size _ Hlay). cbn [inode_bitmap_ new_reader].
  rewrite (inode_bit sb Hlay g (n - 1) (pl_root _ _ _ Hpl)) by lia. rewrite (proj2 (Z.leb_gt _ _)) by lia. cbn [orb].
  f_equal; [|f_equal]; apply bool_decide_ext || (destruct (Z.eqb_spec (n - 1) 0), (Z.eqb_spec n 1); lia) || (destruct (Z.eqb_spec (n - 1) 1), (Z.eqb_spec n 2); lia).
Qed.

Lemma new_root_read : answer d (ReadInode r 1) = Ok root.
Proof.
  pose proof (lay_root _ Hlay) as Hr. apply (read_inode_iff r d new_view Hlay). cbn [rd_superblock new_reader]. split; [lia|].
  split; [by rewrite new_inode_bit by lia|]. split; [by rewrite root_slot|apply new_root_valid].
Qed.

Lemma new_ledger_read : enabled g = true -> answer d (ReadInode r 2) = Ok ledger.
Proof.
  intros He. pose proof (lp_inodes _ _ (pl_placed _ _ _ Hpl He)). apply (read_inode_iff r d new_view Hlay). cbn [rd_superblock new_reader].
  split; [lia|]. split; [by rewrite new_inode_bit, He by lia|]. split; [rewrite ledger_slot by done; by apply Dledger|by apply new_ledger_valid].
Qed.

Lemma new_reads n J : answer d (ReadInode r n) = Ok J -> (n = 1 /\ J = root) \/ (enabled g = true /\ n = 2 /\ J = ledger).
Proof.
  intros E. pose proof E as (Hn & Hb & _)%(read_inode_iff r d new_view Hlay). cbn [rd_superblock new_reader] in Hn. rewrite new_inode_bit in Hb by done.
  destruct (Z.eqb_spec n 1) as [->|]; [left; rewrite new_root_read in E; by injection E|]. destruct (decide (enabled g = true)) as [He|He%not_true_is_false]; rewrite He in Hb; [|done].
  destruct (Z.eqb_spec n 2) as [->|]; [|done]. right. rewrite new_ledger_read in E by done. by injection E.
Qed.

Lemma new_opened : opened r d.
Proof.
  pose proof (pl_placed _ _ _ Hpl) as Hp. destruct new_bitmaps as [B1 B2]. destruct (data_bounds sb Hlay) as (D1 & D2 & _).
  destruct (block_capacity sb Hlay) as (_ & C2 & C3). pose proof (lay_ib_size _ Hlay) as [I1 I2]. pose proof (lay_root _ Hlay) as Hroot.
  constructor; cbn [rd_superblock image_size_ rd_journal_control rd_journal_control_copy inode_bitmap_ block_bitmap_ new_reader].
  - exact new_view.
  - exact new_image_ok.
  - exact new_selected.
  - exact B1.
  - exact B2.
  - intros n Hn. rewrite (block_bit sb Hlay g Hp) by lia. rewrite (proj2 (Z.ltb_lt _ _)) by lia. by rewrite !orb_true_r.
  - rewrite (length_inode_bitmap sb Hlay g). intros n Hn. rewrite (inode_bit sb Hlay g n (pl_root _ _ _ Hpl)) by lia. by rewrite (proj2 (Z.leb_le _ _)) by lia.
  - rewrite (length_block_bitmap sb Hlay g Hp). intros n Hn. rewrite (block_bit sb Hlay g Hp) by lia. by rewrite (proj2 (Z.leb_le _ _)) by lia.
  - exists root. rewrite (pl_root _ _ _ Hpl). split; [apply new_root_read|done].
Qed.

(** ** Ownership *)
Lemma owned_root : owned d root = if enabled g then [ds] else [].
Proof.
  clear Dledger. unfold owned, file_pointers. cbn [indirect_block root_record]. change (0 =? 0) with true. rewrite app_nil_r.
  unfold root_record at 2, required_blocks. cbn [i_size]. destruct (enabled g) eqn:He; [|done].
  change (wrap32 _) with 1. change (counting 1) with [0]. cbn [map]. by rewrite root_pointer, He by lia.
Qed.

Lemma owned_ledger : enabled g = true -> owned d ledger = ledger_blocks g ++ (if lg_indirect_block g =? 0 then [] else [lg_indirect_block g]).
Proof.
  intros He. unfold owned, file_pointers. rewrite (ledger_required He). cbn [indirect_block ledger_record]. f_equal.
  rewrite (placed_blocks sb Hlay g (pl_placed _ _ _ Hpl) He). apply map_ext_in. intros l Hl%list_elem_of_In%elem_counting.
  by rewrite ledger_pointer, (proj2 (Z.ltb_lt _ _)) by (done || lia).
Qed.

Lemma taken_once : NoDup (ledger_taken sb g).
Proof.
  clear Dledger. unfold ledger_taken. destruct (enabled g) eqn:He; [|constructor]. pose proof (pl_placed _ _ _ Hpl) as Hp. destruct (Hp He) as [P1 _ _ _ _ P6 _ _].
  destruct (data_bounds sb Hlay) as (D1 & _).
  rewrite (placed_blocks sb Hlay g Hp He), P6. set (tl := if _ =? 0 then [] else _).
  assert (forall b, b ∈ tl -> b = ds + 1 + data_block_count g) as Htl.
  { unfold tl. destruct (12 <? _); [|by intros ? ?%not_elem_of_nil]. rewrite (proj2 (Z.eqb_neq _ _)) by lia. by intros b ->%list_elem_of_singleton. }
  apply NoDup_cons. split.
  - rewrite elem_of_app, list_elem_of_fmap. intros [(l & ? & Hl%elem_counting)|?%Htl]; lia.
  - apply NoDup_app. split; [|split].
    + apply NoDup_fmap_2; [intros ?? ?; lia|]. unfold counting. apply NoDup_fmap_2; [intros ?? ?; lia|apply NoDup_seq].
    + intros b (l & -> & Hl%elem_counting)%list_elem_of_fmap Hb%Htl. lia.
    + unfold tl. destruct (_ =? 0); [constructor|apply NoDup_singleton].
Qed.

Lemma new_consistent : consistent r d.
Proof.
  pose proof taken_once as Hnd. unfold ledger_taken in Hnd. constructor.
  - apply new_opened.
  - intros n Ha. unfold IsInodeAllocated in Ha. apply andb_prop in Ha as [[H1%Z.leb_le H2%Z.leb_le]%andb_prop Hb]. cbn [rd_superblock new_reader] in H2.
    rewrite new_inode_bit in Hb by lia.
    destruct (Z.eqb_spec n 1) as [->|]; [exists root; apply new_root_read|]. destruct (decide (enabled g = true)) as [He|He%not_true_is_false]; rewrite He in Hb; [|done].
    destruct (Z.eqb_spec n 2) as [->|]; [exists ledger; by apply new_ledger_read|done].
  - intros n J [[_ ->]|(He & _ & ->)]%new_reads.
    + rewrite owned_root. destruct (enabled g); [apply NoDup_singleton|constructor].
    + rewrite owned_ledger by done. rewrite He in Hnd. by apply NoDup_cons in Hnd as [_ ?].
  - intros n n' J J' Hne [[-> ->]|(He & -> & ->)]%new_reads [[-> ->]|(He' & -> & ->)]%new_reads b; try done.
    + rewrite owned_root, owned_ledger, He' by done. rewrite He' in Hnd. apply NoDup_cons in Hnd as [Hn _]. by intros ->%list_elem_of_singleton.
    + rewrite owned_root, owned_ledger, He by done. rewrite He in Hnd. apply NoDup_cons in Hnd as [Hn _]. intros Hb ->%list_elem_of_singleton. done.
Qed.

(** ** The files *)
Definition formatted_files : files := fun n =>
  if n =? 1 then Some (root, if enabled g then directory_bytes else [])
  else if enabled g && (n =? 2) then Some (ledger, zeros (Z.to_nat (file_size g)))
  else None.

Lemma zero_blocks n : concat (replicate n zero_block) = zeros (n * BlockLen).
Proof. induction n as [|n IH]; [done|]. cbn [replicate concat]. rewrite IH. unfold zeros. by rewrite <- replicate_add. Qed.

Lemma new_root_bytes : file_bytes d root = if enabled g then directory_bytes else [].
Proof.
  clear Dledger. unfold file_bytes, file_blocks. destruct (enabled g) eqn:He.
  - assert (required_blocks root = 1) as -> by (unfold root_record, required_blocks; cbn [i_size]; by rewrite He).
    assert (i_size root = kBlockSize) as -> by (cbn [i_size root_record]; by rewrite He).
    change (counting 1) with [0]. cbn [map concat]. rewrite root_pointer, He, app_nil_r by lia. cbn [andb Z.eqb].
    unfold block_at. rewrite (proj1 (image_ledger He)). change (default [] (Some ?b)) with b. apply take_ge. by rewrite (proj1 Hdb).
  - assert (i_size root = 0) as -> by (cbn [i_size root_record]; by rewrite He). done.
Qed.

Lemma new_ledger_bytes : enabled g = true -> file_blocks d ledger = replicate (Z.to_nat (data_block_count g)) zero_block /\
  file_bytes d ledger = zeros (Z.to_nat (file_size g)).
Proof.
  intros He. destruct (pl_placed _ _ _ Hpl He) as [P1 _ _ _ _ _ _ P8]. pose proof BlockLen_Z as HB.
  assert (file_blocks d ledger = replicate (Z.to_nat (data_block_count g)) zero_block) as Eb.
  { unfold file_blocks. rewrite (ledger_required He). apply list_eq_same_length with (Z.to_nat (data_block_count g)).
    - by rewrite length_replicate.
    - by rewrite length_map, length_counting.
    - intros i x y Hi Hx Hy. apply lookup_replicate in Hy as [-> _]. rewrite list_lookup_fmap in Hx.
      destruct (counting _ !! i) as [l|] eqn:El; [|done]. injection Hx as <-. apply list_elem_of_lookup_2, elem_counting in El.
      rewrite ledger_pointer, (proj2 (Z.ltb_lt _ _)) by (done || lia). unfold block_at. by rewrite (proj1 (proj2 (image_ledger He))). }
  split; [done|]. unfold file_bytes. rewrite Eb, zero_blocks. cbn [i_size ledger_record]. rewrite P8.
  replace (Z.to_nat (data_block_count g * 4096)) with (Z.to_nat (data_block_count g) * BlockLen)%nat by nia.
  unfold zeros. by rewrite take_replicate, Nat.min_id.
Qed.

Lemma formatted_files_shown : file_at r d ≡ formatted_files.
Proof.
  intros n. unfold formatted_files. destruct (Z.eqb_spec n 1) as [->|H1].
  - by rewrite (file_at_ok _ _ _ _ new_root_read), new_root_bytes.
  - destruct (decide (enabled g = true /\ n = 2)) as [[He ->]|Hno].
    + rewrite He. cbn [andb Z.eqb]. change (2 =? 2) with true. cbv iota. rewrite (file_at_ok _ _ _ _ (new_ledger_read He)). by rewrite (proj2 (new_ledger_bytes He)).
    + rewrite if_false by (destruct (enabled g); [|done]; destruct (Z.eqb_spec n 2); [|done]; exfalso; auto).
      unfold file_at. destruct (answer d (ReadInode r n)) as [J|] eqn:E; [|done]. apply new_reads in E as [[-> _]|(He & -> & _)]; [done|]. exfalso. auto.
Qed.

(** The root directory lists the ledger, or nothing. *)
Lemma new_root_lists : lists formatted_files 1 (if enabled g then [entry2] else []).
Proof.
  destruct (decide (enabled g = true)) as [He|He%not_true_is_false].
  - exists root, directory_bytes, [[entry2]]. unfold formatted_files at 1. rewrite He. pose proof BlockLen_Z as HB. destruct Hdb as [Hl _].
    assert (chunks directory_bytes = [directory_bytes]) as Ec.
    { rewrite <- (app_nil_r directory_bytes) at 1. change (directory_bytes ++ []) with (concat [directory_bytes]). apply chunks_concat. by repeat constructor. }
    split; [done|]. split; [done|]. split.
    { rewrite Ec. constructor; [|constructor]. apply tile_cons; [intros ->; cbn in Hl; lia|by apply Dledger|].
      rewrite drop_ge by (cbn [record_length entry2]; lia). constructor. }
    split; [done|]. split; [apply NoDup_singleton|]. constructor; [|constructor]. exists ledger, (zeros (Z.to_nat (file_size g))).
    unfold formatted_files. by rewrite He.
  - exists root, [], []. unfold formatted_files at 1. rewrite He. split; [done|]. split; [done|]. split; [constructor|]. split; [done|]. split; constructor.
Qed.

Lemma zero_slots : block_slots zero_block = replicate 32 zero_slot.
Proof.
  apply list_eq_same_length with 32%nat; [by rewrite length_replicate|apply length_block_slots|].
  intros i x y Hi Hx Hy. apply lookup_replicate in Hy as [-> _]. rewrite block_slots_lookup in Hx by done. injection Hx as <-.
  apply slice_zeros. pose proof BlockLen_Z. unfold LedgerLen. lia.
Qed.

(** ** The ledger is empty *)
Lemma scan_zero_blocks n : Z.of_nat n <= 1036 -> ScanBlocks (replicate n zero_block) = Ok (mkIndex (Z.of_nat n * 32) 1 ∅).
Proof.
  intros Hn. unfold ScanBlocks. assert (concat (map block_slots (replicate n zero_block)) = ledger_slots [] (n * 32)) as ->.
  { unfold ledger_slots. cbn [map app]. clear Hn. induction n as [|n IH]; [done|]. cbn [replicate map concat].
    rewrite IH, zero_slots, <- replicate_add. done. }
  rewrite scan_complete; [|intros i x E; by rewrite lookup_nil in E|constructor|by intros x Hx%not_elem_of_nil|lia|cbn [length]; lia].
  rewrite index_of_nil, (left_id_L ∅ (∪)), map_size_empty, length_replicate. done.
Qed.

Lemma new_ledger_in : enabled g = true -> ledger_in sb formatted_files (mkIndex (entry_count g) 1 ∅).
Proof.
  intros He. destruct (pl_placed _ _ _ Hpl He) as [P1 P2 _ _ _ _ _ P8]. unfold ledger_in.
  rewrite (pl_features _ _ _ Hpl), He, (pl_root _ _ _ Hpl). split; [done|]. split; [done|]. split.
  - pose proof new_root_lists as Hl. rewrite He in Hl. exists [entry2], entry2. split; [done|]. split; [by left|done].
  - exists ledger, (zeros (Z.to_nat (file_size g))). split; [unfold formatted_files; by rewrite He|]. pose proof BlockLen_Z as HB. split.
    + unfold bad_ledger. cbn [inode_number mode link_count i_size ledger_record]. rewrite P8.
      change kBlockSize with 4096. change kRequestLedgerRecordSize with 128. rewrite (proj2 (Z.eqb_neq (data_block_count g * 4096) 0)) by lia.
      rewrite Z.mod_mul by lia. replace (data_block_count g * 4096) with (data_block_count g * 32 * 128) by lia. by rewrite Z.mod_mul by lia.
    + replace (zeros (Z.to_nat (file_size g))) with (concat (replicate (Z.to_nat (data_block_count g)) zero_block)).
      * rewrite chunks_concat by (apply Forall_replicate; apply length_replicate). rewrite scan_zero_blocks by lia. do 2 f_equal. lia.
      * rewrite zero_blocks, P8. f_equal. nia.
Qed.

(** ** The journal is clean *)
Lemma new_ring i : 0 <= i < ring_size sb -> ring_at sb d i = block_of (invalidated o d0) (ring_block sb i).
Proof.
  intros Hi. destruct (regions_ordered sb Hlay) as (R1 & R2 & R3 & R4 & R5 & R6 & R7 & R8 & R9).
  pose proof (geo_data _ (lay_geo _ Hlay)). unfold ring_at, block_of, ring_block, ring_size in *.
  rewrite image_other by lia. unfold base_image. rewrite lookup_resized, (proj2 (Z.leb_le 0 _)), (proj2 (Z.ltb_lt _ _)) by lia. done.
Qed.

Lemma zero_not_commit : is_ok (DecodeCommit zero_block) = false.
Proof. vm_compute. reflexivity. Qed.

Lemma new_ready : (force o = true -> ring_fresh sb d0 1) -> (force o = false -> d0 = ∅) ->
  ready sb (total_blocks sb * kBlockSize) d (with_checksum (first_control sb) checksum) kA.
Proof.
  intros Hf Hn. constructor; [exact new_image_ok|exact new_selected|]. intros i cm Hi Hdec. rewrite new_ring in Hdec by done.
  destruct (regions_ordered sb Hlay) as (R1 & R2 & R3 & R4 & R5 & R6 & R7 & R8 & R9). unfold invalidated in Hdec.
  destruct (force o).
  - apply (Hf eq_refl i cm Hi). unfold ring_at, block_of, ring_block in *. by rewrite lookup_insert_ne in Hdec by lia.
  - rewrite Hn in Hdec by done. unfold block_of in Hdec. rewrite lookup_empty in Hdec. pose proof zero_not_commit as Hz.
    change (default zero_block None) with zero_block in Hdec. by rewrite Hdec in Hz.
Qed.
End image.
