(* ===== verification/MkfsTheorems.v ===== *)
(** What formatting an image guarantees (src/storage/mkfs.cpp): the image opens
    as an empty store, a crash never leaves a superblock over an incomplete
    body, and a failed format leaves no new path behind. *)
From S2P Require Import Prelude Codec OndiskFormat OndiskFormatProofs DirectoryEntry OndiskJournal OndiskJournalProofs.
From S2P Require Import Disk JournalStore JournalImage CrashLogic JournalStates RecoveryProofs JournalTheorems.
From S2P Require Import BitmapAllocator RequestLedger RequestLedgerProofs ImageReader ImageReaderProofs ReaderTheorems.
From S2P Require Import LedgerStore ConsistentImage Publication FileSystem ObjectBackend BackendProofs LedgerFiles.
From S2P Require Import IdempotentProofs StoreRefinement Mkfs MkfsBitmaps MkfsFormat MkfsImage.
Open Scope Z_scope.
Open Scope mkfs_scope.

(** The content the format starts from: that of an existing file, or none. *)
Definition opened_content (f : host_file) : image := if f_linked f then f_blocks f else ∅.

Definition format_time (w : surroundings) : Z := wrap64 (tv_sec w * 1000000000 + tv_nsec w).

(** The image [d] that a format of a file with content [d0] writes, with its
    superblock and its files. *)
Definition fresh_image (o : MkfsOptions) (w : surroundings) (d0 : image) (sb : Superblock) (g : RequestLedgerGeometry) (fs : files) (d : image) : Prop :=
  planned o sb g /\ exists root_bytes control_bytes checksum ledger_bytes directory_bytes superblock_bytes,
  (DecodeInode root_bytes 1 = Ok (root_record sb g w) /\ length root_bytes = InodeLen /\ bytes_ok root_bytes) /\
  (DecodeControl control_bytes = Ok (with_checksum (first_control sb) checksum) /\ block_wf control_bytes) /\
  (enabled g = true -> DecodeInode ledger_bytes 2 = Ok (ledger_record sb g w) /\ DecodeDirectoryEntry directory_bytes = Ok entry2) /\
  (length ledger_bytes = InodeLen /\ bytes_ok ledger_bytes) /\ block_wf directory_bytes /\
  (DecodeSuperblock superblock_bytes = Ok sb /\ block_wf superblock_bytes) /\
  fs = formatted_files sb g w directory_bytes /\
  d = formatted o sb g root_bytes control_bytes ledger_bytes directory_bytes superblock_bytes d0.

(** The requests a new ledger remembers: none. *)
Definition new_index (g : RequestLedgerGeometry) : option RequestLedgerIndex :=
  if enabled g then Some (mkIndex (entry_count g) 1 ∅) else None.

(** ** A fresh image opens *)
Lemma fresh_opens o w d0 sb g fs d path bo : surroundings_typed w -> wf_blocks d0 -> fresh_image o w d0 sb g fs d ->
  (force o = true -> ring_fresh sb d0 1) -> (force o = false -> d0 = ∅) -> options_ok path bo ->
  exists e b action, Open path bo (fresh_start (image_size_bytes o) d) = (e, Ok (b, action)) /\
    let st := mkStore b (disk e) (durability_of d (trace e)) in
    store_ok sb (image_size_bytes o) bo st /\ forall s, shows st s -> same_shown (fs, new_index g) s.
Proof.
  intros Hw Hd0 [Hpl (rb & cb & ck & lb & db & sbb & [R1 R2] & [C1 C2] & L & L2 & D & [S1 S2] & -> & ->)] Hfresh Hnew Hopt.
  set (d := formatted _ _ _ _ _ _ _ _ _). set (r := new_reader sb g ck).
  assert (consistent r d) as Hc by exact (new_consistent o sb g Hpl w rb cb lb db sbb ck R1 R2 C1 C2 L L2 D S1 S2 d0 Hd0).
  assert (clean_image (rd_superblock r) (image_size_ r) d) as Hcl.
  { exists (with_checksum (first_control sb) ck), kA. split; [|done].
    exact (new_ready o sb g Hpl rb cb lb db sbb ck R2 C1 C2 L2 D S1 S2 d0 Hd0 Hfresh Hnew). }
  assert (image_size_ r = image_size_bytes o) as Hz by (symmetry; apply (pl_size _ _ _ Hpl)).
  set (b := mkBackend bo (Some r) None None).
  assert (serving b (fresh_start (image_size_bytes o) d) r) as Hs by (constructor; done).
  pose proof (idle_restart b _ r Hs d (synced_outcome r d [])) as Hre. cbn [disk fresh_start] in Hre.
  assert (file_at r d ≡ formatted_files sb g w db) as Hf by exact (formatted_files_shown o sb g Hpl w rb cb lb db sbb ck R1 R2 C2 L L2 D S2 d0 Hd0).
  assert (ledger_shown sb (file_at r d, new_index g)) as Hl.
  { unfold ledger_shown, new_index. cbn [fst snd]. destruct (decide (enabled g = true)) as [He|He%not_true_is_false]; rewrite He.
    - rewrite Hf. by eapply new_ledger_in.
    - unfold has_ledger. by rewrite (pl_features _ _ _ Hpl), He. }
  destruct (open_restarted path bo r d (file_at r d)) as (b2 & e2 & r2 & Hro); [done| |done|].
  { intros Hh. unfold ledger_shown, new_index in Hl. cbn [fst snd] in Hl. destruct (enabled g); [by eexists|change (has_ledger sb = true) in Hh; congruence]. }
  destruct (ro_open _ _ _ _ _ _ _ _ Hro) as [action E]. rewrite Hz in E. exists e2, b2, action. split; [done|].
  destruct (reopen_store sb (image_size_bytes o) path bo Hopt r b d (file_at r d, new_index g) b2 e2 action eq_refl Hz eq_refl Hl Hre E) as [H1 H2].
  split; [done|]. intros s Hsh. destruct (H2 s Hsh) as [F1 F2]. split; [|done]. cbn [fst] in *. by rewrite <- Hf.
Qed.

(** ** The steps before the file is open *)
Lemma random_ok script : forall filled rest r, getrandom_loop 16 filled script = (rest, r) -> script = [] -> is_ok r = true /\ rest = [].
Proof. intros filled rest r E ->. cbn in E. destruct (16 <=? filled); by injection E as <- <-. Qed.

(** The clock can be stored. *)
Definition time_fits (w : surroundings) : Prop := 0 <= tv_sec w <= (18446744073709551615 - tv_nsec w) / 1000000000.

(** A file that has not been opened yet. *)
Definition not_opened (f f' : host_file) : Prop := exists s, f' = set_script f s.

(** A call leaves the file alone and succeeds when the system does. *)
Lemma host_call_run op f : exists s r, host_call op f = (set_script f s, r) /\ (f_script f = [] -> s = [] /\ r = Ok tt).
Proof.
  unfold host_call. destruct (f_script f) as [|[n|e] rest] eqn:E; [exists [], (Ok tt)|exists rest, (Ok tt)|exists rest, (Err (SystemError op e))].
  - split; [|done]. destruct f; cbn in *. by subst.
  - done.
  - done.
Qed.

Lemma identity_run w f : surroundings_typed w -> exists s r, (uuid <- FillRandom w ;; t <- CurrentTimeNs w ;; fret (uuid, t)) f = (set_script f s, r) /\
  (forall x, r = Ok x -> x = (random_bytes w, format_time w) /\ time_fits w) /\
  (f_script f = [] -> s = [] /\ (r = Ok (random_bytes w, format_time w) \/ ~ time_fits w)).
Proof.
  intros Hw. unfold fbind, FillRandom. destruct (getrandom_loop 16 0 (f_script f)) as [s0 r0] eqn:Er.
  destruct r0 as [[]|er].
  2:{ exists s0, (Err er). split; [done|]. split; [done|]. intros Hn. by destruct (random_ok _ _ _ _ Er Hn). }
  unfold CurrentTimeNs, fbind. destruct (host_call_run "clock_gettime" (set_script f s0)) as (s1 & r1 & -> & H1). destruct r1 as [[]|er].
  - destruct (_ || _) eqn:Et.
    + exists s1, (Err (Message "current time does not fit the on-disk timestamp")). split; [done|]. split; [done|].
      intros Hn. split; [apply H1, (random_ok _ _ _ _ Er Hn)|]. right.
      unfold time_fits. apply orb_true_iff in Et as [Et%Z.ltb_lt|Et%Z.ltb_lt]; lia.
    + exists s1, (Ok (random_bytes w, format_time w)). split; [done|]. split; [intros x [= <-]; split; [done|]; bool_to_prop; unfold time_fits; lia|].
      intros Hn. split; [apply H1, (random_ok _ _ _ _ Er Hn)|by left].
  - exists s1, (Err er). split; [done|]. split; [done|]. intros Hn. destruct (H1 (proj2 (random_ok _ _ _ _ Er Hn))) as [_ ?]. done.
Qed.

Lemma format_starts o w f f' res : options_typed o -> surroundings_typed w -> FormatImage o w f = (f', res) ->
  (not_opened f f' /\ is_ok res = false /\
   (f_script f = [] -> is_ok (plan_layout o) = false \/ ~ time_fits w \/
      (f_linked f = true /\ force o = false))) \/
  exists sb g f1, planned o sb g /\ is_ok (plan_layout o) = true /\ time_fits w /\ f_linked f1 = true /\ f_blocks f1 = opened_content f /\ f_trace f1 = f_trace f /\ (f_script f = [] -> f_script f1 = []) /\
    (f_linked f = true -> force o = true) /\ with_cleanup (negb (force o)) (format_open_file o w sb g) f1 = (f', res).
Proof.
  intros Ho Hw H. unfold FormatImage in H. destruct (plan_layout o) as [[l g]|er] eqn:Ep.
  2:{ injection H as <- <-. left. split; [exists (f_script f); by destruct f|]. split; [done|]. intros _. by left. }
  destruct (identity_run w f Hw) as (s & r & Hid & Hval & Hcalm).
  assert (FormatImage o w f = (fbind (uuid <- FillRandom w ;; t <- CurrentTimeNs w ;; fret (uuid, t)) (fun x =>
    open_image (force o) ;; with_cleanup (negb (force o)) (format_open_file o w (with_identity l (stamp_uuid x.1) x.2) g))) f) as Eq.
  { unfold FormatImage. rewrite Ep. unfold fbind. destruct (FillRandom w f) as [f1 [u|]]; [|done]. by destruct (CurrentTimeNs w f1) as [f2 [t|]]. }
  unfold FormatImage in Eq. rewrite Ep in Eq. rewrite Eq in H. clear Eq. unfold fbind at 1 in H. rewrite Hid in H.
  destruct r as [x|er].
  2:{ injection H as <- <-. left. split; [by exists s|]. split; [done|]. intros Hn. destruct (Hcalm Hn) as [_ [?|?]]; [done|auto]. }
  destruct (Hval x eq_refl) as [-> Hfit]. cbn [fst snd] in H.
  unfold open_image, fbind in H. destruct (host_call_run "open image" (set_script f s)) as (s1 & r1 & E1 & H1). rewrite E1 in H.
  destruct r1 as [[]|er].
  2:{ injection H as <- <-. left. split; [by exists s1|]. split; [done|]. intros Hn. by destruct (H1 (proj1 (Hcalm Hn))). }
  cbn [f_linked set_script] in H.
  assert (planned o (with_identity l (stamp_uuid (random_bytes w)) (format_time w)) g) as Hpl.
  { apply plan_planned; [done|done|apply stamp_uuid_typed; apply Hw|apply wrap64_u64]. }
  destruct (f_linked f) eqn:El.
  - destruct (force o) eqn:Ef.
    + right. eexists _, g, (set_script f s1). split; [exact Hpl|]. do 3 (split; [done|]). unfold opened_content. rewrite El. do 2 (split; [done|]).
      split; [intros Hn; apply (H1 (proj1 (Hcalm Hn)))|]. by split.
    + injection H as <- <-. left. split; [by exists s1|]. split; [done|]. auto.
  - right. eexists _, g, (mkFile true ∅ 0 s1 (f_trace f)). split; [exact Hpl|]. do 3 (split; [done|]). unfold opened_content. rewrite El. do 2 (split; [done|]).
    split; [intros Hn; apply (H1 (proj1 (Hcalm Hn)))|]. by split.
Qed.

(** What a crash leaves: everything but block 0 as it was (only an existing file
    that is overwritten can be in this state), no superblock, or the complete
    body of the image [d]. *)
Definition crash_left (o : MkfsOptions) (d0 d c : image) : Prop :=
  (force o = true /\ forall blk, blk <> 0 -> c !! blk = d0 !! blk) \/
  (c !! 0 = None \/ c !! 0 = Some zero_block) \/
  (forall blk, blk <> 0 -> c !! blk = d !! blk).

Lemma format_outcome o w f f' res : options_typed o -> surroundings_typed w -> f_trace f = [] -> wf_blocks (opened_content f) ->
  FormatImage o w f = (f', res) ->
  (not_opened f f' /\ is_ok res = false /\
   (f_script f = [] -> is_ok (plan_layout o) = false \/ ~ time_fits w \/
      (f_linked f = true /\ force o = false))) \/
  exists sb g fs d, fresh_image o w (opened_content f) sb g fs d /\ (is_ok (plan_layout o) = true /\ time_fits w) /\ (f_linked f = true -> force o = true) /\
    (f_script f = [] -> is_ok res = true) /\ f_linked f' = is_ok res || force o /\
    (forall p c, p `prefix_of` f_trace f' -> host_crash (opened_content f) p c -> crash_left o (opened_content f) d c) /\
    (forall s, res = Ok s -> s = sb /\ f_blocks f' = d /\ f_size f' = image_size_bytes o /\ exactly (host_state (opened_content f) (f_trace f')) d).
Proof.
  intros Ho Hw Ht Hwf H. destruct (format_starts o w f f' res Ho Hw H) as [Hn|(sb & g & f1 & Hpl & Hplan & Hfit & L1 & B1 & T1 & S1 & F1 & E1)]; [by left|right].
  destruct (encodings_exist o sb g Hpl w Hw) as (rb & cb & ck & lb & db & sbb & (R0 & R1 & R2) & (C0 & C1 & C2) & L0 & L & L2 & D & S0 & S2 & S3).
  assert (force o = false -> opened_content f = ∅) as Hnew.
  { intros Hf. unfold opened_content. destruct (f_linked f); [|done]. by rewrite F1 in Hf. }
  set (d0 := opened_content f) in *. set (d := formatted o sb g rb cb lb db sbb d0).
  pose proof (format_open_file_safe o w sb (planned_layout o sb g Hpl) g (pl_placed _ _ _ Hpl) (pl_size _ _ _ Hpl) rb cb lb db sbb ck
    R0 C0 L0 S0 R2 C2 L2 D S3 d0 Hwf Hnew f1) as Hrun.
  assert (stage_exact d0 d0 f1) as Hst.
  { split; [done|]. rewrite T1, Ht. split; [done|]. split; [done|]. by intros blk x ->. }
  specialize (Hrun Hst). unfold with_cleanup in E1. destruct (format_open_file o w sb g f1) as [f2 r2].
  destruct Hrun as (Hl2 & N2 & t & T2 & P2 & R).
  assert (f_trace f' = t /\ res = r2 /\ f_linked f' = is_ok r2 || force o /\ (forall s, r2 = Ok s -> f' = f2)) as (E2 & -> & E3 & E4).
  { rewrite T1, Ht in T2. destruct r2 as [s|er]; [by injection E1 as <- <-; rewrite Hl2, L1|].
    destruct (force o); injection E1 as <- <-; cbn [negb is_ok orb f_trace set_linked f_linked]; [by rewrite Hl2, L1|done]. }
  exists sb, g, (formatted_files sb g w db), d. split; [|split; [done|split; [done|split; [|split; [done|split]]]]].
  - split; [done|]. exists rb, cb, ck, lb, db, sbb. done.
  - intros Hn. by apply N2, S1.
  - intros p c Hp Hc. destruct (decide (p = [])) as [->|Hne].
    + unfold crash_left. assert (forall blk, c !! blk = d0 !! blk) as Hc0 by exact Hc. destruct (force o) eqn:Ef; [by left|].
      right. left. left. rewrite Hc0, Hnew, lookup_empty by done. done.
    + rewrite E2 in Hp. specialize (P2 p Hp Hne). rewrite T1, Ht in P2. cbn [app] in P2. destruct P2 as [[Hf P2]|[P2|P2]].
      * left. split; [done|]. intros blk Hb. apply P2; [done|apply Hc].
      * right. left. apply P2, Hc.
      * right. right. intros blk Hb. unfold d, formatted. rewrite lookup_insert_ne by done. apply P2; [done|apply Hc].
  - intros s Hs. rewrite Hs in R, E4. rewrite (E4 s eq_refl). destruct R as (-> & [R3 R4] & R5). rewrite (pl_size _ _ _ Hpl). done.
Qed.

(** * Claims *)
Section format.
Context (o : MkfsOptions) (w : surroundings) (Ho : options_typed o) (Hw : surroundings_typed w).
Context (f : host_file) (Hstart : f_trace f = []) (Hblocks : wf_blocks (opened_content f)).

(** C20. A formatted image is a working, empty store. After a successful format,
    under any behaviour of the system calls, the file has the requested size
    and everything written to it is durable; opening it as an object store
    succeeds and the store satisfies its invariant; it shows exactly the files
    of a new image (a root directory, and the ledger's file if one was asked
    for) and a ledger with the requested capacity that remembers no request.
    An old file that is overwritten must hold no COMMIT record where the new
    ring will be, which the format does not check. *)
Theorem formatted_image_serves f' sb path bo :
  FormatImage o w f = (f', Ok sb) -> (f_linked f = true -> ring_fresh sb (f_blocks f) 1) -> options_ok path bo ->
  f_size f' = image_size_bytes o /\
  (forall c, host_crash (opened_content f) (f_trace f') c -> c = f_blocks f') /\
  exists e b action g fs, Open path bo (fresh_start (f_size f') (f_blocks f')) = (e, Ok (b, action)) /\
    let st := mkStore b (disk e) (durability_of (f_blocks f') (trace e)) in
    store_ok sb (f_size f') bo st /\ (forall s, shows st s -> same_shown (fs, new_index g) s) /\
    entry_count g = request_ledger_entries o /\
    lists fs 1 (if enabled g then [entry2] else []) /\
    (forall n, is_Some (fs n) <-> n = 1 \/ (n = 2 /\ request_ledger_entries o <> 0)).
Proof.
  intros E Hring Hopt. destruct (format_outcome o w f f' (Ok sb) Ho Hw Hstart Hblocks E) as [(_ & ? & _)|(sb' & g & fs & d & Hfr & Hgood & Hforce & _ & Hl & _ & Hok)]; [done|].
  destruct (Hok sb eq_refl) as (-> & Hd & Hz & (_ & _ & Hex)). split; [done|]. split.
  { intros c Hc. apply map_eq. intros blk. rewrite Hd. apply Hex, Hc. }
  assert (force o = true -> ring_fresh sb' (opened_content f) 1) as Hring'.
  { intros _. unfold opened_content. destruct (f_linked f); [by apply Hring|]. intros i cm Hi Hdec. exfalso.
    unfold ring_at, block_of in Hdec. rewrite lookup_empty in Hdec. change (default zero_block None) with zero_block in Hdec.
    pose proof zero_not_commit as Hz0. by rewrite Hdec in Hz0. }
  assert (force o = false -> opened_content f = ∅) as Hnew.
  { intros Hf. unfold opened_content. destruct (f_linked f); [|done]. by rewrite Hforce in Hf. }
  destruct (fresh_opens o w (opened_content f) sb' g fs d path bo Hw Hblocks Hfr Hring' Hnew Hopt) as (e & b & action & Eo & Hst & Hsh).
  exists e, b, action, g, fs. rewrite Hz, Hd. split; [done|]. split; [done|]. split; [done|].
  destruct Hfr as [Hpl (rb & cb & ck & lb & db & sbb & [_ R2] & _ & L & L2 & D & _ & -> & _)].
  split; [apply Hpl|]. split; [exact (new_root_lists sb' g w rb lb db R2 L L2 D)|].
  intros n. unfold formatted_files. rewrite <- (pl_entries _ _ _ Hpl). unfold enabled. destruct (Z.eqb_spec n 1) as [->|H1]; [split; [by left|done]|].
  destruct (Z.eqb_spec (entry_count g) 0), (Z.eqb_spec n 2); cbn [negb andb].
  - split; [by intros []|by intros [?|[? ?]]].
  - split; [by intros []|by intros [?|[? ?]]].
  - split; [intros _; right; by split|intros _; by eexists].
  - split; [by intros []|by intros [?|[? ?]]].
Qed.

(** C21. The superblock is published last. Wherever a crash falls in a format,
    and whatever the blocks then being written end up holding, the file is
    still the old one but for its first block (only when an existing file is
    overwritten), or it has no superblock, or its body is that of the complete
    image. *)
Theorem format_crash_safe f' res p c :
  FormatImage o w f = (f', res) -> p `prefix_of` f_trace f' -> host_crash (opened_content f) p c ->
  ((force o = true \/ c = opened_content f) /\ forall blk, blk <> 0 -> c !! blk = opened_content f !! blk) \/
  (forall b, c !! 0 = Some b -> is_ok (DecodeSuperblock b) = false) \/
  exists sb g fs d, fresh_image o w (opened_content f) sb g fs d /\ forall blk, blk <> 0 -> c !! blk = d !! blk.
Proof.
  intros E Hp Hc. destruct (format_outcome o w f f' res Ho Hw Hstart Hblocks E) as [((s & ->) & _)|(sb & g & fs & d & Hfr & Hgood & Hforce & _ & Hl & Hcr & _)].
  - cbn [f_trace set_script] in Hp. rewrite Hstart in Hp. apply prefix_nil_inv in Hp as ->.
    assert (c = opened_content f) as -> by (apply map_eq; intros blk; apply Hc). left. split; [by right|done].
  - destruct (Hcr p c Hp Hc) as [[Hf Hold]|[H0|Hbody]].
    + left. split; [by left|done].
    + right. left. intros b Hb. destruct H0 as [H0|H0]; rewrite H0 in Hb; [done|]. injection Hb as <-. vm_compute. reflexivity.
    + right. right. by exists sb, g, fs, d.
Qed.

End format.

(** * Formatting over an old image *)
(** The ring of an overwritten image keeps its old blocks. *)
Theorem reformat_keeps_ring o w f f' sb i :
  options_typed o -> surroundings_typed w -> f_trace f = [] -> wf_blocks (opened_content f) ->
  FormatImage o w f = (f', Ok sb) -> f_linked f = true -> 0 <= i < ring_size sb -> ring_at sb (f_blocks f') i = ring_at sb (f_blocks f) i.
Proof.
  intros Ho Hw Ht Hb E Hl Hi. destruct (format_outcome o w f f' (Ok sb) Ho Hw Ht Hb E) as [(_ & ? & _)|(sb' & g & fs & d & Hfr & _ & Hforce & _ & _ & _ & Hok)]; [done|].
  destruct (Hok sb eq_refl) as (-> & -> & _). destruct Hfr as [Hpl (rb & cb & ck & lb & db & sbb & [_ R2] & _ & _ & L2 & _ & _ & _ & ->)].
  rewrite (new_ring o sb' g Hpl rb cb lb db sbb R2 L2) by done. unfold invalidated, opened_content. rewrite Hl, (Hforce Hl). unfold ring_at, block_of, ring_block.
  destruct (regions_ordered sb' (planned_layout o sb' g Hpl)) as (Q1 & Q2 & Q3 & Q4 & Q5 & Q6 & Q7 & Q8 & Q9).
  by rewrite lookup_insert_ne by lia.
Qed.

(** An exposed transaction whose COMMIT position still holds a COMMIT of the
    same number from an earlier life of the file cannot be recovered: the image
    is refused at every start although nothing was committed. *)
Theorem stale_commit_refused sb size d v c s desc meta cm :
  ready sb size d v c -> superblock_ s = sb -> current_ s = v -> reload_required_ s = false ->
  exposed sb d v desc meta -> DecodeCommit (commit_block sb d v meta) = Ok cm ->
  cr_transaction_id cm = dr_transaction_id desc -> CommitMatchesDescriptor desc (tail v) cm = false ->
  is_ok (ClassifyRecovery (s, fresh_start size d)).2 = false.
Proof.
  intros Hr Hsb Hcur Hrel Hexp Hdec Hid Hno.
  assert (runs sb d size False (fun _ _ => True) ClassifyRecovery s (V d [] []) (fun _ _ _ => False)) as Hrun.
  { eapply runs_classify_exposed with (desc := desc) (meta := meta); try done.
    - intros Hu. by apply (Hu cm Hdec).
    - intros (cm' & E & Hm). rewrite Hdec in E. injection E as <-. congruence. }
  specialize (Hrun (fresh_start size d)). destruct (ClassifyRecovery (s, fresh_start size d)) as [[s' e'] r].
  destruct Hrun as (_ & _ & HQ); [done|done|]. destruct r as [a|]; [|done]. by destruct HQ as (v' & _ & []).
Qed.

(** * A concrete format *)
Definition mkfs_options0 : MkfsOptions := mkMkfsOptions [47; 105] 163840 64 16 480 false.
Definition surroundings0 : surroundings := mkSurroundings (repeat 7 16) 5 6 1000 1000.
Definition no_file : host_file := mkFile false ∅ 0 [] [].

Lemma options0_typed : options_typed mkfs_options0.
Proof. unfold options_typed. cbn. conj_split; word. Qed.

Lemma surroundings0_typed : surroundings_typed surroundings0.
Proof. unfold surroundings_typed. cbn -[bytes_ok u32]. conj_split; try done; try word. apply Forall_forall. intros x Hx. repeat (apply elem_of_cons in Hx as [->|Hx]; [word|]). by apply not_elem_of_nil in Hx. Qed.

Lemma no_file_blocks : wf_blocks (opened_content no_file).
Proof. intros k b. cbn. by rewrite lookup_empty. Qed.

Lemma format0 : exists f' sb, FormatImage mkfs_options0 surroundings0 no_file = (f', Ok sb).
Proof.
  destruct (FormatImage mkfs_options0 surroundings0 no_file) as [f' res] eqn:E. exists f'.
  destruct (format_outcome mkfs_options0 surroundings0 no_file f' res options0_typed surroundings0_typed eq_refl no_file_blocks E) as [(_ & _ & H)|(sb & g & fs & d & _ & _ & _ & H & _)].
  - destruct (H eq_refl) as [Hp|[Ht|[? ?]]]; [|exfalso; apply Ht; unfold time_fits; vm_compute; split; discriminate|done].
    assert (is_ok (plan_layout mkfs_options0) = true) as Ho by (vm_compute; reflexivity). congruence.
  - destruct res as [sb'|er]; [by exists sb'|]. by specialize (H eq_refl).
Qed.

Lemma formatted_image_serves_witness : exists f' sb e b action,
  FormatImage mkfs_options0 surroundings0 no_file = (f', Ok sb) /\
  Open [47; 120] (mkOptions 420 0 0) (fresh_start (f_size f') (f_blocks f')) = (e, Ok (b, action)) /\
  store_ok sb (f_size f') (mkOptions 420 0 0) (mkStore b (disk e) (durability_of (f_blocks f') (trace e))).
Proof.
  destruct format0 as (f' & sb & E).
  assert (options_ok [47; 120] (mkOptions 420 0 0)) as Hopt by (split; [discriminate|reflexivity]).
  assert (f_linked no_file = true -> ring_fresh sb (f_blocks no_file) 1) as Hring by discriminate.
  destruct (formatted_image_serves mkfs_options0 surroundings0 options0_typed surroundings0_typed no_file eq_refl no_file_blocks
    f' sb [47; 120] (mkOptions 420 0 0) E Hring Hopt) as (_ & _ & e & b & action & g & fs & H1 & H2 & _).
  exists f', sb, e, b, action. exact (conj E (conj H1 H2)).
Defined.

(** The crashes that keep what the page cache shows, anywhere in a format. *)
Lemma format_crash_safe_witness : exists f' sb, FormatImage mkfs_options0 surroundings0 no_file = (f', Ok sb) /\
  forall p, p `prefix_of` f_trace f' -> let c := hv_live (host_state (opened_content no_file) p) in
  ((force mkfs_options0 = true \/ c = opened_content no_file) /\ forall blk, blk <> 0 -> c !! blk = opened_content no_file !! blk) \/
  (forall b, c !! 0 = Some b -> is_ok (DecodeSuperblock b) = false) \/
  exists sb g fs d, fresh_image mkfs_options0 surroundings0 (opened_content no_file) sb g fs d /\ forall blk, blk <> 0 -> c !! blk = d !! blk.
Proof.
  destruct format0 as (f' & sb & E). exists f', sb. split; [exact E|]. intros p Hp.
  exact (format_crash_safe mkfs_options0 surroundings0 options0_typed surroundings0_typed no_file eq_refl no_file_blocks
    f' (Ok sb) p _ E Hp (live_may_stay _ p)).
Defined.

