(* ===== verification/EmptyFileCreate.v ===== *)
(** Creating the first file through the mount
    (src/metadata/empty_file_create_plan.h, src/metadata/empty_file_create_plan.cpp):
    one plan that gives an empty root directory its first block and its first
    entry. [LoadRegion], [InodeTableBlock] and [InodeOffsetInBlock] of that file
    are the same code as in file_mutation_plan.cpp and are shared here. *)
From S2P Require Import Prelude Codec OndiskFormat OndiskFormatProofs DirectoryEntry OndiskJournal Disk JournalStore.
From S2P Require Import JournalImage JournalStates BitmapAllocator ImageReader ImageReaderProofs ReaderTheorems.
From S2P Require Import LedgerStore FileMutation ConsistentImage PlanProofs FileMutationProofs FileMutationPublish.
From S2P Require Import FileContents Publication FileTheorems NewObject ObjectPublish NewObjectProofs RootPlans.
From S2P Require Import ObjectPlans NewObjectPlans FileSystem PlanTheorems.
Open Scope Z_scope.
Open Scope io_scope.

Record EmptyFileCreatePlan := mkEmptyPlan {
  ep_inode_number : Z;
  ep_directory_block : Z;
  ep_total_blocks : Z;
  ep_filesystem_uuid : bytes;
  ep_before_images : image;
  ep_after_images : image;
  ep_write_order : list Z
}.

(** The block of a bitmap that holds [bit]. *)
Definition bitmap_local (bit : Z) : Z := bit / (kBlockSize * 8).

Definition CopyBitmapBlock (bitmap : bytes) (local_block : Z) : bytes := BitmapBlock bitmap local_block.

(** The root after it got its first block. *)
Definition first_block_root (root : InodeRecord) (directory_block timestamp_ns : Z) : InodeRecord :=
  mkInode (inode_number root) (mode root) (uid root) (gid root) (link_count root) kBlockSize
    (atime_ns root) timestamp_ns timestamp_ns (flags root) (generation root)
    (<[0%nat := directory_block]> (direct_blocks root)) (indirect_block root).

Definition empty_file (number permissions user group timestamp_ns : Z) : InodeRecord :=
  mkInode number (Z.lor S_IFREG (Z.land permissions 511)) user group 1 0
    timestamp_ns timestamp_ns timestamp_ns 0 1 (replicate 12 0) 0.

Definition root_in_use (root : InodeRecord) : bool :=
  negb (i_size root =? 0) || negb (indirect_block root =? 0) || existsb (fun block => negb (block =? 0)) (direct_blocks root).

Section image.
Context (r : ImageReader).
Abbreviation sb := (rd_superblock r).

Definition MutableExistingBlock (block_number : Z) (blocks : image) : io (image * bytes) :=
  match blocks !! block_number with
  | Some block => io_ret (blocks, block)
  | None =>
    let* block := ReadBlock r block_number in
    io_ret (<[block_number := block]> blocks, block)
  end.

(** After both reservations. *)
Definition plan_first_file (object_name : bytes) (permissions user group timestamp_ns : Z) (root : InodeRecord)
    (inode_bitmap block_bitmap : bytes) (inode_bit block_bit : Z) : io EmptyFileCreatePlan :=
  let number := wrap32 (inode_bit + 1) in
  let directory_block := block_bit in
  let inode_bitmap_home := wrap32 (start_block (OndiskFormat.inode_bitmap sb) + bitmap_local inode_bit) in
  let* inode_bitmap_before := ReadBlock r inode_bitmap_home in
  let before := <[inode_bitmap_home := inode_bitmap_before]> ∅ in
  let after := <[inode_bitmap_home := CopyBitmapBlock inode_bitmap (bitmap_local inode_bit)]> ∅ in
  let block_bitmap_home := wrap32 (start_block (OndiskFormat.block_bitmap sb) + bitmap_local block_bit) in
  let* block_bitmap_before := ReadBlock r block_bitmap_home in
  let before := <[block_bitmap_home := block_bitmap_before]> before in
  let after := <[block_bitmap_home := CopyBitmapBlock block_bitmap (bitmap_local block_bit)]> after in
  let root_table_block := InodeTableBlock sb (root_inode sb) in
  let* (after, root_table_after) := MutableExistingBlock root_table_block after in
  let before := <[root_table_block := root_table_after]> before in
  match EncodeInode (first_block_root root directory_block timestamp_ns) with
  | Err _ => io_fail EUCLEAN
  | Ok root_bytes =>
    let after := <[root_table_block := put_inode (root_inode sb) root_bytes root_table_after]> after in
    let file_table_block := InodeTableBlock sb number in
    let* (after, file_table_after) := MutableExistingBlock file_table_block after in
    match EncodeInode (empty_file number permissions user group timestamp_ns) with
    | Err _ => io_fail EINVAL
    | Ok file_bytes =>
      let after := <[file_table_block := put_inode number file_bytes file_table_after]> after in
      let* directory_before := ReadBlock r directory_block in
      let before := <[directory_block := directory_before]> before in
      match EncodeDirectoryEntry (mkDirectoryEntry number kRegular object_name 0) kBlockSize zero_block with
      | Err _ => io_fail EINVAL
      | Ok directory_after =>
        let after := <[directory_block := directory_after]> after in
        io_ret (mkEmptyPlan number directory_block (total_blocks sb) (sb_filesystem_uuid sb) before after
                  [directory_block; inode_bitmap_home; block_bitmap_home; root_table_block])
      end
    end
  end.

Definition PrepareRootEmptyFileCreate (object_name : bytes) (permissions user group timestamp_ns : Z)
    : io EmptyFileCreatePlan :=
  let* root := ReadInode r (root_inode sb) in
  if negb (S_ISDIR (mode root)) then io_fail EUCLEAN
  else if root_in_use root then io_fail EOPNOTSUPP
  else
  let* inode_bitmap := LoadRegion r (OndiskFormat.inode_bitmap sb) in
  let* block_bitmap := LoadRegion r (OndiskFormat.block_bitmap sb) in
  let inode_allocator := mkAllocator inode_bitmap (total_inodes sb) 0 in
  let block_allocator := mkAllocator block_bitmap (total_blocks sb) (start_block (OndiskFormat.data sb)) in
  match Validate inode_allocator, Validate block_allocator with
  | Ok _, Ok _ =>
    let* (inode_allocator, inode_bit) := io_of (ReserveBlock inode_allocator) in
    let* (block_allocator, block_bit) := io_of (ReserveBlock block_allocator) in
    plan_first_file object_name permissions user group timestamp_ns root
      (bitmap_ inode_allocator) (bitmap_ block_allocator) inode_bit block_bit
  | _, _ => io_fail EUCLEAN
  end.
End image.

(** The planner of the first file of a mount against the planner of new objects:
    on an empty root both plan the same change. *)
(** * One changed bit *)
Lemma reserve_sets a a' b : alloc_ok a -> ReserveBlock a = Ok (a', b) -> bitmap_ a' = SetBit (bitmap_ a) b.
Proof.
  intros Hok. unfold ReserveBlock. destruct (Reserve a None) as [[a1 rv] res] eqn:E.
  destruct (reserve_inv a Hok a1 rv res E) as [(bit & -> & -> & -> & _)|(-> & -> & -> & _)]; [|done].
  by intros [= <- <-].
Qed.

(** Setting a free bit changes the block that holds it and no other. *)
Lemma bit_changes_block bitmap bit l : 0 <= bit -> 0 <= l -> in_bitmap bitmap bit -> bytes_ok bitmap ->
  TestBit bitmap bit = false -> (BitmapBlock bitmap l = BitmapBlock (SetBit bitmap bit) l <-> l <> bitmap_local bit).
Proof.
  intros Hb Hl Hin Hok Hf. pose proof BlockLen_Z. unfold bitmap_local, kBlockSize. set (i := Z.to_nat (bit / 8)).
  assert (Z.of_nat i = bit / 8) as Ei by (unfold i; rewrite Z2Nat.id; [done|by apply Z.div_pos]).
  assert (bit / 8 / 4096 = bit / (4096 * 8)) as E by (rewrite Z.div_div by lia; f_equal; lia). split.
  - intros Heq ->. set (l := bit / (4096 * 8)) in *.
    assert (nth i bitmap 0 = nth i (SetBit bitmap bit) 0) as Hn.
    { pose proof (f_equal (fun x => nth (i - Z.to_nat (l * 4096)) x 0) Heq) as Hn. cbv beta in Hn. unfold BitmapBlock, slice, kBlockSize in Hn.
      assert (0 <= bit / 8 - l * 4096 < 4096) as Hr by (rewrite <- E; pose proof (Z.mod_pos_bound (bit / 8) 4096 ltac:(lia)); pose proof (Z.div_mod (bit / 8) 4096 ltac:(lia)); lia).
      rewrite !nth_lookup, !lookup_take_lt, !lookup_drop in Hn by lia.
      replace (Z.to_nat (l * 4096) + (i - Z.to_nat (l * 4096)))%nat with i in Hn by lia. by rewrite !nth_lookup. }
    assert (TestBit (SetBit bitmap bit) bit = true) as Ht by (rewrite TestBit_SetBit by done; by rewrite Z.eqb_refl).
    unfold TestBit, byte_at in Hf, Ht. fold i in Hf, Ht. rewrite Hn in Hf. congruence.
  - intros Hne. unfold BitmapBlock, slice, SetBit, put_byte. fold i. apply list_eq. intros k.
    destruct (decide (k < BlockLen)%nat) as [Hk|Hk]; [|by rewrite !lookup_take_ge by lia].
    rewrite !lookup_take_lt, !lookup_drop by done. rewrite list_lookup_insert_ne; [done|]. intros Hi. apply Hne. unfold kBlockSize in Hi.
    rewrite <- E. apply Z.div_unique with (Z.of_nat k); lia.
Qed.

Lemma diff_none region before after : forall ls im, (forall l, l ∈ ls -> BitmapBlock before l = BitmapBlock after l) ->
  diff_bitmap region before after ls im = im.
Proof.
  induction ls as [|l ls IH]; intros im H; [done|]. rewrite diff_bitmap_cons, bool_decide_eq_true_2 by (apply H; by left).
  apply IH. intros x Hx. apply H. by right.
Qed.

Lemma diff_single region before after l0 : forall ls im, NoDup ls -> l0 ∈ ls ->
  (forall l, l ∈ ls -> BitmapBlock before l = BitmapBlock after l <-> l <> l0) ->
  diff_bitmap region before after ls im = add_metadata (wrap32 (start_block region + l0)) (BitmapBlock before l0) (BitmapBlock after l0) im.
Proof.
  induction ls as [|l ls IH]; intros im Hnd Hin H; [by apply not_elem_of_nil in Hin|]. apply NoDup_cons in Hnd as [Hl Hnd].
  rewrite diff_bitmap_cons. apply elem_of_cons in Hin as [->|Hin].
  - rewrite bool_decide_eq_false_2 by (intros E; apply (H l) in E; [done|by left]). apply diff_none.
    intros x Hx. apply H; [by right|]. by intros ->.
  - rewrite bool_decide_eq_true_2 by (apply H; [by left|by intros ->]). apply IH; [done|done|]. intros x Hx. apply H. by right.
Qed.

Lemma answer_ret {A B} d (a : A) (k : A -> io B) : answer d (io_bind (io_ret a) k) = answer d (k a).
Proof. reflexivity. Qed.

Lemma NoDup_counting n : NoDup (counting n).
Proof. unfold counting. apply (NoDup_fmap_2 Z.of_nat), NoDup_seq. Qed.

#[export] Instance reading_existing r k im : Reading (MutableExistingBlock r k im).
Proof. unfold MutableExistingBlock. destruct (im !! k); apply _. Qed.

(** * Both planners on an empty root *)
Section plans.
Context (r : ImageReader) (d : image) (Hc : consistent r d).
Abbreviation sb := (rd_superblock r).
Abbreviation rt := (root_inode sb).
Let Ho := co_opened _ _ Hc.
Let Hv := op_view _ _ Ho.

Context (root : InodeRecord) (Hroot : answer d (ReadInode r rt) = Ok root) (Hdir : S_ISDIR (mode root) = true).
Context (Hempty : i_size root = 0).
Context (object_name : bytes) (permissions user group ts : Z).
Context (Hname : bytes_ok object_name) (Huser : u32 user) (Hgroup : u32 group) (Hts : u64 ts).
Context (ia ba : BitmapAllocator) (ibit db : Z).
Context (Hri : ReserveBlock (inode_allocator r) = Ok (ia, ibit)) (Hrb : ReserveBlock (block_allocator r) = Ok (ba, db)).
Abbreviation n := (ibit + 1).
Abbreviation ihome := (start_block (inode_bitmap sb) + bitmap_local ibit).
Abbreviation bhome := (start_block (block_bitmap sb) + bitmap_local db).

Lemma bit_home region bitmap bit limit : 0 <= bit < limit -> limit <= block_count region * 32768 ->
  Z.of_nat (length bitmap) = block_count region * 4096 ->
  0 <= bitmap_local bit < block_count region /\ in_bitmap bitmap bit.
Proof.
  intros Hb Hl Hlen. unfold bitmap_local, kBlockSize, in_bitmap. split; [|lia].
  split; [apply Z.div_pos; lia|apply Z.div_lt_upper_bound; lia].
Qed.

Lemma first_inode_bit : 0 <= ibit < total_inodes sb /\ 0 <= bitmap_local ibit < block_count (inode_bitmap sb) /\
  takes (inode_allocator r) [ibit] ia /\
  forall l, l ∈ counting (block_count (inode_bitmap sb)) ->
    BitmapBlock (inode_bitmap_ r) l = BitmapBlock (bitmap_ ia) l <-> l <> bitmap_local ibit.
Proof.
  destruct (inode_allocator_ok r d Hc) as [Hok _]. pose proof (reserve_one _ Hok) as T. rewrite Hri in T.
  destruct (tk_free _ _ _ T ibit ltac:(by left)) as [Hb Hf]. cbn [inode_allocator first_allocatable_bit_ valid_bits_ bitmap_] in Hb, Hf.
  destruct (inode_bitmap_bytes r d Ho) as (_ & Hbok & Hl). destruct (region_bounds r d Ho) as (L & _). pose proof (lay_ib_size _ L).
  destruct (bit_home (inode_bitmap sb) (inode_bitmap_ r) ibit (total_inodes sb)) as [H1 H2]; [done|lia|lia|].
  split; [done|]. split; [done|]. split; [done|]. intros l [Hl0 _]%elem_counting.
  rewrite (reserve_sets _ _ _ Hok Hri). cbn [inode_allocator bitmap_]. apply bit_changes_block; try done; lia.
Qed.

Lemma first_block_bit : start_block (OndiskFormat.data sb) <= db < total_blocks sb /\ 0 <= bitmap_local db < block_count (block_bitmap sb) /\
  takes (block_allocator r) [db] ba /\
  forall l, l ∈ counting (block_count (block_bitmap sb)) ->
    BitmapBlock (block_bitmap_ r) l = BitmapBlock (bitmap_ ba) l <-> l <> bitmap_local db.
Proof.
  destruct (block_allocator_ok r d Ho) as (Hok & _). pose proof (reserve_one _ Hok) as T. rewrite Hrb in T.
  destruct (tk_free _ _ _ T db ltac:(by left)) as [Hb Hf]. cbn [block_allocator first_allocatable_bit_ valid_bits_ bitmap_] in Hb, Hf.
  destruct (block_bitmap_bytes r d Ho) as (_ & Hbok & Hl). destruct (region_bounds r d Ho) as (L & _). pose proof (lay_bb_size _ L).
  pose proof (vo_data _ _ Hv).
  destruct (bit_home (block_bitmap sb) (block_bitmap_ r) db (total_blocks sb)) as [H1 H2]; [lia|lia|lia|].
  split; [done|]. split; [done|]. split; [done|]. intros l [Hl0 _]%elem_counting.
  rewrite (reserve_sets _ _ _ Hok Hrb). cbn [block_allocator bitmap_]. apply bit_changes_block; try done; lia.
Qed.

Lemma empty_blocks : required_blocks root = 0 /\ file_blocks d root = [].
Proof.
  destruct (root_count r d Hc root Hroot Hdir) as (H1 & H2 & _). assert (required_blocks root = 0) as E by lia. split; [done|].
  unfold file_blocks. by rewrite E.
Qed.

Lemma empty_lists : directory_lists r d rt [].
Proof.
  exists root, []. destruct empty_blocks as [_ ->]. conj_split; try done; constructor.
Qed.

Lemma write_inode_cases number inode im : 1 <= number <= total_inodes sb ->
  answer d (write_inode r number inode im) =
  match EncodeInode inode with Ok encoded => Ok (put_table sb d number encoded im) | Err _ => Err EUCLEAN end.
Proof.
  intros Hn. destruct (EncodeInode inode) as [encoded|] eqn:E; [by apply (write_inode_answer r d Hc)|].
  unfold write_inode, MutableMetadataBlock. cbv zeta. destruct (table_range r d Ho number Hn) as [_ Ht]. rewrite E.
  destruct (im_metadata im !! InodeTableBlock sb number); [done|].
  rewrite answer_bind, (answer_bind_ok _ _ _ _ _ (answer_read_block r d Hv _ Ht)) by apply _. done.
Qed.

Abbreviation entry := (mkDirectoryEntry n kRegular object_name 0).
Abbreviation root' := (first_block_root root db ts).
Abbreviation file := (empty_file n permissions user group ts).

(** The images both planners arrive at. *)
Definition first_images (dirb enc1 enc2 : bytes) : images :=
  add_metadata bhome (BitmapBlock (block_bitmap_ r) (bitmap_local db)) (BitmapBlock (bitmap_ ba) (bitmap_local db))
  (add_metadata ihome (BitmapBlock (inode_bitmap_ r) (bitmap_local ibit)) (BitmapBlock (bitmap_ ia) (bitmap_local ibit))
  (put_table sb d n enc2 (put_table sb d rt enc1 (add_metadata db (block_at d db) dirb (mkImages ∅ ∅ ∅))))).

Lemma home_small : wrap32 n = n /\ wrap32 ihome = ihome /\ wrap32 bhome = bhome /\ 0 <= ihome < total_blocks sb /\ 0 <= bhome < total_blocks sb.
Proof.
  destruct first_inode_bit as (Hi & Hil & _). destruct first_block_bit as (Hb & Hbl & _).
  destruct (ranges r d Hc) as (R1 & R2 & R3 & R4 & R5 & R6 & R7 & R8 & R9).
  assert (u32 (total_inodes sb)) as Hti by (destruct (geo_typed _ (lay_geo _ (opened_layout _ _ Ho))) as (_ & H & _); exact H).
  rewrite !wrap32_small by word. conj_split; try done; lia.
Qed.

Lemma object_on_empty : IsValidName object_name = true ->
  answer d (PrepareNewRootObject r object_name [] permissions user group ts) =
  match EncodeDirectoryEntry entry kBlockSize zero_block with
  | Err _ => Err EINVAL
  | Ok dirb =>
    match EncodeInode root' with
    | Err _ => Err EUCLEAN
    | Ok enc1 =>
      match EncodeInode file with
      | Err _ => Err EUCLEAN
      | Ok enc2 =>
        let im := first_images dirb enc1 enc2 in
        Ok (mkObjectPlan n 0 db true [] 0 0 (total_blocks sb) (sb_filesystem_uuid sb) (im_before im) (im_ordered im) (im_metadata im))
      end
    end
  end.
Proof.
  intros Hval. destruct empty_blocks as [Hreq _]. destruct first_inode_bit as (Hi & Hil & Ti & Hidiff). destruct first_block_bit as (Hb & Hbl & Tb & Hbdiff).
  destruct home_small as (En & Eih & Ebh & _). destruct (region_bounds r d Ho) as (L & _). pose proof (lay_root _ L) as Hrt.
  rewrite (object_prefix r d Hc root Hroot Hdir [] empty_lists object_name [] permissions user group ts Hval);
    [|done|by apply not_elem_of_nil].
  rewrite answer_of_bind, Hri by apply _. cbv zeta. rewrite En, Hempty. change (wrap32 (0 / kBlockSize)) with 0.
  change (counting 0) with (@nil Z). cbn [insert_into_root]. rewrite (answer_bind_ok _ _ _ (mkImages ∅ ∅ ∅, 0)) by (apply _ || done).
  cbn [Z.eqb]. unfold grow_root. change (kMaxFileSize / kBlockSize <=? 0) with false. cbv iota.
  pose proof (block_allocator_ok r d Ho) as Ha0.
  rewrite answer_bind, answer_bind by apply _. rewrite (fresh_answer r d Hc _ _ Ha0) by (intros b _; apply lookup_empty). rewrite Hrb.
  destruct (EncodeDirectoryEntry entry kBlockSize zero_block) as [dirb|]; [|done].
  change (0 <? kDirectBlockCount) with true. cbv iota.
  change (answer d (io_ret ?x)) with (@Ok errno _ x). cbv iota beta.
  assert (set_after db dirb (add_metadata db (block_at d db) zero_block (mkImages ∅ ∅ ∅)) = add_metadata db (block_at d db) dirb (mkImages ∅ ∅ ∅)) as ->.
  { unfold set_after, add_metadata. cbn [im_before im_ordered im_metadata]. by rewrite insert_insert_eq. }
  unfold publish_object. change (RequiredBlocks (Z.of_nat (length []))) with 0. change (counting 0) with (@nil Z). cbn [place_data].
  rewrite answer_ret. change (kDirectBlockCount <? 0) with false. cbv iota. rewrite answer_ret.
  change (negb (0 =? 0)) with false. cbn [andb]. rewrite answer_ret.
  change (with_mapping root (i_size root + kBlockSize) ?x ?y) with (with_mapping root (i_size root + kBlockSize) x y). rewrite Hempty.
  change (touched (with_mapping root (0 + kBlockSize) (<[Z.to_nat 0:=db]> (direct_blocks root)) (indirect_block root)) ts) with root'.
  change (new_file n permissions user group ts (Z.of_nat (length [])) (resize 12 0 (take 12 [])) 0) with file.
  rewrite answer_bind, write_inode_cases by (apply _ || done). destruct (EncodeInode root') as [enc1|]; [|done].
  rewrite answer_bind, write_inode_cases by (apply _ || (cbn; lia)). destruct (EncodeInode file) as [enc2|]; [|done].
  destruct (ranges r d Hc) as (R1 & R2 & R3 & R4 & R5 & R6 & R7 & R8 & R9).
  rewrite (answer_bind_ok _ _ _ _ _ (bitmap_images_answer r d Hc (inode_bitmap sb) (inode_bitmap_ r) (Snapshot ia) _ R9 (inode_region r d Hc []) _)).
  rewrite (answer_bind_ok _ _ _ _ _ (bitmap_images_answer r d Hc (block_bitmap sb) (block_bitmap_ r) (Snapshot ba) _ R9 (block_region r d Hc []) _)).
  unfold Snapshot. rewrite (diff_single _ _ _ (bitmap_local ibit) _ _ (NoDup_counting _) ltac:(by apply elem_counting) Hidiff), Eih.
  rewrite (diff_single _ _ _ (bitmap_local db) _ _ (NoDup_counting _) ltac:(by apply elem_counting) Hbdiff), Ebh. reflexivity.
Qed.

Lemma mutable_answer k im : 0 <= k < total_blocks sb ->
  answer d (MutableExistingBlock r k im) =
  Ok (match im !! k with Some b => (im, b) | None => (<[k := block_at d k]> im, block_at d k) end).
Proof.
  intros Hk. unfold MutableExistingBlock. destruct (im !! k); [done|].
  by rewrite (answer_bind_ok _ _ _ _ _ (answer_read_block r d Hv _ Hk)).
Qed.

(** The keys of the planned images. *)
Lemma keys_apart : let t1 := InodeTableBlock sb rt in let t2 := InodeTableBlock sb n in
  ihome <> bhome /\ ihome <> t1 /\ ihome <> t2 /\ ihome <> db /\ bhome <> t1 /\ bhome <> t2 /\ bhome <> db /\ t1 <> db /\ t2 <> db /\
  0 <= t1 < total_blocks sb /\ 0 <= t2 < total_blocks sb.
Proof.
  cbv zeta. destruct first_inode_bit as (Hi & Hil & _). destruct first_block_bit as (Hb & Hbl & _).
  destruct (ranges r d Hc) as (R1 & R2 & R3 & R4 & R5 & R6 & R7 & R8 & R9). destruct (region_bounds r d Ho) as (L & _). pose proof (lay_root _ L) as Hrt.
  destruct (table_range r d Ho rt Hrt). destruct (table_range r d Ho n ltac:(lia)). lia.
Qed.

Lemma first_file_answer dirb enc1 enc2 :
  EncodeDirectoryEntry entry kBlockSize zero_block = Ok dirb -> EncodeInode root' = Ok enc1 -> EncodeInode file = Ok enc2 ->
  let im := first_images dirb enc1 enc2 in
  exists order before, answer d (plan_first_file r object_name permissions user group ts root (bitmap_ ia) (bitmap_ ba) ibit db) =
    Ok (mkEmptyPlan n db (total_blocks sb) (sb_filesystem_uuid sb) before (im_metadata im) order) /\
    forall k, before !! k = if decide (k = InodeTableBlock sb n /\ k <> InodeTableBlock sb rt) then None else im_before im !! k.
Proof.
  intros E1 E2 E3. destruct keys_apart as (K1 & K2 & K3 & K4 & K5 & K6 & K7 & K8 & K9 & B1 & B2).
  destruct home_small as (En & Eih & Ebh & Hih & Hbh). destruct first_block_bit as (Hb & _). pose proof (vo_data _ _ Hv).
  unfold plan_first_file. rewrite En, Eih, Ebh.
  rewrite (answer_bind_ok _ _ _ _ _ (answer_read_block r d Hv _ Hih)), (answer_bind_ok _ _ _ _ _ (answer_read_block r d Hv _ Hbh)).
  rewrite (answer_bind_ok _ _ _ _ _ (mutable_answer _ _ B1)). rewrite !lookup_insert_ne, lookup_empty by done. cbv beta iota. rewrite E2.
  rewrite (answer_bind_ok _ _ _ _ _ (mutable_answer _ _ B2)).
  set (t1 := InodeTableBlock sb rt) in *. set (t2 := InodeTableBlock sb n) in *.
  assert (block_at d ihome = BitmapBlock (inode_bitmap_ r) (bitmap_local ibit) /\ block_at d bhome = BitmapBlock (block_bitmap_ r) (bitmap_local db)) as [-> ->].
  { destruct first_inode_bit as (_ & Hil & _). destruct first_block_bit as (_ & Hbl & _).
    split; symmetry; [apply (inode_region r d Hc [])|apply (block_region r d Hc [])]; by apply elem_counting. }
  assert (0 <= db < total_blocks sb) as Hdb by lia.
  unfold first_images, put_table. fold t1 t2. cbn [add_metadata im_metadata im_before im_ordered]. rewrite (lookup_insert_ne _ db t1), lookup_empty by done.
  cbn [add_metadata im_metadata im_before im_ordered]. destruct (decide (t1 = t2)) as [<-|Hne].
  - rewrite !lookup_insert_eq. cbv beta iota. rewrite E3, (answer_bind_ok _ _ _ _ _ (answer_read_block r d Hv _ Hdb)), E1. cbn [set_after im_metadata im_before im_ordered].
    eexists _, _. split.
    + unfold answer, io_ret. cbn [snd]. unfold CopyBitmapBlock. cbn [add_metadata set_after im_metadata im_before im_ordered]. do 2 f_equal. apply map_eq. intros k.
      rewrite !lookup_insert. repeat case_decide; subst; congruence.
    + intros k. rewrite decide_False by tauto. cbn [add_metadata set_after im_metadata im_before im_ordered]. rewrite !lookup_insert. repeat case_decide; subst; congruence.
  - rewrite (lookup_insert_ne _ t1 t2), !lookup_insert_ne, lookup_empty by done. cbv beta iota.
    rewrite E3, (answer_bind_ok _ _ _ _ _ (answer_read_block r d Hv _ Hdb)), E1.
    eexists _, _. split.
    + unfold answer, io_ret. cbn [snd]. unfold CopyBitmapBlock. cbn [add_metadata set_after im_metadata im_before im_ordered]. do 2 f_equal. apply map_eq. intros k.
      rewrite !lookup_insert. repeat case_decide; subst; congruence.
    + intros k. cbn [add_metadata set_after im_metadata im_before im_ordered]. destruct (decide (k = t2 /\ k <> t1)) as [[-> _]|Hk].
      * by rewrite !lookup_insert_ne, lookup_empty by done.
      * assert (t2 <> k) by (intros <-; apply Hk; done). rewrite !lookup_insert. repeat case_decide; subst; congruence.
Qed.

Lemma first_file_refused enc1 enc2 text :
  EncodeDirectoryEntry entry kBlockSize zero_block = Err text -> EncodeInode root' = Ok enc1 -> EncodeInode file = Ok enc2 ->
  answer d (plan_first_file r object_name permissions user group ts root (bitmap_ ia) (bitmap_ ba) ibit db) = Err EINVAL.
Proof.
  intros E1 E2 E3. destruct keys_apart as (_ & _ & _ & _ & _ & _ & _ & _ & _ & B1 & B2).
  destruct home_small as (En & Eih & Ebh & Hih & Hbh). destruct first_block_bit as (Hb & _). pose proof (vo_data _ _ Hv).
  assert (0 <= db < total_blocks sb) as Hdb by lia. unfold plan_first_file. rewrite En, Eih, Ebh.
  rewrite (answer_bind_ok _ _ _ _ _ (answer_read_block r d Hv _ Hih)), (answer_bind_ok _ _ _ _ _ (answer_read_block r d Hv _ Hbh)).
  rewrite (answer_bind_ok _ _ _ _ _ (mutable_answer _ _ B1)). destruct (match _ !! _ with Some _ => _ | None => _ end) as [im1 x1]. rewrite E2.
  rewrite (answer_bind_ok _ _ _ _ _ (mutable_answer _ _ B2)). destruct (match _ !! _ with Some _ => _ | None => _ end) as [im2 x2]. rewrite E3.
  by rewrite (answer_bind_ok _ _ _ _ _ (answer_read_block r d Hv _ Hdb)), E1.
Qed.
End plans.

(** * Outcomes *)
(** The plan of the first file is the plan of the new object without contents;
    the old block of the inode table is missing from the before-images when the
    new inode lies in another block than the root. *)
Record same_plan (r : ImageReader) (plan : EmptyFileCreatePlan) (np : NewObjectPlan) : Prop := {
  sp_number : ep_inode_number plan = np_inode_number np /\ ep_directory_block plan = np_directory_block np;
  sp_identity : ep_total_blocks plan = np_total_blocks np /\ ep_filesystem_uuid plan = np_filesystem_uuid np;
  sp_after : ep_after_images plan = np_metadata_after_images np;
  sp_ordered : np_ordered_data_after_images np = ∅;
  sp_table : is_Some (ep_after_images plan !! InodeTableBlock (rd_superblock r) (ep_inode_number plan));
  sp_before : forall k, ep_before_images plan !! k =
    if decide (k = InodeTableBlock (rd_superblock r) (ep_inode_number plan) /\
               k <> InodeTableBlock (rd_superblock r) (root_inode (rd_superblock r)))
    then None else np_before_images np !! k
}.

Lemma reserve_free a : alloc_ok a -> is_ok (ReserveBlock a) = negb (bool_decide (free_bits a = ∅)).
Proof.
  intros Hok. pose proof (reserve_one a Hok) as H. destruct (ReserveBlock a) as [[a' b]|er]; cbn [is_ok].
  - rewrite bool_decide_eq_false_2; [done|]. intros E. destruct (tk_free _ _ _ H b ltac:(by left)) as [H1 H2].
    apply (not_elem_of_empty (C:=gset Z) b). rewrite <- E. by apply elem_free_bits.
  - by rewrite bool_decide_eq_true_2 by apply H.
Qed.

Lemma reserve_error a er : alloc_ok a -> ReserveBlock a = Err er -> er = ENOSPC.
Proof. intros Hok E. pose proof (reserve_one a Hok) as H. rewrite E in H. apply H. Qed.

Section outcome.
Context (r : ImageReader) (d : image) (Hc : consistent r d).
Abbreviation sb := (rd_superblock r).
Let Ho := co_opened _ _ Hc.
Let Hv := op_view _ _ Ho.
Context (root : InodeRecord) (Hroot : answer d (ReadInode r (root_inode sb)) = Ok root).
Context (permissions user group ts : Z) (Huser : u32 user) (Hgroup : u32 group) (Hts : u64 ts).

Lemma root_directory_mode : S_ISDIR (mode root) = true.
Proof. destruct (op_root _ _ Ho) as (root0 & E & Hd). rewrite Hroot in E. by injection E as <-. Qed.

(** The checks and reads in front of the reservations. *)
Lemma first_prefix object_name : root_in_use root = false ->
  answer d (PrepareRootEmptyFileCreate r object_name permissions user group ts) =
  match ReserveBlock (inode_allocator r) with
  | Err er => Err er
  | Ok (ia, ibit) =>
    match ReserveBlock (block_allocator r) with
    | Err er => Err er
    | Ok (ba, db) => answer d (plan_first_file r object_name permissions user group ts root (bitmap_ ia) (bitmap_ ba) ibit db)
    end
  end.
Proof.
  intros Hfree. unfold PrepareRootEmptyFileCreate.
  rewrite (answer_bind_ok _ _ _ _ _ Hroot), root_directory_mode, Hfree. cbn [negb].
  destruct (ranges r d Hc) as (R1 & R2 & R3 & R4 & R5 & R6 & R7 & R8 & R9). destruct (region_bounds r d Ho) as (_ & _ & B1 & B2 & _).
  rewrite (answer_bind_ok _ _ _ _ _ (load_region_answer r d Hv (OndiskFormat.inode_bitmap sb) ltac:(lia) B1 ltac:(lia) R9)).
  rewrite (answer_bind_ok _ _ _ _ _ (load_region_answer r d Hv (OndiskFormat.block_bitmap sb) ltac:(lia) B2 ltac:(lia) R9)).
  destruct (inode_bitmap_bytes r d Ho) as (<- & _). destruct (block_bitmap_bytes r d Ho) as (<- & _).
  fold (inode_allocator r) (block_allocator r). destruct (inode_allocator_ok r d Hc) as [_ HVi].
  rewrite HVi, (allocator_valid r d Ho), answer_of_bind. destruct (ReserveBlock (inode_allocator r)) as [[ia ibit]|]; [|done].
  rewrite answer_of_bind. by destruct (ReserveBlock (block_allocator r)) as [[ba db]|].
Qed.

Context (Hfree : root_in_use root = false).
Context (ia ba : BitmapAllocator) (ibit db : Z).
Context (Hri : ReserveBlock (inode_allocator r) = Ok (ia, ibit)) (Hrb : ReserveBlock (block_allocator r) = Ok (ba, db)).

Lemma unused_empty : i_size root = 0.
Proof. unfold root_in_use in Hfree. apply orb_false_elim in Hfree as [[H%negb_false_iff _]%orb_false_elim _]. by apply Z.eqb_eq. Qed.

(** A new object without contents fits. *)
Lemma object_planned object_name : bytes_ok object_name -> IsValidName object_name = true ->
  exists np, answer d (PrepareNewRootObject r object_name [] permissions user group ts) = Ok np /\
    creates r d np object_name [] permissions user group ts.
Proof.
  intros Hb Hval. pose proof root_directory_mode as Hdir. pose proof unused_empty as Hz.
  destruct (empty_blocks r d Hc root Hroot Hdir Hz) as [Hreq Hfb].
  pose proof (accepted_outcome r d Hc root Hroot Hdir [] (empty_lists r d Hc root Hroot Hdir Hz) []) as H.
  rewrite Hfb in H. specialize (H ltac:(constructor) object_name [] permissions user group ts Hb ltac:(constructor) Huser Hgroup Hts Hval
    ltac:(vm_compute; discriminate) ltac:(by apply not_elem_of_nil)).
  assert (object_fits r root [] object_name [] = true) as Hfit; [|by rewrite Hfit in H].
  unfold object_fits, object_needs, grow_needs. rewrite Hreq. cbn [concat has_room existsb orb].
  destruct (inode_allocator_ok r d Hc) as [Hia _]. destruct (block_allocator_ok r d Ho) as (Hba & _).
  pose proof (reserve_free _ Hia) as F1. rewrite Hri in F1. cbn [is_ok] in F1. rewrite <- F1.
  pose proof (reserve_one _ Hba) as T. rewrite Hrb in T. pose proof (takes_count _ _ _ Hba T) as Hn. cbn [length] in Hn.
  change (0 <? 1036) with true. change (0 <? 12) with true. change (file_needs []) with 0. cbn [andb]. apply Z.leb_le. lia.
Qed.

Lemma first_encodes : exists enc1 enc2, EncodeInode (first_block_root root db ts) = Ok enc1 /\
  EncodeInode (empty_file (ibit + 1) permissions user group ts) = Ok enc2.
Proof.
  destruct (object_planned [97]) as (np & E & _); [apply Forall_singleton; word|done|].
  rewrite (object_on_empty r d Hc root Hroot root_directory_mode unused_empty [97] permissions user group ts ia ba ibit db Hri Hrb eq_refl) in E.
  destruct (EncodeDirectoryEntry _ _ _); [|done]. destruct (EncodeInode (first_block_root root db ts)) as [enc1|]; [|done].
  destruct (EncodeInode (empty_file (ibit + 1) permissions user group ts)) as [enc2|]; [|done]. by exists enc1, enc2.
Qed.

Lemma first_file_planned object_name : bytes_ok object_name -> IsValidName object_name = true ->
  exists plan np, answer d (plan_first_file r object_name permissions user group ts root (bitmap_ ia) (bitmap_ ba) ibit db) = Ok plan /\
    answer d (PrepareNewRootObject r object_name [] permissions user group ts) = Ok np /\
    creates r d np object_name [] permissions user group ts /\ same_plan r plan np.
Proof.
  intros Hb Hval. destruct (object_planned object_name Hb Hval) as (np & E & Hcr). pose proof E as E0.
  rewrite (object_on_empty r d Hc root Hroot root_directory_mode unused_empty object_name permissions user group ts ia ba ibit db Hri Hrb Hval) in E0.
  destruct (EncodeDirectoryEntry _ _ _) as [dirb|] eqn:E1; [|done]. destruct (EncodeInode (first_block_root root db ts)) as [enc1|] eqn:E2; [|done].
  destruct (EncodeInode (empty_file (ibit + 1) permissions user group ts)) as [enc2|] eqn:E3; [|done]. injection E0 as <-.
  destruct (first_file_answer r d Hc root object_name permissions user group ts ia ba ibit db Hri Hrb dirb enc1 enc2 E1 E2 E3) as (order & before & Ea & Hbe).
  eexists _, _. split; [exact Ea|]. split; [exact E|]. split; [done|]. constructor; try done.
  2: { cbn [ep_after_images ep_inode_number]. unfold first_images. cbn [add_metadata im_metadata].
       rewrite !is_Some_insert, put_table_lookup, decide_True by done. right. right. done. }
  cbn [np_ordered_data_after_images]. unfold first_images. cbn [add_metadata im_ordered]. by rewrite !put_table_ordered.
Qed.
End outcome.

Lemma invalid_name_refused e len b : IsValidName (name e) = false -> is_ok (EncodeDirectoryEntry e len b) = false.
Proof. intros H. unfold EncodeDirectoryEntry. rewrite H. cbn [negb]. by rewrite orb_true_r. Qed.

Lemma first_file_outcome r d root object_name permissions user group ts :
  consistent r d -> answer d (ReadInode r (root_inode (rd_superblock r))) = Ok root ->
  bytes_ok object_name -> u32 user -> u32 group -> u64 ts ->
  let planned := answer d (PrepareRootEmptyFileCreate r object_name permissions user group ts) in
  if root_in_use root then planned = Err EOPNOTSUPP
  else if bool_decide (free_bits (inode_allocator r) = ∅) || bool_decide (free_bits (block_allocator r) = ∅) then planned = Err ENOSPC
  else if negb (IsValidName object_name) then planned = Err EINVAL
  else exists plan np, planned = Ok plan /\ answer d (PrepareNewRootObject r object_name [] permissions user group ts) = Ok np /\
    creates r d np object_name [] permissions user group ts /\ same_plan r plan np.
Proof.
  intros Hc Hroot Hb Hu Hg Ht planned. destruct (root_in_use root) eqn:Eu.
  { unfold planned, PrepareRootEmptyFileCreate. rewrite (answer_bind_ok _ _ _ _ _ Hroot), (root_directory_mode r d Hc root Hroot). by rewrite Eu. }
  unfold planned. rewrite (first_prefix r d Hc root Hroot permissions user group ts object_name Eu).
  destruct (inode_allocator_ok r d Hc) as [Hia _]. destruct (block_allocator_ok r d (co_opened _ _ Hc)) as (Hba & _).
  pose proof (reserve_free _ Hia) as F1. pose proof (reserve_free _ Hba) as F2.
  destruct (ReserveBlock (inode_allocator r)) as [[ia ibit]|er] eqn:E1; cbn [is_ok] in F1; symmetry in F1.
  2: { apply negb_false_iff in F1. rewrite F1. by rewrite (reserve_error _ _ Hia E1). }
  apply negb_true_iff in F1. rewrite F1. cbn [orb].
  destruct (ReserveBlock (block_allocator r)) as [[ba db]|er] eqn:E2; cbn [is_ok] in F2; symmetry in F2.
  2: { apply negb_false_iff in F2. rewrite F2. by rewrite (reserve_error _ _ Hba E2). }
  apply negb_true_iff in F2. rewrite F2. destruct (IsValidName object_name) eqn:Ev; cbn [negb].
  - by apply first_file_planned.
  - destruct (first_encodes r d Hc root Hroot permissions user group ts Hu Hg Ht Eu ia ba ibit db E1 E2) as (enc1 & enc2 & X1 & X2).
    pose proof (invalid_name_refused (mkDirectoryEntry (ibit + 1) kRegular object_name 0) kBlockSize zero_block Ev) as Hno.
    destruct (EncodeDirectoryEntry _ kBlockSize zero_block) as [|text] eqn:X3; [done|].
    exact (first_file_refused r d Hc root object_name permissions user group ts ia ba ibit db E1 E2 enc1 enc2 text X3 X1 X2).
Qed.
