(* ===== verification/FuseMount.v ===== *)
(** The mount (src/fuse/mount_state.h, src/fuse/mount_state.cpp) and its callbacks
    (src/fuse/operations.cpp).

    Every callback runs under the mutex of the mount, so it is a function from
    the state and the system to the state, the system and its answer. A C
    pointer that may be null is an option. The time, the caller's user and group
    and the directory buffer of libfuse are arguments; messages to the error
    stream and error texts are left out. The session lives as long as the
    state. *)
From S2P Require Import Prelude Codec OndiskFormat Disk JournalStore BitmapAllocator ImageReader FileMutation.
From S2P Require Import EmptyFileCreate.
Open Scope Z_scope.

Definition EROFS : errno := EOTHER 30.

(** * The state of a mount *)
Record FuseMountState := mkMount {
  mt_reader : option ImageReader;
  mt_fatal_error : option errno
}.

(** A callback on the mount and the system. *)
Definition callback (A : Type) : Type := FuseMountState * env -> (FuseMountState * env) * result errno A.

Definition mount_usable (m : FuseMountState) : bool :=
  match mt_fatal_error m, mt_reader m with None, Some _ => true | _, _ => false end.

(** A code that is not negative becomes EIO. *)
Definition FailClosed (error : option errno) (m : FuseMountState) : FuseMountState :=
  mkMount None (Some (default EIO error)).

Definition ReloadReader : callback unit := fun '(m, e) =>
  match mt_fatal_error m with
  | Some _ => ((m, e), Err EIO)
  | None =>
    match DuplicateFd e with
    | (e, Err er) => ((FailClosed (Some er) m, e), Err er)
    | (e, Ok _) =>
      match ReaderAdoptLockedFd true e with
      | (e, Err er) => ((FailClosed (Some er) m, e), Err er)
      | (e, Ok candidate) => ((mkMount (Some candidate) (mt_fatal_error m), e), Ok tt)
      end
    end
  end.

Definition OpenFuseMountState (image_path : bytes) : io (FuseMountState * RecoveryAction) :=
  if bool_decide (image_path = []) then io_fail EINVAL
  else
  io_bind StartupRecovery (fun action =>
  io_bind DuplicateFd (fun _ =>
  io_bind (ReaderAdoptLockedFd true) (fun reader =>
  io_ret (mkMount (Some reader) None, action)))).

(** * Steps the callbacks share *)
(** A read through the reader; without one the mount answers EIO. *)
Definition reading {A} (k : ImageReader -> io A) : callback A := fun '(m, e) =>
  match mt_fatal_error m, mt_reader m with
  | None, Some reader => let '(e, r) := k reader e in ((m, e), r)
  | _, _ => ((m, e), Err EIO)
  end.

Definition Resolve (path : option bytes) : callback (Z * InodeRecord) := fun s =>
  match path with
  | None => (s, Err EINVAL)
  | Some path => reading (fun reader => ResolvePath reader path) s
  end.

(** What libfuse keeps for an open file or directory. *)
Record fuse_file_info := mkFileInfo { fi_flags : Z; fh : Z }.
Definition with_handle (file_info : fuse_file_info) (number : Z) : fuse_file_info :=
  mkFileInfo (fi_flags file_info) number.

(** * Attributes *)
Record timespec := mkTimespec { ts_sec : Z; ts_nsec : Z }.

Definition SetTimestamp (nanoseconds : Z) : timespec :=
  mkTimespec (nanoseconds / 1000000000) (nanoseconds mod 1000000000).

(** A conversion to a signed 64-bit type. *)
Definition signed64 (z : Z) : Z := (z + 9223372036854775808) mod 18446744073709551616 - 9223372036854775808.

Record stat := mkFileStat {
  st_ino : Z;
  st_mode : Z;
  st_uid : Z;
  st_gid : Z;
  st_nlink : Z;
  stat_size : Z;
  st_blksize : Z;
  st_blocks : Z;
  st_atim : timespec;
  st_mtim : timespec;
  st_ctim : timespec
}.

Definition FillStat (number : Z) (inode : InodeRecord) : stat :=
  mkFileStat number (mode inode) (uid inode) (gid inode) (link_count inode) (signed64 (i_size inode)) kBlockSize
    (signed64 (wrap64 (i_size inode + 511) / 512))
    (SetTimestamp (atime_ns inode)) (SetTimestamp (mtime_ns inode)) (SetTimestamp (ctime_ns inode)).

Definition Getattr (path : option bytes) : callback stat := fun s =>
  match Resolve path s with
  | (s, Err er) => (s, Err er)
  | (s, Ok (number, inode)) => (s, Ok (FillStat number inode))
  end.

(** * Directories *)
Definition Opendir (path : option bytes) (file_info : fuse_file_info) : callback fuse_file_info := fun s =>
  match Resolve path s with
  | (s, Err er) => (s, Err er)
  | (s, Ok (number, inode)) =>
    if negb (S_ISDIR (mode inode)) then (s, Err ENOTDIR) else (s, Ok (with_handle file_info number))
  end.

(** The inode of the handle, or of the path without one. *)
Definition handle_inode (path : option bytes) (file_info : option fuse_file_info) : callback (Z * InodeRecord) := fun s =>
  match file_info with
  | Some info =>
    if negb (fh info =? 0)
    then reading (fun reader => io_bind (ReadInode reader (wrap32 (fh info)))
                    (fun inode => io_ret (wrap32 (fh info), inode))) s
    else Resolve path s
  | None => Resolve path s
  end.

Section readdir.
(** [filler]: puts a name and the position after it into the buffer, and reports
    whether the buffer was full. *)
Context {B : Type} (filler : B -> bytes -> Z -> B * bool).

(** The loop over the names from position [index] on. *)
Fixpoint fill_names (buffer : B) (index : Z) (names : list bytes) : B :=
  match names with
  | [] => buffer
  | name :: rest =>
    let '(buffer, full) := filler buffer name (index + 1) in
    if full then buffer else fill_names buffer (index + 1) rest
  end.

Definition Readdir (path : option bytes) (buffer : B) (offset : Z) (file_info : option fuse_file_info)
    : callback B := fun s =>
  if offset <? 0 then (s, Err EINVAL)
  else if negb (mount_usable (fst s)) then (s, Err EIO)
  else match handle_inode path file_info s with
  | (s, Err er) => (s, Err er)
  | (s, Ok (number, inode)) =>
    if negb (S_ISDIR (mode inode)) then (s, Err ENOTDIR)
    else match reading (fun reader => ListDirectory reader number) s with
    | (s, Err er) => (s, Err er)
    | (s, Ok entries) =>
      let all := [dot] :: [dot; dot] :: map name entries in
      (s, Ok (fill_names buffer offset (drop (Z.to_nat offset) all)))
    end
  end.
End readdir.

Definition Releasedir : callback unit := fun s => (s, Ok tt).

(** * Files *)
Definition O_ACCMODE : Z := 3.
Definition O_RDONLY : Z := 0.
Definition O_WRONLY : Z := 1.
Definition O_TRUNC : Z := 512.

Definition OpenFile (path : option bytes) (file_info : fuse_file_info) : callback fuse_file_info := fun s =>
  let access_mode := Z.land (fi_flags file_info) O_ACCMODE in
  if (negb (access_mode =? O_RDONLY) && negb (access_mode =? O_WRONLY)) ||
     negb (Z.land (fi_flags file_info) O_TRUNC =? 0)
  then (s, Err EOPNOTSUPP)
  else match Resolve path s with
  | (s, Err er) => (s, Err er)
  | (s, Ok (number, inode)) =>
    if negb (S_ISREG (mode inode)) then (s, Err EISDIR) else (s, Ok (with_handle file_info number))
  end.

(** The inode number of the handle, or of the path without one. *)
Definition handle_number (path : option bytes) (file_info : option fuse_file_info) : callback Z := fun s =>
  let by_path := match Resolve path s with
                 | (s, Err er) => (s, Err er)
                 | (s, Ok (number, _)) => (s, Ok number)
                 end in
  match file_info with
  | Some info => if negb (fh info =? 0) then (s, Ok (wrap32 (fh info))) else by_path
  | None => by_path
  end.

Definition int_max : Z := 2147483647.

(** The answer is the bytes put into the buffer; their number is returned. *)
Definition Read (path : option bytes) (size offset : Z) (file_info : option fuse_file_info) : callback bytes := fun s =>
  if offset <? 0 then (s, Err EINVAL)
  else if negb (mount_usable (fst s)) then (s, Err EIO)
  else match handle_number path file_info s with
  | (s, Err er) => (s, Err er)
  | (s, Ok number) => reading (fun reader => ReadFile reader number offset (Z.min size int_max)) s
  end.

Definition Release : callback unit := fun s => (s, Ok tt).

(** * Changes *)
Definition ApplyJournalTransaction (before ordered metadata : image) (total : Z) (uuid : bytes)
    : callback unit := fun '(m, e) =>
  let '(e, (r, failure_requires_fail_closed)) :=
    ExecuteJournalTransaction true before ordered metadata total uuid e in
  match r with
  | Err er =>
    if failure_requires_fail_closed then ((FailClosed (Some er) m, e), Err er) else ((m, e), Err er)
  | Ok _ => ReloadReader (m, e)
  end.

(** [clock_gettime]: nothing when the call fails. *)
Definition timestamp_of (now : option timespec) : result errno Z :=
  match now with
  | None => Err EIO
  | Some now => if ts_sec now <? 0 then Err EIO else Ok (wrap64 (ts_sec now * 1000000000 + ts_nsec now))
  end.

(** A path of the form [/name]. *)
Definition root_name (path : bytes) : option bytes :=
  match path with
  | c :: name =>
    if bool_decide (name = []) || negb (c =? slash) || existsb (fun c => c =? slash) name then None else Some name
  | [] => None
  end.

Definition Create (path : option bytes) (file_mode : Z) (file_info : option fuse_file_info) (now : option timespec)
    (user group : Z) : callback fuse_file_info := fun s =>
  match path, file_info with
  | Some path, Some file_info =>
    match root_name path with
    | None => (s, Err EOPNOTSUPP)
    | Some object_name =>
      match reading (fun reader => ResolvePath reader path) s with
      | (s, Ok _) => (s, Err EEXIST)
      | (s, Err ENOENT) =>
        match timestamp_of now with
        | Err er => (s, Err er)
        | Ok timestamp_ns =>
          match reading (fun reader =>
                  PrepareRootEmptyFileCreate reader object_name file_mode user group timestamp_ns) s with
          | (s, Err er) => (s, Err er)
          | (s, Ok plan) =>
            match ApplyJournalTransaction (ep_before_images plan) ∅ (ep_after_images plan)
                    (ep_total_blocks plan) (ep_filesystem_uuid plan) s with
            | (s, Err er) => (s, Err er)
            | (s, Ok _) => (s, Ok (with_handle file_info (ep_inode_number plan)))
            end
          end
        end
      | (s, Err er) => (s, Err er)
      end
    end
  | _, _ => (s, Err EINVAL)
  end.

(** The answer is the number of bytes written. *)
Definition Write (path : option bytes) (buffer : option bytes) (offset : Z) (file_info : option fuse_file_info)
    (now : option timespec) : callback Z := fun s =>
  match buffer, file_info with
  | Some data, Some info =>
    let size := Z.of_nat (length data) in
    if offset <? 0 then (s, Err EINVAL)
    else if size =? 0 then (s, Ok 0)
    else if int_max <? size then (s, Err EFBIG)
    else if negb (mount_usable (fst s)) then (s, Err EIO)
    else match handle_number path (Some info) s with
    | (s, Err er) => (s, Err er)
    | (s, Ok number) =>
      match timestamp_of now with
      | Err er => (s, Err er)
      | Ok timestamp_ns =>
        match reading (fun reader => PrepareFileWrite reader number offset data timestamp_ns) s with
        | (s, Err er) => (s, Err er)
        | (s, Ok plan) =>
          match ApplyJournalTransaction (fp_before_images plan) (fp_ordered_data_after_images plan)
                  (fp_metadata_after_images plan) (fp_total_blocks plan) (fp_filesystem_uuid plan) s with
          | (s, Err er) => (s, Err er)
          | (s, Ok _) => (s, Ok size)
          end
        end
      end
    end
  | _, _ => (s, Err EINVAL)
  end.

(** * Operations that are refused *)
Definition ReadOnlyTruncate : callback unit := fun s => (s, Err EROFS).
Definition ReadOnlyMkdir : callback unit := fun s => (s, Err EROFS).
Definition ReadOnlyUnlink : callback unit := fun s => (s, Err EROFS).
Definition ReadOnlyRmdir : callback unit := fun s => (s, Err EROFS).
Definition ReadOnlyRename : callback unit := fun s => (s, Err EROFS).

(** * The table of callbacks *)
Section operations.
Context {B : Type} (filler : B -> bytes -> Z -> B * bool).

Inductive fuse_request :=
| OnGetattr (path : option bytes)
| OnOpendir (path : option bytes) (file_info : fuse_file_info)
| OnReaddir (path : option bytes) (buffer : B) (offset : Z) (file_info : option fuse_file_info)
| OnReleasedir
| OnOpen (path : option bytes) (file_info : fuse_file_info)
| OnRead (path : option bytes) (size offset : Z) (file_info : option fuse_file_info)
| OnRelease
| OnCreate (path : option bytes) (file_mode : Z) (file_info : option fuse_file_info) (now : option timespec) (user group : Z)
| OnWrite (path buffer : option bytes) (offset : Z) (file_info : option fuse_file_info) (now : option timespec)
| OnTruncate | OnMkdir | OnUnlink | OnRmdir | OnRename.

Inductive fuse_reply :=
| Attributes (attributes : stat)
| Handle (file_info : fuse_file_info)
| Names (buffer : B)
| Contents (data : bytes)
| Count (size : Z)
| Done.

Definition replying {A} (reply : A -> fuse_reply) (k : callback A) : callback fuse_reply := fun s =>
  match k s with
  | (s, Ok a) => (s, Ok (reply a))
  | (s, Err er) => (s, Err er)
  end.

Definition MakeOperations (q : fuse_request) : callback fuse_reply :=
  match q with
  | OnGetattr path => replying Attributes (Getattr path)
  | OnOpendir path file_info => replying Handle (Opendir path file_info)
  | OnReaddir path buffer offset file_info => replying Names (Readdir filler path buffer offset file_info)
  | OnReleasedir => replying (fun _ => Done) Releasedir
  | OnOpen path file_info => replying Handle (OpenFile path file_info)
  | OnRead path size offset file_info => replying Contents (Read path size offset file_info)
  | OnRelease => replying (fun _ => Done) Release
  | OnCreate path file_mode file_info now user group => replying Handle (Create path file_mode file_info now user group)
  | OnWrite path buffer offset file_info now => replying Count (Write path buffer offset file_info now)
  | OnTruncate => replying (fun _ => Done) ReadOnlyTruncate
  | OnMkdir => replying (fun _ => Done) ReadOnlyMkdir
  | OnUnlink => replying (fun _ => Done) ReadOnlyUnlink
  | OnRmdir => replying (fun _ => Done) ReadOnlyRmdir
  | OnRename => replying (fun _ => Done) ReadOnlyRename
  end.
End operations.
