(* ===== verification/FuseProofs.v ===== *)
(** The callbacks of a mount under any system-call behaviour: reads answer from
    the files the mount shows, creation and writing move the files in one step. *)
From S2P Require Import Prelude Codec OndiskFormat OndiskFormatProofs DirectoryEntry OndiskJournal OndiskJournalProofs.
From S2P Require Import Disk JournalStore JournalImage CrashLogic JournalStates JournalTheorems BitmapAllocator.
From S2P Require Import RequestLedger ImageReader ImageReaderProofs ReaderTheorems LedgerStore FileMutation.
From S2P Require Import ConsistentImage PlanProofs FileMutationProofs FileMutationPublish FileContents Publication.
From S2P Require Import FilePlans FileTheorems NewObject NewObjectProofs NewObjectPlans FileSystem PlanTheorems.
From S2P Require Import ObjectBackend BackendProofs IdempotentProofs EmptyFileCreate FuseMount.
Open Scope Z_scope.

(** * The mount as a backend without a ledger *)
(** [ApplyJournalTransaction] and [ApplyLocked] are the same protocol; a mount is
    served by the lemmas on the backend. *)
Definition as_backend (m : FuseMountState) : ObjectBackend :=
  mkBackend (mkOptions 0 0 0) (mt_reader m) None (mt_fatal_error m).

Definition mounted (m : FuseMountState) (e : env) (r : ImageReader) : Prop := serving (as_backend m) e r.

Lemma mounted_state m e r : mounted m e r -> m = mkMount (Some r) None.
Proof.
  intros [Hr _ _ _]. destruct m as [rd fe]. unfold CheckUsableLocked in Hr. cbn in Hr.
  destruct fe, rd; try done. by injection Hr as ->.
Qed.

Lemma apply_as_backend before ordered meta total uuid m e : mt_fatal_error m = None ->
  let '((m', e'), res) := ApplyJournalTransaction before ordered meta total uuid (m, e) in
  exists out, ApplyLocked before ordered meta total uuid (as_backend m, e) = ((as_backend m', e'), (res, out)).
Proof.
  intros Hf. cbn [ApplyJournalTransaction ApplyLocked].
  destruct (ExecuteJournalTransaction true before ordered meta total uuid e) as [e1 [[[]|er] fc]]; [|destruct fc; by eexists].
  cbn [ReloadReader ReloadReaderLocked]. rewrite Hf. destruct (DuplicateFd e1) as [e2 [[]|er]]; [|by eexists].
  destruct (ReaderAdoptLockedFd true e2) as [e3 [c|er]]; [|by eexists]. eexists. cbn. by rewrite Hf.
Qed.

(** * Reads *)
Lemma mount_reading {A} (k : ImageReader -> io A) m e r m' e' res : mounted m e r -> Reading (k r) ->
  FuseMount.reading k (m, e) = ((m', e'), res) ->
  m' = m /\ untouched e e' /\ (forall a, res = Ok a -> answer (disk e) (k r) = Ok a) /\
  (responses e = [] -> e' = e /\ forall a, answer (disk e) (k r) = Ok a -> res = Ok a).
Proof.
  intros Hm Hk E. pose proof (mounted_state _ _ _ Hm) as ->. cbn in E. destruct (k r e) as [e1 res1] eqn:E1. injection E as <- <- <-.
  destruct (reads (k r) e e1 res1 Hk E1) as [U H]. split; [done|]. split; [done|]. split; [done|].
  intros Hn. split.
  - destruct (Hk e (st_size e) (trace e)) as (_ & H2 & _). destruct e as [dk sz rs t]. cbn in *. subst rs. by rewrite E1 in H2.
  - intros a Ha. destruct (answer_run (k r) e Hk) as (_ & _ & H1). rewrite E1 in H1. cbn [snd] in H1. by apply H1.
Qed.

(** ** Paths *)
Lemma split_path_join rest : exists c cs, split_path rest = c :: cs /\ rest = c ++ path_tail cs /\ Forall (fun x => slash ∉ x) (c :: cs).
Proof.
  induction rest as [|z rest (c & cs & E & Er & Hs)]; cbn [split_path].
  - exists [], []. split; [done|]. split; [done|]. constructor; [apply not_elem_of_nil|constructor].
  - rewrite E. destruct (Z.eqb_spec z slash) as [->|Hz].
    + exists [], (c :: cs). split; [done|]. split; [cbn; by rewrite Er|]. constructor; [apply not_elem_of_nil|done].
    + exists (z :: c), cs. split; [done|]. split; [by rewrite Er|]. apply Forall_cons in Hs as [H1 H2]. constructor; [|done].
      rewrite not_elem_of_cons. done.
Qed.

Lemma resolved_components r d cs : forall cur n, Forall (fun x => slash ∉ x) cs ->
  answer d (resolve_components r cur cs) = Ok n -> Forall plain_name cs.
Proof.
  induction cs as [|c cs IH]; intros cur n Hs E; [constructor|]. apply Forall_cons in Hs as [Hc Hcs]. cbn [resolve_components] in E.
  rewrite answer_if in E. destruct (_ || _) eqn:Eb in E; [done|]. bool_to_prop.
  apply answer_bind_inv in E as (es & _ & E); [|apply _]. destruct (find _ es) as [x|]; [|done]. constructor; [done|]. by eapply IH.
Qed.

(** Only paths made of plain names resolve. *)
Lemma resolved_path r d path n inode : answer d (ResolvePath r path) = Ok (n, inode) ->
  exists cs, Forall plain_name cs /\ path = path_of cs.
Proof.
  destruct path as [|z rest]; [done|]. unfold ResolvePath. rewrite answer_if. destruct (Z.eqb_spec z slash) as [->|]; [|done]. cbn [negb].
  rewrite answer_if. destruct (bool_decide (rest = [])) eqn:Er.
  { apply bool_decide_eq_true in Er as ->. intros _. by exists []. }
  rewrite answer_if. destruct (bool_decide (last rest = Some slash)); [done|]. intros E.
  apply answer_bind_inv in E as (k & E & _); [|apply _]. destruct (split_path_join rest) as (c & cs & Es & -> & Hs).
  rewrite Es in E. exists (c :: cs). split; [by eapply resolved_components|done].
Qed.

#[export] Instance reading_first_file r nm p u g ts root ib bb i b : Reading (plan_first_file r nm p u g ts root ib bb i b).
Proof. unfold plan_first_file. repeat ((apply reading_bind; [apply _|intros ?]) || case_match || apply _). Qed.

#[export] Instance reading_empty_create r nm p u g ts : Reading (PrepareRootEmptyFileCreate r nm p u g ts).
Proof. unfold PrepareRootEmptyFileCreate. repeat ((apply reading_bind; [apply _|intros ?]) || case_match || apply _). Qed.

(** What a path stands for among the files. *)
Definition path_is (fs : files) (rt : Z) (path : option bytes) (n : Z) (inode : InodeRecord) (data : bytes) : Prop :=
  exists cs, Forall plain_name cs /\ path = Some (path_of cs) /\ path_to fs rt cs n /\ fs n = Some (inode, data).

(** The inode a callback works on: that of the handle, or that of the path. *)
Definition target_is (fs : files) (rt : Z) (path : option bytes) (file_info : option fuse_file_info) (n : Z) : Prop :=
  match file_info with
  | Some info => if fh info =? 0 then exists inode data, path_is fs rt path n inode data else n = wrap32 (fh info)
  | None => exists inode data, path_is fs rt path n inode data
  end.

(** [fs'] is [fs] with the range at [offset] of the regular file [n] overwritten. *)
Definition writes (fs fs' : files) (n offset : Z) (data : bytes) (ts : Z) : Prop :=
  exists inode old inode', fs n = Some (inode, old) /\ S_ISREG (mode inode) = true /\
    rewritten inode inode' (Z.of_nat (length (written old offset data))) ts /\
    forall k, fs' k = if k =? n then Some (inode', written old offset data) else fs k.

Lemma timestamp_u64 now ts : timestamp_of now = Ok ts -> u64 ts.
Proof.
  unfold timestamp_of. destruct now as [[s ns]|]; [|done]. cbn [ts_sec ts_nsec]. destruct (s <? 0); [done|]. intros [= <-].
  unfold u64, wrap64. apply Z.mod_pos_bound. lia.
Qed.

(** ** Refused transactions *)
Lemma for_each_checks {A} (bad : A -> bool) er : forall l s, for_each (fun p => check (bad p) er) l s = (s, if existsb bad l then Err er else Ok tt).
Proof.
  induction l as [|x l IH]; intros s; [done|]. cbn [for_each existsb]. unfold bind at 1, check at 1. by destruct (bad x); [|apply IH].
Qed.

Lemma check_bind {A} b er (k : unit -> M A) s : bind (check b er) k s = if b then (s, Err er) else k tt s.
Proof. unfold bind, check. by destruct b. Qed.

Lemma pread_quietly off : quietly (PreadAll off).
Proof. intros e. unfold PreadAll. destruct (pread_loop _ _ _) as [rest [[]|er]]; [|done]. by destruct (disk e !! _). Qed.

Lemma load_quietly : quietly LoadControlStateFromFd.
Proof.
  unfold LoadControlStateFromFd. apply quietly_bind; [apply quietly_reading, _|intros _]. apply (quietly_env (fun x => _)). intros x. cbv zeta.
  assert (forall A er, quietly (io_fail (A:=A) er)) as Hf by (intros A er e; done).
  assert (forall A (b : bool) (p q : io A), quietly p -> quietly q -> quietly (if b then p else q)) as Hif by (intros A [|]; done).
  intros e. destruct (_ || _); [done|]. match goal with |- untouched _ (fst (?k _)) => cut (quietly k); [intros Hk; apply Hk|] end. apply quietly_bind; [apply pread_quietly|]. intros b0.
  destruct (DecodeSuperblock b0) as [superblock|]; [|apply Hf]. apply Hif; [apply Hf|]. apply Hif; [apply Hf|].
  apply quietly_bind; [apply pread_quietly|intros ca]. apply quietly_bind; [apply pread_quietly|intros cb].
  destruct (SelectControl _ _ _ _) as [[? ?]|]; [|apply Hf]. by intros e0.
Qed.

(** A transaction that lacks the old content of a block it changes is refused
    before anything is written. *)
Lemma missing_before before meta total uuid e k x : meta !! k = Some x -> before !! k = None ->
  let '(e', (res, _)) := ExecuteJournalTransaction true before ∅ meta total uuid e in is_ok res = false /\ untouched e e'.
Proof.
  intros Hk Hb. unfold ExecuteJournalTransaction. destruct (DuplicateFd e) as [e1 r1] eqn:E1.
  destruct (reads DuplicateFd e e1 _ _ E1) as [U1 _]. destruct r1 as [[]|er]; [|done].
  assert (quietly (AdoptLockedFd true)) as Hq.
  { unfold AdoptLockedFd. apply quietly_bind; [apply quietly_reading, _|intros _]. cbn [negb]. apply quietly_bind; [apply load_quietly|intros [[? ?] ?]].
    apply quietly_reading, _. }
  pose proof (Hq e1) as U2. destruct (AdoptLockedFd true e1) as [e2 [s|er]]; cbn [fst] in U2; [|split; [done|by etransitivity]].
  assert (untouched e e2) as U by (by etransitivity). clear U1 U2 E1 Hq.
  assert (exists er, WriteOrderedDataAndUnexposedBody total uuid before ∅ meta (s, e2) = ((s, e2), Err er)) as (er & E).
  { assert (existsb (fun p : Z * bytes => negb (IsValidMetadataTarget (superblock_ s) p.1) || bool_decide (before !! p.1 = None)) (sorted_entries meta) = true) as Hex.
    { apply existsb_exists. exists (k, x). split; [by apply list_elem_of_In, elem_of_sorted_entries|]. cbn [fst]. by rewrite Hb, bool_decide_eq_true_2, orb_true_r. }
    unfold WriteOrderedDataAndUnexposedBody. rewrite check_bind. destruct (bool_decide (meta = ∅)); [by eexists|]. unfold bind at 1, get. cbn [fst].
    rewrite check_bind. destruct (reload_required_ s); [by eexists|]. rewrite check_bind. destruct (_ || _); [by eexists|].
    rewrite check_bind. destruct (_ || _); [by eexists|]. change (sorted_entries ∅) with (@nil (Z * bytes)). cbn [for_each].
    unfold bind at 1, ret. unfold bind at 1. rewrite for_each_checks, Hex. by eexists. }
  unfold transaction_steps, bind at 1. rewrite E. by split.
Qed.

Section callbacks.
Context (m : FuseMountState) (e : env) (r : ImageReader) (Hm : mounted m e r) (Ht : trace e = []).
Abbreviation rt := (root_inode (rd_superblock r)).
Abbreviation fs := (file_at r (disk e)).
Let Hc := sv_consistent _ _ _ Hm.
Let Hv := op_view _ _ (co_opened _ _ Hc).

Lemma mounted_usable : mount_usable m = true.
Proof. by rewrite (mounted_state _ _ _ Hm). Qed.

Lemma mounted_after e1 : untouched e e1 -> mounted m e1 r /\ trace e1 = [].
Proof. intros U. split; [by apply (serving_untouched _ e)|]. destruct U as (_ & _ & ->). exact Ht. Qed.

Lemma resolve_outcome path m' e' res : Resolve path (m, e) = ((m', e'), res) ->
  m' = m /\ untouched e e' /\
  (forall n inode, res = Ok (n, inode) -> path_is fs rt path n inode (file_bytes (disk e) inode)) /\
  (responses e = [] -> e' = e /\ forall n inode data, path_is fs rt path n inode data -> res = Ok (n, inode)).
Proof.
  unfold Resolve. destruct path as [path|].
  2: { intros [= <- <- <-]. split; [done|]. split; [done|]. split; [done|]. intros _. split; [done|]. intros n inode data (cs & _ & ? & _). done. }
  intros E. destruct (mount_reading _ _ _ _ _ _ _ Hm _ E) as (-> & U & H1 & H2). split; [done|]. split; [done|]. split.
  - intros n inode Hr. specialize (H1 _ Hr). destruct (resolved_path r _ _ _ _ H1) as (cs & Hcs & ->). exists cs. split; [done|]. split; [done|].
    by apply (resolve_files r (disk e) Hv cs n inode _ Hcs).
  - intros Hn. destruct (H2 Hn) as [He H3]. split; [done|]. intros n inode data (cs & Hcs & [= ->] & Hp & Hf). apply H3. by apply (resolve_files r (disk e) Hv cs n inode data Hcs).
Qed.

Lemma handle_outcome path file_info m' e' res : handle_number path file_info (m, e) = ((m', e'), res) ->
  m' = m /\ untouched e e' /\ (forall n, res = Ok n -> target_is fs rt path file_info n) /\
  (responses e = [] -> e' = e /\ forall n, target_is fs rt path file_info n -> res = Ok n).
Proof.
  unfold handle_number. cbv zeta. destruct (Resolve path (m, e)) as [[m1 e1] res1] eqn:E.
  destruct (resolve_outcome _ _ _ _ E) as (-> & U & H1 & H2).
  assert (forall m' e' (res : result errno Z), match res1 with Ok (number, _) => ((m, e1), Ok number) | Err er => ((m, e1), Err er) end = ((m', e'), res) ->
    m' = m /\ untouched e e' /\ (forall n, res = Ok n -> exists inode data, path_is fs rt path n inode data) /\
    (responses e = [] -> e' = e /\ forall n, (exists inode data, path_is fs rt path n inode data) -> res = Ok n)) as Hpath.
  { intros m2 e2 res2. destruct res1 as [[n inode]|er]; intros [= <- <- <-]; (split; [done|]); (split; [done|]); split.
    - intros k [= <-]. exists inode. eexists. by apply H1.
    - intros Hn. destruct (H2 Hn) as [He H3]. split; [done|]. intros k (i & x & Hp). specialize (H3 _ _ _ Hp). by injection H3 as -> _.
    - done.
    - intros Hn. destruct (H2 Hn) as [He H3]. split; [done|]. intros k (i & x & Hp). by specialize (H3 _ _ _ Hp). }
  unfold target_is. destruct file_info as [info|]; [|exact (Hpath m' e' res)].
  destruct (fh info =? 0); cbn [negb]; [exact (Hpath m' e' res)|]. intros [= <- <- <-]. split; [done|]. split; [done|]. split.
  - by intros n [= <-].
  - intros _. split; [done|]. by intros n ->.
Qed.

(** ** Changes *)
Lemma transaction_outcome r' before ordered meta total uuid : publication r (disk e) before ordered meta total uuid r' -> no_commit_block meta ->
  let '((m', e'), res) := ApplyJournalTransaction before ordered meta total uuid (m, e) in
  exists out, applies r (file_at r' (applied ordered meta (disk e))) (as_backend m) e (as_backend m') e' res out.
Proof.
  intros Hp Hn. pose proof (apply_as_backend before ordered meta total uuid m e ltac:(by rewrite (mounted_state _ _ _ Hm))) as H.
  pose proof (apply_outcome r r' (as_backend m) e before ordered meta total uuid Hm Ht Hp Hn) as Ha.
  destruct (ApplyJournalTransaction before ordered meta total uuid (m, e)) as [[m' e'] res]. destruct H as [out E]. rewrite E in Ha. by exists out.
Qed.

(** On a calm system, with room in the journal, a planned transaction is applied. *)
Lemma transaction_applied r' before ordered meta total uuid v c : publication r (disk e) before ordered meta total uuid r' -> no_commit_block meta ->
  responses e = [] -> journal_room r (disk e) v c (Z.of_nat (size meta)) ->
  exists m' e', ApplyJournalTransaction before ordered meta total uuid (m, e) = ((m', e'), Ok tt) /\ responses e' = [].
Proof.
  intros Hp Hn Hcalm [Hr Hu Hf1 Hf2 Hid]. pose proof (sv_size _ _ _ Hm) as Hz.
  destruct (publication_completes r r' (disk e) before ordered meta total uuid Hc Hp v c Hr Hu Hn e) as (e1 & fc & E & Hn1); try done; [lia|].
  destruct (run_committed r r' (as_backend m) e before ordered meta total uuid Hm Ht Hp Hn e1 fc E) as (v1 & c1 & Hc1 & _ & Hz1 & _).
  rewrite (mounted_state _ _ _ Hm) in *. cbn [ApplyJournalTransaction]. rewrite E. cbn [ReloadReader mt_fatal_error].
  rewrite (reading_calm DuplicateFd e1 tt _ Hn1 ltac:(done)).
  rewrite (adopt_complete e1 (with_control r' v1 c1)); [by eexists _, _|done| |apply (co_opened _ _ Hc1)].
  rewrite Hz1. by destruct (pn_reader _ _ _ _ _ _ _ _ Hp) as (? & ? & ->).
Qed.

(** A refused transaction leaves the files alone; the mount may be closed. *)
Lemma refused_applies before meta total uuid k x fs' : meta !! k = Some x -> before !! k = None ->
  let '((m', e'), res) := ApplyJournalTransaction before ∅ meta total uuid (m, e) in
  exists out, applies r fs' (as_backend m) e (as_backend m') e' res out.
Proof.
  intros Hk Hb. pose proof (missing_before before meta total uuid e k x Hk Hb) as H. cbn [ApplyJournalTransaction].
  destruct (ExecuteJournalTransaction true before ∅ meta total uuid e) as [e1 [res fc]]. destruct H as [Hres U]. destruct res as [[]|er]; [done|].
  assert (forall p y, p `prefix_of` trace e1 -> crash_outcome r (disk e) p y -> restarts_with r y fs) as Hcrash.
  { destruct U as (_ & _ & T). rewrite T, Ht. intros p y ->%prefix_nil_inv Hy. exact (idle_restart (as_backend m) e r Hm y Hy). }
  destruct fc.
  - exists kOutcomeUnknown. constructor; [done|done| |done|done]. intros p y Hp Hy. left. by eapply Hcrash.
  - exists kOutcomeNotApplied. constructor; [done|done| |done|done]. intros p y Hp Hy. left. by eapply Hcrash.
Qed.

End callbacks.

Section mutations.
Context (m : FuseMountState) (e : env) (r : ImageReader) (Hm : mounted m e r) (Ht : trace e = []).
Abbreviation rt := (root_inode (rd_superblock r)).
Abbreviation fs := (file_at r (disk e)).
Let Hc := sv_consistent _ _ _ Hm.

Lemma root_name_path path object_name : root_name path = Some object_name -> path = slash :: object_name.
Proof.
  destruct path as [|c rest]; [done|]. cbn [root_name]. destruct (_ || _) eqn:E; [done|]. intros [= ->]. bool_to_prop. by f_equal.
Qed.

Lemma create_planned object_name file_mode user group ts plan :
  bytes_ok object_name -> u32 user -> u32 group -> u64 ts ->
  answer (disk e) (PrepareRootEmptyFileCreate r object_name file_mode user group ts) = Ok plan -> no_commit_block (ep_after_images plan) ->
  exists fs', adds_object rt fs fs' (ep_inode_number plan) object_name [] file_mode user group ts /\
    forall e1, untouched e e1 ->
    let '((m', e'), res) := ApplyJournalTransaction (ep_before_images plan) ∅ (ep_after_images plan) (ep_total_blocks plan) (ep_filesystem_uuid plan) (m, e1) in
    exists out, applies r fs' (as_backend m) e (as_backend m') e' res out.
Proof.
  intros Hn Hu Hg Hts E Hcar. destruct (op_root _ _ (co_opened _ _ Hc)) as (root & Hroot & Hdir).
  pose proof (first_file_outcome r (disk e) root object_name file_mode user group ts Hc Hroot Hn Hu Hg Hts) as H. cbv zeta in H. rewrite E in H.
  destruct (root_in_use root) eqn:Eu; [done|]. destruct (_ || _) in H; [done|]. destruct (negb _) in H; [done|].
  destruct H as (plan0 & np & [= <-] & _ & Hcr & [[Sn _] [St Su] Sa So Stb Sb]).
  destruct (creates_adds r (disk e) np object_name [] file_mode user group ts [] Hc
    (empty_lists r (disk e) Hc root Hroot Hdir (unused_empty root Eu)) Hcr) as (r' & Hp & Hadd).
  rewrite So, <- Sa in Hp. rewrite So, <- Sa in Hadd. rewrite <- Sn in Hadd. rewrite <- St, <- Su in Hp.
  eexists. split; [exact Hadd|]. intros e1 U. pose proof U as (D & _). destruct (mounted_after m e r Hm Ht e1 U) as [Hm1 Ht1].
  set (t2 := InodeTableBlock (rd_superblock r) (ep_inode_number plan)) in *. set (t1 := InodeTableBlock (rd_superblock r) rt) in *.
  destruct (decide (t1 = t2)) as [Ht12|Ht12].
  - assert (ep_before_images plan = np_before_images np) as Eb.
    { apply map_eq. intros k. rewrite Sb. apply decide_False. intros [-> Hk]. by apply Hk. }
    rewrite <- Eb, <- D in Hp. pose proof (transaction_outcome m e1 r Hm1 Ht1 r' _ _ _ _ _ Hp Hcar) as Hap. rewrite D in Hap.
    destruct (ApplyJournalTransaction _ _ _ _ _ (m, e1)) as [[m' e'] res]. destruct Hap as [out Hap]. exists out. by apply (applies_untouched _ _ _ e e1).
  - destruct Stb as [x Hx].
    pose proof (refused_applies m e1 r Hm1 Ht1 (ep_before_images plan) (ep_after_images plan) (ep_total_blocks plan) (ep_filesystem_uuid plan) t2 x
      (file_at r' (applied ∅ (ep_after_images plan) (disk e))) Hx ltac:(rewrite Sb; apply decide_True; done)) as Hap.
    destruct (ApplyJournalTransaction _ _ _ _ _ (m, e1)) as [[m' e'] res]. destruct Hap as [out Hap]. exists out. by apply (applies_untouched _ _ _ e e1).
Qed.

Lemma write_planned n offset data ts plan : bytes_ok data -> data <> [] -> 0 <= offset -> u64 ts ->
  answer (disk e) (PrepareFileWrite r n offset data ts) = Ok plan ->
  exists r' fs', publication r (disk e) (fp_before_images plan) (fp_ordered_data_after_images plan) (fp_metadata_after_images plan)
      (fp_total_blocks plan) (fp_filesystem_uuid plan) r' /\ writes fs fs' n offset data ts /\
    fs' = file_at r' (applied (fp_ordered_data_after_images plan) (fp_metadata_after_images plan) (disk e)).
Proof.
  intros Hd Hne Ho Hts E. pose proof E as E0. unfold PrepareFileWrite in E0. rewrite answer_if, bool_decide_eq_false_2 in E0 by done.
  destruct (prepared_facts _ _ _ _ _ E0) as (inode & Hi & Hreg & Hg & [Hs1 Hs2] & _). cbn [fq_offset fq_data] in *.
  destruct (read_facts r (disk e) (co_opened _ _ Hc) n inode Hi) as (_ & _ & _ & Hty).
  assert (generation inode < uint64_limit) as Hlt.
  { destruct Hty as (_ & _ & _ & _ & _ & _ & _ & _ & _ & _ & Hgt & _). unfold uint64_limit in *. word. }
  destruct (write_plan_publishes r (disk e) n inode offset data ts plan) as (_ & r' & inode' & Hp & Hrw & _ & Hf);
    [by constructor|constructor; [done|lia|done]|done|done|].
  exists r'. eexists. split; [exact Hp|]. split; [|reflexivity]. exists inode, (file_bytes (disk e) inode), inode'.
  split; [by apply file_at_ok|]. done.
Qed.

Lemma write_outcome path data offset file_info now :
  bytes_ok data ->
  (forall n ts plan, timestamp_of now = Ok ts -> answer (disk e) (PrepareFileWrite r n offset data ts) = Ok plan ->
     no_commit_block (fp_metadata_after_images plan)) ->
  let '((m', e'), res) := Write path (Some data) offset (Some file_info) now (m, e) in
  (m' = m /\ untouched e e' /\ (forall k, res = Ok k -> data = [] /\ k = 0)) \/
  exists n ts fs' ures out, target_is fs rt path (Some file_info) n /\ timestamp_of now = Ok ts /\ data <> [] /\
    writes fs fs' n offset data ts /\ applies r fs' (as_backend m) e (as_backend m') e' ures out /\
    res = match ures with Ok _ => Ok (Z.of_nat (length data)) | Err er => Err er end.
Proof.
  intros Hd Hcar. unfold Write. cbv zeta. destruct (Z.ltb_spec offset 0) as [|Ho]; [by left|].
  destruct (Z.eqb_spec (Z.of_nat (length data)) 0) as [H0|H0].
  { left. split; [done|]. split; [done|]. intros k [= <-]. by destruct data. }
  assert (data <> []) as Hne by (intros ->; done). destruct (int_max <? Z.of_nat (length data)); [by left|].
  cbn [fst]. rewrite (mounted_usable m e r Hm). cbn [negb].
  destruct (handle_number path (Some file_info) (m, e)) as [[m1 e1] hr] eqn:E1. destruct (handle_outcome m e r Hm _ _ _ _ _ E1) as (-> & U1 & Hh & _).
  destruct hr as [n|er]; [|by left]. specialize (Hh n eq_refl). destruct (timestamp_of now) as [ts|er] eqn:Ets; [|by left].
  destruct (FuseMount.reading _ (m, e1)) as [[m2 e2] pr] eqn:E2. destruct (mounted_after m e r Hm Ht e1 U1) as [Hm1 Ht1].
  apply (mount_reading _ m e1 r) in E2 as (-> & U2 & Hans & _); [|done|apply _].
  assert (untouched e e2) as U by (by etransitivity). destruct pr as [plan|er]; [|by left]. specialize (Hans plan eq_refl).
  pose proof U1 as (D1 & _). rewrite D1 in Hans.
  destruct (write_planned n offset data ts plan Hd Hne Ho (timestamp_u64 _ _ Ets) Hans) as (r' & fs' & Hp & Hw & Hfs).
  pose proof U as (D & _). pose proof (mounted_after m e r Hm Ht e2 U) as [Hm2 Ht2]. rewrite <- D in Hp.
  pose proof (transaction_outcome m e2 r Hm2 Ht2 r' _ _ _ _ _ Hp (Hcar n ts plan eq_refl Hans)) as Hap. rewrite D, <- Hfs in Hap.
  destruct (ApplyJournalTransaction _ _ _ _ _ (m, e2)) as [[m' e'] ures]. destruct Hap as [out Hap].
  apply (applies_untouched _ _ _ e) in Hap; [|done].
  destruct ures as [[]|er]; right; [by exists n, ts, fs', (Ok tt), out|by exists n, ts, fs', (Err er), out].
Qed.

(** A planned write on a calm system succeeds when the journal has room. *)
Lemma write_applied path data offset file_info now n ts plan v c :
  bytes_ok data -> 0 < Z.of_nat (length data) <= int_max -> 0 <= offset -> timestamp_of now = Ok ts ->
  target_is fs rt path (Some file_info) n -> answer (disk e) (PrepareFileWrite r n offset data ts) = Ok plan ->
  no_commit_block (fp_metadata_after_images plan) -> responses e = [] ->
  journal_room r (disk e) v c (Z.of_nat (size (fp_metadata_after_images plan))) ->
  exists m' e', Write path (Some data) offset (Some file_info) now (m, e) = ((m', e'), Ok (Z.of_nat (length data))) /\ responses e' = [].
Proof.
  intros Hd Hlen Ho Hts Htg Hplan Hplain Hn Hroom. unfold Write. cbv zeta.
  rewrite (proj2 (Z.ltb_ge offset 0)), (proj2 (Z.eqb_neq (Z.of_nat (length data)) 0)), (proj2 (Z.ltb_ge int_max (Z.of_nat (length data)))) by lia.
  cbn [fst]. rewrite (mounted_usable m e r Hm). cbn [negb].
  destruct (handle_number path (Some file_info) (m, e)) as [[m1 e1] hr] eqn:E1.
  destruct (handle_outcome m e r Hm _ _ _ _ _ E1) as (-> & _ & _ & H). destruct (H Hn) as [-> Hk]. rewrite (Hk n Htg), Hts.
  destruct (FuseMount.reading _ (m, e)) as [[m2 e2] pr] eqn:E2.
  apply (mount_reading _ m e r) in E2 as (-> & _ & _ & H2); [|done|apply _]. destruct (H2 Hn) as [-> Hpr]. rewrite (Hpr plan Hplan).
  assert (data <> []) as Hne by (by destruct data).
  destruct (write_planned n offset data ts plan Hd Hne Ho (timestamp_u64 _ _ Hts) Hplan) as (r' & fs' & Hp & _ & _).
  destruct (transaction_applied m e r Hm Ht r' _ _ _ _ _ v c Hp Hplain Hn Hroom) as (m' & e' & E & Hn').
  exists m', e'. by rewrite E.
Qed.

Lemma create_outcome path file_mode file_info now user group :
  bytes_ok path -> u32 user -> u32 group ->
  (forall object_name ts plan, root_name path = Some object_name -> timestamp_of now = Ok ts ->
     answer (disk e) (PrepareRootEmptyFileCreate r object_name file_mode user group ts) = Ok plan -> no_commit_block (ep_after_images plan)) ->
  let '((m', e'), res) := Create (Some path) file_mode (Some file_info) now user group (m, e) in
  (m' = m /\ untouched e e' /\ is_ok res = false) \/
  exists object_name ts n fs' ures out, path = slash :: object_name /\ timestamp_of now = Ok ts /\
    adds_object rt fs fs' n object_name [] file_mode user group ts /\ applies r fs' (as_backend m) e (as_backend m') e' ures out /\
    res = match ures with Ok _ => Ok (with_handle file_info n) | Err er => Err er end.
Proof.
  intros Hb Hu Hg Hcar. unfold Create. destruct (root_name path) as [object_name|] eqn:En; [|by left].
  pose proof (root_name_path _ _ En) as Hpath.
  destruct (FuseMount.reading (fun reader => ResolvePath reader path) (m, e)) as [[m1 e1] lr] eqn:E1.
  apply (mount_reading _ m e r) in E1 as (-> & U1 & _); [|done|apply _].
  destruct lr as [x|er]; [by left|]. assert (forall a : result errno fuse_file_info, is_ok a = false -> (m = m /\ untouched e e1 /\ is_ok a = false)) as Href by done.
  destruct er; try (left; by apply Href). destruct (timestamp_of now) as [ts|er] eqn:Ets; [|left; by apply Href].
  destruct (FuseMount.reading _ (m, e1)) as [[m2 e2] pr] eqn:E2. destruct (mounted_after m e r Hm Ht e1 U1) as [Hm1 Ht1].
  apply (mount_reading _ m e1 r) in E2 as (-> & U2 & Hans & _); [|done|apply _].
  assert (untouched e e2) as U by (by etransitivity). destruct pr as [plan|er]; [|by left]. specialize (Hans plan eq_refl).
  pose proof U1 as (D1 & _). rewrite D1 in Hans.
  assert (bytes_ok object_name) as Hbn by (rewrite Hpath in Hb; by apply Forall_cons in Hb as [_ ?]).
  destruct (create_planned object_name file_mode user group ts plan Hbn Hu Hg (timestamp_u64 _ _ Ets) Hans (Hcar _ _ _ eq_refl eq_refl Hans)) as (fs' & Hadd & Hap).
  specialize (Hap e2 U). destruct (ApplyJournalTransaction _ _ _ _ _ (m, e2)) as [[m' e'] ures]. destruct Hap as [out Hap].
  destruct ures as [[]|er]; right; [by exists object_name, ts, (ep_inode_number plan), fs', (Ok tt), out|by exists object_name, ts, (ep_inode_number plan), fs', (Err er), out].
Qed.
End mutations.
