(* ===== verification/FuseReads.v ===== *)
(** The reading callbacks: what they answer, in terms of the files the mount
    shows, and how directory reading continues over several buffers. *)
From S2P Require Import Prelude Codec OndiskFormat OndiskFormatProofs DirectoryEntry OndiskJournal OndiskJournalProofs.
From S2P Require Import Disk JournalStore JournalImage CrashLogic JournalStates JournalTheorems BitmapAllocator.
From S2P Require Import ImageReader ImageReaderProofs ReaderTheorems FileMutation ConsistentImage PlanProofs.
From S2P Require Import Publication FileSystem ObjectBackend BackendProofs IdempotentProofs EmptyFileCreate FuseMount.
From S2P Require Import FuseProofs.
Open Scope Z_scope.

(** The inode and contents a callback reads. *)
Definition target_file (fs : files) (rt : Z) (path : option bytes) (file_info : option fuse_file_info) (n : Z)
    (inode : InodeRecord) (data : bytes) : Prop :=
  target_is fs rt path file_info n /\ fs n = Some (inode, data).

(** The flags [open] accepts. *)
Definition supported_flags (flags : Z) : bool :=
  ((Z.land flags O_ACCMODE =? O_RDONLY) || (Z.land flags O_ACCMODE =? O_WRONLY)) && (Z.land flags O_TRUNC =? 0).

Definition directory_names (es : list DirectoryEntry) : list bytes := [dot] :: [dot; dot] :: map name es.

(** An answer that is determined by the files: [spec a] holds of the answer, and
    without system-call failures the callback gives exactly that answer. *)
Record answers_from {A} (m : FuseMountState) (e : env) (s' : FuseMountState * env) (res : result errno A) (spec : A -> Prop) : Prop := {
  af_state : fst s' = m;
  af_untouched : untouched e (snd s');
  af_sound : forall a, res = Ok a -> spec a;
  af_complete : responses e = [] -> snd s' = e /\ forall a, spec a -> res = Ok a
}.

Lemma answers_ext {A} m e s' (res : result errno A) (spec spec' : A -> Prop) : (forall a, spec a <-> spec' a) ->
  answers_from m e s' res spec -> answers_from m e s' res spec'.
Proof.
  intros H [H1 H2 H3 H4]. constructor; [done|done|intros a Ha; by apply H, H3|].
  intros Hn. destruct (H4 Hn) as [H5 H6]. split; [done|]. intros a Ha. by apply H6, H.
Qed.

Section reads.
Context (m : FuseMountState) (e : env) (r : ImageReader) (Hm : mounted m e r).
Abbreviation rt := (root_inode (rd_superblock r)).
Abbreviation fs := (file_at r (disk e)).
Let Hc := sv_consistent _ _ _ Hm.
Let Hv := op_view _ _ (co_opened _ _ Hc).

Lemma path_unique path n inode data n' inode' data' :
  path_is fs rt path n inode data -> path_is fs rt path n' inode' data' -> n = n' /\ inode = inode' /\ data = data'.
Proof.
  intros (cs & Hcs & -> & Hp & Hf) (cs' & Hcs' & [= E] & Hp' & Hf').
  destruct (proj2 (resolve_files r (disk e) Hv cs n inode data Hcs) (conj Hp Hf)) as [E1 <-].
  destruct (proj2 (resolve_files r (disk e) Hv cs' n' inode' data' Hcs') (conj Hp' Hf')) as [E2 <-].
  rewrite E, E2 in E1. by injection E1 as -> ->.
Qed.

(** The callbacks that resolve a path and look at what they find. *)
Lemma resolving {A} path (k : Z -> InodeRecord -> result errno A) :
  let '(s', res) := (match Resolve path (m, e) with
                     | (s, Err er) => (s, Err er)
                     | (s, Ok (number, inode)) => (s, k number inode)
                     end) in
  answers_from m e s' res (fun a => exists n inode data, path_is fs rt path n inode data /\ k n inode = Ok a).
Proof.
  destruct (Resolve path (m, e)) as [[m1 e1] r1] eqn:E. destruct (resolve_outcome m e r Hm _ _ _ _ E) as (-> & U & H1 & H2).
  destruct r1 as [[n inode]|er]; constructor; try done.
  - intros a Ha. exists n, inode, (file_bytes (disk e) inode). split; [by apply H1|done].
  - intros Hn. split; [by apply H2|]. intros a (n' & inode' & data & Hp & Hk). pose proof (proj2 (H2 Hn) _ _ _ Hp) as Hr. by injection Hr as -> ->.
  - intros Hn. split; [by apply H2|]. intros a (n' & inode' & data & Hp & Hk). by pose proof (proj2 (H2 Hn) _ _ _ Hp).
Qed.

Lemma getattr_outcome path :
  let '(s', res) := Getattr path (m, e) in
  answers_from m e s' res (fun st => exists n inode data, path_is fs rt path n inode data /\ st = FillStat n inode).
Proof.
  pose proof (resolving path (fun n inode => Ok (FillStat n inode))) as H. unfold Getattr.
  destruct (match Resolve path (m, e) with (s, Ok _) => _ | (s, Err er) => _ end) as [s' res]. revert H. apply answers_ext.
  intros st. split; intros (n & inode & data & Hp & E); exists n, inode, data; (split; [done|]); [by injection E|by rewrite E].
Qed.

(** The callbacks that check the type and hand out a handle. *)
Lemma opening path file_info (accepts : Z -> bool) er :
  let '(s', res) := (match Resolve path (m, e) with
                     | (s, Err er) => (s, Err er)
                     | (s, Ok (number, inode)) => if negb (accepts (mode inode)) then (s, Err er) else (s, Ok (with_handle file_info number))
                     end) in
  answers_from m e s' res (fun h => exists n inode data, path_is fs rt path n inode data /\ accepts (mode inode) = true /\ h = with_handle file_info n).
Proof.
  pose proof (resolving path (fun n inode => if negb (accepts (mode inode)) then Err er else Ok (with_handle file_info n))) as H.
  destruct (Resolve path (m, e)) as [s1 [[n inode]|er1]]; [replace (if negb (accepts (mode inode)) then (s1, Err er) else (s1, Ok (with_handle file_info n)))
    with (s1, if negb (accepts (mode inode)) then Err er else Ok (with_handle file_info n)) by (by destruct (negb _))|];
    (revert H; apply answers_ext; intros h; split; intros (n' & inode' & data' & Hp & E); exists n', inode', data'; (split; [done|]);
     [destruct (accepts (mode inode')); [by injection E as <-|done]|destruct E as [-> ->]; done]).
Qed.

Lemma opendir_outcome path file_info :
  let '(s', res) := Opendir path file_info (m, e) in
  answers_from m e s' res (fun h => exists n inode data, path_is fs rt path n inode data /\ S_ISDIR (mode inode) = true /\ h = with_handle file_info n).
Proof. exact (opening path file_info S_ISDIR ENOTDIR). Qed.

Lemma open_outcome path file_info :
  let '(s', res) := OpenFile path file_info (m, e) in
  answers_from m e s' res (fun h => supported_flags (fi_flags file_info) = true /\
    exists n inode data, path_is fs rt path n inode data /\ S_ISREG (mode inode) = true /\ h = with_handle file_info n).
Proof.
  unfold OpenFile, supported_flags. cbv zeta. rewrite <- negb_orb, <- negb_andb. destruct (_ && _) eqn:Ef; cbn [negb].
  - pose proof (opening path file_info S_ISREG EISDIR) as H. destruct (match Resolve path (m, e) with (s, Ok _) => _ | (s, Err er) => _ end) as [s' res].
    revert H. apply answers_ext. intros h. split; [by split|by intros [_ ?]].
  - constructor; try done. intros _. split; [done|]. by intros h [? _].
Qed.

Lemma read_outcome path size offset file_info : 0 <= size ->
  let '(s', res) := Read path size offset file_info (m, e) in
  answers_from m e s' res (fun data => 0 <= offset /\ exists n inode contents, target_file fs rt path file_info n inode contents /\
    S_ISREG (mode inode) = true /\ data = slice (Z.to_nat offset) (Z.to_nat (Z.min size int_max)) contents).
Proof.
  intros Hsize. unfold Read. destruct (Z.ltb_spec offset 0) as [Ho|Ho]; [constructor; [done|done|done|intros _; split; [done|intros a [? _]; lia]]|].
  cbn [fst]. rewrite (mounted_usable m e r Hm). cbn [negb].
  destruct (handle_number path file_info (m, e)) as [[m1 e1] r1] eqn:E1. destruct (handle_outcome m e r Hm _ _ _ _ _ E1) as (-> & U & H1 & H2).
  destruct r1 as [n|er].
  2: { constructor; [done|done|done|]. intros Hn. split; [by apply H2|]. intros a (_ & n & inode & c & [Ht _] & _). by pose proof (proj2 (H2 Hn) n Ht). }
  destruct (FuseMount.reading _ (m, e1)) as [[m2 e2] r2] eqn:E2. pose proof U as (D & _ & _).
  assert (mounted m e1 r) as Hm1 by (by apply (serving_untouched _ e)).
  apply (mount_reading _ m e1 r) in E2 as (-> & U2 & H3 & H4); [|done|apply _]. rewrite D in *.
  assert (forall inode, answer (disk e) (ReadInode r n) = Ok inode -> S_ISREG (mode inode) = true ->
    answer (disk e) (ReadFile r n offset (Z.min size int_max)) = Ok (slice (Z.to_nat offset) (Z.to_nat (Z.min size int_max)) (file_bytes (disk e) inode))) as Hread.
  { intros inode Hi Hreg. apply (read_file_answer r (disk e) Hv n inode offset _ Hi Hreg Ho). unfold int_max. lia. }
  constructor; cbn [fst snd]; [done|by etransitivity| |].
  - intros a Ha. specialize (H3 a Ha). split; [done|]. pose proof H3 as H3'. unfold ReadFile in H3'. apply answer_bind_inv in H3' as (inode & Hi & H3'); [|apply _].
    rewrite answer_if in H3'. destruct (S_ISREG (mode inode)) eqn:Hreg; [|done]. rewrite (Hread inode Hi Hreg) in H3. injection H3 as <-.
    exists n, inode, (file_bytes (disk e) inode). split; [split; [by apply H1|by apply file_at_ok]|done].
  - intros Hn. destruct (H2 Hn) as [-> H5]. split; [by apply H4|]. intros a (_ & n' & inode & c & [Ht Hf] & Hreg & ->). specialize (H5 n' Ht). injection H5 as <-.
    unfold file_at in Hf. destruct (answer (disk e) (ReadInode r n)) as [J|] eqn:EJ; [|done]. injection Hf as -> <-.
    by apply (proj2 (H4 Hn)), Hread.
Qed.

Lemma handle_inode_outcome path file_info m' e' res : handle_inode path file_info (m, e) = ((m', e'), res) ->
  m' = m /\ untouched e e' /\ (forall n inode, res = Ok (n, inode) -> exists data, target_file fs rt path file_info n inode data) /\
  (responses e = [] -> e' = e /\ forall n inode data, target_file fs rt path file_info n inode data -> res = Ok (n, inode)).
Proof.
  assert (forall E : Resolve path (m, e) = ((m', e'), res), m' = m /\ untouched e e' /\
    (forall n inode, res = Ok (n, inode) -> exists data, (exists i x, path_is fs rt path n i x) /\ fs n = Some (inode, data)) /\
    (responses e = [] -> e' = e /\ forall n inode data, (exists i x, path_is fs rt path n i x) /\ fs n = Some (inode, data) -> res = Ok (n, inode))) as Hpath.
  { intros E. destruct (resolve_outcome m e r Hm _ _ _ _ E) as (-> & U & H1 & H2). split; [done|]. split; [done|]. split.
    - intros n inode Hr. specialize (H1 n inode Hr). exists (file_bytes (disk e) inode). split; [by eexists _, _|]. by destruct H1 as (? & _ & _ & _ & ?).
    - intros Hn. destruct (H2 Hn) as [He H3]. split; [done|]. intros n inode data [(i & x & Hp) Hf]. pose proof Hp as (_ & _ & _ & _ & Hf').
      rewrite Hf in Hf'. injection Hf' as -> ->. by apply (H3 n i x). }
  unfold handle_inode, target_file, target_is. destruct file_info as [info|]; [|exact Hpath].
  destruct (Z.eqb_spec (fh info) 0) as [|Hh]; cbn [negb]; [exact Hpath|]. intros E.
  apply (mount_reading _ m e r) in E as (-> & U & H1 & H2); [|done|apply _]. split; [done|]. split; [done|]. split.
  - intros n inode Hr. specialize (H1 _ Hr). apply answer_bind_inv in H1 as (J & EJ & H1); [|apply _]. injection H1 as <- <-.
    eexists. split; [done|]. by apply file_at_ok.
  - intros Hn. destruct (H2 Hn) as [He H3]. split; [done|]. intros n inode data [-> Hf]. apply H3. unfold file_at in Hf.
    destruct (answer (disk e) (ReadInode r (wrap32 (fh info)))) as [J|] eqn:EJ; [|done]. injection Hf as -> _.
    by rewrite (answer_bind_ok _ _ _ _ _ EJ).
Qed.
End reads.

(** * Directories *)
Section readdir.
Context {B : Type} (filler : B -> bytes -> Z -> B * bool).

Lemma readdir_outcome m e r path buffer offset file_info : mounted m e r ->
  let fs := file_at r (disk e) in
  let '(s', res) := Readdir filler path buffer offset file_info (m, e) in
  answers_from m e s' res (fun b => 0 <= offset /\ exists n es, target_is fs (root_inode (rd_superblock r)) path file_info n /\ lists fs n es /\
    b = fill_names filler buffer offset (drop (Z.to_nat offset) (directory_names es))).
Proof.
  intros Hm fs. pose proof (op_view _ _ (co_opened _ _ (sv_consistent _ _ _ Hm))) as Hv.
  unfold Readdir. destruct (Z.ltb_spec offset 0) as [Ho|Ho]; [constructor; [done|done|done|intros _; split; [done|intros a [? _]; lia]]|].
  cbn [fst]. rewrite (mounted_usable m e r Hm). cbn [negb].
  destruct (handle_inode path file_info (m, e)) as [[m1 e1] r1] eqn:E1. destruct (handle_inode_outcome m e r Hm _ _ _ _ _ E1) as (-> & U & H1 & H2).
  fold fs in H1, H2. assert (forall n es, lists fs n es -> exists inode data, fs n = Some (inode, data) /\ S_ISDIR (mode inode) = true) as Hdir
    by (intros n es (inode & x & _ & Hf & Hd & _); by exists inode, x).
  destruct r1 as [[n inode]|er].
  2: { constructor; [done|done|done|]. intros Hn. split; [by apply H2|]. intros a (_ & n & es & Ht & Hl & _). destruct (Hdir _ _ Hl) as (i & x & Hf & _).
       by pose proof (proj2 (H2 Hn) n i x (conj Ht Hf)). }
  destruct (H1 n inode eq_refl) as (data & Ht & Hf). destruct (S_ISDIR (mode inode)) eqn:Ed; cbn [negb].
  2: { constructor; [done|done|done|]. intros Hn. split; [by apply H2|]. intros a (_ & n' & es & Ht' & Hl & _). destruct (Hdir _ _ Hl) as (i & x & Hf' & Hd').
       pose proof (proj2 (H2 Hn) n' i x (conj Ht' Hf')) as Heq. injection Heq as <- <-. congruence. }
  destruct (FuseMount.reading _ (m, e1)) as [[m2 e2] r2] eqn:E2. pose proof U as (D & _ & _).
  assert (mounted m e1 r) as Hm1 by (by apply (serving_untouched _ e)).
  apply (mount_reading _ m e1 r) in E2 as (-> & U2 & H3 & H4); [|done|apply _]. rewrite D in *.
  assert (untouched e e2) as U3 by (by etransitivity). destruct r2 as [es|er].
  - constructor; cbn [fst snd]; [done|done| |].
    + intros a [= <-]. split; [done|]. exists n, es. split; [done|]. split; [|done]. apply (list_directory_files r (disk e) Hv). by apply H3.
    + intros Hn. destruct (H2 Hn) as [-> H5]. split; [by apply H4|]. intros a (_ & n' & es' & Ht' & Hl & ->). destruct (Hdir _ _ Hl) as (i & x & Hf' & _).
      specialize (H5 n' i x (conj Ht' Hf')). injection H5 as <- _. do 3 f_equal. apply (list_directory_files r (disk e) Hv) in Hl.
      pose proof (proj2 (H4 Hn) es' Hl) as Heq. by injection Heq as ->.
  - constructor; cbn [fst snd]; [done|done|done|]. intros Hn. destruct (H2 Hn) as [-> H5]. split; [by apply H4|]. intros a (_ & n' & es' & Ht' & Hl & ->).
    destruct (Hdir _ _ Hl) as (i & x & Hf' & _). specialize (H5 n' i x (conj Ht' Hf')). injection H5 as <- _.
    apply (list_directory_files r (disk e) Hv) in Hl. by pose proof (proj2 (H4 Hn) es' Hl).
Qed.

(** What libfuse promises of its buffer: a name that does not fit is not stored
    and the buffer reports that it is full, and an empty buffer takes a name. *)
Class DirectoryBuffer (contents : B -> list (bytes * Z)) : Prop := {
  buffer_stores : forall b name off b', filler b name off = (b', false) -> contents b' = contents b ++ [(name, off)];
  buffer_full : forall b name off b', filler b name off = (b', true) -> contents b' = contents b;
  buffer_room : forall b name off, contents b = [] -> snd (filler b name off) = false
}.

Context (contents : B -> list (bytes * Z)) `{!DirectoryBuffer contents}.

(** Names with the positions after them, from position [index] on. *)
Fixpoint numbered (index : Z) (names : list bytes) : list (bytes * Z) :=
  match names with [] => [] | name :: rest => (name, index + 1) :: numbered (index + 1) rest end.

Lemma fill_prefix names : forall b index, exists k, contents (fill_names filler b index names) = contents b ++ take k (numbered index names) /\
  (contents b = [] -> names <> [] -> (0 < k)%nat) /\ (k <= length names)%nat.
Proof.
  induction names as [|x names IH]; intros b index; cbn [fill_names numbered].
  - exists 0%nat. cbn [take]. by rewrite app_nil_r.
  - destruct (filler b x (index + 1)) as [b' full] eqn:E. destruct full.
    + exists 0%nat. cbn [take]. rewrite (buffer_full _ _ _ _ E), app_nil_r. split; [done|]. split; [|lia].
      intros Hb _. pose proof (buffer_room b x (index + 1) Hb) as H. by rewrite E in H.
    + destruct (IH b' (index + 1)) as (k & Ek & _ & Hk). exists (S k). cbn [take]. rewrite Ek, (buffer_stores _ _ _ _ E), <- app_assoc.
      split; [done|]. split; [lia|]. cbn [length]. lia.
Qed.

Lemma numbered_names names : forall index k, map fst (take k (numbered index names)) = take k names.
Proof. induction names as [|x names IH]; intros index k; destruct k as [|k]; [done|done|done|]. cbn. by rewrite IH. Qed.

Lemma numbered_last names : forall index k, (0 < k <= length names)%nat ->
  exists x, last (take k (numbered index names)) = Some (x, index + Z.of_nat k).
Proof.
  induction names as [|y names IH]; intros index k Hk; [cbn in Hk; lia|]. destruct k as [|k]; [lia|]. cbn [numbered take].
  destruct k as [|k]; [exists y; by rewrite take_0|]. cbn [length] in Hk. destruct (IH (index + 1) (S k) ltac:(lia)) as (x & Hx). exists x.
  destruct names as [|z names]; [cbn in Hk; lia|]. cbn [numbered take] in Hx |- *. rewrite last_cons_cons, Hx. do 2 f_equal. lia.
Qed.

(** Reading a directory from position [offset] on: calls with empty buffers, each
    from the last position received, until a buffer stays empty. *)
Inductive directory_rounds (path : option bytes) (file_info : option fuse_file_info) : FuseMountState * env -> Z -> list bytes -> Prop :=
| round_last s offset b0 s' b : contents b0 = [] -> Readdir filler path b0 offset file_info s = (s', Ok b) -> contents b = [] ->
    directory_rounds path file_info s offset []
| round_more s offset b0 s' b x next rest : contents b0 = [] -> Readdir filler path b0 offset file_info s = (s', Ok b) ->
    last (contents b) = Some (x, next) -> directory_rounds path file_info s' next rest ->
    directory_rounds path file_info s offset (map fst (contents b) ++ rest).

Section rounds.
Context (r : ImageReader) (path : option bytes) (file_info : option fuse_file_info) (n : Z) (es : list DirectoryEntry).
Abbreviation rt := (root_inode (rd_superblock r)).

(** One call: the names that fit, and the position after them. *)
Lemma round_answer m e b0 offset s' b : mounted m e r -> target_is (file_at r (disk e)) rt path file_info n -> lists (file_at r (disk e)) n es ->
  contents b0 = [] -> Readdir filler path b0 offset file_info (m, e) = (s', Ok b) ->
  0 <= offset /\ exists k, (k <= length (drop (Z.to_nat offset) (directory_names es)))%nat /\
    (drop (Z.to_nat offset) (directory_names es) <> [] -> (0 < k)%nat) /\
    contents b = take k (numbered offset (drop (Z.to_nat offset) (directory_names es))) /\
    exists e', s' = (m, e') /\ untouched e e'.
Proof.
  intros Hm Ht Hl Hb E. pose proof (readdir_outcome m e r path b0 offset file_info Hm) as H. cbv zeta in H. rewrite E in H.
  destruct H as [H1 H2 H3 _]. destruct (H3 b eq_refl) as (Ho & n' & es' & Ht' & Hl' & ->). split; [done|].
  assert (n' = n) as ->.
  { unfold target_is in Ht, Ht'. destruct file_info as [info|]; [destruct (fh info =? 0); [|congruence]|];
      destruct Ht as (? & ? & Hp), Ht' as (? & ? & Hp'); by destruct (path_unique m e r Hm _ _ _ _ _ _ _ Hp Hp') as (? & _). }
  rewrite (lists_unique _ _ _ _ Hl' Hl). destruct (fill_prefix (drop (Z.to_nat offset) (directory_names es)) b0 offset) as (k & Ek & Hk & Hlen).
  exists k. split; [done|]. split; [by apply Hk|]. split; [by rewrite Ek, Hb|]. destruct s' as [m' e']. cbn [fst snd] in *. exists e'. by subst.
Qed.

Lemma rounds_exact s offset names : directory_rounds path file_info s offset names -> forall m e, s = (m, e) -> mounted m e r ->
  target_is (file_at r (disk e)) rt path file_info n -> lists (file_at r (disk e)) n es ->
  names = drop (Z.to_nat offset) (directory_names es).
Proof.
  induction 1 as [s offset b0 s' b Hb E Hend|s offset b0 s' b x next rest Hb E Hlast _ IH]; intros m e -> Hm Ht Hl;
    destruct (round_answer m e b0 offset s' b Hm Ht Hl Hb E) as (Ho & k & Hk & Hpos & Ec & e' & -> & U).
  - destruct (drop (Z.to_nat offset) (directory_names es)) as [|y l]; [done|]. specialize (Hpos ltac:(done)). destruct k as [|k]; [lia|].
    rewrite Ec in Hend. done.
  - rewrite Ec, numbered_names. assert (0 < k)%nat as Hk0.
    { destruct k; [|lia]. rewrite Ec in Hlast. done. }
    destruct (numbered_last (drop (Z.to_nat offset) (directory_names es)) offset k ltac:(lia)) as (y & Hy). rewrite Ec, Hy in Hlast. injection Hlast as -> <-.
    pose proof U as (D & _). rewrite (IH m e' eq_refl); [|by apply (serving_untouched _ e)|by rewrite D|by rewrite D].
    replace (Z.to_nat (offset + Z.of_nat k)) with (Z.to_nat offset + k)%nat by lia. by rewrite <- drop_drop, take_drop.
Qed.

Lemma rounds_exist b0 m e : contents b0 = [] -> responses e = [] -> mounted m e r ->
  target_is (file_at r (disk e)) rt path file_info n -> lists (file_at r (disk e)) n es ->
  forall j offset, 0 <= offset -> (length (drop (Z.to_nat offset) (directory_names es)) <= j)%nat ->
  exists names, directory_rounds path file_info (m, e) offset names.
Proof.
  intros Hb Hn Hm Ht Hl. induction j as [|j IH]; intros offset Ho Hj;
    pose proof (readdir_outcome m e r path b0 offset file_info Hm) as H; cbv zeta in H;
    destruct (Readdir filler path b0 offset file_info (m, e)) as [s' res] eqn:E; destruct H as [_ _ _ H4]; destruct (H4 Hn) as [He H5];
    rewrite (H5 _ (conj Ho (ex_intro _ n (ex_intro _ es (conj Ht (conj Hl eq_refl)))))) in E; clear H4 H5;
    destruct (round_answer m e b0 offset s' _ Hm Ht Hl Hb E) as (_ & k & Hk & Hpos & Ec & e' & -> & U).
  - exists []. eapply round_last; [exact Hb|exact E|]. rewrite Ec. destruct (drop (Z.to_nat offset) (directory_names es)); [by destruct k|cbn in Hj; lia].
  - destruct (decide (k = 0%nat)) as [->|Hk0]; [exists []; eapply round_last; [exact Hb|exact E|by rewrite Ec]|].
    destruct (numbered_last (drop (Z.to_nat offset) (directory_names es)) offset k ltac:(lia)) as (y & Hy).
    cbn [snd] in He. subst e'. destruct (IH (offset + Z.of_nat k)) as (rest & Hrest); [lia| |].
    { rewrite Z2Nat.inj_add, Nat2Z.id, <- drop_drop, length_drop by lia. lia. }
    eexists. eapply round_more; [exact Hb|exact E|rewrite Ec; exact Hy|exact Hrest].
Qed.
End rounds.
End readdir.
