(* ===== verification/FuseRefinement.v ===== *)
(** Runs of a mount: callbacks under any system-call behaviour, failures that
    close the mount, crashes anywhere in a callback, interrupted recoveries and
    new mounts, against an abstract file system. *)
From S2P Require Import Prelude Codec OndiskFormat OndiskFormatProofs DirectoryEntry OndiskJournal OndiskJournalProofs.
From S2P Require Import Disk JournalStore JournalImage CrashLogic JournalStates JournalTheorems BitmapAllocator.
From S2P Require Import ImageReader ImageReaderProofs ReaderTheorems FileMutation ConsistentImage PlanProofs.
From S2P Require Import Publication FileSystem PlanTheorems ObjectBackend BackendProofs IdempotentProofs.
From S2P Require Import StoreRefinement EmptyFileCreate FuseMount FuseProofs FuseReads.
Open Scope Z_scope.

Section mount.
Context {B : Type} (filler : B -> bytes -> Z -> B * bool).
Abbreviation request := (@fuse_request B).
Abbreviation reply := (@fuse_reply B).

(** * The abstract file system *)
(** What a request that changes nothing may answer. *)
Definition fuse_answers (rt : Z) (q : request) (fs : files) (a : reply) : Prop :=
  match q, a with
  | OnGetattr path, Attributes st => exists n inode data, path_is fs rt path n inode data /\ st = FillStat n inode
  | OnOpendir path file_info, Handle h =>
      exists n inode data, path_is fs rt path n inode data /\ S_ISDIR (mode inode) = true /\ h = with_handle file_info n
  | OnReaddir path buffer offset file_info, Names b => 0 <= offset /\ exists n es, target_is fs rt path file_info n /\ lists fs n es /\
      b = fill_names filler buffer offset (drop (Z.to_nat offset) (directory_names es))
  | OnOpen path file_info, Handle h => supported_flags (fi_flags file_info) = true /\
      exists n inode data, path_is fs rt path n inode data /\ S_ISREG (mode inode) = true /\ h = with_handle file_info n
  | OnRead path size offset file_info, Contents data => 0 <= offset /\ exists n inode contents,
      target_file fs rt path file_info n inode contents /\ S_ISREG (mode inode) = true /\
      data = slice (Z.to_nat offset) (Z.to_nat (Z.min size int_max)) contents
  | OnWrite _ (Some []) _ _ _, Count k => k = 0
  | OnReleasedir, Done | OnRelease, Done => True
  | _, _ => False
  end.

(** What a request that changes the files does, and its answer. *)
Inductive fuse_moves (rt : Z) : request -> files -> reply -> files -> Prop :=
| moves_create object_name file_mode file_info now user group ts n fs fs' :
    timestamp_of now = Ok ts -> adds_object rt fs fs' n object_name [] file_mode user group ts ->
    fuse_moves rt (OnCreate (Some (slash :: object_name)) file_mode (Some file_info) now user group) fs (Handle (with_handle file_info n)) fs'
| moves_write path data offset file_info now ts n fs fs' :
    timestamp_of now = Ok ts -> data <> [] -> target_is fs rt path (Some file_info) n -> writes fs fs' n offset data ts ->
    fuse_moves rt (OnWrite path (Some data) offset (Some file_info) now) fs (Count (Z.of_nat (length data))) fs'.

(** The files are served, or the mount is closed and the next mount will show one
    of two states. *)
Inductive mount_view := Serving (fs : files) | Stopped (before after : files).

Inductive mount_label :=
| Answered (q : request) (res : result errno reply)
| Restarted (interrupted : option request).

Inductive view_step (rt : Z) : mount_view -> mount_label -> mount_view -> Prop :=
| view_answers q fs a : fuse_answers rt q fs a -> view_step rt (Serving fs) (Answered q (Ok a)) (Serving fs)
| view_refuses q fs er : view_step rt (Serving fs) (Answered q (Err er)) (Serving fs)
| view_moves q fs a fs' fs2 : fuse_moves rt q fs a fs' -> fs' ≡ fs2 -> view_step rt (Serving fs) (Answered q (Ok a)) (Serving fs2)
| view_closes q fs a fs' er : fuse_moves rt q fs a fs' -> view_step rt (Serving fs) (Answered q (Err er)) (Stopped fs fs')
| view_closed q before after res : (forall a, res = Ok a -> fuse_answers rt q (fun _ => None) a) ->
    view_step rt (Stopped before after) (Answered q res) (Stopped before after)
| view_restarts fs fs2 interrupted : fs ≡ fs2 -> view_step rt (Serving fs) (Restarted interrupted) (Serving fs2)
| view_finishes q fs a fs' fs2 : fuse_moves rt q fs a fs' -> fs' ≡ fs2 -> view_step rt (Serving fs) (Restarted (Some q)) (Serving fs2)
| view_reopens before after fs2 interrupted : before ≡ fs2 \/ after ≡ fs2 ->
    view_step rt (Stopped before after) (Restarted interrupted) (Serving fs2).

Inductive view_run (rt : Z) : mount_view -> list mount_label -> mount_view -> Prop :=
| view_nil v : view_run rt v [] v
| view_cons v l v' ls v'' : view_step rt v l v' -> view_run rt v' ls v'' -> view_run rt v (l :: ls) v''.

(** * The mount *)
(** Requests with typed arguments whose plans the journal can carry. *)
Definition fuse_admissible (e : env) (r : ImageReader) (q : request) : Prop :=
  match q with
  | OnRead _ size _ _ => 0 <= size
  | OnCreate path file_mode _ now user group =>
      u32 user /\ u32 group /\ forall path', path = Some path' -> bytes_ok path' /\
      forall object_name ts plan, root_name path' = Some object_name -> timestamp_of now = Ok ts ->
        answer (disk e) (PrepareRootEmptyFileCreate r object_name file_mode user group ts) = Ok plan -> no_commit_block (ep_after_images plan)
  | OnWrite _ buffer offset _ now => forall data, buffer = Some data -> bytes_ok data /\
      forall n ts plan, timestamp_of now = Ok ts -> answer (disk e) (PrepareFileWrite r n offset data ts) = Ok plan ->
        no_commit_block (fp_metadata_after_images plan)
  | _ => True
  end.

(** ** One callback *)
(** The request left everything as it was, or it may have moved the files to
    [fs']. *)
Record fuse_outcome (r : ImageReader) (q : request) (m : FuseMountState) (e : env) (m' : FuseMountState) (e' : env)
    (res : result errno reply) (fs' : files) : Prop := {
  fo_effect : exists a, fuse_moves (root_inode (rd_superblock r)) q (file_at r (disk e)) a fs';
  fo_applies : exists ures out, applies r fs' (as_backend m) e (as_backend m') e' ures out /\ is_ok res = is_ok ures;
  fo_answer : forall a, res = Ok a -> fuse_moves (root_inode (rd_superblock r)) q (file_at r (disk e)) a fs'
}.

Lemma answered_quietly {A} m e r (k : callback A) (reply_of : A -> reply) q spec :
  (let '(s', res) := k (m, e) in answers_from m e s' res spec) ->
  (forall a, spec a -> fuse_answers (root_inode (rd_superblock r)) q (file_at r (disk e)) (reply_of a)) ->
  let '((m', e'), res) := replying reply_of k (m, e) in
  m' = m /\ untouched e e' /\ forall a, res = Ok a -> fuse_answers (root_inode (rd_superblock r)) q (file_at r (disk e)) a.
Proof.
  intros H Hspec. unfold replying. destruct (k (m, e)) as [[m' e'] res]. destruct H as [H1 H2 H3 _]. cbn [fst snd] in *.
  destruct res as [a|er]; (split; [done|]); (split; [done|]); [|done]. intros a' [= <-]. by apply Hspec, H3.
Qed.

Lemma operation_outcome q m e r : mounted m e r -> trace e = [] -> fuse_admissible e r q ->
  let '((m', e'), res) := MakeOperations filler q (m, e) in
  (m' = m /\ untouched e e' /\ forall a, res = Ok a -> fuse_answers (root_inode (rd_superblock r)) q (file_at r (disk e)) a) \/
  exists fs', fuse_outcome r q m e m' e' res fs'.
Proof.
  intros Hm Ht Ha.
  destruct q as [path|path info|path buffer offset info| |path info|path size offset info| |path file_mode info now user group|path buffer offset info now| | | | |];
    cbn [MakeOperations fuse_admissible] in *.
  - pose proof (answered_quietly m e r (Getattr path) Attributes (OnGetattr path) _ (getattr_outcome m e r Hm path) ltac:(done)) as H.
    destruct (replying _ _ _) as [[m' e'] res]. by left.
  - pose proof (answered_quietly m e r (Opendir path info) Handle (OnOpendir path info) _ (opendir_outcome m e r Hm path info) ltac:(done)) as H.
    destruct (replying _ _ _) as [[m' e'] res]. by left.
  - pose proof (answered_quietly m e r (Readdir filler path buffer offset info) Names (OnReaddir path buffer offset info) _
      (readdir_outcome filler m e r path buffer offset info Hm) ltac:(done)) as H.
    destruct (replying _ _ _) as [[m' e'] res]. by left.
  - left. split; [done|]. split; [done|]. by intros a [= <-].
  - pose proof (answered_quietly m e r (OpenFile path info) Handle (OnOpen path info) _ (open_outcome m e r Hm path info) ltac:(done)) as H.
    destruct (replying _ _ _) as [[m' e'] res]. by left.
  - pose proof (answered_quietly m e r (Read path size offset info) Contents (OnRead path size offset info) _
      (read_outcome m e r Hm path size offset info Ha) ltac:(done)) as H.
    destruct (replying _ _ _) as [[m' e'] res]. by left.
  - left. split; [done|]. split; [done|]. by intros a [= <-].
  - destruct Ha as (Hu & Hg & Hp). destruct path as [path|]; [|by left]. destruct info as [info|]; [|by left].
    destruct (Hp path eq_refl) as [Hb Hcar]. pose proof (create_outcome m e r Hm Ht path file_mode info now user group Hb Hu Hg Hcar) as H. unfold replying.
    destruct (Create (Some path) file_mode (Some info) now user group (m, e)) as [[m' e'] res].
    destruct H as [(-> & U & Hr)|(object_name & ts & n & fs' & ures & out & -> & Hts & Hadd & Hap & ->)]; [destruct res; [done|by left]|].
    destruct ures as [[]|er]; right; exists fs'; (constructor; [eexists; by econstructor|eexists _, out; by split|]); [|done].
    intros a [= <-]. by econstructor.
  - destruct buffer as [data|]; [|by left]. destruct info as [info|]; [|by left]. destruct (Ha data eq_refl) as [Hb Hcar].
    pose proof (write_outcome m e r Hm Ht path data offset info now Hb Hcar) as H. unfold replying.
    destruct (Write path (Some data) offset (Some info) now (m, e)) as [[m' e'] res].
    destruct H as [(-> & U & Hr)|(n & ts & fs' & ures & out & Htg & Hts & Hne & Hw & Hap & ->)].
    { destruct res as [k|er]; left; (split; [done|]); (split; [done|]); [|done]. intros a [= <-]. by destruct (Hr k eq_refl) as [-> ->]. }
    destruct ures as [[]|er]; right; exists fs'; (constructor; [eexists; by econstructor|eexists _, out; by split|]); [|done].
    intros a [= <-]. by econstructor.
  - by left.
  - by left.
  - by left.
  - by left.
  - by left.
Qed.

(** A closed mount changes nothing and shows nothing. *)
Lemma closed_outcome q m e rt : mount_usable m = false ->
  exists res, MakeOperations filler q (m, e) = ((m, e), res) /\ forall a, res = Ok a -> fuse_answers rt q (fun _ => None) a.
Proof.
  intros Hu. assert (forall A (k : ImageReader -> io A), FuseMount.reading k (m, e) = ((m, e), Err EIO)) as Hr.
  { intros A k. unfold FuseMount.reading, mount_usable in *. by destruct (mt_fatal_error m), (mt_reader m). }
  assert (forall path, exists er, Resolve path (m, e) = ((m, e), Err er)) as Hres.
  { intros [path|]; [exists EIO; cbn [Resolve]; apply Hr|by eexists]. }
  destruct q as [path|path info|path buffer offset info| |path info|path size offset info| |path file_mode info now user group|path buffer offset info now| | | | |];
    cbn [MakeOperations]; try (by eexists); unfold replying.
  - unfold Getattr. destruct (Hres path) as [er ->]. by eexists.
  - unfold Opendir. destruct (Hres path) as [er ->]. by eexists.
  - unfold Readdir. cbn [fst]. rewrite Hu. destruct (offset <? 0); by eexists.
  - eexists. split; [reflexivity|]. by intros a [= <-].
  - unfold OpenFile. cbv zeta. destruct (_ || _); [by eexists|]. destruct (Hres path) as [er ->]. by eexists.
  - unfold Read. cbn [fst]. rewrite Hu. destruct (offset <? 0); by eexists.
  - eexists. split; [reflexivity|]. by intros a [= <-].
  - unfold Create. destruct path as [path|]; [|by eexists]. destruct info as [info|]; [|by eexists]. destruct (root_name path); [|by eexists].
    rewrite Hr. by eexists.
  - unfold Write. destruct buffer as [data|]; [|by eexists]. destruct info as [info|]; [|by eexists]. cbv zeta. destruct (offset <? 0); [by eexists|].
    destruct (Z.eqb_spec (Z.of_nat (length data)) 0) as [H0|H0].
    { eexists. split; [reflexivity|]. intros a [= <-]. by destruct data. }
    destruct (int_max <? _); [by eexists|]. cbn [fst]. rewrite Hu. by eexists.
Qed.

Lemma usable_as_backend m : usable (as_backend m) = mount_usable m.
Proof. by destruct m as [[?|] [?|]]. Qed.

(** ** Steps *)
(** The mount, the file as the system shows it, and what of it is durable. *)
Record mount := mkMounted { ms_state : FuseMountState; ms_image : image; ms_durability : durability }.

Section steps.
Context (sb : Superblock) (size : Z) (image_path : bytes).

Inductive mount_step : mount -> mount_label -> mount -> Prop :=
| step_answered script q m d v m' e' res :
    (forall r, mt_reader m = Some r -> fuse_admissible (mkEnv d size script []) r q) ->
    MakeOperations filler q (m, mkEnv d size script []) = ((m', e'), res) ->
    mount_step (mkMounted m d v) (Answered q res) (mkMounted m' (disk e') (foldl settle v (trace e')))
| step_restarted m d v x y m2 e2 action :
    crash_image sb v x -> interrupted_recovery sb size x y ->
    OpenFuseMountState image_path (fresh_start size y) = (e2, Ok (m2, action)) ->
    mount_step (mkMounted m d v) (Restarted None) (mkMounted m2 (disk e2) (durability_of y (trace e2)))
| step_interrupted script q m d v m' e' res p x y m2 e2 action :
    (forall r, mt_reader m = Some r -> fuse_admissible (mkEnv d size script []) r q) ->
    MakeOperations filler q (m, mkEnv d size script []) = ((m', e'), res) ->
    p `prefix_of` trace e' -> crash_image sb (foldl settle v p) x -> interrupted_recovery sb size x y ->
    OpenFuseMountState image_path (fresh_start size y) = (e2, Ok (m2, action)) ->
    mount_step (mkMounted m d v) (Restarted (Some q)) (mkMounted m2 (disk e2) (durability_of y (trace e2))).

Inductive mount_run : mount -> list mount_label -> mount -> Prop :=
| mount_nil st : mount_run st [] st
| mount_cons st l st' ls st'' : mount_step st l st' -> mount_run st' ls st'' -> mount_run st (l :: ls) st''.

(** What a mount shows. *)
Definition mount_shows (st : mount) (v : mount_view) : Prop :=
  match v with
  | Serving fs => exists r, mounted (ms_state st) (fresh_start size (ms_image st)) r /\ rd_superblock r = sb /\ image_size_ r = size /\
      fs = file_at r (ms_image st) /\ durable (ms_durability st) = ms_image st /\ pending (ms_durability st) = []
  | Stopped before after => mount_usable (ms_state st) = false /\ exists r, rd_superblock r = sb /\ image_size_ r = size /\
      forall x y, crash_image sb (ms_durability st) x -> interrupted_recovery sb size x y -> restarts_with r y before \/ restarts_with r y after
  end.

Abbreviation rt := (root_inode sb).

(** A mount after a restart that leaves the files [fs]. *)
Lemma mount_opens r y fs : image_path <> [] -> rd_superblock r = sb -> image_size_ r = size -> restarts_with r y fs ->
  exists m2 e2 action fs2, OpenFuseMountState image_path (fresh_start size y) = (e2, Ok (m2, action)) /\ fs ≡ fs2 /\
    mount_shows (mkMounted m2 (disk e2) (durability_of y (trace e2))) (Serving fs2).
Proof.
  intros Hpath Es Ez (e & r2 & [(action & E) Hsy Hop [Hn Hz] Hc Hcl [Hs2 Hi2]] & Hfs). rewrite Ez in E.
  exists (mkMount (Some r2) None), e, action, (file_at r2 (disk e)). split; [|split; [intros n; by rewrite Hfs|]].
  - unfold OpenFuseMountState. rewrite bool_decide_eq_false_2 by done. unfold io_bind at 1. rewrite E.
    unfold io_bind at 1. rewrite (reading_calm DuplicateFd e tt _ Hn ltac:(done)). unfold io_bind at 1. by rewrite Hop.
  - exists r2. cbn [ms_state ms_image ms_durability]. destruct Hsy. conj_split; try done; try congruence.
    constructor; cbn; [done|done|by rewrite Hs2, Hi2|congruence].
Qed.

Lemma mount_reopens r y fs m2 e2 action : rd_superblock r = sb -> image_size_ r = size -> restarts_with r y fs ->
  OpenFuseMountState image_path (fresh_start size y) = (e2, Ok (m2, action)) ->
  exists fs2, fs ≡ fs2 /\ mount_shows (mkMounted m2 (disk e2) (durability_of y (trace e2))) (Serving fs2).
Proof.
  intros Es Ez Hre E. assert (image_path <> []) as Hpath by (intros ->; done).
  destruct (mount_opens r y fs Hpath Es Ez Hre) as (m3 & e3 & a3 & fs2 & E3 & H). rewrite E in E3. injection E3 as <- <- <-. by exists fs2.
Qed.

(** ** A served mount *)
Section serving.
Context (m : FuseMountState) (d : image) (v : durability) (r : ImageReader).
Context (Hm : mounted m (fresh_start size d) r) (Es : rd_superblock r = sb) (Ez : image_size_ r = size).
Context (Hdur : durable v = d) (Hpen : pending v = []).
Abbreviation fs := (file_at r d).

Lemma mounted_with script : mounted m (mkEnv d size script []) r.
Proof. by apply (serving_untouched _ (fresh_start size d)). Qed.

Lemma crash_after p x y : crash_image sb (foldl settle v p) x -> interrupted_recovery sb size x y -> crash_outcome r d p y.
Proof. intros Hx Hy. exists x. rewrite Es, Ez. split; [|done]. by apply (crash_of_settled sb d v). Qed.

Lemma same_shows : mount_shows (mkMounted m d v) (Serving fs).
Proof. by exists r. Qed.

Lemma answered_shows script q m' e' res : fuse_admissible (mkEnv d size script []) r q ->
  MakeOperations filler q (m, mkEnv d size script []) = ((m', e'), res) ->
  exists v', view_step rt (Serving fs) (Answered q res) v' /\ mount_shows (mkMounted m' (disk e') (foldl settle v (trace e'))) v'.
Proof.
  intros Ha E. pose proof (operation_outcome q m _ r (mounted_with script) eq_refl Ha) as H. rewrite E, Es in H. cbn [disk] in H.
  assert (forall m' e', m' = m -> untouched (mkEnv d size script []) e' ->
    mount_shows (mkMounted m' (disk e') (foldl settle v (trace e'))) (Serving fs)) as Hsame.
  { intros m1 e1 -> (D & _ & T). cbn [disk trace] in D, T. rewrite D, T. exact same_shows. }
  destruct H as [(Hmm & U & Hres)|(fs' & [(a & Hmv) (ures & out & Hap & Hok) Hans])].
  { exists (Serving fs). split; [|by apply Hsame]. destruct res as [a|er]; [by apply view_answers, Hres|apply view_refuses]. }
  rewrite Es in Hmv, Hans. cbn [disk] in Hmv, Hans. destruct Hap as [_ H1 H2 H3 H4]. cbn [disk] in H2, H3, H4.
  assert (is_ok ures = false -> usable (as_backend m') = false ->
    exists v', view_step rt (Serving fs) (Answered q res) v' /\ mount_shows (mkMounted m' (disk e') (foldl settle v (trace e'))) v') as Hstop.
  { intros Hno Hu. rewrite Hno in Hok. exists (Stopped fs fs'). destruct res as [?|er]; [done|]. split; [by eapply view_closes|]. split; [by rewrite <- usable_as_backend|].
    exists r. split; [done|]. split; [done|]. cbn [ms_durability]. intros x y Hx Hy.
    destruct (H2 (trace e') y (reflexivity _) (crash_after _ x y Hx Hy)) as [Hre|[_ Hre]]; [by left|by right]. }
  destruct out.
  - destruct H1 as (Hno & Hb & U). rewrite Hno in Hok. exists (Serving fs). destruct res as [?|er]; [done|]. split; [apply view_refuses|].
    apply Hsame; [|done]. destruct m as [rd fe], m' as [rd' fe']. by injection Hb as -> ->.
  - destruct ures as [[]|er]; cbn [is_ok] in *; [|destruct H1 as [(r2 & ? & ? & ? & ? & ? & ? & Hu)]; by apply Hstop].
    destruct H1 as [(r2 & C1 & C2 & C3 & C4 & C5 & C6 & C7)]. destruct res as [a'|]; [|done].
    exists (Serving (file_at r2 (disk e'))). split; [apply (view_moves _ _ _ _ fs'); [by apply Hans|by symmetry]|].
    exists r2. cbn [ms_state ms_image ms_durability]. destruct (H4 eq_refl) as [Y1 Y2].
    destruct (settle_stages (trace e') v (mkView d [] []) Hdur Hpen) as [S1 S2].
    split; [|split; [congruence|split; [congruence|split; [done|split; [by rewrite S1|by rewrite S2]]]]].
    constructor; [done|done|done|]. cbn. congruence.
  - destruct H1 as [Hno Hu]. by apply Hstop.
Qed.

Lemma interrupted_shows script q m' e' res p x y m2 e2 action : fuse_admissible (mkEnv d size script []) r q ->
  MakeOperations filler q (m, mkEnv d size script []) = ((m', e'), res) ->
  p `prefix_of` trace e' -> crash_image sb (foldl settle v p) x -> interrupted_recovery sb size x y ->
  OpenFuseMountState image_path (fresh_start size y) = (e2, Ok (m2, action)) ->
  exists v', view_step rt (Serving fs) (Restarted (Some q)) v' /\ mount_shows (mkMounted m2 (disk e2) (durability_of y (trace e2))) v'.
Proof.
  intros Ha E Hp Hx Hy Eo. pose proof (operation_outcome q m _ r (mounted_with script) eq_refl Ha) as H. rewrite E, Es in H. cbn [disk] in H.
  pose proof (crash_after p x y Hx Hy) as Hco.
  destruct H as [(_ & (_ & _ & T) & _)|(fs' & [(a & Hmv) (ures & out & [_ _ H2 _ _] & _) _])].
  - cbn [trace] in T. rewrite T in Hp. apply prefix_nil_inv in Hp as ->.
    destruct (mount_reopens r y fs m2 e2 action Es Ez (idle_restart (as_backend m) _ r Hm y Hco) Eo) as (fs2 & Hf & Hsh).
    exists (Serving fs2). split; [by apply view_restarts|done].
  - rewrite Es in Hmv. cbn [disk] in Hmv, H2. destruct (H2 p y Hp Hco) as [Hre|[_ Hre]];
      destruct (mount_reopens r y _ m2 e2 action Es Ez Hre Eo) as (fs2 & Hf & Hsh); exists (Serving fs2); (split; [|done]).
    + by apply view_restarts.
    + by eapply view_finishes.
Qed.

Lemma restarted_shows x y m2 e2 action : crash_image sb v x -> interrupted_recovery sb size x y ->
  OpenFuseMountState image_path (fresh_start size y) = (e2, Ok (m2, action)) ->
  exists v', view_step rt (Serving fs) (Restarted None) v' /\ mount_shows (mkMounted m2 (disk e2) (durability_of y (trace e2))) v'.
Proof.
  intros Hx Hy Eo. destruct (mount_reopens r y fs m2 e2 action Es Ez (idle_restart (as_backend m) _ r Hm y (crash_after [] x y Hx Hy)) Eo) as (fs2 & Hf & Hsh).
  exists (Serving fs2). split; [by apply view_restarts|done].
Qed.
End serving.

(** A crash in a callback of a mount leaves an image that restarts. *)
Lemma mount_restarts st v q script m' e' res p x y : mount_shows st v ->
  (forall r, mt_reader (ms_state st) = Some r -> fuse_admissible (mkEnv (ms_image st) size script []) r q) ->
  MakeOperations filler q (ms_state st, mkEnv (ms_image st) size script []) = ((m', e'), res) ->
  p `prefix_of` trace e' -> crash_image sb (foldl settle (ms_durability st) p) x -> interrupted_recovery sb size x y ->
  exists r fs, rd_superblock r = sb /\ image_size_ r = size /\ restarts_with r y fs.
Proof.
  intros Hs Ha E Hp Hx Hy. destruct v as [fs|before after].
  - destruct Hs as (r & Hm & Es & Ez & -> & Hd & Hpe). assert (mt_reader (ms_state st) = Some r) as Hr by (by rewrite (mounted_state _ _ _ Hm)).
    pose proof (operation_outcome q _ _ r (mounted_with _ _ r Hm script) eq_refl (Ha r Hr)) as H. rewrite E in H. cbn [disk] in H.
    pose proof (crash_after (ms_image st) (ms_durability st) r Es Ez Hd Hpe p x y Hx Hy) as Hco. exists r.
    destruct H as [(_ & (_ & _ & T) & _)|(fs' & [_ (ures & out & [_ _ H2 _ _] & _) _])].
    + cbn [trace] in T. rewrite T in Hp. apply prefix_nil_inv in Hp as ->. eexists. split; [done|]. split; [done|].
      exact (idle_restart (as_backend (ms_state st)) _ r Hm y Hco).
    + cbn [disk] in H2. destruct (H2 p y Hp Hco) as [Hre|[_ Hre]]; eexists; (split; [done|]); (split; [done|]); exact Hre.
  - destruct Hs as (Hu & r & Es & Ez & Hcr). destruct (closed_outcome q (ms_state st) (mkEnv (ms_image st) size script []) rt Hu) as (res' & E' & _).
    rewrite E in E'. injection E' as -> -> ->. cbn [trace] in Hp. apply prefix_nil_inv in Hp as ->. exists r.
    destruct (Hcr x y Hx Hy) as [Hre|Hre]; eexists; (split; [done|]); (split; [done|]); exact Hre.
Qed.

(** * Simulation *)
Lemma mount_simulation st v l st' : mount_shows st v -> mount_step st l st' -> exists v', view_step rt v l v' /\ mount_shows st' v'.
Proof.
  intros Hs Hst. destruct v as [fs|before after].
  - destruct Hs as (r & Hm & Es & Ez & -> & Hd & Hp). assert (mt_reader (ms_state st) = Some r) as Hr by (by rewrite (mounted_state _ _ _ Hm)).
    destruct Hst as [script q m d v m' e' res Ha E|m d v x y m2 e2 action Hx Hy Eo|script q m d v m' e' res p x y m2 e2 action Ha E Hpre Hx Hy Eo];
      cbn [ms_state ms_image ms_durability] in *.
    + by apply (answered_shows m d v r Hm Es Ez Hd Hp script q m' e' res (Ha r Hr)).
    + by apply (restarted_shows m d v r Hm Es Ez Hd Hp x y m2 e2 action).
    + by apply (interrupted_shows m d v r Hm Es Ez Hd Hp script q m' e' res p x y m2 e2 action (Ha r Hr)).
  - destruct Hs as (Hu & r & Es & Ez & Hcr).
    assert (forall x y m2 e2 action int, crash_image sb (ms_durability st) x -> interrupted_recovery sb size x y ->
      OpenFuseMountState image_path (fresh_start size y) = (e2, Ok (m2, action)) ->
      exists v', view_step rt (Stopped before after) (Restarted int) v' /\ mount_shows (mkMounted m2 (disk e2) (durability_of y (trace e2))) v') as Hre.
    { intros x y m2 e2 action int Hx Hy Eo. destruct (Hcr x y Hx Hy) as [H|H]; destruct (mount_reopens r y _ m2 e2 action Es Ez H Eo) as (fs2 & Hf & Hsh);
        exists (Serving fs2); (split; [|done]); apply view_reopens; [by left|by right]. }
    destruct Hst as [script q m d v m' e' res Ha E|m d v x y m2 e2 action Hx Hy Eo|script q m d v m' e' res p x y m2 e2 action Ha E Hpre Hx Hy Eo];
      cbn [ms_state ms_image ms_durability] in *.
    + destruct (closed_outcome q m (mkEnv d size script []) rt Hu) as (res' & E' & Hans). rewrite E in E'. injection E' as -> -> ->.
      exists (Stopped before after). split; [by apply view_closed|]. split; [done|]. by exists r.
    + by apply (Hre x y m2 e2 action).
    + destruct (closed_outcome q m (mkEnv d size script []) rt Hu) as (res' & E' & Hans). rewrite E in E'. injection E' as -> -> ->.
      cbn [trace] in Hpre. apply prefix_nil_inv in Hpre as ->. by apply (Hre x y m2 e2 action).
Qed.

Lemma run_simulation st ls st' : mount_run st ls st' -> forall v, mount_shows st v -> exists v', view_run rt v ls v' /\ mount_shows st' v'.
Proof.
  induction 1 as [st|st l st1 ls st2 Hst _ IH]; intros v Hv; [exists v; split; [constructor|done]|].
  destruct (mount_simulation st v l st1 Hv Hst) as (v1 & H1 & H2). destruct (IH v1 H2) as (v2 & H3 & H4). exists v2. split; [by econstructor|done].
Qed.
End steps.
End mount.
