(* ===== verification/FuseTheorems.v ===== *)
(** The guarantees of a mount. *)
From S2P Require Import Prelude Codec OndiskFormat OndiskFormatProofs DirectoryEntry OndiskJournal OndiskJournalProofs.
From S2P Require Import Disk JournalStore JournalImage CrashLogic JournalStates JournalExample JournalTheorems.
From S2P Require Import BitmapAllocator ImageReader ImageReaderProofs ReaderTheorems LedgerStore FileMutation.
From S2P Require Import ConsistentImage PlanProofs FileMutationProofs FileMutationPublish FileContents Publication.
From S2P Require Import FilePlans FileTheorems NewObject ObjectPublish NewObjectProofs ObjectPlans NewObjectPlans.
From S2P Require Import FileSystem PlanTheorems ObjectBackend BackendProofs IdempotentProofs StoreRefinement.
From S2P Require Import EmptyFileCreate FuseMount FuseProofs FuseReads FuseRefinement.
Open Scope Z_scope.

(** * Examples *)
(** Buffers of a fixed number of names. *)
Definition page_filler (capacity : nat) (b : list (bytes * Z)) (name : bytes) (off : Z) : list (bytes * Z) * bool :=
  if (length b <? capacity)%nat then (b ++ [(name, off)], false) else (b, true).

Lemma page_buffer capacity : (0 < capacity)%nat -> DirectoryBuffer (page_filler capacity) (fun b => b).
Proof.
  intros Hc. constructor; unfold page_filler; intros b name off.
  - intros b'. by destruct (_ <? _)%nat; intros [= <-].
  - intros b'. by destruct (_ <? _)%nat; intros [= <-].
  - intros ->. destruct capacity; [lia|done].
Qed.

(** A mount of the image with one file. *)
Definition mount1 : FuseMountState := mkMount (Some reader1) None.
Definition state1 : mount := mkMounted mount1 img1 (mkView img1 [] []).

Lemma mounted1 script : mounted mount1 (mkEnv img1 size0 script []) reader1.
Proof. constructor; [reflexivity|exact consistent1|exists current0, kA; split; [exact ready1|reflexivity]|reflexivity]. Qed.

Lemma state1_shows : mount_shows sb0 size0 state1 (Serving (file_at reader1 img1)).
Proof. exists reader1. split; [apply mounted1|]. done. Qed.

Definition handle1 : fuse_file_info := mkFileInfo 1 2.
Definition now1 : option timespec := Some (mkTimespec 0 7).
Definition write_request_1 : @fuse_request (list (bytes * Z)) := OnWrite None (Some [1; 2; 3]) 4095 (Some handle1) now1.

Lemma write_carried1 n ts plan : timestamp_of now1 = Ok ts -> answer img1 (PrepareFileWrite reader1 n 4095 [1; 2; 3] ts) = Ok plan ->
  no_commit_block (fp_metadata_after_images plan).
Proof.
  intros [= <-] E. assert (n = 2) as ->.
  { unfold PrepareFileWrite in E. rewrite answer_if in E. destruct (bool_decide _) in E; [done|].
    destruct (prepared_facts _ _ _ _ _ E) as (J & EJ & Hreg & _). clear E. destruct (reads1 n J EJ) as [[_ ->]|[-> _]]; [discriminate Hreg|reflexivity]. }
  destruct written1 as (plan' & E' & Hp). change (wrap64 (0 * 1000000000 + 7)) with 7 in E. unfold write1 in E'. rewrite E in E'. by injection E' as <-.
Qed.

Lemma write_admissible1 script r : mt_reader mount1 = Some r -> fuse_admissible (mkEnv img1 size0 script []) r write_request_1.
Proof. intros [= <-] data [= <-]. split; [by apply bytes_okb_ok|]. exact write_carried1. Qed.

(** An image with an empty root. *)
Definition root5 : InodeRecord := mkInode 1 16877 0 0 2 0 1 1 1 0 1 (replicate 12 0) 0.
Definition img5 : image :=
  <[1 := [1; 0] ++ repeat 255 4094]> (<[2 := [255; 15; 0] ++ repeat 255 4093]>
  (<[3 := from_ok [] (EncodeInode root5) ++ zeros 3968]> img0)).
Definition reader5 : ImageReader := mkReader size0 sb0 current0 kA ([1; 0] ++ repeat 255 4094) ([255; 15; 0] ++ repeat 255 4093).

Lemma ready5 : ready sb0 size0 img5 current0 kA.
Proof. apply (ready_check _ _ _ _ _ (from_ok [] (EncodeSuperblock sb0))); vm_compute; reflexivity. Qed.

Lemma inode5 : answer img5 (ReadInode reader5 1) = Ok root5.
Proof. vm_compute. reflexivity. Qed.

Lemma opened5 : opened reader5 img5.
Proof.
  assert (complete_image (mkEnv img5 size0 [] [])) as [_ Hwf] by (apply complete_check; vm_compute; reflexivity).
  pose proof (rdy_image _ _ _ _ _ ready5) as Hi.
  assert (forall (pre : bytes) n, Z.of_nat (length (pre ++ repeat 255 n)) * 8 = 8 * (Z.of_nat (length pre) + Z.of_nat n)) as Hlen
    by (intros; rewrite length_app, repeat_length; lia).
  constructor; cbn [rd_superblock reader5 image_size_ inode_bitmap_ block_bitmap_ rd_journal_control rd_journal_control_copy].
  - constructor; [reflexivity|reflexivity|apply (img_blocks _ _ _ Hi)|exact Hwf].
  - exact Hi.
  - apply (rdy_selected _ _ _ _ _ ready5).
  - vm_compute. reflexivity.
  - vm_compute. reflexivity.
  - change (start_block (data sb0)) with 12. apply (proj1 (all_set_spec _ 0 12)). vm_compute. reflexivity.
  - intros n Hn. apply padding_bit. rewrite Hlen in Hn. change (total_inodes sb0) with 16 in Hn. cbn [length] in *. lia.
  - intros n Hn. apply padding_bit. rewrite Hlen in Hn. change (total_blocks sb0) with 24 in Hn. cbn [length] in *. lia.
  - exists root5. split; [exact inode5|reflexivity].
Qed.

Lemma allocated5 n : IsInodeAllocated reader5 n = true -> n = 1.
Proof.
  intros H. assert (1 <= n <= 16) as Hn.
  { unfold IsInodeAllocated in H. apply andb_prop in H as [[H1%Z.leb_le H2%Z.leb_le]%andb_prop _]. change (total_inodes _) with 16 in H2. lia. }
  assert (forallb (fun k => negb (IsInodeAllocated reader5 k) || (k <=? 1)) (map Z.of_nat (seq 1 16)) = true) as Hall by (vm_compute; reflexivity).
  rewrite forallb_forall in Hall. specialize (Hall n). rewrite H in Hall. cbn [negb orb] in Hall.
  assert (n <= 1); [|lia]. apply Z.leb_le, Hall. apply in_map_iff. exists (Z.to_nat n). split; [lia|]. apply in_seq. lia.
Qed.

Lemma consistent5 : consistent reader5 img5.
Proof.
  assert (forall n J, answer img5 (ReadInode reader5 n) = Ok J -> n = 1 /\ J = root5) as Hreads.
  { intros n J E. destruct (read_inode_valid reader5 img5 (op_view _ _ opened5) n J E) as (_ & _ & Ha & _).
    pose proof (allocated5 n Ha) as ->. rewrite inode5 in E. by injection E as <-. }
  constructor.
  - exact opened5.
  - intros n ->%allocated5. exists root5. exact inode5.
  - intros n J [-> ->]%Hreads. apply (bool_decide_unpack _). vm_compute. exact I.
  - intros n n' J J' Hne [-> ->]%Hreads [-> ->]%Hreads. done.
Qed.

(** * The guarantees *)
(** C23. The mount refines an abstract file system. Start from a mount that shows
    the files [v] and run any sequence of callbacks under any system-call
    behaviour, crashes anywhere in a callback or between two, interrupted
    recoveries and new mounts: what is answered and shown is a run of the
    abstract file system. In it a callback that reports an error has changed
    nothing or has closed the mount; a closed mount answers nothing about files
    until it is mounted again, and then shows the files before or after the
    change that closed it; a crash shows the files before or after the change it
    interrupted. *)
Theorem mount_refines {B} (filler : B -> bytes -> Z -> B * bool) sb size image_path st ls st' v :
  mount_shows sb size st v -> mount_run filler sb size image_path st ls st' ->
  exists v', view_run filler (root_inode sb) v ls v' /\ mount_shows sb size st' v'.
Proof. intros Hv Hr. exact (run_simulation filler sb size image_path st ls st' Hr v Hv). Qed.

Lemma mount_refines_witness : exists res st' v',
  mount_run (page_filler 1) sb0 size0 [47; 120] state1 [Answered write_request_1 res] st' /\
  view_run (page_filler 1) 1 (Serving (file_at reader1 img1)) [Answered write_request_1 res] v' /\ mount_shows sb0 size0 st' v'.
Proof.
  destruct (MakeOperations (page_filler 1) write_request_1 (mount1, mkEnv img1 size0 [] [])) as [[m' e'] res] eqn:E.
  set (st' := mkMounted m' (disk e') (foldl settle (mkView img1 [] []) (trace e'))).
  assert (mount_run (page_filler 1) sb0 size0 [47; 120] state1 [Answered write_request_1 res] st') as Hr.
  { eapply mount_cons; [|apply mount_nil]. eapply step_answered; [apply write_admissible1|exact E]. }
  destruct (mount_refines (page_filler 1) sb0 size0 [47; 120] state1 _ st' (Serving (file_at reader1 img1)) state1_shows Hr) as (v' & H1 & H2).
  exists res, st', v'. exact (conj Hr (conj H1 H2)).
Defined.

(** C24. A mount always comes back. After a crash anywhere in a callback of a
    serving mount, or while the mount is closed by a failure, and any number of
    interrupted recoveries, the image can be mounted again and shows files. *)
Theorem mount_comes_back {B} (filler : B -> bytes -> Z -> B * bool) sb size image_path st v q script m' e' res p x y :
  mount_shows sb size st v -> image_path <> [] ->
  (forall r, mt_reader (ms_state st) = Some r -> fuse_admissible (mkEnv (ms_image st) size script []) r q) ->
  MakeOperations filler q (ms_state st, mkEnv (ms_image st) size script []) = ((m', e'), res) ->
  p `prefix_of` trace e' -> crash_image sb (foldl settle (ms_durability st) p) x -> interrupted_recovery sb size x y ->
  exists m2 e2 action fs2, OpenFuseMountState image_path (fresh_start size y) = (e2, Ok (m2, action)) /\
    mount_step filler sb size image_path st (Restarted (Some q)) (mkMounted m2 (disk e2) (durability_of y (trace e2))) /\
    mount_shows sb size (mkMounted m2 (disk e2) (durability_of y (trace e2))) (Serving fs2).
Proof.
  intros Hv Hpath Ha E Hp Hx Hy.
  assert (exists r fs, rd_superblock r = sb /\ image_size_ r = size /\ restarts_with r y fs) as (r & fs & Es & Ez & Hre)
    by (by eapply mount_restarts).
  destruct (mount_opens sb size image_path r y fs Hpath Es Ez Hre) as (m2 & e2 & action & fs2 & Eo & _ & Hsh).
  exists m2, e2, action, fs2. split; [done|]. split; [|done]. destruct st. by eapply step_interrupted.
Qed.

Lemma mount_comes_back_witness : exists m2 e2 action fs2,
  OpenFuseMountState [47; 120] (fresh_start size0 img1) = (e2, Ok (m2, action)) /\
  mount_shows sb0 size0 (mkMounted m2 (disk e2) (durability_of img1 (trace e2))) (Serving fs2).
Proof.
  destruct (MakeOperations (page_filler 1) write_request_1 (mount1, mkEnv img1 size0 [] [])) as [[m' e'] res] eqn:E.
  assert (crash_image sb0 (foldl settle (ms_durability state1) []) img1) as Hx by (intros blk; left; reflexivity).
  destruct (mount_comes_back (page_filler 1) sb0 size0 [47; 120] state1 (Serving (file_at reader1 img1)) write_request_1 [] m' e' res [] img1 img1
    state1_shows ltac:(discriminate) (write_admissible1 []) E (prefix_nil _) Hx (ir_refl _ _ _)) as (m2 & e2 & action & fs2 & H1 & _ & H2).
  exists m2, e2, action, fs2. exact (conj H1 H2).
Defined.

(** Reading a directory over several buffers. For any buffer of libfuse that
    keeps its promises, the calls of [readdir] that continue where the last one
    stopped deliver [.], [..] and every name of the directory exactly once and in
    order, however many names fit into a buffer and whatever the system calls
    do; without failures of system calls they reach the end. *)
Theorem directory_read_whole {B} (filler : B -> bytes -> Z -> B * bool) contents m e r path file_info n es :
  DirectoryBuffer filler contents -> mounted m e r ->
  target_is (file_at r (disk e)) (root_inode (rd_superblock r)) path file_info n -> lists (file_at r (disk e)) n es ->
  (forall names, directory_rounds filler contents path file_info (m, e) 0 names -> names = [dot] :: [dot; dot] :: map name es) /\
  (responses e = [] -> (exists b0, contents b0 = []) -> exists names, directory_rounds filler contents path file_info (m, e) 0 names).
Proof.
  intros Hb Hm Ht Hl. split.
  - intros names Hr. exact (rounds_exact filler contents r path file_info n es (m, e) 0 names Hr m e eq_refl Hm Ht Hl).
  - intros Hn [b0 Hb0]. exact (rounds_exist filler contents r path file_info n es b0 m e Hb0 Hn Hm Ht Hl _ 0 ltac:(lia) (le_n _)).
Qed.

Lemma directory_read_whole_witness : exists names,
  directory_rounds (page_filler 1) (fun b => b) None (Some (mkFileInfo 0 1)) (mount1, env1) 0 names /\ names = [[dot]; [dot; dot]; [102]].
Proof.
  assert (lists (file_at reader1 img1) 1 [entry1]) as Hl.
  { apply (lists_iff reader1 img1 (op_view _ _ opened1)), (list_directory_iff reader1 img1 (op_view _ _ opened1)). vm_compute. reflexivity. }
  destruct (directory_read_whole (page_filler 1) (fun b => b) mount1 env1 reader1 None (Some (mkFileInfo 0 1)) 1 [entry1]
    (page_buffer 1 ltac:(lia)) (mounted1 []) eq_refl Hl) as [H1 H2].
  destruct (H2 eq_refl (ex_intro _ [] eq_refl)) as [names Hn]. exists names. exact (conj Hn (H1 names Hn)).
Defined.

(** C25. What was written is read back. When [write] on a handle reports success,
    the number it returns is the number of bytes handed in, and reading that
    range through the handle returns exactly those bytes. *)
Theorem write_then_read m e r path path' data offset file_info now m' e' k :
  mounted m e r -> trace e = [] -> bytes_ok data ->
  (forall n ts plan, timestamp_of now = Ok ts -> answer (disk e) (PrepareFileWrite r n offset data ts) = Ok plan ->
     no_commit_block (fp_metadata_after_images plan)) ->
  fh file_info <> 0 -> data <> [] ->
  Write path (Some data) offset (Some file_info) now (m, e) = ((m', e'), Ok k) ->
  k = Z.of_nat (length data) /\
  (responses e' = [] -> Read path' k offset (Some file_info) (m', e') = ((m', e'), Ok data)).
Proof.
  intros Hm Ht Hd Hcar Hfh Hne E. pose proof (write_outcome m e r Hm Ht path data offset file_info now Hd Hcar) as H. rewrite E in H.
  destruct H as [(_ & _ & H)|(n & ts & fs' & ures & out & Htg & _ & _ & Hw & Hap & Hr)]; [by destruct (H k eq_refl)|].
  destruct ures as [[]|]; [|done]. injection Hr as ->. split; [done|]. intros Hn. unfold target_is in Htg. rewrite (proj2 (Z.eqb_neq _ _) Hfh) in Htg. subst n.
  assert (exists r2, mounted m' e' r2 /\ file_at r2 (disk e') ≡ fs') as (r2 & Hm2 & Hfs).
  { destruct Hap as [_ H1 _ _ _]. destruct out; [by destruct H1| |by destruct H1].
    destruct H1 as [(r2 & C1 & C2 & C3 & C4 & C5 & C6 & C7)]. exists r2. split; [by constructor|done]. }
  destruct Hw as (inode & old & inode' & Hf & Hreg & Hrw & Hk).
  assert (0 <= offset /\ Z.of_nat (length data) <= int_max) as [Hoff Hmax].
  { unfold Write in E. cbv zeta in E. destruct (Z.ltb_spec offset 0); [done|]. split; [done|].
    destruct (_ =? 0) eqn:E0 in E; [apply Z.eqb_eq in E0; by destruct data|]. destruct (Z.ltb_spec int_max (Z.of_nat (length data))); [done|done]. }
  pose proof (read_outcome m' e' r2 Hm2 path' (Z.of_nat (length data)) offset (Some file_info) ltac:(lia)) as H.
  destruct (Read path' (Z.of_nat (length data)) offset (Some file_info) (m', e')) as [[m3 e3] res]. destruct H as [A1 _ _ A4]. destruct (A4 Hn) as [A5 A6].
  cbn [fst snd] in A1, A5. subst m3 e3. f_equal. apply A6. split; [done|].
  exists (wrap32 (fh file_info)), inode', (written old offset data). split; [split|split].
  - unfold target_is. by rewrite (proj2 (Z.eqb_neq _ _) Hfh).
  - rewrite Hfs, Hk, Z.eqb_refl. done.
  - destruct Hrw as [_ _ _ (_ & -> & _)]. done.
  - rewrite Z.min_l by done. rewrite Nat2Z.id. symmetry. unfold written, slice.
    rewrite app_assoc, drop_app_length' by (rewrite length_app, length_take; unfold zeros; rewrite length_replicate; lia). by rewrite take_app_length.
Qed.

(** The write of the examples through the mount. *)
Lemma write_mount1 : exists m' e', Write None (Some [1; 2; 3]) 4095 (Some handle1) now1 (mount1, env1) = ((m', e'), Ok 3) /\ responses e' = [].
Proof.
  destruct written1 as (plan & E & Hp).
  assert (publishes reader1 img1 2 file1 plan (written (file_bytes img1 file1) 4095 [1; 2; 3]) 7) as (Hsz & _).
  { apply (write_plan_publishes reader1 img1 2 file1 4095 [1; 2; 3] 7 plan writable1 (write_request1 4095 [1; 2; 3] eq_refl ltac:(lia) ltac:(by vm_compute))); [done|exact E]. }
  refine (write_applied mount1 env1 reader1 (mounted1 []) eq_refl None [1; 2; 3] 4095 handle1 now1 2 7 plan current0 kA
    (bytes_okb_ok [1; 2; 3] eq_refl) _ _ eq_refl eq_refl E Hp eq_refl _).
  - unfold int_max. cbn. lia.
  - lia.
  - clear E Hp. destruct room1 as [R1 R2 R3 R4 R5]. destruct (region_bounds reader1 img1 (co_opened _ _ consistent1)) as (_ & _ & _ & Hb & _).
    constructor; [exact R1|exact R2| | |exact R5]; unfold file_metadata in *; lia.
Qed.

Lemma write_then_read_witness : exists m' e',
  Write None (Some [1; 2; 3]) 4095 (Some handle1) now1 (mount1, env1) = ((m', e'), Ok 3) /\
  Read None 3 4095 (Some handle1) (m', e') = ((m', e'), Ok [1; 2; 3]).
Proof.
  destruct write_mount1 as (m' & e' & E & Hn). exists m', e'. split; [exact E|].
  exact (proj2 (write_then_read mount1 env1 reader1 None None [1; 2; 3] 4095 handle1 now1 m' e' 3
    (mounted1 []) eq_refl (bytes_okb_ok [1; 2; 3] eq_refl) write_carried1 ltac:(discriminate) ltac:(discriminate) E) Hn).
Defined.

(** C31. The first file. On a consistent image [PrepareRootEmptyFileCreate] refuses
    a root that is in use (EOPNOTSUPP), an image without a free inode or block
    (ENOSPC) and an invalid name (EINVAL), in this order; otherwise it plans
    exactly what the planner of new objects plans for an object without
    contents: the same inode number, directory block and after-images. Its
    before-images agree too, except that they lack the block of the inode table
    that gets the new inode when the root lies in another one. *)
Theorem first_file_plan r d root object_name permissions user group ts :
  consistent r d -> answer d (ReadInode r (root_inode (rd_superblock r))) = Ok root ->
  bytes_ok object_name -> u32 user -> u32 group -> u64 ts ->
  let planned := answer d (PrepareRootEmptyFileCreate r object_name permissions user group ts) in
  if root_in_use root then planned = Err EOPNOTSUPP
  else if bool_decide (free_bits (inode_allocator r) = ∅) || bool_decide (free_bits (block_allocator r) = ∅) then planned = Err ENOSPC
  else if negb (IsValidName object_name) then planned = Err EINVAL
  else exists plan np, planned = Ok plan /\ answer d (PrepareNewRootObject r object_name [] permissions user group ts) = Ok np /\
    creates r d np object_name [] permissions user group ts /\ same_plan r plan np.
Proof. apply first_file_outcome. Qed.

Lemma first_file_plan_witness : exists plan np,
  answer img5 (PrepareRootEmptyFileCreate reader5 [97] 420 0 0 7) = Ok plan /\
  answer img5 (PrepareNewRootObject reader5 [97] [] 420 0 0 7) = Ok np /\
  creates reader5 img5 np [97] [] 420 0 0 7 /\ same_plan reader5 plan np.
Proof.
  assert (forall a j, first_allocatable_bit_ a <= j < valid_bits_ a -> TestBit (bitmap_ a) j = false -> bool_decide (free_bits a = ∅) = false) as Hfree.
  { intros a j H1 H2. apply bool_decide_eq_false_2. intros E. apply (not_elem_of_empty (C:=gset Z) j). rewrite <- E. by apply elem_free_bits. }
  pose proof (first_file_plan reader5 img5 root5 [97] 420 0 0 7 consistent5 inode5 (bytes_okb_ok [97] eq_refl) ltac:(word) ltac:(word) ltac:(word)) as H.
  cbv zeta in H. change (root_in_use root5) with false in H.
  rewrite (Hfree (inode_allocator reader5) 1), (Hfree (block_allocator reader5) 12) in H by ((vm_compute; done) || (vm_compute; split; done) || done).
  change (negb (IsValidName [97])) with false in H. exact H.
Defined.
