(* ===== verification/CheckReport.v ===== *)
(** What the offline checker reports (src/checker/consistency_checker.h,
    src/checker/consistency_report.h/.cpp): issues, the evidence a verdict needs,
    and the verdict. *)
From S2P Require Import Prelude OndiskFormat.
Open Scope Z_scope.

Inductive ScanStatus := kComplete | kPartial | kAborted.

Inductive IssueCode :=
| kJournalRecoveryRequired | kMetadataBlockMarkedFree | kInodeBitmapTailNotReserved | kBlockBitmapTailNotReserved
| kRootInodeMarkedFree | kRootInodeUndecodable | kRootInodeNotDirectory | kDirectoryBlockOutOfRange
| kDirectoryBlockMarkedFree | kDirectoryRecordUndecodable | kDentryTargetOutOfRange | kDentryTargetInodeMarkedFree
| kDentryTargetInodeUndecodable | kAllocatedInodeUndecodable | kInodeUnreachable | kDirectoryCycle
| kDirectoryHardLink | kDentryTypeMismatch | kDuplicateDentryName | kReferencedBlockOutOfRange
| kReferencedBlockMarkedFree | kMissingRequiredBlock | kBlockPointerBeyondEnd | kDuplicateBlockReference
| kAllocatedDataBlockUnreferenced | kInodeLinkCountMismatch | kRegularFileHardLink | kRootDirectoryReferenced
| kRequestLedgerIdentityInvalid | kRequestLedgerGeometryInvalid | kRequestLedgerBlockUnavailable
| kRequestLedgerSlotCorrupt | kRequestLedgerRecordAfterHole | kRequestLedgerDuplicateRequestId.

Inductive BlockReferenceKind := kDataReference | kIndirectReference.

#[global] Instance ScanStatus_eq_dec : EqDecision ScanStatus.
Proof. solve_decision. Defined.
#[global] Instance IssueCode_eq_dec : EqDecision IssueCode.
Proof. solve_decision. Defined.

(** One piece of evidence; numbers that do not apply are 0. *)
Record CheckIssue := mkIssue {
  is_code : IssueCode;
  is_inode_number : Z;
  is_block_number : Z;
  is_related_inode_number : Z;
  is_detail : bytes;
  is_first_bitmap_bit : Z;
  is_occurrence_count : Z;
  is_ledger_slot : Z
}.

Record DiscoveredInode := mkDiscovered {
  di_inode_number : Z;
  di_bitmap_allocated : bool;
  di_inode : InodeRecord
}.

Record DirectoryEdge := mkEdge { parent_inode_number : Z; child_inode_number : Z }.

Record DirectoryScanState := mkScanState { ds_inode_number : Z; ds_complete : bool }.

Record BlockReference := mkReference {
  br_block_number : Z;
  br_inode_number : Z;
  br_logical_block : Z;
  br_kind : BlockReferenceKind
}.

Record InodeLinkObservation := mkLinkObservation {
  lo_inode_number : Z;
  declared_link_count : Z;
  observed_dentry_references : Z;
  observed_child_directories : Z;
  expected_link_count : Z;
  expectation_complete : bool
}.

(** The root inode is there once it was decoded. *)
Record ConsistencyReport := mkReport {
  cr_status : ScanStatus;
  bitmap_geometry_scan_complete : bool;
  root_inode_decoded : bool;
  root_reachability_complete : bool;
  block_reference_scan_complete : bool;
  inode_reference_scan_complete : bool;
  request_ledger_feature_enabled : bool;
  request_ledger_scan_complete : bool;
  request_ledger_capacity : Z;
  request_ledger_slots_scanned : Z;
  request_ledger_valid_records : Z;
  request_ledger_empty_slots : Z;
  cr_root_inode : option InodeRecord;
  root_entries : list DirectoryEntry;
  discovered_inodes : list DiscoveredInode;
  cr_directory_edges : list DirectoryEdge;
  directory_scan_states : list DirectoryScanState;
  block_references : list BlockReference;
  inode_link_observations : list InodeLinkObservation;
  allocated_unreferenced_data_blocks : list Z;
  physical_scan_inode_numbers : list Z;
  root_reachable_inode_numbers : list Z;
  issues : list CheckIssue
}.

(** * The verdict *)
Inductive CheckVerdict := kHealthy | kInconsistent | kIncomplete.

Definition IsEvidenceComplete (report : ConsistencyReport) : bool :=
  bool_decide (cr_status report = kComplete) &&
  bitmap_geometry_scan_complete report && root_inode_decoded report &&
  root_reachability_complete report &&
  block_reference_scan_complete report &&
  inode_reference_scan_complete report &&
  request_ledger_scan_complete report.

Definition ClassifyReport (report : ConsistencyReport) : CheckVerdict :=
  if negb (IsEvidenceComplete report) then kIncomplete
  else match issues report with [] => kHealthy | _ => kInconsistent end.
