(* ===== verification/CheckerGraph.v ===== *)
(** The directory graph of the offline checker
    (src/checker/consistency_checker.cpp): the three-colour depth-first search
    for cycles and the breadth-first search from the root. *)
From stdpp Require Import relations.
From S2P Require Import Prelude.
Open Scope Z_scope.

Inductive DirectoryVisitState := kUnseen | kActive | kDone.

#[global] Instance DirectoryVisitState_eq_dec : EqDecision DirectoryVisitState.
Proof. solve_decision. Defined.

(** A frame of the stack: the inode and the index of its next edge. *)
Definition DirectoryDfsFrame : Type := Z * nat.

Section graph.
Context (edges : gmap Z (list Z)) (is_directory : Z -> bool).

Definition targets (n : Z) : list Z := default [] (edges !! n).

(** * Searching for cycles *)
Definition visit_state (visits : gmap Z DirectoryVisitState) (n : Z) : DirectoryVisitState := default kUnseen (visits !! n).

(** The loop over the stack; the result lists the edges that lead back to an
    inode on the stack. *)
Fixpoint dfs_loop (fuel : nat) (visits : gmap Z DirectoryVisitState) (stack : list DirectoryDfsFrame) (back : list (Z * Z))
    : option (gmap Z DirectoryVisitState * list (Z * Z)) :=
  match stack with
  | [] => Some (visits, back)
  | (n, next) :: rest =>
    match fuel with
    | O => None
    | S fuel =>
      match targets n !! next with
      | None => dfs_loop fuel (<[n := kDone]> visits) rest back
      | Some child =>
        let stack := (n, S next) :: rest in
        if negb (is_directory child) then dfs_loop fuel visits stack back
        else match visit_state visits child with
        | kActive => dfs_loop fuel visits stack (back ++ [(n, child)])
        | kUnseen => dfs_loop fuel (<[child := kActive]> visits) ((child, O) :: stack) back
        | kDone => dfs_loop fuel visits stack back
        end
      end
    end
  end.

(** One search from every directory that was not seen yet. *)
Fixpoint dfs_starts (fuel : nat) (starts : list Z) (visits : gmap Z DirectoryVisitState) (back : list (Z * Z))
    : option (list (Z * Z)) :=
  match starts with
  | [] => Some back
  | start :: rest =>
    if negb (bool_decide (visit_state visits start = kUnseen)) then dfs_starts fuel rest visits back
    else match dfs_loop fuel (<[start := kActive]> visits) [(start, O)] back with
    | None => None
    | Some (visits, back) => dfs_starts fuel rest visits back
    end
  end.

Definition cost (n : Z) : nat := S (length (targets n)).

(** [dirs] is the list of all directories; a search takes one step per directory
    and one per edge. *)
Definition directory_cycles (dirs : list Z) : option (list (Z * Z)) :=
  dfs_starts (sum_list (cost <$> dirs)) dirs ∅ [].

(** * The inodes reachable from the root *)
Definition visit_children (children : list Z) (found : gset Z * list Z) : gset Z * list Z :=
  foldl (fun '(reachable, queue) child =>
    if bool_decide (child ∈ reachable) then (reachable, queue)
    else ({[child]} ∪ reachable, queue ++ [child])) found children.

(** [decoded n] is [None] for an inode that was not decoded, otherwise it says
    whether the inode is a directory; [complete n] says that the directory [n]
    was read to its end. *)
Context (decoded : Z -> option bool) (complete : Z -> bool).

Fixpoint bfs_loop (fuel : nat) (queue : list Z) (reachable : gset Z) (all_complete : bool) : option (gset Z * bool) :=
  match queue with
  | [] => Some (reachable, all_complete)
  | n :: queue =>
    match fuel with
    | O => None
    | S fuel =>
      match decoded n with
      | None => bfs_loop fuel queue reachable false
      | Some false => bfs_loop fuel queue reachable all_complete
      | Some true =>
        let '(reachable, queue) := visit_children (targets n) (reachable, queue) in
        bfs_loop fuel queue reachable (all_complete && complete n)
      end
    end
  end.

Definition root_reach (root : Z) : option (gset Z * bool) :=
  bfs_loop (S (sum_list (length <$> (map_to_list edges).*2))) [root] {[root]}
    match decoded root with Some is_dir => is_dir | None => false end.
End graph.

(** The searches in the directory graph end, find a cycle exactly if there is
    one, and reach exactly what the edges lead to. *)
Section cycles.
Context (edges : gmap Z (list Z)) (is_directory : Z -> bool).
Abbreviation targets := (targets edges).
Abbreviation visits := (gmap Z DirectoryVisitState).

(** A directory names another one. *)
Definition leads (n c : Z) : Prop := c ∈ targets n /\ is_directory c = true.

Lemma visit_insert (v : visits) n s k : visit_state (<[n := s]> v) k = if decide (n = k) then s else visit_state v k.
Proof. unfold visit_state. rewrite lookup_insert. by case_decide. Qed.

(** ** Edges that are reported close a cycle *)
(** Each frame was entered through an edge of the frame below it. *)
Fixpoint linked (stack : list DirectoryDfsFrame) : Prop :=
  match stack with
  | (c, _) :: (((n, _) :: _) as rest) => leads n c /\ linked rest
  | _ => True
  end.

Definition closes (e : Z * Z) : Prop := leads e.1 e.2 /\ rtc leads e.2 e.1.

Lemma linked_path n next rest c : linked ((n, next) :: rest) -> c ∈ n :: rest.*1 -> rtc leads c n.
Proof.
  revert n next. induction rest as [|[m k] rest IH]; intros n next H Hc; apply elem_of_cons in Hc as [->|Hc]; try apply rtc_refl.
  - by apply not_elem_of_nil in Hc.
  - destruct H as [H1 H2]. apply rtc_r with m; [|done]. exact (IH m k H2 Hc).
Qed.

Lemma linked_next n next next' rest : linked ((n, next) :: rest) -> linked ((n, next') :: rest).
Proof. by destruct rest as [|[m k] rest]. Qed.

Lemma linked_pop f rest : linked (f :: rest) -> linked rest.
Proof. destruct f as [c k]. destruct rest as [|[m j] rest]; [done|]. by intros [_ H]. Qed.

Definition active_on (v : visits) (stack : list DirectoryDfsFrame) : Prop :=
  NoDup stack.*1 /\ forall n, visit_state v n = kActive <-> n ∈ stack.*1.

Lemma loop_closes fuel : forall v stack back v' back', linked stack -> active_on v stack -> Forall closes back ->
  dfs_loop edges is_directory fuel v stack back = Some (v', back') -> Forall closes back' /\ active_on v' [].
Proof.
  induction fuel as [|fuel IH]; intros v [|[n next] rest] back v' back' Hl [Hnd Ha] Hb E; cbn [dfs_loop] in E;
    [by injection E as <- <-|done|by injection E as <- <-|].
  cbn [fmap list_fmap fst] in Hnd, Ha. apply NoDup_cons in Hnd as [Hn Hnd]. destruct (targets n !! next) as [child|] eqn:Et.
  - destruct (is_directory child) eqn:Ed; cbn [negb] in E.
    + assert (leads n child) as Hlead by (split; [by eapply list_elem_of_lookup_2|done]).
      destruct (visit_state v child) eqn:Es.
      * apply IH in E; [done|split; [done|by eapply linked_next]| |done]. assert (child ∉ n :: rest.*1) as Hc by (rewrite <- Ha; congruence).
        split; [by repeat constructor|]. intros k. rewrite visit_insert. cbn [fmap list_fmap fst]. case_decide as Hk; [subst; set_solver|].
        rewrite (Ha k). set_solver.
      * apply IH in E; [done|by eapply linked_next|by split; [constructor|]|]. apply Forall_app. split; [done|]. constructor; [|constructor].
        split; [done|]. eapply linked_path; [exact Hl|]. by apply Ha.
      * apply IH in E; [done|by eapply linked_next|by split; [constructor|]|done].
    + apply IH in E; [done|by eapply linked_next|by split; [constructor|]|done].
  - apply IH in E; [done|by eapply linked_pop| |done]. split; [done|]. intros k. rewrite visit_insert. case_decide as Hk; [by subst|].
    rewrite (Ha k). set_solver.
Qed.

Lemma starts_close fuel starts : forall v back back', active_on v [] -> Forall closes back ->
  dfs_starts edges is_directory fuel starts v back = Some back' -> Forall closes back'.
Proof.
  induction starts as [|n starts IH]; intros v back back' Ha Hb E; cbn [dfs_starts] in E; [by injection E as <-|].
  case_bool_decide as Hu; cbn [negb] in E; [|by eapply IH]. destruct (dfs_loop _ _ _ _ _ _) as [[v1 back1]|] eqn:E1; [|done].
  apply loop_closes in E1 as [H1 H2]; [by eapply IH|done| |done]. destruct Ha as [_ Ha].
  split; [constructor; [apply not_elem_of_nil|constructor]|]. intros k. rewrite visit_insert. cbn. case_decide as Hk; [subst; set_solver|].
  rewrite (Ha k). set_solver.
Qed.

(** ** Without such edges there is no cycle *)
(** Directories in the order in which they were left, the last one first. *)
Fixpoint finished (order : list Z) : Prop :=
  match order with
  | [] => True
  | n :: order => (n ∉ order) /\ (forall c, leads n c -> c ∈ order) /\ finished order
  end.

Lemma finished_closed order n m : finished order -> n ∈ order -> rtc leads n m -> m ∈ order.
Proof.
  intros Hf Hn Hp. induction Hp as [n|n c m Hl _ IH]; [done|]. apply IH. clear IH. induction order as [|x order IHo]; [by apply not_elem_of_nil in Hn|].
  destruct Hf as (H1 & H2 & H3). apply elem_of_cons in Hn as [->|Hn]; apply elem_of_cons; right; [by apply H2|by apply IHo].
Qed.

Lemma finished_acyclic order n : finished order -> n ∈ order -> ~ tc leads n n.
Proof.
  induction order as [|x order IH]; intros Hf Hn; [by apply not_elem_of_nil in Hn|]. destruct Hf as (H1 & H2 & H3).
  apply elem_of_cons in Hn as [->|Hn]; [|by apply IH]. intros Hc. apply H1.
  apply tc_rtc in Hc as Hr. inversion Hc; subst.
  - by apply H2.
  - eapply (finished_closed order y); [done|by apply H2|]. by apply tc_rtc.
Qed.

(** What a frame has passed is finished; below the top its last edge is the one
    to the frame above. *)
Definition passed (order : list Z) (n : Z) (next : nat) : Prop :=
  forall i c, (i < next)%nat -> targets n !! i = Some c -> is_directory c = true -> c ∈ order.

Fixpoint below (order : list Z) (child : Z) (stack : list DirectoryDfsFrame) : Prop :=
  match stack with
  | [] => True
  | (n, next) :: rest => (exists i, next = S i /\ targets n !! i = Some child /\ passed order n i) /\ below order n rest
  end.

Lemma below_cons order n child stack : below order child stack -> below (n :: order) child stack.
Proof.
  revert child. induction stack as [|[m k] stack IH]; intros child; [done|]. intros [(i & -> & H1 & H2) H3]. split; [|by apply IH].
  exists i. split; [done|]. split; [done|]. intros j c Hj E Hd. apply elem_of_cons. right. by eapply H2.
Qed.

Record searched (v : visits) (stack : list DirectoryDfsFrame) (order : list Z) : Prop := {
  se_finished : finished order;
  se_done : forall n, visit_state v n = kDone <-> n ∈ order;
  se_active : active_on v stack;
  se_stack : match stack with [] => True | (n, next) :: rest => passed order n next /\ below order n rest end
}.

Lemma back_grows fuel : forall v stack back v' back',
  dfs_loop edges is_directory fuel v stack back = Some (v', back') -> back' = [] -> back = [].
Proof.
  induction fuel as [|fuel IH]; intros v [|[n next] rest] back v' back' E Hb; cbn [dfs_loop] in E;
    [by injection E as _ <-|done|by injection E as _ <-|]. destruct (targets n !! next) as [child|]; [|by eapply IH].
  destruct (negb _); [by eapply IH|]. destruct (visit_state v child); [by eapply IH| |by eapply IH].
  apply (IH _ _ _ _ _ E) in Hb. by destruct back.
Qed.

Lemma passed_next order n next c : passed order n next -> targets n !! next = Some c -> (is_directory c = true -> c ∈ order) -> passed order n (S next).
Proof.
  intros Hp E Hc i c' Hi E' Hd. destruct (decide (i = next)) as [->|]; [|apply (Hp i); [lia|done|done]].
  rewrite E in E'. injection E' as <-. by apply Hc.
Qed.

Lemma loop_searches fuel : forall v stack order v', searched v stack order ->
  dfs_loop edges is_directory fuel v stack [] = Some (v', []) ->
  exists order', searched v' [] order' /\ order ⊆ order' /\ stack.*1 ⊆ order'.
Proof.
  induction fuel as [|fuel IH]; intros v [|[n next] rest] order v' Hs E; cbn [dfs_loop] in E;
    [injection E as <-; exists order; set_solver|done|injection E as <-; exists order; set_solver|].
  destruct Hs as [Hf Hd [Hnd Ha] [Hp Hbl]]. cbn [fmap list_fmap fst] in Hnd, Ha. pose proof Hnd as [Hn Hnd']%NoDup_cons.
  destruct (targets n !! next) as [child|] eqn:Et.
  - destruct (is_directory child) eqn:Ed; cbn [negb] in E.
    + destruct (visit_state v child) eqn:Es.
      * assert (child ∉ n :: rest.*1) as Hc by (rewrite <- Ha; congruence). assert (child ∉ order) as Hco by (rewrite <- Hd; congruence).
        apply (IH _ _ order) in E as (order' & H1 & H2 & H3); [exists order'; set_solver|]. constructor; [done| | |].
        -- intros k. rewrite visit_insert. case_decide as Hk; [by subst|apply Hd].
        -- split; [by constructor|]. intros k. rewrite visit_insert. cbn [fmap list_fmap fst]. case_decide as Hk; [subst; set_solver|]. rewrite (Ha k). set_solver.
        -- split; [intros i c Hi; lia|]. split; [|done]. by exists next.
      * apply back_grows in E; done.
      * apply (IH _ _ order) in E as (order' & H1 & H2 & H3); [by exists order'|]. constructor; [done|done|by split|].
        split; [|done]. eapply passed_next; [done|done|]. intros _. by apply Hd.
    + apply (IH _ _ order) in E as (order' & H1 & H2 & H3); [by exists order'|]. constructor; [done|done|by split|].
      split; [|done]. eapply passed_next; [done|done|]. congruence.
  - assert (n ∉ order) as Hno by (rewrite <- Hd; intros Hx; assert (visit_state v n = kActive) by (apply Ha; by left); congruence).
    apply (IH _ _ (n :: order)) in E as (order' & H1 & H2 & H3); [exists order'; set_solver|]. constructor.
    + split; [done|]. split; [|done]. intros c [Hc Hdir]. apply list_elem_of_lookup in Hc as [i Hi]. apply (Hp i c); [|done|done].
      apply lookup_lt_Some in Hi. apply lookup_ge_None in Et. lia.
    + intros k. rewrite visit_insert. case_decide as Hk; [subst; split; [by left|done]|]. rewrite (Hd k). set_solver.
    + split; [done|]. intros k. rewrite visit_insert. case_decide as Hk; [by subst|]. rewrite (Ha k). set_solver.
    + destruct rest as [|[m j] rest]; [done|]. destruct Hbl as [(i & -> & E1 & E2) Hbl]. split; [|by apply below_cons].
      intros i' c Hi' Ec Hcd. destruct (decide (i' = i)) as [->|]; [|apply elem_of_cons; right; by apply (E2 i'); [lia| |]].
      rewrite E1 in Ec. injection Ec as <-. by left.
Qed.

Lemma starts_grow fuel starts : forall v back, dfs_starts edges is_directory fuel starts v back = Some [] -> back = [].
Proof.
  induction starts as [|n starts IH]; intros v back E; cbn [dfs_starts] in E; [by injection E|].
  destruct (negb _); [by eapply IH|]. destruct (dfs_loop _ _ _ _ _ _) as [[v1 back1]|] eqn:E1; [|done]. apply IH in E. by eapply back_grows.
Qed.

Lemma starts_search fuel starts : forall v order, searched v [] order ->
  dfs_starts edges is_directory fuel starts v [] = Some [] -> exists order', finished order' /\ order ⊆ order' /\ starts ⊆ order'.
Proof.
  induction starts as [|n starts IH]; intros v order Hs E; cbn [dfs_starts] in E; [exists order; destruct Hs; set_solver|].
  case_bool_decide as Hu; cbn [negb] in E.
  - destruct (dfs_loop _ _ _ _ _ _) as [[v1 back1]|] eqn:E1; [|done]. pose proof (starts_grow _ _ _ _ E) as ->.
    destruct Hs as [Hf Hd [Hnd Ha] _]. apply (loop_searches _ _ _ order) in E1 as (order1 & H1 & H2 & H3).
    + destruct (IH _ _ H1 E) as (order' & G1 & G2 & G3). exists order'. split; [done|]. set_solver.
    + constructor; [done| | |split; [intros i c Hi; lia|done]].
      * intros k. rewrite visit_insert. case_decide as Hk; [|apply Hd]. subst. split; [done|]. rewrite <- Hd. congruence.
      * split; [constructor; [apply not_elem_of_nil|constructor]|]. intros k. rewrite visit_insert. case_decide as Hk; [subst; set_solver|]. rewrite (Ha k). set_solver.
  - assert (n ∈ order) as Hn.
    { apply (se_done _ _ _ Hs). destruct (visit_state v n) eqn:Ev; [done| |done]. apply (proj2 (se_active _ _ _ Hs)), not_elem_of_nil in Ev. done. }
    destruct (IH _ _ Hs E) as (order' & G1 & G2 & G3). exists order'. set_solver.
Qed.

Lemma nothing_searched : searched ∅ [] [].
Proof.
  assert (forall n s, s <> kUnseen -> visit_state ∅ n = s <-> n ∈ (@nil Z)) as H.
  { intros n s Hs. unfold visit_state. rewrite lookup_empty. cbn. split; [congruence|]. by intros ?%not_elem_of_nil. }
  constructor; [done| |split; [constructor|]|done]; intros n; by apply H.
Qed.

(** The search reports an edge exactly if the directories have a cycle. *)
Lemma cycles_exact dirs back : (forall n, n ∈ dirs <-> is_directory n = true) ->
  directory_cycles edges is_directory dirs = Some back ->
  Forall closes back /\ (back = [] <-> forall n, is_directory n = true -> ~ tc leads n n).
Proof.
  intros Hall E. unfold directory_cycles in E.
  assert (Forall closes back) as Hc by (eapply starts_close; [apply (se_active _ _ _ nothing_searched)|constructor|exact E]).
  split; [done|]. split.
  - intros ->. destruct (starts_search _ _ _ [] nothing_searched E) as (order & H1 & _ & H2).
    intros n Hn. apply (finished_acyclic order); [done|]. by apply H2, Hall.
  - intros Hno. destruct back as [|[n c] back]; [done|]. exfalso. apply Forall_cons in Hc as [[H1 H2] _]. cbn [fst snd] in *.
    apply (Hno c); [apply H1|]. apply tc_rtc_l with n; [done|]. by apply tc_once.
Qed.

(** ** The search ends *)
Definition unseen_cost (v : visits) (dirs : list Z) : nat :=
  sum_list ((fun n => if decide (visit_state v n = kUnseen) then cost edges n else O) <$> dirs).
Definition stack_cost (stack : list DirectoryDfsFrame) : nat :=
  sum_list ((fun f => S (length (targets f.1) - f.2)) <$> stack).

Lemma unseen_seen v n s dirs : NoDup dirs -> n ∈ dirs -> visit_state v n = kUnseen -> s <> kUnseen ->
  ((unseen_cost (<[n := s]> v) dirs + cost edges n)%nat = unseen_cost v dirs).
Proof.
  intros Hnd Hn Hv Hs. assert (forall l, n ∉ l -> unseen_cost (<[n := s]> v) l = unseen_cost v l) as Hout.
  { intros l Hl. unfold unseen_cost. f_equal. apply list_fmap_ext. intros i x Hx. apply list_elem_of_lookup_2 in Hx.
    rewrite visit_insert. by destruct (decide (n = x)) as [->|]. }
  induction dirs as [|x dirs IH]; [by apply not_elem_of_nil in Hn|]. apply NoDup_cons in Hnd as [Hx Hnd].
  unfold unseen_cost in *. cbn [fmap list_fmap sum_list sum_list_with id]. rewrite visit_insert. destruct (decide (n = x)) as [<-|Hne].
  - rewrite (decide_False (P:=s = kUnseen)), (decide_True (P:=visit_state v n = kUnseen)) by done. specialize (Hout dirs Hx). unfold unseen_cost in Hout. lia.
  - apply elem_of_cons in Hn as [|Hn]; [done|]. specialize (IH Hnd Hn). lia.
Qed.

Lemma unseen_other v n s dirs : visit_state v n <> kUnseen -> s <> kUnseen -> unseen_cost (<[n := s]> v) dirs = unseen_cost v dirs.
Proof.
  intros Hv Hs. unfold unseen_cost. f_equal. apply list_fmap_ext. intros i x _. rewrite visit_insert.
  destruct (decide (n = x)) as [<-|]; [|done]. by rewrite !decide_False.
Qed.

Context (dirs : list Z) (Hnd : NoDup dirs) (Hdirs : forall n, n ∈ dirs <-> is_directory n = true).

Lemma loop_ends fuel : forall v stack back, active_on v stack -> (unseen_cost v dirs + stack_cost stack <= fuel)%nat ->
  exists v' back', dfs_loop edges is_directory fuel v stack back = Some (v', back') /\ active_on v' [] /\
    (unseen_cost v' dirs <= unseen_cost v dirs)%nat.
Proof.
  induction fuel as [|fuel IH]; intros v [|[n next] rest] back [Hn Ha] Hf; cbn [dfs_loop]; try (by exists v, back).
  { exfalso. cbn in Hf. lia. }
  unfold stack_cost in Hf. cbn [fmap list_fmap sum_list sum_list_with id fst snd] in Hf, Hn, Ha. fold (stack_cost rest) in Hf.
  pose proof Hn as [Hno Hnd']%NoDup_cons.
  destruct (targets n !! next) as [child|] eqn:Et.
  - apply lookup_lt_Some in Et as Hlt. assert (forall w, active_on w ((n, next) :: rest) -> active_on w ((n, S next) :: rest)) as Hsame by done.
    assert (stack_cost ((n, S next) :: rest) = (length (targets n) - next + stack_cost rest)%nat) as Hst
      by (unfold stack_cost; cbn [fmap list_fmap sum_list sum_list_with id fst snd]; lia).
    destruct (is_directory child) eqn:Ed; cbn [negb].
    2: { destruct (IH v ((n, S next) :: rest) back) as (v' & back' & H); [by split|lia|]. by exists v', back'. }
    destruct (visit_state v child) eqn:Es.
    + assert (child ∉ n :: rest.*1) as Hc by (rewrite <- Ha; congruence).
      pose proof (unseen_seen v child kActive dirs Hnd (proj2 (Hdirs child) Ed) Es ltac:(done)) as Hu.
      destruct (IH (<[child := kActive]> v) ((child, O) :: (n, S next) :: rest) back) as (v' & back' & H1 & H2 & H3).
      * split; [by constructor|]. intros k. rewrite visit_insert. cbn [fmap list_fmap fst]. case_decide as Hk; [subst; set_solver|]. rewrite (Ha k). set_solver.
      * unfold stack_cost in *. cbn [fmap list_fmap sum_list sum_list_with id fst snd] in *. unfold cost in Hu. lia.
      * exists v', back'. split; [done|]. split; [done|lia].
    + destruct (IH v ((n, S next) :: rest) (back ++ [(n, child)])) as (v' & back' & H); [by split|lia|]. by exists v', back'.
    + destruct (IH v ((n, S next) :: rest) back) as (v' & back' & H); [by split|lia|]. by exists v', back'.
  - assert (visit_state v n <> kUnseen) as Hv by (rewrite (proj2 (Ha n)); [done|by left]).
    pose proof (unseen_other v n kDone dirs Hv ltac:(done)) as Hu.
    destruct (IH (<[n := kDone]> v) rest back) as (v' & back' & H1 & H2 & H3); [|lia|].
    + split; [done|]. intros k. rewrite visit_insert. case_decide as Hk; [by subst|]. rewrite (Ha k). set_solver.
    + exists v', back'. split; [done|]. split; [done|lia].
Qed.

Lemma starts_end fuel starts : forall v back, active_on v [] -> starts ⊆ dirs -> (unseen_cost v dirs <= fuel)%nat ->
  exists back', dfs_starts edges is_directory fuel starts v back = Some back'.
Proof.
  induction starts as [|n starts IH]; intros v back Ha Hs Hf; cbn [dfs_starts]; [by eexists|].
  case_bool_decide as Hu; cbn [negb]; [|apply IH; [done|set_solver|done]].
  pose proof (unseen_seen v n kActive dirs Hnd ltac:(apply Hs; by left) Hu ltac:(done)) as Hc.
  destruct (loop_ends fuel (<[n := kActive]> v) [(n, O)] back) as (v' & back' & -> & H2 & H3).
  - destruct Ha as [_ Ha]. split; [constructor; [apply not_elem_of_nil|constructor]|].
    intros k. rewrite visit_insert. cbn. case_decide as Hk; [subst; set_solver|]. rewrite (Ha k). set_solver.
  - unfold stack_cost, cost in *. cbn [fmap list_fmap sum_list sum_list_with id fst snd]. lia.
  - apply IH; [done|set_solver|lia].
Qed.

Lemma cycles_end : exists back, directory_cycles edges is_directory dirs = Some back.
Proof.
  unfold directory_cycles. apply starts_end; [apply (se_active _ _ _ nothing_searched)|done|].
  unfold unseen_cost. apply Nat.eq_le_incl. f_equal.
Qed.
End cycles.

(** * Reachability *)
Section reach.
Context (edges : gmap Z (list Z)) (decoded : Z -> option bool) (complete : Z -> bool).
Abbreviation targets := (targets edges).

(** A decoded directory names an inode. *)
Definition names_inode (n c : Z) : Prop := decoded n = Some true /\ c ∈ targets n.

Lemma children_visited children : forall reachable queue,
  let '(reachable', queue') := visit_children children (reachable, queue) in
  (forall c, c ∈ reachable' <-> c ∈ reachable \/ c ∈ children) /\
  exists new, queue' = queue ++ new /\ NoDup new /\ forall c, c ∈ new <-> c ∈ children /\ c ∉ reachable.
Proof.
  induction children as [|c children IH]; intros reachable queue; cbn.
  - split; [intros c; split; [by left|]; intros [|H%not_elem_of_nil]; done|]. exists []. rewrite app_nil_r. split; [done|]. split; [constructor|].
    intros c. split; [by intros ?%not_elem_of_nil|]. by intros [?%not_elem_of_nil _].
  - case_bool_decide as Hc.
    + specialize (IH reachable queue). unfold visit_children in IH. destruct (foldl _ _ _) as [r' q']. destruct IH as (H1 & new & -> & H2 & H3).
      split; [|exists new; split; [done|]; split; [done|]]; intros k; rewrite ?H1, ?H3, elem_of_cons; destruct (decide (k = c)) as [->|]; tauto.
    + specialize (IH ({[c]} ∪ reachable) (queue ++ [c])). unfold visit_children in IH. destruct (foldl _ _ _) as [r' q'].
      destruct IH as (H1 & new & -> & H2 & H3). setoid_rewrite elem_of_union in H1. setoid_rewrite elem_of_union in H3.
      setoid_rewrite elem_of_singleton in H1. setoid_rewrite elem_of_singleton in H3. split; [intros k; rewrite H1, elem_of_cons; tauto|].
      exists (c :: new). split; [by rewrite <- app_assoc|]. split; [constructor; [rewrite H3; tauto|done]|].
      intros k. rewrite !elem_of_cons, H3. destruct (decide (k = c)) as [->|]; tauto.
Qed.

(** What has left the queue has been dealt with. *)
Record explored (root : Z) (queue : list Z) (reachable : gset Z) (flag : bool) : Prop := {
  ex_root : root ∈ reachable;
  ex_sound : forall n, n ∈ reachable -> rtc names_inode root n;
  ex_once : NoDup queue;
  ex_queue : forall n, n ∈ queue -> n ∈ reachable;
  ex_closed : forall n c, n ∈ reachable -> n ∉ queue -> names_inode n c -> c ∈ reachable;
  ex_flag : flag = true <->
    decoded root = Some true /\
    forall n, n ∈ reachable -> n ∉ queue -> exists is_dir, decoded n = Some is_dir /\ (is_dir = true -> complete n = true)
}.

(** An inode leaves the queue; [new] joins it at the end. *)
Lemma explored_step root n queue reachable flag r1 new flag' : explored root (n :: queue) reachable flag ->
  (forall c, c ∈ r1 <-> c ∈ reachable \/ c ∈ new) -> NoDup new -> (forall c, c ∈ new -> (c ∉ reachable) /\ names_inode n c) ->
  (forall c, names_inode n c -> c ∈ r1) ->
  (flag' = true <-> flag = true /\ exists is_dir, decoded n = Some is_dir /\ (is_dir = true -> complete n = true)) ->
  explored root (queue ++ new) r1 flag'.
Proof.
  intros [Hr Hs [Hnq Hnd]%NoDup_cons Hq Hc Hf] Hr1 Hnew Hfresh Hall Hf'.
  assert (n ∈ reachable) as Hn by (apply Hq; by left).
  assert (forall k, k ∈ r1 -> k ∉ queue ++ new -> k <> n -> k ∈ reachable /\ k ∉ n :: queue) as Hold.
  { intros k Hk [H1 H2]%not_elem_of_app Hkn. apply Hr1 in Hk as [Hk|Hk]; [|done]. by rewrite not_elem_of_cons. }
  constructor.
  - apply Hr1. by left.
  - intros k [Hk|Hk]%Hr1; [by apply Hs|]. apply rtc_r with n; [by apply Hs|by apply Hfresh].
  - apply NoDup_app. split; [done|]. split; [|done]. intros k Hk Hk'. apply (proj1 (Hfresh k Hk')), Hq. by right.
  - intros k [Hk|Hk]%elem_of_app; apply Hr1; [left; apply Hq; by right|by right].
  - intros k c Hk Hkq Hkc. destruct (decide (k = n)) as [->|Hne]; [by apply Hall|]. destruct (Hold k Hk Hkq Hne) as [H1 H2].
    apply Hr1. left. by apply (Hc k).
  - rewrite Hf', Hf. split.
    + intros [[H1 H2] H3]. split; [done|]. intros k Hk Hkq. destruct (decide (k = n)) as [->|Hne]; [done|].
      destruct (Hold k Hk Hkq Hne) as [H4 H5]. by apply H2.
    + intros [H1 H2]. split; [split; [done|]|].
      * intros k Hk [Hkn Hkq]%not_elem_of_cons. apply H2; [apply Hr1; by left|]. apply not_elem_of_app. split; [done|].
        intros Hk'. by apply (proj1 (Hfresh k Hk')).
      * apply H2; [apply Hr1; by left|]. apply not_elem_of_app. split; [done|]. intros Hk'. by apply (proj1 (Hfresh n Hk')).
Qed.

Lemma explored_skip root n queue reachable flag flag' : explored root (n :: queue) reachable flag -> decoded n <> Some true ->
  (flag' = true <-> flag = true /\ is_Some (decoded n)) -> explored root queue reachable flag'.
Proof.
  intros Hx Hd Hf. rewrite <- (app_nil_r queue). apply (explored_step root n queue reachable flag reachable [] flag' Hx).
  - intros c. split; [by left|]. by intros [|?%not_elem_of_nil].
  - constructor.
  - by intros c ?%not_elem_of_nil.
  - by intros c [? _].
  - rewrite Hf. destruct (decoded n) as [[]|]; [done| |].
    + split; intros [? _]; (split; [done|]); [by exists false|by eexists].
    + split; [by intros [_ [? ?]]|]. by intros [_ (? & ? & _)].
Qed.

Lemma bfs_explores root fuel : forall queue reachable flag reachable' flag', explored root queue reachable flag ->
  bfs_loop edges decoded complete fuel queue reachable flag = Some (reachable', flag') -> explored root [] reachable' flag'.
Proof.
  induction fuel as [|fuel IH]; intros [|n queue] reachable flag reachable' flag' Hx E; cbn [bfs_loop] in E;
    [by injection E as <- <-|done|by injection E as <- <-|]. destruct (decoded n) as [[]|] eqn:En.
  - pose proof (children_visited (targets n) reachable queue) as Hv. destruct (visit_children _ _) as [r1 q1].
    destruct Hv as (Hr1 & new & -> & Hnd & Hnew). apply IH in E; [done|]. apply (explored_step root n queue reachable flag r1 new); try done.
    + intros c. rewrite Hr1, Hnew. destruct (decide (c ∈ reachable)); tauto.
    + intros c [Hc1 Hc2]%Hnew. by repeat split.
    + intros c [_ Hc]. apply Hr1. by right.
    + rewrite andb_true_iff, En. split; [intros [? ?]; split; [done|]; by exists true|]. intros [? (b & [= <-] & Hb)]. by split; [|apply Hb].
  - apply IH in E; [done|]. apply (explored_skip root n queue reachable flag); [done|congruence|]. rewrite En. split; [by intros ?; split|]. by intros [? _].
  - apply IH in E; [done|]. apply (explored_skip root n queue reachable flag); [done|congruence|]. rewrite En. split; [done|]. by intros [_ [? ?]].
Qed.

Lemma explored_start root : explored root [root] {[root]} match decoded root with Some is_dir => is_dir | None => false end.
Proof.
  constructor; [set_solver| |apply NoDup_singleton|set_solver|set_solver|].
  - intros n ->%elem_of_singleton. apply rtc_refl.
  - split.
    + intros H. split; [by destruct (decoded root) as [[]|]|set_solver].
    + by intros [-> _].
Qed.

(** The search finds exactly the inodes the root leads to; the flag says that
    every one of them was decoded and every directory among them was complete. *)
Lemma reach_exact root reachable flag : root_reach edges decoded complete root = Some (reachable, flag) ->
  (forall n, n ∈ reachable <-> rtc names_inode root n) /\
  (flag = true <-> decoded root = Some true /\
     forall n, rtc names_inode root n -> exists is_dir, decoded n = Some is_dir /\ (is_dir = true -> complete n = true)).
Proof.
  intros E. apply (bfs_explores root) in E as [Hr Hs _ _ Hc Hf]; [|apply explored_start].
  assert (forall n, n ∈ reachable <-> rtc names_inode root n) as Hiff.
  { intros n. split; [apply Hs|]. revert n. apply rtc_ind_r; [done|]. intros y z _ Hyz IH. apply (Hc y); [done|apply not_elem_of_nil|done]. }
  split; [done|]. rewrite Hf. split; intros [H1 H2]; (split; [done|]); intros n; [intros Hp; apply H2; [by apply Hiff|apply not_elem_of_nil]|].
  intros Hn _. by apply H2, Hiff.
Qed.

(** ** The search ends *)
Definition named : gset Z := list_to_set (concat (map_to_list edges).*2).

Lemma target_named n c : c ∈ targets n -> c ∈ named.
Proof.
  unfold CheckerGraph.targets, named. destruct (edges !! n) as [l|] eqn:E; [|by intros ?%not_elem_of_nil]. cbn. intros Hc.
  apply elem_of_list_to_set, list_elem_of_In, in_concat. exists l. split; apply list_elem_of_In; [|done].
  apply list_elem_of_fmap. exists (n, l). split; [done|]. by apply elem_of_map_to_list.
Qed.

Lemma bfs_ends fuel : forall queue reachable flag, (length queue + size (named ∖ reachable) <= fuel)%nat ->
  exists x, bfs_loop edges decoded complete fuel queue reachable flag = Some x.
Proof.
  induction fuel as [|fuel IH]; intros [|n queue] reachable flag Hf; cbn [bfs_loop]; try (by eexists); [cbn in Hf; lia|].
  cbn [length] in Hf. destruct (decoded n) as [[]|]; [|apply IH; lia|apply IH; lia].
  pose proof (children_visited (targets n) reachable queue) as Hv. destruct (visit_children _ _) as [r1 q1].
  destruct Hv as (Hr1 & new & -> & Hnd & Hnew). apply IH. rewrite length_app.
  assert (size (named ∖ reachable) = (length new + size (named ∖ r1))%nat) as Hs; [|lia].
  rewrite <- (size_list_to_set (C:=gset Z) new) by done. rewrite <- size_union.
  - f_equal. apply set_eq. intros c. rewrite elem_of_union, elem_of_list_to_set, !elem_of_difference, Hr1, Hnew.
    pose proof (target_named n c). destruct (decide (c ∈ reachable)), (decide (c ∈ targets n)); tauto.
  - intros c. rewrite elem_of_list_to_set, elem_of_difference, Hr1, Hnew. tauto.
Qed.

Lemma length_concat_sum (L : list (list Z)) : length (concat L) = sum_list (length <$> L).
Proof. induction L as [|l L IH]; [done|]. cbn. rewrite length_app, IH. done. Qed.

Lemma reach_ends root : exists x, root_reach edges decoded complete root = Some x.
Proof.
  unfold root_reach. apply bfs_ends. cbn [length].
  assert (size (named ∖ {[root]}) <= length (concat (map_to_list edges).*2))%nat as H; [|rewrite length_concat_sum in H; lia].
  etransitivity; [apply (subseteq_size _ named), subseteq_difference_l; reflexivity|]. unfold named. generalize (concat (map_to_list edges).*2).
  intros l. induction l as [|x l IH]; [by rewrite list_to_set_nil, size_empty|]. rewrite list_to_set_cons, size_union_alt, size_singleton. cbn [length].
  assert (size (list_to_set l ∖ {[x]} : gset Z) <= size (list_to_set l : gset Z))%nat; [|lia].
  apply subseteq_size, subseteq_difference_l. reflexivity.
Qed.
End reach.
