(* ===== verification/Checker.v ===== *)
(** The offline checker (src/checker/consistency_checker.cpp): a read-only scan
    of the whole image that goes on after local damage and collects issues and
    evidence in a report. It reads the image by itself, without the reader.

    The scan stops early only when a system call fails or the superblock or the
    journal control cannot be used; the report of such a run is dropped by every
    caller, so the model returns none. *)
From S2P Require Import Prelude Codec OndiskFormat OndiskJournal Disk BitmapAllocator RequestLedger ImageReader.
From S2P Require Import LedgerStore FileMutation CheckReport CheckerGraph.
Open Scope Z_scope.
Open Scope io_scope.

(** * State of a scan *)
Record DirectoryEntryObservation := mkObservation {
  ob_parent_inode_number : Z;
  ob_block_number : Z;
  ob_entry : DirectoryEntry
}.

(** The locals of [CheckImage] that the scan of the inodes fills, and the fields
    of the report it appends to. *)
Record scan := mkScan {
  sc_issues : list CheckIssue;
  sc_status : ScanStatus;
  sc_root_inode : option InodeRecord;
  sc_root_entries : list DirectoryEntry;
  sc_discovered : list DiscoveredInode;
  sc_edges : list DirectoryEdge;
  sc_references : list BlockReference;
  physical_scan : gset Z;
  physical_scan_queue : list Z;
  attempted_inodes : gset Z;
  decoded_inodes : gmap Z InodeRecord;
  directory_edges : gmap Z (list Z);
  directory_scan_complete : gmap Z bool;
  discovery_parent : gmap Z Z;
  discovery_block : gmap Z Z;
  directory_active_names : gmap Z (gset bytes);
  directory_entry_observations : list DirectoryEntryObservation;
  first_block_references : gmap Z BlockReference;
  inode_logical_blocks : gmap Z (list (option Z));
  sc_block_complete : bool;
  sc_inode_complete : bool
}.

(** Updates of one field. *)
Definition scan_eta (s : scan) : scan :=
  mkScan (sc_issues s) (sc_status s) (sc_root_inode s) (sc_root_entries s) (sc_discovered s) (sc_edges s) (sc_references s)
    (physical_scan s) (physical_scan_queue s) (attempted_inodes s) (decoded_inodes s) (directory_edges s)
    (directory_scan_complete s) (discovery_parent s) (discovery_block s) (directory_active_names s)
    (directory_entry_observations s) (first_block_references s) (inode_logical_blocks s) (sc_block_complete s) (sc_inode_complete s).

Ltac scan_setter get :=
  exact (fun f s => ltac:(
    let b := eval unfold scan_eta in (scan_eta s) in
    match eval pattern (get s) in b with
    | ?k _ => let u := eval cbv beta in (k (f (get s))) in exact u
    end)).

Definition on_issues : (list CheckIssue -> list CheckIssue) -> scan -> scan := ltac:(scan_setter sc_issues).
Definition on_status : (ScanStatus -> ScanStatus) -> scan -> scan := ltac:(scan_setter sc_status).
Definition on_root : (option InodeRecord -> option InodeRecord) -> scan -> scan := ltac:(scan_setter sc_root_inode).
Definition on_entries : (list DirectoryEntry -> list DirectoryEntry) -> scan -> scan := ltac:(scan_setter sc_root_entries).
Definition on_discovered : (list DiscoveredInode -> list DiscoveredInode) -> scan -> scan := ltac:(scan_setter sc_discovered).
Definition on_edges : (list DirectoryEdge -> list DirectoryEdge) -> scan -> scan := ltac:(scan_setter sc_edges).
Definition on_references : (list BlockReference -> list BlockReference) -> scan -> scan := ltac:(scan_setter sc_references).
Definition on_physical : (gset Z -> gset Z) -> scan -> scan := ltac:(scan_setter physical_scan).
Definition on_queue : (list Z -> list Z) -> scan -> scan := ltac:(scan_setter physical_scan_queue).
Definition on_attempted : (gset Z -> gset Z) -> scan -> scan := ltac:(scan_setter attempted_inodes).
Definition on_decoded : (gmap Z InodeRecord -> gmap Z InodeRecord) -> scan -> scan := ltac:(scan_setter decoded_inodes).
Definition on_graph : (gmap Z (list Z) -> gmap Z (list Z)) -> scan -> scan := ltac:(scan_setter directory_edges).
Definition on_complete : (gmap Z bool -> gmap Z bool) -> scan -> scan := ltac:(scan_setter directory_scan_complete).
Definition on_parent : (gmap Z Z -> gmap Z Z) -> scan -> scan := ltac:(scan_setter discovery_parent).
Definition on_block : (gmap Z Z -> gmap Z Z) -> scan -> scan := ltac:(scan_setter discovery_block).
Definition on_names : (gmap Z (gset bytes) -> gmap Z (gset bytes)) -> scan -> scan := ltac:(scan_setter directory_active_names).
Definition on_observations : (list DirectoryEntryObservation -> list DirectoryEntryObservation) -> scan -> scan :=
  ltac:(scan_setter directory_entry_observations).
Definition on_first : (gmap Z BlockReference -> gmap Z BlockReference) -> scan -> scan := ltac:(scan_setter first_block_references).
Definition on_logical : (gmap Z (list (option Z)) -> gmap Z (list (option Z))) -> scan -> scan := ltac:(scan_setter inode_logical_blocks).
Definition on_block_flag : (bool -> bool) -> scan -> scan := ltac:(scan_setter sc_block_complete).
Definition on_inode_flag : (bool -> bool) -> scan -> scan := ltac:(scan_setter sc_inode_complete).

(** [std::map::emplace]: a key that is there keeps its value. *)
Definition emplace {A} (k : Z) (v : A) (m : gmap Z A) : gmap Z A :=
  match m !! k with Some _ => m | None => <[k := v]> m end.

(** * Helpers *)
Definition off_t_max : Z := 9223372036854775807.

Definition CheckPreadAll (offset size : Z) : io bytes :=
  if (off_t_max <? offset) || (off_t_max - offset <? size) then io_fail EOVERFLOW
  else ReadExactAt offset size.

Definition BitmapBit (bitmap : bytes) (bit : Z) : bool := TestBit bitmap bit.

Definition issue_of (code : IssueCode) (inode_number block_number related_inode_number : Z) (detail : bytes) : CheckIssue :=
  mkIssue code inode_number block_number related_inode_number detail 0 1 0.

Definition AddIssue (code : IssueCode) (inode_number block_number related_inode_number : Z) (detail : bytes) (s : scan) : scan :=
  on_issues (fun l => l ++ [issue_of code inode_number block_number related_inode_number detail]) s.

Definition set_partial (s : scan) : scan := on_status (fun _ => kPartial) s.

(** The first clear bit and the number of clear bits from [begin] to [end]. *)
Definition SummarizeClearBits (bitmap : bytes) (first last : Z) : option (Z * Z) :=
  foldl (fun summary bit =>
    if BitmapBit bitmap bit then summary
    else match summary with
    | None => Some (bit, 1)
    | Some (first_bit, count) => Some (first_bit, count + 1)
    end) None (seqZ first (last - first)).

Definition AddBitmapIssue (code : IssueCode) (block_number : Z -> Z) (summary : option (Z * Z)) (detail : bytes) : list CheckIssue :=
  match summary with
  | None => []
  | Some (first_bit, count) => [mkIssue code 0 (block_number first_bit) 0 detail first_bit count 0]
  end.

Definition DirectoryTypeMatchesMode (type : DirectoryFileType) (mode : Z) : bool :=
  match type with
  | kRegular => S_ISREG mode
  | kDirectory => S_ISDIR mode
  | _ => false
  end.

Definition ReadRawInode (strerror : errno -> bytes) (sb : Superblock) (number : Z) (e : env)
    : env * result (errno * bytes) InodeRecord :=
  if (number =? 0) || (total_inodes sb <? number) then (e, Err (EINVAL, []))
  else
  match CheckPreadAll (start_block (inode_table sb) * kBlockSize + (number - 1) * kInodeRecordSize) kInodeRecordSize e with
  | (e, Err er) => (e, Err (er, text "读取检查镜像: " ++ strerror er))
  | (e, Ok inode_bytes) =>
    match DecodeInode inode_bytes number with
    | Err detail => (e, Err (EUCLEAN, text detail))
    | Ok inode => (e, Ok inode)
    end
  end.

(** * Loops over the inode numbers *)
(** [for (std::uint32_t number = 1; number <= last; ++number)]: the counter wraps
    around, so with the greatest number as [last] the loop never ends. [None] says
    that it is still running after [fuel] rounds. *)
Fixpoint inode_loop {S} (last : Z) (body : Z -> S -> S) (fuel : nat) (number : Z) (s : S) : option S :=
  if number <=? last
  then match fuel with
       | O => None
       | S fuel => inode_loop last body fuel (wrap32 (number + 1)) (body number s)
       end
  else Some s.

(** A loop that ends does so after [last] rounds. *)
Definition for_inodes {S} (last : Z) (body : Z -> S -> S) (s : S) : option S := inode_loop last body (Z.to_nat last) 1 s.

Lemma inode_loop_ends {S} last (body : Z -> S -> S) : 0 <= last < 4294967295 ->
  forall fuel number s, 0 <= number -> last - number < Z.of_nat fuel -> number <= last + 1 ->
  inode_loop last body fuel number s = Some (foldl (fun s n => body n s) s (seqZ number (last + 1 - number))).
Proof.
  intros Hl fuel. induction fuel as [|fuel IH]; intros number s H0 Hf Hn; cbn [inode_loop].
  { destruct (Z.leb_spec number last); [lia|]. by rewrite seqZ_nil by lia. }
  destruct (Z.leb_spec number last); [|by rewrite seqZ_nil by lia].
  rewrite wrap32_small by word. rewrite IH by lia. rewrite (seqZ_cons number) by lia. cbn [foldl]. do 2 f_equal. f_equal; lia.
Qed.

Lemma for_inodes_ends {S} last (body : Z -> S -> S) s : 0 <= last < 4294967295 ->
  for_inodes last body s = Some (foldl (fun s n => body n s) s (seqZ 1 last)).
Proof. intros Hl. unfold for_inodes. rewrite inode_loop_ends by lia. by replace (last + 1 - 1) with last by lia. Qed.

(** With the greatest 32-bit number no amount of rounds is enough. *)
Lemma inode_loop_never {S} (body : Z -> S -> S) fuel : forall number s, u32 number -> inode_loop 4294967295 body fuel number s = None.
Proof.
  induction fuel as [|fuel IH]; intros number s Hn; cbn [inode_loop]; rewrite (proj2 (Z.leb_le _ _)) by word; [done|]. apply IH, wrap32_u32.
Qed.

Section image.
Context (strerror : errno -> bytes) (sb : Superblock) (inode_bitmap block_bitmap : bytes).

(** * The scan of the inodes *)
Definition enqueue_physical_scan (number : Z) (s : scan) : scan :=
  if bool_decide (number ∈ physical_scan s) then s
  else on_queue (fun q => q ++ [number]) (on_physical (fun p => {[number]} ∪ p) s).

(** Answers whether the block may be used. *)
Definition register_block_reference (block number logical_block : Z) (kind : BlockReferenceKind) (directory_data : bool)
    (s : scan) : scan * bool :=
  let reference := mkReference block number logical_block kind in
  let s := on_references (fun l => l ++ [reference]) s in
  if (block <? start_block (data sb)) || (total_blocks sb <=? block)
  then (AddIssue (if directory_data then kDirectoryBlockOutOfRange else kReferencedBlockOutOfRange) number block 0
          (text "inode 块指针位于数据区之外") s, false)
  else
  let s :=
    if negb (BitmapBit block_bitmap block)
    then AddIssue (if directory_data then kDirectoryBlockMarkedFree else kReferencedBlockMarkedFree) number block 0
           (text "被引用块在块位图中未置位") s
    else s in
  match first_block_references s !! block with
  | Some first => (AddIssue kDuplicateBlockReference number block (br_inode_number first) (text "同一物理块存在多个 inode 映射引用") s, true)
  | None => (on_first (insert block reference) s, true)
  end.

(** One pointer of an inode; [index] is its position among the direct or among
    the indirect pointers, [logical] the block of the file it stands for. *)
Definition check_pointer (number : Z) (directory : bool) (required : bool) (logical block : Z) (missing beyond : bytes)
    (st : scan * list (option Z)) : scan * list (option Z) :=
  let '(s, logical_blocks) := st in
  if block =? 0
  then (if required then AddIssue kMissingRequiredBlock number 0 0 missing s else s, logical_blocks)
  else
  let s := if negb required then AddIssue kBlockPointerBeyondEnd number block 0 beyond s else s in
  let '(s, valid) := register_block_reference block number logical kDataReference directory s in
  (s, if required && valid then <[Z.to_nat logical := Some block]> logical_blocks else logical_blocks).

Fixpoint check_pointer_list (number : Z) (directory : bool) (required base index : Z) (missing beyond : bytes)
    (pointers : list Z) (st : scan * list (option Z)) : scan * list (option Z) :=
  match pointers with
  | [] => st
  | block :: rest =>
    check_pointer_list number directory required base (index + 1) missing beyond rest
      (check_pointer number directory (index <? required) (base + index) block missing beyond st)
  end.

Definition missing_direct : bytes := text "inode 缺少文件大小要求的直接数据块".
Definition beyond_direct : bytes := text "inode 在文件结尾之后仍有直接块指针".
Definition missing_indirect : bytes := text "inode 缺少文件大小要求的间接数据块".
Definition beyond_indirect : bytes := text "间接索引块在文件结尾之后仍有数据块指针".

(** All pointers of an inode; answers the blocks that may be read, in the order
    of the file. *)
Definition scan_pointers (number : Z) (inode : InodeRecord) (s : scan) : io (scan * list (option Z)) :=
  let required := required_blocks inode in
  let directory := S_ISDIR (mode inode) in
  let required_direct := Z.min required kDirectBlockCount in
  let '(s, logical_blocks) := check_pointer_list number directory required_direct 0 0 missing_direct beyond_direct
      (direct_blocks inode) (s, replicate (Z.to_nat required) None) in
  let required_indirect := if kDirectBlockCount <? required then required - kDirectBlockCount else 0 in
  if indirect_block inode =? 0
  then io_ret (if negb (required_indirect =? 0)
               then AddIssue kMissingRequiredBlock number 0 0 (text "inode 缺少文件大小要求的间接索引块") s else s, logical_blocks)
  else
  let s := if required_indirect =? 0
           then AddIssue kBlockPointerBeyondEnd number (indirect_block inode) 0
                  (text "inode 在文件结尾之后仍有不必要的间接索引块") s else s in
  let '(s, valid_indirect) := register_block_reference (indirect_block inode) number 0 kIndirectReference false s in
  if negb valid_indirect then io_ret (on_block_flag (fun _ => false) s, logical_blocks)
  else
  let* indirect := CheckPreadAll (indirect_block inode * kBlockSize) kBlockSize in
  io_ret (check_pointer_list number directory required_indirect kDirectBlockCount 0 missing_indirect beyond_indirect
            (get_words indirect 0 (Z.to_nat kIndirectEntries)) (s, logical_blocks)).

(** ** Directories *)
(** An active record. *)
Definition check_entry (number physical : Z) (entry : DirectoryEntry) (s : scan) : scan :=
  let s := if number =? root_inode sb then on_entries (fun l => l ++ [entry]) s else s in
  let names := default ∅ (directory_active_names s !! number) in
  let s :=
    if bool_decide (name entry ∈ names)
    then AddIssue kDuplicateDentryName number physical (de_inode entry) (text "目录中存在重复的有效名称: " ++ name entry) s
    else on_names (insert number ({[name entry]} ∪ names)) s in
  if total_inodes sb <? de_inode entry
  then set_partial (AddIssue kDentryTargetOutOfRange number physical (de_inode entry) (text "目录项目标位于 inode 表范围之外") s)
  else
  let s := on_graph (insert number (default [] (directory_edges s !! number) ++ [de_inode entry])) s in
  let s := on_edges (fun l => l ++ [mkEdge number (de_inode entry)]) s in
  let s := on_observations (fun l => l ++ [mkObservation number physical entry]) s in
  let s := on_parent (emplace (de_inode entry) number) s in
  let s := on_block (emplace (de_inode entry) physical) s in
  let s := enqueue_physical_scan (de_inode entry) s in
  if negb (BitmapBit inode_bitmap (de_inode entry - 1))
  then AddIssue kDentryTargetInodeMarkedFree number physical (de_inode entry) (text "目录项目标在 inode 位图中未置位") s
  else s.

(** The records of one block. A damaged record ends the block, as the place of
    the next one is unknown. Every record advances, so the length of the block
    is enough fuel. *)
Fixpoint check_entries (fuel : nat) (number physical : Z) (rest : bytes) (s : scan) : result errno (scan * bool) :=
  if (length rest =? 0)%nat then Ok (s, true)
  else match fuel with
  | O => Err (EOTHER 0)
  | S fuel =>
    let damaged detail := Ok (set_partial (AddIssue kDirectoryRecordUndecodable number physical 0 detail s), false) in
    match DecodeDirectoryEntry rest with
    | Err detail => damaged (text detail)
    | Ok entry =>
      if record_length entry =? 0 then damaged []
      else
      let rest := drop (Z.to_nat (record_length entry)) rest in
      if de_inode entry =? 0 then check_entries fuel number physical rest s
      else check_entries fuel number physical rest (check_entry number physical entry s)
    end
  end.

Fixpoint check_directory_blocks (number : Z) (logical_blocks : list (option Z)) (st : scan * bool) : io (scan * bool) :=
  match logical_blocks with
  | [] => io_ret st
  | None :: rest => check_directory_blocks number rest (set_partial (fst st), false)
  | Some physical :: rest =>
    let* block := CheckPreadAll (physical * kBlockSize) kBlockSize in
    let* (s, intact) := io_of (check_entries (length block) number physical block (fst st)) in
    check_directory_blocks number rest (s, snd st && intact)
  end.

Definition scan_directory_inode (number : Z) (inode : InodeRecord) (s : scan) : io scan :=
  let given_up detail :=
    on_complete (insert number false) (set_partial (AddIssue kDirectoryRecordUndecodable number 0 0 detail s)) in
  if negb (i_size inode mod kBlockSize =? 0) then io_ret (given_up (text "目录大小不是完整块大小的整数倍"))
  else
  let directory_blocks := wrap32 (i_size inode / kBlockSize) in
  match inode_logical_blocks s !! number with
  | Some mappings =>
    if negb (Z.of_nat (length mappings) =? directory_blocks) then io_ret (given_up (text "无法取得完整的目录逻辑块映射证据"))
    else
    let* (s, this_directory_complete) := check_directory_blocks number mappings (s, true) in
    io_ret (on_complete (insert number this_directory_complete) s)
  | None => io_ret (given_up (text "无法取得完整的目录逻辑块映射证据"))
  end.

(** ** One inode *)
Definition undecodable (number : Z) (detail : bytes) (s : scan) : scan :=
  let s :=
    if number =? root_inode sb then AddIssue kRootInodeUndecodable number 0 0 detail s
    else match discovery_parent s !! number with
    | Some parent => AddIssue kDentryTargetInodeUndecodable parent (default 0 (discovery_block s !! number)) number detail s
    | None => AddIssue kAllocatedInodeUndecodable number 0 0 detail s
    end in
  on_inode_flag (fun _ => false) (on_block_flag (fun _ => false) (set_partial s)).

Definition note_inode (number : Z) (inode : InodeRecord) (s : scan) : scan :=
  let s := on_decoded (emplace number inode) s in
  if number =? root_inode sb
  then
    let s := on_root (fun _ => Some inode) s in
    if negb (S_ISDIR (mode inode))
    then set_partial (AddIssue kRootInodeNotDirectory number 0 0 (text "superblock 指定的根 inode 实际不是目录") s) else s
  else on_discovered (fun l => l ++ [mkDiscovered number (BitmapBit inode_bitmap (number - 1)) inode]) s.

Definition scan_inode (number : Z) (s : scan) : io scan := fun e =>
  match ReadRawInode strerror sb number e with
  | (e, Err (er, detail)) => if bool_decide (er = EUCLEAN) then (e, Ok (undecodable number detail s)) else (e, Err er)
  | (e, Ok inode) =>
    (let* (s, logical_blocks) := scan_pointers number inode (note_inode number inode s) in
     let s := on_logical (emplace number logical_blocks) s in
     if negb (S_ISDIR (mode inode)) then io_ret s else scan_directory_inode number inode s) e
  end.

(** The loop over the queue. An inode is queued once, so as many rounds as
    there are inodes are enough. *)
Fixpoint scan_queue (fuel : nat) (s : scan) : io scan :=
  match physical_scan_queue s with
  | [] => io_ret s
  | number :: queue =>
    match fuel with
    | O => io_fail (EOTHER 0)
    | S fuel =>
      let s := on_queue (fun _ => queue) s in
      if bool_decide (number ∈ attempted_inodes s) then scan_queue fuel s
      else
      let* s := scan_inode number (on_attempted (fun a => {[number]} ∪ a) s) in
      scan_queue fuel s
    end
  end.

Definition first_scan (found : list CheckIssue) : scan :=
  mkScan found kComplete None [] [] [] [] ∅ [] ∅ ∅ ∅ ∅ ∅ ∅ ∅ [] ∅ ∅ true true.

(** The root and every inode of the bitmap; [None]: the loop does not end. *)
Definition queue_inodes (s : scan) : option scan :=
  for_inodes (total_inodes sb) (fun number s => if BitmapBit inode_bitmap (wrap32 (number - 1)) then enqueue_physical_scan number s else s)
    (enqueue_physical_scan (root_inode sb) s).

(** * Conclusions from the scan *)
(** Allocated data blocks nobody references; only when every reference is known. *)
Definition unreferenced_blocks (s : scan) : list Z :=
  if sc_block_complete s
  then filter (fun block => BitmapBit block_bitmap block && negb (bool_decide (is_Some (first_block_references s !! block))))
         (seqZ (start_block (data sb)) (total_blocks sb - start_block (data sb)))
  else [].

Definition unreferenced_issues (s : scan) : list CheckIssue :=
  map (fun block => issue_of kAllocatedDataBlockUnreferenced 0 block 0 (text "位图标记已分配的数据块没有任何 inode 映射引用"))
    (unreferenced_blocks s).

(** What the loop over the directory entries counts. *)
Record link_counts := mkCounts {
  lc_references : gmap Z Z;
  lc_children : gmap Z Z;
  lc_complete : bool;
  lc_issues : list CheckIssue
}.

Definition count_up (n : Z) (m : gmap Z Z) : gmap Z Z := <[n := default 0 (m !! n) + 1]> m.

Definition count_entry (s : scan) (c : link_counts) (o : DirectoryEntryObservation) : link_counts :=
  let target := de_inode (ob_entry o) in
  let references := count_up target (lc_references c) in
  let found := lc_issues c ++
    (if target =? root_inode sb
     then [issue_of kRootDirectoryReferenced (root_inode sb) (ob_block_number o) (ob_parent_inode_number o)
             (text "磁盘目录项非法指向根 inode")]
     else []) in
  match decoded_inodes s !! target with
  | None => mkCounts references (lc_children c) false found
  | Some child =>
    mkCounts references
      (if S_ISDIR (mode child) then count_up (ob_parent_inode_number o) (lc_children c) else lc_children c)
      (lc_complete c) found
  end.

Definition count_links (s : scan) : link_counts :=
  foldl (count_entry s)
    (mkCounts ∅ ∅ (sc_inode_complete s && forallb snd (sorted_entries (directory_scan_complete s))) [])
    (directory_entry_observations s).

Fixpoint decimal_digits (fuel : nat) (n : Z) : bytes :=
  match fuel with
  | O => []
  | S fuel => (if n <? 10 then [] else decimal_digits fuel (n / 10)) ++ [48 + n mod 10]
  end.
(** [std::to_string] of a 64-bit number, which has at most 20 digits. *)
Definition to_string (n : Z) : bytes := decimal_digits 20 n.

Definition check_links (c : link_counts) (number : Z) (inode : InodeRecord) : InodeLinkObservation * list CheckIssue :=
  let dentry_references := default 0 (lc_references c !! number) in
  let child_directories := default 0 (lc_children c !! number) in
  let complete := lc_complete c && (negb (number =? root_inode sb) || S_ISDIR (mode inode)) in
  let expected :=
    if S_ISDIR (mode inode)
    then if number =? root_inode sb then 2 + child_directories else 1 + dentry_references + child_directories
    else dentry_references in
  let hard_link :=
    if negb (S_ISDIR (mode inode)) && S_ISREG (mode inode) && (1 <? dentry_references)
    then [issue_of kRegularFileHardLink number 0 0 (text "普通文件存在多个命名空间入口，但 eufs v1 不支持硬链接")] else [] in
  let mismatch :=
    if complete && negb (link_count inode =? expected)
    then [issue_of kInodeLinkCountMismatch number 0 0
            (text "inode link_count=" ++ to_string (link_count inode) ++ text "，但命名空间证据要求 " ++ to_string expected)]
    else [] in
  (mkLinkObservation number (link_count inode) dentry_references child_directories expected complete, hard_link ++ mismatch).

Definition link_evidence (s : scan) (c : link_counts) : list (InodeLinkObservation * list CheckIssue) :=
  map (fun '(number, inode) => check_links c number inode) (sorted_entries (decoded_inodes s)).

Definition type_issues (s : scan) : list CheckIssue :=
  concat (map (fun o =>
    match decoded_inodes s !! de_inode (ob_entry o) with
    | None => []
    | Some child =>
      if DirectoryTypeMatchesMode (file_type (ob_entry o)) (mode child) then []
      else [issue_of kDentryTypeMismatch (ob_parent_inode_number o) (ob_block_number o) (de_inode (ob_entry o))
              (text "目录项类型与目标 inode mode 不一致")]
    end) (directory_entry_observations s)).

Definition is_decoded_directory (s : scan) (number : Z) : bool :=
  match decoded_inodes s !! number with Some inode => S_ISDIR (mode inode) | None => false end.

Definition decoded_directories (s : scan) : list Z :=
  map fst (filter (fun '(number, inode) => S_ISDIR (mode inode)) (sorted_entries (decoded_inodes s))).

Definition cycle_issues (back : list (Z * Z)) : list CheckIssue :=
  map (fun '(number, child) => issue_of kDirectoryCycle number 0 child (text "目录边指向 DFS 栈中仍处于 active 状态的祖先")) back.

(** Directories with a second entry. *)
Definition hard_link_issues (s : scan) : list CheckIssue :=
  snd (foldl (fun '(linked_directories, found) edge =>
    if negb (is_decoded_directory s (child_inode_number edge)) then (linked_directories, found)
    else if bool_decide (child_inode_number edge ∈ linked_directories)
    then (linked_directories,
          found ++ [issue_of kDirectoryHardLink (parent_inode_number edge) 0 (child_inode_number edge) (text "目录 inode 存在多个命名空间入口")])
    else ({[child_inode_number edge]} ∪ linked_directories, found)) (∅ : gset Z, []) (sc_edges s)).

Definition reachability (s : scan) : option (gset Z * bool) :=
  root_reach (directory_edges s) (fun number => (fun inode => S_ISDIR (mode inode)) <$> decoded_inodes s !! number)
    (fun number => default false (directory_scan_complete s !! number)) (root_inode sb).

(** [None]: the loop does not end. *)
Definition unreachable_issues (root_reachable : gset Z) (complete : bool) : option (list CheckIssue) :=
  if complete
  then for_inodes (total_inodes sb) (fun number found =>
         if negb (number =? root_inode sb) && BitmapBit inode_bitmap (wrap32 (number - 1)) && negb (bool_decide (number ∈ root_reachable))
         then found ++ [issue_of kInodeUnreachable number 0 0 (text "已分配 inode 无法从根目录到达")] else found) []
  else Some [].

(** * The request ledger *)
Record ledger_check := mkLedgerCheck {
  lk_issues : list CheckIssue;
  lk_evidence_complete : bool;
  lk_capacity : Z;
  lk_slots_scanned : Z;
  lk_valid_records : Z;
  lk_empty_slots : Z;
  lk_saw_empty : bool;
  lk_request_ids : gset bytes
}.

Definition ledger_issue (code : IssueCode) (block_number slot : Z) (detail : bytes) : CheckIssue :=
  mkIssue code kRequestLedgerInodeNumber block_number 0 detail 0 1 slot.

Definition add_ledger_issue (code : IssueCode) (block_number slot : Z) (detail : bytes) (k : ledger_check) : ledger_check :=
  mkLedgerCheck (lk_issues k ++ [ledger_issue code block_number slot detail]) (lk_evidence_complete k) (lk_capacity k)
    (lk_slots_scanned k) (lk_valid_records k) (lk_empty_slots k) (lk_saw_empty k) (lk_request_ids k).

Definition evidence_lost (k : ledger_check) : ledger_check :=
  mkLedgerCheck (lk_issues k) false (lk_capacity k) (lk_slots_scanned k) (lk_valid_records k) (lk_empty_slots k)
    (lk_saw_empty k) (lk_request_ids k).

Definition check_slot (physical slot : Z) (bytes : bytes) (k : ledger_check) : ledger_check :=
  let k := mkLedgerCheck (lk_issues k) (lk_evidence_complete k) (lk_capacity k) (lk_slots_scanned k + 1) (lk_valid_records k)
             (lk_empty_slots k) (lk_saw_empty k) (lk_request_ids k) in
  match DecodeRequestLedgerRecord bytes slot with
  | kCorrupt why => add_ledger_issue kRequestLedgerSlotCorrupt physical slot (text why) k
  | kEmptySlot =>
    mkLedgerCheck (lk_issues k) (lk_evidence_complete k) (lk_capacity k) (lk_slots_scanned k) (lk_valid_records k)
      (lk_empty_slots k + 1) true (lk_request_ids k)
  | kRecord record =>
    let k := mkLedgerCheck (lk_issues k) (lk_evidence_complete k) (lk_capacity k) (lk_slots_scanned k) (lk_valid_records k + 1)
               (lk_empty_slots k) (lk_saw_empty k) (lk_request_ids k) in
    let k := if lk_saw_empty k
             then add_ledger_issue kRequestLedgerRecordAfterHole physical slot (text "合法记录出现在此前已经观察到的全零空槽之后") k else k in
    if bool_decide (request_id record ∈ lk_request_ids k)
    then add_ledger_issue kRequestLedgerDuplicateRequestId physical slot (text "同一个 Request-ID 在多个合法槽位中出现") k
    else mkLedgerCheck (lk_issues k) (lk_evidence_complete k) (lk_capacity k) (lk_slots_scanned k) (lk_valid_records k)
           (lk_empty_slots k) (lk_saw_empty k) ({[request_id record]} ∪ lk_request_ids k)
  end.

(** The slots of one block, in order. *)
Definition check_slots (physical logical : Z) (block : bytes) (k : ledger_check) : ledger_check :=
  foldl (fun k slot_in_block =>
    check_slot physical (logical * kEntriesPerBlock + slot_in_block + 1)
      (slice (Z.to_nat (slot_in_block * kRequestLedgerRecordSize)) (Z.to_nat kRequestLedgerRecordSize) block) k)
    k (counting kEntriesPerBlock).

Fixpoint check_ledger_blocks (logical : Z) (mappings : list (option Z)) (k : ledger_check) : io ledger_check :=
  match mappings with
  | [] => io_ret k
  | None :: rest =>
    check_ledger_blocks (logical + 1) rest
      (evidence_lost (add_ledger_issue kRequestLedgerBlockUnavailable 0 (logical * kEntriesPerBlock + 1)
         (text "ledger 逻辑块没有可验证的物理映射") k))
  | Some physical :: rest =>
    let* block := CheckPreadAll (physical * kBlockSize) kBlockSize in
    check_ledger_blocks (logical + 1) rest (check_slots physical logical block k)
  end.

Definition ledger_identity (s : scan) (k : ledger_check) : ledger_check :=
  let ledger_entries := filter (fun entry => name entry = kRequestLedgerName) (sc_root_entries s) in
  let root_directory_complete := default false (directory_scan_complete s !! root_inode sb) in
  if negb root_directory_complete
  then evidence_lost (add_ledger_issue kRequestLedgerIdentityInvalid 0 0
         (text "根目录未完整解码，无法完整确认固定 ledger 名称的唯一身份") k)
  else match ledger_entries with
  | [entry] =>
    if negb (de_inode entry =? kRequestLedgerInodeNumber) || negb (bool_decide (file_type entry = kRegular))
    then add_ledger_issue kRequestLedgerIdentityInvalid 0 0
           (text "根目录必须恰有一个 .eufs.request-ledger，并指向普通文件 inode 2") k
    else k
  | _ => add_ledger_issue kRequestLedgerIdentityInvalid 0 0
           (text "根目录必须恰有一个 .eufs.request-ledger，并指向普通文件 inode 2") k
  end.

Definition with_capacity (k : ledger_check) (capacity : Z) : ledger_check :=
  mkLedgerCheck (lk_issues k) (lk_evidence_complete k) capacity (lk_slots_scanned k) (lk_valid_records k) (lk_empty_slots k)
    (lk_saw_empty k) (lk_request_ids k).

Definition ledger_contents (s : scan) (k : ledger_check) : io ledger_check :=
  match decoded_inodes s !! kRequestLedgerInodeNumber with
  | None => io_ret (evidence_lost (add_ledger_issue kRequestLedgerIdentityInvalid 0 0 (text "固定 ledger inode 2 无法解码") k))
  | Some ledger_inode =>
    let k := if negb (BitmapBit inode_bitmap (kRequestLedgerInodeNumber - 1))
             then add_ledger_issue kRequestLedgerIdentityInvalid 0 0 (text "固定 ledger inode 2 在 inode bitmap 中未分配") k else k in
    let k := if negb (S_ISREG (mode ledger_inode)) || negb (link_count ledger_inode =? 1)
             then add_ledger_issue kRequestLedgerGeometryInvalid 0 0 (text "ledger inode 必须是 link_count=1 的普通文件") k else k in
    let size := i_size ledger_inode in
    if (size =? 0) || (kMaxFileSize <? size) || negb (size mod kBlockSize =? 0) || negb (size mod kRequestLedgerRecordSize =? 0)
    then io_ret (evidence_lost (add_ledger_issue kRequestLedgerGeometryInvalid 0 0
           (text "ledger 大小必须是非零 4 KiB 整块，且不能超过 v1 最大文件") k))
    else
    let k := with_capacity k (size / kRequestLedgerRecordSize) in
    let unavailable := io_ret (evidence_lost (add_ledger_issue kRequestLedgerBlockUnavailable 0 0
                                 (text "无法取得与 ledger 文件大小一致的逻辑块映射") k)) in
    match inode_logical_blocks s !! kRequestLedgerInodeNumber with
    | None => unavailable
    | Some mappings =>
      if negb (Z.of_nat (length mappings) =? wrap32 (size / kBlockSize)) then unavailable
      else check_ledger_blocks 0 mappings k
    end
  end.

Definition no_ledger_check : ledger_check := mkLedgerCheck [] true 0 0 0 0 false ∅.

Definition check_ledger (s : scan) : io ledger_check := ledger_contents s (ledger_identity s no_ledger_check).
End image.

(** * The whole check *)
Definition EWOULDBLOCK : errno := EOTHER 11.

(** [flock]: a lock held by somebody else is reported as EBUSY. *)
Definition lock_shared : io unit := fun e =>
  match Syscall e with
  | (e, Err er) => (e, Err (if bool_decide (er = EWOULDBLOCK) then EBUSY else er))
  | x => x
  end.

Definition ledger_enabled (sb : Superblock) : bool :=
  negb (Z.land (sb_feature_incompat sb) kFeatureIncompatRequestLedger =? 0).

(** The journal holds a transaction: nothing else is looked at. *)
Definition recovery_required (sb : Superblock) : ConsistencyReport :=
  mkReport kAborted false false false false false (ledger_enabled sb) (negb (ledger_enabled sb)) 0 0 0 0 None [] [] [] [] [] [] [] [] []
    [issue_of kJournalRecoveryRequired (root_inode sb) 0 0
       (text "日志中存在已暴露事务；离线一致性检查前必须先运行 eufsd 完成恢复")].

Definition bitmap_issues (sb : Superblock) (inode_bitmap block_bitmap : bytes) : list CheckIssue :=
  AddBitmapIssue kMetadataBlockMarkedFree (fun bit => wrap32 bit)
    (SummarizeClearBits block_bitmap 0 (start_block (data sb)))
    (text "block bitmap 的 metadata 保留区存在未置位的块") ++
  AddBitmapIssue kInodeBitmapTailNotReserved (fun _ => 0)
    (SummarizeClearBits inode_bitmap (total_inodes sb) (Z.of_nat (length inode_bitmap) * 8))
    (text "inode bitmap 超出 total_inodes 的尾部位未保留") ++
  AddBitmapIssue kBlockBitmapTailNotReserved (fun _ => 0)
    (SummarizeClearBits block_bitmap (total_blocks sb) (Z.of_nat (length block_bitmap) * 8))
    (text "block bitmap 超出 total_blocks 的尾部位未保留") ++
  (if negb (BitmapBit inode_bitmap (root_inode sb - 1))
   then [issue_of kRootInodeMarkedFree (root_inode sb) 0 0 (text "superblock 指定的根 inode 在 inode 位图中未置位")] else []).

(** Everything after the bitmaps were read. [None]: a loop over the inodes does
    not end, and so neither does the check. *)
Definition check_image (strerror : errno -> bytes) (sb : Superblock) (inode_bitmap block_bitmap : bytes) : io (option ConsistencyReport) :=
  match queue_inodes sb inode_bitmap (first_scan (bitmap_issues sb inode_bitmap block_bitmap)) with
  | None => io_ret None
  | Some first =>
  let* s := scan_queue strerror sb inode_bitmap block_bitmap (Z.to_nat (total_inodes sb)) first in
  let counts := count_links sb s in
  let links := link_evidence sb s counts in
  match directory_cycles (directory_edges s) (is_decoded_directory s) (decoded_directories s), reachability sb s with
  | Some back, Some (root_reachable, reachability_complete) =>
    match unreachable_issues sb inode_bitmap root_reachable reachability_complete with
    | None => io_ret None
    | Some unreachable =>
    let found := sc_issues s ++ unreferenced_issues sb block_bitmap s ++ lc_issues counts ++ concat (map snd links) ++
      type_issues s ++ cycle_issues back ++ hard_link_issues s ++ unreachable in
    let enabled := ledger_enabled sb in
    let* ledger := if enabled then check_ledger sb inode_bitmap s else io_ret no_ledger_check in
    let ledger_complete :=
      if enabled then lk_evidence_complete ledger && (lk_slots_scanned ledger =? lk_capacity ledger) else true in
    io_ret (Some (mkReport (if ledger_complete then sc_status s else kPartial) true (bool_decide (is_Some (sc_root_inode s)))
      reachability_complete (sc_block_complete s) (lc_complete counts) enabled ledger_complete
      (lk_capacity ledger) (lk_slots_scanned ledger) (lk_valid_records ledger) (lk_empty_slots ledger)
      (sc_root_inode s) (sc_root_entries s) (sc_discovered s) (sc_edges s)
      (map (fun '(number, complete) => mkScanState number complete) (sorted_entries (directory_scan_complete s)))
      (sc_references s) (map fst links) (unreferenced_blocks sb block_bitmap s)
      (sorted_elements (physical_scan s)) (sorted_elements root_reachable) (found ++ lk_issues ledger)))
    end
  | _, _ => io_fail (EOTHER 0)
  end
  end.

(** After [fstat]. *)
Definition check_file (strerror : errno -> bytes) (st_size : Z) : io (option ConsistencyReport) :=
  if st_size <? 0 then io_fail EIO
  else
  let* superblock_bytes := CheckPreadAll 0 kBlockSize in
  match DecodeSuperblock superblock_bytes with
  | Err _ => io_fail EUCLEAN
  | Ok sb =>
    if negb (Z.land (sb_feature_incompat sb) (Z.lnot kSupportedFeatureIncompat) =? 0) then io_fail EOPNOTSUPP
    else if negb (st_size =? total_blocks sb * kBlockSize) then io_fail EUCLEAN
    else
    let control_a_offset := start_block (journal sb) * kBlockSize in
    let* control_a := CheckPreadAll control_a_offset kBlockSize in
    let* control_b := CheckPreadAll (control_a_offset + kBlockSize) kBlockSize in
    match SelectControl control_a control_b (sb_filesystem_uuid sb)
            (wrap32 (block_count (journal sb) - kJournalControlBlockCount)) with
    | Err _ => io_fail EUCLEAN
    | Ok (control, _) =>
      if negb (used_blocks control =? 0) then io_ret (Some (recovery_required sb))
      else
      let* inode_bitmap := CheckPreadAll (start_block (inode_bitmap sb) * kBlockSize) (block_count (inode_bitmap sb) * kBlockSize) in
      let* block_bitmap := CheckPreadAll (start_block (block_bitmap sb) * kBlockSize) (block_count (block_bitmap sb) * kBlockSize) in
      check_image strerror sb inode_bitmap block_bitmap
    end
  end.

(** [Ok (Some report)]: the code returns 0 with the report; [Ok None]: it does
    not return. *)
Definition CheckImage (strerror : errno -> bytes) (image_path : bytes) : io (option ConsistencyReport) :=
  if bool_decide (image_path = []) then io_fail EINVAL
  else
  let* _ := Syscall in
  let* _ := lock_shared in
  let* _ := Syscall in
  fun e => check_file strerror (st_size e) e.
