(* ===== verification/CheckerPointers.v ===== *)
(** The block references of an inode as the offline checker sees them: it finds
    nothing to report exactly if every pointer the size asks for is an allocated
    data block, no other pointer is set and no block is referenced twice. *)
From S2P Require Import Prelude Codec OndiskFormat OndiskFormatProofs OndiskJournal Disk JournalImage BitmapAllocator.
From S2P Require Import ImageReader ImageReaderProofs ReaderTheorems FileMutation ConsistentImage CheckReport.
From S2P Require Import CheckerGraph Checker.
Open Scope Z_scope.
Open Scope io_scope.

(** Projections of updated scans. *)
Ltac scan_fields :=
  cbn [on_issues on_status on_root on_entries on_discovered on_edges on_references on_physical on_queue on_attempted on_decoded
       on_graph on_complete on_parent on_block on_names on_observations on_first on_logical on_block_flag on_inode_flag AddIssue set_partial
       sc_issues sc_status sc_root_inode sc_root_entries sc_discovered sc_edges sc_references physical_scan physical_scan_queue
       attempted_inodes decoded_inodes directory_edges directory_scan_complete discovery_parent discovery_block directory_active_names
       directory_entry_observations first_block_references inode_logical_blocks sc_block_complete sc_inode_complete] in *.

(** What registering references changes when there is nothing to report. *)
Definition registered (refs : list BlockReference) (first : gmap Z BlockReference) (s : scan) : scan :=
  on_references (fun _ => refs) (on_first (fun _ => first) s).

(** Queue, graph and everything else the pointers have nothing to do with. *)
Definition same_search (s s' : scan) : Prop :=
  physical_scan s' = physical_scan s /\ physical_scan_queue s' = physical_scan_queue s /\ attempted_inodes s' = attempted_inodes s /\
  inode_logical_blocks s' = inode_logical_blocks s.

#[export] Instance same_search_equiv : PreOrder same_search.
Proof. split; [done|]. intros s1 s2 s3 (? & ? & ? & ?) (? & ? & ? & ?). repeat split; congruence. Qed.

(** Nothing is reported, and if so the state changed as given. *)
Definition no_issue {A} (before after : scan) (fine : Prop) (shape : A) (is_shape : A -> Prop) : Prop :=
  (sc_issues after = [] <-> sc_issues before = [] /\ fine) /\ (sc_issues after = [] -> is_shape shape).

Lemma reported (l : list CheckIssue) x : l ++ [x] <> [].
Proof. by destruct l. Qed.

Section pointers.
Context (r : ImageReader).
Abbreviation sb := (rd_superblock r).
Abbreviation ibm := (inode_bitmap_ r).
Abbreviation bbm := (block_bitmap_ r).

Lemma register_outcome block n logical kind dir s : let '(s', valid) := register_block_reference sb bbm block n logical kind dir s in
  same_search s s' /\
  (sc_issues s' = [] <-> sc_issues s = [] /\ data_block r block /\ first_block_references s !! block = None) /\
  (sc_issues s' = [] -> valid = true /\ exists refs first, s' = registered refs first s /\ dom first = {[block]} ∪ dom (first_block_references s)) /\
  (valid = true <-> start_block (data sb) <= block < total_blocks sb).
Proof.
  unfold register_block_reference. cbv zeta. destruct (_ || _) eqn:Er.
  { scan_fields. split; [by repeat split|]. split; [|split; [by intros ?%reported|split; [done|bool_to_prop; lia]]].
    split; [by intros ?%reported|]. intros (_ & [[H1 H2] _] & _). bool_to_prop. lia. }
  assert (start_block (data sb) <= block < total_blocks sb) as Hr by (bool_to_prop; lia). unfold BitmapBit, data_block.
  destruct (TestBit bbm block) eqn:Eb; cbn [negb]; scan_fields; destruct (first_block_references s !! block) as [x|] eqn:Ef; scan_fields.
  - split; [by repeat split|]. split; [split; [by intros ?%reported|]; by intros (_ & _ & ?)|]. split; [by intros ?%reported|done].
  - split; [by repeat split|]. split; [split; [done|]; by intros (? & _)|]. split; [|done]. intros _. split; [done|].
    eexists _, (<[block := mkReference block n logical kind]> (first_block_references s)). split; [reflexivity|]. by rewrite dom_insert_L.
  - split; [by repeat split|]. split; [split; [by intros ?%reported|]; by intros (_ & [_ ?] & _)|]. split; [by intros ?%reported|done].
  - split; [by repeat split|]. split; [split; [by intros ?%reported|]; by intros (_ & [_ ?] & _)|]. split; [by intros ?%reported|done].
Qed.

(** Writing the blocks of a file from position [i] on. *)
Fixpoint fill_slots (i : nat) (blocks : list Z) (l : list (option Z)) : list (option Z) :=
  match blocks with
  | [] => l
  | b :: blocks => fill_slots (S i) blocks (<[i := Some b]> l)
  end.

Lemma fill_spec blocks : forall i l, (i + length blocks <= length l)%nat ->
  fill_slots i blocks l = take i l ++ (Some <$> blocks) ++ drop (i + length blocks) l.
Proof.
  induction blocks as [|b blocks IH]; intros i l Hl; cbn [fill_slots length fmap list_fmap] in *.
  - rewrite Nat.add_0_r. cbn [app]. by rewrite take_drop.
  - rewrite IH by (rewrite length_insert; lia). rewrite drop_insert_lt by lia.
    replace (S i + length blocks)%nat with (i + S (length blocks))%nat by lia.
    erewrite take_S_r; [|by apply list_lookup_insert_eq; lia]. rewrite take_insert_ge by lia. by rewrite <- app_assoc.
Qed.

Lemma length_fill_slots blocks : forall i l, length (fill_slots i blocks l) = length l.
Proof. induction blocks as [|b blocks IH]; intros i l; [done|]. cbn [fill_slots]. by rewrite IH, length_insert. Qed.

(** The blocks are new and nobody references them yet. *)
Definition fresh_blocks (s : scan) (blocks : list Z) : Prop :=
  NoDup blocks /\ forall b, b ∈ blocks -> data_block r b /\ first_block_references s !! b = None.

Lemma fresh_cons s s' b blocks : (exists refs first, s' = registered refs first s /\ dom first = {[b]} ∪ dom (first_block_references s)) ->
  data_block r b -> first_block_references s !! b = None -> (fresh_blocks s' blocks <-> fresh_blocks s (b :: blocks)).
Proof.
  intros (refs & first & -> & Hd) Hb Hf. unfold fresh_blocks, registered. scan_fields.
  assert (forall x, first !! x = None <-> x <> b /\ first_block_references s !! x = None) as Hx.
  { intros x. rewrite <- !not_elem_of_dom, Hd. set_solver. }
  setoid_rewrite Hx. rewrite NoDup_cons. split.
  - intros [H1 H2]. split; [split; [|done]|].
    + intros Hin. by destruct (H2 b Hin) as (_ & ? & _).
    + intros x [->|Hin]%elem_of_cons; [done|]. destruct (H2 x Hin) as (? & _ & ?). done.
  - intros [[H1 H2] H3]. split; [done|]. intros x Hin. destruct (H3 x ltac:(by right)) as [? ?]. split; [done|]. split; [|done]. by intros ->.
Qed.

Lemma registered_registered refs first refs' first' s : registered refs' first' (registered refs first s) = registered refs' first' s.
Proof. reflexivity. Qed.

Lemma pointer_outcome n dir required logical block missing beyond s lb :
  let '(s', lb') := check_pointer sb bbm n dir required logical block missing beyond (s, lb) in
  same_search s s' /\ length lb' = length lb /\
  (sc_issues s' = [] <-> sc_issues s = [] /\
     if required then block <> 0 /\ data_block r block /\ first_block_references s !! block = None else block = 0) /\
  (sc_issues s' = [] -> if required
     then lb' = <[Z.to_nat logical := Some block]> lb /\ exists refs first, s' = registered refs first s /\ dom first = {[block]} ∪ dom (first_block_references s)
     else s' = s /\ lb' = lb).
Proof.
  unfold check_pointer. destruct (Z.eqb_spec block 0) as [->|Hb].
  - destruct required; scan_fields; (split; [by repeat split|]); (split; [done|]).
    + split; [split; [by intros ?%reported|]; by intros (_ & ? & _)|]. by intros ?%reported.
    + split; [split; [done|]; by intros [? _]|done].
  - destruct required; cbn [negb].
    + pose proof (register_outcome block n logical kDataReference dir s) as H.
      destruct (register_block_reference sb bbm block n logical kDataReference dir s) as [s' valid]. destruct H as (H1 & H2 & H3 & _).
      split; [done|]. split; [cbn [andb]; destruct valid; by rewrite ?length_insert|]. split; [rewrite H2; tauto|].
      intros Hi. destruct (H3 Hi) as [-> H4]. done.
    + pose proof (register_outcome block n logical kDataReference dir (AddIssue kBlockPointerBeyondEnd n block 0 beyond s)) as H.
      destruct (register_block_reference sb bbm block n logical kDataReference dir _) as [s' valid]. destruct H as (H1 & H2 & _). scan_fields.
      assert (sc_issues s' <> []) as Hne by (rewrite H2; by intros [?%reported _]).
      split; [done|]. split; [done|]. split; [|done]. split; [done|]. by intros [_ ?].
Qed.

Lemma fresh_nil s : fresh_blocks s [].
Proof. split; [constructor|]. by intros b ?%not_elem_of_nil. Qed.

Lemma pointer_list_outcome n dir required base missing beyond ps : forall index s lb, 0 <= base + index ->
  let '(s', lb') := check_pointer_list sb bbm n dir required base index missing beyond ps (s, lb) in
  let used := take (Z.to_nat (required - index)) ps in
  same_search s s' /\ length lb' = length lb /\
  (sc_issues s' = [] <-> sc_issues s = [] /\ fresh_blocks s used /\ (0 ∉ used) /\ Forall (fun p => p = 0) (drop (Z.to_nat (required - index)) ps)) /\
  (sc_issues s' = [] -> lb' = fill_slots (Z.to_nat (base + index)) used lb /\
     exists refs first, s' = registered refs first s /\ dom first = list_to_set used ∪ dom (first_block_references s)).
Proof.
  induction ps as [|p ps IH]; intros index s lb Hix; cbn [check_pointer_list].
  { cbv zeta. rewrite take_nil, drop_nil. split; [done|]. split; [done|]. split.
    - split; [|by intros [? _]]. intros H. split; [done|]. split; [apply fresh_nil|]. split; [apply not_elem_of_nil|constructor].
    - intros _. split; [done|]. exists (sc_references s), (first_block_references s). split; [by destruct s|]. cbn. by rewrite (left_id_L ∅ (∪)). }
  pose proof (pointer_outcome n dir (index <? required) (base + index) p missing beyond s lb) as H.
  destruct (check_pointer sb bbm n dir (index <? required) (base + index) p missing beyond (s, lb)) as [s1 lb1].
  destruct H as (S1 & L1 & I1 & E1). specialize (IH (index + 1) s1 lb1 ltac:(lia)).
  destruct (check_pointer_list sb bbm n dir required base (index + 1) missing beyond ps (s1, lb1)) as [s' lb'].
  cbv zeta in *. destruct IH as (S2 & L2 & I2 & E2). split; [by etransitivity|]. split; [congruence|].
  destruct (Z.ltb_spec index required) as [Hlt|Hge].
  - replace (Z.to_nat (required - index)) with (S (Z.to_nat (required - (index + 1)))) by lia. cbn [take drop firstn skipn].
    set (used := take (Z.to_nat (required - (index + 1))) ps) in *. split.
    + rewrite I2, I1. split.
      * intros ((Hi & Hp & Hd & Hf) & Hfr & H0 & Hz). assert (sc_issues s1 = []) as Hs1 by (by apply I1). destruct (E1 Hs1) as [_ Hreg].
        split; [done|]. split; [by apply (fresh_cons s s1 p used Hreg)|]. split; [|done]. by rewrite not_elem_of_cons.
      * intros (Hi & Hfr & H0 & Hz). apply not_elem_of_cons in H0 as [Hp H0]. destruct Hfr as [Hnd Hall].
        destruct (Hall p ltac:(by left)) as [Hd Hf]. assert (sc_issues s1 = []) as Hs1 by (by apply I1). destruct (E1 Hs1) as [_ Hreg].
        split; [done|]. split; [|done]. by apply (fresh_cons s s1 p used Hreg).
    + intros Hi. assert (sc_issues s1 = []) as Hs1 by (by apply I2 in Hi as [? _]). destruct (E1 Hs1) as [-> (refs1 & first1 & -> & Hd1)].
      destruct (E2 Hi) as [-> (refs & first & -> & Hd)]. split.
      * cbn [fill_slots]. by replace (Z.to_nat (base + (index + 1))) with (S (Z.to_nat (base + index))) by lia.
      * exists refs, first. split; [done|]. rewrite Hd. unfold registered. scan_fields. rewrite Hd1. cbn [list_to_set]. set_solver.
  - rewrite (Z2Nat.nonpos (required - index)), (Z2Nat.nonpos (required - (index + 1))) in * by lia. rewrite !take_0, !drop_0 in *. split.
    + rewrite I2, I1, Forall_cons. split.
      * intros ((Hi & ->) & _ & _ & Hz). split; [done|]. split; [apply fresh_nil|]. split; [apply not_elem_of_nil|done].
      * intros (Hi & _ & _ & -> & Hz). split; [done|]. split; [apply fresh_nil|]. split; [apply not_elem_of_nil|done].
    + intros Hi. assert (sc_issues s1 = []) as Hs1 by (by apply I2 in Hi as [? _]). destruct (E1 Hs1) as [-> ->].
      destruct (E2 Hi) as [-> H]. done.
Qed.

Lemma fresh_app s refs first l1 l2 : dom first = list_to_set l1 ∪ dom (first_block_references s) ->
  (fresh_blocks s (l1 ++ l2) <-> fresh_blocks s l1 /\ fresh_blocks (registered refs first s) l2).
Proof.
  intros Hd. unfold fresh_blocks, registered. scan_fields.
  assert (forall x, first !! x = None <-> (x ∉ l1) /\ first_block_references s !! x = None) as Hx.
  { intros x. rewrite <- !not_elem_of_dom, Hd. set_solver. }
  setoid_rewrite Hx. rewrite NoDup_app. setoid_rewrite elem_of_app. split.
  - intros ((H1 & H2 & H3) & H4). split; [split; [done|]; intros b Hb; apply H4; by left|]. split; [done|].
    intros b Hb. destruct (H4 b ltac:(by right)) as [? ?]. split; [done|]. split; [|done]. intros Hb1. by apply (H2 b).
  - intros ((H1 & H2) & H3 & H4). split; [split; [done|]; split; [|done]|].
    + intros b Hb1 Hb2. by destruct (H4 b Hb2) as (_ & ? & _).
    + intros b [Hb|Hb]; [by apply H2|]. by destruct (H4 b Hb) as (? & _ & ?).
Qed.

Lemma fresh_perm s l1 l2 : l1 ≡ₚ l2 -> fresh_blocks s l1 -> fresh_blocks s l2.
Proof. intros Hp [H1 H2]. split; [by rewrite <- Hp|]. intros b Hb. apply H2. by rewrite Hp. Qed.

Context (d : image) (Hv : view_ok r d) (Hlay : layout sb).

Lemma data_nonzero b : data_block r b -> b <> 0.
Proof. intros [H _]. pose proof (vo_data _ _ Hv). lia. Qed.

Lemma fresh_nonzero s l : fresh_blocks s l -> 0 ∉ l.
Proof. intros [_ H] H0. by destruct (H 0 H0) as [?%data_nonzero _]. Qed.

#[export] Instance reading_check_pread offset n : Reading (CheckPreadAll offset n).
Proof. unfold CheckPreadAll. apply _. Qed.

Lemma pread_range offset n b : 0 <= offset -> 0 <= n -> offset + n <= total_blocks sb * kBlockSize ->
  read_range d offset n = Some b -> answer d (CheckPreadAll offset n) = Ok b.
Proof.
  intros H0 Hn Hle E. assert (u32 (total_blocks sb)) as Ht by apply (geo_typed _ (lay_geo _ Hlay)).
  unfold CheckPreadAll, kBlockSize, off_t_max in *. rewrite !(proj2 (Z.ltb_ge _ _)) by word. cbn [orb].
  unfold answer, ReadExactAt. cbn [responses disk]. rewrite pread_calm. by rewrite E.
Qed.

Lemma pread_block b : 0 <= b < total_blocks sb -> answer d (CheckPreadAll (b * kBlockSize) kBlockSize) = Ok (block_at d b).
Proof.
  intros Hb. destruct (vo_blocks _ _ Hv b Hb) as (x & Hx & Hwf). apply pread_range; [unfold kBlockSize; lia..|].
  unfold block_at. rewrite Hx. by apply block_range.
Qed.

(** The pointers of an inode in order, as far as its size asks for them, and the
    others. *)
Definition well_pointed (inode : InodeRecord) : Prop :=
  let k := Z.to_nat (required_blocks inode) in
  Forall (data_block r) (take k (pointers d inode)) /\ Forall (fun p => p = 0) (drop k (pointers d inode)) /\
  (if required_blocks inode <=? 12 then indirect_block inode = 0 else data_block r (indirect_block inode)).

Lemma length_pointers inode : length (direct_blocks inode) = 12%nat ->
  length (pointers d inode) = if required_blocks inode <=? 12 then 12%nat else 1036%nat.
Proof.
  intros H. unfold pointers. change kDirectBlockCount with 12. rewrite length_app, H.
  destruct (required_blocks inode <=? 12); [done|]. by rewrite length_get_words.
Qed.

Lemma file_pointers_take inode : 0 <= required_blocks inode <= 1036 -> length (direct_blocks inode) = 12%nat ->
  file_pointers d inode = take (Z.to_nat (required_blocks inode)) (pointers d inode).
Proof.
  intros Hr Hd. pose proof (length_pointers inode Hd) as Hl. unfold file_pointers, counting. rewrite map_map.
  apply list_eq. intros i. change (map ?f ?l) with (f <$> l). rewrite list_lookup_fmap.
  destruct (decide (i < Z.to_nat (required_blocks inode))%nat) as [Hi|Hi].
  - rewrite lookup_seq_lt, lookup_take_lt by done. cbn. unfold pointer. rewrite Nat2Z.id. symmetry.
    destruct (lookup_lt_is_Some_2 (pointers d inode) i) as [p Hp]; [rewrite Hl; destruct (Z.leb_spec (required_blocks inode) 12); lia|].
    rewrite Hp. f_equal. symmetry. by apply nth_lookup_Some.
  - rewrite lookup_take_ge by lia. by rewrite lookup_seq_ge by lia.
Qed.

(** The blocks in the order in which they are registered. *)
Lemma owned_order inode words : required_blocks inode <= 1036 -> length (direct_blocks inode) = 12%nat -> 12 < required_blocks inode ->
  indirect_block inode <> 0 -> words = get_words (block_at d (indirect_block inode)) 0 1024 ->
  take (Z.to_nat (required_blocks inode)) (pointers d inode) = direct_blocks inode ++ take (Z.to_nat (required_blocks inode - 12)) words /\
  drop (Z.to_nat (required_blocks inode)) (pointers d inode) = drop (Z.to_nat (required_blocks inode - 12)) words /\
  owned d inode ≡ₚ (direct_blocks inode ++ [indirect_block inode]) ++ take (Z.to_nat (required_blocks inode - 12)) words.
Proof.
  intros Hr Hd Hlt Hi ->. assert (take (Z.to_nat (required_blocks inode)) (pointers d inode) =
    direct_blocks inode ++ take (Z.to_nat (required_blocks inode - 12)) (get_words (block_at d (indirect_block inode)) 0 1024)) as E1.
  { unfold pointers. change kDirectBlockCount with 12. rewrite (proj2 (Z.leb_gt _ _)) by done. change (Z.to_nat kIndirectEntries) with 1024%nat.
    rewrite take_app_ge by (rewrite Hd; lia). do 2 f_equal. rewrite Hd. lia. }
  split; [done|]. split.
  - unfold pointers. change kDirectBlockCount with 12. rewrite (proj2 (Z.leb_gt _ _)) by done. change (Z.to_nat kIndirectEntries) with 1024%nat.
    rewrite drop_app_ge by (rewrite Hd; lia). f_equal. rewrite Hd. lia.
  - unfold owned. rewrite (file_pointers_take inode ltac:(lia) Hd), E1, (proj2 (Z.eqb_neq _ _) Hi). rewrite <- !app_assoc. f_equiv. apply Permutation_app_comm.
Qed.

Lemma set_order (l1 l2 : list Z) (b : Z) (D : gset Z) :
  {[b]} ∪ (list_to_set l1 ∪ D) = list_to_set (l1 ++ [b]) ∪ D /\
  list_to_set l2 ∪ ({[b]} ∪ (list_to_set l1 ∪ D)) = list_to_set ((l1 ++ [b]) ++ l2) ∪ D.
Proof. rewrite !list_to_set_app_L, list_to_set_cons, list_to_set_nil. split; set_solver. Qed.

Definition scanned_pointers (n : Z) (inode : InodeRecord) (s s' : scan) (lb' : list (option Z)) : Prop :=
  same_search s s' /\ length lb' = Z.to_nat (required_blocks inode) /\
  (sc_issues s' = [] <-> sc_issues s = [] /\ well_pointed inode /\ fresh_blocks s (owned d inode)) /\
  (sc_issues s' = [] -> lb' = Some <$> file_pointers d inode /\
     exists refs first, s' = registered refs first s /\ dom first = list_to_set (owned d inode) ∪ dom (first_block_references s)).

Lemma pointers_direct n inode s s1 lb1 : 0 <= required_blocks inode <= 12 -> length (direct_blocks inode) = 12%nat -> indirect_block inode = 0 ->
  check_pointer_list sb bbm n (S_ISDIR (mode inode)) (required_blocks inode) 0 0 missing_direct beyond_direct (direct_blocks inode)
    (s, replicate (Z.to_nat (required_blocks inode)) None) = (s1, lb1) -> scanned_pointers n inode s s1 lb1.
Proof.
  intros Hr Hd Hi E. pose proof (pointer_list_outcome n (S_ISDIR (mode inode)) (required_blocks inode) 0 missing_direct beyond_direct
    (direct_blocks inode) 0 s (replicate (Z.to_nat (required_blocks inode)) None) ltac:(lia)) as H. rewrite E in H. cbv zeta in H.
  rewrite Z.sub_0_r, length_replicate in H. destruct H as (S1 & L1 & I1 & E1). change (Z.to_nat (0 + 0)) with O in E1.
  assert (pointers d inode = direct_blocks inode) as Hp.
  { unfold pointers. change kDirectBlockCount with 12. rewrite (proj2 (Z.leb_le _ _)) by lia. apply app_nil_r. }
  assert (owned d inode = take (Z.to_nat (required_blocks inode)) (direct_blocks inode)) as Ho.
  { unfold owned. rewrite (file_pointers_take inode ltac:(lia) Hd), Hp, Hi. apply app_nil_r. }
  split; [done|]. split; [done|]. unfold well_pointed. rewrite Hp, Ho, (proj2 (Z.leb_le _ _)) by lia. split.
  - rewrite I1. split.
    + intros (H1 & H2 & _ & H3). split; [done|]. split; [|done]. split; [|done]. apply Forall_forall. intros b Hb. by apply H2.
    + intros (H1 & (_ & H3 & _) & H2). split; [done|]. split; [done|]. split; [by apply (fresh_nonzero s)|done].
  - intros H. destruct (E1 H) as [-> H1]. split; [|done]. rewrite (file_pointers_take inode ltac:(lia) Hd), Hp.
    rewrite fill_spec by (rewrite length_take, length_replicate; lia). rewrite take_0, drop_ge by (rewrite length_take, length_replicate; lia).
    apply app_nil_r.
Qed.

Lemma pointers_indirect n inode s s1 lb1 s2 s3 lb3 words :
  12 < required_blocks inode <= 1036 -> length (direct_blocks inode) = 12%nat -> indirect_block inode <> 0 ->
  words = get_words (block_at d (indirect_block inode)) 0 1024 ->
  check_pointer_list sb bbm n (S_ISDIR (mode inode)) 12 0 0 missing_direct beyond_direct (direct_blocks inode)
    (s, replicate (Z.to_nat (required_blocks inode)) None) = (s1, lb1) ->
  register_block_reference sb bbm (indirect_block inode) n 0 kIndirectReference false s1 = (s2, true) ->
  check_pointer_list sb bbm n (S_ISDIR (mode inode)) (required_blocks inode - 12) 12 0 missing_indirect beyond_indirect words (s2, lb1) = (s3, lb3) ->
  scanned_pointers n inode s s3 lb3.
Proof.
  intros Hr Hd Hi Hw E1 E2 E3. destruct (owned_order inode words ltac:(lia) Hd ltac:(lia) Hi Hw) as (T1 & T2 & T3).
  pose proof (pointer_list_outcome n (S_ISDIR (mode inode)) 12 0 missing_direct beyond_direct
    (direct_blocks inode) 0 s (replicate (Z.to_nat (required_blocks inode)) None) ltac:(lia)) as H1. rewrite E1 in H1. cbv zeta in H1.
  pose proof (register_outcome (indirect_block inode) n 0 kIndirectReference false s1) as H2. rewrite E2 in H2.
  pose proof (pointer_list_outcome n (S_ISDIR (mode inode)) (required_blocks inode - 12) 12 missing_indirect beyond_indirect words 0 s2 lb1 ltac:(lia)) as H3.
  rewrite E3 in H3. cbv zeta in H3. rewrite Z.sub_0_r in H1, H3. change (Z.to_nat (12 + 0)) with 12%nat in *. change (Z.to_nat (0 + 0)) with O in *.
  change (Z.to_nat 12) with 12%nat in H1. rewrite take_ge, drop_ge, length_replicate in H1 by (rewrite Hd; lia).
  destruct H1 as (S1 & L1 & I1 & F1), H2 as (S2 & I2 & F2 & _), H3 as (S3 & L3 & I3 & F3). set (used := take _ words) in *.
  split; [exact (transitivity S1 (transitivity S2 S3))|]. split; [by rewrite L3|]. split.
  - unfold well_pointed. rewrite (proj2 (Z.leb_gt (required_blocks inode) 12)), T1, T2 by lia. rewrite I3, I2, I1. split.
    + intros (((Hs & Hf1 & H0 & H1) & Hdb & Hn) & Hf2 & _ & Hz). assert (sc_issues s1 = []) as Hs1 by (by apply I1).
      assert (sc_issues s2 = []) as Hs2 by (by apply I2). destruct (F1 Hs1) as [_ (refs1 & first1 & -> & D1)]. destruct (F2 Hs2) as [_ (refs2 & first2 & -> & D2)].
      rewrite registered_registered in Hf2. unfold registered in D2. scan_fields.
      assert (fresh_blocks s ((direct_blocks inode ++ [indirect_block inode]) ++ used)) as Hall.
      { apply (fresh_app s refs2 first2); [rewrite D2, D1; apply (set_order _ [])|]. split; [|done].
        apply (fresh_app s refs1 first1); [done|]. split; [done|]. apply (fresh_cons (registered refs1 first1 s) (registered refs2 first2 s)); [by exists refs2, first2|done|done|apply fresh_nil]. }
      split; [done|]. split; [|by eapply fresh_perm]. split; [|done]. apply Forall_forall. intros b Hb. apply Hall. rewrite !elem_of_app in *. tauto.
    + intros (Hs & (Hd1 & Hz & Hdb) & Hfr). apply (fresh_perm s _ _ T3) in Hfr. pose proof Hfr as [Hnd Hall].
      assert (fresh_blocks s (direct_blocks inode)) as Hf1.
      { split; [by apply NoDup_app in Hnd as [[? _]%NoDup_app _]|]. intros b Hb. apply Hall. rewrite !elem_of_app. tauto. }
      assert (sc_issues s1 = []) as Hs1 by (apply I1; split; [done|]; split; [done|]; split; [by apply (fresh_nonzero s)|constructor]).
      destruct (F1 Hs1) as [_ (refs1 & first1 & -> & D1)]. rewrite <- app_assoc in Hfr. apply (fresh_app s refs1 first1 _ _ D1) in Hfr as [_ Hf2].
      assert (first_block_references (registered refs1 first1 s) !! indirect_block inode = None) as Hn by (apply Hf2; by left).
      assert (sc_issues s2 = []) as Hs2 by (by apply I2). destruct (F2 Hs2) as [_ (refs2 & first2 & -> & D2)].
      assert (fresh_blocks (registered refs2 first2 (registered refs1 first1 s)) used) as Hf3.
      { eapply (fresh_cons (registered refs1 first1 s)); [by exists refs2, first2|done|done|done]. }
      split; [split; [split; [done|]; split; [done|]; split; [by apply (fresh_nonzero s)|constructor]|done]|]. split; [done|]. split; [by eapply fresh_nonzero|done].
  - intros Hs3. assert (sc_issues s2 = []) as Hs2 by (by apply I3 in Hs3 as [? _]). assert (sc_issues s1 = []) as Hs1 by (by apply I2 in Hs2 as [? _]).
    destruct (F1 Hs1) as [-> (refs1 & first1 & -> & D1)]. destruct (F2 Hs2) as [_ (refs2 & first2 & -> & D2)]. destruct (F3 Hs3) as [-> (refs3 & first3 & -> & D3)].
    split; [|exists refs3, first3; split; [done|]; unfold registered in *; scan_fields; rewrite D3, D2, D1, (list_to_set_perm_L _ _ T3); apply set_order].
    rewrite (file_pointers_take inode ltac:(lia) Hd), T1. fold used.
    assert (length used = Z.to_nat (required_blocks inode - 12)) as Hu by (unfold used; rewrite length_take, Hw, length_get_words; lia).
    rewrite (fill_spec (direct_blocks inode)) by (rewrite Hd, length_replicate; lia). rewrite take_0, Hd. cbn [app plus].
    rewrite fill_spec by (rewrite length_app, length_fmap, Hd, length_drop, length_replicate; lia).
    rewrite take_app_length' by (rewrite length_fmap, Hd; lia). rewrite drop_ge by (rewrite length_app, length_fmap, Hd, length_drop, length_replicate; lia).
    by rewrite app_nil_r, fmap_app.
Qed.

Lemma scanned_dirty n inode s s' lb' : same_search s s' -> length lb' = Z.to_nat (required_blocks inode) -> sc_issues s' <> [] -> ~ well_pointed inode ->
  scanned_pointers n inode s s' lb'.
Proof. intros H1 H2 H3 H4. split; [done|]. split; [done|]. split; [|done]. split; [done|]. tauto. Qed.

(** The pointers of an inode on any image: the scan goes through, and it reports
    nothing exactly if they are as they should be. *)
Lemma scan_pointers_outcome n inode s : 0 <= required_blocks inode <= 1036 -> length (direct_blocks inode) = 12%nat ->
  exists s' lb', answer d (scan_pointers sb bbm n inode s) = Ok (s', lb') /\ scanned_pointers n inode s s' lb'.
Proof.
  intros Hr Hd. unfold scan_pointers. cbv zeta. change kDirectBlockCount with 12. set (dir := S_ISDIR (mode inode)).
  pose proof (pointer_list_outcome n dir (Z.min (required_blocks inode) 12) 0 missing_direct beyond_direct (direct_blocks inode) 0 s
    (replicate (Z.to_nat (required_blocks inode)) None) ltac:(lia)) as H1.
  destruct (check_pointer_list sb bbm n dir (Z.min (required_blocks inode) 12) 0 0 missing_direct beyond_direct (direct_blocks inode) _) as [s1 lb1] eqn:E1.
  cbv zeta in H1. rewrite length_replicate in H1. destruct H1 as (S1 & L1 & _ & _).
  assert (12 < required_blocks inode -> indirect_block inode = 0 -> ~ well_pointed inode) as Hbad1.
  { intros Hlt H0 (_ & _ & H). rewrite (proj2 (Z.leb_gt _ _)), H0 in H by done. by apply data_nonzero in H. }
  assert (required_blocks inode <= 12 -> indirect_block inode <> 0 -> ~ well_pointed inode) as Hbad2.
  { intros Hle H0 (_ & _ & H). by rewrite (proj2 (Z.leb_le _ _)) in H by done. }
  rewrite answer_if. destruct (Z.eqb_spec (indirect_block inode) 0) as [Hi|Hi].
  { eexists _, _. split; [reflexivity|]. destruct (Z.ltb_spec 12 (required_blocks inode)) as [Hlt|Hle].
    - rewrite (proj2 (Z.eqb_neq (required_blocks inode - 12) 0)) by lia. cbn [negb]. apply scanned_dirty; [done|done|apply reported|by apply Hbad1].
    - cbn [Z.eqb negb]. apply (pointers_direct n inode s s1 lb1); [lia|done|done|]. rewrite Z.min_l in E1 by lia. exact E1. }
  set (s1' := if _ =? 0 then _ else s1).
  assert (same_search s s1' /\ (required_blocks inode <= 12 -> sc_issues s1' <> [])) as [S1' Hrep].
  { unfold s1'. destruct (Z.ltb_spec 12 (required_blocks inode)) as [Hlt|Hle].
    - rewrite (proj2 (Z.eqb_neq (required_blocks inode - 12) 0)) by lia. split; [done|lia].
    - cbn [Z.eqb]. split; [done|]. intros _. apply reported. }
  pose proof (register_outcome (indirect_block inode) n 0 kIndirectReference false s1') as H2.
  destruct (register_block_reference sb bbm (indirect_block inode) n 0 kIndirectReference false s1') as [s2 valid] eqn:E2.
  destruct H2 as (S2 & I2 & F2 & V2). rewrite answer_if. destruct valid; cbn [negb].
  2: { eexists _, _. split; [reflexivity|]. apply scanned_dirty; [scan_fields; by etransitivity|done|scan_fields; intros Hs; by destruct (F2 Hs)|].
       intros (_ & _ & H). destruct (Z.leb_spec (required_blocks inode) 12); [done|]. destruct H as [H _]. by apply V2 in H. }
  pose proof (proj1 V2 eq_refl) as Hb. pose proof (vo_data _ _ Hv).
  rewrite (answer_bind_ok _ _ _ _ _ (pread_block (indirect_block inode) ltac:(lia))).
  change (Z.to_nat kIndirectEntries) with 1024%nat. set (words := get_words _ 0 1024).
  set (ri := if 12 <? required_blocks inode then _ else 0).
  pose proof (pointer_list_outcome n dir ri 12 missing_indirect beyond_indirect words 0 s2 lb1 ltac:(lia)) as H3.
  destruct (check_pointer_list sb bbm n dir ri 12 0 missing_indirect beyond_indirect words (s2, lb1)) as [s3 lb3] eqn:E3.
  exists s3, lb3. split; [reflexivity|]. cbv zeta in H3. destruct H3 as (S3 & L3 & I3 & _).
  destruct (Z.leb_spec (required_blocks inode) 12) as [Hle|Hlt].
  - apply scanned_dirty; [exact (transitivity S1' (transitivity S2 S3))|by rewrite L3| |by apply Hbad2].
    rewrite I3, I2. intros ((Hs & _) & _). by apply Hrep.
  - unfold s1', ri in *. rewrite (proj2 (Z.ltb_lt 12 _)) in * by done. rewrite (proj2 (Z.eqb_neq (required_blocks inode - 12) 0)) in * by lia.
    rewrite Z.min_r in E1 by lia. exact (pointers_indirect n inode s s1 lb1 s2 s3 lb3 words ltac:(lia) Hd Hi eq_refl E1 E2 E3).
Qed.

(** Only blocks of the data region are kept for reading. *)
Definition readable_block (o : option Z) : Prop := forall b, o = Some b -> 0 <= b < total_blocks sb.

Lemma pointer_readable n dir required logical block missing beyond s lb : Forall readable_block lb ->
  Forall readable_block (check_pointer sb bbm n dir required logical block missing beyond (s, lb)).2.
Proof.
  intros Hl. unfold check_pointer. destruct (block =? 0); [done|].
  pose proof (register_outcome block n logical kDataReference dir (if negb required then AddIssue kBlockPointerBeyondEnd n block 0 beyond s else s)) as H.
  destruct (register_block_reference _ _ _ _ _ _ _ _) as [s' valid]. destruct H as (_ & _ & _ & V). cbn [snd]. destruct required; [|done].
  destruct valid; [|done]. cbn [andb]. apply Forall_insert; [done|]. intros b [= <-]. pose proof (vo_data _ _ Hv). lia.
Qed.

Lemma pointers_readable n dir required base missing beyond ps : forall index s lb, Forall readable_block lb ->
  Forall readable_block (check_pointer_list sb bbm n dir required base index missing beyond ps (s, lb)).2.
Proof.
  induction ps as [|p ps IH]; intros index s lb Hl; cbn [check_pointer_list]; [done|].
  pose proof (pointer_readable n dir (index <? required) (base + index) p missing beyond s lb Hl) as H.
  destruct (check_pointer _ _ _ _ _ _ _ _ _ _) as [s1 lb1]. by apply IH.
Qed.

Lemma scan_pointers_readable n inode s s' lb' : answer d (scan_pointers sb bbm n inode s) = Ok (s', lb') -> Forall readable_block lb'.
Proof.
  unfold scan_pointers. cbv zeta.
  assert (Forall readable_block (replicate (Z.to_nat (required_blocks inode)) None)) as H0 by (by apply Forall_replicate).
  pose proof (pointers_readable n (S_ISDIR (mode inode)) (Z.min (required_blocks inode) kDirectBlockCount) 0 missing_direct beyond_direct
    (direct_blocks inode) 0 s _ H0) as H1. destruct (check_pointer_list _ _ _ _ _ _ _ _ _ _ _) as [s1 lb1]. cbn [snd] in H1.
  rewrite answer_if. destruct (indirect_block inode =? 0); [by intros [= <- <-]|].
  destruct (register_block_reference _ _ _ _ _ _ _ _) as [s2 valid]. rewrite answer_if. destruct (negb valid); [by intros [= <- <-]|].
  intros E. apply answer_bind_inv in E as (x & _ & E); [|apply _]. unfold answer, io_ret in E. cbn [snd] in E. apply Ok_inj in E.
  match type of E with check_pointer_list ?a ?b ?c ?e ?f ?g ?h ?i ?j ?ps (?s2, ?lb1) = _ =>
    pose proof (pointers_readable c e f g i j ps h s2 lb1 H1) as H2 end. by rewrite E in H2.
Qed.
End pointers.
