(* ===== verification/CheckerDirectories.v ===== *)
(** The directory blocks of an inode as the offline checker sees them: it finds
    nothing to report exactly if every block is tiled by records and the active
    ones have distinct names and allocated targets. *)
From S2P Require Import Prelude Codec OndiskFormat OndiskFormatProofs OndiskJournal Disk JournalImage BitmapAllocator.
From S2P Require Import ImageReader ImageReaderProofs ReaderTheorems FileMutation ConsistentImage PlanProofs.
From S2P Require Import FileMutationProofs FileSystem CheckReport CheckerGraph Checker CheckerPointers.
Open Scope Z_scope.
Open Scope io_scope.

(** The entries that were looked at, with their directories. *)
Definition seen_entries (s : scan) : list (Z * DirectoryEntry) :=
  map (fun o => (ob_parent_inode_number o, ob_entry o)) (directory_entry_observations s).

Definition names_seen (s : scan) (n : Z) : gset bytes := default ∅ (directory_active_names s !! n).

(** What the active records [es] of the directory [n] add to a scan that has
    nothing to report. *)
Record listed (root n : Z) (es : list DirectoryEntry) (s s' : scan) : Prop := {
  li_status : sc_status s' = sc_status s;
  li_root : sc_root_inode s' = sc_root_inode s;
  li_entries : sc_root_entries s' = sc_root_entries s ++ (if n =? root then es else []);
  li_edges : sc_edges s' = sc_edges s ++ map (fun e => mkEdge n (de_inode e)) es;
  li_physical : physical_scan s' = physical_scan s;
  li_queue : physical_scan_queue s' = physical_scan_queue s;
  li_attempted : attempted_inodes s' = attempted_inodes s;
  li_decoded : decoded_inodes s' = decoded_inodes s;
  li_graph : forall k, targets (directory_edges s') k = targets (directory_edges s) k ++ (if decide (k = n) then de_inode <$> es else []);
  li_complete : directory_scan_complete s' = directory_scan_complete s;
  li_names : forall k, names_seen s' k = (if decide (k = n) then list_to_set (name <$> es) else ∅) ∪ names_seen s k;
  li_seen : seen_entries s' = seen_entries s ++ map (pair n) es;
  li_first : first_block_references s' = first_block_references s;
  li_logical : inode_logical_blocks s' = inode_logical_blocks s;
  li_block_flag : sc_block_complete s' = sc_block_complete s;
  li_inode_flag : sc_inode_complete s' = sc_inode_complete s
}.

Lemma listed_nil root n s : listed root n [] s s.
Proof.
  constructor; try done; intros; try case_decide; cbn; rewrite ?(left_id_L ∅ (∪)), ?app_nil_r; try done.
  destruct (n =? root); by rewrite app_nil_r.
Qed.

Lemma listed_app root n es1 es2 s s1 s2 : listed root n es1 s s1 -> listed root n es2 s1 s2 -> listed root n (es1 ++ es2) s s2.
Proof.
  intros H1 H2. destruct H1, H2. constructor; try congruence.
  - rewrite li_entries1, li_entries0, <- app_assoc. by destruct (_ =? _).
  - rewrite li_edges1, li_edges0, <- app_assoc. by rewrite map_app.
  - intros k. rewrite li_graph1, li_graph0, <- app_assoc. case_decide; [by rewrite fmap_app|done].
  - intros k. rewrite li_names1, li_names0. case_decide; [|by rewrite !(left_id_L ∅ (∪))]. rewrite fmap_app, list_to_set_app_L, (assoc_L (∪)).
    f_equal. apply (comm_L (∪)).
  - rewrite li_seen1, li_seen0, <- app_assoc. by rewrite map_app.
Qed.

Section directories.
Context (r : ImageReader).
Abbreviation sb := (rd_superblock r).
Abbreviation ibm := (inode_bitmap_ r).
Abbreviation bbm := (block_bitmap_ r).
Abbreviation rt := (root_inode sb).

(** The rounds the queue may still take: what is queued, and every inode that is
    not queued yet. Recorded mappings hold blocks of the image only. *)
Definition within (rounds : Z) (s : scan) : Prop :=
  (forall n, n ∈ physical_scan s \/ n ∈ physical_scan_queue s -> 1 <= n <= total_inodes sb) /\
  Z.of_nat (length (physical_scan_queue s)) + total_inodes sb - Z.of_nat (size (physical_scan s)) <= rounds /\
  (forall k lb, inode_logical_blocks s !! k = Some lb -> Forall (readable_block r) lb).

Lemma within_search c s s' : same_search s s' -> within c s -> within c s'.
Proof. intros (H1 & H2 & _ & H5) (H3 & H4 & H6). unfold within. by rewrite H1, H2, H5. Qed.

Lemma enqueue_within c n s : 1 <= n <= total_inodes sb -> within c s -> within c (enqueue_physical_scan n s).
Proof.
  intros Hn (H1 & H2 & H3). unfold enqueue_physical_scan. case_bool_decide as Hin; [done|]. unfold within. scan_fields. split; [|split; [|done]].
  - intros k [[->%elem_of_singleton|Hk]%elem_of_union|[Hk| ->%list_elem_of_singleton]%elem_of_app]; try done; apply H1; [by left|by right].
  - rewrite length_app, size_union, size_singleton by set_solver. cbn [length]. lia.
Qed.

(** Every allocated inode is in the queue or has left it. *)
Definition all_queued (s : scan) : Prop :=
  forall n, 1 <= n <= total_inodes sb -> TestBit ibm (n - 1) = true -> n ∈ physical_scan s.

Definition entry_fine (s : scan) (n : Z) (e : DirectoryEntry) : Prop :=
  (name e ∉ names_seen s n) /\ de_inode e <= total_inodes sb /\ TestBit ibm (de_inode e - 1) = true.

Lemma check_entry_within n phys e s c : 1 <= de_inode e -> within c s -> within c (check_entry sb ibm n phys e s).
Proof.
  intros He Hw. unfold check_entry. cbv zeta. set (s1 := if n =? rt then _ else s). set (s2 := if bool_decide _ then _ else _).
  assert (same_search s s2) as Hs2 by (unfold s2, s1; destruct (n =? rt), (bool_decide _); by repeat split).
  destruct (Z.ltb_spec (total_inodes sb) (de_inode e)); [eapply within_search; [|exact Hw]; by destruct Hs2 as (? & ? & ? & ?)|].
  set (s3 := on_block _ _).
  assert (within c s3) as H3 by (destruct Hs2 as (A1 & A2 & _ & A4); unfold within, s3 in *; scan_fields; by rewrite A1, A2, A4).
  pose proof (enqueue_within c (de_inode e) s3 ltac:(lia) H3) as H4. destruct (negb _); [|done].
  eapply within_search; [|exact H4]. by repeat split.
Qed.

Lemma check_entry_outcome n phys e s : let s' := check_entry sb ibm n phys e s in
  (sc_issues s' = [] <-> sc_issues s = [] /\ entry_fine s n e) /\
  (sc_issues s' = [] -> 1 <= de_inode e -> all_queued s -> listed rt n [e] s s').
Proof.
  unfold check_entry, entry_fine. cbv zeta.
  set (s1 := if n =? rt then _ else s). assert (directory_active_names s1 = directory_active_names s /\ sc_issues s1 = sc_issues s) as [N1 I1]
    by (unfold s1; by destruct (n =? rt)). rewrite N1. fold (names_seen s n).
  case_bool_decide as Hname.
  { set (s2 := AddIssue kDuplicateDentryName _ _ _ _ s1). assert (sc_issues s2 <> []) as H2 by apply reported.
    assert (forall s', sc_issues s2 `prefix_of` sc_issues s' -> sc_issues s' <> []) as Hp.
    { intros s' [l E] E0. rewrite E0 in E. by destruct (sc_issues s2). }
    match goal with |- (sc_issues ?s' = [] <-> _) /\ _ => assert (sc_issues s' <> []) as Hne end.
    - apply Hp. destruct (_ <? _); scan_fields; [by eexists|]. unfold enqueue_physical_scan. destruct (bool_decide _), (negb _); scan_fields;
        try (by eexists); exists []; by rewrite app_nil_r.
    - split; [|done]. split; [done|]. tauto. }
  set (s2 := on_names _ s1). destruct (Z.ltb_spec (total_inodes sb) (de_inode e)) as [Hr|Hr].
  { split; [|by intros ?%reported]. split; [by intros ?%reported|]. lia. }
  set (s3 := on_block _ _). unfold BitmapBit. destruct (TestBit ibm (de_inode e - 1)) eqn:Eb; cbn [negb].
  2: { split; [|by intros ?%reported]. split; [by intros ?%reported|]. by intros (_ & _ & _ & ?). }
  assert (sc_issues (enqueue_physical_scan (de_inode e) s3) = sc_issues s) as HI.
  { unfold enqueue_physical_scan. destruct (bool_decide _); exact I1. }
  split; [rewrite HI; tauto|]. intros _ He Hq. assert (enqueue_physical_scan (de_inode e) s3 = s3) as ->.
  { unfold enqueue_physical_scan. rewrite bool_decide_eq_true_2; [done|]. unfold s3, s2, s1. destruct (n =? rt); scan_fields; by apply Hq. }
  unfold s3, s2, s1. constructor; try (destruct (n =? rt); scan_fields; by rewrite ?app_nil_r).
  - intros k. unfold targets. destruct (n =? rt); scan_fields; rewrite lookup_insert; destruct (decide (k = n)) as [->|]; cbn;
      rewrite ?decide_True, ?decide_False by done; cbn; by rewrite ?app_nil_r.
  - intros k. unfold names_seen. destruct (n =? rt); scan_fields; rewrite lookup_insert; destruct (decide (k = n)) as [->|]; cbn;
      rewrite ?decide_True, ?decide_False by done; cbn; by rewrite ?(right_id_L ∅ (∪)), ?(left_id_L ∅ (∪)).
  - unfold seen_entries. destruct (n =? rt); scan_fields; by rewrite map_app.
Qed.

(** Active records that are all fine. *)
Definition entries_fine (s : scan) (n : Z) (es : list DirectoryEntry) : Prop :=
  NoDup (name <$> es) /\ Forall (entry_fine s n) es.

Lemma entries_fine_cons s s1 n e es : listed rt n [e] s s1 -> entry_fine s n e -> (entries_fine s1 n es <-> entries_fine s n (e :: es)).
Proof.
  intros Hl He. unfold entries_fine, entry_fine. cbn [fmap list_fmap]. rewrite NoDup_cons, Forall_cons, !Forall_forall.
  assert (names_seen s1 n = {[name e]} ∪ names_seen s n) as ->.
  { rewrite (li_names _ _ _ _ _ Hl), decide_True by done. cbn. by rewrite (right_id_L ∅ (∪)). }
  setoid_rewrite not_elem_of_union. setoid_rewrite not_elem_of_singleton. split.
  - intros [H1 H2]. split; [split; [|done]|].
    + intros (x & E & Hx)%list_elem_of_fmap. by destruct (H2 x Hx) as ([? _] & _).
    + split; [done|]. intros x Hx. destruct (H2 x Hx) as ([_ ?] & ?). done.
  - intros [[H1 H2] [_ H3]]. split; [done|]. intros x Hx. destruct (H3 x Hx) as (? & ?). split; [|done]. split; [|done].
    intros E. apply H1. rewrite <- E. by apply list_elem_of_fmap_2.
Qed.

Lemma entries_fine_app s s1 n es1 es2 : listed rt n es1 s s1 ->
  (entries_fine s n (es1 ++ es2) <-> entries_fine s n es1 /\ entries_fine s1 n es2).
Proof.
  intros Hl. unfold entries_fine, entry_fine. rewrite fmap_app, NoDup_app, Forall_app, !Forall_forall.
  assert (names_seen s1 n = list_to_set (name <$> es1) ∪ names_seen s n) as -> by (by rewrite (li_names _ _ _ _ _ Hl), decide_True).
  setoid_rewrite not_elem_of_union. setoid_rewrite not_elem_of_list_to_set. split.
  - intros [(H1 & H2 & H3) [H4 H5]]. split; [done|]. split; [done|]. intros x Hx. destruct (H5 x Hx) as (? & ?). split; [|done]. split; [|done].
    intros Hx1. apply (H2 _ Hx1). by apply list_elem_of_fmap_2.
  - intros [[H1 H2] [H3 H4]]. split; [split; [done|]; split; [|done]|split; [done|]].
    + intros b Hb (x & -> & Hx)%list_elem_of_fmap. by destruct (H4 x Hx) as ([? _] & _).
    + intros x Hx. destruct (H4 x Hx) as ([_ ?] & ?). done.
Qed.

Lemma decoded_bytes rest e : bytes_ok rest -> DecodeDirectoryEntry rest = Ok e -> 0 <= de_inode e.
Proof.
  intros Hb E. unfold DecodeDirectoryEntry in E. cbv zeta in E. guards E; ok_inv E; cbn; [lia|]. pose proof (GetLe32_u32 rest 0 Hb). word.
Qed.

(** The records of one block: the loop goes through. *)
Lemma check_entries_outcome n phys fuel : forall rest s, (length rest <= fuel)%nat -> bytes_ok rest ->
  exists s' intact, check_entries sb ibm fuel n phys rest s = Ok (s', intact) /\ (forall c, within c s -> within c s') /\
    (sc_issues s' = [] -> sc_issues s = []) /\
    (all_queued s -> (sc_issues s' = [] <-> sc_issues s = [] /\ exists es, record_tiling rest es /\ entries_fine s n (filter active_entry es))) /\
    (all_queued s -> sc_issues s' = [] -> intact = true /\ exists es, record_tiling rest es /\ listed rt n (filter active_entry es) s s').
Proof.
  induction fuel as [|fuel IH]; intros rest s Hf Hb; cbn [check_entries]; destruct (Nat.eqb_spec (length rest) 0) as [H0|Hne].
  2: lia.
  1,2: apply length_zero_iff_nil in H0 as ->; exists s, true; split; [done|]; split; [done|]; split; [done|]; split;
    [intros _; split; [|by intros [? _]]; intros Hs; split; [done|]; exists []; split; [constructor|]; repeat constructor
    |intros _ _; split; [done|]; exists []; split; [constructor|apply listed_nil]].
  assert (rest <> []) as Hnn by (by intros ->). destruct (DecodeDirectoryEntry rest) as [e|why] eqn:Ed.
  2: { eexists _, _. split; [reflexivity|]. split; [intros c Hw; by apply (within_search c s); [repeat split|]|]. split; [by intros ?%reported|].
       split; [|by intros _ ?%reported]. intros _. split; [by intros ?%reported|]. intros (_ & es & H & _). destruct H; [done|]. by rewrite Ed in *. }
  pose proof (decoded_length rest e Ed) as Hl. rewrite (proj2 (Z.eqb_neq (record_length e) 0)) by lia. cbv zeta.
  set (rest' := drop (Z.to_nat (record_length e)) rest). assert (length rest' <= fuel)%nat as Hf' by (unfold rest'; rewrite length_drop; lia).
  assert (bytes_ok rest') as Hb' by (by apply Forall_drop). pose proof (decoded_bytes rest e Hb Ed) as Hpos.
  assert (forall P : list DirectoryEntry -> Prop,
    (exists es, record_tiling rest es /\ P es) <-> (exists es, record_tiling rest' es /\ P (e :: es))) as Hsplit.
  { intros P. split.
    - intros (es & Ht & HP). destruct (tiling_inv rest e es Hnn Ed Ht) as (es' & -> & Ht'). eauto.
    - intros (es & Ht & HP). exists (e :: es). split; [by apply tile_cons|done]. }
  setoid_rewrite Hsplit. destruct (Z.eqb_spec (de_inode e) 0) as [Hz|Hz].
  { assert (~ active_entry e) as Hi by (unfold active_entry; tauto). assert (forall es, filter active_entry (e :: es) = filter active_entry es) as Hfe by (intros; by rewrite filter_cons_False).
    setoid_rewrite Hfe. exact (IH rest' s Hf' Hb'). }
  assert (active_entry e) as Hact by done.
  assert (forall es, filter active_entry (e :: es) = e :: filter active_entry es) as Hfe by (intros; by rewrite filter_cons_True).
  setoid_rewrite Hfe. clear Hfe.
  destruct (check_entry_outcome n phys e s) as [I1 L1]. set (s1 := check_entry sb ibm n phys e s) in *.
  destruct (IH rest' s1 Hf' Hb') as (s' & intact & E & W & M & I2 & L2). exists s', intact. split; [done|].
  split; [intros c Hw; apply W, check_entry_within; [lia|done]|]. split; [intros H; by apply I1, M|]. split.
  - intros Hq. split.
    + intros Hs'. pose proof (M Hs') as Hs1. pose proof (L1 Hs1 ltac:(lia) Hq) as Hli. pose proof (proj1 I1 Hs1) as [Hs He].
      assert (all_queued s1) as Hq1 by (intros k; rewrite (li_physical _ _ _ _ _ Hli); apply Hq).
      split; [done|]. destruct (proj1 (I2 Hq1) Hs') as (_ & es & Ht & Hfine). exists es. split; [done|]. by apply (entries_fine_cons s s1 n e _ Hli He).
    + intros (Hs & es & Ht & Hfine). assert (entry_fine s n e) as He by (by destruct Hfine as [_ [? _]%Forall_cons]).
      assert (sc_issues s1 = []) as Hs1 by (by apply I1). pose proof (L1 Hs1 ltac:(lia) Hq) as Hli.
      assert (all_queued s1) as Hq1 by (intros k; rewrite (li_physical _ _ _ _ _ Hli); apply Hq).
      apply (I2 Hq1). split; [done|]. exists es. split; [done|]. by apply (entries_fine_cons s s1 n e _ Hli He).
  - intros Hq Hs'. pose proof (M Hs') as Hs1. pose proof (L1 Hs1 ltac:(lia) Hq) as Hli.
    assert (all_queued s1) as Hq1 by (intros k; rewrite (li_physical _ _ _ _ _ Hli); apply Hq).
    destruct (L2 Hq1 Hs') as [-> (es & Ht & Hls)]. split; [done|]. exists es. split; [done|]. by apply (listed_app rt n [e] _ s s1).
Qed.

Context (d : image) (Hv : view_ok r d) (Hlay : layout sb).

#[export] Instance reading_directory_blocks n lbs : forall st, Reading (check_directory_blocks sb ibm n lbs st).
Proof. induction lbs as [|[p|] lbs IH]; intros st; cbn [check_directory_blocks]; [apply _|apply _|apply IH]. Qed.

(** All blocks of a directory. *)
Lemma check_directory_blocks_outcome n lbs : Forall (readable_block r) lbs -> forall s flag,
  exists s' flag', answer d (check_directory_blocks sb ibm n lbs (s, flag)) = Ok (s', flag') /\ (forall c, within c s -> within c s') /\
    (sc_issues s' = [] -> sc_issues s = []) /\
    forall ps, lbs = Some <$> ps -> all_queued s ->
      (sc_issues s' = [] <-> sc_issues s = [] /\ exists ess, Forall2 record_tiling (block_at d <$> ps) ess /\ entries_fine s n (filter active_entry (concat ess))) /\
      (sc_issues s' = [] -> flag' = flag /\ exists ess, Forall2 record_tiling (block_at d <$> ps) ess /\ listed rt n (filter active_entry (concat ess)) s s').
Proof.
  induction lbs as [|o lbs IH]; intros Hr s flag; cbn [check_directory_blocks].
  { exists s, flag. split; [done|]. split; [done|]. split; [done|]. intros [|p ps] E Hq; [|done]. split.
    - split; [|by intros [? _]]. intros Hs. split; [done|]. exists []. split; [constructor|]. repeat constructor.
    - intros _. split; [done|]. exists []. split; [constructor|apply listed_nil]. }
  apply Forall_cons in Hr as [Ho Hr]. destruct o as [p|].
  2: { destruct (IH Hr (set_partial s) false) as (s' & flag' & E & W & M & _). exists s', flag'. cbn [fst]. split; [done|].
       split; [|split; [exact M|]]. { intros c Hw. apply W. by apply (within_search c s); [repeat split|]. } by intros [|q ps]. }
  pose proof (Ho p eq_refl) as Hp. rewrite (answer_bind_ok _ _ _ _ _ (pread_block r d Hv Hlay p Hp)).
  destruct (vo_blocks _ _ Hv p Hp) as (b & Hb & [Hbl Hbok]). assert (block_at d p = b) as Hat by (unfold block_at; by rewrite Hb). rewrite Hat.
  destruct (check_entries_outcome n p (length b) b s (le_n _) Hbok) as (s1 & intact & E1 & W1 & M1 & I1 & L1).
  rewrite answer_of_bind. cbn [fst]. rewrite E1.
  destruct (IH Hr s1 (flag && intact)) as (s' & flag' & E2 & W2 & M2 & H2). exists s', flag'. split; [exact E2|].
  split; [intros c Hw; by apply W2, W1|]. split; [intros Hs; by apply M1, M2|]. intros [|q ps] E Hq; [done|]. injection E as <- Elb.
  cbn [fmap list_fmap]. rewrite Hat. split.
  - split.
    + intros Hs'. pose proof (M2 Hs') as Hs1. destruct (L1 Hq Hs1) as [-> (es & Ht & Hli)].
      assert (all_queued s1) as Hq1 by (intros k; rewrite (li_physical _ _ _ _ _ Hli); apply Hq).
      destruct (proj1 (proj1 (H2 ps Elb Hq1)) Hs') as (_ & ess & Hts & Hfs). split; [by apply M1|]. exists (es :: ess).
      split; [by constructor|]. cbn [concat]. rewrite filter_app. apply (entries_fine_app s s1); [done|]. split; [|done].
      destruct (proj1 (I1 Hq) Hs1) as (_ & es0 & Ht0 & Hf0). by rewrite (tiling_unique _ _ _ Ht Ht0).
    + intros (Hs & ess & Hts & Hf). inversion Hts as [|? es ? ess' Ht Hts']; subst. cbn [concat] in Hf. rewrite filter_app in Hf.
      assert (entries_fine s n (filter active_entry es)) as Hf1.
      { destruct Hf as [Hnd Hall]. rewrite fmap_app in Hnd. apply NoDup_app in Hnd as (? & _). apply Forall_app in Hall as [? _]. done. }
      assert (sc_issues s1 = []) as Hs1 by (apply (I1 Hq); split; [done|]; by exists es). destruct (L1 Hq Hs1) as [-> (es0 & Ht0 & Hli)].
      rewrite (tiling_unique _ _ _ Ht0 Ht) in Hli.
      assert (all_queued s1) as Hq1 by (intros k; rewrite (li_physical _ _ _ _ _ Hli); apply Hq).
      apply (H2 ps eq_refl Hq1). split; [done|]. exists ess'. split; [done|]. by apply (entries_fine_app s s1 n _ _ Hli) in Hf as [_ ?].
  - intros Hs'. pose proof (M2 Hs') as Hs1. destruct (L1 Hq Hs1) as [-> (es & Ht & Hli)].
    assert (all_queued s1) as Hq1 by (intros k; rewrite (li_physical _ _ _ _ _ Hli); apply Hq).
    destruct (proj2 (H2 ps Elb Hq1) Hs') as [-> (ess & Hts & Hls)]. split; [by rewrite andb_true_r|]. exists (es :: ess). split; [by constructor|].
    cbn [concat]. rewrite filter_app. by apply (listed_app rt n _ _ s s1).
Qed.
End directories.
