(* ===== verification/CheckerScan.v ===== *)
(** The checker under failing system calls. As long as no system call fails with
    EUCLEAN, which the checker takes for damage of an inode, a report that comes
    about is the report of the undisturbed run, and nothing is written. *)
From S2P Require Import Prelude Codec OndiskFormat OndiskFormatProofs OndiskJournal Disk JournalImage BitmapAllocator.
From S2P Require Import RequestLedger ImageReader ImageReaderProofs ReaderTheorems LedgerStore FileMutation.
From S2P Require Import ConsistentImage PlanProofs FileMutationProofs FileSystem CheckReport CheckerGraph Checker.
From S2P Require Import CheckerPointers CheckerDirectories.
Open Scope Z_scope.
Open Scope io_scope.

Definition plain_script (script : list sysret) : Prop := SysErr EUCLEAN ∉ script.

Class Scanning {A} (m : io A) : Prop := scanning : forall e size t, plain_script (responses e) ->
  calm (m e).1 = calm e /\ plain_script (responses (m e).1) /\
  (m (mkEnv (disk e) size [] t)).1 = mkEnv (disk e) size [] t /\
  (forall a, (m e).2 = Ok a -> (m (mkEnv (disk e) size [] t)).2 = Ok a).

#[export] Instance scanning_ret {A} (a : A) : Scanning (io_ret a).
Proof. intros e size t H. done. Qed.
#[export] Instance scanning_fail {A} er : Scanning (io_fail (A:=A) er).
Proof. intros e size t H. done. Qed.
#[export] Instance scanning_of {A} (x : result errno A) : Scanning (io_of x).
Proof. destruct x; apply _. Qed.

#[export] Instance scanning_bind {A B} (m : io A) (k : A -> io B) :
  Scanning m -> (forall a, Scanning (k a)) -> Scanning (io_bind m k).
Proof.
  intros Hm Hk e size t Hp. destruct (Hm e size t Hp) as (H1 & P1 & H2 & H3). unfold io_bind.
  destruct (m e) as [e1 [a|er]]; destruct (m (mkEnv (disk e) size [] t)) as [e2 [b|er2]]; cbn [fst snd] in *; subst e2.
  - specialize (H3 a eq_refl). injection H3 as ->. destruct (Hk a e1 size t P1) as (K1 & P2 & K2 & K3).
    rewrite H1 in K1. rewrite (calm_disk _ _ H1) in K2, K3. done.
  - by specialize (H3 a eq_refl).
  - destruct (Hk b e size t Hp) as (_ & _ & K2 & _). conj_split; done.
  - done.
Qed.

#[export] Instance scanning_if {A} (b : bool) (m n : io A) : Scanning m -> Scanning n -> Scanning (if b then m else n).
Proof. by destruct b. Qed.

#[export] Instance scanning_result {E A B} (x : result E A) (k : A -> io B) (h : E -> io B) :
  (forall a, Scanning (k a)) -> (forall er, Scanning (h er)) -> Scanning (match x with Ok a => k a | Err er => h er end).
Proof. by destruct x. Qed.

#[export] Instance scanning_option {A B} (x : option A) (k : A -> io B) (h : io B) :
  (forall a, Scanning (k a)) -> Scanning h -> Scanning (match x with Some a => k a | None => h end).
Proof. by destruct x. Qed.

Lemma plain_tail x script : plain_script (x :: script) -> x <> SysErr EUCLEAN /\ plain_script script.
Proof. unfold plain_script. rewrite not_elem_of_cons. intros [? ?]. split; [congruence|done]. Qed.

Lemma pread_plain size script : forall completed rest res, plain_script script -> pread_loop size completed script = (rest, res) ->
  plain_script rest /\ res <> Err EUCLEAN.
Proof.
  induction script as [|x script IH]; intros completed rest res Hp; cbn [pread_loop]; destruct (size <=? completed); try (by intros [= <- <-]).
  apply plain_tail in Hp as [Hx Hp]. destruct x as [n|er].
  - destruct (n <=? 0); [by intros [= <- <-]|by apply IH].
  - destruct er; try (by apply IH); intros [= <- <-]; (split; [done|congruence]).
Qed.

Lemma exact_at_plain offset size e e' res : plain_script (responses e) -> ReadExactAt offset size e = (e', res) ->
  plain_script (responses e') /\ res <> Err EUCLEAN.
Proof.
  intros Hp. unfold ReadExactAt. destruct (pread_loop size 0 (responses e)) as [rest r1] eqn:E. destruct (pread_plain _ _ _ _ _ Hp E) as [H1 H2].
  destruct r1 as [[]|er]; [|intros [= <- <-]; split; [done|congruence]]. destruct (read_range _ _ _); by intros [= <- <-].
Qed.

#[export] Instance scanning_pread offset size : Scanning (CheckPreadAll offset size).
Proof.
  unfold CheckPreadAll. apply scanning_if; [apply _|]. intros e s t Hp. destruct (reading_exact_at offset size e s t) as (H1 & H2 & H3).
  destruct (ReadExactAt offset size e) as [e' res] eqn:E. destruct (exact_at_plain _ _ _ _ _ Hp E) as [P _]. done.
Qed.

Lemma pread_all_plain offset size e e' er : plain_script (responses e) -> CheckPreadAll offset size e = (e', Err er) -> er <> EUCLEAN.
Proof.
  intros Hp. unfold CheckPreadAll. destruct (_ || _); [by intros [= _ <-]|]. intros E. destruct (exact_at_plain _ _ _ _ _ Hp E) as [_ H]. congruence.
Qed.

#[export] Instance scanning_syscall : Scanning Syscall.
Proof.
  intros e s t Hp. unfold Syscall. destruct (responses e) as [|x rest] eqn:E; [cbn; by rewrite E|]. apply plain_tail in Hp as [_ Hp].
  by destruct x.
Qed.

#[export] Instance scanning_lock : Scanning lock_shared.
Proof.
  intros e s t Hp. destruct (scanning_syscall e s t Hp) as (H1 & P & H2 & H3). unfold lock_shared.
  destruct (Syscall e) as [e1 [[]|er]]; destruct (Syscall (mkEnv (disk e) s [] t)) as [e2 [[]|er2]]; cbn [fst snd] in *; subst; try done.
  by specialize (H3 tt eq_refl).
Qed.

Section scans.
Context (strerror : errno -> bytes) (sb : Superblock) (ibm bbm : bytes).

#[export] Instance scanning_pointers n inode s : Scanning (scan_pointers sb bbm n inode s).
Proof.
  unfold scan_pointers. cbv zeta. destruct (check_pointer_list _ _ _ _ _ _ _ _ _ _ _) as [s1 lb1]. apply scanning_if; [apply _|].
  destruct (register_block_reference _ _ _ _ _ _ _ _) as [s2 v]. apply scanning_if; apply _.
Qed.

#[export] Instance scanning_directory_blocks n lbs : forall st, Scanning (check_directory_blocks sb ibm n lbs st).
Proof.
  induction lbs as [|[p|] lbs IH]; intros st; cbn [check_directory_blocks]; [apply _| |apply IH].
  apply scanning_bind; [apply _|]. intros b. apply scanning_bind; [apply _|]. intros [s1 i1]. apply IH.
Qed.

#[export] Instance scanning_directory n inode s : Scanning (scan_directory_inode sb ibm n inode s).
Proof.
  unfold scan_directory_inode. cbv zeta. apply scanning_if; [apply _|]. destruct (inode_logical_blocks s !! n) as [lb|]; [|apply _].
  apply scanning_if; [apply _|]. apply scanning_bind; [apply _|]. intros [s1 c1]. apply _.
Qed.

#[export] Instance scanning_inode n s : Scanning (scan_inode strerror sb ibm bbm n s).
Proof.
  assert (forall inode, Scanning (let* (s, lb) := scan_pointers sb bbm n inode (note_inode sb ibm n inode s) in
      let s := on_logical (emplace n lb) s in
      if negb (S_ISDIR (mode inode)) then io_ret s else scan_directory_inode sb ibm n inode s)) as Hbody.
  { intros inode. apply scanning_bind; [apply _|]. intros [s1 lb]. cbv zeta. apply _. }
  intros e size t Hp. unfold scan_inode, ReadRawInode. destruct ((n =? 0) || (total_inodes sb <? n)); [done|].
  set (off := _ + _). destruct (scanning_pread off kInodeRecordSize e size t Hp) as (H1 & P1 & H2 & H3).
  destruct (CheckPreadAll off kInodeRecordSize e) as [e1 [b|er]] eqn:E1; cbn [fst snd] in *.
  - specialize (H3 b eq_refl). destruct (CheckPreadAll off kInodeRecordSize (mkEnv (disk e) size [] t)) as [e2 r2]. cbn [fst snd] in *. subst e2 r2.
    destruct (DecodeInode b n) as [inode|why].
    + destruct (Hbody inode e1 size t P1) as (K1 & K2 & K3 & K4). rewrite (calm_disk _ _ H1) in K3, K4. rewrite H1 in K1. done.
    + cbn [fst snd]. split; [done|]. split; [done|]. split; [done|]. by intros a.
  - rewrite bool_decide_eq_false_2 by exact (pread_all_plain off kInodeRecordSize e e1 er Hp E1). split; [done|]. split; [done|]. split; [|done].
    destruct (CheckPreadAll off kInodeRecordSize (mkEnv (disk e) size [] t)) as [e2 [b|er2]]; cbn [fst] in *; subst e2.
    + destruct (DecodeInode b n) as [inode|why]; [by destruct (Hbody inode e size t Hp) as (_ & _ & ? & _)|]. by destruct (bool_decide _).
    + by destruct (bool_decide _).
Qed.

#[export] Instance scanning_queue fuel : forall s, Scanning (scan_queue strerror sb ibm bbm fuel s).
Proof.
  induction fuel as [|fuel IH]; intros s; cbn [scan_queue]; destruct (physical_scan_queue s) as [|n q]; try apply _.
Qed.

#[export] Instance scanning_ledger_blocks mappings : forall logical k, Scanning (check_ledger_blocks logical mappings k).
Proof. induction mappings as [|[p|] mappings IH]; intros logical k; cbn [check_ledger_blocks]; [apply _|apply _|apply IH]. Qed.

#[export] Instance scanning_ledger s : Scanning (check_ledger sb ibm s).
Proof.
  unfold check_ledger, ledger_contents. destruct (decoded_inodes s !! _) as [inode|]; [|apply _]. cbv zeta. apply scanning_if; [apply _|].
  destruct (inode_logical_blocks s !! _) as [lb|]; apply _.
Qed.

#[export] Instance scanning_image : Scanning (check_image strerror sb ibm bbm).
Proof.
  unfold check_image. destruct (queue_inodes _ _ _) as [first|]; [|apply _]. apply scanning_bind; [apply _|]. intros s. cbv zeta.
  destruct (directory_cycles _ _ _) as [back|]; [|apply _]. destruct (reachability sb s) as [[reach c]|]; [|apply _].
  destruct (unreachable_issues _ _ _ _); apply _.
Qed.
End scans.

Lemma scanning_answer {A B} d (m : io A) (k : A -> io B) : Scanning m ->
  answer d (io_bind m k) = match answer d m with Ok a => answer d (k a) | Err er => Err er end.
Proof.
  intros Hm. destruct (Hm (mkEnv d 0 [] []) 0 [] ltac:(apply not_elem_of_nil)) as (_ & _ & H & _). cbn [disk] in H.
  unfold answer, io_bind. destruct (m (mkEnv d 0 [] [])) as [e1 [a|er]]; cbn [fst snd] in *; by subst.
Qed.

Lemma scanning_answer_ok {A B} d (m : io A) (k : A -> io B) a : Scanning m -> answer d m = Ok a -> answer d (io_bind m k) = answer d (k a).
Proof. intros Hm E. by rewrite scanning_answer, E. Qed.

(** The scan of the inodes: it always goes through, and it has nothing to report
    exactly if the inodes it visits are fine one by one and share no block. *)
(** One inode with its directory entries. *)
Record found := mkFound { fd_number : Z; fd_inode : InodeRecord; fd_entries : list DirectoryEntry }.

Section scanning.
Context (strerror : errno -> bytes) (r : ImageReader) (d : image).
Abbreviation sb := (rd_superblock r).
Abbreviation ibm := (inode_bitmap_ r).
Abbreviation bbm := (block_bitmap_ r).
Abbreviation rt := (root_inode sb).
Context (Hv : view_ok r d) (Hlay : layout sb).

Lemma raw_inode n sz t : 1 <= n <= total_inodes sb ->
  ReadRawInode strerror sb n (mkEnv d sz [] t) =
  (mkEnv d sz [] t, match DecodeInode (slot sb d n) n with Ok inode => Ok inode | Err why => Err (EUCLEAN, text why) end).
Proof.
  intros Hn. unfold ReadRawInode. rewrite (proj2 (Z.eqb_neq n 0)), (proj2 (Z.ltb_ge _ _)) by lia. cbn [orb].
  pose proof (slot_range _ Hlay d n Hn (vo_blocks _ _ Hv)) as E.
  destruct (lay_geo _ Hlay) as [(_ & _ & _ & _ & _ & [Hs Hc] & _) _ _ _ _].
  pose proof (geo_bounds _ (lay_geo _ Hlay)) as (_ & _ & _ & Hjt). pose proof (geo_count _ (lay_geo _ Hlay)).
  pose proof (lay_it_size _ Hlay). pose proof (lay_js _ Hlay).
  assert (answer d (CheckPreadAll (start_block (inode_table sb) * kBlockSize + (n - 1) * kInodeRecordSize) kInodeRecordSize) = Ok (slot sb d n)) as Ea
    by (destruct (inode_position _ Hlay n Hn) as (_ & _ & Hb); apply (pread_range r d Hlay); [..|done]; unfold js, kBlockSize, kInodeRecordSize in *; word).
  rewrite (reading_go (CheckPreadAll _ _) (mkEnv d sz [] t) _ _ eq_refl Ea). by destruct (DecodeInode _ _).
Qed.

Lemma slot_inode n inode : 1 <= n <= total_inodes sb -> DecodeInode (slot sb d n) n = Ok inode ->
  0 <= i_size inode <= kMaxFileSize /\ 0 <= required_blocks inode <= 1036 /\ length (direct_blocks inode) = 12%nat /\ IsKnownMode (mode inode) = true.
Proof.
  intros Hn E. pose proof (slot_range _ Hlay d n Hn (vo_blocks _ _ Hv)) as Er.
  destruct (read_range_wf r d Hv _ kInodeRecordSize _ ltac:(done) Er) as [Hl Hb].
  destruct (decoded_inode (slot sb d n) n inode Hl Hb E) as (Hty & Hsz & Hk & _).
  assert (0 <= i_size inode <= kMaxFileSize) as Hr by (destruct Hty as (_ & _ & _ & _ & _ & ? & _); word).
  split; [done|]. split; [apply (required_spec inode Hr)|]. split; [apply Hty|done].
Qed.

(** ** The steps of one inode *)
Lemma undecodable_issues n why s : sc_issues (undecodable sb n why s) <> [].
Proof. unfold undecodable. destruct (n =? rt); [apply reported|]. destruct (discovery_parent s !! n); apply reported. Qed.

Lemma undecodable_within n why s c : within r c s -> within r c (undecodable sb n why s).
Proof. unfold undecodable, within. destruct (n =? rt); [done|]. by destruct (discovery_parent s !! n). Qed.

Lemma note_issues n inode s : sc_issues (note_inode sb ibm n inode s) = [] <-> sc_issues s = [] /\ (n = rt -> S_ISDIR (mode inode) = true).
Proof.
  unfold note_inode. destruct (Z.eqb_spec n rt) as [->|Hn]; [|scan_fields; tauto].
  destruct (S_ISDIR (mode inode)); cbn [negb]; scan_fields; [tauto|]. split; [by intros ?%reported|]. intros [_ H]. by specialize (H eq_refl).
Qed.

Lemma note_search n inode s : same_search s (note_inode sb ibm n inode s).
Proof. unfold note_inode. destruct (n =? rt); [|by repeat split]. by destruct (negb _); repeat split. Qed.

Definition tiles_blocks (blocks : list bytes) (es : list DirectoryEntry) : Prop :=
  exists ess, Forall2 record_tiling blocks ess /\ es = filter active_entry (concat ess).

Lemma directory_inode_outcome n inode s lb : 0 <= i_size inode <= kMaxFileSize -> inode_logical_blocks s !! n = Some lb -> Forall (readable_block r) lb ->
  exists s', answer d (scan_directory_inode sb ibm n inode s) = Ok s' /\ (forall c, within r c s -> within r c s') /\
    (sc_issues s' = [] -> sc_issues s = []) /\
    forall ps, lb = Some <$> ps -> Z.of_nat (length ps) = required_blocks inode -> all_queued r s ->
      (sc_issues s' = [] <-> sc_issues s = [] /\ i_size inode mod kBlockSize = 0 /\ exists es, tiles_blocks (block_at d <$> ps) es /\ entries_fine r s n es) /\
      (sc_issues s' = [] -> exists es s0, tiles_blocks (block_at d <$> ps) es /\ listed rt n es s s0 /\ s' = on_complete (insert n true) s0).
Proof.
  intros Hsz Hl Hlb. unfold scan_directory_inode. cbv zeta. rewrite answer_if. destruct (Z.eqb_spec (i_size inode mod kBlockSize) 0) as [Hm|Hm]; cbn [negb].
  2: { eexists. split; [reflexivity|]. split; [intros c Hw; by apply (within_search r c s); [repeat split|]|]. split; [by intros ?%reported|].
       intros ps _ _ _. split; [|by intros ?%reported]. split; [by intros ?%reported|]. tauto. }
  rewrite Hl, answer_if. destruct (Z.eqb_spec (Z.of_nat (length lb)) (wrap32 (i_size inode / kBlockSize))) as [Hn|Hn]; cbn [negb].
  2: { eexists. split; [reflexivity|]. split; [intros c Hw; by apply (within_search r c s); [repeat split|]|]. split; [by intros ?%reported|].
       intros ps -> Hps _. exfalso. apply Hn. rewrite length_fmap, Hps. change kMaxFileSize with 4243456 in Hsz.
       unfold required_blocks, kBlockSize in *. rewrite wrap64_small by word. f_equal. pose proof (Z.div_mod (i_size inode) 4096 ltac:(lia)).
       symmetry. apply Z.div_unique with 4095; lia. }
  destruct (check_directory_blocks_outcome r d Hv Hlay n lb Hlb s true) as (s1 & flag & E & W & M & H).
  rewrite answer_bind, E by (apply reading_directory_blocks). eexists. split; [reflexivity|].
  split; [intros c Hw; exact (W c Hw)|]. split; [exact M|].
  intros ps Hps _ Hq. destruct (H ps Hps Hq) as [H1 H2]. scan_fields. split.
  - rewrite H1. unfold tiles_blocks. split.
    + intros (Hs & ess & Ht & Hf). split; [done|]. split; [done|]. eexists. split; [by exists ess|done].
    + intros (Hs & _ & es & (ess & Ht & ->) & Hf). split; [done|]. by exists ess.
  - intros Hs. destruct (H2 Hs) as [-> (ess & Ht & Hli)]. eexists _, s1. split; [by exists ess|]. done.
Qed.

Lemma valid_pointed inode : 0 <= i_size inode <= kMaxFileSize -> IsKnownMode (mode inode) = true -> length (direct_blocks inode) = 12%nat ->
  (inode_valid r d inode <-> well_pointed r d inode /\ (S_ISDIR (mode inode) = true -> i_size inode mod kBlockSize = 0)).
Proof.
  intros Hsz Hmode Hd. destruct (required_spec inode Hsz) as [_ Hr]. pose proof (length_pointers d inode Hd) as Hlen.
  assert (forall l, 0 <= l -> (Z.to_nat l < length (pointers d inode))%nat -> pointers d inode !! Z.to_nat l = Some (pointer d inode l)) as Hnth.
  { intros l Hl Hlt. unfold pointer. destruct (lookup_lt_is_Some_2 _ _ Hlt) as [p Hp]. rewrite Hp. f_equal. symmetry. by apply nth_lookup_Some. }
  assert (required_blocks inode <= Z.of_nat (length (pointers d inode))) as Hreq by (rewrite Hlen; destruct (Z.leb_spec (required_blocks inode) 12); lia).
  unfold well_pointed. split.
  - intros [_ _ Hw _ Hu Hz Hi]. change kDirectBlockCount with 12 in Hi. split; [split; [|split]|done].
    + apply Forall_lookup. intros i p E. apply lookup_take_Some in E as [E Hlt]. specialize (Hnth (Z.of_nat i) ltac:(lia) ltac:(rewrite Nat2Z.id; by eapply lookup_lt_Some)).
      rewrite Nat2Z.id, E in Hnth. injection Hnth as ->. apply Hu. lia.
    + apply Forall_lookup. intros i p E. rewrite lookup_drop in E.
      specialize (Hnth (required_blocks inode + Z.of_nat i) ltac:(lia)). replace (Z.to_nat (required_blocks inode + Z.of_nat i)) with (Z.to_nat (required_blocks inode) + i)%nat in Hnth by lia.
      rewrite E in Hnth. specialize (Hnth ltac:(by eapply lookup_lt_Some)). injection Hnth as ->. apply Hz. lia.
    + destruct (required_blocks inode <=? 12); [done|apply Hi].
  - intros [(Hu & Hz & Hi) Hw]. constructor; try done.
    + intros l Hl. rewrite Forall_lookup in Hu. assert (data_block r (pointer d inode l)) as Hdb.
      { apply (Hu (Z.to_nat l)). rewrite lookup_take_lt by lia. apply Hnth; lia. }
      split; [by apply (data_nonzero r d Hv)|done].
    + intros l Hl. rewrite Forall_lookup in Hz. destruct (decide (Z.to_nat l < length (pointers d inode))%nat) as [Hlt|Hge].
      * apply (Hz (Z.to_nat l - Z.to_nat (required_blocks inode))%nat). rewrite lookup_drop, <- Hnth by lia. f_equal. lia.
      * unfold pointer. apply nth_overflow. lia.
    + change kDirectBlockCount with 12. destruct (Z.leb_spec (required_blocks inode) 12); [done|]. split; [by apply (data_nonzero r d Hv)|done].
Qed.

Definition target_fine (e : DirectoryEntry) : Prop := de_inode e <= total_inodes sb /\ TestBit ibm (de_inode e - 1) = true.

(** An inode with nothing to report about it alone. *)
Record inode_fine (f : found) : Prop := {
  if_read : answer d (ReadInode r (fd_number f)) = Ok (fd_inode f);
  if_root : fd_number f = rt -> S_ISDIR (mode (fd_inode f)) = true;
  if_entries : if S_ISDIR (mode (fd_inode f))
    then tiles_blocks (file_blocks d (fd_inode f)) (fd_entries f) /\ NoDup (name <$> fd_entries f) /\ Forall target_fine (fd_entries f)
    else fd_entries f = []
}.

(** What the scan learns from it. *)
Record visited (f : found) (s s' : scan) : Prop := {
  vi_status : sc_status s' = sc_status s;
  vi_root : sc_root_inode s' = if fd_number f =? rt then Some (fd_inode f) else sc_root_inode s;
  vi_entries : sc_root_entries s' = sc_root_entries s ++ (if fd_number f =? rt then fd_entries f else []);
  vi_edges : sc_edges s' = sc_edges s ++ map (fun e => mkEdge (fd_number f) (de_inode e)) (fd_entries f);
  vi_physical : physical_scan s' = physical_scan s;
  vi_queue : physical_scan_queue s' = physical_scan_queue s;
  vi_attempted : attempted_inodes s' = attempted_inodes s;
  vi_decoded : decoded_inodes s' = <[fd_number f := fd_inode f]> (decoded_inodes s);
  vi_graph : forall k, targets (directory_edges s') k =
    targets (directory_edges s) k ++ (if decide (k = fd_number f) then de_inode <$> fd_entries f else []);
  vi_complete : directory_scan_complete s' =
    if S_ISDIR (mode (fd_inode f)) then <[fd_number f := true]> (directory_scan_complete s) else directory_scan_complete s;
  vi_names : forall k, k <> fd_number f -> names_seen s' k = names_seen s k;
  vi_seen : seen_entries s' = seen_entries s ++ map (pair (fd_number f)) (fd_entries f);
  vi_first : dom (first_block_references s') = list_to_set (owned d (fd_inode f)) ∪ dom (first_block_references s);
  vi_logical : inode_logical_blocks s' = <[fd_number f := Some <$> file_pointers d (fd_inode f)]> (inode_logical_blocks s);
  vi_flags : sc_block_complete s' = sc_block_complete s /\ sc_inode_complete s' = sc_inode_complete s
}.

Lemma scan_inode_answer n s : 1 <= n <= total_inodes sb ->
  answer d (scan_inode strerror sb ibm bbm n s) =
  match DecodeInode (slot sb d n) n with
  | Err why => Ok (undecodable sb n (text why) s)
  | Ok inode => answer d (let* (s, lb) := scan_pointers sb bbm n inode (note_inode sb ibm n inode s) in
      let s := on_logical (emplace n lb) s in
      if negb (S_ISDIR (mode inode)) then io_ret s else scan_directory_inode sb ibm n inode s)
  end.
Proof.
  intros Hn. unfold answer, scan_inode. rewrite (raw_inode n 0 [] Hn). by destruct (DecodeInode _ _).
Qed.

#[export] Instance reading_scan_pointers n inode s : Reading (scan_pointers sb bbm n inode s).
Proof.
  unfold scan_pointers. cbv zeta. destruct (check_pointer_list _ _ _ _ _ _ _ _ _ _ _) as [s1 lb1]. apply reading_if; [apply _|].
  destruct (register_block_reference _ _ _ _ _ _ _ _) as [s2 v]. apply reading_if; apply _.
Qed.

(** No step has dealt with the inode yet. *)
Record untouched_inode (n : Z) (s : scan) : Prop := {
  un_decoded : decoded_inodes s !! n = None;
  un_logical : inode_logical_blocks s !! n = None;
  un_names : names_seen s n = ∅
}.

Lemma fine_in s n es : names_seen s n = ∅ -> (entries_fine r s n es <-> NoDup (name <$> es) /\ Forall target_fine es).
Proof.
  intros Hn. unfold entries_fine, entry_fine. rewrite Hn, !Forall_forall. split; intros [H1 H2]; (split; [done|]); intros e He.
  - by destruct (H2 e He) as [_ ?].
  - split; [apply not_elem_of_empty|by apply H2].
Qed.

(** The state after the pointers of an inode without issues. *)
Lemma noted_visited n inode s refs first : untouched_inode n s -> (n = rt -> S_ISDIR (mode inode) = true) ->
  dom first = list_to_set (owned d inode) ∪ dom (first_block_references (note_inode sb ibm n inode s)) ->
  forall s0 es, let s3 := on_logical (emplace n (Some <$> file_pointers d inode)) (registered refs first (note_inode sb ibm n inode s)) in
  listed rt n es s3 s0 ->
  visited (mkFound n inode es) s (if S_ISDIR (mode inode) then on_complete (insert n true) s0 else s0).
Proof.
  intros [U1 U2 U3] Hroot Hdom s0 es s3 Hl.
  assert (first_block_references (note_inode sb ibm n inode s) = first_block_references s) as Ef
    by (unfold note_inode; destruct (n =? rt); [|done]; by destruct (negb _)).
  assert (sc_status s3 = sc_status s /\ sc_root_inode s3 = (if n =? rt then Some inode else sc_root_inode s) /\
    decoded_inodes s3 = <[n := inode]> (decoded_inodes s) /\ inode_logical_blocks s3 = <[n := Some <$> file_pointers d inode]> (inode_logical_blocks s) /\
    sc_root_entries s3 = sc_root_entries s /\ sc_edges s3 = sc_edges s /\ physical_scan s3 = physical_scan s /\
    physical_scan_queue s3 = physical_scan_queue s /\ attempted_inodes s3 = attempted_inodes s /\ directory_edges s3 = directory_edges s /\
    directory_scan_complete s3 = directory_scan_complete s /\ directory_active_names s3 = directory_active_names s /\
    directory_entry_observations s3 = directory_entry_observations s /\ first_block_references s3 = first /\
    sc_block_complete s3 = sc_block_complete s /\ sc_inode_complete s3 = sc_inode_complete s)
    as (A1 & A2 & A3 & A4 & A5 & A6 & A7 & A8 & A9 & A10 & A11 & A12 & A13 & A14 & A15 & A16).
  { unfold s3, registered, note_inode. destruct (Z.eqb_spec n rt) as [E|E].
    - rewrite (Hroot E). cbn [negb]. scan_fields. unfold emplace. rewrite U1, U2. repeat split.
    - scan_fields. unfold emplace. rewrite U1, U2. repeat split. }
  destruct Hl as [L1 L2 L3 L4 L5 L6 L7 L8 L9 L10 L11 L12 L13 L14 L15 L16].
  constructor; cbn [fd_number fd_inode fd_entries]; try (destruct (S_ISDIR (mode inode)); scan_fields; congruence).
  - intros k. rewrite <- A10, <- L9. by destruct (S_ISDIR (mode inode)).
  - intros k Hk. transitivity (names_seen s3 k); [|unfold names_seen; by rewrite A12].
    rewrite <- (left_id_L ∅ (∪) (names_seen s3 k)). specialize (L11 k). rewrite decide_False in L11 by done. rewrite <- L11.
    by destruct (S_ISDIR (mode inode)).
  - transitivity (seen_entries s0); [by destruct (S_ISDIR (mode inode))|]. rewrite L12. unfold seen_entries. by rewrite A13.
  - destruct (S_ISDIR (mode inode)); scan_fields; split; congruence.
Qed.

Section one_inode.
Context (n : Z) (s : scan) (inode : InodeRecord) (Hn : 1 <= n <= total_inodes sb) (Ed : DecodeInode (slot sb d n) n = Ok inode).
Abbreviation s1 := (note_inode sb ibm n inode s).
Context (s2 : scan) (lb : list (option Z)) (Hp : scanned_pointers r d n inode s1 s2 lb).
Abbreviation s3 := (on_logical (emplace n lb) s2).

Lemma note_first : fresh_blocks r s1 (owned d inode) <-> fresh_blocks r s (owned d inode).
Proof.
  unfold fresh_blocks. assert (first_block_references s1 = first_block_references s) as ->; [|done].
  unfold note_inode. destruct (n =? rt); [|done]. by destruct (negb _).
Qed.

Lemma fine_unique i es : inode_fine (mkFound n i es) -> i = inode.
Proof. intros [Hi _ _]. cbn in Hi. apply (read_inode_iff r d Hv Hlay) in Hi as (_ & _ & Hi & _). congruence. Qed.

Lemma read_pointed : TestBit ibm (n - 1) = true -> answer d (ReadInode r n) = Ok inode <->
  well_pointed r d inode /\ (S_ISDIR (mode inode) = true -> i_size inode mod kBlockSize = 0).
Proof.
  intros Hb. destruct (slot_inode n inode Hn Ed) as (Hsz & _ & Hd & Hk). rewrite (read_inode_iff r d Hv Hlay), <- (valid_pointed inode Hsz Hk Hd). tauto.
Qed.

(** Nothing to report up to the pointers. *)
Lemma pointers_quiet : sc_issues s2 = [] <-> sc_issues s = [] /\ (n = rt -> S_ISDIR (mode inode) = true) /\ well_pointed r d inode /\ fresh_blocks r s (owned d inode).
Proof. clear Hn Ed. destruct Hp as (_ & _ & I2 & _). rewrite I2, note_issues, note_first. tauto. Qed.

Lemma pointers_kept c : within r c s -> answer d (scan_pointers sb bbm n inode s1) = Ok (s2, lb) -> within r c s3.
Proof.
  intros Hw E2. pose proof (scan_pointers_readable r d Hv n inode s1 s2 lb E2) as Hlb. destruct Hp as (S2 & _).
  apply (within_search r c s s2 (transitivity (note_search n inode s) S2)) in Hw as (W1 & W2 & W3). split; [exact W1|]. split; [exact W2|]. scan_fields.
  intros k lb0. unfold emplace. destruct (inode_logical_blocks s2 !! n); [apply W3|]. rewrite lookup_insert. case_decide; [by intros [= <-]|apply W3].
Qed.

Lemma pointers_visited : untouched_inode n s -> sc_issues s2 = [] ->
  names_seen s3 n = ∅ /\ inode_logical_blocks s3 !! n = Some (Some <$> file_pointers d inode) /\
  forall s0 es, listed rt n es s3 s0 -> visited (mkFound n inode es) s (if S_ISDIR (mode inode) then on_complete (insert n true) s0 else s0).
Proof.
  intros Hun Hs2. pose proof (proj1 pointers_quiet Hs2) as (_ & Hroot & _). destruct Hp as (S2 & _ & _ & F2). destruct (F2 Hs2) as [-> (refs & first & -> & Hdom)].
  split; [|split].
  - rewrite <- (un_names _ _ Hun). unfold names_seen, registered, note_inode. destruct (n =? rt); [destruct (negb _)|]; done.
  - scan_fields. destruct S2 as (_ & _ & _ & ->). destruct (note_search n inode s) as (_ & _ & _ & ->). unfold emplace. rewrite (un_logical _ _ Hun).
    by rewrite lookup_insert_eq.
  - intros s0 es Hl. by apply (noted_visited n inode s refs first Hun Hroot Hdom).
Qed.

Lemma file_scanned : untouched_inode n s -> TestBit ibm (n - 1) = true -> S_ISDIR (mode inode) = false ->
  (sc_issues s3 = [] <-> sc_issues s = [] /\ exists inode es, inode_fine (mkFound n inode es) /\ fresh_blocks r s (owned d inode)) /\
  (sc_issues s3 = [] -> exists inode es, inode_fine (mkFound n inode es) /\ fresh_blocks r s (owned d inode) /\ visited (mkFound n inode es) s s3).
Proof.
  intros Hun Hb Edir. change (sc_issues s3) with (sc_issues s2). pose proof pointers_quiet as Hq.
  assert (sc_issues s2 = [] -> inode_fine (mkFound n inode [])) as Hfine.
  { intros Hs. apply Hq in Hs as (_ & Hroot & Hwp & _). constructor; cbn; [|done|by rewrite Edir]. apply read_pointed; [done|]. split; [done|congruence]. }
  split.
  - split.
    + intros Hs. pose proof (Hfine Hs). apply Hq in Hs as (Hs & _ & _ & Hf). split; [done|]. by exists inode, [].
    + intros (Hs & i & es & Hf & Hb'). pose proof (fine_unique i es Hf) as ->. destruct Hf as [F1 F2 _]. cbn in F1, F2. apply read_pointed in F1 as [F1 _]; [|done]. by apply Hq.
  - intros Hs. exists inode, []. split; [by apply Hfine|]. split; [by apply Hq in Hs as (_ & _ & _ & ?)|].
    destruct (pointers_visited Hun Hs) as (_ & _ & H). specialize (H s3 [] (listed_nil rt n _)). by rewrite Edir in H.
Qed.

Lemma directory_scanned s' : untouched_inode n s -> all_queued r s -> TestBit ibm (n - 1) = true -> S_ISDIR (mode inode) = true ->
  (sc_issues s' = [] -> sc_issues s3 = []) ->
  (sc_issues s2 = [] ->
    (sc_issues s' = [] <-> sc_issues s3 = [] /\ i_size inode mod kBlockSize = 0 /\ exists es, tiles_blocks (file_blocks d inode) es /\ entries_fine r s3 n es) /\
    (sc_issues s' = [] -> exists es s0, tiles_blocks (file_blocks d inode) es /\ listed rt n es s3 s0 /\ s' = on_complete (insert n true) s0)) ->
  (sc_issues s' = [] <-> sc_issues s = [] /\ exists inode es, inode_fine (mkFound n inode es) /\ fresh_blocks r s (owned d inode)) /\
  (sc_issues s' = [] -> exists inode es, inode_fine (mkFound n inode es) /\ fresh_blocks r s (owned d inode) /\ visited (mkFound n inode es) s s').
Proof.
  intros Hun Haq Hb Edir Hmono H. change (sc_issues s3) with (sc_issues s2) in *. pose proof pointers_quiet as Hq.
  assert (forall es es', tiles_blocks (file_blocks d inode) es -> tiles_blocks (file_blocks d inode) es' -> es = es') as Htu.
  { intros es es' (ess & T1 & ->) (ess' & T2 & ->). by rewrite (tilings_unique _ _ _ T1 T2). }
  assert (sc_issues s' = [] -> exists es, tiles_blocks (file_blocks d inode) es /\ inode_fine (mkFound n inode es)) as Hfine.
  { intros Hs. pose proof (Hmono Hs) as Hs2. destruct (H Hs2) as [H1 _]. apply H1 in Hs as (_ & Hm & es & Ht & Hf). exists es. split; [done|].
    apply Hq in Hs2 as Hs2'. destruct Hs2' as (_ & Hroot & Hwp & _). constructor; cbn; [by apply read_pointed|done|]. rewrite Edir.
    destruct (pointers_visited Hun Hs2) as (Hnm & _). by apply (fine_in _ n es Hnm) in Hf. }
  split.
  - split.
    + intros Hs. destruct (Hfine Hs) as (es & _ & Hf). apply Hmono, Hq in Hs as (Hs & _ & _ & Hfr). split; [done|]. by exists inode, es.
    + intros (Hs & i & es & Hf & Hfr). pose proof (fine_unique i es Hf) as ->. destruct Hf as [F1 F2 F3]. cbn in F1, F2, F3. rewrite Edir in F3.
      apply read_pointed in F1 as [F1 Hm]; [|done]. assert (sc_issues s2 = []) as Hs2 by (by apply Hq). apply (H Hs2). split; [done|]. split; [by apply Hm|].
      exists es. split; [apply F3|]. destruct (pointers_visited Hun Hs2) as (Hnm & _). apply (fine_in _ n es Hnm), F3.
  - intros Hs. pose proof (Hmono Hs) as Hs2. destruct (Hfine Hs) as (es & Ht & Hf). destruct (H Hs2) as [_ H2]. destruct (H2 Hs) as (es' & s0 & Ht' & Hl & ->).
    rewrite <- (Htu _ _ Ht Ht') in Hl. exists inode, es. split; [done|]. split; [by apply Hq in Hs2 as (_ & _ & _ & ?)|].
    destruct (pointers_visited Hun Hs2) as (_ & _ & Hvis). specialize (Hvis s0 es Hl). by rewrite Edir in Hvis.
Qed.
End one_inode.

(** One inode: the scan goes on after it, and it has nothing to report exactly if
    the inode is fine and its blocks are new. *)
Lemma scan_inode_outcome n s c : 1 <= n <= total_inodes sb -> within r c s ->
  exists s', answer d (scan_inode strerror sb ibm bbm n s) = Ok s' /\ within r c s' /\ (sc_issues s' = [] -> sc_issues s = []) /\
    (untouched_inode n s -> all_queued r s -> TestBit ibm (n - 1) = true ->
      (sc_issues s' = [] <-> sc_issues s = [] /\ exists inode es, inode_fine (mkFound n inode es) /\ fresh_blocks r s (owned d inode)) /\
      (sc_issues s' = [] -> exists inode es, inode_fine (mkFound n inode es) /\ fresh_blocks r s (owned d inode) /\ visited (mkFound n inode es) s s')).
Proof.
  intros Hn Hw. rewrite (scan_inode_answer n s Hn). destruct (DecodeInode (slot sb d n) n) as [inode|why] eqn:Ed.
  2: { eexists. split; [reflexivity|]. split; [by apply undecodable_within|]. split; [by intros ?%undecodable_issues|].
       intros _ _ _. split; [|by intros ?%undecodable_issues]. split; [by intros ?%undecodable_issues|]. intros (_ & inode & es & [Hr _ _] & _).
       cbn in Hr. apply (read_inode_iff r d Hv Hlay) in Hr as (_ & _ & Hr & _). congruence. }
  destruct (slot_inode n inode Hn Ed) as (Hsz & Hr & Hd & Hk).
  destruct (scan_pointers_outcome r d Hv Hlay n inode (note_inode sb ibm n inode s) Hr Hd) as (s2 & lb & E2 & Hp).
  pose proof (pointers_kept n s inode s2 lb Hp c Hw E2) as Hw3. pose proof (pointers_quiet n s inode s2 lb Hp) as Hq.
  rewrite (answer_bind_ok _ _ _ _ _ E2). cbv zeta. destruct (S_ISDIR (mode inode)) eqn:Edir; cbn [negb].
  2: { eexists. split; [reflexivity|]. split; [done|]. split; [intros Hs; by apply Hq in Hs as [? _]|].
       intros Hun _ Hb. by apply (file_scanned n s inode Hn Ed s2 lb Hp). }
  set (s3 := on_logical (emplace n lb) s2) in *. destruct (inode_logical_blocks s3 !! n) as [lb0|] eqn:Elb.
  2: { exfalso. unfold s3 in Elb. scan_fields. unfold emplace in Elb. destruct (inode_logical_blocks s2 !! n) eqn:E0; [congruence|]. by rewrite lookup_insert_eq in Elb. }
  destruct (directory_inode_outcome n inode s3 lb0 Hsz Elb (proj2 (proj2 Hw3) n lb0 Elb)) as (s' & E' & W' & M' & H').
  exists s'. split; [exact E'|]. split; [by apply W'|]. split; [intros Hs; by apply M', Hq in Hs as [? _]|].
  intros Hun Haq Hb. apply (directory_scanned n s inode Hn Ed s2 lb Hp s' Hun Haq Hb Edir M').
  intros Hs2. destruct (pointers_visited n s inode s2 lb Hp Hun Hs2) as (_ & El & _). fold s3 in El. rewrite Elb in El. injection El as ->.
  rewrite file_blocks_pointers. apply (H' (file_pointers d inode) eq_refl).
  - unfold file_pointers. rewrite length_map, length_counting. lia.
  - intros k. unfold s3. scan_fields. destruct Hp as (S2 & _). rewrite (proj1 S2), (proj1 (note_search n inode s)). apply Haq.
Qed.
End scanning.
