(* ===== verification/CheckerQueue.v ===== *)
(** The queue of the offline checker: every inode of the bitmap is visited, the
    loop ends, and a scan without issues is described by the inodes it visited. *)
From S2P Require Import Prelude Codec OndiskFormat OndiskFormatProofs OndiskJournal Disk JournalImage BitmapAllocator.
From S2P Require Import ImageReader ImageReaderProofs ReaderTheorems FileMutation ConsistentImage PlanProofs.
From S2P Require Import FileMutationProofs FileSystem CheckReport CheckerGraph Checker CheckerPointers.
From S2P Require Import CheckerDirectories CheckerScan.
Open Scope Z_scope.
Open Scope io_scope.

Section queue.
Context (strerror : errno -> bytes) (r : ImageReader) (d : image).
Abbreviation sb := (rd_superblock r).
Abbreviation ibm := (inode_bitmap_ r).
Abbreviation bbm := (block_bitmap_ r).
Abbreviation rt := (root_inode sb).
Context (Hv : view_ok r d) (Hlay : layout sb).

(** ** The inodes in the queue at the start *)
Definition queued (L : list Z) (issues : list CheckIssue) : scan :=
  on_queue (fun _ => L) (on_physical (fun _ => list_to_set L) (first_scan issues)).

Lemma enqueue_queued n L issues : enqueue_physical_scan n (queued L issues) = queued (if bool_decide (n ∈ L) then L else L ++ [n]) issues.
Proof.
  unfold enqueue_physical_scan. change (physical_scan (queued L issues)) with (list_to_set L : gset Z).
  rewrite (bool_decide_ext (n ∈ (list_to_set L : gset Z)) (n ∈ L)) by apply elem_of_list_to_set.
  case_bool_decide; [done|]. unfold queued, on_queue, on_physical. scan_fields. f_equal. rewrite list_to_set_app_L. cbn. set_solver.
Qed.

Lemma foldl_same_in {A S} (f g : S -> A -> S) l : (forall s x, x ∈ l -> f s x = g s x) -> forall s, foldl f s l = foldl g s l.
Proof.
  induction l as [|x l IH]; intros H s; cbn [foldl]; [done|]. rewrite H by by left. apply IH. intros s' y Hy. apply H. by right.
Qed.

Lemma queue_inodes_spec issues : total_inodes sb < 4294967295 -> exists L, queue_inodes sb ibm (first_scan issues) = Some (queued L issues) /\ NoDup L /\
  forall n, n ∈ L <-> n = rt \/ (1 <= n <= total_inodes sb /\ TestBit ibm (n - 1) = true).
Proof.
  assert (forall ns L, NoDup L -> exists L', foldl (fun s n => if BitmapBit ibm (n - 1) then enqueue_physical_scan n s else s) (queued L issues) ns = queued L' issues /\
    NoDup L' /\ forall n, n ∈ L' <-> n ∈ L \/ (n ∈ ns /\ TestBit ibm (n - 1) = true)) as Hfold.
  { induction ns as [|x ns IH]; intros L HL; cbn [foldl].
    - exists L. split; [done|]. split; [done|]. intros n. split; [by left|]. by intros [|[?%not_elem_of_nil _]].
    - unfold BitmapBit at 2. destruct (TestBit ibm (x - 1)) eqn:Ex.
      + rewrite enqueue_queued. destruct (IH (if bool_decide (x ∈ L) then L else L ++ [x])) as (L' & E & H1 & H2).
        { case_bool_decide; [done|]. apply NoDup_app. split; [done|]. split; [set_solver|apply NoDup_singleton]. }
        exists L'. split; [exact E|]. split; [done|]. intros n. rewrite H2, elem_of_cons. case_bool_decide as Hx; [|rewrite elem_of_app, list_elem_of_singleton];
          destruct (decide (n = x)) as [->|]; tauto.
      + destruct (IH L HL) as (L' & E & H1 & H2). exists L'. split; [exact E|]. split; [done|]. intros n. rewrite H2, elem_of_cons.
        destruct (decide (n = x)) as [->|]; [|tauto]. rewrite Ex. split; [intros [?|[_ ?]]; [by left|done]|]. intros [?|[_ ?]]; [by left|done]. }
  intros Hsmall. assert (forall s, foldl (fun s n => if BitmapBit ibm (wrap32 (n - 1)) then enqueue_physical_scan n s else s) s (seqZ 1 (total_inodes sb)) =
    foldl (fun s n => if BitmapBit ibm (n - 1) then enqueue_physical_scan n s else s) s (seqZ 1 (total_inodes sb))) as Heq.
  { intros s. apply foldl_same_in. intros s' n Hn%elem_of_seqZ. by rewrite wrap32_small by word. }
  unfold queue_inodes. rewrite for_inodes_ends by (pose proof (lay_root _ Hlay); lia). rewrite Heq. change (first_scan issues) with (queued [] issues) at 1. rewrite enqueue_queued.
  rewrite bool_decide_eq_false_2 by apply not_elem_of_nil. destruct (Hfold (seqZ 1 (total_inodes sb)) ([] ++ [rt]) (NoDup_singleton _)) as (L & E & H1 & H2).
  exists L. split; [by f_equal|]. split; [done|]. intros n. rewrite H2. cbn [app]. rewrite list_elem_of_singleton, elem_of_seqZ.
  assert (1 <= n < 1 + total_inodes sb <-> 1 <= n <= total_inodes sb) as -> by lia. done.
Qed.

(** ** What a scan without issues knows *)
Definition blocks_of (fs : list found) : list Z := concat (map (fun f => owned d (fd_inode f)) fs).
Definition entries_of (fs : list found) : list (Z * DirectoryEntry) := concat (map (fun f => map (pair (fd_number f)) (fd_entries f)) fs).

#[export] Instance blocks_of_perm : Proper ((≡ₚ) ==> (≡ₚ)) blocks_of.
Proof.
  intros fs gs H. unfold blocks_of. induction H as [|f fs gs _ IH|f g fs|fs gs hs _ IH1 _ IH2]; cbn [map concat]; [done|by rewrite IH| |by etransitivity].
  rewrite !app_assoc. by rewrite (Permutation_app_comm (owned d (fd_inode f))).
Qed.

Record scanned (fs : list found) (s : scan) : Prop := {
  sn_issues : sc_issues s = [];
  sn_status : sc_status s = kComplete;
  sn_fine : Forall (inode_fine r d) fs;
  sn_once : NoDup (fd_number <$> fs);
  sn_blocks : NoDup (blocks_of fs);
  sn_root : forall f, f ∈ fs -> fd_number f = rt -> sc_root_inode s = Some (fd_inode f);
  sn_entries : sc_root_entries s = concat (map (fun f => if fd_number f =? rt then fd_entries f else []) fs);
  sn_edges : sc_edges s = map (fun pe => mkEdge pe.1 (de_inode pe.2)) (entries_of fs);
  sn_decoded : forall n inode, decoded_inodes s !! n = Some inode <-> exists f, f ∈ fs /\ fd_number f = n /\ fd_inode f = inode;
  sn_graph : forall f, f ∈ fs -> targets (directory_edges s) (fd_number f) = de_inode <$> fd_entries f;
  sn_graph_else : forall n, n ∉ (fd_number <$> fs) -> targets (directory_edges s) n = [];
  sn_complete : forall n b, directory_scan_complete s !! n = Some b <-> b = true /\ exists f, f ∈ fs /\ fd_number f = n /\ S_ISDIR (mode (fd_inode f)) = true;
  sn_names : forall n, n ∉ (fd_number <$> fs) -> names_seen s n = ∅;
  sn_seen : seen_entries s = entries_of fs;
  sn_first : dom (first_block_references s) = list_to_set (blocks_of fs);
  sn_logical : forall n lb, inode_logical_blocks s !! n = Some lb <-> exists f, f ∈ fs /\ fd_number f = n /\ lb = Some <$> file_pointers d (fd_inode f);
  sn_flags : sc_block_complete s = true /\ sc_inode_complete s = true
}.

Lemma no_found (P : found -> Prop) : (exists f, f ∈ [] /\ P f) <-> False.
Proof. split; [|done]. by intros (f & ?%not_elem_of_nil & _). Qed.

Lemma scanned_start L : scanned [] (queued L []).
Proof.
  constructor; try done; try (by intros f ?%not_elem_of_nil); try apply NoDup_nil_2.
  - intros n inode. rewrite no_found. cbn. by rewrite lookup_empty.
  - intros n b. rewrite no_found. cbn. rewrite lookup_empty. naive_solver.
  - intros n lb. rewrite no_found. cbn. by rewrite lookup_empty.
Qed.

Lemma scanned_untouched fs s n : scanned fs s -> n ∉ (fd_number <$> fs) -> untouched_inode n s.
Proof.
  intros Hs Hn. assert (forall f, f ∈ fs -> fd_number f <> n) as Hne by (intros f Hf <-; by apply Hn, list_elem_of_fmap_2). constructor.
  - apply eq_None_not_Some. intros [i (f & Hf & E & _)%(sn_decoded _ _ Hs)]. by apply (Hne f).
  - apply eq_None_not_Some. intros [lb (f & Hf & E & _)%(sn_logical _ _ Hs)]. by apply (Hne f).
  - by apply (sn_names _ _ Hs).
Qed.

Lemma fresh_iff fs s f : scanned fs s -> inode_fine r d f -> (fresh_blocks r s (owned d (fd_inode f)) <-> NoDup (blocks_of (fs ++ [f]))).
Proof.
  intros Hs [Hr _ _]. destruct (read_inode_valid r d Hv _ _ Hr) as (Hval & _). unfold fresh_blocks, blocks_of. rewrite map_app, concat_app. cbn [map concat].
  rewrite app_nil_r. fold (blocks_of fs). assert (forall b, first_block_references s !! b = None <-> b ∉ blocks_of fs) as Hb
    by (intros b; rewrite <- not_elem_of_dom, (sn_first _ _ Hs); set_solver).
  setoid_rewrite Hb. rewrite NoDup_app. split.
  - intros [H1 H2]. split; [apply (sn_blocks _ _ Hs)|]. split; [|done]. intros b Hb1 Hb2. by apply (H2 b Hb2).
  - intros (_ & H1 & H2). split; [done|]. intros b Hb2. split; [by apply (owned_data_block r d (fd_inode f))|]. intros Hb1. by apply (H1 b).
Qed.

Lemma scanned_step fs s f s' : scanned fs s -> fd_number f ∉ (fd_number <$> fs) -> inode_fine r d f -> NoDup (blocks_of (fs ++ [f])) ->
  sc_issues s' = [] -> visited r d f s s' -> scanned (fs ++ [f]) s'.
Proof.
  intros Hs Hn Hf Hb Hi Hvis. pose proof (scanned_untouched fs s _ Hs Hn) as [U1 U2 U3].
  assert (forall g, g ∈ fs -> fd_number g <> fd_number f) as Hne by (intros g Hg E; apply Hn; rewrite <- E; by apply list_elem_of_fmap_2).
  assert (forall g, g ∈ fs ++ [f] <-> g ∈ fs \/ g = f) as Hin by (intros g; by rewrite elem_of_app, list_elem_of_singleton).
  constructor.
  - done.
  - rewrite (vi_status _ _ _ _ _ Hvis). apply Hs.
  - apply Forall_app. split; [apply Hs|by constructor].
  - rewrite fmap_app. apply NoDup_app. split; [apply Hs|]. split; [|apply NoDup_singleton]. set_solver.
  - done.
  - intros g [Hg| ->]%Hin E; rewrite (vi_root _ _ _ _ _ Hvis).
    + rewrite (proj2 (Z.eqb_neq _ _)) by (rewrite <- E; by apply not_eq_sym, Hne). by apply (sn_root _ _ Hs).
    + by rewrite (proj2 (Z.eqb_eq _ _) E).
  - rewrite (vi_entries _ _ _ _ _ Hvis), (sn_entries _ _ Hs), map_app, concat_app. cbn. by rewrite app_nil_r.
  - rewrite (vi_edges _ _ _ _ _ Hvis), (sn_edges _ _ Hs). unfold entries_of. rewrite map_app, concat_app, map_app. cbn. by rewrite app_nil_r, map_map.
  - intros n inode. rewrite (vi_decoded _ _ _ _ _ Hvis), lookup_insert_Some, (sn_decoded _ _ Hs). setoid_rewrite Hin. split.
    + intros [[<- <-]|[Hx (g & Hg & E1 & E2)]]; [exists f; auto|exists g; auto].
    + intros (g & [Hg| ->] & <- & <-); [right; split; [by apply not_eq_sym, Hne|]; by exists g|by left].
  - intros g [Hg| ->]%Hin; rewrite (vi_graph _ _ _ _ _ Hvis).
    + rewrite decide_False by (by apply Hne). by rewrite app_nil_r, (sn_graph _ _ Hs).
    + rewrite decide_True by done. by rewrite (sn_graph_else _ _ Hs).
  - intros n Hx. rewrite (vi_graph _ _ _ _ _ Hvis). rewrite fmap_app in Hx. apply not_elem_of_app in Hx as [H1 H2].
    rewrite decide_False by set_solver. by rewrite app_nil_r, (sn_graph_else _ _ Hs).
  - intros n b. rewrite (vi_complete _ _ _ _ _ Hvis). setoid_rewrite Hin. destruct (S_ISDIR (mode (fd_inode f))) eqn:Ed.
    + rewrite lookup_insert_Some, (sn_complete _ _ Hs). split.
      * intros [[<- <-]|[Hx (-> & g & Hg & E)]]; (split; [done|]); [exists f; auto|exists g; tauto].
      * intros (-> & g & [Hg| ->] & E1 & E2); [right; split; [rewrite <- E1; by apply not_eq_sym, Hne|]; split; [done|]; by exists g|by left].
    + rewrite (sn_complete _ _ Hs). split; intros (-> & g & Hg & E1 & E2); (split; [done|]); exists g; [tauto|].
      destruct Hg as [Hg| ->]; [done|congruence].
  - intros n Hx. rewrite fmap_app in Hx. apply not_elem_of_app in Hx as [H1 H2]. rewrite (vi_names _ _ _ _ _ Hvis) by set_solver. by apply Hs.
  - rewrite (vi_seen _ _ _ _ _ Hvis), (sn_seen _ _ Hs). unfold entries_of. rewrite map_app, concat_app. cbn. by rewrite app_nil_r.
  - rewrite (vi_first _ _ _ _ _ Hvis), (sn_first _ _ Hs). unfold blocks_of. rewrite map_app, concat_app, list_to_set_app_L. cbn. rewrite app_nil_r. apply (comm_L (∪)).
  - intros n lb. rewrite (vi_logical _ _ _ _ _ Hvis), lookup_insert_Some, (sn_logical _ _ Hs). setoid_rewrite Hin. split.
    + intros [[<- <-]|[Hx (g & Hg & E1 & E2)]]; [exists f; auto|exists g; auto].
    + intros (g & [Hg| ->] & <- & ->); [right; split; [by apply not_eq_sym, Hne|]; by exists g|by left].
  - destruct (vi_flags _ _ _ _ _ Hvis) as [-> ->]. apply Hs.
Qed.

(** ** The loop *)
Lemma physical_bound s c : within r c s -> Z.of_nat (size (physical_scan s)) <= total_inodes sb.
Proof.
  intros (H & _). pose proof (lay_root _ Hlay).
  assert (size (physical_scan s) <= length (seqZ 1 (total_inodes sb)))%nat as Hle; [|rewrite length_seqZ in Hle; lia].
  rewrite <- (size_list_to_set (C:=gset Z) (seqZ 1 (total_inodes sb))) by apply NoDup_seqZ.
  apply subseteq_size. intros n Hn. apply elem_of_list_to_set, elem_of_seqZ. specialize (H n (or_introl Hn)). lia.
Qed.

Definition popped (n : Z) (q : list Z) (s : scan) : scan := on_attempted (fun a => {[n]} ∪ a) (on_queue (fun _ => q) s).

Lemma within_popped fuel n q s : physical_scan_queue s = n :: q -> within r (Z.of_nat (S fuel)) s ->
  1 <= n <= total_inodes sb /\ within r (Z.of_nat fuel) (on_queue (fun _ => q) s) /\ within r (Z.of_nat fuel) (popped n q s).
Proof.
  intros Eq (H1 & H2 & H3). rewrite Eq in *. cbn [length] in H2. split; [apply H1; right; by left|].
  unfold within, popped. scan_fields. split; (split; [|split; [lia|done]]); intros k [Hk|Hk]; apply H1; [by left|right; by right|by left|right; by right].
Qed.

Lemma queue_not_empty s n q : physical_scan_queue s = n :: q -> ~ within r (Z.of_nat 0) s.
Proof. intros Eq Hw. pose proof (physical_bound s _ Hw) as Hb. destruct Hw as (_ & Hl & _). rewrite Eq in Hl. cbn [length] in Hl. lia. Qed.

(** The recorded mappings hold blocks of the image only. *)
Definition readable_maps (s : scan) : Prop := forall k lb, inode_logical_blocks s !! k = Some lb -> Forall (readable_block r) lb.

Lemma queue_ends fuel : forall s, within r (Z.of_nat fuel) s ->
  exists s', answer d (scan_queue strerror sb ibm bbm fuel s) = Ok s' /\ (sc_issues s' = [] -> sc_issues s = []) /\ readable_maps s'.
Proof.
  induction fuel as [|fuel IH]; intros s Hw; cbn [scan_queue]; destruct (physical_scan_queue s) as [|n q] eqn:Eq; try (exists s; split; [done|]; split; [done|exact (proj2 (proj2 Hw))]).
  { by apply queue_not_empty with (n := n) (q := q) in Hw. }
  destruct (within_popped fuel n q s Eq Hw) as (Hn & Hw1 & Hw2). cbv zeta. rewrite answer_if. case_bool_decide.
  - destruct (IH _ Hw1) as (s' & E & H'). by exists s'.
  - destruct (scan_inode_outcome strerror r d Hv Hlay n (popped n q s) _ Hn Hw2) as (s1 & E1 & W1 & M1 & _).
    destruct (IH s1 W1) as (s' & E & H' & Hm). exists s'. split; [|split; [intros Hs; by apply M1, H'|done]].
    etransitivity; [exact (scanning_answer_ok d _ _ s1 _ E1)|exact E].
Qed.

(** What the loop finds when it has reported nothing so far. *)
Record waiting (fs : list found) (L : list Z) (s : scan) : Prop := {
  wt_scanned : scanned fs s;
  wt_queue : physical_scan_queue s = L;
  wt_once : NoDup ((fd_number <$> fs) ++ L);
  wt_attempted : attempted_inodes s = list_to_set (fd_number <$> fs);
  wt_all : all_queued r s;
  wt_allocated : forall n, n ∈ L -> TestBit ibm (n - 1) = true
}.

Lemma waiting_next fs n q s f s' : waiting fs (n :: q) s -> fd_number f = n -> inode_fine r d f -> NoDup (blocks_of (fs ++ [f])) ->
  sc_issues s' = [] -> visited r d f (popped n q s) s' -> waiting (fs ++ [f]) q s'.
Proof.
  intros [Hs Hq Ho Ha Hall Hal] <- Hf Hb Hi Hvis. apply NoDup_app in Ho as Ho'. destruct Ho' as (_ & Hn & _).
  constructor.
  - apply (scanned_step fs (popped (fd_number f) q s)); try done; [by destruct Hs|]. intros Hin. apply (Hn _ Hin). by left.
  - by rewrite (vi_queue _ _ _ _ _ Hvis).
  - rewrite fmap_app, <- app_assoc. exact Ho.
  - rewrite (vi_attempted _ _ _ _ _ Hvis), fmap_app, list_to_set_app_L. cbn. rewrite Ha, (right_id_L ∅ (∪)). apply (comm_L (∪)).
  - intros k. rewrite (vi_physical _ _ _ _ _ Hvis). apply Hall.
  - intros k Hk. apply Hal. by right.
Qed.

Lemma fine_number f f' : inode_fine r d f -> inode_fine r d f' -> fd_number f = fd_number f' -> f = f'.
Proof.
  destruct f as [n i es], f' as [n' i' es']. intros [R1 _ E1] [R2 _ E2] Hn. cbn in *. subst n'. rewrite R1 in R2. apply Ok_inj in R2 as <-.
  f_equal. destruct (S_ISDIR (mode i)); [|congruence]. destruct E1 as ((ess & T1 & ->) & _), E2 as ((ess' & T2 & ->) & _).
  by rewrite (tilings_unique _ _ _ T1 T2).
Qed.

Lemma queue_outcome fuel : forall fs L s, waiting fs L s -> within r (Z.of_nat fuel) s ->
  exists s', answer d (scan_queue strerror sb ibm bbm fuel s) = Ok s' /\
    (sc_issues s' = [] <-> exists gs, fd_number <$> gs = L /\ Forall (inode_fine r d) gs /\ NoDup (blocks_of (fs ++ gs))) /\
    (sc_issues s' = [] -> exists gs, fd_number <$> gs = L /\ scanned (fs ++ gs) s').
Proof.
  induction fuel as [|fuel IH]; intros fs L s Hw Hr; pose proof Hw as [Hs Hq Ho Ha Hall Hal]; cbn [scan_queue]; rewrite Hq; destruct L as [|n q].
  1, 3: exists s; split; [done|]; split; [|intros _; exists []; by rewrite app_nil_r];
    split; [intros _; exists []; rewrite app_nil_r; split; [done|]; split; [constructor|apply Hs]|intros _; apply Hs].
  { exfalso. by eapply queue_not_empty. }
  destruct (within_popped fuel n q s Hq Hr) as (Hn & _ & Hr'). cbv zeta. apply NoDup_app in Ho as Ho'. destruct Ho' as (_ & Hnot & _).
  assert (n ∉ (fd_number <$> fs)) as Hnew by (intros Hin; apply (Hnot _ Hin); by left).
  rewrite answer_if, bool_decide_eq_false_2 by (change (attempted_inodes (on_queue (fun _ => q) s)) with (attempted_inodes s); rewrite Ha; by rewrite elem_of_list_to_set).
  destruct (scan_inode_outcome strerror r d Hv Hlay n (popped n q s) _ Hn Hr') as (s1 & E1 & W1 & M1 & H1).
  assert (scanned fs (popped n q s)) as Hp by (by destruct Hs).
  destruct (H1 (scanned_untouched _ _ _ Hp Hnew) ltac:(exact Hall) (Hal n ltac:(by left))) as [H2 H3]. clear H1.
  destruct (decide (sc_issues s1 = [])) as [Hi|Hi].
  - destruct (H3 Hi) as (inode & es & Hf & Hfr & Hvis). set (f := mkFound n inode es) in *. apply (fresh_iff fs _ f Hp Hf) in Hfr as Hb.
    pose proof (waiting_next fs n q s f s1 Hw eq_refl Hf Hb Hi Hvis) as Hw1. destruct (IH _ _ _ Hw1 W1) as (s' & E & K1 & K2).
    exists s'. split; [etransitivity; [exact (scanning_answer_ok d _ _ s1 _ E1)|exact E]|]. split.
    + rewrite K1. split; [intros (gs & <- & G1 & G2)|intros (gs & G0 & G1 & G2)].
      * exists (f :: gs). split; [done|]. split; [by constructor|]. by rewrite <- app_assoc in G2.
      * destruct gs as [|g gs]; [done|]. cbn in G0. injection G0 as G0 <-. apply Forall_cons in G1 as [Hg G1]. exists gs.
        rewrite (fine_number g f Hg Hf G0) in G2. split; [done|]. split; [done|]. by rewrite <- app_assoc.
    + intros Hs'. destruct (K2 Hs') as (gs & <- & G). exists (f :: gs). split; [done|]. by rewrite <- app_assoc in G.
  - destruct (queue_ends fuel s1 W1) as (s' & E & K & _). exists s'. split; [etransitivity; [exact (scanning_answer_ok d _ _ s1 _ E1)|exact E]|].
    split; [|intros Hs'; by apply K in Hs']. split; [intros Hs'; by apply K in Hs'|]. intros (gs & G0 & G1 & G2). exfalso. apply Hi, H2.
    split; [apply Hp|]. destruct gs as [|g gs]; [done|]. cbn in G0. injection G0 as G0 <-. apply Forall_cons in G1 as [Hg _].
    exists (fd_inode g), (fd_entries g). assert (inode_fine r d (mkFound n (fd_inode g) (fd_entries g))) as Hf by (rewrite <- G0; by destruct g).
    split; [done|]. apply (fresh_iff fs _ (mkFound n (fd_inode g) (fd_entries g)) Hp Hf). revert G2. unfold blocks_of. rewrite !map_app, !concat_app. cbn [map concat].
    rewrite app_nil_r, !NoDup_app. intros (A1 & A2 & A3 & _). split; [done|]. split; [|done]. intros b Hb Hb'. apply (A2 b Hb). apply elem_of_app. by left.
Qed.

(** The allocated inodes, each of them once. *)
Definition allocated (n : Z) : Prop := 1 <= n <= total_inodes sb /\ TestBit ibm (n - 1) = true.
Definition covers (fs : list found) : Prop :=
  NoDup (fd_number <$> fs) /\ (forall n, n ∈ (fd_number <$> fs) <-> allocated n) /\ Forall (inode_fine r d) fs /\ NoDup (blocks_of fs).

(** The whole scan. *)
Lemma scan_outcome bi : total_inodes sb < 4294967295 -> (bi = [] -> TestBit ibm (rt - 1) = true) ->
  exists first s, queue_inodes sb ibm (first_scan bi) = Some first /\ answer d (scan_queue strerror sb ibm bbm (Z.to_nat (total_inodes sb)) first) = Ok s /\
    readable_maps s /\ (sc_issues s = [] <-> bi = [] /\ exists fs, covers fs) /\ (sc_issues s = [] -> exists fs, covers fs /\ scanned fs s).
Proof.
  intros Hsmall Hroot. destruct (queue_inodes_spec bi Hsmall) as (L & EL & Hnd & HL). exists (queued L bi). pose proof (lay_root _ Hlay) as Hrt.
  assert (within r (Z.of_nat (Z.to_nat (total_inodes sb))) (queued L bi)) as Hw.
  { unfold within, queued. scan_fields. split; [|split].
    - intros n [Hn%elem_of_list_to_set|Hn]; apply HL in Hn; destruct Hn as [->|[]]; done.
    - rewrite (size_list_to_set (C:=gset Z)) by done. lia.
    - intros k lb E. exfalso. revert E. cbn. by rewrite lookup_empty. }
  destruct bi as [|x bi].
  2: { destruct (queue_ends _ _ Hw) as (s & E & H & Hm). exists s. split; [exact EL|]. split; [exact E|]. split; [done|]. split; [|intros Hs; by apply H in Hs].
       split; [intros Hs; by apply H in Hs|by intros [? _]]. }
  specialize (Hroot eq_refl). assert (forall n, n ∈ L <-> allocated n) as HL'.
  { intros n. rewrite HL. unfold allocated. split; [intros [->|?]; done|by right]. }
  assert (waiting [] L (queued L [])) as Hwt.
  { constructor; [apply scanned_start|done|done|done| |intros n Hn; by apply HL'].
    intros n H1 H2. unfold queued. scan_fields. apply elem_of_list_to_set, HL'. done. }
  destruct (queue_outcome _ [] L _ Hwt Hw) as (s & E & H1 & H2). exists s. split; [exact EL|]. split; [exact E|].
  split; [destruct (queue_ends _ _ Hw) as (s0 & E0 & _ & Hm); rewrite E in E0; by apply Ok_inj in E0 as <-|]. split.
  - rewrite H1. split.
    + intros (gs & <- & G1 & G2). split; [done|]. exists gs. done.
    + intros (_ & fs & F1 & F2 & F3 & F4). assert (L ≡ₚ (fd_number <$> fs)) as Hp by (apply NoDup_Permutation; [done|done|]; intros n; by rewrite HL', F2).
      apply Permutation_map_inv in Hp as (gs & -> & Hp). exists gs. split; [done|].
      split; [by rewrite <- Hp|]. cbn [app]. by rewrite <- Hp.
  - intros Hs. destruct (H2 Hs) as (gs & <- & G). exists gs. split; [|done]. destruct G. done.
Qed.
End queue.
