(* ===== verification/CheckerConclusions.v ===== *)
(** What the offline checker concludes from a scan without issues: each of its
    later checks is silent exactly if the property it looks for holds. *)
From stdpp Require Import relations.
From S2P Require Import Prelude Codec OndiskFormat OndiskFormatProofs OndiskJournal Disk JournalImage BitmapAllocator.
From S2P Require Import ImageReader ImageReaderProofs ReaderTheorems FileMutation ConsistentImage PlanProofs.
From S2P Require Import FileMutationProofs FileSystem CheckReport CheckerGraph Checker CheckerPointers.
From S2P Require Import CheckerDirectories CheckerScan CheckerQueue.
Open Scope Z_scope.
Open Scope io_scope.

(** * Counting *)
Definition times (n : Z) (l : list Z) : nat := length (filter (fun x => x = n) l).

Lemma times_cons n x l : times n (x :: l) = ((if decide (x = n) then 1 else 0) + times n l)%nat.
Proof. unfold times. rewrite filter_cons. by case_decide. Qed.

Lemma times_pos n l : (1 <= times n l)%nat <-> n ∈ l.
Proof.
  induction l as [|x l IH]; [cbn; set_solver by lia|]. rewrite times_cons, elem_of_cons. case_decide as E.
  - split; [by left|lia].
  - rewrite <- IH. cbn. split; [by right|]. intros [?|?]; [congruence|done].
Qed.

Lemma times_once l : NoDup l <-> forall n, (times n l <= 1)%nat.
Proof.
  induction l as [|x l IH]; [split; [intros _ n; cbn; lia|constructor]|]. rewrite NoDup_cons, IH. setoid_rewrite times_cons. split.
  - intros [Hx Hl] n. specialize (Hl n). case_decide as E; [|lia]. subst n. rewrite <- times_pos in Hx. lia.
  - intros H. split; [|intros n; specialize (H n); lia]. rewrite <- times_pos. specialize (H x). rewrite decide_True in H by done. lia.
Qed.

Lemma map_nil {A B} (f : A -> B) l : map f l = [] <-> l = [].
Proof. by destruct l. Qed.

Lemma filter_none {A} (P : A -> Prop) {Pd : forall x, Decision (P x)} l : filter P l = [] <-> forall x, x ∈ l -> ~ P x.
Proof.
  split.
  - intros E x Hx Hp. apply (not_elem_of_nil x). rewrite <- E. by apply list_elem_of_filter.
  - intros H. apply elem_of_nil_inv. intros x [Hp Hx]%list_elem_of_filter. by apply (H x).
Qed.

Lemma concat_map_nil {A B} (f : A -> list B) l : concat (map f l) = [] <-> forall x, x ∈ l -> f x = [].
Proof.
  induction l as [|x l IH]; [split; [intros _ x Hx; by apply elem_of_nil in Hx|done]|]. cbn [map concat]. split.
  - intros [E1 E2]%app_nil y [->|Hy]%elem_of_cons; [done|]. by apply IH.
  - intros H. rewrite (H x) by left. apply IH. intros y Hy. apply H. by right.
Qed.

Lemma count_up_spec n m k : default 0 (count_up n m !! k) = default 0 (m !! k) + (if decide (n = k) then 1 else 0).
Proof. unfold count_up. rewrite lookup_insert. case_decide; [by subst|lia]. Qed.

(** * The loop over the entries *)
Definition child_dirs (s : scan) (n : Z) (l : list (Z * DirectoryEntry)) : nat :=
  length (filter (fun pe => pe.1 = n /\ is_decoded_directory s (de_inode pe.2) = true) l).

Lemma count_links_fold sb s obs : Forall (fun o => is_Some (decoded_inodes s !! de_inode (ob_entry o))) obs -> forall c,
  let c' := foldl (count_entry sb s) c obs in let l := map (fun o => (ob_parent_inode_number o, ob_entry o)) obs in
  (forall n, default 0 (lc_references c' !! n) = default 0 (lc_references c !! n) + Z.of_nat (times n (map (fun pe => de_inode pe.2) l))) /\
  (forall n, default 0 (lc_children c' !! n) = default 0 (lc_children c !! n) + Z.of_nat (child_dirs s n l)) /\
  lc_complete c' = lc_complete c /\
  (lc_issues c' = [] <-> lc_issues c = [] /\ forall pe, pe ∈ l -> de_inode pe.2 <> root_inode sb).
Proof.
  intros Hobs. induction Hobs as [|o obs [child Hch] _ IH]; intros c; cbv zeta; cbn [foldl map].
  { split; [intros n; cbn; lia|]. split; [intros n; cbn; lia|]. split; [done|]. split; [|by intros [? _]]. intros H. split; [done|]. by intros pe ?%not_elem_of_nil. }
  destruct (IH (count_entry sb s c o)) as (H1 & H2 & H3 & H4). unfold count_entry in *. rewrite Hch in *. cbn [lc_references lc_children lc_complete lc_issues] in *.
  split; [|split; [|split]].
  - intros n. rewrite H1, count_up_spec, times_cons. cbn [snd]. case_decide; lia.
  - intros n. rewrite H2. unfold child_dirs. rewrite filter_cons. cbn [fst snd].
    assert (is_decoded_directory s (de_inode (ob_entry o)) = S_ISDIR (mode child)) as -> by (unfold is_decoded_directory; by rewrite Hch).
    destruct (S_ISDIR (mode child)).
    + rewrite count_up_spec. case_decide as E1; [rewrite decide_True by done|rewrite decide_False by tauto]; cbn [length]; lia.
    + rewrite decide_False by (by intros [_ ?]). lia.
  - done.
  - rewrite H4, app_nil. setoid_rewrite elem_of_cons. destruct (Z.eqb_spec (de_inode (ob_entry o)) (root_inode sb)) as [E|E].
    + split; [by intros [[_ ?] _]|]. intros [_ H]. exfalso. by apply (H _ (or_introl eq_refl)).
    + split; [intros [[H _] Hl]|intros [H Hl]; split; [done|]]; [split; [done|]; intros pe [->|Hp]; [done|by apply Hl]|]. intros pe Hp. apply Hl. by right.
Qed.

Section conclusions.
Context (r : ImageReader) (d : image).
Abbreviation sb := (rd_superblock r).
Abbreviation ibm := (inode_bitmap_ r).
Abbreviation bbm := (block_bitmap_ r).
Abbreviation rt := (root_inode sb).
Context (Hv : view_ok r d) (Hlay : layout sb) (fs : list found) (s : scan) (Hc : covers r d fs) (Hs : scanned r d fs s).

Lemma found_of n : allocated r n -> exists f, f ∈ fs /\ fd_number f = n.
Proof. intros Hn. destruct Hc as (_ & Hall & _). apply Hall, list_elem_of_fmap in Hn as (f & -> & Hf). by exists f. Qed.

Lemma found_fine f : f ∈ fs -> inode_fine r d f.
Proof. intros Hf. destruct Hc as (_ & _ & H & _). rewrite Forall_forall in H. by apply H. Qed.

Lemma found_unique f g : f ∈ fs -> g ∈ fs -> fd_number f = fd_number g -> f = g.
Proof. intros Hf Hg. apply (fine_number r d); by apply found_fine. Qed.

Lemma found_decoded f : f ∈ fs -> decoded_inodes s !! fd_number f = Some (fd_inode f).
Proof. intros Hf. apply (sn_decoded _ _ _ _ Hs). by exists f. Qed.

Lemma found_directory f : f ∈ fs -> is_decoded_directory s (fd_number f) = S_ISDIR (mode (fd_inode f)).
Proof. intros Hf. unfold is_decoded_directory. by rewrite (found_decoded f Hf). Qed.

Lemma tiling_positive b es : bytes_ok b -> record_tiling b es -> Forall (fun e => 1 <= de_inode e) (filter active_entry es).
Proof.
  intros Hb H. induction H as [|rest e es _ E _ IH]; [constructor|]. pose proof (decoded_bytes rest e Hb E).
  assert (bytes_ok (drop (Z.to_nat (record_length e)) rest)) as Hd by (by apply Forall_drop). rewrite filter_cons. case_decide as Ha; [|by apply IH].
  constructor; [unfold active_entry in Ha; lia|by apply IH].
Qed.

Lemma entries_in p e : (p, e) ∈ entries_of fs <-> exists f, f ∈ fs /\ fd_number f = p /\ e ∈ fd_entries f.
Proof.
  unfold entries_of. rewrite list_elem_of_In, in_concat. setoid_rewrite in_map_iff. split.
  - intros (l & (f & <- & Hf) & (e' & [= <- <-] & He)%in_map_iff). exists f. by rewrite !list_elem_of_In.
  - intros (f & Hf & <- & He). eexists. rewrite !list_elem_of_In in *. split; [by exists f|]. apply in_map_iff. by exists e.
Qed.

Lemma entry_target f e : f ∈ fs -> e ∈ fd_entries f -> S_ISDIR (mode (fd_inode f)) = true /\ exists g, g ∈ fs /\ fd_number g = de_inode e.
Proof.
  intros Hf He. pose proof (found_fine f Hf) as [Hr _ Hd]. destruct (S_ISDIR (mode (fd_inode f))) eqn:Ed; [|rewrite Hd in He; by apply elem_of_nil in He].
  split; [done|]. destruct Hd as ((ess & Ht & Hes) & _ & Htf). rewrite Forall_forall in Htf. destruct (Htf e He) as [Hle Hbit]. apply found_of. split; [|done].
  destruct (read_inode_valid r d Hv _ _ Hr) as (Hval & _). assert (Forall (fun e => 1 <= de_inode e) (fd_entries f)) as Hpos; [|rewrite Forall_forall in Hpos; by specialize (Hpos e He)].
  rewrite Hes. clear -Ht Hv Hval. assert (Forall bytes_ok (file_blocks d (fd_inode f))) as Hb.
  { apply Forall_forall. intros b (l & -> & _)%list_elem_of_fmap. unfold block_at. destruct (d !! _) as [b|] eqn:E; [|constructor]. by apply (vo_wf _ _ Hv _ _ E). }
  induction Ht as [|b es bs ess Hb1 _ IH]; [constructor|]. apply Forall_cons in Hb as [H1 H2]. cbn [concat]. rewrite filter_app. apply Forall_app.
  split; [by apply (tiling_positive b)|by apply IH].
Qed.

(** ** Blocks *)
Lemma unreferenced_quiet : unreferenced_issues sb bbm s = [] <-> forall b, data_block r b -> exists f, f ∈ fs /\ b ∈ owned d (fd_inode f).
Proof.
  unfold unreferenced_issues, unreferenced_blocks. destruct (sn_flags _ _ _ _ Hs) as [-> _]. rewrite map_nil, filter_none. unfold data_block.
  assert (forall b, is_Some (first_block_references s !! b) <-> exists f, f ∈ fs /\ b ∈ owned d (fd_inode f)) as Hfirst.
  { intros b. rewrite <- elem_of_dom, (sn_first _ _ _ _ Hs), elem_of_list_to_set. unfold blocks_of. rewrite list_elem_of_In, in_concat. split.
    - intros (l & (f & <- & Hf)%in_map_iff & Hb). exists f. by rewrite !list_elem_of_In.
    - intros (f & Hf & Hb). exists (owned d (fd_inode f)). split; [apply in_map_iff; exists f; split; [done|]|]; by apply list_elem_of_In. }
  setoid_rewrite elem_of_seqZ. setoid_rewrite <- Hfirst. unfold BitmapBit. split.
  - intros H b [Hb1 Hb2]. destruct (decide (is_Some (first_block_references s !! b))) as [?|Hn]; [done|]. exfalso.
    apply (H b); [lia|]. by rewrite Hb2, bool_decide_eq_false_2.
  - intros H b Hb. destruct (TestBit bbm b) eqn:Eb; [|by intros []]. rewrite bool_decide_eq_true_2; [by intros []|]. apply H. split; [lia|done].
Qed.

(** ** Link counts *)
Definition all_targets : list Z := map (fun pe => de_inode pe.2) (entries_of fs).
Abbreviation refs f := (times (fd_number f) all_targets).
Definition child_directories (f : found) : nat := length (filter (fun e => is_decoded_directory s (de_inode e) = true) (fd_entries f)).

Lemma observed o : o ∈ directory_entry_observations s -> (ob_parent_inode_number o, ob_entry o) ∈ entries_of fs.
Proof. intros Ho. rewrite <- (sn_seen _ _ _ _ Hs). by apply (list_elem_of_fmap_2 (fun o => (ob_parent_inode_number o, ob_entry o))). Qed.

Lemma child_dirs_of f : f ∈ fs -> child_dirs s (fd_number f) (entries_of fs) = child_directories f.
Proof.
  intros Hf. assert (NoDup (fd_number <$> fs)) as Hnd by apply Hc. clear Hc Hs. unfold child_dirs, child_directories, entries_of.
  induction fs as [|g l IH]; [by apply elem_of_nil in Hf|]. cbn [map concat fmap list_fmap] in *. apply NoDup_cons in Hnd as [Hg Hnd].
  assert (forall m es, length (filter (fun pe : Z * DirectoryEntry => pe.1 = m /\ is_decoded_directory s (de_inode pe.2) = true) (map (pair m) es)) =
    length (filter (fun e => is_decoded_directory s (de_inode e) = true) es)) as Hown.
  { intros m es. induction es as [|e es IHe]; [done|]. cbn [map]. rewrite !filter_cons. cbn [fst snd].
    destruct (decide (is_decoded_directory s (de_inode e) = true)); [rewrite decide_True by done|rewrite decide_False by tauto]; cbn [length]; lia. }
  assert (forall m l', m ∉ (fd_number <$> l') -> filter (fun pe : Z * DirectoryEntry => pe.1 = m /\ is_decoded_directory s (de_inode pe.2) = true)
    (concat (map (fun f => map (pair (fd_number f)) (fd_entries f)) l')) = []) as Hother.
  { intros m l' Hm. apply filter_none. intros pe Hpe [E _]. apply list_elem_of_In, in_concat in Hpe as (x & (h & <- & Hh)%in_map_iff & (e & <- & _)%in_map_iff).
    cbn in E. apply Hm. rewrite <- E. apply list_elem_of_fmap_2. by apply list_elem_of_In. }
  rewrite filter_app, length_app. apply elem_of_cons in Hf as [->|Hf].
  - rewrite Hown, Hother by done. cbn. lia.
  - assert (fd_number f <> fd_number g) as Hne by (intros E; apply Hg; rewrite <- E; by apply list_elem_of_fmap_2).
    rewrite (IH Hf Hnd). specialize (Hother (fd_number f) [g]). cbn [map concat] in Hother. rewrite app_nil_r in Hother.
    rewrite Hother; [done|]. cbn. by intros ?%list_elem_of_singleton.
Qed.

Lemma counts_spec : let c := count_links sb s in
  (forall n, default 0 (lc_references c !! n) = Z.of_nat (times n all_targets)) /\
  (forall f, f ∈ fs -> default 0 (lc_children c !! fd_number f) = Z.of_nat (child_directories f)) /\
  lc_complete c = true /\ (lc_issues c = [] <-> rt ∉ all_targets).
Proof.
  destruct (count_links_fold sb s (directory_entry_observations s)) with (c := mkCounts ∅ ∅ (sc_inode_complete s && forallb snd (sorted_entries (directory_scan_complete s))) [])
    as (H1 & H2 & H3 & H4).
  { apply Forall_forall. intros o Ho. apply observed, entries_in in Ho as (f & Hf & _ & He). destruct (entry_target f _ Hf He) as (_ & g & Hg & <-).
    rewrite (found_decoded g Hg). by eexists. }
  change (map (fun o => (ob_parent_inode_number o, ob_entry o)) (directory_entry_observations s)) with (seen_entries s) in *. rewrite (sn_seen _ _ _ _ Hs) in *.
  fold all_targets in H1. cbv zeta. unfold count_links. cbn [lc_references lc_children lc_complete lc_issues] in *. split; [|split; [|split]].
  - intros n. rewrite H1, lookup_empty. cbn. lia.
  - intros f Hf. rewrite H2, lookup_empty, child_dirs_of by done. cbn. lia.
  - rewrite H3. destruct (sn_flags _ _ _ _ Hs) as [_ ->]. cbn [andb]. apply forallb_forall. intros [n b] Hin. apply list_elem_of_In, elem_of_sorted_entries in Hin.
    by apply (sn_complete _ _ _ _ Hs) in Hin as [-> _].
  - rewrite H4. unfold all_targets. rewrite list_elem_of_In, in_map_iff. split.
    + intros [_ H] (pe & E & Hpe%list_elem_of_In). by apply (H pe).
    + intros H. split; [done|]. intros pe Hpe E. apply H. exists pe. by rewrite <- list_elem_of_In.
Qed.

Definition expected_links (f : found) : Z :=
  if S_ISDIR (mode (fd_inode f))
  then (if fd_number f =? rt then 2 else 1 + Z.of_nat (refs f)) + Z.of_nat (child_directories f)
  else Z.of_nat (refs f).

Lemma links_quiet : concat (map snd (link_evidence sb s (count_links sb s))) = [] <->
  forall f, f ∈ fs -> link_count (fd_inode f) = expected_links f /\ (S_ISDIR (mode (fd_inode f)) = false -> (refs f <= 1)%nat).
Proof.
  destruct counts_spec as (H1 & H2 & H3 & _). unfold link_evidence. rewrite map_map, concat_map_nil.
  assert (forall f, f ∈ fs -> ((check_links sb (count_links sb s) (fd_number f) (fd_inode f)).2 = [] <->
    link_count (fd_inode f) = expected_links f /\ (S_ISDIR (mode (fd_inode f)) = false -> (refs f <= 1)%nat))) as Hone.
  { intros f Hf. unfold check_links, expected_links. cbn [snd]. rewrite H1, (H2 f Hf), H3. pose proof (found_fine f Hf) as [Hr Hroot _].
    destruct (read_inode_valid r d Hv _ _ Hr) as (Hval & _). pose proof (iv_mode _ _ _ Hval) as Hk. unfold IsKnownMode in Hk.
    destruct (S_ISDIR (mode (fd_inode f))) eqn:Ed; cbn [negb andb].
    - rewrite orb_true_r. cbn [app]. set (k := Z.of_nat (child_directories f)).
      destruct (fd_number f =? rt); match goal with |- context [link_count (fd_inode f) =? ?x] => destruct (Z.eqb_spec (link_count (fd_inode f)) x) end;
        cbn [negb]; split; intros H; try done; try (split; [lia|done]); destruct H; lia.
    - assert (S_ISREG (mode (fd_inode f)) = true) as -> by (unfold S_ISREG, S_ISDIR in *; by rewrite Ed, orb_false_r in Hk).
      assert (fd_number f <> rt) as Hne by (intros E; specialize (Hroot E); congruence). rewrite (proj2 (Z.eqb_neq _ _) Hne). cbn [negb orb andb].
      destruct (Z.ltb_spec 1 (Z.of_nat (refs f))), (Z.eqb_spec (link_count (fd_inode f)) (Z.of_nat (refs f))); cbn [app negb]; split; intros Hx; try done;
        try (split; [lia|intros; lia]); destruct Hx as [Hx1 Hx]; try specialize (Hx eq_refl); lia. }
  split.
  - intros H f Hf. apply Hone; [done|]. by apply (H (fd_number f, fd_inode f)), elem_of_sorted_entries, found_decoded.
  - intros H [n inode] Hin%elem_of_sorted_entries. apply (sn_decoded _ _ _ _ Hs) in Hin as (f & Hf & <- & <-). by apply Hone, H.
Qed.

(** ** Types *)
Lemma types_quiet : type_issues s = [] <-> forall f g e, f ∈ fs -> g ∈ fs -> e ∈ fd_entries f -> de_inode e = fd_number g ->
  IsDirectoryType (file_type e) (mode (fd_inode g)) = true.
Proof.
  unfold type_issues. rewrite concat_map_nil. split.
  - intros H f g e Hf Hg He E. assert ((fd_number f, e) ∈ seen_entries s) as Hin by (rewrite (sn_seen _ _ _ _ Hs); apply entries_in; by exists f).
    apply list_elem_of_fmap in Hin as (o & [= _ ->] & Ho). specialize (H o Ho). rewrite E, (found_decoded g Hg) in H.
    change (DirectoryTypeMatchesMode (file_type (ob_entry o)) (mode (fd_inode g))) with (IsDirectoryType (file_type (ob_entry o)) (mode (fd_inode g))) in H.
    by destruct (IsDirectoryType _ _).
  - intros H o Ho. apply observed, entries_in in Ho as (f & Hf & _ & He). destruct (entry_target f _ Hf He) as (_ & g & Hg & E). rewrite <- E, (found_decoded g Hg).
    pose proof (H f g _ Hf Hg He (eq_sym E)) as Ht. unfold DirectoryTypeMatchesMode. unfold IsDirectoryType in Ht. by rewrite Ht.
Qed.
End conclusions.

(** The namespace as the offline checker sees it: second names, cycles and
    inodes out of reach. Together with the link counts its checks are silent
    exactly if the inodes form a tree below the root. *)
(** * Second names of directories *)
Lemma hard_fold s edges : forall linked found0,
  let '(linked', found') := foldl (fun '(linked_directories, found) edge =>
    if negb (is_decoded_directory s (child_inode_number edge)) then (linked_directories, found)
    else if bool_decide (child_inode_number edge ∈ linked_directories)
    then (linked_directories,
          found ++ [issue_of kDirectoryHardLink (parent_inode_number edge) 0 (child_inode_number edge) (text "目录 inode 存在多个命名空间入口")])
    else ({[child_inode_number edge]} ∪ linked_directories, found)) (linked, found0) edges in
  let dirs := filter (fun n => is_decoded_directory s n = true) (child_inode_number <$> edges) in
  found' = [] <-> found0 = [] /\ NoDup dirs /\ forall n, n ∈ dirs -> n ∉ (linked : gset Z).
Proof.
  induction edges as [|e edges IH]; intros linked found0; cbn [foldl fmap list_fmap].
  { cbv zeta. change (filter _ []) with (@nil Z). split; [|by intros [? _]]. intros H. split; [done|]. split; [constructor|]. by intros n ?%not_elem_of_nil. }
  destruct (is_decoded_directory s (child_inode_number e)) eqn:Ed; cbn [negb].
  - rewrite filter_cons_True by done. case_bool_decide as Hin.
    + specialize (IH linked (found0 ++ [issue_of kDirectoryHardLink (parent_inode_number e) 0 (child_inode_number e) (text "目录 inode 存在多个命名空间入口")])).
      destruct (foldl _ _ _) as [l' f']. cbv zeta in *. rewrite IH. split; [by intros [?%reported _]|]. intros (_ & _ & H). exfalso. by apply (H (child_inode_number e)); [left|].
    + specialize (IH ({[child_inode_number e]} ∪ linked) found0). destruct (foldl _ _ _) as [l' f']. cbv zeta in *. rewrite IH, NoDup_cons.
      setoid_rewrite elem_of_union. setoid_rewrite elem_of_singleton. setoid_rewrite elem_of_cons. split.
      * intros (H1 & H2 & H3). split; [done|]. split; [split; [|done]; intros Hx; apply (H3 _ Hx); by left|]. intros n [->|Hn]; [done|]. intros Hl. apply (H3 n Hn). by right.
      * intros (H1 & [H2 H3] & H4). split; [done|]. split; [done|]. intros n Hn [->|Hl]; [done|]. by apply (H4 n); [right|].
  - rewrite filter_cons_False by congruence. apply IH.
Qed.

(** * Paths *)
Lemma rtc_same {A} (R R' : relation A) x y : (forall a b, R a b <-> R' a b) -> rtc R x y <-> rtc R' x y.
Proof. intros H. split; (induction 1; [apply rtc_refl|eapply rtc_l; [by apply H|done]]). Qed.

Lemma tc_same {A} (R R' : relation A) x y : (forall a b, R a b -> R' a b) -> tc R x y -> tc R' x y.
Proof. intros H. induction 1; [by apply tc_once, H|eapply tc_l; [by apply H|done]]. Qed.

Lemma tc_last {A} (R : relation A) x z : tc R x z -> exists y, rtc R x y /\ R y z.
Proof. induction 1 as [x z H|x y z H _ (w & Hw & Hz)]; [exists x; split; [apply rtc_refl|done]|]. exists w. split; [by eapply rtc_l|done]. Qed.

Lemma tc_first {A} (R : relation A) x z : tc R x z -> exists y, R x y /\ rtc R y z.
Proof. destruct 1 as [x z H|x y z H Ht]; [exists z; split; [done|apply rtc_refl]|]. exists y. split; [done|by apply tc_rtc]. Qed.

Lemma NoDup_map_inj {A B} (f : A -> B) l x y : NoDup (map f l) -> x ∈ l -> y ∈ l -> f x = f y -> x = y.
Proof.
  intros Hn [i Hi]%list_elem_of_lookup [j Hj]%list_elem_of_lookup E. assert (i = j) as ->; [|congruence].
  apply (NoDup_lookup (f <$> l) i j (f x) Hn); rewrite list_lookup_fmap; [by rewrite Hi|by rewrite Hj, E].
Qed.

Section tree.
Context (r : ImageReader) (d : image).
Abbreviation sb := (rd_superblock r).
Abbreviation ibm := (inode_bitmap_ r).
Abbreviation bbm := (block_bitmap_ r).
Abbreviation rt := (root_inode sb).
Context (Hv : view_ok r d) (Hlay : layout sb) (fs : list found) (s : scan) (Hc : covers r d fs) (Hs : scanned r d fs s) (Hrt : allocated r rt).
Abbreviation all_targets := (all_targets fs).

Lemma hard_links_quiet : hard_link_issues s = [] <-> NoDup (filter (fun n => is_decoded_directory s n = true) all_targets).
Proof.
  unfold hard_link_issues. pose proof (hard_fold s (sc_edges s) ∅ []) as H. destruct (foldl _ _ _) as [l f]. cbn [snd]. cbv zeta in H. rewrite H.
  rewrite (sn_edges _ _ _ _ Hs). unfold CheckerConclusions.all_targets.
  assert ((child_inode_number <$> map (fun pe => mkEdge pe.1 (de_inode pe.2)) (entries_of fs)) = map (fun pe => de_inode pe.2) (entries_of fs)) as -> by apply map_map.
  split; [by intros (_ & ? & _)|]. intros Hn. split; [done|]. split; [done|]. intros n _. apply not_elem_of_empty.
Qed.

Lemma target_in n : n ∈ all_targets <-> exists f e, f ∈ fs /\ e ∈ fd_entries f /\ de_inode e = n.
Proof.
  unfold CheckerConclusions.all_targets. rewrite list_elem_of_In, in_map_iff. split.
  - intros ([p e] & <- & (f & Hf & _ & He)%list_elem_of_In%entries_in). by exists f, e.
  - intros (f & e & Hf & He & <-). exists (fd_number f, e). split; [done|]. apply list_elem_of_In, entries_in. by exists f.
Qed.

(** ** The edges *)
Definition child (n m : Z) : Prop := exists f e, f ∈ fs /\ fd_number f = n /\ e ∈ fd_entries f /\ de_inode e = m.

Lemma child_targets n m : m ∈ targets (directory_edges s) n <-> child n m.
Proof.
  split.
  - intros Hm. destruct (decide (n ∈ (fd_number <$> fs))) as [(f & -> & Hf)%list_elem_of_fmap|Hn].
    + rewrite (sn_graph _ _ _ _ Hs f Hf) in Hm. apply list_elem_of_fmap in Hm as (e & -> & He). by exists f, e.
    + rewrite (sn_graph_else _ _ _ _ Hs n Hn) in Hm. by apply elem_of_nil in Hm.
  - intros (f & e & Hf & <- & He & <-). rewrite (sn_graph _ _ _ _ Hs f Hf). by apply list_elem_of_fmap_2.
Qed.

Lemma child_found n m : child n m -> exists f g, f ∈ fs /\ g ∈ fs /\ fd_number f = n /\ fd_number g = m /\ S_ISDIR (mode (fd_inode f)) = true.
Proof.
  intros (f & e & Hf & <- & He & <-). destruct (entry_target r d Hv fs Hc f e Hf He) as (Hd & g & Hg & E). by exists f, g.
Qed.

Lemma names_child n m : names_inode (directory_edges s) (fun k => (fun inode => S_ISDIR (mode inode)) <$> decoded_inodes s !! k) n m <-> child n m.
Proof.
  unfold names_inode. rewrite child_targets. split; [by intros [_ ?]|]. intros H. split; [|done].
  destruct (child_found n m H) as (f & g & Hf & _ & <- & _ & Hd). rewrite (found_decoded r d fs s Hs f Hf). cbn. by rewrite Hd.
Qed.

Lemma reached_found n : rtc child rt n -> exists f, f ∈ fs /\ fd_number f = n.
Proof.
  intros H. apply rtc_inv_r in H as [<-|(y & _ & Hy)]; [by apply (found_of r d fs Hc)|]. destruct (child_found y n Hy) as (_ & g & _ & Hg & _ & E & _). by exists g.
Qed.

Lemma reachability_spec : exists reachable, reachability sb s = Some (reachable, true) /\ forall n, n ∈ reachable <-> rtc child rt n.
Proof.
  unfold reachability. destruct (reach_ends (directory_edges s) (fun k => (fun inode => S_ISDIR (mode inode)) <$> decoded_inodes s !! k)
    (fun k => default false (directory_scan_complete s !! k)) rt) as [[reachable flag] E]. rewrite E.
  apply reach_exact in E as [H1 H2]. assert (forall n, n ∈ reachable <-> rtc child rt n) as Hr by (intros n; rewrite H1; apply rtc_same, names_child).
  exists reachable. split; [|done]. do 2 f_equal. apply H2. split.
  - destruct (found_of r d fs Hc rt Hrt) as (f & Hf & E). rewrite <- E, (found_decoded r d fs s Hs f Hf). cbn. f_equal. by apply (found_fine r d fs Hc f Hf).
  - intros n Hn. rewrite (rtc_same _ child) in Hn by apply names_child. destruct (reached_found n Hn) as (f & Hf & <-).
    exists (S_ISDIR (mode (fd_inode f))). rewrite (found_decoded r d fs s Hs f Hf). split; [done|]. intros Hd.
    assert (directory_scan_complete s !! fd_number f = Some true) as ->; [|done]. apply (sn_complete _ _ _ _ Hs). split; [done|]. by exists f.
Qed.

(** The numbers the second loop over the inodes reports. *)
Definition unreached (reachable : gset Z) : list Z :=
  filter (fun number => negb (number =? rt) && BitmapBit ibm (number - 1) && negb (bool_decide (number ∈ reachable))) (seqZ 1 (total_inodes sb)).

Lemma unreachable_lists reachable : 0 <= total_inodes sb < 4294967295 -> unreachable_issues sb ibm reachable true =
  Some (map (fun number => issue_of kInodeUnreachable number 0 0 (text "已分配 inode 无法从根目录到达")) (unreached reachable)).
Proof.
  intros Hsmall. unfold unreachable_issues. rewrite for_inodes_ends by done. f_equal. unfold unreached.
  assert (forall l found, (forall n, n ∈ l -> 1 <= n < 4294967296) ->
    foldl (fun found number => if negb (number =? rt) && BitmapBit ibm (wrap32 (number - 1)) && negb (bool_decide (number ∈ reachable))
      then found ++ [issue_of kInodeUnreachable number 0 0 (text "已分配 inode 无法从根目录到达")] else found) found l =
    found ++ map (fun number => issue_of kInodeUnreachable number 0 0 (text "已分配 inode 无法从根目录到达"))
      (filter (fun number => negb (number =? rt) && BitmapBit ibm (number - 1) && negb (bool_decide (number ∈ reachable))) l)) as H.
  { induction l as [|n l IH]; intros found Hl; cbn [foldl]; [by rewrite app_nil_r|]. rewrite wrap32_small by (specialize (Hl n ltac:(by left)); word).
    rewrite IH by (intros m Hm; apply Hl; by right). rewrite filter_cons. destruct (negb (n =? rt) && BitmapBit ibm (n - 1) && _) eqn:E.
    - rewrite decide_True by done. by rewrite <- app_assoc.
    - rewrite decide_False by intros []. done. }
  rewrite H; [done|]. intros n Hn%elem_of_seqZ. lia.
Qed.

Lemma unreachable_quiet reachable : (forall n, n ∈ reachable <-> rtc child rt n) ->
  (unreached reachable = [] <-> forall n, allocated r n -> rtc child rt n).
Proof.
  intros Hr. unfold unreached. rewrite filter_none. setoid_rewrite elem_of_seqZ. unfold allocated, BitmapBit. split.
  - intros H n [Hn Hb]. apply Hr. destruct (decide (n = rt)) as [->|Hne]; [apply Hr, rtc_refl|]. destruct (decide (n ∈ reachable)) as [|Hno]; [done|].
    exfalso. apply (H n); [lia|]. rewrite (proj2 (Z.eqb_neq _ _) Hne), Hb, bool_decide_eq_false_2 by done. done.
  - intros H n Hn Hp. destruct (TestBit ibm (n - 1)) eqn:Eb; [|by rewrite andb_false_r in Hp]. rewrite bool_decide_eq_true_2 in Hp; [by rewrite andb_false_r in Hp|].
    apply Hr, H. split; [lia|done].
Qed.

(** ** Cycles *)
Lemma directories_spec n : n ∈ decoded_directories s <-> is_decoded_directory s n = true.
Proof.
  unfold decoded_directories, is_decoded_directory. split.
  - intros ([k inode] & -> & [Hd Hin]%list_elem_of_filter)%list_elem_of_fmap. apply elem_of_sorted_entries in Hin. cbn. rewrite Hin. by apply Is_true_true in Hd.
  - destruct (decoded_inodes s !! n) as [inode|] eqn:E; [|done]. intros Hd. apply (list_elem_of_fmap_2' fst _ (n, inode)); [|done].
    apply list_elem_of_filter. split; [by apply Is_true_true|by apply elem_of_sorted_entries].
Qed.

Lemma cycles_spec : exists back, directory_cycles (directory_edges s) (is_decoded_directory s) (decoded_directories s) = Some back /\
  (cycle_issues back = [] <-> forall n, ~ tc (leads (directory_edges s) (is_decoded_directory s)) n n).
Proof.
  destruct (cycles_end (directory_edges s) (is_decoded_directory s) (decoded_directories s)) as [back E].
  { unfold decoded_directories. change (map fst ?l) with (fst <$> l). apply (sublist_NoDup _ (fst <$> sorted_entries (decoded_inodes s))); [apply NoDup_sorted_keys|]. apply (fmap_sublist fst), sublist_filter. }
  { apply directories_spec. }
  exists back. split; [exact E|]. unfold cycle_issues. rewrite map_nil. destruct (cycles_exact _ _ _ _ directories_spec E) as [_ ->]. split; [|auto].
  intros H n Ht. apply (H n); [|done]. by destruct (tc_last _ _ _ Ht) as (y & _ & _ & Hd).
Qed.

(** A tree has no cycles. *)
Lemma one_parent : NoDup all_targets -> forall a b c, child a c -> child b c -> a = b.
Proof.
  intros Honce a b c (f & e & Hf & <- & He & E) (g & e' & Hg & <- & He' & E').
  assert ((fd_number f, e) = (fd_number g, e')) as Hp; [|congruence].
  apply (NoDup_map_inj (fun pe => de_inode pe.2) (entries_of fs)); [done|apply entries_in; by exists f|apply entries_in; by exists g|cbn; congruence].
Qed.

Lemma tree_acyclic : NoDup all_targets -> rt ∉ all_targets -> (forall n, allocated r n -> rtc child rt n) ->
  forall n, ~ tc (leads (directory_edges s) (is_decoded_directory s)) n n.
Proof.
  intros Honce Hroot Hreach n Ht. apply (tc_same _ child) in Ht; [|intros a b [H _]; by apply child_targets].
  assert (forall m, rtc child rt m -> ~ tc child m m) as Hno.
  { apply rtc_ind_r.
    - intros (y & _ & f & e & Hf & _ & He & E)%tc_last. apply Hroot, target_in. by exists f, e.
    - intros y z _ Hyz IH (x & Hzx & Hxz)%tc_last. apply IH. rewrite (one_parent Honce x y z Hxz Hyz) in Hzx.
      destruct (rtc_inv _ _ Hzx) as [->|(w & H1 & H2)]; [by apply tc_once|]. eapply tc_l; [exact Hyz|]. eapply tc_rtc_r; [by apply tc_once|exact H2]. }
  destruct (tc_first _ _ _ Ht) as (y & H & _). destruct (child_found _ _ H) as (f & _ & Hf & _ & <- & _).
  apply (Hno (fd_number f)); [|done]. apply Hreach. destruct Hc as (_ & Hall & _). apply Hall. by apply list_elem_of_fmap_2.
Qed.
End tree.
