(* ===== verification/CheckerSpec.v ===== *)
(** What a healthy image is, in terms of the image reader, and that the checks
    of the offline checker on blocks, links and names look for exactly that. *)
From stdpp Require Import relations.
From S2P Require Import Prelude Codec OndiskFormat OndiskFormatProofs OndiskJournal Disk JournalImage BitmapAllocator.
From S2P Require Import ImageReader ImageReaderProofs ReaderTheorems FileMutation ConsistentImage PlanProofs.
From S2P Require Import FileMutationProofs FileSystem CheckReport CheckerGraph Checker CheckerPointers.
From S2P Require Import CheckerDirectories CheckerScan CheckerQueue CheckerConclusions.
Open Scope Z_scope.
Open Scope io_scope.

(** The directories form a tree below the root that holds every inode, link
    counts are what the tree says, and no data block is lost. *)
Record tidy (r : ImageReader) (d : image) : Prop := {
  td_lists : forall n inode, answer d (ReadInode r n) = Ok inode -> S_ISDIR (mode inode) = true -> exists es, directory_lists r d n es;
  td_root : forall n es e, directory_lists r d n es -> e ∈ es -> de_inode e <> root_inode (rd_superblock r);
  td_once : forall n es e n' es' e', directory_lists r d n es -> e ∈ es -> directory_lists r d n' es' -> e' ∈ es' ->
    de_inode e = de_inode e' -> n = n' /\ e = e';
  td_reach : forall n inode, answer d (ReadInode r n) = Ok inode -> exists cs, walk r d (root_inode (rd_superblock r)) cs n;
  td_file : forall n inode, answer d (ReadInode r n) = Ok inode -> S_ISDIR (mode inode) = false -> link_count inode = 1;
  td_directory : forall n inode es, answer d (ReadInode r n) = Ok inode -> directory_lists r d n es ->
    link_count inode = 2 + Z.of_nat (length (filter (fun e => file_type e = kDirectory) es));
  td_blocks : forall b, data_block r b -> exists n inode, answer d (ReadInode r n) = Ok inode /\ b ∈ owned d inode
}.

Lemma times_filter (P : Z -> Prop) {Pd : forall x, Decision (P x)} n l : P n -> times n (filter P l) = times n l.
Proof.
  intros Hp. induction l as [|x l IH]; [done|]. rewrite filter_cons, times_cons. case_decide as Hx; [by rewrite times_cons, IH|].
  rewrite decide_False by congruence. done.
Qed.

Lemma filter_same {A} (P Q : A -> Prop) {Pd : forall x, Decision (P x)} {Qd : forall x, Decision (Q x)} (l : list A) :
  (forall x, x ∈ l -> P x <-> Q x) -> filter P l = filter Q l.
Proof.
  induction l as [|x l IH]; intros H; [done|]. rewrite !filter_cons, IH by (intros y Hy; apply H; by right).
  pose proof (H x ltac:(by left)). do 2 case_decide; tauto || done.
Qed.

Section spec.
Context (r : ImageReader) (d : image).
Abbreviation sb := (rd_superblock r).
Abbreviation ibm := (inode_bitmap_ r).
Abbreviation bbm := (block_bitmap_ r).
Abbreviation rt := (root_inode sb).
Context (Hv : view_ok r d) (Hlay : layout sb).

Lemma read_allocated n inode : answer d (ReadInode r n) = Ok inode -> allocated r n.
Proof. intros (H1 & H2 & _)%(read_inode_iff r d Hv Hlay). done. Qed.

Section scanned_image.
Context (fs : list found) (s : scan) (Hc : covers r d fs) (Hs : scanned r d fs s) (Hrt : allocated r rt).

Lemma read_found n inode : answer d (ReadInode r n) = Ok inode <-> exists f, f ∈ fs /\ fd_number f = n /\ fd_inode f = inode.
Proof.
  split.
  - intros E. destruct (found_of r d fs Hc n (read_allocated n inode E)) as (f & Hf & <-). exists f. split; [done|]. split; [done|].
    pose proof (if_read _ _ _ (found_fine r d fs Hc f Hf)) as E'. rewrite E in E'. symmetry. exact (Ok_inj _ _ E').
  - intros (f & Hf & <- & <-). apply (found_fine r d fs Hc f Hf).
Qed.

Lemma listed_found n es : directory_lists r d n es -> exists f, f ∈ fs /\ fd_number f = n /\ fd_entries f = es /\ S_ISDIR (mode (fd_inode f)) = true.
Proof.
  intros (inode & ess & Hr & Hd & Ht & -> & _). apply read_found in Hr as (f & Hf & <- & <-). exists f. split; [done|]. split; [done|]. split; [|done].
  pose proof (found_fine r d fs Hc f Hf) as [_ _ H]. rewrite Hd in H. destruct H as ((ess' & T & ->) & _). by rewrite (tilings_unique _ _ _ T Ht).
Qed.

Lemma lists_children f : type_issues s = [] -> f ∈ fs -> S_ISDIR (mode (fd_inode f)) = true -> directory_lists r d (fd_number f) (fd_entries f).
Proof.
  intros Ht Hf Hd. pose proof (found_fine r d fs Hc f Hf) as [Hr _ H]. rewrite Hd in H. destruct H as ((ess & T & E) & Hn & _).
  exists (fd_inode f), ess. conj_split; try done. apply Forall_forall. intros e He. destruct (entry_target r d Hv fs Hc f e Hf He) as (_ & g & Hg & Eg).
  exists (fd_inode g). split; [apply read_found; by exists g|]. by apply (proj1 (types_quiet r d Hv fs s Hc Hs) Ht f g e).
Qed.

Lemma subdirectories f : type_issues s = [] -> f ∈ fs -> child_directories s f = length (filter (fun e => file_type e = kDirectory) (fd_entries f)).
Proof.
  intros Ht Hf. unfold child_directories. f_equal. apply filter_same. intros e He.
  destruct (entry_target r d Hv fs Hc f e Hf He) as (_ & g & Hg & Eg). rewrite <- Eg, (found_directory r d fs s Hs g Hg).
  pose proof (proj1 (types_quiet r d Hv fs s Hc Hs) Ht f g e Hf Hg He (eq_sym Eg)) as Hty. unfold IsDirectoryType in Hty.
  destruct (file_type e); try done. unfold S_ISREG, S_ISDIR in *. apply Z.eqb_eq in Hty. rewrite Hty. done.
Qed.

Lemma child_walks n m : type_issues s = [] -> (rtc (child fs) n m <-> exists cs, walk r d n cs m).
Proof.
  intros Ht. split.
  - induction 1 as [n|n k m (f & e & Hf & <- & He & <-) _ (cs & IH)]; [exists []; constructor|]. exists (name e :: cs).
    destruct (entry_target r d Hv fs Hc f e Hf He) as (Hd & _). apply (walk_down _ _ _ _ _ (fd_entries f) e); try done. by apply lists_children.
  - intros (cs & Hw). induction Hw as [n|n c rest es e m Hl He _ _ IH]; [apply rtc_refl|]. eapply rtc_l; [|exact IH].
    destruct (listed_found n es Hl) as (f & Hf & <- & <- & _). by exists f, e.
Qed.

Lemma targets_once : hard_link_issues s = [] -> (forall f, f ∈ fs -> S_ISDIR (mode (fd_inode f)) = false -> (times (fd_number f) (all_targets fs) <= 1)%nat) ->
  NoDup (all_targets fs).
Proof.
  intros Hh Hl. apply times_once. intros n. destruct (decide (n ∈ all_targets fs)) as [Hn|Hn]; [|rewrite <- times_pos in Hn; lia].
  apply target_in in Hn as (f & e & Hf & He & <-). destruct (entry_target r d Hv fs Hc f e Hf He) as (_ & g & Hg & <-).
  destruct (S_ISDIR (mode (fd_inode g))) eqn:Ed; [|by apply Hl]. apply (hard_links_quiet r d fs s Hs) in Hh. rewrite times_once in Hh.
  specialize (Hh (fd_number g)). rewrite times_filter in Hh; [done|]. by rewrite (found_directory r d fs s Hs g Hg).
Qed.

Definition nothing_found (reachable : gset Z) (back : list (Z * Z)) : Prop :=
  unreferenced_issues sb bbm s = [] /\ lc_issues (count_links sb s) = [] /\ concat (map snd (link_evidence sb s (count_links sb s))) = [] /\
  type_issues s = [] /\ cycle_issues back = [] /\ hard_link_issues s = [] /\ unreached r reachable = [].

Lemma found_tidy reachable back : (forall n, n ∈ reachable <-> rtc (child fs) rt n) -> nothing_found reachable back -> tidy r d.
Proof.
  intros Hreach (H1 & H2 & H3 & H4 & _ & H6 & H7). pose proof (proj1 (unreferenced_quiet r d fs s Hs) H1) as Hblocks.
  destruct (counts_spec r d Hv fs s Hc Hs) as (_ & _ & _ & Hcr). apply Hcr in H2 as Hroot. clear Hcr.
  pose proof (proj1 (links_quiet r d Hv fs s Hc Hs) H3) as Hlinks. pose proof (proj1 (unreachable_quiet r fs _ Hreach) H7) as Hall.
  pose proof (targets_once H6 (fun f Hf => proj2 (Hlinks f Hf))) as Honce.
  assert (forall f, f ∈ fs -> fd_number f <> rt -> times (fd_number f) (all_targets fs) = 1%nat) as Hone.
  { intros f Hf Hne. pose proof (proj1 (times_once _) Honce (fd_number f)). assert (1 <= times (fd_number f) (all_targets fs))%nat; [|lia].
    apply times_pos. assert (allocated r (fd_number f)) as Ha by (destruct Hc as (_ & Hx & _); apply Hx; by apply list_elem_of_fmap_2).
    apply Hall, rtc_inv_r in Ha as [E|(y & _ & g & e & Hg & _ & He & E)]; [congruence|]. apply target_in. by exists g, e. }
  constructor.
  - intros n inode (f & Hf & <- & <-)%read_found Hd. exists (fd_entries f). by apply lists_children.
  - intros n es e (f & Hf & <- & <- & _)%listed_found He E. apply Hroot, target_in. by exists f, e.
  - intros n es e n' es' e' (f & Hf & <- & <- & _)%listed_found He (f' & Hf' & <- & <- & _)%listed_found He' E.
    assert ((fd_number f, e) = (fd_number f', e')) as Hp; [|by injection Hp as -> ->].
    apply (NoDup_map_inj (fun pe => de_inode pe.2) (entries_of fs)); [done|apply entries_in; by exists f|apply entries_in; by exists f'|done].
  - intros n inode E. apply child_walks; [done|]. by apply Hall, (read_allocated n inode).
  - intros n inode (f & Hf & <- & <-)%read_found Hd. destruct (Hlinks f Hf) as [-> _]. unfold expected_links. rewrite Hd.
    rewrite Hone; [done|done|]. intros E. pose proof (if_root _ _ _ (found_fine r d fs Hc f Hf) E). congruence.
  - intros n inode es (f & Hf & <- & <-)%read_found (f' & Hf' & E & <- & Hd)%listed_found. rewrite (found_unique r d fs Hc f' f Hf' Hf E) in *.
    destruct (Hlinks f Hf) as [-> _]. unfold expected_links. rewrite Hd, <- (subdirectories f H4 Hf).
    destruct (Z.eqb_spec (fd_number f) rt) as [_|Hne]; [done|]. rewrite (Hone f Hf Hne). lia.
  - intros b Hb. destruct (Hblocks b Hb) as (f & Hf & Ho). exists (fd_number f), (fd_inode f). split; [apply read_found; by exists f|done].
Qed.

Lemma entries_once : NoDup (entries_of fs).
Proof.
  assert (forall f, f ∈ fs -> NoDup (fd_entries f)) as He.
  { intros f Hf. pose proof (found_fine r d fs Hc f Hf) as [_ _ H]. destruct (S_ISDIR _); [|rewrite H; constructor]. destruct H as (_ & H & _). by eapply NoDup_fmap_1. }
  destruct Hc as (Hn & _). clear Hc Hs. unfold entries_of. induction fs as [|f l IH]; [constructor|]. cbn [map concat fmap list_fmap] in *.
  apply NoDup_cons in Hn as [Hf Hn]. apply NoDup_app. split; [|split].
  - apply (NoDup_fmap_2 (pair (fd_number f))). apply He. by left.
  - intros [p e] (e' & [= -> ->] & _)%list_elem_of_fmap Hin. apply list_elem_of_In, in_concat in Hin as (x & (g & <- & Hg)%in_map_iff & (e'' & [= E _] & _)%in_map_iff).
    apply Hf. rewrite <- E. apply list_elem_of_fmap_2. by apply list_elem_of_In.
  - apply IH; [|done]. intros g Hg. apply He. by right.
Qed.

Lemma tidy_found reachable back : (forall n, n ∈ reachable <-> rtc (child fs) rt n) ->
  (cycle_issues back = [] <-> forall n, ~ tc (leads (directory_edges s) (is_decoded_directory s)) n n) ->
  tidy r d -> nothing_found reachable back.
Proof.
  intros Hreach Hcycle [T1 T2 T3 T4 T5 T6 T7].
  assert (forall f, f ∈ fs -> S_ISDIR (mode (fd_inode f)) = true -> directory_lists r d (fd_number f) (fd_entries f)) as Hlist.
  { intros f Hf Hd. destruct (T1 (fd_number f) (fd_inode f)) as [es Hes]; [apply read_found; by exists f|done|].
    destruct (listed_found _ _ Hes) as (g & Hg & E & E' & _). rewrite (found_unique r d fs Hc g f Hg Hf E) in E'. by rewrite E'. }
  assert (forall f e, f ∈ fs -> e ∈ fd_entries f -> directory_lists r d (fd_number f) (fd_entries f)) as Hlist'.
  { intros f e Hf He. apply Hlist; [done|]. apply (entry_target r d Hv fs Hc f e Hf He). }
  assert (type_issues s = []) as Htypes.
  { apply (types_quiet r d Hv fs s Hc Hs). intros f g e Hf Hg He E. destruct (Hlist' f e Hf He) as (_ & _ & _ & _ & _ & _ & _ & Hch).
    rewrite Forall_forall in Hch. destruct (Hch e He) as (c & Hrc & Hty). rewrite E in Hrc. apply read_found in Hrc as (g' & Hg' & Eg & <-).
    by rewrite (found_unique r d fs Hc g' g Hg' Hg Eg) in Hty. }
  assert (NoDup (all_targets fs)) as Honce.
  { apply NoDup_fmap_2_strong; [|apply entries_once]. intros [p e] [p' e'] (f & Hf & <- & He)%entries_in (f' & Hf' & <- & He')%entries_in E.
    destruct (T3 _ _ _ _ _ _ (Hlist' f e Hf He) He (Hlist' f' e' Hf' He') He' E) as [-> ->]. done. }
  assert (rt ∉ all_targets fs) as Hroot by (intros (f & e & Hf & He & E)%target_in; by apply (T2 _ _ e (Hlist' f e Hf He))).
  assert (forall n, allocated r n -> rtc (child fs) rt n) as Hall.
  { intros n (f & Hf & <-)%(found_of r d fs Hc). apply child_walks; [done|]. apply (T4 _ (fd_inode f)), read_found. by exists f. }
  split; [apply (unreferenced_quiet r d fs s Hs); intros b (n & inode & (f & Hf & _ & <-)%read_found & Hb)%T7; by exists f|].
  split; [by apply (counts_spec r d Hv fs s Hc Hs)|]. split.
  - apply (links_quiet r d Hv fs s Hc Hs). intros f Hf. pose proof (proj1 (times_once _) Honce (fd_number f)) as Hle. split; [|done].
    assert (answer d (ReadInode r (fd_number f)) = Ok (fd_inode f)) as Er by (apply read_found; by exists f).
    assert (fd_number f <> rt -> times (fd_number f) (all_targets fs) = 1%nat) as Hone.
    { intros Hne. assert (1 <= times (fd_number f) (all_targets fs))%nat; [|lia]. apply times_pos.
      apply read_allocated, Hall, rtc_inv_r in Er as [E|(y & _ & g & e & Hg & _ & He & E)]; [congruence|]. apply target_in. by exists g, e. }
    unfold expected_links. destruct (S_ISDIR (mode (fd_inode f))) eqn:Ed.
    + rewrite (T6 _ _ _ Er (Hlist f Hf Ed)), (subdirectories f Htypes Hf). destruct (Z.eqb_spec (fd_number f) rt) as [_|Hne]; [done|]. rewrite (Hone Hne). lia.
    + rewrite (T5 _ _ Er Ed), Hone; [done|]. intros E. pose proof (if_root _ _ _ (found_fine r d fs Hc f Hf) E). congruence.
  - split; [done|]. split; [apply Hcycle; by apply (tree_acyclic r d Hv fs s Hc Hs)|]. split; [|by apply (unreachable_quiet r fs _ Hreach)].
    apply (hard_links_quiet r d fs s Hs). by apply NoDup_filter.
Qed.
End scanned_image.
End spec.

(** * Fine inodes and consistent images *)
Lemma choose_list {A B} (R : A -> B -> Prop) l : (forall x, x ∈ l -> exists y, R x y) -> exists l', Forall2 R l l'.
Proof.
  induction l as [|x l IH]; intros H; [by exists []|]. destruct (H x) as [y Hy]; [by left|]. destruct IH as [l' Hl]; [intros z Hz; apply H; by right|].
  exists (y :: l'). by constructor.
Qed.

Section cover.
Context (r : ImageReader) (d : image) (Ho : opened r d).
Abbreviation sb := (rd_superblock r).
Abbreviation rt := (root_inode sb).
Let Hv : view_ok r d := op_view _ _ Ho.
Let Hlay : layout sb := opened_layout r d Ho.

Lemma allocated_iff n : IsInodeAllocated r n = true <-> allocated r n.
Proof. unfold IsInodeAllocated, allocated. rewrite !andb_true_iff, !Z.leb_le. tauto. Qed.

Lemma checked_root_allocated : allocated r rt.
Proof. destruct (op_root _ _ Ho) as (root & E & _). by apply (read_allocated r d Hv Hlay rt root). Qed.

Lemma covers_consistent fs : covers r d fs -> consistent r d.
Proof.
  intros Hc. pose proof (read_found r d Hv Hlay fs Hc) as Hread. destruct Hc as (Hn & Hall & Hf & Hb). constructor; [done| | |].
  - intros n Hn'. apply allocated_iff, Hall, list_elem_of_fmap in Hn' as (f & -> & Hin). exists (fd_inode f). apply Hread. by exists f.
  - intros n inode (f & Hin & _ & <-)%Hread. apply list_elem_of_split in Hin as (l1 & l2 & ->). revert Hb. unfold blocks_of. rewrite map_app, concat_app. cbn.
    by intros (_ & _ & (? & _)%NoDup_app)%NoDup_app.
  - intros n n' inode inode' Hne (f & Hin & <- & <-)%Hread (f' & Hin' & <- & <-)%Hread b H1 H2. clear -Hne Hin Hin' Hb H1 H2.
    apply list_elem_of_split in Hin as (l1 & l2 & ->). revert Hb. unfold blocks_of. rewrite map_app, concat_app. cbn.
    rewrite (Permutation_app_comm (concat _)), <- app_assoc. intros (_ & Hd & _)%NoDup_app. apply (Hd b H1). rewrite elem_of_app, !list_elem_of_In, !in_concat.
    apply elem_of_app in Hin' as [Hin'|[->|Hin']%elem_of_cons]; [right|done|left]; exists (owned d (fd_inode f'));
      (split; [apply in_map_iff; exists f'; split; [done|]|]; by apply list_elem_of_In).
Qed.

Lemma fine_of n : consistent r d -> (forall n inode, answer d (ReadInode r n) = Ok inode -> S_ISDIR (mode inode) = true -> exists es, directory_lists r d n es) ->
  allocated r n -> exists f, fd_number f = n /\ inode_fine r d f.
Proof.
  intros Hcon Hl Ha. destruct (co_inodes _ _ Hcon n (proj2 (allocated_iff n) Ha)) as [inode E].
  assert (n = rt -> S_ISDIR (mode inode) = true) as Hroot.
  { intros ->. destruct (op_root _ _ Ho) as (root & Er & Hd). rewrite E in Er. by apply Ok_inj in Er as ->. }
  destruct (S_ISDIR (mode inode)) eqn:Ed.
  - destruct (Hl n inode E Ed) as (es & inode' & ess & E' & _ & Ht & Hes & Hn & Hch). rewrite E in E'. apply Ok_inj in E' as <-.
    exists (mkFound n inode es). split; [done|]. constructor; cbn; [done|by rewrite Ed|]. rewrite Ed. split; [by exists ess|]. split; [done|].
    eapply Forall_impl; [exact Hch|]. intros e (c & Hr & _). apply (read_allocated r d Hv Hlay) in Hr as [? ?]. split; [lia|done].
  - exists (mkFound n inode []). split; [done|]. constructor; cbn; [done|by rewrite Ed|]. by rewrite Ed.
Qed.

Lemma blocks_once fs : consistent r d -> NoDup (fd_number <$> fs) -> Forall (inode_fine r d) fs -> NoDup (blocks_of d fs).
Proof.
  intros Hcon. induction fs as [|f fs IH]; intros Hn Hf; [constructor|]. cbn [fmap list_fmap] in Hn. apply NoDup_cons in Hn as [Hnew Hn].
  apply Forall_cons in Hf as [Hf Hfs]. unfold blocks_of. cbn [map concat]. apply NoDup_app.
  split; [apply (co_alone _ _ Hcon _ _ (if_read _ _ _ Hf))|]. split; [|by apply IH].
  intros b Hb. rewrite list_elem_of_In, in_concat. intros (x & (g & <- & Hg)%in_map_iff & Hb'). apply list_elem_of_In in Hg, Hb'. rewrite Forall_forall in Hfs.
  apply (co_apart _ _ Hcon (fd_number f) (fd_number g) (fd_inode f) (fd_inode g)) with (b := b); [|apply Hf|by apply Hfs|done|done].
  intros E. apply Hnew. rewrite E. by apply list_elem_of_fmap_2.
Qed.

Lemma consistent_covers : consistent r d -> (forall n inode, answer d (ReadInode r n) = Ok inode -> S_ISDIR (mode inode) = true -> exists es, directory_lists r d n es) ->
  exists fs, covers r d fs.
Proof.
  intros Hcon Hl. set (L := filter (fun n => TestBit (inode_bitmap_ r) (n - 1) = true) (seqZ 1 (total_inodes sb))).
  assert (forall n, n ∈ L <-> allocated r n) as HL.
  { intros n. unfold L, allocated. rewrite list_elem_of_filter, elem_of_seqZ. assert (1 <= n < 1 + total_inodes sb <-> 1 <= n <= total_inodes sb) as -> by lia. tauto. }
  destruct (choose_list (fun n f => fd_number f = n /\ inode_fine r d f) L) as [fs Hfs]; [intros n Hn; by apply fine_of, HL|].
  assert ((fd_number <$> fs) = L) as E by (clear -Hfs; induction Hfs as [|n f l fs [<- _] _ IH]; [done|]; cbn; by rewrite <- IH).
  assert (Forall (inode_fine r d) fs) as Hf by (clear -Hfs; induction Hfs as [|n f l fs [_ ?] _ IH]; by constructor).
  assert (NoDup (fd_number <$> fs)) as Hnd by (rewrite E; apply NoDup_filter, NoDup_seqZ).
  exists fs. split; [done|]. split; [rewrite E; apply HL|]. split; [done|]. by apply blocks_once.
Qed.
End cover.
