(* ===== verification/CheckerLedger.v ===== *)
(** The offline checker and the request ledger: the check always goes through,
    and it is silent and complete exactly if the service could load the ledger. *)
From S2P Require Import Prelude Codec OndiskFormat OndiskFormatProofs OndiskJournal Disk JournalImage BitmapAllocator.
From S2P Require Import RequestLedger RequestLedgerProofs ImageReader ImageReaderProofs ReaderTheorems LedgerStore.
From S2P Require Import FileMutation ConsistentImage PlanProofs FileMutationProofs FileSystem LedgerFiles CheckReport.
From S2P Require Import CheckerGraph Checker CheckerPointers CheckerDirectories CheckerScan CheckerQueue.
From S2P Require Import CheckerConclusions CheckerSpec.
Open Scope Z_scope.
Open Scope io_scope.

(** * Slots *)
(** The counters that do not depend on what a slot holds. *)
Definition same_run (k k' : ledger_check) (slots : Z) : Prop :=
  lk_evidence_complete k' = lk_evidence_complete k /\ lk_capacity k' = lk_capacity k /\ lk_slots_scanned k' = lk_slots_scanned k + slots /\
  (lk_issues k' = [] -> lk_issues k = []).

(** The checker and the start-up scan know the same. *)
Definition same_view (k : ledger_check) (st : scan_state) : Prop :=
  lk_saw_empty k = st.1.1 /\ lk_request_ids k = dom st.2.

Lemma check_slot_run physical slot b k : same_run k (check_slot physical slot b k) 1.
Proof.
  unfold check_slot. destruct (DecodeRequestLedgerRecord b slot) as [|record|why]; try (repeat split; by intros ?%reported || done).
  cbv zeta. cbn [lk_saw_empty lk_request_ids]. destruct (lk_saw_empty k); cbn [lk_request_ids add_ledger_issue]; case_bool_decide; repeat split; try done;
    cbn [add_ledger_issue lk_issues]; intros ?; try (by apply reported in H); by destruct (lk_issues k).
Qed.

Lemma check_slot_quiet physical slot b k st : same_view k st -> 0 <= slot < 2 ^ 63 -> lk_issues k = [] -> st.1.2 = slot ->
  (lk_issues (check_slot physical slot b k) = [] <-> exists st', scan_block [b] st = Ok st') /\
  forall st', scan_block [b] st = Ok st' -> same_view (check_slot physical slot b k) st' /\ st'.1.2 = slot + 1.
Proof.
  intros [Hsaw Hids] Hslot Hk Eq. destruct st as [[saw seq] m]. cbn [fst snd] in *. subst seq. unfold check_slot. cbn [scan_block].
  assert (wrap64 (slot + 1) = slot + 1) as -> by (apply wrap64_small; word).
  destruct (DecodeRequestLedgerRecord b slot) as [|record|why].
  - split; [split; [by eexists|done]|]. intros st' [= <-]. by repeat split.
  - cbv zeta. cbn [lk_saw_empty lk_request_ids]. rewrite Hsaw. destruct saw.
    + split; [|done]. split; [|by intros [? ?]]. case_bool_decide; cbn [add_ledger_issue lk_issues]; by intros ?%reported.
    + destruct (m !! request_id record) as [old|] eqn:Em.
      * rewrite bool_decide_eq_true_2 by (rewrite Hids; apply elem_of_dom; by eexists). split; [|done]. split; [|by intros [? ?]]. cbn [add_ledger_issue lk_issues]. by intros ?%reported.
      * rewrite bool_decide_eq_false_2 by (rewrite Hids; by apply not_elem_of_dom). cbn [lk_issues lk_saw_empty lk_request_ids]. split; [split; [by eexists|done]|].
        intros st' [= <-]. split; [|done]. split; [done|]. cbn [snd lk_request_ids]. by rewrite dom_insert_L, Hids.
  - split; [|done]. split; [|by intros [? ?]]. cbn [add_ledger_issue lk_issues]. by intros ?%reported.
Qed.

Lemma same_run_refl k : same_run k k 0.
Proof. repeat split; try done. lia. Qed.

Lemma same_run_trans k1 k2 k3 a b : same_run k1 k2 a -> same_run k2 k3 b -> same_run k1 k3 (a + b).
Proof. intros (A1 & A2 & A3 & A4) (B1 & B2 & B3 & B4). repeat split; [congruence|congruence|lia|auto]. Qed.

(** A run of slots, with their numbers. *)
Fixpoint run_slots (physical slot : Z) (slots : list bytes) (k : ledger_check) : ledger_check :=
  match slots with
  | [] => k
  | b :: rest => run_slots physical (slot + 1) rest (check_slot physical slot b k)
  end.

Lemma run_slots_run physical slots : forall slot k, same_run k (run_slots physical slot slots k) (Z.of_nat (length slots)).
Proof.
  induction slots as [|b slots IH]; intros slot k; cbn [run_slots length]; [apply same_run_refl|].
  replace (Z.of_nat (S (length slots))) with (1 + Z.of_nat (length slots)) by lia. eapply same_run_trans; [apply check_slot_run|apply IH].
Qed.

Lemma run_slots_quiet physical slots : forall slot k st, same_view k st -> 0 <= slot -> slot + Z.of_nat (length slots) <= 2 ^ 63 -> lk_issues k = [] -> st.1.2 = slot ->
  (lk_issues (run_slots physical slot slots k) = [] <-> exists st', scan_block slots st = Ok st') /\
  forall st', scan_block slots st = Ok st' -> same_view (run_slots physical slot slots k) st' /\ st'.1.2 = slot + Z.of_nat (length slots).
Proof.
  induction slots as [|b slots IH]; intros slot k st Hv H0 Hlt Hk Eq.
  { cbn [run_slots]. split; [split; [by eexists|done]|]. intros st' [= <-]. split; [done|]. cbn. lia. }
  cbn [length] in Hlt. destruct (check_slot_quiet physical slot b k st Hv ltac:(lia) Hk Eq) as [Q1 Q2].
  change (b :: slots) with ([b] ++ slots). rewrite scan_block_app. change (run_slots physical slot ([b] ++ slots) k) with (run_slots physical (slot + 1) slots (check_slot physical slot b k)).
  destruct (scan_block [b] st) as [st1|er].
  - destruct (Q2 st1 eq_refl) as [V1 E1]. assert (lk_issues (check_slot physical slot b k) = []) as K1 by (apply Q1; by eexists).
    destruct (IH (slot + 1) _ st1 V1 ltac:(lia) ltac:(lia) K1 E1) as [I1 I2]. split; [exact I1|]. intros st' E. destruct (I2 st' E) as [V2 E2]. split; [done|].
    rewrite length_app. cbn [length]. lia.
  - split; [|done]. split; [|by intros [? ?]]. intros H. destruct (run_slots_run physical slots (slot + 1) (check_slot physical slot b k)) as (_ & _ & _ & Hm).
    apply Q1, Hm in H || (apply Hm, Q1 in H). destruct H. done.
Qed.

Lemma check_slots_run physical logical block k : check_slots physical logical block k = run_slots physical (logical * kEntriesPerBlock + 1) (block_slots block) k.
Proof.
  unfold check_slots, block_slots, counting. change kRequestLedgerRecordSize with 128. change kEntriesPerBlock with 32. change LedgerLen with 128%nat. change (Z.to_nat 32) with 32%nat.
  assert (forall m j k, foldl (fun k i => check_slot physical (logical * 32 + i + 1) (slice (Z.to_nat (i * 128)) (Z.to_nat 128) block) k) k (map Z.of_nat (seq j m)) =
    run_slots physical (logical * 32 + Z.of_nat j + 1) (map (fun local => slice (local * 128) 128 block) (seq j m)) k) as H.
  { induction m as [|m IH]; intros j k0; [done|]. cbn [seq map foldl run_slots]. rewrite IH. f_equal; [lia|]. f_equal. f_equal; lia. }
  rewrite (H 32%nat O k). by rewrite Z.add_0_r.
Qed.

Section ledger.
Context (r : ImageReader) (d : image).
Abbreviation sb := (rd_superblock r).
Abbreviation ibm := (inode_bitmap_ r).
Context (Hv : view_ok r d) (Hlay : layout sb).

(** * Blocks *)
Lemma ledger_blocks_total mappings : Forall (readable_block r) mappings -> forall logical k,
  exists k', answer d (check_ledger_blocks logical mappings k) = Ok k' /\ (lk_issues k' = [] -> lk_issues k = []).
Proof.
  induction 1 as [|[p|] mappings Hp _ IH]; intros logical k; cbn [check_ledger_blocks]; [by exists k| |].
  - rewrite (scanning_answer_ok d _ _ _ _ (pread_block r d Hv Hlay p (Hp p eq_refl))). rewrite check_slots_run.
    destruct (IH (logical + 1) (run_slots p (logical * kEntriesPerBlock + 1) (block_slots (block_at d p)) k)) as (k' & E & H).
    exists k'. split; [exact E|]. intros Hk. by apply (run_slots_run p (block_slots (block_at d p)) (logical * kEntriesPerBlock + 1)), H.
  - destruct (IH (logical + 1) (evidence_lost (add_ledger_issue kRequestLedgerBlockUnavailable 0 (logical * kEntriesPerBlock + 1)
      (text "ledger 逻辑块没有可验证的物理映射") k))) as (k' & E & H). exists k'. split; [exact E|]. intros Hk. by apply H, reported in Hk.
Qed.

(** The part of the check that reads the file. *)
Definition read_ledger (s : scan) (inode : InodeRecord) (k : ledger_check) : io ledger_check :=
  let size := i_size inode in
  if (size =? 0) || (kMaxFileSize <? size) || negb (size mod kBlockSize =? 0) || negb (size mod kRequestLedgerRecordSize =? 0)
  then io_ret (evidence_lost (add_ledger_issue kRequestLedgerGeometryInvalid 0 0
         (text "ledger 大小必须是非零 4 KiB 整块，且不能超过 v1 最大文件") k))
  else
  let k := with_capacity k (size / kRequestLedgerRecordSize) in
  let unavailable := io_ret (evidence_lost (add_ledger_issue kRequestLedgerBlockUnavailable 0 0
                               (text "无法取得与 ledger 文件大小一致的逻辑块映射") k)) in
  match inode_logical_blocks s !! kRequestLedgerInodeNumber with
  | None => unavailable
  | Some mappings =>
    if negb (Z.of_nat (length mappings) =? wrap32 (size / kBlockSize)) then unavailable
    else check_ledger_blocks 0 mappings k
  end.

(** The issues of the inode itself. *)
Definition inode_issues (inode : InodeRecord) (k : ledger_check) : ledger_check :=
  let k := if negb (BitmapBit ibm (kRequestLedgerInodeNumber - 1))
           then add_ledger_issue kRequestLedgerIdentityInvalid 0 0 (text "固定 ledger inode 2 在 inode bitmap 中未分配") k else k in
  if negb (S_ISREG (mode inode)) || negb (link_count inode =? 1)
  then add_ledger_issue kRequestLedgerGeometryInvalid 0 0 (text "ledger inode 必须是 link_count=1 的普通文件") k else k.

Lemma contents_shape s k : ledger_contents ibm s k =
  match decoded_inodes s !! kRequestLedgerInodeNumber with
  | None => io_ret (evidence_lost (add_ledger_issue kRequestLedgerIdentityInvalid 0 0 (text "固定 ledger inode 2 无法解码") k))
  | Some inode => read_ledger s inode (inode_issues inode k)
  end.
Proof. reflexivity. Qed.

Lemma read_ledger_total s inode k : readable_maps r s -> exists k', answer d (read_ledger s inode k) = Ok k' /\ (lk_issues k' = [] -> lk_issues k = []).
Proof.
  intros Hm. unfold read_ledger. cbv zeta. rewrite answer_if. destruct (_ || _); [eexists; split; [reflexivity|by intros ?%reported]|].
  destruct (inode_logical_blocks s !! kRequestLedgerInodeNumber) as [mappings|] eqn:Em; [|eexists; split; [reflexivity|by intros ?%reported]].
  rewrite answer_if. destruct (negb _); [eexists; split; [reflexivity|by intros ?%reported]|].
  exact (ledger_blocks_total mappings (Hm _ _ Em) 0 (with_capacity k (i_size inode / kRequestLedgerRecordSize))).
Qed.

Lemma inode_issues_kept inode k : lk_issues (inode_issues inode k) = [] -> lk_issues k = [].
Proof. unfold inode_issues. cbv zeta. destruct (negb (BitmapBit _ _)), (_ || _); try (by intros ?%reported); done. Qed.

Lemma contents_total s k : readable_maps r s -> exists k', answer d (ledger_contents ibm s k) = Ok k' /\ (lk_issues k' = [] -> lk_issues k = []).
Proof.
  intros Hm. rewrite contents_shape. destruct (decoded_inodes s !! kRequestLedgerInodeNumber) as [inode|]; [|eexists; split; [reflexivity|by intros ?%reported]].
  destruct (read_ledger_total s inode (inode_issues inode k) Hm) as (k' & E & H). exists k'. split; [exact E|]. intros Hk. by apply (inode_issues_kept inode), H.
Qed.

Lemma check_ledger_total s : readable_maps r s -> exists k, answer d (check_ledger sb ibm s) = Ok k.
Proof. intros Hm. destruct (contents_total s (ledger_identity sb s no_ledger_check) Hm) as (k & E & _). by exists k. Qed.

Lemma ledger_blocks_run ps : Forall (fun p => 0 <= p < total_blocks sb) ps -> forall logical k, 
  answer d (check_ledger_blocks logical (Some <$> ps) k) = 
  Ok (foldl (fun '(l, k) p => (l + 1, check_slots p l (block_at d p) k)) (logical, k) ps).2.
Proof.
  induction 1 as [|p ps Hp _ IH]; intros logical k; cbn [fmap list_fmap check_ledger_blocks foldl]; [done|].
  rewrite (scanning_answer_ok d _ _ _ _ (pread_block r d Hv Hlay p Hp)). apply IH.
Qed.

Abbreviation run_blocks logical ps k := (foldl (fun '(l, k) p => (l + 1, check_slots p l (block_at d p) k)) (logical, k) ps).2.

Lemma run_blocks_run ps : forall logical k, same_run k (run_blocks logical ps k) (32 * Z.of_nat (length ps)).
Proof.
  clear Hv Hlay. induction ps as [|p ps IH]; intros logical k; cbn [foldl length]; [apply same_run_refl|].
  replace (32 * Z.of_nat (S (length ps))) with (32 + 32 * Z.of_nat (length ps)) by lia. eapply same_run_trans; [|apply IH].
  rewrite check_slots_run. pose proof (run_slots_run p (block_slots (block_at d p)) (logical * kEntriesPerBlock + 1) k) as H. by rewrite length_block_slots in H.
Qed.

Lemma run_blocks_quiet ps : forall logical k st, same_view k st -> 0 <= logical -> (logical + Z.of_nat (length ps)) * 32 < 2 ^ 62 ->
  lk_issues k = [] -> st.1.2 = logical * 32 + 1 ->
  (lk_issues (run_blocks logical ps k) = [] <-> exists st', scan_block (concat (map block_slots (map (block_at d) ps))) st = Ok st').
Proof.
  clear Hv Hlay. induction ps as [|p ps IH]; intros logical k st V H0 Hlt Hk Eq; cbn [foldl map concat]; [split; [by eexists|done]|]. cbn [length] in Hlt.
  destruct (run_slots_quiet p (block_slots (block_at d p)) (logical * 32 + 1) k st V ltac:(lia) ltac:(rewrite length_block_slots; lia) Hk Eq) as [Q1 Q2].
  rewrite check_slots_run, scan_block_app. change kEntriesPerBlock with 32. set (k1 := run_slots _ _ _ k) in *.
  destruct (scan_block (block_slots (block_at d p)) st) as [st1|er].
  - destruct (Q2 st1 eq_refl) as [V1 E1]. rewrite length_block_slots in E1. apply IH; [done|lia|lia|apply Q1; by eexists|lia].
  - split; [|by intros [? ?]]. intros H. apply run_blocks_run, Q1 in H. by destruct H.
Qed.

(** * The whole check *)
Lemma reg_not_dir m : S_ISREG m = true -> S_ISDIR m = false.
Proof. unfold S_ISREG, S_ISDIR. intros E%Z.eqb_eq. by rewrite E. Qed.

Lemma bad_parts inode : bad_ledger kRequestLedgerInodeNumber inode = false <->
  S_ISREG (mode inode) = true /\ link_count inode = 1 /\ i_size inode <> 0 /\ i_size inode mod kBlockSize = 0 /\ i_size inode mod kRequestLedgerRecordSize = 0.
Proof.
  unfold bad_ledger. rewrite !orb_false_iff, !negb_false_iff, !Z.eqb_eq, Z.eqb_neq. tauto.
Qed.

Section scanned_image.
Context (fs : list found) (s : scan) (Hc : covers r d fs) (Hs : scanned r d fs s) (Hrt : allocated r (root_inode sb)) (Htypes : type_issues s = []).
Context (Hcon : consistent r d).

Lemma filter_named es e : NoDup (name <$> es) -> e ∈ es -> filter (fun x => name x = name e) es = [e].
Proof.
  clear. induction es as [|x es IH]; intros Hn He; [by apply elem_of_nil in He|]. cbn [fmap list_fmap] in Hn. apply NoDup_cons in Hn as [Hx Hn].
  rewrite filter_cons. apply elem_of_cons in He as [<-|He].
  - rewrite decide_True by done. f_equal. apply filter_none. intros y Hy E. apply Hx. rewrite <- E. by apply list_elem_of_fmap_2.
  - rewrite decide_False; [by apply IH|]. intros E. apply Hx. rewrite E. by apply list_elem_of_fmap_2.
Qed.

Definition has_ledger_entry : Prop := exists es e, directory_lists r d (root_inode sb) es /\ e ∈ es /\ name e = kRequestLedgerName /\
  de_inode e = kRequestLedgerInodeNumber /\ file_type e = kRegular.

Lemma root_listed : exists es, directory_lists r d (root_inode sb) es /\ sc_root_entries s = es /\ default false (directory_scan_complete s !! root_inode sb) = true.
Proof.
  destruct (found_of r d fs Hc _ Hrt) as (f & Hf & E). assert (S_ISDIR (mode (fd_inode f)) = true) as Hd by (by apply (found_fine r d fs Hc f Hf)).
  exists (fd_entries f). split; [rewrite <- E; by apply (lists_children r d Hv Hlay fs s)|]. split.
  - rewrite (sn_entries _ _ _ _ Hs). destruct Hc as (Hn & _). clear -Hf Hn E. induction fs as [|g l IH]; [by apply elem_of_nil in Hf|]. cbn [map concat fmap list_fmap] in *.
    apply NoDup_cons in Hn as [Hg Hn]. apply elem_of_cons in Hf as [->|Hf].
    + rewrite (proj2 (Z.eqb_eq _ _) E). assert (concat (map (fun f => if fd_number f =? root_inode sb then fd_entries f else []) l) = []) as ->; [|apply app_nil_r].
      apply concat_map_nil. intros h Hh. destruct (Z.eqb_spec (fd_number h) (root_inode sb)) as [E'|]; [|done]. exfalso. apply Hg. rewrite E, <- E'. by apply list_elem_of_fmap_2.
    + rewrite (proj2 (Z.eqb_neq _ _)); [by apply IH|]. intros E'. apply Hg. rewrite E', <- E. by apply list_elem_of_fmap_2.
  - assert (directory_scan_complete s !! root_inode sb = Some true) as ->; [|done]. apply (sn_complete _ _ _ _ Hs). split; [done|]. by exists f.
Qed.

Lemma identity_quiet : (has_ledger_entry /\ ledger_identity sb s no_ledger_check = no_ledger_check) \/
  (~ has_ledger_entry /\ lk_issues (ledger_identity sb s no_ledger_check) <> []).
Proof.
  destruct root_listed as (es & Hl & Ees & Ecomp). unfold ledger_identity. rewrite Ees, Ecomp. cbn [negb].
  assert (forall es', directory_lists r d (root_inode sb) es' -> es' = es) as Huniq.
  { intros es' Hl'. apply (lists_iff r d Hv) in Hl, Hl'. by apply (lists_unique _ _ _ _ Hl' Hl). }
  assert (NoDup (name <$> es)) as Hn by (destruct Hl as (? & ? & _ & _ & _ & _ & ? & _); done).
  destruct (filter (fun entry => name entry = kRequestLedgerName) es) as [|e0 l] eqn:Ef.
  { right. split; [|done]. intros (es' & e & Hl' & He & Hne & _). rewrite (Huniq es' Hl') in He. revert Ef. rewrite filter_none. intros H. by apply (H e). }
  assert (e0 ∈ filter (fun entry => name entry = kRequestLedgerName) es) as Hin by (rewrite Ef; by left). apply list_elem_of_filter in Hin as [Hname He0].
  pose proof (filter_named es e0 Hn He0) as Ef'. rewrite Hname in Ef'. rewrite Ef in Ef'. injection Ef' as ->.
  assert (has_ledger_entry <-> de_inode e0 = kRequestLedgerInodeNumber /\ file_type e0 = kRegular) as Hiff.
  { split; [|intros [? ?]; by exists es, e0]. intros (es' & e & Hl' & He & Hne & Hi & Ht). rewrite (Huniq es' Hl') in He.
    assert (e ∈ filter (fun entry => name entry = kRequestLedgerName) es) as Hin by (by apply list_elem_of_filter). rewrite Ef in Hin.
    by apply list_elem_of_singleton in Hin as ->. }
  rewrite Hiff. destruct (Z.eqb_spec (de_inode e0) kRequestLedgerInodeNumber) as [Ei|Ei]; cbn [negb orb]; [|right; split; [by intros [? _]|done]].
  case_bool_decide as Et; cbn [negb]; [by left|right; split; [by intros [_ ?]|done]].
Qed.

(** The ledger the service would load. *)
Definition ledger_loads : Prop := exists inode index, ledger_file r d inode /\ ScanBlocks (file_blocks d inode) = Ok index.

Lemma loads_iff : ledger_loads <-> has_ledger_entry /\ exists inode, answer d (ReadInode r kRequestLedgerInodeNumber) = Ok inode /\
  bad_ledger kRequestLedgerInodeNumber inode = false /\ exists st, scan_block (concat (map block_slots (file_blocks d inode))) (false, 1, ∅) = Ok st.
Proof.
  unfold ledger_loads. assert (forall blocks, (exists index, ScanBlocks blocks = Ok index) <-> exists st, scan_block (concat (map block_slots blocks)) (false, 1, ∅) = Ok st) as Hsb.
  { intros blocks. unfold ScanBlocks. rewrite scan_block_slots. destruct (scan_block _ _) as [[[b q] m]|er]; [split; by eexists|]. split; by intros [? ?]. }
  split.
  - intros (inode & index & Hl & E). pose proof (proj1 (ledger_file_iff r d Hcon inode) Hl) as ((es & e & Hlist & He & Hne & Hi) & Hr & Hb).
    apply (lists_iff r d Hv) in Hlist. split; [|exists inode; split; [done|]; split; [done|]; apply Hsb; by eexists].
    exists es, e. split; [done|]. split; [done|]. split; [done|]. split; [done|]. destruct Hlist as (_ & _ & _ & _ & _ & _ & _ & Hch).
    rewrite Forall_forall in Hch. destruct (Hch e He) as (c & Hrc & Hty). rewrite Hi in Hrc. change ledger_inode with kRequestLedgerInodeNumber in *.
    rewrite Hr in Hrc. apply Ok_inj in Hrc as <-. apply bad_parts in Hb as (Hreg & _). unfold IsDirectoryType in Hty. destruct (file_type e); try done.
    by rewrite (reg_not_dir _ Hreg) in Hty.
  - intros [(es & e & Hlist & He & Hne & Hi & _) (inode & Hr & Hb & Hst)]. apply Hsb in Hst as [index E]. exists inode, index. split; [|done].
    apply (ledger_file_iff r d Hcon). split; [|done]. exists es, e. split; [by apply (lists_iff r d Hv)|done].
Qed.

Definition ledger_accepted (k : ledger_check) : Prop :=
  lk_issues k = [] /\ lk_evidence_complete k && (lk_slots_scanned k =? lk_capacity k) = true.

Lemma whole_blocks inode : inode_valid r d inode -> i_size inode mod kBlockSize = 0 -> required_blocks inode * 4096 = i_size inode.
Proof.
  intros Hval Hm. destruct (required_spec inode (iv_size _ _ _ Hval)) as [-> _]. unfold kBlockSize in *. pose proof (iv_size _ _ _ Hval).
  pose proof (Z.div_mod (i_size inode) 4096 ltac:(lia)) as E. rewrite Hm in E. rewrite E at 1. rewrite (Z.mul_comm 4096), Z.add_0_r, Z.add_comm, Z.div_add, Z.div_small by lia. lia.
Qed.

(** A file with the size of a ledger. *)
Lemma read_ledger_quiet inode : answer d (ReadInode r kRequestLedgerInodeNumber) = Ok inode ->
  exists k, answer d (read_ledger s inode no_ledger_check) = Ok k /\
    (ledger_accepted k <-> (i_size inode <> 0 /\ i_size inode mod kBlockSize = 0 /\ i_size inode mod kRequestLedgerRecordSize = 0) /\
       exists st, scan_block (concat (map block_slots (file_blocks d inode))) (false, 1, ∅) = Ok st).
Proof.
  intros Hr. destruct (read_inode_valid r d Hv _ _ Hr) as (Hval & _). apply (read_found r d Hv Hlay fs Hc) in Hr as (g & Hg & En & Ei).
  assert (inode_logical_blocks s !! kRequestLedgerInodeNumber = Some (Some <$> file_pointers d inode)) as Hmap
    by (apply (sn_logical _ _ _ _ Hs); exists g; by rewrite Ei).
  pose proof (iv_size _ _ _ Hval) as Hsz. destruct (required_spec inode Hsz) as [_ Hrb].
  unfold read_ledger. cbv zeta. rewrite answer_if, Hmap. rewrite (proj2 (Z.ltb_ge kMaxFileSize (i_size inode))), orb_false_r by lia.
  destruct (Z.eqb_spec (i_size inode) 0) as [E0|E0]; cbn [orb]; [eexists; split; [reflexivity|]; split; [by intros [?%reported _]|tauto]|].
  destruct (Z.eqb_spec (i_size inode mod kBlockSize) 0) as [E1|E1]; cbn [negb orb]; [|eexists; split; [reflexivity|]; split; [by intros [?%reported _]|tauto]].
  destruct (Z.eqb_spec (i_size inode mod kRequestLedgerRecordSize) 0) as [E2|E2]; cbn [negb]; [|eexists; split; [reflexivity|]; split; [by intros [?%reported _]|tauto]].
  pose proof (whole_blocks inode Hval E1) as Hw. assert (length (file_pointers d inode) = Z.to_nat (required_blocks inode)) as Hlen by (unfold file_pointers; by rewrite length_map, length_counting).
  assert (i_size inode / kBlockSize = required_blocks inode) as Hq by (rewrite <- Hw; unfold kBlockSize; by rewrite Z.div_mul).
  rewrite answer_if, length_fmap, Hlen, Hq, (wrap32_small (required_blocks inode)), Z2Nat.id, Z.eqb_refl by word. cbn [negb].
  assert (Forall (fun p => 0 <= p < total_blocks sb) (file_pointers d inode)) as Hps.
  { apply Forall_forall. intros p (l & -> & Hl%elem_counting)%list_elem_of_fmap. by apply (map_valid r d Hv inode l Hval). }
  set (k0 := with_capacity no_ledger_check (i_size inode / kRequestLedgerRecordSize)). exists (run_blocks 0 (file_pointers d inode) k0).
  split; [exact (ledger_blocks_run _ Hps 0 k0)|]. destruct (run_blocks_run (file_pointers d inode) 0 k0) as (R1 & R2 & R3 & _).
  unfold ledger_accepted. rewrite R1, R2, R3, Hlen. rewrite (run_blocks_quiet (file_pointers d inode) 0 k0 (false, 1, ∅)); [|done|lia|rewrite Hlen; lia|done|done].
  rewrite file_blocks_pointers. change (lk_evidence_complete k0) with true. change (lk_slots_scanned k0) with 0. change (lk_capacity k0) with (i_size inode / kRequestLedgerRecordSize).
  assert ((0 + 32 * Z.of_nat (Z.to_nat (required_blocks inode)) =? i_size inode / kRequestLedgerRecordSize) = true) as ->; [|cbn [andb]; tauto].
  apply Z.eqb_eq. rewrite Z2Nat.id, <- Hw by lia. change kRequestLedgerRecordSize with 128. replace (required_blocks inode * 4096) with (required_blocks inode * 32 * 128) by lia.
  rewrite Z.div_mul by done. lia.
Qed.

(** The ledger is accepted exactly if the service would load it. *)
Lemma check_ledger_quiet : readable_maps r s -> exists k, answer d (check_ledger sb ibm s) = Ok k /\ (ledger_accepted k <-> ledger_loads).
Proof.
  intros Hm. setoid_rewrite loads_iff. unfold check_ledger. destruct identity_quiet as [[He ->]|[He Hi]].
  2: { destruct (contents_total s (ledger_identity sb s no_ledger_check) Hm) as (k & E & H). exists k. split; [exact E|]. split; [|tauto]. intros [Hk _]. by apply H in Hk. }
  rewrite contents_shape. destruct (decoded_inodes s !! kRequestLedgerInodeNumber) as [inode|] eqn:Ed.
  2: { eexists. split; [reflexivity|]. split; [by intros [?%reported _]|]. intros (_ & inode & (f & Hf & En & _)%(read_found r d Hv Hlay fs Hc) & _).
       pose proof (found_decoded r d fs s Hs f Hf). congruence. }
  apply (sn_decoded _ _ _ _ Hs) in Ed as (g & Hg & En & Ei). assert (answer d (ReadInode r kRequestLedgerInodeNumber) = Ok inode) as Hr
    by (apply (read_found r d Hv Hlay fs Hc); by exists g). pose proof (read_allocated r d Hv Hlay _ _ Hr) as [_ Hbit].
  assert (forall inode', answer d (ReadInode r kRequestLedgerInodeNumber) = Ok inode' -> inode' = inode) as Hu by (intros i' E'; rewrite Hr in E'; by apply Ok_inj in E').
  unfold inode_issues, BitmapBit. rewrite Hbit. cbn [negb]. destruct (S_ISREG (mode inode)) eqn:Ereg, (Z.eqb_spec (link_count inode) 1) as [El|El]; cbn [negb orb].
  { destruct (read_ledger_quiet inode Hr) as (k & E & H). exists k. split; [exact E|]. rewrite H. split.
    - intros [Hb Hst]. split; [done|]. exists inode. split; [done|]. split; [by apply bad_parts|done].
    - intros (_ & inode' & Hr' & Hb & Hst). rewrite (Hu _ Hr') in *. apply bad_parts in Hb as (_ & _ & Hb). done. }
  all: destruct (read_ledger_total s inode (add_ledger_issue kRequestLedgerGeometryInvalid 0 0 (text "ledger inode 必须是 link_count=1 的普通文件") no_ledger_check) Hm) as (k & E & H);
    exists k; (split; [exact E|]); (split; [intros [Hk _]; by apply H, reported in Hk|]); intros (_ & inode' & Hr' & Hb & _); rewrite (Hu _ Hr') in *;
    apply bad_parts in Hb as (? & ? & _); congruence.
Qed.
End scanned_image.
End ledger.
