(* ===== verification/CheckerTheorems.v ===== *)
(** The guarantees of the offline checker: it always comes to a report on an
    image whose superblock and journal control can be used, it writes nothing,
    and its verdict is "healthy" exactly if the image is consistent, has a clean
    journal, is a tree without lost blocks and has a ledger the service loads. *)
From stdpp Require Import relations.
From S2P Require Import Prelude Codec OndiskFormat OndiskFormatProofs OndiskJournal OndiskJournalProofs Disk.
From S2P Require Import JournalStore JournalImage JournalStates JournalExample JournalTheorems BitmapAllocator.
From S2P Require Import RequestLedger ImageReader ImageReaderProofs ReaderTheorems LedgerStore FileMutation.
From S2P Require Import ConsistentImage PlanProofs FileMutationProofs FileContents Publication FileTheorems FileSystem.
From S2P Require Import LedgerFiles Mkfs MkfsBitmaps MkfsFormat MkfsImage MkfsTheorems CheckReport CheckerGraph.
From S2P Require Import Checker CheckerPointers CheckerDirectories CheckerScan CheckerQueue CheckerConclusions.
From S2P Require Import CheckerSpec CheckerLedger.
Import ControlSelection.
Open Scope Z_scope.
Open Scope io_scope.

(** An image in order. *)
Record healthy_image (r : ImageReader) (d : image) : Prop := {
  he_consistent : consistent r d;
  he_journal : used_blocks (rd_journal_control r) = 0;
  he_tidy : tidy r d;
  he_ledger : ledger_enabled (rd_superblock r) = true -> exists index, answer d (ScanRequestLedger r) = Ok index
}.

(** * The bitmaps *)
Lemma summary_none bitmap first last : SummarizeClearBits bitmap first last = None <-> forall k, first <= k < last -> TestBit bitmap k = true.
Proof.
  unfold SummarizeClearBits, BitmapBit.
  assert (forall l x, (foldl (fun summary bit => if TestBit bitmap bit then summary else
    match summary with None => Some (bit, 1) | Some (first_bit, count) => Some (first_bit, count + 1) end) x l = None <->
    x = None /\ forall k, k ∈ l -> TestBit bitmap k = true)) as H.
  { induction l as [|b l IH]; intros x; cbn [foldl]; [split; [intros ->; split; [done|]; by intros k ?%not_elem_of_nil|by intros [? _]]|].
    rewrite IH. setoid_rewrite elem_of_cons. destruct (TestBit bitmap b) eqn:Eb.
    - split; intros [Hx Hl]; (split; [done|]); [intros k [->|?]; auto|auto].
    - split; [intros [Hx _]; by destruct x as [[]|]|]. intros [_ Hl]. specialize (Hl b (or_introl eq_refl)). congruence. }
  rewrite H. setoid_rewrite elem_of_seqZ. split; [intros [_ Hk] k ?; apply Hk; lia|intros Hk; split; [done|]; intros k ?; apply Hk; lia].
Qed.

Lemma bitmap_issue_nil code f x detail : AddBitmapIssue code f x detail = [] <-> x = None.
Proof. by destruct x as [[]|]. Qed.

(** What is known of a reader before anything but the fixed blocks was looked at. *)
Record prepared (r : ImageReader) (d : image) : Prop := {
  pp_view : view_ok r d;
  pp_image : image_ok (rd_superblock r) (image_size_ r) d;
  pp_control : selected (rd_superblock r) d = Ok (rd_journal_control r, rd_journal_control_copy r);
  pp_inode_bitmap : read_range d (start_block (inode_bitmap (rd_superblock r)) * kBlockSize)
    (block_count (inode_bitmap (rd_superblock r)) * kBlockSize) = Some (inode_bitmap_ r);
  pp_block_bitmap : read_range d (start_block (block_bitmap (rd_superblock r)) * kBlockSize)
    (block_count (block_bitmap (rd_superblock r)) * kBlockSize) = Some (block_bitmap_ r)
}.

Lemma opened_prepared r d : opened r d -> prepared r d.
Proof. intros []. by constructor. Qed.

Section image.
Context (strerror : errno -> bytes) (r : ImageReader) (d : image) (Hp : prepared r d).
Abbreviation sb := (rd_superblock r).
Abbreviation ibm := (inode_bitmap_ r).
Abbreviation bbm := (block_bitmap_ r).
Abbreviation rt := (root_inode sb).
Let Hv : view_ok r d := pp_view _ _ Hp.

Lemma prepared_layout : layout sb.
Proof.
  destruct (pp_image _ _ Hp) as [(b & Hb & Hdec) G _ _ _]. apply validated_layout; [apply G|].
  apply (SuperblockCodec.encode_validated _ b), SuperblockCodec.superblock_encode_decode; [|done]. apply (vo_wf _ _ Hv _ _ Hb).
Qed.
Let Hlay : layout sb := prepared_layout.

Lemma bitmap_issues_nil : bitmap_issues sb ibm bbm = [] <->
  (forall n, 0 <= n < start_block (data sb) -> TestBit bbm n = true) /\
  (forall n, total_inodes sb <= n < Z.of_nat (length ibm) * 8 -> TestBit ibm n = true) /\
  (forall n, total_blocks sb <= n < Z.of_nat (length bbm) * 8 -> TestBit bbm n = true) /\ TestBit ibm (rt - 1) = true.
Proof.
  unfold bitmap_issues. rewrite !app_nil, !bitmap_issue_nil, !summary_none. unfold BitmapBit. destruct (TestBit ibm (rt - 1)); cbn [negb]; [tauto|].
  split; [by intros (_ & _ & _ & ?)|by intros (_ & _ & _ & ?)].
Qed.

Lemma opened_iff : opened r d <-> bitmap_issues sb ibm bbm = [] /\ exists root, answer d (ReadInode r rt) = Ok root /\ S_ISDIR (mode root) = true.
Proof.
  rewrite bitmap_issues_nil. split.
  - intros Ho. destruct (op_root _ _ Ho) as (root & E & Hd). pose proof (read_allocated r d Hv Hlay _ _ E) as [_ Hb]. destruct Ho. split; [done|]. by exists root.
  - intros [(H1 & H2 & H3 & _) H4]. constructor; try apply Hp; done.
Qed.

Lemma loads_scan : ledger_enabled sb = true -> (ledger_loads r d <-> exists index, answer d (ScanRequestLedger r) = Ok index).
Proof.
  intros He. unfold ledger_enabled in He. apply negb_true_iff, Z.eqb_neq in He. pose proof (img_features _ _ _ (pp_image _ _ Hp)) as Hf. unfold ledger_loads. split.
  - intros (inode & index & Hl & E). exists index. apply (scan_answer r d Hv). split; [done|]. split; [done|]. by exists inode.
  - intros (index & (_ & _ & inode & Hl & E)%(scan_answer r d Hv)). by exists inode, index.
Qed.

Lemma reachability_some s : exists reachable flag, reachability sb s = Some (reachable, flag).
Proof.
  destruct (reach_ends (directory_edges s) (fun k => (fun inode => S_ISDIR (mode inode)) <$> decoded_inodes s !! k)
    (fun k => default false (directory_scan_complete s !! k)) rt) as [[reachable flag] E]. by exists reachable, flag.
Qed.

Lemma unreachable_some reachable flag : total_inodes sb < 4294967295 -> exists unreachable, unreachable_issues sb ibm reachable flag = Some unreachable.
Proof.
  intros Hsmall. destruct flag; [|by exists []]. rewrite (unreachable_lists r) by (pose proof (lay_root _ Hlay); lia). by eexists.
Qed.

(** With the greatest number of inodes the first loop over them never ends. *)
Lemma check_image_stuck : total_inodes sb = 4294967295 -> answer d (check_image strerror sb ibm bbm) = Ok None.
Proof. intros E. unfold check_image, queue_inodes, for_inodes. by rewrite E, inode_loop_never by word. Qed.

(** ** The report *)
Definition found_issues (s : scan) (back : list (Z * Z)) (unreachable : list CheckIssue) : list CheckIssue :=
  sc_issues s ++ unreferenced_issues sb bbm s ++ lc_issues (count_links sb s) ++ concat (map snd (link_evidence sb s (count_links sb s))) ++
  type_issues s ++ cycle_issues back ++ hard_link_issues s ++ unreachable.

Definition ledger_complete (k : ledger_check) : bool :=
  if ledger_enabled sb then lk_evidence_complete k && (lk_slots_scanned k =? lk_capacity k) else true.

Lemma check_image_answer first s back reachable flag unreachable k : queue_inodes sb ibm (first_scan (bitmap_issues sb ibm bbm)) = Some first ->
  answer d (scan_queue strerror sb ibm bbm (Z.to_nat (total_inodes sb)) first) = Ok s ->
  directory_cycles (directory_edges s) (is_decoded_directory s) (decoded_directories s) = Some back -> reachability sb s = Some (reachable, flag) ->
  unreachable_issues sb ibm reachable flag = Some unreachable ->
  answer d (if ledger_enabled sb then check_ledger sb ibm s else io_ret no_ledger_check) = Ok k ->
  exists report, answer d (check_image strerror sb ibm bbm) = Ok (Some report) /\
    (ClassifyReport report = kHealthy <-> (sc_status s = kComplete /\ is_Some (sc_root_inode s) /\ flag = true /\ sc_block_complete s = true /\
       lc_complete (count_links sb s) = true /\ ledger_complete k = true) /\ found_issues s back unreachable = [] /\ lk_issues k = []).
Proof.
  intros Ef Es Eb Er Eu Ek. unfold check_image. rewrite Ef, (scanning_answer_ok d _ _ s _ Es). cbv zeta. rewrite Eb, Er, Eu.
  rewrite (scanning_answer_ok d _ _ k _ Ek). eexists. split; [reflexivity|].
  unfold ClassifyReport, IsEvidenceComplete. cbn [cr_status bitmap_geometry_scan_complete root_inode_decoded root_reachability_complete
    block_reference_scan_complete inode_reference_scan_complete request_ledger_scan_complete issues].
  fold (ledger_complete k). fold (found_issues s back unreachable). rewrite <- app_nil.
  destruct (ledger_complete k); [|rewrite !andb_false_r; cbn [negb]; split; [done|by intros ((_ & _ & _ & _ & _ & ?) & _)]]. rewrite !andb_true_r.
  destruct (bool_decide_reflect (sc_status s = kComplete)), (bool_decide_reflect (is_Some (sc_root_inode s))), flag, (sc_block_complete s), (lc_complete (count_links sb s));
    cbn [negb andb]; try (split; [done|tauto]); try (split; [done|by intros ((_ & _ & ? & _) & _)]); try (split; [done|by intros ((_ & _ & _ & ? & _) & _)]);
    try (split; [done|by intros ((_ & _ & _ & _ & ? & _) & _)]).
  destruct (found_issues _ _ _ ++ lk_issues k); split; try done. by intros [_ ?].
Qed.

(** The scan found nothing: the image is consistent, and the later checks decide. *)
Lemma quiet_scan fs s back reachable flag unreachable : total_inodes sb < 4294967295 -> covers r d fs -> scanned r d fs s -> bitmap_issues sb ibm bbm = [] ->
  directory_cycles (directory_edges s) (is_decoded_directory s) (decoded_directories s) = Some back -> reachability sb s = Some (reachable, flag) ->
  unreachable_issues sb ibm reachable flag = Some unreachable ->
  consistent r d /\ allocated r rt /\ (sc_status s = kComplete /\ is_Some (sc_root_inode s) /\ flag = true /\ sc_block_complete s = true /\ lc_complete (count_links sb s) = true) /\
  (found_issues s back unreachable = [] <-> tidy r d) /\ (tidy r d -> type_issues s = []).
Proof.
  intros Hsmall Hc Hs Hb Eb Er Eu. assert (allocated r rt) as Hrt by (split; [apply Hlay|by apply bitmap_issues_nil in Hb as (_ & _ & _ & ?)]).
  destruct (found_of r d fs Hc rt Hrt) as (f & Hf & Ef).
  assert (opened r d) as Ho.
  { apply opened_iff. split; [done|]. exists (fd_inode f). rewrite <- Ef. split; [apply (found_fine r d fs Hc f Hf)|by apply (found_fine r d fs Hc f Hf)]. }
  pose proof (covers_consistent r d Ho fs Hc) as Hcon. destruct (reachability_spec r d Hv fs s Hc Hs Hrt) as (reachable' & Er' & Hreach).
  rewrite Er in Er'. injection Er' as <- ->. rewrite (unreachable_lists r) in Eu by (pose proof (lay_root _ Hlay); lia). injection Eu as <-. destruct (cycles_spec s) as (back' & Eb' & Hcyc). rewrite Eb in Eb'. injection Eb' as <-.
  assert (nothing_found r s reachable back <-> tidy r d) as Htidy.
  { split; [by apply (found_tidy r d Hv Hlay fs s Hc Hs)|by apply (tidy_found r d Hv Hlay fs s Hc Hs)]. }
  split; [done|]. split; [done|]. split; [|split].
  - split; [apply Hs|]. split; [rewrite (sn_root _ _ _ _ Hs f Hf Ef); by eexists|]. split; [done|]. split; [apply Hs|]. apply (counts_spec r d Hv fs s Hc Hs).
  - rewrite <- Htidy. unfold found_issues, nothing_found. rewrite !app_nil. pose proof (sn_issues _ _ _ _ Hs).
    assert (forall A B (f : A -> B) l, map f l = [] <-> l = []) as -> by (by intros A B h [|]). tauto.
  - intros Ht. by apply Htidy in Ht as (_ & _ & _ & ? & _).
Qed.

Lemma ledger_step s : readable_maps r s -> exists k, answer d (if ledger_enabled sb then check_ledger sb ibm s else io_ret no_ledger_check) = Ok k /\
  forall fs, covers r d fs -> scanned r d fs s -> allocated r rt -> type_issues s = [] -> consistent r d ->
    (ledger_complete k = true /\ lk_issues k = [] <-> (ledger_enabled sb = true -> exists index, answer d (ScanRequestLedger r) = Ok index)).
Proof.
  intros Hm. unfold ledger_complete. destruct (ledger_enabled sb) eqn:He; [|exists no_ledger_check; by split].
  destruct (check_ledger_total r d Hv Hlay s Hm) as (k & Ek). exists k. split; [exact Ek|]. intros fs Hc Hs Hrt Ht Hcon.
  destruct (check_ledger_quiet r d Hv Hlay fs s Hc Hs Hrt Ht Hcon Hm) as (k' & Ek' & Hk). rewrite Ek in Ek'. apply Ok_inj in Ek' as <-.
  rewrite (loads_scan He) in Hk. unfold ledger_accepted in Hk. tauto.
Qed.

Lemma check_image_healthy : total_inodes sb < 4294967295 -> exists report, answer d (check_image strerror sb ibm bbm) = Ok (Some report) /\
  (ClassifyReport report = kHealthy <-> consistent r d /\ tidy r d /\ (ledger_enabled sb = true -> exists index, answer d (ScanRequestLedger r) = Ok index)).
Proof.
  intros Hsmall. destruct (scan_outcome strerror r d Hv Hlay (bitmap_issues sb ibm bbm) Hsmall) as (first & s & Ef & Es & Hm & H1 & H2); [by intros (_ & _ & _ & ?)%bitmap_issues_nil|].
  destruct (cycles_spec s) as (back & Eb & _). destruct (reachability_some s) as (reachable & flag & Er). destruct (ledger_step s Hm) as (k & Ek & Hk).
  destruct (unreachable_some reachable flag Hsmall) as [unreachable Eu].
  destruct (check_image_answer first s back reachable flag unreachable k Ef Es Eb Er Eu Ek) as (report & E & Hrep). exists report. split; [exact E|]. rewrite Hrep. split.
  - intros ((_ & _ & _ & _ & _ & Hlc) & Hfound & Hki). assert (sc_issues s = []) as Hs0 by (unfold found_issues in Hfound; by apply app_nil in Hfound as [? _]).
    pose proof (proj1 (proj1 H1 Hs0)) as Hb. destruct (H2 Hs0) as (fs & Hc & Hs). destruct (quiet_scan fs s back reachable flag unreachable Hsmall Hc Hs Hb Eb Er Eu) as (Hcon & Hrt & _ & Ht & Hty).
    apply Ht in Hfound. split; [done|]. split; [done|]. apply (Hk fs Hc Hs Hrt (Hty Hfound) Hcon). done.
  - intros (Hcon & Htidy & Hled). pose proof (co_opened _ _ Hcon) as Ho. destruct (proj1 opened_iff Ho) as [Hb _].
    destruct (consistent_covers r d Ho Hcon (td_lists _ _ Htidy)) as [fs0 Hc0]. assert (sc_issues s = []) as Hs0 by (apply H1; split; [done|by exists fs0]).
    destruct (H2 Hs0) as (fs & Hc & Hs). destruct (quiet_scan fs s back reachable flag unreachable Hsmall Hc Hs Hb Eb Er Eu) as (_ & Hrt & Hfl & Ht & Hty).
    pose proof (proj2 (Hk fs Hc Hs Hrt (Hty Htidy) Hcon) Hled) as [Hlc Hki]. apply Ht in Htidy. tauto.
Qed.
End image.

(** * The fixed blocks *)
Definition whole (d : image) (size : Z) : Prop :=
  (forall n, 0 <= n < size / kBlockSize -> is_Some (d !! n)) /\ (forall n b, d !! n = Some b -> block_wf b).

Lemma pread_ok d offset size b : answer d (CheckPreadAll offset size) = Ok b -> read_range d offset size = Some b.
Proof. unfold CheckPreadAll. rewrite answer_if. destruct (_ || _); [done|]. apply exact_at_range. Qed.

Lemma pread_go d offset size b : 0 <= offset -> 0 <= size -> offset + size <= off_t_max -> read_range d offset size = Some b ->
  answer d (CheckPreadAll offset size) = Ok b.
Proof.
  intros H1 H2 H3 E. unfold CheckPreadAll. rewrite answer_if, (proj2 (Z.ltb_ge _ _)), (proj2 (Z.ltb_ge _ _)) by lia. cbn [orb].
  unfold answer. by rewrite (exact_at_go (mkEnv d 0 [] []) offset size b eq_refl E).
Qed.

Lemma image_view sb size d : image_ok sb size d -> (forall n b, d !! n = Some b -> block_wf b) ->
  forall jc jcc ib bb, view_ok (mkReader size sb jc jcc ib bb) d.
Proof.
  intros Hi Hwf jc jcc ib bb. pose proof (img_geometry _ _ _ Hi) as Hg. constructor; cbn [rd_superblock image_size_]; [apply Hi| |apply Hi|done].
  rewrite (geo_data _ Hg). pose proof (geo_js _ Hg). pose proof (geo_count _ Hg). lia.
Qed.

(** The fixed blocks can be used: the rest of a reader is there. *)
Lemma prepared_of sb size d jc jcc : image_ok sb size d -> (forall n b, d !! n = Some b -> block_wf b) -> selected sb d = Ok (jc, jcc) ->
  prepared (mkReader size sb jc jcc (region_bytes d (start_block (inode_bitmap sb)) (block_count (inode_bitmap sb)))
    (region_bytes d (start_block (block_bitmap sb)) (block_count (block_bitmap sb)))) d.
Proof.
  intros Hi Hwf Hsel. destruct (img_super _ _ _ Hi) as (b & Hb & Hdec). pose proof (img_geometry _ _ _ Hi) as Hg.
  assert (layout sb) as Hlay.
  { apply validated_layout; [apply Hg|]. apply (SuperblockCodec.encode_validated _ b), SuperblockCodec.superblock_encode_decode; [|done]. apply (Hwf _ _ Hb). }
  destruct Hlay as [_ L1 L2 L3 L4 [L5 _] [L6 _] L7 L8]. pose proof (geo_bounds _ Hg) as (_ & _ & _ & Hjt). pose proof (geo_count _ Hg) as Hcount.
  assert (0 <= block_count (inode_table sb)) as L9 by lia.
  assert (forall start count, 0 <= start -> 0 <= count -> start + count <= js sb -> read_range d (start * kBlockSize) (count * kBlockSize) = Some (region_bytes d start count)) as Hreg.
  { intros start count H1 H2 H3. apply read_region; [done|done|]. intros i Hx. destruct (img_blocks _ _ _ Hi (start + i) ltac:(lia)) as (b' & E & [Hl _]). by exists b'. }
  constructor; cbn [rd_superblock image_size_ rd_journal_control rd_journal_control_copy inode_bitmap_ block_bitmap_]; [by apply image_view|done|done| |]; apply Hreg; lia.
Qed.

Lemma prepared_unique r r' d : prepared r d -> prepared r' d -> r = r'.
Proof.
  intros [_ I1 C1 A1 B1] [_ I2 C2 A2 B2]. destruct (img_super _ _ _ I1) as (b & Hb & E1), (img_super _ _ _ I2) as (b' & Hb' & E2).
  rewrite Hb in Hb'. injection Hb' as <-. rewrite E1 in E2. apply Ok_inj in E2. pose proof (img_size _ _ _ I1) as S1. pose proof (img_size _ _ _ I2) as S2.
  destruct r as [sz sb jc jcc ib bb], r' as [sz' sb' jc' jcc' ib' bb']. cbn [rd_superblock image_size_ rd_journal_control rd_journal_control_copy inode_bitmap_ block_bitmap_] in *.
  subst sb' sz sz'. rewrite C1 in C2. apply Ok_inj in C2. rewrite A1 in A2. rewrite B1 in B2. congruence.
Qed.

Section file.
Context (strerror : errno -> bytes) (d : image).

Lemma check_file_answer r : prepared r d -> answer d (check_file strerror (image_size_ r)) =
  if used_blocks (rd_journal_control r) =? 0 then answer d (check_image strerror (rd_superblock r) (inode_bitmap_ r) (block_bitmap_ r))
  else Ok (Some (recovery_required (rd_superblock r))).
Proof.
  intros Hp. pose proof (prepared_layout r d Hp) as Hlay. pose proof Hp as [Hv Hi Hc Hib Hbb]. destruct (img_super _ _ _ Hi) as (b0 & Hb0 & Esb).
  pose proof (img_geometry _ _ _ Hi) as Hg. destruct (img_geometry _ _ _ Hi) as [(Htb & _) Hjs Hjc _ _]. pose proof (geo_bounds _ Hg) as (_ & _ & _ & Hjt).
  pose proof (img_size _ _ _ Hi) as Hsz. assert (0 <= total_blocks (rd_superblock r) < 2 ^ 32) as Hu by (clear -Htb; word).
  assert (forall n, 0 <= n < total_blocks (rd_superblock r) -> answer d (CheckPreadAll (n * kBlockSize) kBlockSize) = Ok (block_of d n)) as Hblk.
  { intros n Hn. rewrite (pread_block r d Hv Hlay n Hn). destruct (img_blocks _ _ _ Hi n Hn) as (b & E & _). unfold block_at, block_of. by rewrite E. }
  assert (forall start count b, 0 <= start -> 0 <= count -> start + count <= js (rd_superblock r) ->
    read_range d (start * kBlockSize) (count * kBlockSize) = Some b -> answer d (CheckPreadAll (start * kBlockSize) (count * kBlockSize)) = Ok b) as Hreg.
  { intros start count b H1 H2 H3 E. apply pread_go; [unfold kBlockSize; lia..| |done]. unfold off_t_max, kBlockSize. lia. }
  unfold check_file. rewrite answer_if, (proj2 (Z.ltb_ge _ _)) by (rewrite Hsz; unfold kBlockSize; lia).
  pose proof (Hblk 0 ltac:(lia)) as E0. unfold block_of in E0. rewrite Hb0 in E0. change (0 * kBlockSize) with 0 in E0. change (default zero_block (Some b0)) with b0 in E0.
  rewrite (scanning_answer_ok d _ _ _ _ E0), Esb. rewrite !answer_if, (img_features _ _ _ Hi), <- Hsz, !Z.eqb_refl. cbn [negb]. cbv zeta.
  rewrite (scanning_answer_ok d _ _ _ _ (Hblk (start_block (journal (rd_superblock r))) ltac:(unfold js in *; lia))).
  replace (start_block (journal (rd_superblock r)) * kBlockSize + kBlockSize) with ((start_block (journal (rd_superblock r)) + 1) * kBlockSize) by lia.
  rewrite (scanning_answer_ok d _ _ _ _ (Hblk (start_block (journal (rd_superblock r)) + 1) ltac:(unfold js in *; lia))).
  rewrite (ring_size_eq _ Hg). unfold selected, select, controls, control_block, js in Hc. rewrite Z.add_0_r in Hc. rewrite Hc, answer_if.
  destruct (used_blocks (rd_journal_control r) =? 0); cbn [negb]; [|done]. destruct Hlay as [_ L1 L2 L3 L4 [L5 _] [L6 _] L7 L8].
  rewrite (scanning_answer_ok d _ _ _ _ (Hreg (start_block (inode_bitmap (rd_superblock r))) (block_count (inode_bitmap (rd_superblock r))) _ ltac:(lia) ltac:(lia) ltac:(lia) Hib)).
  by rewrite (scanning_answer_ok d _ _ _ _ (Hreg (start_block (block_bitmap (rd_superblock r))) (block_count (block_bitmap (rd_superblock r))) _ ltac:(lia) ltac:(lia) ltac:(lia) Hbb)).
Qed.

Lemma check_file_prepared size report : whole d size -> answer d (check_file strerror size) = Ok report ->
  exists r, prepared r d /\ image_size_ r = size.
Proof.
  intros [Hall Hwf] H. unfold check_file in H. rewrite answer_if in H. destruct (Z.ltb_spec size 0) as [|Hsz]; [done|]. rewrite scanning_answer in H by apply _.
  destruct (answer d (CheckPreadAll 0 kBlockSize)) as [b0|] eqn:E0; [|done]. apply pread_ok in E0. destruct (DecodeSuperblock b0) as [sb|] eqn:Esb; [|done].
  rewrite answer_if in H. destruct (Z.eqb_spec (Z.land (sb_feature_incompat sb) (Z.lnot kSupportedFeatureIncompat)) 0) as [Hf|]; cbn [negb] in H; [|done].
  rewrite answer_if in H. destruct (Z.eqb_spec size (total_blocks sb * kBlockSize)) as [Et|]; cbn [negb] in H; [|done]. cbv zeta in H.
  rewrite scanning_answer in H by apply _. destruct (answer d (CheckPreadAll (start_block _ * _) _)) as [ca|] eqn:Ea; [|done]. rewrite scanning_answer in H by apply _.
  destruct (answer d (CheckPreadAll (_ + _) _)) as [cb|] eqn:Ebb; [|done]. destruct (SelectControl _ _ _ _) as [[jc jcc]|] eqn:Ec; [|done]. clear H.
  apply pread_ok in Ea, Ebb. apply (read_range_block _ 0) in E0; [|apply Hwf].
  destruct (SuperblockCodec.superblock_encode_decode b0 sb (Hwf _ _ E0) Esb) as [Hty Hval%SuperblockCodec.encode_validated]. pose proof (validated_geometry sb Hty Hval) as Hg.
  assert (image_ok sb size d) as Hi.
  { constructor; [by exists b0|done|done|done|]. intros n Hn. destruct (Hall n) as [b Hb]; [rewrite Et, Z.div_mul by done; lia|]. eauto. }
  apply read_range_block in Ea; [|apply Hwf]. replace (start_block (journal sb) * kBlockSize + kBlockSize) with ((start_block (journal sb) + 1) * kBlockSize) in Ebb by lia.
  apply read_range_block in Ebb; [|apply Hwf]. assert (selected sb d = Ok (jc, jcc)) as Hsel.
  { unfold selected, select, controls, block_of, control_block, js. rewrite Z.add_0_r, Ea, Ebb. cbn [default]. rewrite <- (ring_size_eq sb Hg). exact Ec. }
  eexists. split; [exact (prepared_of sb size d jc jcc Hi Hwf Hsel)|done].
Qed.
End file.

(** * The run *)
#[export] Instance scanning_file strerror size : Scanning (check_file strerror size).
Proof.
  unfold check_file. apply scanning_if; [apply _|]. apply scanning_bind; [apply _|]. intros b. destruct (DecodeSuperblock b) as [sb|]; [|apply _].
  do 2 (apply scanning_if; [apply _|]). cbv zeta. do 2 (apply scanning_bind; [apply _|]; intros ?).
  destruct (SelectControl _ _ _ _) as [[jc jcc]|]; apply _.
Qed.

Lemma inode_count r d : prepared r d -> total_inodes (rd_superblock r) < 4294967295 \/ total_inodes (rd_superblock r) = 4294967295.
Proof.
  intros Hp. destruct (geo_typed _ (img_geometry _ _ _ (pp_image _ _ Hp))) as (_ & H & _). word.
Qed.

Section run.
Context (strerror : errno -> bytes).

Lemma scanning_run {A} (m : io A) e e1 a : Scanning m -> plain_script (responses e) -> m e = (e1, Ok a) ->
  disk e1 = disk e /\ st_size e1 = st_size e /\ plain_script (responses e1) /\ answer (disk e) m = Ok a.
Proof.
  intros Hm Hpl E. destruct (Hm e 0 [] Hpl) as (H1 & H2 & _ & H3). rewrite E in *. cbn [fst snd] in *. injection H1 as H0 H1 _. conj_split; try done. by apply H3.
Qed.

Lemma scanning_disk {A} (m : io A) e : Scanning m -> plain_script (responses e) -> disk (m e).1 = disk e /\ plain_script (responses (m e).1).
Proof. intros Hm Hpl. destruct (Hm e 0 [] Hpl) as (H1 & H2 & _). split; [|done]. by injection H1. Qed.

Lemma check_run path e e' report : plain_script (responses e) -> CheckImage strerror path e = (e', Ok report) ->
  path <> [] /\ disk e' = disk e /\ answer (disk e) (check_file strerror (st_size e)) = Ok report.
Proof.
  intros Hpl H. unfold CheckImage in H. case_bool_decide as Hpath; [done|]. split; [done|].
  apply bind_run in H as ([] & e1 & E1 & H). apply scanning_run in E1 as (D1 & S1 & P1 & _); [|apply _|done].
  apply bind_run in H as ([] & e2 & E2 & H). apply scanning_run in E2 as (D2 & S2 & P2 & _); [|apply _|done].
  apply bind_run in H as ([] & e3 & E3 & H). apply scanning_run in E3 as (D3 & S3 & P3 & _); [|apply _|done].
  cbv beta in H. apply scanning_run in H as (D4 & _ & _ & E4); [|apply _|done]. rewrite D4, D3, D2, D1. split; [done|]. by rewrite D3, D2, D1, S3, S2, S1 in E4.
Qed.

Lemma check_disk path e : plain_script (responses e) -> disk (CheckImage strerror path e).1 = disk e.
Proof.
  intros Hpl. unfold CheckImage. case_bool_decide; [done|].
  assert (forall (m : io unit) (k : unit -> io (option ConsistencyReport)) e0, Scanning m -> plain_script (responses e0) ->
    (forall e1, disk e1 = disk e0 -> plain_script (responses e1) -> disk (k tt e1).1 = disk e0) -> disk (io_bind m k e0).1 = disk e0) as Hstep.
  { intros m k e0 Hm P Hk. destruct (scanning_disk m e0 Hm P) as [D P1]. unfold io_bind. destruct (m e0) as [e1 [[]|er]]; cbn [fst] in *; [|done]. by apply Hk. }
  apply Hstep; [apply _|done|]. intros e1 D1 P1. rewrite <- D1. apply Hstep; [apply _|done|]. intros e2 D2 P2. rewrite <- D2.
  apply Hstep; [apply _|done|]. intros e3 D3 P3. rewrite <- D3. by apply scanning_disk; [apply _|].
Qed.

Lemma check_calm path e : responses e = [] -> path <> [] -> CheckImage strerror path e = check_file strerror (st_size e) e.
Proof.
  intros Hr Hpath. unfold CheckImage. rewrite bool_decide_eq_false_2 by done. rewrite (bind_go _ _ _ tt (syscall_go e Hr)).
  rewrite (bind_go _ _ _ tt); [|unfold lock_shared; by rewrite (syscall_go e Hr)]. by rewrite (bind_go _ _ _ tt (syscall_go e Hr)).
Qed.

Lemma scanning_go {A} (m : io A) e a : Scanning m -> responses e = [] -> answer (disk e) m = Ok a -> m e = (e, Ok a).
Proof.
  intros Hm Hr Ha. destruct e as [d s rs t]. cbn in Hr. subst rs. destruct (Hm (mkEnv d 0 [] []) s t ltac:(apply not_elem_of_nil)) as (_ & _ & H1 & H2).
  cbn [disk] in *. specialize (H2 a Ha). destruct (m (mkEnv d s [] t)) as [e1 x]. cbn [fst snd] in *. by subst.
Qed.

Lemma file_healthy e report : complete_image e -> answer (disk e) (check_file strerror (st_size e)) = Ok (Some report) ->
  (ClassifyReport report = kHealthy <-> exists r, healthy_image r (disk e)).
Proof.
  intros Hc H. destruct (check_file_prepared strerror (disk e) (st_size e) _ Hc H) as (r & Hp & Esz). rewrite <- Esz, (check_file_answer strerror _ r Hp) in H.
  assert (forall r', healthy_image r' (disk e) -> r' = r) as Hu by (intros r' Hh; apply (prepared_unique r' r (disk e)); [apply opened_prepared, co_opened, Hh|done]).
  destruct (Z.eqb_spec (used_blocks (rd_journal_control r)) 0) as [Hj|Hj].
  - destruct (inode_count r _ Hp) as [Hs|Hs]; [|by rewrite (check_image_stuck strerror r _ Hs) in H].
    destruct (check_image_healthy strerror r _ Hp Hs) as (report' & E & Hh). rewrite H in E. apply Ok_inj in E as [= <-]. rewrite Hh. split.
    + intros (H1 & H2 & H3). by exists r.
    + intros (r' & Hr'). rewrite (Hu r' Hr') in Hr'. by destruct Hr'.
  - apply Ok_inj in H as [= <-]. split; [done|]. intros (r' & Hr'). exfalso. apply Hj. rewrite <- (Hu r' Hr'). apply Hr'.
Qed.

(** The check has an outcome; it is that of a check which does not return exactly
    if the loop over the inodes is reached with the greatest number of them. *)
Lemma file_total e sb jc jcc : complete_image e -> image_ok sb (st_size e) (disk e) -> selected sb (disk e) = Ok (jc, jcc) ->
  exists outcome, answer (disk e) (check_file strerror (st_size e)) = Ok outcome /\
    (outcome = None <-> total_inodes sb = 4294967295 /\ used_blocks jc = 0) /\ (used_blocks jc <> 0 -> outcome = Some (recovery_required sb)).
Proof.
  intros [_ Hwf] Hi Hsel. pose proof (prepared_of sb (st_size e) (disk e) jc jcc Hi Hwf Hsel) as Hp. pose proof (check_file_answer strerror (disk e) _ Hp) as E.
  cbn [rd_superblock image_size_ rd_journal_control inode_bitmap_ block_bitmap_] in E. destruct (Z.eqb_spec (used_blocks jc) 0) as [Hj|Hj].
  - destruct (inode_count _ _ Hp) as [Hs|Hs].
    + destruct (check_image_healthy strerror _ _ Hp Hs) as (report & E' & _). exists (Some report). split; [by rewrite E|]. split; [|done].
      split; [done|]. intros [Hx _]. cbn [rd_superblock] in Hs. lia.
    + exists None. split; [rewrite E; exact (check_image_stuck strerror _ _ Hs)|done].
  - eexists. split; [exact E|]. split; [|done]. split; [done|]. by intros [_ ?].
Qed.
End run.

(** * The image with one file is healthy *)
Lemma lists1 : directory_lists reader1 img1 1 [entry1].
Proof. apply (list_directory_iff reader1 img1 (op_view _ _ opened1)). vm_compute. reflexivity. Qed.

Lemma root_inode1 : answer img1 (ReadInode reader1 1) = Ok root1.
Proof. vm_compute. reflexivity. Qed.

Lemma listed1 n es : directory_lists reader1 img1 n es -> n = 1 /\ es = [entry1].
Proof.
  intros Hl. pose proof Hl as (inode & ess & E & Hd & _). destruct (reads1 n inode E) as [[-> ->]|[-> ->]]; [|discriminate Hd]. split; [reflexivity|]. clear E Hd.
  pose proof (proj1 (lists_iff reader1 img1 (op_view _ _ opened1) 1 es) Hl) as L1. pose proof (proj1 (lists_iff reader1 img1 (op_view _ _ opened1) 1 _) lists1) as L2.
  exact (lists_unique _ _ _ _ L1 L2).
Qed.

Lemma tidy1 : tidy reader1 img1.
Proof.
  constructor.
  - intros n inode [[-> ->]|[-> ->]]%reads1 Hd; [exists [entry1]; exact lists1|discriminate Hd].
  - intros n es e [-> ->]%listed1 ->%list_elem_of_singleton. discriminate.
  - intros n es e n' es' e' [-> ->]%listed1 ->%list_elem_of_singleton [-> ->]%listed1 ->%list_elem_of_singleton _. split; reflexivity.
  - intros n inode [[-> ->]|[-> ->]]%reads1; [exists []; constructor|]. exists [[102]]. apply (walk_down _ _ _ _ _ [entry1] entry1); [exact lists1|left|reflexivity|constructor].
  - intros n inode [[-> ->]|[-> ->]]%reads1 Hd; [discriminate Hd|reflexivity].
  - intros n inode es [[-> ->]|[-> ->]]%reads1 [E ->]%listed1; [reflexivity|discriminate E].
  - intros b [Hb1 Hb2]. change (12 <= b < 24) in Hb1.
    assert (forallb (fun k => negb (TestBit (block_bitmap_ reader1) k) || (k =? 12) || (k =? 13) || (k =? 14)) (seqZ 12 12) = true) as H by (vm_compute; reflexivity).
    rewrite forallb_forall in H. specialize (H b). rewrite <- list_elem_of_In, elem_of_seqZ, Hb2 in H. cbn [negb orb] in H. specialize (H ltac:(lia)).
    assert (b = 12 \/ b = 13 \/ b = 14) as [->|Hf] by (destruct (Z.eqb_spec b 12), (Z.eqb_spec b 13), (Z.eqb_spec b 14); try done; lia).
    + exists 1, root1. split; [apply root_inode1|]. rewrite (proj1 owned1). by left.
    + exists 2, file1. split; [apply inode1|]. rewrite (proj2 owned1). destruct Hf as [->| ->]; [left|right; left].
Qed.

Lemma healthy1 : healthy_image reader1 img1.
Proof. constructor; [exact consistent1|reflexivity|exact tidy1|done]. Qed.

Lemma whole1 : exists report, answer img1 (check_file (fun _ => []) size0) = Ok (Some report).
Proof.
  destruct (file_total (fun _ => []) env1 sb0 current0 kA complete1 (rdy_image _ _ _ _ _ ready1) (rdy_selected _ _ _ _ _ ready1)) as (outcome & E & Ho & _).
  destruct outcome as [report|]; [by exists report|]. by destruct (proj1 Ho eq_refl) as [[=] _].
Qed.

(** C17. The verdict of the checker. Whatever the system calls do short of
    failing with EUCLEAN, a report says "healthy" exactly if the image opens and
    is consistent (every allocated inode reads back and no two share a block),
    its journal holds no transaction, its directories form a tree below the root
    in which every inode has one name and the link count the tree gives it, every
    allocated data block belongs to an inode, and the request ledger, where the
    image declares one, is a ledger the service loads. *)
Theorem healthy_exact strerror path e e' report :
  complete_image e -> plain_script (responses e) -> CheckImage strerror path e = (e', Ok (Some report)) ->
  (ClassifyReport report = kHealthy <-> exists r, healthy_image r (disk e)).
Proof.
  intros Hc Hpl H. destruct (check_run strerror path e e' _ Hpl H) as (_ & _ & E). exact (file_healthy strerror e report Hc E).
Qed.

Lemma healthy_exact_witness : exists report, CheckImage (fun _ => []) [47] env1 = (env1, Ok (Some report)) /\ ClassifyReport report = kHealthy.
Proof.
  destruct whole1 as [report E]. exists report.
  assert (CheckImage (fun _ => []) [47] env1 = (env1, Ok (Some report))) as Hrun.
  { rewrite check_calm; [|reflexivity|discriminate]. exact (scanning_go _ env1 _ _ eq_refl E). }
  split; [exact Hrun|].
  refine (proj2 (healthy_exact (fun _ => []) [47] env1 env1 report complete1 _ Hrun) _).
  - apply not_elem_of_nil.
  - exists reader1. exact healthy1.
Defined.

(** C18. The check comes to an end with a report. On every image whose superblock
    is valid and fits the file and whose journal control can be selected, however
    damaged the rest is, the check without system-call failures answers with a
    report, with one exception: the 32-bit loops over the inodes do not end for a
    superblock with 4294967295 inodes (and an empty journal), and then the check
    does not return. When system calls fail, but with other errors than EUCLEAN,
    the outcome is the same or the check fails; with no such failure is the image
    written. A journal that holds a transaction is reported as such, with the
    verdict "incomplete". (EUCLEAN from a read is taken for damage and does change
    the report.) *)
Theorem check_reports strerror path e sb jc jcc :
  complete_image e -> path <> [] -> image_ok sb (st_size e) (disk e) -> selected sb (disk e) = Ok (jc, jcc) -> plain_script (responses e) ->
  exists outcome : option ConsistencyReport,
    (responses e = [] -> CheckImage strerror path e = (e, Ok outcome)) /\
    (outcome = None <-> total_inodes sb = 4294967295 /\ used_blocks jc = 0) /\
    (forall e' outcome', CheckImage strerror path e = (e', Ok outcome') -> outcome' = outcome) /\
    disk (CheckImage strerror path e).1 = disk e /\
    (used_blocks jc <> 0 -> exists report, outcome = Some report /\ ClassifyReport report = kIncomplete /\ is_code <$> issues report = [kJournalRecoveryRequired]).
Proof.
  intros Hc Hpath Hi Hsel Hpl. destruct (file_total strerror e sb jc jcc Hc Hi Hsel) as (outcome & E & Hn & Hj). exists outcome. conj_split.
  - intros Hr. rewrite check_calm by done. by apply scanning_go; [apply _| |].
  - done.
  - intros e' outcome' H. destruct (check_run strerror path e e' outcome' Hpl H) as (_ & _ & E'). rewrite E in E'. by apply Ok_inj in E'.
  - by apply check_disk.
  - intros Hu. exists (recovery_required sb). by rewrite (Hj Hu).
Qed.

Lemma check_reports_witness : exists report, CheckImage (fun _ => []) [47] env1 = (env1, Ok (Some report)).
Proof.
  destruct (check_reports (fun _ => []) [47] env1 sb0 current0 kA complete1) as (outcome & H & Hn & _).
  - discriminate.
  - exact (rdy_image _ _ _ _ _ ready1).
  - exact (rdy_selected _ _ _ _ _ ready1).
  - apply not_elem_of_nil.
  - destruct outcome as [report|]; [exists report; exact (H eq_refl)|]. destruct (proj1 Hn eq_refl) as [F _]. discriminate F.
Defined.

(** C19. The searches in the directory graph. For any edges, also those of a
    damaged image, the three-colour search ends; every edge it reports lies on a
    cycle of directories, and it reports one exactly if there is a cycle. The
    search from the root ends and finds exactly the inodes the root leads to
    through decoded directories; its flag says that all of them were decoded and
    every directory among them was read to its end. *)
Theorem graph_searches_exact edges is_directory dirs decoded complete root :
  NoDup dirs -> (forall n, n ∈ dirs <-> is_directory n = true) ->
  (exists back, directory_cycles edges is_directory dirs = Some back /\ Forall (closes edges is_directory) back /\
     (back = [] <-> forall n, ~ tc (leads edges is_directory) n n)) /\
  (exists reachable flag, root_reach edges decoded complete root = Some (reachable, flag) /\
     (forall n, n ∈ reachable <-> rtc (names_inode edges decoded) root n) /\
     (flag = true <-> decoded root = Some true /\
        forall n, rtc (names_inode edges decoded) root n -> exists is_dir, decoded n = Some is_dir /\ (is_dir = true -> complete n = true))).
Proof.
  intros Hnd Hdirs. split.
  - destruct (cycles_end edges is_directory dirs Hnd Hdirs) as [back E]. exists back. split; [exact E|]. destruct (cycles_exact edges is_directory dirs back Hdirs E) as [H1 H2].
    split; [done|]. rewrite H2. split; [|auto]. intros H n Ht. apply (H n); [|done]. by destruct (tc_last _ _ _ Ht) as (y & _ & _ & Hd).
  - destruct (reach_ends edges decoded complete root) as [[reachable flag] E]. exists reachable, flag. split; [exact E|]. by apply reach_exact.
Qed.

(** Directory 1 names directory 2, which names it back: the edge from 2 is found. *)
Lemma graph_searches_exact_witness :
  let edges : gmap Z (list Z) := <[1 := [2]]> (<[2 := [1; 3]]> ∅) in let is_directory n := (n =? 1) || (n =? 2) in
  directory_cycles edges is_directory [1; 2] = Some [(2, 1)] /\ ~ (forall n, ~ tc (leads edges is_directory) n n).
Proof.
  cbv zeta. split; [vm_compute; reflexivity|]. intros Hno.
  destruct (graph_searches_exact (<[1 := [2]]> (<[2 := [1; 3]]> ∅)) (fun n => (n =? 1) || (n =? 2)) [1; 2] (fun _ => None) (fun _ => true) 1) as [(back & E & _ & H) _].
  - apply (bool_decide_unpack _). vm_compute. exact I.
  - intros n. rewrite !elem_of_cons, orb_true_iff, !Z.eqb_eq. split; [intros [?|[?|?%not_elem_of_nil]]; tauto|tauto].
  - rewrite (proj2 H Hno) in E. vm_compute in E. discriminate E.
Defined.

(** mkfs and the offline checker: a freshly formatted image passes the check. *)
Section fresh.
Context (o : MkfsOptions) (w : surroundings) (d0 : image) (sb : Superblock) (g : RequestLedgerGeometry) (d : image) (r : ImageReader).
Context (Hpl : planned o sb g) (db : bytes) (Hc : consistent r d) (Hsb : rd_superblock r = sb).
Context (Hreads : forall n J, answer d (ReadInode r n) = Ok J -> (n = 1 /\ J = root_record sb g w) \/ (enabled g = true /\ n = 2 /\ J = ledger_record sb g w)).
Context (Hroot : answer d (ReadInode r 1) = Ok (root_record sb g w)).
Context (Hledger : enabled g = true -> answer d (ReadInode r 2) = Ok (ledger_record sb g w)).
Abbreviation es0 := (if enabled g then [entry2] else []).
Context (Hlists : directory_lists r d 1 es0).
Context (Hblocks : forall b, data_block r b -> enabled g = true /\ (b ∈ owned d (root_record sb g w) \/ b ∈ owned d (ledger_record sb g w))).

Lemma fresh_listed n es : directory_lists r d n es -> n = 1 /\ es = es0.
Proof.
  intros Hl. pose proof Hl as (J & ess & E & Hd & _). destruct (Hreads n J E) as [[-> ->]|(_ & -> & ->)]; [|discriminate Hd]. split; [reflexivity|]. clear E Hd.
  pose proof (op_view _ _ (co_opened _ _ Hc)) as Hv. apply (lists_iff r d Hv) in Hl. pose proof (proj1 (lists_iff r d Hv _ _) Hlists) as Hl0. exact (lists_unique _ _ _ _ Hl Hl0).
Qed.

Lemma fresh_tidy : tidy r d.
Proof.
  assert (root_inode (rd_superblock r) = 1) as Hrt by (rewrite Hsb; apply (pl_root _ _ _ Hpl)).
  assert (forall e, e ∈ es0 -> e = entry2 /\ enabled g = true) as Hes.
  { intros e. destruct (enabled g); [by intros ->%list_elem_of_singleton|by intros ?%not_elem_of_nil]. }
  constructor.
  - intros n J [[-> ->]|(_ & -> & ->)]%Hreads Hd; [by exists es0|discriminate Hd].
  - intros n es e [-> ->]%fresh_listed [-> _]%Hes. by rewrite Hrt.
  - intros n es e n' es' e' [-> ->]%fresh_listed [-> _]%Hes [-> ->]%fresh_listed [-> _]%Hes _. done.
  - intros n J E. rewrite Hrt. apply Hreads in E as [[-> _]|(He & -> & _)]; [exists []; constructor|].
    exists [name entry2]. apply (walk_down _ _ _ _ _ es0 entry2); [done|rewrite He; by left|done|constructor].
  - intros n J [[-> ->]|(_ & -> & ->)]%Hreads Hd; [discriminate Hd|reflexivity].
  - intros n J es [[-> ->]|(_ & -> & ->)]%Hreads [E ->]%fresh_listed; [by destruct (enabled g)|discriminate E].
  - intros b Hb. destruct (Hblocks b Hb) as [He [H|H]]; [exists 1, (root_record sb g w); done|]. exists 2, (ledger_record sb g w). split; [by apply Hledger|done].
Qed.
End fresh.

Lemma fresh_healthy o w d0 sb g fs d : wf_blocks d0 -> fresh_image o w d0 sb g fs d ->
  exists r, healthy_image r d /\ image_size_ r = image_size_bytes o /\ total_inodes (rd_superblock r) = opt_total_inodes o.
Proof.
  intros Hd0 [Hpl (rb & cb & ck & lb & db & sbb & [R1 R2] & [C1 C2] & L & L2 & D & [S1 S2] & -> & ->)].
  set (d := formatted _ _ _ _ _ _ _ _ _). set (r := new_reader sb g ck).
  assert (consistent r d) as Hc by exact (new_consistent o sb g Hpl w rb cb lb db sbb ck R1 R2 C1 C2 L L2 D S1 S2 d0 Hd0).
  assert (file_at r d ≡ formatted_files sb g w db) as Hf by exact (formatted_files_shown o sb g Hpl w rb cb lb db sbb ck R1 R2 C2 L L2 D S2 d0 Hd0).
  pose proof (op_view _ _ (co_opened _ _ Hc)) as Hv. exists r. split; [|split; [symmetry; apply (pl_size _ _ _ Hpl)|exact (pl_inodes _ _ _ Hpl)]].
  assert (tidy r d) as Ht.
  { apply (fresh_tidy o w sb g d r Hpl Hc eq_refl).
    - exact (new_reads o sb g Hpl w rb cb lb db sbb ck R1 R2 C2 L L2 D S2 d0 Hd0).
    - by eapply new_root_read.
    - exact (new_ledger_read o sb g Hpl w rb cb lb db sbb ck R2 C2 L L2 D S2 d0 Hd0).
    - apply (lists_iff r d Hv). rewrite Hf. exact (new_root_lists sb g w rb lb db R2 L L2 D).
    - intros b [Hr Hb]. cbn [rd_superblock new_reader r] in Hr. cbn [block_bitmap_ new_reader r] in Hb. pose proof (planned_layout o sb g Hpl) as Hlay.
      destruct (block_capacity sb Hlay) as (_ & H2 & _). destruct (data_bounds sb Hlay) as (D1 & _). rewrite (block_bit sb Hlay g (pl_placed _ _ _ Hpl)) in Hb by lia.
      rewrite (proj2 (Z.leb_gt _ _)), (proj2 (Z.ltb_ge _ _)), orb_false_r in Hb by lia. cbn [orb] in Hb. apply bool_decide_eq_true in Hb. unfold ledger_taken in Hb.
      assert (owned d (root_record sb g w) = if enabled g then [start_block (data sb)] else []) as -> by (by eapply owned_root).
      destruct (decide (enabled g = true)) as [He|He%not_true_is_false]; rewrite He in Hb |- *; [|by apply not_elem_of_nil in Hb]. split; [reflexivity|].
      apply elem_of_cons in Hb as [->|Hb]; [left; by apply list_elem_of_singleton|right]. assert (owned d (ledger_record sb g w) = ledger_blocks g ++ (if lg_indirect_block g =? 0 then [] else [lg_indirect_block g])) as -> by (by eapply owned_ledger). done. }
  constructor; [done|done|done|]. intros He. exists (mkIndex (entry_count g) 1 ∅). apply (scan_files r d Hc). rewrite Hf.
  eapply new_ledger_in; try done. unfold ledger_enabled in He. cbn [rd_superblock new_reader r] in He. rewrite (pl_features _ _ _ Hpl) in He.
  by destruct (enabled g).
Qed.

(** An image in order is reported so. *)
Lemma healthy_checked strerror path r size d : path <> [] -> healthy_image r d -> image_size_ r = size -> total_inodes (rd_superblock r) < 4294967295 ->
  exists report, CheckImage strerror path (fresh_start size d) = (fresh_start size d, Ok (Some report)) /\ ClassifyReport report = kHealthy.
Proof.
  intros Hpath Hh <- Hsmall. pose proof (co_opened _ _ (he_consistent _ _ Hh)) as Ho. pose proof (op_image _ _ Ho) as Hi.
  assert (complete_image (fresh_start (image_size_ r) d)) as Hcomp.
  { split; [|apply (vo_wf _ _ (op_view _ _ Ho))]. intros n. cbn [st_size disk fresh_start]. rewrite (img_size _ _ _ Hi), Z.div_mul by done.
    intros Hn. destruct (img_blocks _ _ _ Hi n Hn) as (b & -> & _). by eexists. }
  destruct (file_total strerror (fresh_start (image_size_ r) d) _ _ _ Hcomp Hi (op_control _ _ Ho)) as (outcome & E & Hn & _).
  destruct outcome as [report|]; [|destruct (proj1 Hn eq_refl); lia]. exists report. split.
  - rewrite check_calm by done. by apply scanning_go; [apply _| |].
  - apply (file_healthy strerror _ report Hcomp E). by exists r.
Qed.

(** mkfs makes images the checker accepts. Every successful format, of a new
    file or over an old one, with fewer than 4294967295 inodes leaves an image on
    which the checker answers "healthy". *)
Theorem formatted_passes_check o w f f' sb strerror path :
  options_typed o -> surroundings_typed w -> f_trace f = [] -> wf_blocks (opened_content f) ->
  FormatImage o w f = (f', Ok sb) -> path <> [] -> opt_total_inodes o < 4294967295 ->
  exists report, CheckImage strerror path (fresh_start (f_size f') (f_blocks f')) = (fresh_start (f_size f') (f_blocks f'), Ok (Some report)) /\
    ClassifyReport report = kHealthy.
Proof.
  intros Ho Hw Ht Hb E Hpath Hsmall. destruct (format_outcome o w f f' (Ok sb) Ho Hw Ht Hb E) as [(_ & ? & _)|(sb' & g & fs & d & Hfr & _ & _ & _ & _ & _ & Hok)]; [done|].
  destruct (Hok sb eq_refl) as (-> & -> & Hz & _). destruct (fresh_healthy o w _ _ g fs d Hb Hfr) as (r & Hh & Hs & Hr).
  apply (healthy_checked strerror path r); [done|done|by rewrite Hz|by rewrite Hr].
Qed.

Lemma formatted_passes_check_witness : exists f' sb report, FormatImage mkfs_options0 surroundings0 no_file = (f', Ok sb) /\
  CheckImage (fun _ => []) [47] (fresh_start (f_size f') (f_blocks f')) = (fresh_start (f_size f') (f_blocks f'), Ok (Some report)) /\ ClassifyReport report = kHealthy.
Proof.
  destruct format0 as (f' & sb & E).
  destruct (formatted_passes_check mkfs_options0 surroundings0 no_file f' sb (fun _ => []) [47] options0_typed surroundings0_typed eq_refl no_file_blocks E) as (report & H).
  - discriminate.
  - reflexivity.
  - exists f', sb, report. exact (conj E H).
Defined.
