(* ===== verification/ObjectService.v ===== *)
(** The RPC service of the object store (src/rpc/object_service_impl.h/.cpp,
    src/rpc/object_service_metrics.h/.cpp; the messages are those of
    src/rpc/object_service.proto): the handlers PutObject, GetObject and
    StatObject, the callbacks of their tasks, the worker loops and Shutdown.

    A call is known by its number. What brpc and the shared contexts hold of it is
    a [call]; where its handler is, what the workers do and how far Shutdown got
    are [thread]s. A thread moves from one action on the shared state (the
    stopping flag, the limiter, a queue, the backend) to the next; whatever it does
    in between concerns its own call only and belongs to the action before.

    Parameters: the digest of OpenSSL, one-shot and in pieces. Inputs of a move, in
    [choice]: whether memory runs out, exceptions with their text, the texts of
    the backend, the answers of the system calls. Times are left out. *)
From S2P Require Import Prelude Codec OndiskFormat Disk JournalStore BitmapAllocator RequestLedger ImageReader.
From S2P Require Import LedgerStore FileMutation NewObject RequestFingerprint ObjectBackend StoreRefinement RpcQueue.
Open Scope Z_scope.

(** * Messages *)
Inductive PutStatus :=
| PUT_STATUS_OK | PUT_STATUS_INVALID_ARGUMENT | PUT_STATUS_OVERLOADED | PUT_STATUS_SERVER_STOPPING
| PUT_STATUS_ALREADY_EXISTS | PUT_STATUS_VERSION_MISMATCH | PUT_STATUS_STORAGE_ERROR | PUT_STATUS_RESULT_UNKNOWN
| PUT_STATUS_REQUEST_ID_CONFLICT | PUT_STATUS_LEDGER_FULL | PUT_STATUS_NOT_FOUND.
#[global] Instance PutStatus_eq_dec : EqDecision PutStatus.
Proof. solve_decision. Defined.

Inductive ReadStatus :=
| READ_STATUS_OK | READ_STATUS_INVALID_ARGUMENT | READ_STATUS_OVERLOADED | READ_STATUS_SERVER_STOPPING
| READ_STATUS_NOT_FOUND | READ_STATUS_STORAGE_ERROR.
#[global] Instance ReadStatus_eq_dec : EqDecision ReadStatus.
Proof. solve_decision. Defined.

Inductive Precondition := PRECONDITION_NOT_SET | CreateIfAbsent | ExpectedVersion (version : ObjectVersion).

Record PutObjectRequest := mkPutRequest {
  rq_key : bytes;
  rq_payload_size : Z;
  rq_sha256 : bytes;
  rq_timestamp_ns : Z;
  rq_precondition : Precondition;
  rq_request_id : bytes
}.

(** A message field that was not set is [None]. *)
Record PutObjectResponse := mkPutResponse {
  pr_status : PutStatus;
  pr_committed_version : option ObjectVersion;
  pr_current_version : option ObjectVersion;
  pr_detail : bytes
}.
(** The values of a message nobody has set. *)
Definition new_put_response : PutObjectResponse := mkPutResponse PUT_STATUS_OK None None [].

Record ObjectMetadata := mkMetadata { md_version : ObjectVersion; md_size : Z; md_mtime_ns : Z }.

(** GetObjectResponse and StatObjectResponse have the same fields. *)
Record ReadObjectResponse := mkReadResponse {
  rr_status : ReadStatus;
  rr_metadata : option ObjectMetadata;
  rr_detail : bytes
}.
Definition new_read_response : ReadObjectResponse := mkReadResponse READ_STATUS_OK None [].

(** * Metrics *)
(** The counters and the recorders of latencies; what was recorded, in order. *)
Inductive metric :=
| WriteQueueWait | ReadQueueWait | PutExecution | GetExecution | StatExecution
| InflightByteRejection | WriteQueueRejection | ReadQueueRejection | QueueAllocationFailure
| RequestReplay | RequestIdConflict | LedgerFull | ResultUnknown | StorageError.
Definition ObjectServiceMetrics : Type := list metric.

(** * Responses *)
Definition kSha256Size : Z := 32.
Definition kRequestIdSize : Z := 16.

Definition IsAllZeroRequestId (request_id : bytes) : bool := forallb (fun value => value =? 0) request_id.

Definition SetResponse (status : PutStatus) (detail : bytes) (response : PutObjectResponse) : PutObjectResponse :=
  mkPutResponse status (pr_committed_version response) (pr_current_version response) detail.

Definition SetReadResponse (status : ReadStatus) (detail : bytes) (response : ReadObjectResponse) : ReadObjectResponse :=
  mkReadResponse status (rr_metadata response) detail.

Definition SetMetadata (source : ObjectStat) : ObjectMetadata :=
  mkMetadata (mkVersion (os_inode_number source) (os_generation source)) (os_size source) (os_mtime_ns source).

Definition MapReadResult (result : result errno ObjectStat) (detail : bytes) (response : ReadObjectResponse) : ReadObjectResponse :=
  match result with
  | Ok stat => mkReadResponse READ_STATUS_OK (Some (SetMetadata stat)) []
  | Err ENOENT => SetReadResponse READ_STATUS_NOT_FOUND detail response
  | Err _ => SetReadResponse READ_STATUS_STORAGE_ERROR detail response
  end.

Definition MapMutationResult (result : result errno unit) (state : IdempotentMutationResult) (detail : bytes)
    (response : PutObjectResponse) : PutObjectResponse :=
  let mutation := mutation_result state in
  match disposition state with
  | kRequestIdConflict => SetResponse PUT_STATUS_REQUEST_ID_CONFLICT detail response
  | kLedgerFull => SetResponse PUT_STATUS_LEDGER_FULL detail response
  | _ =>
    match outcome mutation with
    | kOutcomeUnknown => SetResponse PUT_STATUS_RESULT_UNKNOWN detail response
    | kOutcomeCommitted =>
      mkPutResponse PUT_STATUS_OK (Some (committed_version mutation)) (pr_current_version response) []
    | kOutcomeNotApplied =>
      match result with
      | Err EEXIST =>
        mkPutResponse PUT_STATUS_ALREADY_EXISTS (pr_committed_version response) (Some (current_version mutation)) detail
      | Err ESTALE =>
        mkPutResponse PUT_STATUS_VERSION_MISMATCH (pr_committed_version response) (Some (current_version mutation)) detail
      | Err ENOENT => SetResponse PUT_STATUS_NOT_FOUND detail response
      | _ => SetResponse PUT_STATUS_STORAGE_ERROR detail response
      end
    end
  end.

Definition RecordMutationDisposition (state : IdempotentMutationResult) : list metric :=
  match disposition state with kReplayed => [RequestReplay] | _ => [] end.

Definition RecordPutStatus (status : PutStatus) : list metric :=
  match status with
  | PUT_STATUS_REQUEST_ID_CONFLICT => [RequestIdConflict]
  | PUT_STATUS_LEDGER_FULL => [LedgerFull]
  | PUT_STATUS_RESULT_UNKNOWN => [ResultUnknown]
  | PUT_STATUS_STORAGE_ERROR => [StorageError]
  | _ => []
  end.

Definition RecordReadStatus (response : ReadObjectResponse) : list metric :=
  match rr_status response with READ_STATUS_STORAGE_ERROR => [StorageError] | _ => [] end.

(** * Calls *)
(** What the callbacks of a task share. The attachment is the blocks of an IOBuf;
    [px_identity] is what the execute callback captured. [px_thrown] and [rx_thrown]
    are not in the code: they note that an exception was thrown after the backend
    had answered, while the response was filled in. *)
Record PutContext := mkPutContext {
  px_request : PutObjectRequest;
  px_attachment : list bytes;
  px_identity : RequestIdentity;
  px_response : PutObjectResponse;
  px_cancel_status : PutStatus;
  px_cancel_detail : bytes;
  px_thrown : bool
}.

Inductive read_kind := GetKind | StatKind.

Record ReadContext := mkReadContext {
  rx_kind : read_kind;
  rx_key : bytes;
  rx_response : ReadObjectResponse;
  rx_attachment : bytes;
  rx_cancel_status : ReadStatus;
  rx_cancel_detail : bytes;
  rx_thrown : bool
}.

Inductive context := PutOf (p : PutContext) | ReadOf (r : ReadContext).

(** [cl_guard]: the ClosureGuard of the handler holds done; [cl_completion]: the
    RpcCompletion holds it; [cl_runs]: how often it was run. [cl_arguments]: the
    pointers the handler got are not null. [cl_failed]: the error given to
    SetFailed of the controller. *)
Record call := mkCall {
  cl_arguments : bool;
  cl_context : context;
  cl_failed : option errno;
  cl_guard : bool;
  cl_completion : bool;
  cl_runs : nat
}.

Definition stopping_text : bytes := text "server is stopping".

Definition no_identity : RequestIdentity := mkIdentity (zeros 16) (zeros 32).
Definition new_put (request : PutObjectRequest) (attachment : list bytes) : context :=
  PutOf (mkPutContext request attachment no_identity new_put_response PUT_STATUS_SERVER_STOPPING stopping_text false).
Definition new_read (kind : read_kind) (key : bytes) : context :=
  ReadOf (mkReadContext kind key new_read_response [] READ_STATUS_SERVER_STOPPING stopping_text false).
Definition new_call (arguments : bool) (c : context) : call := mkCall arguments c None true false 0.

Definition with_context (x : context) (c : call) : call :=
  mkCall (cl_arguments c) x (cl_failed c) (cl_guard c) (cl_completion c) (cl_runs c).

Definition SetFailed (er : errno) (c : call) : call :=
  mkCall (cl_arguments c) (cl_context c) (Some er) (cl_guard c) (cl_completion c) (cl_runs c).

(** The destructor of the ClosureGuard. *)
Definition guard_exit (c : call) : call :=
  if cl_guard c then mkCall (cl_arguments c) (cl_context c) (cl_failed c) false (cl_completion c) (S (cl_runs c)) else c.

(** [Adopt(done_guard.release())]. *)
Definition Adopt (c : call) : call :=
  mkCall (cl_arguments c) (cl_context c) (cl_failed c) false (cl_guard c) (cl_runs c).

(** [RpcCompletion::Run]. *)
Definition CompletionRun (c : call) : call :=
  if cl_completion c then mkCall (cl_arguments c) (cl_context c) (cl_failed c) (cl_guard c) false (S (cl_runs c)) else c.

Definition put_response (f : PutObjectResponse -> PutObjectResponse) (p : PutContext) : PutContext :=
  mkPutContext (px_request p) (px_attachment p) (px_identity p) (f (px_response p)) (px_cancel_status p) (px_cancel_detail p) (px_thrown p).
Definition put_captured (identity : RequestIdentity) (p : PutContext) : PutContext :=
  mkPutContext (px_request p) (px_attachment p) identity (px_response p) (px_cancel_status p) (px_cancel_detail p) (px_thrown p).
Definition put_cancelled (status : PutStatus) (detail : bytes) (p : PutContext) : PutContext :=
  mkPutContext (px_request p) (px_attachment p) (px_identity p) (px_response p) status detail (px_thrown p).
Definition put_noted (thrown : bool) (p : PutContext) : PutContext :=
  mkPutContext (px_request p) (px_attachment p) (px_identity p) (px_response p) (px_cancel_status p) (px_cancel_detail p) thrown.
Definition read_response (f : ReadObjectResponse -> ReadObjectResponse) (r : ReadContext) : ReadContext :=
  mkReadContext (rx_kind r) (rx_key r) (f (rx_response r)) (rx_attachment r) (rx_cancel_status r) (rx_cancel_detail r) (rx_thrown r).
Definition read_attached (payload : bytes) (r : ReadContext) : ReadContext :=
  mkReadContext (rx_kind r) (rx_key r) (rx_response r) (rx_attachment r ++ payload) (rx_cancel_status r) (rx_cancel_detail r) (rx_thrown r).
Definition read_cancelled (status : ReadStatus) (detail : bytes) (r : ReadContext) : ReadContext :=
  mkReadContext (rx_kind r) (rx_key r) (rx_response r) (rx_attachment r) status detail (rx_thrown r).
Definition read_noted (thrown : bool) (r : ReadContext) : ReadContext :=
  mkReadContext (rx_kind r) (rx_key r) (rx_response r) (rx_attachment r) (rx_cancel_status r) (rx_cancel_detail r) thrown.

(** * Inputs of a move *)
(** [ch_throw] is thrown in the admission, or in a worker before the backend is
    called; [ch_throw_after] after the backend answered, while the response is
    filled in, and says whether the fields of the answer are in it already; [ch_short]: the attachment could not be copied as a whole. *)
Record choice := mkChoice {
  ch_oom : bool;
  ch_throw : option bytes;
  ch_throw_after : option (bool * bytes);
  ch_short : bool;
  ch_detail : bytes;
  ch_script : list sysret
}.

Section service.
Context {digest_context : Type} (EVP_DigestInit_ex : option digest_context).
Context (EVP_DigestUpdate : digest_context -> bytes -> option digest_context) (EVP_DigestFinal_ex : digest_context -> option bytes).
Context (EVP_Digest : bytes -> option bytes) (size : Z).

(** * Admission *)
Fixpoint digest_blocks (context : digest_context) (blocks : list bytes) : option digest_context :=
  match blocks with
  | [] => Some context
  | data :: rest =>
    match EVP_DigestUpdate context data with
    | Some context => digest_blocks context rest
    | None => None
    end
  end.

Definition ComputeSha256 (payload : list bytes) : option bytes :=
  match EVP_DigestInit_ex with
  | None => None
  | Some context =>
    match digest_blocks context payload with
    | None => None
    | Some context =>
      match EVP_DigestFinal_ex context with
      | Some digest => if Z.of_nat (length digest) =? kSha256Size then Some digest else None
      | None => None
      end
    end
  end.

Definition attachment_size (p : PutContext) : Z := Z.of_nat (length (concat (px_attachment p))).

(** The text that goes with PUT_STATUS_INVALID_ARGUMENT. *)
Definition invalid_put (p : PutContext) : option bytes :=
  let request := px_request p in
  if bool_decide (rq_key request = []) || negb (rq_payload_size request =? attachment_size p) ||
     negb (Z.of_nat (length (rq_sha256 request)) =? kSha256Size) ||
     negb (Z.of_nat (length (rq_request_id request)) =? kRequestIdSize) ||
     IsAllZeroRequestId (rq_request_id request) ||
     match rq_precondition request with PRECONDITION_NOT_SET => true | _ => false end
  then Some (text "key, payload size, SHA-256, request ID, and precondition are required")
  else if (kMaxNameLength <? Z.of_nat (length (rq_key request))) || (kMaxFileSize <? attachment_size p)
  then Some (text "key or payload exceeds the EUFS v1 format limit")
  else None.

(** The first part of a handler; answers whether it goes on. *)
Definition enter_put (stopping : bool) (p : PutContext) : PutContext * bool :=
  if stopping then (put_response (SetResponse PUT_STATUS_SERVER_STOPPING stopping_text) p, false)
  else match invalid_put p with
  | Some detail => (put_response (SetResponse PUT_STATUS_INVALID_ARGUMENT detail) p, false)
  | None => (p, true)
  end.

Definition enter_read (stopping : bool) (r : ReadContext) : ReadContext * bool :=
  if stopping then (read_response (SetReadResponse READ_STATUS_SERVER_STOPPING stopping_text) r, false)
  else if bool_decide (rx_key r = [])
  then (read_response (SetReadResponse READ_STATUS_INVALID_ARGUMENT (text "key is required")) r, false)
  else (r, true).

Definition expected_of (request : PutObjectRequest) : ObjectVersion :=
  match rq_precondition request with ExpectedVersion version => version | _ => no_version end.

Definition fingerprint_input (request : PutObjectRequest) (actual_digest : bytes) : MutationIdentityInput :=
  RequestFingerprint.mkIdentity
    (match rq_precondition request with CreateIfAbsent => kCreateIfAbsent | _ => kReplaceIfVersion end)
    (rq_key request) (rq_payload_size request) actual_digest (rq_timestamp_ns request)
    (ov_inode_number (expected_of request)) (ov_generation (expected_of request)).

(** What the admission of a call leads to: a task, or the end of the handler with
    the lease it may hold. *)
Inductive admission := TaskMade (t : QueuedTask) | Rejected (lease : Lease).

(** PutObject from the limiter to the task of call [n]. *)
Definition admit_put (ch : choice) (n : nat) (limiter : LimiterState) (p : PutContext)
    : LimiterState * PutContext * list metric * admission :=
  match TryAcquire limiter (attachment_size p) with
  | (limiter, None) =>
    (limiter, put_response (SetResponse PUT_STATUS_OVERLOADED (text "inflight payload byte limit exceeded")) p,
     [InflightByteRejection], Rejected None)
  | (limiter, Some lease) =>
    match ComputeSha256 (px_attachment p) with
    | None =>
      (limiter, put_response (SetResponse PUT_STATUS_STORAGE_ERROR (text "could not compute request SHA-256")) p,
       [StorageError], Rejected (Some lease))
    | Some actual_digest =>
      if negb (bool_decide (actual_digest = rq_sha256 (px_request p)))
      then (limiter, put_response (SetResponse PUT_STATUS_INVALID_ARGUMENT (text "request SHA-256 does not match attachment")) p,
            [], Rejected (Some lease))
      else
      match ch_throw ch with
      | Some what => (limiter, put_response (SetResponse PUT_STATUS_STORAGE_ERROR what) p, [StorageError], Rejected (Some lease))
      | None =>
        match BuildRequestFingerprint EVP_Digest (fingerprint_input (px_request p) actual_digest) with
        | Err _ => (limiter, put_response (SetResponse PUT_STATUS_INVALID_ARGUMENT (ch_detail ch)) p, [], Rejected (Some lease))
        | Ok fingerprint =>
          (limiter, put_captured (mkIdentity (rq_request_id (px_request p)) fingerprint) p, [],
           TaskMade (MakeTask n (Some lease) true true))
        end
      end
    end
  end.

(** GetObject and StatObject up to the task. *)
Definition admit_read (ch : choice) (n : nat) (r : ReadContext) : ReadContext * list metric * admission :=
  match ch_throw ch with
  | Some what => (read_response (SetReadResponse READ_STATUS_STORAGE_ERROR what) r, [StorageError], Rejected None)
  | None => (r, [], TaskMade (MakeFreeTask n true true))
  end.

(** What a handler notes when the queue does not take the task. *)
Definition refuse_put (r : EnqueueResult) (p : PutContext) : PutContext * list metric :=
  match r with
  | kFull => (put_cancelled PUT_STATUS_OVERLOADED (text "bounded task queue is full") p, [WriteQueueRejection])
  | kResourceExhausted => (put_cancelled PUT_STATUS_OVERLOADED (text "task queue allocation failed") p, [QueueAllocationFailure])
  | kStopped => (put_cancelled PUT_STATUS_SERVER_STOPPING stopping_text p, [])
  | _ => (put_cancelled PUT_STATUS_STORAGE_ERROR (text "invalid queued PutObject task") p, [StorageError])
  end.

Definition refuse_read (r : EnqueueResult) (x : ReadContext) : ReadContext * list metric :=
  match r with
  | kFull => (read_cancelled READ_STATUS_OVERLOADED (text "bounded read queue is full") x, [ReadQueueRejection])
  | kResourceExhausted => (read_cancelled READ_STATUS_OVERLOADED (text "read queue allocation failed") x, [QueueAllocationFailure])
  | kStopped => (read_cancelled READ_STATUS_SERVER_STOPPING stopping_text x, [])
  | _ =>
    (read_cancelled READ_STATUS_STORAGE_ERROR
       (match rx_kind x with
        | GetKind => text "invalid queued GetObject task"
        | StatKind => text "invalid queued StatObject task"
        end) x, [StorageError])
  end.

(** * The callbacks *)
(** The backend, and the image file it works on. *)
Definition backend_state : Type := ObjectBackend * image.

(** One operation of the backend, under its lock. *)
Definition with_backend {A} (script : list sysret) (m : op A) (s : backend_state) : backend_state * A :=
  let '((b, e), a) := m (s.1, mkEnv s.2 size script []) in ((b, disk e), a).

(** The execute callback of PutObject, without the closure: the backend and the
    context afterwards, the metrics, and what was asked of the backend. *)
Definition execute_put (ch : choice) (p : PutContext) (s : backend_state)
    : backend_state * PutContext * list metric * list (request * response) :=
  let request := px_request p in
  let payload := concat (px_attachment p) in
  let finish s p (f : PutObjectResponse -> PutObjectResponse) recorded log :=
    let p := put_response f p in
    (s, p, [WriteQueueWait] ++ recorded ++ RecordPutStatus (pr_status (px_response p)) ++ [PutExecution], log) in
  let failed what := SetResponse PUT_STATUS_STORAGE_ERROR what in
  match ch_throw ch with
  | Some what => finish s p (failed what) [] []
  | None =>
    if ch_short ch then finish s p (failed (text "could not flatten request attachment")) [] []
    else
    let '(s, (result, mutation), asked) :=
      match rq_precondition request with
      | CreateIfAbsent =>
        (with_backend (ch_script ch)
           (PutIfAbsentIdempotent (ch_oom ch) (rq_key request) payload (rq_timestamp_ns request) (px_identity p)) s,
         PutOnce (rq_key request) payload (rq_timestamp_ns request) (px_identity p))
      | _ =>
        (with_backend (ch_script ch)
           (ReplaceIfVersionIdempotent (ch_oom ch) (rq_key request) (expected_of request) payload (rq_timestamp_ns request)
              (px_identity p)) s,
         ReplaceOnce (rq_key request) (expected_of request) payload (rq_timestamp_ns request) (px_identity p))
      end in
    let filled := MapMutationResult result mutation (ch_detail ch) in
    let log := [(asked, Settled result mutation)] in
    match ch_throw_after ch with
    | Some (late, what) =>
      finish s (put_noted true p) (fun response => failed what (if late then filled response else response)) (RecordMutationDisposition mutation) log
    | None => finish s (put_noted false p) filled (RecordMutationDisposition mutation) log
    end
  end.

(** The execute callbacks of GetObject and StatObject. *)
Definition execute_read (ch : choice) (r : ReadContext) (s : backend_state)
    : backend_state * ReadContext * list metric * list (request * response) :=
  let finish s (r : ReadContext) (f : ReadObjectResponse -> ReadObjectResponse) log :=
    let r := read_response f r in
    (s, r, [ReadQueueWait] ++ RecordReadStatus (rx_response r) ++
             [match rx_kind r with GetKind => GetExecution | StatKind => StatExecution end], log) in
  let failed what := SetReadResponse READ_STATUS_STORAGE_ERROR what in
  let answer s r result log :=
    let filled := MapReadResult result (ch_detail ch) in
    match ch_throw_after ch with
    | Some (late, what) => finish s (read_noted true r) (fun response => failed what (if late then filled response else response)) log
    | None => finish s (read_noted false r) filled log
    end in
  match ch_throw ch with
  | Some what => finish s r (failed what) []
  | None =>
    match rx_kind r with
    | GetKind =>
      let '(s, result) := with_backend (ch_script ch) (Get (rx_key r)) s in
      match result with
      | Ok (payload, stat) => answer s (read_attached payload r) (Ok stat) [(Fetch (rx_key r), Contents result)]
      | Err er => answer s r (Err er) [(Fetch (rx_key r), Contents result)]
      end
    | StatKind =>
      let '(s, result) := with_backend (ch_script ch) (Stat (rx_key r)) s in
      answer s r result [(Query (rx_key r), Status result)]
    end
  end.

Definition execute (ch : choice) (x : context) (s : backend_state) : backend_state * context * list metric * list (request * response) :=
  match x with
  | PutOf p => let '(s, p, recorded, log) := execute_put ch p s in (s, PutOf p, recorded, log)
  | ReadOf r => let '(s, r, recorded, log) := execute_read ch r s in (s, ReadOf r, recorded, log)
  end.

(** The cancel callbacks, without the closure. *)
Definition cancel (x : context) : context :=
  match x with
  | PutOf p => PutOf (put_response (SetResponse (px_cancel_status p) (px_cancel_detail p)) p)
  | ReadOf r => ReadOf (read_response (SetReadResponse (rx_cancel_status r) (rx_cancel_detail r)) r)
  end.

(** * Threads *)
(** A handler of call [n] before it looks at the stopping flag ([Entered]), before
    the limiter ([Admitting]), on its way out with the lease it holds and its guard
    still in charge of done ([Leaving]), before [TryEnqueue] ([Offering]), before
    the cancellation of a refused task ([Refusing]), in [Finish] after the callback
    ([Ending]), back in brpc ([Returned]). A worker (of the write queue or of the
    read queue) in [WaitPop], before [Run], in [Finish] after the callback, or at
    its end. Shutdown at its start, with the flag set, with the write queue
    stopped, cancelling the pending tasks, in [Finish] of one of them, returned, or
    returned at once because somebody else had called it. *)
Inductive thread :=
| Entered (n : nat)
| Admitting (n : nat)
| Leaving (n : nat) (lease : Lease)
| Offering (t : QueuedTask)
| Refusing (t : QueuedTask)
| Ending (t : QueuedTask)
| Returned
| Waiting (writer : bool)
| Holding (writer : bool) (t : QueuedTask)
| Releasing (writer : bool) (t : QueuedTask)
| Exited (writer : bool)
| ShutdownCalled
| StoppingWrites
| StoppingReads (pending_writes : list QueuedTask)
| Cancelling (pending : list QueuedTask)
| CancellingEnd (t : QueuedTask) (pending : list QueuedTask)
| ShutdownReturned
| ShutdownSkipped.

(** What the threads share. [sv_executed] notes what was asked of the backend, by
    which call, and its answer. *)
Record shared := mkShared {
  sv_backend : backend_state;
  sv_limiter : LimiterState;
  sv_write_queue : BoundedTaskQueue;
  sv_read_queue : BoundedTaskQueue;
  sv_metrics : ObjectServiceMetrics;
  sv_stopping : bool;
  sv_calls : list call;
  sv_executed : list (nat * (request * response))
}.

Definition set_backend x s := mkShared x (sv_limiter s) (sv_write_queue s) (sv_read_queue s) (sv_metrics s) (sv_stopping s) (sv_calls s) (sv_executed s).
Definition set_limiter x s := mkShared (sv_backend s) x (sv_write_queue s) (sv_read_queue s) (sv_metrics s) (sv_stopping s) (sv_calls s) (sv_executed s).
Definition set_queue (writer : bool) x s :=
  mkShared (sv_backend s) (sv_limiter s) (if writer then x else sv_write_queue s) (if writer then sv_read_queue s else x)
    (sv_metrics s) (sv_stopping s) (sv_calls s) (sv_executed s).
Definition add_metrics l s := mkShared (sv_backend s) (sv_limiter s) (sv_write_queue s) (sv_read_queue s) (sv_metrics s ++ l) (sv_stopping s) (sv_calls s) (sv_executed s).
Definition set_stopping s := mkShared (sv_backend s) (sv_limiter s) (sv_write_queue s) (sv_read_queue s) (sv_metrics s) true (sv_calls s) (sv_executed s).
Definition set_call n c s := mkShared (sv_backend s) (sv_limiter s) (sv_write_queue s) (sv_read_queue s) (sv_metrics s) (sv_stopping s) (<[n := c]> (sv_calls s)) (sv_executed s).
Definition add_call c s := mkShared (sv_backend s) (sv_limiter s) (sv_write_queue s) (sv_read_queue s) (sv_metrics s) (sv_stopping s) (sv_calls s ++ [c]) (sv_executed s).
Definition add_executed l s := mkShared (sv_backend s) (sv_limiter s) (sv_write_queue s) (sv_read_queue s) (sv_metrics s) (sv_stopping s) (sv_calls s) (sv_executed s ++ l).

Definition queue_of (writer : bool) (s : shared) : BoundedTaskQueue := if writer then sv_write_queue s else sv_read_queue s.
Definition is_put (x : context) : bool := match x with PutOf _ => true | ReadOf _ => false end.

(** From the entry of a handler to the limiter (PutObject) or to the queue. *)
Definition enter (ch : choice) (n : nat) (c : call) (s : shared) : thread * shared :=
  if negb (cl_arguments c) then (Leaving n None, set_call n (SetFailed EINVAL c) s)
  else match cl_context c with
  | PutOf p =>
    let '(p, go) := enter_put (sv_stopping s) p in
    (if go then Admitting n else Leaving n None, set_call n (with_context (PutOf p) c) s)
  | ReadOf r =>
    let '(r, go) := enter_read (sv_stopping s) r in
    if negb go then (Leaving n None, set_call n (with_context (ReadOf r) c) s)
    else
    let '(r, recorded, a) := admit_read ch n r in
    let s := add_metrics recorded s in
    let c := with_context (ReadOf r) c in
    match a with
    | TaskMade t => (Offering t, set_call n (Adopt c) s)
    | Rejected lease => (Leaving n lease, set_call n c s)
    end
  end.

(** From the limiter to the write queue. *)
Definition admission_step (ch : choice) (n : nat) (p : PutContext) (c : call) (s : shared) : thread * shared :=
  let '(limiter, p, recorded, a) := admit_put ch n (sv_limiter s) p in
  let s := add_metrics recorded (set_limiter limiter s) in
  let c := with_context (PutOf p) c in
  match a with
  | TaskMade t => (Offering t, set_call n (Adopt c) s)
  | Rejected lease => (Leaving n lease, set_call n c s)
  end.

(** [TryEnqueue]; a task that was moved into the queue leaves nothing behind. *)
Definition offer (ch : choice) (t : QueuedTask) (c : call) (s : shared) : thread * shared :=
  let writer := is_put (cl_context c) in
  let '(q, t, r) := TryEnqueue (queue_of writer s) t (ch_oom ch) in
  let s := set_queue writer q s in
  match r with
  | kAccepted => (Returned, s)
  | _ =>
    let '(x, recorded) :=
      match cl_context c with
      | PutOf p => let '(p, recorded) := refuse_put r p in (PutOf p, recorded)
      | ReadOf x => let '(x, recorded) := refuse_read r x in (ReadOf x, recorded)
      end in
    (Refusing t, add_metrics recorded (set_call (t_id t) (with_context x c) s))
  end.

(** [Finish]: the selected callback runs if the task is active. The task after it,
    and whether its lease remains to be released. *)
Definition finish_task (run : bool) (ch : choice) (t : QueuedTask) (c : call) (s : shared) : QueuedTask * shared * bool :=
  match FinishBegin run t [] with
  | (t, _, true) =>
    if run
    then
      let '(backend, x, recorded, asked) := execute ch (cl_context c) (sv_backend s) in
      (t, add_executed (map (pair (t_id t)) asked)
            (add_metrics recorded (set_call (t_id t) (CompletionRun (with_context x c)) (set_backend backend s))), true)
    else (t, set_call (t_id t) (CompletionRun (with_context (cancel (cl_context c)) c)) s, true)
  | (t, _, false) => (t, s, false)
  end.

Definition release (t : QueuedTask) (s : shared) : shared :=
  let '(_, limiter) := FinishEnd t (sv_limiter s) in set_limiter limiter s.

(** One move of a thread; [None] when it waits, or has come to its end. [joined]
    says that all workers have ended. *)
Definition advance (ch : choice) (joined : bool) (th : thread) (s : shared) : option (thread * shared) :=
  match th with
  | Entered n => c ← sv_calls s !! n; Some (enter ch n c s)
  | Admitting n =>
    c ← sv_calls s !! n;
    match cl_context c with PutOf p => Some (admission_step ch n p c s) | ReadOf _ => None end
  | Leaving n lease => c ← sv_calls s !! n; Some (Returned, set_call n (guard_exit c) (set_limiter (LeaseReset (sv_limiter s) lease) s))
  | Offering t => c ← sv_calls s !! t_id t; Some (offer ch t c s)
  | Refusing t => c ← sv_calls s !! t_id t; let '(t, s, more) := finish_task false ch t c s in Some (if more then Ending t else Returned, s)
  | Ending t => Some (Returned, release t s)
  | Returned => None
  | Waiting writer =>
    if pop_ready (queue_of writer s)
    then match WaitPop (queue_of writer s) with
      | (q, Some t) => Some (Holding writer t, set_queue writer q s)
      | (q, None) => Some (Exited writer, set_queue writer q s)
      end
    else None
  | Holding writer t =>
    c ← sv_calls s !! t_id t; let '(t, s, more) := finish_task true ch t c s in Some (if more then Releasing writer t else Waiting writer, s)
  | Releasing writer t => Some (Waiting writer, release t s)
  | Exited _ => None
  | ShutdownCalled => Some (if sv_stopping s then ShutdownSkipped else StoppingWrites, set_stopping s)
  | StoppingWrites =>
    let '(q, pending_writes) := StopAndTakePending (sv_write_queue s) in Some (StoppingReads pending_writes, set_queue true q s)
  | StoppingReads pending_writes =>
    let '(q, pending_reads) := StopAndTakePending (sv_read_queue s) in
    Some (Cancelling (pending_writes ++ pending_reads), set_queue false q s)
  | Cancelling [] => if joined then Some (ShutdownReturned, s) else None
  | Cancelling (t :: pending) =>
    c ← sv_calls s !! t_id t;
    let '(t, s, more) := finish_task false ch t c s in Some (if more then CancellingEnd t pending else Cancelling pending, s)
  | CancellingEnd t pending => Some (Cancelling pending, release t s)
  | ShutdownReturned | ShutdownSkipped => None
  end.

Record ObjectServiceImpl := mkServiceImpl { sv_shared : shared; sv_threads : list thread }.

(** The join of Shutdown waits for the write worker and all read workers. *)
Definition has_ended (th : thread) : bool :=
  match th with Waiting _ | Holding _ _ | Releasing _ _ => false | _ => true end.

Inductive service_step : ObjectServiceImpl -> ObjectServiceImpl -> Prop :=
| a_thread_moves ch i th s l th' s' :
    l !! i = Some th -> advance ch (forallb has_ended l) th s = Some (th', s') ->
    service_step (mkServiceImpl s l) (mkServiceImpl s' (<[i := th']> l))
| a_put_arrives arguments request attachment s l :
    service_step (mkServiceImpl s l)
      (mkServiceImpl (add_call (new_call arguments (new_put request attachment)) s) (l ++ [Entered (length (sv_calls s))]))
| a_read_arrives arguments kind key s l :
    service_step (mkServiceImpl s l)
      (mkServiceImpl (add_call (new_call arguments (new_read kind key)) s) (l ++ [Entered (length (sv_calls s))]))
| a_shutdown_arrives s l : service_step (mkServiceImpl s l) (mkServiceImpl s (l ++ [ShutdownCalled])).

Record ObjectServiceOptions := mkServiceOptions {
  max_inflight_bytes : Z;
  max_queued_write_tasks : nat;
  max_queued_read_tasks : nat;
  read_worker_count : nat
}.

(** The constructor: one write worker and the read workers. *)
Definition new_service (b : backend_state) (o : ObjectServiceOptions) : ObjectServiceImpl :=
  mkServiceImpl
    (mkShared b (mkLimiter (max_inflight_bytes o) 0) (mkQueue (max_queued_write_tasks o) [] false)
       (mkQueue (max_queued_read_tasks o) [] false) [] false [] [])
    (Waiting true :: replicate (read_worker_count o) (Waiting false)).

Definition inflight_bytes (s : ObjectServiceImpl) : Z := used_bytes (sv_limiter (sv_shared s)).
Definition queued_write_tasks (s : ObjectServiceImpl) : nat := length (tasks_ (sv_write_queue (sv_shared s))).
Definition queued_read_tasks (s : ObjectServiceImpl) : nat := length (tasks_ (sv_read_queue (sv_shared s))).
End service.
