(* ===== verification/ServiceProofs.v ===== *)
(** The invariant of the RPC service. Every call is at exactly one stage of its
    life (the handler holds done, a task holds done, or it was answered), the byte
    counter is the sum of the leases, and the queues are as far stopped as
    Shutdown got. Each is shown to survive every move of every thread. *)
From S2P Require Import Prelude Codec OndiskFormat Disk JournalStore BitmapAllocator RequestLedger ImageReader.
From S2P Require Import LedgerStore FileMutation NewObject RequestFingerprint ObjectBackend StoreRefinement RpcQueue.
From S2P Require Import ObjectService.
Open Scope Z_scope.

(** * Counting *)
(** The tasks a thread holds; a handler on its way out holds a lease only. *)
Definition held_by (th : thread) : list QueuedTask :=
  match th with
  | Leaving n lease => [mkTask n lease false]
  | Offering t | Refusing t | Ending t | Holding _ t | Releasing _ t => [t]
  | StoppingReads pending | Cancelling pending => pending
  | CancellingEnd t pending => t :: pending
  | _ => []
  end.

(** How many threads, or queued tasks, have a call at each of its stages. *)
Record counts := mkStages { k_entered : Z; k_admitting : Z; k_leaving : Z; k_live : Z; k_refusing : Z }.
Definition no_counts : counts := mkStages 0 0 0 0 0.
Definition add_counts (a b : counts) : counts :=
  mkStages (k_entered a + k_entered b) (k_admitting a + k_admitting b) (k_leaving a + k_leaving b) (k_live a + k_live b)
    (k_refusing a + k_refusing b).

Definition mark (n x : nat) : Z := if (n =? x)%nat then 1 else 0.
Definition thread_counts (x : nat) (th : thread) : counts :=
  mkStages
    (match th with Entered n => mark n x | _ => 0 end) (match th with Admitting n => mark n x | _ => 0 end)
    (match th with Leaving n _ => mark n x | _ => 0 end) (sum_of (is_live x) (held_by th))
    (match th with Refusing t => is_live x t | _ => 0 end).

Definition queued (s : shared) : list QueuedTask := tasks_ (sv_write_queue s) ++ tasks_ (sv_read_queue s).
Definition queue_counts (x : nat) (s : shared) : counts := mkStages 0 0 0 (sum_of (is_live x) (queued s)) 0.

Fixpoint threads_counts (x : nat) (l : list thread) : counts :=
  match l with [] => no_counts | th :: l => add_counts (thread_counts x th) (threads_counts x l) end.

Definition total_counts (x : nat) (s : shared) (l : list thread) : counts := add_counts (threads_counts x l) (queue_counts x s).

Definition counts_nonneg (k : counts) : Prop :=
  0 <= k_entered k /\ 0 <= k_admitting k /\ 0 <= k_leaving k /\ 0 <= k_refusing k <= k_live k.

Lemma counts_eq a b : k_entered a = k_entered b -> k_admitting a = k_admitting b -> k_leaving a = k_leaving b ->
  k_live a = k_live b -> k_refusing a = k_refusing b -> a = b.
Proof. destruct a, b. cbn. congruence. Qed.

Lemma mark_nonneg n x : 0 <= mark n x <= 1.
Proof. unfold mark. destruct (_ =? _)%nat; lia. Qed.

Lemma thread_nonneg x th : counts_nonneg (thread_counts x th).
Proof.
  assert (forall l, 0 <= sum_of (is_live x) l) as H by (intros l; apply live_nonneg).
  unfold counts_nonneg, thread_counts. cbn. destruct th; cbn;
    repeat match goal with
    | |- context [mark ?n x] => lazymatch goal with H : 0 <= mark n x <= 1 |- _ => fail | _ => pose proof (mark_nonneg n x) end
    | |- context [is_live x ?t] => lazymatch goal with H : 0 <= is_live x t <= 1 |- _ => fail | _ => pose proof (is_live_range x t) end
    | |- context [sum_of (is_live x) ?l] => lazymatch goal with H : 0 <= sum_of (is_live x) l |- _ => fail | _ => pose proof (H l) end
    end; lia.
Qed.

Lemma threads_nonneg x l : counts_nonneg (threads_counts x l).
Proof. induction l as [|th l IH]; [by cbn|]. pose proof (thread_nonneg x th). unfold counts_nonneg in *. cbn in *. lia. Qed.

(** The threads other than the one that moves. *)
Lemma threads_split x l i th : l !! i = Some th ->
  exists o, counts_nonneg o /\ threads_counts x l = add_counts o (thread_counts x th) /\
    forall th', threads_counts x (<[i := th']> l) = add_counts o (thread_counts x th').
Proof.
  revert i. induction l as [|th0 l IH]; intros i H; [done|]. destruct i as [|i].
  - injection H as ->. exists (threads_counts x l). split; [apply threads_nonneg|].
    split; [|intros th']; apply counts_eq; cbn; lia.
  - destruct (IH i H) as (o & Hn & E1 & E2). exists (add_counts (thread_counts x th0) o). split; [|split; [|intros th']].
    + pose proof (thread_nonneg x th0). unfold counts_nonneg in *. cbn in *. lia.
    + cbn. rewrite E1. apply counts_eq; cbn; lia.
    + change (<[S i := th']> (th0 :: l)) with (th0 :: <[i := th']> l). cbn [threads_counts]. rewrite (E2 th'). apply counts_eq; cbn; lia.
Qed.

Lemma threads_app x l th : threads_counts x (l ++ [th]) = add_counts (threads_counts x l) (thread_counts x th).
Proof. induction l as [|th0 l IH]; cbn; [|rewrite IH]; apply counts_eq; cbn; lia. Qed.

(** The same for the leases. *)
Definition all_held (l : list thread) : list QueuedTask := concat (map held_by l).

Lemma all_held_sum f l i th th' : l !! i = Some th ->
  sum_of f (all_held (<[i := th']> l)) = sum_of f (all_held l) - sum_of f (held_by th) + sum_of f (held_by th').
Proof.
  revert i. induction l as [|th0 l IH]; intros i H; [done|]. unfold all_held in *. destruct i as [|i].
  - injection H as ->. change (<[0%nat := th']> (th :: l)) with (th' :: l). cbn [map concat]. rewrite !sum_app. lia.
  - change (<[S i := th']> (th0 :: l)) with (th0 :: <[i := th']> l). cbn [map concat]. rewrite !sum_app, (IH i H). lia.
Qed.

Lemma all_held_forall (P : QueuedTask -> Prop) l : Forall P (all_held l) <-> Forall (fun th => Forall P (held_by th)) l.
Proof. unfold all_held. rewrite Forall_concat, Forall_map. done. Qed.

Lemma live_active x t : active t = true -> is_live x t = mark (t_id t) x.
Proof. unfold is_live, mark. by intros ->. Qed.
Lemma live_inactive x t : active t = false -> is_live x t = 0.
Proof. unfold is_live. by intros ->. Qed.
Lemma mark_same n : mark n n = 1.
Proof. unfold mark. by rewrite Nat.eqb_refl. Qed.
Lemma mark_other n x : n <> x -> mark n x = 0.
Proof. unfold mark. by intros ->%Nat.eqb_neq. Qed.
Lemma add_no_counts k : add_counts no_counts k = k.
Proof. apply counts_eq; cbn; lia. Qed.

(** * The stages of a call *)
Definition entries (x : nat) (log : list (nat * (request * response))) : list (request * response) :=
  map snd (filter (fun entry => entry.1 = x) log).

Lemma entries_app x log log' : entries x (log ++ log') = entries x log ++ entries x log'.
Proof. unfold entries. by rewrite filter_app, map_app. Qed.
Lemma entries_same x l : entries x (map (pair x) l) = l.
Proof.
  unfold entries. induction l as [|a l IH]; [done|]. cbn [map]. rewrite filter_cons_True by done. cbn [map]. by rewrite IH.
Qed.
Lemma entries_other x n l : n <> x -> entries x (map (pair n) l) = [].
Proof.
  intros H. unfold entries. induction l as [|a l IH]; [done|]. cbn [map]. by rewrite filter_cons_False.
Qed.

Section stages.
Context {digest_context : Type} (EVP_DigestInit_ex : option digest_context).
Context (EVP_DigestUpdate : digest_context -> bytes -> option digest_context) (EVP_DigestFinal_ex : digest_context -> option bytes).
Context (EVP_Digest : bytes -> option bytes) (size : Z).
Abbreviation sha256 := (ComputeSha256 EVP_DigestInit_ex EVP_DigestUpdate EVP_DigestFinal_ex).

(** A request with a fingerprint: complete, within the limits, with the digest of
    its attachment, and with a precondition that can be fingerprinted. *)
Definition fingerprinted (p : PutContext) (f : bytes) : Prop :=
  invalid_put p = None /\ exists d, sha256 (px_attachment p) = Some d /\ d = rq_sha256 (px_request p) /\
    BuildRequestFingerprint EVP_Digest (fingerprint_input (px_request p) d) = Ok f.

(** What the execute callback captured. *)
Definition captured (p : PutContext) : Prop :=
  exists f, fingerprinted p f /\ px_identity p = mkIdentity (rq_request_id (px_request p)) f.

(** The statuses of calls the backend never hears of, with their reasons. *)
Definition put_refusal (stopping : bool) (p : PutContext) (status : PutStatus) : Prop :=
  match status with
  | PUT_STATUS_INVALID_ARGUMENT => forall f, ~ fingerprinted p f
  | PUT_STATUS_SERVER_STOPPING => stopping = true
  | PUT_STATUS_OVERLOADED | PUT_STATUS_STORAGE_ERROR => True
  | _ => False
  end.
Definition read_refusal (stopping : bool) (r : ReadContext) (status : ReadStatus) : Prop :=
  match status with
  | READ_STATUS_INVALID_ARGUMENT => rx_key r = []
  | READ_STATUS_SERVER_STOPPING => stopping = true
  | READ_STATUS_OVERLOADED | READ_STATUS_STORAGE_ERROR => True
  | _ => False
  end.

Definition refused_context (stopping : bool) (x : context) : Prop :=
  match x with
  | PutOf p => exists status detail, px_response p = mkPutResponse status None None detail /\ put_refusal stopping p status
  | ReadOf r => rx_attachment r = [] /\
      exists status detail, rx_response r = mkReadResponse status None detail /\ read_refusal stopping r status
  end.

(** What PutObject asks of the backend. *)
Definition asked_of (p : PutContext) : request :=
  let r := px_request p in
  match rq_precondition r with
  | CreateIfAbsent => PutOnce (rq_key r) (concat (px_attachment p)) (rq_timestamp_ns r) (px_identity p)
  | _ => ReplaceOnce (rq_key r) (expected_of r) (concat (px_attachment p)) (rq_timestamp_ns r) (px_identity p)
  end.

(** The response is what the backend answered, or an exception lost the answer. *)
Definition put_mapped (p : PutContext) (result : result errno unit) (m : IdempotentMutationResult) : Prop :=
  if px_thrown p then pr_status (px_response p) = PUT_STATUS_STORAGE_ERROR
  else exists detail, px_response p = MapMutationResult result m detail new_put_response.
Definition read_mapped (r : ReadContext) (result : result errno ObjectStat) : Prop :=
  if rx_thrown r then rr_status (rx_response r) = READ_STATUS_STORAGE_ERROR
  else exists detail, rx_response r = MapReadResult result detail new_read_response.

(** The backend was asked, once, for what the call says. *)
Definition executed_context (x : context) (log : list (request * response)) : Prop :=
  match x with
  | PutOf p => captured p /\ exists result m, log = [(asked_of p, Settled result m)] /\ put_mapped p result m
  | ReadOf r =>
    match rx_kind r with
    | GetKind => exists result, log = [(Fetch (rx_key r), Contents result)] /\
        rx_attachment r = match result with Ok (payload, _) => payload | Err _ => [] end /\
        read_mapped r match result with Ok (_, stat) => Ok stat | Err er => Err er end
    | StatKind => exists result, log = [(Query (rx_key r), Status result)] /\ rx_attachment r = [] /\ read_mapped r result
    end
  end.

Definition answered (stopping : bool) (c : call) (log : list (request * response)) : Prop :=
  (cl_failed c = Some EINVAL /\ cl_arguments c = false /\ log = []) \/
  (cl_failed c = None /\ (log = [] /\ refused_context stopping (cl_context c) \/ executed_context (cl_context c) log)).

(** The stages before the answer. *)
Definition fresh_context (x : context) : Prop :=
  (exists request attachment, x = new_put request attachment) \/ (exists kind key, x = new_read kind key).
Definition admitting (c : call) : Prop :=
  cl_failed c = None /\ exists request attachment, cl_context c = new_put request attachment /\
    invalid_put (mkPutContext request attachment no_identity new_put_response PUT_STATUS_SERVER_STOPPING stopping_text false) = None.
Definition leaving (stopping : bool) (c : call) : Prop :=
  (cl_failed c = Some EINVAL /\ cl_arguments c = false) \/ (cl_failed c = None /\ refused_context stopping (cl_context c)).
(** With a task that may be executed; [ok] is what is known of the status of a
    cancellation. *)
Definition with_task (put_ok : PutContext -> PutStatus -> Prop) (read_ok : ReadContext -> ReadStatus -> Prop) (c : call) : Prop :=
  cl_failed c = None /\
  match cl_context c with
  | PutOf p => captured p /\ px_response p = new_put_response /\ put_ok p (px_cancel_status p)
  | ReadOf r => rx_response r = new_read_response /\ rx_attachment r = [] /\ read_ok r (rx_cancel_status r)
  end.
Definition waiting : call -> Prop :=
  with_task (fun _ status => status = PUT_STATUS_SERVER_STOPPING) (fun _ status => status = READ_STATUS_SERVER_STOPPING).
Definition refusing (stopping : bool) : call -> Prop := with_task (put_refusal stopping) (read_refusal stopping).

Definition done_at (c : call) : bool * bool * nat := (cl_guard c, cl_completion c, cl_runs c).

Inductive stage (stopping : bool) (c : call) : counts -> list (request * response) -> Prop :=
| stage_entered : done_at c = (true, false, 0%nat) -> cl_failed c = None -> fresh_context (cl_context c) ->
    stage stopping c (mkStages 1 0 0 0 0) []
| stage_admitting : done_at c = (true, false, 0%nat) -> admitting c -> stage stopping c (mkStages 0 1 0 0 0) []
| stage_leaving : done_at c = (true, false, 0%nat) -> leaving stopping c -> stage stopping c (mkStages 0 0 1 0 0) []
| stage_waiting : done_at c = (false, true, 0%nat) -> waiting c -> stage stopping c (mkStages 0 0 0 1 0) []
| stage_refusing : done_at c = (false, true, 0%nat) -> refusing stopping c -> stage stopping c (mkStages 0 0 0 1 1) []
| stage_answered log : done_at c = (false, false, 1%nat) -> answered stopping c log -> stage stopping c no_counts log.

Definition call_stage (stopping : bool) (k : counts) (c : option call) (log : list (request * response)) : Prop :=
  match c with Some c => stage stopping c k log | None => k = no_counts /\ log = [] end.

(** Once Shutdown was called it stays called. *)
Lemma put_refusal_later p status st : put_refusal st p status -> put_refusal true p status.
Proof. by destruct status, st. Qed.
Lemma read_refusal_later r status st : read_refusal st r status -> read_refusal true r status.
Proof. by destruct status, st. Qed.
Lemma refused_later x st : refused_context st x -> refused_context true x.
Proof.
  destruct x as [p|r]; cbn.
  - intros (status & d & E & H). exists status, d. split; [done|]. by eapply put_refusal_later.
  - intros (Ha & status & d & E & H). split; [done|]. exists status, d. split; [done|]. by eapply read_refusal_later.
Qed.
Lemma stage_later st c k log : call_stage st k c log -> call_stage true k c log.
Proof.
  destruct c as [c|]; [|done]. intros H. destruct H as [? ? ?|? ?|? Hl|? ?|? Hr|log ? Ha].
  - by apply stage_entered.
  - by apply stage_admitting.
  - apply stage_leaving; [done|]. destruct Hl as [Hl|[Hl Hx]]; [by left|]. right. split; [done|]. by eapply refused_later.
  - by apply stage_waiting.
  - apply stage_refusing; [done|]. destruct Hr as [Hf Hr]. split; [done|]. destruct (cl_context c).
    + destruct Hr as (? & ? & ?). split; [done|]. split; [done|]. by eapply put_refusal_later.
    + destruct Hr as (? & ? & ?). split; [done|]. split; [done|]. by eapply read_refusal_later.
  - apply stage_answered; [done|]. destruct Ha as [Ha|[Hf [[El Ha]|Ha]]]; [by left|right; split; [done|left]..|].
    + split; [done|]. by eapply refused_later.
    + right. split; [done|]. by right.
Qed.

(** A thread that has a call at some stage is the only one. *)
Lemma stage_inv st o k c log : counts_nonneg o -> call_stage st (add_counts o k) (Some c) log ->
  (k = mkStages 1 0 0 0 0 -> o = no_counts /\ done_at c = (true, false, 0%nat) /\ cl_failed c = None /\ fresh_context (cl_context c) /\ log = []) /\
  (k = mkStages 0 1 0 0 0 -> o = no_counts /\ done_at c = (true, false, 0%nat) /\ admitting c /\ log = []) /\
  (k = mkStages 0 0 1 0 0 -> o = no_counts /\ done_at c = (true, false, 0%nat) /\ leaving st c /\ log = []) /\
  (k = mkStages 0 0 0 1 0 -> o = no_counts /\ done_at c = (false, true, 0%nat) /\ waiting c /\ log = []) /\
  (k = mkStages 0 0 0 1 1 -> o = no_counts /\ done_at c = (false, true, 0%nat) /\ refusing st c /\ log = []).
Proof.
  intros Hn H. cbn [call_stage] in H. remember (add_counts o k) as t eqn:Et.
  assert (k_entered t = k_entered o + k_entered k /\ k_admitting t = k_admitting o + k_admitting k /\
    k_leaving t = k_leaving o + k_leaving k /\ k_live t = k_live o + k_live k /\ k_refusing t = k_refusing o + k_refusing k) as Hs by (by rewrite Et).
  clear Et. unfold counts_nonneg in Hn. destruct H; cbn in Hs; conj_split; intros ->; cbn in Hs; try lia;
    (split; [apply counts_eq; cbn; lia|by conj_split]).
Qed.

(** ** Moves that concern one call *)
(** A move on behalf of call [n] at the stage its thread has it: of the calls it
    changes this one only, and takes it to its next stage. *)
Definition next_stage (n : nat) (s : shared) (th : thread) (s' : shared) (th' : thread) : Prop :=
  exists c' asked,
    sv_calls s' = <[n := c']> (sv_calls s) /\ sv_stopping s' = sv_stopping s /\ queued s' = queued s /\
    sv_executed s' = sv_executed s ++ map (pair n) asked /\
    (forall x, x <> n -> thread_counts x th' = thread_counts x th) /\ stage (sv_stopping s) c' (thread_counts n th') asked.
Definition serves_call (n : nat) (c : call) (s : shared) (th : thread) (s' : shared) (th' : thread) : Prop :=
  forall o log, counts_nonneg o -> call_stage (sv_stopping s) (add_counts o (thread_counts n th)) (Some c) log ->
    o = no_counts /\ log = [] /\ next_stage n s th s' th'.

Definition stages (s : shared) (l : list thread) : Prop :=
  forall x, call_stage (sv_stopping s) (total_counts x s l) (sv_calls s !! x) (entries x (sv_executed s)).

Lemma queue_nonneg x s : counts_nonneg (queue_counts x s).
Proof. unfold counts_nonneg, queue_counts. cbn. pose proof (live_nonneg x (queued s)). lia. Qed.

(** The counts without those of the thread that moves. *)
Lemma total_split x s l i th : l !! i = Some th ->
  exists o, counts_nonneg o /\ total_counts x s l = add_counts o (thread_counts x th) /\
    forall s' th', queued s' = queued s -> total_counts x s' (<[i := th']> l) = add_counts o (thread_counts x th').
Proof.
  intros Hi. destruct (threads_split x l i th Hi) as (o & Ho & E1 & E2). exists (add_counts o (queue_counts x s)). split; [|split].
  - pose proof (queue_nonneg x s). unfold counts_nonneg in *. cbn in *. lia.
  - unfold total_counts. rewrite E1. apply counts_eq; cbn; lia.
  - intros s' th' Eq. unfold total_counts. rewrite E2. unfold queue_counts. rewrite Eq. apply counts_eq; cbn; lia.
Qed.

Lemma serves_keeps n c s l i th s' th' : l !! i = Some th -> sv_calls s !! n = Some c -> serves_call n c s th s' th' ->
  stages s l -> stages s' (<[i := th']> l).
Proof.
  intros Hi Hc Hs Hst x.
  assert (next_stage n s th s' th' /\ forall o, counts_nonneg o -> total_counts n s l = add_counts o (thread_counts n th) ->
    o = no_counts /\ entries n (sv_executed s) = []) as [(c' & asked & E1 & E2 & E3 & E4 & E5 & E6) Hn].
  { destruct (total_split n s l i th Hi) as (o & Ho & E & _). pose proof (Hst n) as H. rewrite Hc, E in H.
    destruct (Hs o _ Ho H) as (-> & Hl & Hnext). split; [done|]. intros o' Ho' E'. rewrite E in E'. split; [|done].
    injection E' as ? ? ? ? ?. apply counts_eq; cbn; lia. }
  destruct (total_split x s l i th Hi) as (o & Ho & E & Et). rewrite (Et s' th' E3), E1, E2, E4, entries_app.
  destruct (decide (x = n)) as [->|Hx].
  - destruct (Hn o Ho E) as [-> ->]. rewrite entries_same, add_no_counts.
    rewrite list_lookup_insert_eq by (by eapply lookup_lt_Some). exact E6.
  - rewrite list_lookup_insert_ne by done. rewrite (entries_other x n) by done. rewrite app_nil_r, (E5 x Hx), <- E. apply Hst.
Qed.

Lemma refused_put st p status detail : px_response p = new_put_response -> put_refusal st p status ->
  refused_context st (PutOf (put_response (SetResponse status detail) p)).
Proof. intros Hr H. exists status, detail. split; [cbn; by rewrite Hr|by destruct status]. Qed.

Lemma refused_read st r status detail : rx_response r = new_read_response -> rx_attachment r = [] -> read_refusal st r status ->
  refused_context st (ReadOf (read_response (SetReadResponse status detail) r)).
Proof. intros Hr Ha H. split; [done|]. exists status, detail. split; [cbn; by rewrite Hr|by destruct status]. Qed.

Lemma invalid_refused st p detail : invalid_put p = Some detail -> put_refusal st p PUT_STATUS_INVALID_ARGUMENT.
Proof. intros E f [H _]. congruence. Qed.

Lemma entered_counts x n : thread_counts x (Entered n) = mkStages (mark n x) 0 0 0 0.
Proof. done. Qed.
Lemma admitting_counts x n : thread_counts x (Admitting n) = mkStages 0 (mark n x) 0 0 0.
Proof. done. Qed.
Lemma leaving_counts x n lease : thread_counts x (Leaving n lease) = mkStages 0 0 (mark n x) 0 0.
Proof. done. Qed.
Lemma offering_counts x t : active t = true -> thread_counts x (Offering t) = mkStages 0 0 0 (mark (t_id t) x) 0.
Proof. intros H. unfold thread_counts. cbn. rewrite live_active by done. apply counts_eq; cbn; lia. Qed.
Lemma refusing_counts x t : active t = true -> thread_counts x (Refusing t) = mkStages 0 0 0 (mark (t_id t) x) (mark (t_id t) x).
Proof. intros H. unfold thread_counts. cbn. rewrite live_active by done. apply counts_eq; cbn; lia. Qed.

Ltac other_call := intros ? ?; rewrite ?entered_counts, ?admitting_counts, ?leaving_counts, ?offering_counts, ?refusing_counts by done;
  rewrite ?mark_other by (cbn; congruence); done.

Lemma leaving_stage st n c c' lease : done_at c = (true, false, 0%nat) -> done_at c' = done_at c -> leaving st c' ->
  stage st c' (thread_counts n (Leaving n lease)) [].
Proof. intros Hd Hd' H. rewrite leaving_counts, mark_same. apply stage_leaving; [by rewrite Hd'|done]. Qed.

Lemma adopted_stage st c n t : active t = true -> t_id t = n -> done_at c = (true, false, 0%nat) -> waiting (Adopt c) ->
  stage st (Adopt c) (thread_counts n (Offering t)) [].
Proof.
  intros Ha Ht [= Hg Hcm Hr] H. rewrite offering_counts, Ht, mark_same by done. apply stage_waiting; [|done].
  unfold done_at. cbn. by rewrite Hg, Hr.
Qed.

(** What a handler does before the limiter. *)
Lemma enter_next ch n c s th' s' : enter ch n c s = (th', s') -> done_at c = (true, false, 0%nat) -> cl_failed c = None ->
  fresh_context (cl_context c) -> next_stage n s (Entered n) s' th'.
Proof.
  intros E Hd Hf Hx. unfold enter in E. destruct (cl_arguments c) eqn:Ea; cbn [negb] in E.
  2: { injection E as <- <-. exists (SetFailed EINVAL c), []. rewrite app_nil_r. conj_split; try done; [other_call|].
       apply (leaving_stage _ _ c); [done|done|]. by left. }
  destruct Hx as [(r & a & Ex)|(k & key & Ex)]; rewrite Ex in E.
  - cbn [new_put] in E. unfold enter_put in E.
    destruct (sv_stopping s) eqn:Est; [|destruct (invalid_put _) as [detail|] eqn:Ei]; injection E as <- <-;
      eexists _, []; rewrite app_nil_r; (split; [reflexivity|]); conj_split; try done; try other_call.
    1,2: apply (leaving_stage _ _ c); [done|done|]; right; split; [done|]; apply refused_put; [done|]; first [done|by eapply invalid_refused].
    rewrite admitting_counts, mark_same. apply stage_admitting; [done|]. split; [done|]. by exists r, a.
  - cbn [new_read] in E. unfold enter_read in E. cbn [rx_key] in E.
    destruct (sv_stopping s) eqn:Est; [|destruct (bool_decide (key = [])) eqn:Ek]; cbn [negb] in E.
    3: unfold admit_read in E; destruct (ch_throw ch) as [what|].
    all: injection E as <- <-; eexists _, []; rewrite app_nil_r; (split; [reflexivity|]); conj_split; try done; try other_call.
    1-3: apply (leaving_stage _ _ c); [done|done|]; right; split; [done|]; apply refused_read; try done; by apply bool_decide_eq_true in Ek.
    apply adopted_stage; [done|done|done|]. split; [done|]. by conj_split.
Qed.

Lemma enter_serves ch n c s th' s' : enter ch n c s = (th', s') -> serves_call n c s (Entered n) s' th'.
Proof.
  intros E o log Ho H. rewrite entered_counts, mark_same in H.
  destruct (proj1 (stage_inv _ _ _ _ _ Ho H) eq_refl) as (-> & Hd & Hf & Hx & ->). conj_split; [done|done|]. by eapply enter_next.
Qed.

(** The limiter, the digest, the fingerprint. *)
Lemma admit_put_stage ch n limiter p limiter' p' recorded a st : invalid_put p = None -> px_response p = new_put_response ->
  px_cancel_status p = PUT_STATUS_SERVER_STOPPING ->
  admit_put EVP_DigestInit_ex EVP_DigestUpdate EVP_DigestFinal_ex EVP_Digest ch n limiter p = (limiter', p', recorded, a) ->
  match a with
  | TaskMade t => active t = true /\ t_id t = n /\ captured p' /\ px_response p' = new_put_response /\
      px_cancel_status p' = PUT_STATUS_SERVER_STOPPING
  | Rejected _ => refused_context st (PutOf p')
  end.
Proof.
  intros Hi Hr Hcs E. unfold admit_put in E. destruct (TryAcquire _ _) as [l [lease|]].
  2: { injection E as _ <- _ <-. by apply refused_put. }
  destruct (sha256 (px_attachment p)) as [d|] eqn:Ed; [|injection E as _ <- _ <-; by apply refused_put].
  destruct (bool_decide (d = _)) eqn:Eb; cbn [negb] in E.
  2: { injection E as _ <- _ <-. apply refused_put; [done|]. apply bool_decide_eq_false in Eb.
       intros f (_ & d' & Hd & E' & _). rewrite Ed in Hd. congruence. }
  apply bool_decide_eq_true in Eb. destruct (ch_throw ch) as [what|]; [injection E as _ <- _ <-; by apply refused_put|].
  destruct (BuildRequestFingerprint EVP_Digest _) as [f|er] eqn:Ef; injection E as _ <- _ <-.
  - conj_split; try done. exists f. split; [|done]. split; [exact Hi|]. by exists d.
  - apply refused_put; [done|]. intros f (_ & d' & Hd & E' & Hb). rewrite Ed in Hd. injection Hd as <-. congruence.
Qed.

Lemma admit_serves ch n p c s th' s' : cl_context c = PutOf p ->
  admission_step EVP_DigestInit_ex EVP_DigestUpdate EVP_DigestFinal_ex EVP_Digest ch n p c s = (th', s') -> serves_call n c s (Admitting n) s' th'.
Proof.
  intros Ec E o log Ho H. rewrite admitting_counts, mark_same in H.
  destruct (proj1 (proj2 (stage_inv _ _ _ _ _ Ho H)) eq_refl) as (-> & Hd & (Hf & r & a & Ex & Hi) & ->). conj_split; [done|done|].
  rewrite Ec in Ex. injection Ex as ->. unfold admission_step in E.
  destruct (admit_put _ _ _ _ _ _ _ _) as [[[limiter p'] recorded] adm] eqn:Ea.
  pose proof (admit_put_stage _ _ _ _ _ _ _ _ (sv_stopping s) Hi eq_refl eq_refl Ea) as Hadm. destruct adm as [t|lease]; injection E as <- <-.
  - destruct Hadm as (Hact & Hid & Hcap & Hr & Hcs). eexists _, []. rewrite app_nil_r. split; [reflexivity|]. conj_split; try done; [other_call|].
    apply adopted_stage; [done|done|done|]. split; [done|]. by conj_split.
  - eexists _, []. rewrite app_nil_r. split; [reflexivity|]. conj_split; try done; [other_call|].
    apply (leaving_stage _ _ c); [done|done|]. right. by split.
Qed.

(** A handler that returns runs done itself. *)
Lemma leave_serves n lease c s : serves_call n c s (Leaving n lease)
  (set_call n (guard_exit c) (set_limiter (LeaseReset (sv_limiter s) lease) s)) Returned.
Proof.
  intros o log Ho H. rewrite leaving_counts, mark_same in H.
  destruct (proj1 (proj2 (proj2 (stage_inv _ _ _ _ _ Ho H))) eq_refl) as (-> & Hd & Hl & ->). conj_split; [done|done|].
  injection Hd as Hg Hcm Hr. eexists _, []. rewrite app_nil_r. split; [reflexivity|]. conj_split; try done; [other_call|].
  apply stage_answered; unfold done_at, guard_exit; rewrite Hg; cbn; [by rewrite Hcm, Hr|]. destruct Hl as [[? ?]|[? ?]]; [by left|right; by auto].
Qed.

(** A task the queue did not take. *)
Lemma enqueue_refused q t oom q' t' r : active t = true -> TryEnqueue q t oom = (q', t', r) -> r <> kAccepted ->
  q' = q /\ t' = t /\ (r = kStopped -> stopped_ q = true).
Proof.
  intros Ha E Hr. unfold TryEnqueue in E. rewrite Ha in E. cbn [negb] in E. destruct (stopped_ q) eqn:Es; [by injection E as <- <- <-|].
  destruct (_ <=? _)%nat; [by injection E as <- <- <-|]. destruct oom; [by injection E as <- <- <-|]. by injection E as _ _ <-.
Qed.

Lemma refuse_put_task st res p : (res = kStopped -> st = true) -> captured p -> px_response p = new_put_response ->
  captured (refuse_put res p).1 /\ px_response (refuse_put res p).1 = new_put_response /\
  put_refusal st (refuse_put res p).1 (px_cancel_status (refuse_put res p).1).
Proof. intros H Hc Hr. by destruct res; conj_split; try done; apply H. Qed.
Lemma refuse_read_task st res r : (res = kStopped -> st = true) -> rx_response r = new_read_response -> rx_attachment r = [] ->
  rx_response (refuse_read res r).1 = new_read_response /\ rx_attachment (refuse_read res r).1 = [] /\
  read_refusal st (refuse_read res r).1 (rx_cancel_status (refuse_read res r).1).
Proof. intros H Hc Hr. by destruct res; conj_split; try done; apply H. Qed.

Lemma refuse_serves ch t c s th' s' : active t = true -> (forall writer, stopped_ (queue_of writer s) = true -> sv_stopping s = true) ->
  offer ch t c s = (th', s') -> th' <> Returned -> serves_call (t_id t) c s (Offering t) s' th' /\ th' = Refusing t.
Proof.
  intros Ha Hstop E Hne. unfold offer in E. set (writer := is_put (cl_context c)) in *.
  destruct (TryEnqueue _ _ _) as [[q t'] res] eqn:Eq.
  assert (res <> kAccepted) as Hacc by (intros ->; by injection E as <- _).
  destruct (enqueue_refused _ _ _ _ _ _ Ha Eq Hacc) as (-> & -> & Hs).
  assert (th' = Refusing t) as -> by (destruct res; try done; destruct (match cl_context c with PutOf _ => _ | ReadOf _ => _ end); by injection E as <- _).
  split; [|done]. intros o log Ho H. rewrite offering_counts, mark_same in H by done.
  destruct (proj1 (proj2 (proj2 (proj2 (stage_inv _ _ _ _ _ Ho H)))) eq_refl) as (-> & Hd & [Hf Hw] & ->). conj_split; [done|done|].
  assert (queued (set_queue writer (queue_of writer s) s) = queued s) as Hqs by (unfold queued; by destruct writer).
  assert (res = kStopped -> sv_stopping s = true) as Hs' by (intros Hr; apply (Hstop writer); auto).
  assert (exists x recorded, s' = add_metrics recorded (set_call (t_id t) (with_context x c) (set_queue writer (queue_of writer s) s)) /\
    refusing (sv_stopping s) (with_context x c)) as (x & recorded & -> & Hx).
  { destruct (cl_context c) as [p|r] eqn:Ec.
    - destruct Hw as (Hcap & Hr & _). exists (PutOf (refuse_put res p).1), (refuse_put res p).2.
      split; [|split; [done|]; by apply refuse_put_task]. destruct (refuse_put res p). by destruct res; injection E.
    - destruct Hw as (Hr & Hat & _). exists (ReadOf (refuse_read res r).1), (refuse_read res r).2.
      split; [|split; [done|]; by apply refuse_read_task]. destruct (refuse_read res r). by destruct res; injection E. }
  eexists _, []. rewrite app_nil_r. split; [reflexivity|]. conj_split; try done; [|].
  - intros x' Hx'. rewrite offering_counts, refusing_counts by done. by rewrite mark_other by congruence.
  - rewrite refusing_counts, mark_same by done. by apply stage_refusing.
Qed.

(** ** Tasks *)
Lemma execute_put_outcome ch p s s' p' recorded asked st : captured p -> px_response p = new_put_response ->
  execute_put size ch p s = (s', p', recorded, asked) ->
  (asked = [] /\ refused_context st (PutOf p')) \/ executed_context (PutOf p') asked.
Proof.
  intros Hc Hr E. unfold execute_put in E. destruct (ch_throw ch) as [what|].
  { injection E as _ <- _ <-. left. split; [done|]. by apply refused_put. }
  destruct (ch_short ch).
  { injection E as _ <- _ <-. left. split; [done|]. by apply refused_put. }
  right. set (run := match rq_precondition (px_request p) with PRECONDITION_NOT_SET => _ | _ => _ end) in E.
  assert (run.2 = asked_of p) as Hq by (unfold run, asked_of; by destruct (rq_precondition (px_request p))).
  destruct run as [[s1 [result m]] q]. cbn in Hq. subst q. destruct (ch_throw_after ch) as [[late what]|]; injection E as _ <- _ <-.
  - split; [exact Hc|]. by exists result, m.
  - split; [exact Hc|]. exists result, m. split; [done|]. exists (ch_detail ch). cbn. by rewrite Hr.
Qed.

Lemma execute_read_outcome ch r s s' r' recorded asked st : rx_response r = new_read_response -> rx_attachment r = [] ->
  execute_read size ch r s = (s', r', recorded, asked) ->
  (asked = [] /\ refused_context st (ReadOf r')) \/ executed_context (ReadOf r') asked.
Proof.
  intros Hr Ha E. unfold execute_read in E. destruct (ch_throw ch) as [what|].
  { injection E as _ <- _ <-. left. split; [done|]. by apply refused_read. }
  right.
  assert (forall r0 result, rx_response r0 = new_read_response ->
    read_mapped (read_response (MapReadResult result (ch_detail ch)) (read_noted false r0)) result) as Hmap.
  { intros r0 result H0. exists (ch_detail ch). cbn. by rewrite H0. }
  destruct (rx_kind r) eqn:Ek; [destruct (with_backend _ _ _ _) as [s1 [[payload stat]|er]]|destruct (with_backend _ _ _ _) as [s1 result]];
    destruct (ch_throw_after ch) as [[late what]|]; injection E as _ <- _ <-;
    unfold executed_context; cbn [rx_kind rx_key read_response read_attached read_noted]; rewrite Ek; eexists; (split; [reflexivity|]);
    (split; [cbn; by rewrite ?Ha|]); first [exact (Hmap _ _ Hr)|exact (Hmap (read_attached _ _) _ Hr)|exact eq_refl].
Qed.

Lemma task_done n c x : done_at c = (false, true, n) -> done_at (CompletionRun (with_context x c)) = (false, false, S n) /\
  cl_failed (CompletionRun (with_context x c)) = cl_failed c /\ cl_context (CompletionRun (with_context x c)) = x.
Proof. intros [= Hg Hcm Hr]. unfold done_at, CompletionRun. cbn. rewrite Hcm. cbn. by rewrite Hg, Hr. Qed.

(** A callback answers its call. *)
Lemma answered_task st n c x log : done_at c = (false, true, 0%nat) -> cl_failed c = None ->
  (log = [] /\ refused_context st x) \/ executed_context x log ->
  stage st (CompletionRun (with_context x c)) (thread_counts n Returned) log.
Proof.
  intros Hd Hf Hx. destruct (task_done _ c x Hd) as (H1 & H2 & H3). apply stage_answered; [done|]. right. rewrite H2, H3. auto.
Qed.

Lemma finish_active run ch t c s t' s' more : active t = true -> finish_task size run ch t c s = (t', s', more) ->
  t' = mkTask (t_id t) (byte_lease t) false /\ more = true /\ sv_limiter s' = sv_limiter s /\
  sv_write_queue s' = sv_write_queue s /\ sv_read_queue s' = sv_read_queue s.
Proof.
  intros Ha E. unfold finish_task, FinishBegin in E. rewrite Ha in E. destruct run.
  - destruct (execute _ _ _ _) as [[[b x] recorded] asked]. by injection E as <- <- <-.
  - by injection E as <- <- <-.
Qed.

(** The task as its holder has it before and after; [Offering] and [Returned] stand
    for any thread that holds it and for any that no longer does. *)
Lemma run_serves ch t c s t' s' more : active t = true -> finish_task size true ch t c s = (t', s', more) ->
  serves_call (t_id t) c s (Offering t) s' Returned.
Proof.
  intros Ha E o log Ho H. rewrite offering_counts, mark_same in H by done.
  destruct (proj1 (proj2 (proj2 (proj2 (stage_inv _ _ _ _ _ Ho H)))) eq_refl) as (-> & Hd & [Hf Hw] & ->). conj_split; [done|done|].
  unfold finish_task, FinishBegin in E. rewrite Ha in E. destruct (execute _ _ _ _) as [[[b x] recorded] asked] eqn:Ex.
  injection E as _ <- _. eexists _, asked. split; [reflexivity|]. conj_split; try done; [other_call|].
  apply answered_task; [done|done|]. unfold execute in Ex. destruct (cl_context c) as [p|r].
  - destruct Hw as (Hcap & Hr & _). destruct (execute_put _ _ _ _) as [[[b1 p1] rec1] log1] eqn:E1. injection Ex as _ <- _ <-. by eapply execute_put_outcome.
  - destruct Hw as (Hr & Hat & _). destruct (execute_read _ _ _ _) as [[[b1 r1] rec1] log1] eqn:E1. injection Ex as _ <- _ <-. by eapply execute_read_outcome.
Qed.

Lemma cancel_refused st c : refusing st c -> refused_context st (cancel (cl_context c)).
Proof.
  intros [_ H]. destruct (cl_context c) as [p|r]; cbn [cancel].
  - destruct H as (_ & Hr & H). by apply refused_put.
  - destruct H as (Hr & Ha & H). by apply refused_read.
Qed.

Lemma waiting_refusing c : waiting c -> refusing true c.
Proof. intros [Hf H]. split; [done|]. destruct (cl_context c); destruct H as (H1 & H2 & H3); split; [done| |done|]; (split; [done|]); cbv beta in H3; by rewrite H3. Qed.

Lemma cancel_serves ch t c s t' s' more : active t = true -> finish_task size false ch t c s = (t', s', more) ->
  serves_call (t_id t) c s (Refusing t) s' Returned /\ (sv_stopping s = true -> serves_call (t_id t) c s (Offering t) s' Returned).
Proof.
  intros Ha E. unfold finish_task, FinishBegin in E. rewrite Ha in E. injection E as _ <- _.
  assert (forall th, done_at c = (false, true, 0%nat) -> refusing (sv_stopping s) c -> (forall x, x <> t_id t -> thread_counts x th = no_counts) ->
    next_stage (t_id t) s th (set_call (t_id t) (CompletionRun (with_context (cancel (cl_context c)) c)) s) Returned) as Hnext.
  { intros th Hd Hr Hth. eexists _, []. rewrite app_nil_r. split; [reflexivity|]. conj_split; try done; [intros x Hx; by rewrite (Hth x Hx)|].
    apply answered_task; [done|apply Hr|]. left. split; [done|]. by apply cancel_refused. }
  split; [|intros Hst]; intros o log Ho H.
  - rewrite refusing_counts, mark_same in H by done.
    destruct (proj2 (proj2 (proj2 (proj2 (stage_inv _ _ _ _ _ Ho H)))) eq_refl) as (-> & Hd & Hr & ->). conj_split; [done|done|].
    apply Hnext; [done|done|]. intros x Hx. rewrite refusing_counts, mark_other by done. done.
  - rewrite offering_counts, mark_same in H by done.
    destruct (proj1 (proj2 (proj2 (proj2 (stage_inv _ _ _ _ _ Ho H)))) eq_refl) as (-> & Hd & Hw & ->). conj_split; [done|done|].
    apply Hnext; [done| |]; [rewrite Hst; by apply waiting_refusing|]. intros x Hx. rewrite offering_counts, mark_other by done. done.
Qed.

(** A thread that holds other tasks besides. *)
Lemma serves_among n c s th s' th' th0 th0' rest : (forall x, counts_nonneg (rest x)) ->
  (forall x, thread_counts x th = add_counts (rest x) (thread_counts x th0)) ->
  (forall x, thread_counts x th' = add_counts (rest x) (thread_counts x th0')) ->
  serves_call n c s th0 s' th0' -> serves_call n c s th s' th'.
Proof.
  intros Hr E E' H o log Ho Hst. rewrite E in Hst.
  assert (counts_nonneg (add_counts o (rest n))) as Ho' by (pose proof (Hr n); unfold counts_nonneg in *; cbn in *; lia).
  assert (add_counts o (add_counts (rest n) (thread_counts n th0)) = add_counts (add_counts o (rest n)) (thread_counts n th0)) as Eo
    by (apply counts_eq; cbn; lia).
  rewrite Eo in Hst. destruct (H _ _ Ho' Hst) as (Hz & -> & (c' & asked & E1 & E2 & E3 & E4 & E5 & E6)).
  assert (o = no_counts /\ rest n = no_counts) as [-> Hrn].
  { injection Hz as ? ? ? ? ?. pose proof (Hr n). unfold counts_nonneg in *. split; apply counts_eq; cbn in *; lia. }
  conj_split; [done|done|]. exists c', asked. conj_split; try done.
  - intros x Hx. by rewrite E, E', (E5 x Hx).
  - rewrite E', Hrn, add_no_counts. exact E6.
Qed.

(** ** All moves *)
(** What holds of the tasks a thread has, and how far Shutdown is when it is
    where it is. *)
Definition thread_ok (th : thread) : Prop :=
  match th with
  | Offering t | Refusing t | Holding _ t => active t = true
  | Ending t | Releasing _ t => active t = false
  | StoppingReads pending | Cancelling pending => Forall (fun t => active t = true) pending
  | CancellingEnd t pending => active t = false /\ Forall (fun t => active t = true) pending
  | _ => True
  end.

Definition shutdown_ok (s : shared) (th : thread) : Prop :=
  match th with
  | Exited writer => stopped_ (queue_of writer s) = true
  | StoppingWrites | ShutdownSkipped => sv_stopping s = true
  | StoppingReads _ => sv_stopping s = true /\ stopped_ (sv_write_queue s) = true
  | Cancelling _ | CancellingEnd _ _ | ShutdownReturned =>
      sv_stopping s = true /\ forall writer, stopped_ (queue_of writer s) = true
  | _ => True
  end.

Abbreviation move := (advance EVP_DigestInit_ex EVP_DigestUpdate EVP_DigestFinal_ex EVP_Digest size).

Lemma quiet_keeps s l i th s' th' : l !! i = Some th -> sv_calls s' = sv_calls s -> sv_executed s' = sv_executed s ->
  (sv_stopping s' = sv_stopping s \/ sv_stopping s' = true) ->
  (forall x, add_counts (thread_counts x th') (queue_counts x s') = add_counts (thread_counts x th) (queue_counts x s)) ->
  stages s l -> stages s' (<[i := th']> l).
Proof.
  intros Hi E1 E2 Hst Hk H x. rewrite E1, E2. destruct (threads_split x l i th Hi) as (o & Ho & E & Et).
  assert (total_counts x s' (<[i := th']> l) = total_counts x s l) as ->.
  { unfold total_counts. rewrite Et, E. specialize (Hk x). injection Hk as ? ? ? ? ?. apply counts_eq; cbn; lia. }
  destruct Hst as [->| ->]; [apply H|]. eapply stage_later, H.
Qed.

Lemma live_sum x l : 0 <= sum_of (is_live x) l.
Proof. apply live_nonneg. Qed.

(** The counts of a list of pending tasks. *)
Lemma pending_counts x t pending :
  thread_counts x (Cancelling (t :: pending)) = add_counts (thread_counts x (Cancelling pending)) (thread_counts x (Offering t)).
Proof. apply counts_eq; cbn; lia. Qed.
Lemma ended_counts x t pending : active t = false ->
  thread_counts x (CancellingEnd t pending) = add_counts (thread_counts x (Cancelling pending)) (thread_counts x Returned).
Proof. intros H. apply counts_eq; cbn; rewrite ?live_inactive by done; lia. Qed.

Lemma offer_accepted ch t c s th' s' : active t = true -> offer ch t c s = (th', s') -> th' = Returned ->
  sv_calls s' = sv_calls s /\ sv_executed s' = sv_executed s /\ sv_stopping s' = sv_stopping s /\ sv_limiter s' = sv_limiter s /\
  stopped_ (queue_of (is_put (cl_context c)) s) = false /\ s' = set_queue (is_put (cl_context c))
    (mkQueue (capacity_ (queue_of (is_put (cl_context c)) s)) (tasks_ (queue_of (is_put (cl_context c)) s) ++ [t]) false) s.
Proof.
  intros Ha E ->. unfold offer in E. destruct (TryEnqueue _ _ _) as [[q t'] res] eqn:Eq.
  assert (res = kAccepted) as -> by (destruct res; try done; destruct (match cl_context c with PutOf _ => _ | ReadOf _ => _ end); by injection E).
  injection E as <-. unfold TryEnqueue in Eq. rewrite Ha in Eq. cbn [negb] in Eq. destruct (stopped_ _) eqn:Es; [done|].
  destruct (_ <=? _)%nat; [done|]. destruct (ch_oom ch); [done|]. injection Eq as <- _. conj_split; done.
Qed.

Lemma queued_sum f writer q s : sum_of f (queued (set_queue writer q s)) =
  sum_of f (queued s) - sum_of f (tasks_ (queue_of writer s)) + sum_of f (tasks_ q).
Proof. unfold queued. destruct writer; cbn; rewrite !sum_app; lia. Qed.

Lemma enqueued_counts x writer t s th : active t = true ->
  add_counts (thread_counts x Returned) (queue_counts x (set_queue writer (mkQueue th (tasks_ (queue_of writer s) ++ [t]) false) s)) =
  add_counts (thread_counts x (Offering t)) (queue_counts x s).
Proof. intros Ha. apply counts_eq; cbn [add_counts k_entered k_admitting k_leaving k_live k_refusing thread_counts queue_counts held_by]; try done.
  rewrite queued_sum. cbn [tasks_]. rewrite sum_app. cbn. lia. Qed.

Lemma moved_counts x writer t rest q s : tasks_ (queue_of writer s) = t :: rest -> tasks_ q = rest ->
  add_counts (thread_counts x (Holding writer t)) (queue_counts x (set_queue writer q s)) =
  add_counts (thread_counts x (Waiting writer)) (queue_counts x s).
Proof.
  intros E Eq. apply counts_eq; cbn [add_counts k_entered k_admitting k_leaving k_live k_refusing thread_counts queue_counts held_by]; try done.
  rewrite queued_sum, E, Eq. cbn. lia.
Qed.

(** The moves on behalf of a call, and the others. *)
Definition concerns (th : thread) (s : shared) (th' : thread) : option nat :=
  match th with
  | Entered n | Admitting n | Leaving n _ => Some n
  | Offering t => match th' with Returned => None | _ => Some (t_id t) end
  | Refusing t | Holding _ t => Some (t_id t)
  | Cancelling (t :: _) => Some (t_id t)
  | _ => None
  end.

Lemma move_serves ch j s th th' s' n : thread_ok th -> shutdown_ok s th ->
  (forall writer, stopped_ (queue_of writer s) = true -> sv_stopping s = true) ->
  move ch j th s = Some (th', s') -> concerns th s th' = Some n -> exists c, sv_calls s !! n = Some c /\ serves_call n c s th s' th'.
Proof.
  intros Hok Hsh Hstop E Hn.
  destruct th as [m|m|m lease|t|t|t| |w|w t|w t|w| | |p|[|t p]|t p| |]; cbn [advance concerns] in E, Hn; try done.
  - injection Hn as ->. destruct (sv_calls s !! n) as [c|] eqn:Ec; [|done]. apply (inj Some) in E. exists c. split; [done|]. by eapply enter_serves.
  - injection Hn as ->. destruct (sv_calls s !! n) as [c|] eqn:Ec; [|done]. cbn [mbind option_bind] in E.
    destruct (cl_context c) as [p|r] eqn:Ex; [|done]. apply (inj Some) in E. exists c. split; [done|]. by eapply admit_serves.
  - injection Hn as ->. destruct (sv_calls s !! n) as [c|] eqn:Ec; [|done]. injection E as <- <-. exists c. split; [done|]. apply leave_serves.
  - destruct (sv_calls s !! t_id t) as [c|] eqn:Ec; [|done]. apply (inj Some) in E.
    assert (th' <> Returned /\ n = t_id t) as [Hne ->] by (destruct th'; try discriminate Hn; by injection Hn as <-). exists c. split; [done|]. by eapply refuse_serves.
  - injection Hn as <-. destruct (sv_calls s !! t_id t) as [c|] eqn:Ec; [|done]. cbn [mbind option_bind] in E.
    destruct (finish_task _ _ _ _ _ _) as [[t' s1] more] eqn:Ef. destruct (finish_active _ _ _ _ _ _ _ _ Hok Ef) as (-> & -> & _).
    injection E as <- <-. exists c. split; [done|]. apply (serves_among _ _ _ _ _ _ (Refusing t) Returned (fun _ => no_counts)); [done| | |].
    1,2: intros x; apply counts_eq; cbn; lia. by apply (cancel_serves ch t c s _ _ _ Hok Ef).
  - injection Hn as <-. destruct (sv_calls s !! t_id t) as [c|] eqn:Ec; [|done]. cbn [mbind option_bind] in E.
    destruct (finish_task _ _ _ _ _ _) as [[t' s1] more] eqn:Ef. destruct (finish_active _ _ _ _ _ _ _ _ Hok Ef) as (-> & -> & _).
    injection E as <- <-. exists c. split; [done|]. apply (serves_among _ _ _ _ _ _ (Offering t) Returned (fun _ => no_counts)); [done| | |].
    1,2: intros x; apply counts_eq; cbn; lia. by apply (run_serves ch t c s _ _ _ Hok Ef).
  - injection Hn as <-. destruct (sv_calls s !! t_id t) as [c|] eqn:Ec; [|done]. cbn [mbind option_bind] in E. apply Forall_cons in Hok as [Ht Hp].
    destruct (finish_task _ _ _ _ _ _) as [[t' s1] more] eqn:Ef. destruct (finish_active _ _ _ _ _ _ _ _ Ht Ef) as (-> & -> & _).
    injection E as <- <-. exists c. split; [done|].
    apply (serves_among _ _ _ _ _ _ (Offering t) Returned (fun x => thread_counts x (Cancelling p))); [intros x; apply thread_nonneg| | |].
    + intros x. apply pending_counts.
    + intros x. by apply ended_counts.
    + apply (cancel_serves ch t c s _ _ _ Ht Ef). apply Hsh.
Qed.

Lemma move_quiet ch j s th th' s' : thread_ok th -> (forall writer, stopped_ (queue_of writer s) = true -> tasks_ (queue_of writer s) = []) ->
  move ch j th s = Some (th', s') -> concerns th s th' = None ->
  sv_calls s' = sv_calls s /\ sv_executed s' = sv_executed s /\ (sv_stopping s' = sv_stopping s \/ sv_stopping s' = true) /\
  forall x, add_counts (thread_counts x th') (queue_counts x s') = add_counts (thread_counts x th) (queue_counts x s).
Proof.
  intros Hok Hemp E Hn.
  assert (forall f, sum_of f (queued s) = sum_of f (tasks_ (sv_write_queue s)) + sum_of f (tasks_ (sv_read_queue s))) as Hq
    by (intros f; unfold queued; apply sum_app).
  destruct th as [m|m|m lease|t|t|t| |w|w t|w t|w| | |p|[|t p]|t p| |]; cbn [advance concerns] in E, Hn; try done.
  - destruct (sv_calls s !! t_id t) as [c|] eqn:Ec; [|done]. apply (inj Some) in E.
    assert (th' = Returned) as -> by (destruct th'; done). destruct (offer_accepted _ _ _ _ _ _ Hok E eq_refl) as (E1 & E2 & E3 & _ & _ & ->).
    conj_split; [done|done|by left|]. intros x. by apply enqueued_counts.
  - injection E as <- <-. conj_split; [done|done|by left|]. intros x. apply counts_eq; cbn; rewrite ?live_inactive by done; done.
  - destruct (pop_ready _); [|done]. unfold WaitPop in E. destruct (tasks_ (queue_of w s)) as [|t rest] eqn:Et; injection E as <- <-;
      (conj_split; [done|done|by left|]); intros x.
    + by destruct w.
    + by eapply moved_counts.
  - injection E as <- <-. conj_split; [done|done|by left|]. intros x. apply counts_eq; cbn; rewrite ?live_inactive by done; done.
  - injection E as <- <-. conj_split; [done|done|by right|]. intros x. by destruct (sv_stopping s).
  - injection E as <- <-. conj_split; [done|done|by left|]. intros x.
    apply counts_eq; cbn [add_counts k_entered k_admitting k_leaving k_live k_refusing thread_counts queue_counts held_by]; try done.
    rewrite queued_sum. cbn. lia.
  - injection E as <- <-. conj_split; [done|done|by left|]. intros x.
    apply counts_eq; cbn [add_counts k_entered k_admitting k_leaving k_live k_refusing thread_counts queue_counts held_by]; try done.
    rewrite queued_sum. cbn. rewrite sum_app. lia.
  - destruct j; [|done]. by injection E as <- <-; (conj_split; [| |left|]).
  - injection E as <- <-. destruct Hok as [Ht _]. conj_split; [done|done|by left|]. intros x.
    apply counts_eq; cbn; rewrite ?live_inactive by done; done.
Qed.

Lemma move_stages ch j s l i th th' s' : l !! i = Some th -> thread_ok th -> shutdown_ok s th ->
  (forall writer, stopped_ (queue_of writer s) = true -> tasks_ (queue_of writer s) = [] /\ sv_stopping s = true) ->
  move ch j th s = Some (th', s') -> stages s l -> stages s' (<[i := th']> l).
Proof.
  intros Hi Hok Hsh Hstop E Hst. destruct (concerns th s th') as [n|] eqn:Hn.
  - destruct (move_serves _ _ _ _ _ _ n Hok Hsh (fun w H => proj2 (Hstop w H)) E Hn) as (c & Hc & Hs). by eapply serves_keeps.
  - destruct (move_quiet _ _ _ _ _ _ Hok (fun w H => proj1 (Hstop w H)) E Hn) as (E1 & E2 & E3 & E4). by eapply quiet_keeps.
Qed.

(** ** The byte budget *)
Definition nonneg (t : QueuedTask) : Prop := 0 <= lease_of t.

(** A move changes the counter by what the thread and the queues hold more. *)
Definition balanced (limit : Z) (s : shared) (th : thread) (s' : shared) (th' : thread) : Prop :=
  limit_bytes (sv_limiter s') = limit /\ used_bytes (sv_limiter s') <= limit /\ Forall nonneg (held_by th' ++ queued s') /\
  used_bytes (sv_limiter s') = used_bytes (sv_limiter s) - sum_of lease_of (held_by th) - sum_of lease_of (queued s) +
    sum_of lease_of (held_by th') + sum_of lease_of (queued s').

Lemma lease_sum_nonneg l : Forall nonneg l -> 0 <= sum_of lease_of l.
Proof. induction 1 as [|t l Ht _ IH]; cbn; [lia|]. unfold nonneg in Ht. lia. Qed.

Lemma release_balanced limit s th th' t rest : u64 limit -> limit_bytes (sv_limiter s) = limit -> used_bytes (sv_limiter s) <= limit ->
  held_by th = t :: rest -> held_by th' = rest -> Forall nonneg (held_by th ++ queued s) ->
  sum_of lease_of (held_by th) <= used_bytes (sv_limiter s) ->
  balanced limit s th (set_limiter (LeaseReset (sv_limiter s) (byte_lease t)) s) th'.
Proof.
  intros Hu El Hle Eh Eh' Hnn Hsum. rewrite Eh in *. cbn in Hsum. apply Forall_cons in Hnn as [Ht Hnn].
  pose proof (lease_sum_nonneg _ (proj1 (proj1 (Forall_app _ _ _) Hnn))). unfold nonneg in Ht.
  assert (u64 (used_bytes (sv_limiter s))) as Huu by word.
  unfold balanced. rewrite (release_task _ t Huu) by lia. cbn [sv_limiter set_limiter limit_bytes used_bytes]. rewrite Eh'.
  change (queued (set_limiter _ s)) with (queued s). conj_split; [done|lia|done|]. rewrite Eh. cbn. lia.
Qed.

Lemma same_balanced limit s th s' th' : limit_bytes (sv_limiter s) = limit -> used_bytes (sv_limiter s) <= limit ->
  sv_limiter s' = sv_limiter s -> Forall nonneg (held_by th' ++ queued s') ->
  sum_of lease_of (held_by th' ++ queued s') = sum_of lease_of (held_by th ++ queued s) -> balanced limit s th s' th'.
Proof. intros El Hle E Hnn Hs. unfold balanced. rewrite E. rewrite !sum_app in Hs. conj_split; [done|done|done|lia]. Qed.

Lemma admit_balanced limit ch n p c s th' s' : u64 limit -> limit_bytes (sv_limiter s) = limit -> 0 <= used_bytes (sv_limiter s) <= limit ->
  Forall nonneg (queued s) -> attachment_size p <= kMaxFileSize ->
  admission_step EVP_DigestInit_ex EVP_DigestUpdate EVP_DigestFinal_ex EVP_Digest ch n p c s = (th', s') -> balanced limit s (Admitting n) s' th'.
Proof.
  intros Hu El Hle Hnn Hsz E. unfold admission_step in E. destruct (admit_put _ _ _ _ _ _ _ _) as [[[limiter p'] recorded] a] eqn:Ea.
  assert (0 <= attachment_size p < 18446744073709551616) as Hb
    by (assert (kMaxFileSize < 18446744073709551616) by reflexivity; unfold attachment_size in *; lia).
  assert (exists lease, byte_lease match a with TaskMade t => t | Rejected lease => mkTask n lease false end = lease /\
    0 <= default 0 lease /\ limiter = mkLimiter limit (used_bytes (sv_limiter s) + default 0 lease) /\ used_bytes (sv_limiter s) + default 0 lease <= limit)
    as (lease & Hl & Hl0 & -> & Hlim).
  { unfold admit_put in Ea. destruct (TryAcquire _ _) as [l [lease|]] eqn:Et.
    - destruct (acquire_inv limit Hu (sv_limiter s) (attachment_size p) l lease) as (-> & -> & Hlim); [word|lia|done|done|done|].
      exists (Some (attachment_size p)). change (default 0 (Some (attachment_size p))) with (attachment_size p). destruct (ComputeSha256 _ _ _ _); [|injection Ea as <- _ _ <-; conj_split; [done|lia|done|done]].
      destruct (negb _); [injection Ea as <- _ _ <-; conj_split; [done|lia|done|done]|].
      destruct (ch_throw ch); [injection Ea as <- _ _ <-; conj_split; [done|lia|done|done]|].
      destruct (BuildRequestFingerprint _ _); injection Ea as <- _ _ <-; conj_split; [done|lia|done|done|done|lia|done|done].
    - exists None. injection Ea as <- _ _ <-. unfold TryAcquire in Et. destruct (_ <? _); [|done]. injection Et as <-.
      destruct (sv_limiter s) as [lb ub] eqn:Es. cbn in *. conj_split; [done|lia| |lia]. f_equal; lia. }
  destruct a as [t|lease']; injection E as <- <-; unfold balanced; cbn [sv_limiter set_call add_metrics set_limiter limit_bytes used_bytes held_by].
  all: change (queued (set_call _ _ _)) with (queued s); conj_split; [done|done|constructor; [|done]|].
  all: unfold nonneg, lease_of in *; cbn in *; unfold lease_of; cbn; rewrite ?Hl in *; subst; try lia.
Qed.

Lemma queued_forall (P : QueuedTask -> Prop) writer q s : Forall P (tasks_ q) -> Forall P (queued s) -> Forall P (queued (set_queue writer q s)).
Proof. unfold queued. rewrite !Forall_app. intros Hq [Hw Hr]. by destruct writer; cbn. Qed.
Lemma queue_forall (P : QueuedTask -> Prop) writer s : Forall P (queued s) -> Forall P (tasks_ (queue_of writer s)).
Proof. unfold queued. rewrite Forall_app. intros [Hw Hr]. by destruct writer. Qed.

Lemma enter_limiter ch n c s th' s' : enter ch n c s = (th', s') ->
  sv_limiter s' = sv_limiter s /\ queued s' = queued s /\ Forall (fun t => lease_of t = 0) (held_by th').
Proof.
  unfold enter. destruct (negb _); [intros [= <- <-]; conj_split; [done|done|by repeat constructor]|].
  destruct (cl_context c) as [p|r].
  - destruct (enter_put _ _) as [p' [|]]; intros [= <- <-]; conj_split; try done; by repeat constructor.
  - destruct (enter_read _ _) as [r' [|]]; cbn [negb]; [|intros [= <- <-]; conj_split; try done; by repeat constructor].
    unfold admit_read. destruct (ch_throw ch); intros [= <- <-]; conj_split; try done; by repeat constructor.
Qed.

Lemma zero_leases l : Forall (fun t => lease_of t = 0) l -> sum_of lease_of l = 0 /\ Forall nonneg l.
Proof. induction 1 as [|t l Ht _ [IH1 IH2]]; [done|]. cbn. split; [lia|]. constructor; [unfold nonneg; lia|done]. Qed.

Lemma offer_limiter ch t c s th' s' : active t = true -> offer ch t c s = (th', s') -> sv_limiter s' = sv_limiter s /\
  (forall f, sum_of f (held_by th' ++ queued s') = sum_of f (t :: queued s)) /\ (forall P, Forall P (t :: queued s) -> Forall P (held_by th' ++ queued s')).
Proof.
  intros Ha E. assert (th' = Returned \/ th' <> Returned) as [Hr|Hne] by (destruct th'; first [by left|by right]).
  - destruct (offer_accepted _ _ _ _ _ _ Ha E Hr) as (_ & _ & _ & El & _ & Es). split; [done|]. rewrite Es, Hr. cbn [held_by app]. split.
    + intros f. rewrite queued_sum. cbn. rewrite sum_app. cbn. lia.
    + intros P [Ht Hq]%Forall_cons. apply queued_forall; [|done]. cbn. apply Forall_app. split; [by apply queue_forall|by constructor].
  - unfold offer in E. destruct (TryEnqueue _ _ _) as [[q t'] res] eqn:Eq.
    assert (res <> kAccepted) as Hacc by (intros ->; by injection E as <- _).
    destruct (enqueue_refused _ _ _ _ _ _ Ha Eq Hacc) as (-> & -> & _).
    assert (queued (set_queue (is_put (cl_context c)) (queue_of (is_put (cl_context c)) s) s) = queued s) as Hqs
      by (unfold queued; by destruct (is_put _)).
    destruct (match cl_context c with PutOf _ => _ | ReadOf _ => _ end) as [x recorded].
    assert (th' = Refusing t /\ queued s' = queued s /\ sv_limiter s' = sv_limiter s) as (-> & Eqs & ->).
    { destruct res; try done; injection E as <- <-; (split; [done|]); split; try done; exact Hqs. }
    split; [done|]. rewrite Eqs. done.
Qed.

Lemma move_balanced limit ch j s th th' s' : u64 limit -> limit_bytes (sv_limiter s) = limit -> 0 <= used_bytes (sv_limiter s) <= limit ->
  thread_ok th -> Forall nonneg (held_by th ++ queued s) -> sum_of lease_of (held_by th) <= used_bytes (sv_limiter s) ->
  (forall n c p, th = Admitting n -> sv_calls s !! n = Some c -> cl_context c = PutOf p -> attachment_size p <= kMaxFileSize) ->
  move ch j th s = Some (th', s') -> balanced limit s th s' th'.
Proof.
  intros Hu El Hle Hok Hnn Hsum Hsz E. pose proof Hnn as [Hn1 Hn2]%Forall_app.
  assert (forall s1 th1, sv_limiter s1 = sv_limiter s -> Forall nonneg (held_by th1 ++ queued s1) ->
    sum_of lease_of (held_by th1 ++ queued s1) = sum_of lease_of (held_by th ++ queued s) -> balanced limit s th s1 th1) as Hsame
    by (intros; apply same_balanced; [done|lia|done|done|done]).
  assert (forall run t t' c s1 more rest th1, held_by th = t :: rest -> held_by th1 = t' :: rest -> active t = true ->
    finish_task size run ch t c s = (t', s1, more) -> balanced limit s th s1 th1) as Hfin.
  { intros run t t' c s1 more rest th1 Eh Eh1 Ha Ef. destruct (finish_active _ _ _ _ _ _ _ _ Ha Ef) as (-> & _ & E1 & E2 & E3).
    assert (queued s1 = queued s) as Eq by (unfold queued; by rewrite E2, E3). rewrite Eh in Hnn.
    apply Forall_cons in Hnn as [Ht Hr]. apply Hsame; [done| |]; rewrite Eh1, Eq; [by constructor|by rewrite Eh]. }
  destruct th as [m|m|m lease|t|t|t| |w|w t|w t|w| | |p|[|t p]|t p| |]; cbn [advance] in E; try done.
  - destruct (sv_calls s !! m) as [c|]; [|done]. apply (inj Some) in E. destruct (enter_limiter _ _ _ _ _ _ E) as (E1 & E2 & E3).
    destruct (zero_leases _ E3) as [Hz Hz']. apply Hsame; [done|rewrite E2; by apply Forall_app|]. rewrite E2, !sum_app, Hz. done.
  - destruct (sv_calls s !! m) as [c|] eqn:Ec; [|done]. cbn [mbind option_bind] in E. destruct (cl_context c) as [p|] eqn:Ex; [|done].
    apply (inj Some) in E. by eapply admit_balanced; [..|eapply Hsz|].
  - destruct (sv_calls s !! m) as [c|]; [|done]. injection E as <- <-. by apply (release_balanced limit s _ _ (mkTask m lease false) []); [| |lia|..].
  - destruct (sv_calls s !! t_id t) as [c|]; [|done]. apply (inj Some) in E. destruct (offer_limiter _ _ _ _ _ _ Hok E) as (E1 & E2 & E3).
    apply Hsame; [done|by apply E3|apply E2].
  - destruct (sv_calls s !! t_id t) as [c|]; [|done]. cbn [mbind option_bind] in E. destruct (finish_task _ _ _ _ _ _) as [[t' s1] more] eqn:Ef.
    destruct (finish_active _ _ _ _ _ _ _ _ Hok Ef) as (_ & -> & _). injection E as <- <-. by refine (Hfin _ t t' c _ _ [] _ eq_refl _ Hok Ef).
  - injection E as <- <-. by apply (release_balanced limit s _ _ t []); [| |lia|..].
  - destruct (pop_ready _); [|done]. unfold WaitPop in E. pose proof (queue_forall _ w s Hn2) as Hqw.
    destruct (tasks_ (queue_of w s)) as [|t rest] eqn:Et; injection E as <- <-.
    + apply Hsame; [done|by destruct w|by destruct w].
    + apply Forall_cons in Hqw as [Ht Hrest]. apply Hsame; [done|constructor; [done|by apply queued_forall]|].
      cbn [held_by app sum_of]. rewrite queued_sum, Et. cbn. lia.
  - destruct (sv_calls s !! t_id t) as [c|]; [|done]. cbn [mbind option_bind] in E. destruct (finish_task _ _ _ _ _ _) as [[t' s1] more] eqn:Ef.
    destruct (finish_active _ _ _ _ _ _ _ _ Hok Ef) as (_ & -> & _). injection E as <- <-. by refine (Hfin _ t t' c _ _ [] _ eq_refl _ Hok Ef).
  - injection E as <- <-. by apply (release_balanced limit s _ _ t []); [| |lia|..].
  - injection E as <- <-. apply Hsame; [done|by destruct (sv_stopping s)|by destruct (sv_stopping s)].
  - injection E as <- <-. apply Hsame; [done| |].
    + apply Forall_app. split; [by apply (queue_forall _ true)|by apply queued_forall].
    + cbn [held_by]. rewrite !sum_app, queued_sum. cbn. lia.
  - injection E as <- <-. apply Hsame; [done| |].
    + cbn [held_by]. apply Forall_app. split; [apply Forall_app; split; [done|by apply (queue_forall _ false)]|by apply queued_forall].
    + cbn [held_by]. rewrite !sum_app, queued_sum. cbn. lia.
  - destruct j; [|done]. injection E as <- <-. by apply Hsame.
  - destruct (sv_calls s !! t_id t) as [c|]; [|done]. cbn [mbind option_bind] in E. apply Forall_cons in Hok as [Ht Hp].
    destruct (finish_task _ _ _ _ _ _) as [[t' s1] more] eqn:Ef.
    destruct (finish_active _ _ _ _ _ _ _ _ Ht Ef) as (_ & -> & _). injection E as <- <-. by refine (Hfin _ t t' c _ _ p _ eq_refl _ Ht Ef).
  - injection E as <- <-. by apply (release_balanced limit s _ _ t p); [| |lia|..].
Qed.

(** ** Queues and workers *)
Definition kept (s s' : shared) : Prop :=
  sv_write_queue s' = sv_write_queue s /\ sv_read_queue s' = sv_read_queue s /\ sv_stopping s' = sv_stopping s.

Lemma enter_kept ch n c s th' s' : enter ch n c s = (th', s') ->
  kept s s' /\ thread_ok th' /\ match th' with Admitting _ | Leaving _ _ | Offering _ => True | _ => False end.
Proof.
  unfold enter. destruct (negb _); [by intros [= <- <-]|]. destruct (cl_context c) as [p|r].
  - destruct (enter_put _ _) as [p' [|]]; by intros [= <- <-].
  - destruct (enter_read _ _) as [r' [|]]; cbn [negb]; [|by intros [= <- <-]]. unfold admit_read. destruct (ch_throw ch); by intros [= <- <-].
Qed.

Lemma admit_kept ch n p c s th' s' :
  admission_step EVP_DigestInit_ex EVP_DigestUpdate EVP_DigestFinal_ex EVP_Digest ch n p c s = (th', s') ->
  kept s s' /\ thread_ok th' /\ match th' with Leaving _ _ | Offering _ => True | _ => False end.
Proof.
  unfold admission_step. destruct (admit_put _ _ _ _ _ _ _ _) as [[[limiter p'] recorded] a] eqn:Ea.
  destruct a as [t|lease]; intros [= <- <-]; [|done]. conj_split; try done. cbn. unfold admit_put in Ea.
  destruct (TryAcquire _ _) as [? [?|]]; [|done]. destruct (ComputeSha256 _ _ _ _); [|done]. destruct (negb _); [done|].
  destruct (ch_throw ch); [done|]. destruct (BuildRequestFingerprint _ _); [|done]. by injection Ea as _ _ _ <-.
Qed.

Lemma finish_kept run ch t c s t' s' more : active t = true -> finish_task size run ch t c s = (t', s', more) ->
  kept s s' /\ active t' = false /\ more = true.
Proof.
  unfold finish_task, FinishBegin. intros ->. destruct run; [|by intros [= <- <- <-]].
  destruct (execute _ _ _ _) as [[[b x] recorded] asked]. by intros [= <- <- <-].
Qed.

(** The effect of a move on the queues and the flag, with the worker it belongs to. *)
Inductive queue_move (s s' : shared) : thread -> thread -> Prop :=
| queues_kept th th' : kept s s' -> match th, th' with
    | Entered _, (Admitting _ | Leaving _ _ | Offering _) | Admitting _, (Leaving _ _ | Offering _) | Leaving _ _, Returned
    | Offering _, Refusing _ | Refusing _, Ending _ | Ending _, Returned => True
    | Cancelling (_ :: pending), CancellingEnd _ pending' | CancellingEnd _ pending, Cancelling pending' => pending' = pending
    | Holding w _, Releasing w' _ => w' = w
    | Releasing w _, Waiting w' => w' = w
    | _, _ => False
    end -> queue_move s s' th th'
| task_queued t writer q : stopped_ (queue_of writer s) = false -> stopped_ q = false -> s' = set_queue writer q s ->
    tasks_ q = tasks_ (queue_of writer s) ++ [t] -> queue_move s s' (Offering t) Returned
| task_popped writer t q : s' = set_queue writer q s -> stopped_ q = stopped_ (queue_of writer s) ->
    tasks_ (queue_of writer s) = t :: tasks_ q -> queue_move s s' (Waiting writer) (Holding writer t)
| worker_ends writer : kept s s' -> stopped_ (queue_of writer s) = true -> queue_move s s' (Waiting writer) (Exited writer)
| flag_found : s' = set_stopping s -> sv_stopping s = true -> queue_move s s' ShutdownCalled ShutdownSkipped
| flag_set : s' = set_stopping s -> sv_stopping s = false -> queue_move s s' ShutdownCalled StoppingWrites
| writes_stopped : s' = set_queue true (mkQueue (capacity_ (sv_write_queue s)) [] true) s ->
    queue_move s s' StoppingWrites (StoppingReads (tasks_ (sv_write_queue s)))
| reads_stopped pending : s' = set_queue false (mkQueue (capacity_ (sv_read_queue s)) [] true) s ->
    queue_move s s' (StoppingReads pending) (Cancelling (pending ++ tasks_ (sv_read_queue s)))
| all_joined : s' = s -> queue_move s s' (Cancelling []) ShutdownReturned.

Lemma queue_same writer s : set_queue writer (queue_of writer s) s = s.
Proof. by destruct s, writer. Qed.

Definition runnable (t : QueuedTask) : Prop := active t = true.

Lemma move_queue ch j s th th' s' : thread_ok th -> Forall runnable (queued s) -> move ch j th s = Some (th', s') ->
  queue_move s s' th th' /\ thread_ok th'.
Proof.
  intros Hok Hq E. pose proof (queue_forall _ true s Hq) as Hqw. pose proof (queue_forall _ false s Hq) as Hqr.
  destruct th as [m|m|m lease|t|t|t| |w|w t|w t|w| | |p|[|t p]|t p| |]; cbn [advance] in E; try done.
  - destruct (sv_calls s !! m) as [c|]; [|done]. apply (inj Some) in E. destruct (enter_kept _ _ _ _ _ _ E) as (H1 & H2 & H3).
    split; [|done]. by destruct th'; try done; apply queues_kept.
  - destruct (sv_calls s !! m) as [c|]; [|done]. cbn [mbind option_bind] in E. destruct (cl_context c); [|done]. apply (inj Some) in E.
    destruct (admit_kept _ _ _ _ _ _ _ E) as (H1 & H2 & H3). split; [|done]. by destruct th'; try done; apply queues_kept.
  - destruct (sv_calls s !! m) as [c|]; [|done]. injection E as <- <-. split; [|done]. by apply queues_kept.
  - destruct (sv_calls s !! t_id t) as [c|]; [|done]. apply (inj Some) in E.
    assert (th' = Returned \/ th' <> Returned) as [->|Hne] by (destruct th'; first [by left|by right]).
    + destruct (offer_accepted _ _ _ _ _ _ Hok E eq_refl) as (_ & _ & _ & _ & Hs & Es). split; [|done].
      refine (task_queued _ _ t _ _ Hs _ Es _); done.
    + assert (th' = Refusing t /\ kept s s') as [-> Hk]; [|split; [by apply queues_kept|done]].
      unfold offer in E. destruct (TryEnqueue _ _ _) as [[q t'] res] eqn:Eq.
      assert (res <> kAccepted) as Hacc by (intros ->; by injection E as <- _).
      destruct (enqueue_refused _ _ _ _ _ _ Hok Eq Hacc) as (-> & -> & _). rewrite queue_same in E.
      destruct (match cl_context c with PutOf _ => _ | ReadOf _ => _ end) as [x recorded]. by destruct res; try done; injection E as <- <-.
  - destruct (sv_calls s !! t_id t) as [c|]; [|done]. cbn [mbind option_bind] in E. destruct (finish_task _ _ _ _ _ _) as [[t' s1] more] eqn:Ef.
    destruct (finish_kept _ _ _ _ _ _ _ _ Hok Ef) as (Hk & Ha & ->). injection E as <- <-. split; [by apply queues_kept|done].
  - injection E as <- <-. split; [by apply queues_kept|done].
  - destruct (pop_ready _) eqn:Er; [|done]. unfold WaitPop in E. unfold pop_ready in Er. pose proof (queue_forall _ w s Hq) as Hw.
    destruct (tasks_ (queue_of w s)) as [|t rest] eqn:Et; injection E as <- <-.
    + split; [|done]. rewrite queue_same. apply worker_ends; [done|]. by destruct (stopped_ _).
    + apply Forall_cons in Hw as [Ht _]. split; [|done]. by eapply task_popped; [reflexivity|done|].
  - destruct (sv_calls s !! t_id t) as [c|]; [|done]. cbn [mbind option_bind] in E. destruct (finish_task _ _ _ _ _ _) as [[t' s1] more] eqn:Ef.
    destruct (finish_kept _ _ _ _ _ _ _ _ Hok Ef) as (Hk & Ha & ->). injection E as <- <-. split; [by apply queues_kept|done].
  - injection E as <- <-. split; [by apply queues_kept|done].
  - injection E as <- <-. destruct (sv_stopping s) eqn:Es; (split; [|done]); [by apply flag_found|by apply flag_set].
  - injection E as <- <-. split; [by apply writes_stopped|done].
  - injection E as <- <-. split; [by apply reads_stopped|]. cbn in *. by apply Forall_app.
  - destruct j; [|done]. injection E as <- <-. split; [by apply all_joined|done].
  - destruct (sv_calls s !! t_id t) as [c|]; [|done]. cbn [mbind option_bind] in E. apply Forall_cons in Hok as [Ht Hp].
    destruct (finish_task _ _ _ _ _ _) as [[t' s1] more] eqn:Ef.
    destruct (finish_kept _ _ _ _ _ _ _ _ Ht Ef) as (Hk & Ha & ->). injection E as <- <-. split; [by apply queues_kept|done].
  - injection E as <- <-. destruct Hok as [_ Hp]. split; [by apply queues_kept|done].
Qed.

Lemma queue_set writer w q s : queue_of w (set_queue writer q s) = if bool_decide (w = writer) then q else queue_of w s.
Proof. by destruct writer, w. Qed.

(** Stopped stays stopped, and stopped queues stay empty. *)
Definition stopped_empty (s : shared) : Prop :=
  forall w, stopped_ (queue_of w s) = true -> tasks_ (queue_of w s) = [] /\ sv_stopping s = true.

Lemma kept_queue s s' w : kept s s' -> queue_of w s' = queue_of w s /\ sv_stopping s' = sv_stopping s.
Proof. intros (H1 & H2 & H3). by destruct w. Qed.

Lemma queue_monotone s s' th th' : queue_move s s' th th' ->
  (sv_stopping s = true -> sv_stopping s' = true) /\ (forall w, stopped_ (queue_of w s) = true -> stopped_ (queue_of w s') = true).
Proof.
  intros H. destruct H as [th th' Hk _|t wr q Hs Hq -> _|wr t q -> Hs _|wr Hk _| -> _| -> _| ->|p ->| ->].
  1,4: split; [destruct (kept_queue _ _ true Hk) as [_ ->]; done|intros w; destruct (kept_queue _ _ w Hk) as [-> _]; done].
  all: (split; [done|]); intros w Hw; rewrite ?queue_set; try done; case_bool_decide; subst; cbn; congruence.
Qed.

Lemma shutdown_monotone s s' th th' th0 : queue_move s s' th th' -> shutdown_ok s th0 -> shutdown_ok s' th0.
Proof.
  intros [Hst Hq]%queue_monotone. pose proof (Hq true) as Hw. destruct th0; cbn; try tauto; try apply Hq;
    intros [H1 H2]; split; auto; intros w; apply Hq, H2.
Qed.

Lemma queue_stopped_empty s s' th th' : queue_move s s' th th' -> shutdown_ok s th -> stopped_empty s -> stopped_empty s'.
Proof.
  intros H Hsh Hs w. destruct H as [th th' Hk _|t wr q Hst Hq -> _|wr t q -> Hst Hq|wr Hk _| -> _| -> _| ->|p ->| ->].
  1,4: destruct (kept_queue _ _ w Hk) as [-> ->]; apply Hs.
  - rewrite queue_set. case_bool_decide as Hw; [|apply Hs]. intros H. congruence.
  - rewrite queue_set. case_bool_decide as Hw; [|apply Hs]. subst. intros H. rewrite Hst in H. destruct (Hs _ H) as [He _]. congruence.
  - intros Hw. split; [by apply Hs|done].
  - intros Hw. split; [by apply Hs|done].
  - rewrite queue_set. case_bool_decide as Hw; [|apply Hs]. cbn in *. by auto.
  - rewrite queue_set. case_bool_decide as Hw; [|apply Hs]. cbn in *. destruct Hsh. by auto.
  - apply Hs.
Qed.

Lemma shutdown_next s s' th th' : queue_move s s' th th' -> shutdown_ok s th -> shutdown_ok s' th'.
Proof.
  intros H Hsh. destruct H as [th th' Hk Hm|t wr q Hst Hq -> _|wr t q -> Hst Hq|wr Hk Hw| -> Hs| -> Hs| ->|p ->| ->]; try done.
  - destruct (kept_queue _ _ true Hk) as [_ Es]. assert (forall w, queue_of w s' = queue_of w s) as Eq by (intros w; apply (kept_queue _ _ w Hk)).
    destruct th as [| | | | | | | | | | | | | |[|? ?]| | |], th'; try done; cbn in *; (split; [rewrite Es; apply Hsh|]; intros w; rewrite Eq; apply Hsh).
  - cbn. destruct (kept_queue _ _ wr Hk) as [-> _]. done.
  - cbn in *. split; [apply Hsh|]. intros w. destruct w; cbn; [apply Hsh|done].
Qed.

(** ** Workers and the thread that shuts down *)
Definition worker_of (th : thread) : option bool :=
  match th with Waiting w | Holding w _ | Releasing w _ | Exited w => Some w | _ => None end.
Definition is_stopper (th : thread) : Prop :=
  match th with StoppingWrites | StoppingReads _ | Cancelling _ | CancellingEnd _ _ | ShutdownReturned => True | _ => False end.

Lemma worker_stays s s' th th' : queue_move s s' th th' -> worker_of th' = worker_of th.
Proof.
  intros H. destruct H as [th th' Hk Hm| | | | | | | |]; try done.
  destruct th as [| | | | | | | | | | | | | |[|? ?]| | |], th'; try done; cbn in *; congruence.
Qed.
Lemma ended_stays s s' th th' : queue_move s s' th th' -> has_ended th = true -> has_ended th' = true.
Proof.
  intros H. destruct H as [th th' Hk Hm| | | | | | | |]; try done.
  destruct th as [| | | | | | | | | | | | | |[|? ?]| | |], th'; done.
Qed.
Lemma stopper_stays s s' th th' : queue_move s s' th th' ->
  (is_stopper th -> is_stopper th') /\ (sv_stopping s' = true -> sv_stopping s = true \/ is_stopper th').
Proof.
  intros H. destruct H as [th th' Hk Hm|? ? ? ? ? ->|? ? ? ->|? Hk ?| -> ?| -> ?| ->|? ->| ->]; try (split; [done|by auto]).
  - split; [|destruct (kept_queue _ _ true Hk) as [_ ->]; by auto]. by destruct th as [| | | | | | | | | | | | | |[|? ?]| | |], th'.
  - split; [done|]. destruct (kept_queue _ _ true Hk) as [_ ->]. by auto.
  - split; [done|]. by right.
Qed.

(** * The invariant *)
Abbreviation step := (service_step EVP_DigestInit_ex EVP_DigestUpdate EVP_DigestFinal_ex EVP_Digest size).

Record service_inv (limit : Z) (sv : ObjectServiceImpl) : Prop := {
  iv_stages : stages (sv_shared sv) (sv_threads sv);
  iv_threads : Forall thread_ok (sv_threads sv);
  iv_shutdown : Forall (shutdown_ok (sv_shared sv)) (sv_threads sv);
  iv_queued : Forall runnable (queued (sv_shared sv));
  iv_stopped : stopped_empty (sv_shared sv);
  iv_limit : limit_bytes (sv_limiter (sv_shared sv)) = limit;
  iv_within : used_bytes (sv_limiter (sv_shared sv)) <= limit;
  iv_leases : Forall nonneg (all_held (sv_threads sv) ++ queued (sv_shared sv));
  iv_used : used_bytes (sv_limiter (sv_shared sv)) = sum_of lease_of (all_held (sv_threads sv) ++ queued (sv_shared sv));
  iv_stopper : sv_stopping (sv_shared sv) = true -> Exists is_stopper (sv_threads sv);
  iv_joined : Exists (eq ShutdownReturned) (sv_threads sv) -> forallb has_ended (sv_threads sv) = true
}.

Lemma exists_insert {A} (P : A -> Prop) (l : list A) i x y : l !! i = Some x -> (P x -> P y) -> Exists P l -> Exists P (<[i := y]> l).
Proof.
  intros Hi Hxy H. apply Exists_exists in H as (z & Hz & Hp). apply list_elem_of_lookup in Hz as [j Hj]. apply Exists_exists.
  destruct (decide (i = j)) as [<-|Hne].
  - exists y. split; [|rewrite Hi in Hj; injection Hj as ->; auto]. apply list_elem_of_lookup. exists i. apply list_lookup_insert_eq. by eapply lookup_lt_Some.
  - exists z. split; [|done]. apply list_elem_of_lookup. exists j. by rewrite list_lookup_insert_ne.
Qed.
Lemma insert_exists {A} (P : A -> Prop) (l : list A) i y : Exists P (<[i := y]> l) -> P y \/ Exists P l.
Proof.
  intros H. apply Exists_exists in H as (z & Hz & Hp). apply list_elem_of_lookup in Hz as [j Hj].
  destruct (decide (i = j)) as [<-|Hne].
  - left. apply list_lookup_insert_Some in Hj as [(_ & -> & _)|(Hne & _)]; done.
  - right. rewrite list_lookup_insert_ne in Hj by done. apply Exists_exists. exists z. split; [|done]. by eapply list_elem_of_lookup_2.
Qed.

Lemma forallb_insert {A} (f : A -> bool) (l : list A) i x y : l !! i = Some x -> (f x = true -> f y = true) -> forallb f l = true -> forallb f (<[i := y]> l) = true.
Proof.
  intros Hi Hf H. rewrite forallb_forall in *. intros z Hz%list_elem_of_In.
  apply list_elem_of_lookup in Hz as [j Hj]. destruct (decide (i = j)) as [<-|Hne].
  - apply list_lookup_insert_Some in Hj as [(_ & -> & _)|(Hne & _)]; [|done]. apply Hf, H, list_elem_of_In. by eapply list_elem_of_lookup_2.
  - rewrite list_lookup_insert_ne in Hj by done. apply H, list_elem_of_In. by eapply list_elem_of_lookup_2.
Qed.

(** The thread that moves holds no more than the counter says. *)
Lemma held_part limit s l i th : service_inv limit (mkServiceImpl s l) -> l !! i = Some th ->
  Forall nonneg (held_by th ++ queued s) /\ sum_of lease_of (held_by th) <= used_bytes (sv_limiter s) /\ 0 <= used_bytes (sv_limiter s).
Proof.
  intros Hiv Hi. pose proof (iv_leases _ _ Hiv) as [Hh Hq]%Forall_app. cbn [sv_shared sv_threads] in *.
  assert (Forall nonneg (held_by th)) as Hth by (apply all_held_forall in Hh; by apply (Forall_lookup_1 _ _ _ _ Hh Hi)).
  split; [by apply Forall_app|]. pose proof (iv_used _ _ Hiv) as Hused. cbn [sv_shared sv_threads] in Hused. rewrite Hused, sum_app.
  pose proof (lease_sum_nonneg _ Hq). pose proof (lease_sum_nonneg _ Hth).
  pose proof (all_held_sum lease_of l i th Returned Hi) as E. cbn [held_by sum_of] in E.
  assert (Forall nonneg (all_held (<[i := Returned]> l))) as Hr.
  { apply all_held_forall. apply Forall_insert; [by apply all_held_forall|]. constructor. }
  pose proof (lease_sum_nonneg _ Hr). lia.
Qed.

Lemma admitting_size s l i n c p : stages s l -> l !! i = Some (Admitting n) -> sv_calls s !! n = Some c -> cl_context c = PutOf p ->
  attachment_size p <= kMaxFileSize.
Proof.
  intros Hst Hi Hc Ex. destruct (total_split n s l i _ Hi) as (o & Ho & E & _). specialize (Hst n). rewrite Hc, E, admitting_counts, mark_same in Hst.
  destruct (proj1 (proj2 (stage_inv _ _ _ _ _ Ho Hst)) eq_refl) as (_ & _ & (_ & r & a & Ex' & Hinv) & _). rewrite Ex in Ex'. injection Ex' as ->.
  unfold invalid_put in Hinv. destruct (_ || _ || _ || _ || _ || _); [done|]. destruct (_ || _) eqn:E2; [done|].
  apply orb_false_iff in E2 as [_ E2]. by apply Z.ltb_ge in E2.
Qed.

Lemma forall_moved {A} (P Q : A -> Prop) (l : list A) i y : Forall P l -> (forall x, P x -> Q x) -> Q y -> Forall Q (<[i := y]> l).
Proof. intros H HPQ Hy. apply Forall_insert; [|done]. by eapply Forall_impl. Qed.

Lemma move_inv limit ch s l i th th' s' : u64 limit -> l !! i = Some th -> move ch (forallb has_ended l) th s = Some (th', s') ->
  service_inv limit (mkServiceImpl s l) -> service_inv limit (mkServiceImpl s' (<[i := th']> l)).
Proof.
  intros Hu Hi E Hiv. pose proof (held_part _ _ _ _ _ Hiv Hi) as (Hnn & Hsum & H0).
  pose proof (Forall_lookup_1 _ _ _ _ (iv_threads _ _ Hiv) Hi) as Hok. pose proof (Forall_lookup_1 _ _ _ _ (iv_shutdown _ _ Hiv) Hi) as Hsh.
  pose proof (iv_used _ _ Hiv) as Hused. pose proof (iv_leases _ _ Hiv) as [Hheld Hlq]%Forall_app.
  destruct (move_queue _ _ _ _ _ _ Hok (iv_queued _ _ Hiv) E) as [Hqm Hok'].
  destruct (move_balanced limit _ _ _ _ _ _ Hu (iv_limit _ _ Hiv) (conj H0 (iv_within _ _ Hiv)) Hok Hnn Hsum
    (fun n c p Eth Hc Hx => admitting_size _ _ _ _ _ _ (iv_stages _ _ Hiv) (eq_trans Hi (f_equal Some Eth)) Hc Hx) E) as (B1 & B2 & B3 & B4).
  constructor; cbn [sv_shared sv_threads] in *.
  - eapply move_stages; [exact Hi|exact Hok|exact Hsh|exact (iv_stopped _ _ Hiv)|exact E|exact (iv_stages _ _ Hiv)].
  - apply Forall_insert; [apply (iv_threads _ _ Hiv)|done].
  - eapply forall_moved; [apply (iv_shutdown _ _ Hiv)|intros th0; by eapply shutdown_monotone|by eapply shutdown_next].
  - clear -Hqm Hok Hiv. pose proof (iv_queued _ _ Hiv) as Hq. cbn in Hq. pose proof (fun w => queue_forall _ w s Hq) as Hw.
    destruct Hqm as [? ? (E1 & E2 & _) _|t wr q _ _ -> E|wr t q -> _ E|wr (E1 & E2 & _) _| -> _| -> _| ->|? ->| ->]; try done.
    1,4: unfold queued; rewrite E1, E2; exact Hq.
    + apply queued_forall; [|done]. rewrite E. apply Forall_app. split; [apply Hw|by constructor].
    + apply queued_forall; [|done]. specialize (Hw wr). rewrite E in Hw. by apply Forall_cons in Hw as [_ Hw].
    + by apply queued_forall.
    + by apply queued_forall.
  - eapply queue_stopped_empty; [done|done|]. apply (iv_stopped _ _ Hiv).
  - done.
  - done.
  - apply Forall_app in B3 as [B3 B3']. apply Forall_app. split; [|done]. apply all_held_forall. apply Forall_insert; [by apply all_held_forall|done].
  - rewrite !sum_app in *. rewrite (all_held_sum _ _ _ _ _ Hi). lia.
  - intros Hs. destruct (stopper_stays _ _ _ _ Hqm) as [Hss Hs']. destruct (Hs' Hs) as [Hold|Hnew].
    + eapply exists_insert; [exact Hi|done|]. by apply (iv_stopper _ _ Hiv).
    + apply Exists_exists. exists th'. split; [|done]. apply list_elem_of_lookup. exists i. apply list_lookup_insert_eq. by eapply lookup_lt_Some.
  - intros Hr. destruct (insert_exists _ _ _ _ Hr) as [<-|Hr'].
    + assert (forallb has_ended l = true) as Hj by (inversion Hqm as [? ? _ Hm| | | | | | | |]; subst; [by destruct th as [| | | | | | | | | | | | | |[|? ?]| | |]|];
        cbn [advance] in E; by destruct (forallb has_ended l)).
      by eapply forallb_insert.
    + eapply forallb_insert; [exact Hi|by eapply ended_stays|]. by apply (iv_joined _ _ Hiv).
Qed.

(** ** Arrivals *)
Lemma exists_app_l {A} (P : A -> Prop) (l l' : list A) : Exists P l -> Exists P (l ++ l').
Proof. rewrite Exists_app. auto. Qed.

Lemma all_held_app l th : held_by th = [] -> all_held (l ++ [th]) = all_held l.
Proof. intros E. unfold all_held. rewrite map_app, concat_app. cbn. by rewrite E, !app_nil_r. Qed.

Lemma none_counts x s l : stages s l -> (length (sv_calls s) <= x)%nat -> total_counts x s l = no_counts /\ entries x (sv_executed s) = [].
Proof. intros Hst Hx. specialize (Hst x). by rewrite (lookup_ge_None_2 (sv_calls s) x Hx) in Hst. Qed.

Lemma arrive_inv limit s l arguments x : fresh_context x -> service_inv limit (mkServiceImpl s l) ->
  service_inv limit (mkServiceImpl (add_call (new_call arguments x) s) (l ++ [Entered (length (sv_calls s))])).
Proof.
  intros Hx [H1 H2 H3 H4 H5 H6 H7 H8 H9 H10 H11]. cbn [sv_shared sv_threads] in *. constructor; cbn [sv_shared sv_threads]; try done.
  - intros y. assert (total_counts y (add_call (new_call arguments x) s) (l ++ [Entered (length (sv_calls s))]) =
      add_counts (total_counts y s l) (mkStages (mark (length (sv_calls s)) y) 0 0 0 0)) as ->.
    { unfold total_counts. rewrite threads_app, entered_counts. apply counts_eq; cbn; change (queued (add_call _ s)) with (queued s); lia. }
    cbn [sv_stopping sv_calls sv_executed add_call]. destruct (decide (y = length (sv_calls s))) as [->|Hy].
    + destruct (none_counts _ _ _ H1 (Nat.le_refl _)) as [-> ->]. rewrite add_no_counts, mark_same, list_lookup_middle by done. by apply stage_entered.
    + rewrite mark_other by done. replace (add_counts (total_counts y s l) (mkStages 0 0 0 0 0)) with (total_counts y s l) by (apply counts_eq; cbn; lia).
      destruct (Nat.lt_ge_cases y (length (sv_calls s))).
      * rewrite lookup_app_l by done. apply H1.
      * specialize (H1 y). rewrite (lookup_ge_None_2 (sv_calls s) y) in H1 by done. rewrite lookup_ge_None_2; [done|]. rewrite length_app. cbn. lia.
  - apply Forall_app. split; [done|by constructor].
  - apply Forall_app. split; [done|by constructor].
  - by rewrite all_held_app.
  - by rewrite all_held_app.
  - intros Hs. by apply exists_app_l, H10.
  - rewrite Exists_app, forallb_app. intros [Hr|Hr]; [by rewrite H11|]. by inversion Hr as [? ? Hc|? ? Hc]; inversion Hc.
Qed.

Lemma shutdown_inv limit s l : service_inv limit (mkServiceImpl s l) -> service_inv limit (mkServiceImpl s (l ++ [ShutdownCalled])).
Proof.
  intros [H1 H2 H3 H4 H5 H6 H7 H8 H9 H10 H11]. cbn [sv_shared sv_threads] in *. constructor; cbn [sv_shared sv_threads]; try done.
  - intros y. assert (total_counts y s (l ++ [ShutdownCalled]) = total_counts y s l) as ->; [|apply H1].
    unfold total_counts. rewrite threads_app. apply counts_eq; cbn; lia.
  - apply Forall_app. split; [done|by constructor].
  - apply Forall_app. split; [done|by constructor].
  - by rewrite all_held_app.
  - by rewrite all_held_app.
  - intros Hs. by apply exists_app_l, H10.
  - rewrite Exists_app, forallb_app. intros [Hr|Hr]; [by rewrite H11|]. by inversion Hr as [? ? Hc|? ? Hc]; inversion Hc.
Qed.

Lemma step_inv limit sv sv' : u64 limit -> step sv sv' -> service_inv limit sv -> service_inv limit sv'.
Proof.
  intros Hu H Hiv. destruct H as [ch i th s l th' s' Hi E|arguments r a s l|arguments k key s l|s l].
  - by eapply move_inv.
  - apply arrive_inv; [|done]. left. by exists r, a.
  - apply arrive_inv; [|done]. right. by exists k, key.
  - by apply shutdown_inv.
Qed.

Lemma initial_threads_counts x k : threads_counts x (Waiting true :: replicate k (Waiting false)) = no_counts.
Proof.
  assert (forall k, threads_counts x (replicate k (Waiting false)) = no_counts) as H.
  { clear k. intros k. induction k as [|k IH]; [done|]. cbn [replicate threads_counts]. rewrite IH. done. }
  cbn [threads_counts]. by rewrite H.
Qed.

Lemma new_service_inv b o : u64 (max_inflight_bytes o) -> service_inv (max_inflight_bytes o) (new_service b o).
Proof.
  intros Hu. assert (all_held (sv_threads (new_service b o)) = []) as Hh.
  { cbn. unfold all_held. cbn. induction (read_worker_count o) as [|k IH]; [done|]. cbn. exact IH. }
  constructor; try done.
  - intros x. cbn [new_service sv_shared sv_threads sv_calls]. split; [|done]. unfold total_counts. by rewrite initial_threads_counts.
  - cbn. constructor; [done|]. by apply Forall_replicate.
  - cbn. constructor; [done|]. by apply Forall_replicate.
  - intros [|] H; done.
  - cbn. word.
  - rewrite Hh. constructor.
  - by rewrite Hh.
  - cbn. intros H. exfalso. inversion H as [? ? Hc|? ? Hc]; subst; [done|]. apply Exists_exists in Hc as (th & Hth & <-).
    by apply elem_of_replicate in Hth as [[=] _].
Qed.

Lemma reachable_inv b o sv : u64 (max_inflight_bytes o) -> rtc step (new_service b o) sv -> service_inv (max_inflight_bytes o) sv.
Proof.
  intros Hu H. assert (forall sv sv', rtc step sv sv' -> service_inv (max_inflight_bytes o) sv -> service_inv (max_inflight_bytes o) sv') as Hall.
  { intros s1 s2 Hr. induction Hr as [|? ? ? H12 _ IH]; [done|]. intros Hi. apply IH. by eapply step_inv. }
  eapply Hall; [exact H|]. by apply new_service_inv.
Qed.
End stages.
