(* ===== verification/ServiceTheorems.v ===== *)
(** What the RPC service guarantees: every call is answered once, with a status
    that says what became of it; the threads come to rest with everything
    answered; nothing runs after Shutdown; and what the calls did is a run of the
    abstract store. *)
From S2P Require Import Prelude Codec OndiskFormat Disk JournalStore CrashLogic BitmapAllocator RequestLedger ImageReader.
From S2P Require Import LedgerStore FileMutation NewObject FileSystem RequestFingerprint ObjectBackend IdempotentProofs StoreRefinement StoreTheorems.
From S2P Require Import JournalExample.
From S2P Require Import RpcQueue ObjectService ServiceProofs.
Open Scope Z_scope.

(** * Work left *)
Definition thread_work (th : thread) : nat :=
  match th with
  | Entered _ => 8 | Admitting _ => 7 | Offering _ => 6 | Refusing _ => 2 | Leaving _ _ | Ending _ => 1
  | Waiting _ => 1 | Holding _ _ => 3 | Releasing _ _ => 2
  | ShutdownCalled => 4 | StoppingWrites => 3
  | StoppingReads pending => 2 + 3 * length pending
  | Cancelling pending => 1 + 3 * length pending
  | CancellingEnd _ pending => 2 + 3 * length pending
  | Returned | Exited _ | ShutdownReturned | ShutdownSkipped => 0
  end.
Fixpoint threads_work (l : list thread) : nat := match l with [] => 0 | th :: l => thread_work th + threads_work l end.
Definition queue_work (s : shared) : nat := 4 * length (queued s).
Definition work (sv : ObjectServiceImpl) : nat := (threads_work (sv_threads sv) + queue_work (sv_shared sv))%nat.

Lemma sum_insert l i th th' : l !! i = Some th ->
  (threads_work (<[i := th']> l) + thread_work th = threads_work l + thread_work th')%nat.
Proof.
  revert i. induction l as [|th0 l IH]; intros i H; [done|]. destruct i as [|i].
  - injection H as ->. change (<[0%nat := th']> (th :: l)) with (th' :: l). cbn. lia.
  - change (<[S i := th']> (th0 :: l)) with (th0 :: <[i := th']> l). specialize (IH i H). cbn. lia.
Qed.

Lemma queue_length writer q s : (length (queued (set_queue writer q s)) + length (tasks_ (queue_of writer s)) = length (queued s) + length (tasks_ q))%nat.
Proof. unfold queued. destruct writer; cbn; rewrite !length_app; lia. Qed.

Lemma move_works s s' th th' : queue_move s s' th th' -> (thread_work th' + queue_work s' < thread_work th + queue_work s)%nat.
Proof.
  intros H. unfold queue_work.
  destruct H as [th th' (E1 & E2 & _) Hm|t wr q _ _ -> E|wr t q -> _ E|wr (E1 & E2 & _) _| -> _| -> _| ->|p ->| ->]; try (cbn; lia).
  - replace (queued s') with (queued s) by (unfold queued; by rewrite E1, E2).
    destruct th as [| | | | | | | | | | | | | |[|? ?]| | |], th'; try done; cbn in *; subst; try lia.
  - pose proof (queue_length wr q s) as Hl. rewrite E, length_app in Hl. cbn in *. lia.
  - pose proof (queue_length wr q s) as Hl. rewrite E in Hl. cbn in *. lia.
  - replace (queued s') with (queued s) by (unfold queued; by rewrite E1, E2). cbn. lia.
  - change (queued (set_stopping s)) with (queued s). cbn. lia.
  - change (queued (set_stopping s)) with (queued s). cbn. lia.
  - pose proof (queue_length true (mkQueue (capacity_ (sv_write_queue s)) [] true) s) as Hl. cbn [tasks_ queue_of thread_work length] in *. lia.
  - pose proof (queue_length false (mkQueue (capacity_ (sv_read_queue s)) [] true) s) as Hl. cbn [tasks_ queue_of thread_work length] in *. rewrite length_app. lia.
Qed.

Section service.
Context {digest_context : Type} (EVP_DigestInit_ex : option digest_context).
Context (EVP_DigestUpdate : digest_context -> bytes -> option digest_context) (EVP_DigestFinal_ex : digest_context -> option bytes).
Context (EVP_Digest : bytes -> option bytes) (size : Z).
Abbreviation move := (advance EVP_DigestInit_ex EVP_DigestUpdate EVP_DigestFinal_ex EVP_Digest size).
Abbreviation step := (service_step EVP_DigestInit_ex EVP_DigestUpdate EVP_DigestFinal_ex EVP_Digest size).
Abbreviation invariant := (service_inv EVP_DigestInit_ex EVP_DigestUpdate EVP_DigestFinal_ex EVP_Digest).
Abbreviation all_stages := (stages EVP_DigestInit_ex EVP_DigestUpdate EVP_DigestFinal_ex EVP_Digest).
Abbreviation answer_of := (answered EVP_DigestInit_ex EVP_DigestUpdate EVP_DigestFinal_ex EVP_Digest).

(** A move of a thread, as opposed to an arrival. *)
Definition thread_step (sv sv' : ObjectServiceImpl) : Prop :=
  exists ch i th th' s', sv_threads sv !! i = Some th /\
    move ch (forallb has_ended (sv_threads sv)) th (sv_shared sv) = Some (th', s') /\
    sv' = mkServiceImpl s' (<[i := th']> (sv_threads sv)).

Lemma thread_step_step sv sv' : thread_step sv sv' -> step sv sv'.
Proof. destruct sv as [s l]. intros (ch & i & th & th' & s' & Hi & E & ->). by eapply a_thread_moves. Qed.

Lemma thread_step_works limit sv sv' : invariant limit sv -> thread_step sv sv' -> (work sv' < work sv)%nat.
Proof.
  intros Hiv (ch & i & th & th' & s' & Hi & E & ->).
  destruct (move_queue _ _ _ _ _ _ _ _ _ _ _ (Forall_lookup_1 _ _ _ _ (iv_threads _ _ _ _ _ _ Hiv) Hi) (iv_queued _ _ _ _ _ _ Hiv) E) as [Hq _].
  apply move_works in Hq. pose proof (sum_insert _ _ _ th' Hi). unfold work. cbn [sv_threads sv_shared]. lia.
Qed.

Lemma thread_steps_bounded limit sv n sv' : u64 limit -> invariant limit sv -> nsteps thread_step n sv sv' -> (n + work sv' <= work sv)%nat.
Proof.
  intros Hu Hiv H. induction H as [sv|n sv sv1 sv' Hs _ IH]; [lia|]. pose proof (thread_step_works _ _ _ Hiv Hs).
  assert (invariant limit sv1) as Hiv1 by (eapply step_inv; [done|by apply thread_step_step|done]). specialize (IH Hiv1). lia.
Qed.

(** * Rest *)
(** A thread waits for nothing but a task or the end of the workers. *)
Definition at_rest (s : shared) (th : thread) : Prop :=
  match th with
  | Returned | Exited _ | ShutdownReturned | ShutdownSkipped => True
  | Waiting writer => pop_ready (queue_of writer s) = false
  | Cancelling [] => True
  | _ => False
  end.

Lemma counts_zero o k : add_counts o k = no_counts ->
  k_entered o + k_entered k = 0 /\ k_admitting o + k_admitting k = 0 /\ k_leaving o + k_leaving k = 0 /\ k_live o + k_live k = 0.
Proof. by intros [= H1 H2 H3 H4 _]. Qed.

(** The calls of the threads exist. *)
Lemma call_there s l i th n : all_stages s l -> l !! i = Some th -> 0 < k_entered (thread_counts n th) + k_admitting (thread_counts n th) +
  k_leaving (thread_counts n th) + k_live (thread_counts n th) -> is_Some (sv_calls s !! n).
Proof.
  intros Hst Hi Hk. destruct (total_split n s l i th Hi) as (o & Ho & E & _). specialize (Hst n). rewrite E in Hst.
  destruct (sv_calls s !! n) as [c|]; [done|]. destruct Hst as [Hz _]. apply counts_zero in Hz. unfold counts_nonneg in Ho. lia.
Qed.

Lemma task_there s l i th t : all_stages s l -> l !! i = Some th -> t ∈ held_by th -> active t = true -> is_Some (sv_calls s !! t_id t).
Proof.
  intros Hst Hi Ht Ha. eapply call_there; [done|done|]. pose proof (thread_nonneg (t_id t) th) as Hn. unfold counts_nonneg in Hn.
  assert (1 <= sum_of (is_live (t_id t)) (held_by th)) as H1.
  { clear -Ht Ha. induction (held_by th) as [|x l IH]; [by apply not_elem_of_nil in Ht|]. cbn. apply elem_of_cons in Ht as [<-|Ht].
    - rewrite live_active, mark_same by done. pose proof (live_nonneg (t_id t) l). lia.
    - pose proof (is_live_range (t_id t) x). specialize (IH Ht). lia. }
  cbn in *. lia.
Qed.

Definition any_choice : choice := mkChoice false None None false [] [].

(** A thread that cannot move is at rest. *)
Lemma rest_or_move limit s l i th : invariant limit (mkServiceImpl s l) -> l !! i = Some th ->
  at_rest s th \/ exists th' s', move any_choice (forallb has_ended l) th s = Some (th', s').
Proof.
  intros Hiv Hi. pose proof (iv_stages _ _ _ _ _ _ Hiv) as Hst. cbn in Hst.
  pose proof (Forall_lookup_1 _ _ _ _ (iv_threads _ _ _ _ _ _ Hiv) Hi) as Hok.
  assert (forall t, t ∈ held_by th -> active t = true -> is_Some (sv_calls s !! t_id t)) as Htask by (intros t; by eapply task_there).
  assert (forall n, 0 < k_entered (thread_counts n th) + k_admitting (thread_counts n th) + k_leaving (thread_counts n th) + k_live (thread_counts n th) ->
    is_Some (sv_calls s !! n)) as Hcall by (intros n; by eapply call_there).
  destruct th as [m|m|m lease|t|t|t| |w|w t|w t|w| | |p|[|t p]|t p| |]; try (by left); cbn [advance at_rest].
  - right. destruct (Hcall m) as [c ->]; [cbn; rewrite mark_same; lia|]. cbn. destruct (enter _ _ _ _) as [th' s']. eauto.
  - right. destruct (Hcall m) as [c Hc]; [cbn; rewrite mark_same; lia|]. specialize (Hst m).
    destruct (total_split m s l i _ Hi) as (o & Ho & E & _). rewrite Hc, E, admitting_counts, mark_same in Hst.
    destruct (proj1 (proj2 (stage_inv _ _ _ _ _ _ _ _ _ Ho Hst)) eq_refl) as (_ & _ & (_ & r & a & Ex & _) & _).
    rewrite Hc. cbn. rewrite Ex. cbn [new_put]. destruct (admission_step _ _ _ _ _ _ _ _ _) as [th' s']. eauto.
  - right. destruct (Hcall m) as [c ->]; [cbn; rewrite mark_same; lia|]. cbn. eauto.
  - right. destruct (Htask t) as [c ->]; [by left|done|]. cbn. destruct (offer _ _ _ _) as [th' s']. eauto.
  - right. destruct (Htask t) as [c ->]; [by left|done|]. cbn. destruct (finish_task _ _ _ _ _ _) as [[t' s'] more]. eauto.
  - right. eauto.
  - destruct (pop_ready (queue_of w s)); [right|by left]. destruct (WaitPop _) as [q [t|]]; eauto.
  - right. destruct (Htask t) as [c ->]; [by left|done|]. cbn. destruct (finish_task _ _ _ _ _ _) as [[t' s'] more]. eauto.
  - right. eauto.
  - right. eauto.
  - right. eauto.
  - right. eauto.
  - right. apply Forall_cons in Hok as [Ht _]. destruct (Htask t) as [c ->]; [by left|done|]. cbn. destruct (finish_task _ _ _ _ _ _) as [[t' s'] more]. eauto.
  - right. eauto.
Qed.

(** ** The workers stay *)
Definition has_worker (writer : bool) (l : list thread) : Prop := Exists (fun th => worker_of th = Some writer) l.

Lemma worker_step limit sv sv' writer : invariant limit sv -> step sv sv' -> has_worker writer (sv_threads sv) -> has_worker writer (sv_threads sv').
Proof.
  intros Hiv H Hw. destruct H as [ch i th s l th' s' Hi E|? ? ? s l|? ? ? s l|s l]; cbn in *; [|by apply exists_app_l..].
  destruct (move_queue _ _ _ _ _ _ _ _ _ _ _ (Forall_lookup_1 _ _ _ _ (iv_threads _ _ _ _ _ _ Hiv) Hi) (iv_queued _ _ _ _ _ _ Hiv) E) as [Hq _].
  eapply exists_insert; [exact Hi| |exact Hw]. by rewrite (worker_stays _ _ _ _ Hq).
Qed.

Lemma workers_there b o sv writer : u64 (max_inflight_bytes o) -> (1 <= read_worker_count o)%nat -> rtc step (new_service b o) sv ->
  has_worker writer (sv_threads sv).
Proof.
  intros Hu Hr H.
  assert (forall sv sv', rtc step sv sv' -> invariant (max_inflight_bytes o) sv -> has_worker writer (sv_threads sv) -> has_worker writer (sv_threads sv')) as Hall.
  { intros s1 s2 Hs. induction Hs as [|? ? ? H12 _ IH]; [done|]. intros Hi Hw. apply IH; [by eapply step_inv|by eapply worker_step]. }
  eapply Hall; [exact H|by apply new_service_inv|]. cbn. destruct writer; [by left|]. right. destruct (read_worker_count o); [lia|]. by left.
Qed.

(** ** Everything at rest *)
Lemma rest_queue_empty limit s l writer : invariant limit (mkServiceImpl s l) -> Forall (at_rest s) l -> has_worker writer l ->
  tasks_ (queue_of writer s) = [].
Proof.
  intros Hiv Hr Hw. apply Exists_exists in Hw as (th & Hin & Hw). pose proof (proj1 (Forall_forall _ _) Hr th Hin) as Hth.
  pose proof (proj1 (Forall_forall _ _) (iv_shutdown _ _ _ _ _ _ Hiv) th Hin) as Hsh. destruct th; try done; injection Hw as ->; cbn in *.
  - unfold pop_ready in Hth. apply orb_false_iff in Hth as [_ Hth]. apply negb_false_iff in Hth. by apply bool_decide_eq_true in Hth.
  - by apply (iv_stopped _ _ _ _ _ _ Hiv).
Qed.

Lemma rest_counts x l s : Forall (at_rest s) l -> threads_counts x l = no_counts /\ all_held l = [].
Proof.
  induction 1 as [|th l Hth _ [IH1 IH2]]; [done|]. cbn [threads_counts]. rewrite IH1. unfold all_held in *. cbn [map concat]. rewrite IH2.
  destruct th as [| | | | | | | | | | | | | |[|? ?]| | |]; done.
Qed.

(** Nothing is under way: every call has been answered, no bytes are reserved, the
    queues are empty; and if Shutdown was called, it has returned and the workers
    have ended. *)
Record idle (sv : ObjectServiceImpl) : Prop := {
  id_answered : Forall (fun c => done_at c = (false, false, 1%nat)) (sv_calls (sv_shared sv));
  id_bytes : inflight_bytes sv = 0;
  id_writes : queued_write_tasks sv = 0%nat;
  id_reads : queued_read_tasks sv = 0%nat;
  id_shutdown : sv_stopping (sv_shared sv) = true -> ShutdownReturned ∈ sv_threads sv /\
    Forall (fun th => forall writer, worker_of th = Some writer -> th = Exited writer) (sv_threads sv)
}.

Lemma rest_idle limit s l : invariant limit (mkServiceImpl s l) -> Forall (at_rest s) l ->
  (forallb has_ended l = true -> Cancelling [] ∉ l) -> (forall writer, has_worker writer l) -> idle (mkServiceImpl s l).
Proof.
  intros Hiv Hr Hjoin Hw.
  assert (forall w, tasks_ (queue_of w s) = []) as Hq by (intros w; by eapply rest_queue_empty).
  assert (queued s = []) as Hqs by (unfold queued; pose proof (Hq true) as E1; pose proof (Hq false) as E2; cbn in E1, E2; by rewrite E1, E2).
  constructor; unfold inflight_bytes, queued_write_tasks, queued_read_tasks; cbn [sv_shared sv_threads].
  - apply Forall_lookup. intros x c Hc. pose proof (iv_stages _ _ _ _ _ _ Hiv x) as Hst. cbn [sv_shared sv_threads] in Hst. rewrite Hc in Hst.
    assert (total_counts x s l = no_counts) as Hz.
    { unfold total_counts, queue_counts. rewrite (proj1 (rest_counts x l s Hr)), Hqs. done. }
    rewrite Hz in Hst. inversion Hst; subst; try done.
  - pose proof (iv_used _ _ _ _ _ _ Hiv) as Hu. cbn [sv_shared sv_threads] in Hu. rewrite Hu, (proj2 (rest_counts 0 l s Hr)), Hqs. done.
  - pose proof (Hq true) as E. cbn in E. by rewrite E.
  - pose proof (Hq false) as E. cbn in E. by rewrite E.
  - intros Hs. pose proof (iv_stopper _ _ _ _ _ _ Hiv Hs) as Hst. apply Exists_exists in Hst as (th & Hin & Hth). cbn [sv_threads] in Hin.
    pose proof (proj1 (Forall_forall _ _) Hr th Hin) as Hrest. pose proof (proj1 (Forall_forall _ _) (iv_shutdown _ _ _ _ _ _ Hiv) th Hin) as Hsh.
    assert (forall w, stopped_ (queue_of w s) = true) as Hstop by (destruct th as [| | | | | | | | | | | | | |[|? ?]| | |]; try done; apply Hsh).
    assert (Forall (fun th => forall writer, worker_of th = Some writer -> th = Exited writer) l) as Hex.
    { apply Forall_forall. intros th' Hin' w Ew. pose proof (proj1 (Forall_forall _ _) Hr th' Hin') as Hr'.
      destruct th'; try done; injection Ew as ->; cbn in Hr'; [|done]. unfold pop_ready in Hr'. by rewrite Hstop in Hr'. }
    split; [|done]. destruct th as [| | | | | | | | | | | | | |[|? ?]| | |]; try done. exfalso. apply Hjoin; [|done].
    apply forallb_forall. intros th' Hin'%list_elem_of_In. pose proof (proj1 (Forall_forall _ _) Hex th' Hin') as Ht.
    destruct th' as [| | | | | | | |w t|w t|w| | | | | | |]; try done; [by specialize (Ht _ eq_refl)..].
Qed.

Lemma all_or_one {A} (P : A -> Prop) (Q : nat -> Prop) (l : list A) :
  (forall i x, l !! i = Some x -> P x \/ Q i) -> Forall P l \/ exists i, Q i.
Proof.
  revert Q. induction l as [|x l IH]; intros Q H; [by left|]. destruct (H 0%nat x eq_refl) as [Hx|Hx]; [|by right; eexists].
  destruct (IH (fun i => Q (S i)) (fun i y Hy => H (S i) y Hy)) as [Hl|[i Hi]]; [left; by constructor|right; by eexists].
Qed.

Lemma idle_or_move limit sv : invariant limit sv -> (forall writer, has_worker writer (sv_threads sv)) -> idle sv \/ exists sv', thread_step sv sv'.
Proof.
  intros Hiv Hw. destruct sv as [s l].
  destruct (all_or_one (fun th => at_rest s th /\ (forallb has_ended l = true -> th <> Cancelling []))
    (fun i => exists th th' s', l !! i = Some th /\ move any_choice (forallb has_ended l) th s = Some (th', s')) l) as [Hr|(i & th & th' & s' & Hi & E)].
  - intros i th Hi. destruct (rest_or_move limit s l i th Hiv Hi) as [Hr|(th' & s' & E)]; [|right; by exists th, th', s'].
    destruct (forallb has_ended l) eqn:Ej; [|by left].
    assert (th = Cancelling [] \/ th <> Cancelling []) as [->|Hne] by (destruct th as [| | | | | | | | | | | | | |[|? ?]| | |]; first [by left|by right]).
    + right. by exists (Cancelling []), ShutdownReturned, s.
    + by left.
  - left. eapply rest_idle; [done| | |done].
    + eapply Forall_impl; [exact Hr|]. by intros th [H _].
    + intros Hj Hin. by destruct (proj1 (Forall_forall _ _) Hr _ Hin) as [_ Hne]; apply Hne.
  - right. eexists. exists any_choice, i, th, th', s'. by cbn.
Qed.

Lemma workers_step limit sv sv' : u64 limit -> invariant limit sv -> thread_step sv sv' -> (forall writer, has_worker writer (sv_threads sv)) ->
  invariant limit sv' /\ forall writer, has_worker writer (sv_threads sv').
Proof.
  intros Hu Hiv H Hw. apply thread_step_step in H. split; [by eapply step_inv|]. intros w. eapply worker_step; [exact Hiv|done|apply Hw].
Qed.

Lemma comes_to_rest limit sv : u64 limit -> invariant limit sv -> (forall writer, has_worker writer (sv_threads sv)) ->
  exists sv', rtc thread_step sv sv' /\ idle sv'.
Proof.
  intros Hu. remember (work sv) as n eqn:En. revert sv En. induction (lt_wf n) as [n _ IH]. intros sv -> Hiv Hw.
  destruct (idle_or_move limit sv Hiv Hw) as [Hi|[sv1 H1]]; [by exists sv; split; [apply rtc_refl|]|].
  pose proof (thread_step_works _ _ _ Hiv H1) as Hlt. destruct (workers_step _ _ _ Hu Hiv H1 Hw) as [Hiv1 Hw1].
  destruct (IH (work sv1) Hlt sv1 eq_refl Hiv1 Hw1) as (sv' & Hr & Hi). exists sv'. split; [by eapply rtc_l|done].
Qed.

(** C6. The service comes to rest. From every state any interleaving of calls,
    workers and Shutdown reaches, the threads make a bounded number of moves
    without a new arrival, whatever the schedule; a state in which no thread can
    move is idle, and there is always a schedule that leads to one. Idle means that
    every call was answered exactly once, no payload bytes are reserved, both
    queues are empty, and if Shutdown was called it has returned and all workers
    have ended: nobody waits for ever, and neither a call nor a byte is lost. *)
Theorem service_comes_to_rest b o sv :
  u64 (max_inflight_bytes o) -> (1 <= read_worker_count o)%nat -> rtc step (new_service b o) sv ->
  (forall n sv', nsteps thread_step n sv sv' -> (n <= work sv)%nat) /\
  ((forall sv', ~ thread_step sv sv') -> idle sv) /\
  (exists sv', rtc thread_step sv sv' /\ idle sv').
Proof.
  intros Hu Hr H. pose proof (reachable_inv _ _ _ _ _ _ _ _ Hu H) as Hiv.
  assert (forall writer, has_worker writer (sv_threads sv)) as Hw by (intros w; by eapply workers_there). conj_split.
  - intros n sv' Hn. pose proof (thread_steps_bounded _ _ _ _ Hu Hiv Hn). lia.
  - intros Hno. destruct (idle_or_move _ _ Hiv Hw) as [Hi|[sv' H']]; [done|]. by apply Hno in H'.
  - by eapply comes_to_rest.
Qed.

(** * What the answers mean *)
(** The stage a call of a reachable state is at. *)
Lemma reachable_answer b o sv n c : u64 (max_inflight_bytes o) -> rtc step (new_service b o) sv -> sv_calls (sv_shared sv) !! n = Some c ->
  let log := entries n (sv_executed (sv_shared sv)) in
  (cl_runs c = 0%nat /\ log = []) \/ (cl_runs c = 1%nat /\ answer_of (sv_stopping (sv_shared sv)) c log).
Proof.
  intros Hu H Hc. pose proof (iv_stages _ _ _ _ _ _ (reachable_inv _ _ _ _ _ _ _ _ Hu H) n) as Hst. rewrite Hc in Hst. cbn zeta.
  inversion Hst as [Hd|Hd|Hd|Hd|Hd|log Hd Ha]; subst; injection Hd as _ _ ->; [left; done..|]. right. split; [done|]. congruence.
Qed.

Abbreviation with_fingerprint := (fingerprinted EVP_DigestInit_ex EVP_DigestUpdate EVP_DigestFinal_ex EVP_Digest).

(** What a status of PutObject says; [log] is what the call asked of the backend. *)
Definition put_status_means (stopping : bool) (p : PutContext) (log : list (request * response)) : Prop :=
  let asked result m := captured EVP_DigestInit_ex EVP_DigestUpdate EVP_DigestFinal_ex EVP_Digest p /\ log = [(asked_of p, Settled result m)] in
  let not_applied result m := asked result m /\ outcome (mutation_result m) = kOutcomeNotApplied in
  match pr_status (px_response p) with
  | PUT_STATUS_OK => exists result m, asked result m /\ outcome (mutation_result m) = kOutcomeCommitted /\
      pr_committed_version (px_response p) = Some (committed_version (mutation_result m))
  | PUT_STATUS_INVALID_ARGUMENT => log = [] /\ forall f, ~ with_fingerprint p f
  | PUT_STATUS_OVERLOADED => log = []
  | PUT_STATUS_SERVER_STOPPING => log = [] /\ stopping = true
  | PUT_STATUS_ALREADY_EXISTS => exists m, not_applied (Err EEXIST) m /\
      pr_current_version (px_response p) = Some (current_version (mutation_result m))
  | PUT_STATUS_VERSION_MISMATCH => exists m, not_applied (Err ESTALE) m /\
      pr_current_version (px_response p) = Some (current_version (mutation_result m))
  | PUT_STATUS_NOT_FOUND => exists m, not_applied (Err ENOENT) m
  | PUT_STATUS_RESULT_UNKNOWN => exists result m, asked result m /\ outcome (mutation_result m) = kOutcomeUnknown
  | PUT_STATUS_REQUEST_ID_CONFLICT => exists result m, asked result m /\ disposition m = kRequestIdConflict
  | PUT_STATUS_LEDGER_FULL => exists result m, asked result m /\ disposition m = kLedgerFull
  | PUT_STATUS_STORAGE_ERROR => log = [] \/ exists result m, asked result m /\
      (px_thrown p = true \/ outcome (mutation_result m) = kOutcomeNotApplied /\ disposition m <> kRequestIdConflict /\ disposition m <> kLedgerFull /\
         result <> Err EEXIST /\ result <> Err ESTALE /\ result <> Err ENOENT)
  end.

Lemma put_mapped_means stopping p result m :
  captured EVP_DigestInit_ex EVP_DigestUpdate EVP_DigestFinal_ex EVP_Digest p -> put_mapped p result m ->
  put_status_means stopping p [(asked_of p, Settled result m)].
Proof.
  unfold put_mapped. intros Hc Hm. unfold put_status_means. destruct (px_thrown p); [rewrite Hm; right; exists result, m; by auto|].
  destruct Hm as [detail E]. rewrite E. unfold MapMutationResult. destruct (disposition m) eqn:Ed; try (by exists result, m).
  all: destruct (outcome (mutation_result m)) eqn:Eo; cbn; try (by exists result, m).
  all: destruct result as [[]|[]]; cbn; try (by exists m); right; eexists _, m; (split; [done|]); right; by rewrite Ed.
Qed.

Lemma put_refused_means stopping p status detail : px_response p = mkPutResponse status None None detail ->
  put_refusal EVP_DigestInit_ex EVP_DigestUpdate EVP_DigestFinal_ex EVP_Digest stopping p status -> put_status_means stopping p [].
Proof. intros E H. unfold put_status_means. rewrite E. cbn. destruct status; cbn in H; first [by split|by left|done]. Qed.

(** What a status of GetObject and StatObject says. *)
Definition read_status_means (stopping : bool) (r : ReadContext) (log : list (request * response)) : Prop :=
  let asked (result : result errno (bytes * ObjectStat)) :=
    match rx_kind r with
    | GetKind => log = [(Fetch (rx_key r), Contents result)]
    | StatKind => log = [(Query (rx_key r), Status (match result with Ok (_, stat) => Ok stat | Err er => Err er end))]
    end in
  match rr_status (rx_response r) with
  | READ_STATUS_OK => exists payload stat, asked (Ok (payload, stat)) /\ rr_metadata (rx_response r) = Some (SetMetadata stat) /\
      rx_attachment r = match rx_kind r with GetKind => payload | StatKind => [] end
  | READ_STATUS_INVALID_ARGUMENT => log = [] /\ rx_key r = []
  | READ_STATUS_OVERLOADED => log = []
  | READ_STATUS_SERVER_STOPPING => log = [] /\ stopping = true
  | READ_STATUS_NOT_FOUND => asked (Err ENOENT)
  | READ_STATUS_STORAGE_ERROR => log = [] \/ exists result, asked result /\ (rx_thrown r = true \/ exists er, result = Err er /\ er <> ENOENT)
  end.

Lemma read_mapped_means stopping r log result : read_mapped r (match result with Ok (_, stat) => Ok stat | Err er => Err er end) ->
  rx_attachment r = match rx_kind r with GetKind => match result with Ok (payload, _) => payload | Err _ => [] end | StatKind => [] end ->
  log = match rx_kind r with
    | GetKind => [(Fetch (rx_key r), Contents result)]
    | StatKind => [(Query (rx_key r), Status (match result with Ok (_, stat) => Ok stat | Err er => Err er end))]
    end -> read_status_means stopping r log.
Proof.
  unfold read_mapped. intros Hm Ha ->. unfold read_status_means. destruct (rx_thrown r).
  - rewrite Hm. right. exists result. split; [by destruct (rx_kind r)|by left].
  - destruct Hm as [detail E]. rewrite E. destruct result as [[payload stat]|er]; cbn.
    + exists payload, stat. rewrite Ha. by destruct (rx_kind r).
    + destruct er; cbn; try (by destruct (rx_kind r)); right; eexists (Err _); (split; [by destruct (rx_kind r)|]); right; by eexists.
Qed.

Lemma read_executed_means stopping r log :
  executed_context EVP_DigestInit_ex EVP_DigestUpdate EVP_DigestFinal_ex EVP_Digest (ReadOf r) log -> read_status_means stopping r log.
Proof.
  unfold executed_context. destruct (rx_kind r) eqn:Ek.
  - intros (result & -> & Ha & Hm). eapply (read_mapped_means _ _ _ result); rewrite ?Ek; done.
  - intros (result & -> & Ha & Hm).
    apply (read_mapped_means _ _ _ (match result with Ok stat => Ok ([], stat) | Err er => Err er end)); rewrite ?Ek; by destruct result.
Qed.

(** C7. Every call is answered at most once, and the answer is true. In every state
    any interleaving reaches: done of a call has run at most once, and before it
    ran nothing was asked of the backend. The status of an answered call says what
    became of it. PutObject: OK only if the backend was asked exactly once, with
    the payload whose digest the request carried and the fingerprint of the
    request, and committed it under the version in the response; the statuses for
    an existing object, a wrong version, a missing object only for a refusal of the
    backend that changed nothing; "unknown", "Request-ID conflict" and "ledger full"
    only for that answer of the backend; invalid, overloaded and stopping only if
    the backend never heard of the call, "invalid" only for an unacceptable request
    and "stopping" only after Shutdown was called; "storage error" only if the
    backend never heard of the call or refused it for another reason and changed
    nothing, or if an exception was thrown after the backend had answered (then the
    request may have been committed). GetObject and StatObject: OK only with what
    the backend answered, "not found" only for ENOENT, "storage error" only without
    a request to the backend, for another error, or after such an exception. *)
Theorem answers_are_true b o sv n c :
  u64 (max_inflight_bytes o) -> rtc step (new_service b o) sv -> sv_calls (sv_shared sv) !! n = Some c ->
  let log := entries n (sv_executed (sv_shared sv)) in
  let stopping := sv_stopping (sv_shared sv) in
  (cl_runs c <= 1)%nat /\ (cl_runs c = 0%nat -> log = []) /\
  (cl_runs c = 1%nat ->
    match cl_failed c, cl_context c with
    | Some er, _ => er = EINVAL /\ cl_arguments c = false /\ log = []
    | None, PutOf p => put_status_means stopping p log
    | None, ReadOf r => read_status_means stopping r log
    end).
Proof.
  intros Hu H Hc log stopping. destruct (reachable_answer b o sv n c Hu H Hc) as [[Hr Hl]|[Hr Ha]]; rewrite Hr.
  - conj_split; [lia|done|lia].
  - conj_split; [lia|lia|]. intros _. fold log stopping in Ha. destruct Ha as [(-> & Harg & Hl)|(-> & Ha)]; [done|].
    destruct (cl_context c) as [p|r].
    + destruct Ha as [[-> (status & detail & E & Hs)]|(Hcap & result & m & -> & Hm)]; [by eapply put_refused_means|by apply put_mapped_means].
    + destruct Ha as [[-> (_ & status & detail & E & Hs)]|He]; [|by apply read_executed_means].
      unfold read_status_means. rewrite E. destruct status; cbn in *; first [by split|by left|done].
Qed.

(** * The backend under the service *)
(** Executing a task asks the backend nothing, or serves one request. *)
Definition serves_one (ch : choice) (s s' : backend_state) (asked : list (request * response)) : Prop :=
  (asked = [] /\ s' = s) \/ exists q resp e', asked = [(q, resp)] /\
    serve (ch_oom ch) q (s.1, mkEnv s.2 size (ch_script ch) []) = ((s'.1, e'), resp) /\ s'.2 = disk e'.

Lemma execute_put_serves ch p s s' p' recorded asked : execute_put size ch p s = (s', p', recorded, asked) -> serves_one ch s s' asked.
Proof.
  unfold execute_put. destruct (ch_throw ch); [intros [= <- _ _ <-]; by left|]. destruct (ch_short ch); [intros [= <- _ _ <-]; by left|].
  intros E. right. unfold with_backend in E. destruct (rq_precondition (px_request p)).
  2: destruct (PutIfAbsentIdempotent _ _ _ _ _ _) as [[b e] [result m]] eqn:Er; destruct (ch_throw_after ch) as [[late what]|]; injection E as <- _ _ <-;
     exists (PutOnce (rq_key (px_request p)) (concat (px_attachment p)) (rq_timestamp_ns (px_request p)) (px_identity p)), (Settled result m), e.
  1,4: destruct (ReplaceIfVersionIdempotent _ _ _ _ _ _ _) as [[b e] [result m]] eqn:Er; destruct (ch_throw_after ch) as [[late what]|]; injection E as <- _ _ <-;
     exists (ReplaceOnce (rq_key (px_request p)) (expected_of (px_request p)) (concat (px_attachment p)) (rq_timestamp_ns (px_request p)) (px_identity p)), (Settled result m), e.
  all: conj_split; [done| |done]; cbn [serve fst snd]; by rewrite Er.
Qed.

Lemma execute_read_serves ch r s s' r' recorded asked : execute_read size ch r s = (s', r', recorded, asked) -> serves_one ch s s' asked.
Proof.
  unfold execute_read. destruct (ch_throw ch); [intros [= <- _ _ <-]; by left|].
  intros E. right. unfold with_backend in E. destruct (rx_kind r).
  - destruct (Get _ _) as [[b e] result] eqn:Er. exists (Fetch (rx_key r)), (Contents result), e.
    destruct result as [[payload stat]|er], (ch_throw_after ch) as [[late what]|]; injection E as <- _ _ <-; (conj_split; [done| |done]); cbn [serve fst snd]; by rewrite Er.
  - destruct (Stat _ _) as [[b e] result] eqn:Er. exists (Query (rx_key r)), (Status result), e.
    destruct (ch_throw_after ch) as [[late what]|]; injection E as <- _ _ <-; (conj_split; [done| |done]); cbn [serve fst snd]; by rewrite Er.
Qed.

Lemma run_executes ch t c s t' s' more : active t = true -> finish_task size true ch t c s = (t', s', more) ->
  exists asked, sv_executed s' = sv_executed s ++ map (pair (t_id t)) asked /\ serves_one ch (sv_backend s) (sv_backend s') asked.
Proof.
  intros Ha E. unfold finish_task, FinishBegin in E. rewrite Ha in E. destruct (execute _ _ _ _) as [[[b x] recorded] asked] eqn:Ex.
  injection E as _ <- _. exists asked. split; [done|]. unfold execute in Ex. destruct (cl_context c) as [p|r]; cbn [sv_backend add_executed add_metrics set_call set_backend].
  - destruct (execute_put _ _ _ _) as [[[b1 p1] rec1] log1] eqn:E1. injection Ex as <- _ _ <-. by eapply execute_put_serves.
  - destruct (execute_read _ _ _ _) as [[[b1 r1] rec1] log1] eqn:E1. injection Ex as <- _ _ <-. by eapply execute_read_serves.
Qed.

Definition same_backend (s s' : shared) : Prop := sv_backend s' = sv_backend s /\ sv_executed s' = sv_executed s.

(** Only a worker with a task touches the backend. *)
Lemma move_backend ch j th s th' s' : thread_ok th -> move ch j th s = Some (th', s') ->
  same_backend s s' \/ exists writer t asked, th = Holding writer t /\
    sv_executed s' = sv_executed s ++ map (pair (t_id t)) asked /\ serves_one ch (sv_backend s) (sv_backend s') asked.
Proof.
  intros Hok E.
  assert (forall t c t' s1 more, finish_task size false ch t c s = (t', s1, more) -> same_backend s s1) as Hcancel.
  { intros t c t' s1 more. unfold finish_task, FinishBegin. destruct (active t); by intros [= _ <- _]. }
  destruct th as [m|m|m lease|t|t|t| |w|w t|w t|w| | |p|[|t p]|t p| |]; cbn [advance] in E; try done.
  - left. destruct (sv_calls s !! m) as [c|]; [|done]. apply (inj Some) in E. unfold enter in E. destruct (negb _); [by injection E as _ <-|].
    destruct (cl_context c) as [p|r]; [destruct (enter_put _ _) as [p' [|]]; by injection E as _ <-|].
    destruct (enter_read _ _) as [r' [|]]; cbn [negb] in E; [|by injection E as _ <-].
    destruct (admit_read _ _ _) as [[r1 rec] [t|lease]]; by injection E as _ <-.
  - left. destruct (sv_calls s !! m) as [c|]; [|done]. cbn [mbind option_bind] in E. destruct (cl_context c); [|done]. apply (inj Some) in E.
    unfold admission_step in E. destruct (admit_put _ _ _ _ _ _ _ _) as [[[limiter p'] recorded] [t|lease]]; by injection E as _ <-.
  - left. destruct (sv_calls s !! m) as [c|]; [|done]. by injection E as _ <-.
  - left. destruct (sv_calls s !! t_id t) as [c|]; [|done]. apply (inj Some) in E. unfold offer in E.
    destruct (TryEnqueue _ _ _) as [[q t'] res]. destruct (match cl_context c with PutOf _ => _ | ReadOf _ => _ end) as [x recorded].
    by destruct res; injection E as _ <-; destruct (is_put _).
  - left. destruct (sv_calls s !! t_id t) as [c|]; [|done]. cbn [mbind option_bind] in E.
    destruct (finish_task _ _ _ _ _ _) as [[t' s1] more] eqn:Ef. injection E as _ <-. by eapply Hcancel.
  - left. by injection E as _ <-.
  - left. destruct (pop_ready _); [|done]. destruct (WaitPop _) as [q [t|]]; injection E as _ <-; by destruct w.
  - right. destruct (sv_calls s !! t_id t) as [c|]; [|done]. cbn [mbind option_bind] in E.
    destruct (finish_task _ _ _ _ _ _) as [[t' s1] more] eqn:Ef. injection E as _ <-. destruct (run_executes _ _ _ _ _ _ _ Hok Ef) as (asked & H1 & H2).
    by exists w, t, asked.
  - left. by injection E as _ <-.
  - left. by injection E as _ <-.
  - left. by injection E as _ <-.
  - left. by injection E as _ <-.
  - left. destruct j; [|done]. by injection E as _ <-.
  - left. destruct (sv_calls s !! t_id t) as [c|]; [|done]. cbn [mbind option_bind] in E.
    destruct (finish_task _ _ _ _ _ _) as [[t' s1] more] eqn:Ef. injection E as _ <-. by eapply Hcancel.
  - left. by injection E as _ <-.
Qed.

Lemma shutdown_final limit sv sv' : u64 limit -> rtc step sv sv' -> invariant limit sv -> ShutdownReturned ∈ sv_threads sv ->
  same_backend (sv_shared sv) (sv_shared sv') /\ invariant limit sv' /\ ShutdownReturned ∈ sv_threads sv'.
Proof.
  intros Hu Hr. induction Hr as [sv|sv sv1 sv' Hs _ IH]; intros Hiv Hin; [done|].
  assert (same_backend (sv_shared sv) (sv_shared sv1) /\ ShutdownReturned ∈ sv_threads sv1) as [[E1 E2] Hin1].
  { assert (forallb has_ended (sv_threads sv) = true) as Hj by (apply (iv_joined _ _ _ _ _ _ Hiv), Exists_exists; by exists ShutdownReturned).
    destruct Hs as [ch i th s l th' s' Hi E|? ? ? s l|? ? ? s l|s l]; cbn [sv_shared sv_threads] in *; [|split; [done|]; by apply elem_of_app; left..].
    pose proof (Forall_lookup_1 _ _ _ _ (iv_threads _ _ _ _ _ _ Hiv) Hi) as Hok. split.
    - destruct (move_backend _ _ _ _ _ _ Hok E) as [Hsame|(w & t & asked & -> & _)]; [done|]. exfalso.
      rewrite forallb_forall in Hj. by discriminate (Hj _ (proj1 (list_elem_of_In _ _) (list_elem_of_lookup_2 _ _ _ Hi))).
    - apply list_elem_of_lookup in Hin as [k Hk]. apply list_elem_of_lookup. exists k.
      destruct (decide (i = k)) as [<-|Hne]; [|by rewrite list_lookup_insert_ne]. rewrite Hi in Hk. injection Hk as ->. done. }
  assert (invariant limit sv1) as Hiv1 by (by eapply step_inv). destruct (IH Hiv1 Hin1) as ([E3 E4] & Hiv' & Hin').
  split; [split; congruence|done].
Qed.

(** C8. Shutdown is final. Once Shutdown has returned to the caller that stopped the
    service, whatever arrives or moves afterwards: the backend is never asked again
    and does not change, no task is queued, and a call that is answered from then on
    is answered without the backend. *)
Theorem shutdown_is_final b o sv sv' :
  u64 (max_inflight_bytes o) -> rtc step (new_service b o) sv -> ShutdownReturned ∈ sv_threads sv -> rtc step sv sv' ->
  same_backend (sv_shared sv) (sv_shared sv') /\ queued_write_tasks sv' = 0%nat /\ queued_read_tasks sv' = 0%nat /\
  forall n c, sv_calls (sv_shared sv) !! n = None -> sv_calls (sv_shared sv') !! n = Some c -> cl_failed c = None -> cl_runs c = 1%nat ->
    match cl_context c with
    | PutOf p => pr_status (px_response p) <> PUT_STATUS_OK
    | ReadOf r => rr_status (rx_response r) <> READ_STATUS_OK
    end.
Proof.
  intros Hu H Hin Hr. pose proof (reachable_inv _ _ _ _ _ _ _ _ Hu H) as Hiv. destruct (shutdown_final _ _ _ Hu Hr Hiv Hin) as ([E1 E2] & Hiv' & Hin').
  assert (forall w, tasks_ (queue_of w (sv_shared sv')) = []) as Hq.
  { intros w. pose proof (proj1 (Forall_forall _ _) (iv_shutdown _ _ _ _ _ _ Hiv') _ Hin') as [_ Hs]. apply (iv_stopped _ _ _ _ _ _ Hiv'), Hs. }
  unfold queued_write_tasks, queued_read_tasks. conj_split; [done|by apply (f_equal length (Hq true))|by apply (f_equal length (Hq false))|].
  intros n c Hn Hc Hf Hrun. destruct (reachable_answer b o sv' n c Hu (transitivity H Hr) Hc) as [[Hz _]|[_ Ha]]; [congruence|].
  assert (entries n (sv_executed (sv_shared sv')) = []) as Hl.
  { rewrite E2. pose proof (iv_stages _ _ _ _ _ _ Hiv n) as Hst. rewrite Hn in Hst. apply Hst. }
  rewrite Hl in Ha. destruct Ha as [(Hf' & _)|(_ & [[_ Ha]|Ha])]; [congruence| |].
  - destruct (cl_context c); [destruct Ha as (status & d & -> & Hs)|destruct Ha as (_ & status & d & -> & Hs)]; cbn; intros ->; done.
  - exfalso. destruct (cl_context c) as [p|r]; cbn in Ha; [by destruct Ha as (_ & ? & ? & ? & _)|]. destruct (rx_kind r); by destruct Ha as (? & ? & _).
Qed.

(** * The service and the store *)
Section refinement.
Context (sb : Superblock) (path : bytes) (options : ObjectBackendOptions).
Context (Hpath : options_ok path options) (Howner : u32 (opt_uid options) /\ u32 (opt_gid options)).

Definition labels (log : list (nat * (request * response))) : list label := map (fun entry => Served entry.2.1 entry.2.2) log.

(** A step in which the backend, if it is asked anything, is asked for something
    the store is specified for, other than to replace the ledger file, and stays
    open. *)
Definition orderly (sv sv' : ObjectServiceImpl) : Prop :=
  step sv sv' /\ forall n q resp, sv_executed (sv_shared sv') = sv_executed (sv_shared sv) ++ [(n, (q, resp))] ->
    (forall r script, CheckUsableLocked (sv_backend (sv_shared sv)).1 = Ok r ->
       admissible (sv_backend (sv_shared sv)).1 (mkEnv (sv_backend (sv_shared sv)).2 size script []) r q /\
       spares (sv_backend (sv_shared sv)).1 (sv_backend (sv_shared sv)).2 r q) /\
    usable (sv_backend (sv_shared sv')).1 = true.

Definition backs (st : store) (s : shared) : Prop := st_backend st = (sv_backend s).1 /\ st_image st = (sv_backend s).2.

Lemma orderly_simulated limit sv sv' st : invariant limit sv -> orderly sv sv' -> store_ok sb size options st -> backs st (sv_shared sv) ->
  exists st' new, sv_executed (sv_shared sv') = sv_executed (sv_shared sv) ++ new /\ backs st' (sv_shared sv') /\
    store_run sb size path spares_ledger st (labels new) st' /\ store_ok sb size options st' /\
    forall s s', shows st s -> shows st' s' -> shown_run sb options s (labels new) s'.
Proof.
  intros Hiv [Hs Hord] Hst [Eb Ei].
  assert (forall s', same_backend (sv_shared sv) s' -> exists st' new, sv_executed s' = sv_executed (sv_shared sv) ++ new /\ backs st' s' /\
    store_run sb size path spares_ledger st (labels new) st' /\ store_ok sb size options st' /\
    forall s s', shows st s -> shows st' s' -> shown_run sb options s (labels new) s') as Hsame.
  { intros s' [E1 E2]. exists st, []. rewrite app_nil_r. conj_split; try done; [unfold backs; by rewrite E1|constructor|].
    intros s0 s1 H0 H1. rewrite (shows_unique _ _ _ H0 H1). constructor. }
  destruct Hs as [ch i th s l th' s' Hi E|? ? ? s l|? ? ? s l|s l]; cbn [sv_shared sv_threads] in *; try (by apply Hsame).
  destruct (move_backend _ _ _ _ _ _ (Forall_lookup_1 _ _ _ _ (iv_threads _ _ _ _ _ _ Hiv) Hi) E) as [?|(w & t & asked & _ & Ee & Hone)]; [by apply Hsame|].
  destruct Hone as [[-> Eq]|(q & resp & e' & -> & Eserve & Eimg)]; [apply Hsame; split; [done|]; by rewrite Ee, app_nil_r|].
  destruct (Hord _ _ _ Ee) as [Hadm Husable]. destruct st as [b d v]. cbn in Eb, Ei. rewrite <- Eb, <- Ei in *.
  exists (mkStore (sv_backend s').1 (disk e') (foldl settle v (trace e'))), [(t_id t, (q, resp))].
  assert (store_step sb size path (mkStore b d v) (Served q resp) (mkStore (sv_backend s').1 (disk e') (foldl settle v (trace e')))) as Hstep.
  { eapply step_served; [|exact Eserve|exact Husable]. intros r Hr. exact (proj1 (Hadm r _ Hr)). }
  assert (spares_ledger (mkStore b d v) q) as Hsp by (intros r Hr; exact (proj2 (Hadm r [] Hr))).
  destruct (store_simulation _ _ _ _ Hpath Howner _ (Served q resp) _ Hst Hsp Hstep) as [Hok' Hsim]. conj_split.
  - exact Ee.
  - split; [done|]. by cbn.
  - econstructor; [exact Hsp|exact Hstep|constructor].
  - exact Hok'.
  - intros s0 s1 H0 H1. econstructor; [by apply Hsim|constructor].
Qed.

Lemma store_run_app st ls st1 ls' st' : store_run sb size path spares_ledger st ls st1 -> store_run sb size path spares_ledger st1 ls' st' -> store_run sb size path spares_ledger st (ls ++ ls') st'.
Proof. induction 1; [done|]. intros H'. cbn. econstructor; eauto. Qed.
Lemma shown_run_app s ls s1 ls' s' : shown_run sb options s ls s1 -> shown_run sb options s1 ls' s' -> shown_run sb options s (ls ++ ls') s'.
Proof. induction 1; [done|]. intros H'. cbn. econstructor; eauto. Qed.

Lemma orderly_run limit sv sv' st : u64 limit -> rtc orderly sv sv' -> invariant limit sv -> store_ok sb size options st -> backs st (sv_shared sv) ->
  exists st' new, sv_executed (sv_shared sv') = sv_executed (sv_shared sv) ++ new /\ backs st' (sv_shared sv') /\
    store_run sb size path spares_ledger st (labels new) st' /\ store_ok sb size options st' /\
    forall s s', shows st s -> shows st' s' -> shown_run sb options s (labels new) s'.
Proof.
  intros Hu Hr. revert st. induction Hr as [sv|sv sv1 sv' Hs _ IH]; intros st Hiv Hst Hb.
  - exists st, []. rewrite app_nil_r. conj_split; try done; [constructor|]. intros s0 s1 H0 H1. rewrite (shows_unique _ _ _ H0 H1). constructor.
  - destruct (orderly_simulated _ _ _ _ Hiv Hs Hst Hb) as (st1 & new1 & E1 & Hb1 & Hr1 & Hst1 & Hsh1).
    assert (invariant limit sv1) as Hiv1 by (eapply step_inv; [done|apply Hs|done]).
    destruct (IH st1 Hiv1 Hst1 Hb1) as (st' & new & E & Hb' & Hr' & Hst' & Hsh'). exists st', (new1 ++ new).
    assert (labels (new1 ++ new) = labels new1 ++ labels new) as -> by apply map_app. conj_split; try done.
    + by rewrite E, E1, app_assoc.
    + by eapply store_run_app.
    + intros s s' H0 H'. destruct (store_ok_shows _ _ _ _ Hst1) as [s1 H1]. eapply shown_run_app; [by apply Hsh1|by apply Hsh'].
Qed.

Lemma log_entries_in n q resp log : entries n log = [(q, resp)] -> Served q resp ∈ labels log.
Proof.
  intros E. assert ((q, resp) ∈ entries n log) as H by (rewrite E; by left).
  unfold entries in H. apply list_elem_of_fmap in H as ([n' a] & Ha & Hin). apply list_elem_of_filter in Hin as [_ Hin].
  apply list_elem_of_fmap. exists (n', a). split; [|done]. cbn in *. by rewrite <- Ha.
Qed.

(** C5. The service is a front of the abstract store. Start it on a store that
    satisfies its invariant and let any number of calls, workers and Shutdown
    interleave, as long as every request that reaches the backend ([orderly]) leaves
    it open, is typed ([admissible]) and does not replace the ledger file (which
    PutObject would do, if asked to): the backend is then a store reached by a run of exactly the noted requests, one
    after the other, and that is a run of the abstract store of files and recorded
    requests. Every PutObject that was answered with OK is a request of this run, with
    its key, payload, precondition and identity, whose outcome is "committed" under
    the version the caller was told. *)
Theorem service_refines o st sv :
  u64 (max_inflight_bytes o) -> store_ok sb size options st -> rtc orderly (new_service (st_backend st, st_image st) o) sv ->
  let log := sv_executed (sv_shared sv) in
  exists st', backs st' (sv_shared sv) /\ store_ok sb size options st' /\ store_run sb size path spares_ledger st (labels log) st' /\
    (forall s s', shows st s -> shows st' s' -> shown_run sb options s (labels log) s') /\
    (forall n c p, sv_calls (sv_shared sv) !! n = Some c -> cl_failed c = None -> cl_context c = PutOf p -> cl_runs c = 1%nat ->
       pr_status (px_response p) = PUT_STATUS_OK -> exists result m, Served (asked_of p) (Settled result m) ∈ labels log /\
         outcome (mutation_result m) = kOutcomeCommitted /\ pr_committed_version (px_response p) = Some (committed_version (mutation_result m))).
Proof.
  intros Hu Hst Hr log. pose proof (new_service_inv EVP_DigestInit_ex EVP_DigestUpdate EVP_DigestFinal_ex EVP_Digest (st_backend st, st_image st) o Hu) as Hiv.
  destruct (orderly_run _ _ _ st Hu Hr Hiv Hst (conj eq_refl eq_refl)) as (st' & new & E & Hb & Hrun & Hst' & Hsh). cbn in E. fold log in E.
  exists st'. rewrite E. conj_split; try done. intros n c p Hc Hf Hx Hrn Hok.
  assert (rtc step (new_service (st_backend st, st_image st) o) sv) as Hreach.
  { clear -Hr. induction Hr as [|? ? ? [H12 _] _ IH]; [apply rtc_refl|by eapply rtc_l]. }
  destruct (reachable_answer _ _ _ _ _ Hu Hreach Hc) as [[Hz _]|[_ Ha]]; [congruence|]. fold log in Ha. rewrite E in Ha.
  destruct Ha as [(Hf' & _)|(_ & Ha)]; [congruence|]. rewrite Hx in Ha.
  destruct Ha as [[_ (status & d & Er & Hs)]|(Hcap & result & m & El & Hm)]; [rewrite Er in Hok; cbn in Hok; by subst|].
  pose proof (put_mapped_means true p result m Hcap Hm) as Hmeans. unfold put_status_means in Hmeans. rewrite Hok in Hmeans.
  destruct Hmeans as (result' & m' & (_ & [= <- <-]) & Ho & Hv). exists result, m. conj_split; try done. by eapply log_entries_in.
Qed.
End refinement.
End service.

(** * Runs *)
Definition demo_update (c : bytes) (data : bytes) : option bytes := Some (c ++ data).
Definition demo_final (c : bytes) : option bytes := Some (take 32 (c ++ zeros 32)).
Definition demo_digest (data : bytes) : option bytes := Some (take 32 (data ++ zeros 32)).
Definition demo_step := service_step (Some []) demo_update demo_final demo_digest 4096.
Definition demo_options : ObjectServiceOptions := mkServiceOptions 100 2 2 1.
(** A backend that has failed answers EIO. *)
Definition demo_backend : backend_state := (mkBackend (mkOptions 420 0 0) None None (Some EIO), ∅).

(** The threads move in the given order. *)
Definition move_at (i : nat) (sv : ObjectServiceImpl) : option ObjectServiceImpl :=
  th ← sv_threads sv !! i;
  '(th', s') ← advance (Some []) demo_update demo_final demo_digest 4096 any_choice (forallb has_ended (sv_threads sv)) th (sv_shared sv);
  Some (mkServiceImpl s' (<[i := th']> (sv_threads sv))).
Fixpoint moves (order : list nat) (sv : ObjectServiceImpl) : option ObjectServiceImpl :=
  match order with [] => Some sv | i :: order => sv' ← move_at i sv; moves order sv' end.

Lemma moves_steps order sv sv' : moves order sv = Some sv' -> rtc demo_step sv sv'.
Proof.
  revert sv. induction order as [|i order IH]; intros sv; cbn [moves]; [intros [= ->]; apply rtc_refl|].
  destruct (move_at i sv) as [sv1|] eqn:E; [|done]. cbn. intros H. eapply rtc_l; [|by apply IH]. destruct sv as [s l].
  unfold move_at in E. cbn [sv_threads sv_shared] in E. destruct (l !! i) as [th|] eqn:Hi; [|done]. cbn in E.
  destruct (advance _ _ _ _ _ _ _ _ _) as [[th' s']|] eqn:Ea; [|done]. injection E as <-. by eapply a_thread_moves.
Qed.

Definition arrived (request : PutObjectRequest) (attachment : list bytes) (sv : ObjectServiceImpl) : ObjectServiceImpl :=
  mkServiceImpl (add_call (new_call true (new_put request attachment)) (sv_shared sv)) (sv_threads sv ++ [Entered (length (sv_calls (sv_shared sv)))]).
Lemma arrived_step request attachment sv : demo_step sv (arrived request attachment sv).
Proof. destruct sv. apply a_put_arrives. Qed.

Definition demo_payload : list bytes := [[1; 2]; [3]].
Definition demo_request : PutObjectRequest := mkPutRequest [97] 3 ([1; 2; 3] ++ zeros 29) 7 CreateIfAbsent (replicate 16 9).
Definition demo_start : ObjectServiceImpl := new_service demo_backend demo_options.

(** The call is admitted, queued, taken by the write worker and executed. *)
Definition demo_answered : option ObjectServiceImpl := moves [2; 2; 2; 0; 0]%nat (arrived demo_request demo_payload demo_start).

Lemma service_comes_to_rest_witness :
  exists sv', rtc (thread_step (Some []) demo_update demo_final demo_digest 4096) (arrived demo_request demo_payload demo_start) sv' /\ idle sv'.
Proof.
  refine (proj2 (proj2 (service_comes_to_rest (Some []) demo_update demo_final demo_digest 4096 demo_backend demo_options _ _ _ _))).
  - split; vm_compute; congruence.
  - vm_compute. reflexivity.
  - apply rtc_once, arrived_step.
Defined.

Lemma answers_are_true_witness : exists sv c, demo_answered = Some sv /\ sv_calls (sv_shared sv) !! 0%nat = Some c /\ cl_runs c = 1%nat /\
  match cl_context c with PutOf p => pr_status (px_response p) = PUT_STATUS_STORAGE_ERROR | _ => False end /\
  match cl_context c with
  | PutOf p => put_status_means (Some []) demo_update demo_final demo_digest false p (entries 0 (sv_executed (sv_shared sv)))
  | _ => False
  end.
Proof.
  destruct demo_answered as [sv|] eqn:E; [|vm_compute in E; discriminate E]. pose proof E as E'. vm_compute in E'. injection E' as E'.
  subst sv. eexists. eexists. split; [reflexivity|]. split; [reflexivity|]. split; [reflexivity|]. split; [reflexivity|].
  assert (u64 (max_inflight_bytes demo_options)) as Hu by (split; vm_compute; congruence).
  pose proof (rtc_l _ _ _ _ (arrived_step demo_request demo_payload demo_start) (moves_steps _ _ _ E)) as Hreach.
  exact (proj2 (proj2 (answers_are_true (Some []) demo_update demo_final demo_digest 4096 demo_backend demo_options _ 0 _ Hu Hreach eq_refl)) eq_refl).
Defined.

(** Shutdown runs to its end, and a call arrives afterwards. *)
Definition demo_stopped : option ObjectServiceImpl :=
  moves [2; 2; 2; 0; 1; 2]%nat (mkServiceImpl (sv_shared demo_start) (sv_threads demo_start ++ [ShutdownCalled])).

Lemma shutdown_is_final_witness : exists sv sv', demo_stopped = Some sv /\ moves [3; 3]%nat (arrived demo_request demo_payload sv) = Some sv' /\
  same_backend (sv_shared sv) (sv_shared sv').
Proof.
  destruct demo_stopped as [sv|] eqn:E; [|vm_compute in E; discriminate E]. pose proof E as E'. vm_compute in E'. injection E' as E'.
  assert (ShutdownReturned ∈ sv_threads sv) as Hin by (rewrite <- E'; apply elem_of_cons; right; apply elem_of_cons; right; apply elem_of_cons; by left).
  destruct (moves [3; 3]%nat (arrived demo_request demo_payload sv)) as [sv'|] eqn:E1; [|rewrite <- E' in E1; vm_compute in E1; discriminate E1].
  exists sv, sv'. split; [reflexivity|]. split; [exact E1|].
  assert (u64 (max_inflight_bytes demo_options)) as Hu by (split; vm_compute; congruence).
  pose proof (rtc_l _ _ _ _ (a_shutdown_arrives (Some []) demo_update demo_final demo_digest 4096 (sv_shared demo_start) (sv_threads demo_start))
    (moves_steps _ _ _ E)) as H1.
  pose proof (rtc_l _ _ _ _ (arrived_step demo_request demo_payload sv) (moves_steps _ _ _ E1)) as H2.
  exact (proj1 (shutdown_is_final (Some []) demo_update demo_final demo_digest 4096 demo_backend demo_options sv sv' Hu H1 Hin H2)).
Defined.

(** A call of PutObject that repeats a recorded request, on a store. The digest of
    the fingerprint is the one in the record. *)
Definition replay_digest (data : bytes) : option bytes := Some (fingerprint (RequestLedgerProofs.record0 1)).
Definition replay_request : PutObjectRequest :=
  mkPutRequest [103] 3 ([1; 2; 3] ++ zeros 29) 7 CreateIfAbsent (request_id (RequestLedgerProofs.record0 1)).
Definition replay_start : ObjectServiceImpl := new_service (st_backend store3, st_image store3) demo_options.
Abbreviation replay_step := (orderly (Some []) demo_update demo_final replay_digest size0).

Lemma quiet_orderly sv sv' : service_step (Some []) demo_update demo_final replay_digest size0 sv sv' ->
  sv_executed (sv_shared sv') = sv_executed (sv_shared sv) -> replay_step sv sv'.
Proof.
  intros H E. split; [done|]. intros n q resp E'. rewrite E in E'. apply (f_equal length) in E'. rewrite length_app in E'. cbn in E'. lia.
Qed.

(** What the worker does. *)
Definition replay_context : PutContext :=
  mkPutContext replay_request demo_payload (mkIdentity (request_id (RequestLedgerProofs.record0 1)) (fingerprint (RequestLedgerProofs.record0 1))) new_put_response
    PUT_STATUS_SERVER_STOPPING stopping_text false.
Definition replay_answer : response :=
  Settled (Ok tt) (mkIdempotent (mkMutationResult kOutcomeCommitted (mkVersion 7 1) no_version) kReplayed).

Lemma replay_executes t c s : active t = true -> cl_context c = PutOf replay_context -> sv_backend s = (backend3, img3) ->
  exists s', finish_task size0 true any_choice t c s = (mkTask (t_id t) (byte_lease t) false, s', true) /\
    sv_executed s' = sv_executed s ++ [(t_id t, (put3, replay_answer))] /\ sv_backend s' = (backend3, img3) /\
    sv_calls s' = sv_calls (set_call (t_id t) (CompletionRun (with_context (PutOf
      (put_noted false (put_response (fun _ => mkPutResponse PUT_STATUS_OK (Some (mkVersion 7 1)) None []) replay_context))) c)) s).
Proof.
  intros Ha Ec Eb. unfold finish_task, FinishBegin. rewrite Ha, Ec, Eb. eexists. split; [reflexivity|]. done.
Qed.

Lemma replay_run : exists sv c, rtc replay_step replay_start sv /\ sv_executed (sv_shared sv) = [(0%nat, (put3, replay_answer))] /\
  sv_calls (sv_shared sv) !! 0%nat = Some c /\ cl_failed c = None /\ cl_runs c = 1%nat /\
  cl_context c = PutOf (put_noted false (put_response (fun _ => mkPutResponse PUT_STATUS_OK (Some (mkVersion 7 1)) None []) replay_context)).
Proof.
  set (t := MakeTask 0 (Some 3) true true). set (c := with_context (PutOf replay_context) (Adopt (new_call true (new_put replay_request demo_payload)))).
  assert (exists s1, rtc replay_step replay_start (mkServiceImpl s1 [Holding true t; Waiting false; Returned]) /\
    sv_calls s1 = [c] /\ sv_backend s1 = (backend3, img3) /\ sv_executed s1 = []) as (s1 & Hr & Hc & Hb & He).
  { eexists. split.
    - eapply rtc_l; [apply quiet_orderly; [apply (a_put_arrives _ _ _ _ _ true replay_request demo_payload)|reflexivity]|].
      eapply rtc_l; [apply quiet_orderly; [eapply (a_thread_moves _ _ _ _ _ any_choice 2); reflexivity|reflexivity]|].
      eapply rtc_l; [apply quiet_orderly; [eapply (a_thread_moves _ _ _ _ _ any_choice 2); reflexivity|reflexivity]|].
      eapply rtc_l; [apply quiet_orderly; [eapply (a_thread_moves _ _ _ _ _ any_choice 2); reflexivity|reflexivity]|].
      eapply rtc_l; [apply quiet_orderly; [eapply (a_thread_moves _ _ _ _ _ any_choice 0); reflexivity|reflexivity]|]. apply rtc_refl.
    - split; [reflexivity|]. split; reflexivity. }
  destruct (replay_executes t c s1 eq_refl eq_refl Hb) as (s' & Ef & Ee & Eb & Ek).
  eexists (mkServiceImpl s' [Releasing true (mkTask 0 (Some 3) false); Waiting false; Returned]), _. cbn [sv_shared]. rewrite Ee, He, Ek. cbn [sv_calls set_call]. rewrite Hc.
  split; [|split; [reflexivity|]; split; [reflexivity|]; split; [reflexivity|]; split; reflexivity].
  eapply rtc_r; [exact Hr|]. split.
  - eapply (a_thread_moves _ _ _ _ _ any_choice 0 _ _ [Holding true t; Waiting false; Returned] (Releasing true (mkTask 0 (Some 3) false))); [reflexivity|].
    cbn [advance t_id t MakeTask]. rewrite Hc. cbn [lookup list_lookup mbind option_bind]. fold c. change (mkTask 0 (Some 3) true) with t. by rewrite Ef.
  - intros n q resp E'. cbn [sv_shared] in *. rewrite Ee, He in E'. injection E' as _ <- <-. rewrite Eb, Hb. split; [|reflexivity].
    intros r script Hu. split; [by apply put3_admissible|exact I].
Qed.

(** The repeated creation is answered with OK, under the version in the record. *)
Lemma service_refines_witness : exists sv st', rtc replay_step replay_start sv /\
  backs st' (sv_shared sv) /\ store_run sb2 size0 path0 spares_ledger store3 (labels (sv_executed (sv_shared sv))) st' /\
  exists result m, Served put3 (Settled result m) ∈ labels (sv_executed (sv_shared sv)) /\ outcome (mutation_result m) = kOutcomeCommitted /\
    committed_version (mutation_result m) = mkVersion 7 1.
Proof.
  destruct replay_run as (sv & c & Hr & He & Hc & Hf & Hn & Hx). destruct options0_ok as [H1 H2].
  assert (u64 (max_inflight_bytes demo_options)) as Hu by (split; vm_compute; congruence).
  destruct (service_refines (Some []) demo_update demo_final replay_digest size0 sb2 path0 options0 H1 H2 demo_options store3 sv Hu store3_ok Hr)
    as (st' & Hb & _ & Hrun & _ & Hput).
  exists sv, st'. split; [exact Hr|]. split; [exact Hb|]. split; [exact Hrun|].
  destruct (Hput 0%nat c _ Hc Hf Hx Hn eq_refl) as (result & m & Hin & Hout & Hv). exists result, m. split; [exact Hin|]. split; [exact Hout|].
  injection Hv as Hv. symmetry. exact Hv.
Defined.
