(* ===== verification/Eufsck.v ===== *)
(** The program eufsck: the texts of a report (src/checker/consistency_report.cpp)
    and the command (src/checker/eufsck_command.h/.cpp, src/app/eufsck_main.cpp).
    The JSON report is read back by a reader of JSON written for this purpose. *)
From S2P Require Import Prelude Codec OndiskFormat Disk JournalStore ImageReader CheckReport CheckerGraph Checker CheckerScan.
From S2P Require Import JournalImage JournalStates JournalExample JournalTheorems ImageReaderProofs ReaderTheorems FileTheorems ConsistentImage CheckerSpec CheckerTheorems.
Open Scope Z_scope.

(** * Names *)
Definition ChineseVerdict (verdict : CheckVerdict) : bytes :=
  match verdict with
  | kHealthy => text "当前检查规则内健康"
  | kInconsistent => text "发现一致性问题"
  | kIncomplete => text "扫描不完整，不能给出完整结论"
  end.

Definition ChineseCompleteness (complete : bool) : bytes := if complete then text "完整" else text "不完整".

Definition ChineseScanStatus (status : ScanStatus) : bytes :=
  match status with
  | kComplete => text "完整"
  | kPartial => text "部分完成"
  | kAborted => text "已中止"
  end.

Definition ScanStatusName (status : ScanStatus) : bytes :=
  match status with kComplete => text "complete" | kPartial => text "partial" | kAborted => text "aborted" end.

Definition CheckVerdictName (verdict : CheckVerdict) : bytes :=
  match verdict with kHealthy => text "healthy" | kInconsistent => text "inconsistent" | kIncomplete => text "incomplete" end.

Definition IssueCodeName (code : IssueCode) : bytes :=
  match code with
  | kJournalRecoveryRequired => text "JOURNAL_RECOVERY_REQUIRED"
  | kMetadataBlockMarkedFree => text "METADATA_BLOCK_MARKED_FREE"
  | kInodeBitmapTailNotReserved => text "INODE_BITMAP_TAIL_NOT_RESERVED"
  | kBlockBitmapTailNotReserved => text "BLOCK_BITMAP_TAIL_NOT_RESERVED"
  | kRootInodeMarkedFree => text "ROOT_INODE_MARKED_FREE"
  | kRootInodeUndecodable => text "ROOT_INODE_UNDECODABLE"
  | kRootInodeNotDirectory => text "ROOT_INODE_NOT_DIRECTORY"
  | kDirectoryBlockOutOfRange => text "DIRECTORY_BLOCK_OUT_OF_RANGE"
  | kDirectoryBlockMarkedFree => text "DIRECTORY_BLOCK_MARKED_FREE"
  | kDirectoryRecordUndecodable => text "DIRECTORY_RECORD_UNDECODABLE"
  | kDentryTargetOutOfRange => text "DENTRY_TARGET_OUT_OF_RANGE"
  | kDentryTargetInodeMarkedFree => text "DENTRY_TARGET_INODE_MARKED_FREE"
  | kDentryTargetInodeUndecodable => text "DENTRY_TARGET_INODE_UNDECODABLE"
  | kAllocatedInodeUndecodable => text "ALLOCATED_INODE_UNDECODABLE"
  | kInodeUnreachable => text "INODE_UNREACHABLE"
  | kDirectoryCycle => text "DIRECTORY_CYCLE"
  | kDirectoryHardLink => text "DIRECTORY_HARD_LINK"
  | kDentryTypeMismatch => text "DENTRY_TYPE_MISMATCH"
  | kDuplicateDentryName => text "DUPLICATE_DENTRY_NAME"
  | kReferencedBlockOutOfRange => text "REFERENCED_BLOCK_OUT_OF_RANGE"
  | kReferencedBlockMarkedFree => text "REFERENCED_BLOCK_MARKED_FREE"
  | kMissingRequiredBlock => text "MISSING_REQUIRED_BLOCK"
  | kBlockPointerBeyondEnd => text "BLOCK_POINTER_BEYOND_END"
  | kDuplicateBlockReference => text "DUPLICATE_BLOCK_REFERENCE"
  | kAllocatedDataBlockUnreferenced => text "ALLOCATED_DATA_BLOCK_UNREFERENCED"
  | kInodeLinkCountMismatch => text "INODE_LINK_COUNT_MISMATCH"
  | kRegularFileHardLink => text "REGULAR_FILE_HARD_LINK"
  | kRootDirectoryReferenced => text "ROOT_DIRECTORY_REFERENCED"
  | kRequestLedgerIdentityInvalid => text "REQUEST_LEDGER_IDENTITY_INVALID"
  | kRequestLedgerGeometryInvalid => text "REQUEST_LEDGER_GEOMETRY_INVALID"
  | kRequestLedgerBlockUnavailable => text "REQUEST_LEDGER_BLOCK_UNAVAILABLE"
  | kRequestLedgerSlotCorrupt => text "REQUEST_LEDGER_SLOT_CORRUPT"
  | kRequestLedgerRecordAfterHole => text "REQUEST_LEDGER_RECORD_AFTER_HOLE"
  | kRequestLedgerDuplicateRequestId => text "REQUEST_LEDGER_DUPLICATE_REQUEST_ID"
  end.

Definition IssueChineseMessage (code : IssueCode) : bytes :=
  match code with
  | kJournalRecoveryRequired => text "日志中存在尚未清理的事务，必须先完成恢复"
  | kMetadataBlockMarkedFree => text "metadata 保留块在 block bitmap 中被标记为空闲"
  | kInodeBitmapTailNotReserved => text "inode bitmap 尾部包含可分配位"
  | kBlockBitmapTailNotReserved => text "block bitmap 尾部包含可分配位"
  | kRootInodeMarkedFree => text "根 inode 在 inode 位图中被标记为空闲"
  | kRootInodeUndecodable => text "根 inode 无法解码"
  | kRootInodeNotDirectory => text "根 inode 的实际类型不是目录"
  | kDirectoryBlockOutOfRange => text "目录数据块指针超出数据区"
  | kDirectoryBlockMarkedFree => text "目录引用的数据块在块位图中被标记为空闲"
  | kDirectoryRecordUndecodable => text "目录记录无法完整解析"
  | kDentryTargetOutOfRange => text "目录项指向 inode 表范围之外"
  | kDentryTargetInodeMarkedFree => text "目录项目标 inode 在位图中被标记为空闲"
  | kDentryTargetInodeUndecodable => text "目录项目标 inode 无法解码"
  | kAllocatedInodeUndecodable => text "位图声明已分配的 inode 无法解码"
  | kInodeUnreachable => text "已分配 inode 无法从根目录到达"
  | kDirectoryCycle => text "目录图中存在环"
  | kDirectoryHardLink => text "目录 inode 存在多个命名空间入口"
  | kDentryTypeMismatch => text "目录项类型与目标 inode 类型不一致"
  | kDuplicateDentryName => text "同一目录中存在重复的有效名称"
  | kReferencedBlockOutOfRange => text "inode 引用的数据块超出数据区"
  | kReferencedBlockMarkedFree => text "inode 引用的数据块在位图中被标记为空闲"
  | kMissingRequiredBlock => text "文件大小要求的数据块指针缺失"
  | kBlockPointerBeyondEnd => text "inode 在文件结尾之后仍保留块指针"
  | kDuplicateBlockReference => text "同一物理块被多个逻辑位置引用"
  | kAllocatedDataBlockUnreferenced => text "数据块已分配但没有任何 inode 引用"
  | kInodeLinkCountMismatch => text "inode 链接计数与命名空间证据不一致"
  | kRegularFileHardLink => text "普通文件存在 v1 不支持的硬链接"
  | kRootDirectoryReferenced => text "磁盘目录项非法指向根 inode"
  | kRequestLedgerIdentityInvalid => text "Request Ledger 的固定名称或 inode 身份不一致"
  | kRequestLedgerGeometryInvalid => text "Request Ledger 的文件类型、链接数或容量不合法"
  | kRequestLedgerBlockUnavailable => text "Request Ledger 的部分逻辑块无法读取"
  | kRequestLedgerSlotCorrupt => text "Request Ledger 槽位不是全零空槽或合法记录"
  | kRequestLedgerRecordAfterHole => text "Request Ledger 在空槽之后又出现合法记录"
  | kRequestLedgerDuplicateRequestId => text "Request Ledger 中出现重复 Request-ID"
  end.

(** * Texts *)
Definition newline : bytes := [10].
Definition quote : Z := 34.
Definition backslash : Z := 92.

Definition kHex (n : Z) : Z := if n <? 10 then 48 + n else 97 + (n - 10).

(** One byte of a JSON string. *)
Definition escape (byte : Z) : bytes :=
  if byte =? quote then [backslash; quote]
  else if byte =? backslash then [backslash; backslash]
  else if byte =? 8 then backslash :: text "b"
  else if byte =? 12 then backslash :: text "f"
  else if byte =? 10 then backslash :: text "n"
  else if byte =? 13 then backslash :: text "r"
  else if byte =? 9 then backslash :: text "t"
  else if byte <? 32 then backslash :: text "u00" ++ [kHex (Z.shiftr byte 4); kHex (Z.land byte 15)]
  else [byte].

Definition AppendJsonString (value : bytes) : bytes := [quote] ++ concat (map escape value) ++ [quote].

Definition quoted (name : string) : bytes := [quote] ++ text name ++ [quote].
Arguments quoted _%_string.
(** The name of a member with the colon after it. *)
Definition member (name : string) : bytes := quoted name ++ text ":".
Arguments member _%_string.

Definition flag (b : bool) : bytes := if b then text "true" else text "false".
Definition size_of {A} (l : list A) : bytes := to_string (Z.of_nat (length l)).

Definition json_issue (issue : CheckIssue) : bytes :=
  text "{" ++ member "code" ++ AppendJsonString (IssueCodeName (is_code issue)) ++
  text "," ++ member "message" ++ AppendJsonString (IssueChineseMessage (is_code issue)) ++
  text "," ++ member "inode" ++ to_string (is_inode_number issue) ++
  text "," ++ member "block" ++ to_string (is_block_number issue) ++
  text "," ++ member "related_inode" ++ to_string (is_related_inode_number issue) ++
  text "," ++ member "first_bitmap_bit" ++ to_string (is_first_bitmap_bit issue) ++
  text "," ++ member "occurrences" ++ to_string (is_occurrence_count issue) ++
  text "," ++ member "ledger_slot" ++ to_string (is_ledger_slot issue) ++
  text "," ++ member "detail" ++ AppendJsonString (is_detail issue) ++ text "}".

(** The issues, with a comma before all but the first. *)
Fixpoint json_issues (first : bool) (l : list CheckIssue) : bytes :=
  match l with
  | [] => []
  | issue :: rest => (if first then [] else text ",") ++ json_issue issue ++ json_issues false rest
  end.

Definition FormatJsonReport (image_path : bytes) (report : ConsistencyReport) : bytes :=
  text "{" ++ member "schema_version" ++ text "1," ++ member "image" ++ AppendJsonString image_path ++
  text "," ++ member "verdict" ++ AppendJsonString (CheckVerdictName (ClassifyReport report)) ++
  text "," ++ member "scan_status" ++ AppendJsonString (ScanStatusName (cr_status report)) ++
  text "," ++ member "evidence" ++ text "{" ++ member "bitmap_geometry_scan_complete" ++ flag (bitmap_geometry_scan_complete report) ++
  text "," ++ member "root_inode_decoded" ++ flag (root_inode_decoded report) ++
  text "," ++ member "root_reachability_complete" ++ flag (root_reachability_complete report) ++
  text "," ++ member "block_reference_scan_complete" ++ flag (block_reference_scan_complete report) ++
  text "," ++ member "inode_reference_scan_complete" ++ flag (inode_reference_scan_complete report) ++
  text "," ++ member "request_ledger_feature_enabled" ++ flag (request_ledger_feature_enabled report) ++
  text "," ++ member "request_ledger_scan_complete" ++ flag (request_ledger_scan_complete report) ++
  text "}," ++ member "counts" ++ text "{" ++ member "physical_scan_inodes" ++ size_of (physical_scan_inode_numbers report) ++
  text "," ++ member "root_reachable_inodes" ++ size_of (root_reachable_inode_numbers report) ++
  text "," ++ member "block_references" ++ size_of (block_references report) ++
  text "," ++ member "request_ledger_capacity" ++ to_string (request_ledger_capacity report) ++
  text "," ++ member "request_ledger_slots_scanned" ++ to_string (request_ledger_slots_scanned report) ++
  text "," ++ member "request_ledger_valid_records" ++ to_string (request_ledger_valid_records report) ++
  text "," ++ member "request_ledger_empty_slots" ++ to_string (request_ledger_empty_slots report) ++
  text "," ++ member "issues" ++ size_of (issues report) ++ text "}," ++ member "issues" ++ text "[" ++
  json_issues true (issues report) ++ text "]}" ++ newline.

Definition FormatJsonError (image_path : bytes) (error_number : Z) (detail : bytes) : bytes :=
  text "{" ++ member "schema_version" ++ text "1," ++ member "image" ++ AppendJsonString image_path ++
  text "," ++ member "verdict" ++ quoted "error" ++ text "," ++ member "error" ++ text "{" ++ member "errno" ++ to_string error_number ++
  text "," ++ member "detail" ++ AppendJsonString detail ++ text "}}" ++ newline.

Definition human_issue (issue : CheckIssue) : bytes :=
  text "- [" ++ IssueCodeName (is_code issue) ++ text "] " ++ IssueChineseMessage (is_code issue) ++ text " (inode=" ++
  to_string (is_inode_number issue) ++ text ", block=" ++ to_string (is_block_number issue) ++
  text ", related_inode=" ++ to_string (is_related_inode_number issue) ++
  (if negb (is_ledger_slot issue =? 0) then text ", ledger_slot=" ++ to_string (is_ledger_slot issue) else []) ++
  text ")" ++ newline ++
  (if (1 <? is_occurrence_count issue) || negb (is_first_bitmap_bit issue =? 0)
   then text "  bitmap: first_bit=" ++ to_string (is_first_bitmap_bit issue) ++ text ", occurrences=" ++
        to_string (is_occurrence_count issue) ++ newline
   else []) ++
  (if negb (bool_decide (is_detail issue = [])) then text "  证据: " ++ is_detail issue ++ newline else []).

Definition FormatHumanReport (image_path : bytes) (report : ConsistencyReport) : bytes :=
  text "eufsck 镜像: " ++ image_path ++ newline ++
  text "结论: " ++ ChineseVerdict (ClassifyReport report) ++ newline ++
  text "扫描状态: " ++ ChineseScanStatus (cr_status report) ++ newline ++
  text "证据门禁:" ++ newline ++
  text "  bitmap 几何: " ++ ChineseCompleteness (bitmap_geometry_scan_complete report) ++ newline ++
  text "  根 inode 解码: " ++ ChineseCompleteness (root_inode_decoded report) ++ newline ++
  text "  根目录可达性: " ++ ChineseCompleteness (root_reachability_complete report) ++ newline ++
  text "  块引用扫描: " ++ ChineseCompleteness (block_reference_scan_complete report) ++ newline ++
  text "  inode 引用计数扫描: " ++ ChineseCompleteness (inode_reference_scan_complete report) ++ newline ++
  text "  Request Ledger 扫描: " ++ ChineseCompleteness (request_ledger_scan_complete report) ++
  (if request_ledger_feature_enabled report then text "（已启用）" else text "（不适用）") ++ newline ++
  text "统计: 物理扫描 inode=" ++ size_of (physical_scan_inode_numbers report) ++
  text ", 根可达 inode=" ++ size_of (root_reachable_inode_numbers report) ++
  text ", 块引用=" ++ size_of (block_references report) ++
  text ", ledger 槽位=" ++ to_string (request_ledger_slots_scanned report) ++ text "/" ++ to_string (request_ledger_capacity report) ++
  text ", ledger 记录=" ++ to_string (request_ledger_valid_records report) ++
  text ", 问题=" ++ size_of (issues report) ++ newline ++
  concat (map human_issue (issues report)).

(** * The command *)
(** The number of an error on Linux. *)
Definition errno_number (er : errno) : Z :=
  match er with
  | EPERM => 1 | ENOENT => 2 | EINTR => 4 | EIO => 5 | E2BIG => 7 | ENOMEM => 12 | EACCES => 13 | EBUSY => 16 | EEXIST => 17
  | ENOTDIR => 20 | EISDIR => 21 | EINVAL => 22 | EFBIG => 27 | ENOSPC => 28 | ENAMETOOLONG => 36 | EOVERFLOW => 75
  | EOPNOTSUPP => 95 | EALREADY => 114 | ESTALE => 116 | EUCLEAN => 117
  | EOTHER code => code
  end.

Definition kEufsckExitHealthy : Z := 0.
Definition kEufsckExitInconsistent : Z := 1.
Definition kEufsckExitIncomplete : Z := 2.
Definition kEufsckExitRuntimeError : Z := 3.
Definition kEufsckExitUsage : Z := 64.

(** What a process leaves: its exit code and what it wrote to the two streams. *)
Record process := mkProcess { exit_code : Z; output : bytes; error_output : bytes }.

Definition PrintUsage : bytes :=
  text "用法: eufsck [--json] IMAGE" ++ newline ++ text "离线、只读检查 eufs 镜像；检查前必须停止 eufsd。" ++ newline.

Definition usage_error : process := mkProcess kEufsckExitUsage [] PrintUsage.

(** The loop over the arguments: either the process ends, or the flag for JSON
    and the path are known. [size] is [arguments.size()]. *)
Fixpoint parse_arguments (size : nat) (json positional_only : bool) (image_path : bytes) (l : list bytes) : process + bool * bytes :=
  match l with
  | [] => if bool_decide (image_path = []) then inl usage_error else inr (json, image_path)
  | argument :: rest =>
    if negb positional_only && bool_decide (argument = text "--help" \/ argument = text "-h") then
      if negb (size =? 1)%nat then inl usage_error else inl (mkProcess kEufsckExitHealthy PrintUsage [])
    else if negb positional_only && bool_decide (argument = text "--json") then
      if json then inl usage_error else parse_arguments size true positional_only image_path rest
    else if negb positional_only && bool_decide (argument = text "--") then
      parse_arguments size json true image_path rest
    else if negb positional_only && bool_decide (head argument = Some 45) then inl usage_error
    else if negb (bool_decide (image_path = [])) || bool_decide (argument = []) then inl usage_error
    else parse_arguments size json positional_only argument rest
  end.

Definition exit_of (verdict : CheckVerdict) : Z :=
  match verdict with
  | kHealthy => kEufsckExitHealthy
  | kInconsistent => kEufsckExitInconsistent
  | kIncomplete => kEufsckExitIncomplete
  end.

(** The check failed at run time. [detail] is the explanation a failing
    [CheckImage] leaves. *)
Definition report_failure (json : bool) (image_path : bytes) (er : errno) (detail : bytes) : process :=
  if json then mkProcess kEufsckExitRuntimeError (FormatJsonError image_path (errno_number er) detail) []
  else mkProcess kEufsckExitRuntimeError []
         (text "eufsck: 无法检查镜像 " ++ image_path ++ text ": " ++ detail ++ text " (errno " ++
          to_string (errno_number er) ++ text ")" ++ newline).

(** [None]: the process does not end, because the check does not return. *)
Definition RunEufsck (strerror : errno -> bytes) (detail : bytes) (arguments : list bytes) : env -> env * option process := fun e =>
  match parse_arguments (length arguments) false false [] arguments with
  | inl p => (e, Some p)
  | inr (json, image_path) =>
    let '(e', result) := CheckImage strerror image_path e in
    (e', match result with
         | Err er => Some (report_failure json image_path er detail)
         | Ok (Some report) =>
           Some (mkProcess (exit_of (ClassifyReport report))
             (if json then FormatJsonReport image_path report else FormatHumanReport image_path report) [])
         | Ok None => None
         end)
  end.

(** * The command lines that name an image *)
(** A path before "--" may not be empty or begin with "-"; after "--" it may be
    any text but the empty one. *)
Definition plain_path (p : bytes) : Prop := p <> [] /\ head p <> Some 45.

Inductive names_image : bool -> bytes -> list bytes -> Prop :=
| names_plain p : plain_path p -> names_image false p [p]
| names_plain_end p : plain_path p -> names_image false p [p; text "--"]
| names_json_first p : plain_path p -> names_image true p [text "--json"; p]
| names_json_first_end p : plain_path p -> names_image true p [text "--json"; p; text "--"]
| names_json_last p : plain_path p -> names_image true p [p; text "--json"]
| names_json_last_end p : plain_path p -> names_image true p [p; text "--json"; text "--"]
| names_any p : p <> [] -> names_image false p [text "--"; p]
| names_any_json p : p <> [] -> names_image true p [text "--json"; text "--"; p].

Definition asks_for_help (arguments : list bytes) : Prop := arguments = [text "--help"] \/ arguments = [text "-h"].

(** * JSON *)
Inductive json :=
| JNumber (n : Z)
| JString (s : bytes)
| JBool (b : bool)
| JArray (l : list json)
| JObject (l : list (bytes * json)).

Fixpoint commas (l : list bytes) : bytes :=
  match l with
  | [] => []
  | [a] => a
  | a :: rest => a ++ 44 :: commas rest
  end.

(** A value in the compact form. *)
Fixpoint render (v : json) : bytes :=
  match v with
  | JNumber n => to_string n
  | JString s => AppendJsonString s
  | JBool b => flag b
  | JArray l => 91 :: commas (map render l) ++ [93]
  | JObject l => 123 :: commas (map (fun kv => AppendJsonString kv.1 ++ 58 :: render kv.2) l) ++ [125]
  end.

(** The reader. *)
Definition is_digit (c : Z) : bool := (48 <=? c) && (c <=? 57).

Fixpoint read_digits (acc : Z) (s : bytes) : Z * bytes :=
  match s with
  | c :: rest => if is_digit c then read_digits (10 * acc + (c - 48)) rest else (acc, s)
  | [] => (acc, [])
  end.

Definition hex_value (c : Z) : option Z :=
  if is_digit c then Some (c - 48) else if (97 <=? c) && (c <=? 102) then Some (c - 87) else None.

(** The byte a one-letter escape stands for. *)
Definition short_escape (c : Z) : option Z :=
  if c =? quote then Some quote else if c =? backslash then Some backslash else if c =? 47 then Some 47
  else if c =? 98 then Some 8 else if c =? 102 then Some 12 else if c =? 110 then Some 10
  else if c =? 114 then Some 13 else if c =? 116 then Some 9 else None.

Definition cons_byte (c : Z) (r : option (bytes * bytes)) : option (bytes * bytes) :=
  match r with Some (s, rest) => Some (c :: s, rest) | None => None end.

(** The rest of a string after its opening quote. A [\u] escape is read for the
    ASCII characters only. *)
Fixpoint read_string (s : bytes) : option (bytes * bytes) :=
  match s with
  | [] => None
  | c :: rest =>
    if c =? quote then Some ([], rest)
    else if c =? backslash then
      match rest with
      | [] => None
      | d :: rest' =>
        if d =? 117 then
          match rest' with
          | z0 :: z1 :: h :: l :: rest'' =>
            if (z0 =? 48) && (z1 =? 48) then
              match hex_value h, hex_value l with
              | Some h, Some l => if 16 * h + l <? 128 then cons_byte (16 * h + l) (read_string rest'') else None
              | _, _ => None
              end
            else None
          | _ => None
          end
        else match short_escape d with Some b => cons_byte b (read_string rest') | None => None end
      end
    else if c <? 32 then None
    else cons_byte c (read_string rest)
  end.

(** Items separated by commas up to [close]. *)
Fixpoint read_items {A} (item : bytes -> option (A * bytes)) (close : Z) (fuel : nat) (s : bytes) : option (list A * bytes) :=
  match fuel with
  | O => None
  | S fuel =>
    match item s with
    | Some (a, c :: rest) =>
      if c =? 44 then
        match read_items item close fuel rest with Some (l, rest') => Some (a :: l, rest') | None => None end
      else if c =? close then Some ([a], rest) else None
    | _ => None
    end
  end.

Definition read_list {A} (item : bytes -> option (A * bytes)) (close : Z) (fuel : nat) (s : bytes) : option (list A * bytes) :=
  match s with
  | c :: rest => if c =? close then Some ([], rest) else read_items item close fuel s
  | [] => None
  end.

Definition read_member (value : bytes -> option (json * bytes)) (s : bytes) : option ((bytes * json) * bytes) :=
  match s with
  | c :: rest =>
    if c =? quote then
      match read_string rest with
      | Some (k, d :: rest') =>
        if d =? 58 then match value rest' with Some (v, rest'') => Some ((k, v), rest'') | None => None end else None
      | _ => None
      end
    else None
  | [] => None
  end.

Definition after (word : bytes) (s : bytes) : option bytes :=
  if bool_decide (take (length word) s = word) then Some (drop (length word) s) else None.

Fixpoint read_json (fuel : nat) (s : bytes) : option (json * bytes) :=
  match fuel, s with
  | S fuel, c :: rest =>
    if c =? quote then match read_string rest with Some (t, rest') => Some (JString t, rest') | None => None end
    else if c =? 91 then match read_list (read_json fuel) 93 fuel rest with Some (l, rest') => Some (JArray l, rest') | None => None end
    else if c =? 123 then
      match read_list (read_member (read_json fuel)) 125 fuel rest with Some (l, rest') => Some (JObject l, rest') | None => None end
    else if is_digit c then let '(n, rest') := read_digits 0 s in Some (JNumber n, rest')
    else match after (text "true") s with
         | Some rest' => Some (JBool true, rest')
         | None => match after (text "false") s with Some rest' => Some (JBool false, rest') | None => None end
         end
  | _, _ => None
  end.

(** A document: a value and white space. *)
Definition ParseJson (s : bytes) : option json :=
  match read_json (length s) s with
  | Some (v, rest) => if forallb (fun c => (c =? 32) || (c =? 9) || (c =? 10) || (c =? 13)) rest then Some v else None
  | None => None
  end.

(** ** A value that can be written *)
(** Numbers of at most 20 digits, texts of bytes. *)
Inductive json_ok : json -> Prop :=
| number_ok n : 0 <= n < 10 ^ 20 -> json_ok (JNumber n)
| string_ok s : bytes_ok s -> json_ok (JString s)
| bool_ok b : json_ok (JBool b)
| array_ok l : Forall json_ok l -> json_ok (JArray l)
| object_ok l : Forall (fun kv => bytes_ok kv.1 /\ json_ok kv.2) l -> json_ok (JObject l).

(** What may follow a value: nothing that continues a number. *)
Definition ends_number (rest : bytes) : Prop := match rest with c :: _ => is_digit c = false | [] => True end.

(** ** Numbers *)
Lemma read_digits_app l : forall acc rest, Forall (fun c => is_digit c = true) l -> ends_number rest ->
  read_digits acc (l ++ rest) = (fold_left (fun acc c => 10 * acc + (c - 48)) l acc, rest).
Proof.
  induction l as [|c l IH]; intros acc rest Hl Hr; cbn.
  - destruct rest as [|c rest]; [done|]. cbn in *. by rewrite Hr.
  - apply Forall_cons in Hl as [-> Hl]. by apply IH.
Qed.

Lemma digits_spec fuel : forall n, 0 <= n < 10 ^ Z.of_nat fuel ->
  Forall (fun c => is_digit c = true) (decimal_digits fuel n) /\ fold_left (fun acc c => 10 * acc + (c - 48)) (decimal_digits fuel n) 0 = n /\
  (fuel <> O -> decimal_digits fuel n <> []).
Proof.
  induction fuel as [|fuel IH]; intros n Hn; [cbn in *; split; [constructor|split; [lia|done]]|].
  cbn [decimal_digits]. assert (0 <= n mod 10 < 10) as Hm by (apply Z.mod_pos_bound; lia).
  assert (is_digit (48 + n mod 10) = true) as Hd by (unfold is_digit; lia).
  destruct (Z.ltb_spec n 10).
  - cbn. rewrite Z.mod_small by lia. repeat split; [|lia|done]. constructor; [unfold is_digit; lia|constructor].
  - rewrite Nat2Z.inj_succ, Z.pow_succ_r in Hn by lia.
    destruct (IH (n / 10)) as (Ha & Hb & _). { split; [apply Z.div_pos; lia|apply Z.div_lt_upper_bound; lia]. }
    rewrite fold_left_app, Hb. cbn [fold_left]. repeat split; [|pose proof (Z.div_mod n 10); lia|by destruct (decimal_digits fuel (n / 10))].
    apply Forall_app. split; [done|]. by constructor.
Qed.

Lemma to_string_shape n : 0 <= n < 10 ^ 20 -> exists c l, to_string n = c :: l /\ is_digit c = true.
Proof.
  intros Hn. destruct (digits_spec 20 n Hn) as (Ha & _ & Hne). unfold to_string. destruct (decimal_digits 20 n) as [|c l]; [by destruct Hne|].
  apply Forall_cons in Ha as [Hc _]. eauto.
Qed.

Lemma read_to_string n rest : 0 <= n < 10 ^ 20 -> ends_number rest -> read_digits 0 (to_string n ++ rest) = (n, rest).
Proof. intros Hn Hr. destruct (digits_spec 20 n Hn) as (Ha & Hb & _). unfold to_string. by rewrite read_digits_app, Hb. Qed.

(** ** Strings *)
Lemma read_escape c s : u8 c -> read_string (escape c ++ s) = cons_byte c (read_string s).
Proof.
  intros Hc. unfold escape.
  destruct (Z.eqb_spec c quote) as [->|]; [reflexivity|].
  destruct (Z.eqb_spec c backslash) as [->|]; [reflexivity|].
  repeat match goal with |- context [c =? ?k] => destruct (Z.eqb_spec c k) as [->|]; [reflexivity|] end.
  destruct (Z.ltb_spec c 32) as [Hlt|Hge].
  - assert (0 <= c < 32) as Hr by (unfold u8 in Hc; lia). clear Hc.
    assert (forallb (fun c => match hex_value (kHex (Z.shiftr c 4)), hex_value (kHex (Z.land c 15)) with
                              | Some h, Some l => 16 * h + l =? c | _, _ => false end) (map Z.of_nat (seq 0 32)) = true) as Hall by reflexivity.
    rewrite forallb_forall in Hall. assert (In c (map Z.of_nat (seq 0 32))) as Hin by (apply in_map_iff; exists (Z.to_nat c); split; [lia|apply in_seq; lia]).
    specialize (Hall c Hin) as E. cbv beta in E. clear Hall Hin. cbn.
    destruct (hex_value (kHex (Z.shiftr c 4))) as [h|], (hex_value (kHex (Z.land c 15))) as [l|]; try done.
    apply Z.eqb_eq in E. rewrite E. by replace (c <? 128) with true by lia.
  - cbn [app]. cbn [read_string]. unfold quote, backslash in *. do 2 rewrite (proj2 (Z.eqb_neq _ _)) by done. by rewrite (proj2 (Z.ltb_ge _ _)).
Qed.

Lemma read_escaped s rest : bytes_ok s -> read_string (concat (map escape s) ++ quote :: rest) = Some (s, rest).
Proof.
  induction 1 as [|c s Hc Hs IH]; [reflexivity|]. cbn [map concat]. rewrite <- app_assoc, read_escape by done. by rewrite IH.
Qed.

Lemma json_string_app s rest : AppendJsonString s ++ rest = quote :: concat (map escape s) ++ quote :: rest.
Proof. unfold AppendJsonString. by rewrite <- !app_assoc. Qed.

(** ** Lists *)
(** [r] writes items that [item] reads and that do not begin with [close]. *)
Definition reads {A} (item : bytes -> option (A * bytes)) (r : A -> bytes) (a : A) : Prop :=
  forall rest, ends_number rest -> item (r a ++ rest) = Some (a, rest).

Definition begins_off {A} (close : Z) (r : A -> bytes) (a : A) : Prop := exists c s, r a = c :: s /\ c <> close.

Lemma commas_cons a b l : commas (a :: b :: l) = a ++ 44 :: commas (b :: l).
Proof. reflexivity. Qed.

Lemma read_items_ok {A} item close (r : A -> bytes) l : forall fuel rest,
  l <> [] -> (length l <= fuel)%nat -> close <> 44 -> is_digit close = false -> Forall (reads item r) l ->
  read_items item close fuel (commas (map r l) ++ close :: rest) = Some (l, rest).
Proof.
  induction l as [|a l IH]; intros fuel rest Hne Hf Hc Hd Hl; [done|]. apply Forall_cons in Hl as [Ha Hl].
  destruct fuel as [|fuel]; [cbn in Hf; lia|]. destruct l as [|b l].
  - cbn [map commas read_items]. rewrite Ha by exact Hd. rewrite (proj2 (Z.eqb_neq _ _)) by done. by rewrite Z.eqb_refl.
  - cbn [map]. rewrite commas_cons, <- app_assoc. cbn [read_items app]. rewrite Ha by reflexivity. cbn [Z.eqb Pos.eqb].
    change (r b :: map r l) with (map r (b :: l)). rewrite IH; [done|done|cbn in *; lia|done..].
Qed.

Lemma read_list_ok {A} item close (r : A -> bytes) l fuel rest :
  (length l <= fuel)%nat -> close <> 44 -> is_digit close = false -> Forall (reads item r) l -> Forall (begins_off close r) l ->
  read_list item close fuel (commas (map r l) ++ close :: rest) = Some (l, rest).
Proof.
  intros Hf Hc Hd Hl Hb. destruct l as [|a l].
  - cbn. by rewrite Z.eqb_refl.
  - rewrite <- (read_items_ok item close r (a :: l) fuel rest) by done. apply Forall_cons in Hb as [(c & s & E & Hn) _].
    assert (exists s', commas (map r (a :: l)) ++ close :: rest = c :: s') as [s' ->].
    { destruct l as [|b l]; [cbn [map commas]|cbn [map]; rewrite commas_cons]; rewrite E; cbn; eauto. }
    cbn [read_list]. by rewrite (proj2 (Z.eqb_neq _ _)).
Qed.

(** ** Values *)
Lemma commas_length (l : list bytes) a : a ∈ l -> (length a <= length (commas l))%nat.
Proof.
  induction l as [|b l IH]; intros H; [by apply elem_of_nil in H|].
  destruct l as [|c l]; [apply list_elem_of_singleton in H as ->; done|].
  rewrite commas_cons, length_app. cbn [length]. apply elem_of_cons in H as [->|H]; [lia|]. specialize (IH H). lia.
Qed.

Lemma commas_count (l : list bytes) : Forall (fun a => a <> []) l -> (length l <= length (commas l))%nat.
Proof.
  induction 1 as [|a l Ha Hl IH]; [done|]. destruct l as [|b l]; [destruct a; [done|cbn; lia]|].
  rewrite commas_cons, length_app. cbn [length] in *. lia.
Qed.

Lemma render_begins v : json_ok v -> begins_off 93 render v.
Proof.
  intros Hv. unfold begins_off. inversion Hv as [n Hn|s Hs|b|l Hl|l Hl]; subst; cbn [render].
  - destruct (to_string_shape n Hn) as (c & l & -> & Hc). exists c, l. split; [done|]. unfold is_digit in Hc. lia.
  - eexists _, _. split; [reflexivity|done].
  - destruct b; eexists _, _; (split; [reflexivity|done]).
  - eexists _, _. split; [reflexivity|done].
  - eexists _, _. split; [reflexivity|done].
Qed.

Lemma render_nonempty v : json_ok v -> render v <> [].
Proof. intros Hv. destruct (render_begins v Hv) as (c & s & -> & _). done. Qed.

Definition render_member (kv : bytes * json) : bytes := AppendJsonString kv.1 ++ 58 :: render kv.2.

Lemma read_member_ok value kv : bytes_ok kv.1 -> reads value render kv.2 -> reads (read_member value) render_member kv.
Proof.
  intros Hk Hv rest Hr. unfold render_member. rewrite <- app_assoc, json_string_app. cbn [read_member app].
  rewrite Z.eqb_refl, read_escaped by done. rewrite Z.eqb_refl, Hv by done. by destruct kv.
Qed.

(** What an array or an object holds is shorter than it. *)
Lemma inner_short (o c : Z) (rs : list bytes) a n : a ∈ rs -> (length (o :: commas rs ++ [c]) <= S n)%nat -> (length a <= n)%nat.
Proof. intros Ha Hn. pose proof (commas_length rs a Ha). cbn in Hn. rewrite length_app in Hn. cbn in Hn. lia. Qed.

Lemma inner_count (o c : Z) (rs : list bytes) n : Forall (fun a => a <> []) rs -> (length (o :: commas rs ++ [c]) <= S n)%nat -> (length rs <= n)%nat.
Proof. intros Ha Hn. pose proof (commas_count rs Ha). cbn in Hn. rewrite length_app in Hn. cbn in Hn. lia. Qed.

Lemma read_json_array n l : Forall json_ok l -> (length (render (JArray l)) <= S n)%nat ->
  (forall v, json_ok v -> (length (render v) <= n)%nat -> reads (read_json n) render v) -> reads (read_json (S n)) render (JArray l).
Proof.
  intros Hl Hn IH rest Hr. cbn [render] in Hn. cbn [render app read_json]. rewrite <- app_assoc. cbn [app Z.eqb Pos.eqb].
  rewrite (read_list_ok (read_json n) 93 render l n rest); [done| |done|done| |].
  - rewrite <- (length_map render). eapply inner_count; [|exact Hn]. apply Forall_map. eapply Forall_impl; [exact Hl|apply render_nonempty].
  - apply Forall_forall. intros v Hv. rewrite Forall_forall in Hl. apply IH; [by apply Hl|]. eapply inner_short; [|exact Hn]. by apply list_elem_of_fmap_2.
  - eapply Forall_impl; [exact Hl|apply render_begins].
Qed.

Lemma read_json_object n l : Forall (fun kv => bytes_ok kv.1 /\ json_ok kv.2) l -> (length (render (JObject l)) <= S n)%nat ->
  (forall v, json_ok v -> (length (render v) <= n)%nat -> reads (read_json n) render v) -> reads (read_json (S n)) render (JObject l).
Proof.
  intros Hl Hn IH rest Hr. cbn [render] in *. fold render_member in *. cbn [app read_json]. rewrite <- app_assoc. cbn [app Z.eqb Pos.eqb].
  assert (Forall (begins_off 125 render_member) l) as Hb.
  { apply Forall_forall. intros kv _. eexists _, _. split; [reflexivity|done]. }
  rewrite (read_list_ok (read_member (read_json n)) 125 render_member l n rest); [done| |done|done| |done].
  - rewrite <- (length_map render_member). eapply inner_count; [|exact Hn]. apply Forall_map. eapply Forall_impl; [exact Hb|]. by intros kv (c & s & -> & _).
  - apply Forall_forall. intros kv Hv. rewrite Forall_forall in Hl. destruct (Hl kv Hv) as [Hk Hj]. apply read_member_ok; [done|]. apply IH; [done|].
    assert (length (render_member kv) <= n)%nat as Hm by (eapply inner_short; [|exact Hn]; by apply list_elem_of_fmap_2).
    unfold render_member in Hm. rewrite length_app in Hm. cbn in Hm. lia.
Qed.

Lemma after_app word s : after word (word ++ s) = Some s.
Proof. unfold after. by rewrite take_app_length, drop_app_length, bool_decide_true. Qed.

Lemma read_flag n b rest : read_json (S n) (flag b ++ rest) = Some (JBool b, rest).
Proof.
  assert (forall c word s, text word = c :: s -> c <> quote -> c <> 91 -> c <> 123 -> is_digit c = false ->
          read_json (S n) (text word ++ rest) =
          match after (text "true") (text word ++ rest) with
          | Some rest' => Some (JBool true, rest')
          | None => match after (text "false") (text word ++ rest) with Some rest' => Some (JBool false, rest') | None => None end
          end) as Hw.
  { intros c word s E H1 H2 H3 H4. rewrite E. cbn [app read_json]. do 3 rewrite (proj2 (Z.eqb_neq _ _)) by done. by rewrite H4. }
  destruct b; unfold flag; (erewrite Hw; [|reflexivity|done..]); rewrite after_app; [done|].
  unfold after. by rewrite bool_decide_false by (cbn; discriminate).
Qed.

Lemma read_render n : forall v, json_ok v -> (length (render v) <= n)%nat -> reads (read_json n) render v.
Proof.
  induction n as [|n IH]; intros v Hv Hn.
  { destruct (render v) eqn:E; [by apply render_nonempty in E|cbn in Hn; lia]. }
  inversion Hv as [k Hk|s Hs|b|l Hl|l Hl]; subst.
  - intros rest Hr. cbn [render]. destruct (to_string_shape k Hk) as (c & l & E & Hc). pose proof (read_to_string k rest Hk Hr) as Hread.
    rewrite E in *. cbn [app] in *. cbn [read_json]. unfold is_digit, quote in *. do 3 rewrite (proj2 (Z.eqb_neq _ _)) by lia. by rewrite Hc, Hread.
  - intros rest Hr. cbn [render]. rewrite json_string_app. cbn [read_json]. by rewrite Z.eqb_refl, read_escaped.
  - intros rest Hr. exact (read_flag n b rest).
  - by apply read_json_array.
  - by apply read_json_object.
Qed.

Lemma parse_render v space : json_ok v -> forallb (fun c => (c =? 32) || (c =? 9) || (c =? 10) || (c =? 13)) space = true ->
  ParseJson (render v ++ space) = Some v.
Proof.
  intros Hv Hs. unfold ParseJson. rewrite (read_render _ v Hv); [by rewrite Hs| |].
  - rewrite length_app. lia.
  - destruct space as [|c space]; [done|]. cbn in *. unfold is_digit. lia.
Qed.

(** * What a report says in JSON *)
Definition field (name : string) (v : json) : bytes * json := (text name, v).
Arguments field _%_string _.

Definition count {A} (l : list A) : json := JNumber (Z.of_nat (length l)).

Definition issue_json (issue : CheckIssue) : json :=
  JObject [field "code" (JString (IssueCodeName (is_code issue))); field "message" (JString (IssueChineseMessage (is_code issue)));
           field "inode" (JNumber (is_inode_number issue)); field "block" (JNumber (is_block_number issue));
           field "related_inode" (JNumber (is_related_inode_number issue));
           field "first_bitmap_bit" (JNumber (is_first_bitmap_bit issue));
           field "occurrences" (JNumber (is_occurrence_count issue)); field "ledger_slot" (JNumber (is_ledger_slot issue));
           field "detail" (JString (is_detail issue))].

Definition evidence_json (report : ConsistencyReport) : json :=
  JObject [field "bitmap_geometry_scan_complete" (JBool (bitmap_geometry_scan_complete report));
           field "root_inode_decoded" (JBool (root_inode_decoded report));
           field "root_reachability_complete" (JBool (root_reachability_complete report));
           field "block_reference_scan_complete" (JBool (block_reference_scan_complete report));
           field "inode_reference_scan_complete" (JBool (inode_reference_scan_complete report));
           field "request_ledger_feature_enabled" (JBool (request_ledger_feature_enabled report));
           field "request_ledger_scan_complete" (JBool (request_ledger_scan_complete report))].

Definition counts_json (report : ConsistencyReport) : json :=
  JObject [field "physical_scan_inodes" (count (physical_scan_inode_numbers report));
           field "root_reachable_inodes" (count (root_reachable_inode_numbers report));
           field "block_references" (count (block_references report));
           field "request_ledger_capacity" (JNumber (request_ledger_capacity report));
           field "request_ledger_slots_scanned" (JNumber (request_ledger_slots_scanned report));
           field "request_ledger_valid_records" (JNumber (request_ledger_valid_records report));
           field "request_ledger_empty_slots" (JNumber (request_ledger_empty_slots report));
           field "issues" (count (issues report))].

Definition report_json (image_path : bytes) (report : ConsistencyReport) : json :=
  JObject [field "schema_version" (JNumber 1); field "image" (JString image_path);
           field "verdict" (JString (CheckVerdictName (ClassifyReport report)));
           field "scan_status" (JString (ScanStatusName (cr_status report)));
           field "evidence" (evidence_json report); field "counts" (counts_json report);
           field "issues" (JArray (map issue_json (issues report)))].

Definition error_json (image_path : bytes) (error_number : Z) (detail : bytes) : json :=
  JObject [field "schema_version" (JNumber 1); field "image" (JString image_path); field "verdict" (JString (text "error"));
           field "error" (JObject [field "errno" (JNumber error_number); field "detail" (JString detail)])].

(** The fields have the width of the code's types. *)
Definition issue_typed (issue : CheckIssue) : Prop :=
  u64 (is_inode_number issue) /\ u64 (is_block_number issue) /\ u64 (is_related_inode_number issue) /\
  u64 (is_first_bitmap_bit issue) /\ u64 (is_occurrence_count issue) /\ u64 (is_ledger_slot issue) /\ bytes_ok (is_detail issue).

Record report_typed (report : ConsistencyReport) : Prop := {
  typed_capacity : u64 (request_ledger_capacity report);
  typed_scanned : u64 (request_ledger_slots_scanned report);
  typed_valid : u64 (request_ledger_valid_records report);
  typed_empty : u64 (request_ledger_empty_slots report);
  typed_physical : u64 (Z.of_nat (length (physical_scan_inode_numbers report)));
  typed_reachable : u64 (Z.of_nat (length (root_reachable_inode_numbers report)));
  typed_references : u64 (Z.of_nat (length (block_references report)));
  typed_count : u64 (Z.of_nat (length (issues report)));
  typed_issues : Forall issue_typed (issues report)
}.

(** ** The texts are those trees *)
(** Two concatenations of the same texts. *)
Ltac by_texts := repeat (progress (rewrite <- ?app_assoc; cbn [app])); vm_compute; reflexivity.

Lemma json_issue_tree issue : json_issue issue = render (issue_json issue).
Proof.
  unfold json_issue, issue_json. cbn [render map commas field fst snd].
  generalize (AppendJsonString (IssueCodeName (is_code issue))) (AppendJsonString (IssueChineseMessage (is_code issue))) (AppendJsonString (is_detail issue)).
  intros a b d. generalize (to_string (is_inode_number issue)) (to_string (is_block_number issue)) (to_string (is_related_inode_number issue))
    (to_string (is_first_bitmap_bit issue)) (to_string (is_occurrence_count issue)) (to_string (is_ledger_slot issue)).
  intros. by_texts.
Qed.

Lemma json_issues_tree first l : json_issues first l =
  (match l with [] => [] | _ => if first then [] else text "," end) ++ commas (map render (map issue_json l)).
Proof.
  revert first. induction l as [|issue l IH]; intros first; [by destruct first|]. cbn [json_issues map]. rewrite IH, json_issue_tree. f_equal.
  destruct l as [|next l]; [apply app_nil_r|]. cbn [map]. by rewrite commas_cons.
Qed.

Lemma report_tree image_path report : FormatJsonReport image_path report = render (report_json image_path report) ++ newline.
Proof.
  unfold FormatJsonReport. rewrite json_issues_tree. unfold report_json, evidence_json, counts_json, count, size_of. cbn [render map commas field fst snd].
  replace (match issues report with [] => [] | _ => [] end) with (@nil Z) by by destruct (issues report).
  generalize (commas (map render (map issue_json (issues report)))). intros tree.
  generalize (AppendJsonString image_path) (AppendJsonString (CheckVerdictName (ClassifyReport report))) (AppendJsonString (ScanStatusName (cr_status report))).
  intros a b c. generalize (flag (bitmap_geometry_scan_complete report)) (flag (root_inode_decoded report)) (flag (root_reachability_complete report))
    (flag (block_reference_scan_complete report)) (flag (inode_reference_scan_complete report)) (flag (request_ledger_feature_enabled report))
    (flag (request_ledger_scan_complete report)).
  intros. generalize (to_string (Z.of_nat (length (physical_scan_inode_numbers report)))) (to_string (Z.of_nat (length (root_reachable_inode_numbers report))))
    (to_string (Z.of_nat (length (block_references report)))) (to_string (request_ledger_capacity report)) (to_string (request_ledger_slots_scanned report))
    (to_string (request_ledger_valid_records report)) (to_string (request_ledger_empty_slots report)) (to_string (Z.of_nat (length (issues report)))).
  intros. by_texts.
Qed.

Lemma error_tree image_path n detail : FormatJsonError image_path n detail = render (error_json image_path n detail) ++ newline.
Proof.
  unfold FormatJsonError, error_json. cbn [render map commas field fst snd].
  generalize (AppendJsonString image_path) (AppendJsonString detail) (to_string n). intros. by_texts.
Qed.

(** ** They can be read *)
Lemma text_ok s : bytes_ok (text s).
Proof.
  unfold text, bytes_ok. apply Forall_map, Forall_forall. intros c _. pose proof (Ascii.N_ascii_bounded c). unfold u8. lia.
Qed.

Lemma number_typed n : u64 n -> json_ok (JNumber n).
Proof. intros H. constructor. unfold u64 in H. lia. Qed.

Lemma field_ok name v l : json_ok v -> Forall (fun kv => bytes_ok kv.1 /\ json_ok kv.2) l ->
  Forall (fun kv => bytes_ok kv.1 /\ json_ok kv.2) (field name v :: l).
Proof. intros Hv Hl. constructor; [split; [apply text_ok|done]|done]. Qed.

Create HintDb json.
#[local] Hint Resolve text_ok number_typed string_ok bool_ok array_ok object_ok field_ok Forall_nil_2 : json.

Lemma code_name_ok code : bytes_ok (IssueCodeName code) /\ bytes_ok (IssueChineseMessage code).
Proof. destruct code; split; apply text_ok. Qed.

Lemma issue_json_ok issue : issue_typed issue -> json_ok (issue_json issue).
Proof.
  intros (? & ? & ? & ? & ? & ? & ?). destruct (code_name_ok (is_code issue)). unfold issue_json. auto 20 with json.
Qed.

Lemma report_json_ok image_path report : bytes_ok image_path -> report_typed report -> json_ok (report_json image_path report).
Proof.
  intros Hp [? ? ? ? ? ? ? ? Hi].
  assert (json_ok (JNumber 1)) by by constructor.
  assert (bytes_ok (CheckVerdictName (ClassifyReport report))) by (destruct (ClassifyReport report); apply text_ok).
  assert (bytes_ok (ScanStatusName (cr_status report))) by (destruct (cr_status report); apply text_ok).
  assert (Forall json_ok (map issue_json (issues report))) by (apply Forall_map; eapply Forall_impl; [exact Hi|apply issue_json_ok]).
  assert (json_ok (evidence_json report)) by (unfold evidence_json; auto 20 with json).
  assert (json_ok (counts_json report)) by (unfold counts_json, count; auto 20 with json).
  unfold report_json. auto 20 with json.
Qed.

Lemma error_json_ok image_path n detail : bytes_ok image_path -> u64 n -> bytes_ok detail -> json_ok (error_json image_path n detail).
Proof. intros. assert (json_ok (JNumber 1)) by by constructor. unfold error_json. auto 20 with json. Qed.

Lemma parse_report image_path report : bytes_ok image_path -> report_typed report ->
  ParseJson (FormatJsonReport image_path report) = Some (report_json image_path report).
Proof. intros. rewrite report_tree. apply parse_render; [by apply report_json_ok|reflexivity]. Qed.

Lemma parse_error image_path n detail : bytes_ok image_path -> u64 n -> bytes_ok detail ->
  ParseJson (FormatJsonError image_path n detail) = Some (error_json image_path n detail).
Proof. intros. rewrite error_tree. apply parse_render; [by apply error_json_ok|reflexivity]. Qed.

(** * The arguments *)
Lemma parse_positional size json path l : parse_arguments size json true path l =
  match path, l with
  | [], [p] => if bool_decide (p = []) then inl usage_error else inr (json, p)
  | _ :: _, [] => inr (json, path)
  | _, _ => inl usage_error
  end.
Proof.
  destruct path as [|c path], l as [|p l]; try reflexivity. cbn [parse_arguments negb andb]. rewrite bool_decide_true by done. cbn [negb orb].
  destruct p as [|c p]; [by destruct l|]. rewrite !bool_decide_false by done. destruct l as [|q l]; reflexivity.
Qed.

(** An argument before "--". *)
Inductive argument_kind (argument : bytes) : Prop :=
| argument_json : argument = text "--json" -> argument_kind argument
| argument_end : argument = text "--" -> argument_kind argument
| argument_help : argument = text "--help" \/ argument = text "-h" -> argument_kind argument
| argument_path : plain_path argument -> argument_kind argument
| argument_bad :
    (forall size json path rest, parse_arguments size json false path (argument :: rest) = inl usage_error) -> argument_kind argument.

Lemma parse_path size json path p rest : plain_path p -> parse_arguments size json false path (p :: rest) =
  if bool_decide (path = []) then parse_arguments size json false p rest else inl usage_error.
Proof.
  intros [Hne Hd]. assert (forall s, head (text s) = Some 45 -> p <> text s) as Hs by (intros s E ->; done).
  cbn [parse_arguments negb andb]. rewrite (bool_decide_false (_ \/ _)) by (intros [H|H]; by eapply Hs in H).
  rewrite !(bool_decide_false (p = text _)) by by apply Hs. rewrite (bool_decide_false (head p = _)), (bool_decide_false (p = [])) by done.
  by case_bool_decide.
Qed.

Lemma argument_cases argument : argument_kind argument.
Proof.
  destruct (decide (argument = text "--json")); [by apply argument_json|]. destruct (decide (argument = text "--")); [by apply argument_end|].
  destruct (decide (argument = text "--help" \/ argument = text "-h")); [by apply argument_help|].
  destruct (decide (argument = [])) as [->|Hne]; [|destruct (decide (head argument = Some 45)) as [Hd|Hd]; [|by apply argument_path]].
  - apply argument_bad. intros. cbn. by destruct path.
  - apply argument_bad. intros. cbn [parse_arguments negb andb]. rewrite (bool_decide_false (_ \/ _)), !(bool_decide_false (argument = text _)) by done.
    by rewrite bool_decide_true.
Qed.

(** After the path. *)
Definition tail_form (json json' : bool) (l : list bytes) : Prop :=
  json' = json /\ (l = [] \/ l = [text "--"]) \/
  json = false /\ json' = true /\ (l = [text "--json"] \/ l = [text "--json"; text "--"]).

Lemma parse_help size json path argument rest : argument = text "--help" \/ argument = text "-h" ->
  parse_arguments size json false path (argument :: rest) = inl (if (size =? 1)%nat then mkProcess kEufsckExitHealthy PrintUsage [] else usage_error).
Proof. intros [ -> | -> ]; cbn; by destruct (size =? 1)%nat. Qed.

Lemma parse_json_flag size json path rest : parse_arguments size json false path (text "--json" :: rest) =
  if json then inl usage_error else parse_arguments size true false path rest.
Proof. reflexivity. Qed.

Lemma parse_end size json path rest : parse_arguments size json false path (text "--" :: rest) = parse_arguments size json true path rest.
Proof. reflexivity. Qed.

Lemma parse_after_path size json p l json' p' : plain_path p -> parse_arguments size json false p l = inr (json', p') ->
  p' = p /\ tail_form json json' l.
Proof.
  intros Hp. revert json. induction l as [|a l IH]; intros json H.
  { destruct Hp as [Hp _], p; [done|]. cbn in H. injection H as -> ->. by split; [|left; eauto]. }
  destruct (argument_cases a) as [Ej|Ee|Hh|Ha|Hbad]; [subst a|subst a|..].
  - rewrite parse_json_flag in H. destruct json; [done|]. destruct (IH true H) as [-> [[-> [ -> | -> ]]|[? _]]]; [..|done]; (split; [done|right; eauto]).
  - rewrite parse_end, parse_positional in H. destruct Hp as [Hp _], p; [done|]. destruct l; [|done]. injection H as -> ->. split; [done|left; eauto].
  - by rewrite parse_help in H.
  - rewrite parse_path, bool_decide_false in H by (done || apply Hp). done.
  - by rewrite Hbad in H.
Qed.

Lemma parse_before_path size json l json' p' : parse_arguments size json false [] l = inr (json', p') ->
  (exists t, l = p' :: t /\ plain_path p' /\ tail_form json json' t) \/ (p' <> [] /\ json' = json /\ l = [text "--"; p']) \/
  (exists t, l = text "--json" :: t /\ json = false /\ parse_arguments size true false [] t = inr (json', p')).
Proof.
  intros H. destruct l as [|a l]; [done|]. destruct (argument_cases a) as [Ej|Ee|Hh|Ha|Hbad]; [subst a|subst a|..].
  - rewrite parse_json_flag in H. destruct json; [done|]. right. right. eauto.
  - rewrite parse_end, parse_positional in H. destruct l as [|p [|]]; [done| |done]. case_bool_decide; [done|]. injection H as -> ->. right. left. eauto.
  - by rewrite parse_help in H.
  - rewrite parse_path, bool_decide_true in H by done. destruct (parse_after_path _ _ _ _ _ _ Ha H) as [-> Ht]. left. eauto.
  - by rewrite Hbad in H.
Qed.

Lemma parse_sound size l json path : parse_arguments size false false [] l = inr (json, path) -> names_image json path l.
Proof.
  intros H. destruct (parse_before_path _ _ _ _ _ H) as [(t & -> & Hp & [[-> [ -> | -> ]]|(_ & -> & [ -> | -> ])])|[(Hp & -> & ->)|(t & -> & _ & H')]];
    [by constructor..|].
  destruct (parse_before_path _ _ _ _ _ H') as [(t' & -> & Hp & [[-> [ -> | -> ]]|(? & _)])|[(Hp & -> & ->)|(t' & _ & ? & _)]]; done || by constructor.
Qed.

Lemma parse_complete size l json path : names_image json path l -> parse_arguments size false false [] l = inr (json, path).
Proof.
  assert (forall j p, p <> [] -> parse_arguments size j true p [] = inr (j, p) /\ parse_arguments size j false p [] = inr (j, p)) as Hd by (intros j [|? p] Hp; done).
  intros H. destruct H as [p Hp|p Hp|p Hp|p Hp|p Hp|p Hp|p Hp|p Hp]; rewrite ?parse_json_flag, ?parse_end, ?parse_positional, ?(parse_path _ _ [] p) by done;
    rewrite ?bool_decide_true, ?bool_decide_false by done; rewrite ?parse_json_flag, ?parse_end; try apply Hd, Hp; done.
Qed.

Lemma parse_stops size json path l p : parse_arguments size json false path l = inl p ->
  p = usage_error \/ p = mkProcess kEufsckExitHealthy PrintUsage [] /\ size = 1%nat.
Proof.
  revert json path. induction l as [|a l IH]; intros json path H.
  { cbn in H. case_bool_decide; [|done]. injection H as <-. by left. }
  destruct (argument_cases a) as [Ej|Ee|Hh|Ha|Hbad]; [subst a|subst a|..].
  - rewrite parse_json_flag in H. destruct json; [injection H as <-; by left|eauto].
  - rewrite parse_end, parse_positional in H. repeat (case_match; try done); injection H as <-; by left.
  - rewrite parse_help in H by done. destruct (Nat.eqb_spec size 1); injection H as <-; eauto.
  - rewrite parse_path in H by done. case_bool_decide; [eauto|injection H as <-; by left].
  - rewrite Hbad in H. injection H as <-. by left.
Qed.

(** * The process *)
Definition ends (detail : bytes) (json : bool) (path : bytes) (result : result errno (option ConsistencyReport)) : option process :=
  match result with
  | Err er => Some (report_failure json path er detail)
  | Ok (Some report) =>
    Some (mkProcess (exit_of (ClassifyReport report)) (if json then FormatJsonReport path report else FormatHumanReport path report) [])
  | Ok None => None
  end.

Lemma run_image strerror detail arguments json path e : names_image json path arguments ->
  RunEufsck strerror detail arguments e =
  (let '(e', result) := CheckImage strerror path e in (e', ends detail json path result)).
Proof. intros H. unfold RunEufsck. by rewrite (parse_complete _ _ _ _ H). Qed.

Lemma run_refused strerror detail arguments e : (forall json path, ~ names_image json path arguments) ->
  RunEufsck strerror detail arguments e =
  (e, Some (if bool_decide (arguments = [text "--help"] \/ arguments = [text "-h"]) then mkProcess kEufsckExitHealthy PrintUsage [] else usage_error)).
Proof.
  intros Hno. unfold RunEufsck. destruct (parse_arguments (length arguments) false false [] arguments) as [p|[json path]] eqn:E.
  - do 2 f_equal. case_bool_decide as Hh.
    + destruct Hh as [ -> | -> ]; cbn in E; injection E as <-; done.
    + destruct (parse_stops _ _ _ _ _ E) as [->|[-> Hone]]; [done|]. destruct arguments as [|a [|]]; [done| |done].
      destruct (argument_cases a) as [Ej|Ee|Hhelp|Ha|Hbad].
      * by subst a.
      * by subst a.
      * destruct Hh. destruct Hhelp; subst; auto.
      * rewrite parse_path, bool_decide_true in E by done. destruct Ha as [Ha _], a; done.
      * by rewrite Hbad in E.
  - by apply parse_sound, Hno in E.
Qed.

Lemma names_nonempty json path arguments : names_image json path arguments -> path <> [].
Proof. intros H. destruct H as [p [Hp _]|p [Hp _]|p [Hp _]|p [Hp _]|p [Hp _]|p [Hp _]|p Hp|p Hp]; exact Hp. Qed.

Lemma exit_of_cases verdict : 0 <= exit_of verdict <= 2 /\ (exit_of verdict = 0 <-> verdict = kHealthy).
Proof. destruct verdict; (split; [by vm_compute|]); split; intros; done || lia. Qed.

(** A check that does not return has found the greatest number of inodes. *)
Lemma check_never_ends strerror path e e1 : complete_image e -> plain_script (responses e) -> CheckImage strerror path e = (e1, Ok None) ->
  exists sb jc jcc, image_ok sb (st_size e) (disk e) /\ selected sb (disk e) = Ok (jc, jcc) /\ total_inodes sb = 4294967295 /\ OndiskJournal.used_blocks jc = 0.
Proof.
  intros Hc Hpl Ec. destruct (check_run strerror path e e1 None Hpl Ec) as (_ & _ & Ef). destruct (check_file_prepared strerror _ _ _ Hc Ef) as (r & Hp & Es).
  pose proof (pp_image _ _ Hp) as Hi. rewrite Es in Hi. pose proof (pp_control _ _ Hp) as Hs.
  exists (rd_superblock r), (rd_journal_control r), (rd_journal_control_copy r). split; [done|]. split; [done|].
  destruct (file_total strerror e _ _ _ Hc Hi Hs) as (outcome & Ef' & Hn & _). rewrite Ef in Ef'. apply Ok_inj in Ef' as <-. by apply Hn.
Qed.

(** The code of a process that has checked an image. *)
Lemma checked_exit strerror detail json path e e1 outcome p : complete_image e -> plain_script (responses e) -> path <> [] ->
  CheckImage strerror path e = (e1, outcome) -> ends detail json path outcome = Some p ->
  0 <= exit_code p <= 3 /\ 0 <= exit_code p <= 3 /\
  (exit_code p = kEufsckExitHealthy -> exists r, healthy_image r (disk e)) /\
  (exit_code p = kEufsckExitInconsistent \/ exit_code p = kEufsckExitIncomplete -> ~ exists r, healthy_image r (disk e)) /\
  (exit_code p = kEufsckExitRuntimeError <-> exists er, outcome = Err er) /\
  (forall sb jc jcc, responses e = [] -> image_ok sb (st_size e) (disk e) -> selected sb (disk e) = Ok (jc, jcc) -> exit_code p <> kEufsckExitRuntimeError).
Proof.
  intros Hc Hpl Hpath Ec Hp. destruct outcome as [[report|]|er]; [|done|]; injection Hp as <-.
  - destruct (exit_of_cases (ClassifyReport report)) as [Hcode Hzero]. cbn [exit_code].
    destruct (check_run strerror path e e1 _ Hpl Ec) as (_ & _ & Ef). pose proof (file_healthy strerror e report Hc Ef) as Hfh.
    unfold kEufsckExitRuntimeError. repeat split; [lia|lia|lia|lia|intros H; by apply Hfh, Hzero| | lia |by intros [er ?]|lia].
    intros H Hh. apply Hfh, Hzero in Hh. unfold kEufsckExitInconsistent, kEufsckExitIncomplete in H. lia.
  - assert (exit_code (report_failure json path er detail) = 3) as -> by by destruct json.
    split; [lia|]. split; [lia|]. split; [done|]. split; [by intros [?|?]|]. split; [split; [by eexists|done]|].
    intros sb jc jcc Hr Hi Hs. destruct (file_total strerror e sb jc jcc Hc Hi Hs) as (outcome & Ef & _).
    rewrite check_calm in Ec by done. by rewrite (scanning_go _ e _ _ Hr Ef) in Ec.
Qed.

(** C27. The exit code. On a whole image file and with any system-call failures
    but EUCLEAN the process does not change the image. It ends with the code 64
    exactly on a command line that neither asks for help nor names one image in
    one of the eight forms; on one that does, the code is 0, 1, 2 or 3: 0 only for
    a healthy image, 1 and 2 only for one that is not, 3 exactly if the check
    failed at run time, which without system-call failures does not happen on an
    image with a valid superblock and journal control. The process always ends,
    except on a valid image with an empty journal and 4294967295 inodes, over which
    the 32-bit loops of the checker run for ever. *)
Theorem eufsck_exit_codes strerror detail arguments e e' ended :
  complete_image e -> plain_script (responses e) -> RunEufsck strerror detail arguments e = (e', ended) ->
  disk e' = disk e /\
  (forall p, ended = Some p ->
     (exit_code p = kEufsckExitUsage <-> ~ asks_for_help arguments /\ forall json path, ~ names_image json path arguments) /\
     (forall json path, names_image json path arguments ->
        0 <= exit_code p <= 3 /\
        (exit_code p = kEufsckExitHealthy -> exists r, healthy_image r (disk e)) /\
        (exit_code p = kEufsckExitInconsistent \/ exit_code p = kEufsckExitIncomplete -> ~ exists r, healthy_image r (disk e)) /\
        (exit_code p = kEufsckExitRuntimeError <-> exists er, (CheckImage strerror path e).2 = Err er) /\
        (forall sb jc jcc, responses e = [] -> image_ok sb (st_size e) (disk e) -> selected sb (disk e) = Ok (jc, jcc) ->
           exit_code p <> kEufsckExitRuntimeError))) /\
  (ended = None -> exists sb jc jcc, image_ok sb (st_size e) (disk e) /\ selected sb (disk e) = Ok (jc, jcc) /\
     total_inodes sb = 4294967295 /\ OndiskJournal.used_blocks jc = 0).
Proof.
  intros Hc Hpl Hrun.
  destruct (parse_arguments (length arguments) false false [] arguments) as [q|[json path]] eqn:E.
  - assert (forall json path, ~ names_image json path arguments) as Hno.
    { intros json path Hn. by rewrite (parse_complete (length arguments) _ _ _ Hn) in E. }
    rewrite run_refused in Hrun by done. injection Hrun as <- <-. split; [done|]. split; [|done]. intros p [= <-].
    split; [|by intros json path ?%Hno]. case_bool_decide as Hh.
    + split; [done|]. by intros [[] _].
    + split; [|done]. intros _. split; [exact Hh|exact Hno].
  - apply parse_sound in E. rewrite (run_image _ _ _ _ _ _ E) in Hrun. pose proof (check_disk strerror path e Hpl) as Hd.
    destruct (CheckImage strerror path e) as [e1 outcome] eqn:Ec. injection Hrun as <- <-. split; [exact Hd|].
    assert (~ asks_for_help arguments /\ forall j q, names_image j q arguments -> (j, q) = (json, path)) as [Hnh Huniq].
    { split; [intros [ -> | -> ]; by apply (parse_complete 0) in E|]. intros j q Hq. apply (parse_complete 0) in Hq, E. congruence. }
    split; [|intros Hnone; destruct outcome as [[report|]|er]; [done| |done]; by eapply check_never_ends].
    intros p Hp. destruct (checked_exit strerror detail json path e e1 outcome p Hc Hpl (names_nonempty _ _ _ E) Ec Hp) as (Hcode & H).
    split; [unfold kEufsckExitUsage; split; [lia|by intros [_ Hn]; destruct (Hn json path)]|].
    intros j q Hq. injection (Huniq j q Hq) as -> ->. rewrite Ec. done.
Qed.

(** eufsck on the example image ends with the code 0. *)
Lemma eufsck_exit_codes_witness : exists p, RunEufsck (fun _ => []) [] [[47]] env1 = (env1, Some p) /\ exit_code p = kEufsckExitHealthy /\
  (exit_code p <> kEufsckExitUsage) /\ exists r, healthy_image r (disk env1).
Proof.
  destruct whole1 as [report E].
  assert (names_image false [47] [[47]]) as Hn by (constructor; split; discriminate).
  assert (CheckImage (fun _ => []) [47] env1 = (env1, Ok (Some report))) as Hrun.
  { rewrite check_calm; [|reflexivity|discriminate]. exact (scanning_go _ env1 _ _ eq_refl E). }
  exists (mkProcess (exit_of (ClassifyReport report)) (FormatHumanReport [47] report) []).
  assert (RunEufsck (fun _ => []) [] [[47]] env1 = (env1, Some (mkProcess (exit_of (ClassifyReport report)) (FormatHumanReport [47] report) []))) as Hp.
  { rewrite (run_image _ _ _ _ _ _ Hn), Hrun. reflexivity. }
  destruct (eufsck_exit_codes (fun _ => []) [] [[47]] env1 env1 _ complete1 (not_elem_of_nil _) Hp) as (_ & Hends & _).
  destruct (Hends _ eq_refl) as (Husage & Hcodes).
  destruct (Hcodes false [47] Hn) as (_ & Hhealthy & _).
  assert (exit_of (ClassifyReport report) = kEufsckExitHealthy) as H0.
  { apply exit_of_cases. refine (proj2 (file_healthy (fun _ => []) env1 report complete1 E) _). exists reader1. exact healthy1. }
  split; [exact Hp|]. split; [exact H0|]. split.
  - intros Hu. apply Husage in Hu as [_ Hno]. exact (Hno false [47] Hn).
  - exact (Hhealthy H0).
Defined.

(** C28. The JSON output can be read back. Whatever bytes the path, the details and
    the messages hold, a reader of JSON finds in the output of a run with
    [--json] exactly the tree of the report: the verdict that decides the exit
    code, the flags, the counts and every issue in its order; after a failure it
    finds the error number and the explanation. Nothing goes to the error stream. *)
Theorem eufsck_json_roundtrip strerror detail arguments path e e' p :
  names_image true path arguments -> bytes_ok path -> bytes_ok detail -> RunEufsck strerror detail arguments e = (e', Some p) ->
  error_output p = [] /\
  (forall report, (CheckImage strerror path e).2 = Ok (Some report) -> report_typed report ->
     ParseJson (output p) = Some (report_json path report) /\ exit_code p = exit_of (ClassifyReport report)) /\
  (forall er, (CheckImage strerror path e).2 = Err er -> u64 (errno_number er) ->
     ParseJson (output p) = Some (error_json path (errno_number er) detail)).
Proof.
  intros Hn Hpath Hdet Hrun. rewrite (run_image _ _ _ _ _ _ Hn) in Hrun.
  destruct (CheckImage strerror path e) as [e1 [[report|]|er]]; try done; injection Hrun as <- <-; (split; [done|]); (split; [|]).
  - intros report' [= <-] Ht. split; [by apply parse_report|done].
  - done.
  - done.
  - intros er' [= <-] Hu. by apply parse_error.
Qed.

(** A file that is too short, with a path that needs every escape. *)
Definition odd_path : bytes := [47; 34; 92; 8; 12; 10; 13; 9; 1; 31; 228; 184].

Lemma eufsck_json_roundtrip_witness : exists p, (RunEufsck (fun _ => []) (text "short") [text "--json"; odd_path] (mkEnv ∅ 0 [] [])).2 = Some p /\
  ParseJson (output p) = Some (error_json odd_path 5 (text "short")).
Proof.
  destruct (RunEufsck (fun _ => []) (text "short") [text "--json"; odd_path] (mkEnv ∅ 0 [] [])) as [e' [p|]] eqn:E; [|vm_compute in E; discriminate E].
  exists p. split; [reflexivity|].
  destruct (eufsck_json_roundtrip (fun _ => []) (text "short") [text "--json"; odd_path] odd_path (mkEnv ∅ 0 [] []) e' p) as (_ & _ & Herr).
  - constructor. split; discriminate.
  - repeat constructor; unfold u8; lia.
  - apply text_ok.
  - exact E.
  - apply (Herr EIO); [vm_compute; reflexivity|unfold u64; cbn; lia].
Defined.
