(* ===== verification/Programs.v ===== *)
(** The command-line programs (src/app/): eufs-mkfs, eufsd, the object server and
    its two clients. What a program gets from a library is an input of its model:
    the answers of [getopt_long], the flags gflags has parsed, the outcome of a
    remote call, the event loop of libfuse. *)
From S2P Require Import Prelude Codec OndiskFormat OndiskJournal Disk JournalStore JournalImage DurableStages.
From S2P Require Import JournalTheorems ImageReader Mkfs MkfsBitmaps MkfsImage MkfsTheorems FuseMount CheckReport Checker CheckerTheorems Eufsck.
From S2P Require Import BitmapAllocator RequestLedger LedgerStore FileMutation NewObject RequestFingerprint ObjectBackend StoreRefinement RpcQueue ObjectService.
Open Scope Z_scope.

(** * eufs-mkfs *)
Definition uint64_max : Z := 18446744073709551615.
Definition uint32_max : Z := 4294967295.

(** [std::from_chars] for a 64-bit number: the value of the digits at the start
    and the text after them; fails without digits and on overflow. *)
Definition from_chars (s : bytes) : option (Z * bytes) :=
  match s with
  | c :: _ => if is_digit c then let '(value, rest) := read_digits 0 s in if uint64_max <? value then None else Some (value, rest) else None
  | [] => None
  end.

Definition ParseUnsigned (s : bytes) : option Z :=
  if bool_decide (s = []) then None
  else match from_chars s with
       | Some (value, rest) => if negb (bool_decide (rest = [])) then None else Some value
       | None => None
       end.

(** The multiplier a last character stands for. *)
Definition suffix_multiplier (c : Z) : option Z :=
  if (c =? 75) || (c =? 107) then Some 1024
  else if (c =? 77) || (c =? 109) then Some (1024 * 1024)
  else if (c =? 71) || (c =? 103) then Some (1024 * 1024 * 1024)
  else None.

Definition ParseSize (s : bytes) : option Z :=
  let '(multiplier, digits) :=
    match last s with
    | Some c => match suffix_multiplier c with Some m => (m, take (length s - 1) s) | None => (1, s) end
    | None => (1, s)
    end in
  match ParseUnsigned digits with
  | Some value => if uint64_max / multiplier <? value then None else Some (value * multiplier)
  | None => None
  end.

(** An answer of [getopt_long]. *)
Inductive mkfs_option :=
| opt_image (optarg : bytes)
| opt_size (optarg : bytes)
| opt_inodes (optarg : bytes)
| opt_journal (optarg : bytes)
| opt_ledger (optarg : bytes)
| opt_force
| opt_help
| opt_unknown.

Definition mkfs_usage : bytes :=
  text "Usage: eufs-mkfs --image PATH --size SIZE [--inodes N] [--journal-blocks N] [--request-ledger-entries N] [--force]" ++ newline ++
  text "SIZE accepts a byte count or K/M/G suffix, for example 64M." ++ newline.

Definition default_options : MkfsOptions := mkMkfsOptions [] 0 1024 256 0 false.

Definition refuse (code : Z) (message : bytes) : process := mkProcess code [] message.

(** The loop over the options: the process ends, or the options and whether the
    path and the size were given. *)
Fixpoint mkfs_options (o : MkfsOptions) (have_image have_size : bool) (l : list mkfs_option) : process + MkfsOptions * bool * bool :=
  match l with
  | [] => inr (o, have_image, have_size)
  | opt_image optarg :: rest =>
    mkfs_options (mkMkfsOptions optarg (image_size_bytes o) (opt_total_inodes o) (opt_journal_blocks o) (request_ledger_entries o) (force o)) true have_size rest
  | opt_size optarg :: rest =>
    match ParseSize optarg with
    | Some size => mkfs_options (mkMkfsOptions (image_path o) size (opt_total_inodes o) (opt_journal_blocks o) (request_ledger_entries o) (force o)) have_image true rest
    | None => inl (refuse 2 (text "invalid --size value" ++ newline))
    end
  | opt_inodes optarg :: rest =>
    match ParseUnsigned optarg with
    | Some value =>
      if (value =? 0) || (uint32_max <? value) then inl (refuse 2 (text "invalid --inodes value" ++ newline))
      else mkfs_options (mkMkfsOptions (image_path o) (image_size_bytes o) value (opt_journal_blocks o) (request_ledger_entries o) (force o)) have_image have_size rest
    | None => inl (refuse 2 (text "invalid --inodes value" ++ newline))
    end
  | opt_journal optarg :: rest =>
    match ParseUnsigned optarg with
    | Some value =>
      if (value <? kMinimumJournalBlocks) || (uint32_max <? value) then inl (refuse 2 (text "invalid --journal-blocks value" ++ newline))
      else mkfs_options (mkMkfsOptions (image_path o) (image_size_bytes o) (opt_total_inodes o) value (request_ledger_entries o) (force o)) have_image have_size rest
    | None => inl (refuse 2 (text "invalid --journal-blocks value" ++ newline))
    end
  | opt_ledger optarg :: rest =>
    match ParseUnsigned optarg with
    | Some value =>
      if (value =? 0) || negb (value mod (kBlockSize / 128) =? 0) || (uint32_max <? value)
      then inl (refuse 2 (text "invalid --request-ledger-entries value" ++ newline))
      else mkfs_options (mkMkfsOptions (image_path o) (image_size_bytes o) (opt_total_inodes o) (opt_journal_blocks o) value (force o)) have_image have_size rest
    | None => inl (refuse 2 (text "invalid --request-ledger-entries value" ++ newline))
    end
  | opt_force :: rest =>
    mkfs_options (mkMkfsOptions (image_path o) (image_size_bytes o) (opt_total_inodes o) (opt_journal_blocks o) (request_ledger_entries o) true) have_image have_size rest
  | opt_help :: _ => inl (mkProcess 0 mkfs_usage [])
  | opt_unknown :: _ => inl (refuse 2 mkfs_usage)
  end.

(** [leftover]: arguments remain after the options; [error]: the explanation of
    a failing [FormatImage]. *)
Definition mkfs_main (options : list mkfs_option) (leftover : bool) (error : bytes) (w : surroundings) (f : host_file) : host_file * process :=
  match mkfs_options default_options false false options with
  | inl p => (f, p)
  | inr (o, have_image, have_size) =>
    if negb have_image || negb have_size || leftover then (f, refuse 2 mkfs_usage)
    else
      let '(f', r) := FormatImage o w f in
      (f', match r with
           | Err _ => refuse 1 (text "eufs-mkfs: " ++ error ++ newline)
           | Ok superblock =>
             mkProcess 0 (text "formatted " ++ image_path o ++ text ": " ++ to_string (total_blocks superblock) ++ text " blocks, " ++
                          to_string (total_inodes superblock) ++ text " inodes, data starts at block " ++
                          to_string (start_block (data superblock)) ++ newline) []
           end)
  end.

(** ** Numbers on the command line *)
Definition digits (s : bytes) : Prop := s <> [] /\ Forall (fun c => is_digit c = true) s.
Definition decimal (s : bytes) : Z := fold_left (fun acc c => 10 * acc + (c - 48)) s 0.

(** The units a size may have. *)
Inductive size_unit : bytes -> Z -> Prop :=
| unit_bytes : size_unit [] 1
| unit_K : size_unit (text "K") 1024
| unit_k : size_unit (text "k") 1024
| unit_M : size_unit (text "M") (1024 * 1024)
| unit_m : size_unit (text "m") (1024 * 1024)
| unit_G : size_unit (text "G") (1024 * 1024 * 1024)
| unit_g : size_unit (text "g") (1024 * 1024 * 1024).

Lemma read_digits_all s : forall acc value, read_digits acc s = (value, []) -> Forall (fun c => is_digit c = true) s.
Proof.
  induction s as [|c s IH]; intros acc value H; [constructor|]. cbn in H. destruct (is_digit c) eqn:E; [|done]. constructor; [done|by eapply IH].
Qed.

Lemma ParseUnsigned_spec s n : ParseUnsigned s = Some n <-> digits s /\ n = decimal s /\ n <= uint64_max.
Proof.
  unfold ParseUnsigned, digits, decimal. destruct s as [|c s]; [split; [done|by intros [[? _] _]]|]. rewrite bool_decide_false by done.
  unfold from_chars. split.
  - destruct (is_digit c) eqn:Ec; [|done]. destruct (read_digits 0 (c :: s)) as [value rest] eqn:E. destruct (Z.ltb_spec uint64_max value); [done|].
    case_bool_decide; [|done]. subst. intros [= <-]. pose proof (read_digits_all _ _ _ E) as Hall. split; [done|].
    rewrite <- (app_nil_r (c :: s)), read_digits_app in E by done. by injection E as <-.
  - intros ([_ Hall] & -> & Hle). pose proof Hall as Hall'. apply Forall_cons in Hall' as [-> _].
    rewrite <- (app_nil_r (c :: s)), read_digits_app, app_nil_r by done. by rewrite (proj2 (Z.ltb_ge _ _)).
Qed.

Lemma suffix_unit c m : suffix_multiplier c = Some m <-> size_unit [c] m.
Proof.
  split.
  - unfold suffix_multiplier. intros H.
    destruct (Z.eqb_spec c 75) as [->|]; [injection H as <-; apply unit_K|]. destruct (Z.eqb_spec c 107) as [->|]; [injection H as <-; apply unit_k|].
    destruct (Z.eqb_spec c 77) as [->|]; [injection H as <-; apply unit_M|]. destruct (Z.eqb_spec c 109) as [->|]; [injection H as <-; apply unit_m|].
    destruct (Z.eqb_spec c 71) as [->|]; [injection H as <-; apply unit_G|]. destruct (Z.eqb_spec c 103) as [->|]; [injection H as <-; apply unit_g|]. done.
  - intros H. by inversion H.
Qed.

Lemma unit_positive u m : size_unit u m -> 0 < m.
Proof. by destruct 1. Qed.

Lemma unit_digit u m c : size_unit (u ++ [c]) m -> is_digit c = false.
Proof.
  intros H. assert (exists v, u ++ [c] = v /\ size_unit v m) as (v & E & Hv) by eauto.
  destruct Hv; first [by destruct u|apply (f_equal last) in E; rewrite last_snoc in E; cbn in E; by injection E as ->].
Qed.

(** The body and the unit of a size. *)
Lemma decimal_fits v m : 0 < m -> (uint64_max / m <? v) = false <-> v * m <= uint64_max.
Proof.
  intros Hm. rewrite Z.ltb_ge. split; intros H.
  - pose proof (Z.mul_div_le uint64_max m Hm). nia.
  - apply Z.div_le_lower_bound; lia.
Qed.

Lemma decimal_bound s : forall acc, 0 <= acc -> Forall (fun c => is_digit c = true) s -> 0 <= fold_left (fun acc c => 10 * acc + (c - 48)) s acc.
Proof.
  induction s as [|c s IH]; intros acc Ha Hs; [done|]. apply Forall_cons in Hs as [Hc Hs]. cbn. apply IH; [|done]. unfold is_digit in Hc. lia.
Qed.

Lemma decimal_nonneg s : digits s -> 0 <= decimal s.
Proof. intros [_ Hs]. by apply decimal_bound. Qed.

Lemma scaled m body n : 0 < m ->
  match ParseUnsigned body with Some value => if uint64_max / m <? value then None else Some (value * m) | None => None end = Some n <->
  digits body /\ n = decimal body * m /\ n <= uint64_max.
Proof.
  intros Hm. split.
  - destruct (ParseUnsigned body) as [value|] eqn:E; [|done]. apply ParseUnsigned_spec in E as (Hd & -> & _).
    destruct (uint64_max / m <? decimal body) eqn:Ef; [done|]. intros [= <-]. by apply decimal_fits in Ef.
  - intros (Hd & -> & Hle). pose proof (decimal_nonneg body Hd). rewrite (proj2 (ParseUnsigned_spec body (decimal body))) by (split; [done|split; [done|nia]]).
    by rewrite (proj2 (decimal_fits (decimal body) m Hm)).
Qed.

Lemma digits_not_unit body c m : digits (body ++ [c]) -> ~ size_unit [c] m.
Proof. intros [_ H] Hu. apply Forall_app in H as [_ H]. apply Forall_cons in H as [H _]. by rewrite (unit_digit [] m c Hu) in H. Qed.

(** The size on the command line of eufs-mkfs. [ParseSize] accepts exactly a
    nonempty sequence of decimal digits with nothing or one of the letters K, M
    and G (of either case) after it whose value in bytes fits 64 bits, and answers
    with that value: it never wraps around, and neither a sign, nor a space, nor a
    further character is accepted. *)
Theorem parse_size_exact s n : ParseSize s = Some n <->
  exists body unit m, s = body ++ unit /\ digits body /\ size_unit unit m /\ n = decimal body * m /\ n <= uint64_max.
Proof.
  unfold ParseSize. destruct s as [|c body _] using rev_ind.
  { cbn [last]. split; [done|]. intros (body & unit & m & E & [Hne _] & _). by destruct body. }
  rewrite last_snoc, length_app, Nat.add_sub, take_app_length. destruct (suffix_multiplier c) as [m|] eqn:Em.
  - pose proof (proj1 (suffix_unit c m) Em) as Hu. rewrite scaled by (by eapply unit_positive). split.
    + intros (Hd & -> & Hle). by exists body, [c], m.
    + intros (b & unit & m' & E & Hd & Hu' & -> & Hle). destruct (decide (unit = [])) as [->|Hne].
      { rewrite app_nil_r in E. subst b. by destruct (digits_not_unit _ _ _ Hd Hu). }
      assert (exists d, unit = [d]) as [d ->] by (destruct Hu'; first [done|by eexists]).
      apply app_inj_tail in E as [-> <-]. apply suffix_unit in Hu'. rewrite Em in Hu'. by injection Hu' as <-.
  - rewrite scaled by done. split.
    + intros (Hd & -> & Hle). exists (body ++ [c]), [], 1. rewrite app_nil_r. repeat split; [apply Hd..|constructor|done].
    + intros (b & unit & m' & E & Hd & Hu' & -> & Hle). destruct (decide (unit = [])) as [->|Hne].
      { inversion Hu'; subst. by rewrite app_nil_r in E; subst. }
      assert (exists d, unit = [d]) as [d ->] by (destruct Hu'; first [done|by eexists]).
      apply app_inj_tail in E as [-> <-]. apply suffix_unit in Hu'. by rewrite Em in Hu'.
Qed.

(** ** The program *)
Lemma ParseUnsigned_value s n : ParseUnsigned s = Some n -> 0 <= n <= uint64_max.
Proof. intros (Hd & -> & Hle)%ParseUnsigned_spec. split; [by apply decimal_nonneg|done]. Qed.

Lemma ParseSize_value s n : ParseSize s = Some n -> u64 n.
Proof.
  assert (forall m body, 0 < m -> match ParseUnsigned body with Some value => if uint64_max / m <? value then None else Some (value * m) | None => None end = Some n -> u64 n) as Hs.
  { intros m body Hm (Hd & -> & Hle)%scaled; [|done]. pose proof (decimal_nonneg body Hd). unfold u64, uint64_max in *. nia. }
  unfold ParseSize. destruct (last s) as [c|]; [destruct (suffix_multiplier c) as [m|] eqn:Em|]; apply Hs; try done.
  eapply unit_positive, suffix_unit, Em.
Qed.

Lemma options_kept l : forall o image size o' image' size', options_typed o -> mkfs_options o image size l = inr (o', image', size') -> options_typed o'.
Proof.
  induction l as [|x l IH]; intros o image size o' image' size' Ho H; [by injection H as <- _ _|].
  pose proof Ho as (Hs & Hi & Hj & Hl). destruct x as [a|a|a|a|a| | |]; cbn [mkfs_options] in H; try done.
  - eapply IH; [|exact H]. done.
  - destruct (ParseSize a) as [n|] eqn:E; [|done]. apply ParseSize_value in E. eapply IH; [|exact H]. done.
  - destruct (ParseUnsigned a) as [n|] eqn:E; [|done]. destruct ((n =? 0) || (uint32_max <? n)) eqn:Eb; [done|].
    apply ParseUnsigned_value in E. eapply IH; [|exact H]. unfold options_typed, u32, u64, uint32_max in *. cbn. lia.
  - destruct (ParseUnsigned a) as [n|] eqn:E; [|done]. destruct ((n <? kMinimumJournalBlocks) || (uint32_max <? n)) eqn:Eb; [done|].
    apply ParseUnsigned_value in E. eapply IH; [|exact H]. unfold options_typed, u32, u64, uint32_max in *. cbn. lia.
  - destruct (ParseUnsigned a) as [n|] eqn:E; [|done]. match type of H with context [if ?b then _ else _] => destruct b eqn:Eb end; [done|].
    apply ParseUnsigned_value in E. eapply IH; [|exact H]. unfold options_typed, u32, u64, uint32_max in *. cbn. lia.
  - eapply IH; [|exact H]. done.
Qed.

Lemma refused_codes l : forall o image size p, mkfs_options o image size l = inl p -> exit_code p = 2 \/ exit_code p = 0 /\ opt_help ∈ l.
Proof.
  induction l as [|x l IH]; intros o image size p H; [done|].
  destruct x as [a|a|a|a|a| | |]; cbn [mkfs_options] in H; repeat case_match;
    try (injection H as <-; by left); try (apply IH in H as [?|[? ?]]; [by left|right; split; [done|by apply elem_of_cons; right]]).
  injection H as <-. right. split; [done|apply elem_of_cons; by left].
Qed.

Lemma formatted_healthy o w f f' sb : options_typed o -> surroundings_typed w -> f_trace f = [] -> wf_blocks (opened_content f) ->
  FormatImage o w f = (f', Ok sb) -> f_size f' = image_size_bytes o /\ exists r, healthy_image r (f_blocks f') /\ image_size_ r = f_size f' /\ total_inodes (rd_superblock r) = opt_total_inodes o.
Proof.
  intros Ho Hw Ht Hb E. destruct (format_outcome o w f f' (Ok sb) Ho Hw Ht Hb E) as [(_ & ? & _)|(sb' & g & fs & d & Hfr & _ & _ & _ & _ & _ & Hok)]; [done|].
  destruct (Hok sb eq_refl) as (-> & -> & Hz & _). split; [done|]. rewrite Hz. by eapply fresh_healthy.
Qed.

Lemma healthy_passes strerror detail json path arguments r size d : names_image json path arguments -> healthy_image r d -> image_size_ r = size -> total_inodes (rd_superblock r) < 4294967295 ->
  exit_code <$> (RunEufsck strerror detail arguments (fresh_start size d)).2 = Some kEufsckExitHealthy.
Proof.
  intros Hn Hh Hs Hsmall. rewrite (run_image _ _ _ _ _ _ Hn).
  destruct (healthy_checked strerror path r size d (names_nonempty _ _ _ Hn) Hh Hs Hsmall) as (report & -> & Hv). cbn [snd ends fmap option_fmap option_map exit_code]. by rewrite Hv.
Qed.

(** C26. The program eufs-mkfs. A command line it refuses (code 2, or 0 for help)
    leaves the file as it was. Otherwise the options handed to [FormatImage] fit
    their widths, the code is 0 exactly if it succeeded and 1 if it failed; after
    the code 0 the file has the size asked for and, if fewer than 4294967295
    inodes were asked for, eufsck, however it is called on it, ends with the code 0
    as well (with 4294967295 inodes the loops of the checker do not end). *)
Theorem mkfs_program options leftover error w f f' p :
  surroundings_typed w -> f_trace f = [] -> wf_blocks (opened_content f) ->
  mkfs_main options leftover error w f = (f', p) ->
  f' = f /\ (exit_code p = 2 \/ exit_code p = 0 /\ opt_help ∈ options) \/
  exists o, mkfs_options default_options false false options = inr (o, true, true) /\ options_typed o /\ leftover = false /\
    ((exists er, FormatImage o w f = (f', Err er) /\ exit_code p = 1) \/
     (exists sb, FormatImage o w f = (f', Ok sb) /\ exit_code p = 0 /\ f_size f' = image_size_bytes o /\
        (opt_total_inodes o < 4294967295 -> forall strerror detail json path arguments, names_image json path arguments ->
          exit_code <$> (RunEufsck strerror detail arguments (fresh_start (f_size f') (f_blocks f'))).2 = Some kEufsckExitHealthy))).
Proof.
  intros Hw Ht Hb H. unfold mkfs_main in H. destruct (mkfs_options default_options false false options) as [q|[[o image] size]] eqn:Eo.
  { injection H as <- <-. left. split; [done|]. by eapply refused_codes. }
  assert (options_typed o) as Ho by (eapply options_kept, Eo; unfold options_typed, u64, u32; cbn; lia).
  destruct image; cbn [negb orb] in H; [|injection H as <- <-; by left; split; [|left]].
  destruct size; cbn [negb orb] in H; [|injection H as <- <-; by left; split; [|left]].
  destruct leftover; [injection H as <- <-; by left; split; [|left]|]. right. exists o. split; [done|]. split; [done|]. split; [done|].
  destruct (FormatImage o w f) as [f1 [sb|er]] eqn:E; injection H as <- <-.
  - right. exists sb. destruct (formatted_healthy o w f f1 sb Ho Hw Ht Hb E) as (Hz & r & Hh & Hr & Hi).
    split; [done|]. split; [done|]. split; [done|]. intros Hsmall strerror detail json path arguments Hn. eapply healthy_passes; [done|done|done|by rewrite Hi].
  - left. by exists er.
Qed.

(** eufs-mkfs --image /i --size 160K --inodes 64 --journal-blocks 16 --request-ledger-entries 480. *)
Definition mkfs_line : list mkfs_option :=
  [opt_image [47; 105]; opt_size (text "160K"); opt_inodes (text "64"); opt_journal (text "16"); opt_ledger (text "480")].

Lemma mkfs_line_options : mkfs_options default_options false false mkfs_line = inr (mkfs_options0, true, true).
Proof. vm_compute. reflexivity. Qed.

Lemma mkfs_line_run : exists f' p, mkfs_main mkfs_line false [] surroundings0 no_file = (f', p) /\ exit_code p = 0.
Proof. destruct format0 as (f' & sb & E). unfold mkfs_main. rewrite mkfs_line_options. cbn [negb orb]. rewrite E. eexists _, _. split; reflexivity. Qed.

Lemma mkfs_program_witness : exists f' p, mkfs_main mkfs_line false [] surroundings0 no_file = (f', p) /\ exit_code p = 0 /\
  exit_code <$> (RunEufsck (fun _ => []) [] [[47; 105]] (fresh_start (f_size f') (f_blocks f'))).2 = Some kEufsckExitHealthy.
Proof.
  destruct mkfs_line_run as (f' & p & E & Hcode). exists f', p. split; [exact E|]. split; [exact Hcode|].
  destruct (mkfs_program mkfs_line false [] surroundings0 no_file f' p surroundings0_typed eq_refl no_file_blocks E) as
    [[_ [H|[_ H]]]|(o & Eo & _ & _ & [(er & _ & H)|(sb' & _ & _ & _ & Hck)])].
  - exfalso. rewrite Hcode in H. discriminate H.
  - exfalso. unfold mkfs_line in H. repeat (apply elem_of_cons in H as [H|H]; [discriminate H|]). exact (not_elem_of_nil _ H).
  - exfalso. rewrite Hcode in H. discriminate H.
  - apply (Hck ltac:(rewrite mkfs_line_options in Eo; injection Eo as <-; reflexivity) (fun _ => []) [] false [47; 105]). constructor. split; discriminate.
Defined.

(** * eufsd *)
Definition kImagePrefix : string := "--image=".
Definition kCrashPrefix : string := "--crash-after=".
(** [argument.substr(prefix.size())]. *)
Definition remove_prefix (prefix argument : string) : string :=
  String.substring (String.length prefix) (String.length argument - String.length prefix) argument.

Definition eufsd_usage : bytes := text "Usage: eufsd --image IMAGE [--crash-after STAGE] [FUSE options] MOUNTPOINT" ++ newline.

(** The loop over the arguments: the path of the image, the stage of the
    failpoint and the arguments left to libfuse; [None]: the usage is printed. *)
Fixpoint eufsd_arguments (image : string) (observer : option DurableStage) (fuse_arguments : list string) (l : list string)
  : option (string * option DurableStage * list string) :=
  match l with
  | [] => Some (image, observer, fuse_arguments)
  | argument :: rest =>
    if String.eqb argument "--image" then
      match rest with
      | [] => None
      | value :: rest => if negb (String.eqb image "") then None else eufsd_arguments value observer fuse_arguments rest
      end
    else if String.prefix kImagePrefix argument then
      if negb (String.eqb image "") || (String.length argument =? String.length kImagePrefix)%nat then None
      else eufsd_arguments (remove_prefix kImagePrefix argument) observer fuse_arguments rest
    else if String.eqb argument "--crash-after" then
      match rest with
      | [] => None
      | value :: rest =>
        if bool_decide (is_Some observer) then None
        else match ParseDurableStage value with Some stage => eufsd_arguments image (Some stage) fuse_arguments rest | None => None end
      end
    else if String.prefix kCrashPrefix argument then
      if bool_decide (is_Some observer) then None
      else match ParseDurableStage (remove_prefix kCrashPrefix argument) with
           | Some stage => eufsd_arguments image (Some stage) fuse_arguments rest
           | None => None
           end
    else eufsd_arguments image observer (fuse_arguments ++ [argument]) rest
  end.

(** [fuse_main], with the mount and the failpoint its callbacks hold; [detail]
    is the explanation of a failing [OpenFuseMountState]. *)
Definition eufsd_main (fuse_main : FuseMountState -> option DurableStage -> list string -> env -> env * process) (detail : bytes)
    (argv0 : string) (arguments : list string) (e : env) : env * process :=
  match eufsd_arguments "" None [argv0] arguments with
  | None => (e, refuse 2 eufsd_usage)
  | Some (image, observer, fuse_arguments) =>
    if String.eqb image "" then (e, refuse 2 eufsd_usage)
    else match OpenFuseMountState (text image) e with
         | (e1, Err er) => (e1, refuse 1 (text "eufsd: " ++ detail ++ text " (errno " ++ to_string (errno_number er) ++ text ")" ++ newline))
         | (e1, Ok (state, _)) => fuse_main state observer fuse_arguments e1
         end
  end.

(** ** What a command line says *)
(** The images, the stages and the other arguments of a line, in their order. *)
Inductive eufsd_line : list string -> list DurableStage -> list string -> list string -> Prop :=
| line_end : eufsd_line [] [] [] []
| line_image v images stages fuse l : eufsd_line images stages fuse l -> eufsd_line (v :: images) stages fuse ("--image" :: v :: l)%string
| line_image_is v images stages fuse l : v <> ""%string -> eufsd_line images stages fuse l ->
    eufsd_line (v :: images) stages fuse ((kImagePrefix ++ v)%string :: l)
| line_crash stage images stages fuse l : eufsd_line images stages fuse l ->
    eufsd_line images (stage :: stages) fuse ("--crash-after"%string :: DurableStageName stage :: l)
| line_crash_is stage images stages fuse l : eufsd_line images stages fuse l ->
    eufsd_line images (stage :: stages) fuse ((kCrashPrefix ++ DurableStageName stage)%string :: l)
| line_fuse a images stages fuse l :
    a <> "--image"%string -> a <> "--crash-after"%string -> String.prefix kImagePrefix a = false -> String.prefix kCrashPrefix a = false ->
    eufsd_line images stages fuse l -> eufsd_line images stages (a :: fuse) (a :: l).

(** One image, after any number of empty paths, and at most one stage. *)
Definition eufsd_command (arguments : list string) (image : string) (observer : option DurableStage) (fuse : list string) : Prop :=
  exists images stages k, eufsd_line images stages fuse arguments /\ images = replicate k ""%string ++ [image] /\ image <> ""%string /\
    stages = match observer with Some stage => [stage] | None => [] end.

Lemma prefix_app p v : String.prefix p (p ++ v) = true.
Proof.
  induction p as [|c p IH]; [by destruct v|]. change (String c p ++ v)%string with (String c (p ++ v)). cbn.
  destruct (Ascii.ascii_dec c c); [exact IH|done].
Qed.

Lemma substring_all v : String.substring 0 (String.length v) v = v.
Proof. induction v as [|c v IH]; [done|]. cbn. by rewrite IH. Qed.

Lemma remove_prefix_app p v : remove_prefix p (p ++ v) = v.
Proof.
  unfold remove_prefix. assert (String.length (p ++ v) - String.length p = String.length v)%nat as ->.
  { induction p as [|c p IH]; [apply Nat.sub_0_r|exact IH]. }
  induction p as [|c p IH]; [apply substring_all|exact IH].
Qed.

Lemma prefix_split p a : String.prefix p a = true -> a = (p ++ remove_prefix p a)%string.
Proof.
  intros H. assert (exists v, a = (p ++ v)%string) as [v ->].
  { revert a H. induction p as [|c p IH]; intros a H; [by exists a|]. destruct a as [|d a]; [done|]. cbn in H.
    destruct (Ascii.ascii_dec c d) as [->|]; [|done]. destruct (IH a H) as [v ->]. by exists v. }
  by rewrite remove_prefix_app.
Qed.

Lemma prefix_only p v : String.length (p ++ v) = String.length p <-> v = ""%string.
Proof.
  induction p as [|c p IH].
  - split; [|by intros ->]. by destruct v.
  - change (String c p ++ v)%string with (String c (p ++ v)). cbn [String.length]. rewrite <- IH. lia.
Qed.

(** What the loop keeps of the images and of the stages. *)
Fixpoint kept_image (image : string) (images : list string) : option string :=
  match images with
  | [] => Some image
  | v :: rest => if String.eqb image "" then kept_image v rest else None
  end.

Fixpoint kept_stage (observer : option DurableStage) (stages : list DurableStage) : option (option DurableStage) :=
  match stages, observer with
  | [], _ => Some observer
  | stage :: rest, None => kept_stage (Some stage) rest
  | _, Some _ => None
  end.

Lemma kept_image_spec images image : image <> ""%string -> (kept_image "" images = Some image <-> exists k, images = replicate k ""%string ++ [image]).
Proof.
  intros Hne. induction images as [|v images IH]; cbn [kept_image].
  { split; [by intros [= <-]|]. intros [[|k] H]; done. }
  cbn. destruct (String.eqb_spec v "") as [->|Hv].
  - rewrite IH. split; intros [k H].
    + exists (S k). by rewrite H.
    + destruct k as [|k]; [by injection H as <-|]. injection H as ->. by exists k.
  - split.
    + destruct images as [|w images]; [|cbn; by destruct (String.eqb_spec v "")]. intros [= <-]. by exists O.
    + intros [[|k] H]; [by injection H as -> ->|by injection H as -> _].
Qed.

Lemma kept_stage_spec stages observer : kept_stage None stages = Some observer <-> stages = match observer with Some stage => [stage] | None => [] end.
Proof.
  destruct stages as [|s [|t stages]]; cbn.
  - split; [by intros [= <-]|by destruct observer].
  - split; [by intros [= <-]|]. by destruct observer; [intros [= ->]|].
  - split; [done|]. by destruct observer.
Qed.

Lemma line_read l images stages fuse : eufsd_line images stages fuse l -> forall image observer acc image' observer',
  kept_image image images = Some image' -> kept_stage observer stages = Some observer' ->
  eufsd_arguments image observer acc l = Some (image', observer', acc ++ fuse).
Proof.
  induction 1 as [|v images stages fuse l H IH|v images stages fuse l Hv H IH|stage images stages fuse l H IH|stage images stages fuse l H IH|a images stages fuse l N1 N2 N3 N4 H IH];
    intros image observer acc image' observer' Hi Ho; cbn [eufsd_arguments].
  - injection Hi as <-. injection Ho as <-. by rewrite app_nil_r.
  - cbn in Hi. cbn. destruct (String.eqb image ""); [|done]. by apply IH.
  - cbn [kept_image] in Hi. rewrite (proj2 (String.eqb_neq _ _)), prefix_app by done. destruct (String.eqb image ""); [|done]. cbn [negb orb].
    rewrite (proj2 (Nat.eqb_neq _ _)) by (rewrite prefix_only; done). rewrite remove_prefix_app. by apply IH.
  - destruct observer; [done|]. cbn in Ho. rewrite (proj2 (String.eqb_neq "--crash-after" "--image")) by done.
    change (String.prefix kImagePrefix "--crash-after") with false. cbv iota. rewrite String.eqb_refl, parse_name. rewrite (bool_decide_false (is_Some None)) by by intros [? ?]. by apply IH.
  - destruct observer; [done|]. cbn [kept_stage] in Ho.
    assert (String.prefix kImagePrefix (kCrashPrefix ++ DurableStageName stage) = false) as -> by reflexivity.
    rewrite !(proj2 (String.eqb_neq (kCrashPrefix ++ _) _)) by done.
    rewrite prefix_app, remove_prefix_app, parse_name. rewrite (bool_decide_false (is_Some None)) by by intros [? ?]. by apply IH.
  - rewrite (proj2 (String.eqb_neq _ _) N1), (proj2 (String.eqb_neq _ _) N2), N3, N4. rewrite (IH _ _ (acc ++ [a]) _ _ Hi Ho). by rewrite <- app_assoc.
Qed.

Lemma read_line n : forall l image observer acc image' observer' fuse, (length l <= n)%nat ->
  eufsd_arguments image observer acc l = Some (image', observer', fuse) ->
  exists images stages fuse', eufsd_line images stages fuse' l /\ fuse = acc ++ fuse' /\ kept_image image images = Some image' /\ kept_stage observer stages = Some observer'.
Proof.
  induction n as [|n IH]; intros l image observer acc image' observer' fuse Hn H.
  { destruct l; [|cbn in Hn; lia]. injection H as <- <- <-. exists [], [], []. rewrite app_nil_r. repeat split. constructor. }
  destruct l as [|a l]; [injection H as <- <- <-; exists [], [], []; rewrite app_nil_r; repeat split; constructor|]. cbn [length] in Hn. cbn [eufsd_arguments] in H.
  destruct (String.eqb_spec a "--image") as [->|N1].
  { destruct l as [|v l]; [done|]. destruct (String.eqb image "") eqn:Ei; [|done]. cbn [negb] in H. apply IH in H as (images & stages & fuse' & Hl & -> & Hi & Ho); [|cbn in Hn; lia].
    exists (v :: images), stages, fuse'. repeat split; [by constructor| |done]. cbn [kept_image]. by rewrite Ei. }
  destruct (String.prefix kImagePrefix a) eqn:N3.
  { destruct (String.eqb image "") eqn:Ei; [|done]. cbn [negb orb] in H. apply prefix_split in N3. destruct (Nat.eqb_spec (String.length a) (String.length kImagePrefix)) as [|Hne]; [done|].
    rewrite N3, prefix_only in Hne. apply IH in H as (images & stages & fuse' & Hl & -> & Hi & Ho); [|lia].
    exists (remove_prefix kImagePrefix a :: images), stages, fuse'. repeat split; [|by cbn [kept_image]; rewrite Ei|done]. rewrite N3 at 2. by constructor. }
  destruct (String.eqb_spec a "--crash-after") as [->|N2].
  { destruct l as [|v l]; [done|]. destruct observer; [done|]. cbn [bool_decide] in H. rewrite bool_decide_false in H by by intros [? ?].
    destruct (ParseDurableStage v) as [stage|] eqn:Es; [|done]. apply parse_inv in Es as ->. apply IH in H as (images & stages & fuse' & Hl & -> & Hi & Ho); [|cbn in Hn; lia].
    exists images, (stage :: stages), fuse'. repeat split; [by constructor|done|done]. }
  destruct (String.prefix kCrashPrefix a) eqn:N4.
  { apply prefix_split in N4. destruct observer; [done|]. rewrite bool_decide_false in H by by intros [? ?].
    destruct (ParseDurableStage (remove_prefix kCrashPrefix a)) as [stage|] eqn:Es; [|done]. apply parse_inv in Es. apply IH in H as (images & stages & fuse' & Hl & -> & Hi & Ho); [|lia].
    exists images, (stage :: stages), fuse'. repeat split; [|done|done]. rewrite N4, Es. by constructor. }
  apply IH in H as (images & stages & fuse' & Hl & -> & Hi & Ho); [|lia]. exists images, stages, (a :: fuse'). rewrite <- app_assoc. repeat split; [by constructor|done|done].
Qed.

Lemma eufsd_arguments_spec arguments argv0 image observer fuse : image <> ""%string ->
  eufsd_arguments "" None [argv0] arguments = Some (image, observer, argv0 :: fuse) <-> eufsd_command arguments image observer fuse.
Proof.
  intros Hne. split.
  - intros (images & stages & fuse' & Hl & [= ->] & Hi & Ho)%(read_line (length arguments)); [|done].
    apply kept_image_spec in Hi as [k Hk]; [|done]. apply kept_stage_spec in Ho. by exists images, stages, k.
  - intros (images & stages & k & Hl & Hk & _ & Hs). apply (line_read _ _ _ _ Hl _ _ [argv0]); [apply kept_image_spec; eauto|by apply kept_stage_spec].
Qed.

(** The program eufsd. On a command line that names one image (any number of
    empty paths before it apart) and at most one stage, wherever these stand, it
    opens that image; if that fails it ends with the code 1 and never enters the
    event loop, else the loop gets the mount, the stage and every other argument in
    its order after the name of the program. On every other line it ends with the
    code 2 and does nothing to the image. *)
Theorem eufsd_program fuse_main detail argv0 arguments e :
  (forall image observer fuse, eufsd_command arguments image observer fuse ->
     eufsd_main fuse_main detail argv0 arguments e =
     match OpenFuseMountState (text image) e with
     | (e1, Err er) => (e1, refuse 1 (text "eufsd: " ++ detail ++ text " (errno " ++ to_string (errno_number er) ++ text ")" ++ newline))
     | (e1, Ok (state, _)) => fuse_main state observer (argv0 :: fuse) e1
     end) /\
  ((forall image observer fuse, ~ eufsd_command arguments image observer fuse) ->
     eufsd_main fuse_main detail argv0 arguments e = (e, refuse 2 eufsd_usage)).
Proof.
  split.
  - intros image observer fuse Hc. assert (image <> ""%string) as Hne by by destruct Hc as (? & ? & ? & _ & _ & ? & _).
    unfold eufsd_main. rewrite (proj2 (eufsd_arguments_spec _ argv0 _ _ _ Hne) Hc). by rewrite (proj2 (String.eqb_neq _ _) Hne).
  - intros Hno. unfold eufsd_main. destruct (eufsd_arguments "" None [argv0] arguments) as [[[image observer] fuse]|] eqn:E; [|done].
    destruct (String.eqb_spec image "") as [|Hne]; [done|]. pose proof E as E'.
    apply (read_line (length arguments)) in E' as (images & stages & fuse' & _ & -> & _); [|done].
    by apply eufsd_arguments_spec, Hno in E.
Qed.

(** eufsd -f --image=/i --crash-after commit /mnt. *)
Definition eufsd_line0 : list string := ["-f"; "--image=/i"; "--crash-after"; "commit"; "/mnt"]%string.

Lemma eufsd_program_witness : let fuse_main := fun (_ : FuseMountState) _ (l : list string) e => (e, mkProcess (Z.of_nat (length l)) [] []) in
  let e := mkEnv ∅ 0 [] [] in
  eufsd_main fuse_main [] "eufsd" eufsd_line0 e =
  match OpenFuseMountState (text "/i") e with
  | (e1, Err er) => (e1, refuse 1 (text "eufsd: " ++ [] ++ text " (errno " ++ to_string (errno_number er) ++ text ")" ++ newline))
  | (e1, Ok (state, _)) => fuse_main state (Some kCommit) ["eufsd"; "-f"; "/mnt"]%string e1
  end.
Proof.
  intros fuse_main e.
  destruct (eufsd_program fuse_main [] "eufsd" eufsd_line0 e) as [H _]. apply (H "/i"%string (Some kCommit) ["-f"; "/mnt"]%string).
  exists ["/i"%string], [kCommit], O. split; [|done]. apply line_fuse; [done..|]. apply (line_image_is "/i"); [done|].
  apply (line_crash kCommit). apply line_fuse; [done..|]. apply line_end.
Defined.

(** * The object client *)
Definition Nibble (value : Z) : option Z :=
  if (48 <=? value) && (value <=? 57) then Some (value - 48)
  else if (97 <=? value) && (value <=? 102) then Some (value - 97 + 10)
  else if (65 <=? value) && (value <=? 70) then Some (value - 65 + 10)
  else None.

(** The loop over the pairs of characters. *)
Fixpoint parse_pairs (s : bytes) : option bytes :=
  match s with
  | [] => Some []
  | h :: l :: rest =>
    match Nibble h, Nibble l with
    | Some high, Some low => match parse_pairs rest with Some id => Some (Z.lor (Z.shiftl high 4) low :: id) | None => None end
    | _, _ => None
    end
  | _ => None
  end.

Definition ParseRequestId (s : bytes) : option bytes :=
  if negb (Z.of_nat (length s) =? kRequestIdSize * 2) then None
  else match parse_pairs s with
       | Some id => if existsb (fun value => negb (value =? 0)) id then Some id else None
       | None => None
       end.

Definition Hex (b : bytes) : bytes := concat (map (fun byte => [kHex (Z.shiftr byte 4); kHex (Z.land byte 15)]) b).

(** The flags of the client. *)
Record client_flags := mkClientFlags {
  FLAGS_operation : bytes;
  FLAGS_key : bytes;
  FLAGS_payload : bytes;
  FLAGS_payload_file : bytes;
  FLAGS_output_file : bytes;
  FLAGS_timestamp_ns : Z;
  FLAGS_expected_inode : Z;
  FLAGS_expected_generation : Z;
  FLAGS_request_id : bytes;
  FLAGS_timeout_ms : Z
}.

(** What surrounds the client: what the payload file holds ([None]: it cannot be
    read), whether the channel can be set up and the output file written, and the
    three remote procedures; a failed call has a code and a text. A [GetObject]
    answers with its attachment too, [None] if copying it falls short. *)
Record client_world := mkClientWorld {
  payload_file_content : option bytes;
  channel_init : bool;
  output_written : bool;
  rpc_put : PutObjectRequest -> bytes -> result (Z * bytes) PutObjectResponse;
  rpc_get : bytes -> result (Z * bytes) (ReadObjectResponse * option bytes);
  rpc_stat : bytes -> result (Z * bytes) ReadObjectResponse
}.

Section client.
Context (EVP_Digest : bytes -> option bytes).

Definition ReadPayload (flags : client_flags) (w : client_world) : option bytes :=
  if bool_decide (FLAGS_payload_file flags = []) then Some (FLAGS_payload flags) else payload_file_content w.

Definition client_sha256 (payload : bytes) : option bytes :=
  match EVP_Digest payload with
  | Some digest => if Z.of_nat (length digest) =? 32 then Some digest else None
  | None => None
  end.

Definition ReadStatus_Name (status : ReadStatus) : bytes :=
  match status with
  | READ_STATUS_OK => text "READ_STATUS_OK"
  | READ_STATUS_INVALID_ARGUMENT => text "READ_STATUS_INVALID_ARGUMENT"
  | READ_STATUS_OVERLOADED => text "READ_STATUS_OVERLOADED"
  | READ_STATUS_SERVER_STOPPING => text "READ_STATUS_SERVER_STOPPING"
  | READ_STATUS_NOT_FOUND => text "READ_STATUS_NOT_FOUND"
  | READ_STATUS_STORAGE_ERROR => text "READ_STATUS_STORAGE_ERROR"
  end.

Definition PutStatus_Name (status : PutStatus) : bytes :=
  match status with
  | PUT_STATUS_OK => text "PUT_STATUS_OK"
  | PUT_STATUS_INVALID_ARGUMENT => text "PUT_STATUS_INVALID_ARGUMENT"
  | PUT_STATUS_OVERLOADED => text "PUT_STATUS_OVERLOADED"
  | PUT_STATUS_SERVER_STOPPING => text "PUT_STATUS_SERVER_STOPPING"
  | PUT_STATUS_ALREADY_EXISTS => text "PUT_STATUS_ALREADY_EXISTS"
  | PUT_STATUS_VERSION_MISMATCH => text "PUT_STATUS_VERSION_MISMATCH"
  | PUT_STATUS_STORAGE_ERROR => text "PUT_STATUS_STORAGE_ERROR"
  | PUT_STATUS_RESULT_UNKNOWN => text "PUT_STATUS_RESULT_UNKNOWN"
  | PUT_STATUS_REQUEST_ID_CONFLICT => text "PUT_STATUS_REQUEST_ID_CONFLICT"
  | PUT_STATUS_LEDGER_FULL => text "PUT_STATUS_LEDGER_FULL"
  | PUT_STATUS_NOT_FOUND => text "PUT_STATUS_NOT_FOUND"
  end.

Definition the_version (version : option ObjectVersion) : ObjectVersion := match version with Some v => v | None => no_version end.
Definition the_metadata (metadata : option ObjectMetadata) : ObjectMetadata :=
  match metadata with Some m => m | None => mkMetadata no_version 0 0 end.

Definition PrintMetadata (metadata : ObjectMetadata) : bytes :=
  text " inode=" ++ to_string (ov_inode_number (md_version metadata)) ++
  text " generation=" ++ to_string (ov_generation (md_version metadata)) ++
  text " size=" ++ to_string (md_size metadata) ++ text " mtime_ns=" ++ to_string (md_mtime_ns metadata).

Definition rpc_failed (failure : Z * bytes) : process :=
  refuse 5 (text "rpc_error=" ++ to_string failure.1 ++ text " detail=" ++ failure.2 ++ newline).

(** With what the client leaves in the output file. *)
Definition client_get (flags : client_flags) (w : client_world) : process * option bytes :=
  match rpc_get w (FLAGS_key flags) with
  | Err failure => (rpc_failed failure, None)
  | Ok (response, attachment) =>
    let ok := bool_decide (rr_status response = READ_STATUS_OK) in
    let print digest :=
      mkProcess (if ok then 0 else 10)
        (text "status=" ++ ReadStatus_Name (rr_status response) ++ PrintMetadata (the_metadata (rr_metadata response)) ++
         text " sha256=" ++ Hex digest ++ text " detail=" ++ rr_detail response ++ newline) [] in
    if negb ok then (print [], None)
    else match attachment with
         | None => (refuse 6 (text "could not copy or hash GetObject attachment" ++ newline), None)
         | Some payload =>
           match client_sha256 payload with
           | None => (refuse 6 (text "could not copy or hash GetObject attachment" ++ newline), None)
           | Some digest =>
             if bool_decide (FLAGS_output_file flags = []) then (print digest, None)
             else if negb (output_written w) then (refuse 7 (text "could not write GetObject payload" ++ newline), None)
             else (print digest, Some payload)
           end
         end
  end.

Definition client_stat (flags : client_flags) (w : client_world) : process :=
  match rpc_stat w (FLAGS_key flags) with
  | Err failure => rpc_failed failure
  | Ok response =>
    mkProcess (if bool_decide (rr_status response = READ_STATUS_OK) then 0 else 10)
      (text "status=" ++ ReadStatus_Name (rr_status response) ++ PrintMetadata (the_metadata (rr_metadata response)) ++
       text " detail=" ++ rr_detail response ++ newline) []
  end.

Definition client_request (flags : client_flags) (request_id payload digest : bytes) : PutObjectRequest :=
  mkPutRequest (FLAGS_key flags) (Z.of_nat (length payload)) digest (FLAGS_timestamp_ns flags)
    (if FLAGS_expected_inode flags =? 0 then CreateIfAbsent
     else ExpectedVersion (mkVersion (FLAGS_expected_inode flags) (FLAGS_expected_generation flags)))
    request_id.

Definition client_put (flags : client_flags) (w : client_world) (request_id : bytes) : process :=
  match ReadPayload flags w with
  | None => refuse 3 (text "could not read or hash payload" ++ newline)
  | Some payload =>
    match client_sha256 payload with
    | None => refuse 3 (text "could not read or hash payload" ++ newline)
    | Some digest =>
      match rpc_put w (client_request flags request_id payload digest) payload with
      | Err failure => rpc_failed failure
      | Ok response =>
        mkProcess (if bool_decide (pr_status response = PUT_STATUS_OK) then 0 else 10)
          (text "status=" ++ PutStatus_Name (pr_status response) ++
           text " committed_inode=" ++ to_string (ov_inode_number (the_version (pr_committed_version response))) ++
           text " committed_generation=" ++ to_string (ov_generation (the_version (pr_committed_version response))) ++
           text " current_inode=" ++ to_string (ov_inode_number (the_version (pr_current_version response))) ++
           text " current_generation=" ++ to_string (ov_generation (the_version (pr_current_version response))) ++
           text " detail=" ++ pr_detail response ++ newline) []
      end
    end
  end.

Definition asks_put (flags : client_flags) : bool := bool_decide (FLAGS_operation flags = text "put").

Definition client_main (flags : client_flags) (w : client_world) : process * option bytes :=
  if bool_decide (FLAGS_key flags = []) || (FLAGS_timeout_ms flags <=? 0) ||
     negb (asks_put flags) && negb (bool_decide (FLAGS_operation flags = text "get")) && negb (bool_decide (FLAGS_operation flags = text "stat"))
  then (refuse 2 (text "--operation=put|get|stat, --key, and positive --timeout_ms are required" ++ newline), None)
  else if asks_put flags &&
     (negb (Bool.eqb (FLAGS_expected_inode flags =? 0) (FLAGS_expected_generation flags =? 0)) ||
      negb (Z.of_nat (length (FLAGS_request_id flags)) =? 32))
  then (refuse 2 (text "expected inode/generation must be paired and request_id must be a nonzero 32-hex-byte value" ++ newline), None)
  else
    match (if asks_put flags then ParseRequestId (FLAGS_request_id flags) else Some (zeros 16)) with
    | None => (refuse 2 (text "--request_id must contain 32 nonzero hexadecimal characters" ++ newline), None)
    | Some request_id =>
      if negb (channel_init w) then (refuse 4 (text "could not initialize brpc channel" ++ newline), None)
      else if bool_decide (FLAGS_operation flags = text "get") then client_get flags w
      else if bool_decide (FLAGS_operation flags = text "stat") then (client_stat flags w, None)
      else (client_put flags w request_id, None)
    end.
End client.

(** ** The Request-ID *)
(** A letter in its lower case. *)
Definition to_lower (c : Z) : Z := if (65 <=? c) && (c <=? 90) then c + 32 else c.

Lemma Nibble_spec c n : Nibble c = Some n -> 0 <= n < 16 /\ kHex n = to_lower c.
Proof. unfold Nibble, kHex, to_lower. intros H. repeat (case_match; try done); injection H as <-; lia. Qed.

Lemma Nibble_kHex n : 0 <= n < 16 -> Nibble (kHex n) = Some n.
Proof.
  intros Hn. unfold Nibble, kHex. destruct (Z.ltb_spec n 10).
  - rewrite (proj2 (andb_true_iff _ _)) by lia. f_equal. lia.
  - rewrite (proj2 (andb_false_iff _ _)) by lia. rewrite (proj2 (andb_true_iff _ _)) by lia. f_equal. lia.
Qed.

Lemma join_nibbles h l : 0 <= h < 16 -> 0 <= l < 16 -> Z.lor (Z.shiftl h 4) l = 16 * h + l.
Proof.
  intros Hh Hl. assert (forallb (fun h => forallb (fun l => Z.lor (Z.shiftl h 4) l =? 16 * h + l) (map Z.of_nat (seq 0 16))) (map Z.of_nat (seq 0 16)) = true) as H by reflexivity.
  assert (forall n, 0 <= n < 16 -> In n (map Z.of_nat (seq 0 16))) as Hin by (intros n Hn; apply in_map_iff; exists (Z.to_nat n); split; [lia|apply in_seq; lia]).
  rewrite forallb_forall in H. specialize (H h (Hin h Hh)). rewrite forallb_forall in H. by apply Z.eqb_eq, H, Hin.
Qed.

Lemma split_nibbles b : u8 b -> 0 <= Z.shiftr b 4 < 16 /\ 0 <= Z.land b 15 < 16 /\ 16 * Z.shiftr b 4 + Z.land b 15 = b.
Proof.
  unfold u8. intros Hb. rewrite Z.shiftr_div_pow2 by lia. change 15 with (Z.ones 4). rewrite Z.land_ones by lia. change (2 ^ 4) with 16.
  pose proof (Z.div_mod b 16). pose proof (Z.mod_pos_bound b 16). split; [|lia]. split; [apply Z.div_pos; lia|apply Z.div_lt_upper_bound; lia].
Qed.

Lemma parse_pairs_spec : forall n s id, (length s <= n)%nat -> parse_pairs s = Some id ->
  bytes_ok id /\ length s = (2 * length id)%nat /\ Hex id = map to_lower s.
Proof.
  induction n as [|n IH]; intros s id Hn H; [destruct s; [|cbn in Hn; lia]; injection H as <-; by split; [constructor|]|].
  destruct s as [|h [|l s]]; [injection H as <-; by split; [constructor|]|done|]. cbn in H.
  destruct (Nibble h) as [high|] eqn:Eh; [|done]. destruct (Nibble l) as [low|] eqn:El; [|done]. destruct (parse_pairs s) as [rest|] eqn:Es; [|done]. injection H as <-.
  apply IH in Es as (Hb & Hl & Hx); [|cbn in Hn; lia]. apply Nibble_spec in Eh as [Hh Kh], El as [Hlo Kl]. rewrite join_nibbles by done.
  assert (u8 (16 * high + low)) as Hu by (unfold u8; lia). destruct (split_nibbles _ Hu) as (S1 & S2 & S3).
  split; [by constructor|]. split; [cbn; lia|]. change (Hex (16 * high + low :: rest)) with
    (kHex (Z.shiftr (16 * high + low) 4) :: kHex (Z.land (16 * high + low) 15) :: Hex rest).
  replace (Z.shiftr (16 * high + low) 4) with high by lia. replace (Z.land (16 * high + low) 15) with low by lia. cbn. by rewrite Kh, Kl, Hx.
Qed.

Lemma parse_pairs_Hex id : bytes_ok id -> parse_pairs (Hex id) = Some id.
Proof.
  induction 1 as [|b id Hb Hid IH]; [done|]. change (Hex (b :: id)) with (kHex (Z.shiftr b 4) :: kHex (Z.land b 15) :: Hex id). cbn.
  destruct (split_nibbles b Hb) as (S1 & S2 & S3). rewrite !Nibble_kHex by done. by rewrite IH, join_nibbles, S3.
Qed.

Lemma not_all_zero id : existsb (fun value => negb (value =? 0)) id = negb (IsAllZeroRequestId id).
Proof. unfold IsAllZeroRequestId. induction id as [|b id IH]; [done|]. cbn. rewrite IH. by rewrite negb_andb. Qed.

Lemma ParseRequestId_spec s id : ParseRequestId s = Some id -> bytes_ok id /\ Z.of_nat (length id) = kRequestIdSize /\ IsAllZeroRequestId id = false /\ Hex id = map to_lower s.
Proof.
  unfold ParseRequestId, kRequestIdSize. destruct (Z.eqb_spec (Z.of_nat (length s)) (16 * 2)) as [Hl|]; [|done]. cbn [negb].
  destruct (parse_pairs s) as [i|] eqn:E; [|done]. rewrite not_all_zero. destruct (IsAllZeroRequestId i) eqn:Ez; [done|]. intros [= <-].
  apply (parse_pairs_spec (length s)) in E as (Hb & Hlen & Hx); [|done]. split; [done|]. split; [lia|done].
Qed.

Lemma Hex_length b : length (Hex b) = (2 * length b)%nat.
Proof. induction b as [|c b IH]; [done|]. unfold Hex in *. cbn. rewrite IH. lia. Qed.

(** The Request-ID as text. Every identifier of 16 bytes that are not all zero
    is read back from the text [Hex] writes; and whatever [ParseRequestId]
    accepts, in whichever case, is the text of an identifier the service accepts. *)
Theorem request_id_roundtrip s id :
  (bytes_ok id -> length id = 16%nat -> IsAllZeroRequestId id = false -> ParseRequestId (Hex id) = Some id) /\
  (ParseRequestId s = Some id ->
     bytes_ok id /\ Z.of_nat (length id) = kRequestIdSize /\ IsAllZeroRequestId id = false /\ Hex id = map to_lower s).
Proof.
  split; [|apply ParseRequestId_spec]. intros Hb Hl Hz. unfold ParseRequestId. rewrite Hex_length, Hl. cbn [negb Z.eqb].
  rewrite parse_pairs_Hex, not_all_zero, Hz by done. done.
Qed.

Lemma request_id_roundtrip_witness : ParseRequestId (Hex (zeros 15 ++ [171])) = Some (zeros 15 ++ [171]).
Proof.
  apply (request_id_roundtrip [] (zeros 15 ++ [171])); [|reflexivity|reflexivity]. apply Forall_app. split; [apply bytes_ok_zeros|]. repeat constructor; unfold u8; lia.
Defined.

(** ** The client and the service *)
Lemma client_put_shape digest flags w p out : FLAGS_operation flags = text "put" -> client_main digest flags w = (p, out) ->
  exit_code p = 2 \/ exit_code p = 4 \/
  FLAGS_key flags <> [] /\ (FLAGS_expected_inode flags = 0 <-> FLAGS_expected_generation flags = 0) /\
  exists request_id, ParseRequestId (FLAGS_request_id flags) = Some request_id /\ p = client_put digest flags w request_id.
Proof.
  intros Hop H. unfold client_main in H. assert (asks_put flags = true) as Hput by (unfold asks_put; by rewrite Hop, bool_decide_true). rewrite Hput, Hop in H. cbn [negb andb orb] in H.
  rewrite orb_false_r in H.
  destruct (bool_decide (FLAGS_key flags = []) || (FLAGS_timeout_ms flags <=? 0)) eqn:E1; [injection H as <- _; by left|]. apply orb_false_iff in E1 as [E1 _]. apply bool_decide_eq_false in E1.
  match type of H with (if ?b then _ else _) = _ => destruct b eqn:E2 end; [injection H as <- _; by left|].
  destruct (ParseRequestId (FLAGS_request_id flags)) as [request_id|] eqn:E3; [|injection H as <- _; by left].
  destruct (channel_init w); cbn [negb] in H; [|injection H as <- _; by right; left].
  rewrite !bool_decide_false in H by by vm_compute. injection H as <- _. right. right. split; [done|]. split; [|by exists request_id].
  apply orb_false_iff in E2 as [E2 _]. apply negb_false_iff, Bool.eqb_prop in E2. lia.
Qed.

(** The answer of [GetObject]'s and [PutObject]'s checks that are left. *)
Definition too_large (context : PutContext) : bool :=
  (kMaxNameLength <? Z.of_nat (length (rq_key (px_request context)))) || (kMaxFileSize <? attachment_size context).

Lemma client_request_valid flags request_id payload digest context :
  FLAGS_key flags <> [] -> ParseRequestId (FLAGS_request_id flags) = Some request_id -> length digest = 32%nat ->
  px_request context = client_request flags request_id payload digest -> concat (px_attachment context) = payload ->
  invalid_put context = if too_large context then Some (text "key or payload exceeds the EUFS v1 format limit") else None.
Proof.
  intros Hk Hid Hd Hreq Hatt. unfold invalid_put, too_large, attachment_size. rewrite Hreq, Hatt. unfold client_request. cbn [rq_key rq_payload_size rq_sha256 rq_request_id rq_precondition].
  apply ParseRequestId_spec in Hid as (_ & Hl & Hz & _). rewrite bool_decide_false, Z.eqb_refl, Hd, Hl, Hz by done. cbn [negb orb].
  destruct (FLAGS_expected_inode flags =? 0); reflexivity.
Qed.

Section agreement.
Context {digest_context : Type} (EVP_DigestInit_ex : option digest_context).
Context (EVP_DigestUpdate : digest_context -> bytes -> option digest_context) (EVP_DigestFinal_ex : digest_context -> option bytes).
(** [EVP_Digest] in the process of the service, and in that of the client. *)
Context (EVP_Digest client_digest : bytes -> option bytes).
Abbreviation sha256 := (ComputeSha256 EVP_DigestInit_ex EVP_DigestUpdate EVP_DigestFinal_ex).

(** What OpenSSL documents of its digests: a new context stands for no bytes, an
    update adds bytes to those a context stands for, and the final value is the
    digest [EVP_Digest] computes of them at once. Every call may fail. *)
Record openssl_sha256 (represents : digest_context -> bytes -> Prop) : Prop := {
  ossl_init : forall context, EVP_DigestInit_ex = Some context -> represents context [];
  ossl_update : forall context data more context', represents context data -> EVP_DigestUpdate context more = Some context' -> represents context' (data ++ more);
  ossl_final : forall context data digest digest', represents context data -> EVP_DigestFinal_ex context = Some digest ->
    client_digest data = Some digest' -> digest = digest'
}.

(** No call on a digest context fails. *)
Definition digests_succeed : Prop :=
  is_Some EVP_DigestInit_ex /\ (forall context data, is_Some (EVP_DigestUpdate context data)) /\ (forall context, is_Some (EVP_DigestFinal_ex context)).

Lemma digest_blocks_represents represents blocks : openssl_sha256 represents -> forall context data context', represents context data ->
  digest_blocks EVP_DigestUpdate context blocks = Some context' -> represents context' (data ++ concat blocks).
Proof.
  intros Hssl. induction blocks as [|b blocks IH]; intros context data context' Hr H; cbn [digest_blocks concat] in *; [injection H as <-; by rewrite app_nil_r|].
  destruct (EVP_DigestUpdate context b) as [c|] eqn:E; [|done]. rewrite app_assoc. eapply IH; [|exact H]. by eapply (ossl_update _ Hssl).
Qed.

Lemma digest_blocks_succeed blocks : digests_succeed -> forall context, is_Some (digest_blocks EVP_DigestUpdate context blocks).
Proof.
  intros (_ & Hu & _). induction blocks as [|b blocks IH]; intros context; cbn [digest_blocks]; [by eexists|]. destruct (Hu context b) as [c ->]. apply IH.
Qed.

(** A digest in pieces is the digest the client computed, or the service has none. *)
Lemma sha256_agrees represents blocks digest : openssl_sha256 represents -> client_sha256 client_digest (concat blocks) = Some digest ->
  (sha256 blocks = None \/ sha256 blocks = Some digest) /\ (digests_succeed -> sha256 blocks = Some digest).
Proof.
  intros Hssl Hd. unfold client_sha256 in Hd. destruct (client_digest (concat blocks)) as [d|] eqn:Ed; [|done].
  destruct (Z.eqb_spec (Z.of_nat (length d)) 32) as [Hl|]; [|done]. injection Hd as <-. unfold ComputeSha256.
  destruct EVP_DigestInit_ex as [c0|] eqn:E0; [|split; [by left|intros [[c1 Hc1] _]; congruence]].
  destruct (digest_blocks EVP_DigestUpdate c0 blocks) as [c|] eqn:E1; [|split; [by left|intros Hs; destruct (digest_blocks_succeed blocks Hs c0); congruence]].
  pose proof (digest_blocks_represents represents blocks Hssl c0 [] c (ossl_init _ Hssl _ E0) E1) as Hr. cbn [app] in Hr.
  destruct (EVP_DigestFinal_ex c) as [x|] eqn:E2; [|split; [by left|intros (_ & _ & Hs); destruct (Hs c); congruence]].
  rewrite (ossl_final _ Hssl c _ x d Hr E2 Ed), (proj2 (Z.eqb_eq _ _) Hl : (Z.of_nat (length d) =? kSha256Size) = true). split; [by right|done].
Qed.

(** The fingerprint of a request of the client exists unless its digest fails. *)
Lemma client_fingerprint flags request_id payload digest er :
  FLAGS_key flags <> [] -> (FLAGS_expected_inode flags = 0 <-> FLAGS_expected_generation flags = 0) ->
  Z.of_nat (length (FLAGS_key flags)) <= kMaxNameLength -> Z.of_nat (length payload) <= kMaxFileSize ->
  BuildRequestFingerprint EVP_Digest (fingerprint_input (client_request flags request_id payload digest) digest) = Err er ->
  forall d, EVP_Digest (canonical (fingerprint_input (client_request flags request_id payload digest) digest)) = Some d -> length d <> 32%nat.
Proof.
  intros Hk Hpair Hn Hp H d Ed Hl. unfold BuildRequestFingerprint in H. rewrite Ed, Hl in H. clear Ed.
  assert (length (FLAGS_key flags) <> 0%nat) as Hk0 by by intros E%length_zero_iff_nil.
  unfold fingerprint_input, client_request, is_create, is_replace, expected_of in H. unfold kMaxNameLength in *.
  cbn [RequestFingerprint.m_operation RequestFingerprint.m_key RequestFingerprint.m_payload_size RequestFingerprint.m_expected_inode RequestFingerprint.m_expected_generation
    rq_key rq_payload_size rq_precondition] in H.
  rewrite (proj2 (Z.eqb_neq _ 0)), !(proj2 (Z.ltb_ge _ _)) in H by lia. cbn [orb Nat.eqb] in H.
  destruct (Z.eqb_spec (FLAGS_expected_inode flags) 0) as [E|E]; cbn [ov_inode_number ov_generation no_version] in H; [done|].
  rewrite !(proj2 (Z.eqb_neq _ 0)) in H by tauto. done.
Qed.

(** C29. The client and the service agree. Assuming of OpenSSL that a digest
    computed in pieces is the digest computed at once, where both are computed, a
    run of the client that does not end with one of the codes 2, 3 and 4 has sent
    one [PutObject] request. Its exit code tells a failed call (5), a stored object
    (0) and every other answer (10) apart. However the attachment is split into
    blocks, the service computes the digest in the request or fails to compute one
    (which it does not if no call on its digest context fails). It refuses the
    request as an invalid argument only for a key or a payload beyond the limits of
    the format, or if the digest of the fingerprint fails. *)
Theorem client_service_agree represents flags w p out :
  openssl_sha256 represents -> FLAGS_operation flags = text "put" -> client_main client_digest flags w = (p, out) -> ~ (2 <= exit_code p <= 4) ->
  exists request payload, ReadPayload flags w = Some payload /\ rq_key request = FLAGS_key flags /\
    (exit_code p = match rpc_put w request payload with
                   | Err _ => 5
                   | Ok response => if bool_decide (pr_status response = PUT_STATUS_OK) then 0 else 10
                   end) /\
    (FLAGS_expected_inode flags = 0 <-> rq_precondition request = CreateIfAbsent) /\ Hex (rq_request_id request) = map to_lower (FLAGS_request_id flags) /\
    forall context, px_request context = request -> concat (px_attachment context) = payload ->
      invalid_put context = (if too_large context then Some (text "key or payload exceeds the EUFS v1 format limit") else None) /\
      (sha256 (px_attachment context) = None \/ sha256 (px_attachment context) = Some (rq_sha256 request)) /\
      (digests_succeed -> sha256 (px_attachment context) = Some (rq_sha256 request)) /\
      (forall ch n limiter limiter' context' recorded a, too_large context = false -> px_response context = new_put_response ->
         admit_put EVP_DigestInit_ex EVP_DigestUpdate EVP_DigestFinal_ex EVP_Digest ch n limiter context = (limiter', context', recorded, a) ->
         pr_status (px_response context') = PUT_STATUS_INVALID_ARGUMENT ->
         forall d, EVP_Digest (canonical (fingerprint_input request (rq_sha256 request))) = Some d -> length d <> 32%nat).
Proof.
  intros Hssl Hop H Hcode. destruct (client_put_shape client_digest flags w p out Hop H) as [?|[?|(Hk & Hpair & request_id & Hid & ->)]]; [lia|lia|].
  unfold client_put in *. destruct (ReadPayload flags w) as [payload|]; [|cbn in Hcode; lia].
  destruct (client_sha256 client_digest payload) as [digest|] eqn:Ed; [|cbn in Hcode; lia].
  exists (client_request flags request_id payload digest), payload. split; [done|]. split; [done|]. split; [by destruct (rpc_put w _ _)|].
  split; [|split].
  - unfold client_request. cbn [rq_precondition]. by destruct (Z.eqb_spec (FLAGS_expected_inode flags) 0).
  - by apply ParseRequestId_spec in Hid as (_ & _ & _ & ?).
  - intros context Hr Ha. assert (length digest = 32%nat) as Hlen.
    { unfold client_sha256 in Ed. destruct (client_digest payload) as [d|]; [|done]. destruct (Z.eqb_spec (Z.of_nat (length d)) 32); [|done]. injection Ed as <-. lia. }
    split; [by eapply client_request_valid|]. rewrite <- Ha in Ed. destruct (sha256_agrees represents _ _ Hssl Ed) as [Hs Hall]. split; [done|]. split; [done|].
    intros ch n limiter limiter' context' recorded a Hsmall Hnew E Hst. unfold admit_put in E.
    destruct (TryAcquire limiter (attachment_size context)) as [l [lease|]]; [|injection E as _ <- _ _; done].
    destruct Hs as [Hs|Hs]; rewrite Hs in E; [injection E as _ <- _ _; done|]. rewrite Hr in E. cbn [rq_sha256 client_request] in E. rewrite bool_decide_true in E by done. cbn [negb] in E.
    destruct (ch_throw ch); [injection E as _ <- _ _; done|]. unfold too_large, attachment_size in Hsmall. rewrite Hr, Ha in Hsmall. apply orb_false_iff in Hsmall as [S1 S2].
    destruct (BuildRequestFingerprint _ _) as [f|er] eqn:Ef; [injection E as _ <- _ _; cbn in Hst; by rewrite Hnew in Hst|].
    apply Z.ltb_ge in S1, S2. by apply (client_fingerprint flags request_id payload digest er).
Qed.
End agreement.

(** A digest: the first 32 bytes. *)
Definition digest0 (b : bytes) : option bytes := Some (take 32 (b ++ zeros 32)).
Definition update0 (context data : bytes) : option bytes := Some (context ++ data).

Lemma digest0_laws : openssl_sha256 (Some []) update0 digest0 digest0 eq.
Proof.
  constructor.
  - by intros context [= ->].
  - by intros context data more context' <- [= <-].
  - intros context data digest digest' <- [= <-] [= <-]. done.
Qed.

Lemma digest0_succeeds : digests_succeed (Some []) update0 digest0.
Proof. split; [by eexists|]. split; intros; by eexists. Qed.

Definition flags0 : client_flags := mkClientFlags (text "put") (text "key") [1; 2; 3] [] [] 7 0 0 (text "000000000000000000000000000000Ab") 5000.
Definition world0 : client_world := mkClientWorld None true true (fun _ _ => Ok new_put_response) (fun _ => Err (1, [])) (fun _ => Err (1, [])).

(** The payload 1, 2, 3 in two blocks: the service accepts the request. *)
Lemma client_service_agree_witness : exists request, Hex (rq_request_id request) = text "000000000000000000000000000000ab" /\
  invalid_put (mkPutContext request [[1]; [2; 3]] (mkIdentity [] []) new_put_response PUT_STATUS_OK [] false) = None /\
  ComputeSha256 (Some []) update0 digest0 [[1]; [2; 3]] = Some (rq_sha256 request).
Proof.
  destruct (client_main digest0 flags0 world0) as [p out] eqn:E.
  assert (exit_code p = 0) as Hcode by (apply (f_equal (fun x => exit_code x.1)) in E; cbn [fst] in E; rewrite <- E; vm_compute; reflexivity).
  destruct (client_service_agree (Some []) update0 digest0 digest0 digest0 eq flags0 world0 p out digest0_laws eq_refl E) as
    (request & payload & Hp & Hkey & _ & _ & Hid & Hctx).
  - lia.
  - exists request. split; [rewrite Hid; vm_compute; reflexivity|]. injection Hp as <-.
    destruct (Hctx (mkPutContext request [[1]; [2; 3]] (mkIdentity [] []) new_put_response PUT_STATUS_OK [] false) eq_refl eq_refl) as (Hi & _ & Hs & _). split.
    + rewrite Hi. unfold too_large. cbn [px_request]. rewrite Hkey. vm_compute. reflexivity.
    + exact (Hs digest0_succeeds).
Defined.

(** * The object server *)
Record server_flags := mkServerFlags {
  FLAGS_image : string;
  FLAGS_max_inflight_bytes : Z;
  FLAGS_max_queued_write_tasks : Z;
  FLAGS_max_queued_read_tasks : Z;
  FLAGS_read_workers : Z;
  FLAGS_crash_after : string
}.

(** What brpc answers: whether the service could be added, the endpoint read and
    the server started. *)
Record server_world := mkServerWorld { service_added : bool; endpoint_read : bool; server_started : bool }.

Definition service_options (flags : server_flags) : ObjectServiceOptions :=
  mkServiceOptions (FLAGS_max_inflight_bytes flags) (Z.to_nat (FLAGS_max_queued_write_tasks flags)) (Z.to_nat (FLAGS_max_queued_read_tasks flags))
    (Z.to_nat (FLAGS_read_workers flags)).

(** The stage of the failpoint: [None] if it has no such name. *)
Definition server_failpoint (flags : server_flags) : option (option DurableStage) :=
  if String.eqb (FLAGS_crash_after flags) "" then Some None
  else match ParseDurableStage (FLAGS_crash_after flags) with Some stage => Some (Some stage) | None => None end.

(** The exit code, or the service that runs until the process is asked to quit.
    [options] are the defaults of the backend. *)
Definition server_main (options : ObjectBackendOptions) (flags : server_flags) (w : server_world) (e : env)
  : env * (Z + ObjectServiceImpl * option DurableStage) :=
  if String.eqb (FLAGS_image flags) "" || (FLAGS_max_queued_write_tasks flags =? 0) || (FLAGS_max_queued_read_tasks flags =? 0) ||
     (FLAGS_read_workers flags =? 0) then (e, inl 2)
  else match server_failpoint flags with
  | None => (e, inl 2)
  | Some observer =>
    match ObjectBackend.Open (text (FLAGS_image flags)) options e with
    | (e1, Err _) => (e1, inl 3)
    | (e1, Ok (backend, _)) =>
      if negb (service_added w) then (e1, inl 4)
      else if negb (endpoint_read w) then (e1, inl 5)
      else if negb (server_started w) then (e1, inl 6)
      else (e1, inr (new_service (backend, disk e1) (service_options flags), observer))
    end
  end.

(** A server that runs has opened the image and has what the service needs to
    come to rest: a reader, and a place in each queue. A refused command line
    leaves the image alone. *)
Theorem server_program options flags w e :
  0 <= FLAGS_max_queued_write_tasks flags -> 0 <= FLAGS_max_queued_read_tasks flags -> 0 <= FLAGS_read_workers flags ->
  match server_main options flags w e with
  | (e', inr (service, observer)) =>
      exists backend action, ObjectBackend.Open (text (FLAGS_image flags)) options e = (e', Ok (backend, action)) /\
        service = new_service (backend, disk e') (service_options flags) /\
        (1 <= max_queued_write_tasks (service_options flags))%nat /\ (1 <= max_queued_read_tasks (service_options flags))%nat /\
        (1 <= read_worker_count (service_options flags))%nat
  | (e', inl code) => (code = 2 -> e' = e) /\ 2 <= code <= 6 /\ (code = 3 <-> exists er, server_failpoint flags <> None /\ code <> 2 /\ (ObjectBackend.Open (text (FLAGS_image flags)) options e).2 = Err er)
  end.
Proof.
  intros Hw Hr Hn. unfold server_main. destruct (String.eqb (FLAGS_image flags) "" || _ || _ || _) eqn:E.
  { split; [done|]. split; [lia|]. split; [done|]. by intros (? & _ & ? & _). }
  destruct (server_failpoint flags) as [observer|].
  2: { split; [done|]. split; [lia|]. split; [done|]. by intros (? & ? & _). }
  destruct (ObjectBackend.Open (text (FLAGS_image flags)) options e) as [e1 [[backend action]|er]].
  2: { split; [done|]. split; [lia|]. split; [|done]. intros _. by exists er. }
  repeat (apply orb_false_iff in E as [E ?]). unfold service_options. cbn [max_queued_write_tasks max_queued_read_tasks read_worker_count].
  destruct (service_added w), (endpoint_read w), (server_started w); cbn [negb];
    try (split; [done|]; split; [lia|]; split; [done|]; by intros (? & _ & _ & ?)).
  exists backend, action. repeat split; lia.
Qed.

(** * The load client *)
Record load_flags := mkLoadFlags {
  FLAGS_concurrency : Z;
  FLAGS_requests : Z;
  FLAGS_payload_size : Z;
  FLAGS_key_prefix : bytes;
  FLAGS_request_id_seed : Z;
  FLAGS_timestamp_base : Z;
  FLAGS_load_timeout_ms : Z;
  FLAGS_result_file : bytes
}.

Definition load_refused (flags : load_flags) : bool :=
  (FLAGS_concurrency flags =? 0) || (FLAGS_requests flags =? 0) || (FLAGS_requests flags <? FLAGS_concurrency flags) ||
  (FLAGS_payload_size flags =? 0) || (uint64_max <? FLAGS_payload_size flags) || (FLAGS_load_timeout_ms flags <=? 0) ||
  bool_decide (FLAGS_key_prefix flags = []).

Definition PutLe64 (value : Z) : bytes := map (fun index => Z.land (Z.shiftr value (8 * Z.of_nat index)) 255) (seq 0 8).

Definition MakeRequestId (flags : load_flags) (index : Z) : bytes :=
  PutLe64 (FLAGS_request_id_seed flags) ++ PutLe64 ((index + 1) mod 2 ^ 64).

Definition load_key (flags : load_flags) (index : Z) : bytes := FLAGS_key_prefix flags ++ to_string index.

(** The request with the number [index]. *)
Definition load_request (flags : load_flags) (digest : bytes) (index : Z) : PutObjectRequest :=
  mkPutRequest (load_key flags index) (FLAGS_payload_size flags) digest ((FLAGS_timestamp_base flags + index) mod 2 ^ 64)
    CreateIfAbsent (MakeRequestId flags index).

(** How a call ended: it failed, or it was answered; with the time it took. *)
Record call_outcome := mkCallOutcome { co_response : result bytes PutObjectResponse; co_latency_us : Z }.

Record RequestResult := mkRequestResult {
  rs_index : Z;
  rs_key : bytes;
  rs_request_id_hex : bytes;
  rs_status : PutStatus;
  rs_rpc_failed : bool;
  rs_latency_us : Z;
  rs_detail : bytes
}.

(** An element of [results] before its request. *)
Definition new_result : RequestResult := mkRequestResult 0 [] [] PUT_STATUS_STORAGE_ERROR false 0 [].

Definition filled_result (flags : load_flags) (index : Z) (o : call_outcome) : RequestResult :=
  match co_response o with
  | Err error_text =>
    mkRequestResult index (load_key flags index) (Hex (MakeRequestId flags index)) PUT_STATUS_STORAGE_ERROR true (co_latency_us o) error_text
  | Ok response =>
    mkRequestResult index (load_key flags index) (Hex (MakeRequestId flags index)) (pr_status response) false (co_latency_us o) (pr_detail response)
  end.

(** ** The threads *)
(** Where a sending thread is: before [ArriveAndWait], waiting at the gate,
    before taking an index, in a call, ended. *)
Inductive sender := Arriving | AtGate | Free | Calling (index : Z) | Done.

(** The gate, [next_index], the results, the threads; and the calls made, in
    order. *)
Record load_state := mkLoadState {
  gate_arrived : nat;
  gate_started : bool;
  next_index : Z;
  ld_results : list RequestResult;
  ld_senders : list sender;
  ld_sent : list Z
}.

Definition load_start (flags : load_flags) : load_state :=
  mkLoadState 0 false 0 (replicate (Z.to_nat (FLAGS_requests flags)) new_result) (replicate (Z.to_nat (FLAGS_concurrency flags)) Arriving) [].

(** What happens next: thread [i] moves (the outcome is that of its call, if it
    is in one), or the main thread opens the gate. *)
Inductive load_move := SenderMoves (i : nat) (o : call_outcome) | StartWhenReady.

Definition load_step (flags : load_flags) (m : load_move) (s : load_state) : option load_state :=
  let 'mkLoadState arrived started next results senders sent := s in
  match m with
  | StartWhenReady =>
    if negb started && (arrived =? Z.to_nat (FLAGS_concurrency flags))%nat then Some (mkLoadState arrived true next results senders sent) else None
  | SenderMoves i o =>
    match senders !! i with
    | Some Arriving => Some (mkLoadState (S arrived) started next results (<[i := AtGate]> senders) sent)
    | Some AtGate => if started then Some (mkLoadState arrived started next results (<[i := Free]> senders) sent) else None
    | Some Free =>
      let next' := (next + 1) mod 2 ^ 64 in
      if FLAGS_requests flags <=? next then Some (mkLoadState arrived started next' results (<[i := Done]> senders) sent)
      else Some (mkLoadState arrived started next' results (<[i := Calling next]> senders) (sent ++ [next]))
    | Some (Calling index) =>
      Some (mkLoadState arrived started next (<[Z.to_nat index := filled_result flags index o]> results) (<[i := Free]> senders) sent)
    | Some Done | None => None
    end
  end.

(** ** Every request is made once *)
Definition load_steps (flags : load_flags) (s s' : load_state) : Prop := exists m, load_step flags m s = Some s'.

Definition arriving (x : sender) : nat := match x with Arriving => 1 | _ => 0 end.
Definition ended (x : sender) : nat := match x with Done => 1 | _ => 0 end.
Definition sender_work (x : sender) : nat := match x with Arriving => 3 | AtGate | Calling _ => 2 | Free => 1 | Done => 0 end.
Definition load_work (flags : load_flags) (s : load_state) : nat :=
  sum_list_with sender_work (ld_senders s) + 2 * Z.to_nat (FLAGS_requests flags - next_index s) + (if gate_started s then 0 else 1).

Lemma sum_replace (f : sender -> nat) l i x y : l !! i = Some x -> (sum_list_with f (<[i := y]> l) + f x = sum_list_with f l + f y)%nat.
Proof.
  revert i. induction l as [|z l IH]; intros i H; [done|]. destruct i as [|i].
  - injection H as ->. cbn. lia.
  - change (<[S i := y]> (z :: l)) with (z :: <[i := y]> l). cbn. specialize (IH i H). lia.
Qed.

Lemma sum_below (f : sender -> nat) l i x : (forall y, f y <= 1)%nat -> l !! i = Some x -> f x = 0%nat -> (sum_list_with f l < length l)%nat.
Proof.
  intros Hf. assert (forall l, sum_list_with f l <= length l)%nat as Hle.
  { intros l'. induction l' as [|y l' IH]; [done|]. cbn. specialize (Hf y). lia. }
  revert i. induction l as [|y l IH]; intros i H Hx; [done|]. destruct i as [|i].
  - injection H as ->. cbn. specialize (Hle l). lia.
  - cbn. specialize (IH i H Hx). specialize (Hf y). lia.
Qed.

#[global] Instance sender_eq_dec : EqDecision sender.
Proof. solve_decision. Defined.

Section load.
Context (flags : load_flags).
Let N := FLAGS_requests flags.
Let C := FLAGS_concurrency flags.
Context (Hsizes : 0 < C <= N) (Hwide : N + C < 2 ^ 64).

(** The numbers taken so far. *)
Definition taken (s : load_state) : Z := Z.min (next_index s) (FLAGS_requests flags).

Record load_inv (s : load_state) : Prop := {
  li_senders : length (ld_senders s) = Z.to_nat C;
  li_results : length (ld_results s) = Z.to_nat N;
  li_arrived : (gate_arrived s + sum_list_with arriving (ld_senders s) = Z.to_nat C)%nat;
  li_closed : gate_started s = false -> next_index s = 0 /\ forall i x, ld_senders s !! i = Some x -> x = Arriving \/ x = AtGate;
  li_open : gate_started s = true -> gate_arrived s = Z.to_nat C;
  li_next : 0 <= next_index s <= N + Z.of_nat (sum_list_with ended (ld_senders s));
  li_sent : ld_sent s = map Z.of_nat (seq 0 (Z.to_nat (taken s)));
  li_calling : forall i k, ld_senders s !! i = Some (Calling k) -> 0 <= k < taken s;
  li_alone : forall i j k, ld_senders s !! i = Some (Calling k) -> ld_senders s !! j = Some (Calling k) -> i = j;
  li_filled : forall k, 0 <= k < taken s -> (exists i, ld_senders s !! i = Some (Calling k)) \/
    exists o, ld_results s !! Z.to_nat k = Some (filled_result flags k o);
  li_done : forall i, ld_senders s !! i = Some Done -> N <= next_index s
}.

Lemma load_start_inv : load_inv (load_start flags).
Proof.
  assert (forall n i x, replicate n Arriving !! i = Some x -> x = Arriving) as Hr by by intros n i x [-> _]%lookup_replicate.
  assert (forall n, sum_list_with arriving (replicate n Arriving) = n /\ sum_list_with ended (replicate n Arriving) = 0%nat) as Hs.
  { induction n as [|n [IH1 IH2]]; [done|]. cbn. rewrite IH1, IH2. lia. }
  unfold load_start. constructor; cbn [gate_arrived gate_started next_index ld_results ld_senders ld_sent].
  - by rewrite length_replicate.
  - by rewrite length_replicate.
  - apply Hs.
  - intros _. split; [done|]. intros i x H. left. by eapply Hr.
  - done.
  - lia.
  - unfold taken. cbn. by rewrite Z.min_l by lia.
  - intros i k H. by apply Hr in H.
  - intros i j k H. by apply Hr in H.
  - unfold taken. cbn. lia.
  - intros i H. by apply Hr in H.
Qed.

(** The thread [i] goes on to [y], which is not in a call; it was not either. *)
Lemma sender_quiet arrived started next results senders sent i x y arrived' :
  load_inv (mkLoadState arrived started next results senders sent) -> senders !! i = Some x ->
  (forall k, x <> Calling k) -> (forall k, y <> Calling k) -> ended x = ended y -> y <> Done -> (arrived' + arriving y = arrived + arriving x)%nat ->
  (started = true -> arrived' = Z.to_nat C) -> (started = false -> y = AtGate) ->
  load_inv (mkLoadState arrived' started next results (<[i := y]> senders) sent).
Proof.
  intros [H1 H2 H3 H4 H5 H6 H7 H8 H9 H10 H11] Hi Hx Hy He Hnd Ha Hopen Hclosed. pose proof (sum_replace arriving _ _ _ y Hi) as Sa. pose proof (sum_replace ended _ _ _ y Hi) as Se.
  cbn [gate_arrived gate_started next_index ld_results ld_senders ld_sent taken] in *.
  assert (forall j z, <[i := y]> senders !! j = Some z -> j = i /\ z = y \/ senders !! j = Some z) as Hl.
  { intros j z [(-> & -> & _)|[_ H]]%list_lookup_insert_Some; [by left|by right]. }
  constructor; cbn [gate_arrived gate_started next_index ld_results ld_senders ld_sent taken]; try done.
  - by rewrite length_insert.
  - lia.
  - intros E. destruct (H4 E) as [-> Hall]. split; [done|]. intros j z [[_ ->]|Hj]%Hl; [right; by apply Hclosed|by eapply Hall].
  - lia.
  - intros j k [[_ E]|Hj]%Hl; [by destruct (Hy k)|by eapply H8].
  - intros j j' k [[_ E]|Hj]%Hl [[_ E']|Hj']%Hl; try (by destruct (Hy k)). by eapply H9.
  - intros k Hk. destruct (H10 k Hk) as [[j Hj]|Ho]; [left|by right]. exists j. rewrite list_lookup_insert_ne; [done|]. intros ->. rewrite Hi in Hj. injection Hj as ->. by destruct (Hx k).
  - intros j [[_ E]|Hj]%Hl; [by destruct Hnd|by eapply H11].
Qed.

Lemma move_ends arrived next results senders sent i :
  load_inv (mkLoadState arrived true next results senders sent) -> senders !! i = Some Free -> N <= next -> next + 1 < 2 ^ 64 ->
  load_inv (mkLoadState arrived true ((next + 1) mod 2 ^ 64) results (<[i := Done]> senders) sent).
Proof.
  intros [H1 H2 H3 H4 H5 H6 H7 H8 H9 H10 H11] Hi Hn Hw. pose proof (sum_replace arriving _ _ _ Done Hi) as Sa. pose proof (sum_replace ended _ _ _ Done Hi) as Se.
  cbn [gate_arrived gate_started next_index ld_results ld_senders ld_sent arriving ended] in *. unfold taken in *. cbn [next_index] in *. rewrite Z.mod_small by lia.
  assert (forall j z, <[i := Done]> senders !! j = Some z -> z = Done \/ senders !! j = Some z) as Hl.
  { intros j z [(-> & -> & _)|[_ H]]%list_lookup_insert_Some; [by left|by right]. }
  assert (Z.min (next + 1) N = Z.min next N) as Hm by lia.
  constructor; unfold taken; cbn [gate_arrived gate_started next_index ld_results ld_senders ld_sent]; fold N; rewrite ?Hm; try done.
  - by rewrite length_insert.
  - lia.
  - lia.
  - intros j k [E|Hj]%Hl; [done|by eapply H8].
  - intros j j' k [E|Hj]%Hl [E'|Hj']%Hl; [done..|by eapply H9].
  - intros k Hk. destruct (H10 k Hk) as [[j Hj]|Ho]; [left|by right]. exists j. rewrite list_lookup_insert_ne; [done|]. intros ->. by rewrite Hi in Hj.
  - intros. lia.
Qed.

Lemma move_takes arrived next results senders sent i :
  load_inv (mkLoadState arrived true next results senders sent) -> senders !! i = Some Free -> next < N ->
  load_inv (mkLoadState arrived true ((next + 1) mod 2 ^ 64) results (<[i := Calling next]> senders) (sent ++ [next])).
Proof.
  intros [H1 H2 H3 H4 H5 H6 H7 H8 H9 H10 H11] Hi Hn. pose proof (sum_replace arriving _ _ _ (Calling next) Hi) as Sa. pose proof (sum_replace ended _ _ _ (Calling next) Hi) as Se.
  cbn [gate_arrived gate_started next_index ld_results ld_senders ld_sent arriving ended] in *. unfold taken in *. cbn [next_index] in *. rewrite Z.mod_small by lia.
  assert (forall j z, <[i := Calling next]> senders !! j = Some z -> j = i /\ z = Calling next \/ senders !! j = Some z) as Hl.
  { intros j z [(-> & -> & _)|[_ H]]%list_lookup_insert_Some; [by left|by right]. }
  assert (Z.min next N = next) as Hm by lia. assert (Z.min (next + 1) N = next + 1) as Hm' by lia. fold N in H7, H8, H10. rewrite Hm in *.
  constructor; unfold taken; cbn [gate_arrived gate_started next_index ld_results ld_senders ld_sent]; fold N; rewrite ?Hm'; try done.
  - by rewrite length_insert.
  - lia.
  - lia.
  - rewrite H7. replace (Z.to_nat (next + 1)) with (Z.to_nat next + 1)%nat by lia. rewrite seq_app, map_app. cbn. by rewrite Z2Nat.id by lia.
  - intros j k [[_ [= ->]]|Hj]%Hl; [lia|]. specialize (H8 j k Hj). lia.
  - intros j j' k [[-> [= ->]]|Hj]%Hl [[-> E']|Hj']%Hl; [done| | |by eapply H9].
    + specialize (H8 _ _ Hj'). lia.
    + injection E' as ->. specialize (H8 _ _ Hj). lia.
  - intros k Hk. destruct (Z.eqb_spec k next) as [->|Hne].
    + left. exists i. by rewrite list_lookup_insert_eq by (by eapply lookup_lt_Some).
    + destruct (H10 k) as [[j Hj]|Ho]; [lia|left|by right]. exists j. rewrite list_lookup_insert_ne; [done|]. intros ->. by rewrite Hi in Hj.
  - intros j [[_ E]|Hj]%Hl; [done|]. specialize (H11 j Hj). lia.
Qed.

Lemma move_answered arrived started next results senders sent i index o :
  load_inv (mkLoadState arrived started next results senders sent) -> senders !! i = Some (Calling index) ->
  load_inv (mkLoadState arrived started next (<[Z.to_nat index := filled_result flags index o]> results) (<[i := Free]> senders) sent).
Proof.
  intros [H1 H2 H3 H4 H5 H6 H7 H8 H9 H10 H11] Hi. pose proof (sum_replace arriving _ _ _ Free Hi) as Sa. pose proof (sum_replace ended _ _ _ Free Hi) as Se.
  cbn [gate_arrived gate_started next_index ld_results ld_senders ld_sent arriving ended] in *. unfold taken in *. cbn [next_index] in *.
  assert (forall j z, <[i := Free]> senders !! j = Some z -> z = Free \/ j <> i /\ senders !! j = Some z) as Hl.
  { intros j z [(-> & -> & _)|[? H]]%list_lookup_insert_Some; [by left|by right]. }
  pose proof (H8 _ _ Hi) as Hrange.
  constructor; unfold taken; cbn [gate_arrived gate_started next_index ld_results ld_senders ld_sent]; fold N; fold N in H7, H8, H10, Hrange; try done.
  - by rewrite length_insert.
  - by rewrite length_insert.
  - lia.
  - intros E. destruct (H4 E) as [_ Hall]. by destruct (Hall _ _ Hi).
  - lia.
  - intros j k [E|[_ Hj]]%Hl; [done|by eapply H8].
  - intros j j' k [E|[_ Hj]]%Hl [E'|[_ Hj']]%Hl; [done..|by eapply H9].
  - intros k Hk. destruct (Z.eqb_spec k index) as [->|Hne].
    + right. exists o. rewrite list_lookup_insert_eq; [done|]. lia.
    + destruct (H10 k Hk) as [[j Hj]|[o' Ho]]; [left; exists j|right; exists o'].
      * rewrite list_lookup_insert_ne; [done|]. intros ->. rewrite Hi in Hj. by injection Hj as ->.
      * rewrite list_lookup_insert_ne; [done|]. lia.
  - intros j [E|[_ Hj]]%Hl; [done|by eapply H11].
Qed.

Lemma load_step_inv s s' : load_inv s -> load_steps flags s s' -> load_inv s' /\ (load_work flags s' < load_work flags s)%nat.
Proof.
  intros Hiv [m H]. destruct s as [arrived started next results senders sent]. unfold load_step in H. unfold load_work.
  destruct m as [i o|].
  - destruct (senders !! i) as [[| | |index|]|] eqn:Hi; [..|done|done].
    + injection H as <-. pose proof (sum_replace sender_work _ _ _ AtGate Hi) as Sw. split; [|cbn in *; lia].
      eapply sender_quiet; [exact Hiv|exact Hi|done|done|done|done|cbn; lia| |done]. intros ->. pose proof (li_open _ Hiv eq_refl) as Ho. pose proof (li_arrived _ Hiv) as Ha.
      pose proof (sum_replace arriving _ _ _ AtGate Hi) as Sa. cbn in *. lia.
    + destruct started; [|done]. injection H as <-. pose proof (sum_replace sender_work _ _ _ Free Hi) as Sw. split; [|cbn in *; lia].
      eapply sender_quiet; [exact Hiv|exact Hi|done|done|done|done|done| |done]. intros _. exact (li_open _ Hiv eq_refl).
    + assert (started = true) as -> by (destruct started; [done|]; destruct (proj2 (li_closed _ Hiv eq_refl) _ _ Hi); done).
      pose proof (li_next _ Hiv) as Hnx. cbn [next_index ld_senders] in Hnx.
      assert (sum_list_with ended senders < length senders)%nat as Hb by (eapply sum_below; [intros []; cbn; lia|exact Hi|done]).
      pose proof (li_senders _ Hiv) as Hls. cbn [ld_senders] in Hls. fold N in H. destruct (Z.leb_spec N next) as [Hn|Hn]; injection H as <-.
      * pose proof (sum_replace sender_work _ _ _ Done Hi) as Sw. split; [apply move_ends; [done..|lia]|]. cbn [next_index gate_started ld_senders sender_work] in *. rewrite Z.mod_small by lia. lia.
      * pose proof (sum_replace sender_work _ _ _ (Calling next) Hi) as Sw. split; [by apply move_takes|]. cbn [next_index gate_started ld_senders sender_work] in *. rewrite Z.mod_small by lia.
        fold N. lia.
    + injection H as <-. pose proof (sum_replace sender_work _ _ _ Free Hi) as Sw. split; [by apply move_answered|]. cbn in *. lia.
  - destruct started; [done|]. cbn [negb andb] in H. destruct (Nat.eqb_spec arrived (Z.to_nat (FLAGS_concurrency flags))) as [E|]; [|done]. injection H as <-.
    split; [|cbn; lia]. destruct Hiv as [H1 H2 H3 H4 H5 H6 H7 H8 H9 H10 H11]. by constructor.
Qed.

Lemma load_reachable s : rtc (load_steps flags) (load_start flags) s -> load_inv s.
Proof.
  assert (forall s1 s2, rtc (load_steps flags) s1 s2 -> load_inv s1 -> load_inv s2) as Hall.
  { intros s1 s2 Hr. induction Hr as [|? ? ? H12 _ IH]; [done|]. intros Hi. apply IH. by eapply load_step_inv. }
  intros H. eapply Hall; [exact H|apply load_start_inv].
Qed.

Lemma load_bounded n : forall s s', load_inv s -> nsteps (load_steps flags) n s s' -> (n <= load_work flags s)%nat.
Proof.
  induction n as [|n IH]; intros s s' Hiv H; [lia|]. inversion H as [|? ? s1 ? H1 H2]; subst. destruct (load_step_inv _ _ Hiv H1) as [Hiv1 Hlt].
  specialize (IH s1 s' Hiv1 H2). lia.
Qed.

Lemma all_senders (P : sender -> Prop) `{forall x, Decision (P x)} l : Forall P l \/ exists i x, l !! i = Some x /\ ~ P x.
Proof.
  destruct (decide (Forall P l)) as [|Hn]; [by left|right]. apply not_Forall_Exists in Hn; [|apply _]. apply Exists_exists in Hn as (x & Hx & Hp).
  apply list_elem_of_lookup_1 in Hx as [i Hi]. by exists i, x.
Qed.

Lemma none_arriving l : Forall (fun x => x <> Arriving) l -> sum_list_with arriving l = 0%nat.
Proof. induction 1 as [|x l Hx _ IH]; [done|]. cbn. rewrite IH. by destruct x. Qed.

Lemma load_can_move s : load_inv s -> ~ Forall (fun x => x = Done) (ld_senders s) -> exists s', load_steps flags s s'.
Proof.
  intros Hiv Hnot. destruct s as [arrived started next results senders sent]. cbn [ld_senders] in Hnot. pose (o := mkCallOutcome (Err []) 0).
  assert (forall i x, senders !! i = Some x -> x = Arriving \/ x = Free \/ (exists k, x = Calling k) \/ x = AtGate /\ started = true ->
    exists s', load_steps flags (mkLoadState arrived started next results senders sent) s') as Hgo.
  { intros i x Hi Hx. assert (is_Some (load_step flags (SenderMoves i o) (mkLoadState arrived started next results senders sent))) as [s' E].
    { cbn [load_step]. rewrite Hi. destruct Hx as [->|[->|[[k ->]|[-> ->]]]]; [by eexists| |by eexists..]. destruct (FLAGS_requests flags <=? next); by eexists. }
    exists s'. by exists (SenderMoves i o). }
  destruct (all_senders (fun x => x = Done) senders) as [|(i & x & Hi & Hx)]; [done|].
  destruct x as [| | |k|]; [eapply Hgo; eauto| |eapply Hgo; eauto 10|eapply Hgo; eauto 10|done].
  destruct started; [eapply Hgo; eauto 10|].
  destruct (all_senders (fun x => x <> Arriving) senders) as [HF|(j & y & Hj & Hy)].
  - apply none_arriving in HF. pose proof (li_arrived _ Hiv) as Ha. cbn in Ha. eexists. exists StartWhenReady. cbn.
    rewrite (proj2 (Nat.eqb_eq _ _)) by (fold C; lia). reflexivity.
  - apply (Hgo j y Hj). left. by destruct y; [| destruct Hy..].
Qed.

Lemma load_rests s : load_inv s -> exists s', rtc (load_steps flags) s s' /\ Forall (fun x => x = Done) (ld_senders s').
Proof.
  remember (load_work flags s) as n eqn:En. revert s En. induction (lt_wf n) as [n _ IH]. intros s -> Hiv.
  assert (forall s', load_steps flags s s' -> exists s', rtc (load_steps flags) s s' /\ Forall (fun x => x = Done) (ld_senders s')) as Hstep.
  { intros s1 H1. destruct (load_step_inv _ _ Hiv H1) as [Hiv1 Hlt]. destruct (IH _ Hlt s1 eq_refl Hiv1) as (s' & Hr & Hd). exists s'. split; [by eapply rtc_l|done]. }
  destruct (decide (Forall (fun x => x = Done) (ld_senders s))) as [Hd|Hd]; [by exists s; split; [apply rtc_refl|]|].
  destruct (load_can_move s Hiv Hd) as [s1 H1]. by eapply Hstep.
Qed.
End load.

(** ** The requests differ *)
Lemma PutLe64_bytes value : PutLe64 value = le_bytes 8 value.
Proof. reflexivity. Qed.

Lemma request_id_inj flags i j : 0 <= i < 2 ^ 64 - 1 -> 0 <= j < 2 ^ 64 - 1 -> MakeRequestId flags i = MakeRequestId flags j -> i = j.
Proof.
  unfold MakeRequestId. intros Hi Hj [_ H]%app_inj_1; [|reflexivity]. rewrite !PutLe64_bytes, !Z.mod_small in H by lia.
  apply le_bytes_inj in H; [lia|cbn; lia..].
Qed.

Lemma load_key_inj flags i j : 0 <= i < 2 ^ 64 -> 0 <= j < 2 ^ 64 -> load_key flags i = load_key flags j -> i = j.
Proof.
  unfold load_key. intros Hi Hj H%app_inv_head. apply (f_equal (fun s => read_digits 0 (s ++ []))) in H.
  rewrite !read_to_string in H by (done || lia). by injection H as ->.
Qed.

Lemma request_id_nonzero flags i : 0 <= i < 2 ^ 64 - 1 -> IsAllZeroRequestId (MakeRequestId flags i) = false /\ length (MakeRequestId flags i) = 16%nat.
Proof.
  intros Hi. split; [|reflexivity]. apply not_true_iff_false. intros H. unfold IsAllZeroRequestId, MakeRequestId in H. rewrite forallb_app in H. apply andb_true_iff in H as [_ H].
  assert (le_bytes 8 (i + 1) = le_bytes 8 0) as E.
  { rewrite PutLe64_bytes, Z.mod_small in H by lia. rewrite le_bytes_0. rewrite forallb_forall in H. apply list_eq_same_length with 8%nat; [reflexivity|reflexivity|].
    intros k x y _ Hx Hy. apply lookup_replicate in Hy as [-> _]. apply list_elem_of_lookup_2, list_elem_of_In, H in Hx. by apply Z.eqb_eq in Hx. }
  apply le_bytes_inj in E; [lia|cbn; lia..].
Qed.

Lemma NoDup_numbers {A} (f : Z -> A) n : (forall i j, 0 <= i < Z.of_nat n -> 0 <= j < Z.of_nat n -> f i = f j -> i = j) -> NoDup (map f (map Z.of_nat (seq 0 n))).
Proof.
  intros Hf. rewrite map_map. apply NoDup_fmap_2_strong; [|apply NoDup_seq]. intros i j Hi Hj E. apply elem_of_seq in Hi, Hj. apply Nat2Z.inj, Hf; [lia|lia|exact E].
Qed.

(** C30. The load client. Whatever the schedule of its threads and the outcomes of
    the calls, a run makes a bounded number of moves and goes on until all threads
    have ended; no call is made before every thread has arrived at the gate. When
    the threads have ended, every request was made exactly once, in the order of
    the numbers, each with its own key and its own Request-ID, none of them zero,
    and every result is that of its own request. *)
Theorem load_run flags s :
  0 < FLAGS_concurrency flags <= FLAGS_requests flags -> FLAGS_requests flags + FLAGS_concurrency flags < 2 ^ 64 ->
  rtc (load_steps flags) (load_start flags) s ->
  (forall n s', nsteps (load_steps flags) n s s' -> (n <= load_work flags s)%nat) /\
  (exists s', rtc (load_steps flags) s s' /\ Forall (fun x => x = Done) (ld_senders s')) /\
  (ld_sent s <> [] -> gate_arrived s = Z.to_nat (FLAGS_concurrency flags)) /\
  NoDup (map (MakeRequestId flags) (ld_sent s)) /\ NoDup (map (load_key flags) (ld_sent s)) /\
  Forall (fun k => IsAllZeroRequestId (MakeRequestId flags k) = false) (ld_sent s) /\
  (Forall (fun x => x = Done) (ld_senders s) ->
     ld_sent s = map Z.of_nat (seq 0 (Z.to_nat (FLAGS_requests flags))) /\
     forall k, 0 <= k < FLAGS_requests flags -> exists o, ld_results s !! Z.to_nat k = Some (filled_result flags k o)).
Proof.
  intros Hs Hw Hr. pose proof (load_reachable flags Hs Hw s Hr) as Hiv.
  assert (taken flags s <= FLAGS_requests flags) as Ht by (unfold taken; lia). pose proof (li_next _ _ Hiv) as Hnx.
  conj_split.
  - intros n s' Hn. by eapply load_bounded.
  - by apply load_rests.
  - intros Hsent. destruct (gate_started s) eqn:E; [by apply (li_open _ _ Hiv)|]. destruct (li_closed _ _ Hiv E) as [H0 _]. destruct Hsent.
    rewrite (li_sent _ _ Hiv). unfold taken. by rewrite H0, Z.min_l by lia.
  - rewrite (li_sent _ _ Hiv). apply NoDup_numbers. intros i j Hi Hj. apply request_id_inj; lia.
  - rewrite (li_sent _ _ Hiv). apply NoDup_numbers. intros i j Hi Hj. apply load_key_inj; lia.
  - rewrite (li_sent _ _ Hiv). apply Forall_map, Forall_forall. intros k Hk%elem_of_seq. apply request_id_nonzero. lia.
  - intros Hd. assert (taken flags s = FLAGS_requests flags) as Ht'.
    { destruct (ld_senders s) as [|x l] eqn:El; [pose proof (li_senders _ _ Hiv) as Hl; rewrite El in Hl; cbn in Hl; lia|].
      apply Forall_cons in Hd as [-> _]. pose proof (li_done _ _ Hiv 0%nat) as H. rewrite El in H. specialize (H eq_refl). unfold taken. lia. }
    split; [by rewrite (li_sent _ _ Hiv), Ht'|]. intros k Hk. destruct (li_filled _ _ Hiv k) as [[i Hi]|Ho]; [lia| |done].
    rewrite Forall_lookup in Hd. by apply Hd in Hi.
Qed.

Fixpoint load_play (flags : load_flags) (moves : list load_move) (s : load_state) : option load_state :=
  match moves with
  | [] => Some s
  | m :: moves => match load_step flags m s with Some s' => load_play flags moves s' | None => None end
  end.

Lemma load_play_steps flags moves : forall s s', load_play flags moves s = Some s' -> rtc (load_steps flags) s s'.
Proof.
  induction moves as [|m moves IH]; intros s s' H; [injection H as <-; apply rtc_refl|]. cbn in H. destruct (load_step flags m s) as [s1|] eqn:E; [|done].
  eapply rtc_l; [by exists m|by apply IH].
Qed.

(** Two threads and three requests, the second thread being the faster one. *)
Definition load_flags0 : load_flags := mkLoadFlags 2 3 10 (text "load-") 1 1 30000 [].
Definition load_moves0 : list load_move :=
  let o := mkCallOutcome (Ok new_put_response) 5 in
  [SenderMoves 0 o; SenderMoves 1 o; StartWhenReady; SenderMoves 1 o; SenderMoves 1 o; SenderMoves 0 o; SenderMoves 0 o; SenderMoves 1 o; SenderMoves 1 o;
   SenderMoves 1 o; SenderMoves 1 o; SenderMoves 0 o; SenderMoves 0 o].

Lemma load_run_witness : exists s, load_play load_flags0 load_moves0 (load_start load_flags0) = Some s /\ ld_sent s = [0; 1; 2] /\ NoDup (map (load_key load_flags0) (ld_sent s)).
Proof.
  destruct (load_play load_flags0 load_moves0 (load_start load_flags0)) as [s|] eqn:E; [|vm_compute in E; discriminate]. exists s. split; [reflexivity|].
  assert (FLAGS_concurrency load_flags0 = 2 /\ FLAGS_requests load_flags0 = 3) as [EC ER] by (split; reflexivity).
  destruct (load_run load_flags0 s) as (_ & _ & _ & _ & Hk & _ & Hend).
  - rewrite EC, ER. lia.
  - rewrite EC, ER. lia.
  - exact (load_play_steps _ _ _ _ E).
  - split; [|exact Hk]. assert (Forall (fun x => x = Done) (ld_senders s)) as Hd.
    { vm_compute in E. injection E as <-. repeat constructor. }
    exact (proj1 (Hend Hd)).
Defined.

(** ** The summary *)
Definition Percentile (sorted : list Z) (percentile : nat) : Z :=
  match sorted with
  | [] => 0
  | _ => nth ((length sorted - 1) * Nat.min percentile 100 / 100) sorted 0
  end.

Record load_tally := mkTally {
  tl_ok : Z; tl_overloaded : Z; tl_rpc_error : Z; tl_unexpected : Z; ok_latencies : list Z; overloaded_latencies : list Z
}.

Definition count_result (t : load_tally) (r : RequestResult) : load_tally :=
  let 'mkTally ok overloaded rpc_error unexpected oks overloads := t in
  if rs_rpc_failed r then mkTally ok overloaded (rpc_error + 1) unexpected oks overloads
  else if bool_decide (rs_status r = PUT_STATUS_OK) then mkTally (ok + 1) overloaded rpc_error unexpected (oks ++ [rs_latency_us r]) overloads
  else if bool_decide (rs_status r = PUT_STATUS_OVERLOADED)
  then mkTally ok (overloaded + 1) rpc_error unexpected oks (overloads ++ [rs_latency_us r])
  else mkTally ok overloaded rpc_error (unexpected + 1) oks overloads.

Definition load_count (results : list RequestResult) : load_tally :=
  let 'mkTally ok overloaded rpc_error unexpected oks overloads := fold_left count_result results (mkTally 0 0 0 0 [] []) in
  mkTally ok overloaded rpc_error unexpected (merge_sort Z.le oks) (merge_sort Z.le overloads).

Definition maximum (sorted : list Z) : Z := match last sorted with Some z => z | None => 0 end.

Definition tab : bytes := [9].

Definition result_line (r : RequestResult) : bytes :=
  to_string (rs_index r) ++ tab ++ (if rs_rpc_failed r then text "RPC_ERROR" else PutStatus_Name (rs_status r)) ++ tab ++ rs_key r ++ tab ++
  rs_request_id_hex r ++ tab ++ to_string (rs_latency_us r) ++ tab ++ (if bool_decide (rs_detail r = []) then text "-" else rs_detail r) ++ newline.

(** What is written to the result file. *)
Definition WriteResults (results : list RequestResult) : bytes :=
  text "index" ++ tab ++ text "status" ++ tab ++ text "key" ++ tab ++ text "request_id" ++ tab ++ text "latency_us" ++ tab ++ text "detail" ++ newline ++
  concat (map result_line results).

Definition load_summary (flags : load_flags) (t : load_tally) : bytes :=
  text "requests=" ++ to_string (FLAGS_requests flags) ++ text " concurrency=" ++ to_string (FLAGS_concurrency flags) ++
  text " payload_size=" ++ to_string (FLAGS_payload_size flags) ++ text " ok=" ++ to_string (tl_ok t) ++
  text " overloaded=" ++ to_string (tl_overloaded t) ++ text " rpc_error=" ++ to_string (tl_rpc_error t) ++
  text " unexpected=" ++ to_string (tl_unexpected t) ++
  text " ok_latency_p50_us=" ++ to_string (Percentile (ok_latencies t) 50) ++
  text " ok_latency_p95_us=" ++ to_string (Percentile (ok_latencies t) 95) ++
  text " ok_latency_max_us=" ++ to_string (maximum (ok_latencies t)) ++
  text " overloaded_latency_p50_us=" ++ to_string (Percentile (overloaded_latencies t) 50) ++
  text " overloaded_latency_p95_us=" ++ to_string (Percentile (overloaded_latencies t) 95) ++
  text " overloaded_latency_max_us=" ++ to_string (maximum (overloaded_latencies t)) ++ newline.

(** What surrounds the load client: whether the channel can be set up and the
    result file written, and the text of a failing first call. *)
Record load_world := mkLoadWorld { load_channel_init : bool; warmup_failure : option bytes; results_written : bool }.

(** Up to the threads: the process ends, or the digest of the payload is known. *)
Definition load_prepare (EVP_Digest : bytes -> option bytes) (flags : load_flags) (w : load_world) : process + bytes :=
  if load_refused flags
  then inl (refuse 2 (text "positive concurrency, requests, payload_size, timeout_ms, and a nonempty key_prefix are required; concurrency must not exceed requests" ++ newline))
  else match client_sha256 EVP_Digest (replicate (Z.to_nat (FLAGS_payload_size flags)) 80) with
       | None => inl (refuse 3 (text "could not compute payload SHA-256" ++ newline))
       | Some digest =>
         if negb (load_channel_init w) then inl (refuse 4 (text "could not initialize brpc channel" ++ newline))
         else match warmup_failure w with
              | Some failure => inl (refuse 5 (text "could not warm up brpc channel: " ++ failure ++ newline))
              | None => inr digest
              end
       end.

(** After the threads, with what the result file then holds. *)
Definition load_finish (flags : load_flags) (w : load_world) (results : list RequestResult) : process * option bytes :=
  let t := load_count results in
  let print := mkProcess (if (tl_rpc_error t =? 0) && (tl_unexpected t =? 0) then 0 else 10) (load_summary flags t) [] in
  if bool_decide (FLAGS_result_file flags = []) then (print, None)
  else if results_written w then (print, Some (WriteResults results))
  else (refuse 6 (text "could not write result file: " ++ FLAGS_result_file flags ++ newline), None).

(** *** What the numbers mean *)
Definition is_failed (r : RequestResult) : bool := rs_rpc_failed r.
Definition is_stored (r : RequestResult) : bool := negb (rs_rpc_failed r) && bool_decide (rs_status r = PUT_STATUS_OK).
Definition is_overloaded (r : RequestResult) : bool := negb (rs_rpc_failed r) && bool_decide (rs_status r = PUT_STATUS_OVERLOADED).
Definition is_unexpected (r : RequestResult) : bool := negb (is_failed r) && negb (is_stored r) && negb (is_overloaded r).

Definition number (f : RequestResult -> bool) (l : list RequestResult) : Z := Z.of_nat (length (List.filter f l)).
Definition latencies (f : RequestResult -> bool) (l : list RequestResult) : list Z := map rs_latency_us (List.filter f l).

Lemma fold_counts l : forall ok overloaded rpc_error unexpected oks overloads,
  fold_left count_result l (mkTally ok overloaded rpc_error unexpected oks overloads) =
  mkTally (ok + number is_stored l) (overloaded + number is_overloaded l) (rpc_error + number is_failed l) (unexpected + number is_unexpected l)
    (oks ++ latencies is_stored l) (overloads ++ latencies is_overloaded l).
Proof.
  unfold number, latencies. induction l as [|r l IH]; intros ok overloaded rpc_error unexpected oks overloads; cbn [fold_left List.filter].
  { cbn. rewrite !app_nil_r, !Z.add_0_r. reflexivity. }
  unfold count_result at 2. unfold is_unexpected, is_stored, is_overloaded, is_failed in *. destruct (rs_rpc_failed r); cbn [negb andb].
  { rewrite IH. cbn [length map]. f_equal; lia. }
  destruct (bool_decide (rs_status r = PUT_STATUS_OK)) eqn:E1; cbn [negb andb].
  { apply bool_decide_eq_true in E1. rewrite (bool_decide_false (rs_status r = PUT_STATUS_OVERLOADED)) by (by rewrite E1). rewrite IH. cbn [length map]. rewrite <- app_assoc. f_equal; lia. }
  destruct (bool_decide (rs_status r = PUT_STATUS_OVERLOADED)) eqn:E2; cbn [negb andb]; rewrite IH; cbn [length map]; rewrite <- ?app_assoc; f_equal; lia.
Qed.

Lemma load_count_spec results : load_count results =
  mkTally (number is_stored results) (number is_overloaded results) (number is_failed results) (number is_unexpected results)
    (merge_sort Z.le (latencies is_stored results)) (merge_sort Z.le (latencies is_overloaded results)).
Proof. unfold load_count. by rewrite fold_counts. Qed.

Lemma numbers_add l : number is_stored l + number is_overloaded l + number is_failed l + number is_unexpected l = Z.of_nat (length l).
Proof.
  unfold number. induction l as [|r l IH]; [done|]. cbn [List.filter]. unfold is_unexpected, is_stored, is_overloaded, is_failed in *.
  destruct (rs_rpc_failed r); cbn [negb andb]; [cbn [length]; lia|]. destruct (bool_decide (rs_status r = PUT_STATUS_OK)) eqn:E1; cbn [negb andb].
  - apply bool_decide_eq_true in E1. rewrite (bool_decide_false (rs_status r = PUT_STATUS_OVERLOADED)) by (by rewrite E1). cbn [length]. lia.
  - destruct (bool_decide (rs_status r = PUT_STATUS_OVERLOADED)); cbn [negb andb length]; lia.
Qed.

Lemma number_zero f l : number f l = 0 <-> Forall (fun r => f r = false) l.
Proof.
  unfold number. induction l as [|r l IH]; [by split; [constructor|]|]. cbn [List.filter]. rewrite Forall_cons. destruct (f r).
  - split; [cbn [length]; lia|]. by intros [? _].
  - rewrite IH. by split; [|intros [_ ?]].
Qed.

Lemma sorted_nth l : StronglySorted Z.le l -> forall i j, (i <= j)%nat -> (j < length l)%nat -> nth i l 0 <= nth j l 0.
Proof.
  induction 1 as [|x l Hs IH Hx]; intros i j Hij Hj; [cbn in Hj; lia|]. destruct i as [|i], j as [|j]; cbn in *; [lia| |lia|apply IH; lia].
  rewrite Forall_forall in Hx. apply Hx. apply list_elem_of_In, nth_In. lia.
Qed.

Lemma percentile_index n p : (0 < n)%nat -> ((n - 1) * Nat.min p 100 / 100 < n)%nat.
Proof. intros Hn. apply Nat.Div0.div_lt_upper_bound. nia. Qed.

Lemma Percentile_mono l p q : StronglySorted Z.le l -> (p <= q)%nat -> Percentile l p <= Percentile l q.
Proof.
  intros Hs Hpq. destruct l as [|x l]; [done|]. unfold Percentile. apply sorted_nth; [done| |apply percentile_index; cbn; lia].
  apply Nat.Div0.div_le_mono. nia.
Qed.

Lemma Percentile_in l p : l <> [] -> Percentile l p ∈ l.
Proof. intros Hl. destruct l as [|x l]; [done|]. apply list_elem_of_In, nth_In, percentile_index. cbn. lia. Qed.

Lemma Percentile_last l : Percentile l 100 = maximum l.
Proof.
  destruct l as [|x l]; [done|]. unfold Percentile, maximum. rewrite Nat.min_id, Nat.div_mul by lia. destruct (last (x :: l)) as [z|] eqn:E.
  - apply last_Some in E as [l' ->]. rewrite length_app, Nat.add_sub. by rewrite app_nth2, Nat.sub_diag by lia.
  - by apply last_None in E.
Qed.

(** The summary of the load client. The four counts add up to the requests;
    the sorted latencies are those of the stored and of the overloaded requests;
    the percentiles are among them and grow up to the maximum. The exit code is 0
    exactly if the results could be written and every request was answered, with
    OK or with OVERLOADED. *)
Theorem load_report flags w results :
  let t := load_count results in
  tl_ok t + tl_overloaded t + tl_rpc_error t + tl_unexpected t = Z.of_nat (length results) /\
  ok_latencies t ≡ₚ latencies is_stored results /\ overloaded_latencies t ≡ₚ latencies is_overloaded results /\
  (forall l p q, l = ok_latencies t \/ l = overloaded_latencies t -> (p <= q <= 100)%nat ->
     Percentile l p <= Percentile l q <= maximum l /\ (l <> [] -> Percentile l p ∈ l)) /\
  (exit_code (load_finish flags w results).1 = 0 <->
     (FLAGS_result_file flags = [] \/ results_written w = true) /\ Forall (fun r => is_stored r = true \/ is_overloaded r = true) results).
Proof.
  intros t. unfold t, load_finish. rewrite load_count_spec. cbn [tl_ok tl_overloaded tl_rpc_error tl_unexpected ok_latencies overloaded_latencies]. conj_split.
  - apply numbers_add.
  - apply merge_sort_Permutation.
  - apply merge_sort_Permutation.
  - intros l p q Hl [Hpq Hq]. assert (StronglySorted Z.le l) as Hs by (destruct Hl; subst; apply StronglySorted_merge_sort; apply _).
    rewrite <- Percentile_last. split; [split; by apply Percentile_mono|apply Percentile_in].
  - assert ((number is_failed results =? 0) && (number is_unexpected results =? 0) = true <-> Forall (fun r => is_stored r = true \/ is_overloaded r = true) results) as Hcode.
    { rewrite andb_true_iff, !Z.eqb_eq, !number_zero, !Forall_forall. split.
      - intros [H1 H2] r Hr. specialize (H1 r Hr). specialize (H2 r Hr). unfold is_unexpected in H2. rewrite H1 in H2. destruct (is_stored r), (is_overloaded r); auto; done.
      - intros H. split; intros r Hr; specialize (H r Hr); unfold is_unexpected, is_stored, is_overloaded, is_failed in *; destruct (rs_rpc_failed r); cbn in *;
          try done; destruct H as [-> | ->]; by rewrite ?andb_false_r. }
    rewrite <- Hcode. destruct (_ && _); (case_bool_decide; [|destruct (results_written w)]); cbn [fst exit_code refuse]; naive_solver.
Qed.
